(* ===== verification/_CoqProject ===== *)
-Q . S2P
Prelude.v
Codec.v
WireModel.v
WireTime.v
WireIdentity.v
GitObject.v
GitResources.v
GitLoose.v
GitDelta.v
GitPackIndex.v
GitIndexFile.v
GitHandle.v
GitPack.v
GitRepo.v
OrdMap.v
Observation.v
Forest.v
PathPairs.v
Components.v
Correlate.v
ScanResources.v
ScanPath.v
EvalModel.v
Controls.v
EvalControls.v
EvalFindings.v
EvalClaims.v
EvalReferences.v
EvalPolicy.v
EvalFacts.v
EvalTrace.v
EvalStructural.v
EvalBuilt.v
EvalOutcome.v
EvalGuarantees.v
CtlModel.v
CtlIngress.v
CtlFrame.v
CtlCapacity.v
CtlRecord.v
CtlPublication.v
CtlStore.v
CtlDisk.v
CtlMemory.v
CtlRow.v
CtlLedgerApi.v
CtlController.v
CtlFlow.v
CtlLedger.v
CtlExample.v
CtlAdmission.v
CtlSteps.v
CtlHistory.v
ScanLines.v
ScanLfs.v
ScanDeclared.v
ScanDocument.v
ScanScalar.v
ScanRoute.v
RelPlan.v
RelJournal.v
RelHistory.v
RelStore.v
RelCommit.v
RelMemory.v
RelWork.v
WireEnvelope.v
RelWire.v
RelAudit.v
RelStatus.v
RelCredential.v
RelOutbox.v
RelReopen.v
RelExample.v
RelDeliver.v
RelPending.v
RelSettle.v
ScanForge.v
ScanForgeUrl.v
ScanForgeExact.v
