(* ===== verification/Prelude.v ===== *)
(** * A verification library of amiss

    amiss checks the references of a documentation tree between two commits and
    gates changes on the result. Six parts of it are modelled here. The Git
    reader ([src/crates/amiss-git]) reads a checkout without running git. The
    correlation ([src/crates/amiss-scan/src/correlate.rs], [correlate/]) matches
    the observations of the base commit with those of the candidate. Policy
    evaluation ([src/crates/amiss-scan/src/evaluate/], [policy/]) turns the
    compared observations into findings under the scanner's controls. The
    controller ([src/controller]) takes a provider's delivery through ingress,
    a durable delivery ledger, a supervised run and the publication of its
    result. The readings of the scanner ([src/crates/amiss-scan],
    [src/crates/amiss-md]) say what lines, ignore files, pointers, policies,
    frontmatter, routers and forge URLs mean. The relations of the controller
    ([src/controller/src/relations]) compare values between the repositories of
    two subjects: deliveries select relations, work is scheduled in a durable
    journal, and the audited status is delivered to each destination. They
    share the wire vocabulary of [src/crates/amiss-wire].

    ** Conventions

    A fallible function returns [res A E] with the source's error type; a
    function with effects is a state function [sres S A E]. [OutOfFuel] is the
    third value of [res]: it is what a loop with too little fuel gives, and
    never a result of the program. Machine integers are [Z] with the source's
    checked, saturating or wrapping operation written out at each use; bytes are
    [list Byte.byte]; a validated string is the list of its UTF-8 bytes; a
    [BTreeMap] is the list of its rows in key order ([OrdMap]).

    ** Files

    - [Prelude]: results, the two Hoare-style triples ([triple] keeps an invariant,
      [hoare] has a postcondition for either outcome), integers, lists, decimal
      formatting, the binary search of [core::slice].
    - [Codec]: UTF-8, and the classes of the [hex], [sha1-checked], [sha2] and
      [flate2] crates with the laws used.
    - [WireModel], [WireTime], [WireIdentity]: object IDs, digests, repository
      paths, instants, branch references and identities of [amiss-wire].
    - [GitObject] (commit and tree grammar, object IDs), [GitResources] (byte
      meters), [GitLoose] (loose objects), [GitDelta] (pack entries, deltas),
      [GitPackIndex] (index files of packs), [GitIndexFile] (the staged index),
      [GitHandle] (files below a held directory), [GitPack] (the pack directory),
      [GitRepo] (reading an object, both pack enumerations, the index check).
      Each file is one source file or one part of it, and calls the ones before.
    - [OrdMap], [Observation]: ordered maps and the rows of a comparison.
      [Forest] (union-find), [PathPairs] (renames), [Components] (plausible edges
      and connected components), [Correlate] (the comparison of two sides).
    - [ScanResources] (the scanner's account, [resources.rs]), [ScanPath]
      (destinations joined to repository paths), [EvalModel] (finding kinds, keys,
      facts, findings, effects), [Controls] (policy, floor, debt, waivers and
      trusted time as [amiss-wire] validates them), [EvalControls] (what a change
      of policy weakens, tightened limits, the binding of controls),
      [EvalFindings], [EvalClaims], [EvalReferences] (the findings of documents,
      claims and references), [EvalPolicy] (raises, debt, waivers, the whole
      evaluation). About it: [EvalFacts] (errors), [EvalTrace] (one pass),
      [EvalStructural] (the groups of failures), [EvalBuilt] (induction over the
      construction of findings), [EvalOutcome] (the passes composed),
      [EvalGuarantees] (the theorems).
    - [CtlModel] (identities, runs, publications), [CtlIngress] (ingress policy and
      request binding), [CtlFrame] (framed files), [CtlCapacity] (record counter
      and clock metadata), [CtlRecord] (the durable record), [CtlStore] (the
      ledger's directory), [CtlLedgerApi] and [CtlLedger] (the four ledger
      operations), [CtlPublication] (what a run publishes), [CtlController]
      ([Controller::handle]).
    - About the ledger: [CtlDisk] (the laws of a directory under locks),
      [CtlMemory] (a directory that satisfies them), [CtlRow] (one locked row),
      [CtlAdmission] (counter and clock), [CtlSteps] (visits as steps of an
      abstract row machine), [CtlHistory] (sequences of visits), [CtlExample] (a
      closed instance). About the flow: [CtlFlow].
    - Readings: [ScanLines] (lines, line ranges, named regions, line fragments,
      moved claims), [ScanLfs] (pointer files), [ScanDeclared] (ignore files),
      [ScanDocument] (classification, includes and adapter bindings),
      [ScanScalar] (frontmatter, scalars, declared publication), [ScanRoute] (router
      rules and the sources they serve), [ScanForge] (the forge URLs of the
      repository), with [ScanForgeUrl] and [ScanForgeExact] (their grammar).
    - Relations: [RelPlan] (registered relations, the registry, transitions, the
      scheduling law), [RelJournal] (rows, frames and replay of the journal),
      [RelStore] (its files, locks and appending), [RelWork] (scheduling),
      [WireEnvelope] (sealed documents), [RelWire] (plans, evidence, assessments
      and the audit of a bundle), [RelStatus] (targets and published statuses),
      [RelCredential] (credential routes), [RelOutbox] (staging, claiming,
      acknowledging, settling and completing statuses). About them: [RelHistory]
      (a journal as its history), [RelCommit] (the files between any two calls),
      [RelMemory] and [RelExample] (closed instances), [RelAudit] (accepted
      audits), [RelReopen] (statuses after a restart), [RelDeliver] (staging and
      acknowledging), [RelPending] (the oldest deliveries), [RelSettle].

    ** What the theorems show

    - Reading: what the reader returns hashes to the object ID asked for
      ([GitRepo]); the parsers accept exactly their grammars and the staged
      index and the trees read back ([GitObject], [GitIndexFile]); deltas compute
      what their script says within the declared bounds ([GitDelta]); lookups in
      a checked pack index are exact ([GitPackIndex]); packs are only used after
      their cross-checks ([GitPack]); byte meters refine a set of charged members
      ([GitResources]); the index read last equals the one read first.
    - Correlation: two observations share a row exactly when the plausible edges
      connect them ([Correlate], through the equivalence that [Forest] refines);
      the rows partition both sides; the fast path for identical sides is the
      slow path; the errors are exactly the stated ones.
    - Evaluation: every structural failure of a candidate observation, however
      it was correlated, is in a finding under the digest of its key; findings and
      facts carry their own digests; a trace starts from [record], is chained and
      ends at the effective disposition; raises only raise, and a configured
      failure is lowered only by [enforce-introduced], by unexpired debt for
      exactly its key, or by a waiver within its window, each for the fact of the
      first finding of that key with a candidate fact; both at once apply neither,
      and are an error exactly then ([EvalGuarantees]). The only errors are of
      values without a canonical form or paths without a text ([EvalFacts]).
    - Controls: a debt snapshot is accepted exactly under the stated conditions, a
      waiver bundle waives each key once per tree ([Controls]); a floor only
      tightens limits, and effects without a weakening keep every protection of
      the base ([EvalControls]). The account never exceeds a limit and refuses
      exactly the first crossing ([ScanResources]).
    - Ledger: under the directory laws, every visit of every session is a step of
      an abstract machine, whatever calls fail and wherever a process stops
      ([CtlSteps], [CtlHistory]): leases exclude each other by fence and time, a
      staged publication is final and handed back unchanged. Records never exceed
      the configured number and the clock's high water never falls
      ([CtlAdmission]). Frames and stored publications read back exactly.
    - Controller: an accepted delivery was fresh, bound to its exact request, and
      is remembered at least as long as it could be replayed ([CtlIngress]);
      [handle] claims, stages, publishes and completes in this order and at most
      once, and publishes [Pass] only on the strength of two agreeing readings of
      an active change, one before the run and one after it, and a report the
      runner gave for exactly that run in between ([CtlFlow]).
    - Wire values: instants, branch references and repository paths are exactly
      their grammars, and convert without loss. A sealed document that is accepted
      is bound to its bytes, and what is emitted is accepted ([WireEnvelope]).
    - Readings: each reading is its grammar, and nothing else: lines and regions
      ([ScanLines]), pointers ([ScanLfs]), what an ignore file leaves undecided
      ([ScanDeclared]), includes and bindings ([ScanDocument]), frontmatter
      ([ScanScalar]). The candidate sources of a routed path are all that a
      router serves, each once, in the order of the rules ([ScanRoute]). A
      forge URL is taken for one of this repository exactly when it spells its
      identity, a version of the dialect and a valid path; on GitHub, GitLab and
      Gitea the version is one object ID or one trusted name ([ScanForgeExact]).
    - Relations: a registry selects exactly the relations a delivery concerns
      ([RelPlan]); journals that replay have dense fences, acknowledge each
      destination once and can always be driven on within the size reserved for
      them ([RelHistory]). With the lock held, each call commits exactly its own
      entries or leaves a prefix of them, wherever a file operation fails, and
      never fails for space ([RelWork], [RelDeliver], [RelSettle]). Deliveries are
      the oldest open ones of their shards ([RelPending]). An accepted audit
      replays from its own bytes and what the code writes is accepted
      ([RelAudit]); a status passes exactly on equal candidate values and goes
      to exactly its configured targets ([RelStatus]) under the credentials bound to them
      ([RelCredential]), and survives a restart ([RelReopen]).

    ** Fuel

    Each loop that is not structural takes fuel, and its definition passes the
    bound the source's own progress gives: the length of the input left (commit
    and tree entries, varints, deltas, extensions, inflation with the size of the
    output buffer added), the number of positions (union-find roots), the size of
    the window (binary searches), the depth limit of delta chains ([read_pack_at],
    which the source bounds by the same depth). The lemmas named [*_fuel], and the
    first conjunct of the theorems about whole functions, show that [OutOfFuel]
    is not reached.

    ** Parameters

    Classes stand for what is outside the repository: [Hex], [Hashes] and [Zlib]
    (crates), [Fs] and [Disk] (the operating system), [Json] (serde and
    serde_json, per type), [UrlParser] (the [url] crate). Their laws are separate
    classes and are assumed only where used; [rfc_hex], [toy_hash] and [mem_disk]
    are instances. [Canon] (canonical JSON, per type), [PercentDecode]
    (percent_encoding), [DocumentScanner] (the scan of a rewritten claim, which
    runs the adapters) and [ConstraintDescriptor] serve evaluation; [ReportTypes]
    are the values it only passes on. [Memmem] is substring search,
    [JournalDisk] the directory of the relation journal, [Document] and
    [JsonText] the documents as serde_json reads and writes them. Two services
    of the controller itself are parameters of the relations: [accepted_report]
    (what a report says, once it was accepted) and the two calls of the artifact
    store, [verify_artifact] and [reopen_relation_audit]. [DeliveryLedger] is
    the interface the controller is proved against and [file_ledger] its
    implementation. [Environment] holds the traits the controller calls
    (adapters, runner, clock, artifact store, the functions over reports).

    ** Not modelled

    Process and network glue: the command line, services, webhooks, provider
    adapters, the bootstrap verifier and runner, fixtures. The Markdown, AsciiDoc
    and reStructuredText adapters, which follow third-party syntax trees.
    [select_index] of the reader, which compares canonical paths of the platform.
    The memo of scanned documents beside the scanner's counters, and reading
    controls from a tree ([policy/acquire.rs], [protected_state]).
    The walk of discovery, the lookup of a reference in a snapshot and among
    heading identities, site configurations beyond the readings above, and the
    pipeline and report that compose the scanner's parts. Of the controller: the
    ledger's maintenance pass ([store/cleanup.rs]), the artifact store, the
    acquisition of relation snapshots, the external, locale and publication
    documents, and the registry of check plans ([plans.rs]). *)
From Stdlib Require Import ZArith Lia List Bool Sorting.Sorted.
From Stdlib Require Import Strings.String Strings.Byte.
From stdpp Require Import base countable list numbers sorting.

#[global] Open Scope Z_scope.

(** ** Rust's [Result] *)

(** [Ok] and [Err] are Rust's; [OutOfFuel] is the value of a loop whose
    iteration bound was too small. Totality theorems show it is never the
    value of the modelled functions on real inputs. *)
Inductive res (A E : Type) : Type :=
  | Ok (a : A)
  | Err (e : E)
  | OutOfFuel.
Arguments Ok {A E} a.
Arguments Err {A E} e.
Arguments OutOfFuel {A E}.

Declare Scope res_scope.
Delimit Scope res_scope with res.
#[global] Open Scope res_scope.

(** Rust's [?] operator. *)
Notation "'let?' x := e 'in' k" :=
  (match e with Ok x => k | Err err => Err err | OutOfFuel => OutOfFuel end)
  (at level 10, x pattern, e at level 100, k at level 200)
  : res_scope.

Definition ok_or {A E} (o : option A) (e : E) : res A E :=
  match o with Some a => Ok a | None => Err e end.

Definition is_ok {A E} (r : res A E) : bool :=
  match r with Ok _ => true | _ => false end.

(** [Result::ok]. *)
Definition res_ok {A E} (r : res A E) : option A :=
  match r with Ok a => Some a | _ => None end.

(** [Iterator::try_fold] and [collect::<Result<Vec<_>, _>>]. *)
Fixpoint res_map {A B E} (f : A -> res B E) (l : list A) : res (list B) E :=
  match l with
  | [] => Ok []
  | x :: l => let? y := f x in let? ys := res_map f l in Ok (y :: ys)
  end.

(** [std::io::ErrorKind], as far as the program tells kinds apart. *)
Module IoError.
Inductive t := NotFound | InvalidInput | UnexpectedEof | Interrupted | Other.
#[global] Instance eq_dec : EqDecision t.
Proof. solve_decision. Defined.
End IoError.

(** ** State and errors *)

(** A computation that mutates a state of type [S] ([&mut S] in the source) and
    returns a [Result]. The state is the one left behind also on an error. *)
Definition sres (S A E : Type) : Type := S -> res A E * S.

Definition sret {S A E} (a : A) : sres S A E := fun s => (Ok a, s).
Definition sfail {S A E} (e : E) : sres S A E := fun s => (Err e, s).
Definition slift {S A E} (r : res A E) : sres S A E := fun s => (r, s).
Definition sget {S E} : sres S S E := fun s => (Ok s, s).
Definition sput {S E} (s : S) : sres S unit E := fun _ => (Ok tt, s).
Definition sbind {S A B E} (m : sres S A E) (k : A -> sres S B E) : sres S B E :=
  fun s => match m s with
           | (Ok a, s) => k a s
           | (Err e, s) => (Err e, s)
           | (OutOfFuel, s) => (OutOfFuel, s)
           end.

Notation "'let!' x := e 'in' k" := (sbind e (fun x => k))
  (at level 10, x pattern, e at level 100, k at level 200) : res_scope.

(** [for x in l { f(x)?; }]. *)
Fixpoint siter {S A E} (f : A -> sres S unit E) (l : list A) : sres S unit E :=
  match l with
  | [] => sret tt
  | x :: l => let! _ := f x in siter f l
  end.

(** ** Machine integers *)

(** Every Rust integer is a [Z]; the width is in the operation. [usize] is the
    64-bit one of the released targets. *)
Abbreviation usize := Z (only parsing).
Abbreviation u64 := Z (only parsing).
Abbreviation u32 := Z (only parsing).
Abbreviation u16 := Z (only parsing).
Abbreviation i64 := Z (only parsing).

Definition u16_max : Z := 65535.
Definition u32_max : Z := 4294967295.
Definition u64_max : Z := 18446744073709551615.
Definition usize_max : Z := u64_max.
(** No Rust allocation is larger than [isize::MAX] bytes. *)
Definition isize_max : Z := 9223372036854775807.

Definition sat_add (a b : usize) : usize := Z.min (a + b) usize_max.
Definition sat_mul (a b : usize) : usize := Z.min (a * b) usize_max.
Definition sat_sub (a b : usize) : usize := Z.max (a - b) 0.
(** [u32::saturating_add] and [u32::saturating_mul]. *)
Definition sat_add32 (a b : u32) : u32 := Z.min (a + b) u32_max.
Definition sat_mul32 (a b : u32) : u32 := Z.min (a * b) u32_max.
Definition checked_add (a b : u64) : option u64 :=
  if a + b <=? u64_max then Some (a + b) else None.
Definition checked_mul (a b : u64) : option u64 :=
  if a * b <=? u64_max then Some (a * b) else None.
Definition checked_sub (a b : u64) : option u64 :=
  if b <=? a then Some (a - b) else None.
(** [u64::wrapping_shl]: the shift amount is taken modulo the width and the
    bits above the width are lost. *)
Definition wrapping_shl64 (a : u64) (s : u32) : u64 :=
  Z.land (Z.shiftl a (s mod 64)) u64_max.
(** [usize::try_from] of an unsigned value. *)
Definition usize_try_from {E} (v : u64) (e : E) : res usize E :=
  if v <=? usize_max then Ok v else Err e.
(** [u32::try_from] of an unsigned value. *)
Definition u32_try_from {E} (v : usize) (e : E) : res u32 E :=
  if v <=? u32_max then Ok v else Err e.

(** ** Slices *)

Abbreviation bytes := (list Byte.byte).

Definition u8 (b : Byte.byte) : Z := Z.of_N (Byte.to_N b).

Definition len {A} (l : list A) : usize := Z.of_nat (length l).

(** A list that can be a Rust slice. *)
Definition rust_slice {A} (l : list A) : Prop := len l <= isize_max.

(** [slice.get(i)]. *)
Definition get {A} (l : list A) (i : usize) : option A :=
  if (0 <=? i) then l !! Z.to_nat i else None.

(** [slice.get(a..b)], [slice.get(a..)], [slice.get(..b)]. *)
Definition slice {A} (l : list A) (a b : usize) : option (list A) :=
  if (0 <=? a) && (a <=? b) && (b <=? len l)
  then Some (take (Z.to_nat (b - a)) (drop (Z.to_nat a) l)) else None.
Definition slice_from {A} (l : list A) (a : usize) : option (list A) :=
  slice l a (len l).
Definition slice_to {A} (l : list A) (b : usize) : option (list A) :=
  slice l 0 b.

(** [iter().position(p)] and [iter().rposition(p)]. *)
Fixpoint position {A} (p : A -> bool) (l : list A) : option usize :=
  match l with
  | [] => None
  | x :: l => if p x then Some 0 else (fun i => i + 1) <$> position p l
  end.
Fixpoint rposition {A} (p : A -> bool) (l : list A) : option usize :=
  match l with
  | [] => None
  | x :: l => match rposition p l with
              | Some i => Some (i + 1)
              | None => if p x then Some 0 else None
              end
  end.

(** The range [i..i + n]. *)
Fixpoint zseq (i : Z) (n : nat) : list Z :=
  match n with O => [] | S n => i :: zseq (i + 1) n end.

(** ** Bytes *)

Definition beqb (a b : Byte.byte) : bool := Byte.eqb a b.

Fixpoint bytes_eqb (a b : bytes) : bool :=
  match a, b with
  | [], [] => true
  | x :: a, y :: b => beqb x y && bytes_eqb a b
  | _, _ => false
  end.

(** [<[u8] as Ord>::cmp] and [Iterator::cmp]: lexicographic. *)
Fixpoint bytes_cmp (a b : bytes) : comparison :=
  match a, b with
  | [], [] => Eq
  | [], _ :: _ => Lt
  | _ :: _, [] => Gt
  | x :: a, y :: b => match (u8 x ?= u8 y) with Eq => bytes_cmp a b | c => c end
  end.
Definition bytes_ltb (a b : bytes) : bool :=
  match bytes_cmp a b with Lt => true | _ => false end.
Definition bytes_leb (a b : bytes) : bool :=
  match bytes_cmp a b with Gt => false | _ => true end.

(** A Rust byte-string literal [b"..."]. *)
Definition b_ (s : string) : bytes := list_byte_of_string s.
#[global] Arguments b_ _ : simpl never.

Definition is_none {A} (o : option A) : bool := match o with None => true | Some _ => false end.
Definition is_some {A} (o : option A) : bool := negb (is_none o).
Definition nonempty (l : bytes) : bool := match l with [] => false | _ => true end.

Fixpoint strip_prefix (p l : bytes) : option bytes :=
  match p, l with
  | [], _ => Some l
  | x :: p, y :: l => if beqb x y then strip_prefix p l else None
  | _ :: _, [] => None
  end.
Definition strip_suffix (s l : bytes) : option bytes :=
  option_map (@rev _) (strip_prefix (@rev _ s) (@rev _ l)).

Definition is_ascii (b : Byte.byte) : bool := u8 b <? 128.
Definition is_ascii_digit (b : Byte.byte) : bool := (48 <=? u8 b) && (u8 b <=? 57).
Definition is_ascii_uppercase (b : Byte.byte) : bool := (65 <=? u8 b) && (u8 b <=? 90).
Definition is_ascii_lowercase (b : Byte.byte) : bool := (97 <=? u8 b) && (u8 b <=? 122).
Definition is_ascii_alphabetic (b : Byte.byte) : bool :=
  is_ascii_uppercase b || is_ascii_lowercase b.
Definition is_ascii_alphanumeric (b : Byte.byte) : bool :=
  is_ascii_alphabetic b || is_ascii_digit b.
Definition is_ascii_control (b : Byte.byte) : bool := (u8 b <? 32) || (u8 b =? 127).
Definition is_ascii_hexdigit (b : Byte.byte) : bool :=
  is_ascii_digit b || ((65 <=? u8 b) && (u8 b <=? 70)) || ((97 <=? u8 b) && (u8 b <=? 102)).
Definition to_ascii_lowercase (b : Byte.byte) : Byte.byte :=
  if is_ascii_uppercase b
  then match Byte.of_N (Byte.to_N b + 32)%N with Some c => c | None => b end
  else b.
Definition eq_ignore_ascii_case (a b : bytes) : bool :=
  bytes_eqb (map to_ascii_lowercase a) (map to_ascii_lowercase b).

(** A byte from a number below 256. *)
Definition byte_of (z : Z) : Byte.byte :=
  match Byte.of_N (Z.to_N z) with Some b => b | None => x00 end.

(** [format!("{}", n)] of an unsigned 64-bit value: at most twenty digits. *)
Definition digit_char (d : Z) : Byte.byte := byte_of (48 + d).
Fixpoint dec_digits (fuel : nat) (n : Z) (acc : bytes) : bytes :=
  let acc := digit_char (n mod 10) :: acc in
  match fuel with
  | O => acc
  | S fuel => if n <? 10 then acc else dec_digits fuel (n / 10) acc
  end.
Definition fmt_dec (n : u64) : bytes := dec_digits 20 n [].

(** [uN::from_be_bytes]. *)
Definition from_be_bytes (l : bytes) : Z :=
  fold_left (fun acc b => acc * 256 + u8 b) l 0.

(** [slice::binary_search_by]: the halving loop of [core::slice], which keeps a
    window [base, base + size) and narrows it until one element is left. The
    window at least halves, so as many steps as the slice is long are enough. *)
Fixpoint search_window {A} (f : A -> comparison) (l : list A) (fuel : nat)
    (base size : nat) : nat :=
  match fuel with
  | O => base
  | S fuel =>
      if (size <=? 1)%nat then base
      else
        let half := (size / 2)%nat in
        let mid := (base + half)%nat in
        let base := match l !! mid with
                    | Some x => match f x with Gt => base | _ => mid end
                    | None => base
                    end in
        search_window f l fuel base (size - half)%nat
  end.

Definition binary_search_by {A} (f : A -> comparison) (l : list A) : option nat :=
  match length l with
  | O => None
  | size =>
      let base := search_window f l size 0 size in
      match l !! base with
      | Some x => match f x with Eq => Some base | _ => None end
      | None => None
      end
  end.

(** [to_be_bytes] of an [n]-byte integer: [n] bytes, most significant first. *)
Fixpoint to_be (n : nat) (v : Z) : bytes :=
  match n with O => [] | S n => to_be n (v / 256) ++ [byte_of (v mod 256)] end.

(** ** Automation *)

Create HintDb amiss.
(** Lemmas [f x <> OutOfFuel]. *)
Create HintDb fuel.

(** Splits every [match] and conditional of a hypothesis that ends in [Ok] or
    [Some], leaving the only branch that can. *)
Ltac inv_step H :=
  match type of H with
  | context [match ?e with _ => _ end] =>
      lazymatch e with
      | context [match _ with _ => _ end] => fail
      | _ => let E := fresh "E" in destruct e eqn:E; try discriminate H
      end
  end.
Ltac inv_ok H := cbv zeta in H; repeat inv_step H.

(** Turns boolean tests of the code into propositions. *)
Ltac bool_prop :=
  repeat match goal with
  | H : _ && _ = true |- _ => apply andb_prop in H; destruct H
  | H : _ || _ = false |- _ => apply orb_false_elim in H; destruct H
  | H : negb _ = true |- _ => apply negb_true_iff in H
  | H : negb _ = false |- _ => apply negb_false_iff in H
  | H : (_ <=? _) = true |- _ => apply Z.leb_le in H
  | H : (_ <=? _) = false |- _ => apply Z.leb_gt in H
  | H : (_ <? _) = true |- _ => apply Z.ltb_lt in H
  | H : (_ <? _) = false |- _ => apply Z.ltb_ge in H
  | H : (_ =? _) = true |- _ => apply Z.eqb_eq in H
  | H : (_ =? _) = false |- _ => apply Z.eqb_neq in H
  | H : (_ >? _) = true |- _ => rewrite Z.gtb_ltb in H
  | H : (_ >? _) = false |- _ => rewrite Z.gtb_ltb in H
  | H : (_ >=? _) = true |- _ => rewrite Z.geb_leb in H
  | H : (_ >=? _) = false |- _ => rewrite Z.geb_leb in H
  end.

Ltac unfold_widths :=
  unfold isize_max, usize_max, u64_max, u32_max, u16_max in *.

(** ** Lemmas on results and stateful computations *)

Lemma ok_or_Ok {A E} (o : option A) (e : E) a : ok_or o e = Ok a <-> o = Some a.
Proof. destruct o; naive_solver. Qed.

Lemma ok_or_fuel {A E} (o : option A) (e : E) : ok_or o e <> OutOfFuel.
Proof. by destruct o. Qed.

#[export] Hint Resolve ok_or_fuel : fuel.

(** A result never runs out of fuel when none of its parts does. *)
Ltac no_fuel :=
  repeat match goal with
  | |- context [match ?x with _ => _ end] =>
      lazymatch x with
      | context [match _ with _ => _ end] => fail
      | _ => let E := fresh "E" in destruct x eqn:E
      end
  end;
  try discriminate;
  match goal with
  | E : ?x = OutOfFuel |- _ =>
      exfalso; assert (x <> OutOfFuel) by (auto with fuel nocore); contradiction
  | _ => auto with fuel nocore
  end.

Lemma sbind_Ok {S A B E} (m : sres S A E) (k : A -> sres S B E) s b s' :
  sbind m k s = (Ok b, s') <-> exists a s1, m s = (Ok a, s1) /\ k a s1 = (Ok b, s').
Proof. unfold sbind. destruct (m s) as [[a|e|] s1]; naive_solver. Qed.

Lemma sbind_fuel {S A B E} (m : sres S A E) (k : A -> sres S B E) s :
  (m s).1 <> OutOfFuel -> (forall a s1, m s = (Ok a, s1) -> (k a s1).1 <> OutOfFuel) ->
  (sbind m k s).1 <> OutOfFuel.
Proof. unfold sbind. destruct (m s) as [[a|e|] s1]; simpl; naive_solver. Qed.

Lemma slift_fuel {S A E} (r : res A E) (s : S) : r <> OutOfFuel -> (slift r s).1 <> OutOfFuel.
Proof. done. Qed.

#[export] Hint Resolve ok_or_fuel slift_fuel : amiss.

(** A computation that keeps the invariant [I] of its state on every outcome,
    never runs out of fuel, and whose result satisfies [Q]. *)
Definition triple {S A E} (I : S -> Prop) (Q : A -> Prop) (m : sres S A E) : Prop :=
  forall s, I s ->
    I (m s).2 /\ match (m s).1 with Ok a => Q a | Err _ => True | OutOfFuel => False end.

Section Triple.
Context {S E : Type} (I : S -> Prop).

Lemma triple_bind {A B} (P : A -> Prop) (Q : B -> Prop) (m : sres S A E) k :
  triple I P m -> (forall a, P a -> triple I Q (k a)) -> triple I Q (sbind m k).
Proof.
  intros Hm Hk s Hs. unfold sbind. specialize (Hm s Hs).
  destruct (m s) as [[a|e|] s1]; simpl in *; [|done|by destruct Hm].
  destruct Hm as [Hs1 Ha]. by apply Hk.
Qed.

Lemma triple_ret {A} (Q : A -> Prop) (a : A) : Q a -> triple (E := E) I Q (sret a).
Proof. intros Ha s Hs. by split. Qed.

Lemma triple_fail {A} (Q : A -> Prop) (e : E) : triple I Q (sfail e).
Proof. intros s Hs. by split. Qed.

Lemma triple_lift {A} (Q : A -> Prop) (r : res A E) :
  r <> OutOfFuel -> (forall a, r = Ok a -> Q a) -> triple I Q (slift r).
Proof. intros Hr Hq s Hs. split; [done|]. simpl. destruct r; eauto. Qed.

Lemma triple_ok_or {A} (Q : A -> Prop) (o : option A) (e : E) :
  (forall a, o = Some a -> Q a) -> triple I Q (slift (ok_or o e)).
Proof. intros Hq. apply triple_lift; [apply ok_or_fuel|]. intros a Ha%ok_or_Ok. auto. Qed.

Lemma triple_conseq {A} (P Q : A -> Prop) (m : sres S A E) :
  triple I P m -> (forall a, P a -> Q a) -> triple I Q m.
Proof.
  intros Hm Hpq s Hs. destruct (Hm s Hs) as [H1 H2]. split; [done|].
  destruct (m s).1; auto.
Qed.

(** What a triple says of a run that succeeds. *)
Lemma triple_Ok {A} (Q : A -> Prop) (m : sres S A E) s a s' :
  triple I Q m -> I s -> m s = (Ok a, s') -> I s' /\ Q a.
Proof. intros Hm Hs He. specialize (Hm s Hs). by rewrite He in Hm. Qed.
End Triple.

(** A stateful computation against a postcondition for its value and one for
    its error; both may speak of the state it leaves. It never runs out of
    fuel. *)
Definition hoare {S A E} (P : S -> Prop) (m : sres S A E) (Q : A -> S -> Prop) (X : E -> S -> Prop) : Prop :=
  forall s, P s ->
    match m s with (Ok a, s') => Q a s' | (Err e, s') => X e s' | (OutOfFuel, _) => False end.

Section Hoare.
Context {S E : Type}.

Lemma hoare_bind {A B} P (m : sres S A E) (k : A -> sres S B E) (R : A -> S -> Prop) Q X :
  hoare P m R X -> (forall a, hoare (R a) (k a) Q X) -> hoare P (sbind m k) Q X.
Proof.
  intros Hm Hk s Hs. unfold sbind. specialize (Hm s Hs).
  destruct (m s) as [[a|e|] s1]; [|done|done]. by apply Hk.
Qed.

Lemma hoare_ret {A} (P : S -> Prop) (a : A) (Q : A -> S -> Prop) (X : E -> S -> Prop) :
  (forall s, P s -> Q a s) -> hoare P (sret a) Q X.
Proof. intros H s Hs. by apply H. Qed.

Lemma hoare_fail {A} (P : S -> Prop) (e : E) (Q : A -> S -> Prop) (X : E -> S -> Prop) :
  (forall s, P s -> X e s) -> hoare P (sfail e) Q X.
Proof. intros H s Hs. by apply H. Qed.

Lemma hoare_lift {A} (P : S -> Prop) (r : res A E) (Q : A -> S -> Prop) (X : E -> S -> Prop) :
  r <> OutOfFuel ->
  (forall a s, r = Ok a -> P s -> Q a s) -> (forall e s, r = Err e -> P s -> X e s) ->
  hoare P (slift r) Q X.
Proof. intros Hr Ho Hx s Hs. unfold slift. destruct r; auto. Qed.

Lemma hoare_conseq {A} (P P' : S -> Prop) (m : sres S A E) (Q Q' : A -> S -> Prop) (X X' : E -> S -> Prop) :
  hoare P m Q X ->
  (forall s, P' s -> P s) -> (forall a s, Q a s -> Q' a s) -> (forall e s, X e s -> X' e s) ->
  hoare P' m Q' X'.
Proof.
  intros Hm Hp Hq Hx s Hs. specialize (Hm s (Hp s Hs)).
  destruct (m s) as [[a|e|] s1]; auto.
Qed.

Lemma hoare_pre {A} (P P' : S -> Prop) (m : sres S A E) (Q : A -> S -> Prop) (X : E -> S -> Prop) :
  hoare P m Q X -> (forall s, P' s -> P s) -> hoare P' m Q X.
Proof. intros Hm Hp s Hs. apply Hm. auto. Qed.

(** A fact of the initial state that is not about the state. *)
Lemma hoare_pure {A} (F : Prop) (P : S -> Prop) (m : sres S A E) Q X :
  (F -> hoare P m Q X) -> hoare (fun s => F /\ P s) m Q X.
Proof. intros H s [HF Hs]. by apply H. Qed.

Lemma hoare_know {A} (F : Prop) (P : S -> Prop) (m : sres S A E) Q X :
  (forall s, P s -> F) -> (F -> hoare P m Q X) -> hoare P m Q X.
Proof. intros Hf H s Hs. by apply H; [eapply Hf|]. Qed.

Lemma hoare_exists {A T} (P : T -> S -> Prop) (m : sres S A E) Q X :
  (forall t, hoare (P t) m Q X) -> hoare (fun s => exists t, P t s) m Q X.
Proof. intros H s [t Hs]. by apply (H t). Qed.
End Hoare.

(** ** Lemmas on machine integers *)

Lemma sat_add_small a b : a + b <= usize_max -> sat_add a b = a + b.
Proof. unfold sat_add; lia. Qed.

(** A sum below the maximum did not saturate. *)
Lemma sat_add_exact a b m : sat_add a b <= m -> m < usize_max -> sat_add a b = a + b.
Proof. unfold sat_add; lia. Qed.

Lemma sat_add_pos a b : 0 <= a -> 0 < b -> 0 < sat_add a b.
Proof. unfold sat_add, usize_max, u64_max; lia. Qed.

Lemma sat_mul_small a b : a * b <= usize_max -> sat_mul a b = a * b.
Proof. unfold sat_mul; lia. Qed.

Lemma sat_add32_small a b : a + b <= u32_max -> sat_add32 a b = a + b.
Proof. unfold sat_add32; lia. Qed.

Lemma sat_sub_small a b : b <= a -> sat_sub a b = a - b.
Proof. unfold sat_sub; lia. Qed.

Lemma checked_add_Some a b c : checked_add a b = Some c <-> c = a + b /\ a + b <= u64_max.
Proof. unfold checked_add. destruct (Z.leb_spec (a + b) u64_max); naive_solver lia. Qed.

Lemma checked_mul_Some a b c : checked_mul a b = Some c <-> c = a * b /\ a * b <= u64_max.
Proof. unfold checked_mul. destruct (Z.leb_spec (a * b) u64_max); naive_solver lia. Qed.

Lemma checked_sub_Some a b c : checked_sub a b = Some c <-> c = a - b /\ b <= a.
Proof. unfold checked_sub. destruct (Z.leb_spec b a); naive_solver lia. Qed.

Lemma u8_range b : 0 <= u8 b < 256.
Proof.
  unfold u8. split; [lia|].
  pose proof (Byte.to_N_bounded b). lia.
Qed.

Lemma u8_inj a b : u8 a = u8 b -> a = b.
Proof.
  unfold u8. intros H. apply N2Z.inj in H.
  pose proof (Byte.of_to_N a) as Ha. pose proof (Byte.of_to_N b) as Hb. congruence.
Qed.

Lemma u8_byte_of z : 0 <= z < 256 -> u8 (byte_of z) = z.
Proof.
  intros Hz. unfold byte_of, u8.
  destruct (Byte.of_N (Z.to_N z)) as [b|] eqn:E.
  - apply Byte.to_of_N in E. lia.
  - apply Byte.of_N_None_iff in E. lia.
Qed.

Lemma byte_of_u8 b : byte_of (u8 b) = b.
Proof. apply u8_inj, u8_byte_of, u8_range. Qed.

#[export] Hint Resolve u8_range : amiss.

(** ** Lemmas on slices *)

Lemma len_nonneg {A} (l : list A) : 0 <= len l.
Proof. unfold len; lia. Qed.

Lemma len_nil {A} : len (@nil A) = 0.
Proof. reflexivity. Qed.

Lemma len_cons {A} (x : A) l : len (x :: l) = len l + 1.
Proof. unfold len; simpl; lia. Qed.

Lemma len_app {A} (l k : list A) : len (l ++ k) = len l + len k.
Proof. unfold len; rewrite length_app; lia. Qed.

Lemma len_snoc {A} (l : list A) x : len (l ++ [x]) = len l + 1.
Proof. by rewrite len_app. Qed.

#[export] Hint Rewrite @len_nil @len_cons @len_app : amiss.

Lemma slice_spec {A} (l : list A) a b s :
  slice l a b = Some s <->
  exists p q, l = p ++ s ++ q /\ len p = a /\ len s = b - a.
Proof.
  unfold slice, len. split.
  - destruct ((0 <=? a) && (a <=? b) && (b <=? Z.of_nat (length l))) eqn:E; [|done].
    bool_prop. intros [= <-].
    exists (take (Z.to_nat a) l), (drop (Z.to_nat (b - a)) (drop (Z.to_nat a) l)).
    rewrite take_drop, take_drop, !length_take, length_drop. split; [done|lia].
  - intros (p & q & -> & <- & Hs). rewrite !length_app.
    replace (_ && _ && _) with true by (symmetry; rewrite !andb_true_iff, !Z.leb_le; lia).
    f_equal. rewrite Nat2Z.id, drop_app_length, <- Hs, Nat2Z.id.
    apply take_app_length.
Qed.

Lemma slice_len {A} (l : list A) a b s :
  slice l a b = Some s -> len s = b - a /\ 0 <= a <= b /\ b <= len l.
Proof.
  intros (p & q & -> & Ha & Hs)%slice_spec. autorewrite with amiss.
  pose proof (len_nonneg p); pose proof (len_nonneg q); pose proof (len_nonneg s). lia.
Qed.

Lemma slice_Some {A} (l : list A) a b :
  0 <= a -> a <= b -> b <= len l -> is_Some (slice l a b).
Proof.
  intros. unfold slice.
  replace (_ && _ && _) with true by (symmetry; rewrite !andb_true_iff, !Z.leb_le; lia).
  eauto.
Qed.

Lemma slice_app_mid {A} (p s q : list A) : slice (p ++ s ++ q) (len p) (len p + len s) = Some s.
Proof. apply slice_spec. exists p, q. repeat split; lia. Qed.

Lemma slice_from_spec {A} (l : list A) a s :
  slice_from l a = Some s <-> exists p, l = p ++ s /\ len p = a.
Proof.
  unfold slice_from. rewrite slice_spec. split.
  - intros (p & q & -> & Ha & Hs). rewrite !len_app in Hs.
    pose proof (len_nonneg q).
    assert (q = []) as -> by (destruct q; [done|rewrite len_cons in Hs; pose proof (len_nonneg q); lia]).
    exists p. by rewrite app_nil_r.
  - intros (p & -> & Ha). exists p, []. rewrite app_nil_r, len_app. repeat split; lia.
Qed.

Lemma slice_to_spec {A} (l : list A) b s :
  slice_to l b = Some s <-> exists q, l = s ++ q /\ len s = b.
Proof.
  unfold slice_to. rewrite slice_spec. split.
  - intros (p & q & -> & Hp & Hs).
    assert (p = []) as -> by (destruct p; [done|rewrite len_cons in Hp; pose proof (len_nonneg p); lia]).
    exists q. split; [done|lia].
  - intros (q & -> & Hs). exists [], q. rewrite len_nil. repeat split; lia.
Qed.

Lemma get_spec {A} (l : list A) i x :
  get l i = Some x <-> exists p q, l = p ++ x :: q /\ len p = i.
Proof.
  unfold get. split.
  - destruct (Z.leb_spec 0 i); [|done]. intros E.
    exists (take (Z.to_nat i) l), (drop (S (Z.to_nat i)) l).
    rewrite take_drop_middle by done. split; [done|].
    unfold len. rewrite length_take. apply lookup_lt_Some in E. lia.
  - intros (p & q & -> & <-). destruct (Z.leb_spec 0 (len p)); [|pose proof (len_nonneg p); lia].
    unfold len. rewrite Nat2Z.id. by rewrite lookup_app_r, Nat.sub_diag by lia.
Qed.

Lemma get_lt {A} (l : list A) i x : get l i = Some x -> 0 <= i < len l.
Proof.
  intros (p & q & -> & <-)%get_spec. autorewrite with amiss.
  pose proof (len_nonneg p); pose proof (len_nonneg q); lia.
Qed.

Lemma get_Some {A} (l : list A) i : 0 <= i < len l -> is_Some (get l i).
Proof.
  unfold get, len. intros. destruct (Z.leb_spec 0 i); [|lia].
  apply lookup_lt_is_Some. lia.
Qed.

Lemma get_app_r {A} (p : list A) x q : get (p ++ x :: q) (len p) = Some x.
Proof. apply get_spec. eauto. Qed.

Lemma get_app_end {A} (p : list A) : get (p ++ []) (len p) = None.
Proof.
  destruct (get (p ++ []) (len p)) as [x|] eqn:E; [|done].
  apply get_lt in E. rewrite app_nil_r in E. lia.
Qed.

Lemma zseq_lookup i n k : zseq i n !! k = if decide (k < n)%nat then Some (i + Z.of_nat k) else None.
Proof.
  revert i k. induction n as [|n IH]; intros i k; simpl.
  - destruct (decide (k < 0)%nat); [lia|done].
  - destruct k as [|k]; simpl; [destruct (decide (0 < S n)%nat); [f_equal; lia|lia]|].
    rewrite IH. destruct (decide (k < n)%nat), (decide (S k < S n)%nat); try lia; [f_equal; lia|done].
Qed.

Lemma zseq_length i n : length (zseq i n) = n.
Proof. revert i. induction n as [|n IH]; intros i; simpl; auto. Qed.

Lemma res_map_Ok {A B E} (f : A -> res B E) l ys :
  res_map f l = Ok ys <-> Forall2 (fun x y => f x = Ok y) l ys.
Proof.
  revert ys. induction l as [|x l IH]; intros ys; simpl.
  - split; [by intros [= <-]|]. intros H. by inversion H.
  - split.
    + destruct (f x) as [y| |] eqn:Ef; [|done|done]. destruct (res_map f l) as [zs| |]; [|done|done].
      intros [= <-]. constructor; [done|]. by apply IH.
    + intros H. inversion H as [|? y ? zs Hy Hz]; subst. rewrite Hy.
      by rewrite (proj2 (IH zs) Hz).
Qed.

Lemma res_map_fuel {A B E} (f : A -> res B E) l :
  (forall x, x ∈ l -> f x <> OutOfFuel) -> res_map f l <> OutOfFuel.
Proof.
  induction l as [|x l IH]; intros Hf; simpl; [done|].
  pose proof (Hf x (list_elem_of_here _ _)). destruct (f x); [|done|done].
  assert (res_map f l <> OutOfFuel) by (apply IH; intros; apply Hf; by right).
  by destruct (res_map f l).
Qed.

Lemma position_spec {A} (p : A -> bool) l i :
  position p l = Some i <->
  exists l1 x l2, l = l1 ++ x :: l2 /\ len l1 = i /\ p x = true /\ Forall (fun y => p y = false) l1.
Proof.
  revert i. induction l as [|y l IH]; intros i; simpl.
  - split; [done|]. intros (l1 & x & l2 & H & _). by destruct l1.
  - destruct (p y) eqn:E.
    + split.
      * intros [= <-]. by exists [], y, l.
      * intros (l1 & x & l2 & H & <- & Hx & Hl). destruct l1 as [|z l1]; [done|].
        apply Forall_cons_iff in Hl. simplify_eq/=. naive_solver congruence.
    + rewrite fmap_Some. setoid_rewrite IH. split.
      * intros (j & (l1 & x & l2 & -> & <- & Hx & Hl) & ->).
        exists (y :: l1), x, l2. rewrite len_cons. eauto.
      * intros (l1 & x & l2 & H & <- & Hx & Hl). destruct l1 as [|z l1]; simplify_eq/=.
        -- congruence.
        -- apply Forall_cons_iff in Hl as [_ Hl]. exists (len l1). rewrite len_cons. naive_solver.
Qed.

Lemma position_None {A} (p : A -> bool) l :
  position p l = None <-> Forall (fun y => p y = false) l.
Proof.
  induction l as [|y l IH]; simpl; [done|].
  rewrite Forall_cons_iff. destruct (p y) eqn:E; [naive_solver|].
  rewrite fmap_None, IH. naive_solver.
Qed.

Lemma position_bounds {A} (p : A -> bool) l i : position p l = Some i -> 0 <= i < len l.
Proof.
  intros (l1 & x & l2 & -> & <- & _)%position_spec. autorewrite with amiss.
  pose proof (len_nonneg l1); pose proof (len_nonneg l2); lia.
Qed.

Lemma rposition_bounds {A} (p : A -> bool) l i : rposition p l = Some i -> 0 <= i < len l.
Proof.
  revert i. induction l as [|y l IH]; intros i; simpl; [done|].
  rewrite len_cons. pose proof (len_nonneg l). destruct (rposition p l) as [j|].
  - intros [= <-]. specialize (IH j eq_refl). lia.
  - destruct (p y); naive_solver lia.
Qed.

Lemma rposition_spec {A} (p : A -> bool) l i :
  rposition p l = Some i <->
  exists l1 x l2, l = l1 ++ x :: l2 /\ len l1 = i /\ p x = true /\ Forall (fun y => p y = false) l2.
Proof.
  revert i. induction l as [|y l IH]; intros i; simpl.
  - split; [done|]. intros (l1 & x & l2 & H & _). by destruct l1.
  - destruct (rposition p l) as [j|] eqn:E.
    + destruct (proj1 (IH j) eq_refl) as (l1 & x & l2 & -> & <- & Hx & Hl).
      split.
      * intros [= <-]. exists (y :: l1), x, l2. rewrite len_cons. done.
      * intros ([|z k1] & x' & k2 & Hk & <- & Hx' & Hk2); simplify_eq/=.
        -- apply Forall_app in Hk2 as [_ Hk2]. apply Forall_cons_iff in Hk2. naive_solver congruence.
        -- rewrite len_cons. f_equal. f_equal.
           assert (Some (len l1) = Some (len k1)) as H by (apply IH; by exists k1, x', k2).
           by simplify_eq.
    + assert (Forall (fun y => p y = false) l) as Hall.
      { clear -E. induction l as [|z l IHl]; simpl in E; [constructor|].
        destruct (rposition p l) eqn:El; [done|]. destruct (p z) eqn:Ez; [done|]. eauto. }
      split.
      * destruct (p y) eqn:Ey; [|done]. intros [= <-]. by exists [], y, l.
      * intros ([|z k1] & x' & k2 & Hk & <- & Hx' & Hk2); simplify_eq/=; [by rewrite Hx'|].
        apply Forall_app in Hall as [_ Hall]. apply Forall_cons_iff in Hall. naive_solver congruence.
Qed.

Lemma rposition_None {A} (p : A -> bool) l : rposition p l = None <-> Forall (fun x => p x = false) l.
Proof.
  induction l as [|x l IH]; simpl; [done|]. rewrite Forall_cons_iff.
  destruct (rposition p l); [naive_solver|]. destruct (p x); naive_solver.
Qed.

(** The first element that satisfies a test splits a list in one way. *)
Lemma app_first_unique {A} (p : A -> bool) l1 x1 r1 l2 x2 r2 :
  Forall (fun y => p y = false) l1 -> Forall (fun y => p y = false) l2 ->
  p x1 = true -> p x2 = true -> l1 ++ x1 :: r1 = l2 ++ x2 :: r2 -> l1 = l2.
Proof.
  intros H1 H2 Hx1 Hx2 Heq.
  assert (position p (l1 ++ x1 :: r1) = Some (len l1)) as P1 by (apply position_spec; eauto 10).
  assert (position p (l1 ++ x1 :: r1) = Some (len l2)) as P2 by (apply position_spec; eauto 10).
  rewrite P1 in P2. injection P2 as Hl.
  apply (app_inj_1 _ _ _ _) in Heq as [? _]; [done|]. unfold len in Hl; lia.
Qed.

(** ** Lemmas on bytes and their order *)

Lemma beqb_eq a b : beqb a b = true <-> a = b.
Proof.
  unfold beqb. split; [apply Byte.byte_dec_bl|apply Byte.byte_dec_lb].
Qed.

Lemma beqb_refl a : beqb a a = true.
Proof. by apply beqb_eq. Qed.

Lemma bytes_eqb_eq a b : bytes_eqb a b = true <-> a = b.
Proof.
  revert b. induction a as [|x a IH]; intros [|y b]; simpl; try done.
  rewrite andb_true_iff, beqb_eq, IH. naive_solver.
Qed.

Lemma bytes_eqb_neq a b : bytes_eqb a b = false <-> a <> b.
Proof. rewrite <- not_true_iff_false, bytes_eqb_eq. done. Qed.

#[export] Instance byte_eq_dec : EqDecision Byte.byte := Byte.byte_eq_dec.
#[export] Instance byte_countable : Countable Byte.byte :=
  inj_countable Byte.to_N Byte.of_N Byte.of_to_N.

Lemma bytes_cmp_eq a b : bytes_cmp a b = Eq <-> a = b.
Proof.
  revert b. induction a as [|x a IH]; intros [|y b]; simpl; try done.
  destruct (Z.compare_spec (u8 x) (u8 y)) as [E|E|E].
  - apply u8_inj in E as ->. rewrite IH. naive_solver.
  - split; [done|]. intros [= -> ->]. lia.
  - split; [done|]. intros [= -> ->]. lia.
Qed.

Lemma bytes_cmp_refl a : bytes_cmp a a = Eq.
Proof. by apply bytes_cmp_eq. Qed.

Lemma bytes_cmp_antisym a b : bytes_cmp b a = CompOpp (bytes_cmp a b).
Proof.
  revert b. induction a as [|x a IH]; intros [|y b]; simpl; try done.
  rewrite (Z.compare_antisym (u8 x)). destruct (u8 x ?= u8 y); simpl; auto.
Qed.

Definition bytes_lt (a b : bytes) : Prop := bytes_cmp a b = Lt.

#[export] Instance bytes_lt_strict : StrictOrder bytes_lt.
Proof.
  unfold bytes_lt. split.
  - intros a H. by rewrite bytes_cmp_refl in H.
  - intros a. induction a as [|x a IH]; intros [|y b] [|z c]; simpl; try done.
    destruct (Z.compare_spec (u8 x) (u8 y)), (Z.compare_spec (u8 y) (u8 z)),
      (Z.compare_spec (u8 x) (u8 z)); try done; try lia.
    intros. by eapply IH.
Qed.

Lemma bytes_ltb_lt a b : bytes_ltb a b = true <-> bytes_lt a b.
Proof. unfold bytes_ltb, bytes_lt. destruct (bytes_cmp a b); naive_solver. Qed.

Lemma bytes_leb_false a b : bytes_leb a b = false <-> bytes_lt b a.
Proof.
  unfold bytes_leb, bytes_lt. rewrite (bytes_cmp_antisym a b).
  destruct (bytes_cmp a b); naive_solver.
Qed.

Lemma bytes_cmp_gt a b : bytes_cmp a b = Gt <-> bytes_lt b a.
Proof.
  unfold bytes_lt. rewrite (bytes_cmp_antisym a b). destruct (bytes_cmp a b); naive_solver.
Qed.

(** A proper prefix comes before everything that extends it. *)
Lemma bytes_lt_app a x b : bytes_lt a (a ++ x :: b).
Proof. unfold bytes_lt. induction a as [|y a IH]; simpl; [done|]. by rewrite Z.compare_refl. Qed.

Lemma strip_prefix_Some p l s : strip_prefix p l = Some s <-> l = p ++ s.
Proof.
  revert l. induction p as [|x p IH]; intros l; simpl; [naive_solver|].
  destruct l as [|y l]; [naive_solver|].
  destruct (beqb x y) eqn:E.
  - apply beqb_eq in E as ->. rewrite IH. naive_solver.
  - split; [done|]. intros [= -> ->]. by rewrite beqb_refl in E.
Qed.

Lemma strip_suffix_Some p l s : strip_suffix p l = Some s <-> l = s ++ p.
Proof.
  unfold strip_suffix. split.
  - intros H. destruct (strip_prefix (rev p) (rev l)) as [k|] eqn:E; simplify_eq/=.
    apply strip_prefix_Some in E. rewrite <- (rev_involutive l), E, rev_app_distr.
    by rewrite rev_involutive.
  - intros ->. rewrite rev_app_distr.
    replace (strip_prefix (rev p) (rev p ++ rev s)) with (Some (rev s))
      by (symmetry; by apply strip_prefix_Some).
    simpl. by rewrite rev_involutive.
Qed.

Lemma from_be_bytes_app a b :
  from_be_bytes (a ++ b) = from_be_bytes a * 256 ^ len b + from_be_bytes b.
Proof.
  unfold from_be_bytes. rewrite fold_left_app.
  generalize (fold_left (fun acc b => acc * 256 + u8 b) a 0) as n.
  induction b as [|x b IH] using rev_ind; intros n.
  - rewrite len_nil. simpl. lia.
  - rewrite (fold_left_app _ b [x] n), (fold_left_app _ b [x] 0), (IH n).
    rewrite len_snoc, Z.pow_add_r by (pose proof (len_nonneg b); lia).
    simpl. ring.
Qed.

Lemma from_be_bytes_range l : 0 <= from_be_bytes l < 256 ^ len l.
Proof.
  induction l as [|b l IH] using rev_ind; [done|].
  rewrite from_be_bytes_app, len_snoc, Z.pow_add_r by (pose proof (len_nonneg l); lia).
  change (len [b]) with 1. change (from_be_bytes [b]) with (u8 b). change (256 ^ 1) with 256.
  pose proof (u8_range b). nia.
Qed.

Lemma to_be_len n v : len (to_be n v) = Z.of_nat n.
Proof. revert v. induction n as [|n IH]; intros v; cbn [to_be]; [done|]. rewrite len_snoc, IH. lia. Qed.

Lemma from_be_to_be n v : 0 <= v < 256 ^ Z.of_nat n -> from_be_bytes (to_be n v) = v.
Proof.
  revert v. induction n as [|n IH]; intros v Hv; cbn [to_be].
  - change (256 ^ Z.of_nat 0) with 1 in Hv. assert (v = 0) as -> by lia. done.
  - rewrite Nat2Z.inj_succ, Z.pow_succ_r in Hv by lia.
    rewrite from_be_bytes_app, IH.
    + change (len [byte_of (v mod 256)]) with 1. change (256 ^ 1) with 256.
      change (from_be_bytes [byte_of (v mod 256)]) with (u8 (byte_of (v mod 256))).
      pose proof (Z.mod_pos_bound v 256 ltac:(lia)). rewrite u8_byte_of by lia.
      pose proof (Z.div_mod v 256). lia.
    + split; [apply Z.div_pos; lia|apply Z.div_lt_upper_bound; lia].
Qed.

Lemma to_be_from_be l : to_be (length l) (from_be_bytes l) = l.
Proof.
  induction l as [|b l IH] using rev_ind; [done|].
  rewrite length_app, Nat.add_comm. cbn [Nat.add length to_be].
  rewrite from_be_bytes_app. change (len [b]) with 1. change (256 ^ 1) with 256.
  change (from_be_bytes [b]) with (u8 b). pose proof (u8_range b).
  rewrite Z.div_add_l, Z.div_small, Z.add_0_r, IH by lia.
  rewrite Z.add_comm, Z.mod_add, Z.mod_small, byte_of_u8 by lia. done.
Qed.

(** ** Decimal text *)

Lemma dec_digits_acc fuel n acc : dec_digits fuel n acc = dec_digits fuel n [] ++ acc.
Proof.
  revert n acc. induction fuel as [|fuel IH]; intros n acc; cbn [dec_digits]; [done|].
  destruct (n <? 10); [done|]. rewrite (IH (n / 10) (_ :: acc)), (IH (n / 10) [_]).
  by rewrite <- app_assoc.
Qed.

(** Enough fuel gives the same digits. *)
Lemma dec_digits_fuel fuel fuel' n :
  0 <= n < 10 ^ (Z.of_nat fuel + 1) -> (fuel <= fuel')%nat ->
  dec_digits fuel' n [] = dec_digits fuel n [].
Proof.
  revert fuel' n. induction fuel as [|fuel IH]; intros [|fuel'] n Hn Hf; try lia; [done| |].
  - cbn [dec_digits]. change (10 ^ (Z.of_nat 0 + 1)) with 10 in Hn.
    destruct (Z.ltb_spec n 10); [done|lia].
  - cbn [dec_digits]. destruct (n <? 10); [done|].
    rewrite (dec_digits_acc fuel'), (dec_digits_acc fuel). f_equal. apply IH; [|lia].
    rewrite Nat2Z.inj_succ, <- Z.add_1_l, <- Z.add_assoc, Z.pow_add_r in Hn by lia.
    split; [apply Z.div_pos; lia|apply Z.div_lt_upper_bound; lia].
Qed.

Lemma dec_digits_step fuel n d :
  0 < n -> 0 <= d < 10 ->
  dec_digits (S fuel) (n * 10 + d) [] = dec_digits fuel n [] ++ [digit_char d].
Proof.
  intros Hn Hd. cbn [dec_digits]. destruct (Z.ltb_spec (n * 10 + d) 10); [lia|].
  replace ((n * 10 + d) / 10) with n by (apply (Z.div_unique_pos _ _ _ d); lia).
  replace ((n * 10 + d) mod 10) with d by (apply (Z.mod_unique_pos _ _ n); lia).
  apply dec_digits_acc.
Qed.

(** Appending a digit to a positive number's text. *)
Lemma fmt_dec_snoc n d :
  0 < n < 10 ^ 19 -> 0 <= d < 10 -> fmt_dec (n * 10 + d) = fmt_dec n ++ [digit_char d].
Proof.
  intros Hn Hd. unfold fmt_dec. rewrite dec_digits_step by lia.
  rewrite (dec_digits_fuel 19 20 n); [reflexivity| |lia].
  split; [lia|]. eapply Z.lt_trans; [apply Hn|reflexivity].
Qed.

Lemma fmt_dec_digit d : 0 <= d < 10 -> fmt_dec d = [digit_char d].
Proof.
  intros Hd. unfold fmt_dec. generalize 19%nat as fuel. intros fuel. cbn [dec_digits].
  destruct (Z.ltb_spec d 10); [|lia]. by rewrite Z.mod_small.
Qed.

Lemma digit_char_u8 b : is_ascii_digit b = true -> b = digit_char (u8 b - 48) /\ 0 <= u8 b - 48 < 10.
Proof.
  unfold is_ascii_digit, digit_char. intros Hb. bool_prop. split; [|lia].
  rewrite <- (byte_of_u8 b) at 1. f_equal. lia.
Qed.

(** ** Binary search *)

(** The order [binary_search_by] relies on: first the elements below the key,
    then the equal ones, then those above it. *)
Definition search_ordered {A} (f : A -> comparison) (l : list A) : Prop :=
  forall i j x y, (i <= j)%nat -> l !! i = Some x -> l !! j = Some y ->
    (f x = Gt -> f y = Gt) /\ (f y = Lt -> f x = Lt).

Lemma binary_search_by_sound {A} (f : A -> comparison) l i :
  binary_search_by f l = Some i -> exists x, l !! i = Some x /\ f x = Eq.
Proof.
  unfold binary_search_by. destruct (length l) as [|n]; [done|].
  destruct (l !! _) as [x|] eqn:E; [|done]. destruct (f x) eqn:Ef; naive_solver.
Qed.

Lemma search_window_spec {A} (f : A -> comparison) l fuel base size e x :
  search_ordered f l ->
  (size <= S fuel)%nat -> (base + size <= length l)%nat ->
  (base <= e < base + size)%nat -> l !! e = Some x -> f x = Eq ->
  exists y, l !! search_window f l fuel base size = Some y /\ f y = Eq.
Proof.
  intros Ho. revert base size e x. induction fuel as [|fuel IH]; intros base size e x Hf Hb He Hx Hfx;
    cbn [search_window].
  - assert (e = base) as -> by lia. eauto.
  - destruct (Nat.leb_spec size 1); [assert (e = base) as -> by lia; eauto|].
    assert (0 < size / 2 < size)%nat as Hh.
    { split; [apply Nat.div_str_pos; lia|apply Nat.div_lt; lia]. }
    pose proof (Nat.div_mod_eq size 2). pose proof (Nat.mod_upper_bound size 2).
    destruct (lookup_lt_is_Some_2 l (base + size / 2)) as [m Hm]; [lia|]. rewrite Hm.
    assert (e < base + size / 2 -> f m <> Lt)%nat as Hlo.
    { intros Hl Hlt. destruct (Ho e (base + size / 2)%nat x m ltac:(lia) Hx Hm) as [_ H']. rewrite H' in Hfx by done. done. }
    assert (base + size / 2 <= e -> f m <> Gt)%nat as Hhi.
    { intros Hl Hgt. destruct (Ho (base + size / 2)%nat e m x ltac:(lia) Hm Hx) as [H' _]. rewrite H' in Hfx by done. done. }
    destruct (f m) eqn:Hfm.
    + apply (IH _ _ (base + size / 2)%nat m); try lia; done.
    + apply (IH _ _ e x); try lia; try done.
      destruct (decide (e < base + size / 2)%nat); [by exfalso; apply Hlo|lia].
    + apply (IH _ _ e x); try lia; try done.
      destruct (decide (base + size / 2 <= e)%nat); [by exfalso; apply Hhi|lia].
Qed.

Lemma binary_search_by_complete {A} (f : A -> comparison) l x :
  search_ordered f l -> x ∈ l -> f x = Eq -> is_Some (binary_search_by f l).
Proof.
  intros Ho [e He]%list_elem_of_lookup Hx. unfold binary_search_by.
  pose proof (lookup_lt_Some _ _ _ He) as Hl.
  destruct (length l) as [|n] eqn:En; [lia|].
  destruct (search_window_spec f l (S n) 0 (S n) e x) as (y & -> & ->); try done; lia || eauto.
Qed.

Lemma StronglySorted_lookup {A} (R : A -> A -> Prop) l i j x y :
  StronglySorted R l -> (i < j)%nat -> l !! i = Some x -> l !! j = Some y -> R x y.
Proof.
  intros Hs. revert i j. induction Hs as [|z l Hs IH Hz]; intros i j Hij Hi Hj; [done|].
  destruct j as [|j]; [lia|]. destruct i as [|i]; simplify_eq/=.
  - rewrite Forall_forall in Hz. by eapply Hz, list_elem_of_lookup_2.
  - apply (IH i j); [lia|done|done].
Qed.

(** Keys in strictly increasing byte order are searchable for every key. *)
Lemma sorted_search_ordered {A} (key : A -> bytes) l k :
  StronglySorted (fun a b => bytes_lt (key a) (key b)) l ->
  search_ordered (fun x => bytes_cmp (key x) k) l.
Proof.
  intros Hs i j x y Hij Hi Hj.
  destruct (decide (i = j)) as [->|]; [naive_solver|].
  assert (bytes_lt (key x) (key y)) as Hlt.
  { apply (StronglySorted_lookup _ _ i j x y Hs); [lia|done|done]. }
  rewrite !bytes_cmp_gt. fold (bytes_lt (key x) k) (bytes_lt (key y) k).
  split; intros H; [by trans (key x)|by trans (key y)].
Qed.

Lemma binary_search_sorted {A} (key : A -> bytes) l k :
  StronglySorted (fun a b => bytes_lt (key a) (key b)) l ->
  is_Some (binary_search_by (fun x => bytes_cmp (key x) k) l) <-> exists x, x ∈ l /\ key x = k.
Proof.
  intros Hs. split.
  - intros [i (x & Hx & Hk)%binary_search_by_sound].
    apply bytes_cmp_eq in Hk. exists x. split; [by eapply list_elem_of_lookup_2|done].
  - intros (x & Hx & <-). eapply binary_search_by_complete; eauto using sorted_search_ordered.
    apply bytes_cmp_refl.
Qed.

Lemma StronglySorted_snoc {A} (R : A -> A -> Prop) l x :
  StronglySorted R l -> Forall (fun y => R y x) l -> StronglySorted R (l ++ [x]).
Proof.
  induction 1 as [|y l Hs IH Hy]; intros Hf; simpl; [repeat constructor|].
  apply Forall_cons_iff in Hf as [Hyx Hf]. constructor; [auto|].
  apply Forall_app. by split; [|repeat constructor].
Qed.

(** Appending an element above the last one keeps a list strictly sorted. *)
Lemma StronglySorted_snoc_last {A} (R : A -> A -> Prop) `{!Transitive R} l x :
  StronglySorted R l -> (forall y, last l = Some y -> R y x) -> StronglySorted R (l ++ [x]).
Proof.
  intros Hs Hl. apply StronglySorted_snoc; [done|].
  destruct (last l) as [z|] eqn:E.
  - apply last_Some in E as [l' ->]. apply StronglySorted_app in Hs as (Hz & _ & _).
    apply Forall_app. split; [|repeat constructor; eauto].
    apply Forall_forall. intros y Hy. trans z; [|eauto]. apply Hz; [done|]. by left.
  - apply last_None in E as ->. constructor.
Qed.
