(* ===== verification/Codec.v ===== *)
(** The byte codecs the program calls: UTF-8 validation of [core::str], and the
    interfaces of the [hex] crate and of the hash crates [sha1-checked] and
    [sha2]. The crates are not part of the repository, so they are classes:
    the operations the source calls, and the laws their documentation gives.
    [rfc_hex] and [toy_hash] are concrete instances for closed examples. *)
From Stdlib Require Import Strings.Byte Lia.
From stdpp Require Import base list numbers.
From S2P Require Import Prelude.

(** ** UTF-8 *)

Section Utf8.
Definition in_range (lo hi : Z) (b : Byte.byte) : bool := (lo <=? u8 b) && (u8 b <=? hi).
Definition continuation : Byte.byte -> bool := in_range 0x80 0xbf.

(** [core::str::from_utf8(..).is_ok()]: the well-formed byte sequences of
    table 3-7 of the Unicode standard. *)
Fixpoint utf8_valid (l : bytes) : bool :=
  match l with
  | [] => true
  | a :: l1 =>
      if is_ascii a then utf8_valid l1
      else match l1 with
      | [] => false
      | b :: l2 =>
          if in_range 0xc2 0xdf a then continuation b && utf8_valid l2
          else match l2 with
          | [] => false
          | c :: l3 =>
              if in_range 0xe0 0xe0 a then
                in_range 0xa0 0xbf b && continuation c && utf8_valid l3
              else if in_range 0xed 0xed a then
                in_range 0x80 0x9f b && continuation c && utf8_valid l3
              else if in_range 0xe1 0xef a then
                continuation b && continuation c && utf8_valid l3
              else match l3 with
              | [] => false
              | d :: l4 =>
                  if in_range 0xf0 0xf0 a then
                    in_range 0x90 0xbf b && continuation c && continuation d && utf8_valid l4
                  else if in_range 0xf1 0xf3 a then
                    continuation b && continuation c && continuation d && utf8_valid l4
                  else if in_range 0xf4 0xf4 a then
                    in_range 0x80 0x8f b && continuation c && continuation d && utf8_valid l4
                  else false
              end
          end
      end
  end.

(** [String::from_utf8(..).ok()]. *)
Definition from_utf8 (l : bytes) : option bytes := if utf8_valid l then Some l else None.

Lemma ascii_utf8_valid l : forallb is_ascii l = true -> utf8_valid l = true.
Proof.
  induction l as [|b l IH]; simpl; [done|]. rewrite andb_true_iff. intros [-> H]. auto.
Qed.
End Utf8.

(** ** Hexadecimal *)

Class Hex := {
  hex_encode : bytes -> bytes;
  hex_decode : bytes -> option bytes;
  (** [hex::decode_to_slice] into a buffer of the given length. *)
  hex_decode_to_slice : bytes -> usize -> option bytes
}.

Definition no_upper (l : bytes) : bool := negb (existsb is_ascii_uppercase l).

Class HexLaws {H : Hex} : Prop := {
  hex_decode_encode b : hex_decode (hex_encode b) = Some b;
  hex_encode_len b : len (hex_encode b) = 2 * len b;
  hex_encode_lower b : no_upper (hex_encode b) = true;
  hex_encode_digits b : forallb is_ascii_hexdigit (hex_encode b) = true;
  (** The lowercase spelling of a byte string is unique. *)
  hex_decode_lower s b : hex_decode s = Some b -> no_upper s = true -> s = hex_encode b;
  hex_decode_to_slice_spec s n b :
    hex_decode_to_slice s n = Some b <-> hex_decode s = Some b /\ len b = n
}.
Arguments HexLaws H : clear implicits.

Section RfcHex.
Definition nibble_char (n : Z) : Byte.byte :=
  if n <? 10 then byte_of (48 + n) else byte_of (87 + n).
Definition char_nibble (c : Byte.byte) : option Z :=
  if is_ascii_digit c then Some (u8 c - 48)
  else if in_range 97 102 c then Some (u8 c - 87)
  else if in_range 65 70 c then Some (u8 c - 55)
  else None.

Fixpoint rfc_encode (l : bytes) : bytes :=
  match l with
  | [] => []
  | b :: l => nibble_char (u8 b / 16) :: nibble_char (u8 b mod 16) :: rfc_encode l
  end.
Fixpoint rfc_decode (l : bytes) : option bytes :=
  match l with
  | [] => Some []
  | [_] => None
  | a :: b :: l =>
      match char_nibble a, char_nibble b, rfc_decode l with
      | Some x, Some y, Some r => Some (byte_of (16 * x + y) :: r)
      | _, _, _ => None
      end
  end.

Definition rfc_hex : Hex := {|
  hex_encode := rfc_encode;
  hex_decode := rfc_decode;
  hex_decode_to_slice s n :=
    match rfc_decode s with
    | Some b => if len b =? n then Some b else None
    | None => None
    end
|}.

Lemma nibble_char_u8 n : 0 <= n < 16 ->
  u8 (nibble_char n) = if n <? 10 then 48 + n else 87 + n.
Proof. intros. unfold nibble_char. destruct (Z.ltb_spec n 10); apply u8_byte_of; lia. Qed.

Lemma char_nibble_char n : 0 <= n < 16 ->
  char_nibble (nibble_char n) = Some n /\ is_ascii_uppercase (nibble_char n) = false
  /\ is_ascii_hexdigit (nibble_char n) = true.
Proof.
  intros Hn. unfold char_nibble, is_ascii_hexdigit, is_ascii_digit, is_ascii_uppercase, in_range.
  rewrite (nibble_char_u8 n Hn).
  repeat match goal with
  | |- context [?a <? ?b] => destruct (Z.ltb_spec a b); simpl
  | |- context [?a <=? ?b] => destruct (Z.leb_spec a b); simpl
  end; repeat split; f_equal; lia.
Qed.

Lemma char_nibble_lower c n :
  char_nibble c = Some n -> is_ascii_uppercase c = false -> 0 <= n < 16 /\ c = nibble_char n.
Proof.
  unfold char_nibble, is_ascii_digit, is_ascii_uppercase, in_range. intros H Hu.
  pose proof (u8_range c).
  assert (0 <= n < 16 /\ u8 c = if n <? 10 then 48 + n else 87 + n) as [Hn Hc].
  { destruct ((48 <=? u8 c) && (u8 c <=? 57)) eqn:E1; simplify_eq; bool_prop;
      [destruct (Z.ltb_spec (u8 c - 48) 10); lia|].
    destruct ((97 <=? u8 c) && (u8 c <=? 102)) eqn:E2; simplify_eq; bool_prop;
      [destruct (Z.ltb_spec (u8 c - 87) 10); lia|].
    destruct ((65 <=? u8 c) && (u8 c <=? 70)) eqn:E3; simplify_eq; bool_prop.
    apply andb_false_iff in Hu as [Hu|Hu]; bool_prop; lia. }
  split; [done|]. apply u8_inj. by rewrite nibble_char_u8.
Qed.

Lemma div_mod_16 b : 0 <= u8 b / 16 < 16 /\ 0 <= u8 b mod 16 < 16.
Proof.
  pose proof (u8_range b). split; [|apply Z.mod_pos_bound; lia].
  split; [apply Z.div_pos; lia|apply Z.div_lt_upper_bound; lia].
Qed.

Lemma rfc_encode_chars b :
  no_upper (rfc_encode b) = true /\ forallb is_ascii_hexdigit (rfc_encode b) = true.
Proof.
  unfold no_upper. induction b as [|x b IH]; simpl; [done|].
  destruct (div_mod_16 x) as [H1 H2].
  destruct (char_nibble_char _ H1) as (_ & -> & ->), (char_nibble_char _ H2) as (_ & -> & ->).
  done.
Qed.

Lemma rfc_decode_encode b : rfc_decode (rfc_encode b) = Some b.
Proof.
  induction b as [|x b IH]; simpl; [done|].
  destruct (div_mod_16 x) as [H1 H2].
  destruct (char_nibble_char _ H1) as [-> _], (char_nibble_char _ H2) as [-> _].
  rewrite IH, <- Z.div_mod by lia. by rewrite byte_of_u8.
Qed.

Lemma rfc_decode_lower s b : rfc_decode s = Some b -> no_upper s = true -> s = rfc_encode b.
Proof.
  revert s. induction b as [|x b IH]; intros [|c [|d s]]; simpl; try done.
  - destruct (char_nibble c), (char_nibble d), (rfc_decode s); done.
  - unfold no_upper. simpl. rewrite !negb_orb, !andb_true_iff, !negb_true_iff.
    destruct (char_nibble c) as [p|] eqn:Ec; [|done].
    destruct (char_nibble d) as [q|] eqn:Ed; [|done].
    destruct (rfc_decode s) as [r|] eqn:Er; [|done].
    intros [= <- <-] (Hc & Hd & Hs).
    destruct (char_nibble_lower c p Ec Hc) as [Hp ->], (char_nibble_lower d q Ed Hd) as [Hq ->].
    rewrite u8_byte_of, Z.add_comm, Z.mul_comm, Z.div_add, Z.mod_add by lia.
    rewrite Z.div_small, Z.mod_small by lia. simpl.
    by rewrite (IH s Er) by (unfold no_upper; by rewrite negb_true_iff).
Qed.

Lemma rfc_hex_laws : HexLaws rfc_hex.
Proof.
  split; simpl.
  - apply rfc_decode_encode.
  - intros b. induction b as [|x b IH]; simpl; [done|]. rewrite !len_cons. lia.
  - intros b. apply rfc_encode_chars.
  - intros b. apply rfc_encode_chars.
  - apply rfc_decode_lower.
  - intros s n b. destruct (rfc_decode s) as [r|]; [|naive_solver].
    destruct (Z.eqb_spec (len r) n); naive_solver.
Qed.
End RfcHex.

(** A hexadecimal digit is ASCII and no separator or control byte. *)
Lemma hexdigit_ascii b : is_ascii_hexdigit b = true -> is_ascii b = true.
Proof. by destruct b. Qed.

Lemma hexdigit_plain b :
  is_ascii_hexdigit b = true -> b <> x00 /\ b <> "010"%byte /\ b <> "013"%byte /\ b <> " "%byte.
Proof. by destruct b. Qed.

Lemma hex_encode_utf8 `{HexLaws} b : utf8_valid (hex_encode b) = true.
Proof.
  apply ascii_utf8_valid. pose proof (hex_encode_digits b) as Hd.
  rewrite forallb_forall in *. intros x Hx. by apply hexdigit_ascii, Hd.
Qed.

(** ** Hashes *)

Class Hashes := {
  sha1 : bytes -> bytes;
  (** The counter-cryptanalysis verdict of [sha1_checked]. *)
  sha1_collision : bytes -> bool;
  sha256 : bytes -> bytes
}.

Class HashLaws {H : Hashes} : Prop := {
  sha1_len b : len (sha1 b) = 20;
  sha256_len b : len (sha256 b) = 32
}.
Arguments HashLaws H : clear implicits.

(** A checksum of the documented widths, for closed examples only. *)
Definition toy_sum (n : nat) (b : bytes) : bytes :=
  let s := fold_left (fun acc x => (acc * 31 + u8 x) mod 65521) b 7 in
  map (fun i => byte_of ((s * (Z.of_nat i + 3)) mod 251)) (seq 0 n).

Definition toy_hash : Hashes := {|
  sha1 := toy_sum 20;
  sha1_collision _ := false;
  sha256 := toy_sum 32
|}.

Lemma toy_hash_laws : HashLaws toy_hash.
Proof. split; intros b; reflexivity. Qed.

(** ** Zlib *)

Module Status.
Inductive t := Continue | BufError | StreamEnd.
End Status.
Module Flush.
Inductive t := NoFlush | Finish.
End Flush.

(** The two ways the program drives [flate2]: the push interface [Decompress]
    for loose objects and the reader [ZlibDecoder] for pack entries. *)
Class Zlib := {
  Decompress : Type;
  (** [Decompress::new(true)] and [Decompress::reset(true)]. *)
  zlib_new : Decompress;
  zlib_reset : Decompress -> Decompress;
  zlib_total_in : Decompress -> u64;
  zlib_total_out : Decompress -> u64;
  (** [decompress(input, output, flush)] into an output of the given length:
      [None] is [Err]; the bytes are those written to the front of [output]. *)
  zlib_decompress :
    Decompress -> bytes -> usize -> Flush.t -> option (Status.t * bytes) * Decompress;
  ZlibDecoder : Type;
  (** [ZlibDecoder::new(data)]; [read] into a buffer of the given length, [None]
      for [Err]; [total_in]. *)
  decoder_new : bytes -> ZlibDecoder;
  decoder_read : ZlibDecoder -> usize -> option bytes * ZlibDecoder;
  decoder_total_in : ZlibDecoder -> u64
}.

Class ZlibLaws {Z : Zlib} : Prop := {
  zlib_reset_new d : zlib_reset d = zlib_new;
  zlib_new_total : zlib_total_in zlib_new = 0 /\ zlib_total_out zlib_new = 0;
  (** A call consumes a prefix of its input and writes a prefix of its output,
      and the totals count exactly those bytes. *)
  zlib_decompress_counts d input room flush status written d' :
    0 <= room -> zlib_decompress d input room flush = (Some (status, written), d') ->
    0 <= zlib_total_in d' - zlib_total_in d <= len input /\
    zlib_total_out d' - zlib_total_out d = len written /\
    len written <= room;
  decoder_read_bound r room written r' :
    0 <= room -> decoder_read r room = (Some written, r') -> len written <= room
}.
Arguments ZlibLaws Z : clear implicits.

(** The identity codec: every byte stands for itself, the stream ends with the
    data. For closed examples only. *)
Definition stored_zlib : Zlib := {|
  Decompress := Z * Z;
  zlib_new := (0, 0);
  zlib_reset _ := (0, 0);
  zlib_total_in := fst;
  zlib_total_out := snd;
  zlib_decompress d input room _ :=
    let n := Z.min (len input) (Z.max 0 room) in
    let w := take (Z.to_nat n) input in
    (Some ((if n =? len input then Status.StreamEnd else Status.Continue), w),
     (d.1 + n, d.2 + n));
  ZlibDecoder := bytes * Z;
  decoder_new data := (data, 0);
  decoder_read r room :=
    let n := Z.min (len r.1) (Z.max 0 room) in
    (Some (take (Z.to_nat n) r.1), (drop (Z.to_nat n) r.1, r.2 + n));
  decoder_total_in := snd
|}.

Lemma len_take_min (l : bytes) n : 0 <= n -> len (take (Z.to_nat n) l) = Z.min n (len l).
Proof. intros. unfold len. rewrite length_take. lia. Qed.

Lemma stored_zlib_laws : ZlibLaws stored_zlib.
Proof.
  split; simpl; [done|done| |].
  - intros d input room flush status written d' Hroom [= <- <- <-]. simpl.
    pose proof (len_nonneg input). rewrite len_take_min by lia. lia.
  - intros r room written r' Hroom [= <- <-]. pose proof (len_nonneg r.1).
    rewrite len_take_min by lia. lia.
Qed.
