(* ===== verification/WireModel.v ===== *)
(** The wire vocabulary shared by every crate: [crates/amiss-wire/src/model]
    (object formats, object IDs, digests, repository paths) and the closed
    enumerations of [controls] the Git reader reports with.

    A Rust [String] is the list of its UTF-8 bytes. *)
From Stdlib Require Import Strings.Byte Strings.String Lia.
From stdpp Require Import base list numbers.
From S2P Require Import Prelude Codec.

(** ** Closed enumerations *)

Inductive ObjectFormat := Sha1 | Sha256.

Inductive GitMode := RegularFile | ExecutableFile | Tree | Symlink | Gitlink.

Inductive ForgeDialect := Github | Gitlab | Gitea | BitbucketCloud | BitbucketDataCenter.

#[export] Instance ObjectFormat_eq_dec : EqDecision ObjectFormat.
Proof. solve_decision. Defined.
#[export] Instance GitMode_eq_dec : EqDecision GitMode.
Proof. solve_decision. Defined.
#[export] Instance ForgeDialect_eq_dec : EqDecision ForgeDialect.
Proof. solve_decision. Defined.

(** [ForgeDialect::default_for_host]. *)
Definition default_for_host (host : bytes) : option ForgeDialect :=
  if bytes_eqb host (b_ "github.com") then Some Github
  else if bytes_eqb host (b_ "gitlab.com") then Some Gitlab
  else if bytes_eqb host (b_ "codeberg.org") then Some Gitea
  else if bytes_eqb host (b_ "bitbucket.org") then Some BitbucketCloud
  else None.

Module AnalysisPhase.
Inductive t :=
  | Configuration | Discovery | Git | Internal | Invocation | Output | Parse | Policy
  | Resolution.
End AnalysisPhase.

Inductive ResourceName :=
  | GitObjectBytes
  | GitCompressedObjectBytes
  | AggregateGitCompressedObjectBytesPerEvaluation
  | GitPackDirectoryEntries
  | GitPackFiles
  | GitPackIndexBytes
  | AggregateGitPackIndexBytes
  | GitDeltaDepth
  | GitIndexBytes
  | GitTreeEntriesPerSnapshot
  | DocumentsPerSnapshot
  | ControlInputBytes
  | SelectedControlBlobBytes
  | AggregateSelectedControlBytesPerSnapshot
  | RepositoryPolicyEntries
  | DebtItems
  | WaiverItems
  | RawPathBytes
  | DocumentBlobBytes
  | ReferencedTargetBlobBytes
  | AggregateReferencedTargetBytesPerSnapshot
  | IgnoreDeclarationBlobBytes
  | AggregateIgnoreDeclarationBytesPerSnapshot
  | AggregateLineFragmentEvaluationBytesPerSnapshot
  | AggregateHeadingAnchorEvaluationBytesPerSnapshot
  | ProjectionAssertionsPerSnapshot
  | AggregateProjectionSelectedBytesPerSnapshot
  | ProjectionRecordsComparedPerSnapshot
  | AggregateProjectionProjectedBytesPerSnapshot
  | AggregateProjectionPreviewBytesPerSnapshot
  | AggregateDocumentBytesPerSnapshot
  | RawLinkDestinationBytes
  | ParserNesting
  | ParserNodesPerDocument
  | ParserNodesPerSnapshot
  | AggregateEmbeddedCodeEvaluationBytesPerSnapshot
  | ReferencesPerDocument
  | ReferencesPerSnapshot
  | DeclaredLabelsPerSnapshot
  | OrganizationPolicyEntries
  | CompleteFindings
  | TypedAnalysisErrorsRetained
  | MachineJsonBytes
  | PrivateTemporaryStorageBytes
  | EvaluatorManagedMemoryBytes.

(** [ResourceName::phase]: the phase each row of the [resource_names!] table
    names. *)
Definition resource_phase (r : ResourceName) : AnalysisPhase.t :=
  match r with
  | GitObjectBytes | GitCompressedObjectBytes
  | AggregateGitCompressedObjectBytesPerEvaluation | GitPackDirectoryEntries
  | GitPackFiles | GitPackIndexBytes | AggregateGitPackIndexBytes | GitDeltaDepth
  | GitIndexBytes | GitTreeEntriesPerSnapshot | RawPathBytes => AnalysisPhase.Git
  | DocumentsPerSnapshot | SelectedControlBlobBytes
  | AggregateSelectedControlBytesPerSnapshot | DocumentBlobBytes
  | AggregateDocumentBytesPerSnapshot => AnalysisPhase.Discovery
  | ControlInputBytes | RepositoryPolicyEntries | DebtItems | WaiverItems
  | OrganizationPolicyEntries => AnalysisPhase.Configuration
  | ReferencedTargetBlobBytes | AggregateReferencedTargetBytesPerSnapshot
  | IgnoreDeclarationBlobBytes | AggregateIgnoreDeclarationBytesPerSnapshot
  | AggregateLineFragmentEvaluationBytesPerSnapshot
  | AggregateHeadingAnchorEvaluationBytesPerSnapshot
  | ProjectionAssertionsPerSnapshot | AggregateProjectionSelectedBytesPerSnapshot
  | ProjectionRecordsComparedPerSnapshot | AggregateProjectionProjectedBytesPerSnapshot
  | AggregateProjectionPreviewBytesPerSnapshot => AnalysisPhase.Resolution
  | RawLinkDestinationBytes | ParserNesting | ParserNodesPerDocument
  | ParserNodesPerSnapshot | AggregateEmbeddedCodeEvaluationBytesPerSnapshot
  | ReferencesPerDocument | ReferencesPerSnapshot | DeclaredLabelsPerSnapshot => AnalysisPhase.Parse
  | CompleteFindings => AnalysisPhase.Policy
  | TypedAnalysisErrorsRetained | PrivateTemporaryStorageBytes
  | EvaluatorManagedMemoryBytes => AnalysisPhase.Internal
  | MachineJsonBytes => AnalysisPhase.Output
  end.

(** ** Object IDs *)

Module Oid.
(** The fields are private in the source: the only constructor is [new]. *)
Record t := mk { object_format : ObjectFormat; raw : bytes }.

#[global] Instance eq_dec : EqDecision t.
Proof. solve_decision. Defined.

(** [Oid::as_str]. *)
Definition as_str (o : t) : bytes := raw o.

(** Raw digest bytes of the format, the [20] and [32] of [oid_hex]. *)
Definition width (f : ObjectFormat) : usize :=
  match f with Sha1 => 20 | Sha256 => 32 end.

Section WithHex.
Context `{Hex}.

Definition oid_hex (f : ObjectFormat) (s : bytes) : bool :=
  if negb ((len s =? 40) || (len s =? 64)) || existsb is_ascii_uppercase s then false
  else match f with
       | Sha1 => bool_decide (is_Some (hex_decode_to_slice s 20))
       | Sha256 => bool_decide (is_Some (hex_decode_to_slice s 32))
       end.

(** [Oid::new]. *)
Definition new (f : ObjectFormat) (s : bytes) : option t :=
  if oid_hex f s then Some (mk f s) else None.

(** [<Oid as FromStr>::from_str]. *)
Definition from_str (s : bytes) : option t :=
  if len s =? 40 then new Sha1 s
  else if len s =? 64 then new Sha256 s
  else None.

(** What [new] establishes of every object ID. *)
Definition wf (o : t) : Prop :=
  exists b, len b = width (object_format o) /\ raw o = hex_encode b.

Context {HL : HexLaws _}.

Lemma new_Some f s o :
  new f s = Some o <->
  exists b, len b = width f /\ s = hex_encode b /\ o = mk f s.
Proof.
  unfold new, oid_hex. split.
  - destruct (negb _ || _) eqn:E; [done|].
    apply orb_false_elim in E as [_ Hu].
    intros Ho.
    assert (exists b, hex_decode s = Some b /\ len b = width f) as (b & Hb & Hl).
    { destruct f; case_bool_decide as Hd; try done;
        destruct Hd as [b [Hb Hl]%hex_decode_to_slice_spec]; eauto. }
    exists b. split; [done|].
    rewrite (hex_decode_lower s b Hb) by (unfold no_upper; by rewrite Hu).
    split; [done|]. rewrite <- (hex_decode_lower s b Hb) by (unfold no_upper; by rewrite Hu).
    destruct f; case_bool_decide; congruence.
  - intros (b & Hl & -> & ->).
    assert (existsb is_ascii_uppercase (hex_encode b) = false) as ->.
    { pose proof (hex_encode_lower b) as Hn. unfold no_upper in Hn. by apply negb_true_iff in Hn. }
    rewrite hex_encode_len, Hl.
    destruct f; simpl; rewrite bool_decide_true; try done;
      exists b; apply hex_decode_to_slice_spec; split; auto using hex_decode_encode.
Qed.

Lemma new_encode f b : len b = width f -> new f (hex_encode b) = Some (mk f (hex_encode b)).
Proof. intros. apply new_Some. eauto. Qed.

Lemma new_wf f s o : new f s = Some o -> wf o /\ object_format o = f /\ raw o = s.
Proof. intros (b & Hl & -> & ->)%new_Some. split; [by exists b|done]. Qed.

(** The raw bytes behind a well-formed object ID. *)
Lemma wf_decode o : wf o -> exists b, hex_decode (raw o) = Some b /\ len b = width (object_format o).
Proof. intros (b & Hl & ->). exists b. by rewrite hex_decode_encode. Qed.
End WithHex.
End Oid.

(** ** Digests *)

Module Digest.
(** [[u8; 32]]: the array length is the type's invariant. *)
Record t := mk { as_bytes : bytes; as_bytes_len : len as_bytes = 32 }.

Lemma eq d e : as_bytes d = as_bytes e -> d = e.
Proof.
  destruct d as [b Hb], e as [c Hc]. simpl. intros ->. f_equal. apply (Eqdep_dec.UIP_dec Z.eq_dec).
Qed.

(** [From<[u8; 32]>]. *)
Definition of_bytes (b : bytes) : option t :=
  match Z.eq_dec (len b) 32 with left H => Some (mk b H) | right _ => None end.

Section WithHex.
Context `{Hex}.

(** [Digest::from_wire]. *)
Definition from_wire (raw : bytes) : option t :=
  match strip_prefix (b_ "sha256:") raw with
  | Some encoded =>
      if negb (len encoded =? 64) || existsb is_ascii_uppercase encoded then None
      else match hex_decode_to_slice encoded 32 with
           | Some b => of_bytes b
           | None => None
           end
  | None => None
  end.

(** [<Digest as Display>::fmt]. *)
Definition display (d : t) : bytes := b_ "sha256:" ++ hex_encode (as_bytes d).

Context {HL : HexLaws _}.

Lemma of_bytes_as_bytes d : of_bytes (as_bytes d) = Some d.
Proof.
  unfold of_bytes. destruct (Z.eq_dec _ _) as [e|n].
  - f_equal. by apply eq.
  - destruct n. apply as_bytes_len.
Qed.

Lemma from_wire_display d : from_wire (display d) = Some d.
Proof.
  unfold from_wire, display.
  replace (strip_prefix _ _) with (Some (hex_encode (as_bytes d)))
    by (symmetry; by apply strip_prefix_Some).
  rewrite hex_encode_len, as_bytes_len.
  pose proof (hex_encode_lower (as_bytes d)) as Hn. unfold no_upper in Hn.
  apply negb_true_iff in Hn as ->. simpl.
  replace (hex_decode_to_slice _ 32) with (Some (as_bytes d)); [apply of_bytes_as_bytes|].
  symmetry. apply hex_decode_to_slice_spec. split; [apply hex_decode_encode|apply as_bytes_len].
Qed.

Lemma display_from_wire raw d : from_wire raw = Some d -> display d = raw.
Proof.
  unfold from_wire, display.
  destruct (strip_prefix _ _) as [e|] eqn:Hp; [|done].
  apply strip_prefix_Some in Hp as ->.
  destruct (negb _ || _) eqn:E; [done|]. apply orb_false_elim in E as [_ Hu].
  destruct (hex_decode_to_slice e 32) as [b|] eqn:Hb; [|done].
  apply hex_decode_to_slice_spec in Hb as [Hb _].
  unfold of_bytes. destruct (Z.eq_dec _ _); [|done]. intros [= <-]. cbn [as_bytes].
  rewrite <- (hex_decode_lower e b); [done|done|]. unfold no_upper. by rewrite Hu.
Qed.
End WithHex.
End Digest.

(** [Digest::from(Sha256::digest(b).0)]. *)
Definition sha256_digest `{HH : Hashes} {HHL : HashLaws HH} (b : bytes) : Digest.t :=
  Digest.mk (sha256 b) (sha256_len b).

(** ** Repository paths *)

Module Path.
(** [Segment]: what the bytes since the last separator are so far. *)
Inductive Segment := Empty | Dot | DotDot | Named.

(** One step of [path_bytes_valid]; [None] is [return false]. *)
Definition step (segment : Segment) (byte : Byte.byte) : option Segment :=
  match byte, segment with
  | "/"%byte, Named => Some Empty
  | x00, _ | "\"%byte, _ | "/"%byte, _ => None
  | "."%byte, Empty => Some Dot
  | "."%byte, Dot => Some DotDot
  | "."%byte, (DotDot | Named) => Some Named
  | _, _ => Some Named
  end.

Fixpoint scan (segment : Segment) (rest : bytes) : option Segment :=
  match rest with
  | [] => Some segment
  | byte :: tail => match step segment byte with Some s => scan s tail | None => None end
  end.

Definition path_bytes_valid (raw : bytes) : bool :=
  if bytes_eqb raw [] || (len raw >? 4096) then false
  else match scan Empty raw with Some Named => true | _ => false end.

(** [Repr]: text exactly when the bytes are UTF-8. *)
Inductive Repr := Text (text : bytes) | Bytes (raw : bytes).
Definition RepoPath := Repr.

(** [RepoPath::from_bytes]. *)
Definition from_bytes (raw : bytes) : option RepoPath :=
  if path_bytes_valid raw then
    match from_utf8 raw with
    | Some text => Some (Text text)
    | None => Some (Bytes raw)
    end
  else None.

Definition as_bytes (p : RepoPath) : bytes :=
  match p with Text t => t | Bytes b => b end.
Definition as_str (p : RepoPath) : option bytes :=
  match p with Text t => Some t | Bytes _ => None end.
(** [PartialEq] and [Ord] of [RepoPath]. *)
Definition eqb (p q : RepoPath) : bool := bytes_eqb (as_bytes p) (as_bytes q).
Definition cmp (p q : RepoPath) : comparison := bytes_cmp (as_bytes p) (as_bytes q).
(** [TryFrom<String> for RepoPathText]. *)
Definition text_try_from (raw : bytes) : option bytes :=
  if path_bytes_valid raw then Some raw else None.

(** *** Reference grammar *)

(** The segments between separators. *)
Fixpoint segments (l : bytes) : list bytes :=
  match l with
  | [] => [[]]
  | b :: l =>
      if beqb b "/"%byte then [] :: segments l
      else match segments l with s :: ss => (b :: s) :: ss | [] => [[b]] end
  end.

Definition segment_ok (s : bytes) : Prop :=
  s <> [] /\ s <> b_ "." /\ s <> b_ ".." /\ x00 ∉ s /\ "\"%byte ∉ s.

(** What the class of the bytes read so far says about them. *)
Definition classifies (c : Segment) (s : bytes) : Prop :=
  match c with
  | Empty => s = []
  | Dot => s = b_ "."
  | DotDot => s = b_ ".."
  | Named => s <> [] /\ s <> b_ "." /\ s <> b_ ".."
  end.

(** The automaton's step, by what the byte is. *)
Lemma step_spec c b :
  step c b =
    if beqb b "/"%byte then match c with Named => Some Empty | _ => None end
    else if beqb b x00 || beqb b "\"%byte then None
    else if beqb b "."%byte
         then Some match c with Empty => Dot | Dot => DotDot | _ => Named end
    else Some Named.
Proof. destruct b, c; reflexivity. Qed.

Lemma named_snoc s b : classifies Named s -> classifies Named (s ++ [b]).
Proof.
  intros (H0 & H1 & H2). repeat split; intros Heq.
  - by destruct s.
  - apply (app_inj_tail s []) in Heq as [-> _]. done.
  - apply (app_inj_tail s (b_ ".")) in Heq as [-> _]. done.
Qed.

Lemma step_classifies c b c' s :
  step c b = Some c' -> b <> "/"%byte -> classifies c s -> classifies c' (s ++ [b]).
Proof.
  rewrite step_spec. destruct (beqb b "/"%byte) eqn:E; [by apply beqb_eq in E|].
  intros Hs _ Hc. destruct (_ || _); [done|].
  destruct (beqb b "."%byte) eqn:Ed; simplify_eq.
  - apply beqb_eq in Ed as ->. destruct c; simpl in Hc; subst;
      first [done|by repeat split|by apply named_snoc].
  - assert (b <> "."%byte) by (intros ->; by rewrite beqb_refl in Ed).
    destruct c; simpl in Hc; subst; [..|by apply named_snoc];
      repeat split; try done; intros [=]; done.
Qed.

Definition clean (s : bytes) : Prop := x00 ∉ s /\ "\"%byte ∉ s.

Lemma classifies_ok c s : clean s -> classifies c s -> segment_ok s <-> c = Named.
Proof.
  unfold clean, segment_ok. intros (? & ?) Hc.
  destruct c; simpl in Hc; subst; naive_solver.
Qed.

(** Reading [rest] after the bytes [s] of an unfinished segment. *)
Lemma scan_spec rest c s h t :
  clean s -> classifies c s -> segments rest = h :: t ->
  scan c rest = Some Named <-> segment_ok (s ++ h) /\ Forall segment_ok t.
Proof.
  revert c s h t. induction rest as [|b rest IH]; intros c s h t Hs Hc Hseg; simpl in *.
  - simplify_eq. rewrite app_nil_r, (classifies_ok c s Hs Hc). naive_solver.
  - destruct (segments rest) as [|h' t'] eqn:Er.
    { exfalso. clear -Er. destruct rest as [|x rest]; simpl in Er; [done|].
      destruct (beqb x _); [done|]. by destruct (segments rest). }
    rewrite step_spec. destruct (beqb b "/"%byte) eqn:Eslash; simplify_eq.
    + rewrite app_nil_r, Forall_cons_iff, (classifies_ok c s Hs Hc).
      destruct c; [split; [done|by intros [? _]] ..|].
      rewrite (IH Empty [] h' t'); [|split; apply not_elem_of_nil|done|done].
      simpl. split; [by split|by intros [_ ?]].
    + destruct (beqb b x00 || beqb b "\"%byte) eqn:Ebad.
      * split; [done|]. intros [(_ & _ & _ & H0 & H1) _].
        apply orb_prop in Ebad as [->%beqb_eq| ->%beqb_eq];
          [destruct H0|destruct H1]; apply elem_of_app; right; left.
      * assert (step c b = Some (if beqb b "."%byte
           then match c with Empty => Dot | Dot => DotDot | _ => Named end else Named)) as Hstep.
        { rewrite step_spec, Eslash, Ebad. by destruct (beqb b "."%byte). }
        apply orb_false_elim in Ebad as [E0 E1].
        assert (clean (s ++ [b])) as Hcl.
        { destruct Hs as [Hs0 Hs1].
          split; rewrite elem_of_app, list_elem_of_singleton; intros [|<-]; try done;
            by rewrite beqb_refl in *. }
        eapply step_classifies in Hstep as Hc'; [|intros ->; by rewrite beqb_refl in Eslash|done].
        specialize (IH _ _ h' t Hcl Hc' eq_refl). rewrite <- app_assoc in IH. simpl in IH.
        destruct (beqb b "."%byte); apply IH.
Qed.

Lemma path_bytes_valid_spec raw :
  path_bytes_valid raw = true <->
  raw <> [] /\ len raw <= 4096 /\ Forall segment_ok (segments raw).
Proof.
  unfold path_bytes_valid. rewrite Z.gtb_ltb.
  destruct (bytes_eqb raw []) eqn:E; [apply bytes_eqb_eq in E as ->; naive_solver|].
  apply bytes_eqb_neq in E. destruct (Z.ltb_spec 4096 (len raw)); simpl; [naive_solver lia|].
  destruct (segments raw) as [|h t] eqn:Es.
  { by destruct raw as [|x r]; simpl in Es; [|destruct (beqb x _); [|destruct (segments r)]]. }
  pose proof (scan_spec raw Empty [] h t ltac:(split; apply not_elem_of_nil) eq_refl Es) as Hsc.
  rewrite Forall_cons_iff. simpl in Hsc. rewrite <- Hsc.
  destruct (scan Empty raw) as [[]|]; split; try done; by intros (_ & _ & [=]).
Qed.
End Path.

(** ** Properties *)

(** [Oid::new] accepts exactly the lowercase hexadecimal spellings of the
    format's digest width, and keeps the text it was given. *)
Theorem oid_new_exact (HX : Hex) (HL : HexLaws HX) f s o :
  Oid.new f s = Some o <->
  exists b, len b = Oid.width f /\ s = hex_encode b /\ o = Oid.mk f s.
Proof. apply Oid.new_Some. Qed.

Lemma oid_new_exact_witness :
  HexLaws rfc_hex /\
  exists b, len b = 20 /\ hex_encode (Hex := rfc_hex) b = b_ "00112233445566778899aabbccddeeff00112233".
Proof.
  split; [exact rfc_hex_laws|].
  destruct (proj1 (oid_new_exact rfc_hex rfc_hex_laws Sha1
    (b_ "00112233445566778899aabbccddeeff00112233")
    (Oid.mk Sha1 (b_ "00112233445566778899aabbccddeeff00112233")))) as (b & Hl & Hs & _);
    [vm_compute; reflexivity|].
  exists b. split; [exact Hl|symmetry; exact Hs].
Defined.

(** a digest's wire form parses back to the digest, and every accepted wire
    form is the one the digest prints: the spelling is canonical. *)
Theorem digest_wire_roundtrip (HX : Hex) (HL : HexLaws HX) :
  (forall d, Digest.from_wire (Digest.display d) = Some d) /\
  (forall raw d, Digest.from_wire raw = Some d -> Digest.display d = raw).
Proof. split; [apply Digest.from_wire_display|apply Digest.display_from_wire]. Qed.

Lemma digest_wire_roundtrip_witness :
  HexLaws rfc_hex /\
  Digest.from_wire (H := rfc_hex)
    (Digest.display (H := rfc_hex) (Digest.mk (repeat x01 32) eq_refl))
  = Some (Digest.mk (repeat x01 32) eq_refl).
Proof.
  split; [exact rfc_hex_laws|].
  apply (proj1 (digest_wire_roundtrip rfc_hex rfc_hex_laws)).
Defined.

(** the one-pass path automaton accepts exactly the nonempty paths of at
    most 4096 bytes whose slash-separated segments are nonempty, not dot or
    dot-dot, and free of NUL and backslash. *)
Theorem path_grammar_exact raw :
  Path.path_bytes_valid raw = true <->
  raw <> [] /\ len raw <= 4096 /\ Forall Path.segment_ok (Path.segments raw).
Proof. apply Path.path_bytes_valid_spec. Qed.

(** constructing a repository path classifies its bytes once: the bytes come
    back unchanged, the path is text exactly when they are UTF-8, and two paths
    built from bytes are equal exactly when the bytes are, so no byte string has
    two representations. *)
Theorem repo_path_canonical raw p :
  Path.from_bytes raw = Some p ->
  Path.as_bytes p = raw /\
  (Path.as_str p = Some raw <-> utf8_valid raw = true) /\
  (forall raw' p', Path.from_bytes raw' = Some p' ->
     Path.eqb p p' = true <-> p = p').
Proof.
  unfold Path.from_bytes, from_utf8. intros Hp.
  destruct (Path.path_bytes_valid raw) eqn:Hv; [|done].
  assert (Path.as_bytes p = raw) as Hraw by (destruct (utf8_valid raw); by simplify_eq).
  split; [done|]. split.
  - clear Hraw. destruct (utf8_valid raw); simplify_eq/=; by split.
  - intros raw' p' Hp'. destruct (Path.path_bytes_valid raw'); [|done].
    unfold Path.eqb. rewrite bytes_eqb_eq. split; [|by intros ->].
    intros Heq. clear Hraw. destruct (utf8_valid raw) eqn:E, (utf8_valid raw') eqn:E'; simplify_eq/=; congruence.
Qed.

Lemma repo_path_canonical_witness :
  Path.from_bytes (b_ "docs/a.md") = Some (Path.Text (b_ "docs/a.md")) /\
  Path.as_bytes (Path.Text (b_ "docs/a.md")) = b_ "docs/a.md".
Proof.
  split; [vm_compute; reflexivity|].
  apply (repo_path_canonical (b_ "docs/a.md") (Path.Text (b_ "docs/a.md"))).
  vm_compute; reflexivity.
Defined.
