(* ===== verification/WireTime.v ===== *)
(** Whole-second UTC instants: [crates/amiss-wire/src/model/time.rs]. The wire
    form is the fixed-width calendar text; the conversions to and from Unix
    seconds are the civil-date identities on the proleptic Gregorian calendar. *)
From Stdlib Require Import Strings.Byte Strings.String Lia.
From stdpp Require Import base list numbers.
From S2P Require Import Prelude.

(** Division and remainder by constants, for [lia]. *)
Ltac Zify.zify_post_hook ::= Z.to_euclidean_division_equations.

Definition MIN_EPOCH_SECONDS : i64 := -62167219200.
Definition MAX_EPOCH_SECONDS : i64 := 253402300799.

(** [try_fold(0_u32, ..)] over the digits of a field. *)
Fixpoint field_fold (acc : u32) (digits : bytes) : option u32 :=
  match digits with
  | [] => Some acc
  | byte :: digits =>
      let digit := (u8 byte - 48) mod 256 in
      if acc * 10 <=? u32_max then
        if acc * 10 + digit <=? u32_max then field_fold (acc * 10 + digit) digits else None
      else None
  end.

Definition field (input : bytes) (start len_ : usize) : option u32 :=
  match checked_add start len_ with
  | Some end_ => match slice input start end_ with
                 | Some digits => field_fold 0 digits
                 | None => None
                 end
  | None => None
  end.

Definition days_in_month (year month : u32) : u32 :=
  let leap := (year mod 4 =? 0) && (negb (year mod 100 =? 0) || (year mod 400 =? 0)) in
  if existsb (Z.eqb month) [1; 3; 5; 7; 8; 10; 12] then 31
  else if existsb (Z.eqb month) [4; 6; 9; 11] then 30
  else if month =? 2 then if leap then 29 else 28
  else 0.

Module UtcInstant.
(** The loop of [new]: digits except at the separators. *)
Fixpoint shape_ok (index : usize) (input : bytes) : bool :=
  match input with
  | [] => true
  | byte :: input =>
      let expected_digit := negb (existsb (Z.eqb index) [4; 7; 10; 13; 16; 19]) in
      if Bool.eqb expected_digit (is_ascii_digit byte) then shape_ok (index + 1) input else false
  end.

Definition separator_is (input : bytes) (index : usize) (byte : Byte.byte) : bool :=
  match get input index with Some b => beqb b byte | None => false end.

(** [UtcInstant::new]; the instant is its text. *)
Definition new (raw : bytes) : option bytes :=
  if negb (len raw =? 20) then None
  else if negb (shape_ok 0 raw) then None
  else if negb (separator_is raw 4 "-") || negb (separator_is raw 7 "-") || negb (separator_is raw 10 "T")
       || negb (separator_is raw 13 ":") || negb (separator_is raw 16 ":") || negb (separator_is raw 19 "Z")
  then None
  else
    match field raw 0 4, field raw 5 2, field raw 8 2, field raw 11 2, field raw 14 2, field raw 17 2 with
    | Some year, Some month, Some day, Some hour, Some minute, Some second =>
        if negb ((1 <=? month) && (month <=? 12)) || (day =? 0) || (days_in_month year month <? day) then None
        else if (23 <? hour) || (59 <? minute) || (59 <? second) then None
        else Some raw
    | _, _, _, _, _, _ => None
    end.

(** [format!("{n:0width}")]: sign first, then zeros up to the width. *)
Definition fmt_padded (width : nat) (n : i64) : bytes :=
  if n <? 0 then
    let digits := fmt_dec (- n) in b_ "-" ++ repeat "0"%byte (width - 1 - length digits) ++ digits
  else let digits := fmt_dec n in repeat "0"%byte (width - length digits) ++ digits.

(** [UtcInstant::from_epoch_seconds]; [/] and [%] truncate. *)
Definition from_epoch_seconds (seconds : i64) : option bytes :=
  if negb ((MIN_EPOCH_SECONDS <=? seconds) && (seconds <=? MAX_EPOCH_SECONDS)) then None
  else
    let days := seconds / 86400 in
    let day_seconds := seconds mod 86400 in
    let shifted_days := days + 719468 in
    let era := shifted_days / 146097 in
    let day_of_era := shifted_days - era * 146097 in
    let year_of_era :=
      Z.quot (day_of_era - Z.quot day_of_era 1460 + Z.quot day_of_era 36524 - Z.quot day_of_era 146096) 365 in
    let year := year_of_era + era * 400 in
    let day_of_year := day_of_era - (365 * year_of_era + Z.quot year_of_era 4 - Z.quot year_of_era 100) in
    let month_piece := Z.quot (5 * day_of_year + 2) 153 in
    let day := day_of_year - Z.quot (153 * month_piece + 2) 5 + 1 in
    let month := month_piece + (if month_piece <? 10 then 3 else -9) in
    let year := if month <=? 2 then year + 1 else year in
    let hour := Z.quot day_seconds 3600 in
    let minute := Z.quot (Z.rem day_seconds 3600) 60 in
    let second := Z.rem day_seconds 60 in
    new (fmt_padded 4 year ++ b_ "-" ++ fmt_padded 2 month ++ b_ "-" ++ fmt_padded 2 day ++ b_ "T" ++
         fmt_padded 2 hour ++ b_ ":" ++ fmt_padded 2 minute ++ b_ ":" ++ fmt_padded 2 second ++ b_ "Z").

(** [UtcInstant::epoch_seconds]. *)
Definition epoch_seconds (instant : bytes) : i64 :=
  let part start len_ := default 0 (field instant start len_) in
  let year := part 0 4 in
  let month := part 5 2 in
  let day := part 8 2 in
  let shifted_year := if month <=? 2 then year - 1 else year in
  let era := shifted_year / 400 in
  let year_of_era := shifted_year - era * 400 in
  let month_index := if 2 <? month then month - 3 else month + 9 in
  let day_of_year := Z.quot (153 * month_index + 2) 5 + day - 1 in
  let day_of_era := year_of_era * 365 + Z.quot year_of_era 4 - Z.quot year_of_era 100 + day_of_year in
  let days := era * 146097 + day_of_era - 719468 in
  days * 86400 + part 11 2 * 3600 + part 14 2 * 60 + part 17 2.
End UtcInstant.
Import UtcInstant.

(** ** Calendar fields *)

Record Civil := mkCivil { year : Z; month : Z; day : Z; hour : Z; minute : Z; second : Z }.

Definition civil_ok (c : Civil) : Prop :=
  0 <= year c <= 9999 /\ 1 <= month c <= 12 /\ 1 <= day c <= days_in_month (year c) (month c) /\
  0 <= hour c <= 23 /\ 0 <= minute c <= 59 /\ 0 <= second c <= 59.

Definition pad2 (n : Z) : bytes := [digit_char (n / 10); digit_char (n mod 10)].
Definition pad4 (n : Z) : bytes := pad2 (n / 100) ++ pad2 (n mod 100).

(** The text of a calendar instant. *)
Definition render (c : Civil) : bytes :=
  pad4 (year c) ++ b_ "-" ++ pad2 (month c) ++ b_ "-" ++ pad2 (day c) ++ b_ "T" ++
  pad2 (hour c) ++ b_ ":" ++ pad2 (minute c) ++ b_ ":" ++ pad2 (second c) ++ b_ "Z".

(** The days before a date and the seconds before an instant, in closed form. *)
Definition civil_days (y m d : Z) : Z :=
  let y' := if m <=? 2 then y - 1 else y in
  let mi := if m <=? 2 then m + 9 else m - 3 in
  365 * y' + y' / 4 - y' / 100 + y' / 400 + (153 * mi + 2) / 5 + d - 1 - 719468.
Definition civil_seconds (c : Civil) : Z :=
  civil_days (year c) (month c) (day c) * 86400 + hour c * 3600 + minute c * 60 + second c.

Lemma u8_digit d : 0 <= d <= 9 -> u8 (digit_char d) = 48 + d.
Proof. intros Hd. unfold digit_char. rewrite u8_byte_of; [done|lia]. Qed.

Lemma digit_is_digit d : 0 <= d <= 9 -> is_ascii_digit (digit_char d) = true.
Proof. intros Hd. unfold is_ascii_digit. rewrite u8_digit by lia. lia. Qed.

Lemma digit_of_byte b : is_ascii_digit b = true -> exists d, 0 <= d <= 9 /\ b = digit_char d.
Proof.
  unfold is_ascii_digit. intros Hb. exists (u8 b - 48). split; [lia|]. apply u8_inj. rewrite u8_digit; lia.
Qed.

Lemma dec_digits_small fuel n acc : 0 <= n <= 9 -> dec_digits fuel n acc = digit_char n :: acc.
Proof. intros Hn. destruct fuel; cbn; rewrite Z.mod_small by lia; [done|]. by rewrite (proj2 (Z.ltb_lt n 10)) by lia. Qed.

Lemma dec_digits_large fuel n acc :
  10 <= n -> dec_digits (S fuel) n acc = dec_digits fuel (n / 10) (digit_char (n mod 10) :: acc).
Proof. intros Hn. cbn. by rewrite (proj2 (Z.ltb_ge n 10)) by lia. Qed.

Lemma fmt_padded_2 n : 0 <= n <= 99 -> fmt_padded 2 n = pad2 n.
Proof.
  intros Hn. unfold fmt_padded, fmt_dec, pad2. rewrite (proj2 (Z.ltb_ge n 0)) by lia. cbv zeta.
  destruct (decide (n < 10)).
  - rewrite dec_digits_small by lia. by rewrite Z.div_small, Z.mod_small by lia.
  - rewrite dec_digits_large, dec_digits_small by lia. done.
Qed.

Lemma fmt_padded_4 n : 0 <= n <= 9999 -> fmt_padded 4 n = pad4 n.
Proof.
  intros Hn. unfold fmt_padded, fmt_dec, pad4, pad2. rewrite (proj2 (Z.ltb_ge n 0)) by lia. cbv zeta.
  assert (n mod 100 / 10 = n / 10 mod 10) as E1 by lia. assert ((n mod 100) mod 10 = n mod 10) as E2 by lia.
  assert (n / 100 / 10 = n / 10 / 10 / 10) as E3 by lia. assert ((n / 100) mod 10 = n / 10 / 10 mod 10) as E4 by lia.
  rewrite E1, E2, E3, E4. cbn [app].
  destruct (decide (n < 10)); [|rewrite dec_digits_large by lia; destruct (decide (n / 10 < 10));
    [|rewrite dec_digits_large by lia; destruct (decide (n / 10 / 10 < 10)); [|rewrite dec_digits_large by lia]]].
  - rewrite dec_digits_small by lia. cbn. rewrite (Z.div_small n 10), (Z.mod_small n 10) by lia. done.
  - rewrite dec_digits_small by lia. cbn. rewrite (Z.div_small (n / 10) 10), (Z.mod_small (n / 10) 10) by lia. done.
  - rewrite dec_digits_small by lia. cbn. rewrite (Z.div_small (n / 10 / 10) 10), (Z.mod_small (n / 10 / 10) 10) by lia. done.
  - rewrite dec_digits_small by lia. done.
Qed.

(** ** Reading the fields back *)

Lemma field_fold_step acc d l :
  0 <= acc <= 100000 -> 0 <= d <= 9 -> field_fold acc (digit_char d :: l) = field_fold (acc * 10 + d) l.
Proof.
  intros Ha Hd. cbn [field_fold]. cbv zeta. rewrite u8_digit by lia.
  replace ((48 + d - 48) mod 256) with d by lia. unfold u32_max.
  rewrite (proj2 (Z.leb_le (acc * 10) _)), (proj2 (Z.leb_le (acc * 10 + d) _)) by lia. done.
Qed.

Lemma field_pad2 n : 0 <= n <= 99 -> field_fold 0 (pad2 n) = Some n.
Proof. intros Hn. unfold pad2. rewrite !field_fold_step by lia. cbn [field_fold]. f_equal. lia. Qed.

Lemma field_pad4 n : 0 <= n <= 9999 -> field_fold 0 (pad4 n) = Some n.
Proof. intros Hn. unfold pad4, pad2. cbn [app]. rewrite !field_fold_step by lia. cbn [field_fold]. f_equal. lia. Qed.

Lemma pad2_inv n : exists a b, pad2 n = [a; b].
Proof. unfold pad2. eauto. Qed.
Lemma pad4_inv n : exists a b c d, pad4 n = [a; b; c; d].
Proof. unfold pad4, pad2. cbn. eauto. Qed.

(** The six fields of a rendered instant. *)
Lemma render_fields c :
  civil_ok c ->
  field (render c) 0 4 = Some (year c) /\ field (render c) 5 2 = Some (month c) /\
  field (render c) 8 2 = Some (day c) /\ field (render c) 11 2 = Some (hour c) /\
  field (render c) 14 2 = Some (minute c) /\ field (render c) 17 2 = Some (second c).
Proof.
  intros (Hy & Hm & Hd & Hh & Hn & Hs).
  assert (days_in_month (year c) (month c) <= 31) as Hdm.
  { unfold days_in_month. repeat case_match; lia. }
  rewrite <- (field_pad4 (year c)), <- (field_pad2 (month c)), <- (field_pad2 (day c)),
    <- (field_pad2 (hour c)), <- (field_pad2 (minute c)), <- (field_pad2 (second c)) by lia.
  unfold render. destruct (pad4_inv (year c)) as (y1 & y2 & y3 & y4 & ->).
  destruct (pad2_inv (month c)) as (m1 & m2 & ->), (pad2_inv (day c)) as (d1 & d2 & ->),
    (pad2_inv (hour c)) as (h1 & h2 & ->), (pad2_inv (minute c)) as (n1 & n2 & ->),
    (pad2_inv (second c)) as (s1 & s2 & ->).
  done.
Qed.

Lemma render_len c : len (render c) = 20.
Proof. done. Qed.

Lemma pad2_digits n : 0 <= n <= 99 -> forallb is_ascii_digit (pad2 n) = true.
Proof. intros Hn. cbn. rewrite !digit_is_digit by lia. done. Qed.

Lemma render_shape c : civil_ok c -> shape_ok 0 (render c) = true.
Proof.
  intros (Hy & Hm & Hd & Hh & Hn & Hs).
  assert (days_in_month (year c) (month c) <= 31) as Hdm.
  { unfold days_in_month. repeat case_match; lia. }
  unfold render, pad4, pad2, b_. cbn -[is_ascii_digit digit_char Z.div Z.modulo].
  rewrite !digit_is_digit by lia. reflexivity.
Qed.

Lemma render_new c : civil_ok c -> new (render c) = Some (render c).
Proof.
  intros Hc. unfold new. rewrite render_len, render_shape by done. cbn [Z.eqb Pos.eqb negb].
  assert (separator_is (render c) 4 "-" = true /\ separator_is (render c) 7 "-" = true /\
    separator_is (render c) 10 "T" = true /\ separator_is (render c) 13 ":" = true /\
    separator_is (render c) 16 ":" = true /\ separator_is (render c) 19 "Z" = true) as (-> & -> & -> & -> & -> & ->)
    by done.
  cbn [negb orb]. destruct (render_fields c Hc) as (-> & -> & -> & -> & -> & ->).
  destruct Hc as (Hy & Hm & Hd & Hh & Hn & Hs).
  assert (negb ((1 <=? month c) && (month c <=? 12)) || (day c =? 0) || (days_in_month (year c) (month c) <? day c) = false)
    as -> by lia.
  assert ((23 <? hour c) || (59 <? minute c) || (59 <? second c) = false) as -> by lia. done.
Qed.

Lemma pad2_digit a b : 0 <= a <= 9 -> 0 <= b <= 9 -> pad2 (a * 10 + b) = [digit_char a; digit_char b].
Proof.
  intros Ha Hb. unfold pad2. replace ((a * 10 + b) / 10) with a by lia.
  by replace ((a * 10 + b) mod 10) with b by lia.
Qed.

Lemma pad4_digit a b c d :
  0 <= a <= 9 -> 0 <= b <= 9 -> 0 <= c <= 9 -> 0 <= d <= 9 ->
  pad4 (((a * 10 + b) * 10 + c) * 10 + d) = [digit_char a; digit_char b; digit_char c; digit_char d].
Proof.
  intros Ha Hb Hc Hd. unfold pad4.
  replace ((((a * 10 + b) * 10 + c) * 10 + d) / 100) with (a * 10 + b) by lia.
  replace ((((a * 10 + b) * 10 + c) * 10 + d) mod 100) with (c * 10 + d) by lia.
  by rewrite !pad2_digit.
Qed.

Lemma shape_digit index b l :
  existsb (Z.eqb index) [4; 7; 10; 13; 16; 19] = false -> shape_ok index (b :: l) = true ->
  (exists d, 0 <= d <= 9 /\ b = digit_char d) /\ shape_ok (index + 1) l = true.
Proof.
  intros Hi. cbn [shape_ok]. cbv zeta. rewrite Hi. cbn [negb]. destruct (is_ascii_digit b) eqn:E; [|done].
  intros Hs. split; [by apply digit_of_byte|done].
Qed.

Lemma shape_separator index b l :
  existsb (Z.eqb index) [4; 7; 10; 13; 16; 19] = true -> shape_ok index (b :: l) = true ->
  shape_ok (index + 1) l = true.
Proof. intros Hi. cbn [shape_ok]. cbv zeta. rewrite Hi. cbn [negb]. by destruct (is_ascii_digit b). Qed.

(** Takes the digits or the separator at the front of a text of good shape. *)
Ltac take_digit Hs :=
  let d := fresh "d" in let Hd := fresh "Hd" in
  apply shape_digit in Hs as [(d & Hd & ->) Hs]; [|reflexivity].
Ltac take_separator Hs := apply shape_separator in Hs; [|reflexivity].

(** What the accessors see of a text of twenty bytes. *)
Lemma twenty_bytes b0 b1 b2 b3 b4 b5 b6 b7 b8 b9 b10 b11 b12 b13 b14 b15 b16 b17 b18 b19 :
  let raw := [b0; b1; b2; b3; b4; b5; b6; b7; b8; b9; b10; b11; b12; b13; b14; b15; b16; b17; b18; b19] in
  (forall x, separator_is raw 4 x = beqb b4 x) /\ (forall x, separator_is raw 7 x = beqb b7 x) /\
  (forall x, separator_is raw 10 x = beqb b10 x) /\ (forall x, separator_is raw 13 x = beqb b13 x) /\
  (forall x, separator_is raw 16 x = beqb b16 x) /\ (forall x, separator_is raw 19 x = beqb b19 x) /\
  field raw 0 4 = field_fold 0 [b0; b1; b2; b3] /\ field raw 5 2 = field_fold 0 [b5; b6] /\
  field raw 8 2 = field_fold 0 [b8; b9] /\ field raw 11 2 = field_fold 0 [b11; b12] /\
  field raw 14 2 = field_fold 0 [b14; b15] /\ field raw 17 2 = field_fold 0 [b17; b18].
Proof. cbv zeta. split_and!; reflexivity. Qed.

Lemma new_inv raw t : new raw = Some t -> t = raw /\ exists c, civil_ok c /\ raw = render c.
Proof.
  unfold new. destruct (negb (len raw =? 20)) eqn:Hl; [done|].
  destruct (shape_ok 0 raw) eqn:Hs; [cbn [negb]|done].
  assert (length raw = 20%nat) as Hlen by (unfold len in Hl; lia). clear Hl.
  do 20 (destruct raw as [|? raw]; [done|]). destruct raw; [|done]. clear Hlen.
  do 4 take_digit Hs. take_separator Hs. do 2 take_digit Hs. take_separator Hs. do 2 take_digit Hs.
  take_separator Hs. do 2 take_digit Hs. take_separator Hs. do 2 take_digit Hs. take_separator Hs.
  do 2 take_digit Hs. clear Hs.
  match goal with |- context [field [?c0; ?c1; ?c2; ?c3; ?c4; ?c5; ?c6; ?c7; ?c8; ?c9; ?c10; ?c11; ?c12;
      ?c13; ?c14; ?c15; ?c16; ?c17; ?c18; ?c19] 0 4] =>
    destruct (twenty_bytes c0 c1 c2 c3 c4 c5 c6 c7 c8 c9 c10 c11 c12 c13 c14 c15 c16 c17 c18 c19)
      as (-> & -> & -> & -> & -> & -> & -> & -> & -> & -> & -> & ->) end.
  destruct (negb _ || _ || _ || _ || _ || _) eqn:Hsep; [done|].
  repeat (apply orb_false_elim in Hsep as [Hsep ?]).
  repeat match goal with H : negb (beqb _ _) = false |- _ =>
    apply negb_false_iff, Byte.byte_dec_bl in H; subst end.
  rewrite !field_fold_step by lia. cbn [field_fold]. rewrite !Z.add_0_l.
  destruct (negb (_ && _) || _ || _) eqn:Hdate; [done|].
  destruct ((23 <? _) || (59 <? _) || (59 <? _)) eqn:Htime; [done|]. intros E. injection E as E. split; [done|]. clear E.
  match type of Hdate with context [days_in_month ?y ?m <? ?d] =>
    match type of Htime with (23 <? ?h) || (59 <? ?n) || (59 <? ?s) = false =>
      exists (mkCivil y m d h n s)
    end end.
  split.
  - unfold civil_ok. cbn [year month day hour minute second]. lia.
  - unfold render. cbn [year month day hour minute second].
    rewrite pad4_digit, !pad2_digit by lia. reflexivity.
Qed.

(** ** Calendar arithmetic *)

(** The epoch seconds of a valid text. *)
Lemma epoch_seconds_render c : civil_ok c -> epoch_seconds (render c) = civil_seconds c.
Proof.
  intros Hc. unfold epoch_seconds, civil_seconds, civil_days. cbv zeta.
  destruct (render_fields c Hc) as (-> & -> & -> & -> & -> & ->). cbn [from_option id].
  destruct Hc as (Hy & Hm & Hd & _).
  destruct (Z.leb_spec (month c) 2), (Z.ltb_spec 2 (month c)); lia.
Qed.

(** A year of the shifted calendar begins in March; its leap day is its last. *)
Definition year_len (y : Z) : Z :=
  if ((y + 1) mod 4 =? 0) && (negb ((y + 1) mod 100 =? 0) || ((y + 1) mod 400 =? 0)) then 366 else 365.

(** The year of a day of the 400-year era. *)
Lemma year_of_era_exact yoe doy :
  0 <= yoe <= 399 -> 0 <= doy < year_len yoe ->
  let doe := 365 * yoe + yoe / 4 - yoe / 100 + doy in
  0 <= doe <= 146096 /\ (doe - doe / 1460 + doe / 36524 - doe / 146096) / 365 = yoe.
Proof.
  intros Hy Hd doe. unfold year_len in Hd.
  destruct (((yoe + 1) mod 4 =? 0) && _) eqn:El; subst doe; lia.
Qed.

Lemma year_of_era_total doe :
  0 <= doe <= 146096 ->
  let yoe := (doe - doe / 1460 + doe / 36524 - doe / 146096) / 365 in
  0 <= yoe <= 399 /\ 0 <= doe - (365 * yoe + yoe / 4 - yoe / 100) < year_len yoe.
Proof.
  intros Hd yoe. assert (0 <= yoe <= 399) as Hy by (subst yoe; lia). split; [done|].
  unfold year_len. destruct (((yoe + 1) mod 4 =? 0) && _) eqn:El; subst yoe; lia.
Qed.

(** The months of the shifted year, March first. *)
Lemma month_pieces doy :
  0 <= doy <= 365 ->
  let mp := (5 * doy + 2) / 153 in
  0 <= mp <= 11 /\ 1 <= doy - (153 * mp + 2) / 5 + 1 <= 31.
Proof. intros Hd mp. subst mp. lia. Qed.

Lemma days_in_month_shifted y doy :
  0 <= doy < year_len y ->
  let mp := (5 * doy + 2) / 153 in
  let m := if mp <? 10 then mp + 3 else mp - 9 in
  doy - (153 * mp + 2) / 5 + 1 <= days_in_month (if m <=? 2 then y + 1 else y) m.
Proof.
  intros Hd mp m.
  assert (year_len y <= 366) as Hl by (unfold year_len; case_match; lia).
  destruct (month_pieces doy) as [Hmp Hday]; [lia|]. fold mp in Hmp, Hday.
  assert (mp = 0 \/ mp = 1 \/ mp = 2 \/ mp = 3 \/ mp = 4 \/ mp = 5 \/ mp = 6 \/ mp = 7 \/ mp = 8 \/ mp = 9 \/
    mp = 10 \/ mp = 11) as Hcases by (clear -Hmp; clearbody mp; lia).
  assert (5 * doy + 2 < 153 * (mp + 1)) as Hup by (clear; subst mp; lia). clearbody mp.
  destruct Hcases as [E|[E|[E|[E|[E|[E|[E|[E|[E|[E|[E|E]]]]]]]]]]]; subst mp; vm_compute in m; subst m;
    cbn [Z.leb Z.compare Pos.compare Pos.compare_cont].
  1-11: unfold days_in_month; cbn [existsb Z.eqb Pos.eqb orb]; lia.
  unfold days_in_month, year_len in *. cbn [existsb Z.eqb Pos.eqb orb].
  destruct (((y + 1) mod 4 =? 0) && _); lia.
Qed.

(** The date of a day counted from 0000-03-01, and the fields of an instant. *)
Definition date_of (shifted_days : Z) : Z * Z * Z :=
  let era := shifted_days / 146097 in
  let doe := shifted_days - era * 146097 in
  let yoe := (doe - doe / 1460 + doe / 36524 - doe / 146096) / 365 in
  let doy := doe - (365 * yoe + yoe / 4 - yoe / 100) in
  let mp := (5 * doy + 2) / 153 in
  let m := if mp <? 10 then mp + 3 else mp - 9 in
  let y := yoe + era * 400 in
  (if m <=? 2 then y + 1 else y, m, doy - (153 * mp + 2) / 5 + 1).
Definition civil_of (seconds : Z) : Civil :=
  let '(y, m, d) := date_of (seconds / 86400 + 719468) in
  let t := seconds mod 86400 in
  mkCivil y m d (t / 3600) (t mod 3600 / 60) (t mod 60).

Lemma year_len_era y era : year_len (y + era * 400) = year_len y.
Proof.
  unfold year_len. replace ((y + era * 400 + 1) mod 4) with ((y + 1) mod 4) by lia.
  replace ((y + era * 400 + 1) mod 100) with ((y + 1) mod 100) by lia.
  by replace ((y + era * 400 + 1) mod 400) with ((y + 1) mod 400) by lia.
Qed.

Lemma date_of_exact n :
  -60 <= n <= 3652364 ->
  let '(y, m, d) := date_of n in
  0 <= y <= 9999 /\ 1 <= m <= 12 /\ 1 <= d <= days_in_month y m /\ civil_days y m d + 719468 = n.
Proof.
  intros Hn. unfold date_of. cbv zeta.
  set (era := n / 146097). set (doe := n - era * 146097).
  assert (0 <= doe <= 146096) as Hdoe by (subst doe era; lia).
  destruct (year_of_era_total doe Hdoe) as [Hyoe Hdoy]. cbv zeta in Hyoe, Hdoy.
  set (yoe := (doe - doe / 1460 + doe / 36524 - doe / 146096) / 365) in *. clearbody yoe.
  set (doy := doe - (365 * yoe + yoe / 4 - yoe / 100)) in *.
  assert (n = era * 146097 + (365 * yoe + yoe / 4 - yoe / 100) + doy) as Hsplit by (subst doy doe; lia).
  assert (-1 <= era <= 24) as Hera by (subst era; lia).
  clearbody doy. clear Hdoe. clearbody doe. clearbody era.
  assert (year_len yoe <= 366) as Hl by (unfold year_len; case_match; lia).
  destruct (month_pieces doy) as [Hmp Hday]; [lia|]. cbv zeta in Hmp, Hday.
  pose proof (days_in_month_shifted (yoe + era * 400) doy) as Hdm. rewrite year_len_era in Hdm.
  specialize (Hdm Hdoy). cbv zeta in Hdm.
  set (mp := (5 * doy + 2) / 153) in *.
  assert (153 * mp <= 5 * doy + 2 < 153 * (mp + 1)) as Hb by (subst mp; lia). clearbody mp.
  set (m := if mp <? 10 then mp + 3 else mp - 9) in *.
  assert ((10 <= mp /\ m = mp - 9) \/ (mp < 10 /\ m = mp + 3)) as Hm by (subst m; destruct (Z.ltb_spec mp 10); lia).
  clearbody m. unfold civil_days. cbv zeta.
  destruct (Z.leb_spec m 2); split_and!; lia.
Qed.

Lemma civil_of_exact s :
  MIN_EPOCH_SECONDS <= s <= MAX_EPOCH_SECONDS -> civil_ok (civil_of s) /\ civil_seconds (civil_of s) = s.
Proof.
  unfold MIN_EPOCH_SECONDS, MAX_EPOCH_SECONDS. intros Hs. unfold civil_of.
  pose proof (date_of_exact (s / 86400 + 719468) ltac:(lia)) as Hd.
  destruct (date_of _) as [[y m] d]. destruct Hd as (Hy & Hm & Hd & Hdays).
  unfold civil_ok, civil_seconds. cbn [year month day hour minute second]. split; [lia|].
  replace (civil_days y m d) with (s / 86400) by lia. clear. lia.
Qed.

Lemma from_epoch_seconds_civil s :
  MIN_EPOCH_SECONDS <= s <= MAX_EPOCH_SECONDS -> from_epoch_seconds s = Some (render (civil_of s)).
Proof.
  intros Hs. destruct (civil_of_exact s Hs) as [Hok _]. rewrite <- render_new by done.
  unfold from_epoch_seconds. rewrite (proj2 (Z.leb_le _ _) (proj1 Hs)), (proj2 (Z.leb_le _ _) (proj2 Hs)).
  cbn [andb negb]. cbv zeta. f_equal.
  pose proof Hok as (Hy & Hm & Hd & Hh & Hn & Hsec).
  assert (days_in_month (year (civil_of s)) (month (civil_of s)) <= 31) as Hdm.
  { unfold days_in_month. repeat case_match; lia. }
  unfold render. rewrite <- fmt_padded_4, <- !fmt_padded_2 by lia.
  clear Hok Hy Hm Hd Hh Hn Hsec Hdm.
  unfold civil_of, date_of. cbv zeta. cbn [year month day hour minute second].
  set (era := (s / 86400 + 719468) / 146097). set (doe := s / 86400 + 719468 - era * 146097).
  assert (0 <= doe <= 146096) as Hdoe by (subst doe era; lia). clearbody doe.
  destruct (year_of_era_total doe Hdoe) as [Hyoe Hdoy]. cbv zeta in Hyoe, Hdoy.
  rewrite !(Z.quot_div_nonneg doe) by lia. rewrite !(Z.quot_div_nonneg (_ - _ + _ - _) 365) by lia.
  set (yoe := (doe - doe / 1460 + doe / 36524 - doe / 146096) / 365) in *. clearbody yoe.
  rewrite !(Z.quot_div_nonneg yoe) by lia.
  set (doy := doe - (365 * yoe + yoe / 4 - yoe / 100)) in *. clearbody doy.
  rewrite !(Z.quot_div_nonneg (5 * doy + 2)) by lia.
  set (mp := (5 * doy + 2) / 153). assert (0 <= mp) as Hmp by (subst mp; lia). clearbody mp.
  rewrite !(Z.quot_div_nonneg (153 * mp + 2)) by lia.
  set (t := s mod 86400). assert (0 <= t < 86400) as Ht by (subst t; lia). clearbody t.
  rewrite !(Z.rem_mod_nonneg t) by lia. rewrite !(Z.quot_div_nonneg t), (Z.quot_div_nonneg (t mod 3600)) by lia.
  replace (mp + (if mp <? 10 then 3 else -9)) with (if mp <? 10 then mp + 3 else mp - 9) by (case_match; lia).
  done.
Qed.

(** ** Order *)

(** Comparing field by field, the most significant first. *)
Definition then_cmp (c d : comparison) : comparison := match c with Eq => d | _ => c end.
Definition civil_cmp (a b : Civil) : comparison :=
  then_cmp (year a ?= year b) (then_cmp (month a ?= month b) (then_cmp (day a ?= day b)
    (then_cmp (hour a ?= hour b) (then_cmp (minute a ?= minute b) (second a ?= second b))))).

Lemma bytes_cmp_app_eq (a b x y : bytes) :
  length a = length b -> bytes_cmp (a ++ x) (b ++ y) = then_cmp (bytes_cmp a b) (bytes_cmp x y).
Proof.
  revert b. induction a as [|c a IH]; intros [|d b] Hl; try done. injection Hl as Hl. cbn.
  destruct (u8 c ?= u8 d); [by apply IH|done|done].
Qed.

Lemma bytes_cmp_pad2 n m : 0 <= n <= 99 -> 0 <= m <= 99 -> bytes_cmp (pad2 n) (pad2 m) = (n ?= m).
Proof.
  intros Hn Hm. unfold pad2. cbn. rewrite !u8_digit by lia.
  destruct (Z.compare_spec (48 + n / 10) (48 + m / 10)), (Z.compare_spec (48 + n mod 10) (48 + m mod 10));
    symmetry; (apply Z.compare_eq_iff || apply Z.compare_lt_iff || apply Z.compare_gt_iff); lia.
Qed.

Lemma bytes_cmp_pad4 n m : 0 <= n <= 9999 -> 0 <= m <= 9999 -> bytes_cmp (pad4 n) (pad4 m) = (n ?= m).
Proof.
  intros Hn Hm. unfold pad4. rewrite bytes_cmp_app_eq, !bytes_cmp_pad2 by (done || lia).
  destruct (Z.compare_spec (n / 100) (m / 100)), (Z.compare_spec (n mod 100) (m mod 100)); cbn [then_cmp];
    symmetry; (apply Z.compare_eq_iff || apply Z.compare_lt_iff || apply Z.compare_gt_iff); lia.
Qed.

Lemma days_in_month_31 y m : days_in_month y m <= 31.
Proof. unfold days_in_month. repeat case_match; lia. Qed.

Lemma render_cmp a b : civil_ok a -> civil_ok b -> bytes_cmp (render a) (render b) = civil_cmp a b.
Proof.
  intros (Ay & Am & Ad & Ah & An & As) (By & Bm & Bd & Bh & Bn & Bs).
  pose proof (days_in_month_31 (year a) (month a)). pose proof (days_in_month_31 (year b) (month b)).
  unfold render, civil_cmp. rewrite !bytes_cmp_app_eq by done. rewrite bytes_cmp_pad4, !bytes_cmp_pad2 by lia.
  rewrite !bytes_cmp_refl. cbn [then_cmp]. by destruct (second a ?= second b).
Qed.

(** The days before a shifted year, and the last day of one. *)
Definition cumulative (y : Z) : Z := 365 * y + y / 4 - y / 100 + y / 400.

Lemma cumulative_succ y : cumulative (y + 1) = cumulative y + year_len y.
Proof. unfold cumulative, year_len. destruct (((y + 1) mod 4 =? 0) && _) eqn:E; lia. Qed.

Lemma cumulative_mono y y' : y <= y' -> cumulative y <= cumulative y'.
Proof. unfold cumulative. lia. Qed.

(** A date in the shifted calendar: its year, its month from March, its offset. *)
Definition shifted (y m : Z) : Z * Z := if m <=? 2 then (y - 1, m + 9) else (y, m - 3).

Lemma civil_days_shifted y m d :
  civil_days y m d = cumulative (shifted y m).1 + ((153 * (shifted y m).2 + 2) / 5 + d - 1) - 719468.
Proof. unfold civil_days, shifted, cumulative. destruct (m <=? 2); cbn; lia. Qed.

(** A valid day stays before the next month and inside its year. *)
Lemma day_offset y m d :
  1 <= m <= 12 -> 1 <= d <= days_in_month y m ->
  let mi := (shifted y m).2 in
  0 <= mi <= 11 /\
  (mi < 11 -> (153 * mi + 2) / 5 + d - 1 < (153 * (mi + 1) + 2) / 5) /\
  (153 * mi + 2) / 5 + d - 1 < year_len (shifted y m).1.
Proof.
  intros Hm Hd mi.
  assert (365 <= year_len (shifted y m).1) as Hl by (unfold year_len; case_match; lia).
  assert (m = 1 \/ m = 2 \/ m = 3 \/ m = 4 \/ m = 5 \/ m = 6 \/ m = 7 \/ m = 8 \/ m = 9 \/ m = 10 \/ m = 11 \/ m = 12)
    as Hcases by lia.
  destruct Hcases as [->|[->|[->|[->|[->|[->|[->|[->|[->|[->|[->| ->]]]]]]]]]]]; subst mi;
    cbn [shifted Z.leb Z.compare Pos.compare Pos.compare_cont fst snd] in *.
  2:{ unfold days_in_month, year_len in *. cbn [existsb Z.eqb Pos.eqb orb] in Hd.
      replace (y - 1 + 1) with y in * by lia.
      destruct ((y mod 4 =? 0) && _); lia. }
  all: unfold days_in_month in Hd; cbn [existsb Z.eqb Pos.eqb orb] in Hd; lia.
Qed.

Lemma civil_days_mono y m d y' m' d' :
  1 <= m <= 12 -> 1 <= d <= days_in_month y m -> 1 <= m' <= 12 -> 1 <= d' ->
  y < y' \/ (y = y' /\ (m < m' \/ (m = m' /\ d < d'))) ->
  civil_days y m d < civil_days y' m' d'.
Proof.
  intros Hm Hd Hm' Hd' Hlt. rewrite !civil_days_shifted.
  destruct (day_offset y m d Hm Hd) as (Hmi & Hnext & Hyear). cbv zeta in *.
  assert ((shifted y m).1 < (shifted y' m').1 \/
    ((shifted y m).1 = (shifted y' m').1 /\ ((shifted y m).2 < (shifted y' m').2 \/
      ((shifted y m).2 = (shifted y' m').2 /\ d < d')))) as Hs.
  { unfold shifted. destruct (Z.leb_spec m 2), (Z.leb_spec m' 2); cbn; lia. }
  assert (0 <= (shifted y' m').2 <= 11) as Hmi'.
  { unfold shifted. destruct (Z.leb_spec m' 2); cbn; lia. }
  generalize dependent (shifted y m). intros [u v]. generalize dependent (shifted y' m'). intros [u' v'].
  cbn [fst snd]. intros Hmi' Hmi Hnext Hyear [Hu|(<- & [Hv|(<- & Hdd)])].
  - pose proof (cumulative_succ u). pose proof (cumulative_mono (u + 1) u'). lia.
  - assert ((153 * (v + 1) + 2) / 5 <= (153 * v' + 2) / 5) by lia. lia.
  - lia.
Qed.

Lemma civil_seconds_lt a b : civil_ok a -> civil_ok b -> civil_cmp a b = Lt -> civil_seconds a < civil_seconds b.
Proof.
  intros (Ay & Am & Ad & Ah & An & As) (By & Bm & Bd & Bh & Bn & Bs) Hc. unfold civil_seconds.
  pose proof (civil_days_mono (year a) (month a) (day a) (year b) (month b) (day b) Am Ad Bm ltac:(lia)) as Hdays.
  unfold civil_cmp, then_cmp in Hc.
  destruct (Z.compare_spec (year a) (year b)) as [Ey|Ly|]; [| |done].
  2:{ specialize (Hdays ltac:(lia)). lia. }
  destruct (Z.compare_spec (month a) (month b)) as [Em|Lm|]; [| |done].
  2:{ specialize (Hdays ltac:(lia)). lia. }
  destruct (Z.compare_spec (day a) (day b)) as [Ed|Ld|]; [| |done].
  2:{ specialize (Hdays ltac:(lia)). lia. }
  rewrite Ey, Em, Ed in *. clear Hdays. generalize dependent (civil_days (year b) (month b) (day b)). intros z.
  destruct (Z.compare_spec (hour a) (hour b)) as [Eh|Lh|]; [| lia |done].
  destruct (Z.compare_spec (minute a) (minute b)) as [En|Ln|]; [| lia |done].
  rewrite Z.compare_lt_iff in Hc. clear -Eh En Hc. rewrite Eh, En. lia.
Qed.

Lemma civil_cmp_antisym a b : civil_cmp b a = CompOpp (civil_cmp a b).
Proof.
  unfold civil_cmp, then_cmp. rewrite (Z.compare_antisym (year a)), (Z.compare_antisym (month a)),
    (Z.compare_antisym (day a)), (Z.compare_antisym (hour a)), (Z.compare_antisym (minute a)), (Z.compare_antisym (second a)).
  repeat (case_match; cbn in *; try done).
Qed.

Lemma civil_cmp_eq a b : civil_cmp a b = Eq -> a = b.
Proof.
  destruct a, b. unfold civil_cmp, then_cmp. cbn [year month day hour minute second].
  intros Hc. repeat match type of Hc with context [?x ?= ?y] =>
    destruct (Z.compare_spec x y); [subst|done|done] end. done.
Qed.

Lemma civil_seconds_cmp a b : civil_ok a -> civil_ok b -> civil_cmp a b = (civil_seconds a ?= civil_seconds b).
Proof.
  intros Ha Hb. destruct (civil_cmp a b) eqn:E.
  - apply civil_cmp_eq in E as ->. symmetry. apply Z.compare_refl.
  - symmetry. apply Z.compare_lt_iff. by apply civil_seconds_lt.
  - symmetry. apply Z.compare_gt_iff. apply civil_seconds_lt; [done|done|]. by rewrite civil_cmp_antisym, E.
Qed.

Lemma civil_seconds_range c : civil_ok c -> MIN_EPOCH_SECONDS <= civil_seconds c <= MAX_EPOCH_SECONDS.
Proof.
  intros (Hy & Hm & Hd & Hh & Hn & Hs). pose proof (days_in_month_31 (year c) (month c)).
  assert (-719528 <= civil_days (year c) (month c) (day c) <= 2932896) as Hdays.
  { rewrite civil_days_shifted. unfold shifted. destruct (Z.leb_spec (month c) 2); cbn [fst snd].
    - pose proof (cumulative_mono (-1) (year c - 1) ltac:(lia)) as H1.
      pose proof (cumulative_mono (year c - 1) 9998 ltac:(lia)) as H2. vm_compute (cumulative (-1)) in H1.
      vm_compute (cumulative 9998) in H2. lia.
    - pose proof (cumulative_mono 0 (year c) ltac:(lia)) as H1.
      pose proof (cumulative_mono (year c) 9999 ltac:(lia)) as H2. vm_compute (cumulative 0) in H1.
      vm_compute (cumulative 9999) in H2. lia. }
  unfold civil_seconds, MIN_EPOCH_SECONDS, MAX_EPOCH_SECONDS. lia.
Qed.

(** ** What instants promise *)

(** every second of the years 0000 to 9999 has a wire form, [None] is
    returned outside them only, and reading the form back gives the second. *)
Theorem instant_from_epoch (s : Z) :
  match from_epoch_seconds s with
  | Some t => MIN_EPOCH_SECONDS <= s <= MAX_EPOCH_SECONDS /\ new t = Some t /\ epoch_seconds t = s
  | None => ~ (MIN_EPOCH_SECONDS <= s <= MAX_EPOCH_SECONDS)
  end.
Proof.
  destruct (decide (MIN_EPOCH_SECONDS <= s <= MAX_EPOCH_SECONDS)) as [Hs|Hs].
  - rewrite from_epoch_seconds_civil by done. destruct (civil_of_exact s Hs) as [Hok Hsec].
    split_and!; [lia|lia|by apply render_new|]. by rewrite epoch_seconds_render.
  - unfold from_epoch_seconds.
    replace ((MIN_EPOCH_SECONDS <=? s) && (s <=? MAX_EPOCH_SECONDS)) with false by lia. done.
Qed.

(** an accepted instant is the text of valid calendar fields, its epoch
    seconds are in the representable range, and formatting them again returns
    the same text. *)
Theorem instant_roundtrip (raw t : bytes) :
  new raw = Some t ->
  t = raw /\ (exists c, civil_ok c /\ raw = render c) /\ from_epoch_seconds (epoch_seconds t) = Some t.
Proof.
  intros (-> & c & Hok & ->)%new_inv. split_and!; [done|by exists c|].
  rewrite epoch_seconds_render by done. pose proof (civil_seconds_range c Hok) as Hr.
  rewrite from_epoch_seconds_civil by done. do 2 f_equal. apply civil_cmp_eq.
  destruct (civil_of_exact _ Hr) as [Hok' Hsec]. rewrite civil_seconds_cmp by done. rewrite Hsec. apply Z.compare_refl.
Qed.

Lemma instant_roundtrip_witness : from_epoch_seconds (epoch_seconds (b_ "2024-02-29T12:00:00Z")) = Some (b_ "2024-02-29T12:00:00Z").
Proof. apply (instant_roundtrip (b_ "2024-02-29T12:00:00Z") (b_ "2024-02-29T12:00:00Z")). by vm_compute. Defined.

(** the byte order of two accepted instants is their chronological order,
    which is what the derived [Ord] of the wire type relies on. *)
Theorem instant_order (a b : bytes) :
  new a = Some a -> new b = Some b -> bytes_cmp a b = (epoch_seconds a ?= epoch_seconds b).
Proof.
  intros (_ & ca & Ha & ->)%new_inv (_ & cb & Hb & ->)%new_inv.
  by rewrite render_cmp, !epoch_seconds_render, civil_seconds_cmp.
Qed.

Lemma instant_order_witness :
  bytes_cmp (b_ "1999-12-31T23:59:59Z") (b_ "2000-01-01T00:00:00Z") =
  (epoch_seconds (b_ "1999-12-31T23:59:59Z") ?= epoch_seconds (b_ "2000-01-01T00:00:00Z")).
Proof. apply instant_order; by vm_compute. Defined.
