(* ===== verification/WireIdentity.v ===== *)
(** Identities on the wire: [crates/amiss-wire/src/model/identity.rs]
    (artifact and owner identities, full branch references, repository
    identities). A [String] is the list of its UTF-8 bytes. *)
From Stdlib Require Import Strings.Byte Strings.String Lia.
From stdpp Require Import base numbers list.
From S2P Require Import Prelude Codec WireModel.

(** ** Identity bodies *)

Definition id_byte (byte : Byte.byte) : bool :=
  is_ascii_lowercase byte || is_ascii_digit byte
  || beqb byte "." || beqb byte "_" || beqb byte "/" || beqb byte "-".

Definition id_body_valid (raw : bytes) (maximum : usize) : bool :=
  match raw with
  | [] => false
  | first :: rest =>
      if (maximum <? len raw) || (negb (is_ascii_lowercase first) && negb (is_ascii_digit first)) then false
      else forallb id_byte rest
  end.

(** [TryFrom<String> for ArtifactId]. *)
Definition artifact_try_from (raw : bytes) : option bytes :=
  if id_body_valid raw 128 then Some raw else None.

(** [OwnerId::new]. *)
Definition owner_new (raw : bytes) : option bytes :=
  if 160 <? len raw then None
  else
    match head (omap (fun prefix => strip_prefix prefix raw) [b_ "team:"; b_ "service:"; b_ "user:"]) with
    | Some suffix => if id_body_valid suffix 160 then Some raw else None
    | None => None
    end.

(** ** Branch references *)

Module BranchRef.
Definition PREFIX : bytes := b_ "refs/heads/".
Definition LOCK : bytes := b_ ".lock".

(** [slice::split_at_checked]. *)
Definition split_at_checked (l : bytes) (mid : usize) : option (bytes * bytes) :=
  if mid <=? len l then Some (take (Z.to_nat mid) l, drop (Z.to_nat mid) l) else None.

(** The module's [bytes_equal], [strip_prefix] and [ends_with]. *)
Fixpoint equal_loop (left right : bytes) : bool :=
  match left, right with
  | a :: left_tail, b :: right_tail => if negb (beqb a b) then false else equal_loop left_tail right_tail
  | _, _ => true
  end.
Definition bytes_equal (left right : bytes) : bool :=
  if negb (len left =? len right) then false else equal_loop left right.

Definition strip_prefix (raw prefix : bytes) : option bytes :=
  match split_at_checked raw (len prefix) with
  | Some (head, tail) => if bytes_equal head prefix then Some tail else None
  | None => None
  end.

Definition ends_with (component tail suffix : bytes) : bool :=
  match checked_sub (len component) (len tail) with
  | None => false
  | Some length =>
      match checked_sub length (len suffix) with
      | None => false
      | Some start =>
          match split_at_checked component start with
          | Some (_, rest) =>
              match split_at_checked rest (len suffix) with
              | Some (end_, _) => bytes_equal end_ suffix
              | None => false
              end
          | None => false
          end
      end
  end.

(** The bytes and pairs a branch name cannot have. *)
Definition refused (previous byte : Byte.byte) : bool :=
  (u8 byte <? 0x20) || (u8 byte =? 0x7f)
  || existsb (beqb byte) (b_ " ~^:?*[\")
  || (beqb previous "." && beqb byte ".")
  || (beqb previous "@" && beqb byte "{")
  || (beqb previous "/" && (beqb byte "/" || beqb byte ".")).

(** The loop of [BranchRef::valid]; [None] is [return false]. *)
Fixpoint valid_loop (component rest : bytes) (previous : Byte.byte) : option (bytes * Byte.byte) :=
  match rest with
  | [] => Some (component, previous)
  | byte :: tail =>
      if refused previous byte then None
      else if beqb byte "/" then
        if ends_with component tail LOCK then None else valid_loop tail tail byte
      else valid_loop component tail byte
  end.

Definition valid (raw : bytes) : bool :=
  match strip_prefix raw PREFIX with
  | None => false
  | Some rest =>
      if (266 <? len raw) || match rest with [] => true | _ => false end then false
      else
        match valid_loop rest rest "/" with
        | None => false
        | Some (component, previous) =>
            negb (beqb previous "/") && negb (beqb previous ".") && negb (ends_with component [] LOCK)
        end
  end.

(** [TryFrom<String> for BranchRef] and [BranchRef::name]. *)
Definition try_from (raw : bytes) : option bytes := if valid raw then Some raw else None.
Definition name (branch : bytes) : bytes :=
  match Prelude.strip_prefix (b_ "refs/heads/") branch with Some name => name | None => branch end.
End BranchRef.
Import BranchRef.

(** ** Repository identities *)

Module RepositoryIdentity.
Record t := mk { host : bytes; name : bytes; owner : bytes }.

Definition identity_byte (byte : Byte.byte) : bool :=
  is_ascii_lowercase byte || is_ascii_digit byte || beqb byte "." || beqb byte "_" || beqb byte "-".

Definition within (lo hi : Z) (n : usize) : bool := (lo <=? n) && (n <=? hi).
Definition is_some_and {A} (p : A -> bool) (o : option A) : bool :=
  match o with Some a => p a | None => false end.

Definition identity_segment (segment : bytes) : bool :=
  within 1 100 (len segment) && forallb identity_byte segment
  && is_some_and is_ascii_alphanumeric (head segment)
  && is_some_and is_ascii_alphanumeric (last segment).

Definition name_valid (name : bytes) : bool :=
  within 1 100 (len name) && forallb identity_byte name
  && negb (bytes_eqb name (b_ ".")) && negb (bytes_eqb name (b_ "..")).

(** [split(|&byte| byte == b'/')]. *)
Fixpoint split_slash (l : bytes) : list bytes :=
  match l with
  | [] => [[]]
  | b :: l =>
      if beqb b "/" then [] :: split_slash l
      else match split_slash l with s :: ss => (b :: s) :: ss | [] => [[b]] end
  end.

Definition valid_components (host owner name : bytes) : bool :=
  let owner_ok := within 1 255 (len owner) && forallb identity_segment (split_slash owner) in
  within 1 255 (len host) && negb (existsb (beqb "/") host) && owner_ok && name_valid name.

Definition new (host owner name : bytes) : option t :=
  if valid_components host owner name then Some (mk host name owner) else None.

Definition github (owner name : bytes) : option t :=
  if identity_segment owner && name_valid name then Some (mk (b_ "github.com") name owner) else None.
End RepositoryIdentity.

(** ** The helpers of the branch grammar *)

Lemma equal_loop_eq a b : length a = length b -> equal_loop a b = true <-> a = b.
Proof.
  revert b. induction a as [|x a IH]; intros [|y b] Hl; try done. injection Hl as Hl. cbn.
  destruct (beqb x y) eqn:E; cbn.
  - apply beqb_eq in E as ->. rewrite IH by done. naive_solver.
  - split; [done|]. intros [= -> _]. by rewrite beqb_refl in E.
Qed.

Lemma bytes_equal_eq a b : bytes_equal a b = true <-> a = b.
Proof.
  unfold bytes_equal, len. destruct (Z.eqb_spec (Z.of_nat (length a)) (Z.of_nat (length b))) as [E|E]; cbn [negb].
  - apply equal_loop_eq. lia.
  - split; [done|]. by intros ->.
Qed.

Lemma branch_strip_prefix raw prefix rest :
  BranchRef.strip_prefix raw prefix = Some rest <-> raw = prefix ++ rest.
Proof.
  unfold BranchRef.strip_prefix, split_at_checked, len. rewrite Nat2Z.id. split.
  - destruct (Z.leb_spec (Z.of_nat (length prefix)) (Z.of_nat (length raw))); [|done].
    destruct (bytes_equal _ _) eqn:E; [|done]. apply bytes_equal_eq in E. intros [= <-].
    rewrite <- E at 1. by rewrite take_drop.
  - intros ->. rewrite (proj2 (Z.leb_le _ _)) by (rewrite length_app; lia).
    rewrite take_app_length, drop_app_length. by rewrite (proj2 (bytes_equal_eq prefix prefix)).
Qed.

(** [ends_with]: the bytes before [tail] end with [suffix]. *)
Lemma ends_with_spec before tail suffix :
  ends_with (before ++ tail) tail suffix = true <-> exists stem, before = stem ++ suffix.
Proof.
  unfold ends_with, checked_sub, split_at_checked, len. rewrite !length_app.
  rewrite (proj2 (Z.leb_le _ _)) by lia.
  replace (Z.of_nat (length before + length tail) - Z.of_nat (length tail)) with (Z.of_nat (length before)) by lia.
  destruct (Z.leb_spec (Z.of_nat (length suffix)) (Z.of_nat (length before))) as [Hle|Hgt].
  2:{ split; [done|]. intros [stem ->]. rewrite length_app in Hgt. lia. }
  replace (Z.of_nat (length before) - Z.of_nat (length suffix)) with (Z.of_nat (length before - length suffix)) by lia.
  rewrite (proj2 (Z.leb_le _ _)) by lia. rewrite !Nat2Z.id.
  rewrite (drop_app_le before tail) by lia.
  rewrite (proj2 (Z.leb_le _ _)) by (rewrite length_app, length_drop; lia).
  rewrite take_app_le by (rewrite length_drop; lia).
  rewrite take_ge by (rewrite length_drop; lia). rewrite bytes_equal_eq. split.
  - intros <-. exists (take (length before - length suffix) before). by rewrite take_drop.
  - intros [stem ->]. rewrite length_app. replace (length stem + length suffix - length suffix)%nat with (length stem) by lia.
    apply drop_app_length.
Qed.

(** ** The grammar *)

(** [a] directly followed by [b] occurs nowhere. *)
Definition no_pair (a b : Byte.byte) (l : bytes) : Prop := forall l1 l2, l <> l1 ++ a :: b :: l2.

Definition name_byte (b : Byte.byte) : Prop :=
  0x20 <= u8 b /\ u8 b <> 0x7f /\ b ∉ b_ " ~^:?*[\".

Definition component_ok (s : bytes) : Prop := s <> [] /\ head s <> Some "."%byte.

(** The name after [refs/heads/]. Only its last component is kept from ending
    in [.lock]. *)
Record branch_name (name : bytes) : Prop := {
  bn_components : Forall component_ok (Path.segments name);
  bn_bytes : Forall name_byte name;
  bn_dots : no_pair "." "." name;
  bn_reflog : no_pair "@" "{" name;
  bn_end : last name <> Some "."%byte;
  bn_lock : forall s stem, last (Path.segments name) = Some s -> s <> stem ++ LOCK
}.

Lemma no_pair_cons a b x y l :
  no_pair a b (x :: y :: l) <-> ~ (x = a /\ y = b) /\ no_pair a b (y :: l).
Proof.
  unfold no_pair. split.
  - intros Hn. split; [intros [-> ->]; by apply (Hn [] l)|].
    intros l1 l2 E. apply (Hn (x :: l1) l2). by rewrite E.
  - intros [Hxy Hn] [|z l1] l2 [= ]; [naive_solver|]. by apply (Hn l1 l2).
Qed.

Lemma no_pair_single a b x : no_pair a b [x].
Proof. intros [|? [|]] l2; done. Qed.

Lemma no_pair_skip a b x l : x <> a -> no_pair a b (x :: l) <-> no_pair a b l.
Proof.
  intros Hx. destruct l as [|y l]; [|rewrite no_pair_cons; naive_solver].
  split; [intros _ [|]; done|intros _; apply no_pair_single].
Qed.

Lemma segments_cons l : exists h t, Path.segments l = h :: t.
Proof.
  destruct l as [|x l]; cbn; [eauto|]. destruct (beqb x _); [eauto|]. destruct (Path.segments l); eauto.
Qed.

(** ** The loop *)

(** The byte before the next one; a component starts after a separator. *)
Definition previous_of (cur : bytes) : Byte.byte := match last cur with Some b => b | None => "/"%byte end.

Definition accepted (o : option (bytes * Byte.byte)) : bool :=
  match o with
  | None => false
  | Some (component, previous) =>
      negb (beqb previous "/") && negb (beqb previous ".") && negb (ends_with component [] LOCK)
  end.

(** What is left to hold when [cur] of the current component was read. *)
Record remains (cur rest : bytes) : Prop := {
  rm_components : forall h t, Path.segments rest = h :: t -> Forall component_ok ((cur ++ h) :: t);
  rm_bytes : Forall name_byte rest;
  rm_dots : no_pair "." "." (previous_of cur :: rest);
  rm_reflog : no_pair "@" "{" (previous_of cur :: rest);
  rm_end : last (cur ++ rest) <> Some "."%byte;
  rm_lock : forall h t stem, Path.segments rest = h :: t -> last ((cur ++ h) :: t) <> Some (stem ++ LOCK)
}.

Lemma beqb_spec_iff a b : beqb a b = true <-> a = b.
Proof. split; [apply beqb_eq|intros ->; apply beqb_refl]. Qed.

Lemma beqb_false_iff a b : beqb a b = false <-> a <> b.
Proof. rewrite <- not_true_iff_false, beqb_spec_iff. done. Qed.

Lemma refused_false previous byte :
  refused previous byte = false <->
  name_byte byte /\ ~ (previous = "."%byte /\ byte = "."%byte) /\ ~ (previous = "@"%byte /\ byte = "{"%byte) /\
  ~ (previous = "/"%byte /\ (byte = "/"%byte \/ byte = "."%byte)).
Proof.
  unfold refused, name_byte.
  assert (existsb (beqb byte) (b_ " ~^:?*[\") = false <-> byte ∉ b_ " ~^:?*[\") as Hb.
  { rewrite <- not_true_iff_false, existsb_exists. setoid_rewrite beqb_spec_iff. setoid_rewrite <- list_elem_of_In. naive_solver. }
  rewrite !orb_false_iff, !andb_false_iff, orb_false_iff, !beqb_false_iff, Hb, Z.ltb_ge, Z.eqb_neq.
  destruct (decide (previous = "."%byte)), (decide (previous = "@"%byte)), (decide (previous = "/"%byte)),
    (decide (byte = "."%byte)), (decide (byte = "{"%byte)), (decide (byte = "/"%byte)); tauto.
Qed.

Lemma last_app_single {A} (l : list A) x : last (l ++ [x]) = Some x.
Proof. apply last_snoc. Qed.

Lemma previous_snoc cur x : previous_of (cur ++ [x]) = x.
Proof. unfold previous_of. by rewrite last_app_single. Qed.

Lemma previous_slash cur : "/"%byte ∉ cur -> previous_of cur = "/"%byte <-> cur = [].
Proof.
  intros Hn. unfold previous_of. destruct (last cur) as [b|] eqn:E.
  - split; [|by intros ->]. intros ->. exfalso. apply Hn. by apply last_Some_elem_of.
  - apply last_None in E. naive_solver.
Qed.

Lemma last_cons_app {A} (x : A) l : last (x :: l) = Some (default x (last l)).
Proof. revert x. induction l as [|y l IH]; intros x; [done|]. change (last (x :: y :: l)) with (last (y :: l)). by rewrite IH. Qed.

Lemma last_app_r {A} (l k : list A) : k <> [] -> last (l ++ k) = last k.
Proof.
  intros Hk. destruct k as [|x k]; [done|]. rewrite last_app. by rewrite last_cons_app.
Qed.

(** At the end only the last component is left to judge. *)
Lemma accepted_end cur :
  "/"%byte ∉ cur -> head cur <> Some "."%byte ->
  accepted (Some (cur ++ [], previous_of cur)) = true <-> remains cur [].
Proof.
  intros Hs Hd. unfold accepted. rewrite !andb_true_iff, !negb_true_iff, !beqb_false_iff.
  rewrite (previous_slash cur Hs), <- not_true_iff_false, ends_with_spec. split.
  - intros [[Hne Hp] Hl]. split.
    + intros h t [= <- <-]. rewrite app_nil_r. repeat constructor; done.
    + constructor.
    + apply no_pair_single.
    + apply no_pair_single.
    + rewrite app_nil_r. intros Hlast. apply Hp. unfold previous_of. by rewrite Hlast.
    + intros h t stem [= <- <-] [= Heq]. rewrite app_nil_r in Heq. apply Hl. by exists stem.
  - intros [Hc _ _ _ He Hl]. specialize (Hc [] [] eq_refl). apply Forall_cons_iff in Hc as [[Hne _] _].
    rewrite app_nil_r in Hne, He. split_and!; [done| |].
    + intros Hp. apply He. unfold previous_of in Hp. destruct (last cur) as [b|] eqn:E; [congruence|].
      by apply last_None in E.
    + intros [stem ->]. apply (Hl [] [] stem eq_refl). by rewrite app_nil_r.
Qed.

(** One byte of the current component. *)
Lemma remains_byte cur x rest :
  x <> "/"%byte -> refused (previous_of cur) x = false ->
  remains (cur ++ [x]) rest <-> remains cur (x :: rest).
Proof.
  intros Hx Hr. apply refused_false in Hr as (Hb & Hdd & Hre & _).
  assert (forall h t, Path.segments rest = h :: t -> Path.segments (x :: rest) = (x :: h) :: t) as Hseg.
  { intros h t E. cbn. rewrite (proj2 (beqb_false_iff x "/") Hx), E. done. }
  destruct (segments_cons rest) as (h0 & t0 & E0). specialize (Hseg _ _ E0).
  assert (forall l : bytes, (cur ++ [x]) ++ l = cur ++ x :: l) as Happ by (intros l; by rewrite <- app_assoc).
  split; intros [C B D R E L]; split.
  - intros h t E'. rewrite Hseg in E'. simplify_eq. rewrite <- Happ. auto.
  - by constructor.
  - rewrite no_pair_cons. rewrite previous_snoc in D. naive_solver.
  - rewrite no_pair_cons. rewrite previous_snoc in R. naive_solver.
  - by rewrite <- Happ.
  - intros h t stem E'. rewrite Hseg in E'. simplify_eq. rewrite <- Happ. auto.
  - intros h t E'. rewrite E0 in E'. injection E' as <- <-. rewrite Happ. by apply C.
  - by apply Forall_cons_iff in B as [_ B].
  - rewrite previous_snoc. apply no_pair_cons in D. naive_solver.
  - rewrite previous_snoc. apply no_pair_cons in R. naive_solver.
  - by rewrite Happ.
  - intros h t stem E'. rewrite E0 in E'. injection E' as <- <-. rewrite Happ. by apply L.
Qed.

(** A separator ends the component; what it ended in is not looked at. *)
Lemma remains_slash cur rest :
  cur <> [] -> head cur <> Some "."%byte ->
  remains [] rest <-> remains cur ("/"%byte :: rest).
Proof.
  intros Hc Hd. destruct (segments_cons rest) as (h0 & t0 & E0).
  assert (Path.segments ("/"%byte :: rest) = [] :: h0 :: t0) as Hseg by (cbn; by rewrite E0).
  assert (name_byte "/") as Hnb by (split_and!; [by vm_compute|by vm_compute|apply (bool_decide_unpack _); by vm_compute]).
  split; intros [C B D R E L]; split.
  - intros h t E'. rewrite Hseg in E'. simplify_eq. constructor; [|by apply C]. rewrite app_nil_r. by split.
  - by constructor.
  - rewrite no_pair_cons. split; [naive_solver|done].
  - rewrite no_pair_cons. split; [naive_solver|done].
  - rewrite last_app_r by done. destruct rest as [|y rest]; [done|exact E].
  - intros h t stem E'. rewrite Hseg in E'. injection E' as <- <-. exact (L h0 t0 stem E0).
  - intros h t E'. rewrite E0 in E'. injection E' as <- <-. specialize (C _ _ Hseg). by apply Forall_cons_iff in C as [_ C].
  - by apply Forall_cons_iff in B as [_ B].
  - apply no_pair_cons in D as [_ D]. exact D.
  - apply no_pair_cons in R as [_ R]. exact R.
  - destruct rest as [|y rest]; [done|]. rewrite last_app_r in E by done. exact E.
  - intros h t stem E'. rewrite E0 in E'. injection E' as <- <-. specialize (L _ _ stem Hseg). exact L.
Qed.

(** The check between components compares across the separator, so it never refuses. *)
Lemma inner_lock_never cur tail : ends_with (cur ++ "/"%byte :: tail) tail LOCK = false.
Proof.
  apply not_true_iff_false. change (cur ++ "/"%byte :: tail) with (cur ++ ["/"%byte] ++ tail).
  rewrite app_assoc, ends_with_spec. intros [stem E].
  change LOCK with (b_ ".loc" ++ ["k"%byte]) in E. rewrite app_assoc in E. by apply app_inj_tail in E as [_ [=]].
Qed.

Lemma valid_loop_spec rest cur :
  "/"%byte ∉ cur -> head cur <> Some "."%byte ->
  accepted (valid_loop (cur ++ rest) rest (previous_of cur)) = true <-> remains cur rest.
Proof.
  revert cur. induction rest as [|x rest IH]; intros cur Hs Hd; [by apply accepted_end|].
  cbn [valid_loop]. destruct (refused (previous_of cur) x) eqn:Hr.
  { split; [done|]. intros [C B D R E L]. exfalso.
    apply not_false_iff_true in Hr. apply Hr, refused_false. apply Forall_cons_iff in B as [B _].
    apply no_pair_cons in D as [D _]. apply no_pair_cons in R as [R _]. split_and!; [done|done|done|].
    rewrite (previous_slash cur Hs). intros [-> [->| ->]].
    - destruct (segments_cons rest) as (h & t & Er). specialize (C [] (h :: t)). cbn in C. rewrite Er in C.
      specialize (C eq_refl). apply Forall_cons_iff in C as [[C _] _]. by apply C.
    - destruct (segments_cons rest) as (h & t & Er). specialize (C ("."%byte :: h) t). cbn in C. rewrite Er in C.
      specialize (C eq_refl). apply Forall_cons_iff in C as [[_ C] _]. by apply C. }
  destruct (beqb x "/") eqn:Ex.
  - apply beqb_eq in Ex as ->. rewrite inner_lock_never.
    assert (cur <> []) as Hne.
    { intros ->. apply refused_false in Hr as (_ & _ & _ & Hr). apply Hr. by split; [|left]. }
    rewrite <- remains_slash by done. rewrite <- IH; [done| |done]. apply not_elem_of_nil.
  - apply beqb_false_iff in Ex. rewrite <- remains_byte by done. rewrite <- IH.
    + rewrite previous_snoc, <- app_assoc. done.
    + rewrite elem_of_app, list_elem_of_singleton. naive_solver.
    + destruct cur as [|y cur]; [|done]. intros [= ->]. apply refused_false in Hr as (_ & _ & _ & Hr). naive_solver.
Qed.

Lemma remains_start name : remains [] name <-> branch_name name.
Proof.
  destruct (segments_cons name) as (h & t & E). split; intros [C B D R E' L]; split; try done.
  - rewrite E. by apply C.
  - by apply (no_pair_skip _ _ "/").
  - by apply (no_pair_skip _ _ "/").
  - intros s stem Hs ->. apply (L h t stem E). cbn [app]. by rewrite <- E.
  - intros h' t' E2. cbn [app]. by rewrite <- E2.
  - by apply no_pair_skip.
  - by apply no_pair_skip.
  - intros h' t' stem E2. cbn [app]. rewrite <- E2. intros Hs. by apply (L _ stem Hs).
Qed.

(** ** What branch references promise *)

(** C40: [BranchRef::valid] accepts exactly [refs/heads/] followed by a name of
    non-empty components none of which starts with a dot, without control or
    reserved bytes, [..] or a reflog selector, not ending in a dot, whose last
    component does not end in [.lock], 266 bytes long at most in all. *)
Theorem branch_ref_exact (raw : bytes) :
  valid raw = true <-> exists name, raw = PREFIX ++ name /\ len raw <= 266 /\ branch_name name.
Proof.
  unfold valid. destruct (BranchRef.strip_prefix raw PREFIX) as [rest|] eqn:Ep.
  2:{ split; [done|]. intros (name & -> & _). by rewrite (proj2 (branch_strip_prefix _ PREFIX name)) in Ep. }
  apply branch_strip_prefix in Ep as ->. pose proof (valid_loop_spec rest [] ltac:(apply not_elem_of_nil) ltac:(done)) as Hloop.
  rewrite remains_start in Hloop.
  assert (forall name, PREFIX ++ rest = PREFIX ++ name -> name = rest) as Hinj.
  { intros name E. by apply app_inv_head in E. }
  destruct (Z.ltb_spec 266 (len (PREFIX ++ rest))) as [Hl|Hl]; cbn [orb].
  { split; [done|]. intros (name & _ & Hlen & _). lia. }
  destruct rest as [|b rest].
  { split; [done|]. intros (name & ->%Hinj & _ & Hn). pose proof (bn_components _ Hn) as C.
    apply Forall_cons_iff in C as [[C _] _]. by destruct C. }
  change (accepted (valid_loop (b :: rest) (b :: rest) "/") = true <->
    exists name, PREFIX ++ b :: rest = PREFIX ++ name /\ len (PREFIX ++ b :: rest) <= 266 /\ branch_name name).
  rewrite Hloop. split; [eauto|]. by intros (name & ->%Hinj & _ & Hn).
Qed.

(** A component before the last may end in [.lock], which the published
    pattern of the reference refuses. *)
Theorem branch_ref_inner_lock : valid (b_ "refs/heads/a.lock/b") = true /\ valid (b_ "refs/heads/a/b.lock") = false.
Proof. by vm_compute. Qed.
