(* ===== verification/GitObject.v ===== *)
(** Git objects: [crates/amiss-git/src/lib.rs] (the error type), [object.rs]
    (digests and identity verification), [object/commit.rs] and
    [object/tree.rs] (the two grammar parsers). *)
From Stdlib Require Import Strings.Byte Strings.String Lia Sorting.Sorted.
From stdpp Require Import base list numbers sorting.
From S2P Require Import Prelude Codec WireModel.

(** ** Errors and kinds *)

Module GitError.
Inductive t :=
  | ObjectMissing
  | ObjectWrongKind
  | ObjectUnreadable
  | IndexInvalid
  | IndexFormatUnsupported
  | IndexUnmerged
  | IntentToAdd
  | SnapshotChanged
  | ResourceLimit (resource : ResourceName) (configured_limit observed_lower_bound : u64).
End GitError.
Import GitError.
Abbreviation result A := (res A GitError.t).

Module ObjectKind.
Inductive t := Blob | Commit | Tag | Tree.
#[export] Instance eq_dec : EqDecision t.
Proof. solve_decision. Defined.

(** [ObjectKind::as_ref]: strum's lowercase names. *)
Definition as_ref (k : t) : bytes :=
  match k with
  | Blob => b_ "blob" | Commit => b_ "commit" | Tag => b_ "tag" | Tree => b_ "tree"
  end.
End ObjectKind.

Record Object := mkObject { obj_kind : ObjectKind.t; obj_body : bytes }.
Record TreeEntry := mkTreeEntry { te_mode : GitMode; te_name : bytes; te_oid : Oid.t }.
Record Commit := mkCommit { c_tree : Oid.t; c_parents : list Oid.t }.

(** ** Digests and identity *)

Section Identity.
Context `{Hex, Hashes}.

Definition ordinary_digest (f : ObjectFormat) (data : bytes) : bytes :=
  match f with Sha1 => sha1 data | Sha256 => sha256 data end.

(** [verify_oid]: the header and the body are hashed as one stream; a SHA-1
    collision verdict refuses the object whatever the digest is. *)
Definition verify_oid (f : ObjectFormat) (oid : Oid.t) (raw_header body : bytes) : result unit :=
  match f with
  | Sha1 =>
      if sha1_collision (raw_header ++ body) then Err ObjectUnreadable
      else if bytes_eqb (hex_encode (sha1 (raw_header ++ body))) (Oid.as_str oid) then Ok tt
      else Err ObjectUnreadable
  | Sha256 =>
      if bytes_eqb (hex_encode (sha256 (raw_header ++ body))) (Oid.as_str oid) then Ok tt
      else Err ObjectUnreadable
  end.

Lemma verify_oid_Ok f oid h b :
  verify_oid f oid h b = Ok tt <->
  Oid.as_str oid = hex_encode (ordinary_digest f (h ++ b)) /\
  (f = Sha1 -> sha1_collision (h ++ b) = false).
Proof.
  unfold verify_oid, ordinary_digest. destruct f.
  - destruct (sha1_collision (h ++ b)); [naive_solver|].
    destruct (bytes_eqb _ _) eqn:E; [apply bytes_eqb_eq in E|apply bytes_eqb_neq in E]; naive_solver.
  - destruct (bytes_eqb _ _) eqn:E; [apply bytes_eqb_eq in E|apply bytes_eqb_neq in E]; naive_solver.
Qed.

Lemma verify_oid_cases f oid h b :
  verify_oid f oid h b = Ok tt \/ verify_oid f oid h b = Err ObjectUnreadable.
Proof. unfold verify_oid. destruct f; repeat case_match; auto. Qed.
End Identity.

(** ** Commits *)

Module CommitParser.
Section WithHex.
Context `{Hex}.

(** [next_line]: the line before the first LF and what follows it. *)
Definition next_line (rest : bytes) : result (bytes * bytes) :=
  let? lf := ok_or (position (fun b => beqb b "010"%byte) rest) ObjectUnreadable in
  let? line := ok_or (slice_to rest lf) ObjectUnreadable in
  if existsb (fun b => beqb b x00 || beqb b "013"%byte) line then Err ObjectUnreadable
  else
    let? remaining := ok_or (slice_from rest (sat_add lf 1)) ObjectUnreadable in
    Ok (line, remaining).

Definition header_oid (f : ObjectFormat) (hex_bytes : bytes) : result Oid.t :=
  let? text := ok_or (from_utf8 hex_bytes) ObjectUnreadable in
  ok_or (Oid.new f text) ObjectUnreadable.

(** The [while let Some(parent_hex)] loop; each turn takes one line. *)
Fixpoint parents_loop (fuel : nat) (f : ObjectFormat) (line headers : bytes)
    (parents : list Oid.t) : result (list Oid.t * bytes * bytes) :=
  match fuel with
  | O => OutOfFuel
  | S fuel =>
      match strip_prefix (b_ "parent ") line with
      | Some parent_hex =>
          let? oid := header_oid f parent_hex in
          let? (line, headers) := next_line headers in
          parents_loop fuel f line headers (parents ++ [oid])
      | None => Ok (parents, line, headers)
      end
  end.

Definition key_ok (key : bytes) : bool :=
  negb (bytes_eqb key []) &&
  forallb (fun b => is_ascii b && negb (is_ascii_control b) && negb (beqb b " "%byte)) key &&
  negb (bytes_eqb key (b_ "tree") || bytes_eqb key (b_ "parent")
        || bytes_eqb key (b_ "author") || bytes_eqb key (b_ "committer")).

(** The extension loop, up to the empty line that ends the headers. *)
Fixpoint extensions_loop (fuel : nat) (headers : bytes) (seen_extension : bool) : result unit :=
  match fuel with
  | O => OutOfFuel
  | S fuel =>
      let? (line, headers) := next_line headers in
      match line with
      | [] => Ok tt
      | first :: _ =>
          if beqb first " "%byte then
            if negb seen_extension then Err ObjectUnreadable
            else extensions_loop fuel headers seen_extension
          else
            let? space := ok_or (position (fun b => beqb b " "%byte) line) ObjectUnreadable in
            let? key := ok_or (slice_to line space) ObjectUnreadable in
            if negb (key_ok key) then Err ObjectUnreadable
            else extensions_loop fuel headers true
      end
  end.

Definition parse_commit (f : ObjectFormat) (body : bytes) : result Commit :=
  let? (first, headers) := next_line body in
  let? tree_hex := ok_or (strip_prefix (b_ "tree ") first) ObjectUnreadable in
  let? tree := header_oid f tree_hex in
  let? (line, headers) := next_line headers in
  let? (parents, line, headers) := parents_loop (S (length headers)) f line headers [] in
  let? author := ok_or (strip_prefix (b_ "author ") line) ObjectUnreadable in
  if bytes_eqb author [] then Err ObjectUnreadable
  else
    let? (committer_line, headers) := next_line headers in
    let? committer := ok_or (strip_prefix (b_ "committer ") committer_line) ObjectUnreadable in
    if bytes_eqb committer [] then Err ObjectUnreadable
    else
      let? _ := extensions_loop (S (length headers)) headers false in
      Ok (mkCommit tree parents).

(** *** The grammar *)

Definition LF : Byte.byte := "010"%byte.
(** A header line holds neither LF, CR nor NUL. *)
Definition line_ok (l : bytes) : Prop :=
  Forall (fun b => b <> LF /\ b <> x00 /\ b <> "013"%byte) l.
Definition oid_of (f : ObjectFormat) (o : Oid.t) : Prop :=
  Oid.wf o /\ Oid.object_format o = f.

(** The lines after the committer: a key and its continuations, in any
    number; a continuation needs a key line before it. *)
Inductive ext_lines : bool -> list bytes -> Prop :=
  | ext_nil seen : ext_lines seen []
  | ext_continuation rest ls :
      line_ok rest -> ext_lines true ls -> ext_lines true ((" "%byte :: rest) :: ls)
  | ext_key seen key rest ls :
      key_ok key = true -> line_ok rest -> ext_lines true ls ->
      ext_lines seen ((key ++ " "%byte :: rest) :: ls).

Definition line (l : bytes) : bytes := l ++ [LF].
Definition parent_line (o : Oid.t) : bytes := line (b_ "parent " ++ Oid.raw o).
Definition render_commit (c : Commit) (author committer : bytes) (exts : list bytes)
    (message : bytes) : bytes :=
  line (b_ "tree " ++ Oid.raw (c_tree c)) ++ concat (map parent_line (c_parents c)) ++
  line (b_ "author " ++ author) ++ line (b_ "committer " ++ committer) ++
  concat (map line exts) ++ LF :: message.

Record commit_ok (f : ObjectFormat) (c : Commit) (author committer : bytes)
    (exts : list bytes) : Prop := {
  ok_tree : oid_of f (c_tree c);
  ok_parents : Forall (oid_of f) (c_parents c);
  ok_author : author <> [] /\ line_ok author;
  ok_committer : committer <> [] /\ line_ok committer;
  ok_exts : ext_lines false exts
}.

(** *** Lemmas *)

Lemma line_ok_exists l :
  line_ok l <-> existsb (fun b => beqb b x00 || beqb b "013"%byte) l = false
                /\ Forall (fun b => beqb b LF = false) l.
Proof.
  unfold line_ok. induction l as [|b l IH]; simpl; [done|].
  rewrite !Forall_cons_iff, IH, !orb_false_iff, <- !not_true_iff_false, !beqb_eq. tauto.
Qed.

Lemma next_line_spec rest l rem :
  rust_slice rest ->
  next_line rest = Ok (l, rem) <-> rest = l ++ LF :: rem /\ line_ok l.
Proof.
  unfold rust_slice, next_line. intros Hlen.
  destruct (position _ rest) as [lf|] eqn:Hp; simpl.
  - pose proof (position_bounds _ _ _ Hp).
    apply position_spec in Hp as (l1 & x & l2 & -> & <- & ->%beqb_eq & Hl1).
    replace (slice_to _ (len l1)) with (Some l1) by (symmetry; apply slice_to_spec; eauto).
    rewrite sat_add_small by (unfold_widths; lia). simpl.
    replace (slice_from _ _) with (Some l2)
      by (symmetry; apply slice_from_spec; exists (l1 ++ [LF]); rewrite len_snoc, <- app_assoc; done).
    destruct (existsb _ l1) eqn:Ex; simpl.
    + split; [done|]. intros [Heq Hok].
      assert (l1 = l) as <-.
      { apply line_ok_exists in Hok as [_ Hok].
        by apply (app_first_unique (fun b => beqb b LF) _ LF l2 _ LF rem). }
      apply line_ok_exists in Hok as [Hok _]. congruence.
    + split.
      * intros [= <- <-]. split; [done|]. by apply line_ok_exists.
      * intros [Heq Hok]. apply line_ok_exists in Hok as [_ Hok].
        assert (l1 = l) as -> by (by apply (app_first_unique (fun b => beqb b LF) _ LF l2 _ LF rem)).
        by simplify_list_eq.
  - split; [done|]. intros [-> _]. apply position_None in Hp.
    apply Forall_app in Hp as [_ Hp]. apply Forall_cons_iff in Hp as [Hp _]. done.
Qed.

Lemma next_line_intro l rem :
  rust_slice (l ++ LF :: rem) -> line_ok l -> next_line (l ++ LF :: rem) = Ok (l, rem).
Proof. intros Hr Hl. by apply next_line_spec. Qed.

Lemma next_line_fuel rest : next_line rest <> OutOfFuel.
Proof.
  unfold next_line. intros Hn.
  destruct (ok_or (position _ _) _) eqn:E; [|done|by apply ok_or_fuel in E].
  destruct (ok_or (slice_to _ _) _) eqn:E1; [|done|by apply ok_or_fuel in E1].
  destruct (existsb _ _); [done|].
  destruct (ok_or (slice_from _ _) _) eqn:E2; [done|done|by apply ok_or_fuel in E2].
Qed.

Lemma next_line_shorter rest l rem : next_line rest = Ok (l, rem) -> (length rem < length rest)%nat.
Proof.
  unfold next_line. intros Hn. inv_ok Hn. simplify_eq.
  apply ok_or_Ok in E, E2. apply position_bounds in E. apply slice_from_spec in E2 as (p & -> & Hp).
  rewrite length_app. pose proof (sat_add_pos a 1 ltac:(lia) ltac:(lia)).
  unfold len in Hp. lia.
Qed.
Context {HL : HexLaws _}.

Lemma header_oid_spec f hex o :
  header_oid f hex = Ok o <-> oid_of f o /\ Oid.raw o = hex.
Proof.
  unfold header_oid, from_utf8, oid_of. split.
  - destruct (utf8_valid hex); [|done]. simpl. intros Ho%ok_or_Ok.
    apply Oid.new_wf in Ho as (? & ? & ?). done.
  - intros [[(b & Hl & Hr) Hf] <-]. rewrite Hr, hex_encode_utf8. simpl.
    destruct o as [f' r]. simpl in *. subst. by rewrite Oid.new_encode.
Qed.

Lemma oid_of_line_ok f o : oid_of f o -> line_ok (Oid.raw o).
Proof.
  intros [(b & _ & ->) _]. apply Forall_forall. intros x Hx.
  pose proof (hex_encode_digits b) as Hd. rewrite forallb_forall in Hd.
  apply list_elem_of_In, Hd, hexdigit_plain in Hx. tauto.
Qed.

Lemma line_ok_app l k : line_ok (l ++ k) <-> line_ok l /\ line_ok k.
Proof. apply Forall_app. Qed.

(** The LF after a line that is already read. *)
Lemma line_unique l l' r r' :
  line_ok l -> line_ok l' -> l ++ LF :: r = l' ++ LF :: r' -> l = l' /\ r = r'.
Proof.
  intros [_ H1]%line_ok_exists [_ H2]%line_ok_exists Heq.
  assert (l = l') as -> by (by apply (app_first_unique (fun b => beqb b LF) _ LF r _ LF r')).
  by simplify_list_eq.
Qed.

Lemma rust_slice_suffix {A} (p l : list A) : rust_slice (p ++ l) -> rust_slice l.
Proof. unfold rust_slice. rewrite len_app. pose proof (len_nonneg p). lia. Qed.

Lemma parent_text_ok f o : oid_of f o -> line_ok (b_ "parent " ++ Oid.raw o).
Proof. intros Ho. apply line_ok_app. split; [by repeat constructor|by eapply oid_of_line_ok]. Qed.

Lemma line_text l t : line l ++ t = l ++ LF :: t.
Proof. unfold line. by rewrite <- app_assoc. Qed.

Lemma parents_text o qs t :
  concat (map parent_line (o :: qs)) ++ t =
  (b_ "parent " ++ Oid.raw o) ++ LF :: concat (map parent_line qs) ++ t.
Proof. cbn [map concat]. unfold parent_line at 1. by rewrite <- line_text, app_assoc. Qed.

(** A block of parent lines followed by a line starts with a line. *)
Lemma parents_first_line f qs l headers :
  Forall (oid_of f) qs -> line_ok l ->
  exists l1 h1, concat (map parent_line qs) ++ l ++ LF :: headers = l1 ++ LF :: h1 /\ line_ok l1.
Proof.
  intros Hqs Hl. destruct Hqs as [|o qs Ho Hqs]; [by exists l, headers|].
  exists (b_ "parent " ++ Oid.raw o), (concat (map parent_line qs) ++ l ++ LF :: headers).
  split; [apply parents_text|by eapply parent_text_ok].
Qed.

Lemma rust_slice_after l h : rust_slice (l ++ LF :: h) -> rust_slice h.
Proof. intros Hr. apply (rust_slice_suffix (l ++ [LF])). by rewrite <- app_assoc. Qed.

Lemma parents_loop_spec fuel f l headers ps ps' l' headers' :
  rust_slice headers -> line_ok l -> (length headers < fuel)%nat ->
  parents_loop fuel f l headers ps = Ok (ps', l', headers') <->
  exists qs, ps' = ps ++ qs /\ Forall (oid_of f) qs /\
    l ++ LF :: headers = concat (map parent_line qs) ++ l' ++ LF :: headers' /\
    line_ok l' /\ strip_prefix (b_ "parent ") l' = None.
Proof.
  revert l headers ps. induction fuel as [|fuel IH]; intros l headers ps Hr Hl Hf; [lia|].
  cbn [parents_loop]. destruct (strip_prefix (b_ "parent ") l) as [hex|] eqn:Es.
  - apply strip_prefix_Some in Es as ->. split.
    + intros Hp. destruct (header_oid f hex) as [o| |] eqn:Eo; try done.
      apply header_oid_spec in Eo as [Ho <-].
      destruct (next_line headers) as [[l1 h1]| |] eqn:En; try done.
      pose proof (next_line_shorter _ _ _ En). apply next_line_spec in En as [-> Hl1]; [|done].
      apply IH in Hp as (qs & -> & Hqs & Heq & Hl' & Hn);
        [|by apply (rust_slice_suffix (l1 ++ [LF])); rewrite <- app_assoc|done|lia].
      exists (o :: qs). rewrite <- app_assoc. split; [done|]. split; [by constructor|].
      split; [|done]. by rewrite parents_text, <- Heq.
    + intros ([|o qs] & -> & Hqs & Heq & Hl' & Hn).
      * cbn [map concat app] in Heq. apply line_unique in Heq as [<- _]; [|done..].
        exfalso. by rewrite (proj2 (strip_prefix_Some _ _ _) eq_refl) in Hn.
      * apply Forall_cons_iff in Hqs as [Ho Hqs].
        rewrite parents_text in Heq. apply line_unique in Heq as [Hhex Heq]; [|done|by eapply parent_text_ok].
        apply app_inv_head in Hhex as ->.
        rewrite (proj2 (header_oid_spec f _ o)) by done.
        destruct (parents_first_line f qs l' headers' Hqs Hl') as (l1 & h1 & Hfirst & Hl1).
        rewrite Hfirst in Heq. subst headers.
        rewrite (proj2 (next_line_spec _ l1 h1 Hr)) by done.
        apply IH; [by apply (rust_slice_suffix (l1 ++ [LF])); rewrite <- app_assoc|done| |].
        { rewrite length_app in Hf. simpl in Hf. lia. }
        exists qs. rewrite <- app_assoc. done.
  - split.
    + intros [= <- <- <-]. exists []. by rewrite app_nil_r.
    + intros ([|o qs] & -> & Hqs & Heq & Hl' & Hn).
      * rewrite app_nil_r. cbn [map concat app] in Heq. by apply line_unique in Heq as [<- <-].
      * apply Forall_cons_iff in Hqs as [Ho Hqs].
        rewrite parents_text in Heq. apply line_unique in Heq as [-> _]; [|done|by eapply parent_text_ok].
        by rewrite (proj2 (strip_prefix_Some _ _ _) eq_refl) in Es.
Qed.

Lemma parents_loop_fuel fuel f l headers ps :
  (length headers < fuel)%nat -> parents_loop fuel f l headers ps <> OutOfFuel.
Proof.
  revert l headers ps. induction fuel as [|fuel IH]; intros l headers ps Hf; [lia|].
  cbn [parents_loop]. destruct (strip_prefix _ l); [|done].
  unfold header_oid. destruct (ok_or _ _) eqn:E; try done; [|by apply ok_or_fuel in E].
  destruct (ok_or (Oid.new _ _) _) eqn:E1; try done; [|by apply ok_or_fuel in E1].
  destruct (next_line headers) as [[l1 h1]| |] eqn:En; [|done|by apply next_line_fuel in En].
  apply IH. apply next_line_shorter in En. lia.
Qed.
Lemma key_ok_plain key : key_ok key = true ->
  key <> [] /\ line_ok key /\ Forall (fun b => beqb b " "%byte = false) key.
Proof.
  unfold key_ok. rewrite !andb_true_iff, negb_true_iff, bytes_eqb_neq.
  intros [[Hne Hk] _]. split; [done|]. rewrite forallb_forall in Hk.
  split; apply Forall_forall; intros x Hx%list_elem_of_In%Hk; apply andb_prop in Hx as [Hx Hs].
  - clear Hs. destruct x; simpl in *; repeat split; try done.
  - by apply negb_true_iff.
Qed.

Lemma ext_lines_first seen ls msg :
  ext_lines seen ls ->
  exists l h, concat (map line ls) ++ LF :: msg = l ++ LF :: h /\ line_ok l.
Proof.
  intros Hls. destruct Hls as [seen|rest ls Hr _|seen key rest ls Hk Hr _].
  - exists [], msg. split; [done|constructor].
  - exists (" "%byte :: rest), (concat (map line ls) ++ LF :: msg).
    cbn [map concat]. rewrite <- (app_assoc (line _)), line_text. split; [done|]. by constructor.
  - exists (key ++ " "%byte :: rest), (concat (map line ls) ++ LF :: msg).
    cbn [map concat]. rewrite <- (app_assoc (line _)), line_text. split; [done|].
    apply key_ok_plain in Hk as (_ & Hk & _). apply line_ok_app. split; [done|by constructor].
Qed.

Lemma key_position key rest :
  Forall (fun b => beqb b " "%byte = false) key ->
  position (fun b => beqb b " "%byte) (key ++ " "%byte :: rest) = Some (len key).
Proof. intros. apply position_spec. by exists key, " "%byte, rest. Qed.

Lemma extensions_sound fuel headers seen :
  rust_slice headers -> extensions_loop fuel headers seen = Ok tt ->
  exists ls msg, headers = concat (map line ls) ++ LF :: msg /\ ext_lines seen ls.
Proof.
  revert headers seen. induction fuel as [|fuel IH]; intros headers seen Hr He; [done|].
  cbn [extensions_loop] in He.
  destruct (next_line headers) as [[l h]| |] eqn:En; try done.
  apply next_line_spec in En as [-> Hl]; [|done].
  assert (rust_slice h) as Hh by (by apply (rust_slice_suffix (l ++ [LF])); rewrite <- app_assoc).
  destruct l as [|x l]; [exists [], h; split; [done|constructor]|].
  destruct (beqb x " "%byte) eqn:Ex.
  - apply beqb_eq in Ex as ->. destruct seen; [|done]. simpl in He.
    apply IH in He as (ls & msg & -> & Hls); [|done].
    exists ((" "%byte :: l) :: ls), msg. split.
    + cbn [map concat]. by rewrite <- (app_assoc (line _)), line_text.
    + constructor; [by apply Forall_cons_iff in Hl as [_ ?]|done].
  - inv_ok He. apply ok_or_Ok in E, E0. bool_prop.
    apply position_spec in E as (key & sp & rest & Heq & <- & ->%beqb_eq & Hkey).
    apply slice_to_spec in E0 as (q & Heq' & Hlen).
    assert (a0 = key) as ->.
    { rewrite Heq in Heq'. apply app_inj_1 in Heq' as [? _]; [done|]. unfold len in Hlen; lia. }
    rewrite Heq in Hl |- *.
    apply IH in He as (ls & msg & -> & Hls); [|done].
    exists ((key ++ " "%byte :: rest) :: ls), msg. split.
    + cbn [map concat]. by rewrite <- (app_assoc (line _)), line_text.
    + apply line_ok_app in Hl as [_ Hl]. apply Forall_cons_iff in Hl as [_ Hl]. by constructor.
Qed.

Lemma extensions_complete fuel seen ls msg :
  rust_slice (concat (map line ls) ++ LF :: msg) -> ext_lines seen ls ->
  (length (concat (map line ls) ++ LF :: msg) < fuel)%nat ->
  extensions_loop fuel (concat (map line ls) ++ LF :: msg) seen = Ok tt.
Proof.
  intros Hr Hls. revert fuel Hr.
  induction Hls as [seen|rest ls Hrest Hls IH|seen key rest ls Hk Hrest Hls IH];
    intros [|fuel] Hr Hf; try lia; cbn [extensions_loop map concat] in *.
  - rewrite (proj2 (next_line_spec _ [] msg Hr)); [done|]. split; [done|constructor].
  - rewrite <- (app_assoc (line _)), line_text in *. set (h := concat (map line ls) ++ LF :: msg) in *.
    rewrite (proj2 (next_line_spec _ (" "%byte :: rest) h Hr)) by (split; [done|by constructor]).
    cbn [negb beqb]. apply IH; [by apply (rust_slice_suffix ((" "%byte :: rest) ++ [LF])); rewrite <- app_assoc|].
    rewrite length_app in Hf. simpl in Hf. lia.
  - rewrite <- (app_assoc (line _)), line_text in *. set (h := concat (map line ls) ++ LF :: msg) in *.
    pose proof (key_ok_plain key Hk) as (Hne & Hlk & Hsp).
    rewrite (proj2 (next_line_spec _ (key ++ " "%byte :: rest) h Hr));
      [|split; [done|apply line_ok_app; split; [done|by constructor]]].
    destruct (key ++ " "%byte :: rest) as [|x l] eqn:Ekey; [by destruct key|].
    assert (beqb x " "%byte = false) as Hx.
    { destruct key as [|y key]; [done|]. simplify_list_eq. by apply Forall_cons_iff in Hsp as [? _]. }
    rewrite Hx, <- Ekey, key_position by done. simpl.
    rewrite (proj2 (slice_to_spec _ (len key) key)) by (by exists (" "%byte :: rest)). simpl.
    rewrite Hk. simpl. apply IH.
    { apply (rust_slice_suffix ((key ++ " "%byte :: rest) ++ [LF])). by rewrite Ekey, <- app_assoc. }
    rewrite length_app in Hf. simpl in Hf. lia.
Qed.

Lemma extensions_fuel fuel headers seen :
  (length headers < fuel)%nat -> extensions_loop fuel headers seen <> OutOfFuel.
Proof.
  revert headers seen. induction fuel as [|fuel IH]; intros headers seen Hf; [lia|].
  cbn [extensions_loop].
  destruct (next_line headers) as [[l h]| |] eqn:En; [|done|by apply next_line_fuel in En].
  apply next_line_shorter in En. destruct l as [|x l]; [done|].
  destruct (beqb x _); [destruct (negb seen); [done|apply IH; lia]|].
  destruct (ok_or (position _ _) _) eqn:E; [|done|by apply ok_or_fuel in E].
  destruct (ok_or (slice_to _ _) _) eqn:E1; [|done|by apply ok_or_fuel in E1].
  destruct (negb _); [done|apply IH; lia].
Qed.
Lemma commit_text c author committer exts msg :
  render_commit c author committer exts msg =
  (b_ "tree " ++ Oid.raw (c_tree c)) ++ LF ::
  concat (map parent_line (c_parents c)) ++ (b_ "author " ++ author) ++ LF ::
  (b_ "committer " ++ committer) ++ LF :: concat (map line exts) ++ LF :: msg.
Proof. unfold render_commit. by rewrite !line_text. Qed.

Lemma prefix_line_ok (p : string) l :
  line_ok (b_ p) -> line_ok l -> line_ok (b_ p ++ l).
Proof. intros. by apply line_ok_app. Qed.

Lemma parse_commit_sound f body c :
  rust_slice body -> parse_commit f body = Ok c ->
  exists author committer exts msg,
    commit_ok f c author committer exts /\ body = render_commit c author committer exts msg.
Proof.
  intros Hr Hp. unfold parse_commit in Hp.
  destruct (next_line body) as [[l0 h0]| |] eqn:E0; try done.
  apply next_line_spec in E0 as [-> Hl0]; [|done].
  assert (rust_slice h0) as Hr0 by (by apply (rust_slice_suffix (l0 ++ [LF])); rewrite <- app_assoc).
  destruct (strip_prefix (b_ "tree ") l0) as [th|] eqn:Et; cbn [ok_or] in Hp; [|done].
  apply strip_prefix_Some in Et as ->.
  destruct (header_oid f th) as [tree| |] eqn:Eo; try done.
  apply header_oid_spec in Eo as [Htree <-].
  destruct (next_line h0) as [[l1 h1]| |] eqn:E1; try done.
  apply next_line_spec in E1 as [-> Hl1]; [|done].
  assert (rust_slice h1) as Hr1 by (by apply (rust_slice_suffix (l1 ++ [LF])); rewrite <- app_assoc).
  destruct (parents_loop _ f l1 h1 []) as [[[ps l2] h2]| |] eqn:E2; try done.
  apply parents_loop_spec in E2 as (qs & -> & Hqs & Heq & Hl2 & _); [|done..|lia].
  destruct (strip_prefix (b_ "author ") l2) as [author|] eqn:Ea; cbn [ok_or] in Hp; [|done].
  apply strip_prefix_Some in Ea as ->.
  destruct (bytes_eqb author []) eqn:Ean; [done|]. apply bytes_eqb_neq in Ean.
  rewrite Heq in Hr0 |- *.
  assert (rust_slice h2) as Hr2.
  { apply (rust_slice_suffix (concat (map parent_line qs) ++ (b_ "author " ++ author) ++ [LF])).
    by rewrite <- !app_assoc in *. }
  destruct (next_line h2) as [[l3 h3]| |] eqn:E3; try done.
  apply next_line_spec in E3 as [-> Hl3]; [|done].
  destruct (strip_prefix (b_ "committer ") l3) as [committer|] eqn:Ec; cbn [ok_or] in Hp; [|done].
  apply strip_prefix_Some in Ec as ->.
  destruct (bytes_eqb committer []) eqn:Ecn; [done|]. apply bytes_eqb_neq in Ecn.
  destruct (extensions_loop _ h3 false) as [[]| |] eqn:E4; try done.
  apply extensions_sound in E4 as (exts & msg & -> & Hexts);
    [|by apply (rust_slice_suffix ((b_ "committer " ++ committer) ++ [LF])); rewrite <- app_assoc].
  injection Hp as <-. apply line_ok_app in Hl2 as [_ Hl2], Hl3 as [_ Hl3].
  exists author, committer, exts, msg. split; [by split|]. by rewrite commit_text.
Qed.

Lemma parse_commit_complete f c author committer exts msg :
  rust_slice (render_commit c author committer exts msg) ->
  commit_ok f c author committer exts ->
  parse_commit f (render_commit c author committer exts msg) = Ok c.
Proof.
  rewrite commit_text. intros Hr [Htree Hps [Han Hal] [Hcn Hcl] Hexts]. unfold parse_commit.
  rewrite next_line_intro;
    [|done|apply prefix_line_ok; [by repeat constructor|by eapply oid_of_line_ok]].
  rewrite (proj2 (strip_prefix_Some _ _ (Oid.raw (c_tree c)))) by done. cbn [ok_or].
  rewrite (proj2 (header_oid_spec f _ (c_tree c))) by done.
  apply rust_slice_after in Hr.
  assert (line_ok (b_ "author " ++ author)) as Haok by (apply prefix_line_ok; by repeat constructor).
  assert (line_ok (b_ "committer " ++ committer)) as Hcok
    by (apply prefix_line_ok; by repeat constructor).
  match type of Hr with rust_slice (_ ++ _ ++ LF :: ?t) => set (h2 := t) in * end.
  destruct (parents_first_line f (c_parents c) (b_ "author " ++ author) h2 Hps Haok)
    as (l1 & h1 & Hfirst & Hl1).
  rewrite (proj2 (next_line_spec _ l1 h1 Hr)) by done.
  assert (rust_slice h2) as Hr2
    by (apply rust_slice_suffix in Hr; by apply rust_slice_after in Hr).
  rewrite Hfirst in Hr. apply rust_slice_after in Hr.
  rewrite (proj2 (parents_loop_spec (S (length h1)) f l1 h1 [] (c_parents c) (b_ "author " ++ author) h2
    Hr Hl1 ltac:(lia))); [|exists (c_parents c); rewrite <- Hfirst; by repeat split].
  rewrite (proj2 (strip_prefix_Some _ _ author)) by done. cbn [ok_or].
  rewrite (proj2 (bytes_eqb_neq author [])) by done.
  unfold h2 in *. rewrite next_line_intro by done.
  rewrite (proj2 (strip_prefix_Some _ _ committer)) by done. cbn [ok_or].
  rewrite (proj2 (bytes_eqb_neq committer [])) by done.
  apply rust_slice_after in Hr2.
  rewrite extensions_complete by (done || lia). by destruct c.
Qed.

Lemma parse_commit_fuel f body : parse_commit f body <> OutOfFuel.
Proof.
  unfold parse_commit, header_oid. intros Hp.
  repeat match type of Hp with
  | context [ok_or ?o ?e] => destruct (ok_or o e) eqn:?; try done;
      [|by eapply ok_or_fuel]
  | context [next_line ?l] => destruct (next_line l) as [[? ?]| |] eqn:?; try done;
      [|by eapply next_line_fuel]
  | context [bytes_eqb ?a ?b] => destruct (bytes_eqb a b); try done
  | context [parents_loop ?n ?f ?l ?h ?p] =>
      destruct (parents_loop n f l h p) as [[[? ?] ?]| |] eqn:?; try done;
      [|by eapply parents_loop_fuel; [|eassumption]; lia]
  | context [extensions_loop ?n ?l ?s] =>
      destruct (extensions_loop n l s) eqn:?; try done;
      [by eapply extensions_fuel; [|eassumption]; lia]
  end.
Qed.
End WithHex.
End CommitParser.

(** ** Trees *)

Module TreeParser.
Definition tree_mode (m : bytes) : result GitMode :=
  if bytes_eqb m (b_ "40000") then Ok Tree
  else if bytes_eqb m (b_ "100644") then Ok RegularFile
  else if bytes_eqb m (b_ "100755") then Ok ExecutableFile
  else if bytes_eqb m (b_ "120000") then Ok Symlink
  else if bytes_eqb m (b_ "160000") then Ok Gitlink
  else Err ObjectUnreadable.

(** The bytes one side contributes to [tree_name_order]. *)
Definition order_key (name : bytes) (is_tree : bool) : bytes :=
  name ++ (if is_tree then ["/"%byte] else []).

Definition tree_name_order (left_name : bytes) (left_is_tree : bool)
    (right_name : bytes) (right_is_tree : bool) : comparison :=
  bytes_cmp (order_key left_name left_is_tree) (order_key right_name right_is_tree).

Definition is_tree (m : GitMode) : bool := bool_decide (m = Tree).

Section WithHex.
Context `{Hex}.

(** The entry does not come after the last one read. *)
Definition out_of_order (entries : list TreeEntry) (name : bytes) (mode : GitMode) : bool :=
  match last entries with
  | Some previous =>
      match tree_name_order (te_name previous) (is_tree (te_mode previous))
              name (is_tree mode) with
      | Lt => false
      | _ => true
      end
  | None => false
  end.

(** A directory whose name an entry that is no directory already has. *)
Definition shadows_file (entries : list TreeEntry) (name : bytes) (mode : GitMode) : bool :=
  is_tree mode &&
  bool_decide (is_Some (binary_search_by
    (fun e => tree_name_order (te_name e) (is_tree (te_mode e)) name false) entries)).

(** One turn of the [while pos < body.len()] loop: the entry at [pos], its
    checks against the entries before it, and the next position. *)
Definition parse_entry (f : ObjectFormat) (body : bytes) (pos : usize)
    (entries : list TreeEntry) : result (TreeEntry * usize) :=
  let oid_width := Oid.width f in
  let? rest := ok_or (slice_from body pos) ObjectUnreadable in
  let? space := ok_or (position (fun b => beqb b " "%byte) rest) ObjectUnreadable in
  let? mode_bytes := ok_or (slice_to rest space) ObjectUnreadable in
  let? mode := tree_mode mode_bytes in
  let? after_mode := ok_or (slice_from rest (sat_add space 1)) ObjectUnreadable in
  let? nul := ok_or (position (fun b => beqb b x00) after_mode) ObjectUnreadable in
  let? name := ok_or (slice_to after_mode nul) ObjectUnreadable in
  if bytes_eqb name [] || existsb (fun b => beqb b "/"%byte) name
     || bytes_eqb name (b_ ".") || bytes_eqb name (b_ "..")
  then Err ObjectUnreadable
  else
    let oid_start := sat_add nul 1 in
    let oid_end := sat_add oid_start oid_width in
    let? raw_oid := ok_or (slice after_mode oid_start oid_end) ObjectUnreadable in
    let? oid := ok_or (Oid.new f (hex_encode raw_oid)) ObjectUnreadable in
    if out_of_order entries name mode then Err ObjectUnreadable
    else if shadows_file entries name mode then Err ObjectUnreadable
    else Ok (mkTreeEntry mode name oid,
             sat_add (sat_add (sat_add pos space) 1) oid_end).

Fixpoint entries_loop (fuel : nat) (f : ObjectFormat) (body : bytes) (pos : usize)
    (entries : list TreeEntry) : result (list TreeEntry) :=
  match fuel with
  | O => OutOfFuel
  | S fuel =>
      if pos <? len body then
        let? (entry, pos) := parse_entry f body pos entries in
        entries_loop fuel f body pos (entries ++ [entry])
      else Ok entries
  end.

Definition parse_tree (f : ObjectFormat) (body : bytes) : result (list TreeEntry) :=
  entries_loop (S (length body)) f body 0 [].

(** *** The grammar *)

Definition mode_bytes (m : GitMode) : bytes :=
  match m with
  | Tree => b_ "40000"
  | RegularFile => b_ "100644"
  | ExecutableFile => b_ "100755"
  | Symlink => b_ "120000"
  | Gitlink => b_ "160000"
  end.

Definition oid_bytes (o : Oid.t) : bytes := default [] (hex_decode (Oid.raw o)).

Definition encode_entry (e : TreeEntry) : bytes :=
  mode_bytes (te_mode e) ++ " "%byte :: te_name e ++ x00 :: oid_bytes (te_oid e).
Definition encode_tree (es : list TreeEntry) : bytes := concat (map encode_entry es).

Definition name_ok (n : bytes) : Prop :=
  n <> [] /\ n <> b_ "." /\ n <> b_ ".." /\ "/"%byte ∉ n /\ x00 ∉ n.
Definition entry_ok (f : ObjectFormat) (e : TreeEntry) : Prop :=
  name_ok (te_name e) /\ CommitParser.oid_of f (te_oid e).
Definition entry_key (e : TreeEntry) : bytes := order_key (te_name e) (is_tree (te_mode e)).

(** Git's tree order (a directory sorts as if its name ended in a slash),
    and no name twice. *)
Record tree_ok (f : ObjectFormat) (es : list TreeEntry) : Prop := {
  tree_entries : Forall (entry_ok f) es;
  tree_sorted : StronglySorted (fun a b => bytes_lt (entry_key a) (entry_key b)) es;
  tree_names : NoDup (map te_name es)
}.

(** *** Lemmas *)

Context {HL : HexLaws _}.

Lemma tree_mode_spec m g : tree_mode m = Ok g <-> m = mode_bytes g.
Proof.
  unfold tree_mode. split.
  - intros Hm. repeat match type of Hm with
      | context [bytes_eqb ?a ?b] => destruct (bytes_eqb a b) eqn:?
      end; simplify_eq; by apply bytes_eqb_eq.
  - intros ->. by destruct g.
Qed.

Lemma tree_mode_fuel m : tree_mode m <> OutOfFuel.
Proof. unfold tree_mode. by repeat case_match. Qed.

Lemma mode_bytes_plain g : Forall (fun b => beqb b " "%byte = false) (mode_bytes g).
Proof. destruct g; by repeat constructor. Qed.

Lemma existsb_beqb b l : existsb (fun x => beqb x b) l = false <-> b ∉ l.
Proof.
  induction l as [|x l IH]; simpl; [split; [intros _; apply not_elem_of_nil|done]|].
  rewrite orb_false_iff, IH, not_elem_of_cons, <- not_true_iff_false, beqb_eq. naive_solver.
Qed.

Lemma forall_beqb b l : Forall (fun x => beqb x b = false) l <-> b ∉ l.
Proof.
  rewrite <- existsb_beqb. induction l as [|x l IH]; simpl; [done|].
  by rewrite Forall_cons_iff, orb_false_iff, IH.
Qed.

(** A key without a slash belongs to an entry that is no directory. *)
Lemma order_key_file n t name : "/"%byte ∉ name -> order_key n t = name -> t = false /\ n = name.
Proof.
  unfold order_key. destruct t; intros Hs <-; [|by rewrite app_nil_r].
  destruct Hs. apply elem_of_app. right. by left.
Qed.

Lemma last_key_spec es name mode :
  out_of_order es name mode = false <->
  forall x, last es = Some x -> bytes_lt (entry_key x) (order_key name (is_tree mode)).
Proof.
  unfold out_of_order, tree_name_order, bytes_lt, entry_key.
  destruct (last es) as [x|]; [|naive_solver].
  destruct (bytes_cmp _ _) eqn:E; split; intros Hx; try done.
  - specialize (Hx x eq_refl). congruence.
  - by intros y [= <-].
  - specialize (Hx x eq_refl). congruence.
Qed.

Lemma shadows_file_spec f es name mode :
  tree_ok f es -> "/"%byte ∉ name ->
  shadows_file es name mode = true <->
  mode = Tree /\ exists x, x ∈ es /\ te_mode x <> Tree /\ te_name x = name.
Proof.
  intros Ht Hs. unfold shadows_file, is_tree, tree_name_order.
  rewrite andb_true_iff, !bool_decide_eq_true. apply and_iff_compat_l.
  rewrite (binary_search_sorted entry_key es (order_key name false)) by apply Ht.
  unfold order_key at 1. rewrite app_nil_r. unfold entry_key, is_tree.
  split; intros (x & Hx & Hk); exists x; (split; [done|]).
  - apply order_key_file in Hk as [Hm Hn]; [|done]. by apply bool_decide_eq_false in Hm.
  - destruct Hk as [Hm <-]. rewrite bool_decide_false by done. unfold order_key. apply app_nil_r.
Qed.

(** Equal names in tree order: a file and then a directory. *)
Lemma same_name_file_then_tree x e :
  te_name x = te_name e -> bytes_lt (entry_key x) (entry_key e) ->
  te_mode e = Tree /\ te_mode x <> Tree.
Proof.
  intros Hn Hlt. unfold entry_key, is_tree, order_key in Hlt. rewrite Hn in Hlt.
  destruct (decide (te_mode x = Tree)) as [Hm|Hm], (decide (te_mode e = Tree)) as [Hm'|Hm'];
    [|exfalso|done|]; rewrite ?(bool_decide_true (te_mode x = Tree)),
      ?(bool_decide_false (te_mode x = Tree)), ?(bool_decide_true (te_mode e = Tree)),
      ?(bool_decide_false (te_mode e = Tree)), ?app_nil_r in Hlt by done.
  - by apply StrictOrder_Irreflexive in Hlt.
  - pose proof (bytes_lt_app (te_name e) "/"%byte []) as Hgt.
    by apply (StrictOrder_Irreflexive (te_name e)); trans (te_name e ++ ["/"%byte]).
  - by apply StrictOrder_Irreflexive in Hlt.
Qed.

(** The two checks of [parse_entry] are what keeps the list a tree. *)
Lemma snoc_tree_ok f es e :
  tree_ok f es -> entry_ok f e ->
  out_of_order es (te_name e) (te_mode e) = false /\
  shadows_file es (te_name e) (te_mode e) = false <->
  tree_ok f (es ++ [e]).
Proof.
  intros Ht He. pose proof He as [(_ & _ & _ & Hslash & _) _].
  rewrite last_key_spec, <- not_true_iff_false, (shadows_file_spec f es) by done. split.
  - intros [Hlast Hsh].
    assert (StronglySorted (fun a b => bytes_lt (entry_key a) (entry_key b)) (es ++ [e])) as Hsort.
    { apply StronglySorted_snoc_last; [intros a b c; apply bytes_lt_strict|apply Ht|exact Hlast]. }
    split; [apply Forall_app; split; [apply Ht|by apply Forall_singleton]|done|].
    rewrite map_app. apply NoDup_app. split; [apply Ht|]. split; [|apply NoDup_singleton].
    intros n Hn ->%list_elem_of_singleton. apply list_elem_of_In, in_map_iff in Hn as (x & Hxe & Hx).
    apply list_elem_of_In in Hx. apply StronglySorted_app in Hsort as (Hlt & _ & _).
    destruct (same_name_file_then_tree x e Hxe) as [Hm Hm']; [by apply Hlt, list_elem_of_singleton|].
    apply Hsh. eauto.
  - intros [_ Hsort Hnd]. split.
    + intros x Hx. apply StronglySorted_app in Hsort as (Hlt & _ & _).
      apply Hlt; [|by left]. apply last_Some in Hx as [l' ->]. apply elem_of_app. right. by left.
    + intros (_ & x & Hx & _ & Hname). rewrite map_app in Hnd. apply NoDup_app in Hnd as (_ & Hd & _).
      apply (Hd (te_name x)); [by apply list_elem_of_In, in_map, list_elem_of_In|].
      rewrite Hname. by left.
Qed.

Lemma oid_bytes_spec f o : CommitParser.oid_of f o ->
  len (oid_bytes o) = Oid.width f /\ Oid.raw o = hex_encode (oid_bytes o).
Proof.
  intros [(b & Hl & Hr) <-]. unfold oid_bytes. by rewrite Hr, hex_decode_encode.
Qed.

Lemma encode_entry_pos e : 0 < len (encode_entry e).
Proof. unfold encode_entry. rewrite len_app, len_cons. pose proof (len_nonneg (mode_bytes (te_mode e))).
  match goal with |- context [len ?l + 1] => pose proof (len_nonneg l) end. lia. Qed.

Lemma name_checks n :
  (bytes_eqb n [] || existsb (fun b => beqb b "/"%byte) n
   || bytes_eqb n (b_ ".") || bytes_eqb n (b_ "..")) = false /\ x00 ∉ n <-> name_ok n.
Proof.
  unfold name_ok. rewrite !orb_false_iff, !bytes_eqb_neq, existsb_beqb. tauto.
Qed.

Lemma parse_entry_sound f p rest es e pos' :
  rust_slice (p ++ rest) -> tree_ok f es ->
  parse_entry f (p ++ rest) (len p) es = Ok (e, pos') ->
  exists t, rest = encode_entry e ++ t /\ tree_ok f (es ++ [e]) /\
    pos' = len p + len (encode_entry e).
Proof.
  intros Hr Ht Hp. unfold parse_entry in Hp.
  rewrite (proj2 (slice_from_spec (p ++ rest) (len p) rest)) in Hp by eauto. cbn [ok_or] in Hp.
  destruct (position _ rest) as [space|] eqn:Esp; cbn [ok_or] in Hp; [|done].
  apply position_spec in Esp as (mb & sp & am & -> & <- & ->%beqb_eq & Hmb).
  rewrite (proj2 (slice_to_spec (mb ++ " "%byte :: am) (len mb) mb)) in Hp by eauto.
  cbn [ok_or] in Hp. destruct (tree_mode mb) as [g| |] eqn:Eg; try done.
  apply tree_mode_spec in Eg as ->.
  assert (len p + len (mode_bytes g) + 1 + len am <= isize_max) as Hlen.
  { unfold rust_slice in Hr. autorewrite with amiss in Hr. lia. }
  pose proof (len_nonneg p). pose proof (len_nonneg (mode_bytes g)).
  rewrite (sat_add_small (len (mode_bytes g)) 1) in Hp
    by (pose proof (len_nonneg am); unfold_widths; lia).
  rewrite (proj2 (slice_from_spec _ _ am)) in Hp
    by (exists (mode_bytes g ++ [" "%byte]); rewrite len_snoc, <- app_assoc; done).
  cbn [ok_or] in Hp. destruct (position _ am) as [nul|] eqn:En; cbn [ok_or] in Hp; [|done].
  apply position_spec in En as (name & z & ao & -> & <- & ->%beqb_eq & Hname).
  rewrite (proj2 (slice_to_spec _ (len name) name)) in Hp by eauto. cbn [ok_or] in Hp.
  destruct (_ || bytes_eqb name (b_ "..")) eqn:Ename; [done|].
  autorewrite with amiss in Hlen. pose proof (len_nonneg name). pose proof (len_nonneg ao).
  assert (0 <= Oid.width f <= 32) as Hw by (by destruct f).
  rewrite (sat_add_small (len name) 1) in Hp by (unfold_widths; lia).
  rewrite (sat_add_small (len name + 1) (Oid.width f)) in Hp by (unfold_widths; lia).
  destruct (slice _ _ _) as [raw|] eqn:Eraw; cbn [ok_or] in Hp; [|done].
  pose proof (slice_len _ _ _ _ Eraw) as (Hraw & _ & Hle).
  autorewrite with amiss in Hle.
  apply slice_spec in Eraw as (q & t & Heq & Hq & _).
  assert (ao = raw ++ t) as ->.
  { assert (q = name ++ [x00]) as ->.
    { rewrite (app_assoc name [x00] ao) in Heq || change (x00 :: ao) with ([x00] ++ ao) in Heq.
      rewrite (app_assoc name) in Heq. apply app_inj_1 in Heq as [? _]; [done|].
      rewrite length_app. unfold len in Hq. simpl. lia. }
    rewrite <- app_assoc in Heq. by simplify_list_eq. }
  rewrite Oid.new_encode in Hp by lia. cbn [ok_or] in Hp.
  destruct (out_of_order _ _ _) eqn:Eo; [done|]. destruct (shadows_file _ _ _) eqn:Es; [done|].
  injection Hp as <- <-.
  pose proof (len_nonneg t). autorewrite with amiss in Hlen.
  rewrite (sat_add_small (len p) _), (sat_add_small _ 1), sat_add_small by (unfold_widths; lia).
  set (e := mkTreeEntry g name (Oid.mk f (hex_encode raw))).
  assert (oid_bytes (te_oid e) = raw) as Hob by (unfold oid_bytes; simpl; by rewrite hex_decode_encode).
  exists t. unfold encode_entry. rewrite Hob. split; [|split].
  - simpl. by rewrite <- !app_assoc, <- app_comm_cons, <- app_assoc.
  - apply snoc_tree_ok; [done| |done]. split; [|split; [exists raw; simpl; split; [lia|done]|done]].
    apply name_checks. split; [done|]. by apply forall_beqb.
  - simpl. autorewrite with amiss. lia.
Qed.

Lemma parse_entry_complete f p e t es :
  rust_slice (p ++ encode_entry e ++ t) -> tree_ok f es -> tree_ok f (es ++ [e]) ->
  parse_entry f (p ++ encode_entry e ++ t) (len p) es =
    Ok (e, len p + len (encode_entry e)).
Proof.
  intros Hr Ht Hte.
  assert (entry_ok f e) as He.
  { destruct Hte as [Hall _ _]. apply Forall_app in Hall as [_ Hall]. by apply Forall_cons_iff in Hall as [? _]. }
  apply (snoc_tree_ok f es e Ht He) in Hte as [Hord Hsh].
  destruct He as [Hname Hoid]. apply name_checks in Hname as [Hname Hnul].
  destruct (oid_bytes_spec f _ Hoid) as [Hw Hraw].
  destruct e as [g name [fo raw]]. simpl in *. destruct Hoid as [_ Hfo]. simpl in Hfo. subst fo.
  unfold encode_entry in *. simpl in *. set (ob := oid_bytes _) in *.
  rewrite <- app_assoc, <- app_comm_cons, <- app_assoc, <- app_comm_cons in *.
  unfold rust_slice in Hr. autorewrite with amiss in Hr.
  pose proof (len_nonneg p). pose proof (len_nonneg (mode_bytes g)).
  pose proof (len_nonneg name). pose proof (len_nonneg ob). pose proof (len_nonneg t).
  unfold parse_entry.
  rewrite (proj2 (slice_from_spec (p ++ _) (len p) (mode_bytes g ++ " "%byte :: name ++ x00 :: ob ++ t))) by eauto.
  cbn [ok_or].
  rewrite (proj2 (position_spec _ _ (len (mode_bytes g))))
    by (exists (mode_bytes g), " "%byte, (name ++ x00 :: ob ++ t); split_and!;
        [done|done|done|apply mode_bytes_plain]). cbn [ok_or].
  rewrite (proj2 (slice_to_spec _ (len (mode_bytes g)) (mode_bytes g))) by eauto. cbn [ok_or].
  rewrite (proj2 (tree_mode_spec _ g)) by done.
  rewrite (sat_add_small (len (mode_bytes g)) 1) by (unfold_widths; lia).
  rewrite (proj2 (slice_from_spec _ _ (name ++ x00 :: ob ++ t)))
    by (exists (mode_bytes g ++ [" "%byte]); rewrite len_snoc, <- app_assoc; done). cbn [ok_or].
  rewrite (proj2 (position_spec _ _ (len name)))
    by (exists name, x00, (ob ++ t); split_and!; [done|done|done|by apply forall_beqb]). cbn [ok_or].
  rewrite (proj2 (slice_to_spec _ (len name) name)) by eauto. cbn [ok_or]. rewrite Hname.
  rewrite (sat_add_small (len name) 1) by (unfold_widths; lia).
  rewrite (sat_add_small (len name + 1) (Oid.width f)) by (unfold_widths; lia).
  rewrite (proj2 (slice_spec (name ++ x00 :: ob ++ t) (len name + 1) (len name + 1 + Oid.width f) ob))
    by (exists (name ++ [x00]), t; rewrite len_snoc, <- app_assoc; repeat split; lia). cbn [ok_or].
  rewrite Oid.new_encode by lia. cbn [ok_or]. rewrite Hord, Hsh, <- Hraw.
  rewrite (sat_add_small (len p) _), (sat_add_small _ 1), sat_add_small by (unfold_widths; lia).
  do 2 f_equal. autorewrite with amiss. lia.
Qed.

Lemma entries_loop_sound fuel f p rest es es' :
  rust_slice (p ++ rest) -> tree_ok f es ->
  entries_loop fuel f (p ++ rest) (len p) es = Ok es' ->
  exists new, es' = es ++ new /\ rest = encode_tree new /\ tree_ok f es'.
Proof.
  revert p rest es. induction fuel as [|fuel IH]; intros p rest es Hr Ht Hl; [done|].
  cbn [entries_loop] in Hl. rewrite len_app in Hl.
  destruct (Z.ltb_spec (len p) (len p + len rest)).
  - destruct (parse_entry _ _ _ _) as [[e pos']| |] eqn:Ep; try done.
    apply parse_entry_sound in Ep as (t & -> & Ht' & ->); [|done..].
    rewrite <- len_app, app_assoc in Hl. apply IH in Hl as (new & -> & -> & Hok);
      [|by rewrite <- app_assoc|done].
    exists (e :: new). rewrite <- app_assoc in Hok |- *. done.
  - injection Hl as <-. exists []. rewrite app_nil_r. split; [done|]. split; [|done].
    destruct rest as [|x rest]; [done|]. rewrite len_cons in *. pose proof (len_nonneg rest). lia.
Qed.

Lemma tree_ok_prefix f es es' : tree_ok f (es ++ es') -> tree_ok f es.
Proof.
  intros [Ha Hs Hn]. split.
  - by apply Forall_app in Ha as [? _].
  - by apply StronglySorted_app in Hs as (_ & ? & _).
  - rewrite map_app in Hn. by apply NoDup_app in Hn as (? & _).
Qed.

Lemma entries_loop_complete fuel f p es new :
  rust_slice (p ++ encode_tree new) -> tree_ok f (es ++ new) ->
  (length (encode_tree new) < fuel)%nat ->
  entries_loop fuel f (p ++ encode_tree new) (len p) es = Ok (es ++ new).
Proof.
  revert fuel p es. induction new as [|e new IH]; intros [|fuel] p es Hr Ht Hf; try lia;
    cbn [entries_loop]; rewrite len_app.
  - change (len (encode_tree [])) with 0. destruct (Z.ltb_spec (len p) (len p + 0)); [lia|]. by rewrite app_nil_r.
  - unfold encode_tree in *. cbn [map concat] in *.
    pose proof (encode_entry_pos e). rewrite len_app.
    match goal with |- context [_ + len (concat ?l)] => pose proof (len_nonneg (concat l)) end.
    destruct (Z.ltb_spec (len p) (len p + (len (encode_entry e) + len (concat (map encode_entry new))))); [|lia].
    rewrite parse_entry_complete; [|done|by eapply tree_ok_prefix|].
    + rewrite <- len_app, app_assoc, (IH fuel); rewrite <- ?app_assoc; try done.
      rewrite length_app in Hf. unfold len in *. lia.
    + apply (tree_ok_prefix _ _ new). by rewrite <- app_assoc.
Qed.

Lemma tree_ok_nil f : tree_ok f [].
Proof. split; constructor. Qed.

Lemma parse_tree_exact_aux f body es :
  rust_slice body -> parse_tree f body = Ok es <-> body = encode_tree es /\ tree_ok f es.
Proof.
  intros Hr. unfold parse_tree. split.
  - intros Hp. apply (entries_loop_sound _ f [] body []) in Hp as (new & -> & -> & Hok);
      [done|done|apply tree_ok_nil].
  - intros [-> Hok]. apply (entries_loop_complete _ f [] [] es); try done. lia.
Qed.

Lemma parse_entry_fuel f body pos es : parse_entry f body pos es <> OutOfFuel.
Proof.
  unfold parse_entry. intros Hp. cbv zeta in Hp.
  repeat match type of Hp with
  | context [match ok_or ?o ?e with _ => _ end] =>
      destruct (ok_or o e) eqn:?; try done; [|by eapply ok_or_fuel]
  | context [match tree_mode ?m with _ => _ end] =>
      destruct (tree_mode m) eqn:?; try done; [|by eapply tree_mode_fuel]
  | context [if ?b then _ else _] => destruct b; try done
  end.
Qed.

Lemma entries_loop_fuel fuel f p rest es :
  rust_slice (p ++ rest) -> tree_ok f es -> (length rest < fuel)%nat ->
  entries_loop fuel f (p ++ rest) (len p) es <> OutOfFuel.
Proof.
  revert p rest es. induction fuel as [|fuel IH]; intros p rest es Hr Ht Hf; [lia|].
  cbn [entries_loop]. destruct (_ <? _); [|done].
  destruct (parse_entry _ _ _ _) as [[e pos']| |] eqn:Ep; [|done|by apply parse_entry_fuel in Ep].
  apply parse_entry_sound in Ep as (t & -> & Ht' & ->); [|done..].
  rewrite <- len_app, app_assoc. apply IH; [by rewrite <- app_assoc|done|].
  pose proof (encode_entry_pos e). rewrite length_app in Hf. unfold len in *. lia.
Qed.
End WithHex.
End TreeParser.

(** ** Properties *)

(** [parse_commit] succeeds on exactly the commit bodies of the grammar: one
    tree line, any number of parent lines, one nonempty author and committer
    line, extension lines whose keys are plain ASCII and none of the four
    reserved ones with their continuations, an empty line and any message; and
    it returns the tree and the parents written there. *)
Theorem parse_commit_exact (HX : Hex) (HL : HexLaws HX) f body c :
  rust_slice body ->
  CommitParser.parse_commit f body = Ok c <->
  exists author committer exts message,
    CommitParser.commit_ok f c author committer exts /\
    body = CommitParser.render_commit c author committer exts message.
Proof.
  intros Hr. split.
  - by apply CommitParser.parse_commit_sound.
  - intros (a & co & ex & m & Hok & ->). by apply CommitParser.parse_commit_complete.
Qed.

Definition example_commit : bytes :=
  b_ "tree 00112233445566778899aabbccddeeff00112233" ++ ["010"%byte] ++
  b_ "author A <a> 0 +0000" ++ ["010"%byte] ++ b_ "committer B <b> 0 +0000" ++ ["010"%byte] ++
  b_ "gpgsig x" ++ ["010"%byte] ++ b_ " y" ++ ["010"%byte] ++ ["010"%byte] ++ b_ "message".

Lemma parse_commit_exact_witness :
  rust_slice example_commit /\
  exists author committer exts message,
    example_commit = CommitParser.render_commit
      (mkCommit (Oid.mk Sha1 (b_ "00112233445566778899aabbccddeeff00112233")) [])
      author committer exts message.
Proof.
  assert (rust_slice example_commit) as Hr by (vm_compute; discriminate).
  split; [exact Hr|].
  destruct (proj1 (parse_commit_exact rfc_hex rfc_hex_laws Sha1 example_commit
    (mkCommit (Oid.mk Sha1 (b_ "00112233445566778899aabbccddeeff00112233")) []) Hr))
    as (a & co & ex & m & _ & He); [vm_compute; reflexivity|].
  exists a, co, ex, m. exact He.
Defined.

(** C35: [parse_tree] succeeds on exactly the encodings of Git trees: it inverts
    the encoder, every accepted entry list is strictly increasing in Git's tree
    order, every name is a plain segment, and no name occurs twice, whether as
    file or as directory. *)
Theorem parse_tree_exact (HX : Hex) (HL : HexLaws HX) f body es :
  rust_slice body ->
  TreeParser.parse_tree f body = Ok es <->
  body = TreeParser.encode_tree es /\ TreeParser.tree_ok f es.
Proof. apply TreeParser.parse_tree_exact_aux. Qed.

Definition example_tree : bytes :=
  b_ "100644 a.md" ++ [x00] ++ repeat x11 20 ++ b_ "40000 docs" ++ [x00] ++ repeat x22 20.

Definition example_entries : list TreeEntry :=
  [mkTreeEntry RegularFile (b_ "a.md") (Oid.mk Sha1 (concat (repeat (b_ "11") 20)));
   mkTreeEntry Tree (b_ "docs") (Oid.mk Sha1 (concat (repeat (b_ "22") 20)))].

Lemma parse_tree_exact_witness :
  rust_slice example_tree /\ NoDup (map te_name example_entries).
Proof.
  assert (rust_slice example_tree) as Hr by (vm_compute; discriminate).
  split; [exact Hr|].
  apply (proj1 (parse_tree_exact rfc_hex rfc_hex_laws Sha1 example_tree example_entries Hr)).
  vm_compute; reflexivity.
Defined.

(** the two object parsers terminate on every slice Rust can hold: the loops
    never run past their bound, so the result is a value or an error. *)
Theorem object_parsers_total (HX : Hex) (HL : HexLaws HX) f body :
  rust_slice body ->
  CommitParser.parse_commit f body <> OutOfFuel /\ TreeParser.parse_tree f body <> OutOfFuel.
Proof.
  intros Hr. split; [apply CommitParser.parse_commit_fuel|].
  apply (TreeParser.entries_loop_fuel _ f [] body []); [done|apply TreeParser.tree_ok_nil|lia].
Qed.

Lemma object_parsers_total_witness :
  rust_slice example_tree /\
  TreeParser.parse_tree (H := rfc_hex) Sha1 example_tree <> OutOfFuel.
Proof.
  assert (rust_slice example_tree) as Hr by (vm_compute; discriminate).
  split; [exact Hr|].
  apply (object_parsers_total rfc_hex rfc_hex_laws Sha1 example_tree Hr).
Defined.
