(* ===== verification/GitResources.v ===== *)
(** Resource accounting of the Git reader: [crates/amiss-git/src/resources.rs].
    One meter for compressed objects and one for pack indexes; a member is
    charged once. *)
From Stdlib Require Import Strings.Byte Strings.String Lia.
From stdpp Require Import base list numbers gmap fin_maps.
From S2P Require Import Prelude Codec WireModel GitObject.
Import GitError.

(** A map keyed by the bytes of a [str]; [BTreeSet<Box<str>>] is its domain. *)
Abbreviation str_set := (gset bytes).

Record GitLimits := mkGitLimits {
  inflated_object_bytes : u64;
  compressed_stream_bytes : u64;
  aggregate_compressed_bytes : u64;
  pack_directory_entries : u64;
  pack_files : u64;
  pack_index_bytes : u64;
  aggregate_pack_index_bytes : u64;
  delta_depth : u64;
  index_bytes : u64;
  tree_entries_per_snapshot : u64;
  raw_path_bytes : u64
}.

(** [GitLimits::CONTRACT]. *)
Definition CONTRACT : GitLimits := {|
  inflated_object_bytes := 134217728;
  compressed_stream_bytes := 268435456;
  aggregate_compressed_bytes := 2147483648;
  pack_directory_entries := 8192;
  pack_files := 4096;
  pack_index_bytes := 536870912;
  aggregate_pack_index_bytes := 1073741824;
  delta_depth := 128;
  index_bytes := 268435456;
  tree_entries_per_snapshot := 1000000;
  raw_path_bytes := 4096
|}.

Record ValueCap := mkValueCap { cap_resource : ResourceName; cap_limit : u64 }.

Definition crossing (resource : ResourceName) (configured_limit observed : u64) : GitError.t :=
  ResourceLimit resource configured_limit observed.

Record ByteMeter := mkByteMeter { total : u64; charged : str_set }.
Definition meter_default : ByteMeter := mkByteMeter 0 ∅.

(** [charge], on the meter it mutates. *)
Definition charge (member : bytes) (nbytes : u64) (member_resource : ResourceName)
    (member_limit : u64) (aggregate_resource : ResourceName) (aggregate_limit : u64)
    : sres ByteMeter unit GitError.t :=
  fun meter =>
    if nbytes >? member_limit then (Err (crossing member_resource member_limit nbytes), meter)
    else if bool_decide (member ∈ charged meter) then (Ok tt, meter)
    else
      let t := sat_add (total meter) nbytes in
      if t >? aggregate_limit then (Err (crossing aggregate_resource aggregate_limit t), meter)
      else (Ok tt, mkByteMeter t ({[member]} ∪ charged meter)).

Section Resources.
Context `{Zlib}.

Record GitResources := mkGitResources {
  limits : GitLimits;
  compressed : ByteMeter;
  pack_indexes : ByteMeter;
  loose_inflater : option Decompress
}.

Definition new_resources (l : GitLimits) : GitResources :=
  mkGitResources l meter_default meter_default None.

Definition with_compressed (r : GitResources) (m : ByteMeter) : GitResources :=
  mkGitResources (limits r) m (pack_indexes r) (loose_inflater r).
Definition with_pack_indexes (r : GitResources) (m : ByteMeter) : GitResources :=
  mkGitResources (limits r) (compressed r) m (loose_inflater r).
Definition with_inflater (r : GitResources) (d : Decompress) : GitResources :=
  mkGitResources (limits r) (compressed r) (pack_indexes r) (Some d).

(** [GitResources::charge_compressed]. *)
Definition charge_compressed (member : bytes) (nbytes : u64) : sres GitResources unit GitError.t :=
  fun r =>
    let '(out, m) := charge member nbytes GitCompressedObjectBytes
      (compressed_stream_bytes (limits r)) AggregateGitCompressedObjectBytesPerEvaluation
      (aggregate_compressed_bytes (limits r)) (compressed r) in
    (out, with_compressed r m).

(** [GitResources::charge_index]. *)
Definition charge_index (member : bytes) (nbytes : u64) : sres GitResources unit GitError.t :=
  fun r =>
    let '(out, m) := charge member nbytes GitPackIndexBytes
      (pack_index_bytes (limits r)) AggregateGitPackIndexBytes
      (aggregate_pack_index_bytes (limits r)) (pack_indexes r) in
    (out, with_pack_indexes r m).
End Resources.

(** ** The ledger a meter stands for *)

(** A meter remembers the total and the members; the sizes it admitted are a
    map from member to bytes. *)
Definition ledger_sum (ledger : gmap bytes Z) : Z := map_fold (fun _ n acc => n + acc) 0 ledger.

Record meter_refines (limit : Z) (m : ByteMeter) (ledger : gmap bytes Z) : Prop := {
  refines_total : total m = ledger_sum ledger;
  refines_members : charged m = dom ledger;
  refines_limit : total m <= limit
}.

(** The abstract accounting: the first size of a member counts, later ones do
    not. *)
Definition ledger_charge (member : bytes) (nbytes : Z) (ledger : gmap bytes Z) : gmap bytes Z :=
  match ledger !! member with Some _ => ledger | None => <[member := nbytes]> ledger end.

Lemma ledger_sum_insert member n ledger :
  ledger !! member = None -> ledger_sum (<[member := n]> ledger) = n + ledger_sum ledger.
Proof. intros. unfold ledger_sum. rewrite map_fold_insert_L; [done|intros; lia|done]. Qed.

Section ChargeLemmas.
Context (member : bytes) (nbytes : Z) (mr : ResourceName) (ml : Z) (ar : ResourceName) (al : Z).
Abbreviation go := (charge member nbytes mr ml ar al).

(** The three results of a charge. *)
Lemma charge_refines m ledger :
  0 <= nbytes -> al < u64_max -> meter_refines al m ledger ->
  match go m with
  | (Ok _, m') =>
      nbytes <= ml /\ meter_refines al m' (ledger_charge member nbytes ledger)
  | (Err e, m') =>
      m' = m /\
      (nbytes > ml /\ e = ResourceLimit mr ml nbytes \/
       nbytes <= ml /\ ledger !! member = None /\
       exists t, t > al /\ e = ResourceLimit ar al t)
  | (OutOfFuel, _) => False
  end.
Proof.
  intros Hn Hal [Ht Hm Hl]. unfold charge, ledger_charge, crossing.
  rewrite !Z.gtb_ltb. destruct (Z.ltb_spec ml nbytes); [naive_solver lia|].
  case_bool_decide as Hin.
  - rewrite Hm in Hin. apply elem_of_dom in Hin as [x Hx]. rewrite Hx. done.
  - rewrite Hm in Hin. apply not_elem_of_dom in Hin. rewrite Hin.
    destruct (Z.ltb_spec al (sat_add (total m) nbytes)).
    + split; [done|]. right. split; [lia|]. split; [done|]. exists (sat_add (total m) nbytes).
      split; [lia|done].
    + split; [lia|].
      assert (sat_add (total m) nbytes = total m + nbytes) as Hs by (by apply (sat_add_exact _ _ al)).
      split; simpl; [rewrite Hs, ledger_sum_insert by done; lia|rewrite dom_insert_L, Hm; done|lia].
Qed.
End ChargeLemmas.

(** Charging a sequence of members in order, stopping at the first error. *)
Fixpoint charge_all (mr : ResourceName) (ml : Z) (ar : ResourceName) (al : Z)
    (members : list (bytes * Z)) : sres ByteMeter unit GitError.t :=
  match members with
  | [] => sret tt
  | (member, n) :: rest =>
      let! _ := charge member n mr ml ar al in charge_all mr ml ar al rest
  end.

(** ** Properties *)

(** a meter is an exact ledger of the members it admitted: after any
    sequence of charges from an empty meter, successful or stopped by an error,
    the total is the sum of the first size of every admitted member, never
    more than the aggregate limit, and no saturation took place. *)
Theorem meter_exact mr ml ar al members :
  0 <= al < u64_max -> Forall (fun m => 0 <= m.2) members ->
  exists ledger,
    meter_refines al (charge_all mr ml ar al members meter_default).2 ledger /\
    ((charge_all mr ml ar al members meter_default).1 = Ok tt ->
     ledger = fold_left (fun l m => ledger_charge m.1 m.2 l) members ∅).
Proof.
  intros Hal Hm.
  assert (forall m ledger, meter_refines al m ledger ->
    exists ledger', meter_refines al (charge_all mr ml ar al members m).2 ledger' /\
    ((charge_all mr ml ar al members m).1 = Ok tt ->
     ledger' = fold_left (fun l m => ledger_charge m.1 m.2 l) members ledger)) as Hgen.
  { induction Hm as [|[member n] rest Hn Hm IH]; intros m ledger Hr; simpl; [by exists ledger|].
    pose proof (charge_refines member n mr ml ar al m ledger Hn ltac:(lia) Hr) as Hc.
    unfold sbind. destruct (charge member n mr ml ar al m) as [[[]|e|] m'].
    - destruct Hc as [_ Hc]. by apply IH.
    - destruct Hc as [-> _]. exists ledger. split; [done|]. done.
    - done. }
  apply (Hgen meter_default ∅). split; [done|done|simpl; lia].
Qed.

Lemma meter_exact_witness :
  (0 <= 10 < u64_max /\ Forall (fun m : bytes * Z => 0 <= m.2) [(b_ "a", 4); (b_ "a", 9); (b_ "b", 6)]) /\
  exists ledger,
    meter_refines 10 (charge_all GitPackIndexBytes 9 AggregateGitPackIndexBytes 10
      [(b_ "a", 4); (b_ "a", 9); (b_ "b", 6)] meter_default).2 ledger.
Proof.
  assert (0 <= 10 < u64_max) as H1 by (vm_compute; split; [discriminate|reflexivity]).
  assert (Forall (fun m : bytes * Z => 0 <= m.2) [(b_ "a", 4); (b_ "a", 9); (b_ "b", 6)]) as H2
    by (repeat constructor; simpl; lia).
  split; [exact (conj H1 H2)|].
  destruct (meter_exact GitPackIndexBytes 9 AggregateGitPackIndexBytes 10 _ H1 H2) as (l & Hl & _).
  exists l. exact Hl.
Defined.

(** a failed charge changes nothing and says which limit was crossed with the
    value that crossed it; charging an admitted member again is free. *)
Theorem charge_outcomes member nbytes mr ml ar al m ledger :
  0 <= nbytes -> al < u64_max -> meter_refines al m ledger ->
  (forall e m', charge member nbytes mr ml ar al m = (Err e, m') ->
     m' = m /\
     (nbytes > ml /\ e = ResourceLimit mr ml nbytes \/
      exists t, t > al /\ e = ResourceLimit ar al t)) /\
  (is_Some (ledger !! member) -> nbytes <= ml ->
     charge member nbytes mr ml ar al m = (Ok tt, m)).
Proof.
  intros Hn Hal Hr. pose proof (charge_refines member nbytes mr ml ar al m ledger Hn Hal Hr) as Hc.
  split.
  - intros e m' He. rewrite He in Hc. naive_solver.
  - intros Hin Hle. unfold charge. rewrite Z.gtb_ltb.
    destruct (Z.ltb_spec ml nbytes); [lia|].
    rewrite bool_decide_true; [done|]. rewrite (refines_members _ _ _ Hr). by apply elem_of_dom.
Qed.

Lemma charge_outcomes_witness :
  meter_refines 10 meter_default ∅ /\
  charge (b_ "a") 11 GitPackIndexBytes 10 AggregateGitPackIndexBytes 10 meter_default
    = (Err (ResourceLimit GitPackIndexBytes 10 11), meter_default) /\
  meter_default = meter_default.
Proof.
  assert (meter_refines 10 meter_default ∅) as Hr by (split; [reflexivity|reflexivity|simpl; lia]).
  assert (charge (b_ "a") 11 GitPackIndexBytes 10 AggregateGitPackIndexBytes 10 meter_default
    = (Err (ResourceLimit GitPackIndexBytes 10 11), meter_default)) as He by reflexivity.
  split; [exact Hr|]. split; [exact He|].
  apply (proj1 (charge_outcomes (b_ "a") 11 GitPackIndexBytes 10 AggregateGitPackIndexBytes 10
    meter_default ∅ ltac:(lia) ltac:(unfold_widths; lia) Hr) _ _ He).
Defined.
