(* ===== verification/GitLoose.v ===== *)
(** Loose objects: [crates/amiss-git/src/object/loose.rs]. The zlib inflater is
    driven in small steps: the header byte by byte, the body into a buffer of
    the declared size, one probe byte for what must be the end. *)
From Stdlib Require Import Strings.Byte Strings.String Lia.
From stdpp Require Import base list numbers.
From S2P Require Import Prelude Codec WireModel GitObject GitResources.
Import GitError.

Definition MAX_SAFE : u64 := 9007199254740991.

(** The front of a buffer overwritten by the bytes a call wrote. *)
Definition write_front (buf written : bytes) : bytes := written ++ drop (length written) buf.

Section Loose.
Context `{Hex, Hashes, Zlib}.

(** [ZlibStream]; [compressed] is the borrowed input, fixed for the stream. *)
Record ZlibStream := mkStream {
  inflater : Decompress;
  consumed : usize;
  finished : bool
}.

Section Stream.
Variable compressed : bytes.

Abbreviation stream A := (sres ZlibStream A GitError.t).

(** One turn of [read_zlib]'s loop: [Some] is [return Ok(written)] with the
    buffer filled so far, [None] goes round again. *)
Definition read_step (output : bytes) : stream (option (usize * bytes)) :=
  fun st =>
    match slice_from compressed (consumed st) with
    | None => (Err ObjectUnreadable, st)
    | Some input =>
        let input_before := zlib_total_in (inflater st) in
        let output_before := zlib_total_out (inflater st) in
        let flush := if bytes_eqb input [] then Flush.Finish else Flush.NoFlush in
        match zlib_decompress (inflater st) input (len output) flush with
        | (None, d) => (Err ObjectUnreadable, mkStream d (consumed st) (finished st))
        | (Some (status, w), d) =>
            let st := mkStream d (consumed st) (finished st) in
            match checked_sub (zlib_total_in d) input_before,
                  checked_sub (zlib_total_out d) output_before with
            | Some c, Some written =>
                match checked_add (consumed st) c with
                | None => (Err ObjectUnreadable, st)
                | Some consumed' =>
                    let done := match status with Status.StreamEnd => true | _ => false end in
                    let st := mkStream d consumed' done in
                    if negb (written =? 0) || done || bytes_eqb input []
                    then (Ok (Some (written, write_front output w)), st)
                    else if c =? 0 then (Err ObjectUnreadable, st)
                    else (Ok None, st)
                end
            | _, _ => (Err ObjectUnreadable, st)
            end
        end
    end.

Fixpoint read_loop (fuel : nat) (output : bytes) : stream (usize * bytes) :=
  match fuel with
  | O => slift OutOfFuel
  | S fuel =>
      let! r := read_step output in
      match r with
      | Some out => sret out
      | None => read_loop fuel output
      end
  end.

(** [read_zlib]: the number of bytes written and the buffer. Every turn that
    goes round consumed input, so the input's length bounds the turns. *)
Definition read_zlib (output : bytes) : stream (usize * bytes) :=
  fun st =>
    if bytes_eqb output [] || finished st then (Ok (0, output), st)
    else read_loop (length compressed + 2) output st.

Definition next_byte : stream Byte.byte :=
  let! (n, buf) := read_zlib [x00] in
  if n =? 1 then slift (ok_or (head buf) ObjectUnreadable) else sfail ObjectUnreadable.

Fixpoint fill_loop (fuel : nat) (filled : usize) (body : bytes) : stream bytes :=
  match fuel with
  | O => slift OutOfFuel
  | S fuel =>
      if filled <? len body then
        let! target := slift (ok_or (slice_from body filled) ObjectUnreadable) in
        let! (read, target) := read_zlib target in
        if read =? 0 then sfail ObjectUnreadable
        else fill_loop fuel (sat_add filled read) (take (Z.to_nat filled) body ++ target)
      else sret body
  end.

Definition fill_exact (body : bytes) : stream bytes := fill_loop (S (length body)) 0 body.

Definition kind_of_token (token : bytes) : option ObjectKind.t :=
  if bytes_eqb token (b_ "blob") then Some ObjectKind.Blob
  else if bytes_eqb token (b_ "commit") then Some ObjectKind.Commit
  else if bytes_eqb token (b_ "tag") then Some ObjectKind.Tag
  else if bytes_eqb token (b_ "tree") then Some ObjectKind.Tree
  else None.

(** The first loop of [read_header]: a token of at most six bytes and the
    space that ends it. *)
Fixpoint token_loop (fuel : nat) (raw token : bytes) : stream (ObjectKind.t * bytes) :=
  match fuel with
  | O => slift OutOfFuel
  | S fuel =>
      let! byte := next_byte in
      let raw := raw ++ [byte] in
      if beqb byte " "%byte then
        let! kind := slift (ok_or (kind_of_token token) ObjectUnreadable) in
        sret (kind, raw)
      else
        let token := token ++ [byte] in
        if len token >? 6 then sfail ObjectUnreadable else token_loop fuel raw token
  end.

Record digits_state := mkDigits {
  value : u64;
  digits : usize;
  leading_zero : bool
}.

(** The second loop: decimal digits up to NUL, without a leading zero, cut
    off once the value exceeds the largest exact JSON integer. The flag of
    the result is [saturated]. *)
Fixpoint size_loop (fuel : nat) (raw : bytes) (d : digits_state)
    : stream (digits_state * bool * bytes) :=
  match fuel with
  | O => slift OutOfFuel
  | S fuel =>
      let! byte := next_byte in
      let raw := raw ++ [byte] in
      if beqb byte x00 then sret (d, false, raw)
      else if negb (is_ascii_digit byte) || leading_zero d then sfail ObjectUnreadable
      else
        let lz := if (digits d =? 0) && beqb byte "0"%byte then true else leading_zero d in
        let v := sat_add (sat_mul (value d) 10) ((u8 byte - 48) mod 256) in
        if v >? MAX_SAFE then sret (mkDigits MAX_SAFE (sat_add (digits d) 1) lz, true, raw)
        else size_loop fuel raw (mkDigits v (sat_add (digits d) 1) lz)
  end.

Record Header := mkHeader { h_kind : ObjectKind.t; h_size : usize; h_raw : bytes }.

Definition read_header (inflated_cap : u64) (value_cap : option ValueCap) : stream Header :=
  let! (kind, raw) := token_loop 8 [] [] in
  let! (d, saturated, raw) := size_loop 20 raw (mkDigits 0 0 false) in
  if (digits d =? 0) && negb saturated then sfail ObjectUnreadable
  else
    let! _ :=
      slift match value_cap with
            | Some cap =>
                if value d >? cap_limit cap
                then Err (ResourceLimit (cap_resource cap) (cap_limit cap) (value d))
                else Ok tt
            | None => Ok tt
            end in
    if value d >? inflated_cap
    then sfail (ResourceLimit GitObjectBytes inflated_cap (value d))
    else
      let! size := slift (usize_try_from (value d) ObjectUnreadable) in
      sret (mkHeader kind size raw).

(** The body of [decode_loose_reusing] once the stream is set up. *)
Definition decode_stream (f : ObjectFormat) (oid : Oid.t) (inflated_cap : u64)
    (value_cap : option ValueCap) : stream Object :=
  let! header := read_header inflated_cap value_cap in
  let! body := fill_exact (repeat x00 (Z.to_nat (h_size header))) in
  let! (probed, _) := read_zlib [x00] in
  if negb (probed =? 0) then sfail ObjectUnreadable
  else
    let! st := sget in
    if negb (zlib_total_in (inflater st) =? len compressed) then sfail ObjectUnreadable
    else
      let! _ := slift (verify_oid f oid (h_raw header) body) in
      sret (mkObject (h_kind header) body).
End Stream.

(** [decode_loose_reusing]: the inflater is reset first and left in whatever
    state the stream ended in. *)
Definition decode_loose_reusing (compressed : bytes) (f : ObjectFormat) (oid : Oid.t)
    (inflated_cap : u64) (value_cap : option ValueCap) : sres Decompress Object GitError.t :=
  fun d =>
    let '(out, st) := decode_stream compressed f oid inflated_cap value_cap
                        (mkStream (zlib_reset d) 0 false) in
    (out, inflater st).

Definition decode_loose (compressed : bytes) (f : ObjectFormat) (oid : Oid.t)
    (inflated_cap : u64) (value_cap : option ValueCap) : result Object :=
  (decode_loose_reusing compressed f oid inflated_cap value_cap zlib_new).1.
End Loose.

(** ** Lemmas *)

(** The header Git hashes in front of a body. *)
Definition object_header (kind : ObjectKind.t) (size : u64) : bytes :=
  ObjectKind.as_ref kind ++ " "%byte :: fmt_dec size ++ [x00].

Lemma kind_of_token_Some t k : kind_of_token t = Some k -> t = ObjectKind.as_ref k.
Proof.
  unfold kind_of_token. repeat case_match; intros; simplify_eq; by apply bytes_eqb_eq.
Qed.

Lemma write_front_len buf w : len w <= len buf -> len (write_front buf w) = len buf.
Proof. unfold write_front, len. rewrite length_app, length_drop. lia. Qed.

Section LooseLemmas.
Context `{HX : Hex, HH : Hashes, ZZ : Zlib}.
Variable compressed : bytes.

Lemma token_loop_sound fuel token st k raw st' :
  token_loop compressed fuel token token st = (Ok (k, raw), st') ->
  raw = ObjectKind.as_ref k ++ [" "%byte].
Proof.
  revert token st. induction fuel as [|fuel IH]; intros token st Ht; [done|].
  cbn [token_loop] in Ht. apply sbind_Ok in Ht as (b & s1 & _ & Ht).
  destruct (beqb b " "%byte) eqn:Eb.
  - apply beqb_eq in Eb as ->. apply sbind_Ok in Ht as (k' & s2 & Hk & Ht).
    unfold slift in Hk. injection Hk as Hk <-. apply ok_or_Ok, kind_of_token_Some in Hk as ->.
    by injection Ht as <- <- _.
  - destruct (_ >? 6); [done|]. by eapply IH.
Qed.

(** What the digits read so far spell. *)
Definition digits_inv (text : bytes) (d : digits_state) : Prop :=
  0 <= value d <= MAX_SAFE /\
  (digits d = 0 /\ value d = 0 /\ text = [] /\ leading_zero d = false \/
   digits d = 1 /\ value d = 0 /\ text = fmt_dec 0 /\ leading_zero d = true \/
   0 < digits d /\ 0 < value d /\ text = fmt_dec (value d) /\ leading_zero d = false
     /\ 10 ^ (digits d - 1) <= value d).

Lemma sat_digit v b :
  0 <= v <= MAX_SAFE -> is_ascii_digit b = true ->
  sat_add (sat_mul v 10) ((u8 b - 48) mod 256) = v * 10 + (u8 b - 48).
Proof.
  intros Hv Hb. apply digit_char_u8 in Hb as [_ Hd]. rewrite Z.mod_small by lia.
  rewrite sat_mul_small, sat_add_small; [done|..]; unfold MAX_SAFE in Hv; unfold_widths; lia.
Qed.

(** One accepted digit. *)
Lemma digits_inv_step text d b :
  digits_inv text d -> is_ascii_digit b = true -> leading_zero d = false ->
  digits d < 100 -> value d * 10 + (u8 b - 48) <= MAX_SAFE ->
  digits_inv (text ++ [b])
    (mkDigits (value d * 10 + (u8 b - 48)) (sat_add (digits d) 1)
       (if (digits d =? 0) && beqb b "0"%byte then true else leading_zero d)).
Proof.
  intros [Hv Hd] Hb Hlz Hlt Hmax. destruct (digit_char_u8 b Hb) as [Hbc Hbd].
  assert (0 <= digits d) as Hd0 by (destruct Hd as [?|[?|?]]; lia).
  rewrite sat_add_small by (unfold_widths; lia). rewrite Hlz.
  split; simpl; [lia|].
  destruct Hd as [(Hd & Hv0 & -> & _)|[(_ & _ & _ & Hl)|(Hd & Hvp & -> & _ & Hpow)]]; [|congruence|].
  - rewrite Hd, Hv0. destruct (beqb b "0"%byte) eqn:E0; simpl.
    + apply beqb_eq in E0 as ->. right. left. done.
    + right. right. assert (u8 b <> 48).
      { intros H48. apply (u8_inj b "0"%byte) in H48 as ->. by rewrite beqb_refl in E0. }
      replace (0 * 10 + (u8 b - 48)) with (u8 b - 48) by lia.
      rewrite fmt_dec_digit by done. rewrite <- Hbc. simpl. repeat split; lia.
  - destruct (Z.eqb_spec (digits d) 0); [lia|]. cbn [andb]. right. right.
    rewrite fmt_dec_snoc by (unfold MAX_SAFE in Hv; lia). rewrite <- Hbc.
    replace (digits d + 1 - 1) with (digits d - 1 + 1) by lia.
    rewrite Z.pow_add_r, Z.pow_1_r by lia. repeat split; lia.
Qed.

Lemma size_loop_sound fuel pfx text d st d' raw st' :
  digits_inv text d -> digits d + Z.of_nat fuel < 100 ->
  size_loop compressed fuel (pfx ++ text) d st = (Ok (d', false, raw), st') ->
  exists text', raw = pfx ++ text' ++ [x00] /\ digits_inv text' d'.
Proof.
  revert text d st. induction fuel as [|fuel IH]; intros text d st Hi Hf Hs; [done|].
  cbn [size_loop] in Hs. apply sbind_Ok in Hs as (b & s1 & _ & Hs).
  destruct (beqb b x00) eqn:E0.
  - apply beqb_eq in E0 as ->. injection Hs as <- <- _.
    exists text. by rewrite <- app_assoc.
  - destruct (negb (is_ascii_digit b) || leading_zero d) eqn:Ed; [done|]. bool_prop.
    rewrite sat_digit in Hs by (apply Hi || done).
    rewrite Z.gtb_ltb in Hs. destruct (Z.ltb_spec MAX_SAFE (value d * 10 + (u8 b - 48))); [done|].
    rewrite <- app_assoc in Hs. eapply IH; [..|exact Hs].
    + apply digits_inv_step; try done; lia.
    + simpl. assert (0 <= digits d) by (destruct Hi as [_ [?|[?|?]]]; lia).
      rewrite sat_add_small by (unfold_widths; lia). lia.
Qed.

Lemma size_loop_saturated fuel raw d st d' raw' st' :
  size_loop compressed fuel raw d st = (Ok (d', true, raw'), st') -> value d' = MAX_SAFE.
Proof.
  revert raw d st. induction fuel as [|fuel IH]; intros raw d st Hs; [done|].
  cbn [size_loop] in Hs. apply sbind_Ok in Hs as (b & s3 & _ & Hs).
  destruct (beqb b x00); [done|]. destruct (_ || _); [done|].
  destruct (_ >? MAX_SAFE); [|by eapply IH]. by injection Hs as <- _ _.
Qed.

(** A header that is accepted is the canonical spelling of its kind and size,
    within both caps. *)
Lemma read_header_sound cap vcap st h st' :
  cap < MAX_SAFE -> read_header compressed cap vcap st = (Ok h, st') ->
  h_raw h = object_header (h_kind h) (h_size h) /\ 0 <= h_size h <= cap /\
  (forall v, vcap = Some v -> h_size h <= cap_limit v).
Proof.
  intros Hcap Hr. unfold read_header in Hr.
  apply sbind_Ok in Hr as ([k raw0] & s1 & Ht & Hr). apply token_loop_sound in Ht as ->.
  apply sbind_Ok in Hr as ([[d sat] raw1] & s2 & Hs & Hr).
  destruct ((digits d =? 0) && negb sat) eqn:Ed; [done|].
  apply sbind_Ok in Hr as (u & s3 & Hv & Hr). injection Hv as Hv <-.
  rewrite Z.gtb_ltb in Hr. destruct (Z.ltb_spec cap (value d)); [done|].
  apply sbind_Ok in Hr as (size & s4 & Hz & Hr). injection Hz as Hz <-.
  injection Hr as <- <-. simpl.
  unfold usize_try_from in Hz. destruct (value d <=? usize_max); [|done]. injection Hz as <-.
  destruct sat; [apply size_loop_saturated in Hs; lia|].
  replace (ObjectKind.as_ref k ++ [" "%byte]) with ((ObjectKind.as_ref k ++ [" "%byte]) ++ []) in Hs
    by apply app_nil_r.
  apply size_loop_sound in Hs as (text & -> & Hi); [|split; [done|left; done]|done].
  rewrite andb_true_r in Ed. bool_prop.
  destruct Hi as [Hval Hi]. assert (text = fmt_dec (value d)) as ->.
  { destruct Hi as [?|[(_ & -> & -> & _)|(_ & _ & -> & _)]]; [lia|done|done]. }
  split; [|split; [lia|]].
  - unfold object_header. by rewrite <- !app_assoc.
  - intros v ->. rewrite Z.gtb_ltb in Hv. destruct (Z.ltb_spec (cap_limit v) (value d)); [done|lia].
Qed.

(** *** Termination and buffer lengths, under the laws of the inflater *)

Context {ZL : ZlibLaws ZZ}.

Definition stream_ok (st : ZlibStream) : Prop := 0 <= consumed st <= len compressed.

(** A computation that keeps the stream in bounds, never runs out of fuel and
    gives a result satisfying [Q]. *)
Abbreviation safe := (triple (E := GitError.t) stream_ok).

Definition read_result (output : bytes) (out : usize * bytes) : Prop :=
  0 <= out.1 <= len output /\ len out.2 = len output.

(** A turn returns, or consumes at least one byte and goes round. *)
Lemma read_step_spec output st :
  stream_ok st -> output <> [] ->
  match read_step compressed output st with
  | (Ok (Some out), st') => stream_ok st' /\ read_result output out
  | (Ok None, st') => stream_ok st' /\ consumed st < consumed st'
  | (Err _, st') => stream_ok st'
  | (OutOfFuel, _) => False
  end.
Proof.
  unfold read_step, stream_ok. intros Hst Hout.
  destruct (slice_from compressed (consumed st)) as [input|] eqn:Ei; [|done].
  apply slice_from_spec in Ei as (p & Heq & Hp).
  assert (len compressed = consumed st + len input) as Hlen by (rewrite Heq, len_app; lia).
  destruct (zlib_decompress _ _ _ _) as [[[status w]|] d] eqn:Ez; [|done].
  apply zlib_decompress_counts in Ez as (Hin & Hw & Hroom); [|apply len_nonneg].
  pose proof (len_nonneg w).
  unfold checked_sub. destruct (Z.leb_spec (zlib_total_in (inflater st)) (zlib_total_in d)); [|lia].
  destruct (Z.leb_spec (zlib_total_out (inflater st)) (zlib_total_out d)); [|lia].
  simpl. destruct (checked_add _ _) as [c'|] eqn:Ec; [|simpl; lia].
  apply checked_add_Some in Ec as [-> _].
  destruct (_ || bytes_eqb input []) eqn:Edone; simpl.
  - split; [lia|]. split; simpl; [lia|]. apply write_front_len. lia.
  - destruct (Z.eqb_spec (zlib_total_in d - zlib_total_in (inflater st)) 0); simpl; [lia|].
    split; lia.
Qed.

Lemma read_loop_safe fuel output st :
  stream_ok st -> output <> [] -> len compressed - consumed st + 1 < Z.of_nat fuel ->
  stream_ok (read_loop compressed fuel output st).2 /\
  match (read_loop compressed fuel output st).1 with
  | Ok out => read_result output out | Err _ => True | OutOfFuel => False end.
Proof.
  revert st. induction fuel as [|fuel IH]; intros st Hst Hout Hf; [destruct Hst; lia|].
  cbn [read_loop]. unfold sbind. pose proof (read_step_spec output st Hst Hout) as Hs.
  destruct (read_step compressed output st) as [[[out|]|e|] st1]; simpl in *; [naive_solver| |done|done].
  destruct Hs as [Hst1 Hc]. apply IH; [done|done|lia].
Qed.

Lemma read_zlib_safe output : safe (read_result output) (read_zlib compressed output).
Proof.
  intros st Hst. unfold read_zlib. destruct (bytes_eqb output []) eqn:E; simpl.
  - apply bytes_eqb_eq in E as ->. split; [done|]. split; unfold len; simpl; lia.
  - apply bytes_eqb_neq in E. destruct (finished st); simpl.
    + split; [done|]. split; simpl; [pose proof (len_nonneg output); lia|done].
    + apply read_loop_safe; [done|done|]. destruct Hst. unfold len in *. lia.
Qed.

Lemma next_byte_safe : safe (fun _ => True) (next_byte compressed).
Proof.
  eapply triple_bind; [apply read_zlib_safe|]. intros [n buf] _.
  destruct (n =? 1); [|apply triple_fail]. apply triple_lift; [apply ok_or_fuel|done].
Qed.

Lemma token_loop_safe fuel raw token :
  6 - len token < Z.of_nat fuel -> len token <= 6 ->
  safe (fun _ => True) (token_loop compressed fuel raw token).
Proof.
  revert raw token. induction fuel as [|fuel IH]; intros raw token Hf Ht; [lia|].
  cbn [token_loop]. eapply triple_bind; [apply next_byte_safe|]. intros b _.
  destruct (beqb b _).
  - eapply triple_bind; [apply (triple_lift _ (fun _ => True)); [apply ok_or_fuel|done]|].
    intros k _. by apply triple_ret.
  - rewrite Z.gtb_ltb. destruct (Z.ltb_spec 6 (len (token ++ [b]))); [apply triple_fail|].
    rewrite len_snoc in *. apply IH; rewrite ?len_snoc; lia.
Qed.

(** Sixteen digits are the most that stay below [MAX_SAFE]. *)
Lemma digits_inv_bound text d : digits_inv text d -> 0 <= digits d <= 16.
Proof.
  unfold digits_inv, MAX_SAFE. intros [Hv Hd]. destruct Hd as [?|[?|(Hd & _ & _ & _ & Hp)]]; [lia|lia|].
  split; [lia|]. destruct (Z.le_gt_cases (digits d) 16); [done|].
  assert (10 ^ 16 <= 10 ^ (digits d - 1)) by (apply Z.pow_le_mono_r; lia). lia.
Qed.

Lemma size_loop_safe fuel raw text d :
  digits_inv text d -> 17 < digits d + Z.of_nat fuel ->
  safe (fun '(d', _, _) => 0 <= value d' <= MAX_SAFE) (size_loop compressed fuel raw d).
Proof.
  revert raw text d. induction fuel as [|fuel IH]; intros raw text d Hi Hf;
    pose proof (digits_inv_bound text d Hi) as Hb; [lia|].
  cbn [size_loop]. eapply triple_bind; [apply next_byte_safe|]. intros b _.
  destruct (beqb b x00); [apply triple_ret; apply Hi|].
  destruct (negb (is_ascii_digit b) || leading_zero d) eqn:Ed; [apply triple_fail|]. bool_prop.
  rewrite sat_digit by (apply Hi || done). rewrite Z.gtb_ltb.
  destruct (Z.ltb_spec MAX_SAFE (value d * 10 + (u8 b - 48))); [by apply triple_ret|].
  eapply (IH _ (text ++ [b])).
  - apply digits_inv_step; try done; lia.
  - simpl. rewrite sat_add_small by (unfold_widths; lia). lia.
Qed.

Lemma read_header_safe cap vcap :
  safe (fun h => 0 <= h_size h <= cap) (read_header compressed cap vcap).
Proof.
  unfold read_header. eapply triple_bind; [apply token_loop_safe; unfold len; simpl; lia|].
  intros [k raw] _. eapply triple_bind.
  { apply (size_loop_safe _ _ []); [split; [done|left; done]|simpl; lia]. }
  intros [[d sat] raw'] Hv. destruct (_ && _); [apply triple_fail|].
  eapply triple_bind; [apply (triple_lift _ (fun _ => True)); [by repeat case_match|done]|].
  intros _ _. rewrite Z.gtb_ltb. destruct (Z.ltb_spec cap (value d)); [apply triple_fail|].
  eapply triple_bind; [apply (triple_lift _ (fun size => size = value d))|].
  - unfold usize_try_from. by case_match.
  - unfold usize_try_from. intros a. case_match; naive_solver.
  - intros a ->. apply triple_ret. simpl. lia.
Qed.

Lemma fill_loop_safe fuel filled body :
  0 <= filled <= len body -> rust_slice body -> len body - filled < Z.of_nat fuel ->
  safe (fun b => len b = len body) (fill_loop compressed fuel filled body).
Proof.
  revert filled body. induction fuel as [|fuel IH]; intros filled body Hf Hr Hfuel; [lia|].
  cbn [fill_loop]. destruct (Z.ltb_spec filled (len body)); [|by apply triple_ret].
  eapply triple_bind; [apply (triple_lift _ (fun t => len t = len body - filled)); [apply ok_or_fuel|]|].
  { intros t Ht%ok_or_Ok. by apply slice_len in Ht as [? _]. }
  intros t Ht. eapply triple_bind; [apply read_zlib_safe|]. intros [n t'] [Hn Ht']. simpl in *.
  destruct (Z.eqb_spec n 0); [apply triple_fail|].
  assert (len (take (Z.to_nat filled) body ++ t') = len body) as Hlen.
  { rewrite len_app, len_take_min by lia. lia. }
  rewrite <- Hlen. unfold rust_slice in Hr.
  rewrite sat_add_small by (unfold_widths; lia). apply IH; unfold rust_slice; rewrite ?Hlen; lia.
Qed.

Lemma decode_stream_safe f oid cap vcap :
  cap <= isize_max ->
  safe (fun _ => True) (decode_stream compressed f oid cap vcap).
Proof.
  intros Hcap. eapply triple_bind; [apply read_header_safe|]. intros h Hh. cbv beta in Hh.
  assert (len (repeat x00 (Z.to_nat (h_size h))) = h_size h) as Hlen
    by (unfold len; rewrite repeat_length; lia).
  eapply triple_bind; [apply fill_loop_safe; unfold rust_slice; rewrite ?Hlen; try lia|].
  { unfold len in Hlen. lia. }
  intros body _. eapply triple_bind; [apply read_zlib_safe|]. intros [n buf] _.
  destruct (negb _); [apply triple_fail|].
  apply (triple_bind _ (fun _ => True)); [intros st Hst; by split|]. intros st _.
  destruct (negb _); [apply triple_fail|].
  eapply triple_bind; [apply (triple_lift _ (fun _ => True)); [|done]|].
  - destruct (verify_oid_cases f oid (h_raw h) body) as [-> | ->]; done.
  - intros _ _. by apply triple_ret.
Qed.

(** What a decoded object went through. *)
Lemma decode_stream_sound f oid cap vcap st o st' :
  cap < MAX_SAFE -> stream_ok st ->
  decode_stream compressed f oid cap vcap st = (Ok o, st') ->
  verify_oid f oid (object_header (obj_kind o) (len (obj_body o))) (obj_body o) = Ok tt /\
  len (obj_body o) <= cap /\ (forall v, vcap = Some v -> len (obj_body o) <= cap_limit v) /\
  zlib_total_in (inflater st') = len compressed.
Proof.
  intros Hcap Hst Hd. unfold decode_stream in Hd.
  apply sbind_Ok in Hd as (h & s1 & Hh & Hd).
  pose proof (read_header_safe cap vcap st Hst) as [Hs1 _]. rewrite Hh in Hs1. simpl in Hs1.
  apply read_header_sound in Hh as (Hraw & Hsize & Hv); [|done].
  apply sbind_Ok in Hd as (body & s2 & Hb & Hd).
  assert (len (repeat x00 (Z.to_nat (h_size h))) = h_size h) as Hlen
    by (unfold len; rewrite repeat_length; lia).
  assert (len body = h_size h) as Hbody.
  { unfold MAX_SAFE in Hcap.
    destruct (fill_loop_safe (S (length (repeat x00 (Z.to_nat (h_size h))))) 0
      (repeat x00 (Z.to_nat (h_size h)))) with (s := s1) as [_ Hf];
      [rewrite Hlen; lia|unfold rust_slice; rewrite Hlen; unfold_widths; lia|unfold len; lia|done|].
    unfold fill_exact in Hb. rewrite Hb in Hf. simpl in Hf. lia. }
  apply sbind_Ok in Hd as ([n buf] & s3 & _ & Hd). destruct (negb (n =? 0)); [done|].
  apply sbind_Ok in Hd as (s4 & s5 & Hg & Hd). injection Hg as -> ->.
  destruct (negb _) eqn:Ein; [done|]. bool_prop.
  apply sbind_Ok in Hd as ([] & s6 & Hver & Hd). injection Hver as Hver ->.
  injection Hd as <- <-. simpl. rewrite Hbody, <- Hraw. split_and!; [done|lia|done|done].
Qed.
End LooseLemmas.

(** ** Properties *)

(** a loose object that is returned is the object asked for: the canonical
    header of its kind and length together with its body hashes to the object
    ID (with no collision verdict under SHA-1), its length is within the
    general cap and the contextual one, and it is never more than the size its
    header declared. *)
Theorem decode_loose_sound (HX : Hex) (HH : Hashes) (ZZ : Zlib) (ZL : ZlibLaws ZZ)
    compressed f oid cap vcap o :
  cap < MAX_SAFE ->
  decode_loose compressed f oid cap vcap = Ok o ->
  Oid.as_str oid
    = hex_encode (ordinary_digest f (object_header (obj_kind o) (len (obj_body o)) ++ obj_body o)) /\
  (f = Sha1 ->
   sha1_collision (object_header (obj_kind o) (len (obj_body o)) ++ obj_body o) = false) /\
  len (obj_body o) <= cap /\ (forall v, vcap = Some v -> len (obj_body o) <= cap_limit v).
Proof.
  intros Hcap Hd. unfold decode_loose, decode_loose_reusing in Hd.
  destruct (decode_stream _ _ _ _ _ _) as [out st] eqn:E. simpl in Hd. subst out.
  apply decode_stream_sound in E as (Hv & Hle & Hcaps & _); [|done..|split; simpl; [lia|apply len_nonneg]].
  apply verify_oid_Ok in Hv as [Ho Hc]. done.
Qed.

(** The stored form of the blob "hi" under the identity codec. *)
Definition example_loose : bytes := b_ "blob 2" ++ [x00] ++ b_ "hi".
Definition example_loose_oid : Oid.t :=
  Oid.mk Sha1 (hex_encode (Hex := rfc_hex) (toy_sum 20 example_loose)).

Lemma decode_loose_sound_witness :
  (ZlibLaws stored_zlib /\ 134217728 < MAX_SAFE) /\
  decode_loose (H := rfc_hex) (H0 := toy_hash) (H1 := stored_zlib)
    example_loose Sha1 example_loose_oid 134217728 None = Ok (mkObject ObjectKind.Blob (b_ "hi")) /\
  len (b_ "hi") <= 134217728.
Proof.
  assert (decode_loose (H := rfc_hex) (H0 := toy_hash) (H1 := stored_zlib)
    example_loose Sha1 example_loose_oid 134217728 None
    = Ok (mkObject ObjectKind.Blob (b_ "hi"))) as Hd by (vm_compute; reflexivity).
  split; [split; [exact stored_zlib_laws|reflexivity]|]. split; [exact Hd|].
  apply (decode_loose_sound rfc_hex toy_hash stored_zlib stored_zlib_laws example_loose Sha1
    example_loose_oid 134217728 None (mkObject ObjectKind.Blob (b_ "hi"))); [reflexivity|exact Hd].
Defined.

(** decoding a loose object always ends, for every input and every inflater
    that keeps its counting contract, and reusing an inflater
    gives what a fresh one gives. *)
Theorem decode_loose_total (HX : Hex) (HH : Hashes) (ZZ : Zlib) (ZL : ZlibLaws ZZ)
    compressed f oid cap vcap d :
  cap <= isize_max ->
  decode_loose compressed f oid cap vcap <> OutOfFuel /\
  (decode_loose_reusing compressed f oid cap vcap d).1 = decode_loose compressed f oid cap vcap.
Proof.
  intros Hcap. split.
  - unfold decode_loose, decode_loose_reusing.
    destruct (decode_stream_safe compressed f oid cap vcap Hcap (mkStream (zlib_reset zlib_new) 0 false))
      as [_ Hs]; [split; simpl; [lia|apply len_nonneg]|].
    destruct (decode_stream _ _ _ _ _ _) as [out st]. simpl in *. by intros ->.
  - unfold decode_loose, decode_loose_reusing. rewrite !zlib_reset_new.
    by destruct (decode_stream _ _ _ _ _ _).
Qed.

Lemma decode_loose_total_witness :
  ZlibLaws stored_zlib /\
  decode_loose (H := rfc_hex) (H0 := toy_hash) (H1 := stored_zlib)
    example_loose Sha256 example_loose_oid 1 None <> OutOfFuel.
Proof.
  split; [exact stored_zlib_laws|].
  apply (decode_loose_total rfc_hex toy_hash stored_zlib stored_zlib_laws example_loose Sha256
    example_loose_oid 1 None (0, 0)). discriminate.
Defined.
