(* ===== verification/GitDelta.v ===== *)
(** Pack entries: [crates/amiss-git/src/pack/entry.rs]. The two variable-length
    integers of a pack, the entry header, the exact inflation of an entry's
    stream and the delta interpreter. *)
From Stdlib Require Import Strings.Byte Strings.String Lia.
From stdpp Require Import base list numbers.
From S2P Require Import Prelude Codec WireModel GitObject GitResources GitLoose.
Import GitError.

(** ** The code *)

Module EntryKind.
Inductive t := Object (k : ObjectKind.t) | OffsetDelta | ReferenceDelta.
End EntryKind.

Record EntryHeader := mkEntryHeader {
  eh_kind : EntryKind.t;
  eh_size : u64;
  eh_header_len : usize
}.

(** The continuation loop of [parse_entry_header]: [position] is the next byte,
    [byte] the one just read. The shift grows by seven from four and is cut off
    above 57, so ten turns are enough. *)
Fixpoint header_loop (fuel : nat) (input : bytes) (size : u64) (shift : u32) (position : usize)
    (byte : Byte.byte) : result (u64 * usize) :=
  match fuel with
  | O => OutOfFuel
  | S fuel =>
      if negb (Z.land (u8 byte) 128 =? 0) then
        let? byte := ok_or (get input position) ObjectUnreadable in
        if shift >? 57 then Err ObjectUnreadable
        else header_loop fuel input (Z.lor size (wrapping_shl64 (Z.land (u8 byte) 127) shift))
               (sat_add32 shift 7) (sat_add position 1) byte
      else Ok (size, position)
  end.

Definition kind_of_code (type_code : Z) : result EntryKind.t :=
  match type_code with
  | 1 => Ok (EntryKind.Object ObjectKind.Commit)
  | 2 => Ok (EntryKind.Object ObjectKind.Tree)
  | 3 => Ok (EntryKind.Object ObjectKind.Blob)
  | 4 => Ok (EntryKind.Object ObjectKind.Tag)
  | 6 => Ok EntryKind.OffsetDelta
  | 7 => Ok EntryKind.ReferenceDelta
  | _ => Err ObjectUnreadable
  end.

Definition parse_entry_header (input : bytes) : result EntryHeader :=
  let? first := ok_or (get input 0) ObjectUnreadable in
  let type_code := Z.land (Z.shiftr (u8 first) 4) 7 in
  let? (size, position) := header_loop 10 input (Z.land (u8 first) 15) 4 1 first in
  let? kind := kind_of_code type_code in
  Ok (mkEntryHeader kind size position).

Fixpoint ofs_loop (fuel : nat) (input : bytes) (value : u64) (position : usize)
    (byte : Byte.byte) : result (u64 * usize) :=
  match fuel with
  | O => OutOfFuel
  | S fuel =>
      if negb (Z.land (u8 byte) 128 =? 0) then
        let? byte := ok_or (get input position) ObjectUnreadable in
        let? value :=
          ok_or (v ← checked_add value 1; v ← checked_mul v 128;
                 checked_add v (Z.land (u8 byte) 127)) ObjectUnreadable in
        ofs_loop fuel input value (sat_add position 1) byte
      else Ok (value, position)
  end.

Definition parse_ofs_distance (input : bytes) : result (u64 * usize) :=
  let? byte := ok_or (get input 0) ObjectUnreadable in
  ofs_loop (S (length input)) input (Z.land (u8 byte) 127) (sat_add 0 1) byte.

Section Inflate.
Context `{Zlib}.

(** The [while filled < out.len()] loop over the decoder. *)
Fixpoint inflate_loop (fuel : nat) (decoder : ZlibDecoder) (out : bytes) (filled : usize)
    : result (bytes * ZlibDecoder) :=
  match fuel with
  | O => OutOfFuel
  | S fuel =>
      if filled <? len out then
        let? target := ok_or (slice_from out filled) ObjectUnreadable in
        match decoder_read decoder (len target) with
        | (None, _) | (Some [], _) => Err ObjectUnreadable
        | (Some w, decoder) =>
            inflate_loop fuel decoder (take (Z.to_nat filled) out ++ write_front target w)
              (sat_add filled (len w))
        end
      else Ok (out, decoder)
  end.

Definition inflate_exact (data : bytes) (expected cap : u64) : result bytes :=
  if expected >? cap then Err (crossing GitObjectBytes cap expected)
  else
    let decoder := decoder_new data in
    let? size := usize_try_from expected ObjectUnreadable in
    let out := repeat x00 (Z.to_nat size) in
    let? (out, decoder) := inflate_loop (S (length out)) decoder out 0 in
    match decoder_read decoder 1 with
    | (Some [], decoder) =>
        if negb (decoder_total_in decoder =? len data) then Err ObjectUnreadable else Ok out
    | _ => Err ObjectUnreadable
    end.
End Inflate.

(** [leb128]: the shift is 0, 7, ..., 56 for nine bytes and the tenth is an
    error. *)
Fixpoint leb128_loop (fuel : nat) (input : bytes) (at_ : usize) (value : u64) (shift : u32)
    : result (u64 * usize) :=
  match fuel with
  | O => OutOfFuel
  | S fuel =>
      let? byte := ok_or (get input at_) ObjectUnreadable in
      let at_ := sat_add at_ 1 in
      if shift >? 57 then Err ObjectUnreadable
      else
        let value := Z.lor value (wrapping_shl64 (Z.land (u8 byte) 127) shift) in
        let shift := sat_add32 shift 7 in
        if Z.land (u8 byte) 128 =? 0 then Ok (value, at_)
        else leb128_loop fuel input at_ value shift
  end.

Definition leb128 (input : bytes) (at_ : usize) : result (u64 * usize) :=
  leb128_loop 10 input at_ 0 0.

(** One [for bit in 0..n] loop of a copy instruction: the bytes whose flag
    [mask << bit] is set in the opcode, little end first. *)
Fixpoint copy_field (bits : list u32) (mask : Z) (opcode : Byte.byte) (script : bytes)
    (at_ : usize) (acc : u64) : result (u64 * usize) :=
  match bits with
  | [] => Ok (acc, at_)
  | bit :: bits =>
      if negb (Z.land (u8 opcode) (Z.land (Z.shiftl mask bit) 255) =? 0) then
        let? byte := ok_or (get script at_) ObjectUnreadable in
        copy_field bits mask opcode script (sat_add at_ 1)
          (Z.lor acc (wrapping_shl64 (u8 byte) (sat_mul32 bit 8)))
      else copy_field bits mask opcode script at_ acc
  end.

(** The copy branch of [apply_delta]: the bytes copied and the position after
    the instruction. *)
Definition copy_step (base script : bytes) (opcode : Byte.byte) (at_ : usize)
    : result (bytes * usize) :=
  let? (offset, at_) := copy_field [0; 1; 2; 3] 1 opcode script at_ 0 in
  let? (size, at_) := copy_field [0; 1; 2] 16 opcode script at_ 0 in
  let size := if size =? 0 then 65536 else size in
  let? start := usize_try_from offset ObjectUnreadable in
  let? length := usize_try_from size ObjectUnreadable in
  let? stop := ok_or (checked_add start length) ObjectUnreadable in
  let? piece := ok_or (slice base start stop) ObjectUnreadable in
  Ok (piece, at_).

(** The insert branch. *)
Definition insert_step (script : bytes) (opcode : Byte.byte) (at_ : usize)
    : result (bytes * usize) :=
  if u8 opcode =? 0 then Err ObjectUnreadable
  else
    let? stop := ok_or (checked_add at_ (u8 opcode)) ObjectUnreadable in
    let? literal := ok_or (slice script at_ stop) ObjectUnreadable in
    Ok (literal, stop).

(** The instruction loop; each turn consumes at least the opcode. *)
Fixpoint delta_loop (fuel : nat) (base script : bytes) (target_len at_ : usize) (out : bytes)
    : result bytes :=
  match fuel with
  | O => OutOfFuel
  | S fuel =>
      if at_ <? len script then
        let? opcode := ok_or (get script at_) ObjectUnreadable in
        let at_ := sat_add at_ 1 in
        let? (piece, at_) :=
          if negb (Z.land (u8 opcode) 128 =? 0) then copy_step base script opcode at_
          else insert_step script opcode at_ in
        let out := out ++ piece in
        if len out >? target_len then Err ObjectUnreadable
        else delta_loop fuel base script target_len at_ out
      else if negb (len out =? target_len) then Err ObjectUnreadable
      else Ok out
  end.

Definition apply_delta (base script : bytes) (cap : u64) (value_cap : option ValueCap)
    : result bytes :=
  let? (source_size, at_) := leb128 script 0 in
  let? (target_size, at_) := leb128 script at_ in
  if negb (source_size =? len base) then Err ObjectUnreadable
  else
    let? _ :=
      match value_cap with
      | Some value =>
          if target_size >? cap_limit value
          then Err (crossing (cap_resource value) (cap_limit value) target_size) else Ok tt
      | None => Ok tt
      end in
    if target_size >? cap then Err (crossing GitObjectBytes cap target_size)
    else
      let? target_len := usize_try_from target_size ObjectUnreadable in
      delta_loop (S (length script)) base script target_len at_ [].

(** ** The grammar *)

(** Bytes with the continuation bit set, then one without it. *)
Inductive varint_text : bytes -> Prop :=
  | varint_last b : u8 b < 128 -> varint_text [b]
  | varint_more b l : 128 <= u8 b -> varint_text l -> varint_text (b :: l).

(** The little-endian value of a varint's seven-bit groups. *)
Fixpoint leb_value (l : bytes) : Z :=
  match l with [] => 0 | b :: l => u8 b mod 128 + 128 * leb_value l end.

(** Git's offset encoding is a bijective numeration: each group but the first
    counts one more. The fold starts from -1. *)
Definition ofs_step (v : Z) (b : Byte.byte) : Z := (v + 1) * 128 + u8 b mod 128.
Definition ofs_value (l : bytes) : Z := fold_left ofs_step l (-1).

(** The encoder of [pack-objects] ([encode_in_pack_object_header] writes the
    groups from the last to the first). *)
Fixpoint ofs_high (fuel : nat) (m : Z) : bytes :=
  match fuel with
  | O => []
  | S fuel =>
      if m =? 0 then [] else ofs_high fuel ((m - 1) / 128) ++ [byte_of (128 + (m - 1) mod 128)]
  end.
Definition encode_ofs (n : Z) : bytes := ofs_high 10 (n / 128) ++ [byte_of (n mod 128)].

(** A delta instruction. A copy gives its offset and size bytes, each of which
    may be left out. *)
Inductive instr :=
  | Copy (offset size : list (option Byte.byte))
  | Insert (literal : bytes).

Fixpoint flags (l : list (option Byte.byte)) : Z :=
  match l with [] => 0 | o :: l => (if o is Some _ then 1 else 0) + 2 * flags l end.
Fixpoint field_value (l : list (option Byte.byte)) : Z :=
  match l with [] => 0 | o :: l => (if o is Some b then u8 b else 0) + 256 * field_value l end.
Definition field_bytes (l : list (option Byte.byte)) : bytes := omap id l.

Definition copy_size (size : list (option Byte.byte)) : Z :=
  if field_value size =? 0 then 65536 else field_value size.

Definition instr_text (i : instr) : bytes :=
  match i with
  | Copy o s => byte_of (128 + flags o + 16 * flags s) :: field_bytes o ++ field_bytes s
  | Insert l => byte_of (len l) :: l
  end.

Definition instr_ok (base : bytes) (i : instr) : Prop :=
  match i with
  | Copy o s =>
      length o = 4%nat /\ length s = 3%nat /\ field_value o + copy_size s <= len base
  | Insert l => 1 <= len l < 128
  end.

(** What an instruction appends. *)
Definition instr_out (base : bytes) (i : instr) : bytes :=
  match i with
  | Copy o s => take (Z.to_nat (copy_size s)) (drop (Z.to_nat (field_value o)) base)
  | Insert l => l
  end.

(** ** Lemmas *)

Lemma land_127 b : Z.land (u8 b) 127 = u8 b mod 128.
Proof. apply (Z.land_ones (u8 b) 7). lia. Qed.

Lemma land_15 b : Z.land (u8 b) 15 = u8 b mod 16.
Proof. apply (Z.land_ones (u8 b) 4). lia. Qed.

Lemma high_bit b : (Z.land (u8 b) 128 =? 0) = (u8 b <? 128).
Proof. by destruct b. Qed.

Lemma group_range b : 0 <= u8 b mod 128 < 128.
Proof. apply Z.mod_pos_bound. lia. Qed.

(** Disjoint bits: an accumulator below the shift takes the next group. *)
Lemma lor_shiftl_add v d s : 0 <= s -> 0 <= v < 2 ^ s -> Z.lor v (Z.shiftl d s) = v + d * 2 ^ s.
Proof.
  intros Hs Hv. rewrite <- Z.shiftl_mul_pow2 by lia.
  rewrite <- Z.add_lor_land.
  replace (Z.land v (Z.shiftl d s)) with 0; [lia|]. symmetry. apply Z.bits_inj'. intros n Hn.
  rewrite Z.land_spec, Z.bits_0. destruct (Z.lt_ge_cases n s).
  - rewrite (Z.shiftl_spec_low d) by lia. apply andb_false_r.
  - rewrite <- (Z.mod_small v (2 ^ s)) by lia. by rewrite Z.mod_pow2_bits_high by lia.
Qed.

Lemma lor_wrapping_shl v d s :
  0 <= s < 64 -> 0 <= v < 2 ^ s -> 0 <= d -> d * 2 ^ s <= u64_max ->
  Z.lor v (wrapping_shl64 d s) = v + d * 2 ^ s.
Proof.
  intros Hs Hv Hd Hm. unfold wrapping_shl64. rewrite (Z.mod_small s) by lia.
  change u64_max with (Z.ones 64). rewrite Z.land_ones by lia.
  rewrite (Z.mod_small (Z.shiftl d s)); [by apply lor_shiftl_add; lia|].
  rewrite Z.shiftl_mul_pow2 by lia.
  split; [apply Z.mul_nonneg_nonneg; lia|]. change (2 ^ 64) with (u64_max + 1). lia.
Qed.

(** One seven-bit group of an accumulator that is below its shift. *)
Lemma group_accumulates v b s :
  0 <= s <= 57 -> 0 <= v < 2 ^ s ->
  Z.lor v (wrapping_shl64 (Z.land (u8 b) 127) s) = v + (u8 b mod 128) * 2 ^ s /\
  0 <= v + (u8 b mod 128) * 2 ^ s < 2 ^ (s + 7).
Proof.
  intros Hs Hv. pose proof (group_range b) as Hg.
  assert (2 ^ s <= 2 ^ 57) by (apply Z.pow_le_mono_r; lia).
  rewrite land_127, Z.pow_add_r by lia. change (2 ^ 7) with 128. split; [|nia].
  apply lor_wrapping_shl; try lia. unfold_widths. change (2 ^ 57) with 144115188075855872 in *. nia.
Qed.

Lemma leb_value_nonneg l : 0 <= leb_value l.
Proof. induction l as [|b l IH]; simpl; [lia|]. pose proof (group_range b). lia. Qed.

Lemma varint_pos l : varint_text l -> 1 <= len l.
Proof. destruct 1; rewrite len_cons; pose proof (len_nonneg (@nil Byte.byte)); [|pose proof (len_nonneg l)]; lia. Qed.

(** Two varints at the front of one input are the same. *)
Lemma varint_unique l1 r1 l2 r2 :
  varint_text l1 -> varint_text l2 -> l1 ++ r1 = l2 ++ r2 -> l1 = l2 /\ r1 = r2.
Proof.
  intros H1. revert l2. induction H1 as [b Hb|b l Hb H1 IH]; intros l2 H2 Heq;
    destruct H2 as [c Hc|c k Hc H2]; simplify_eq/=; try lia; [done|].
  destruct (IH k H2) as [-> ->]; done.
Qed.

(** [leb128] reads exactly the varints of at most nine bytes. *)
Lemma leb128_loop_spec fuel pre rest value k v stop :
  rust_slice (pre ++ rest) -> 0 <= k <= 9 -> k + Z.of_nat fuel = 10 -> 0 <= value < 2 ^ (7 * k) ->
  leb128_loop fuel (pre ++ rest) (len pre) value (7 * k) = Ok (v, stop) <->
  exists l r, rest = l ++ r /\ varint_text l /\ k + len l <= 9 /\
    v = value + 2 ^ (7 * k) * leb_value l /\ stop = len pre + len l.
Proof.
  revert pre rest value k. induction fuel as [|fuel IH]; intros pre rest value k Hr Hk Hf Hv; [lia|].
  cbn [leb128_loop]. destruct rest as [|b rest].
  { rewrite get_app_end. split; [done|]. intros (l & r & Hl & Ht & _).
    destruct l; [inversion Ht|done]. }
  rewrite get_app_r. cbn [ok_or]. rewrite Z.gtb_ltb, high_bit.
  assert (sat_add (len pre) 1 = len (pre ++ [b])) as Hat.
  { rewrite len_snoc. apply sat_add_small. unfold rust_slice in Hr. rewrite len_app in Hr.
    pose proof (len_nonneg (b :: rest)). unfold_widths. lia. }
  rewrite Hat. destruct (Z.ltb_spec 57 (7 * k)) as [Hbig|Hsmall].
  { split; [done|]. intros (l & r & _ & Ht & Hle & _). pose proof (varint_pos l Ht). lia. }
  destruct (group_accumulates value b (7 * k)) as [-> Hv']; [lia|done|].
  rewrite sat_add32_small by (unfold_widths; lia).
  destruct (Z.ltb_spec (u8 b) 128) as [Hlo|Hhi].
  - split.
    + intros [= <- <-]. exists [b], rest. rewrite len_snoc. simpl.
      split_and!; [done|by constructor|unfold len; simpl; lia|lia|done].
    + intros (l & r & Heq & Ht & Hle & -> & ->).
      destruct (varint_unique [b] rest l r) as [<- <-]; [by constructor|done|done|].
      rewrite len_snoc. simpl. f_equal. f_equal; lia.
  - replace (7 * k + 7) with (7 * (k + 1)) in * by lia.
    replace (pre ++ b :: rest) with ((pre ++ [b]) ++ rest) in * by (by rewrite <- app_assoc).
    rewrite IH by (done || lia). rewrite len_snoc.
    assert (2 ^ (7 * (k + 1)) = 2 ^ (7 * k) * 128) as Hpow.
    { replace (7 * (k + 1)) with (7 * k + 7) by lia. by rewrite Z.pow_add_r by lia. }
    rewrite Hpow. split.
    + intros (l & r & -> & Ht & Hle & -> & ->). exists (b :: l), r. rewrite len_cons. cbn [leb_value].
      split_and!; [done|by constructor|lia|ring|lia].
    + intros (l & r & Heq & Ht & Hle & -> & ->). destruct Ht as [c Hc|c l Hc Ht]; simplify_eq/=; [lia|].
      rewrite len_cons in *. exists l, r. split_and!; [done|done|lia|ring|lia].
Qed.

Lemma leb128_spec pre rest v stop :
  rust_slice (pre ++ rest) ->
  leb128 (pre ++ rest) (len pre) = Ok (v, stop) <->
  exists l r, rest = l ++ r /\ varint_text l /\ len l <= 9 /\ v = leb_value l /\ stop = len pre + len l.
Proof.
  intros Hr. unfold leb128. change 0 with (7 * 0) at 2. rewrite leb128_loop_spec by (done || lia).
  change (2 ^ (7 * 0)) with 1. split; intros (l & r & H); exists l, r.
  - destruct H as (? & ? & ? & -> & ?). split_and!; [done..|lia|lia|done].
  - destruct H as (? & ? & ? & -> & ?). split_and!; [done..|lia|lia|done].
Qed.

Lemma leb128_fuel input at_ : leb128 input at_ <> OutOfFuel.
Proof.
  unfold leb128.
  assert (forall fuel at_ value k, 0 <= k -> 10 <= k + Z.of_nat fuel -> (k <= 9) ->
    leb128_loop fuel input at_ value (7 * k) <> OutOfFuel) as Hgen.
  { intros fuel. induction fuel as [|fuel IH]; intros a value k Hk Hf Hk9; [lia|]. cbn [leb128_loop].
    destruct (get input a); [|done]. cbn [ok_or]. rewrite Z.gtb_ltb.
    destruct (Z.ltb_spec 57 (7 * k)); [done|].
    rewrite sat_add32_small by (unfold_widths; lia).
    destruct (_ =? 0); [done|]. replace (7 * k + 7) with (7 * (k + 1)) by lia. apply IH; lia. }
  apply (Hgen 10%nat at_ 0 0); lia.
Qed.

(** [parse_entry_header]'s loop reads the rest of a varint of at most nine
    bytes. *)
Lemma header_loop_spec fuel pre rest size k b v stop :
  rust_slice (pre ++ rest) -> 0 <= k <= 8 -> k + Z.of_nat fuel = 10 -> 0 <= size < 2 ^ (4 + 7 * k) ->
  header_loop fuel (pre ++ rest) size (4 + 7 * k) (len pre) b = Ok (v, stop) <->
  exists l r, rest = l ++ r /\ varint_text (b :: l) /\ k + len l <= 8 /\
    v = size + 2 ^ (4 + 7 * k) * leb_value l /\ stop = len pre + len l.
Proof.
  revert pre rest size k b. induction fuel as [|fuel IH]; intros pre rest size k b Hr Hk Hf Hv; [lia|].
  cbn [header_loop]. rewrite high_bit. destruct (Z.ltb_spec (u8 b) 128) as [Hlo|Hhi]; cbn [negb].
  { split.
    - intros [= <- <-]. exists [], rest. rewrite len_nil. cbn [leb_value].
      split_and!; [done|by apply varint_last|lia..].
    - intros (l & r & -> & Ht & Hle & -> & ->).
      destruct (varint_unique [b] (l ++ r) (b :: l) r) as [[= <-] _]; [by constructor|done|done|].
      cbn [leb_value fold_left]. change (len (@nil Byte.byte)) with 0. f_equal. f_equal; lia. }
  destruct rest as [|c rest].
  { rewrite get_app_end. split; [done|]. intros (l & r & Hl & Ht & _).
    destruct l; [|done]. inversion Ht as [|? ? ? Ht']; [lia|inversion Ht']. }
  rewrite get_app_r. cbn [ok_or]. rewrite Z.gtb_ltb.
  assert (sat_add (len pre) 1 = len (pre ++ [c])) as Hat.
  { rewrite len_snoc. apply sat_add_small. unfold rust_slice in Hr. rewrite len_app in Hr.
    pose proof (len_nonneg (c :: rest)). unfold_widths. lia. }
  rewrite Hat. destruct (Z.ltb_spec 57 (4 + 7 * k)) as [Hbig|Hsmall].
  { split; [done|]. intros (l & r & _ & Ht & Hle & _).
    inversion Ht as [|? ? ? Ht']; subst; [lia|]. pose proof (varint_pos l Ht'). lia. }
  destruct (group_accumulates size c (4 + 7 * k)) as [-> Hv']; [lia|done|].
  rewrite sat_add32_small by (unfold_widths; lia).
  replace (4 + 7 * k + 7) with (4 + 7 * (k + 1)) in * by lia.
  replace (pre ++ c :: rest) with ((pre ++ [c]) ++ rest) in * by (by rewrite <- app_assoc).
  rewrite IH by (done || lia). rewrite len_snoc.
  assert (2 ^ (4 + 7 * (k + 1)) = 2 ^ (4 + 7 * k) * 128) as Hpow.
  { replace (4 + 7 * (k + 1)) with (4 + 7 * k + 7) by lia. by rewrite Z.pow_add_r by lia. }
  rewrite Hpow. split.
  - intros (l & r & -> & Ht & Hle & -> & ->). exists (c :: l), r. rewrite len_cons. cbn [leb_value].
    split_and!; [done|by constructor|lia|ring|lia].
  - intros (l & r & Heq & Ht & Hle & -> & ->). inversion Ht as [|? ? ? Ht']; subst; [lia|].
    destruct l as [|c' l]; [inversion Ht'|]. simplify_eq/=.
    rewrite len_cons in *. exists l, r. split_and!; [done|done|lia|ring|lia].
Qed.

(** *** Offsets *)

Lemma ofs_step_grows v b : -1 <= v -> v < ofs_step v b.
Proof. unfold ofs_step. pose proof (group_range b). lia. Qed.

Lemma ofs_fold_grows l v : -1 <= v -> v <= fold_left ofs_step l v.
Proof.
  revert v. induction l as [|b l IH]; intros v Hv; simpl; [lia|].
  pose proof (ofs_step_grows v b Hv). etransitivity; [|apply IH]; lia.
Qed.

Lemma ofs_checked v b :
  -1 < v ->
  (w ← checked_add v 1; w ← checked_mul w 128; checked_add w (Z.land (u8 b) 127))
  = (if ofs_step v b <=? u64_max then Some (ofs_step v b) else None).
Proof.
  intros Hv. unfold checked_add, checked_mul, ofs_step. rewrite land_127. pose proof (group_range b).
  destruct (Z.leb_spec ((v + 1) * 128 + u8 b mod 128) u64_max).
  - destruct (Z.leb_spec (v + 1) u64_max); [|lia]. simpl.
    destruct (Z.leb_spec ((v + 1) * 128) u64_max); [|lia]. simpl.
    destruct (Z.leb_spec ((v + 1) * 128 + u8 b mod 128) u64_max); [done|lia].
  - destruct (Z.leb_spec (v + 1) u64_max); [|done]. simpl.
    destruct (Z.leb_spec ((v + 1) * 128) u64_max); [|done]. simpl.
    destruct (Z.leb_spec ((v + 1) * 128 + u8 b mod 128) u64_max); [lia|done].
Qed.

Lemma ofs_loop_spec fuel pre rest value b v stop :
  rust_slice (pre ++ rest) -> len rest < Z.of_nat fuel -> 0 <= value ->
  ofs_loop fuel (pre ++ rest) value (len pre) b = Ok (v, stop) <->
  exists l r, rest = l ++ r /\ varint_text (b :: l) /\ (l = [] \/ v <= u64_max) /\
    v = fold_left ofs_step l value /\ stop = len pre + len l.
Proof.
  revert pre rest value b. induction fuel as [|fuel IH]; intros pre rest value b Hr Hf Hv;
    [pose proof (len_nonneg rest); lia|].
  cbn [ofs_loop]. rewrite high_bit. destruct (Z.ltb_spec (u8 b) 128) as [Hlo|Hhi]; cbn [negb].
  { split.
    - intros [= <- <-]. exists [], rest. simpl. rewrite len_nil.
      split_and!; [done|by constructor|by left|done|lia].
    - intros (l & r & -> & Ht & _ & -> & ->).
      destruct (varint_unique [b] (l ++ r) (b :: l) r) as [[= <-] _]; [by constructor|done|done|].
      cbn [leb_value fold_left]. change (len (@nil Byte.byte)) with 0. f_equal. f_equal; lia. }
  destruct rest as [|c rest].
  { rewrite get_app_end. split; [done|]. intros (l & r & Hl & Ht & _).
    destruct l; [|done]. inversion Ht as [|? ? ? Ht']; [lia|inversion Ht']. }
  rewrite get_app_r. cbn [ok_or].
  assert (sat_add (len pre) 1 = len (pre ++ [c])) as Hat.
  { rewrite len_snoc. apply sat_add_small. unfold rust_slice in Hr. rewrite len_app in Hr.
    pose proof (len_nonneg (c :: rest)). unfold_widths. lia. }
  rewrite Hat, ofs_checked by lia. rewrite len_cons in Hf. pose proof (ofs_step_grows value c ltac:(lia)).
  destruct (Z.leb_spec (ofs_step value c) u64_max) as [Hle|Hgt]; cbn [ok_or].
  - replace (pre ++ c :: rest) with ((pre ++ [c]) ++ rest) in * by (by rewrite <- app_assoc).
    rewrite IH by (done || lia). rewrite len_snoc. split.
    + intros (l & r & -> & Ht & Hmax & -> & ->). exists (c :: l), r. rewrite len_cons. simpl.
      split_and!; [done|by constructor| |done|lia]. right. destruct Hmax as [-> |]; done.
    + intros (l & r & Heq & Ht & Hmax & -> & ->). inversion Ht as [|? ? ? Ht']; subst; [lia|].
      destruct l as [|c' l]; [inversion Ht'|]. simplify_eq/=. rewrite len_cons.
      exists l, r. split_and!; [done|done| |done|lia]. right. by destruct Hmax.
  - split; [done|]. intros (l & r & Heq & Ht & Hmax & -> & ->).
    inversion Ht as [|? ? ? Ht']; subst; [lia|]. destruct l as [|c' l]; [inversion Ht'|]. simplify_eq/=.
    pose proof (ofs_fold_grows l (ofs_step value c') ltac:(lia)). destruct Hmax; [done|lia].
Qed.

(** [parse_ofs_distance] reads the varint at the front, if its value fits. *)
Lemma parse_ofs_spec input v stop :
  rust_slice input ->
  parse_ofs_distance input = Ok (v, stop) <->
  exists l r, input = l ++ r /\ varint_text l /\ v = ofs_value l /\ v <= u64_max /\ stop = len l.
Proof.
  intros Hr. unfold parse_ofs_distance. destruct input as [|b rest].
  { split; [done|]. intros (l & r & Hl & Ht & _). destruct l; [inversion Ht|done]. }
  change (get (b :: rest) 0) with (get ([] ++ b :: rest) (len (@nil Byte.byte))).
  rewrite get_app_r. cbn [ok_or]. rewrite land_127.
  change (sat_add 0 1) with (len [b]). change (b :: rest) with ([b] ++ rest).
  rewrite ofs_loop_spec; [|done|rewrite length_app; unfold len; simpl; lia|apply group_range].
  assert (forall l, ofs_value (b :: l) = fold_left ofs_step l (u8 b mod 128)) as Hval.
  { intros l. unfold ofs_value. simpl. done. }
  split.
  - intros (l & r & -> & Ht & Hm & -> & ->). exists (b :: l), r. rewrite Hval, (len_cons b l).
    split_and!; [done|done|done| |change (len [b]) with 1; lia].
    destruct Hm as [-> | Hm]; [simpl|done]. pose proof (group_range b). unfold_widths. lia.
  - intros (l & r & Heq & Ht & -> & Hm & ->). destruct l as [|c l]; [inversion Ht|]. simplify_eq/=.
    exists l, r. rewrite Hval in *. rewrite (len_cons c l). change (len [c]) with 1.
    split_and!; [done|done|by right|done|lia].
Qed.

Lemma cont_byte m : u8 (byte_of (128 + (m - 1) mod 128)) = 128 + (m - 1) mod 128.
Proof. apply u8_byte_of. pose proof (Z.mod_pos_bound (m - 1) 128). lia. Qed.

(** The continuation groups of the encoder. *)
Lemma ofs_high_spec fuel m :
  0 <= m < 128 ^ Z.of_nat fuel ->
  ofs_value (ofs_high fuel m) = m - 1 /\ Forall (fun b => 128 <= u8 b) (ofs_high fuel m).
Proof.
  revert m. induction fuel as [|fuel IH]; intros m Hm; cbn [ofs_high].
  { change (128 ^ Z.of_nat 0) with 1 in Hm. assert (m = 0) as -> by lia. done. }
  destruct (Z.eqb_spec m 0) as [->|]; [done|].
  rewrite Nat2Z.inj_succ, Z.pow_succ_r in Hm by lia.
  destruct (IH ((m - 1) / 128)) as [Hv Hc].
  { split; [apply Z.div_pos; lia|apply Z.div_lt_upper_bound; lia]. }
  split.
  - unfold ofs_value in *. rewrite fold_left_app, Hv. simpl. unfold ofs_step. rewrite cont_byte.
    rewrite Z.add_comm, <- Z.add_mod_idemp_l by lia. change (128 mod 128) with 0. rewrite Z.add_0_l.
    rewrite Z.mod_mod by lia. pose proof (Z.div_mod (m - 1) 128). lia.
  - apply Forall_app. split; [done|]. repeat constructor. rewrite cont_byte.
    pose proof (Z.mod_pos_bound (m - 1) 128). lia.
Qed.

Lemma varint_cont init b : Forall (fun b => 128 <= u8 b) init -> u8 b < 128 -> varint_text (init ++ [b]).
Proof. intros Hi Hb. induction Hi; simpl; constructor; done. Qed.

Lemma encode_ofs_spec n :
  0 <= n <= u64_max -> varint_text (encode_ofs n) /\ ofs_value (encode_ofs n) = n.
Proof.
  intros Hn. unfold encode_ofs.
  assert (0 <= n / 128 < 128 ^ Z.of_nat 10) as Hm.
  { split; [apply Z.div_pos; lia|]. apply Z.div_lt_upper_bound; [lia|]. unfold_widths. lia. }
  destruct (ofs_high_spec 10 (n / 128) Hm) as [Hv Hc].
  pose proof (Z.mod_pos_bound n 128 ltac:(lia)) as Hd.
  split.
  - apply varint_cont; [done|]. rewrite u8_byte_of by lia. lia.
  - unfold ofs_value in *. rewrite fold_left_app, Hv. simpl. unfold ofs_step.
    rewrite u8_byte_of, Z.mod_mod by lia. pose proof (Z.div_mod n 128). lia.
Qed.

(** A varint is determined by its offset value: the numeration is bijective. *)
Lemma ofs_value_inj_cont l1 l2 :
  Forall (fun b => 128 <= u8 b) l1 -> Forall (fun b => 128 <= u8 b) l2 ->
  ofs_value l1 = ofs_value l2 -> l1 = l2.
Proof.
  unfold ofs_value. revert l2.
  induction l1 as [|b l1 IH] using rev_ind; intros l2; destruct l2 as [|c l2 _] using rev_ind;
    intros H1 H2 Heq; [done|..]; rewrite ?fold_left_app in Heq; simpl in Heq.
  - pose proof (ofs_fold_grows l2 (-1) ltac:(lia)).
    pose proof (ofs_step_grows (fold_left ofs_step l2 (-1)) c ltac:(lia)). lia.
  - pose proof (ofs_fold_grows l1 (-1) ltac:(lia)).
    pose proof (ofs_step_grows (fold_left ofs_step l1 (-1)) b ltac:(lia)). lia.
  - apply Forall_app in H1 as [H1 Hb], H2 as [H2 Hc].
    apply Forall_cons_iff in Hb as [Hb _], Hc as [Hc _]. specialize (IH l2 H1 H2). revert IH Heq.
    generalize (fold_left ofs_step l1 (-1)) (fold_left ofs_step l2 (-1)). intros v1 v2 IH Heq.
    unfold ofs_step in Heq.
    pose proof (group_range b). pose proof (group_range c).
    rewrite IH by lia. f_equal. f_equal. apply u8_inj.
    pose proof (u8_range b). pose proof (u8_range c).
    assert (forall x, 128 <= x < 256 -> x mod 128 = x - 128) as Hmod.
    { intros x Hx. symmetry. apply (Z.mod_unique_pos _ _ 1); lia. }
    rewrite !Hmod in Heq by lia. lia.
Qed.

Lemma varint_split l :
  varint_text l -> exists init b, l = init ++ [b] /\ Forall (fun b => 128 <= u8 b) init /\ u8 b < 128.
Proof.
  induction 1 as [b Hb|b l Hb Ht (init & c & -> & Hi & Hc)]; [by exists [], b|].
  exists (b :: init), c. split_and!; [done|by constructor|done].
Qed.

Lemma ofs_value_inj l1 l2 :
  varint_text l1 -> varint_text l2 -> ofs_value l1 = ofs_value l2 -> l1 = l2.
Proof.
  intros (i1 & b1 & -> & Hi1 & Hb1)%varint_split (i2 & b2 & -> & Hi2 & Hb2)%varint_split.
  unfold ofs_value. rewrite !fold_left_app. simpl.
  intros Heq. assert (forall l1 l2, ofs_value l1 = ofs_value l2 <-> fold_left ofs_step l1 (-1) = fold_left ofs_step l2 (-1)) as Hof by done.
  specialize (Hof i1 i2). revert Heq Hof.
  generalize (fold_left ofs_step i1 (-1)) (fold_left ofs_step i2 (-1)). intros v1 v2 Heq Hof.
  unfold ofs_step in Heq.
  pose proof (u8_range b1). pose proof (u8_range b2). rewrite !Z.mod_small in Heq by lia.
  f_equal; [apply ofs_value_inj_cont; [done..|apply Hof; lia]|].
  f_equal. apply u8_inj. lia.
Qed.

(** *** Copy instructions *)

(** A flag test reads one bit of the opcode. *)
Lemma flag_bit b j :
  0 <= j < 7 ->
  (Z.land (u8 b) (Z.land (2 ^ j) 255) =? 0) = ((u8 b / 2 ^ j) mod 2 =? 0).
Proof.
  intros Hj.
  assert (j = 0 \/ j = 1 \/ j = 2 \/ j = 3 \/ j = 4 \/ j = 5 \/ j = 6) as Hc by lia.
  destruct Hc as [->|[->|[->|[->|[->|[->| ->]]]]]]; by destruct b.
Qed.

Lemma flags_range l : 0 <= flags l < 2 ^ Z.of_nat (length l).
Proof.
  induction l as [|o l IH]; cbn [flags length]; [simpl; lia|].
  rewrite Nat2Z.inj_succ, Z.pow_succ_r by lia. destruct o; lia.
Qed.

Lemma field_value_range l : 0 <= field_value l < 256 ^ Z.of_nat (length l).
Proof.
  induction l as [|o l IH]; cbn [field_value length]; [simpl; lia|].
  rewrite Nat2Z.inj_succ, Z.pow_succ_r by lia.
  destruct o as [b|]; [pose proof (u8_range b)|]; lia.
Qed.

(** The bits of [q] from the lowest: one flag, then the flags of the rest. *)
Lemma mod_pow_succ q n : q mod 2 ^ (Z.of_nat (S n)) = q mod 2 + 2 * ((q / 2) mod 2 ^ Z.of_nat n).
Proof.
  rewrite Nat2Z.inj_succ, Z.pow_succ_r by lia. pose proof (Z.pow_pos_nonneg 2 (Z.of_nat n)) as Hp.
  set (p := 2 ^ Z.of_nat n) in *. symmetry. apply (Z.mod_unique_pos _ _ (q / 2 / p)).
  - pose proof (Z.mod_pos_bound q 2 ltac:(lia)). pose proof (Z.mod_pos_bound (q / 2) p ltac:(lia)). lia.
  - pose proof (Z.div_mod q 2 ltac:(lia)). pose proof (Z.div_mod (q / 2) p ltac:(lia)). nia.
Qed.

Lemma div_pow_succ x j : 0 <= j -> x / 2 ^ (j + 1) = x / 2 ^ j / 2.
Proof. intros. rewrite Z.pow_add_r, Z.div_div by lia. done. Qed.

Lemma copy_field_spec n i m opcode pre rest acc v stop :
  rust_slice (pre ++ rest) -> 0 <= i -> 0 <= m -> m + i + Z.of_nat n <= 7 ->
  i + Z.of_nat n <= 4 -> 0 <= acc < 256 ^ i ->
  copy_field (zseq i n) (2 ^ m) opcode (pre ++ rest) (len pre) acc = Ok (v, stop) <->
  exists o r, rest = field_bytes o ++ r /\ length o = n /\
    flags o = (u8 opcode / 2 ^ (m + i)) mod 2 ^ Z.of_nat n /\
    v = acc + 256 ^ i * field_value o /\ stop = len pre + len (field_bytes o).
Proof.
  intros Hr. revert i pre rest acc Hr. induction n as [|n IH]; intros i pre rest acc Hr Hi Hm Hmi Hin Hacc.
  { cbn [zseq copy_field]. change (2 ^ Z.of_nat 0) with 1. rewrite Z.mod_1_r. split.
    - intros [= <- <-]. exists [], rest. simpl. change (len (@nil Byte.byte)) with 0.
      split_and!; [done..|lia|lia].
    - intros ([|] & r & -> & Hl & _ & -> & ->); [|done]. simpl. change (len (@nil Byte.byte)) with 0.
      f_equal. f_equal; lia. }
  cbn [zseq copy_field]. rewrite Z.shiftl_mul_pow2, <- Z.pow_add_r, flag_bit by lia.
  rewrite mod_pow_succ, <- div_pow_succ by lia. rewrite <- Z.add_assoc.
  assert (256 ^ (i + 1) = 256 ^ i * 256) as Hpow by (by rewrite Z.pow_add_r by lia).
  pose proof (Z.mod_pos_bound (u8 opcode / 2 ^ (m + i)) 2 ltac:(lia)) as Hbit.
  destruct (Z.eqb_spec ((u8 opcode / 2 ^ (m + i)) mod 2) 0) as [Hz|Hnz]; cbn [negb].
  { rewrite IH by (done || lia || nia). rewrite Hz, Hpow. split.
    - intros (o & r & -> & Hl & Hfl & -> & ->). exists (None :: o), r. cbn [field_bytes omap].
      split_and!; [done|by simpl; rewrite Hl|cbn [flags]; lia|cbn [field_value]; ring|done].
    - intros ([|[b|] o] & r & -> & Hl & Hfl & -> & ->); [done| |].
      + cbn [flags] in Hfl. pose proof (flags_range o).
        pose proof (Z.mod_pos_bound (u8 opcode / 2 ^ (m + (i + 1))) (2 ^ Z.of_nat n) ltac:(lia)). lia.
      + exists o, r. injection Hl as Hl. cbn [flags field_value] in *.
        split_and!; [done|done|lia|ring|done]. }
  destruct rest as [|b rest].
  { rewrite get_app_end. split; [done|]. intros ([|[b|] o] & r & Heq & Hl & Hfl & _); [done|done|].
    cbn [flags] in Hfl. pose proof (flags_range o). lia. }
  rewrite get_app_r. cbn [ok_or].
  assert (sat_add (len pre) 1 = len (pre ++ [b])) as ->.
  { rewrite len_snoc. apply sat_add_small. unfold rust_slice in Hr. rewrite len_app in Hr.
    pose proof (len_nonneg (b :: rest)). unfold_widths. lia. }
  assert (sat_mul32 i 8 = 8 * i) as -> by (unfold sat_mul32, u32_max; lia).
  assert (256 ^ i = 2 ^ (8 * i)) as Hp by (by rewrite (Z.pow_mul_r 2 8 i) by lia).
  pose proof (u8_range b) as Hb.
  rewrite lor_wrapping_shl; [|lia|lia|lia|]; [rewrite <- Hp|].
  2: { assert (2 ^ (8 * i) <= 2 ^ 24) by (apply Z.pow_le_mono_r; lia). unfold_widths. nia. }
  replace (pre ++ b :: rest) with ((pre ++ [b]) ++ rest) in * by (by rewrite <- app_assoc).
  rewrite IH by (done || lia || nia). rewrite Hpow, len_snoc. split.
  - intros (o & r & -> & Hl & Hfl & -> & ->). exists (Some b :: o), r. cbn [field_bytes omap list_omap].
    split_and!; [done|by simpl; rewrite Hl|cbn [flags]; lia|cbn [field_value]; ring|].
    cbn [id]. fold (field_bytes o). change (omap id o) with (field_bytes o). rewrite len_cons. lia.
  - intros ([|[c|] o] & r & Heq & Hl & Hfl & -> & ->); [done| |].
    + injection Hl as Hl. cbn [flags field_value field_bytes omap list_omap id] in *.
      change (omap id o) with (field_bytes o) in *. simplify_eq/=. exists o, r. rewrite len_cons.
      split_and!; [done|done|lia|ring|lia].
    + cbn [flags] in Hfl. pose proof (flags_range o).
      pose proof (Z.mod_pos_bound (u8 opcode / 2 ^ (m + (i + 1))) (2 ^ Z.of_nat n) ltac:(lia)). lia.
Qed.

Lemma copy_size_range s : length s = 3%nat -> 1 <= copy_size s < 2 ^ 24.
Proof.
  intros Hs. unfold copy_size. pose proof (field_value_range s) as Hr. rewrite Hs in Hr.
  change (256 ^ Z.of_nat 3) with (2 ^ 24) in Hr. destruct (Z.eqb_spec (field_value s) 0); lia.
Qed.

(** The opcode of a copy is its two groups of flags. *)
Lemma copy_opcode b o s :
  length o = 4%nat -> length s = 3%nat ->
  128 <= u8 b /\ flags o = (u8 b / 2 ^ 0) mod 16 /\ flags s = (u8 b / 2 ^ 4) mod 8 <->
  b = byte_of (128 + flags o + 16 * flags s).
Proof.
  intros Ho Hs. pose proof (flags_range o) as Hfo. pose proof (flags_range s) as Hfs.
  rewrite Ho in Hfo. rewrite Hs in Hfs. change (2 ^ Z.of_nat 4) with 16 in Hfo.
  change (2 ^ Z.of_nat 3) with 8 in Hfs. change (2 ^ 0) with 1. change (2 ^ 4) with 16.
  rewrite Z.div_1_r. split.
  - intros (Hb & H1 & H2). apply u8_inj. rewrite u8_byte_of by lia. pose proof (u8_range b).
    pose proof (Z.div_mod (u8 b) 16 ltac:(lia)). pose proof (Z.div_mod (u8 b / 16) 8 ltac:(lia)).
    assert (8 <= u8 b / 16 < 16) by (split; [apply Z.div_le_lower_bound|apply Z.div_lt_upper_bound]; lia).
    assert (u8 b / 16 / 8 = 1) by (symmetry; apply (Z.div_unique_pos _ _ _ (u8 b / 16 - 8)); lia). lia.
  - intros ->. rewrite u8_byte_of by lia. split; [lia|]. split.
    + apply (Z.mod_unique_pos _ _ (8 + flags s)); lia.
    + replace (128 + flags o + 16 * flags s) with (flags o + (8 + flags s) * 16) by lia.
      rewrite Z.div_add, (Z.div_small (flags o)) by lia. apply (Z.mod_unique_pos _ _ 1); lia.
Qed.

Lemma slice_exact (base : bytes) a n piece :
  0 <= a -> 0 <= n ->
  slice base a (a + n) = Some piece <->
  a + n <= len base /\ piece = take (Z.to_nat n) (drop (Z.to_nat a) base).
Proof.
  intros Ha Hn. unfold slice. replace (a + n - a) with n by lia.
  destruct (Z.leb_spec 0 a); [|lia]. destruct (Z.leb_spec a (a + n)); [|lia]. simpl.
  destruct (Z.leb_spec (a + n) (len base)); naive_solver lia.
Qed.

Lemma copy_step_spec base b pre rest piece stop :
  rust_slice (pre ++ rest) -> rust_slice base -> 128 <= u8 b ->
  copy_step base (pre ++ rest) b (len pre) = Ok (piece, stop) <->
  exists o s r, b :: rest = instr_text (Copy o s) ++ r /\ instr_ok base (Copy o s) /\
    piece = instr_out base (Copy o s) /\ stop = len pre + (len (instr_text (Copy o s)) - 1).
Proof.
  intros Hr Hbase Hb. unfold copy_step.
  change [0; 1; 2; 3] with (zseq 0 4). change [0; 1; 2] with (zseq 0 3).
  change 1 with (2 ^ 0) at 1. change 16 with (2 ^ 4) at 1. split.
  - intros H.
    destruct (copy_field (zseq 0 4) _ _ _ _ _) as [[offset at1]| |] eqn:E; [|done|done].
    destruct (copy_field (zseq 0 3) _ _ _ _ _) as [[size at2]| |] eqn:E1; [|done|done].
    apply copy_field_spec in E as (o & r & -> & Ho & Hfo & -> & ->); [|done|simpl; lia..].
    rewrite app_assoc, <- len_app in *.
    apply copy_field_spec in E1 as (s & r' & -> & Hs & Hfs & -> & ->); [|done|simpl; lia..].
    change (256 ^ 0) with 1 in *. rewrite !Z.mul_1_l, !Z.add_0_l in *. change (4 + 0) with 4 in Hfs.
    fold (copy_size s) in H.
    pose proof (copy_size_range s Hs). pose proof (field_value_range o) as Hvo. rewrite Ho in Hvo.
    unfold usize_try_from in *. destruct (field_value o <=? usize_max); [|done].
    destruct (copy_size s <=? usize_max); [|done].
    destruct (checked_add _ _) eqn:E5; [|done]. cbn [ok_or] in H.
    destruct (slice base _ _) eqn:E6; [|done]. cbn [ok_or] in H. simplify_eq.
    apply checked_add_Some in E5 as [-> _].
    apply slice_exact in E6 as [Hle ->]; [|lia|lia].
    exists o, s, r'. cbn [instr_text instr_ok instr_out app]. rewrite <- (app_assoc (field_bytes o)).
    assert (b = byte_of (128 + flags o + 16 * flags s)) as <- by (by apply copy_opcode).
    rewrite len_cons, !len_app. split_and!; try done; lia.
  - intros (o & s & r & [= Hop ->] & (Ho & Hs & Hle) & -> & ->).
    rewrite <- (app_assoc (field_bytes o)) in *.
    apply copy_opcode in Hop as (_ & Hfo & Hfs); [|done..].
    pose proof (copy_size_range s Hs). pose proof (field_value_range o) as Hvo. rewrite Ho in Hvo.
    replace (copy_field (zseq 0 4) (2 ^ 0) b (pre ++ field_bytes o ++ field_bytes s ++ r) (len pre) 0)
      with (@Ok _ GitError.t (field_value o, len pre + len (field_bytes o))).
    2: { symmetry. apply copy_field_spec; [done|simpl; lia..|].
         exists o, (field_bytes s ++ r). rewrite Z.mul_1_l. done. }
    rewrite (app_assoc pre), <- len_app in *.
    replace (copy_field (zseq 0 3) (2 ^ 4) b ((pre ++ field_bytes o) ++ field_bytes s ++ r)
      (len (pre ++ field_bytes o)) 0)
      with (@Ok _ GitError.t (field_value s, len (pre ++ field_bytes o) + len (field_bytes s))).
    2: { symmetry. apply copy_field_spec; [done|simpl; lia..|].
         exists s, r. rewrite Z.mul_1_l. done. }
    fold (copy_size s). unfold usize_try_from. unfold rust_slice in Hbase.
    destruct (Z.leb_spec (field_value o) usize_max); [|unfold_widths; lia].
    destruct (Z.leb_spec (copy_size s) usize_max); [|unfold_widths; lia].
    replace (checked_add (field_value o) (copy_size s)) with (Some (field_value o + copy_size s))
      by (symmetry; apply checked_add_Some; unfold_widths; lia). cbn [ok_or].
    replace (slice base (field_value o) (field_value o + copy_size s))
      with (Some (instr_out base (Copy o s))) by (symmetry; apply slice_exact; [lia|lia|done]).
    cbn [ok_or instr_text]. rewrite len_cons, !len_app. f_equal. f_equal. lia.
Qed.

Lemma insert_step_spec base b pre rest piece stop :
  rust_slice (pre ++ rest) -> u8 b < 128 ->
  insert_step (pre ++ rest) b (len pre) = Ok (piece, stop) <->
  exists l r, b :: rest = instr_text (Insert l) ++ r /\ instr_ok base (Insert l) /\
    piece = l /\ stop = len pre + (len (instr_text (Insert l)) - 1).
Proof.
  intros Hr Hb. unfold insert_step. pose proof (u8_range b). unfold rust_slice in Hr.
  cbn [instr_text instr_ok]. split.
  - destruct (Z.eqb_spec (u8 b) 0); [done|]. intros H0. inv_ok H0. simplify_eq.
    apply ok_or_Ok in E, E0. apply checked_add_Some in E as [-> _].
    apply slice_spec in E0 as (p & q & Heq & Hp & Hl).
    assert (p = pre /\ rest = piece ++ q) as [-> ->].
    { apply app_inj_1 in Heq; [naive_solver|]. unfold len in Hp. lia. }
    exists piece, q. rewrite len_cons.
    assert (len piece = u8 b) as Hlen by lia.
    split_and!; [by rewrite Hlen, byte_of_u8|lia|lia|done|lia].
  - intros (l & r & [= -> ->] & Hl & -> & ->). rewrite u8_byte_of by lia. rewrite len_cons.
    destruct (Z.eqb_spec (len l) 0); [lia|]. rewrite !len_app in Hr.
    pose proof (len_nonneg r). pose proof (len_nonneg pre).
    replace (checked_add (len pre) (len l)) with (Some (len pre + len l))
      by (symmetry; apply checked_add_Some; unfold_widths; lia). cbn [ok_or].
    rewrite slice_app_mid. cbn [ok_or]. f_equal. f_equal. lia.
Qed.

Lemma instr_text_len i base : instr_ok base i -> 1 <= len (instr_text i).
Proof.
  destruct i as [o s|l]; cbn [instr_text]; intros _; rewrite len_cons;
    [pose proof (len_nonneg (field_bytes o ++ field_bytes s))|pose proof (len_nonneg l)]; lia.
Qed.

(** One turn of the loop: an instruction at the position, or an error. *)
Lemma delta_turn base b pre rest piece stop :
  rust_slice (pre ++ b :: rest) -> rust_slice base ->
  (if negb (Z.land (u8 b) 128 =? 0) then copy_step base (pre ++ b :: rest) b (len (pre ++ [b]))
   else insert_step (pre ++ b :: rest) b (len (pre ++ [b]))) = Ok (piece, stop) <->
  exists i r, b :: rest = instr_text i ++ r /\ instr_ok base i /\ piece = instr_out base i /\
    stop = len pre + len (instr_text i).
Proof.
  intros Hr Hb. rewrite high_bit.
  replace (pre ++ b :: rest) with ((pre ++ [b]) ++ rest) in * by (by rewrite <- app_assoc).
  destruct (Z.ltb_spec (u8 b) 128) as [Hlo|Hhi]; cbn [negb].
  - rewrite (insert_step_spec base) by done. rewrite len_snoc. split.
    + intros (l & r & Heq & Hok & -> & ->). exists (Insert l), r. split_and!; [done..|lia].
    + intros ([o s|l] & r & Heq & Hok & -> & ->).
      * cbn [instr_text] in Heq. injection Heq as Hop _. destruct Hok as (Ho & Hs & _).
        apply copy_opcode in Hop as [? _]; [lia|done|done].
      * exists l, r. split_and!; [done..|lia].
  - rewrite copy_step_spec by done. rewrite len_snoc. split.
    + intros (o & s & r & Heq & Hok & -> & ->). exists (Copy o s), r. split_and!; [done..|lia].
    + intros ([o s|l] & r & Heq & Hok & -> & ->).
      * exists o, s, r. split_and!; [done..|lia].
      * cbn [instr_text instr_ok] in *. injection Heq as Hop _. rewrite Hop, u8_byte_of in Hhi; lia.
Qed.

Lemma byte_step (pre : bytes) b rest : rust_slice (pre ++ b :: rest) -> sat_add (len pre) 1 = len (pre ++ [b]).
Proof.
  intros Hr. rewrite len_snoc. apply sat_add_small. unfold rust_slice in Hr. rewrite len_app in Hr.
  pose proof (len_nonneg (b :: rest)). unfold_widths. lia.
Qed.

Lemma delta_loop_spec fuel base pre rest target out res :
  rust_slice (pre ++ rest) -> rust_slice base -> len rest < Z.of_nat fuel ->
  delta_loop fuel base (pre ++ rest) target (len pre) out = Ok res <->
  exists prog, rest = concat (map instr_text prog) /\ Forall (instr_ok base) prog /\
    res = out ++ concat (map (instr_out base) prog) /\ len res = target.
Proof.
  revert pre rest out. induction fuel as [|fuel IH]; intros pre rest out Hr Hb Hf;
    [pose proof (len_nonneg rest); lia|].
  cbn [delta_loop]. rewrite len_app. destruct rest as [|b rest].
  { change (len (@nil Byte.byte)) with 0. destruct (Z.ltb_spec (len pre) (len pre + 0)); [lia|]. split.
    - destruct (Z.eqb_spec (len out) target); [|done]. intros [= <-].
      exists []. simpl. by rewrite app_nil_r.
    - intros ([|i prog] & Heq & Hok & -> & <-).
      + simpl. rewrite app_nil_r. by rewrite Z.eqb_refl.
      + apply Forall_cons_iff in Hok as [Hi _]. apply instr_text_len in Hi.
        apply (f_equal len) in Heq. cbn [map concat] in Heq. rewrite len_app in Heq.
        change (len (@nil Byte.byte)) with 0 in Heq.
        pose proof (len_nonneg (concat (map instr_text prog))). lia. }
  pose proof (len_nonneg rest) as Hrest. rewrite len_cons in *.
  destruct (Z.ltb_spec (len pre) (len pre + (len rest + 1))); [|lia].
  rewrite get_app_r. cbn [ok_or]. rewrite (byte_step pre b rest) by done.
  pose proof (delta_turn base b pre rest) as Hturn.
  set (turn := if negb (Z.land (u8 b) 128 =? 0) then _ else _) in *. split.
  - destruct turn as [[piece stop]| |] eqn:Et; [|done|done].
    destruct (proj1 (Hturn piece stop Hr Hb) eq_refl) as (i & r & Heq & Hok & -> & ->).
    rewrite Heq, <- len_app, app_assoc in *. destruct (_ >? target); [done|].
    assert (len (instr_text i) + len r = len rest + 1) as Hlen by (rewrite <- len_app, <- Heq, len_cons; lia).
    pose proof (instr_text_len i base Hok).
    rewrite IH by (done || lia). intros (prog & -> & His & -> & Ht).
    exists (i :: prog). cbn [map concat]. rewrite <- app_assoc in *.
    split_and!; [done|by constructor|done|done].
  - intros ([|i prog] & Heq & Hok & -> & <-); [done|]. apply Forall_cons_iff in Hok as [Hi His].
    cbn [map concat] in *.
    assert (turn = Ok (instr_out base i, len pre + len (instr_text i))) as ->.
    { apply Hturn; [done|done|]. exists i, (concat (map instr_text prog)). done. }
    rewrite Z.gtb_ltb. destruct (Z.ltb_spec (len (out ++ instr_out base i ++ concat (map (instr_out base) prog)))
      (len (out ++ instr_out base i))).
    { rewrite !len_app in *. pose proof (len_nonneg (concat (map (instr_out base) prog))). lia. }
    pose proof (instr_text_len i base Hi).
    assert (len (instr_text i) + len (concat (map instr_text prog)) = len rest + 1) as Hlen
      by (rewrite <- len_app, <- Heq, len_cons; lia).
    rewrite Heq, (app_assoc pre) in Hr. rewrite Heq, <- (len_app pre), (app_assoc pre).
    apply IH; [done|done|lia|].
    exists prog. rewrite <- !app_assoc. done.
Qed.

Lemma copy_field_fuel bits mask opcode script at_ acc :
  copy_field bits mask opcode script at_ acc <> OutOfFuel.
Proof.
  revert at_ acc. induction bits as [|bit bits IH]; intros at_ acc; cbn [copy_field]; [done|].
  destruct (negb _); [|apply IH]. destruct (get script at_); [|done]. cbn [ok_or]. apply IH.
Qed.

Lemma delta_step_fuel base script b at_ :
  (if negb (Z.land (u8 b) 128 =? 0) then copy_step base script b at_
   else insert_step script b at_) <> OutOfFuel.
Proof.
  destruct (negb _).
  - unfold copy_step.
    destruct (copy_field [0; 1; 2; 3] _ _ _ _ _) as [[]| |] eqn:E; [|done|by apply copy_field_fuel in E].
    destruct (copy_field [0; 1; 2] _ _ _ _ _) as [[]| |] eqn:E2; [|done|by apply copy_field_fuel in E2].
    unfold usize_try_from. generalize (if z1 =? 0 then 65536 else z1). intros size.
    destruct (_ <=? usize_max); [|done]. destruct (size <=? usize_max); [|done].
    destruct (checked_add _ _); [|done]. cbn [ok_or]. by destruct (slice _ _ _).
  - unfold insert_step. destruct (_ =? 0); [done|]. destruct (checked_add _ _); [|done]. cbn [ok_or].
    by destruct (slice _ _ _).
Qed.

Lemma delta_loop_fuel fuel base pre rest target out :
  rust_slice (pre ++ rest) -> rust_slice base -> len rest < Z.of_nat fuel ->
  delta_loop fuel base (pre ++ rest) target (len pre) out <> OutOfFuel.
Proof.
  revert pre rest out. induction fuel as [|fuel IH]; intros pre rest out Hr Hb Hf;
    [pose proof (len_nonneg rest); lia|].
  cbn [delta_loop]. destruct (_ <? _) eqn:Elt; [|by destruct (negb _)].
  destruct rest as [|b rest]; [by rewrite get_app_end|].
  rewrite get_app_r. cbn [ok_or]. rewrite (byte_step pre b rest) by done.
  pose proof (delta_step_fuel base (pre ++ b :: rest) b (len (pre ++ [b]))) as Hs.
  pose proof (delta_turn base b pre rest) as Hturn.
  set (turn := if negb (Z.land (u8 b) 128 =? 0) then _ else _) in *.
  destruct turn as [[piece stop]| |] eqn:Et; [|done|done].
  destruct (proj1 (Hturn piece stop Hr Hb) eq_refl) as (i & r & Heq & Hok & -> & ->).
  destruct (_ >? target); [done|]. pose proof (instr_text_len i base Hok).
  assert (len (instr_text i) + len r = len (b :: rest)) as Hlen by (by rewrite <- len_app, <- Heq).
  rewrite Heq, <- len_app, app_assoc in *. rewrite len_app in Hf. apply IH; [done|done|lia].
Qed.

Lemma header_loop_fuel fuel input size k position b :
  0 <= k <= 9 -> k + Z.of_nat fuel = 10 ->
  header_loop fuel input size (4 + 7 * k) position b <> OutOfFuel.
Proof.
  revert size k position b. induction fuel as [|fuel IH]; intros size k position b Hk Hf; [lia|].
  cbn [header_loop]. destruct (negb _); [|done]. destruct (get input position); [|done]. cbn [ok_or].
  rewrite Z.gtb_ltb. destruct (Z.ltb_spec 57 (4 + 7 * k)); [done|].
  rewrite sat_add32_small by (unfold_widths; lia).
  replace (4 + 7 * k + 7) with (4 + 7 * (k + 1)) by lia. apply IH; lia.
Qed.

Lemma ofs_loop_fuel fuel input value position b :
  rust_slice input -> 0 <= position <= len input -> len input - position < Z.of_nat fuel ->
  ofs_loop fuel input value position b <> OutOfFuel.
Proof.
  intros Hr. revert value position b.
  induction fuel as [|fuel IH]; intros value position b Hp Hf; cbn [ofs_loop]; [lia|].
  destruct (negb _); [|done]. destruct (get input position) as [c|] eqn:Eg; [|done].
  cbn [ok_or]. apply get_lt in Eg. destruct (_ ≫= _); [|done]. cbn [ok_or].
  unfold rust_slice in Hr. rewrite sat_add_small by (unfold_widths; lia). apply IH; lia.
Qed.

(** *** Inflation *)

Section InflateLemmas.
Context `{ZZ : Zlib} {ZL : ZlibLaws ZZ}.

(** What successive nonempty reads of a decoder return. *)
Inductive reads : ZlibDecoder -> bytes -> ZlibDecoder -> Prop :=
  | reads_nil d : reads d [] d
  | reads_more d room w d1 l d2 :
      0 < room -> decoder_read d room = (Some w, d1) -> w <> [] -> reads d1 l d2 ->
      reads d (w ++ l) d2.

Lemma inflate_loop_spec fuel d out filled :
  0 <= filled <= len out -> rust_slice out -> len out - filled < Z.of_nat fuel ->
  match inflate_loop fuel d out filled with
  | Ok (out', d') => exists w, reads d w d' /\ out' = take (Z.to_nat filled) out ++ w /\ len out' = len out
  | Err e => e = ObjectUnreadable
  | OutOfFuel => False
  end.
Proof.
  revert d out filled. induction fuel as [|fuel IH]; intros d out filled Hfi Hr Hf; [lia|].
  cbn [inflate_loop]. destruct (Z.ltb_spec filled (len out)) as [Hlt|Hge].
  2: { exists []. split; [constructor|]. rewrite app_nil_r. unfold len in *.
       rewrite take_ge by lia. done. }
  destruct (slice_from out filled) as [target|] eqn:Et; [|done]. cbn [ok_or].
  apply slice_from_spec in Et as (p & -> & Hp). rewrite len_app in *.
  assert (Z.to_nat filled = length p) as Hn by (unfold len in Hp; lia).
  destruct (decoder_read d (len target)) as [[w|] d1] eqn:Ed; [|done].
  pose proof (decoder_read_bound _ _ _ _ (len_nonneg target) Ed) as Hw.
  destruct w as [|c w]; [done|]. set (cw := c :: w) in *.
  assert (0 < len cw) as Hpos by (unfold cw; rewrite len_cons; pose proof (len_nonneg w); lia).
  rewrite Hn, take_app_length. unfold rust_slice in Hr. rewrite len_app in Hr.
  rewrite sat_add_small by (unfold_widths; lia).
  assert (len (p ++ write_front target cw) = len p + len target) as Hlen
    by (by rewrite len_app, write_front_len).
  specialize (IH d1 (p ++ write_front target cw) (filled + len cw)).
  unfold rust_slice in IH. rewrite Hlen in IH. specialize (IH ltac:(lia) ltac:(lia) ltac:(lia)).
  destruct (inflate_loop fuel d1 _ _) as [[out' d']| |]; [|done|done].
  destruct IH as (l & Hl & -> & Hlen'). exists (cw ++ l).
  split; [econstructor; [|done|done|done]; lia|]. split; [|done].
  rewrite app_assoc. f_equal. unfold write_front. rewrite app_assoc.
  replace (Z.to_nat (filled + len cw)) with (length (p ++ cw)).
  - apply take_app_length.
  - rewrite length_app. unfold len in *. lia.
Qed.
End InflateLemmas.

Lemma parse_entry_header_spec input h :
  rust_slice input ->
  parse_entry_header input = Ok h <->
  exists first l rest,
    input = first :: l ++ rest /\ varint_text (first :: l) /\ len l <= 8 /\
    kind_of_code (u8 first / 16 mod 8) = Ok (eh_kind h) /\
    eh_size h = u8 first mod 16 + 16 * leb_value l /\
    eh_header_len h = 1 + len l.
Proof.
  intros Hr. unfold parse_entry_header. destruct input as [|first rest].
  { split; [done|]. by intros (? & ? & ? & ? & _). }
  change (get (first :: rest) 0) with (get ([] ++ first :: rest) (len (@nil Byte.byte))).
  rewrite get_app_r. cbn [ok_or]. rewrite land_15, Z.shiftr_div_pow2 by lia.
  change (2 ^ 4) with 16. change 7 with (Z.ones 3). rewrite Z.land_ones by lia. change (2 ^ 3) with 8.
  change 1 with (len [first]) at 1. change (first :: rest) with ([first] ++ rest) in *.
  change 4 with (4 + 7 * 0) at 1. pose proof (Z.mod_pos_bound (u8 first) 16 ltac:(lia)) as H16.
  split.
  - destruct (header_loop _ _ _ _ _ _) as [[size stop]| |] eqn:E; [|done|done].
    apply header_loop_spec in E as (l & r & -> & Ht & Hle & -> & ->); [|done|simpl; lia..].
    destruct (kind_of_code _) as [k| |] eqn:Ek; [|done|done]. intros [= <-].
    exists first, l, r. cbn [eh_kind eh_size eh_header_len]. change (2 ^ (4 + 7 * 0)) with 16.
    change (len [first]) with 1. split_and!; [done|done|lia|done|lia|lia].
  - intros (f & l & r & [= <- ->] & Ht & Hle & Hk & Hs & Hh).
    destruct h as [k size stop]. cbn [eh_kind eh_size eh_header_len] in *.
    replace (header_loop _ _ _ _ _ _) with (@Ok _ GitError.t (size, stop)); [by rewrite Hk|].
    symmetry. apply header_loop_spec; [done|simpl; lia..|]. exists l, r.
    change (2 ^ (4 + 7 * 0)) with 16. change (len [first]) with 1. split_and!; [done|done|lia|lia|lia].
Qed.

Lemma apply_delta_spec base script cap vcap out :
  rust_slice base -> rust_slice script ->
  apply_delta base script cap vcap = Ok out <->
  exists src tgt prog,
    script = src ++ tgt ++ concat (map instr_text prog) /\
    varint_text src /\ len src <= 9 /\ leb_value src = len base /\
    varint_text tgt /\ len tgt <= 9 /\ leb_value tgt = len out /\
    Forall (instr_ok base) prog /\ out = concat (map (instr_out base) prog) /\
    len out <= cap /\ (forall v, vcap = Some v -> len out <= cap_limit v).
Proof.
  intros Hb Hs. unfold apply_delta. split.
  - destruct (leb128 script 0) as [[n1 at1]| |] eqn:E1; [|done|done].
    apply (leb128_spec [] script) in E1 as (src & r & -> & Ht1 & Hl1 & -> & ->); [|done].
    change (len (@nil Byte.byte) + len src) with (len src).
    destruct (leb128 _ _) as [[n2 at2]| |] eqn:E2; [|done|done].
    apply leb128_spec in E2 as (tgt & r' & -> & Ht2 & Hl2 & -> & ->); [|done].
    destruct (Z.eqb_spec (leb_value src) (len base)) as [Hsrc|]; [|done]. cbn [negb].
    set (vc := match vcap with Some _ => _ | None => _ end).
    destruct vc as [[]| |] eqn:Ev; [|done|done].
    rewrite Z.gtb_ltb. destruct (Z.ltb_spec cap (leb_value tgt)) as [|Hcap]; [done|].
    unfold usize_try_from. destruct (_ <=? usize_max); [|done].
    rewrite <- len_app, app_assoc in *. intros Hd.
    apply delta_loop_spec in Hd as (prog & -> & Hok & -> & Hlen); [|done|done|].
    2: { rewrite length_app. unfold len. lia. }
    exists src, tgt, prog. rewrite <- app_assoc. rewrite Hlen.
    split_and!; try done. intros v ->. unfold vc in Ev. rewrite Z.gtb_ltb in Ev.
    destruct (Z.ltb_spec (cap_limit v) (leb_value tgt)); [done|lia].
  - intros (src & tgt & prog & -> & Ht1 & Hl1 & Hv1 & Ht2 & Hl2 & Hv2 & Hok & Hout & Hcap & Hvc).
    replace (leb128 (src ++ tgt ++ concat (map instr_text prog)) 0)
      with (@Ok _ GitError.t (len base, len src)).
    2: { symmetry. apply (leb128_spec [] (src ++ _)); [done|]. exists src, (tgt ++ concat (map instr_text prog)).
         split_and!; done. }
    replace (leb128 _ (len src)) with (@Ok _ GitError.t (len out, len src + len tgt)).
    2: { symmetry. apply leb128_spec; [done|]. exists tgt, (concat (map instr_text prog)). done. }
    rewrite Z.eqb_refl. cbn [negb].
    replace (match vcap with Some _ => _ | None => _ end) with (@Ok _ GitError.t tt).
    2: { destruct vcap as [v|]; [|done]. rewrite Z.gtb_ltb. specialize (Hvc v eq_refl).
         destruct (Z.ltb_spec (cap_limit v) (len out)); [lia|done]. }
    rewrite Z.gtb_ltb. destruct (Z.ltb_spec cap (len out)); [lia|].
    assert (len out <= usize_max) as Hm.
    { rewrite <- Hv2. clear -Hl2 Ht2. 
      assert (forall l, leb_value l < 128 ^ len l) as Hlt.
      { induction l as [|b l IH]; [done|]. cbn [leb_value]. rewrite len_cons, Z.pow_add_r by (apply len_nonneg || lia).
        pose proof (group_range b). change (128 ^ 1) with 128. lia. }
      specialize (Hlt tgt). assert (128 ^ len tgt <= 128 ^ 9) by (apply Z.pow_le_mono_r; lia).
      change (128 ^ 9) with 9223372036854775808 in *. unfold_widths. lia. }
    unfold usize_try_from. destruct (Z.leb_spec (len out) usize_max); [|lia].
    rewrite <- len_app, app_assoc in *. apply delta_loop_spec; [done|done| |by exists prog].
    rewrite length_app. unfold len. lia.
Qed.

Lemma inflate_exact_spec (ZZ : Zlib) (ZL : ZlibLaws ZZ) data expected cap :
  0 <= expected -> cap <= isize_max ->
  match inflate_exact data expected cap with
  | Ok out =>
      len out = expected /\ expected <= cap /\
      exists d d', reads (decoder_new data) out d /\ decoder_read d 1 = (Some [], d') /\
        decoder_total_in d' = len data
  | Err e => e = ObjectUnreadable \/ expected > cap /\ e = ResourceLimit GitObjectBytes cap expected
  | OutOfFuel => False
  end.
Proof.
  intros He Hc. unfold inflate_exact, crossing. rewrite Z.gtb_ltb.
  destruct (Z.ltb_spec cap expected); [right; split; [lia|done]|].
  unfold usize_try_from. destruct (_ <=? usize_max); [|by left].
  assert (len (repeat x00 (Z.to_nat expected)) = expected) as Hlen
    by (unfold len; rewrite repeat_length; lia).
  pose proof (inflate_loop_spec (S (length (repeat x00 (Z.to_nat expected)))) (decoder_new data)
    (repeat x00 (Z.to_nat expected)) 0) as Hl.
  unfold rust_slice in Hl. rewrite Hlen in Hl.
  specialize (Hl ltac:(lia) ltac:(lia) ltac:(unfold len in Hlen; lia)).
  destruct (inflate_loop _ _ _ _) as [[out d]|e|]; [|by left; subst|done].
  destruct Hl as (w & Hw & -> & Hlw). change (Z.to_nat 0) with 0%nat in *. cbn [take app] in *.
  destruct (decoder_read d 1) as [[[|? ?]|] d'] eqn:Ed; [|by left|by left].
  destruct (Z.eqb_spec (decoder_total_in d') (len data)); [|by left]. cbn [negb].
  split; [done|]. split; [lia|]. by exists d, d'.
Qed.

Lemma entry_parsers_fuel input base cap vcap :
  rust_slice input -> rust_slice base ->
  parse_entry_header input <> OutOfFuel /\ parse_ofs_distance input <> OutOfFuel /\
  apply_delta base input cap vcap <> OutOfFuel.
Proof.
  intros Hr Hb. split_and!.
  - unfold parse_entry_header. destruct (get input 0) as [b|]; [|done]. cbn [ok_or].
    change 4 with (4 + 7 * 0) at 2.
    pose proof (header_loop_fuel 10 input (Z.land (u8 b) 15) 0 1 b ltac:(lia) ltac:(lia)) as Hh.
    destruct (header_loop _ _ _ _ _ _) as [[]| |]; [|done|done].
    unfold kind_of_code. by repeat case_match.
  - unfold parse_ofs_distance. destruct (get input 0) as [b|] eqn:Eg; [|done]. cbn [ok_or].
    apply get_lt in Eg. apply ofs_loop_fuel; [done|change (sat_add 0 1) with 1; lia|].
    change (sat_add 0 1) with 1. unfold len. lia.
  - unfold apply_delta. destruct (leb128 input 0) as [[n1 at1]| |] eqn:E1; [|done|by apply leb128_fuel in E1].
    destruct (leb128 input at1) as [[n2 at2]| |] eqn:E2; [|done|by apply leb128_fuel in E2].
    destruct (negb _); [done|]. set (vc := match vcap with Some _ => _ | None => _ end).
    assert (vc <> OutOfFuel) as Hvc by (unfold vc; destruct vcap; [by destruct (_ >? _)|done]).
    destruct vc; [|done|done]. destruct (n2 >? cap); [done|].
    unfold usize_try_from. destruct (_ <=? usize_max); [|done].
    apply (leb128_spec [] input) in E1 as (src & r & -> & _ & _ & _ & ->); [|done].
    change (len (@nil Byte.byte) + len src) with (len src) in E2.
    apply leb128_spec in E2 as (tgt & r' & -> & _ & _ & _ & ->); [|done].
    rewrite <- len_app, app_assoc in *. apply delta_loop_fuel; [done|done|].
    rewrite length_app. unfold len. lia.
Qed.

(** ** Properties *)

(** the entry header of a pack object is read exactly: the bytes up to the first
    one without a continuation bit, at most nine of them; the kind from bits
    four to six of the first byte, the size from its low four bits and the
    seven-bit groups that follow, little end first, always below 2^60 and with
    no group lost to the shift. *)
Theorem entry_header_exact input h :
  rust_slice input ->
  parse_entry_header input = Ok h <->
  exists first l rest,
    input = first :: l ++ rest /\ varint_text (first :: l) /\ len l <= 8 /\
    kind_of_code (u8 first / 16 mod 8) = Ok (eh_kind h) /\
    eh_size h = u8 first mod 16 + 16 * leb_value l /\
    eh_header_len h = 1 + len l.
Proof. apply parse_entry_header_spec. Qed.

Lemma entry_header_exact_witness :
  rust_slice [byte_of 0xb5; byte_of 0x0a; x00] /\
  parse_entry_header [byte_of 0xb5; byte_of 0x0a; x00]
    = Ok (mkEntryHeader (EntryKind.Object ObjectKind.Blob) 165 2).
Proof.
  assert (rust_slice [byte_of 0xb5; byte_of 0x0a; x00]) as Hr by (vm_compute; discriminate).
  split; [exact Hr|]. apply (entry_header_exact _ _ Hr).
  exists (byte_of 0xb5), [byte_of 0x0a], [x00].
  split; [reflexivity|]. split; [apply varint_more; [vm_compute; discriminate|]; constructor; reflexivity|].
  split; [vm_compute; discriminate|]. repeat split; reflexivity.
Defined.

(** an offset-delta distance is read back exactly as Git writes it, and
    nothing else is accepted: the distance of every value up to the largest
    u64 has one encoding, larger values and truncated input are refused. *)
Theorem ofs_distance_exact input v stop :
  rust_slice input ->
  parse_ofs_distance input = Ok (v, stop) <->
  0 <= v <= u64_max /\ exists rest, input = encode_ofs v ++ rest /\ stop = len (encode_ofs v).
Proof.
  intros Hr. rewrite parse_ofs_spec by done. split.
  - intros (l & r & -> & Ht & -> & Hm & ->).
    assert (0 <= ofs_value l) as H0.
    { destruct l as [|b l]; [inversion Ht|]. unfold ofs_value. simpl.
      pose proof (ofs_step_grows (-1) b ltac:(lia)).
      pose proof (ofs_fold_grows l (ofs_step (-1) b) ltac:(lia)). lia. }
    destruct (encode_ofs_spec (ofs_value l)) as [Ht' Hv']; [lia|].
    rewrite (ofs_value_inj _ _ Ht' Ht Hv'). split; [lia|]. by exists r.
  - intros (Hv & r & -> & ->). destruct (encode_ofs_spec v Hv) as [Ht Hval].
    exists (encode_ofs v), r. split_and!; [done|done|done|lia|done].
Qed.

Lemma ofs_distance_exact_witness :
  rust_slice (encode_ofs 16511 ++ [x01]) /\
  parse_ofs_distance (encode_ofs 16511 ++ [x01]) = Ok (16511, 2).
Proof.
  assert (rust_slice (encode_ofs 16511 ++ [x01])) as Hr by (vm_compute; discriminate).
  split; [exact Hr|]. apply (ofs_distance_exact _ _ _ Hr).
  split; [vm_compute; split; discriminate|]. exists [x01]. split; reflexivity.
Defined.

(** C30: applying a delta succeeds exactly on the scripts of Git's grammar: two
    sizes, then copy and insert instructions to the end, every copy inside the
    base. The result is what the instructions append, its length is the declared
    one and within both caps, and the base has the declared length. *)
Theorem apply_delta_exact base script cap vcap out :
  rust_slice base -> rust_slice script ->
  apply_delta base script cap vcap = Ok out <->
  exists src tgt prog,
    script = src ++ tgt ++ concat (map instr_text prog) /\
    varint_text src /\ len src <= 9 /\ leb_value src = len base /\
    varint_text tgt /\ len tgt <= 9 /\ leb_value tgt = len out /\
    Forall (instr_ok base) prog /\ out = concat (map (instr_out base) prog) /\
    len out <= cap /\ (forall v, vcap = Some v -> len out <= cap_limit v).
Proof. apply apply_delta_spec. Qed.

(** Copies "ell" and "o" out of "hello" around an inserted "-". *)
Definition example_delta : bytes :=
  [x05; x05; byte_of 0x91; x01; x03; x01; "-"%byte; byte_of 0x91; x04; x01].

Lemma apply_delta_exact_witness :
  (rust_slice (b_ "hello") /\ rust_slice example_delta) /\
  apply_delta (b_ "hello") example_delta 100 None = Ok (b_ "ell-o").
Proof.
  assert (rust_slice (b_ "hello")) as H1 by (vm_compute; discriminate).
  assert (rust_slice example_delta) as H2 by (vm_compute; discriminate).
  split; [exact (conj H1 H2)|]. apply (apply_delta_exact _ _ 100 None _ H1 H2).
  exists [x05], [x05],
    [Copy [Some x01; None; None; None] [Some x03; None; None]; Insert [ "-"%byte];
     Copy [Some x04; None; None; None] [Some x01; None; None]].
  split; [reflexivity|]. split; [by constructor|]. split; [vm_compute; discriminate|].
  split; [reflexivity|]. split; [by constructor|]. split; [vm_compute; discriminate|].
  split; [reflexivity|]. split; [|split; [reflexivity|split; [vm_compute; discriminate|done]]].
  repeat constructor; vm_compute; discriminate.
Defined.

(** an entry's stream that inflates is exactly the declared number of bytes, at
    most the cap: the bytes of the decoder's successive reads, followed by the
    end of the stream, with all of the entry's data consumed. Inflating always
    ends. *)
Theorem inflate_exact_sound (ZZ : Zlib) (ZL : ZlibLaws ZZ) data expected cap :
  0 <= expected -> cap <= isize_max ->
  match inflate_exact data expected cap with
  | Ok out =>
      len out = expected /\ expected <= cap /\
      exists d d', reads (decoder_new data) out d /\ decoder_read d 1 = (Some [], d') /\
        decoder_total_in d' = len data
  | Err e => e = ObjectUnreadable \/ expected > cap /\ e = ResourceLimit GitObjectBytes cap expected
  | OutOfFuel => False
  end.
Proof. by apply inflate_exact_spec. Qed.

Lemma inflate_exact_sound_witness :
  ZlibLaws stored_zlib /\
  inflate_exact (H := stored_zlib) (b_ "hi") 2 10 = Ok (b_ "hi") /\ len (b_ "hi") = 2.
Proof.
  split; [exact stored_zlib_laws|].
  assert (inflate_exact (H := stored_zlib) (b_ "hi") 2 10 = Ok (b_ "hi")) as Hi by (vm_compute; reflexivity).
  split; [exact Hi|].
  pose proof (inflate_exact_sound stored_zlib stored_zlib_laws (b_ "hi") 2 10
    ltac:(lia) ltac:(unfold_widths; lia)) as Hs.
  rewrite Hi in Hs. exact (proj1 Hs).
Defined.

(** every parser of pack entries ends on every input. *)
Theorem entry_parsers_total input base cap vcap :
  rust_slice input -> rust_slice base ->
  parse_entry_header input <> OutOfFuel /\ parse_ofs_distance input <> OutOfFuel /\
  apply_delta base input cap vcap <> OutOfFuel.
Proof. apply entry_parsers_fuel. Qed.

Lemma entry_parsers_total_witness :
  (rust_slice example_delta /\ rust_slice (b_ "hello")) /\
  apply_delta (b_ "hello") example_delta 4 None <> OutOfFuel.
Proof.
  assert (rust_slice example_delta) as H1 by (vm_compute; discriminate).
  assert (rust_slice (b_ "hello")) as H2 by (vm_compute; discriminate).
  split; [exact (conj H1 H2)|].
  apply (entry_parsers_total example_delta (b_ "hello") 4 None H1 H2).
Defined.
