(* ===== verification/GitPackIndex.v ===== *)
(** Pack indexes: [crates/amiss-git/src/pack/index.rs] and the lookups of
    [pack.rs] over a loaded index ([Pack::find], [Pack::row_at]). *)
From Stdlib Require Import Strings.Byte Strings.String Lia Sorting.Sorted.
From stdpp Require Import base list numbers sorting.
From S2P Require Import Prelude Codec WireModel GitObject.
Import GitError.

(** ** The code *)

(** [oid_width] of [pack.rs]. *)
Definition oid_width (f : ObjectFormat) : usize :=
  match f with Sha1 => 20 | Sha256 => 32 end.

Record ParsedIndex := mkParsedIndex {
  pi_oids : bytes;
  pi_fanout_bounds : list u32;
  pi_offsets : list u64;
  pi_crcs : option (list u32);
  pi_stored_pack_checksum : bytes
}.

Definition be32 (input : bytes) (at_ : usize) : result u32 :=
  let? s := ok_or (slice input at_ (sat_add at_ 4)) ObjectUnreadable in
  if len s =? 4 then Ok (from_be_bytes s) else Err ObjectUnreadable.

Definition be64 (input : bytes) (at_ : usize) : result u64 :=
  let? s := ok_or (slice input at_ (sat_add at_ 8)) ObjectUnreadable in
  if len s =? 8 then Ok (from_be_bytes s) else Err ObjectUnreadable.

(** The 256 cumulative counts, each at least the one before. *)
Fixpoint fanout_loop (n : nat) (body : bytes) (at_ bucket : usize) (previous : u32)
    : result (list u32) :=
  match n with
  | O => Ok []
  | S n =>
      let? value := be32 body (sat_add at_ (sat_mul bucket 4)) in
      if value <? previous then Err ObjectUnreadable
      else
        let? rest := fanout_loop n body at_ (bucket + 1) value in
        Ok (value :: rest)
  end.

(** [read_fanout]: a leading zero, so that bucket [b] is the half-open interval
    between the bounds [b] and [b + 1]. *)
Definition read_fanout (body : bytes) (at_ : usize) : result (list u32 * usize) :=
  let? uppers := fanout_loop 256 body at_ 0 0 in
  Ok (0 :: uppers, sat_add at_ 1024).

(** The [for row in 0..count] loop of [validate_oids], [n] rows from [row]. *)
Fixpoint validate_loop (n : nat) (oids : bytes) (width : usize) (fanout_bounds : list u32)
    (row : usize) (previous : option bytes) : result unit :=
  match n with
  | O => Ok tt
  | S n =>
      let start := sat_mul row width in
      let? oid := ok_or (slice oids start (sat_add start width)) ObjectUnreadable in
      if match previous with Some prev => negb (bytes_ltb prev oid) | None => false end
      then Err ObjectUnreadable
      else
        let? first := ok_or (get oid 0) ObjectUnreadable in
        let bucket := u8 first in
        let? lower := ok_or (get fanout_bounds bucket) ObjectUnreadable in
        let? upper := ok_or (get fanout_bounds (sat_add bucket 1)) ObjectUnreadable in
        let? row32 := u32_try_from row ObjectUnreadable in
        if (row32 <? lower) || (upper <=? row32) then Err ObjectUnreadable
        else validate_loop n oids width fanout_bounds (row + 1) (Some oid)
  end.

Definition validate_oids (oids : bytes) (width : usize) (fanout_bounds : list u32) : result unit :=
  let count := if width =? 0 then 0 else len oids / width in
  validate_loop (Z.to_nat count) oids width fanout_bounds 0 None.

(** The body of the offset loop of [parse_index_v2]: a small offset, or the
    index of a large one. *)
Definition offset_row (body : bytes) (offsets_at large_at large_count row : usize) : result u64 :=
  let? raw := be32 body (sat_add offsets_at (sat_mul row 4)) in
  if Z.land raw 2147483648 =? 0 then Ok raw
  else
    let? index := usize_try_from (Z.land raw 2147483647) ObjectUnreadable in
    if large_count <=? index then Err ObjectUnreadable
    else be64 body (sat_add large_at (sat_mul index 8)).

Definition parse_index_v2 (body : bytes) (width : usize) (stored_pack_checksum : bytes)
    : result ParsedIndex :=
  let? version := be32 body 4 in
  if negb (version =? 2) then Err ObjectUnreadable
  else
    let? (fanout_bounds, oids_at) := read_fanout body 8 in
    let? last_bound := ok_or (last fanout_bounds) ObjectUnreadable in
    let? count := usize_try_from last_bound ObjectUnreadable in
    let oids_len := sat_mul count width in
    let crcs_at := sat_add oids_at oids_len in
    let offsets_at := sat_add crcs_at (sat_mul count 4) in
    let large_at := sat_add offsets_at (sat_mul count 4) in
    let? large_len := ok_or (checked_sub (len body) large_at) ObjectUnreadable in
    if negb (large_len mod 8 =? 0) then Err ObjectUnreadable
    else
      let large_count := large_len / 8 in
      let? oids := ok_or (slice body oids_at crcs_at) ObjectUnreadable in
      let? _ := validate_oids oids width fanout_bounds in
      let? crcs := res_map (fun row => be32 body (sat_add crcs_at (sat_mul row 4)))
                     (zseq 0 (Z.to_nat count)) in
      let? offsets := res_map (offset_row body offsets_at large_at large_count)
                        (zseq 0 (Z.to_nat count)) in
      Ok (mkParsedIndex oids fanout_bounds offsets (Some crcs) stored_pack_checksum).

(** The row loop of [parse_index_v1]: offset and object ID side by side. *)
Definition v1_row (body : bytes) (entries_at stride row : usize) : result (u64 * bytes) :=
  let at_ := sat_add entries_at (sat_mul row stride) in
  let? offset := be32 body at_ in
  let? oid := ok_or (slice body (sat_add at_ 4) (sat_add at_ stride)) ObjectUnreadable in
  Ok (offset, oid).

Definition parse_index_v1 (body : bytes) (width : usize) (stored_pack_checksum : bytes)
    : result ParsedIndex :=
  let? (fanout_bounds, entries_at) := read_fanout body 0 in
  let? last_bound := ok_or (last fanout_bounds) ObjectUnreadable in
  let? count := usize_try_from last_bound ObjectUnreadable in
  let stride := sat_add width 4 in
  let expected := sat_add entries_at (sat_mul count stride) in
  if negb (len body =? expected) then Err ObjectUnreadable
  else
    let? rows := res_map (v1_row body entries_at stride) (zseq 0 (Z.to_nat count)) in
    let oids := concat (map snd rows) in
    let? _ := validate_oids oids width fanout_bounds in
    Ok (mkParsedIndex oids fanout_bounds (map fst rows) None stored_pack_checksum).

Definition INDEX_MAGIC : bytes := [byte_of 255; "t"%byte; "O"%byte; "c"%byte].

Section ParseIndex.
Context `{Hashes}.

Definition parse_index (input : bytes) (f : ObjectFormat) : result ParsedIndex :=
  let width := oid_width f in
  let? split := ok_or (checked_sub (len input) width) ObjectUnreadable in
  let? content := ok_or (slice_to input split) ObjectUnreadable in
  let? idx_checksum := ok_or (slice_from input split) ObjectUnreadable in
  if negb (bytes_eqb (ordinary_digest f content) idx_checksum) then Err ObjectUnreadable
  else
    let? pack_ck_at := ok_or (checked_sub (len content) width) ObjectUnreadable in
    let? stored_pack_checksum := ok_or (slice_from content pack_ck_at) ObjectUnreadable in
    let? body := ok_or (slice_to content pack_ck_at) ObjectUnreadable in
    if match slice_to body 4 with Some m => bytes_eqb m INDEX_MAGIC | None => false end
    then parse_index_v2 body width stored_pack_checksum
    else parse_index_v1 body width stored_pack_checksum.
End ParseIndex.

(** [Pack]; the open file is of the type of the file system's handles. *)
Record Pack {File : Type} := mkPack {
  name_hex : bytes;
  file : File;
  width : usize;
  oids : bytes;
  fanout_bounds : list u32;
  offset_rows : list usize;
  offsets : list u64;
  crcs : option (list u32);
  data_end : u64
}.
Arguments Pack File : clear implicits.

Section Lookups.
Context {File : Type}.

(** The binary search of [Pack::find]. The window shrinks every turn, so its
    size bounds the turns. *)
Fixpoint find_loop (fuel : nat) (p : Pack File) (oid_raw : bytes) (low high : usize)
    : option usize :=
  match fuel with
  | O => None
  | S fuel =>
      if low <? high then
        let middle := (low + high) / 2 in
        let start := sat_mul middle (width p) in
        match slice (oids p) start (sat_add start (width p)) with
        | None => None
        | Some candidate =>
            match bytes_cmp candidate oid_raw with
            | Lt => find_loop fuel p oid_raw (sat_add middle 1) high
            | Gt => find_loop fuel p oid_raw low middle
            | Eq => Some middle
            end
        end
      else None
  end.

Definition find (p : Pack File) (oid_raw : bytes) : option usize :=
  if negb (len oid_raw =? width p) then None
  else
    first ← get oid_raw 0;
    low ← get (fanout_bounds p) (u8 first);
    high ← get (fanout_bounds p) (sat_add (u8 first) 1);
    find_loop (S (Z.to_nat (high - low))) p oid_raw low high.

(** [Option<&u64>::cmp]: [None] below every [Some]. *)
Definition option_cmp (a b : option u64) : comparison :=
  match a, b with
  | None, None => Eq
  | None, Some _ => Lt
  | Some _, None => Gt
  | Some x, Some y => x ?= y
  end.

(** The position in offset order that [row_at] and [read_interval] search. *)
Definition offset_position (p : Pack File) (offset : u64) : option nat :=
  binary_search_by (fun row => option_cmp (get (offsets p) row) (Some offset)) (offset_rows p).

Definition row_at (p : Pack File) (offset : u64) : option usize :=
  position ← offset_position p offset;
  offset_rows p !! position.
End Lookups.

(** ** The index a parse stands for *)

(** The row of an object ID lies in the fan-out interval of its first byte. *)
Definition in_bucket (fanout : list u32) (row : Z) (oid : bytes) : Prop :=
  exists first lower upper,
    get oid 0 = Some first /\ get fanout (u8 first) = Some lower /\
    get fanout (u8 first + 1) = Some upper /\ lower <= row < upper.

(** The object IDs of an index: distinct, in increasing order, each in the
    interval of its first byte, the intervals covering the rows. *)
Record index_wf (w : usize) (oids : bytes) (fanout : list u32) (rows : list bytes) : Prop := {
  wf_width : 0 < w;
  wf_oids : oids = concat rows;
  wf_slice : rust_slice oids;
  wf_row_len : Forall (fun r => len r = w) rows;
  wf_sorted : StronglySorted bytes_lt rows;
  wf_buckets : forall i r, rows !! i = Some r -> in_bucket fanout (Z.of_nat i) r;
  wf_fanout_len : len fanout = 257;
  wf_fanout_nonneg : Forall (fun v => 0 <= v) fanout;
  wf_fanout_sorted : StronglySorted Z.le fanout;
  wf_fanout_last : last fanout = Some (len rows)
}.

(** ** Lemmas *)

Lemma be32_range input at_ v : be32 input at_ = Ok v -> 0 <= v <= u32_max.
Proof.
  unfold be32. destruct (slice _ _ _) as [s|]; [|done]. cbn [ok_or].
  destruct (Z.eqb_spec (len s) 4) as [Hl|]; [|done]. intros [= <-].
  pose proof (from_be_bytes_range s) as Hr. rewrite Hl in Hr. unfold_widths. lia.
Qed.

Lemma fanout_loop_spec n body at_ bucket previous l :
  fanout_loop n body at_ bucket previous = Ok l ->
  length l = n /\ StronglySorted Z.le (previous :: l) /\ Forall (fun v => v <= u32_max) l.
Proof.
  revert bucket previous l. induction n as [|n IH]; intros bucket previous l Hl; cbn [fanout_loop] in Hl.
  - injection Hl as <-. repeat constructor.
  - destruct (be32 _ _) as [v| |] eqn:Ev; [|done|done]. apply be32_range in Ev.
    destruct (Z.ltb_spec v previous); [done|].
    destruct (fanout_loop n body at_ (bucket + 1) v) as [r| |] eqn:Er; [|done|done].
    injection Hl as <-. apply IH in Er as (Hlen & Hs & Hf). split; [simpl; lia|].
    split; [|constructor; [lia|done]].
    constructor; [done|]. constructor; [done|].
    apply StronglySorted_inv in Hs as [_ Hs]. eapply Forall_impl; [exact Hs|]. simpl. lia.
Qed.

Lemma read_fanout_spec body at_ bounds next :
  read_fanout body at_ = Ok (bounds, next) ->
  len bounds = 257 /\ StronglySorted Z.le bounds /\ Forall (fun v => 0 <= v <= u32_max) bounds /\
  next = sat_add at_ 1024.
Proof.
  unfold read_fanout. destruct (fanout_loop _ _ _ _ _) as [l| |] eqn:El; [|done|done].
  intros [= <- <-]. apply fanout_loop_spec in El as (Hl & Hs & Hf).
  split; [unfold len; simpl; lia|]. split; [done|]. split; [|done].
  apply StronglySorted_inv in Hs as [_ Hs].
  constructor; [unfold_widths; lia|]. rewrite Forall_forall in *. intros v Hv. split; [by apply Hs|by apply Hf].
Qed.

(** What [validate_loop] accepts: the rest of the table is [n] more rows. *)
Lemma validate_loop_spec n w fanout pre rest row previous :
  0 < w -> rust_slice (pre ++ rest) -> len pre = row * w -> 0 <= row -> len rest = Z.of_nat n * w ->
  validate_loop n (pre ++ rest) w fanout row previous = Ok tt ->
  exists rows, rest = concat rows /\ length rows = n /\ Forall (fun r => len r = w) rows /\
    StronglySorted bytes_lt (option_list previous ++ rows) /\
    (forall i r, rows !! i = Some r -> in_bucket fanout (row + Z.of_nat i) r).
Proof.
  revert pre rest row previous.
  induction n as [|n IH]; intros pre rest row previous Hw Hr Hpre Hrow Hrest Hv.
  { assert (rest = []) as -> by (apply length_zero_iff_nil; unfold len in Hrest; lia).
    exists []. split_and!; try done. rewrite app_nil_r. destruct previous; repeat constructor. }
  cbn [validate_loop] in Hv. unfold rust_slice in Hr. rewrite len_app in Hr.
  pose proof (len_nonneg pre). pose proof (len_nonneg rest).
  rewrite sat_mul_small in Hv by (unfold_widths; lia).
  rewrite sat_add_small in Hv by (unfold_widths; nia).
  destruct (slice _ _ _) as [oid|] eqn:Es; [|done]. cbn [ok_or] in Hv.
  apply slice_spec in Es as (p & q & Heq & Hp & Hlen).
  assert (pre = p /\ rest = oid ++ q) as [<- ->].
  { apply app_inj_1 in Heq; [done|]. unfold len in *. lia. }
  destruct (match previous with Some prev => _ | None => _ end) eqn:Eprev; [done|].
  destruct (get oid 0) as [first|] eqn:Ef; [|done]. cbn [ok_or] in Hv.
  pose proof (u8_range first). rewrite sat_add_small in Hv by (unfold_widths; lia).
  destruct (get fanout (u8 first)) as [lower|] eqn:El; [|done]. cbn [ok_or] in Hv.
  destruct (get fanout (u8 first + 1)) as [upper|] eqn:Eu; [|done]. cbn [ok_or] in Hv.
  unfold u32_try_from in Hv. destruct (row <=? u32_max); [|done].
  destruct ((row <? lower) || (upper <=? row)) eqn:Eb; [done|]. bool_prop.
  rewrite app_assoc in Hv. rewrite len_app in Hrest.
  apply IH in Hv as (rows & -> & Hn & Hl & Hs & Hbk); [|done|..].
  - exists (oid :: rows). cbn [concat]. split_and!; [done|simpl; lia|constructor; [lia|done]| |].
    + destruct previous as [prev|]; [|done]. bool_prop. apply bytes_ltb_lt in Eprev.
      change (option_list (Some oid)) with [oid] in Hs. cbn [app option_list] in *.
      constructor; [done|]. constructor; [done|].
      apply StronglySorted_inv in Hs as [_ Hs]. eapply Forall_impl; [exact Hs|].
      intros y Hy. by trans oid.
    + intros [|i] r Hi.
      * injection Hi as <-. exists first, lower, upper. rewrite Z.add_0_r. split_and!; [done..|lia|lia].
      * apply Hbk in Hi. by replace (row + Z.of_nat (S i)) with (row + 1 + Z.of_nat i) by lia.
  - unfold rust_slice. rewrite <- app_assoc. rewrite !len_app in *. lia.
  - rewrite len_app. lia.
  - lia.
  - lia.
Qed.

Lemma validate_oids_spec oids w fanout n :
  0 < w -> rust_slice oids -> len oids = Z.of_nat n * w ->
  validate_oids oids w fanout = Ok tt ->
  exists rows, oids = concat rows /\ length rows = n /\ Forall (fun r => len r = w) rows /\
    StronglySorted bytes_lt rows /\
    (forall i r, rows !! i = Some r -> in_bucket fanout (Z.of_nat i) r).
Proof.
  intros Hw Hr Hlen Hv. unfold validate_oids in Hv. destruct (Z.eqb_spec w 0); [lia|].
  rewrite Hlen, Z.div_mul, Nat2Z.id in Hv by lia.
  apply (validate_loop_spec n w fanout [] oids 0 None) in Hv as (rows & H); [by exists rows|done|done|done|lia|lia].
Qed.

Lemma last_Forall {A} (P : A -> Prop) l x : Forall P l -> last l = Some x -> P x.
Proof. intros Hf [l' ->]%last_Some. apply Forall_app in Hf as [_ Hf]. by apply Forall_cons_iff in Hf as [? _]. Qed.

Lemma concat_len (rows : list bytes) w : Forall (fun r => len r = w) rows -> len (concat rows) = len rows * w.
Proof.
  induction 1 as [|r rows Hr Hf IH]; [done|]. cbn [concat]. rewrite len_app, len_cons. lia.
Qed.

(** A table of rows of one width is indexed by multiples of it. *)
Lemma concat_row (rows : list bytes) w i :
  0 < w -> Forall (fun r => len r = w) rows -> 0 <= i ->
  slice (concat rows) (i * w) (i * w + w) = get rows i.
Proof.
  intros Hw Hf Hi. destruct (get rows i) as [r|] eqn:Eg.
  - apply get_spec in Eg as (l & k & -> & <-). apply Forall_app in Hf as [Hl Hk].
    apply Forall_cons_iff in Hk as [Hr Hk]. rewrite concat_app. cbn [concat].
    apply slice_spec. exists (concat l), (concat k). rewrite (concat_len l w) by done.
    split_and!; [done..|lia].
  - destruct (slice _ _ _) as [s|] eqn:Es; [|done]. exfalso.
    apply slice_len in Es as (_ & _ & Hle). rewrite (concat_len rows w) in Hle by done.
    destruct (get_Some rows i) as [x Hx]; [|congruence]. nia.
Qed.

Lemma oid_width_cases f : oid_width f = 20 \/ oid_width f = 32.
Proof. destruct f; auto. Qed.

(** What both versions promise. *)
Definition parsed_ok (w : usize) (p : ParsedIndex) : Prop :=
  exists rows,
    index_wf w (pi_oids p) (pi_fanout_bounds p) rows /\
    length (pi_offsets p) = length rows /\
    (forall c, pi_crcs p = Some c -> length c = length rows).

Lemma res_map_length {A B E} (f : A -> res B E) l ys : res_map f l = Ok ys -> length ys = length l.
Proof. intros H%res_map_Ok. symmetry. by eapply Forall2_length. Qed.

Lemma rust_slice_sub (l : bytes) a b s : rust_slice l -> slice l a b = Some s -> rust_slice s.
Proof. unfold rust_slice. intros Hl Hs. apply slice_len in Hs. lia. Qed.

Lemma parse_index_v2_ok body w ck p :
  rust_slice body -> w = 20 \/ w = 32 -> parse_index_v2 body w ck = Ok p ->
  parsed_ok w p /\ pi_stored_pack_checksum p = ck.
Proof.
  intros Hr Hw Hp. unfold parse_index_v2 in Hp.
  destruct (be32 body 4) as [v| |]; [|done|done]. destruct (negb (v =? 2)); [done|].
  destruct (read_fanout body 8) as [[fb oids_at]| |] eqn:Ef; [|done|done].
  apply read_fanout_spec in Ef as (Hflen & Hfs & Hff & ->).
  destruct (last fb) as [count|] eqn:El; [|done]. cbn [ok_or] in Hp.
  pose proof (last_Forall _ _ _ Hff El) as Hc. cbv beta in Hc.
  unfold usize_try_from in Hp. destruct (count <=? usize_max); [|done].
  change (sat_add 8 1024) with 1032 in Hp.
  rewrite (sat_mul_small count w) in Hp by (unfold_widths; destruct Hw; subst; lia).
  rewrite (sat_add_small 1032) in Hp by (unfold_widths; destruct Hw; subst; lia).
  destruct (checked_sub _ _) as [ll|]; [|done]. cbn [ok_or] in Hp.
  destruct (negb _); [done|].
  destruct (slice body 1032 _) as [oids|] eqn:Eo; [|done]. cbn [ok_or] in Hp.
  destruct (validate_oids _ _ _) as [[]| |] eqn:Ev; [|done|done].
  destruct (res_map _ _) as [crcs| |] eqn:Ec; [|done|done].
  destruct (res_map (offset_row _ _ _ _) _) as [offs| |] eqn:Eoff; [|done|done].
  injection Hp as <-. split; [|done].
  pose proof (rust_slice_sub _ _ _ _ Hr Eo) as Hro. apply slice_len in Eo as [Hol _].
  apply (validate_oids_spec oids w fb (Z.to_nat count)) in Ev
    as (rows & Hoids & Hn & Hl & Hs & Hb); [|destruct Hw; lia|done|nia].
  apply res_map_length in Ec, Eoff. rewrite zseq_length in Ec, Eoff.
  exists rows. cbn [pi_oids pi_fanout_bounds pi_offsets pi_crcs]. split; [|split; [lia|]].
  - split; try done; [destruct Hw; lia| |].
    + eapply Forall_impl; [exact Hff|]. simpl. lia.
    + rewrite El. f_equal. unfold len. lia.
  - intros c [= <-]. lia.
Qed.

Lemma parse_index_v1_ok body w ck p :
  rust_slice body -> w = 20 \/ w = 32 -> parse_index_v1 body w ck = Ok p ->
  parsed_ok w p /\ pi_stored_pack_checksum p = ck.
Proof.
  intros Hr Hw Hp. unfold parse_index_v1 in Hp.
  destruct (read_fanout body 0) as [[fb entries_at]| |] eqn:Ef; [|done|done].
  apply read_fanout_spec in Ef as (Hflen & Hfs & Hff & ->).
  destruct (last fb) as [count|] eqn:El; [|done]. cbn [ok_or] in Hp.
  pose proof (last_Forall _ _ _ Hff El) as Hc. cbv beta in Hc.
  unfold usize_try_from in Hp. destruct (count <=? usize_max); [|done].
  change (sat_add 0 1024) with 1024 in Hp.
  rewrite (sat_add_small w 4) in Hp by (unfold_widths; destruct Hw; lia).
  rewrite (sat_mul_small count) in Hp by (unfold_widths; destruct Hw; subst; lia).
  rewrite (sat_add_small 1024) in Hp by (unfold_widths; destruct Hw; subst; lia).
  destruct (Z.eqb_spec (len body) (1024 + count * (w + 4))) as [Hbody|]; [|done]. cbn [negb] in Hp.
  destruct (res_map _ _) as [rs| |] eqn:Er; [|done|done].
  destruct (validate_oids _ _ _) as [[]| |] eqn:Ev; [|done|done].
  injection Hp as <-. split; [|done].
  pose proof (res_map_length _ _ _ Er) as Hrl. rewrite zseq_length in Hrl.
  assert (Forall (fun r => len r = w) (map snd rs)) as Hwid.
  { apply res_map_Ok in Er. apply Forall_lookup. intros i s Hs.
    apply list_lookup_fmap_Some in Hs as ([o s'] & -> & Hs). simpl.
    destruct (Forall2_lookup_r _ _ _ _ _ Er Hs) as (row & Hrow & Hv).
    rewrite zseq_lookup in Hrow. destruct (decide (i < Z.to_nat count)%nat) as [Hi|]; [|done].
    injection Hrow as <-. unfold v1_row in Hv. cbv zeta in Hv.
    assert ((0 + Z.of_nat i) * (w + 4) <= u32_max * 36) as Hprod by (destruct Hw; subst; nia).
    rewrite (sat_mul_small (0 + Z.of_nat i)) in Hv by (unfold_widths; lia).
    rewrite (sat_add_small 1024) in Hv by (unfold_widths; lia).
    destruct (be32 _ _); [|done|done].
    rewrite !sat_add_small in Hv by (unfold_widths; destruct Hw; subst; lia).
    destruct (slice body _ _) as [s''|] eqn:Es; [|done]. cbn [ok_or] in Hv. simplify_eq.
    apply slice_len in Es as [-> _]. lia. }
  assert (len (concat (map snd rs)) = Z.of_nat (Z.to_nat count) * w) as Hlen.
  { rewrite (concat_len _ w) by done. unfold len. rewrite length_map. lia. }
  apply (validate_oids_spec _ w fb (Z.to_nat count)) in Ev
    as (rows & Hoids & Hn & Hl & Hs & Hb); [|destruct Hw; lia|unfold rust_slice in *; destruct Hw; subst; lia|done].
  exists rows. cbn [pi_oids pi_fanout_bounds pi_offsets pi_crcs]. rewrite length_map.
  split; [|split; [lia|done]].
  split; try done; [destruct Hw; lia|unfold rust_slice in *; destruct Hw; subst; lia| |].
  - eapply Forall_impl; [exact Hff|]. simpl. lia.
  - rewrite El. f_equal. unfold len. lia.
Qed.

(** *** Termination *)

Lemma be32_fuel b a : be32 b a <> OutOfFuel.
Proof. unfold be32. destruct (slice _ _ _); [|done]. cbn [ok_or]. by destruct (_ =? 4). Qed.

Lemma be64_fuel b a : be64 b a <> OutOfFuel.
Proof. unfold be64. destruct (slice _ _ _); [|done]. cbn [ok_or]. by destruct (_ =? 8). Qed.

Lemma read_fanout_fuel b a : read_fanout b a <> OutOfFuel.
Proof.
  unfold read_fanout. assert (forall n k v, fanout_loop n b a k v <> OutOfFuel) as Hl.
  { intros n. induction n as [|n IH]; intros k v; cbn [fanout_loop]; [done|].
    destruct (be32 _ _) eqn:E; [|done|by apply be32_fuel in E]. destruct (_ <? _); [done|].
    destruct (fanout_loop n _ _ _ _) eqn:E2; [done|done|by apply IH in E2]. }
  destruct (fanout_loop _ _ _ _ _) eqn:E; [done|done|by apply Hl in E].
Qed.

Lemma validate_oids_fuel o w fb : validate_oids o w fb <> OutOfFuel.
Proof.
  unfold validate_oids. generalize (Z.to_nat (if w =? 0 then 0 else len o / w)) as n.
  intros n. generalize 0 (@None bytes). induction n as [|n IH]; intros row prev; cbn [validate_loop]; [done|].
  destruct (slice _ _ _); [|done]. cbn [ok_or].
  destruct (match prev with Some _ => _ | None => _ end); [done|].
  destruct (get _ 0); [|done]. cbn [ok_or]. destruct (get fb _); [|done]. cbn [ok_or].
  destruct (get fb _); [|done]. cbn [ok_or]. unfold u32_try_from. destruct (_ <=? u32_max); [|done].
  destruct (_ || _); [done|]. apply IH.
Qed.

Lemma offset_row_fuel b o l c row : offset_row b o l c row <> OutOfFuel.
Proof.
  unfold offset_row. destruct (be32 _ _) eqn:E; [|done|by apply be32_fuel in E]. destruct (_ =? 0); [done|].
  unfold usize_try_from. destruct (_ <=? usize_max); [|done]. destruct (_ <=? _); [done|]. apply be64_fuel.
Qed.

Lemma parse_index_v2_fuel body w ck : parse_index_v2 body w ck <> OutOfFuel.
Proof.
  unfold parse_index_v2. destruct (be32 body 4) eqn:E4; [|done|by apply be32_fuel in E4].
  destruct (negb _); [done|].
  destruct (read_fanout body 8) as [[fb oa]| |] eqn:Ef; [|done|by apply read_fanout_fuel in Ef].
  destruct (last fb); [|done]. cbn [ok_or]. unfold usize_try_from. destruct (_ <=? usize_max); [|done].
  destruct (checked_sub _ _); [|done]. cbn [ok_or]. destruct (negb _); [done|].
  destruct (slice _ _ _); [|done]. cbn [ok_or].
  destruct (validate_oids _ _ _) eqn:Ev; [|done|by apply validate_oids_fuel in Ev].
  destruct (res_map _ _) eqn:Ec; [|done|apply res_map_fuel in Ec; [done|intros; apply be32_fuel]].
  destruct (res_map (offset_row _ _ _ _) _) eqn:Eo; [done|done|].
  apply res_map_fuel in Eo; [done|]. intros; apply offset_row_fuel.
Qed.

Lemma parse_index_v1_fuel body w ck : parse_index_v1 body w ck <> OutOfFuel.
Proof.
  unfold parse_index_v1.
  destruct (read_fanout body 0) as [[fb oa]| |] eqn:Ef; [|done|by apply read_fanout_fuel in Ef].
  destruct (last fb); [|done]. cbn [ok_or]. unfold usize_try_from. destruct (_ <=? usize_max); [|done].
  destruct (negb _); [done|]. destruct (res_map _ _) eqn:Ec; [|done|].
  - destruct (validate_oids _ _ _) eqn:Ev; [done|done|by apply validate_oids_fuel in Ev].
  - apply res_map_fuel in Ec; [done|]. intros x _. unfold v1_row. cbv zeta.
    destruct (be32 _ _) eqn:E; [|done|by apply be32_fuel in E]. by destruct (slice _ _ _).
Qed.

Section IndexLemmas.
Context `{HH : Hashes}.

Lemma parse_index_fuel input f : parse_index input f <> OutOfFuel.
Proof.
  unfold parse_index. destruct (checked_sub _ _); [|done]. cbn [ok_or].
  destruct (slice_to _ _) as [content|]; [|done]. cbn [ok_or]. destruct (slice_from _ _); [|done]. cbn [ok_or].
  destruct (negb _); [done|]. destruct (checked_sub _ _); [|done]. cbn [ok_or].
  destruct (slice_from _ _) as [ck|]; [|done]. cbn [ok_or].
  destruct (slice_to _ _) as [body|]; [|done]. cbn [ok_or].
  destruct (match slice_to body 4 with Some _ => _ | None => _ end);
    [apply parse_index_v2_fuel|apply parse_index_v1_fuel].
Qed.

Lemma parse_index_ok input f p :
  rust_slice input -> parse_index input f = Ok p ->
  parsed_ok (oid_width f) p /\
  exists content, input = content ++ ordinary_digest f content /\
    exists body, content = body ++ pi_stored_pack_checksum p.
Proof.
  intros Hr Hp. unfold parse_index in Hp.
  destruct (checked_sub _ _) as [sp|]; [|done]. cbn [ok_or] in Hp.
  destruct (slice_to input sp) as [content|] eqn:Ec; [|done]. cbn [ok_or] in Hp.
  destruct (slice_from input sp) as [ck|] eqn:Ek; [|done]. cbn [ok_or] in Hp.
  destruct (bytes_eqb _ _) eqn:Ed; [|done]. cbn [negb] in Hp. apply bytes_eqb_eq in Ed as <-.
  destruct (checked_sub _ _) as [pc|]; [|done]. cbn [ok_or] in Hp.
  destruct (slice_from content pc) as [stored|] eqn:Es; [|done]. cbn [ok_or] in Hp.
  destruct (slice_to content pc) as [body|] eqn:Eb; [|done]. cbn [ok_or] in Hp.
  pose proof (rust_slice_sub _ _ _ _ Hr Ec) as Hrc.
  pose proof (rust_slice_sub _ _ _ _ Hrc Eb) as Hrb.
  assert (parsed_ok (oid_width f) p /\ pi_stored_pack_checksum p = stored) as [Hok Hst].
  { destruct (match slice_to body 4 with Some m => _ | None => _ end).
    - apply (parse_index_v2_ok body); [done|apply oid_width_cases|done].
    - apply (parse_index_v1_ok body); [done|apply oid_width_cases|done]. }
  split; [done|]. exists content.
  apply slice_to_spec in Ec as (q & -> & Hq). apply slice_from_spec in Ek as (p' & Heq & Hp').
  apply app_inj_1 in Heq as [<- <-]; [|unfold len in *; lia].
  split; [done|]. exists body. rewrite Hst.
  apply slice_to_spec in Eb as (q2 & -> & Hbq). apply slice_from_spec in Es as (p2 & Heq & Hp'').
  apply app_inj_1 in Heq as [<- <-]; [done|unfold len in *; lia].
Qed.
End IndexLemmas.

(** *** Searching *)

Lemma sorted_le_lookup (l : list Z) i j x y :
  StronglySorted Z.le l -> (i <= j)%nat -> l !! i = Some x -> l !! j = Some y -> x <= y.
Proof.
  intros Hs Hij Hi Hj. destruct (decide (i = j)) as [->|]; [simplify_eq; lia|].
  apply (StronglySorted_lookup Z.le l i j); [done|lia|done|done].
Qed.

Lemma sorted_rows_inj (rows : list bytes) i j r :
  StronglySorted bytes_lt rows -> rows !! i = Some r -> rows !! j = Some r -> i = j.
Proof.
  intros Hs Hi Hj. destruct (lt_eq_lt_dec i j) as [[Hlt|]|Hlt]; [|done|]; exfalso.
  - assert (bytes_lt r r) as H by (by apply (StronglySorted_lookup _ _ i j r r Hs)).
    by apply (irreflexivity bytes_lt) in H.
  - assert (bytes_lt r r) as H by (by apply (StronglySorted_lookup _ _ j i r r Hs)).
    by apply (irreflexivity bytes_lt) in H.
Qed.

Section FindLemmas.
Context {File : Type} (p : Pack File) (rows : list bytes).
Context (Hwf : index_wf (width p) (oids p) (fanout_bounds p) rows).

(** A row the search reads. *)
Lemma find_row m :
  0 <= m -> m <= len rows ->
  slice (oids p) (sat_mul m (width p)) (sat_add (sat_mul m (width p)) (width p)) = get rows m.
Proof.
  intros Hm Hle. destruct Hwf. unfold rust_slice in *.
  assert (len (oids p) = len rows * width p) as Hlen by (rewrite wf_oids0; by apply concat_len).
  destruct (get rows m) as [r|] eqn:Eg.
  - pose proof (get_lt _ _ _ Eg). rewrite sat_mul_small by (unfold_widths; nia).
    rewrite sat_add_small by (unfold_widths; nia). by rewrite wf_oids0, concat_row.
  - destruct (slice _ _ _) as [s|] eqn:Es; [|done].
    assert (m = len rows) as ->.
    { destruct (Z.lt_ge_cases m (len rows)); [|lia].
      destruct (get_Some rows m) as [x Hx]; [lia|congruence]. }
    rewrite sat_mul_small in Es by (unfold_widths; nia). apply slice_len in Es as (_ & Hb & Hc).
    assert (sat_add (len rows * width p) (width p) = len rows * width p + width p) as Hs.
    { apply (sat_add_exact _ _ (len (oids p))); [done|unfold_widths; lia]. }
    lia.
Qed.

(** The fan-out interval of a byte lies within the rows. *)
Lemma fanout_interval b low high :
  get (fanout_bounds p) b = Some low -> get (fanout_bounds p) (b + 1) = Some high ->
  0 <= low /\ high <= len rows.
Proof.
  intros Hlo Hhi. destruct Hwf as [_ _ _ _ _ _ _ Hn Hs Hl]. split.
  - apply get_spec in Hlo as (q & q' & Heq & _). rewrite Heq in Hn.
    apply Forall_app in Hn as [_ Hn]. by apply Forall_cons_iff in Hn as [? _].
  - pose proof (get_lt _ _ _ Hhi) as Hb. rewrite last_lookup in Hl. unfold get in Hhi.
    destruct (Z.leb_spec 0 (b + 1)); [|done]. unfold len in Hb.
    refine (sorted_le_lookup _ _ _ _ _ Hs _ Hhi Hl). lia.
Qed.

Lemma find_loop_sound fuel oid low high r :
  0 <= low -> high <= len rows -> find_loop fuel p oid low high = Some r -> get rows r = Some oid.
Proof.
  revert low high. induction fuel as [|fuel IH]; intros low high Hl Hh Hf; cbn [find_loop] in Hf; [done|].
  destruct (Z.ltb_spec low high); [|done].
  assert (low <= (low + high) / 2 < high) as Hm.
  { split; [apply Z.div_le_lower_bound; lia|apply Z.div_lt_upper_bound; lia]. }
  rewrite find_row in Hf by lia. destruct (get rows ((low + high) / 2)) as [c|] eqn:Eg; [|done].
  destruct (bytes_cmp c oid) eqn:Ec.
  - injection Hf as <-. apply bytes_cmp_eq in Ec as ->. done.
  - apply IH in Hf; [done| |done]. unfold sat_add. pose proof (len_nonneg rows). unfold_widths. lia.
  - apply IH in Hf; [done|done|lia].
Qed.

Lemma find_loop_complete fuel oid low high r :
  0 <= low -> high <= len rows -> low <= r < high -> high - low < Z.of_nat fuel ->
  get rows r = Some oid -> find_loop fuel p oid low high = Some r.
Proof.
  revert low high. induction fuel as [|fuel IH]; intros low high Hl Hh Hr Hf Hg; [lia|].
  cbn [find_loop]. destruct (Z.ltb_spec low high); [|lia].
  set (m := (low + high) / 2). assert (low <= m < high) as Hm.
  { split; [apply Z.div_le_lower_bound; lia|apply Z.div_lt_upper_bound; lia]. }
  rewrite find_row by lia. destruct (get_Some rows m) as [c Hc]; [lia|]. rewrite Hc.
  pose proof (wf_sorted _ _ _ _ Hwf) as Hs.
  unfold get in Hc, Hg. destruct (Z.leb_spec 0 m); [|lia]. destruct (Z.leb_spec 0 r); [|lia].
  assert (len (oids p) = len rows * width p) as Hlen.
  { destruct Hwf. rewrite wf_oids0. by apply concat_len. }
  assert (len rows <= usize_max) as Hmax.
  { pose proof (wf_slice _ _ _ _ Hwf) as Hsl. pose proof (wf_width _ _ _ _ Hwf).
    unfold rust_slice in Hsl. unfold_widths. nia. }
  destruct (bytes_cmp c oid) eqn:Ec.
  - apply bytes_cmp_eq in Ec as ->. f_equal.
    pose proof (sorted_rows_inj _ _ _ _ Hs Hc Hg). lia.
  - assert (m < r).
    { destruct (Z.lt_trichotomy m r) as [|[->|Hlt]]; [done|exfalso..].
      - simplify_eq. by rewrite bytes_cmp_refl in Ec.
      - assert (bytes_lt oid c) as Hlt' by (apply (StronglySorted_lookup _ _ (Z.to_nat r) (Z.to_nat m) _ _ Hs); [lia|done|done]).
        assert (bytes_lt oid oid) as H' by (by trans c). by apply (irreflexivity bytes_lt) in H'. }
    rewrite sat_add_small by lia. apply IH; try lia. unfold get. by destruct (Z.leb_spec 0 r); [|lia].
  - apply bytes_cmp_gt in Ec. assert (r < m).
    { destruct (Z.lt_trichotomy r m) as [|[->|Hlt]]; [done|exfalso..].
      - simplify_eq. by apply (irreflexivity bytes_lt) in Ec.
      - assert (bytes_lt c oid) as Hlt' by (apply (StronglySorted_lookup _ _ (Z.to_nat m) (Z.to_nat r) _ _ Hs); [lia|done|done]).
        assert (bytes_lt oid oid) as H' by (by trans c). by apply (irreflexivity bytes_lt) in H'. }
    apply IH; try lia. unfold get. by destruct (Z.leb_spec 0 r); [|lia].
Qed.
End FindLemmas.

(** The rows in the order of their offsets, which are distinct. *)
Record offsets_wf {File} (p : Pack File) : Prop := {
  ow_rows : offset_rows p ≡ₚ zseq 0 (length (offsets p));
  ow_sorted : StronglySorted (fun a b => exists x y,
    get (offsets p) a = Some x /\ get (offsets p) b = Some y /\ x < y) (offset_rows p)
}.

Section OffsetLemmas.
Context {File : Type} (p : Pack File) (Hwf : offsets_wf p).

Lemma offset_row_elem row off : get (offsets p) row = Some off -> row ∈ offset_rows p.
Proof.
  intros Hg. pose proof (get_lt _ _ _ Hg) as Hlt. rewrite (ow_rows _ Hwf).
  apply list_elem_of_lookup. exists (Z.to_nat row). rewrite zseq_lookup.
  unfold len in Hlt. destruct (decide _); [f_equal; lia|lia].
Qed.

Lemma offset_search_ordered off :
  search_ordered (fun row => option_cmp (get (offsets p) row) (Some off)) (offset_rows p).
Proof.
  intros i j x y Hij Hi Hj. destruct (decide (i = j)) as [->|]; [naive_solver|].
  destruct (StronglySorted_lookup _ _ i j x y (ow_sorted _ Hwf) ltac:(lia) Hi Hj)
    as (a & b & -> & -> & Hab). simpl. split; rewrite ?Z.compare_gt_iff, ?Z.compare_lt_iff; lia.
Qed.

Lemma offset_row_inj i j x y off :
  offset_rows p !! i = Some x -> offset_rows p !! j = Some y ->
  get (offsets p) x = Some off -> get (offsets p) y = Some off -> i = j.
Proof.
  intros Hi Hj Hx Hy. destruct (lt_eq_lt_dec i j) as [[Hlt|]|Hlt]; [|done|]; exfalso.
  - destruct (StronglySorted_lookup _ _ i j x y (ow_sorted _ Hwf) Hlt Hi Hj) as (a & b & ? & ? & ?).
    simplify_eq. lia.
  - destruct (StronglySorted_lookup _ _ j i y x (ow_sorted _ Hwf) Hlt Hj Hi) as (a & b & ? & ? & ?).
    simplify_eq. lia.
Qed.

Lemma offset_position_spec off i :
  offset_position p off = Some i <->
  exists row, offset_rows p !! i = Some row /\ get (offsets p) row = Some off.
Proof.
  unfold offset_position. split.
  - intros (row & Hrow & Hc)%binary_search_by_sound. exists row. split; [done|].
    destruct (get (offsets p) row) as [o|]; [|done]. simpl in Hc. by apply Z.compare_eq in Hc as ->.
  - intros (row & Hrow & Hg).
    destruct (binary_search_by_complete _ (offset_rows p) row (offset_search_ordered off)) as [j Hj].
    + by eapply list_elem_of_lookup_2.
    + rewrite Hg. simpl. apply Z.compare_refl.
    + rewrite Hj. f_equal. apply binary_search_by_sound in Hj as (row' & Hrow' & Hc).
      destruct (get (offsets p) row') as [o|] eqn:Eo; [|done]. simpl in Hc.
      apply Z.compare_eq in Hc as ->. by eapply offset_row_inj.
Qed.
End OffsetLemmas.

Lemma find_spec {File : Type} (p : Pack File) rows oid r :
  index_wf (width p) (oids p) (fanout_bounds p) rows ->
  find p oid = Some r <-> get rows r = Some oid.
Proof.
  intros Hwf. unfold find. split.
  - destruct (negb _); [done|]. destruct (get oid 0) as [first|]; [|done]. cbn [mbind option_bind].
    pose proof (u8_range first). rewrite (sat_add_small (u8 first)) by (unfold_widths; lia).
    destruct (get (fanout_bounds p) (u8 first)) as [low|] eqn:Elo; [|done]. cbn [mbind option_bind].
    destruct (get (fanout_bounds p) (u8 first + 1)) as [high|] eqn:Ehi; [|done]. cbn [mbind option_bind].
    destruct (fanout_interval p rows Hwf _ _ _ Elo Ehi). by apply find_loop_sound.
  - intros Hg. pose proof (get_lt _ _ _ Hg) as Hlt.
    assert (rows !! Z.to_nat r = Some oid) as Hrow by (unfold get in Hg; by destruct (0 <=? r)).
    destruct (wf_buckets _ _ _ _ Hwf _ _ Hrow) as (first & low & high & -> & Elo & Ehi & Hin).
    assert (len oid = width p) as ->.
    { pose proof (wf_row_len _ _ _ _ Hwf) as Hf. rewrite Forall_lookup in Hf. by eapply Hf. }
    rewrite Z.eqb_refl. cbn [negb mbind option_bind].
    pose proof (u8_range first). rewrite (sat_add_small (u8 first)) by (unfold_widths; lia).
    rewrite Elo, Ehi. cbn [mbind option_bind].
    destruct (fanout_interval p rows Hwf _ _ _ Elo Ehi).
    apply (find_loop_complete p rows Hwf); [done|done|lia|lia|done].
Qed.

(** ** Properties *)

(** a pack index of either version that parses carries its own digest and
    the checksum of its pack at the end, and its object IDs are rows of the
    namespace's width in strictly increasing byte order, every row inside the
    fan-out interval of its first byte, with as many offsets (and, in version
    two, checksums) as rows. *)
Theorem parse_index_sound (HH : Hashes) input f p :
  rust_slice input -> parse_index input f = Ok p ->
  exists rows content body,
    index_wf (oid_width f) (pi_oids p) (pi_fanout_bounds p) rows /\
    length (pi_offsets p) = length rows /\
    (forall c, pi_crcs p = Some c -> length c = length rows) /\
    input = content ++ ordinary_digest f content /\
    content = body ++ pi_stored_pack_checksum p.
Proof.
  intros Hr Hp.
  destruct (parse_index_ok input f p Hr Hp) as ((rows & Hwf & Hl & Hc) & content & Hi & body & Hb).
  by exists rows, content, body.
Qed.

(** A version-one index of one object under the toy digest. *)
Definition example_index : bytes :=
  let oid := repeat x00 20 in
  let body := concat (repeat [x00; x00; x00; x01] 256) ++ [x00; x00; x00; byte_of 12] ++ oid in
  let content := body ++ repeat x07 20 in
  content ++ toy_sum 20 content.
Definition example_parsed : ParsedIndex :=
  mkParsedIndex (repeat x00 20) (0 :: repeat 1 256) [12] None (repeat x07 20).

Lemma parse_index_sound_witness :
  rust_slice example_index /\
  parse_index (H := toy_hash) example_index Sha1 = Ok example_parsed /\
  exists rows, index_wf 20 (repeat x00 20) (0 :: repeat 1 256) rows.
Proof.
  assert (rust_slice example_index) as Hr by (vm_compute; discriminate).
  assert (parse_index (H := toy_hash) example_index Sha1 = Ok example_parsed) as Hp
    by (vm_compute; reflexivity).
  split; [exact Hr|]. split; [exact Hp|].
  destruct (parse_index_sound toy_hash example_index Sha1 example_parsed Hr Hp) as (rows & c & b & Hwf & _).
  exists rows. exact Hwf.
Defined.

(** over a well-formed index the fan-out-bounded binary search finds an object
    exactly when a row holds its ID, and returns that row. *)
Theorem find_exact {File : Type} (p : Pack File) rows oid r :
  index_wf (width p) (oids p) (fanout_bounds p) rows ->
  find p oid = Some r <-> get rows r = Some oid.
Proof. apply find_spec. Qed.

(** A pack with the rows of the example index. *)
Definition example_pack : Pack unit :=
  mkPack unit [] tt 20 (repeat x00 20) (0 :: repeat 1 256) [0] [12] None 40.

Lemma example_index_wf : index_wf 20 (repeat x00 20) (0 :: repeat 1 256) [repeat x00 20].
Proof.
  split; [reflexivity|reflexivity|discriminate|repeat constructor|repeat constructor| |reflexivity|..|reflexivity].
  - intros [|i] r Hi; [|discriminate Hi]. injection Hi as <-. exists x00, 0, 1. repeat split; reflexivity || lia.
  - constructor; [lia|]. apply Forall_forall. intros x Hx%list_elem_of_In%repeat_spec. lia.
  - apply Sorted_StronglySorted; [exact Z.le_trans|]. repeat constructor; discriminate.
Qed.

Lemma find_exact_witness :
  index_wf 20 (repeat x00 20) (0 :: repeat 1 256) [repeat x00 20] /\
  find example_pack (repeat x00 20) = Some 0.
Proof.
  split; [exact example_index_wf|]. apply (find_exact example_pack _ _ 0 example_index_wf). reflexivity.
Defined.

(** the offset table of a pack finds a row exactly at the offsets the index
    names, and the row it finds is the one with that offset. *)
Theorem row_at_exact {File : Type} (p : Pack File) off row :
  offsets_wf p -> row_at p off = Some row <-> get (offsets p) row = Some off.
Proof.
  intros Hwf. unfold row_at. split.
  - intros (i & Hi & Hrow)%bind_Some. apply (offset_position_spec p Hwf) in Hi as (row' & ? & ?).
    by simplify_eq.
  - intros Hg. pose proof (offset_row_elem p Hwf row off Hg) as [i Hi]%list_elem_of_lookup.
    apply bind_Some. exists i. split; [|done]. apply (offset_position_spec p Hwf). by exists row.
Qed.

Lemma row_at_exact_witness : offsets_wf example_pack /\ row_at example_pack 12 = Some 0.
Proof.
  assert (offsets_wf example_pack) as Hwf by (split; [reflexivity|repeat constructor]).
  split; [exact Hwf|]. apply (row_at_exact example_pack 12 0 Hwf). reflexivity.
Defined.
