(* ===== verification/GitIndexFile.v ===== *)
(** The staged index file: [crates/amiss-git/src/index.rs]. Versions two to
    four of [.git/index] are read into the logical stage-zero index. *)
From Stdlib Require Import Strings.Byte Strings.String Lia Sorting.Sorted.
From stdpp Require Import base list numbers sorting.
From S2P Require Import Prelude Codec WireModel GitObject GitResources GitLoose GitDelta.
Import GitError.

(** ** The code *)

Record IndexEntry := mkIndexEntry {
  ie_path : bytes;
  ie_mode : GitMode;
  ie_oid : Oid.t;
  ie_skip_worktree : bool
}.

(** [LogicalIndex]. *)
Record LogicalIndex := mkLogicalIndex { li_entries : list IndexEntry }.

Definition STAGE_MASK : u16 := 12288.
Definition EXTENDED_FLAG : u16 := 16384.
Definition NAME_MASK : u16 := 4095.
Definition SKIP_WORKTREE : u16 := 16384.
Definition INTENT_TO_ADD : u16 := 8192.
Definition EXTENDED_RESERVED : u16 := 32768.

Module IndexFile.
Definition be32 (input : bytes) (at_ : usize) : result u32 :=
  let? raw := ok_or (slice input at_ (sat_add at_ 4)) IndexInvalid in
  if len raw =? 4 then Ok (from_be_bytes raw) else Err IndexInvalid.

Definition be16 (input : bytes) (at_ : usize) : result u16 :=
  let? raw := ok_or (slice input at_ (sat_add at_ 2)) IndexInvalid in
  if len raw =? 2 then Ok (from_be_bytes raw) else Err IndexInvalid.

(** The octal file modes. *)
Definition entry_mode (raw : u32) : result GitMode :=
  if raw =? 33188 then Ok RegularFile
  else if raw =? 33261 then Ok ExecutableFile
  else if raw =? 40960 then Ok Symlink
  else if raw =? 57344 then Ok Gitlink
  else Err IndexInvalid.

Definition is_slash (b : Byte.byte) : bool := beqb b "/"%byte.

(** The [while let] loop of [prefix_conflict]: the directory prefixes of
    [path] from the longest; each turn shortens [end_]. [None] is fuel. *)
Fixpoint conflict_loop (fuel : nat) (entries : list IndexEntry) (path : bytes) (end_ : usize)
    : option bool :=
  match fuel with
  | O => None
  | S fuel =>
      match (prefix ← slice_to path end_; rposition is_slash prefix) with
      | None => Some false
      | Some at_ =>
          let prefix := default [] (slice_to path at_) in
          if match binary_search_by (fun c => bytes_cmp (ie_path c) prefix) entries with
             | Some _ => true | None => false end
          then Some true
          else conflict_loop fuel entries path at_
      end
  end.

Definition prefix_conflict (entries : list IndexEntry) (path : bytes) : option bool :=
  conflict_loop (S (length path)) entries path (len path).

(** [varint]: the offset encoding of version four. Each turn reads a byte. *)
Fixpoint varint_loop (fuel : nat) (content : bytes) (cursor : usize) (value : u64)
    : result (u64 * usize) :=
  match fuel with
  | O => OutOfFuel
  | S fuel =>
      let? byte := ok_or (get content cursor) IndexInvalid in
      let cursor := sat_add cursor 1 in
      let? value :=
        ok_or (shifted ← checked_mul value 128; checked_add shifted (Z.land (u8 byte) 127))
          IndexInvalid in
      if Z.land (u8 byte) 128 =? 0 then Ok (value, cursor)
      else
        let? value := ok_or (checked_add value 1) IndexInvalid in
        varint_loop fuel content cursor value
  end.

Definition varint (content : bytes) (at_ : usize) : result (u64 * usize) :=
  varint_loop (S (length content)) content at_ 0.

(** [content.get(at..).and_then(|rest| rest.iter().position(|b| b == 0))]. *)
Definition find_nul (content : bytes) (at_ : usize) : result usize :=
  ok_or (rest ← slice_from content at_; position (fun b => beqb b x00) rest) IndexInvalid.

Definition entry_path (content : bytes) (version : u32) (start path_at : usize) (flags : u16)
    (previous_path : bytes) : result (bytes * usize) :=
  if version =? 4 then
    let? (strip, after) := varint content path_at in
    let? nul := find_nul content after in
    let? suffix := ok_or (slice content after (sat_add after nul)) IndexInvalid in
    let? strip := usize_try_from strip IndexInvalid in
    let? keep := ok_or (checked_sub (len previous_path) strip) IndexInvalid in
    Ok (default [] (slice_to previous_path keep) ++ suffix, sat_add (sat_add after nul) 1)
  else
    let? nul := find_nul content path_at in
    let? path := ok_or (slice content path_at (sat_add path_at nul)) IndexInvalid in
    let name_bits := Z.land flags NAME_MASK in
    if (name_bits <? NAME_MASK) && negb (name_bits =? len path) then Err IndexInvalid
    else
      let unpadded := sat_sub (sat_add path_at nul) start in
      let remainder := unpadded mod 8 in
      let pad := sat_sub 8 remainder in
      let entry_end := sat_add (sat_add start unpadded) pad in
      let pad_at := sat_add path_at nul in
      if existsb (fun i => negb match get content i with Some b => beqb b x00 | None => false end)
           (zseq pad_at (Z.to_nat (entry_end - pad_at)))
      then Err IndexInvalid
      else Ok (path, entry_end).

(** The extension loop; each turn advances by at least eight bytes. *)
Fixpoint extensions_loop (fuel : nat) (content : bytes) (at_ : usize) : result unit :=
  match fuel with
  | O => OutOfFuel
  | S fuel =>
      if at_ <? len content then
        let? signature := ok_or (slice content at_ (sat_add at_ 4)) IndexInvalid in
        let? raw := be32 content (sat_add at_ 4) in
        let? length := usize_try_from raw IndexInvalid in
        let payload_at := sat_add at_ 8 in
        if sat_add payload_at length >? len content then Err IndexInvalid
        else if bytes_eqb signature (b_ "link") || bytes_eqb signature (b_ "sdir")
        then Err IndexFormatUnsupported
        else if negb match head signature with Some b => is_ascii_uppercase b | None => false end
        then Err IndexInvalid
        else extensions_loop fuel content (sat_add payload_at length)
      else Ok tt
  end.

Definition extensions (content : bytes) (at_ : usize) : result unit :=
  extensions_loop (S (length content)) content at_.

Record loop_state := mkLoop {
  ls_entries : list IndexEntry;
  ls_unexpanded : bool;
  ls_at : usize
}.

Definition last_path (entries : list IndexEntry) : bytes :=
  match last entries with Some e => ie_path e | None => [] end.

Section WithCodecs.
Context `{Hex, Hashes}.

(** One turn of the entry loop. *)
Definition entry_step (f : ObjectFormat) (content : bytes) (version : u32) (st : loop_state)
    : result loop_state :=
  let oid_width := match f with Sha1 => 20 | Sha256 => 32 end in
  let start := ls_at st in
  let? raw_mode := be32 content (sat_add start 24) in
  let? mode :=
    if negb (raw_mode =? 16384) then let? m := entry_mode raw_mode in Ok (Some m)
    else Ok None in
  let oid_start := sat_add start 40 in
  let? raw_oid := ok_or (slice content oid_start (sat_add oid_start oid_width)) IndexInvalid in
  let? oid := ok_or (Oid.new f (hex_encode raw_oid)) IndexInvalid in
  let flags_at := sat_add oid_start oid_width in
  let? flags := be16 content flags_at in
  if negb (Z.land flags STAGE_MASK =? 0) then Err IndexUnmerged
  else
    let? (skip_worktree, path_at) :=
      if negb (Z.land flags EXTENDED_FLAG =? 0) then
        if version =? 2 then Err IndexInvalid
        else
          let? extended := be16 content (sat_add flags_at 2) in
          if negb (Z.land extended EXTENDED_RESERVED =? 0) then Err IndexInvalid
          else if negb (Z.land extended INTENT_TO_ADD =? 0) then Err IntentToAdd
          else Ok (negb (Z.land extended SKIP_WORKTREE =? 0), sat_add (sat_add flags_at 2) 2)
      else Ok (false, sat_add flags_at 2) in
    let previous_path := last_path (ls_entries st) in
    let? (path, next) := entry_path content version start path_at flags previous_path in
    match mode, bytes_eqb path [] with
    | Some mode, false =>
        if negb (bytes_eqb previous_path []) && bytes_leb path previous_path
        then Err IndexInvalid
        else
          match prefix_conflict (ls_entries st) path with
          | None => OutOfFuel
          | Some true => Err IndexInvalid
          | Some false =>
              Ok (mkLoop (ls_entries st ++ [mkIndexEntry path mode oid skip_worktree])
                    (ls_unexpanded st) next)
          end
    | _, _ => Ok (mkLoop (ls_entries st) true next)
    end.

Fixpoint entries_loop (n : nat) (f : ObjectFormat) (content : bytes) (version : u32)
    (st : loop_state) : result loop_state :=
  match n with
  | O => Ok st
  | S n => let? st := entry_step f content version st in entries_loop n f content version st
  end.

Definition parse_index_file (f : ObjectFormat) (input : bytes) : result LogicalIndex :=
  let oid_width := match f with Sha1 => 20 | Sha256 => 32 end in
  let? checksum_at := ok_or (checked_sub (len input) oid_width) IndexInvalid in
  let? content := ok_or (slice_to input checksum_at) IndexInvalid in
  let? stored := ok_or (slice_from input checksum_at) IndexInvalid in
  if existsb (fun b => negb (beqb b x00)) stored
     && negb (bytes_eqb (ordinary_digest f content) stored)
  then Err IndexInvalid
  else if negb match slice_to content 4 with
               | Some m => bytes_eqb m (b_ "DIRC") | None => false end
  then Err IndexInvalid
  else
    let? version := be32 content 4 in
    if negb ((2 <=? version) && (version <=? 4)) then Err IndexInvalid
    else
      let? raw_count := be32 content 8 in
      let? count := usize_try_from raw_count IndexInvalid in
      let? st := entries_loop (Z.to_nat count) f content version (mkLoop [] false 12) in
      let? _ := extensions content (ls_at st) in
      if ls_unexpanded st then Err IndexInvalid
      else Ok (mkLogicalIndex (ls_entries st)).
End WithCodecs.
End IndexFile.

(** ** What the index promises *)

Import IndexFile.

(** [p] names a directory on the way to [q]. *)
Definition dir_prefix (p q : bytes) : Prop := exists r, q = p ++ "/"%byte :: r.

Definition path_lt (a b : IndexEntry) : Prop := bytes_lt (ie_path a) (ie_path b).

#[export] Instance path_lt_trans : Transitive path_lt.
Proof. intros a b c. unfold path_lt. apply transitivity. Qed.

Section Wf.
Context `{Hex}.

Record entries_wf (f : ObjectFormat) (entries : list IndexEntry) : Prop := {
  ew_sorted : StronglySorted path_lt entries;
  ew_prefix_free : forall a b, a ∈ entries -> b ∈ entries -> ~ dir_prefix (ie_path a) (ie_path b);
  ew_entry : Forall (fun e => ie_path e <> [] /\ x00 ∉ ie_path e /\
                              Oid.wf (ie_oid e) /\ Oid.object_format (ie_oid e) = f) entries
}.
End Wf.

(** ** Lemmas *)

Lemma dir_prefix_lt p q : dir_prefix p q -> bytes_lt p q.
Proof. intros [r ->]. apply bytes_lt_app. Qed.

Lemma dir_prefix_get p q :
  dir_prefix p q <-> exists at_, get q at_ = Some "/"%byte /\ p = take (Z.to_nat at_) q.
Proof.
  split.
  - intros [r ->]. exists (len p). split; [apply get_app_r|].
    unfold len. by rewrite Nat2Z.id, take_app_length.
  - intros (at_ & Hg & ->). apply get_spec in Hg as (l & k & -> & <-).
    exists k. unfold len. by rewrite Nat2Z.id, take_app_length.
Qed.

Lemma slice_to_take {A} (l : list A) n : 0 <= n <= len l -> slice_to l n = Some (take (Z.to_nat n) l).
Proof.
  intros Hn. unfold slice_to, slice. destruct (Z.leb_spec 0 n); [|lia].
  destruct (Z.leb_spec n (len l)); [|lia]. simpl. by rewrite Z.sub_0_r.
Qed.

Lemma is_slash_eq b : is_slash b = true <-> b = "/"%byte.
Proof. apply beqb_eq. Qed.

(** The search for a conflict ends and visits every directory prefix. *)
Lemma conflict_loop_spec fuel entries path end_ :
  StronglySorted path_lt entries -> 0 <= end_ <= len path -> end_ < Z.of_nat fuel ->
  exists b, conflict_loop fuel entries path end_ = Some b /\
    (b = true <-> exists at_ e, at_ < end_ /\ get path at_ = Some "/"%byte /\
       e ∈ entries /\ ie_path e = take (Z.to_nat at_) path).
Proof.
  intros Hs. revert end_. induction fuel as [|fuel IH]; intros end_ He Hf; [lia|].
  cbn [conflict_loop]. rewrite slice_to_take by lia. cbn [mbind option_bind].
  destruct (rposition is_slash _) as [at_|] eqn:Er.
  - pose proof (rposition_bounds _ _ _ Er) as Hb. rewrite len_take_min in Hb by lia.
    apply rposition_spec in Er as (l1 & x & l2 & Htake & Hl1 & Hx & Hl2). apply is_slash_eq in Hx as ->.
    rewrite slice_to_take by lia. cbn [default].
    assert (get path at_ = Some "/"%byte) as Hg.
    { rewrite <- (take_drop (Z.to_nat end_) path), Htake, <- app_assoc. subst at_. apply get_app_r. }
    assert (forall i, at_ < i < end_ -> get path i <> Some "/"%byte) as Hnone.
    { intros i Hi Hgi. rewrite <- (take_drop (Z.to_nat end_) path), Htake in Hgi.
      unfold get in Hgi. destruct (0 <=? i); [|done].
      assert (length (l1 ++ "/"%byte :: l2) = Z.to_nat end_) as Hlen.
      { rewrite <- Htake, length_take. unfold len in He. lia. }
      unfold len in Hl1. rewrite length_app in Hlen. simpl in Hlen.
      rewrite lookup_app_l, lookup_app_r in Hgi by (rewrite ?length_app; simpl; lia).
      destruct (Z.to_nat i - length l1)%nat as [|k] eqn:Ek; [lia|]. simpl in Hgi.
      apply list_elem_of_lookup_2 in Hgi. rewrite Forall_forall in Hl2. apply Hl2 in Hgi.
      by rewrite (proj2 (is_slash_eq _) eq_refl) in Hgi. }
    pose proof (binary_search_sorted ie_path entries (take (Z.to_nat at_) path) Hs) as Hbs.
    destruct (binary_search_by _ _) as [k|].
    + exists true. split; [done|]. split; [|done]. intros _.
      destruct (proj1 Hbs) as (e & Hin & Hp); [by eexists|]. exists at_, e. split_and!; [lia|done..].
    + destruct (IH at_) as (b & Hb' & Hiff); [lia|lia|]. exists b. split; [done|].
      rewrite Hiff. split.
      * intros (i & e & Hi & Hgi & Hin & Hp). exists i, e. split_and!; [lia|done..].
      * intros (i & e & Hi & Hgi & Hin & Hp). exists i, e. split_and!; [|done..].
        destruct (Z.lt_trichotomy i at_) as [|[->|]]; [done|..].
        -- destruct (proj2 Hbs) as [k Hk]; [|done]. by exists e.
        -- exfalso. eapply (Hnone i); [lia|done].
  - exists false. split; [done|]. split; [done|]. intros (i & e & Hi & Hgi & _). exfalso.
    apply rposition_None in Er. rewrite Forall_forall in Er.
    assert ("/"%byte ∈ take (Z.to_nat end_) path) as Hin.
    { unfold get in Hgi. destruct (Z.leb_spec 0 i); [|done].
      apply (list_elem_of_lookup_2 _ (Z.to_nat i)). rewrite lookup_take_lt by lia. done. }
    apply Er in Hin. by rewrite (proj2 (is_slash_eq _) eq_refl) in Hin.
Qed.

(** [prefix_conflict] decides whether an entry is a directory of [path]. *)
Lemma prefix_conflict_spec entries path :
  StronglySorted path_lt entries ->
  exists b, prefix_conflict entries path = Some b /\
    (b = true <-> exists e, e ∈ entries /\ dir_prefix (ie_path e) path).
Proof.
  intros Hs. pose proof (len_nonneg path).
  destruct (conflict_loop_spec (S (length path)) entries path (len path) Hs) as (b & Hb & Hiff);
    [lia|unfold len; lia|].
  exists b. split; [exact Hb|]. rewrite Hiff. setoid_rewrite dir_prefix_get. split.
  - intros (at_ & e & _ & Hg & Hin & Hp). eauto.
  - intros (e & Hin & at_ & Hg & Hp). exists at_, e. apply get_lt in Hg as ?. split_and!; [lia|done..].
Qed.

(** Appending an accepted entry keeps the index well formed. *)
Lemma entries_wf_snoc `{Hex} f entries e :
  entries_wf f entries ->
  ie_path e <> [] -> x00 ∉ ie_path e -> Oid.wf (ie_oid e) -> Oid.object_format (ie_oid e) = f ->
  (last_path entries <> [] -> bytes_lt (last_path entries) (ie_path e)) ->
  (forall a, a ∈ entries -> ~ dir_prefix (ie_path a) (ie_path e)) ->
  entries_wf f (entries ++ [e]).
Proof.
  intros [Hs Hp He] Hne Hnul Hoid Hfmt Hlast Hconf.
  assert (StronglySorted path_lt (entries ++ [e])) as Hs'.
  { apply StronglySorted_snoc_last; [apply _|done|]. intros y Hy. unfold last_path in Hlast.
    rewrite Hy in Hlast. apply Hlast. rewrite Forall_forall in He. apply (He y).
    apply last_Some in Hy as [l ->]. apply elem_of_app. right. by left. }
  split; [done| |].
  - intros a b Ha Hb Hd. apply elem_of_app in Ha, Hb. rewrite list_elem_of_singleton in Ha, Hb.
    destruct Ha as [Ha| ->], Hb as [Hb| ->].
    + by apply (Hp a b).
    + by apply (Hconf a).
    + apply StronglySorted_app in Hs' as (Hlt & _ & _).
      assert (path_lt b e) as Hbe by (apply Hlt; [done|by left]).
      apply dir_prefix_lt in Hd. assert (bytes_lt (ie_path b) (ie_path b)) as Hbb by (by trans (ie_path e)).
      by apply (irreflexivity bytes_lt) in Hbb.
    + apply dir_prefix_lt in Hd. by apply (irreflexivity bytes_lt) in Hd.
  - apply Forall_app. split; [done|]. by repeat constructor.
Qed.

Lemma find_nul_spec content at_ nul :
  find_nul content at_ = Ok nul ->
  exists p s q, content = p ++ s ++ x00 :: q /\ len p = at_ /\ len s = nul /\ x00 ∉ s.
Proof.
  unfold find_nul. intros H%ok_or_Ok. apply bind_Some in H as (rest & Hr & Hpos).
  apply slice_from_spec in Hr as (p & -> & Hp).
  apply position_spec in Hpos as (s & x & q & -> & Hs & Hx & Hf). apply beqb_eq in Hx as ->.
  exists p, s, q. split_and!; [done..|]. intros Hin. rewrite Forall_forall in Hf.
  apply Hf in Hin. by rewrite beqb_refl in Hin.
Qed.

Lemma find_nul_slice content at_ nul s :
  rust_slice content ->
  find_nul content at_ = Ok nul -> slice content at_ (sat_add at_ nul) = Some s -> x00 ∉ s.
Proof.
  intros Hr Hn Hs. apply find_nul_spec in Hn as (p & s' & q & -> & <- & <- & Hnul).
  unfold rust_slice in Hr. rewrite !len_app in Hr. pose proof (len_nonneg (x00 :: q)).
  rewrite sat_add_small in Hs by (unfold_widths; lia). rewrite slice_app_mid in Hs. by simplify_eq.
Qed.

Lemma elem_of_take_sub {A} (x : A) n l : x ∈ take n l -> x ∈ l.
Proof. intros Hx. rewrite <- (take_drop n l). apply elem_of_app. by left. Qed.

(** A path that is read has no NUL. *)
Lemma entry_path_nul content version start path_at flags previous path next :
  rust_slice content -> x00 ∉ previous ->
  entry_path content version start path_at flags previous = Ok (path, next) -> x00 ∉ path.
Proof.
  intros Hr Hprev Hp. unfold entry_path in Hp. destruct (version =? 4).
  - destruct (varint _ _) as [[strip after]| |]; [|done|done].
    destruct (find_nul _ _) as [nul| |] eqn:En; [|done|done].
    destruct (slice _ _ _) as [s|] eqn:Es; [|done]. cbn [ok_or] in Hp.
    unfold usize_try_from in Hp. destruct (strip <=? usize_max); [|done].
    destruct (checked_sub _ _) as [keep|]; [|done]. cbn [ok_or] in Hp. injection Hp as <- _.
    rewrite elem_of_app. intros [Hin|Hin].
    + destruct (slice_to previous keep) as [k|] eqn:Ek; [|by apply elem_of_nil in Hin]. cbn [default] in Hin.
      apply slice_to_spec in Ek as (q & -> & _). apply Hprev. apply elem_of_app. by left.
    + revert Hin. by apply (find_nul_slice content after nul).
  - destruct (find_nul _ _) as [nul| |] eqn:En; [|done|done].
    destruct (slice _ _ _) as [s|] eqn:Es; [|done]. cbn [ok_or] in Hp.
    destruct (_ && _); [done|]. destruct (existsb _ _); [done|]. injection Hp as <- _.
    by apply (find_nul_slice content path_at nul).
Qed.

Lemma last_path_nul `{Hex} f entries : entries_wf f entries -> x00 ∉ last_path entries.
Proof.
  intros [_ _ He]. unfold last_path. destruct (last entries) as [e|] eqn:El; [|by intros ?%elem_of_nil].
  apply last_Some in El as [l ->]. apply Forall_app in He as [_ He].
  by apply Forall_cons_iff in He as [(_ & ? & _) _].
Qed.

Section StepLemmas.
Context `{HX : Hex} {HL : HexLaws HX} `{HH : Hashes}.

Lemma entry_step_wf f content version st st' :
  rust_slice content -> entries_wf f (ls_entries st) ->
  entry_step f content version st = Ok st' -> entries_wf f (ls_entries st').
Proof.
  intros Hr Hwf Hst. unfold entry_step in Hst. cbv zeta in Hst.
  destruct (be32 _ _) as [raw_mode| |]; [|done|done].
  destruct (if negb _ then _ else Ok None) as [mode| |]; [|done|done].
  destruct (slice _ _ _) as [raw_oid|]; [|done]. cbn [ok_or] in Hst.
  destruct (Oid.new f _) as [oid|] eqn:Eo; [|done]. cbn [ok_or] in Hst.
  apply Oid.new_wf in Eo as (Hoid & Hfmt & _).
  destruct (be16 _ _) as [flags| |]; [|done|done]. destruct (negb _); [done|].
  destruct (if negb _ then _ else _) as [[skip path_at]| |]; [|done|done].
  destruct (entry_path _ _ _ _ _ _) as [[path next]| |] eqn:Ep; [|done|done].
  apply entry_path_nul in Ep; [|done|by eapply last_path_nul].
  destruct mode as [mode|]; [|by injection Hst as <-].
  destruct (bytes_eqb path []) eqn:Ene; [by injection Hst as <-|]. apply bytes_eqb_neq in Ene.
  destruct (negb (bytes_eqb _ []) && bytes_leb path _) eqn:Eord; [done|].
  destruct (prefix_conflict_spec (ls_entries st) path) as (b & Hb & Hiff); [apply Hwf|].
  rewrite Hb in Hst. destruct b; [done|]. injection Hst as <-. cbn [ls_entries].
  apply entries_wf_snoc; cbn [ie_path ie_oid]; try done.
  - intros Hlast. apply andb_false_iff in Eord as [Eord|Eord].
    + by apply negb_false_iff, bytes_eqb_eq in Eord.
    + by apply bytes_leb_false in Eord.
  - intros a Ha Hd. assert (false = true) by (apply Hiff; by exists a). done.
Qed.

Lemma entries_loop_wf n f content version st st' :
  rust_slice content -> entries_wf f (ls_entries st) ->
  entries_loop n f content version st = Ok st' -> entries_wf f (ls_entries st').
Proof.
  intros Hr. revert st. induction n as [|n IH]; intros st Hwf Hl; cbn [entries_loop] in Hl.
  - by injection Hl as <-.
  - destruct (entry_step _ _ _ _) as [st1| |] eqn:Es; [|done|done].
    apply (IH st1); [by eapply entry_step_wf|done].
Qed.
End StepLemmas.

(** *** The version-four varint *)

Lemma varint_loop_spec fuel pre rest value v stop :
  rust_slice (pre ++ rest) -> len rest < Z.of_nat fuel -> 0 <= value <= u64_max ->
  varint_loop fuel (pre ++ rest) (len pre) value = Ok (v, stop) <->
  exists l r, rest = l ++ r /\ varint_text l /\ v = fold_left ofs_step l (value - 1) /\
    v <= u64_max /\ stop = len pre + len l.
Proof.
  revert pre rest value. induction fuel as [|fuel IH]; intros pre rest value Hr Hf Hv;
    [pose proof (len_nonneg rest); lia|].
  cbn [varint_loop]. destruct rest as [|b rest].
  { rewrite get_app_end. split; [done|]. intros (l & r & Hl & Ht & _). destruct l; [inversion Ht|done]. }
  rewrite get_app_r. cbn [ok_or]. rewrite (byte_step pre b rest), high_bit, land_127 by done.
  pose proof (group_range b) as Hg. rewrite len_cons in Hf.
  assert ((shifted ← checked_mul value 128; checked_add shifted (u8 b mod 128))
    = if ofs_step (value - 1) b <=? u64_max then Some (ofs_step (value - 1) b) else None) as ->.
  { unfold checked_mul, checked_add, ofs_step. replace (value - 1 + 1) with value by lia.
    destruct (Z.leb_spec (value * 128) u64_max); cbn [mbind option_bind].
    - by destruct (Z.leb_spec (value * 128 + u8 b mod 128) u64_max).
    - destruct (Z.leb_spec (value * 128 + u8 b mod 128) u64_max); [lia|done]. }
  pose proof (ofs_step_grows (value - 1) b ltac:(lia)) as Hgrow. set (v1 := ofs_step (value - 1) b) in *.
  assert (forall l, v1 <= fold_left ofs_step l v1) as Hfold by (intros; apply ofs_fold_grows; lia).
  destruct (Z.leb_spec v1 u64_max) as [Hle|Hgt]; cbn [ok_or].
  2: { split; [done|]. intros (l & r & Heq & Ht & -> & Hm & _). destruct l as [|c l]; [inversion Ht|].
       simplify_eq/=. fold v1 in Hm. specialize (Hfold l). lia. }
  destruct (Z.ltb_spec (u8 b) 128) as [Hlo|Hhi].
  { split.
    - intros [= <- <-]. exists [b], rest. rewrite len_snoc. change (len [b]) with 1. simpl.
      split_and!; [done|by apply varint_last|done..].
    - intros (l & r & Heq & Ht & -> & Hm & ->).
      destruct (varint_unique [b] rest l r) as [<- <-]; [by constructor|done|done|].
      rewrite len_snoc. change (len [b]) with 1. done. }
  unfold checked_add. destruct (Z.leb_spec (v1 + 1) u64_max) as [Hle1|Hgt1]; cbn [ok_or].
  - replace (pre ++ b :: rest) with ((pre ++ [b]) ++ rest) in * by (by rewrite <- app_assoc).
    rewrite IH by (done || lia). rewrite len_snoc. replace (v1 + 1 - 1) with v1 by lia. split.
    + intros (l & r & -> & Ht & -> & Hm & ->). exists (b :: l), r. rewrite len_cons.
      split_and!; [done|by constructor|done|done|lia].
    + intros (l & r & Heq & Ht & -> & Hm & ->).
      destruct Ht as [c Hc|c l Hc Ht]; simplify_eq/=; [lia|]. rewrite len_cons.
      exists l, r. split_and!; [done..|lia].
  - split; [done|]. intros (l & r & Heq & Ht & -> & Hm & _).
    destruct Ht as [c Hc|c l Hc Ht]; simplify_eq/=; [lia|]. fold v1 in Hm.
    destruct l as [|d l]; [inversion Ht|]. simpl in Hm.
    pose proof (ofs_step_grows v1 d ltac:(lia)).
    pose proof (ofs_fold_grows l (ofs_step v1 d) ltac:(lia)). lia.
Qed.

Lemma varint_spec pre rest v stop :
  rust_slice (pre ++ rest) ->
  varint (pre ++ rest) (len pre) = Ok (v, stop) <->
  0 <= v <= u64_max /\ exists r, rest = encode_ofs v ++ r /\ stop = len pre + len (encode_ofs v).
Proof.
  intros Hr. unfold varint.
  rewrite varint_loop_spec; [|done|rewrite length_app; unfold len; lia|unfold_widths; lia].
  change (0 - 1) with (-1). split.
  - intros (l & r & -> & Ht & -> & Hm & ->). fold (ofs_value l) in *.
    assert (0 <= ofs_value l) as H0.
    { destruct l as [|b l]; [inversion Ht|]. unfold ofs_value. simpl.
      pose proof (ofs_step_grows (-1) b ltac:(lia)).
      pose proof (ofs_fold_grows l (ofs_step (-1) b) ltac:(lia)). lia. }
    destruct (encode_ofs_spec (ofs_value l)) as [Ht' Hv']; [lia|].
    rewrite (ofs_value_inj _ _ Ht' Ht Hv'). split; [lia|]. by exists r.
  - intros (Hv & r & -> & ->). destruct (encode_ofs_spec v Hv) as [Ht Hval].
    exists (encode_ofs v), r. split_and!; [done|done|done|lia|done].
Qed.

(** *** Termination *)

Lemma varint_fuel content at_ : 0 <= at_ -> rust_slice content -> varint content at_ <> OutOfFuel.
Proof.
  intros Hat Hr. unfold varint.
  assert (forall fuel cursor value, 0 <= cursor -> Z.max 0 (len content - cursor) < Z.of_nat fuel ->
    varint_loop fuel content cursor value <> OutOfFuel) as Hgen.
  { intros fuel. induction fuel as [|fuel IH]; intros cursor value Hc Hf; [lia|]. cbn [varint_loop].
    destruct (get content cursor) as [b|] eqn:Eg; [|done]. cbn [ok_or]. apply get_lt in Eg.
    destruct (_ ≫= _); [|done]. cbn [ok_or]. destruct (_ =? 0); [done|].
    destruct (checked_add _ _); [|done]. cbn [ok_or]. unfold rust_slice in Hr.
    rewrite sat_add_small by (unfold_widths; lia).
    destruct (Z.lt_ge_cases (cursor + 1) (len content)); [apply IH; lia|].
    destruct fuel as [|fuel]; [lia|]. cbn [varint_loop].
    destruct (get content (cursor + 1)) eqn:Eg'; [apply get_lt in Eg'; lia|done]. }
  apply Hgen; [done|]. unfold len. lia.
Qed.

Lemma index_be32_fuel content at_ : be32 content at_ <> OutOfFuel.
Proof. unfold be32. destruct (slice _ _ _); [|done]. cbn [ok_or]. by destruct (_ =? 4). Qed.

Lemma be16_fuel content at_ : be16 content at_ <> OutOfFuel.
Proof. unfold be16. destruct (slice _ _ _); [|done]. cbn [ok_or]. by destruct (_ =? 2). Qed.

Lemma index_extensions_fuel content at_ : 0 <= at_ -> rust_slice content -> extensions content at_ <> OutOfFuel.
Proof.
  intros Hat Hr. unfold extensions.
  assert (forall fuel a, 0 <= a -> Z.max 0 (len content - a) < Z.of_nat fuel ->
    extensions_loop fuel content a <> OutOfFuel) as Hgen.
  { intros fuel. induction fuel as [|fuel IH]; intros a Ha Hf; [lia|]. cbn [extensions_loop].
    destruct (Z.ltb_spec a (len content)); [|done].
    destruct (slice _ _ _); [|done]. cbn [ok_or].
    destruct (be32 _ _) as [raw| |] eqn:Eb; [|done|by apply index_be32_fuel in Eb].
    unfold usize_try_from. destruct (raw <=? usize_max); [|done].
    rewrite Z.gtb_ltb. destruct (Z.ltb_spec (len content) (sat_add (sat_add a 8) raw)); [done|].
    destruct (_ || _); [done|]. destruct (negb _); [done|].
    assert (0 <= raw) as Hraw.
    { unfold be32 in Eb. destruct (slice _ _ _) as [s'|]; [|done]. cbn [ok_or] in Eb.
      destruct (_ =? 4); [|done]. injection Eb as <-. apply from_be_bytes_range. }
    unfold rust_slice in Hr.
    assert (sat_add a 8 = a + 8) as E8 by (apply sat_add_small; unfold_widths; lia). rewrite E8 in *.
    assert (sat_add (a + 8) raw = a + 8 + raw) as Er
      by (apply (sat_add_exact _ _ (len content)); [done|unfold_widths; lia]). rewrite Er in *.
    apply IH; lia. }
  apply Hgen; [done|]. unfold len. lia.
Qed.

Lemma sat_add_nonneg a b : 0 <= a -> 0 <= b -> 0 <= sat_add a b.
Proof. unfold sat_add, usize_max, u64_max. lia. Qed.

Lemma varint_stop_nonneg content at_ v stop : 0 <= at_ -> varint content at_ = Ok (v, stop) -> 0 <= stop.
Proof.
  assert (forall fuel at_ value, 0 <= at_ ->
    varint_loop fuel content at_ value = Ok (v, stop) -> 0 <= stop) as Hgen; [|apply Hgen].
  intros fuel. induction fuel as [|fuel IH]; intros a value Hat Hv; cbn [varint_loop] in Hv; [done|].
  destruct (get content a); [|done]. cbn [ok_or] in Hv. destruct (_ ≫= _); [|done]. cbn [ok_or] in Hv.
  destruct (_ =? 0).
  - injection Hv as _ <-. apply sat_add_nonneg; lia.
  - destruct (checked_add _ _); [|done]. cbn [ok_or] in Hv. apply IH in Hv; [done|]. apply sat_add_nonneg; lia.
Qed.

Lemma find_nul_nonneg content at_ nul : find_nul content at_ = Ok nul -> 0 <= nul /\ 0 <= at_.
Proof. intros (p & s & q & _ & <- & <- & _)%find_nul_spec. split; apply len_nonneg. Qed.

Lemma entry_path_total content version start path_at flags previous :
  rust_slice content -> 0 <= start -> 0 <= path_at ->
  match entry_path content version start path_at flags previous with
  | Ok (_, next) => 0 <= next | Err _ => True | OutOfFuel => False
  end.
Proof.
  intros Hr Hs Hp. unfold entry_path.
  assert (forall a, find_nul content a <> OutOfFuel) as Hnf by (intros; apply ok_or_fuel).
  destruct (version =? 4).
  - destruct (varint _ _) as [[strip after]| |] eqn:Ev; [|done|by apply varint_fuel in Ev].
    destruct (find_nul _ _) as [nul| |] eqn:En; [|done|by apply Hnf in En].
    destruct (slice _ _ _); [|done]. cbn [ok_or]. unfold usize_try_from.
    destruct (strip <=? usize_max); [|done]. destruct (checked_sub _ _); [|done]. cbn [ok_or].
    apply find_nul_nonneg in En as [? ?]. repeat apply sat_add_nonneg; lia.
  - destruct (find_nul _ _) as [nul| |] eqn:En; [|done|by apply Hnf in En].
    destruct (slice _ _ _); [|done]. cbn [ok_or]. destruct (_ && _); [done|]. cbv zeta.
    destruct (existsb _ _); [done|]. unfold sat_sub. repeat apply sat_add_nonneg; lia.
Qed.

Section TotalLemmas.
Context `{HX : Hex} {HL : HexLaws HX} `{HH : Hashes}.

Lemma entry_step_total f content version st :
  rust_slice content -> entries_wf f (ls_entries st) -> 0 <= ls_at st ->
  match entry_step f content version st with
  | Ok st' => 0 <= ls_at st' | Err _ => True | OutOfFuel => False
  end.
Proof.
  intros Hr Hwf Hat. unfold entry_step. cbv zeta.
  destruct (be32 _ _) as [raw_mode| |] eqn:Em; [|done|by apply index_be32_fuel in Em].
  assert ((if negb (raw_mode =? 16384) then let? m := entry_mode raw_mode in Ok (Some m) else Ok None)
    <> OutOfFuel) as Hmode by (unfold entry_mode; by repeat case_match).
  destruct (if negb _ then _ else Ok None) as [mode| |]; [|done|done].
  destruct (slice _ _ _); [|done]. cbn [ok_or]. destruct (Oid.new _ _) as [oid|]; [|done]. cbn [ok_or].
  destruct (be16 _ _) as [flags| |] eqn:Ef; [|done|by apply be16_fuel in Ef].
  destruct (negb _); [done|].
  set (w := match f with Sha1 => 20 | Sha256 => 32 end).
  set (flags_at := sat_add (sat_add (ls_at st) 40) w).
  assert (0 <= flags_at) as Hfa.
  { unfold flags_at. repeat apply sat_add_nonneg; unfold w; destruct f; lia. }
  assert (0 <= sat_add flags_at 2 /\ 0 <= sat_add (sat_add flags_at 2) 2) as [H2 H4]
    by (split; apply sat_add_nonneg; (lia || apply sat_add_nonneg; lia)).
  assert (forall skip path_at, 0 <= path_at ->
    match
      (let? (path, next) := entry_path content version (ls_at st) path_at flags (last_path (ls_entries st)) in
       match mode, bytes_eqb path [] with
       | Some mode, false =>
           if negb (bytes_eqb (last_path (ls_entries st)) []) && bytes_leb path (last_path (ls_entries st))
           then Err IndexInvalid
           else match prefix_conflict (ls_entries st) path with
                | None => OutOfFuel
                | Some true => Err IndexInvalid
                | Some false => Ok (mkLoop (ls_entries st ++ [mkIndexEntry path mode oid skip])
                                      (ls_unexpanded st) next)
                end
       | _, _ => Ok (mkLoop (ls_entries st) true next)
       end)
    with Ok st' => 0 <= ls_at st' | Err _ => True | OutOfFuel => False end) as Htail.
  { intros skip path_at Hpa.
    pose proof (entry_path_total content version (ls_at st) path_at flags (last_path (ls_entries st)) Hr Hat Hpa) as Hp.
    destruct (entry_path _ _ _ _ _ _) as [[path next]| |]; [|done|done].
    destruct mode; [|done]. destruct (bytes_eqb path []); [done|]. destruct (_ && _); [done|].
    destruct (prefix_conflict_spec (ls_entries st) path (ew_sorted _ _ Hwf)) as ([] & -> & _); done. }
  destruct (negb (Z.land flags EXTENDED_FLAG =? 0)); [|by apply Htail].
  destruct (version =? 2); [done|].
  destruct (be16 content (sat_add flags_at 2)) as [ext| |] eqn:Ee; [|done|by apply be16_fuel in Ee].
  destruct (negb (Z.land ext EXTENDED_RESERVED =? 0)); [done|]. destruct (negb (Z.land ext INTENT_TO_ADD =? 0)); [done|]. by apply Htail.
Qed.

Lemma entries_loop_total n f content version st :
  rust_slice content -> entries_wf f (ls_entries st) -> 0 <= ls_at st ->
  match entries_loop n f content version st with
  | Ok st' => 0 <= ls_at st' | Err _ => True | OutOfFuel => False
  end.
Proof.
  intros Hr. revert st. induction n as [|n IH]; intros st Hwf Hat; cbn [entries_loop]; [done|].
  pose proof (entry_step_total f content version st Hr Hwf Hat) as Hs.
  destruct (entry_step _ _ _ _) as [st1| |] eqn:Es; [|done|done].
  apply IH; [by eapply entry_step_wf|done].
Qed.
End TotalLemmas.

(** ** The writer *)

Definition raw_mode_of (m : GitMode) : Z :=
  match m with
  | RegularFile => 33188 | ExecutableFile => 33261 | Tree => 16384
  | Symlink => 40960 | Gitlink => 57344
  end.

(** The length of the longest common prefix. *)
Fixpoint common_prefix (a b : bytes) : nat :=
  match a, b with
  | x :: a, y :: b => if beqb x y then S (common_prefix a b) else O
  | _, _ => O
  end.

(** What an index row carries beside the logical entry: the cached [stat]
    fields before the mode and those between the mode and the object ID. *)
Record Stat := mkStat { st_times : bytes; st_owner : bytes }.

Section Writer.
Context `{Hex, Hashes}.

Definition raw_oid_of (o : Oid.t) : bytes := default [] (hex_decode (Oid.as_str o)).

Definition entry_flags (e : IndexEntry) : Z :=
  Z.min (len (ie_path e)) NAME_MASK + (if ie_skip_worktree e then EXTENDED_FLAG else 0).

Definition entry_head (s : Stat) (e : IndexEntry) : bytes :=
  st_times s ++ to_be 4 (raw_mode_of (ie_mode e)) ++ st_owner s ++ raw_oid_of (ie_oid e)
  ++ to_be 2 (entry_flags e)
  ++ (if ie_skip_worktree e then to_be 2 SKIP_WORKTREE else []).

Definition entry_tail (version : u32) (head_len : Z) (prev path : bytes) : bytes :=
  if version =? 4 then
    let common := common_prefix prev path in
    encode_ofs (len prev - Z.of_nat common) ++ drop common path ++ [x00]
  else
    path ++ repeat x00 (Z.to_nat (8 - (head_len + len path) mod 8)).

Definition entry_text (version : u32) (prev : bytes) (s : Stat) (e : IndexEntry) : bytes :=
  entry_head s e ++ entry_tail version (len (entry_head s e)) prev (ie_path e).

Fixpoint entries_text (version : u32) (prev : bytes) (rows : list (Stat * IndexEntry)) : bytes :=
  match rows with
  | [] => []
  | (s, e) :: rows => entry_text version prev s e ++ entries_text version (ie_path e) rows
  end.

Definition write_index (f : ObjectFormat) (version : u32) (rows : list (Stat * IndexEntry)) : bytes :=
  let content := b_ "DIRC" ++ to_be 4 version ++ to_be 4 (len rows) ++ entries_text version [] rows in
  content ++ ordinary_digest f content.

(** What can be written: rows of the namespace, no directories, and the
    skip-worktree bit only in a version that has it. *)
Definition row_ok (f : ObjectFormat) (version : u32) (row : Stat * IndexEntry) : Prop :=
  len (st_times row.1) = 24 /\ len (st_owner row.1) = 12 /\ ie_mode row.2 <> Tree /\
  (version = 2 -> ie_skip_worktree row.2 = false).
End Writer.

(** *** The writer is read back *)

Lemma slice_at (content p s q : bytes) a b :
  content = p ++ s ++ q -> a = len p -> b = len p + len s -> slice content a b = Some s.
Proof. intros -> -> ->. apply slice_app_mid. Qed.

Lemma be32_at content p v q a :
  rust_slice content -> content = p ++ to_be 4 v ++ q -> a = len p -> 0 <= v <= u32_max ->
  be32 content a = Ok v.
Proof.
  intros Hr Hc -> Hv. unfold be32. unfold rust_slice in Hr.
  assert (len content = len p + (4 + len q)) as Hl by (rewrite Hc, !len_app, to_be_len; lia).
  pose proof (len_nonneg q). rewrite sat_add_small by (unfold_widths; lia).
  rewrite (slice_at content p (to_be 4 v) q) by (done || rewrite to_be_len; lia).
  cbn [ok_or]. rewrite to_be_len. change (Z.of_nat 4 =? 4) with true. cbn match.
  rewrite from_be_to_be; [done|]. unfold_widths. simpl. lia.
Qed.

Lemma be16_at content p v q a :
  rust_slice content -> content = p ++ to_be 2 v ++ q -> a = len p -> 0 <= v <= u16_max ->
  be16 content a = Ok v.
Proof.
  intros Hr Hc -> Hv. unfold be16. unfold rust_slice in Hr.
  assert (len content = len p + (2 + len q)) as Hl by (rewrite Hc, !len_app, to_be_len; lia).
  pose proof (len_nonneg q). rewrite sat_add_small by (unfold_widths; lia).
  rewrite (slice_at content p (to_be 2 v) q) by (done || rewrite to_be_len; lia).
  cbn [ok_or]. rewrite to_be_len. change (Z.of_nat 2 =? 2) with true. cbn match.
  rewrite from_be_to_be; [done|]. unfold_widths. simpl. lia.
Qed.

Lemma find_nul_at content p s q :
  content = p ++ s ++ x00 :: q -> x00 ∉ s -> find_nul content (len p) = Ok (len s).
Proof.
  intros -> Hs. unfold find_nul. apply ok_or_Ok, bind_Some. exists (s ++ x00 :: q).
  split; [apply slice_from_spec; by exists p|]. apply position_spec. exists s, x00, q.
  split_and!; [done..|]. apply Forall_forall. intros y Hy.
  destruct (beqb y x00) eqn:E; [apply beqb_eq in E as ->; done|done].
Qed.

Lemma common_prefix_spec a b :
  (common_prefix a b <= length a)%nat /\ take (common_prefix a b) a = take (common_prefix a b) b.
Proof.
  revert b. induction a as [|x a IH]; intros [|y b]; simpl; try (split; [lia|done]).
  destruct (beqb x y) eqn:E; simpl; [|split; [lia|done]]. apply beqb_eq in E as ->.
  destruct (IH b) as [Hl Ht]. split; [lia|]. by rewrite Ht.
Qed.

Lemma entry_path_v4 content p prev path rest start flags :
  rust_slice content -> rust_slice prev -> x00 ∉ path ->
  content = p ++ entry_tail 4 0 prev path ++ rest ->
  entry_path content 4 start (len p) flags prev
    = Ok (path, len p + len (entry_tail 4 0 prev path)).
Proof.
  intros Hr Hprev Hnul Hc. unfold entry_path, entry_tail in *. rewrite Z.eqb_refl in *. cbv zeta in *.
  set (c := common_prefix prev path) in *. destruct (common_prefix_spec prev path) as [Hcl Hct]. fold c in Hcl, Hct.
  set (strip := len prev - Z.of_nat c) in *. rewrite <- !app_assoc in Hc.
  assert (0 <= strip <= u64_max) as Hstrip by (unfold strip, rust_slice, len in *; unfold_widths; lia).
  assert (varint content (len p) = Ok (strip, len p + len (encode_ofs strip))) as ->.
  { rewrite Hc. apply varint_spec; [by rewrite <- Hc|]. split; [done|].
    by exists (drop c path ++ [x00] ++ rest). }
  rewrite <- len_app. assert (x00 ∉ drop c path) as Hnul'.
  { intros Hin. apply Hnul. rewrite <- (take_drop c path). apply elem_of_app. by right. }
  rewrite (find_nul_at content (p ++ encode_ofs strip) (drop c path) rest)
    by (done || by rewrite Hc, <- app_assoc).
  assert (len (p ++ encode_ofs strip) + len (drop c path) + 1 <= isize_max) as Hlen.
  { unfold rust_slice in Hr. rewrite Hc, !len_app in Hr. change (len [x00]) with 1 in Hr.
    rewrite len_app. pose proof (len_nonneg rest). lia. }
  rewrite (sat_add_small (len (p ++ encode_ofs strip))) by (unfold_widths; lia).
  rewrite (slice_at content (p ++ encode_ofs strip) (drop c path) (x00 :: rest))
    by (done || by rewrite Hc, <- app_assoc). cbn [ok_or].
  unfold usize_try_from. destruct (Z.leb_spec strip usize_max); [|unfold_widths; lia].
  replace (checked_sub (len prev) strip) with (Some (Z.of_nat c))
    by (symmetry; apply checked_sub_Some; unfold strip; lia). cbn [ok_or].
  rewrite sat_add_small by (unfold_widths; lia).
  rewrite slice_to_take by (unfold len; lia). cbn [from_option id]. rewrite Nat2Z.id, Hct, take_drop.
  f_equal. f_equal. rewrite !len_app. change (len [x00]) with 1. lia.
Qed.

Lemma pad_get content p k q i :
  content = p ++ repeat x00 k ++ q -> len p <= i < len p + Z.of_nat k -> get content i = Some x00.
Proof.
  intros -> Hi. unfold get, len in *. destruct (Z.leb_spec 0 i); [|lia].
  rewrite lookup_app_r by lia. rewrite lookup_app_l by (rewrite repeat_length; lia).
  destruct (lookup_lt_is_Some_2 (repeat x00 k) (Z.to_nat i - length p)) as [x Hx];
    [rewrite repeat_length; lia|].
  rewrite Hx. f_equal. by apply list_elem_of_lookup_2, list_elem_of_In, repeat_spec in Hx.
Qed.

Lemma entry_path_v23 content p version path rest start flags prev head_len :
  rust_slice content -> version <> 4 -> x00 ∉ path -> 0 <= start ->
  len p = start + head_len -> 0 <= head_len ->
  Z.land flags NAME_MASK = Z.min (len path) NAME_MASK ->
  content = p ++ entry_tail version head_len prev path ++ rest ->
  entry_path content version start (len p) flags prev
    = Ok (path, len p + len (entry_tail version head_len prev path)).
Proof.
  intros Hr Hv Hnul Hst Hp Hhl Hflags Hc. unfold entry_path, entry_tail in *.
  destruct (Z.eqb_spec version 4); [done|].
  set (k := Z.to_nat (8 - (head_len + len path) mod 8)) in *. rewrite <- app_assoc in Hc.
  pose proof (Z.mod_pos_bound (head_len + len path) 8 ltac:(lia)) as Hmod.
  destruct k as [|k'] eqn:Ek; [unfold k in Ek; lia|]. rewrite <- Ek in *.
  assert (repeat x00 k = x00 :: repeat x00 k') as Hrep by (by rewrite Ek).
  rewrite (find_nul_at content p path (repeat x00 k' ++ rest)) by (done || by rewrite Hc, Hrep).
  assert (len (repeat x00 k) = Z.of_nat k) as Hlk by (unfold len; by rewrite repeat_length).
  assert (len p + len path + Z.of_nat k <= isize_max) as Hlen.
  { unfold rust_slice in Hr. rewrite Hc, !len_app, Hlk in Hr. pose proof (len_nonneg rest). lia. }
  pose proof (len_nonneg path). pose proof (len_nonneg p).
  rewrite (sat_add_small (len p)) by (unfold_widths; lia).
  rewrite (slice_at content p path (repeat x00 k ++ rest)) by done. cbn [ok_or]. rewrite Hflags.
  replace ((Z.min (len path) NAME_MASK <? NAME_MASK) && negb (Z.min (len path) NAME_MASK =? len path))
    with false.
  2: { destruct (Z.ltb_spec (Z.min (len path) NAME_MASK) NAME_MASK); [|done].
       destruct (Z.eqb_spec (Z.min (len path) NAME_MASK) (len path)); [done|lia]. }
  cbv zeta. rewrite (sat_sub_small (len p + len path)) by lia.
  replace (len p + len path - start) with (head_len + len path) by lia.
  rewrite sat_sub_small by lia. rewrite (sat_add_small start) by (unfold_widths; lia).
  rewrite sat_add_small by (unfold_widths; lia).
  assert (Z.of_nat k = 8 - (head_len + len path) mod 8) as Hk by (unfold k; lia). rewrite <- Hk.
  replace (existsb _ _) with false.
  - f_equal. f_equal. rewrite len_app, Hlk. lia.
  - symmetry. apply not_true_iff_false. intros (i & Hi & Hne)%existsb_exists.
    apply list_elem_of_In, list_elem_of_lookup in Hi as [j Hj]. rewrite zseq_lookup in Hj.
    destruct (decide _) as [Hjlt|]; [|done]. injection Hj as <-.
    rewrite (pad_get content (p ++ path) k rest) in Hne; [done|by rewrite Hc, <- app_assoc|].
    rewrite len_app. lia.
Qed.

(** *** Flag arithmetic *)

Lemma land_shiftl_mask x m k : 0 <= k -> Z.land x (Z.shiftl m k) = Z.shiftl (Z.land (Z.shiftr x k) m) k.
Proof.
  intros Hk. apply Z.bits_inj'. intros n Hn. rewrite Z.land_spec.
  destruct (Z.lt_ge_cases n k).
  - rewrite !Z.shiftl_spec_low by lia. apply andb_false_r.
  - rewrite !Z.shiftl_spec by lia. rewrite Z.land_spec, Z.shiftr_spec by lia. do 2 f_equal. lia.
Qed.

Lemma flags_bits n (skip : bool) :
  0 <= n <= NAME_MASK ->
  let flags := n + (if skip then EXTENDED_FLAG else 0) in
  Z.land flags STAGE_MASK = 0 /\ (Z.land flags EXTENDED_FLAG =? 0) = negb skip /\
  Z.land flags NAME_MASK = n /\ 0 <= flags <= u16_max.
Proof.
  unfold NAME_MASK, STAGE_MASK, EXTENDED_FLAG. intros Hn. cbv zeta.
  set (flags := n + (if skip then 16384 else 0)).
  assert (flags / 2 ^ 12 = if skip then 4 else 0) as H12.
  { unfold flags. symmetry. destruct skip; apply (Z.div_unique_pos _ _ _ n); lia. }
  assert (flags / 2 ^ 14 = if skip then 1 else 0) as H14.
  { unfold flags. symmetry. destruct skip; apply (Z.div_unique_pos _ _ _ n); lia. }
  split_and!.
  - change 12288 with (Z.shiftl 3 12). rewrite land_shiftl_mask, Z.shiftr_div_pow2, H12 by lia.
    by destruct skip.
  - change 16384 with (Z.shiftl 1 14). rewrite land_shiftl_mask, Z.shiftr_div_pow2, H14 by lia.
    by destruct skip.
  - change 4095 with (Z.ones 12). rewrite Z.land_ones by lia. unfold flags.
    destruct skip; symmetry; [apply (Z.mod_unique_pos _ _ 4)|apply (Z.mod_unique_pos _ _ 0)]; lia.
  - unfold flags. destruct skip; lia.
  - unfold flags, u16_max. destruct skip; lia.
Qed.

Section RoundTrip.
Context `{HX : Hex} {HL : HexLaws HX} `{HH : Hashes} {HHL : HashLaws HH}.

Definition fmt_width (f : ObjectFormat) : Z := match f with Sha1 => 20 | Sha256 => 32 end.

(** The object ID a row stores is the one it is read back as. *)
Lemma raw_oid_back f o :
  Oid.wf o -> Oid.object_format o = f ->
  len (raw_oid_of o) = fmt_width f /\ Oid.new f (hex_encode (raw_oid_of o)) = Some o.
Proof.
  intros (b & Hl & Hraw) Hf. unfold raw_oid_of, Oid.as_str. rewrite Hraw, hex_decode_encode.
  cbn [from_option id]. rewrite Hf in Hl. split; [by destruct f|].
  rewrite Oid.new_encode by done. f_equal. destruct o as [f' r]. simpl in *. by subst.
Qed.

Lemma entry_mode_back m : m <> Tree ->
  (raw_mode_of m =? 16384) = false /\ entry_mode (raw_mode_of m) = Ok m /\ 0 <= raw_mode_of m <= u32_max.
Proof. destruct m; try done; intros _; (split; [done|split; [done|split; discriminate]]). Qed.

Lemma entry_path_written content p version path rest start flags prev head_len :
  rust_slice content -> rust_slice prev -> x00 ∉ path -> 0 <= start ->
  len p = start + head_len -> 0 <= head_len ->
  Z.land flags NAME_MASK = Z.min (len path) NAME_MASK ->
  content = p ++ entry_tail version head_len prev path ++ rest ->
  entry_path content version start (len p) flags prev
    = Ok (path, len p + len (entry_tail version head_len prev path)).
Proof.
  intros Hr Hprev Hnul Hst Hp Hhl Hfl Hc. destruct (decide (version = 4)) as [->|Hv].
  - by apply (entry_path_v4 content p prev path rest).
  - by apply (entry_path_v23 content p version path rest start flags prev head_len).
Qed.

(** What a row needs beside being writable: to extend the index. *)
Definition extends (f : ObjectFormat) (entries : list IndexEntry) (e : IndexEntry) : Prop :=
  ie_path e <> [] /\ x00 ∉ ie_path e /\ Oid.wf (ie_oid e) /\ Oid.object_format (ie_oid e) = f /\
  (last_path entries <> [] -> bytes_lt (last_path entries) (ie_path e)) /\
  (forall a, a ∈ entries -> ~ dir_prefix (ie_path a) (ie_path e)).

Lemma entry_step_written f version content pre st s e rest :
  rust_slice content -> row_ok f version (s, e) ->
  StronglySorted path_lt (ls_entries st) -> extends f (ls_entries st) e ->
  rust_slice (last_path (ls_entries st)) -> ls_at st = len pre ->
  content = pre ++ entry_text version (last_path (ls_entries st)) s e ++ rest ->
  entry_step f content version st
    = Ok (mkLoop (ls_entries st ++ [e]) (ls_unexpanded st)
            (len pre + len (entry_text version (last_path (ls_entries st)) s e))).
Proof.
  intros Hr (Ht & Ho & Hmode & Hskip) Hs (Hne & Hnul & Hwf & Hfmt & Hlast & Hconf) Hprev Hat Hc.
  cbn [fst snd] in *. destruct (raw_oid_back f (ie_oid e) Hwf Hfmt) as [Hlo Hoid].
  destruct (entry_mode_back (ie_mode e) Hmode) as (Hm1 & Hm2 & Hm3).
  destruct (flags_bits (Z.min (len (ie_path e)) NAME_MASK) (ie_skip_worktree e)) as (Hf1 & Hf2 & Hf3 & Hf4);
    [pose proof (len_nonneg (ie_path e)); unfold NAME_MASK; lia|].
  fold (entry_flags e) in Hf1, Hf2, Hf3, Hf4.
  unfold entry_text in Hc |- *. set (hd := entry_head s e) in *.
  set (tl := entry_tail version (len hd) (last_path (ls_entries st)) (ie_path e)) in *.
  set (prev := last_path (ls_entries st)) in *.
  set (ext := if ie_skip_worktree e then to_be 2 SKIP_WORKTREE else []) in *.
  set (pt := pre ++ st_times s). set (po := pt ++ to_be 4 (raw_mode_of (ie_mode e)) ++ st_owner s).
  set (pf := po ++ raw_oid_of (ie_oid e)).
  set (pe := pf ++ to_be 2 (entry_flags e)).
  assert (content = pe ++ ext ++ tl ++ rest) as Hc1.
  { rewrite Hc. unfold pe, pf, po, pt, hd, entry_head. fold ext. rewrite <- !app_assoc. done. }
  assert (len pt = len pre + 24) as Hlt by (unfold pt; rewrite len_app; lia).
  assert (len po = len pre + 40) as Hlpo by (unfold po; rewrite !len_app, to_be_len; lia).
  assert (len pf = len pre + 40 + fmt_width f) as Hlpf by (unfold pf; rewrite !len_app; lia).
  assert (len pe = len pre + 42 + fmt_width f) as Hlpe by (unfold pe; rewrite !len_app, to_be_len; lia).
  assert (20 <= fmt_width f <= 32) as Hw by (destruct f; simpl; lia).
  assert (len content <= isize_max) as Hlen by done.
  assert (len pe + len ext + len tl <= len content) as Hle.
  { rewrite Hc1, !len_app. pose proof (len_nonneg rest). lia. }
  pose proof (len_nonneg tl) as Htl. pose proof (len_nonneg ext) as Hext. pose proof (len_nonneg pre).
  assert (len hd = 42 + fmt_width f + len ext) as Hlh.
  { unfold hd, entry_head. fold ext. rewrite !len_app, !to_be_len. lia. }
  unfold entry_step. cbv zeta. fold (fmt_width f). rewrite Hat.
  assert (forall k, 0 <= k <= 40 -> sat_add (len pre) k = len pre + k) as Hsat
    by (intros; apply sat_add_small; unfold_widths; lia).
  rewrite !Hsat by lia. rewrite (sat_add_small (len pre + 40)) by (unfold_widths; lia).
  rewrite (sat_add_small (len pre + 40 + fmt_width f)) by (unfold_widths; lia).
  rewrite (be32_at content pt (raw_mode_of (ie_mode e)) (st_owner s ++ raw_oid_of (ie_oid e)
    ++ to_be 2 (entry_flags e) ++ ext ++ tl ++ rest));
    [|done|rewrite Hc1; unfold pe, pf, po; by rewrite <- !app_assoc|lia|done].
  rewrite Hm1, Hm2. cbn [negb].
  rewrite (slice_at content po (raw_oid_of (ie_oid e)) (to_be 2 (entry_flags e) ++ ext ++ tl ++ rest));
    [|rewrite Hc1; unfold pe, pf; by rewrite <- !app_assoc|lia|lia]. cbn [ok_or].
  rewrite Hoid. cbn [ok_or].
  rewrite (be16_at content pf (entry_flags e) (ext ++ tl ++ rest));
    [|done|rewrite Hc1; unfold pe; by rewrite <- !app_assoc|lia|done].
  rewrite Hf1, Hf2, negb_involutive. cbn [Z.eqb negb].
  assert ((if ie_skip_worktree e
    then if version =? 2 then Err IndexInvalid
         else let? extended := be16 content (len pre + 40 + fmt_width f + 2) in
              if negb (Z.land extended EXTENDED_RESERVED =? 0) then Err IndexInvalid
              else if negb (Z.land extended INTENT_TO_ADD =? 0) then Err IntentToAdd
              else Ok (negb (Z.land extended SKIP_WORKTREE =? 0),
                       sat_add (len pre + 40 + fmt_width f + 2) 2)
    else Ok (false, len pre + 40 + fmt_width f + 2))
    = Ok (ie_skip_worktree e, len (pe ++ ext))) as ->.
  { rewrite len_app. destruct (ie_skip_worktree e) eqn:Esk.
    - destruct (Z.eqb_spec version 2) as [->|]; [by specialize (Hskip eq_refl)|].
      unfold ext in Hc1 |- *. rewrite to_be_len in *.
      rewrite (be16_at content pe SKIP_WORKTREE (tl ++ rest)); [|done|done|lia|done].
      cbn. rewrite sat_add_small by (unfold_widths; lia). f_equal. f_equal. lia.
    - unfold ext. change (len (@nil Byte.byte)) with 0. f_equal. f_equal. lia. }
  cbv beta iota. fold prev. rewrite (entry_path_written content (pe ++ ext) version (ie_path e) rest (len pre) (entry_flags e) prev (len hd));
    [|done|done|done|lia|rewrite len_app; lia|lia|done|by rewrite Hc1, <- app_assoc].
  fold tl. rewrite (proj2 (bytes_eqb_neq _ _) Hne).
  assert (negb (bytes_eqb prev []) && bytes_leb (ie_path e) prev = false) as ->.
  { apply andb_false_iff. destruct (bytes_eqb prev []) eqn:Ep; [by left|]. right.
    apply bytes_eqb_neq in Ep. by apply bytes_leb_false, Hlast. }
  destruct (prefix_conflict_spec (ls_entries st) (ie_path e) Hs) as ([] & -> & Hiff).
  { destruct (proj1 Hiff eq_refl) as (a & Ha & Hd). by apply (Hconf a) in Hd. }
  replace (mkIndexEntry (ie_path e) (ie_mode e) (ie_oid e) (ie_skip_worktree e)) with e by (by destruct e).
  f_equal. f_equal. rewrite !len_app. lia.
Qed.

Lemma wf_extends f es e rest : entries_wf f (es ++ e :: rest) -> entries_wf f es /\ extends f es e.
Proof.
  intros [Hs Hp He]. apply StronglySorted_app in Hs as (Hlt & Hs & _).
  apply Forall_app in He as [He1 He2]. apply Forall_cons_iff in He2 as [(Hne & Hnul & Hwf & Hf) _].
  split.
  - split; [done| |done]. intros a b Ha Hb. apply Hp; apply elem_of_app; by left.
  - unfold extends. split_and!; try done.
    + intros Hl. unfold last_path in *. destruct (last es) as [y|] eqn:Ey; [|done].
      apply Hlt; [|by left]. apply last_Some in Ey as [l ->]. apply elem_of_app. right. by left.
    + intros a Ha. apply Hp; apply elem_of_app; [by left|right; by left].
Qed.

Lemma last_path_snoc es e : last_path (es ++ [e]) = ie_path e.
Proof. unfold last_path. by rewrite last_snoc. Qed.

Lemma entries_loop_written f version content rows pre rest es u :
  rust_slice content -> Forall (row_ok f version) rows ->
  Forall (fun e => rust_slice (ie_path e)) (es ++ map snd rows) ->
  entries_wf f (es ++ map snd rows) ->
  content = pre ++ entries_text version (last_path es) rows ++ rest ->
  entries_loop (length rows) f content version (mkLoop es u (len pre))
    = Ok (mkLoop (es ++ map snd rows) u (len pre + len (entries_text version (last_path es) rows))).
Proof.
  intros Hr Hok. revert pre es. induction Hok as [|[s e] rows Hrow Hok IH]; intros pre es Hsl Hwf Hc.
  { cbn [length entries_loop map entries_text]. rewrite app_nil_r, len_nil, Z.add_0_r. done. }
  cbn [length entries_loop map entries_text snd] in *.
  destruct (wf_extends f es e (map snd rows) Hwf) as [Hes Hext].
  rewrite <- app_assoc in Hc.
  rewrite (entry_step_written f version content pre (mkLoop es u (len pre)) s e
    (entries_text version (ie_path e) rows ++ rest)); cbn [ls_entries ls_at ls_unexpanded]; try done.
  - rewrite <- len_app. replace (es ++ e :: map snd rows) with ((es ++ [e]) ++ map snd rows) in *
      by (by rewrite <- app_assoc).
    rewrite IH; rewrite ?last_path_snoc; try done.
    + rewrite !len_app. f_equal. f_equal. lia.
    + by rewrite Hc, <- app_assoc.
  - apply Hes.
  - unfold last_path. destruct (last es) as [y|] eqn:Ey; [|done]. apply last_Some in Ey as [l ->].
    apply Forall_app in Hsl as [Hsl _]. apply Forall_app in Hsl as [_ Hsl].
    by apply Forall_cons_iff in Hsl as [? _].
Qed.

Lemma digest_width f d : len (ordinary_digest f d) = fmt_width f.
Proof. destruct f; [apply sha1_len|apply sha256_len]. Qed.

Lemma extensions_end content : extensions content (len content) = Ok tt.
Proof. unfold extensions. cbn [extensions_loop]. by rewrite Z.ltb_irrefl. Qed.
End RoundTrip.

(** ** Properties *)

(** an index file that is accepted gives a logical index whose entries have
    nonempty NUL-free paths in strictly increasing byte order, none of them a
    directory of another, with object IDs of the declared namespace; and the
    file ends with the digest of what precedes it or with zeroes. *)
Theorem parse_index_file_sound (HX : Hex) (HL : HexLaws HX) (HH : Hashes) f input idx :
  rust_slice input -> parse_index_file f input = Ok idx ->
  entries_wf f (li_entries idx) /\
  exists content trailer, input = content ++ trailer /\ len trailer = fmt_width f /\
    (trailer = ordinary_digest f content \/ Forall (fun b => b = x00) trailer).
Proof.
  intros Hr Hp. unfold parse_index_file in Hp. fold (fmt_width f) in Hp.
  destruct (checked_sub _ _) as [sp|] eqn:Esp; [|done]. cbn [ok_or] in Hp.
  apply checked_sub_Some in Esp as [-> Hsp].
  destruct (slice_to input _) as [content|] eqn:Ec; [|done]. cbn [ok_or] in Hp.
  destruct (slice_from input _) as [stored|] eqn:Es; [|done]. cbn [ok_or] in Hp.
  destruct (existsb _ _ && _) eqn:Ed; [done|].
  destruct (negb (match slice_to content 4 with Some _ => _ | None => _ end)); [done|].
  destruct (be32 content 4) as [version| |]; [|done|done]. destruct (negb (_ && _)); [done|].
  destruct (be32 content 8) as [count| |]; [|done|done].
  unfold usize_try_from in Hp. destruct (count <=? usize_max); [|done].
  destruct (entries_loop _ _ _ _ _) as [st| |] eqn:El; [|done|done].
  destruct (extensions _ _) as [[]| |]; [|done|done]. destruct (ls_unexpanded st); [done|].
  injection Hp as <-. cbn [li_entries].
  assert (rust_slice content) as Hrc.
  { unfold rust_slice, slice_to in *. apply slice_len in Ec. lia. }
  split.
  - apply (entries_loop_wf _ _ _ _ _ _ Hrc) in El; [done|]. cbn [ls_entries].
    split; [constructor|by intros a b ?%elem_of_nil|constructor].
  - apply slice_to_spec in Ec as (q & -> & Hq). apply slice_from_spec in Es as (p' & Heq & Hp').
    apply app_inj_1 in Heq as [<- <-]; [|unfold len in *; lia].
    exists content, q. rewrite len_app in *. split_and!; [done|lia|].
    apply andb_false_iff in Ed as [Ed|Ed].
    + right. apply Forall_forall. intros b Hb. destruct (beqb b x00) eqn:E; [by apply beqb_eq in E|].
      assert (existsb (fun b => negb (beqb b x00)) q = true) as Ht; [|congruence].
      apply existsb_exists. exists b. split; [by apply list_elem_of_In|by rewrite E].
    + left. apply negb_false_iff, bytes_eqb_eq in Ed. done.
Qed.

(** A version-two index of one file under the toy digest. *)
Definition example_entry : IndexEntry :=
  mkIndexEntry (b_ "a/b") RegularFile
    (Oid.mk Sha1 (hex_encode (Hex := rfc_hex) (repeat x05 20))) false.
Definition example_rows : list (Stat * IndexEntry) :=
  [(mkStat (repeat x00 24) (repeat x00 12), example_entry)].
Definition example_index_file : bytes := write_index (H := rfc_hex) (H0 := toy_hash) Sha1 2 example_rows.

Lemma parse_index_file_sound_witness :
  rust_slice example_index_file /\
  parse_index_file (H := rfc_hex) (H0 := toy_hash) Sha1 example_index_file
    = Ok (mkLogicalIndex [example_entry]) /\
  entries_wf (H := rfc_hex) Sha1 [example_entry].
Proof.
  assert (rust_slice example_index_file) as Hr by (vm_compute; discriminate).
  assert (parse_index_file (H := rfc_hex) (H0 := toy_hash) Sha1 example_index_file
    = Ok (mkLogicalIndex [example_entry])) as Hp by (vm_compute; reflexivity).
  split; [exact Hr|]. split; [exact Hp|].
  apply (parse_index_file_sound rfc_hex rfc_hex_laws toy_hash Sha1 _ _ Hr Hp).
Defined.

(** C38: reading back what Git writes: for versions two, three and four, the index
    file written from any sorted, prefix-free list of entries parses to exactly
    those entries, skip-worktree bits and prefix-compressed paths included. *)
Theorem index_file_roundtrip (HX : Hex) (HL : HexLaws HX) (HH : Hashes) (HHL : HashLaws HH)
    f version rows :
  2 <= version <= 4 -> Forall (row_ok f version) rows -> entries_wf f (map snd rows) ->
  Forall (fun e => rust_slice (ie_path e)) (map snd rows) ->
  len rows <= u32_max -> rust_slice (write_index f version rows) ->
  parse_index_file f (write_index f version rows) = Ok (mkLogicalIndex (map snd rows)).
Proof.
  intros Hv Hok Hwf Hsl Hcount Hr. unfold write_index in *. cbv zeta in *.
  set (content := b_ "DIRC" ++ _) in *. unfold parse_index_file. fold (fmt_width f).
  pose proof (digest_width f content) as Hd. rewrite len_app, Hd.
  assert (rust_slice content) as Hrc.
  { unfold rust_slice in *. rewrite len_app, Hd in Hr.
    assert (20 <= fmt_width f) by (destruct f; simpl; lia). lia. }
  pose proof (len_nonneg content) as Hlc.
  replace (checked_sub (len content + fmt_width f) (fmt_width f)) with (Some (len content))
    by (symmetry; apply checked_sub_Some; lia). cbn [ok_or].
  replace (slice_to (content ++ ordinary_digest f content) (len content)) with (Some content)
    by (symmetry; apply slice_to_spec; eauto). cbn [ok_or].
  replace (slice_from (content ++ ordinary_digest f content) (len content))
    with (Some (ordinary_digest f content)) by (symmetry; apply slice_from_spec; eauto). cbn [ok_or].
  rewrite (proj2 (bytes_eqb_eq (ordinary_digest f content) _) eq_refl). cbn [negb]. rewrite andb_false_r.
  replace (slice_to content 4) with (Some (b_ "DIRC")).
  2: { symmetry. apply slice_to_spec. unfold content. eexists. split; [reflexivity|done]. }
  rewrite (proj2 (bytes_eqb_eq (b_ "DIRC") _) eq_refl). cbn [negb].
  rewrite (be32_at content (b_ "DIRC") version (to_be 4 (len rows) ++ entries_text version [] rows));
    [|done|done|done|unfold_widths; lia].
  destruct (Z.leb_spec 2 version); [|lia]. destruct (Z.leb_spec version 4); [|lia]. cbn [andb negb].
  pose proof (len_nonneg rows).
  rewrite (be32_at content (b_ "DIRC" ++ to_be 4 version) (len rows) (entries_text version [] rows));
    [|done|unfold content; by rewrite <- app_assoc|rewrite len_app, to_be_len; done|lia].
  unfold usize_try_from. destruct (Z.leb_spec (len rows) usize_max); [|unfold_widths; lia].
  replace (Z.to_nat (len rows)) with (length rows) by (unfold len; lia).
  set (pre := b_ "DIRC" ++ to_be 4 version ++ to_be 4 (len rows)).
  assert (len pre = 12) as Hpre by (unfold pre; rewrite !len_app, !to_be_len; done).
  assert (content = pre ++ entries_text version [] rows ++ []) as Hc.
  { unfold content, pre. rewrite app_nil_r, <- !app_assoc. done. }
  rewrite <- Hpre. rewrite (entries_loop_written f version content rows pre [] [] false) by done.
  cbn [ls_at ls_unexpanded ls_entries app last_path last].
  assert (len pre + len (entries_text version [] rows) = len content) as ->
    by (rewrite Hc, app_nil_r, len_app; done).
  by rewrite extensions_end.
Qed.

Lemma index_file_roundtrip_witness :
  Forall (row_ok Sha1 2) example_rows /\
  parse_index_file (H := rfc_hex) (H0 := toy_hash) Sha1 example_index_file
    = Ok (mkLogicalIndex (map snd example_rows)).
Proof.
  assert (Forall (row_ok Sha1 2) example_rows) as Hok
    by (repeat constructor; discriminate).
  split; [exact Hok|].
  apply (index_file_roundtrip rfc_hex rfc_hex_laws toy_hash toy_hash_laws Sha1 2 example_rows);
    [lia|exact Hok| | |vm_compute; discriminate|vm_compute; discriminate].
  - split; [repeat constructor| |].
    + intros a b Ha%list_elem_of_singleton Hb%list_elem_of_singleton. subst. intros [r Hr].
      apply (f_equal length) in Hr. rewrite length_app in Hr. simpl in Hr. lia.
    + repeat constructor; [discriminate| |exists (repeat x05 20); split; reflexivity].
      vm_compute. intros Hin. repeat (apply elem_of_cons in Hin as [Hin|Hin]; [discriminate Hin|]).
      by apply elem_of_nil in Hin.
  - repeat constructor. vm_compute. discriminate.
Defined.

(** reading an index file always ends, whatever the bytes. *)
Theorem parse_index_file_total (HX : Hex) (HL : HexLaws HX) (HH : Hashes) f input :
  rust_slice input -> parse_index_file f input <> OutOfFuel.
Proof.
  intros Hr. unfold parse_index_file. fold (fmt_width f).
  destruct (checked_sub _ _) as [sp|]; [|done]. cbn [ok_or].
  destruct (slice_to input sp) as [content|] eqn:Ec; [|done]. cbn [ok_or].
  destruct (slice_from input sp) as [stored|]; [|done]. cbn [ok_or].
  destruct (existsb _ _ && _); [done|]. destruct (negb _); [done|].
  destruct (be32 content 4) as [version| |] eqn:E4; [|done|by apply index_be32_fuel in E4].
  destruct (negb _); [done|].
  destruct (be32 content 8) as [count| |] eqn:E8; [|done|by apply index_be32_fuel in E8].
  unfold usize_try_from. destruct (count <=? usize_max); [|done].
  assert (rust_slice content) as Hrc.
  { unfold rust_slice, slice_to in *. apply slice_len in Ec. lia. }
  pose proof (entries_loop_total (Z.to_nat count) f content version (mkLoop [] false 12) Hrc) as Ht.
  cbn [ls_entries ls_at] in Ht.
  assert (entries_wf f []) as Hwf by (split; [constructor|by intros a b ?%elem_of_nil|constructor]).
  specialize (Ht Hwf ltac:(lia)).
  destruct (entries_loop _ _ _ _ _) as [st| |]; [|done|done].
  destruct (extensions _ _) as [[]| |] eqn:Ee; [|done|by apply index_extensions_fuel in Ee].
  by destruct (ls_unexpanded st).
Qed.

Lemma parse_index_file_total_witness :
  (HexLaws rfc_hex /\ rust_slice (b_ "DIRC")) /\
  parse_index_file (H := rfc_hex) (H0 := toy_hash) Sha1 (b_ "DIRC") <> OutOfFuel.
Proof.
  assert (rust_slice (b_ "DIRC")) as Hr by (vm_compute; discriminate).
  split; [exact (conj rfc_hex_laws Hr)|].
  apply (parse_index_file_total rfc_hex rfc_hex_laws toy_hash Sha1 _ Hr).
Defined.
