(* ===== verification/GitHandle.v ===== *)
(** The handle boundary: [crates/amiss-git/src/handle.rs]. Every entry below
    the root is opened relative to a held directory handle and never followed.

    The operating system is the class [Fs]: each call gets the world and leaves
    another one, so whatever other processes do between two calls is covered by
    quantifying over the class. *)
From Stdlib Require Import Strings.Byte Strings.String Lia.
From stdpp Require Import base list numbers.
From S2P Require Import Prelude Codec WireModel GitObject GitLoose.

Inductive Platform := Unix | Windows.

(** [std::fs::Metadata]. *)
Record Metadata := mkMetadata {
  md_is_dir : bool;
  md_is_file : bool;
  md_reparse_point : bool;
  md_len : u64
}.

Class Fs := {
  fs_platform : Platform;
  World : Type;
  File : Type;
  (** [OpenOptions] of [root_options] on a path. *)
  fs_open_root : bytes -> World -> res File IoError.t * World;
  (** [fs_at::OpenOptions::default().read(true).follow(false)], then
      [open_dir_at] and [open_at]. *)
  fs_open_dir_at : File -> bytes -> World -> res File IoError.t * World;
  fs_open_at : File -> bytes -> World -> res File IoError.t * World;
  fs_metadata : File -> World -> res Metadata IoError.t * World;
  (** [fs_at::read_dir]: each entry's raw name, or the error of that entry. *)
  fs_read_dir : File -> World -> res (list (res bytes IoError.t)) IoError.t * World;
  (** One positioned read into a buffer of the given length: the bytes read. *)
  fs_read_at : File -> usize -> u64 -> World -> res bytes IoError.t * World;
  (** [file.take(limit).read_to_end]. *)
  fs_read_to_end : File -> u64 -> World -> res bytes IoError.t * World;
  (** How often a read of this world will still be interrupted; it bounds the
      retries of [read_full]. *)
  fs_interrupts : World -> nat
}.

(** What the program relies on: a read is no longer than its buffer, a bounded
    read no longer than its bound, and interruptions end. *)
Class FsLaws {F : Fs} : Prop := {
  fs_read_at_len f n off w b w' : 0 <= n -> fs_read_at f n off w = (Ok b, w') -> len b <= n;
  fs_read_at_fuel f n off w : (fs_read_at f n off w).1 <> OutOfFuel;
  fs_read_at_interrupted f n off w w' :
    fs_read_at f n off w = (Err IoError.Interrupted, w') -> (fs_interrupts w' < fs_interrupts w)%nat;
  fs_read_at_steady f n off w b w' :
    fs_read_at f n off w = (Ok b, w') -> (fs_interrupts w' <= fs_interrupts w)%nat;
  fs_read_to_end_len f n w b w' : 0 <= n -> fs_read_to_end f n w = (Ok b, w') -> len b <= n;
  fs_no_fuel :
    (forall p w, (fs_open_root p w).1 <> OutOfFuel) /\
    (forall f n w, (fs_open_dir_at f n w).1 <> OutOfFuel) /\
    (forall f n w, (fs_open_at f n w).1 <> OutOfFuel) /\
    (forall f w, (fs_metadata f w).1 <> OutOfFuel) /\
    (forall f w, (fs_read_dir f w).1 <> OutOfFuel /\
       forall l, (fs_read_dir f w).1 = Ok l -> Forall (fun e => e <> OutOfFuel) l) /\
    (forall f n w, (fs_read_to_end f n w).1 <> OutOfFuel);
  fs_metadata_len f w m w' : fs_metadata f w = (Ok m, w') -> 0 <= md_len m <= u64_max
}.
Arguments FsLaws F : clear implicits.

(** [RepositoryOpenError]. *)
Inductive RepositoryOpenErrorT := RepositoryOpenError.

Section Handle.
Context `{Fs}.

Abbreviation io A := (sres World A IoError.t).

(** [ordinary]: a no-follow open already refused a symlink on Unix. *)
Definition ordinary (m : Metadata) : bool :=
  match fs_platform with Unix => true | Windows => negb (md_reparse_point m) end.

Definition open_root (root : bytes) : sres World File RepositoryOpenErrorT :=
  fun w =>
    match fs_open_root root w with
    | (Err _, w) => (Err RepositoryOpenError, w)
    | (OutOfFuel, w) => (OutOfFuel, w)
    | (Ok file, w) =>
        match fs_metadata file w with
        | (Err _, w) => (Err RepositoryOpenError, w)
        | (OutOfFuel, w) => (OutOfFuel, w)
        | (Ok m, w) =>
            if negb (md_is_dir m) || negb (ordinary m) then (Err RepositoryOpenError, w)
            else (Ok file, w)
        end
    end.

Definition open_dir (parent : File) (name : bytes) : io File :=
  let! file := fs_open_dir_at parent name in
  let! m := fs_metadata file in
  if negb (md_is_dir m) || negb (ordinary m) then sfail IoError.InvalidInput else sret file.

Definition open_file (parent : File) (name : bytes) : io File :=
  let! file := fs_open_at parent name in
  let! m := fs_metadata file in
  if negb (md_is_file m) || negb (ordinary m) then sfail IoError.InvalidInput else sret file.

(** The loop of [names]. *)
Fixpoint collect_names (entries : list (res bytes IoError.t)) (out : list bytes)
    : res (list bytes) IoError.t :=
  match entries with
  | [] => Ok out
  | entry :: entries =>
      let? name := entry in
      match from_utf8 name with
      | None => collect_names entries out
      | Some name =>
          if negb (bytes_eqb name (b_ ".")) && negb (bytes_eqb name (b_ ".."))
          then collect_names entries (out ++ [name])
          else collect_names entries out
      end
  end.

Definition names (dir : File) : io (list bytes) :=
  let! entries := fs_read_dir dir in
  slift (collect_names entries []).

(** The [while] loop of [read_full] over a positioned read; [Interrupted] goes
    round without progress. *)
Fixpoint full_loop (fuel : nat) (file : File) (buf : bytes) (offset : u64) (written : usize)
    : io bytes :=
  match fuel with
  | O => slift OutOfFuel
  | S fuel => fun w =>
      if written <? len buf then
        match checked_add offset written with
        | None => (Err IoError.InvalidInput, w)
        | Some at_ =>
            match slice_from buf written with
            | None => (Err IoError.InvalidInput, w)
            | Some slice =>
                match fs_read_at file (len slice) at_ w with
                | (Ok [], w) => (Err IoError.UnexpectedEof, w)
                | (Ok chunk, w) =>
                    full_loop fuel file (take (Z.to_nat written) buf ++ write_front slice chunk)
                      offset (sat_add written (len chunk)) w
                | (Err IoError.Interrupted, w) => full_loop fuel file buf offset written w
                | (Err e, w) => (Err e, w)
                | (OutOfFuel, w) => (OutOfFuel, w)
                end
            end
        end
      else (Ok buf, w)
  end.

Definition read_full (file : File) (buf : bytes) (offset : u64) : io bytes :=
  fun w => full_loop (S (length buf + fs_interrupts w)) file buf offset 0 w.

(** [read_exact_at]: the filled buffer. *)
Definition read_exact_at (file : File) (buf : bytes) (offset : u64) : io bytes :=
  read_full file buf offset.
End Handle.

(** ** Lemmas *)

Section HandleLemmas.
Context `{FF : Fs} {FL : FsLaws FF}.

(** Positioned reads that make up a filled range. *)
Inductive read_chunks (file : File) : u64 -> bytes -> Prop :=
  | chunks_nil off : read_chunks file off []
  | chunks_more off n w chunk w' l :
      fs_read_at file n off w = (Ok chunk, w') -> chunk <> [] ->
      read_chunks file (off + len chunk) l -> read_chunks file off (chunk ++ l).

Lemma full_loop_spec fuel file buf offset written w :
  0 <= written <= len buf -> rust_slice buf -> 0 <= offset ->
  len buf - written + Z.of_nat (fs_interrupts w) < Z.of_nat fuel ->
  match full_loop fuel file buf offset written w with
  | (Ok out, _) =>
      len out = len buf /\
      exists l, out = take (Z.to_nat written) buf ++ l /\ read_chunks file (offset + written) l
  | (Err _, _) => True
  | (OutOfFuel, _) => False
  end.
Proof.
  revert buf written w. induction fuel as [|fuel IH]; intros buf written w Hw Hr Ho Hf; [lia|].
  cbn [full_loop]. destruct (Z.ltb_spec written (len buf)) as [Hlt|Hge].
  2: { split; [done|]. exists []. split; [|constructor]. rewrite app_nil_r.
       unfold len in *. by rewrite take_ge by lia. }
  destruct (checked_add offset written) as [a|] eqn:Ea; [|done].
  apply checked_add_Some in Ea as [-> _].
  destruct (slice_from buf written) as [s|] eqn:Es; [|done].
  apply slice_from_spec in Es as (p & -> & Hp). rewrite len_app in *.
  destruct (fs_read_at file (len s) (offset + written) w) as [[chunk|e|] w'] eqn:Er.
  - pose proof (fs_read_at_len _ _ _ _ _ _ (len_nonneg s) Er) as Hcl. pose proof (fs_read_at_steady _ _ _ _ _ _ Er) as Hst.
    destruct chunk as [|c ch]; [done|]. set (chunk := c :: ch) in *.
    assert (0 < len chunk) as Hpos by (unfold chunk; rewrite len_cons; pose proof (len_nonneg ch); lia).
    unfold rust_slice in Hr. rewrite len_app in Hr.
    assert (Z.to_nat written = length p) as Hn by (unfold len in Hp; lia).
    rewrite Hn, take_app_length. rewrite sat_add_small by (unfold_widths; lia).
    assert (len (p ++ write_front s chunk) = len p + len s) as Hlen by (by rewrite len_app, write_front_len).
    specialize (IH (p ++ write_front s chunk) (written + len chunk) w').
    unfold rust_slice in IH. rewrite Hlen in IH.
    specialize (IH ltac:(lia) ltac:(lia) Ho ltac:(lia)).
    destruct (full_loop fuel _ _ _ _ _) as [[out|e|] w'']; [|done|done].
    destruct IH as (Hol & l & -> & Hch). split; [done|]. exists (chunk ++ l). split.
    + rewrite app_assoc. f_equal. unfold write_front. rewrite app_assoc.
      replace (Z.to_nat (written + len chunk)) with (length (p ++ chunk)).
      * by rewrite take_app_length.
      * rewrite length_app. unfold len in *. lia.
    + econstructor; [exact Er|done|]. by replace (offset + written + len chunk) with (offset + (written + len chunk)) by lia.
  - destruct e; try done. apply fs_read_at_interrupted in Er as Hst.
    specialize (IH (p ++ s) written w'). rewrite len_app in IH. apply IH; try done; lia.
  - pose proof (fs_read_at_fuel file (len s) (offset + written) w) as Hnf. by rewrite Er in Hnf.
Qed.

(** The reads that fill [size] bytes from [offset] on, [written] of them filled,
    and their answer: a short read is followed by one at the next position, an
    interrupted read by one at the same position; an empty read is the end of the
    file, a position past the width is invalid input, and any other error of a
    read is the answer. *)
Inductive attempts (file : File) (size : usize) (offset : u64) :
    usize -> World -> res bytes IoError.t -> World -> Prop :=
  | attempts_done w : attempts file size offset size w (Ok []) w
  | attempts_past written w :
      written < size -> u64_max < offset + written ->
      attempts file size offset written w (Err IoError.InvalidInput) w
  | attempts_chunk written w chunk w1 r w' :
      written < size -> offset + written <= u64_max ->
      fs_read_at file (size - written) (offset + written) w = (Ok chunk, w1) -> chunk <> [] ->
      attempts file size offset (written + len chunk) w1 r w' ->
      attempts file size offset written w (let? rest := r in Ok (chunk ++ rest)) w'
  | attempts_interrupted written w w1 r w' :
      written < size -> offset + written <= u64_max ->
      fs_read_at file (size - written) (offset + written) w = (Err IoError.Interrupted, w1) ->
      attempts file size offset written w1 r w' -> attempts file size offset written w r w'
  | attempts_eof written w w' :
      written < size -> offset + written <= u64_max ->
      fs_read_at file (size - written) (offset + written) w = (Ok [], w') ->
      attempts file size offset written w (Err IoError.UnexpectedEof) w'
  | attempts_failed written w e w' :
      written < size -> offset + written <= u64_max ->
      fs_read_at file (size - written) (offset + written) w = (Err e, w') -> e <> IoError.Interrupted ->
      attempts file size offset written w (Err e) w'.

(** The loop makes these reads, and no others. *)
Lemma full_loop_attempts fuel file buf offset written w r w' :
  0 <= written <= len buf -> rust_slice buf -> 0 <= offset ->
  full_loop fuel file buf offset written w = (r, w') -> r <> OutOfFuel ->
  exists a, attempts file (len buf) offset written w a w' /\
    r = (let? rest := a in Ok (take (Z.to_nat written) buf ++ rest)).
Proof.
  revert buf written w. induction fuel as [|fuel IH]; intros buf written w Hw Hr Ho; [by intros [= <- _]|].
  cbn [full_loop]. destruct (Z.ltb_spec written (len buf)) as [Hlt|Hge].
  2: { intros [= <- <-] _. exists (Ok []). replace written with (len buf) by lia. split; [constructor|].
       cbn. rewrite app_nil_r. unfold len. by rewrite take_ge by lia. }
  destruct (checked_add offset written) as [a|] eqn:Ea.
  2: { intros [= <- <-] _. exists (Err IoError.InvalidInput). split; [|done]. unfold checked_add in Ea.
       destruct (Z.leb_spec (offset + written) u64_max); [done|]. by apply attempts_past. }
  apply checked_add_Some in Ea as [-> Hmax].
  destruct (slice_from buf written) as [s|] eqn:Es.
  2: { assert (slice_from buf written = Some (drop (Z.to_nat written) buf)); [|congruence]. apply slice_from_spec.
       exists (take (Z.to_nat written) buf). rewrite take_drop. split; [done|]. unfold len in *. rewrite length_take. lia. }
  apply slice_from_spec in Es as (p & -> & Hp). rewrite len_app in *.
  destruct (fs_read_at file (len s) (offset + written) w) as [[chunk|e|] w1] eqn:Er;
    replace (len s) with (len p + len s - written) in Er by lia.
  - pose proof (fs_read_at_len _ (len p + len s - written) _ _ _ _ ltac:(lia) Er) as Hcl.
    destruct chunk as [|c ch]; [intros [= <- <-] _; exists (Err IoError.UnexpectedEof); split; [by apply attempts_eof|done]|].
    set (chunk := c :: ch) in *.
    assert (0 < len chunk) as Hpos by (unfold chunk; rewrite len_cons; pose proof (len_nonneg ch); lia).
    unfold rust_slice in Hr. rewrite len_app in Hr.
    assert (Z.to_nat written = length p) as Hn by (unfold len in Hp; lia).
    rewrite Hn, take_app_length. rewrite sat_add_small by (unfold_widths; lia). intros Hloop Hfuel.
    assert (len (p ++ write_front s chunk) = len p + len s) as Hlen by (by rewrite len_app, write_front_len by lia).
    apply IH in Hloop as (a & Ha & ->); [|rewrite Hlen; lia|unfold rust_slice; rewrite Hlen; lia|done|done].
    rewrite Hlen in Ha. exists (let? rest := a in Ok (chunk ++ rest)). split; [by eapply attempts_chunk|].
    replace (take (Z.to_nat (written + len chunk)) (p ++ write_front s chunk)) with (p ++ chunk).
    + destruct a; cbn; [by rewrite <- app_assoc|done..].
    + unfold write_front. rewrite app_assoc.
      replace (Z.to_nat (written + len chunk)) with (length (p ++ chunk)); [by rewrite take_app_length|].
      rewrite length_app. unfold len in *. lia.
  - destruct (decide (e = IoError.Interrupted)) as [->|Hne].
    + intros Hloop Hfuel. apply IH in Hloop as (a & Ha & ->); [|rewrite len_app; lia|done..].
      rewrite len_app in Ha. exists a. split; [by eapply attempts_interrupted|done].
    + intros Hret _. exists (Err e). assert (r = Err e /\ w' = w1) as [-> ->] by (destruct e; by simplify_eq).
      split; [by apply attempts_failed|done].
  - intros [= <- _]. done.
Qed.
End HandleLemmas.

(** ** Properties *)

(** C39: a positioned read makes exactly these reads: a short read is followed by
    one for the rest of the buffer at the next position, an interrupted read by the
    same read again, and nothing else is tried again; it answers [UnexpectedEof]
    only after an empty read, [InvalidInput] of its own only for a position past
    the width, and otherwise the error of the read that failed. When it succeeds,
    the bytes are those of consecutive reads from the offset, as many as the
    buffer holds. It ends, given that the system interrupts a read only finitely
    often ([fs_interrupts] of [FsLaws]). *)
Theorem read_exact_at_spec (FF : Fs) (FL : FsLaws FF) file buf offset w r w' :
  rust_slice buf -> 0 <= offset -> read_exact_at file buf offset w = (r, w') ->
  r <> OutOfFuel /\ attempts file (len buf) offset 0 w r w' /\
  (forall out, r = Ok out -> len out = len buf /\ read_chunks file offset out).
Proof.
  intros Hr Ho He. unfold read_exact_at, read_full in He. pose proof (len_nonneg buf).
  pose proof (full_loop_spec (S (length buf + fs_interrupts w)) file buf offset 0 w ltac:(lia) Hr Ho
    ltac:(unfold len; lia)) as Hl. rewrite He in Hl.
  assert (r <> OutOfFuel) as Hf by (by intros ->). split; [done|]. split.
  - destruct (full_loop_attempts _ _ buf _ 0 _ _ _ ltac:(lia) Hr Ho He Hf) as (a & Ha & ->).
    by destruct a.
  - intros out ->. destruct Hl as (Hlen & l & -> & Hch). change (Z.to_nat 0) with 0%nat in *. cbn [take app] in *.
    by rewrite Z.add_0_r in Hch.
Qed.

(** A world whose every file holds the same bytes and whose reads give at most
    three of them, interrupted once for each unit of the counter. *)
Definition memory_fs (content : bytes) : Fs := {|
  fs_platform := Unix;
  World := nat;
  File := unit;
  fs_open_root _ w := (Ok tt, w);
  fs_open_dir_at _ _ w := (Err IoError.NotFound, w);
  fs_open_at _ _ w := (Ok tt, w);
  fs_metadata _ w := (Ok (mkMetadata false true false (len content mod 2 ^ 64)), w);
  fs_read_dir _ w := (Ok [], w);
  fs_read_at _ n off w :=
    match w with
    | S w => (Err IoError.Interrupted, w)
    | O => (Ok (take (Z.to_nat (Z.min n 3)) (drop (Z.to_nat off) content)), O)
    end;
  fs_read_to_end _ n w := (Ok (take (Z.to_nat (Z.min n (len content))) content), w);
  fs_interrupts w := w
|}.

Lemma memory_fs_laws content : FsLaws (memory_fs content).
Proof.
  split; cbn [fs_read_at fs_read_to_end fs_metadata fs_interrupts fs_open_root fs_open_dir_at fs_open_at
              fs_read_dir memory_fs World File].
  - intros f n off [|w] b w' Hn H; [|done]. injection H as <- <-. unfold len. rewrite length_take. lia.
  - by intros f n off [|w].
  - intros f n off [|w] w' H; [done|]. injection H as <-. lia.
  - intros f n off [|w] b w' H; [|done]. by injection H as _ <-.
  - intros f n w b w' Hn H. injection H as <- <-. unfold len. rewrite length_take. lia.
  - split_and!; try done. intros f w. split; [done|]. intros l [= <-]. constructor.
  - intros f w m w' H. injection H as <- _. cbn [md_len].
    pose proof (Z.mod_pos_bound (len content) (2 ^ 64) ltac:(lia)). unfold_widths. lia.
Qed.

Lemma read_exact_at_spec_witness :
  FsLaws (memory_fs (b_ "0123456789")) /\
  attempts (FF := memory_fs (b_ "0123456789")) tt 7 2 0 1%nat (Ok (b_ "2345678")) 0%nat /\
  attempts (FF := memory_fs (b_ "0123456789")) tt 7 8 0 1%nat (Err IoError.UnexpectedEof) 0%nat.
Proof.
  assert (read_exact_at (H := memory_fs (b_ "0123456789")) tt (repeat x00 7) 2 1%nat
    = (Ok (b_ "2345678"), 0%nat)) as He by (vm_compute; reflexivity).
  assert (read_exact_at (H := memory_fs (b_ "0123456789")) tt (repeat x00 7) 8 1%nat
    = (Err IoError.UnexpectedEof, 0%nat)) as He' by (vm_compute; reflexivity).
  split; [apply memory_fs_laws|]. split.
  - exact (proj1 (proj2 (read_exact_at_spec (memory_fs (b_ "0123456789")) (memory_fs_laws _) tt (repeat x00 7) 2 1%nat
      _ _ ltac:(vm_compute; discriminate) ltac:(lia) He))).
  - exact (proj1 (proj2 (read_exact_at_spec (memory_fs (b_ "0123456789")) (memory_fs_laws _) tt (repeat x00 7) 8 1%nat
      _ _ ltac:(vm_compute; discriminate) ltac:(lia) He'))).
Defined.

(** an entry is used only when the opened handle itself is of the kind asked
    for and, on Windows, is not a reparse point: [open_dir] gives directories,
    [open_file] regular files, and neither consults a path again. *)
Theorem open_ordinary (FF : Fs) parent name w f w' :
  (open_dir parent name w = (Ok f, w') ->
   exists w1 m, fs_open_dir_at parent name w = (Ok f, w1) /\ fs_metadata f w1 = (Ok m, w') /\
     md_is_dir m = true /\ (fs_platform = Windows -> md_reparse_point m = false)) /\
  (open_file parent name w = (Ok f, w') ->
   exists w1 m, fs_open_at parent name w = (Ok f, w1) /\ fs_metadata f w1 = (Ok m, w') /\
     md_is_file m = true /\ (fs_platform = Windows -> md_reparse_point m = false)).
Proof.
  unfold open_dir, open_file, ordinary. split; intros Ho;
    apply sbind_Ok in Ho as (g & w1 & Hg & Ho); apply sbind_Ok in Ho as (m & w2 & Hm & Ho);
    (destruct (negb _ || negb _) eqn:E; [done|]); apply orb_false_elim in E as [E1 E2];
    apply negb_false_iff in E1, E2; injection Ho as <- <-; exists w1, m; split_and!; try done;
    intros Hw; rewrite Hw in E2; by apply negb_true_iff in E2.
Qed.
