(* ===== verification/GitPack.v ===== *)
(** Packs on disk: [crates/amiss-git/src/pack.rs]. The pack directory is
    enumerated into pairs of pack and index, each loaded and cross-checked. *)
From Stdlib Require Import Strings.Byte Strings.String Lia Sorting.Sorted.
From stdpp Require Import base list numbers gmap sorting.
From S2P Require Import Prelude Codec WireModel GitObject GitResources GitLoose GitPackIndex GitHandle.
Import GitError.

(** ** The code *)

(** [classify]: the name of a pack or an index, and whether it is a pack. *)
Definition classify (name : bytes) (hex_len : usize) : option (bytes * bool) :=
  rest ← strip_prefix (b_ "pack-") name;
  '(hex_part, suffix) ←
    match strip_suffix (b_ ".pack") rest with
    | Some stem => Some (stem, true)
    | None => stem ← strip_suffix (b_ ".idx") rest; Some (stem, false)
    end;
  if negb (len hex_part =? hex_len)
     || negb (forallb (fun b => is_ascii_digit b || ((97 <=? u8 b) && (u8 b <=? 102))) hex_part)
  then None
  else text ← from_utf8 hex_part; Some (text, suffix).

(** [BTreeMap::entry(k).or_insert((false, false))] and the flag set in it. *)
Definition mark (pairs : gmap bytes (bool * bool)) (hex_part : bytes) (is_pack : bool)
    : gmap bytes (bool * bool) :=
  let slot := default (false, false) (pairs !! hex_part) in
  <[hex_part := if is_pack then (true, slot.2) else (slot.1, true)]> pairs.

Definition collect_pairs (entries : list bytes) (hex_len : usize) : gmap bytes (bool * bool) :=
  fold_left (fun pairs name =>
    match classify name hex_len with
    | Some (hex_part, is_pack) => mark pairs hex_part is_pack
    | None => pairs
    end) entries ∅.

#[export] Instance bytes_leb_decision a b : Decision (bytes_leb a b = true).
Proof. apply _. Defined.

(** [sort_unstable] on byte strings and the key order of a [BTreeMap]. *)
Definition sort_bytes (l : list bytes) : list bytes :=
  merge_sort (fun a b => bytes_leb a b = true) l.

(** [pairs.retain(|_, (pack, idx)| pack && idx)], then [keys()]. *)
Definition complete_pairs (pairs : gmap bytes (bool * bool)) : list bytes :=
  sort_bytes (map fst (List.filter (fun kv => kv.2.1 && kv.2.2) (map_to_list pairs))).

(** [sort_unstable_by_key(|row| offsets.get(row))]. Equal keys are refused by
    the loop that follows, so their order does not matter. *)
Definition sort_rows (offsets : list u64) : list usize :=
  merge_sort (fun a b => option_cmp (get offsets a) (get offsets b) <> Gt)
    (zseq 0 (length offsets)).

(** The loop over the sorted rows. *)
Fixpoint check_offsets (rows : list usize) (offsets : list u64) (data_end : u64)
    (previous_offset : option u64) : result unit :=
  match rows with
  | [] => Ok tt
  | row :: rows =>
      let? offset := ok_or (get offsets row) ObjectUnreadable in
      if (offset <? 12) || (data_end <=? offset)
         || bool_decide (previous_offset = Some offset)
      then Err ObjectUnreadable
      else check_offsets rows offsets data_end (Some offset)
  end.

Section PackFiles.
Context `{Hex, Hashes, Zlib, Fs}.

(** [PackSet]. *)
Record PackSet := mkPackSet {
  packs : list (Pack File);
  index_sizes : list (bytes * u64)
}.

(** The world and the resources an operation changes. *)
Record IoState := mkIoState { io_world : World; io_resources : GitResources }.

Abbreviation op A := (sres IoState A GitError.t).

Definition on_world {A} (e : GitError.t) (m : sres World A IoError.t) : op A :=
  fun s => match m (io_world s) with
           | (Ok a, w) => (Ok a, mkIoState w (io_resources s))
           | (Err _, w) => (Err e, mkIoState w (io_resources s))
           | (OutOfFuel, w) => (OutOfFuel, mkIoState w (io_resources s))
           end.
Definition on_resources {A} (m : sres GitResources A GitError.t) : op A :=
  fun s => let '(r, g) := m (io_resources s) in (r, mkIoState (io_world s) g).
Definition get_limits : op GitLimits := fun s => (Ok (limits (io_resources s)), s).

(** [file.take(cap + 1).read_to_end], refused past the cap. *)
Definition read_capped (file : File) (cap : u64) (resource : ResourceName) (e : GitError.t) : op bytes :=
  let! data := on_world e (fs_read_to_end file (sat_add cap 1)) in
  if len data >? cap then sfail (crossing resource cap (sat_add cap 1)) else sret data.

Definition load_pack (pack_dir : File) (f : ObjectFormat) (name_hex : bytes)
    : op (Pack File * u64) :=
  let! idx_file := on_world ObjectUnreadable
    (open_file pack_dir (b_ "pack-" ++ name_hex ++ b_ ".idx")) in
  let! idx_meta := on_world ObjectUnreadable (fs_metadata idx_file) in
  let! _ := on_resources (charge_index name_hex (md_len idx_meta)) in
  let! l := get_limits in
  let! idx_bytes := read_capped idx_file (pack_index_bytes l) GitPackIndexBytes ObjectUnreadable in
  let! parsed := slift (parse_index idx_bytes f) in
  let! file := on_world ObjectUnreadable
    (open_file pack_dir (b_ "pack-" ++ name_hex ++ b_ ".pack")) in
  let! meta := on_world ObjectUnreadable (fs_metadata file) in
  let width := oid_width f in
  let size := md_len meta in
  if size <? sat_add 12 width then sfail ObjectUnreadable
  else
    let! header := on_world ObjectUnreadable (read_exact_at file (repeat x00 12) 0) in
    let magic := take 4 header in
    let version := from_be_bytes (take 4 (drop 4 header)) in
    let count := from_be_bytes (drop 8 header) in
    if negb (bytes_eqb magic (b_ "PACK")) then sfail ObjectUnreadable
    else if negb (version =? 2) && negb (version =? 3) then sfail ObjectUnreadable
    else if negb (count =? len (pi_offsets parsed)) then sfail ObjectUnreadable
    else
      let! trailer_bytes := on_world ObjectUnreadable
        (read_exact_at file (repeat x00 (Z.to_nat width)) (sat_sub size width)) in
      if negb (bytes_eqb trailer_bytes (pi_stored_pack_checksum parsed)) then sfail ObjectUnreadable
      else if existsb is_ascii_uppercase name_hex then sfail ObjectUnreadable
      else
        let! name_raw := slift (ok_or (hex_decode name_hex) ObjectUnreadable) in
        if negb (bytes_eqb name_raw trailer_bytes) then sfail ObjectUnreadable
        else
          let data_end := sat_sub size width in
          let offset_rows := sort_rows (pi_offsets parsed) in
          let! _ := slift (check_offsets offset_rows (pi_offsets parsed) data_end None) in
          sret (mkPack File name_hex file width (pi_oids parsed) (pi_fanout_bounds parsed)
                  offset_rows (pi_offsets parsed) (pi_crcs parsed) data_end,
                md_len idx_meta).

(** The counting loop over the directory's names. *)
Fixpoint count_entries (l : list bytes) (seen limit : u64) : result unit :=
  match l with
  | [] => Ok tt
  | _ :: l =>
      let seen := sat_add seen 1 in
      if seen >? limit then Err (crossing GitPackDirectoryEntries limit seen)
      else count_entries l seen limit
  end.

(** Whether the first enumeration already holds the pack. *)
Definition is_known (known : option PackSet) (name : bytes) : bool :=
  match known with
  | None => false
  | Some set =>
      match binary_search_by (fun p => bytes_cmp (GitPackIndex.name_hex p) name) (packs set) with
      | Some _ => true | None => false
      end
  end.

(** The loading loop of [build]. *)
Fixpoint load_loop (pack_dir : File) (f : ObjectFormat) (known : option PackSet)
    (keys : list bytes) (acc : PackSet) : op PackSet :=
  match keys with
  | [] => sret acc
  | key :: keys =>
      if is_known known key then load_loop pack_dir f known keys acc
      else
        let! (pack, index_bytes) := load_pack pack_dir f key in
        load_loop pack_dir f known keys
          (mkPackSet (packs acc ++ [pack]) (index_sizes acc ++ [(key, index_bytes)]))
  end.

Definition build (objects : File) (f : ObjectFormat) (known : option PackSet) : op PackSet :=
  fun s =>
    match open_dir objects (b_ "pack") (io_world s) with
    | (Err IoError.NotFound, w) => (Ok (mkPackSet [] []), mkIoState w (io_resources s))
    | (Err _, w) => (Err ObjectUnreadable, mkIoState w (io_resources s))
    | (OutOfFuel, w) => (OutOfFuel, mkIoState w (io_resources s))
    | (Ok pack_dir, w) =>
        (let! l := get_limits in
         let! entries := on_world ObjectUnreadable (names pack_dir) in
         let! _ := slift (count_entries entries 0 (pack_directory_entries l)) in
         let hex_len := sat_mul (oid_width f) 2 in
         let keys := complete_pairs (collect_pairs (sort_bytes entries) hex_len) in
         let pair_count := len keys in
         if pair_count >? pack_files l
         then sfail (crossing GitPackFiles (pack_files l) pair_count)
         else load_loop pack_dir f known keys (mkPackSet [] []))
          (mkIoState w (io_resources s))
    end.

(** [PackSet::locate]: the first pack with a row for the object. *)
Fixpoint locate_from (l : list (Pack File)) (pack_index : usize) (oid_raw : bytes)
    : option (usize * u64) :=
  match l with
  | [] => None
  | p :: l =>
      match find p oid_raw with
      | Some row => offset ← get (offsets p) row; Some (pack_index, offset)
      | None => locate_from l (pack_index + 1) oid_raw
      end
  end.
Definition locate (set : PackSet) (oid_raw : bytes) : option (usize * u64) :=
  locate_from (packs set) 0 oid_raw.

(** [crc32fast::hash]. *)
Context (crc32 : bytes -> u32).

(** [Pack::read_interval]: the entry's bytes up to the next entry. *)
Definition read_interval (p : Pack File) (offset : u64) : op bytes :=
  let! position := slift (ok_or (offset_position p offset) ObjectUnreadable) in
  let! row := slift (ok_or (offset_rows p !! position) ObjectUnreadable) in
  let! stop := slift
    match offset_rows p !! (S position) with
    | Some next_row => ok_or (get (offsets p) next_row) ObjectUnreadable
    | None => Ok (data_end p)
    end in
  let! length := slift (ok_or (checked_sub stop offset) ObjectUnreadable) in
  let member := b_ "pack:" ++ GitPackIndex.name_hex p ++ b_ ":" ++ fmt_dec offset in
  let! _ := on_resources (charge_compressed member length) in
  let! size := slift (usize_try_from length ObjectUnreadable) in
  let! data := on_world ObjectUnreadable
    (read_exact_at (file p) (repeat x00 (Z.to_nat size)) offset) in
  match crcs p with
  | Some crcs =>
      let! expected := slift (ok_or (get crcs row) ObjectUnreadable) in
      if negb (crc32 data =? expected) then sfail ObjectUnreadable else sret data
  | None => sret data
  end.
End PackFiles.

(** ** Lemmas *)

Definition lower_hex (b : Byte.byte) : bool := is_ascii_digit b || ((97 <=? u8 b) && (u8 b <=? 102)).

Definition pack_file_name (key : bytes) : bytes := b_ "pack-" ++ key ++ b_ ".pack".
Definition idx_file_name (key : bytes) : bytes := b_ "pack-" ++ key ++ b_ ".idx".

Lemma lower_hex_utf8 k : forallb lower_hex k = true -> utf8_valid k = true.
Proof.
  intros Hk. apply ascii_utf8_valid. rewrite forallb_forall in *. intros b Hb%Hk.
  unfold lower_hex, is_ascii_digit, is_ascii in *. apply orb_true_iff in Hb as [Hb|Hb];
    bool_prop; apply Z.ltb_lt; lia.
Qed.

(** A name cannot end in both suffixes. *)
Lemma suffix_exclusive (a b : bytes) : a ++ b_ ".idx" <> b ++ b_ ".pack".
Proof.
  intros Heq. apply (f_equal (@rev _)) in Heq. rewrite !rev_app_distr in Heq. discriminate Heq.
Qed.

Lemma classify_spec name hl k is_pack :
  classify name hl = Some (k, is_pack) <->
  name = (if is_pack then pack_file_name k else idx_file_name k) /\
  len k = hl /\ forallb lower_hex k = true.
Proof.
  unfold classify, pack_file_name, idx_file_name. split.
  - intros (rest & Hr & H)%bind_Some. apply strip_prefix_Some in Hr as ->.
    apply bind_Some in H as ([hp sfx] & Hs & H).
    destruct (negb _ || negb _) eqn:E; [done|]. bool_prop.
    fold lower_hex in *. apply bind_Some in H as (t & Ht & [= <- <-]).
    unfold from_utf8 in Ht. destruct (utf8_valid hp); [|done]. injection Ht as <-.
    split; [|done]. destruct (strip_suffix (b_ ".pack") rest) as [stem|] eqn:Ep.
    + injection Hs as <- <-. by apply strip_suffix_Some in Ep as ->.
    + apply bind_Some in Hs as (stem & Hi & [= <- <-]). by apply strip_suffix_Some in Hi as ->.
  - intros (-> & Hl & Hh). apply bind_Some.
    exists (k ++ if is_pack then b_ ".pack" else b_ ".idx"). split.
    { apply strip_prefix_Some. by destruct is_pack. }
    apply bind_Some. exists (k, is_pack). split.
    + destruct is_pack.
      * by rewrite (proj2 (strip_suffix_Some (b_ ".pack") (k ++ b_ ".pack") k) eq_refl).
      * destruct (strip_suffix (b_ ".pack") (k ++ b_ ".idx")) as [stem|] eqn:Ep.
        { apply strip_suffix_Some in Ep. by apply suffix_exclusive in Ep. }
        by rewrite (proj2 (strip_suffix_Some (b_ ".idx") (k ++ b_ ".idx") k) eq_refl).
    + fold lower_hex. rewrite Hl, Z.eqb_refl, Hh. cbn [negb orb]. unfold from_utf8.
      by rewrite lower_hex_utf8.
Qed.

(** The flags of a name say which of its two files were listed. *)
Lemma collect_pairs_spec entries hl k :
  let slot := default (false, false) (collect_pairs entries hl !! k) in
  (slot.1 = true <-> exists n, n ∈ entries /\ classify n hl = Some (k, true)) /\
  (slot.2 = true <-> exists n, n ∈ entries /\ classify n hl = Some (k, false)).
Proof.
  unfold collect_pairs. cbv zeta. induction entries as [|n entries IH] using rev_ind.
  { cbn [fold_left]. rewrite lookup_empty. simpl. split; (split; [done|]); by intros (n & Hn%elem_of_nil & _). }
  rewrite fold_left_app. cbn [fold_left]. set (pairs := fold_left _ entries ∅) in *.
  assert (forall P, (exists m, m ∈ entries ++ [n] /\ P m) <-> (exists m, m ∈ entries /\ P m) \/ P n) as Hex.
  { intros P. setoid_rewrite elem_of_app. setoid_rewrite list_elem_of_singleton. naive_solver. }
  rewrite !Hex. cbv zeta in *. destruct (classify n hl) as [[k' ip]|]; [|naive_solver].
  unfold mark. destruct (decide (k' = k)) as [->|Hk].
  - rewrite lookup_insert. destruct (decide _); [|done]. cbn [from_option id].
    destruct ip; cbn [fst snd]; naive_solver.
  - rewrite lookup_insert. destruct (decide _); [done|]. naive_solver.
Qed.

Lemma elem_complete_pairs pairs k :
  k ∈ complete_pairs pairs <->
  (default (false, false) (pairs !! k)).1 = true /\ (default (false, false) (pairs !! k)).2 = true.
Proof.
  unfold complete_pairs, sort_bytes. rewrite merge_sort_Permutation. rewrite list_elem_of_In, in_map_iff.
  split.
  - intros ([k' [p i]] & <- & Hin). apply filter_In in Hin as [Hin Hb].
    apply list_elem_of_In, elem_of_map_to_list in Hin. cbn [fst snd] in *. rewrite Hin. cbn [from_option id fst snd].
    by apply andb_prop in Hb.
  - destruct (pairs !! k) as [[p i]|] eqn:E; cbn [from_option id fst snd]; [|by intros [? _]].
    intros [-> ->]. exists (k, (true, true)). split; [done|]. apply filter_In. split; [|done].
    by apply list_elem_of_In, elem_of_map_to_list.
Qed.

#[export] Instance bytes_leb_total : Total (fun a b => bytes_leb a b = true).
Proof.
  intros a b. unfold bytes_leb. rewrite (bytes_cmp_antisym a b). destruct (bytes_cmp a b); simpl; auto.
Qed.

Lemma bytes_leb_or a b : bytes_leb a b = true <-> bytes_lt a b \/ a = b.
Proof.
  unfold bytes_leb, bytes_lt. rewrite <- bytes_cmp_eq. destruct (bytes_cmp a b); naive_solver.
Qed.

#[export] Instance bytes_leb_trans : Transitive (fun a b => bytes_leb a b = true).
Proof.
  intros a b c. rewrite !bytes_leb_or. intros [H1|<-] [H2|<-]; auto. left. by trans b.
Qed.

(** Distinct names in order are strictly increasing. *)
Lemma sort_bytes_strict l : NoDup l -> StronglySorted bytes_lt (sort_bytes l).
Proof.
  intros Hn. pose proof (StronglySorted_merge_sort (fun a b => bytes_leb a b = true) l) as Hs.
  assert (NoDup (sort_bytes l)) as Hnd by (unfold sort_bytes; by rewrite merge_sort_Permutation).
  fold (sort_bytes l) in Hs. revert Hnd. induction Hs as [|x k Hs IH Hf]; intros Hnd; [constructor|].
  apply NoDup_cons in Hnd as [Hx Hnd]. constructor; [auto|].
  rewrite Forall_forall in *. intros y Hy. destruct (proj1 (bytes_leb_or x y) (Hf y Hy)) as [|<-]; done.
Qed.

Lemma complete_pairs_sorted pairs : StronglySorted bytes_lt (complete_pairs pairs).
Proof.
  apply sort_bytes_strict. pose proof (NoDup_fst_map_to_list pairs) as Hn.
  generalize dependent (map_to_list pairs). intros l Hn. induction l as [|[k v] l IH]; [constructor|].
  cbn [List.filter fmap list_fmap fst] in *. apply NoDup_cons in Hn as [Hk Hn].
  destruct (_ && _); [|auto]. cbn [map fst]. apply NoDup_cons. split; [|auto].
  intros Hin. apply Hk. rewrite list_elem_of_In, in_map_iff in Hin. destruct Hin as ([k' v'] & <- & Hin).
  apply filter_In in Hin as [Hin _]. apply list_elem_of_fmap. exists (k', v'). split; [done|].
  by apply list_elem_of_In.
Qed.

(** *** Offsets *)

#[export] Instance option_cmp_total (offs : list u64) :
  Total (fun a b => option_cmp (get offs a) (get offs b) <> Gt).
Proof.
  intros a b. destruct (get offs a) as [x|], (get offs b) as [y|]; simpl; auto.
  rewrite (Z.compare_antisym x y). destruct (x ?= y); simpl; auto.
Qed.

Lemma sort_rows_perm offs : sort_rows offs ≡ₚ zseq 0 (length offs).
Proof. apply merge_sort_Permutation. Qed.

(** Rows in key order whose consecutive offsets differ are strictly ordered. *)
Lemma check_offsets_spec rows offs de prev :
  Sorted (fun a b => option_cmp (get offs a) (get offs b) <> Gt) rows ->
  (forall o r, prev = Some o -> head rows = Some r -> exists x, get offs r = Some x /\ o <= x) ->
  check_offsets rows offs de prev = Ok tt ->
  Sorted (fun a b => exists x y, get offs a = Some x /\ get offs b = Some y /\ x < y) rows /\
  Forall (fun r => exists x, get offs r = Some x /\ 12 <= x < de) rows /\
  (forall o r, prev = Some o -> head rows = Some r -> exists x, get offs r = Some x /\ o < x).
Proof.
  revert prev. induction rows as [|r rows IH]; intros prev Hs Hp Hc; [by repeat constructor|].
  cbn [check_offsets] in Hc. destruct (get offs r) as [x|] eqn:Ex; [|done]. cbn [ok_or] in Hc.
  destruct (_ || _ || _) eqn:Eb; [done|]. apply orb_false_elim in Eb as [Eb Ed].
  apply bool_decide_eq_false in Ed. bool_prop.
  apply Sorted_inv in Hs as [Hs Hhd].
  destruct (IH (Some x)) as (Hs' & Hf & Hlt); [done| |done|].
  { intros o r' [= <-] Hr'. destruct rows as [|r2 rows]; [done|]. injection Hr' as <-.
    apply HdRel_inv in Hhd. rewrite Ex in Hhd.
    destruct (get offs r2) as [y|] eqn:Ey; [|by simpl in Hhd]. exists y. split; [done|]. simpl in Hhd.
    destruct (Z.compare_spec x y); try lia. done. }
  split; [|split; [constructor; [eauto|done]|]].
  - constructor; [done|]. destruct rows as [|r2 rows]; constructor.
    destruct (Hlt x r2 eq_refl eq_refl) as (y & Hy & Hxy). by exists x, y.
  - intros o r' -> [= <-]. destruct (Hp o r eq_refl eq_refl) as (x' & Hx' & Hle).
    rewrite Ex in Hx'. injection Hx' as <-. exists x. split; [done|].
    assert (o <> x) by congruence. lia.
Qed.

(** *** The invariant of a reading session *)

(** Limits within the machine's range, as every configuration the contract
    admits. *)
Record limits_ok (l : GitLimits) : Prop := {
  lo_inflated : 0 <= inflated_object_bytes l < MAX_SAFE;
  lo_stream : 0 <= compressed_stream_bytes l < isize_max;
  lo_index : 0 <= pack_index_bytes l < isize_max;
  lo_compressed : 0 <= aggregate_compressed_bytes l < u64_max;
  lo_indexes : 0 <= aggregate_pack_index_bytes l < u64_max;
  lo_depth : 0 <= delta_depth l < u64_max;
  lo_index_file : 0 <= index_bytes l < isize_max
}.

Lemma contract_limits_ok : limits_ok CONTRACT.
Proof. split; (split; [discriminate|reflexivity]). Qed.

Section PackLemmas.
Context `{HX : Hex, HH : Hashes, ZZ : Zlib, FF : Fs} {FL : FsLaws FF}.
Context (L : GitLimits) (HLo : limits_ok L).

(** The limits never change and both meters are exact ledgers within their
    limits. *)
Definition resources_inv (r : GitResources) : Prop :=
  limits r = L /\
  (exists ledger, meter_refines (aggregate_compressed_bytes L) (compressed r) ledger) /\
  (exists ledger, meter_refines (aggregate_pack_index_bytes L) (pack_indexes r) ledger).

Definition io_inv (s : IoState) : Prop := resources_inv (io_resources s).

Lemma new_resources_inv : resources_inv (new_resources L).
Proof.
  destruct HLo. split; [done|]. split; exists ∅; (split; [done|done|simpl; lia]).
Qed.

Lemma triple_world {A} (Q : A -> Prop) e (m : sres World A IoError.t) :
  (forall w, (m w).1 <> OutOfFuel) -> (forall w a w', m w = (Ok a, w') -> Q a) ->
  triple io_inv Q (on_world e m).
Proof.
  intros Hf Hq s Hs. unfold on_world. specialize (Hf (io_world s)). specialize (Hq (io_world s)).
  destruct (m (io_world s)) as [[a|e'|] w]; simpl in *; eauto.
Qed.

Lemma charge_keeps (m : ByteMeter) member n mr ml ar al :
  0 <= n -> 0 <= al < u64_max -> (exists ledger, meter_refines al m ledger) ->
  (exists ledger, meter_refines al (charge member n mr ml ar al m).2 ledger) /\
  (charge member n mr ml ar al m).1 <> OutOfFuel /\
  ((charge member n mr ml ar al m).1 = Ok tt -> n <= ml).
Proof.
  intros Hn Hal [ledger Hr]. pose proof (charge_refines member n mr ml ar al m ledger Hn ltac:(lia) Hr) as Hc.
  destruct (charge _ _ _ _ _ _ _) as [[[]|e|] m']; simpl; [|naive_solver|done].
  destruct Hc as [Hle Hc]. split_and!; [eauto|done|done].
Qed.

Lemma triple_charge_index name n :
  0 <= n -> triple io_inv (fun _ => n <= pack_index_bytes L) (on_resources (charge_index name n)).
Proof.
  intros Hn s (Hl & Hc & Hi). unfold on_resources, charge_index. rewrite Hl.
  destruct (charge_keeps (pack_indexes (io_resources s)) name n GitPackIndexBytes (pack_index_bytes L)
    AggregateGitPackIndexBytes (aggregate_pack_index_bytes L) Hn (lo_indexes _ HLo) Hi) as (H1 & H2 & H3).
  destruct (charge _ _ _ _ _ _ _) as [[[]|e|] m]; simpl in *; (split; [by split|eauto]).
Qed.

Lemma triple_charge_compressed member n :
  0 <= n ->
  triple io_inv (fun _ => n <= compressed_stream_bytes L) (on_resources (charge_compressed member n)).
Proof.
  intros Hn s (Hl & Hc & Hi). unfold on_resources, charge_compressed. rewrite Hl.
  destruct (charge_keeps (compressed (io_resources s)) member n GitCompressedObjectBytes
    (compressed_stream_bytes L) AggregateGitCompressedObjectBytesPerEvaluation
    (aggregate_compressed_bytes L) Hn (lo_compressed _ HLo) Hc) as (H1 & H2 & H3).
  destruct (charge _ _ _ _ _ _ _) as [[[]|e|] m]; simpl in *; (split; [by split|eauto]).
Qed.

Lemma triple_limits : triple io_inv (fun l => l = L) get_limits.
Proof. intros s Hs. split; [done|]. apply Hs. Qed.

Lemma triple_read_capped file cap resource e :
  0 <= cap < isize_max -> triple io_inv (fun d => len d <= cap) (read_capped file cap resource e).
Proof.
  intros Hc. eapply triple_bind; [apply (triple_world (fun _ => True)); [|done]|].
  - intros w. apply (fs_no_fuel (F := FF)).
  - intros d _. rewrite Z.gtb_ltb. destruct (Z.ltb_spec cap (len d)); [apply triple_fail|].
    by apply triple_ret.
Qed.

Lemma open_file_fuel parent name w : (open_file parent name w).1 <> OutOfFuel.
Proof.
  destruct fs_no_fuel as (_ & _ & H1 & H2 & _). unfold open_file.
  apply sbind_fuel; [apply H1|]. intros f w1 _. apply sbind_fuel; [apply H2|]. intros m w2 _.
  by destruct (_ || _).
Qed.

Lemma open_dir_fuel parent name w : (open_dir parent name w).1 <> OutOfFuel.
Proof.
  destruct fs_no_fuel as (_ & H1 & _ & H2 & _). unfold open_dir.
  apply sbind_fuel; [apply H1|]. intros f w1 _. apply sbind_fuel; [apply H2|]. intros m w2 _.
  by destruct (_ || _).
Qed.

Lemma names_fuel dir w : (names dir w).1 <> OutOfFuel.
Proof.
  destruct fs_no_fuel as (_ & _ & _ & _ & H1 & _). unfold names. apply sbind_fuel; [apply H1|].
  intros l w1 Hl. apply slift_fuel. destruct (H1 dir w) as [_ H2]. specialize (H2 l).
  rewrite Hl in H2. specialize (H2 eq_refl). clear -H2. generalize (@nil bytes) as out.
  induction H2 as [|e l He Hf IH]; intros out; cbn [collect_names]; [done|].
  destruct e as [n| |]; [|done|done]. destruct (from_utf8 n); [|apply IH]. destruct (_ && _); apply IH.
Qed.

Lemma triple_read_exact_at file n offset :
  0 <= offset -> 0 <= n <= isize_max ->
  triple io_inv (fun d => len d = n)
    (on_world ObjectUnreadable (read_exact_at file (repeat x00 (Z.to_nat n)) offset)).
Proof.
  intros Ho Hn. assert (len (repeat x00 (Z.to_nat n)) = n) as Hlen by (unfold len; rewrite repeat_length; lia).
  assert (forall w, match read_exact_at file (repeat x00 (Z.to_nat n)) offset w with
    | (Ok out, _) => len out = n | (Err _, _) => True | (OutOfFuel, _) => False end) as Hs.
  { intros w. pose proof (full_loop_spec (S (length (repeat x00 (Z.to_nat n)) + fs_interrupts w)) file
      (repeat x00 (Z.to_nat n)) offset 0 w) as Hl. unfold rust_slice in Hl. rewrite Hlen in Hl.
    specialize (Hl ltac:(lia) ltac:(lia) Ho ltac:(unfold len in Hlen; lia)).
    unfold read_exact_at, read_full. destruct (full_loop _ _ _ _ _ _) as [[out|e|] w']; [|done|done].
    by destruct Hl as [? _]. }
  apply triple_world.
  - intros w. specialize (Hs w). by destruct (read_exact_at _ _ _ w) as [[]].
  - intros w a w' Hw. specialize (Hs w). by rewrite Hw in Hs.
Qed.
End PackLemmas.

(** What loading checks of a pack. *)
Record pack_wf {F : Type} (f : ObjectFormat) (p : Pack F) (rows : list bytes) : Prop := {
  pw_width : width p = oid_width f;
  pw_index : index_wf (width p) (oids p) (fanout_bounds p) rows;
  pw_count : length (offsets p) = length rows;
  pw_crcs : forall c, crcs p = Some c -> length c = length rows;
  pw_offsets : offsets_wf p;
  pw_range : Forall (fun o => 12 <= o < data_end p) (offsets p)
}.

Section LoadLemmas.
Context `{HX : Hex, HH : Hashes, ZZ : Zlib, FF : Fs} {FL : FsLaws FF}.
Context (L : GitLimits) (HLo : limits_ok L) (f : ObjectFormat).

Abbreviation inv := (io_inv L).

Lemma check_offsets_fuel rows offs de prev : check_offsets rows offs de prev <> OutOfFuel.
Proof.
  revert prev. induction rows as [|r rows IH]; intros prev; cbn [check_offsets]; [done|].
  destruct (get offs r); [|done]. cbn [ok_or]. destruct (_ || _); [done|]. apply IH.
Qed.

(** The offset table of a loaded pack. *)
Lemma checked_offsets_wf name file w oids fb offs crcs de :
  check_offsets (sort_rows offs) offs de None = Ok tt ->
  offsets_wf (mkPack File name file w oids fb (sort_rows offs) offs crcs de) /\
  Forall (fun o => 12 <= o < de) offs.
Proof.
  intros Hc. apply check_offsets_spec in Hc as (Hs & Hf & _);
    [|apply Sorted_merge_sort; apply _|done].
  split.
  - split; cbn [offset_rows offsets]; [apply sort_rows_perm|].
    apply Sorted_StronglySorted; [|done].
    intros a b c (x & y & ? & ? & ?) (y' & z & ? & ? & ?). exists x, z. simplify_eq. split_and!; [done..|lia].
  - apply Forall_lookup. intros i o Ho. rewrite Forall_forall in Hf.
    assert (get offs (Z.of_nat i) = Some o) as Hg.
    { unfold get. destruct (Z.leb_spec 0 (Z.of_nat i)); [by rewrite Nat2Z.id|lia]. }
    destruct (Hf (Z.of_nat i)) as (x & Hx & Hr); [|congruence].
    rewrite sort_rows_perm. apply list_elem_of_lookup. exists i. rewrite zseq_lookup.
    apply lookup_lt_Some in Ho. destruct (decide _); [f_equal; lia|lia].
Qed.

Lemma triple_load_pack pack_dir name :
  triple inv (fun out => (exists rows, pack_wf f out.1 rows) /\
                         GitPackIndex.name_hex out.1 = name /\ 0 <= out.2 <= pack_index_bytes L)
    (load_pack pack_dir f name).
Proof.
  unfold load_pack.
  eapply triple_bind; [apply (triple_world L (fun _ => True)); [apply open_file_fuel|done]|]. intros idx_file _.
  eapply triple_bind; [apply (triple_world L (fun m => 0 <= md_len m <= u64_max));
    [apply (fs_no_fuel (F := FF))|apply fs_metadata_len]|]. intros idx_meta Hm. cbv beta in Hm.
  eapply triple_bind; [apply (triple_charge_index L HLo); lia|]. intros u Hle. cbv beta in Hle.
  eapply triple_bind; [apply triple_limits|]. intros l ->.
  eapply triple_bind; [apply triple_read_capped, HLo|]. intros idx_bytes Hidx. cbv beta in Hidx.
  eapply triple_bind; [apply (triple_lift _ (parsed_ok (oid_width f))); [apply parse_index_fuel|]|].
  { intros p Hp. apply parse_index_ok in Hp as [? _]; [done|].
    unfold rust_slice. destruct HLo. lia. }
  intros parsed (rows & Hwf & Hoff & Hcrc). cbv beta in *.
  eapply triple_bind; [apply (triple_world L (fun _ => True)); [apply open_file_fuel|done]|]. intros file _.
  eapply triple_bind; [apply (triple_world L (fun m => 0 <= md_len m <= u64_max));
    [apply (fs_no_fuel (F := FF))|apply fs_metadata_len]|]. intros meta Hmeta. cbv beta in Hmeta.
  destruct (oid_width_cases f) as [Hw|Hw].
  all: rewrite (sat_add_small 12) by (rewrite Hw; unfold_widths; lia);
    destruct (Z.ltb_spec (md_len meta) (12 + oid_width f)); [apply triple_fail|];
    rewrite sat_sub_small by lia;
    change (repeat x00 12) with (repeat x00 (Z.to_nat 12));
    (eapply triple_bind; [apply triple_read_exact_at; unfold_widths; lia|]); intros header _;
    destruct (negb (bytes_eqb _ _)); [apply triple_fail|];
    destruct (negb (_ =? 2) && _); [apply triple_fail|];
    destruct (negb (_ =? len (pi_offsets parsed))); [apply triple_fail|];
    (eapply triple_bind; [apply triple_read_exact_at; rewrite Hw; unfold_widths; lia|]); intros trailer _;
    destruct (negb (bytes_eqb trailer _)); [apply triple_fail|];
    destruct (existsb _ name); [apply triple_fail|];
    (eapply triple_bind; [apply (triple_ok_or _ (fun _ => True)); done|]); intros name_raw _;
    destruct (negb (bytes_eqb name_raw _)); [apply triple_fail|];
    (eapply triple_bind; [apply (triple_lift _ (fun _ => check_offsets (sort_rows (pi_offsets parsed))
      (pi_offsets parsed) (md_len meta - oid_width f) None = Ok tt)); [apply check_offsets_fuel|by intros []]|]);
    intros u2 Hck; cbv beta in Hck; apply triple_ret; cbn [fst snd GitPackIndex.name_hex];
    (split; [|split; [done|lia]]); exists rows;
    destruct (checked_offsets_wf name file (oid_width f) (pi_oids parsed) (pi_fanout_bounds parsed)
      (pi_offsets parsed) (pi_crcs parsed) (md_len meta - oid_width f) Hck) as [How Hrange]; by split.
Qed.
End LoadLemmas.

(** An enumeration: well-formed packs in strict name order, each with the size
    its index was charged. *)
Record set_wf `{Fs} (f : ObjectFormat) (cap : Z) (set : PackSet) : Prop := {
  sw_packs : Forall (fun p => exists rows, pack_wf f p rows) (packs set);
  sw_sorted : StronglySorted bytes_lt (map GitPackIndex.name_hex (packs set));
  sw_sizes : map fst (index_sizes set) = map GitPackIndex.name_hex (packs set);
  sw_bounds : Forall (fun kv => 0 <= kv.2 <= cap) (index_sizes set)
}.

Section BuildLemmas.
Context `{HX : Hex, HH : Hashes, ZZ : Zlib, FF : Fs} {FL : FsLaws FF}.
Context (L : GitLimits) (HLo : limits_ok L) (f : ObjectFormat).
Abbreviation inv := (io_inv L).

Definition fresh_set (known : option PackSet) (set : PackSet) : Prop :=
  set_wf f (pack_index_bytes L) set /\
  Forall (fun p => is_known known (GitPackIndex.name_hex p) = false) (packs set).

Lemma set_wf_empty : set_wf f (pack_index_bytes L) (mkPackSet [] []).
Proof. split; constructor. Qed.

Lemma triple_load_loop pack_dir known keys acc :
  fresh_set known acc ->
  StronglySorted bytes_lt (map GitPackIndex.name_hex (packs acc) ++ keys) ->
  triple inv (fun set => fresh_set known set /\
      Forall (fun k => k ∈ map GitPackIndex.name_hex (packs acc) ++ keys)
        (map GitPackIndex.name_hex (packs set)))
    (load_loop pack_dir f known keys acc).
Proof.
  revert acc. induction keys as [|key keys IH]; intros acc Hacc Hs; cbn [load_loop].
  { apply triple_ret. split; [done|]. rewrite app_nil_r. apply Forall_forall. auto. }
  destruct (is_known known key) eqn:Ek.
  - eapply triple_conseq; [apply (IH acc Hacc)|].
    + apply StronglySorted_app in Hs as (H1 & H2 & H3). apply StronglySorted_inv in H3 as [H3 _].
      apply StronglySorted_app. split_and!; [|done|done]. intros x y Hx Hy. apply H1; [done|by right].
    + intros set [Hset Hin]. split; [done|]. eapply Forall_impl; [exact Hin|]. intros x.
      rewrite !elem_of_app, elem_of_cons. naive_solver.
  - eapply triple_bind; [apply (triple_load_pack L HLo)|]. intros [p n] (Hwf & Hname & Hn).
    cbn [fst snd] in *. destruct Hacc as [[Hp Hso Hsz Hb] Hk].
    eapply triple_conseq; [apply IH|].
    + split.
      * split; cbn [packs index_sizes].
        -- apply Forall_app. split; [done|]. constructor; [done|constructor].
        -- rewrite map_app. cbn [map]. rewrite Hname.
           apply StronglySorted_app in Hs as (H1 & _ & _). apply StronglySorted_snoc; [done|].
           apply Forall_forall. intros x Hx. apply H1; [done|by left].
        -- rewrite !map_app. cbn [map fst]. by rewrite Hsz, Hname.
        -- apply Forall_app. split; [done|]. constructor; [done|constructor].
      * cbn [packs]. apply Forall_app. split; [done|]. constructor; [by rewrite Hname|constructor].
    + cbn [packs]. rewrite map_app. cbn [map]. rewrite Hname, <- app_assoc. done.
    + intros set [Hset Hin]. split; [done|]. cbn [packs] in Hin. rewrite map_app in Hin. cbn [map] in Hin.
      rewrite Hname, <- app_assoc in Hin. done.
Qed.

Lemma count_entries_fuel l seen limit : count_entries l seen limit <> OutOfFuel.
Proof.
  revert seen. induction l as [|x l IH]; intros seen; cbn [count_entries]; [done|].
  destruct (_ >? limit); [done|]. apply IH.
Qed.

(** Building keeps the accounts and gives a fresh enumeration. *)
Lemma triple_build objects known : triple inv (fresh_set known) (build objects f known).
Proof.
  intros s Hs. unfold build.
  assert (fresh_set known (mkPackSet [] [])) as Hempty by (split; [apply set_wf_empty|constructor]).
  pose proof (open_dir_fuel objects (b_ "pack") (io_world s)) as Hf.
  destruct (open_dir objects (b_ "pack") (io_world s)) as [[dir|e|] w]; [|by destruct e|done].
  set (body := let! l := get_limits in _).
  assert (triple inv (fresh_set known) body) as Hbody; [|by apply Hbody]. unfold body.
  eapply triple_bind; [apply triple_limits|]. intros l ->.
  eapply triple_bind; [apply (triple_world L (fun _ => True)); [apply names_fuel|done]|]. intros entries _.
  eapply triple_bind; [apply (triple_lift _ (fun _ => True)); [apply count_entries_fuel|done]|]. intros _ _.
  destruct (_ >? _); [apply triple_fail|].
  eapply triple_conseq; [apply triple_load_loop; [done|]|by intros set [? _]].
  cbn [packs map app]. apply complete_pairs_sorted.
Qed.

(** *** Locating *)

Lemma locate_from_spec l i oid :
  Forall (fun p => exists rows, pack_wf f p rows) l ->
  match locate_from l i oid with
  | Some (j, off) => exists k p rows r, j = i + Z.of_nat k /\ l !! k = Some p /\ pack_wf f p rows /\
      get rows r = Some oid /\ get (offsets p) r = Some off
  | None => forall p rows, p ∈ l -> pack_wf f p rows -> oid ∉ rows
  end.
Proof.
  intros Hl. revert i. induction Hl as [|p l (rows & Hwf) Hl IH]; intros i; cbn [locate_from].
  { intros p rows Hp%elem_of_nil. done. }
  destruct (find p oid) as [r|] eqn:Ef.
  - apply (find_spec p rows oid r (pw_index _ _ _ Hwf)) in Ef.
    pose proof (get_lt _ _ _ Ef) as Hr. destruct (get_Some (offsets p) r) as [off Hoff].
    { unfold len in *. rewrite (pw_count _ _ _ Hwf). lia. }
    rewrite Hoff. cbn [mbind option_bind]. exists 0%nat, p, rows, r. split_and!; [lia|done..].
  - specialize (IH (i + 1)). destruct (locate_from l (i + 1) oid) as [[j off]|].
    + destruct IH as (k & p' & rows' & r & -> & Hk & H'). exists (S k), p', rows', r. split_and!; [lia|done|naive_solver..].
    + intros p' rows' Hp' Hwf' Hin. apply elem_of_cons in Hp' as [->|Hp']; [|by eapply IH].
      apply list_elem_of_lookup in Hin as [k Hk].
      assert (find p oid = Some (Z.of_nat k)) as Hf; [|congruence].
      apply (find_spec p rows' oid _ (pw_index _ _ _ Hwf')). unfold get.
      destruct (Z.leb_spec 0 (Z.of_nat k)); [by rewrite Nat2Z.id|lia].
Qed.
End BuildLemmas.

(** The bytes of an entry: from its offset to the next one, or to the trailer. *)
Record entry_interval {F : Type} (p : Pack F) (offset row stop : Z) : Prop := {
  ei_row : get (offsets p) row = Some offset;
  ei_pos : offset < stop;
  ei_next : forall o, o ∈ offsets p -> offset < o -> stop <= o;
  ei_stop : stop ∈ offsets p \/ stop = data_end p
}.

Section IntervalLemmas.
Context `{HX : Hex, HH : Hashes, ZZ : Zlib, FF : Fs} {FL : FsLaws FF}.
Context (L : GitLimits) (HLo : limits_ok L) (f : ObjectFormat) (crc32 : bytes -> Z).
Abbreviation inv := (io_inv L).

Lemma elem_offsets_get {F} (p : Pack F) o : o ∈ offsets p <-> exists row, get (offsets p) row = Some o.
Proof.
  rewrite list_elem_of_lookup. split.
  - intros [i Hi]. exists (Z.of_nat i). unfold get. destruct (Z.leb_spec 0 (Z.of_nat i)); [by rewrite Nat2Z.id|lia].
  - intros [r Hr]. unfold get in Hr. destruct (0 <=? r); [eauto|done].
Qed.

(** The end the code computes is the end of the interval. *)
Lemma interval_end {F} (p : Pack F) rows offset i row stop :
  pack_wf f p rows -> offset_rows p !! i = Some row -> get (offsets p) row = Some offset ->
  match offset_rows p !! S i with
  | Some next => get (offsets p) next = Some stop
  | None => stop = data_end p
  end -> entry_interval p offset row stop.
Proof.
  intros Hwf Hi Hrow Hstop. pose proof (pw_offsets _ _ _ Hwf) as How. pose proof (ow_sorted _ How) as Hs.
  pose proof (pw_range _ _ _ Hwf) as Hrange. rewrite Forall_forall in Hrange.
  assert (offset ∈ offsets p) as Hin by (apply elem_offsets_get; eauto).
  destruct (offset_rows p !! S i) as [next|] eqn:En.
  - destruct (StronglySorted_lookup _ _ i (S i) row next Hs ltac:(lia) Hi En) as (x & y & ? & ? & ?).
    simplify_eq. split; [done|lia| |left; apply elem_offsets_get; eauto].
    intros o [r Hr]%elem_offsets_get Hlt.
    pose proof (offset_row_elem p How r o Hr) as [j Hj]%list_elem_of_lookup.
    destruct (lt_eq_lt_dec j (S i)) as [[Hj'|Hj']|Hj'].
    + destruct (decide (j = i)) as [->|]; [simplify_eq; lia|].
      destruct (StronglySorted_lookup _ _ j i r row Hs ltac:(lia) Hj Hi) as (a & b & ? & ? & ?). simplify_eq. lia.
    + rewrite Hj' in Hj. simplify_eq. lia.
    + destruct (StronglySorted_lookup _ _ (S i) j next r Hs Hj' En Hj) as (a & b & ? & ? & ?). simplify_eq. lia.
  - subst stop. destruct (Hrange offset Hin). split; [done|lia| |by right].
    intros o [r Hr]%elem_offsets_get Hlt. pose proof (Hrange o ltac:(apply elem_offsets_get; eauto)).
    exfalso. pose proof (offset_row_elem p How r o Hr) as [j Hj]%list_elem_of_lookup.
    apply lookup_ge_None in En. pose proof (lookup_lt_Some _ _ _ Hj).
    destruct (decide (j = i)) as [->|]; [simplify_eq; lia|].
    destruct (StronglySorted_lookup _ _ j i r row Hs ltac:(lia) Hj Hi) as (a & b & ? & ? & ?). simplify_eq. lia.
Qed.

Definition interval_read (p : Pack File) (offset : Z) (d : bytes) : Prop :=
  exists row stop, entry_interval p offset row stop /\ len d = stop - offset /\
    len d <= compressed_stream_bytes L /\
    forall c, crcs p = Some c -> get c row = Some (crc32 d).

Lemma triple_read_interval p rows offset :
  pack_wf f p rows -> triple inv (interval_read p offset) (read_interval crc32 p offset).
Proof.
  intros Hwf. unfold read_interval. pose proof (pw_offsets _ _ _ Hwf) as How.
  eapply triple_bind; [apply (triple_ok_or _ (fun i => exists row, offset_rows p !! i = Some row /\
    get (offsets p) row = Some offset))|].
  { intros i Hi. by apply (offset_position_spec p How). }
  intros i (row & Hi & Hrow). rewrite Hi.
  eapply triple_bind; [apply (triple_ok_or _ (fun r => r = row)); congruence|]. intros r ->.
  eapply triple_bind; [apply (triple_lift _ (entry_interval p offset row))|].
  { destruct (offset_rows p !! S i); [apply ok_or_fuel|done]. }
  { intros stop Hst. apply (interval_end p rows offset i); try done.
    destruct (offset_rows p !! S i); [by apply ok_or_Ok in Hst|by injection Hst]. }
  intros stop Hint.
  eapply triple_bind; [apply (triple_ok_or _ (fun n => n = stop - offset)); intros n Hn;
    by apply checked_sub_Some in Hn as [-> _]|]. intros n ->.
  pose proof (ei_pos _ _ _ _ Hint) as Hpos.
  eapply triple_bind; [apply (triple_charge_compressed L HLo); lia|]. intros u Hle. cbv beta in Hle.
  eapply triple_bind; [apply (triple_lift _ (fun n => n = stop - offset))|].
  { unfold usize_try_from. by destruct (_ <=? usize_max). }
  { intros n. unfold usize_try_from. destruct (_ <=? usize_max); [by intros [= <-]|done]. }
  intros n ->. assert (12 <= offset) as H12.
  { pose proof (pw_range _ _ _ Hwf) as Hr. rewrite Forall_forall in Hr. apply Hr, elem_offsets_get.
    exists row. apply (ei_row _ _ _ _ Hint). }
  eapply triple_bind; [apply triple_read_exact_at; [lia|]|].
  { pose proof (lo_stream _ HLo). lia. }
  intros d Hd. cbv beta in Hd.
  assert (forall c, crcs p = Some c -> get c row = Some (crc32 d) -> interval_read p offset d) as Hdone.
  { intros c Hc Hg. exists row, stop. split_and!; [done|done|lia|]. intros c' Hc'. congruence. }
  destruct (crcs p) as [c|] eqn:Ec.
  - eapply triple_bind; [apply (triple_ok_or _ (fun x => get c row = Some x)); auto|]. intros x Hx.
    destruct (Z.eqb_spec (crc32 d) x) as [<-|]; [|apply triple_fail]. apply triple_ret. by apply (Hdone c).
  - apply triple_ret. exists row, stop. split_and!; [done|done|lia|]. by rewrite Ec.
Qed.
End IntervalLemmas.

(** ** Properties *)

(** the packs an enumeration considers are exactly those whose two files are
    both listed in the directory under a lowercase hexadecimal name of the
    namespace's length, in increasing order without repetition; a pack or index
    whose partner is missing is skipped. *)
Theorem pack_pairs_exact entries hex_len key :
  (key ∈ complete_pairs (collect_pairs (sort_bytes entries) hex_len) <->
   pack_file_name key ∈ entries /\ idx_file_name key ∈ entries /\
   len key = hex_len /\ forallb lower_hex key = true) /\
  StronglySorted bytes_lt (complete_pairs (collect_pairs (sort_bytes entries) hex_len)).
Proof.
  split; [|apply complete_pairs_sorted]. rewrite elem_complete_pairs.
  destruct (collect_pairs_spec (sort_bytes entries) hex_len key) as [-> ->].
  unfold sort_bytes. setoid_rewrite merge_sort_Permutation. setoid_rewrite classify_spec. split.
  - intros ((n & Hn & -> & Hl & Hh) & (m & Hm & -> & _)). done.
  - intros (Hp & Hi & Hl & Hh). split; [exists (pack_file_name key)|exists (idx_file_name key)]; done.
Qed.

(** whatever the file system does, an enumeration of the pack directory that
    succeeds holds only packs whose index parsed, whose rows are sorted and in
    their fan-out intervals, whose offsets are distinct and inside the pack's
    data, in strictly increasing name order and none of them already known; it
    always ends, and both meters stay exact ledgers within their limits on
    every outcome. *)
Theorem build_sound (HX : Hex) (HH : Hashes) (ZZ : Zlib) (FF : Fs) (FL : FsLaws FF) L f objects known s :
  limits_ok L -> io_inv L s ->
  match build objects f known s with
  | (Ok set, s') => io_inv L s' /\ fresh_set L f known set
  | (Err _, s') => io_inv L s'
  | (OutOfFuel, _) => False
  end.
Proof.
  intros HLo Hs. destruct (triple_build L HLo f objects known s Hs) as [Hi Hq].
  destruct (build objects f known s) as [[set|e|] s']; simpl in *; done.
Qed.

(** A session on a store without a pack directory. *)
Definition example_io : IoState (H1 := stored_zlib) (H2 := memory_fs []) :=
  mkIoState (H1 := stored_zlib) (H2 := memory_fs []) 0%nat (new_resources (H := stored_zlib) CONTRACT).

Lemma build_sound_witness :
  (limits_ok CONTRACT /\ FsLaws (memory_fs []) /\
   io_inv (ZZ := stored_zlib) (FF := memory_fs []) CONTRACT example_io) /\
  build (H := rfc_hex) (H0 := toy_hash) (H1 := stored_zlib) (H2 := memory_fs []) tt Sha1 None example_io
    = (Ok (mkPackSet [] []), example_io) /\
  fresh_set (FF := memory_fs []) CONTRACT Sha1 None (mkPackSet [] []).
Proof.
  assert (io_inv (ZZ := stored_zlib) (FF := memory_fs []) CONTRACT example_io) as Hi
    by (apply (new_resources_inv (ZZ := stored_zlib) CONTRACT contract_limits_ok)).
  assert (build (H := rfc_hex) (H0 := toy_hash) (H1 := stored_zlib) (H2 := memory_fs []) tt Sha1 None example_io
    = (Ok (mkPackSet [] []), example_io)) as Hb by (vm_compute; reflexivity).
  split; [exact (conj contract_limits_ok (conj (memory_fs_laws []) Hi))|]. split; [exact Hb|].
  pose proof (build_sound rfc_hex toy_hash stored_zlib (memory_fs []) (memory_fs_laws []) CONTRACT Sha1 tt None
    example_io contract_limits_ok Hi) as Hs.
  rewrite Hb in Hs. exact (proj2 Hs).
Defined.

(** in an enumeration of well-formed packs a lookup fails only when no pack has a
    row for the object, and otherwise names a pack and the offset of the
    object's row in it. *)
Theorem locate_exact (FF : Fs) f cap (set : PackSet) oid :
  set_wf f cap set ->
  match locate set oid with
  | Some (i, off) => exists p rows r, packs set !! Z.to_nat i = Some p /\ pack_wf f p rows /\
      get rows r = Some oid /\ get (offsets p) r = Some off
  | None => forall p rows, p ∈ packs set -> pack_wf f p rows -> oid ∉ rows
  end.
Proof.
  intros Hwf. pose proof (locate_from_spec f (packs set) 0 oid (sw_packs _ _ _ Hwf)) as Hl.
  unfold locate. destruct (locate_from (packs set) 0 oid) as [[i off]|]; [|done].
  destruct Hl as (k & p & rows & r & -> & Hk & H'). exists p, rows, r.
  split; [by rewrite Z.add_0_l, Nat2Z.id|done].
Qed.

Lemma locate_exact_witness :
  set_wf (H := memory_fs []) Sha1 10 (mkPackSet [] []) /\
  locate (H2 := memory_fs []) (mkPackSet [] []) (repeat x00 20) = None /\
  forall p rows, p ∈ packs (H2 := memory_fs []) (mkPackSet [] []) -> pack_wf Sha1 p rows ->
    repeat x00 20 ∉ rows.
Proof.
  assert (set_wf (H := memory_fs []) Sha1 10 (mkPackSet [] [])) as Hwf by (split; constructor).
  split; [exact Hwf|]. split; [reflexivity|].
  exact (locate_exact (memory_fs []) Sha1 10 (mkPackSet [] []) (repeat x00 20) Hwf).
Defined.

(** reading an entry's interval gives exactly the bytes between its offset and
    the next entry of the pack, no other entry starting in between, at most
    the stream cap and with the checksum the index names; the interval is
    charged first, and the read always ends with the accounts intact. *)
Theorem read_interval_sound (ZZ : Zlib) (FF : Fs) (FL : FsLaws FF) L f crc32 (p : Pack File) rows offset s :
  limits_ok L -> pack_wf f p rows -> io_inv L s ->
  match read_interval crc32 p offset s with
  | (Ok d, s') => io_inv L s' /\ interval_read L crc32 p offset d
  | (Err _, s') => io_inv L s'
  | (OutOfFuel, _) => False
  end.
Proof.
  intros HLo Hwf Hs. destruct (triple_read_interval L HLo f crc32 p rows offset Hwf s Hs) as [Hi Hq].
  destruct (read_interval crc32 p offset s) as [[d|e|] s']; simpl in *; done.
Qed.

Lemma read_interval_sound_witness :
  pack_wf Sha1 example_pack [repeat x00 20] /\
  (read_interval (H1 := stored_zlib) (H2 := memory_fs (repeat x07 60)) (fun _ => 0) example_pack 12
    (mkIoState (H1 := stored_zlib) (H2 := memory_fs (repeat x07 60)) 0%nat
       (new_resources (H := stored_zlib) CONTRACT))).1 = Ok (repeat x07 28) /\
  interval_read (FF := memory_fs (repeat x07 60)) CONTRACT (fun _ => 0) example_pack 12 (repeat x07 28).
Proof.
  assert (pack_wf Sha1 example_pack [repeat x00 20]) as Hwf.
  { split; [reflexivity|exact example_index_wf|reflexivity|discriminate| |].
    - split; [reflexivity|repeat constructor].
    - constructor; [split; [discriminate|reflexivity]|constructor]. }
  pose (s := mkIoState (H1 := stored_zlib) (H2 := memory_fs (repeat x07 60)) 0%nat
    (new_resources (H := stored_zlib) CONTRACT)).
  assert (io_inv (ZZ := stored_zlib) (FF := memory_fs (repeat x07 60)) CONTRACT s) as Hi
    by (apply (new_resources_inv (ZZ := stored_zlib) CONTRACT contract_limits_ok)).
  pose proof (read_interval_sound stored_zlib (memory_fs (repeat x07 60)) (memory_fs_laws _) CONTRACT Sha1
    (fun _ => 0) example_pack [repeat x00 20] 12 s contract_limits_ok Hwf Hi) as Hs.
  assert ((read_interval (H1 := stored_zlib) (H2 := memory_fs (repeat x07 60)) (fun _ => 0) example_pack 12 s).1
    = Ok (repeat x07 28)) as Hr by (vm_compute; reflexivity).
  split; [exact Hwf|]. split; [exact Hr|].
  destruct (read_interval _ _ _ s) as [r s'] in Hs, Hr. simpl in Hr. subst r. exact (proj2 Hs).
Defined.
