(* ===== verification/GitRepo.v ===== *)
(** The repository reader: [crates/amiss-git/src/repo.rs]. Objects are looked up
    loose first, then in the packs; whatever is found is content-addressed
    before it is returned. *)
From Stdlib Require Import Strings.Byte Strings.String Lia Sorting.Sorted.
From stdpp Require Import base list numbers gmap sorting.
From S2P Require Import Prelude Codec WireModel GitObject GitResources GitLoose GitDelta GitPackIndex.
From S2P Require Import GitIndexFile GitHandle GitPack.
Import GitError.

#[local] Existing Instance ObjectKind.eq_dec.
#[local] Existing Instance Oid.eq_dec.

(** ** Text of the configuration *)

(** [String::from_utf8_lossy]: each maximal invalid part becomes U+FFFD. Text
    is the list of its code points. *)
Section Lossy.
Definition replacement : Z := 65533.
Definition cont_bits (b : Byte.byte) : Z := u8 b - 128.

(** The range of the second byte of a three-byte or four-byte sequence. *)
Definition second_ok (a b : Byte.byte) : bool :=
  if u8 a =? 224 then in_range 160 191 b
  else if u8 a =? 237 then in_range 128 159 b
  else if u8 a =? 240 then in_range 144 191 b
  else if u8 a =? 244 then in_range 128 143 b
  else continuation b.

Fixpoint from_utf8_lossy (l : bytes) : list Z :=
  match l with
  | [] => []
  | a :: l1 =>
      if is_ascii a then u8 a :: from_utf8_lossy l1
      else if in_range 194 223 a then
        match l1 with
        | b :: l2 =>
            if continuation b then ((u8 a - 192) * 64 + cont_bits b) :: from_utf8_lossy l2
            else replacement :: from_utf8_lossy l1
        | [] => [replacement]
        end
      else if in_range 224 239 a then
        match l1 with
        | b :: l2 =>
            if second_ok a b then
              match l2 with
              | c :: l3 =>
                  if continuation c
                  then ((u8 a - 224) * 4096 + cont_bits b * 64 + cont_bits c) :: from_utf8_lossy l3
                  else replacement :: from_utf8_lossy l2
              | [] => [replacement]
              end
            else replacement :: from_utf8_lossy l1
        | [] => [replacement]
        end
      else if in_range 240 244 a then
        match l1 with
        | b :: l2 =>
            if second_ok a b then
              match l2 with
              | c :: l3 =>
                  if continuation c then
                    match l3 with
                    | d :: l4 =>
                        if continuation d
                        then ((u8 a - 240) * 262144 + cont_bits b * 4096 + cont_bits c * 64
                              + cont_bits d) :: from_utf8_lossy l4
                        else replacement :: from_utf8_lossy l3
                    | [] => [replacement]
                    end
                  else replacement :: from_utf8_lossy l2
              | [] => [replacement]
              end
            else replacement :: from_utf8_lossy l1
        | [] => [replacement]
        end
      else replacement :: from_utf8_lossy l1
  end.

(** [char::is_whitespace]. *)
Definition is_whitespace (c : Z) : bool :=
  ((9 <=? c) && (c <=? 13)) || (c =? 32) || (c =? 133) || (c =? 160) || (c =? 5760)
  || ((8192 <=? c) && (c <=? 8202)) || (c =? 8232) || (c =? 8233) || (c =? 8239)
  || (c =? 8287) || (c =? 12288).

Fixpoint trim_start (p : Z -> bool) (s : list Z) : list Z :=
  match s with
  | [] => []
  | c :: s' => if p c then trim_start p s' else s
  end.
(** [str::trim_matches] of a predicate; [str::trim] is it for whitespace. *)
Definition trim_matches (p : Z -> bool) (s : list Z) : list Z :=
  rev (trim_start p (rev (trim_start p s))).
Definition trim : list Z -> list Z := trim_matches is_whitespace.

(** [str::lines]; a final line end does not start another line, and a carriage
    return before the end is dropped. *)
Fixpoint split_lines (s line : list Z) : list (list Z) :=
  match s with
  | [] => match line with [] => [] | _ => [line] end
  | c :: s =>
      if c =? 10
      then (match last line with Some 13 => removelast line | _ => line end) :: split_lines s []
      else split_lines s (line ++ [c])
  end.
Definition lines (s : list Z) : list (list Z) := split_lines s [].

(** [split(p).next()]: the text before the first match. *)
Fixpoint before (p : Z -> bool) (s : list Z) : list Z :=
  match s with
  | [] => []
  | c :: s => if p c then [] else c :: before p s
  end.
(** [split_once(c)]. *)
Fixpoint split_once (c : Z) (s : list Z) : option (list Z * list Z) :=
  match s with
  | [] => None
  | d :: s =>
      if d =? c then Some ([], s)
      else match split_once c s with Some (a, b) => Some (d :: a, b) | None => None end
  end.

(** [strip_prefix(c)] of a character. *)
Definition strip_char (c : Z) (s : list Z) : option (list Z) :=
  match s with
  | d :: s => if d =? c then Some s else None
  | [] => None
  end.

Definition char_lower (c : Z) : Z := if (65 <=? c) && (c <=? 90) then c + 32 else c.
Fixpoint zlist_eqb (a b : list Z) : bool :=
  match a, b with
  | [], [] => true
  | x :: a, y :: b => (x =? y) && zlist_eqb a b
  | _, _ => false
  end.
(** [eq_ignore_ascii_case] with a literal. *)
Definition eq_literal (s : list Z) (lit : bytes) : bool :=
  zlist_eqb (map char_lower s) (map char_lower (map u8 lit)).
End Lossy.

Record config_state := mkConfig { in_extensions : bool; configured : ObjectFormat }.

(** One line of the loop of [declared_format]. *)
Definition config_line (st : config_state) (line : list Z) : config_state :=
  let line := trim line in
  match strip_char 91 line with
  | Some section =>
      mkConfig (eq_literal (before (fun c => (c =? 93) || (c =? 32) || (c =? 34)) section)
                  (b_ "extensions"))
        (configured st)
  | None =>
      if in_extensions st then
        match split_once 61 line with
        | Some (key, value) =>
            if eq_literal (trim key) (b_ "objectformat") then
              let value := before (fun c => (c =? 35) || (c =? 59)) value in
              if eq_literal (trim_matches (fun c => c =? 34) (trim value)) (b_ "sha256")
              then mkConfig (in_extensions st) Sha256
              else st
            else st
        | None => st
        end
      else st
  end.

Definition configured_format (config : bytes) : ObjectFormat :=
  configured (fold_left config_line (lines (from_utf8_lossy config)) (mkConfig false Sha1)).

Definition GITDIR_POINTER_BYTES : u64 := 16384.
Definition CONFIG_BYTES : u64 := 1048576.

(** The text of [pointer_line] once the file is read. *)
Definition pointer_text (data prefix : bytes) : res bytes RepositoryOpenErrorT :=
  if len data >? GITDIR_POINTER_BYTES then Err RepositoryOpenError
  else
    let? text := ok_or (from_utf8 data) RepositoryOpenError in
    let? rest := ok_or (strip_prefix prefix text) RepositoryOpenError in
    let path := default rest (strip_suffix ["010"%byte] rest) in
    if bytes_eqb path [] || existsb (fun b => beqb b "010"%byte) path
       || existsb (fun b => beqb b "013"%byte) path
    then Err RepositoryOpenError
    else Ok path.

(** ** Opening *)

Section Open.
Context `{Fs}.
(** [Path::join]. *)
Context (path_join : bytes -> bytes -> bytes).

(** The retained handles and the declared format of [Repository]. *)
Record Repository := mkRepository {
  git_dir : File;
  private : bytes;
  index : bytes;
  objects : File;
  object_format : ObjectFormat
}.

Abbreviation open_op A := (sres World A RepositoryOpenErrorT).

Definition io_open {A} (m : sres World A IoError.t) : open_op A :=
  fun w => match m w with
           | (Ok a, w) => (Ok a, w)
           | (Err _, w) => (Err RepositoryOpenError, w)
           | (OutOfFuel, w) => (OutOfFuel, w)
           end.

Definition declared_format (dir : File) (declared : ObjectFormat) : open_op unit :=
  fun w =>
    match open_file dir (b_ "config") w with
    | (Ok config, w) =>
        match fs_read_to_end config CONFIG_BYTES w with
        | (Ok data, w) =>
            if bool_decide (configured_format data = declared) then (Ok tt, w)
            else (Err RepositoryOpenError, w)
        | (Err _, w) => (Ok tt, w)
        | (OutOfFuel, w) => (OutOfFuel, w)
        end
    | (Err _, w) => (Ok tt, w)
    | (OutOfFuel, w) => (OutOfFuel, w)
    end.

Definition pointer_line (file : File) (prefix : bytes) : open_op bytes :=
  let! data := io_open (fs_read_to_end file (sat_add GITDIR_POINTER_BYTES 1)) in
  slift (pointer_text data prefix).

Definition from_handles (git_dir : File) (private : bytes) (objects : File) (f : ObjectFormat)
    : Repository :=
  mkRepository git_dir private (b_ "index") objects f.

(** [Repository::open]. *)
Definition open (root : bytes) (f : ObjectFormat) : open_op Repository :=
  let! root_dir := open_root root in
  fun w =>
    match open_dir root_dir (b_ ".git") w with
    | (OutOfFuel, w) => (OutOfFuel, w)
    | (Ok git_dir, w) =>
        (let! objects := io_open (open_dir git_dir (b_ "objects")) in
         let! _ := declared_format git_dir f in
         sret (from_handles git_dir (path_join root (b_ ".git")) objects f)) w
    | (Err _, w) =>
        (let! pointer := io_open (open_file root_dir (b_ ".git")) in
         let! target := pointer_line pointer (b_ "gitdir: ") in
         let private_path := path_join root target in
         let! git_dir := open_root private_path in
         let! objects := fun w =>
           match open_file git_dir (b_ "commondir") w with
           | (Ok commondir, w) =>
               (let! common_target := pointer_line commondir [] in
                let! common := open_root (path_join private_path common_target) in
                let! _ := declared_format common f in
                io_open (open_dir common (b_ "objects"))) w
           | (Err IoError.NotFound, w) =>
               (let! _ := declared_format git_dir f in
                io_open (open_dir git_dir (b_ "objects"))) w
           | (Err _, w) => (Err RepositoryOpenError, w)
           | (OutOfFuel, w) => (OutOfFuel, w)
           end in
         sret (from_handles git_dir private_path objects f)) w
    end.
End Open.

(** ** Reading *)

Section Read.
Context `{Hex, Hashes, Zlib, Fs}.
Context (crc32 : bytes -> u32).

(** What a read may change: the world, the resources, and the two
    [OnceLock] cells of the repository, each empty or set for good. *)
Record RepoState := mkRepoState {
  rs_io : IoState;
  packs_cell : option (result PackSet);
  repacked_cell : option (result PackSet)
}.

Abbreviation rop A := (sres RepoState A GitError.t).

Definition on_io {A} (m : sres IoState A GitError.t) : rop A :=
  fun s => let '(r, io) := m (rs_io s) in (r, mkRepoState io (packs_cell s) (repacked_cell s)).
Definition on_fs {A} (e : GitError.t) (m : sres World A IoError.t) : rop A :=
  on_io (on_world e m).

Section WithRepository.
Variable repo : Repository.

Definition require_kind (object : Object) (expected : ObjectKind.t) : result Object :=
  if bool_decide (obj_kind object = expected) then Ok object else Err ObjectWrongKind.

(** [absent_to_none(open(..))?]. *)
Definition absent_to_none {A} (m : sres World A IoError.t) : rop (option A) :=
  fun s =>
    match m (io_world (rs_io s)) with
    | (Ok a, w) => (Ok (Some a), mkRepoState (mkIoState w (io_resources (rs_io s)))
                      (packs_cell s) (repacked_cell s))
    | (Err IoError.NotFound, w) => (Ok None, mkRepoState (mkIoState w (io_resources (rs_io s)))
                      (packs_cell s) (repacked_cell s))
    | (Err _, w) => (Err ObjectUnreadable, mkRepoState (mkIoState w (io_resources (rs_io s)))
                      (packs_cell s) (repacked_cell s))
    | (OutOfFuel, w) => (OutOfFuel, mkRepoState (mkIoState w (io_resources (rs_io s)))
                      (packs_cell s) (repacked_cell s))
    end.

(** The charges of [enumeration]. *)
Fixpoint charge_sizes (l : list (bytes * u64)) : sres IoState unit GitError.t :=
  match l with
  | [] => sret tt
  | (name, size) :: l =>
      let! _ := on_resources (charge_index name size) in charge_sizes l
  end.

Inductive Cell := PacksCell | RepackedCell.
Definition read_cell (c : Cell) (s : RepoState) : option (result PackSet) :=
  match c with PacksCell => packs_cell s | RepackedCell => repacked_cell s end.
Definition set_cell (c : Cell) (r : result PackSet) (s : RepoState) : RepoState :=
  match c with
  | PacksCell => mkRepoState (rs_io s) (Some r) (repacked_cell s)
  | RepackedCell => mkRepoState (rs_io s) (packs_cell s) (Some r)
  end.

(** [cell.get_or_init(|| pack::build(..))]. *)
Definition get_or_init (c : Cell) (known : option PackSet) : rop (result PackSet) :=
  fun s =>
    match read_cell c s with
    | Some built => (Ok built, s)
    | None =>
        match build (objects repo) (object_format repo) known (rs_io s) with
        | (OutOfFuel, io) => (OutOfFuel, mkRepoState io (packs_cell s) (repacked_cell s))
        | (built, io) =>
            (Ok built, set_cell c built (mkRepoState io (packs_cell s) (repacked_cell s)))
        end
    end.

Definition enumeration (c : Cell) (known : option PackSet) : rop PackSet :=
  let! built := get_or_init c known in
  match built with
  | Ok set =>
      let! _ := on_io (charge_sizes (index_sizes set)) in sret set
  | Err defect => sfail defect
  | OutOfFuel => slift OutOfFuel
  end.

Definition locate_packed (raw : bytes) : rop (option (PackSet * usize * u64)) :=
  let! enumerated := enumeration PacksCell None in
  match locate enumerated raw with
  | Some (pack_index, offset) => sret (Some (enumerated, pack_index, offset))
  | None =>
      let! repacked := enumeration RepackedCell (Some enumerated) in
      sret (match locate repacked raw with
            | Some (pack_index, offset) => Some (repacked, pack_index, offset)
            | None => None
            end)
  end.

(** [decode]: the whole compressed file, then the loose decoder with the
    retained inflater. *)
Definition decode (oid : Oid.t) (file : File) (value_cap : option ValueCap)
    : sres IoState Object GitError.t :=
  let! metadata := on_world ObjectUnreadable (fs_metadata file) in
  let! _ := on_resources (charge_compressed (Oid.as_str oid) (md_len metadata)) in
  let! l := get_limits in
  let! data := read_capped file (compressed_stream_bytes l) GitCompressedObjectBytes
                 ObjectUnreadable in
  on_resources (fun r =>
    let d := default zlib_new (loose_inflater r) in
    let '(out, d) := decode_loose_reusing data (object_format repo) oid
                       (inflated_object_bytes l) value_cap d in
    (out, with_inflater r d)).

(** The type of [read_pack_at] after the repository. *)
Abbreviation pack_reader := (PackSet -> usize -> u64 -> u64 -> option ValueCap ->
  rop (ObjectKind.t * bytes)).

Definition read_packed (at_ : pack_reader) (oid : Oid.t) (depth : u64) (value_cap : option ValueCap)
    : rop Object :=
  let! raw := slift (ok_or (hex_decode (Oid.as_str oid)) ObjectUnreadable) in
  let! located := locate_packed raw in
  match located with
  | None => sfail ObjectMissing
  | Some (set, pack_index, offset) =>
      let! (kind, body) := at_ set pack_index offset depth value_cap in
      let! _ := slift (verify_oid (object_format repo) oid (object_header kind (len body)) body) in
      sret (mkObject kind body)
  end.

Definition read_full (at_ : pack_reader) (oid : Oid.t) (depth : u64) (value_cap : option ValueCap)
    : rop Object :=
  let! l := on_io get_limits in
  if depth >? delta_depth l then sfail (crossing GitDeltaDepth (delta_depth l) depth)
  else
    let hex_text := Oid.as_str oid in
    let! fan := slift (ok_or (slice_to hex_text 2) ObjectUnreadable) in
    let! rest := slift (ok_or (slice_from hex_text 2) ObjectUnreadable) in
    let! fan_dir := absent_to_none (open_dir (objects repo) fan) in
    match fan_dir with
    | None => read_packed at_ oid depth value_cap
    | Some fan_dir =>
        let! loose := absent_to_none (open_file fan_dir rest) in
        match loose with
        | None => read_packed at_ oid depth value_cap
        | Some loose => on_io (decode oid loose value_cap)
        end
    end.

(** [read_pack_at]. Every recursive call is one deeper and the depth limit
    stops it; the fuel counts the levels. *)
Fixpoint read_pack_at (fuel : nat) (set : PackSet) (pack_index : usize) (offset depth : u64)
    (value_cap : option ValueCap) : rop (ObjectKind.t * bytes) :=
  match fuel with
  | O => slift OutOfFuel
  | S fuel =>
      let! l := on_io get_limits in
      if depth >? delta_depth l then sfail (crossing GitDeltaDepth (delta_depth l) depth)
      else
        let inflated_cap := inflated_object_bytes l in
        let! pack := slift (ok_or (get (packs set) pack_index) ObjectUnreadable) in
        let! entry := on_io (read_interval crc32 pack offset) in
        let! header := slift (parse_entry_header entry) in
        let! after_header := slift (ok_or (slice_from entry (eh_header_len header)) ObjectUnreadable) in
        match eh_kind header with
        | EntryKind.Object kind =>
            let! _ := slift
              match value_cap with
              | Some value =>
                  if eh_size header >? cap_limit value
                  then Err (crossing (cap_resource value) (cap_limit value) (eh_size header))
                  else Ok tt
              | None => Ok tt
              end in
            let! body := slift (inflate_exact after_header (eh_size header) inflated_cap) in
            sret (kind, body)
        | EntryKind.OffsetDelta =>
            let! (distance, used) := slift (parse_ofs_distance after_header) in
            let! base_offset := slift (ok_or (checked_sub offset distance) ObjectUnreadable) in
            if negb (bool_decide (is_Some (row_at pack base_offset))) then sfail ObjectUnreadable
            else
              let! (kind, base) :=
                read_pack_at fuel set pack_index base_offset (sat_add depth 1) None in
              let! script_bytes := slift (ok_or (slice_from after_header used) ObjectUnreadable) in
              let! script := slift (inflate_exact script_bytes (eh_size header) inflated_cap) in
              let! body := slift (apply_delta base script inflated_cap value_cap) in
              sret (kind, body)
        | EntryKind.ReferenceDelta =>
            let width := oid_width (object_format repo) in
            let! base_raw := slift (ok_or (slice_to after_header width) ObjectUnreadable) in
            let! base_oid :=
              slift (ok_or (Oid.new (object_format repo) (hex_encode base_raw)) ObjectUnreadable) in
            let! base := read_full (read_pack_at fuel) base_oid (sat_add depth 1) None in
            let! script_bytes := slift (ok_or (slice_from after_header width) ObjectUnreadable) in
            let! script := slift (inflate_exact script_bytes (eh_size header) inflated_cap) in
            let! body := slift (apply_delta (obj_body base) script inflated_cap value_cap) in
            sret (obj_kind base, body)
        end
  end.

(** The levels of a read: one for every depth up to the limit, and one past
    it that refuses. *)
Definition read_fuel (l : GitLimits) : nat := Z.to_nat (delta_depth l) + 2.

Definition read_top (oid : Oid.t) (value_cap : option ValueCap) : rop Object :=
  fun s => read_full (read_pack_at (read_fuel (limits (io_resources (rs_io s))))) oid 1 value_cap s.

Definition read_object (oid : Oid.t) : rop Object := read_top oid None.

Definition read_expected (oid : Oid.t) (expected : ObjectKind.t) : rop Object :=
  let! object := read_object oid in slift (require_kind object expected).

Definition read_expected_capped (oid : Oid.t) (expected : ObjectKind.t) (cap : ValueCap) : rop Object :=
  let! object := read_top oid (Some cap) in slift (require_kind object expected).

Definition read_index_bytes : sres IoState bytes GitError.t :=
  let! file := on_world IndexInvalid (open_file (git_dir repo) (index repo)) in
  let! metadata := on_world IndexInvalid (fs_metadata file) in
  let! l := get_limits in
  let cap := index_bytes l in
  if md_len metadata >? cap then sfail (crossing GitIndexBytes cap (md_len metadata))
  else read_capped file cap GitIndexBytes IndexInvalid.

(** [if let Ok(fan_dir) = open_dir(..) && open_file(..).is_ok()]. *)
Definition loose_exists (fan rest : bytes) : rop bool :=
  fun s =>
    let back w := mkRepoState (mkIoState w (io_resources (rs_io s))) (packs_cell s) (repacked_cell s) in
    match open_dir (objects repo) fan (io_world (rs_io s)) with
    | (Ok fan_dir, w) =>
        match open_file fan_dir rest w with
        | (Ok _, w) => (Ok true, back w)
        | (Err _, w) => (Ok false, back w)
        | (OutOfFuel, w) => (OutOfFuel, back w)
        end
    | (Err _, w) => (Ok false, back w)
    | (OutOfFuel, w) => (OutOfFuel, back w)
    end.

Definition has_object (oid : Oid.t) : rop bool :=
  let hex_text := Oid.as_str oid in
  let! fan := slift (ok_or (slice_to hex_text 2) ObjectUnreadable) in
  let! rest := slift (ok_or (slice_from hex_text 2) ObjectUnreadable) in
  let! present := loose_exists fan rest in
  if present then sret true
  else
    let! raw := slift (ok_or (hex_decode hex_text) ObjectUnreadable) in
    let! located := locate_packed raw in
    sret (match located with Some _ => true | None => false end).

#[local] Instance IndexEntry_eq_dec : EqDecision IndexEntry.
Proof. solve_decision. Defined.
#[local] Instance LogicalIndex_eq_dec : EqDecision LogicalIndex.
Proof. solve_decision. Defined.

Definition verify_index_unchanged (initial : bytes) : sres IoState unit GitError.t :=
  fun s =>
    match read_index_bytes s with
    | (OutOfFuel, s) => (OutOfFuel, s)
    | (Err (ResourceLimit resource limit observed), s) => (Err (ResourceLimit resource limit observed), s)
    | (Err _, s) => (Err SnapshotChanged, s)
    | (Ok current, s) =>
        if bytes_eqb current initial then (Ok tt, s)
        else
          match IndexFile.parse_index_file (object_format repo) initial with
          | OutOfFuel => (OutOfFuel, s)
          | Err _ => (Err SnapshotChanged, s)
          | Ok before =>
              match IndexFile.parse_index_file (object_format repo) current with
              | OutOfFuel => (OutOfFuel, s)
              | Err _ => (Err SnapshotChanged, s)
              | Ok after =>
                  if bool_decide (before = after) then (Ok tt, s) else (Err SnapshotChanged, s)
              end
          end
    end.
End WithRepository.
End Read.

(** ** Lemmas *)

Section RepoLemmas.
Context `{HX : Hex} {HL : HexLaws HX} `{HH : Hashes, ZZ : Zlib} {ZL : ZlibLaws ZZ}
  `{FF : Fs} {FL : FsLaws FF}.
Context (crc32 : bytes -> Z) (L : GitLimits) (HLo : limits_ok L) (repo : Repository).

Abbreviation f := (object_format repo).

(** An object that hashes to the ID it was asked for, within the caps. *)
Definition authentic (oid : Oid.t) (vcap : option ValueCap) (o : Object) : Prop :=
  Oid.as_str oid
    = hex_encode (ordinary_digest f (object_header (obj_kind o) (len (obj_body o)) ++ obj_body o)) /\
  (f = Sha1 -> sha1_collision (object_header (obj_kind o) (len (obj_body o)) ++ obj_body o) = false) /\
  len (obj_body o) <= inflated_object_bytes L /\
  (forall v, vcap = Some v -> len (obj_body o) <= cap_limit v).

Definition cell_ok (c : option (result PackSet)) : Prop :=
  match c with
  | Some (Ok set) => set_wf f (pack_index_bytes L) set
  | Some OutOfFuel => False
  | _ => True
  end.

Definition repo_inv (s : RepoState) : Prop :=
  io_inv L (rs_io s) /\ cell_ok (packs_cell s) /\ cell_ok (repacked_cell s).

Abbreviation safe := (triple (E := GitError.t) repo_inv).

Lemma triple_io {A} (Q : A -> Prop) (m : sres IoState A GitError.t) :
  triple (io_inv L) Q m -> safe Q (on_io m).
Proof.
  intros Hm s (Hio & Hp & Hr). unfold on_io. destruct (Hm _ Hio) as [Hi Hq].
  destruct (m (rs_io s)) as [r io]. by split.
Qed.

Lemma triple_absent {A} (m : sres World A IoError.t) :
  (forall w, (m w).1 <> OutOfFuel) -> safe (fun _ => True) (absent_to_none m).
Proof.
  intros Hf s Hs. unfold absent_to_none. specialize (Hf (io_world (rs_io s))).
  destruct (m _) as [[a|e|] w]; simpl in *; [|destruct e|]; done.
Qed.

Lemma triple_charge_sizes l :
  Forall (fun kv => 0 <= kv.2 <= pack_index_bytes L) l ->
  triple (io_inv L) (fun _ => True) (charge_sizes l).
Proof.
  induction 1 as [|[name size] l Hsz Hl IH]; cbn [charge_sizes]; [by apply triple_ret|].
  eapply triple_bind; [apply (triple_charge_index L HLo); simpl in Hsz; lia|]. auto.
Qed.

(** An initialised cell is kept; an empty one takes the enumeration. *)
Lemma triple_get_or_init c known :
  safe (fun built => cell_ok (Some built)) (get_or_init repo c known).
Proof.
  intros s (Hio & Hp & Hr). unfold get_or_init.
  destruct (read_cell c s) as [built|] eqn:Ec.
  { split; [done|]. destruct c; cbn [read_cell] in Ec; by rewrite Ec in *. }
  destruct (triple_build L HLo f (objects repo) known (rs_io s) Hio) as [Hi Hq].
  destruct (build _ _ _ _) as [[set|e|] io]; simpl in *; [|by destruct c|done].
  destruct Hq as [Hset _]. destruct c; simpl; done.
Qed.

Lemma triple_enumeration c known : safe (set_wf f (pack_index_bytes L)) (enumeration repo c known).
Proof.
  eapply triple_bind; [apply triple_get_or_init|]. intros [set|e|] Hb; cbv beta in Hb; simpl in Hb;
    [|apply triple_fail|done].
  eapply triple_bind; [apply triple_io, triple_charge_sizes, Hb|]. intros _ _. by apply triple_ret.
Qed.

Lemma triple_locate_packed raw :
  safe (fun o => forall set i off, o = Some (set, i, off) -> set_wf f (pack_index_bytes L) set)
    (locate_packed repo raw).
Proof.
  eapply triple_bind; [apply triple_enumeration|]. intros set Hset.
  destruct (locate set raw) as [[i off]|]; [apply triple_ret; naive_solver|].
  eapply triple_bind; [apply triple_enumeration|]. intros set2 Hset2. apply triple_ret.
  destruct (locate set2 raw) as [[i off]|]; naive_solver.
Qed.

Lemma triple_decode oid file vcap :
  triple (io_inv L) (authentic oid vcap) (decode repo oid file vcap).
Proof.
  eapply triple_bind; [apply (triple_world L (fun m => 0 <= md_len m <= u64_max));
    [apply (fs_no_fuel (F := FF))|apply fs_metadata_len]|]. intros m Hm. cbv beta in Hm.
  eapply triple_bind; [apply (triple_charge_compressed L HLo); lia|]. intros u _.
  eapply triple_bind; [apply triple_limits|]. intros l ->.
  eapply triple_bind; [apply triple_read_capped, HLo|]. intros data _.
  intros s Hs. unfold on_resources, decode_loose_reusing.
  destruct (lo_inflated _ HLo) as [_ Hcap].
  set (st := mkStream (zlib_reset (default zlib_new (loose_inflater (io_resources s)))) 0 false).
  assert (stream_ok data st) as Hst by (split; simpl; [lia|apply len_nonneg]).
  destruct (decode_stream_safe data f oid (inflated_object_bytes L) vcap ltac:(unfold MAX_SAFE in Hcap; unfold_widths; lia) st Hst)
    as [_ Hsafe].
  pose proof (decode_stream_sound data f oid (inflated_object_bytes L) vcap st) as Hsound.
  destruct (decode_stream data f oid (inflated_object_bytes L) vcap st) as [[o|e|] st'] eqn:Ed; [|done|done].
  simpl in *. split; [done|].
  destruct (Hsound o st' Hcap Hst eq_refl) as (Hv & Hle & Hvc & _).
  apply verify_oid_Ok in Hv as [Ho Hcol]. done.
Qed.

(** *** Pack entries *)

Definition body_ok (vcap : option ValueCap) (kb : ObjectKind.t * bytes) : Prop :=
  len kb.2 <= inflated_object_bytes L /\ (forall v, vcap = Some v -> len kb.2 <= cap_limit v).

Lemma triple_inflate data expected :
  0 <= expected ->
  safe (fun out => len out = expected /\ len out <= inflated_object_bytes L)
    (slift (inflate_exact data expected (inflated_object_bytes L))).
Proof.
  intros He. destruct (lo_inflated _ HLo) as [_ Hcap].
  pose proof (inflate_exact_spec ZZ ZL data expected (inflated_object_bytes L) He
    ltac:(unfold MAX_SAFE in Hcap; unfold_widths; lia)) as Hs.
  apply triple_lift; [by intros Hf; rewrite Hf in Hs|]. intros a Ha. rewrite Ha in Hs. lia.
Qed.

Lemma triple_delta base script vcap :
  len base <= inflated_object_bytes L -> len script <= inflated_object_bytes L ->
  safe (fun out => body_ok vcap (ObjectKind.Blob, out))
    (slift (apply_delta base script (inflated_object_bytes L) vcap)).
Proof.
  intros Hb Hs. destruct (lo_inflated _ HLo) as [_ Hcap].
  assert (rust_slice base /\ rust_slice script) as [Hrb Hrs]
    by (unfold rust_slice, MAX_SAFE in *; unfold_widths; lia).
  apply triple_lift; [by apply entry_parsers_fuel|]. intros out Ho.
  apply apply_delta_spec in Ho as (src & tgt & prog & _ & _ & _ & _ & _ & _ & _ & _ & _ & Hle & Hvc); done.
Qed.

(** The values of an entry header. *)
Lemma entry_header_nonneg input h :
  rust_slice input -> parse_entry_header input = Ok h -> 0 <= eh_size h /\ 0 <= eh_header_len h.
Proof.
  intros Hr Hh. apply parse_entry_header_spec in Hh as (b & l & rest & _ & _ & _ & _ & -> & ->); [|done].
  pose proof (leb_value_nonneg l). pose proof (Z.mod_pos_bound (u8 b) 16 ltac:(lia)).
  pose proof (len_nonneg l). lia.
Qed.

(** A pack reader that is right and ends from every depth its fuel covers. *)
Definition reader_ok (fuel : nat)
    (at_ : PackSet -> Z -> Z -> Z -> option ValueCap -> sres RepoState (ObjectKind.t * bytes) GitError.t) : Prop :=
  forall set i off depth vcap,
    set_wf f (pack_index_bytes L) set -> 0 <= depth <= delta_depth L + 1 ->
    delta_depth L - depth + 1 < Z.of_nat fuel -> safe (body_ok vcap) (at_ set i off depth vcap).

Lemma triple_read_packed fuel at_ oid depth vcap :
  reader_ok fuel at_ -> 0 <= depth <= delta_depth L + 1 -> delta_depth L - depth + 1 < Z.of_nat fuel ->
  safe (authentic oid vcap) (read_packed repo at_ oid depth vcap).
Proof.
  intros Hat Hd Hf. unfold read_packed.
  eapply triple_bind; [apply (triple_ok_or _ (fun _ => True)); done|]. intros raw _.
  eapply triple_bind; [apply triple_locate_packed|]. intros [[[set i] off]|] Hset; [|apply triple_fail].
  eapply triple_bind; [by apply Hat; [eapply Hset| |]|]. intros [kind body] [Hle Hvc]. cbn [snd] in *.
  eapply triple_bind; [apply (triple_lift _ (fun _ => verify_oid f oid (object_header kind (len body)) body = Ok tt));
    [destruct (verify_oid_cases f oid (object_header kind (len body)) body) as [-> | ->]; done|by intros []]|].
  intros u Hv. cbv beta in Hv. apply triple_ret. apply verify_oid_Ok in Hv as [Ho Hc]. done.
Qed.

Lemma triple_read_full fuel at_ oid depth vcap :
  reader_ok fuel at_ -> 0 <= depth <= delta_depth L + 1 -> delta_depth L - depth + 1 < Z.of_nat fuel ->
  safe (authentic oid vcap) (read_full repo at_ oid depth vcap).
Proof.
  intros Hat Hd Hf. unfold read_full.
  eapply triple_bind; [apply triple_io, triple_limits|]. intros l ->.
  destruct (depth >? delta_depth L); [apply triple_fail|]. cbv zeta.
  eapply triple_bind; [apply (triple_ok_or _ (fun _ => True)); done|]. intros fan _.
  eapply triple_bind; [apply (triple_ok_or _ (fun _ => True)); done|]. intros rest _.
  eapply triple_bind; [apply triple_absent, open_dir_fuel|]. intros [dir|] _;
    [|by eapply triple_read_packed].
  eapply triple_bind; [apply triple_absent, open_file_fuel|]. intros [loose|] _;
    [|by eapply triple_read_packed].
  apply triple_io, triple_decode.
Qed.

(** The delta branches: a base within the cap gives a body within the caps. *)
Lemma triple_delta_tail kind base script_src size vcap :
  len base <= inflated_object_bytes L -> 0 <= size ->
  safe (body_ok vcap)
    (let! script_bytes := slift (ok_or script_src ObjectUnreadable) in
     let! script := slift (inflate_exact script_bytes size (inflated_object_bytes L)) in
     let! body := slift (apply_delta base script (inflated_object_bytes L) vcap) in
     sret (kind, body)).
Proof.
  intros Hb Hs. eapply triple_bind; [apply (triple_ok_or _ (fun _ => True)); done|]. intros sb _.
  eapply triple_bind; [by apply triple_inflate|]. intros script [_ Hsc].
  eapply triple_bind; [by apply triple_delta|]. intros body Hok. by apply triple_ret.
Qed.

Lemma reader_ok_read_pack_at fuel : reader_ok fuel (read_pack_at crc32 repo fuel).
Proof.
  induction fuel as [|fuel IH]; intros set i off depth vcap Hset Hd Hf; [lia|].
  cbn [read_pack_at]. eapply triple_bind; [apply triple_io, triple_limits|]. intros l ->.
  rewrite Z.gtb_ltb. destruct (Z.ltb_spec (delta_depth L) depth); [apply triple_fail|].
  pose proof (lo_depth _ HLo) as Hdl. rewrite (sat_add_small depth) by (unfold usize_max; lia).
  eapply triple_bind; [apply (triple_ok_or _ (fun p => exists rows, pack_wf f p rows))|].
  { intros p (q & q' & Heq & _)%get_spec. pose proof (sw_packs _ _ _ Hset) as Hp.
    rewrite Heq in Hp. apply Forall_app in Hp as [_ Hp]. by apply Forall_cons_iff in Hp as [? _]. }
  intros p (rows & Hwf).
  eapply triple_bind; [apply triple_io, (triple_read_interval L HLo f crc32 p rows); done|].
  intros entry (row & stop & _ & _ & Hlen & _).
  assert (rust_slice entry) as Hre by (pose proof (lo_stream _ HLo); unfold rust_slice; lia).
  eapply triple_bind; [apply (triple_lift _ (fun h => 0 <= eh_size h /\ 0 <= eh_header_len h))|].
  { by apply (entry_parsers_fuel entry []). }
  { intros h. by apply entry_header_nonneg. }
  intros h [Hsz Hhl].
  eapply triple_bind; [apply (triple_ok_or _ rust_slice)|].
  { intros a Ha. by eapply rust_slice_sub. }
  intros after Hra. cbv beta in Hra. destruct (eh_kind h) as [kind| |].
  - eapply triple_bind; [apply (triple_lift _ (fun _ => forall v, vcap = Some v -> eh_size h <= cap_limit v))|].
    { destruct vcap; [by destruct (_ >? _)|done]. }
    { intros u Hu v ->. rewrite Z.gtb_ltb in Hu. by destruct (Z.ltb_spec (cap_limit v) (eh_size h)). }
    intros u Hvc. eapply triple_bind; [by apply triple_inflate|]. intros body [Hbl Hbc].
    apply triple_ret. split; [done|]. intros v Hv. cbn [snd]. rewrite Hbl. by apply Hvc.
  - eapply triple_bind; [apply (triple_lift _ (fun _ => True)); [by apply (entry_parsers_fuel after [])|done]|].
    intros [dist used] _.
    eapply triple_bind; [apply (triple_ok_or _ (fun _ => True)); done|]. intros base_off _.
    destruct (negb _); [apply triple_fail|].
    eapply triple_bind; [apply IH; [done|lia|lia]|]. intros [kind base] [Hb _]. cbn [snd] in Hb.
    by apply triple_delta_tail.
  - eapply triple_bind; [apply (triple_ok_or _ (fun _ => True)); done|]. intros base_raw _.
    eapply triple_bind; [apply (triple_ok_or _ (fun _ => True)); done|]. intros base_oid _.
    eapply triple_bind; [apply (triple_read_full fuel); [exact IH|lia|lia]|].
    intros base (_ & _ & Hb & _). by apply triple_delta_tail.
Qed.

Lemma triple_read_top oid vcap : 1 <= delta_depth L + 1 -> safe (authentic oid vcap) (read_top crc32 repo oid vcap).
Proof.
  intros Hd s Hs. unfold read_top.
  assert (limits (io_resources (rs_io s)) = L) as -> by apply Hs.
  apply (triple_read_full (read_fuel L)); [apply reader_ok_read_pack_at|lia| |done].
  unfold read_fuel. lia.
Qed.
End RepoLemmas.

(** *** The cells are set once *)

Section CellLemmas.
Context `{HX : Hex, HH : Hashes, ZZ : Zlib, FF : Fs}.
Context (crc32 : bytes -> Z) (repo : Repository).

(** Every cell that was set still holds the same value. *)
Definition cells_kept (s s' : RepoState) : Prop :=
  forall c r, read_cell c s = Some r -> read_cell c s' = Some r.

Definition keeps {A} (m : sres RepoState A GitError.t) : Prop := forall s, cells_kept s (m s).2.

Lemma keeps_bind {A B} (m : sres RepoState A GitError.t) (k : A -> sres RepoState B GitError.t) :
  keeps m -> (forall a, keeps (k a)) -> keeps (sbind m k).
Proof.
  intros Hm Hk s. unfold sbind. specialize (Hm s). destruct (m s) as [[a|e|] s1]; simpl in *; [|done..].
  intros c r Hc. apply Hk. by apply Hm.
Qed.

Lemma keeps_ret {A} (a : A) : keeps (sret a).
Proof. by intros s c r0. Qed.
Lemma keeps_fail {A} e : keeps (A := A) (sfail e).
Proof. by intros s c r0. Qed.
Lemma keeps_lift {A} (r : result A) : keeps (slift r).
Proof. by intros s c r0. Qed.
Lemma keeps_io {A} (m : sres IoState A GitError.t) : keeps (on_io m).
Proof. intros s c r. unfold on_io. destruct (m (rs_io s)). by destruct c. Qed.
Lemma keeps_absent {A} (m : sres World A IoError.t) : keeps (absent_to_none m).
Proof. intros s c r. unfold absent_to_none. destruct (m _) as [[|[]|] w]; by destruct c. Qed.

#[local] Hint Resolve keeps_ret keeps_fail keeps_lift keeps_io keeps_absent : amiss.

Lemma keeps_get_or_init cell known : keeps (get_or_init repo cell known).
Proof.
  intros s c r Hc. unfold get_or_init. destruct (read_cell cell s) as [built|] eqn:Ecell; [done|].
  destruct (build _ _ _ _) as [[set|e|] io]; destruct cell, c; cbn in *; congruence.
Qed.

Lemma keeps_enumeration cell known : keeps (enumeration repo cell known).
Proof.
  apply keeps_bind; [apply keeps_get_or_init|]. intros [set|e|]; auto with amiss.
  apply keeps_bind; auto with amiss.
Qed.

Lemma keeps_locate_packed raw : keeps (locate_packed repo raw).
Proof.
  apply keeps_bind; [apply keeps_enumeration|]. intros set. destruct (locate set raw) as [[]|]; auto with amiss.
  apply keeps_bind; [apply keeps_enumeration|]. auto with amiss.
Qed.

Lemma keeps_read_packed at_ oid depth vcap :
  (forall set i off d v, keeps (at_ set i off d v)) -> keeps (read_packed repo at_ oid depth vcap).
Proof.
  intros Hat. apply keeps_bind; auto with amiss. intros raw. apply keeps_bind; [apply keeps_locate_packed|].
  intros [[[set i] off]|]; auto with amiss. apply keeps_bind; auto. intros [kind body].
  apply keeps_bind; auto with amiss.
Qed.

Lemma keeps_read_full at_ oid depth vcap :
  (forall set i off d v, keeps (at_ set i off d v)) -> keeps (read_full repo at_ oid depth vcap).
Proof.
  intros Hat. apply keeps_bind; auto with amiss. intros l. destruct (_ >? _); auto with amiss.
  apply keeps_bind; auto with amiss. intros fan. apply keeps_bind; auto with amiss. intros rest.
  apply keeps_bind; auto with amiss. intros [dir|]; [|by apply keeps_read_packed].
  apply keeps_bind; auto with amiss. intros [loose|]; [auto with amiss|by apply keeps_read_packed].
Qed.

Lemma keeps_read_pack_at fuel set i off depth vcap :
  keeps (read_pack_at crc32 repo fuel set i off depth vcap).
Proof.
  revert set i off depth vcap. induction fuel as [|fuel IH]; intros set i off depth vcap; [apply keeps_lift|].
  cbn [read_pack_at]. apply keeps_bind; auto with amiss. intros l. destruct (_ >? _); auto with amiss.
  apply keeps_bind; auto with amiss. intros p. apply keeps_bind; auto with amiss. intros entry.
  apply keeps_bind; auto with amiss. intros h. apply keeps_bind; auto with amiss. intros after.
  destruct (eh_kind h).
  - apply keeps_bind; auto with amiss. intros u. apply keeps_bind; auto with amiss.
  - apply keeps_bind; auto with amiss. intros [dist used]. apply keeps_bind; auto with amiss. intros bo.
    destruct (negb _); auto with amiss. apply keeps_bind; auto. intros [kind base].
    repeat (apply keeps_bind; [auto with amiss|intros ?]). auto with amiss.
  - apply keeps_bind; auto with amiss. intros br. apply keeps_bind; auto with amiss. intros bo.
    apply keeps_bind; [by apply keeps_read_full|]. intros base.
    repeat (apply keeps_bind; [auto with amiss|intros ?]). auto with amiss.
Qed.

Lemma keeps_read_top oid vcap : keeps (read_top crc32 repo oid vcap).
Proof. intros s. unfold read_top. by apply keeps_read_full, keeps_read_pack_at. Qed.

(** A set enumeration is the one the cell holds. *)
Lemma enumeration_cell cell known s set s' :
  enumeration repo cell known s = (Ok set, s') -> read_cell cell s' = Some (Ok set).
Proof.
  intros He. unfold enumeration in He. apply sbind_Ok in He as (built & s1 & Hg & He).
  assert (read_cell cell s1 = Some built) as Hc.
  { unfold get_or_init in Hg. destruct (read_cell cell s) as [b|] eqn:E; [by simplify_eq|].
    destruct (build _ _ _ _) as [[]]; simplify_eq; by destruct cell. }
  destruct built as [set'|e|]; [|done|done].
  pose proof (keeps_io (charge_sizes (index_sizes set')) s1 cell _ Hc) as Hk.
  apply sbind_Ok in He as (u & s2 & Hch & He). injection He as <- <-. by rewrite Hch in Hk.
Qed.

(** When nothing is located, both enumerations are settled and neither has the
    object. *)
Lemma locate_packed_None raw s s' :
  locate_packed repo raw s = (Ok None, s') ->
  exists set1 set2, read_cell PacksCell s' = Some (Ok set1) /\ read_cell RepackedCell s' = Some (Ok set2) /\
    locate set1 raw = None /\ locate set2 raw = None.
Proof.
  intros Hl. unfold locate_packed in Hl. apply sbind_Ok in Hl as (set1 & s1 & He1 & Hl).
  destruct (locate set1 raw) as [[i off]|] eqn:E1; [by injection Hl|].
  apply sbind_Ok in Hl as (set2 & s2 & He2 & Hl).
  destruct (locate set2 raw) as [[i off]|] eqn:E2; [by injection Hl|]. injection Hl as <-.
  exists set1, set2. split_and!; [|by eapply enumeration_cell|done|done].
  pose proof (keeps_enumeration RepackedCell (Some set1) s1 PacksCell _ (enumeration_cell _ _ _ _ _ He1)) as Hk.
  by rewrite He2 in Hk.
Qed.
End CellLemmas.

(** *** Configuration *)

(** Whether a line opens a section, and then whether it is [extensions]. *)
Definition section_of (line : list Z) : option bool :=
  section ← strip_char 91 (trim line);
  Some (eq_literal (before (fun c => (c =? 93) || (c =? 32) || (c =? 34)) section) (b_ "extensions")).

(** Whether a line outside a header sets [objectformat] to SHA-256. *)
Definition selects_sha256 (line : list Z) : bool :=
  match split_once 61 (trim line) with
  | Some (key, value) =>
      eq_literal (trim key) (b_ "objectformat") &&
      eq_literal (trim_matches (fun c => c =? 34) (trim (before (fun c => (c =? 35) || (c =? 59)) value)))
        (b_ "sha256")
  | None => false
  end.

(** The section a line is in: the last header before it. *)
Definition in_section (before_it : list (list Z)) : bool := default false (last (omap section_of before_it)).

Lemma config_line_spec st line :
  config_line st line =
    match section_of line with
    | Some ext => mkConfig ext (configured st)
    | None => mkConfig (in_extensions st)
                (if in_extensions st && selects_sha256 line then Sha256 else configured st)
    end.
Proof.
  unfold config_line, section_of, selects_sha256. cbv zeta. destruct st as [ext cfg]. cbn [in_extensions configured].
  destruct (strip_char 91 (trim line)); [done|]. cbn [mbind option_bind].
  destruct ext; [|done]. cbn [andb]. destruct (split_once 61 (trim line)) as [[key value]|]; [|done].
  destruct (eq_literal (trim key) _); [|done]. cbn [andb]. by destruct (eq_literal _ _).
Qed.

Lemma config_fold_spec l :
  let st := fold_left config_line l (mkConfig false Sha1) in
  in_extensions st = in_section l /\
  (configured st = Sha256 <->
   exists l1 line l2, l = l1 ++ line :: l2 /\ section_of line = None /\
     in_section l1 = true /\ selects_sha256 line = true).
Proof.
  cbv zeta. induction l as [|x l IH] using rev_ind.
  { split; [done|]. split; [done|]. intros (l1 & line & l2 & Heq & _). by destruct l1. }
  rewrite fold_left_app. cbn [fold_left]. rewrite config_line_spec. destruct IH as [Hext Hcfg].
  set (st := fold_left config_line l (mkConfig false Sha1)) in *.
  assert (forall P : list (list Z) -> list Z -> Prop,
    (exists l1 line l2, l ++ [x] = l1 ++ line :: l2 /\ P l1 line) <->
    (exists l1 line l2, l = l1 ++ line :: l2 /\ P l1 line) \/ P l x) as Hsplit.
  { intros P. split.
    - intros (l1 & line & l2 & Heq & HP). destruct l2 as [|y l2 _] using rev_ind.
      + apply app_inj_tail in Heq as [-> ->]. by right.
      + rewrite app_comm_cons, app_assoc in Heq. apply app_inj_tail in Heq as [-> ->]. left. eauto.
    - intros [(l1 & line & l2 & -> & HP)|HP]; [|eauto].
      exists l1, line, (l2 ++ [x]). by rewrite <- app_assoc. }
  rewrite Hsplit, <- Hcfg. unfold in_section in *. rewrite omap_app. cbn [omap list_omap].
  destruct (section_of x) as [ext|] eqn:Es; cbn [in_extensions configured].
  - rewrite last_snoc. cbn [from_option id]. split; [done|]. naive_solver.
  - rewrite app_nil_r, Hext. split; [done|].
    destruct (default false (last (omap section_of l))), (selects_sha256 x); cbn [andb]; naive_solver.
Qed.

Lemma pointer_text_spec data prefix path :
  pointer_text data prefix = Ok path <->
  len data <= GITDIR_POINTER_BYTES /\ utf8_valid data = true /\
  (data = prefix ++ path \/ data = prefix ++ path ++ ["010"%byte]) /\
  path <> [] /\ "010"%byte ∉ path /\ "013"%byte ∉ path.
Proof.
  assert (forall b l, existsb (fun c => beqb c b) l = false <-> b ∉ l) as Hex.
  { intros b l. rewrite <- not_true_iff_false, existsb_exists. split.
    - intros H Hin. apply H. exists b. split; [by apply list_elem_of_In|apply beqb_refl].
    - intros Hn (c & Hin & ->%beqb_eq). apply Hn. by apply list_elem_of_In. }
  unfold pointer_text. rewrite Z.gtb_ltb. split.
  - destruct (Z.ltb_spec GITDIR_POINTER_BYTES (len data)); [done|].
    unfold from_utf8. destruct (utf8_valid data) eqn:Eu; [|done]. cbn [ok_or].
    destruct (strip_prefix prefix data) as [rest|] eqn:Ep; [|done]. cbn [ok_or].
    apply strip_prefix_Some in Ep as ->. cbv zeta.
    destruct (_ || _ || _) eqn:E; [done|]. intros [= <-].
    apply orb_false_elim in E as [E E3]. apply orb_false_elim in E as [E1 E2].
    apply bytes_eqb_neq in E1. apply Hex in E2, E3. split_and!; try done.
    destruct (strip_suffix _ rest) as [p|] eqn:Es; cbn [from_option id]; [|by left].
    apply strip_suffix_Some in Es as ->. by right.
  - intros (Hlen & Hu & Hd & Hne & Hlf & Hcr).
    destruct (Z.ltb_spec GITDIR_POINTER_BYTES (len data)); [lia|]. unfold from_utf8. rewrite Hu. cbn [ok_or].
    assert (exists rest, strip_prefix prefix data = Some rest /\
      default rest (strip_suffix ["010"%byte] rest) = path) as (rest & -> & Hp).
    { destruct Hd as [->| ->].
      - exists path. split; [by apply strip_prefix_Some|].
        destruct (strip_suffix _ path) as [p|] eqn:Es; [|done]. apply strip_suffix_Some in Es. exfalso.
        apply Hlf. rewrite Es. apply elem_of_app. right. by left.
      - exists (path ++ ["010"%byte]). split; [by apply strip_prefix_Some|].
        by rewrite (proj2 (strip_suffix_Some ["010"%byte] (path ++ ["010"%byte]) path) eq_refl). }
    cbn [ok_or]. cbv zeta. rewrite Hp. apply bytes_eqb_neq in Hne. rewrite Hne.
    by rewrite (proj2 (Hex _ _) Hlf), (proj2 (Hex _ _) Hcr).
Qed.

(** ** Properties *)

(** C1: whatever the file system and concurrent processes do, an object that is
    returned is the one asked for: its canonical header and body hash to the
    object ID with no SHA-1 collision verdict, and its length is within the
    object cap and the caller's cap, loose or packed, through any chain of
    deltas. Reading always ends, whatever the delta chains, and on every
    outcome the session's accounts and enumerations stay well formed. *)
Theorem read_object_authentic (HX : Hex) (HL : HexLaws HX) (HH : Hashes) (ZZ : Zlib) (ZL : ZlibLaws ZZ)
    (FF : Fs) (FL : FsLaws FF) crc32 L repo oid vcap s :
  limits_ok L -> repo_inv L repo s ->
  match read_top crc32 repo oid vcap s with
  | (Ok o, s') => repo_inv L repo s' /\ authentic L repo oid vcap o
  | (Err _, s') => repo_inv L repo s'
  | (OutOfFuel, _) => False
  end.
Proof.
  intros HLo Hs. pose proof (lo_depth _ HLo).
  destruct (triple_read_top crc32 L HLo repo oid vcap ltac:(lia) s Hs) as [Hi Hq].
  destruct (read_top _ _ _ _ _) as [[o|e|] s']; simpl in *; done.
Qed.

(** A store in which every directory and every file opens, all files with the
    same bytes. *)
Definition store_fs (content : bytes) : Fs := {|
  fs_platform := Unix;
  World := unit;
  File := bool;
  fs_open_root _ w := (Ok true, w);
  fs_open_dir_at _ _ w := (Ok true, w);
  fs_open_at _ _ w := (Ok false, w);
  fs_metadata f w := (Ok (mkMetadata f (negb f) false (len content mod 2 ^ 64)), w);
  fs_read_dir _ w := (Ok [], w);
  fs_read_at _ n off w := (Ok (take (Z.to_nat n) (drop (Z.to_nat off) content)), w);
  fs_read_to_end _ n w := (Ok (take (Z.to_nat (Z.min n (len content))) content), w);
  fs_interrupts _ := O
|}.

Lemma store_fs_laws content : FsLaws (store_fs content).
Proof.
  split; cbn [fs_read_at fs_read_to_end fs_metadata fs_interrupts fs_open_root fs_open_dir_at fs_open_at
              fs_read_dir store_fs World File].
  - intros f n off w b w' Hn H. injection H as <- _. unfold len. rewrite length_take. lia.
  - done.
  - done.
  - done.
  - intros f n w b w' Hn H. injection H as <- _. unfold len. rewrite length_take. lia.
  - split_and!; try done. intros f w. split; [done|]. intros l [= <-]. constructor.
  - intros f w m w' H. injection H as <- _. cbn [md_len].
    pose proof (Z.mod_pos_bound (len content) (2 ^ 64) ltac:(lia)). unfold_widths. lia.
Qed.

Definition example_repo : Repository (H := store_fs example_loose) :=
  mkRepository (H := store_fs example_loose) true (b_ "/r/.git") (b_ "index") true Sha1.
Definition example_state : RepoState (H1 := stored_zlib) (H2 := store_fs example_loose) :=
  mkRepoState (H1 := stored_zlib) (H2 := store_fs example_loose)
    (mkIoState (H1 := stored_zlib) (H2 := store_fs example_loose) tt
       (new_resources (H := stored_zlib) CONTRACT)) None None.

Lemma example_state_inv :
  repo_inv (ZZ := stored_zlib) (FF := store_fs example_loose) CONTRACT example_repo example_state.
Proof.
  split; [|by split]. apply (new_resources_inv (ZZ := stored_zlib) CONTRACT contract_limits_ok).
Qed.

Lemma read_object_authentic_witness :
  (limits_ok CONTRACT /\
   repo_inv (ZZ := stored_zlib) (FF := store_fs example_loose) CONTRACT example_repo example_state) /\
  (read_top (H := rfc_hex) (H0 := toy_hash) (H1 := stored_zlib) (H2 := store_fs example_loose)
     (fun _ => 0) example_repo example_loose_oid None example_state).1
    = Ok (mkObject ObjectKind.Blob (b_ "hi")) /\
  authentic (HX := rfc_hex) (HH := toy_hash) (FF := store_fs example_loose) CONTRACT example_repo
    example_loose_oid None (mkObject ObjectKind.Blob (b_ "hi")).
Proof.
  split; [exact (conj contract_limits_ok example_state_inv)|].
  assert ((read_top (H := rfc_hex) (H0 := toy_hash) (H1 := stored_zlib) (H2 := store_fs example_loose)
     (fun _ => 0) example_repo example_loose_oid None example_state).1
    = Ok (mkObject ObjectKind.Blob (b_ "hi"))) as Hr by (vm_compute; reflexivity).
  split; [exact Hr|].
  pose proof (read_object_authentic rfc_hex rfc_hex_laws toy_hash stored_zlib stored_zlib_laws
    (store_fs example_loose) (store_fs_laws _) (fun _ => 0) CONTRACT example_repo example_loose_oid None
    example_state contract_limits_ok example_state_inv) as Hs.
  destruct (read_top _ _ _ _ example_state) as [r s'] in Hs, Hr. simpl in Hr. subst r. exact (proj2 Hs).
Defined.

(** an object read under an expected kind has that kind; a different kind is the
    only reason for the wrong-kind error on an object that was read. *)
Theorem read_expected_kind (HX : Hex) (HH : Hashes) (ZZ : Zlib) (FF : Fs) crc32 repo oid expected cap s :
  match read_expected_capped crc32 repo oid expected cap s, read_top crc32 repo oid (Some cap) s with
  | (Ok o, s1), (r, s2) => r = Ok o /\ s1 = s2 /\ obj_kind o = expected
  | (Err e, s1), (Ok o, s2) => e = ObjectWrongKind /\ s1 = s2 /\ obj_kind o <> expected
  | (Err e, s1), (Err e', s2) => e = e' /\ s1 = s2
  | (OutOfFuel, _), (r, _) => r = OutOfFuel
  | (Err _, _), (OutOfFuel, _) => False
  end.
Proof.
  unfold read_expected_capped, sbind. destruct (read_top _ _ _ _ _) as [[o|e|] s1]; [|done|done].
  unfold slift, require_kind. case_bool_decide; done.
Qed.

(** the two pack enumerations of a repository are made at most once: whatever is
    read, a cell that holds an enumeration or its error keeps it for good. *)
Theorem enumerations_immutable (HX : Hex) (HH : Hashes) (ZZ : Zlib) (FF : Fs) crc32 repo oid vcap raw s c r :
  read_cell c s = Some r ->
  read_cell c (read_top crc32 repo oid vcap s).2 = Some r /\
  read_cell c (locate_packed repo raw s).2 = Some r.
Proof. intros Hc. split; [by apply keeps_read_top|by apply keeps_locate_packed]. Qed.

Definition failed_state : RepoState (H1 := stored_zlib) (H2 := store_fs example_loose) :=
  mkRepoState (H1 := stored_zlib) (H2 := store_fs example_loose) (rs_io example_state)
    (Some (Err ObjectUnreadable)) None.

Lemma enumerations_immutable_witness :
  read_cell PacksCell failed_state = Some (Err ObjectUnreadable) /\
  read_cell PacksCell (read_top (H := rfc_hex) (H0 := toy_hash) (fun _ => 0) example_repo
    example_loose_oid None failed_state).2 = Some (Err ObjectUnreadable).
Proof.
  assert (read_cell PacksCell failed_state = Some (Err ObjectUnreadable)) as Hc by reflexivity.
  split; [exact Hc|].
  exact (proj1 (enumerations_immutable rfc_hex toy_hash stored_zlib (store_fs example_loose) (fun _ => 0)
    example_repo example_loose_oid None [] failed_state PacksCell (Err ObjectUnreadable) Hc)).
Defined.

(** an object is reported absent only after the pack directory was enumerated and
    then read once more: no pack of either settled enumeration has a row for it. *)
Theorem has_object_absent (HX : Hex) (HH : Hashes) (ZZ : Zlib) (ZL : ZlibLaws ZZ) (FF : Fs) (FL : FsLaws FF)
    L repo oid raw s s' :
  limits_ok L -> repo_inv L repo s -> hex_decode (Oid.as_str oid) = Some raw ->
  has_object repo oid s = (Ok false, s') ->
  exists set1 set2,
    read_cell PacksCell s' = Some (Ok set1) /\ read_cell RepackedCell s' = Some (Ok set2) /\
    forall p rows, p ∈ packs set1 \/ p ∈ packs set2 -> pack_wf (object_format repo) p rows -> raw ∉ rows.
Proof.
  intros HLo Hs Hraw Hh. unfold has_object in Hh. cbv zeta in Hh.
  apply sbind_Ok in Hh as (fan & s1 & Hfan & Hh). injection Hfan as Hfan <-.
  apply sbind_Ok in Hh as (rest & s2 & Hrest & Hh). injection Hrest as Hrest <-.
  apply sbind_Ok in Hh as (present & s3 & Hp & Hh). destruct present; [done|].
  apply sbind_Ok in Hh as (raw' & s4 & Hr & Hh). injection Hr as Hr <-.
  rewrite Hraw in Hr. injection Hr as <-.
  apply sbind_Ok in Hh as (located & s5 & Hl & Hh). destruct located as [t|]; [done|]. injection Hh as <-.
  assert (repo_inv L repo s3) as Hs3.
  { unfold loose_exists in Hp. destruct (open_dir _ _ _) as [[dir|e|] w]; [|by injection Hp as <-|done].
    destruct (open_file _ _ _) as [[loose|e|] w2]; [done|by injection Hp as <-|done]. }
  destruct (triple_locate_packed (fun _ => 0) L HLo repo raw s3 Hs3) as [(Hio & H1 & H2) _]. rewrite Hl in H1, H2.
  destruct (locate_packed_None repo raw s3 s5 Hl) as (set1 & set2 & Hc1 & Hc2 & Hn1 & Hn2).
  exists set1, set2. split_and!; [done|done|]. cbn [read_cell snd] in *. rewrite Hc1 in H1. rewrite Hc2 in H2.
  intros p rows [Hin|Hin] Hwf.
  - pose proof (locate_from_spec (object_format repo) (packs set1) 0 raw (sw_packs _ _ _ H1)) as Hspec.
    unfold locate in Hn1. rewrite Hn1 in Hspec. by eapply Hspec.
  - pose proof (locate_from_spec (object_format repo) (packs set2) 0 raw (sw_packs _ _ _ H2)) as Hspec.
    unfold locate in Hn2. rewrite Hn2 in Hspec. by eapply Hspec.
Qed.

(** A repository whose object store is empty. *)
Definition empty_repo : Repository (H := memory_fs []) :=
  mkRepository (H := memory_fs []) tt (b_ "/r/.git") (b_ "index") tt Sha1.
Definition empty_state : RepoState (H1 := stored_zlib) (H2 := memory_fs []) :=
  mkRepoState (H1 := stored_zlib) (H2 := memory_fs []) example_io None None.

Lemma has_object_absent_witness :
  repo_inv (ZZ := stored_zlib) (FF := memory_fs []) CONTRACT empty_repo empty_state /\
  exists set1 set2,
    has_object (H := rfc_hex) (H0 := toy_hash) (H1 := stored_zlib) (H2 := memory_fs []) empty_repo
      example_loose_oid empty_state
    = (Ok false, mkRepoState (H1 := stored_zlib) (H2 := memory_fs []) example_io (Some (Ok set1)) (Some (Ok set2))).
Proof.
  assert (repo_inv (ZZ := stored_zlib) (FF := memory_fs []) CONTRACT empty_repo empty_state) as Hi.
  { split; [|by split]. apply (new_resources_inv (ZZ := stored_zlib) CONTRACT contract_limits_ok). }
  split; [exact Hi|].
  assert (has_object (H := rfc_hex) (H0 := toy_hash) (H1 := stored_zlib) (H2 := memory_fs []) empty_repo
    example_loose_oid empty_state
    = (Ok false, mkRepoState (H1 := stored_zlib) (H2 := memory_fs []) example_io
        (Some (Ok (mkPackSet [] []))) (Some (Ok (mkPackSet [] []))))) as Hh by (vm_compute; reflexivity).
  assert (hex_decode (Hex := rfc_hex) (Oid.as_str example_loose_oid) = Some (toy_sum 20 example_loose)) as Hd
    by (vm_compute; reflexivity).
  destruct (has_object_absent rfc_hex toy_hash stored_zlib stored_zlib_laws (memory_fs []) (memory_fs_laws [])
    CONTRACT empty_repo example_loose_oid _ _ _ contract_limits_ok Hi Hd Hh) as (set1 & set2 & H1 & H2 & _).
  exists set1, set2. rewrite Hh. cbn [read_cell packs_cell repacked_cell] in H1, H2.
  injection H1 as <-. injection H2 as <-. reflexivity.
Defined.

Lemma triple_read_index_bytes `{HX : Hex, HH : Hashes, ZZ : Zlib, FF : Fs} {FL : FsLaws FF} L repo :
  limits_ok L -> triple (io_inv L) (fun d => len d <= index_bytes L) (read_index_bytes repo).
Proof.
  intros HLo. unfold read_index_bytes.
  eapply triple_bind; [apply (triple_world L (fun _ => True)); [apply open_file_fuel|done]|]. intros file _.
  eapply triple_bind; [apply (triple_world L (fun m => 0 <= md_len m <= u64_max));
    [apply (fs_no_fuel (F := FF))|apply fs_metadata_len]|]. intros m Hm.
  eapply triple_bind; [apply triple_limits|]. intros l ->. cbv zeta.
  rewrite Z.gtb_ltb. destruct (Z.ltb_spec (index_bytes L) (md_len m)); [apply triple_fail|].
  apply triple_read_capped, HLo.
Qed.

(** the end-of-scan check always ends and passes exactly when the index read back has
    the initial bytes or both parse to the same logical entries; a byte-limit
    crossing of the reread is passed on, and every other outcome is the
    snapshot change. *)
Theorem index_unchanged_sound (HX : Hex) (HL : HexLaws HX) (HH : Hashes) (ZZ : Zlib) (FF : Fs) (FL : FsLaws FF)
    L repo initial s :
  limits_ok L -> io_inv L s -> rust_slice initial ->
  let same current :=
    current = initial \/
    exists idx, IndexFile.parse_index_file (object_format repo) initial = Ok idx /\
                IndexFile.parse_index_file (object_format repo) current = Ok idx in
  match verify_index_unchanged repo initial s with
  | (Ok tt, s') => exists current, read_index_bytes repo s = (Ok current, s') /\ same current
  | (Err e, s') =>
      (exists r l o, e = ResourceLimit r l o /\ read_index_bytes repo s = (Err e, s')) \/
      e = SnapshotChanged /\ forall current, read_index_bytes repo s = (Ok current, s') -> ~ same current
  | (OutOfFuel, _) => False
  end.
Proof.
  intros HLo Hs Hr same. pose proof (triple_read_index_bytes L repo HLo s Hs) as [_ Ht].
  unfold verify_index_unchanged. destruct (read_index_bytes repo s) as [[current|e|] s1]; [| |done]; cbn [fst] in Ht.
  - destruct (bytes_eqb current initial) eqn:Eb.
    { apply bytes_eqb_eq in Eb as ->. exists initial. by split; [|left]. }
    assert (current <> initial) as Hne by (intros ->; by rewrite (proj2 (bytes_eqb_eq _ _) eq_refl) in Eb).
    assert (rust_slice current) as Hrc by (unfold rust_slice; destruct HLo; lia).
    pose proof (parse_index_file_total HX HL HH (object_format repo) _ Hr) as Hti.
    pose proof (parse_index_file_total HX HL HH (object_format repo) _ Hrc) as Htc.
    destruct (IndexFile.parse_index_file _ initial) as [a|e|] eqn:Ei;
      [|right; split; [done|]; intros ? [= <-] [?|(? & ? & ?)]; congruence|done].
    destruct (IndexFile.parse_index_file _ current) as [b|e|] eqn:Ec;
      [|right; split; [done|]; intros ? [= <-] [?|(? & ? & ?)]; congruence|done].
    case_bool_decide as Hab.
    + subst b. exists current. split; [done|]. right. by exists a.
    + right. split; [done|]. intros ? [= <-] [?|(? & ? & ?)]; congruence.
  - destruct e; first [by left; eauto 10|right; split; [done|by intros ? [=]]].
Qed.

Lemma index_unchanged_sound_witness :
  (limits_ok CONTRACT /\ io_inv (ZZ := stored_zlib) (FF := store_fs example_index_file) CONTRACT
     (mkIoState (H1 := stored_zlib) (H2 := store_fs example_index_file) tt (new_resources CONTRACT)) /\
   rust_slice example_index_file) /\
  exists current s',
    read_index_bytes (H1 := stored_zlib) (H2 := store_fs example_index_file)
      (mkRepository (H := store_fs example_index_file) true (b_ "/r/.git") (b_ "index") true Sha1)
      (mkIoState (H1 := stored_zlib) (H2 := store_fs example_index_file) tt (new_resources CONTRACT))
    = (Ok current, s').
Proof.
  assert (io_inv (ZZ := stored_zlib) (FF := store_fs example_index_file) CONTRACT
     (mkIoState (H1 := stored_zlib) (H2 := store_fs example_index_file) tt (new_resources CONTRACT))) as Hi
    by apply (new_resources_inv (ZZ := stored_zlib) CONTRACT contract_limits_ok).
  assert (rust_slice example_index_file) as Hr by (vm_compute; discriminate).
  split; [exact (conj contract_limits_ok (conj Hi Hr))|].
  pose proof (index_unchanged_sound rfc_hex rfc_hex_laws toy_hash stored_zlib (store_fs example_index_file)
    (store_fs_laws _) CONTRACT
    (mkRepository (H := store_fs example_index_file) true (b_ "/r/.git") (b_ "index") true Sha1)
    example_index_file _ contract_limits_ok Hi Hr) as Hs.
  cbv zeta in Hs.
  destruct (verify_index_unchanged _ _ _) as [[[]|e|] s'] eqn:E in Hs;
    [destruct Hs as (current & Hc & _); by exists current, s'|vm_compute in E; discriminate E|destruct Hs].
Defined.

(** a pointer file is accepted exactly when it is its prefix, one nonempty line of
    UTF-8 without carriage returns, and at most one line end, within the size
    cap; the path is that line. *)
Theorem pointer_text_exact data prefix path :
  pointer_text data prefix = Ok path <->
  len data <= GITDIR_POINTER_BYTES /\ utf8_valid data = true /\
  (data = prefix ++ path \/ data = prefix ++ path ++ ["010"%byte]) /\
  path <> [] /\ "010"%byte ∉ path /\ "013"%byte ∉ path.
Proof. apply pointer_text_spec. Qed.

(** the configuration names SHA-256 exactly when some line of an [extensions]
    section sets the object format to it; everything else is SHA-1. *)
Theorem configured_format_exact config :
  configured_format config = Sha256 <->
  exists l1 line l2, lines (from_utf8_lossy config) = l1 ++ line :: l2 /\ section_of line = None /\
    in_section l1 = true /\ selects_sha256 line = true.
Proof. apply (config_fold_spec (lines (from_utf8_lossy config))). Qed.
