(* ===== verification/OrdMap.v ===== *)
(** Ordered keys and ordered maps: Rust's [Ord] as a class, derived orders, and
    [BTreeMap] as the list of its rows in key order, so that iteration order is
    part of the model. *)
From Stdlib Require Import Strings.Byte Strings.String Lia Sorting.Sorted.
From stdpp Require Import base list numbers sorting.
From S2P Require Import Prelude Codec WireModel.

(** ** Orders *)

Class Ord (K : Type) := cmp : K -> K -> comparison.

Class OrdLaws (K : Type) `{Ord K} : Prop := {
  cmp_eq (a b : K) : cmp a b = Eq <-> a = b;
  cmp_antisym (a b : K) : cmp b a = CompOpp (cmp a b);
  cmp_trans (a b c : K) : cmp a b = Lt -> cmp b c = Lt -> cmp a c = Lt
}.

Definition klt {K} `{Ord K} (a b : K) : Prop := cmp a b = Lt.
Definition kle {K} `{Ord K} (a b : K) : Prop := cmp a b <> Gt.

#[export] Instance kle_dec {K} `{Ord K} (a b : K) : Decision (kle a b).
Proof. unfold kle. destruct (cmp a b); [left|left|right]; congruence. Defined.

Section OrdFacts.
Context {K : Type} `{OrdLaws K}.

Lemma cmp_refl (a : K) : cmp a a = Eq.
Proof. by apply cmp_eq. Qed.

#[export] Instance klt_strict : StrictOrder (klt (K := K)).
Proof.
  split.
  - intros a Ha. unfold klt in Ha. by rewrite cmp_refl in Ha.
  - intros a b c. apply cmp_trans.
Qed.

Lemma cmp_gt (a b : K) : cmp a b = Gt <-> klt b a.
Proof. unfold klt. rewrite (cmp_antisym a b). destruct (cmp a b); naive_solver. Qed.

Lemma kle_lt (a b : K) : kle a b <-> klt a b \/ a = b.
Proof. unfold kle, klt. rewrite <- cmp_eq. destruct (cmp a b); naive_solver. Qed.

#[export] Instance kle_total : Total (kle (K := K)).
Proof. intros a b. unfold kle. rewrite (cmp_antisym a b). destruct (cmp a b); naive_solver. Qed.

#[export] Instance kle_trans : Transitive (kle (K := K)).
Proof.
  intros a b c. rewrite !kle_lt. intros [H1|<-] [H2|<-]; auto. left. by trans b.
Qed.

#[export] Instance key_eq_dec : EqDecision K.
Proof.
  intros a b. destruct (cmp a b) eqn:E; [left|right|right].
  - by apply cmp_eq.
  - intros ->. by rewrite cmp_refl in E.
  - intros ->. by rewrite cmp_refl in E.
Defined.
End OrdFacts.

(** An order read off an injective key. *)
Lemma ord_by_laws {A B} `{OrdLaws B} (f : A -> B) :
  (forall x y, f x = f y -> x = y) ->
  @OrdLaws A (fun x y => cmp (f x) (f y)).
Proof.
  intros Hf. split.
  - intros a b. change (cmp (f a) (f b) = Eq <-> a = b). rewrite cmp_eq. naive_solver.
  - intros a b. exact (cmp_antisym (f a) (f b)).
  - intros a b c. exact (cmp_trans (f a) (f b) (f c)).
Qed.

#[export] Instance bytes_ord : Ord bytes := bytes_cmp.
#[export] Instance bytes_ord_laws : OrdLaws bytes.
Proof.
  split; unfold cmp, bytes_ord.
  - apply bytes_cmp_eq.
  - apply bytes_cmp_antisym.
  - intros a b c. apply (transitivity (R := bytes_lt)).
Qed.

#[export] Instance Z_ord : Ord Z := Z.compare.
#[export] Instance Z_ord_laws : OrdLaws Z.
Proof.
  split; unfold cmp, Z_ord.
  - apply Z.compare_eq_iff.
  - intros a b. apply Z.compare_antisym.
  - intros a b c. rewrite !Z.compare_lt_iff. lia.
Qed.

#[export] Instance nat_ord : Ord nat := Nat.compare.
#[export] Instance nat_ord_laws : OrdLaws nat.
Proof.
  split; unfold cmp, nat_ord.
  - apply Nat.compare_eq_iff.
  - intros a b. apply Nat.compare_antisym.
  - intros a b c. rewrite !Nat.compare_lt_iff. lia.
Qed.

(** [None] is below every [Some]. *)
#[export] Instance option_ord {K} `{Ord K} : Ord (option K) := fun a b =>
  match a, b with
  | None, None => Eq
  | None, Some _ => Lt
  | Some _, None => Gt
  | Some x, Some y => cmp x y
  end.
#[export] Instance option_ord_laws {K} `{OrdLaws K} : OrdLaws (option K).
Proof.
  split.
  - intros [a|] [b|]; try done. change (cmp a b = Eq <-> Some a = Some b).
    rewrite (cmp_eq (K := K)). naive_solver.
  - intros [a|] [b|]; try done. exact (cmp_antisym (K := K) a b).
  - intros [a|] [b|] [c|]; try done. exact (cmp_trans (K := K) a b c).
Qed.

(** Derived orders compare field by field. *)
#[export] Instance pair_ord {A B} `{Ord A, Ord B} : Ord (A * B) := fun x y =>
  match cmp x.1 y.1 with Eq => cmp x.2 y.2 | c => c end.
#[export] Instance pair_ord_laws {A B} `{OrdLaws A, OrdLaws B} : OrdLaws (A * B).
Proof.
  split; unfold cmp, pair_ord.
  - intros [a b] [c d]. cbn [fst snd]. fold (cmp a c) (cmp b d). destruct (cmp a c) eqn:E.
    + apply cmp_eq in E as ->. rewrite (cmp_eq (K := B)). naive_solver.
    + split; [done|]. intros [= -> ->]. by rewrite cmp_refl in E.
    + split; [done|]. intros [= -> ->]. by rewrite cmp_refl in E.
  - intros [a b] [c d]. cbn [fst snd]. fold (cmp a c) (cmp c a) (cmp b d) (cmp d b).
    rewrite (cmp_antisym a c). destruct (cmp a c); cbn [CompOpp]; auto using cmp_antisym.
  - intros [a1 a2] [b1 b2] [c1 c2]. simpl.
    destruct (cmp a1 b1) eqn:E1; [apply cmp_eq in E1 as ->| |done].
    + destruct (cmp b1 c1) eqn:E2; [apply cmp_trans|done|done].
    + destruct (cmp b1 c1) eqn:E2; [apply cmp_eq in E2 as ->; by rewrite E1| |done].
      by rewrite (cmp_trans a1 b1 c1).
Qed.

#[export] Instance sum_ord {A B} `{Ord A, Ord B} : Ord (A + B) := fun x y =>
  match x, y with
  | inl a, inl b => cmp a b
  | inl _, inr _ => Lt
  | inr _, inl _ => Gt
  | inr a, inr b => cmp a b
  end.
#[export] Instance sum_ord_laws {A B} `{OrdLaws A, OrdLaws B} : OrdLaws (A + B).
Proof.
  split; unfold cmp, sum_ord.
  - intros [a|a] [b|b]; rewrite ?cmp_eq; naive_solver.
  - intros [a|a] [b|b]; try done; apply cmp_antisym.
  - intros [a|a] [b|b] [c|c]; try done; apply cmp_trans.
Qed.

#[export] Instance digest_ord : Ord Digest.t := fun a b => cmp (Digest.as_bytes a) (Digest.as_bytes b).
#[export] Instance digest_ord_laws : OrdLaws Digest.t.
Proof. apply (ord_by_laws Digest.as_bytes), Digest.eq. Qed.

(** ** Sorting *)

(** [sort_by_key]; keys that must be told apart are distinct where it is used. *)
Definition sort_by {A K} `{Ord K} (key : A -> K) (l : list A) : list A :=
  merge_sort (fun a b => kle (key a) (key b)) l.

Section SortFacts.
Context {A K : Type} `{OrdLaws K} (key : A -> K).

Lemma sort_by_perm l : sort_by key l ≡ₚ l.
Proof. apply merge_sort_Permutation. Qed.

Lemma sort_by_sorted l : StronglySorted (fun a b => kle (key a) (key b)) (sort_by key l).
Proof.
  apply StronglySorted_merge_sort.
  - intros a b c. apply transitivity.
  - intros a b. apply kle_total.
Qed.

(** Distinct keys end up strictly increasing. *)
Lemma sort_by_strict l :
  NoDup (map key l) -> StronglySorted (fun a b => klt (key a) (key b)) (sort_by key l).
Proof.
  intros Hn. assert (NoDup (map key (sort_by key l))) as Hn'.
  { by rewrite sort_by_perm. }
  pose proof (sort_by_sorted l) as Hs. revert Hn'. induction Hs as [|x k Hs IH Hf]; intros Hn'; [constructor|].
  cbn [map] in Hn'. apply NoDup_cons in Hn' as [Hx Hn']. constructor; [auto|].
  rewrite Forall_forall in *. intros y Hy. specialize (Hf y Hy). apply kle_lt in Hf as [|Heq]; [done|].
  exfalso. apply Hx. rewrite Heq. apply list_elem_of_fmap. eauto.
Qed.
End SortFacts.

(** A strictly increasing list is determined by its elements. *)
Lemma strict_sorted_unique {A} (R : A -> A -> Prop) `{!StrictOrder R} l1 l2 :
  StronglySorted R l1 -> StronglySorted R l2 -> (forall x, x ∈ l1 <-> x ∈ l2) -> l1 = l2.
Proof.
  intros H1. revert l2. induction H1 as [|x l1 H1 IH Hx]; intros l2 H2 Hiff.
  - destruct l2 as [|y l2]; [done|]. exfalso. apply (elem_of_nil y). apply Hiff. by left.
  - destruct H2 as [|y l2 H2 Hy].
    { exfalso. apply (elem_of_nil x). apply Hiff. by left. }
    rewrite Forall_forall in Hx, Hy.
    assert (x = y) as <-.
    { assert (x ∈ y :: l2) as Hx' by (apply Hiff; by left).
      assert (y ∈ x :: l1) as Hy' by (apply Hiff; by left).
      apply elem_of_cons in Hx' as [->|Hx']; [done|]. apply elem_of_cons in Hy' as [->|Hy']; [done|].
      exfalso. apply (irreflexivity R x). trans y; auto. }
    f_equal. apply IH; [done|]. intros z. specialize (Hiff z). rewrite !elem_of_cons in Hiff.
    split; intros Hz.
    + destruct (proj1 Hiff (or_intror Hz)) as [->|]; [|done]. exfalso. by apply (irreflexivity R x), Hx.
    + destruct (proj2 Hiff (or_intror Hz)) as [->|]; [|done]. exfalso. by apply (irreflexivity R x), Hy.
Qed.

Lemma bytes_cmp_app (u a b : bytes) : bytes_cmp (u ++ a) (u ++ b) = bytes_cmp a b.
Proof. induction u as [|x u IH]; [done|]. cbn. by rewrite Z.compare_refl. Qed.

(** The two filters of the libraries. *)
Lemma list_filter_bool {A} (p : A -> bool) (l : list A) : List.filter p l = filter (fun x => p x = true) l.
Proof.
  induction l as [|x l IH]; [done|]. cbn. destruct (p x) eqn:E.
  - rewrite IH. destruct (decide _); [done|congruence].
  - rewrite IH. destruct (decide _); [congruence|done].
Qed.

Lemma StronglySorted_filter {A} (R : A -> A -> Prop) (P : A -> Prop) `{!forall x, Decision (P x)} l :
  StronglySorted R l -> StronglySorted R (filter P l).
Proof.
  induction 1 as [|x l Hs IH Hx]; [constructor|]. destruct (decide (P x)) as [HP|HP].
  - rewrite filter_cons_True by done. constructor; [done|]. rewrite Forall_forall in Hx.
    apply Forall_forall. intros y [_ Hy]%list_elem_of_filter. auto.
  - by rewrite filter_cons_False.
Qed.

(** A partial map that keeps the order of what it keeps. *)
Lemma StronglySorted_omap {A B} (R : A -> A -> Prop) (R' : B -> B -> Prop) (f : A -> option B) l :
  (forall a a' b b', R a a' -> f a = Some b -> f a' = Some b' -> R' b b') ->
  StronglySorted R l -> StronglySorted R' (omap f l).
Proof.
  intros Hf. induction 1 as [|x l Hs IH Hx]; [constructor|]. cbn. destruct (f x) as [y|] eqn:E; [|done].
  constructor; [done|]. rewrite Forall_forall in Hx. apply Forall_forall.
  intros z (w & Hw & Hz)%list_elem_of_omap. by eapply Hf; [apply Hx| |].
Qed.

(** ** Ordered maps *)

Notation bt K V := (list (K * V)) (only parsing).

Section Map.
Context {K V : Type} `{Ord K}.

Fixpoint bt_get (k : K) (m : bt K V) : option V :=
  match m with
  | [] => None
  | (k', v) :: m => match cmp k k' with Eq => Some v | Lt => None | Gt => bt_get k m end
  end.

(** [entry(k)]: the value becomes [f] of the one that was there. *)
Fixpoint bt_upd (k : K) (f : option V -> V) (m : bt K V) : bt K V :=
  match m with
  | [] => [(k, f None)]
  | (k', v) :: m' =>
      match cmp k k' with
      | Lt => (k, f None) :: m
      | Eq => (k', f (Some v)) :: m'
      | Gt => (k', v) :: bt_upd k f m'
      end
  end.
Definition bt_insert (k : K) (v : V) (m : bt K V) : bt K V := bt_upd k (fun _ => v) m.

Definition bt_keys (m : bt K V) : list K := map fst m.
Definition bt_mem (k : K) (m : bt K V) : bool := match bt_get k m with Some _ => true | None => false end.

Definition bt_wf (m : bt K V) : Prop := StronglySorted klt (bt_keys m).
End Map.

Section MapFacts.
Context {K V : Type} `{OrdLaws K}.
Implicit Types m : bt K V.

Lemma bt_wf_cons k (v : V) m : bt_wf ((k, v) :: m) -> bt_wf m /\ Forall (fun kv => klt k kv.1) m.
Proof.
  unfold bt_wf. cbn [bt_keys map fst]. intros Hs. apply StronglySorted_inv in Hs as [Hs Hf].
  split; [exact Hs|]. rewrite Forall_forall in Hf. apply Forall_forall. intros [k' w] Hin. apply Hf, list_elem_of_fmap.
  by exists (k', w).
Qed.

Lemma bt_get_lt k m : Forall (fun kv => klt k kv.1) m -> bt_get k m = None.
Proof. intros Hf. destruct m as [|[k' v] m]; [done|]. apply Forall_cons_iff in Hf as [Hk _]. simpl in *. by rewrite Hk. Qed.

Lemma bt_get_upd k k' f m :
  bt_wf m -> bt_get k' (bt_upd k f m) = if decide (k' = k) then Some (f (bt_get k m)) else bt_get k' m.
Proof.
  induction m as [|[k0 v] m IH]; intros Hwf; cbn [bt_upd bt_get].
  { destruct (decide (k' = k)) as [->|Hne]; [by rewrite cmp_refl|].
    destruct (cmp k' k) eqn:E; [apply cmp_eq in E; done|done|done]. }
  apply bt_wf_cons in Hwf as [Hwf Hlt]. specialize (IH Hwf).
  destruct (cmp k k0) eqn:E; cbn [bt_get].
  - apply cmp_eq in E as ->. destruct (decide (k' = k0)) as [->|Hne]; [by rewrite cmp_refl|].
    destruct (cmp k' k0) eqn:E; [apply cmp_eq in E; done|done|done].
  - destruct (decide (k' = k)) as [->|Hne]; [by rewrite cmp_refl|].
    destruct (cmp k' k) eqn:E'; [apply cmp_eq in E'; done| |done].
    by rewrite (cmp_trans k' k k0).
  - rewrite IH. destruct (decide (k' = k)) as [->|Hne]; [by rewrite E|done].
Qed.

Lemma elem_bt_upd x k f m : x ∈ bt_keys (bt_upd k f m) <-> x = k \/ x ∈ bt_keys m.
Proof.
  induction m as [|[k0 v] m IH]; cbn [bt_upd bt_keys map fst]; [by rewrite elem_of_cons|].
  destruct (cmp k k0) eqn:E; cbn [bt_keys map fst]; rewrite ?elem_of_cons.
  - apply cmp_eq in E as ->. naive_solver.
  - naive_solver.
  - fold (bt_keys (bt_upd k f m)) (bt_keys m). rewrite IH. naive_solver.
Qed.

Lemma bt_upd_wf k f m : bt_wf m -> bt_wf (bt_upd k f m).
Proof.
  induction m as [|[k0 v] m IH]; intros Hwf; cbn [bt_upd]; [by repeat constructor|].
  pose proof (bt_wf_cons _ _ _ Hwf) as [Hwf' Hlt]. unfold bt_wf in *.
  destruct (cmp k k0) eqn:E; cbn [bt_keys map fst] in *.
  - done.
  - constructor; [done|]. constructor; [done|]. rewrite Forall_forall in Hlt. apply Forall_forall.
    intros x ([? ?] & -> & Hin)%list_elem_of_fmap. trans k0; [done|]. exact (Hlt _ Hin).
  - apply cmp_gt in E. constructor; [by apply IH|]. apply Forall_forall. intros x Hx.
    apply elem_bt_upd in Hx as [->|Hx]; [done|]. apply StronglySorted_inv in Hwf as [_ Hf].
    rewrite Forall_forall in Hf. by apply Hf.
Qed.

Lemma bt_get_Some k v m : bt_wf m -> bt_get k m = Some v <-> (k, v) ∈ m.
Proof.
  induction m as [|[k0 v0] m IH]; intros Hwf; cbn [bt_get]; [by rewrite elem_of_nil|].
  apply bt_wf_cons in Hwf as [Hwf Hlt]. rewrite elem_of_cons. rewrite Forall_forall in Hlt.
  destruct (cmp k k0) eqn:E.
  - apply cmp_eq in E as ->. split; [naive_solver|]. intros [[= ->]|Hin]; [done|].
    apply Hlt in Hin. simpl in Hin. by apply (irreflexivity klt) in Hin.
  - split; [done|]. intros [[= -> ->]|Hin]; [by rewrite cmp_refl in E|].
    apply Hlt in Hin. simpl in Hin. assert (klt k k) as Hk by (by trans k0). by apply (irreflexivity klt) in Hk.
  - rewrite (IH Hwf). split; [naive_solver|]. intros [[= -> ->]|Hin]; [by rewrite cmp_refl in E|done].
Qed.

Lemma elem_bt_keys k m : bt_wf m -> k ∈ bt_keys m <-> is_Some (bt_get k m).
Proof.
  intros Hwf. unfold bt_keys. rewrite list_elem_of_fmap. split.
  - intros ([k' v] & -> & Hin). exists v. by apply bt_get_Some.
  - intros [v Hv%bt_get_Some]; [|done]. by exists (k, v).
Qed.

Lemma bt_keys_NoDup m : bt_wf m -> NoDup (bt_keys m).
Proof.
  unfold bt_wf. induction 1 as [|k l Hs IH Hf]; [constructor|]. apply NoDup_cons. split; [|done].
  intros Hin. rewrite Forall_forall in Hf. by apply (irreflexivity klt k), Hf.
Qed.

Lemma bt_wf_rows m : bt_wf m <-> StronglySorted (fun a b => klt a.1 b.1) m.
Proof.
  unfold bt_wf. induction m as [|[k v] m IH]; cbn [bt_keys map fst]; [by split; constructor|].
  fold (bt_keys m). split; intros Hs; apply StronglySorted_inv in Hs as [H1 H2].
  - constructor; [by apply IH|]. rewrite Forall_forall in H2. apply Forall_forall. intros [k' v'] Hin.
    apply H2, list_elem_of_fmap. by exists (k', v').
  - constructor; [by apply IH|]. rewrite Forall_forall in H2. apply Forall_forall.
    intros x ([k' v'] & -> & Hin)%list_elem_of_fmap. by apply (H2 (k', v')).
Qed.

Lemma bt_mem_true k m : bt_wf m -> bt_mem k m = true <-> k ∈ bt_keys m.
Proof.
  intros Hwf. rewrite elem_bt_keys by done. unfold bt_mem. destruct (bt_get k m); naive_solver.
Qed.
End MapFacts.

(** ** Loops over ordered maps *)

Lemma filter_id {A} (P : A -> Prop) `{!forall x, Decision (P x)} (l : list A) :
  Forall P l -> filter P l = l.
Proof. induction 1 as [|x l Hx _ IH]; [done|]. rewrite filter_cons_True by done. by f_equal. Qed.

Section Loops.
Context {K V : Type} `{OrdLaws K}.
Implicit Types (m : bt K V) (rows : list (K * V)).

(** [collect::<BTreeMap<_, _>>()]. *)
Definition bt_collect (rows : list (K * V)) (m : bt K V) : bt K V :=
  fold_left (fun m row => bt_insert row.1 row.2 m) rows m.

Lemma bt_nil_wf : bt_wf (K := K) (V := V) [].
Proof. constructor. Qed.

Lemma bt_insert_wf k (v : V) m : bt_wf m -> bt_wf (bt_insert k v m).
Proof. apply bt_upd_wf. Qed.

Lemma bt_get_insert k k' (v : V) m :
  bt_wf m -> bt_get k' (bt_insert k v m) = if decide (k' = k) then Some v else bt_get k' m.
Proof. apply (bt_get_upd k k' (fun _ => v)). Qed.

Lemma bt_collect_wf rows m : bt_wf m -> bt_wf (bt_collect rows m).
Proof. revert m. induction rows as [|[k v] rows IH]; intros m Hm; [done|]. by apply IH, bt_insert_wf. Qed.

(** Rows that agree on equal keys are all there is in the collected map. *)
Lemma bt_get_collect rows k v :
  (forall k v v', (k, v) ∈ rows -> (k, v') ∈ rows -> v = v') ->
  bt_get k (bt_collect rows []) = Some v <-> (k, v) ∈ rows.
Proof.
  revert k v. induction rows as [|[k0 v0] rows IH] using rev_ind; intros k v Hfun.
  { cbn. by rewrite elem_of_nil. }
  unfold bt_collect. rewrite fold_left_app. cbn [fold_left fst snd].
  rewrite bt_get_insert by (apply bt_collect_wf, bt_nil_wf).
  rewrite elem_of_app, list_elem_of_singleton.
  fold (bt_collect rows []). destruct (decide (k = k0)) as [->|Hne].
  - split; [intros [= <-]; by right|]. intros [Hin|[= ->]]; [|done].
    f_equal. apply (Hfun k0); apply elem_of_app; [right; by left|by left].
  - rewrite IH; [naive_solver|]. intros. eapply Hfun; apply elem_of_app; left; eauto.
Qed.

(** [range(k..)]: the rows from [k] on. *)
Fixpoint bt_from (k : K) (m : bt K V) : bt K V :=
  match m with
  | [] => []
  | (k', v) :: m' => match cmp k' k with Lt => bt_from k m' | _ => m end
  end.

Lemma bt_from_spec k m : bt_wf m -> bt_from k m = filter (fun row => kle k row.1) m.
Proof.
  induction m as [|[k0 v0] m IH]; intros Hwf; [done|]. cbn [bt_from].
  apply bt_wf_cons in Hwf as [Hwf Hlt]. destruct (cmp k0 k) eqn:E.
  - apply cmp_eq in E as ->. rewrite filter_cons_True by (cbn; apply kle_lt; by right). f_equal. symmetry.
    apply filter_id. eapply Forall_impl; [exact Hlt|]. intros x Hx. apply kle_lt. by left.
  - rewrite filter_cons_False; [by apply IH|]. cbn. unfold kle. apply dec_stable.
    rewrite (cmp_antisym k0 k), E. naive_solver.
  - apply cmp_gt in E. rewrite filter_cons_True by (cbn; apply kle_lt; by left). f_equal. symmetry.
    apply filter_id. eapply Forall_impl; [exact Hlt|]. intros x Hx. apply kle_lt. left. by trans k0.
Qed.
End Loops.

(** [entry(key(x)).or_default().push(val(x))] for every [x]. *)
Definition bt_group {A B K} `{Ord K} (key : A -> K) (val : A -> B) (l : list A) : bt K (list B) :=
  fold_left (fun m x => bt_upd (key x) (fun o => default [] o ++ [val x]) m) l [].

Section Group.
Context {A B K : Type} `{OrdLaws K} (key : A -> K) (val : A -> B).

Lemma bt_group_snoc l x :
  bt_group key val (l ++ [x]) = bt_upd (key x) (fun o => default [] o ++ [val x]) (bt_group key val l).
Proof. unfold bt_group. by rewrite fold_left_app. Qed.

Lemma bt_group_wf l : bt_wf (bt_group key val l).
Proof.
  induction l as [|x l IH] using rev_ind; [apply bt_nil_wf|]. rewrite bt_group_snoc. by apply bt_upd_wf.
Qed.

(** The values of the elements with the key, in their order. *)
Lemma bt_get_group l k `{!forall x, Decision (key x = k)} :
  bt_get k (bt_group key val l) =
  match map val (filter (fun x => key x = k) l) with [] => None | ys => Some ys end.
Proof.
  induction l as [|x l IH] using rev_ind; [done|].
  rewrite bt_group_snoc, bt_get_upd by apply bt_group_wf. rewrite filter_app, map_app.
  destruct (decide (k = key x)) as [->|Hne].
  - rewrite IH. rewrite (filter_cons_True _ x []) by done. cbn [filter list_filter map].
    by destruct (map val (filter _ l)).
  - rewrite (filter_cons_False _ x []) by (intros Hk; by apply Hne). cbn [filter list_filter map].
    rewrite app_nil_r. apply IH.
Qed.

Lemma bt_group_default l k `{!forall x, Decision (key x = k)} :
  default [] (bt_get k (bt_group key val l)) = map val (filter (fun x => key x = k) l).
Proof. rewrite (bt_get_group l k). by destruct (map _ _). Qed.
End Group.

(** A duplicate-free list keeps exactly one element iff that one is alone. *)
Lemma filter_singleton {A} (P : A -> Prop) `{!forall x, Decision (P x)} (l : list A) x :
  NoDup l -> filter P l = [x] <-> x ∈ l /\ P x /\ forall y, y ∈ l -> P y -> y = x.
Proof.
  intros Hn. split.
  - intros Hf. assert (x ∈ filter P l) as Hx by (rewrite Hf; by left).
    apply list_elem_of_filter in Hx as [HP Hx]. split_and!; [done|done|].
    intros y Hy HPy. assert (y ∈ filter P l) as Hy' by (by apply list_elem_of_filter).
    rewrite Hf in Hy'. by apply list_elem_of_singleton.
  - intros (Hx & HP & Hu). assert (filter P l ≡ₚ [x]) as Hp.
    { apply NoDup_Permutation; [by apply NoDup_filter|apply NoDup_singleton|].
      intros y. rewrite list_elem_of_filter, list_elem_of_singleton. naive_solver. }
    by apply Permutation_singleton_r in Hp.
Qed.

Lemma NoDup_omap_inj {A B} (f : A -> option B) (l : list A) :
  (forall a a' b, f a = Some b -> f a' = Some b -> a = a') -> NoDup l -> NoDup (omap f l).
Proof.
  intros Hf. induction 1 as [|x l Hx Hn IH]; [constructor|]. cbn. destruct (f x) as [y|] eqn:E; [|done].
  apply NoDup_cons. split; [|done]. intros (z & Hz & Hfz)%list_elem_of_omap.
  by rewrite (Hf x z y E Hfz) in Hx.
Qed.

Lemma length_filter_one {A} (P : A -> Prop) `{!forall x, Decision (P x)} (l : list A) :
  NoDup l -> length (filter P l) = 1%nat <-> exists x, forall y, (y ∈ l /\ P y) <-> y = x.
Proof.
  intros Hn. split.
  - intros Hl. destruct (filter P l) as [|x [|]] eqn:E; try done. exists x.
    apply filter_singleton in E as (H1 & H2 & H3); [|done]. intros y. split; [|by intros ->].
    intros [? ?]. auto.
  - intros [x Hx]. destruct (proj2 (Hx x) eq_refl) as [Hin HP].
    rewrite (proj2 (filter_singleton P l x Hn)); [done|]. split_and!; [done|done|].
    intros y Hy HPy. by apply Hx.
Qed.

(** [for x in l { *map.entry(key(x)) = step(x, ..) }]. *)
Definition bt_fold {A K V} `{Ord K} (key : A -> K) (step : A -> option V -> V) (l : list A) (m : bt K V)
    : bt K V :=
  fold_left (fun m x => bt_upd (key x) (step x) m) l m.

Section Fold.
Context {A K V : Type} `{OrdLaws K} (key : A -> K) (step : A -> option V -> V).

Lemma bt_fold_snoc l x m : bt_fold key step (l ++ [x]) m = bt_upd (key x) (step x) (bt_fold key step l m).
Proof. unfold bt_fold. by rewrite fold_left_app. Qed.

Lemma bt_fold_wf l m : bt_wf m -> bt_wf (bt_fold key step l m).
Proof.
  intros Hm. induction l as [|x l IH] using rev_ind; [done|]. rewrite bt_fold_snoc. by apply bt_upd_wf.
Qed.

(** The entry of a key folds over the elements that have it. *)
Lemma bt_get_fold l m k `{!forall x, Decision (key x = k)} :
  bt_wf m ->
  bt_get k (bt_fold key step l m) =
  fold_left (fun o x => Some (step x o)) (filter (fun x => key x = k) l) (bt_get k m).
Proof.
  intros Hm. induction l as [|x l IH] using rev_ind; [done|].
  rewrite bt_fold_snoc, bt_get_upd by (by apply bt_fold_wf). rewrite filter_app, fold_left_app, <- IH.
  destruct (decide (k = key x)) as [->|Hne].
  - by rewrite (filter_cons_True _ x []).
  - by rewrite (filter_cons_False _ x []) by (intros Hk; by apply Hne).
Qed.
End Fold.

Lemma NoDup_fmap_unique {A B} (f : A -> B) (l : list A) x y :
  NoDup (map f l) -> x ∈ l -> y ∈ l -> f x = f y -> x = y.
Proof.
  intros Hn [i Hi]%list_elem_of_lookup [j Hj]%list_elem_of_lookup E.
  assert (i = j) as ->; [|congruence].
  apply (proj1 (NoDup_alt _) Hn i j (f x)).
  - by rewrite list_lookup_fmap, Hi.
  - by rewrite list_lookup_fmap, Hj, E.
Qed.

Lemma Permutation_map_inj {A B} (f : A -> B) (l l' : list A) :
  (forall x y, f x = f y -> x = y) -> map f l ≡ₚ map f l' -> l ≡ₚ l'.
Proof.
  intros Hf Hp. apply Permutation_map_inv in Hp as (l'' & E & Hp). rewrite Hp. clear Hp.
  assert (l = l'') as ->; [|done].
  revert l'' E. induction l as [|x l IH]; intros [|y l''] E; try done. injection E as E1 E2.
  f_equal; [by apply Hf|by apply IH].
Qed.
