(* ===== verification/Observation.v ===== *)
(** What one reference is and what became of it:
    [crates/amiss-wire/src/resolution.rs] (the outcome of resolving a
    reference), the closed enumerations of [extraction.rs], [report] and
    [controls] an observation carries, and
    [crates/amiss-scan/src/correlate/model.rs] (observations, snapshot sides,
    comparison rows).

    A [RepoPath] is here the list of its bytes: [PartialEq], [Ord] and
    [Borrow<[u8]>] of the source's type are those of its bytes. *)
From Stdlib Require Import Strings.Byte Strings.String Lia.
From stdpp Require Import base list numbers.
From S2P Require Import Prelude Codec WireModel GitObject OrdMap.

Notation path := bytes.

#[export] Instance digest_eq_dec : EqDecision Digest.t := key_eq_dec.

(** ** Resolutions *)

Module BlobMode.
Inductive t := Regular | Executable.
#[global] Instance eq_dec : EqDecision t.
Proof. solve_decision. Defined.
End BlobMode.

Module BlobContent.
Inductive t :=
  | Available (raw_digest projection_digest : Digest.t)
  | LfsPointer (raw_digest : Digest.t).
#[global] Instance eq_dec : EqDecision t.
Proof. solve_decision. Defined.

Definition projection_digest (c : t) : option Digest.t :=
  match c with
  | Available _ projection_digest => Some projection_digest
  | LfsPointer _ => None
  end.

Definition is_lfs_pointer (c : t) : bool :=
  match c with LfsPointer _ => true | Available _ _ => false end.
End BlobContent.

Record BlobTarget (P : Type) := mkBlobTarget {
  bt_path : P;
  bt_mode : BlobMode.t;
  bt_content : BlobContent.t
}.
Arguments mkBlobTarget {P} _ _ _.
Arguments bt_path {P} _.
Arguments bt_mode {P} _.
Arguments bt_content {P} _.
#[export] Instance BlobTarget_eq_dec `{EqDecision P} : EqDecision (BlobTarget P).
Proof. solve_decision. Defined.

Module TaggedBlobTarget.
Inductive t (P : Type) := Blob (blob : BlobTarget P).
Arguments Blob {P} _.
#[global] Instance eq_dec `{EqDecision P} : EqDecision (t P).
Proof. solve_decision. Defined.
End TaggedBlobTarget.

Module Target.
Inductive t (P : Type) :=
  | Tree (path : P)
  | Blob (blob : BlobTarget P).
Arguments Tree {P} _.
Arguments Blob {P} _.
#[global] Instance eq_dec `{EqDecision P} : EqDecision (t P).
Proof. solve_decision. Defined.

Definition projection_digest {P} (target : t P) : option Digest.t :=
  match target with
  | Tree _ => None
  | Blob blob => BlobContent.projection_digest (bt_content blob)
  end.

Definition is_lfs_pointer {P} (target : t P) : bool :=
  match target with
  | Tree _ => false
  | Blob blob => BlobContent.is_lfs_pointer (bt_content blob)
  end.
End Target.

Module Missing.
Inductive t (P : Type) :=
  | PathNotFound (path : P) (near same_object_at : option P)
  | LineFragmentOutOfRange (path : P)
  | HeadingAnchorNotFound (path : P) (near : option bytes)
  | LabelNotDeclared
  | SelectionNotFound (path : P).
Arguments PathNotFound {P} _ _ _.
Arguments LineFragmentOutOfRange {P} _.
Arguments HeadingAnchorNotFound {P} _ _.
Arguments LabelNotDeclared {P}.
Arguments SelectionNotFound {P} _.
#[global] Instance eq_dec `{EqDecision P} : EqDecision (t P).
Proof. solve_decision. Defined.
End Missing.

Record DeclaredUntracked (P : Type) := mkDeclaredUntracked { du_path : P; declared_by : P }.
Arguments mkDeclaredUntracked {P} _ _.
Arguments du_path {P} _.
Arguments declared_by {P} _.
#[export] Instance DeclaredUntracked_eq_dec `{EqDecision P} : EqDecision (DeclaredUntracked P).
Proof. solve_decision. Defined.

Module UnsupportedTarget.
Inductive t (P : Type) := Symlink (path : P) | Gitlink (path : P).
Arguments Symlink {P} _.
Arguments Gitlink {P} _.
#[global] Instance eq_dec `{EqDecision P} : EqDecision (t P).
Proof. solve_decision. Defined.
End UnsupportedTarget.

Module UnsupportedSemantics.
Inductive t (P : Type) :=
  | Query (target : Target.t P)
  | Fragment (target : TaggedBlobTarget.t P)
  | CodeFragment (target : Target.t P)
  | SiteRoute
  | UnmodelledRoute
  | NetworkPath
  | AttributeDependent
  | DuplicateLabel
  | ExternalInventory
  | RepositoryRoot
  | OversizedDestination.
Arguments Query {P} _.
Arguments Fragment {P} _.
Arguments CodeFragment {P} _.
Arguments SiteRoute {P}.
Arguments UnmodelledRoute {P}.
Arguments NetworkPath {P}.
Arguments AttributeDependent {P}.
Arguments DuplicateLabel {P}.
Arguments ExternalInventory {P}.
Arguments RepositoryRoot {P}.
Arguments OversizedDestination {P}.
#[global] Instance eq_dec `{EqDecision P} : EqDecision (t P).
Proof. solve_decision. Defined.

Definition is_lfs_pointer {P} (s : t P) : bool :=
  match s with
  | Query target | CodeFragment target => Target.is_lfs_pointer target
  | Fragment (TaggedBlobTarget.Blob blob) => BlobContent.is_lfs_pointer (bt_content blob)
  | SiteRoute | UnmodelledRoute | NetworkPath | AttributeDependent | DuplicateLabel
  | ExternalInventory | RepositoryRoot | OversizedDestination => false
  end.
End UnsupportedSemantics.

Module VersionScope.
Inductive t (P : Type) :=
  | KnownPath (path : P)
  | KnownCommit (commit_oid : Oid.t) (path : P)
  | UnknownPath.
Arguments KnownPath {P} _.
Arguments KnownCommit {P} _ _.
Arguments UnknownPath {P}.
#[global] Instance eq_dec `{EqDecision P} : EqDecision (t P).
Proof. solve_decision. Defined.
End VersionScope.

Module InvalidReference.
Inductive t :=
  | Uri | PercentEncoding | DecodedPathControl | PathTraversal | BackslashSeparator
  | EncodedSlash | FragmentEncoding | Syntax.
#[global] Instance eq_dec : EqDecision t.
Proof. solve_decision. Defined.
End InvalidReference.

Module ExternalReference.
Inductive t := Url | ForeignRepository | IntersphinxInventory | SiteBuild.
#[global] Instance eq_dec : EqDecision t.
Proof. solve_decision. Defined.
End ExternalReference.

Module Resolution.
Inductive t (P : Type) :=
  | Resolved (target : Target.t P)
  | Missing (missing : Missing.t P)
  | DeclaredUntracked (declared : DeclaredUntracked P)
  | TypeMismatch (target : Target.t P)
  | UnsupportedTarget (target : UnsupportedTarget.t P)
  | UnsupportedSemantics (semantics : UnsupportedSemantics.t P)
  | UnsupportedVersion (scope : VersionScope.t P)
  | Invalid (reason : InvalidReference.t)
  | External (reason : ExternalReference.t).
Arguments Resolved {P} _.
Arguments Missing {P} _.
Arguments DeclaredUntracked {P} _.
Arguments TypeMismatch {P} _.
Arguments UnsupportedTarget {P} _.
Arguments UnsupportedSemantics {P} _.
Arguments UnsupportedVersion {P} _.
Arguments Invalid {P} _.
Arguments External {P} _.
#[global] Instance eq_dec `{EqDecision P} : EqDecision (t P).
Proof. solve_decision. Defined.

Definition is_lfs_pointer {P} (r : t P) : bool :=
  match r with
  | Resolved target | TypeMismatch target => Target.is_lfs_pointer target
  | UnsupportedSemantics semantics => UnsupportedSemantics.is_lfs_pointer semantics
  | Missing _ | DeclaredUntracked _ | UnsupportedTarget _ | UnsupportedVersion _ | Invalid _
  | External _ => false
  end.
End Resolution.

(** ** Closed enumerations of an observation *)

Module Adapter.
Inductive t := AsciiDoc | Markdown | Mdx | PlainAdvisory | Rst.
#[global] Instance eq_dec : EqDecision t.
Proof. solve_decision. Defined.

(** The discriminant the derived order compares. *)
Definition discriminant (a : t) : Z :=
  match a with AsciiDoc => 0 | Markdown => 1 | Mdx => 2 | PlainAdvisory => 3 | Rst => 4 end.
Lemma adapter_discriminant_inj a b : discriminant a = discriminant b -> a = b.
Proof. by destruct a, b. Qed.
End Adapter.

Module SourceConstruct.
Inductive t :=
  | InlineLink | FullReferenceLink | CollapsedReferenceLink | ShortcutReferenceLink | Autolink
  | InlineImage | FullReferenceImage | CollapsedReferenceImage | ShortcutReferenceImage
  | AsciidocCrossReference | AsciidocInternalCrossReference | AsciidocLinkMacro
  | AsciidocBlockImage | AsciidocInlineImage | AsciidocInclude | AsciidocUrl
  | RstInlineHyperlink | RstNamedTarget | RstImageDirective | RstIncludeDirective
  | RstFileOption | RstDocRole | RstRefRole | RstTocTreeEntry | RstDownloadRole
  | RstNumrefRole | RstTermRole | RstTargetOption | LinkReferenceDefinition | MdbookInclude
  | MkdocsSnippet | MarkdownLiquidLink | MarkdownLiquidUrl | MarkdownHugoRef
  | MarkdownUndefinedReference | MarkdownUndefinedImageReference | MarkdownAgentImport
  | HtmlAnchor | HtmlImage.
#[global] Instance eq_dec : EqDecision t.
Proof. solve_decision. Defined.

Definition all : list t := [
  InlineLink; FullReferenceLink; CollapsedReferenceLink; ShortcutReferenceLink; Autolink;
  InlineImage; FullReferenceImage; CollapsedReferenceImage; ShortcutReferenceImage;
  AsciidocCrossReference; AsciidocInternalCrossReference; AsciidocLinkMacro;
  AsciidocBlockImage; AsciidocInlineImage; AsciidocInclude; AsciidocUrl;
  RstInlineHyperlink; RstNamedTarget; RstImageDirective; RstIncludeDirective;
  RstFileOption; RstDocRole; RstRefRole; RstTocTreeEntry; RstDownloadRole;
  RstNumrefRole; RstTermRole; RstTargetOption; LinkReferenceDefinition; MdbookInclude;
  MkdocsSnippet; MarkdownLiquidLink; MarkdownLiquidUrl; MarkdownHugoRef;
  MarkdownUndefinedReference; MarkdownUndefinedImageReference; MarkdownAgentImport;
  HtmlAnchor; HtmlImage].
Fixpoint position (c : t) (l : list t) : Z :=
  match l with
  | [] => 0
  | c' :: l => if decide (c = c') then 0 else 1 + position c l
  end.
Definition discriminant (c : t) : Z := position c all.

Definition at_discriminant (n : Z) : option t := all !! Z.to_nat n.
Lemma construct_discriminant_inj a b : discriminant a = discriminant b -> a = b.
Proof.
  intros E. assert (at_discriminant (discriminant a) = Some a) as Ha by (by destruct a; vm_compute).
  assert (at_discriminant (discriminant b) = Some b) as Hb by (by destruct b; vm_compute).
  congruence.
Qed.
End SourceConstruct.

Module BlockKind.
Inductive t := Paragraph | ListItem | TableCell | DocumentRoot.
End BlockKind.

Module IntentKind.
Inductive t :=
  | RepositoryPath | SameRepositoryGithub | SameRepositoryGitlab | SameRepositoryGitea
  | SameRepositoryBitbucketCloud | SameRepositoryBitbucketDataCenter | ExternalUrl
  | SiteRoute | Label | Unsupported.
#[global] Instance eq_dec : EqDecision t.
Proof. solve_decision. Defined.

Definition discriminant (k : t) : Z :=
  match k with
  | RepositoryPath => 0 | SameRepositoryGithub => 1 | SameRepositoryGitlab => 2
  | SameRepositoryGitea => 3 | SameRepositoryBitbucketCloud => 4
  | SameRepositoryBitbucketDataCenter => 5 | ExternalUrl => 6 | SiteRoute => 7 | Label => 8
  | Unsupported => 9
  end.
Lemma intent_kind_discriminant_inj a b : discriminant a = discriminant b -> a = b.
Proof. by destruct a, b. Qed.
End IntentKind.

Module TargetKind.
Inductive t := Blob | Tree | Either.
#[global] Instance eq_dec : EqDecision t.
Proof. solve_decision. Defined.

Definition discriminant (k : t) : Z := match k with Blob => 0 | Tree => 1 | Either => 2 end.
Lemma target_kind_discriminant_inj a b : discriminant a = discriminant b -> a = b.
Proof. by destruct a, b. Qed.
End TargetKind.

(** The derived orders of the remaining key parts. *)
Definition mode_discriminant (m : GitMode) : Z :=
  match m with
  | RegularFile => 0 | ExecutableFile => 1 | WireModel.Tree => 2 | Symlink => 3 | Gitlink => 4
  end.
#[export] Instance mode_ord : Ord GitMode := fun a b => cmp (mode_discriminant a) (mode_discriminant b).
#[export] Instance mode_ord_laws : OrdLaws GitMode.
Proof. apply (ord_by_laws mode_discriminant). by intros [] []. Qed.

Definition format_discriminant (f : ObjectFormat) : Z := match f with Sha1 => 0 | Sha256 => 1 end.
Definition oid_code (o : Oid.t) : Z * bytes :=
  (format_discriminant (Oid.object_format o), Oid.raw o).
#[export] Instance oid_ord : Ord Oid.t := fun a b => cmp (oid_code a) (oid_code b).
#[export] Instance oid_ord_laws : OrdLaws Oid.t.
Proof. apply (ord_by_laws oid_code). by intros [[] ?] [[] ?] [= ->]. Qed.

(** ** Observations and comparison rows *)

Record Intent := mkIntent {
  i_kind : IntentKind.t;
  i_commit_oid : option Oid.t;
  i_repository_path : option path;
  i_target_kind : option TargetKind.t;
  i_external_scheme : option bytes;
  i_query : option bytes;
  i_fragment : option bytes
}.

Record SpanDisplay := mkSpanDisplay {
  start_line : u64; start_column : u64; end_line : u64; end_column : u64
}.

Record Observation := mkObservation {
  o_id : Digest.t;
  o_adapter_contract_digest : Digest.t;
  o_document : path;
  o_span : usize * usize;
  o_display : SpanDisplay;
  o_block_kind : BlockKind.t;
  o_node_path : list usize;
  o_adapter : Adapter.t;
  o_construct : SourceConstruct.t;
  o_intent : Intent;
  o_external_destination : option bytes;
  o_raw_destination : bytes;
  o_raw_destination_digest : Digest.t;
  o_projection_digest : Digest.t;
  o_resolution : Resolution.t path;
  o_fragment_span : option (usize * usize);
  o_path_span : option (usize * usize)
}.

Record Side := mkSide {
  s_observations : list Observation;
  s_documents : bt path (GitMode * Digest.t)
}.

Module Outcome.
Inductive t := Ambiguous | Candidate | Exact | None.
#[global] Instance eq_dec : EqDecision t.
Proof. solve_decision. Defined.
End Outcome.

Module Reason.
Inductive t :=
  | ExactDocumentRenameUnchangedProjection | MultipleCounterparts | NewObservation
  | RemovedObservation | SameExtractionKeyAndProjection | SameIntentSourceChanged
  | SameIntentUnchangedProjection.
#[global] Instance eq_dec : EqDecision t.
Proof. solve_decision. Defined.
End Reason.

Module SourceChange.
Inductive t := Added | Changed | Equal | Removed | Unknown.
#[global] Instance eq_dec : EqDecision t.
Proof. solve_decision. Defined.
End SourceChange.

Module TargetChange.
Inductive t := BecameMissing | Changed | Equal | NewlyResolved | NotComparable.
#[global] Instance eq_dec : EqDecision t.
Proof. solve_decision. Defined.
End TargetChange.

Module Impact.
Inductive t :=
  | DependencyAndSubjectCochanged | DependencyChangedSubjectUnchanged | NewObservation | None
  | NotApplicable | ObservationCorrelationAmbiguous | ReferenceResolved | RemovedObservation
  | SubjectChanged.
#[global] Instance eq_dec : EqDecision t.
Proof. solve_decision. Defined.
End Impact.

Record Comparison := mkComparison {
  cm_outcome : Outcome.t;
  cm_reason : Reason.t;
  cm_source_change : SourceChange.t;
  cm_base : option Observation;
  cm_candidate : option Observation;
  cm_alternatives_base : list Observation;
  cm_alternatives_candidate : list Observation;
  cm_target_change : TargetChange.t;
  cm_impact : Impact.t
}.

(** ** The scanner's errors *)

Module Fault.
Inductive t := DocumentInvalid | DocumentUnparsable | ParserError | ParserPanic | InvalidSourceSpan.
End Fault.

Module GitDefect.
Inductive t :=
  | ObjectMissing | ObjectWrongKind | ObjectUnreadable | IndexInvalid | IndexFormatUnsupported
  | IndexUnmerged | IntentToAdd | SnapshotChanged.
End GitDefect.

Module ScanError.
Inductive t :=
  | Parse (fault : Fault.t)
  | Git (defect : GitDefect.t)
  | UnrepresentablePath
  | Internal
  | ResourceLimit (resource : ResourceName) (configured_limit observed_lower_bound : u64).

(** [From<amiss_git::Error>]. *)
Definition from_git (defect : GitError.t) : t :=
  match defect with
  | GitError.ObjectMissing => Git GitDefect.ObjectMissing
  | GitError.ObjectWrongKind => Git GitDefect.ObjectWrongKind
  | GitError.ObjectUnreadable => Git GitDefect.ObjectUnreadable
  | GitError.IndexInvalid => Git GitDefect.IndexInvalid
  | GitError.IndexFormatUnsupported => Git GitDefect.IndexFormatUnsupported
  | GitError.IndexUnmerged => Git GitDefect.IndexUnmerged
  | GitError.IntentToAdd => Git GitDefect.IntentToAdd
  | GitError.SnapshotChanged => Git GitDefect.SnapshotChanged
  | GitError.ResourceLimit resource limit observed => ResourceLimit resource limit observed
  end.
End ScanError.
