(* ===== verification/Forest.v ===== *)
(** The union-find of [crates/amiss-scan/src/correlate/components.rs]
    ([ComponentForest]): identities in byte order, a parent position per
    identity, path halving on every lookup and union by smaller position.

    The abstract view is an equivalence: [represents f E] says that two
    identities have the same root exactly when they are connected by the edges
    [E]. Lookups keep it, [union] adds one edge to it, and a root is always the
    smallest position of its class. *)
From Stdlib Require Import Strings.Byte Strings.String Lia Sorting.Sorted.
From stdpp Require Import base list numbers sorting relations.
From S2P Require Import Prelude Codec WireModel OrdMap Observation.

Module ComponentForest.
Record t := mk { identities : list Digest.t; parents : list nat }.

(** [self.parents.get_mut(position).ok_or(Internal)? = parent]. *)
Definition set_parent (position parent : nat) : sres t unit ScanError.t :=
  let! f := sget in
  let! _ := slift (ok_or (parents f !! position) ScanError.Internal) in
  sput (mk (identities f) (<[position := parent]> (parents f))).

Definition parent_of (position : nat) : sres t nat ScanError.t :=
  let! f := sget in slift (ok_or (parents f !! position) ScanError.Internal).

Fixpoint root_loop (fuel : nat) (position : nat) : sres t nat ScanError.t :=
  match fuel with
  | O => slift OutOfFuel
  | S fuel =>
      let! parent := parent_of position in
      let! grandparent := parent_of parent in
      if (parent =? grandparent)%nat then sret parent
      else
        let! _ := set_parent position grandparent in
        root_loop fuel parent
  end.

(** A parent is never above its child, so a walk takes at most as many steps
    as there are positions. *)
Definition root_position (identity : Digest.t) : sres t nat ScanError.t :=
  let! f := sget in
  let! position :=
    slift (ok_or (binary_search_by (fun x => cmp x identity) (identities f)) ScanError.Internal) in
  root_loop (length (parents f)) position.

Definition union (left right : Digest.t) : sres t unit ScanError.t :=
  let! left_root := root_position left in
  let! right_root := root_position right in
  if (left_root =? right_root)%nat then sret tt
  else
    let '(root, child) :=
      if (left_root <? right_root)%nat then (left_root, right_root) else (right_root, left_root) in
    set_parent child root.

(** [(0..identities.len()).collect()]. *)
Definition singletons (identities : list Digest.t) : t :=
  mk identities (seq 0 (length identities)).
End ComponentForest.
Import ComponentForest.

(** ** Roots *)

(** [rooted ps i r]: following parents from [i] ends in the root [r]. *)
Inductive rooted (ps : list nat) : nat -> nat -> Prop :=
  | rooted_self i : ps !! i = Some i -> rooted ps i i
  | rooted_step i p r : ps !! i = Some p -> p <> i -> rooted ps p r -> rooted ps i r.

Definition descending (ps : list nat) : Prop := forall i p, ps !! i = Some p -> (p <= i)%nat.

Lemma rooted_det ps i r r' : rooted ps i r -> rooted ps i r' -> r = r'.
Proof.
  intros H. revert r'. induction H as [i Hi|i p r Hi Hne _ IH]; intros r' H'; destruct H'; simplify_eq; auto.
Qed.

Lemma rooted_le ps i r : descending ps -> rooted ps i r -> (r <= i)%nat.
Proof. intros Hd. induction 1 as [|i p r Hi Hne _ IH]; [lia|]. specialize (Hd _ _ Hi). lia. Qed.

Lemma rooted_root ps i r : rooted ps i r -> ps !! r = Some r.
Proof. by induction 1. Qed.

Lemma rooted_total ps i : descending ps -> (i < length ps)%nat -> exists r, rooted ps i r.
Proof.
  intros Hd. induction (lt_wf i) as [i _ IH]. intros Hi.
  destruct (lookup_lt_is_Some_2 ps i Hi) as [p Hp]. specialize (Hd _ _ Hp) as Hle.
  destruct (decide (p = i)) as [->|Hne]; [exists i; by constructor|].
  destruct (IH p) as [r Hr]; [lia|lia|]. exists r. by eapply rooted_step.
Qed.

Lemma rooted_in ps i r : rooted ps i r -> (i < length ps)%nat.
Proof. intros H. destruct H as [i Hi|i p r Hi _ _]; by apply lookup_lt_Some in Hi. Qed.

(** Two tables with the same length of which one's roots are the other's. *)
Lemma rooted_equiv ps ps' :
  descending ps -> length ps' = length ps ->
  (forall i r, rooted ps i r -> rooted ps' i r) -> forall i r, rooted ps i r <-> rooted ps' i r.
Proof.
  intros Hd Hl Hi i r. split; [auto|]. intros Hr.
  destruct (rooted_total ps i Hd) as [s Hs]; [apply rooted_in in Hr; lia|].
  by rewrite (rooted_det _ _ _ _ Hr (Hi _ _ Hs)).
Qed.

Lemma halving_roots ps i p g :
  descending ps -> ps !! i = Some p -> ps !! p = Some g -> p <> g ->
  descending (<[i := g]> ps) /\ (forall j r, rooted ps j r <-> rooted (<[i := g]> ps) j r).
Proof.
  intros Hd Hi Hp Hne. pose proof (Hd _ _ Hi) as Hpi. pose proof (Hd _ _ Hp) as Hgp.
  assert (p <> i) as Hpni by (intros ->; congruence).
  pose proof (lookup_lt_Some _ _ _ Hi) as Hlt.
  split.
  { intros j q. destruct (decide (i = j)) as [<-|Hj].
    - rewrite list_lookup_insert_eq by done. intros [= <-]. lia.
    - rewrite list_lookup_insert_ne by done. apply Hd. }
  apply rooted_equiv; [done|by rewrite length_insert|].
  intros j r. induction 1 as [j Hj|j q r Hj Hq Hr IH].
  - apply rooted_self. rewrite list_lookup_insert_ne; [done|]. intros <-. congruence.
  - destruct (decide (i = j)) as [<-|Hij].
    + simplify_eq. apply (rooted_step _ _ g); [by rewrite list_lookup_insert_eq|lia|].
      inversion IH as [? H1|? q' ? H1 H2 H3]; subst.
      all: rewrite list_lookup_insert_ne in H1 by done; simplify_eq; done.
    + apply (rooted_step _ _ q); [by rewrite list_lookup_insert_ne|done|done].
Qed.

Lemma link_roots ps root child :
  descending ps -> ps !! root = Some root -> ps !! child = Some child -> (root < child)%nat ->
  descending (<[child := root]> ps) /\
  (forall j r, rooted ps j r -> rooted (<[child := root]> ps) j (if decide (r = child) then root else r)).
Proof.
  intros Hd Hr Hc Hlt. pose proof (lookup_lt_Some _ _ _ Hc) as Hl. split.
  { intros j q. destruct (decide (child = j)) as [<-|Hj].
    - rewrite list_lookup_insert_eq by done. intros [= <-]. lia.
    - rewrite list_lookup_insert_ne by done. apply Hd. }
  assert (rooted (<[child := root]> ps) root root) as Hroot.
  { apply rooted_self. rewrite list_lookup_insert_ne; [done|lia]. }
  intros j r. induction 1 as [j Hj|j q r Hj Hq _ IH].
  - destruct (decide (j = child)) as [->|Hne].
    + apply (rooted_step _ _ root); [by rewrite list_lookup_insert_eq|lia|done].
    + apply rooted_self. by rewrite list_lookup_insert_ne.
  - apply (rooted_step _ _ q); [|done|done]. rewrite list_lookup_insert_ne; [done|]. intros <-. congruence.
Qed.

(** ** The forest as an equivalence *)

Definition forest_wf (f : t) : Prop :=
  StronglySorted klt (identities f) /\ length (parents f) = length (identities f) /\ descending (parents f).

Definition root_of (f : t) (id : Digest.t) (r : nat) : Prop :=
  exists i, identities f !! i = Some id /\ rooted (parents f) i r.

(** What a lookup leaves: other parents, the same roots. *)
Definition same_forest (f f' : t) : Prop :=
  identities f' = identities f /\ length (parents f') = length (parents f) /\
  descending (parents f') /\ (forall i r, rooted (parents f) i r <-> rooted (parents f') i r).

Definition represents (f : t) (E : relation Digest.t) : Prop :=
  forall a b, a ∈ identities f -> b ∈ identities f ->
    (exists r, root_of f a r /\ root_of f b r) <-> rtsc E a b.

Lemma same_forest_trans f g h : same_forest f g -> same_forest g h -> same_forest f h.
Proof.
  intros (I1 & L1 & D1 & R1) (I2 & L2 & D2 & R2). split_and!; [congruence|congruence|done|].
  intros i r. by rewrite R1, R2.
Qed.

Lemma same_forest_refl f : descending (parents f) -> same_forest f f.
Proof. by intros Hd. Qed.

Lemma same_forest_wf f g : forest_wf f -> same_forest f g -> forest_wf g.
Proof. intros (Hs & Hl & Hd) (Hi & Hl' & Hd' & _). split_and!; [by rewrite Hi|congruence|done]. Qed.

Lemma same_forest_root f g id r : same_forest f g -> root_of f id r <-> root_of g id r.
Proof. intros (Hi & _ & _ & Hr). unfold root_of. rewrite Hi. by setoid_rewrite Hr. Qed.

Lemma same_forest_represents f g E : same_forest f g -> represents f E -> represents g E.
Proof.
  intros Hs Hr a b Ha Hb. pose proof Hs as (Hi & _). rewrite Hi in Ha, Hb.
  specialize (Hr a b Ha Hb). rewrite <- Hr. by setoid_rewrite <- (same_forest_root f g _ _ Hs).
Qed.

Lemma root_of_det f id r r' : forest_wf f -> root_of f id r -> root_of f id r' -> r = r'.
Proof.
  intros (Hs & _ & _) (i & Hi & Hr) (j & Hj & Hr').
  assert (i = j) as ->; [|by eapply rooted_det].
  destruct (lt_eq_lt_dec i j) as [[Hlt|]|Hlt]; [|done|].
  - exfalso. by apply (irreflexivity klt id), (StronglySorted_lookup _ _ _ _ _ _ Hs Hlt).
  - exfalso. by apply (irreflexivity klt id), (StronglySorted_lookup _ _ _ _ _ _ Hs Hlt).
Qed.

Lemma root_of_total f id : forest_wf f -> id ∈ identities f -> exists r, root_of f id r.
Proof.
  intros (_ & Hl & Hd) [i Hi]%list_elem_of_lookup.
  destruct (rooted_total (parents f) i Hd) as [r Hr]; [apply lookup_lt_Some in Hi; lia|].
  exists r, i. done.
Qed.

Lemma root_loop_spec fuel position f :
  descending (parents f) -> (position < length (parents f))%nat -> (position < fuel)%nat ->
  exists r f', root_loop fuel position f = (Ok r, f') /\ same_forest f f' /\ rooted (parents f) position r.
Proof.
  revert position f. induction fuel as [|fuel IH]; intros position f Hd Hp Hf; [lia|].
  destruct (lookup_lt_is_Some_2 _ _ Hp) as [p Ep]. pose proof (Hd _ _ Ep).
  destruct (lookup_lt_is_Some_2 (parents f) p) as [g Eg]; [lia|]. pose proof (Hd _ _ Eg).
  cbn [root_loop]. unfold parent_of, set_parent, sbind, sget, slift, sret, sput.
  rewrite Ep. cbn [ok_or]. rewrite Eg. cbn [ok_or].
  destruct (Nat.eqb_spec p g) as [<-|Hne].
  - exists p, f. split_and!; [done|by apply same_forest_refl|].
    destruct (decide (p = position)) as [->|]; [by constructor|].
    apply (rooted_step _ _ p); [done|done|by constructor].
  - rewrite Ep. cbn [ok_or]. destruct (halving_roots _ _ _ _ Hd Ep Eg Hne) as [Hd' Hr].
    assert (p <> position) by (intros ->; congruence).
    destruct (IH p (mk (identities f) (<[position := g]> (parents f)))) as (r & f' & E & Hs & Hroot).
    + done.
    + cbn [parents]. rewrite length_insert. lia.
    + lia.
    + exists r, f'. split_and!; [done| |].
      * eapply same_forest_trans; [|exact Hs]. split_and!; [done|by cbn; rewrite length_insert|done|done].
      * apply (rooted_step _ _ p); [done|done|]. by apply Hr.
Qed.

Lemma root_position_spec f id :
  forest_wf f -> id ∈ identities f ->
  exists r f', root_position id f = (Ok r, f') /\ same_forest f f' /\ root_of f id r.
Proof.
  intros (Hs & Hl & Hd) Hid.
  assert (StronglySorted (fun a b => bytes_lt (Digest.as_bytes a) (Digest.as_bytes b)) (identities f)) as Hs'
    by exact Hs.
  destruct (proj2 (binary_search_sorted _ _ (Digest.as_bytes id) Hs')) as [i Hi]; [by exists id|].
  destruct (binary_search_by_sound _ _ _ Hi) as (x & Hx & Hc).
  apply bytes_cmp_eq, Digest.eq in Hc as ->. pose proof (lookup_lt_Some _ _ _ Hx).
  destruct (root_loop_spec (length (parents f)) i f) as (r & f' & E & Hsame & Hr); [done|lia|lia|].
  exists r, f'. split_and!; [|done|by exists i].
  unfold root_position, sbind, sget, slift, cmp, digest_ord, cmp, bytes_ord. rewrite Hi. cbn [ok_or]. exact E.
Qed.

(** *** One more edge *)

Definition add_edge (a b : Digest.t) (E : relation Digest.t) : relation Digest.t :=
  fun x y => E x y \/ (x = a /\ y = b).

Lemma rtsc_mono {A} (R R' : relation A) x y : (forall a b, R a b -> R' a b) -> rtsc R x y -> rtsc R' x y.
Proof. intros Hm. apply rtc_congruence with (f := id). intros a b [H|H]; [left|right]; auto. Qed.

Lemma rtsc_flip {A} (R : relation A) x y : rtsc R x y -> rtsc R y x.
Proof. intros H. by symmetry. Qed.

Lemma rtsc_add_edge (E : relation Digest.t) a b x y :
  rtsc (add_edge a b E) x y <->
  rtsc E x y \/ (rtsc E x a /\ rtsc E b y) \/ (rtsc E x b /\ rtsc E a y).
Proof.
  assert (rtsc (add_edge a b E) a b) as Hab by (apply rtsc_lr; by right).
  assert (forall u v, rtsc E u v -> rtsc (add_edge a b E) u v) as Hm.
  { intros u v. apply rtsc_mono. by left. }
  split.
  - induction 1 as [x|x y z Hxy _ IH]; [by left|].
    destruct Hxy as [[Hxy|[-> ->]]|[Hxy|[-> ->]]].
    + assert (rtsc E x y) by (by apply rtsc_lr). destruct IH as [IH|[[? ?]|[? ?]]].
      * left. by trans y.
      * right; left. split; [by trans y|done].
      * right; right. split; [by trans y|done].
    + destruct IH as [IH|[[? ?]|[? ?]]].
      * right; left. done.
      * right; left. done.
      * left. done.
    + assert (rtsc E x y) by (by apply rtsc_rl). destruct IH as [IH|[[? ?]|[? ?]]].
      * left. by trans y.
      * right; left. split; [by trans y|done].
      * right; right. split; [by trans y|done].
    + destruct IH as [IH|[[? ?]|[? ?]]].
      * right; right. done.
      * left. done.
      * right; right. done.
  - intros [H|[[H1 H2]|[H1 H2]]].
    + auto.
    + trans a; [auto|]. trans b; [done|auto].
    + trans b; [auto|]. trans a; [by apply rtsc_flip|auto].
Qed.

Lemma union_spec f E a b :
  forest_wf f -> represents f E -> a ∈ identities f -> b ∈ identities f ->
  exists f', union a b f = (Ok tt, f') /\ forest_wf f' /\ identities f' = identities f /\
    represents f' (add_edge a b E).
Proof.
  intros Hwf Hrep Ha Hb.
  destruct (root_position_spec f a Hwf Ha) as (ra & f1 & E1 & S1 & R1).
  pose proof (same_forest_wf _ _ Hwf S1) as Hwf1.
  assert (b ∈ identities f1) as Hb1 by (by rewrite (proj1 S1)).
  destruct (root_position_spec f1 b Hwf1 Hb1) as (rb & f2 & E2 & S2 & R2).
  pose proof (same_forest_trans _ _ _ S1 S2) as S12.
  pose proof (same_forest_wf _ _ Hwf S12) as Hwf2.
  pose proof (same_forest_represents _ _ _ S12 Hrep) as Hrep2.
  apply (same_forest_root _ _ _ _ S12) in R1. apply (same_forest_root _ _ _ _ S2) in R2.
  assert (identities f2 = identities f) as Hi by apply S12.
  unfold union, sbind. rewrite E1, E2.
  destruct (Nat.eqb_spec ra rb) as [<-|Hne].
  - exists f2. split_and!; [done|done|done|]. intros x y Hx Hy.
    rewrite rtsc_add_edge. specialize (Hrep2 x y Hx Hy) as Hxy. rewrite Hxy.
    rewrite Hi in Hx, Hy. split; [by left|].
    assert (rtsc E a b) as Hab by (apply Hrep2; [by rewrite Hi|by rewrite Hi|eauto]).
    intros [H|[[H1 H2]|[H1 H2]]]; [done| |].
    + trans a; [done|]. by trans b.
    + trans b; [done|]. trans a; [by apply rtsc_flip|done].
  - set (root := Nat.min ra rb). set (child := Nat.max ra rb).
    replace (if (ra <? rb)%nat then (ra, rb) else (rb, ra)) with (root, child).
    2:{ unfold root, child. destruct (Nat.ltb_spec ra rb); f_equal; lia. }
    destruct R1 as (ia & Ia & R1), R2 as (ib & Ib & R2).
    pose proof Hwf2 as (Hso & Hle & Hde).
    assert (parents f2 !! root = Some root) as Hroot.
    { unfold root. destruct (Nat.min_dec ra rb) as [->| ->]; by eapply rooted_root. }
    assert (parents f2 !! child = Some child) as Hchild.
    { unfold child. destruct (Nat.max_dec ra rb) as [->| ->]; by eapply rooted_root. }
    destruct (link_roots (parents f2) root child Hde Hroot Hchild ltac:(lia)) as [Hde' Hlink].
    unfold set_parent, sbind, sget, slift, sput. rewrite Hchild. cbn [ok_or].
    eexists. split; [reflexivity|]. set (f' := mk _ _).
    assert (forall x r, root_of f2 x r -> root_of f' x (if decide (r = child) then root else r)) as Hto.
    { intros x r (i & Hx & Hr). exists i. split; [done|]. by apply Hlink. }
    assert (forest_wf f') as Hwf'.
    { split_and!; [done|cbn; by rewrite length_insert|done]. }
    split_and!; [done|done|].
    intros x y Hx Hy. cbn [identities f'] in Hx, Hy.
    destruct (root_of_total f2 x Hwf2 Hx) as [rx Rx], (root_of_total f2 y Hwf2 Hy) as [ry Ry].
    assert (forall u v ru rv, u ∈ identities f2 -> v ∈ identities f2 -> root_of f2 u ru -> root_of f2 v rv ->
      rtsc E u v <-> ru = rv) as Hconn.
    { intros u v ru rv Hu Hv Ru Rv. specialize (Hrep2 u v Hu Hv) as Huv. rewrite <- Huv. split.
      - intros (r & H1 & H2). by rewrite (root_of_det f2 u ru r), (root_of_det f2 v rv r).
      - intros <-. eauto. }
    rewrite <- Hi in Ha, Hb.
    assert (root_of f2 a ra) as Ra by (by exists ia). assert (root_of f2 b rb) as Rb by (by exists ib).
    rewrite rtsc_add_edge, (Hconn x y rx ry), (Hconn x a rx ra), (Hconn b y rb ry),
      (Hconn x b rx rb), (Hconn a y ra ry) by done.
    transitivity ((if decide (rx = child) then root else rx) = (if decide (ry = child) then root else ry)).
    + split.
      * intros (r & H1 & H2).
        by rewrite (root_of_det f' x _ r Hwf' (Hto _ _ Rx) H1), (root_of_det f' y _ r Hwf' (Hto _ _ Ry) H2).
      * intros Heq. eexists. split; [by apply Hto|]. rewrite Heq. by apply Hto.
    + unfold root, child in *. repeat case_decide; lia.
Qed.

Lemma represents_ext f E E' :
  (forall x y, x ∈ identities f -> y ∈ identities f -> rtsc E x y <-> rtsc E' x y) ->
  represents f E -> represents f E'.
Proof. intros Heq Hr x y Hx Hy. specialize (Hr x y Hx Hy) as H. by rewrite H, Heq. Qed.

(** The edges a loop of unions inserts. *)
Lemma unions_spec {A} (g h : A -> Digest.t) (l : list A) f E :
  forest_wf f -> represents f E ->
  Forall (fun x => g x ∈ identities f /\ h x ∈ identities f) l ->
  exists f', siter (fun x => union (g x) (h x)) l f = (Ok tt, f') /\ forest_wf f' /\
    identities f' = identities f /\
    represents f' (fun a b => E a b \/ exists x, x ∈ l /\ a = g x /\ b = h x).
Proof.
  revert f E. induction l as [|x l IH]; intros f E Hwf Hrep Hf; cbn [siter].
  - exists f. split_and!; [done|done|done|]. apply (represents_ext _ E); [|done].
    intros a b _ _. split; apply rtsc_mono; [by left|].
    intros u v [H|(z & Hz & _)]; [done|by apply elem_of_nil in Hz].
  - apply Forall_cons_iff in Hf as [[Hg Hh] Hf].
    destruct (union_spec f E _ _ Hwf Hrep Hg Hh) as (f1 & E1 & W1 & I1 & R1).
    destruct (IH f1 _ W1 R1) as (f2 & E2 & W2 & I2 & R2); [by rewrite I1|].
    exists f2. split_and!; [|done|congruence|].
    { unfold sbind. by rewrite E1. }
    eapply represents_ext; [|exact R2].
    intros a b _ _. split; apply rtsc_mono; intros u v; unfold add_edge; setoid_rewrite elem_of_cons; naive_solver.
Qed.

Lemma singletons_wf ids : StronglySorted klt ids -> forest_wf (singletons ids).
Proof.
  intros Hs. split_and!; [done|cbn; by rewrite length_seq|]. intros i p Hp. cbn in Hp.
  apply lookup_seq in Hp. lia.
Qed.

Lemma singletons_represents ids : StronglySorted klt ids -> represents (singletons ids) (fun _ _ => False).
Proof.
  intros Hs a b Ha Hb.
  assert (forall i x, ids !! i = Some x -> rooted (seq 0 (length ids)) i i) as Hself.
  { intros i x Hi. constructor. apply lookup_seq. apply lookup_lt_Some in Hi. lia. }
  split.
  - intros (r & (i & Hi & Ri) & (j & Hj & Rj)). cbn in *.
    rewrite (rooted_det _ _ _ _ Ri (Hself _ _ Hi)) in Rj.
    rewrite (rooted_det _ _ _ _ Rj (Hself _ _ Hj)) in Hi. by simplify_eq.
  - intros H. assert (a = b) as <-.
    { induction H as [|x y z [[]|[]] _ _]; done. }
    apply list_elem_of_lookup in Ha as [i Hi]. exists i. split; exists i; eauto.
Qed.

(** A root is the position of the smallest identity of its class. *)
Lemma root_of_least f E id r :
  forest_wf f -> represents f E -> root_of f id r ->
  exists least, identities f !! r = Some least /\ rtsc E id least /\
    forall x, x ∈ identities f -> rtsc E id x -> kle least x.
Proof.
  intros Hwf Hrep (i & Hi & Hr). pose proof Hwf as (Hs & Hl & Hd).
  pose proof (rooted_root _ _ _ Hr) as Hrr.
  destruct (lookup_lt_is_Some_2 (identities f) r) as [least Hleast].
  { apply lookup_lt_Some in Hrr. lia. }
  assert (root_of f least r) as Rl by (exists r; split; [done|by constructor]).
  assert (id ∈ identities f) as Hid by (by eapply list_elem_of_lookup_2).
  assert (least ∈ identities f) as Hle by (by eapply list_elem_of_lookup_2).
  exists least. split_and!; [done| |].
  - apply Hrep; [done|done|]. exists r. split; [by exists i|done].
  - intros x Hx (r' & Rid & Rx)%Hrep; [|done|done].
    rewrite (root_of_det f id r' r Hwf Rid) in Rx by (by exists i).
    destruct Rx as (j & Hj & Rj). pose proof (rooted_le _ _ _ Hd Rj). apply kle_lt.
    destruct (decide (r = j)) as [<-|Hne]; [right; congruence|left].
    apply (StronglySorted_lookup _ _ r j _ _ Hs); [lia|done|done].
Qed.

(** ** What the forest promises *)

(** [ComponentForest] computes connectivity. After any sequence of unions
    over known identities, every call having succeeded, two lookups (each of
    which rewrites parents by path halving) return the same position exactly
    when the identities are connected by the united pairs, and that position
    is the one of the smallest identity connected to them. *)
Theorem forest_connectivity ids edges a b :
  StronglySorted klt ids ->
  Forall (fun e => e.1 ∈ ids /\ e.2 ∈ ids) edges ->
  a ∈ ids -> b ∈ ids ->
  exists f ra rb f1 f2 least,
    siter (fun e => union e.1 e.2) edges (singletons ids) = (Ok tt, f) /\
    root_position a f = (Ok ra, f1) /\ root_position b f1 = (Ok rb, f2) /\
    (ra = rb <-> rtsc (fun x y => (x, y) ∈ edges) a b) /\
    ids !! ra = Some least /\ rtsc (fun x y => (x, y) ∈ edges) a least /\
    (forall x, x ∈ ids -> rtsc (fun x y => (x, y) ∈ edges) a x -> kle least x).
Proof.
  intros Hs He Ha Hb.
  destruct (unions_spec fst snd edges _ _ (singletons_wf ids Hs) (singletons_represents ids Hs) He)
    as (f & E & W & I & R).
  apply (represents_ext _ _ (fun x y => (x, y) ∈ edges)) in R.
  2:{ intros x y _ _. split; apply rtsc_mono; intros u v; [|by right; exists (u, v)].
      by intros [[]|([? ?] & Hin & -> & ->)]. }
  cbn [identities singletons] in I.
  destruct (root_position_spec f a W) as (ra & f1 & E1 & S1 & R1); [by rewrite I|].
  destruct (root_position_spec f1 b) as (rb & f2 & E2 & S2 & R2);
    [by eapply same_forest_wf|by rewrite (proj1 S1), I|].
  apply (same_forest_root _ _ _ _ S1) in R2.
  destruct (root_of_least f _ a ra W R R1) as (least & L1 & L2 & L3). rewrite I in L1, L3.
  exists f, ra, rb, f1, f2, least. split_and!; try done.
  rewrite <- I in Ha, Hb. specialize (R a b Ha Hb) as Hab. rewrite <- Hab. split.
  - intros <-. eauto.
  - intros (r & H1 & H2). by rewrite (root_of_det f a ra r), (root_of_det f b rb r).
Qed.

Definition example_digest (b : Byte.byte) : Digest.t := Digest.mk (repeat b 32) eq_refl.

Lemma forest_connectivity_witness :
  let d1 := example_digest "1" in let d2 := example_digest "2" in let d3 := example_digest "3" in
  exists f ra rb f1 f2 least,
    siter (fun e => union e.1 e.2) [(d3, d1)] (singletons [d1; d2; d3]) = (Ok tt, f) /\
    root_position d3 f = (Ok ra, f1) /\ root_position d2 f1 = (Ok rb, f2) /\
    (ra = rb <-> rtsc (fun x y => (x, y) ∈ [(d3, d1)]) d3 d2) /\
    [d1; d2; d3] !! ra = Some least /\ rtsc (fun x y => (x, y) ∈ [(d3, d1)]) d3 least /\
    (forall x, x ∈ [d1; d2; d3] -> rtsc (fun x y => (x, y) ∈ [(d3, d1)]) d3 x -> kle least x).
Proof.
  cbv zeta. apply forest_connectivity.
  - repeat constructor.
  - repeat constructor; cbn; set_solver.
  - set_solver.
  - set_solver.
Defined.
