(* ===== verification/PathPairs.v ===== *)
(** Rename detection of [crates/amiss-scan/src/correlate/components.rs]:
    [unique_path_pairs] pairs removed with added paths by unique equal
    identity, [directory_pairs] pairs a removed directory with the one added
    directory that holds exactly its files. Both are characterised exactly, as
    properties of the two maps alone. *)
From Stdlib Require Import Strings.Byte Strings.String Lia Sorting.Sorted.
From stdpp Require Import base list numbers sorting.
From S2P Require Import Prelude Codec WireModel OrdMap Observation.

(** ** Unique path pairs *)

Section UniquePairs.
Context {I : Type} `{Ord I}.

(** [entry(identity).and_modify(|unique| *unique = None).or_insert(Some(path))]. *)
Definition by_identity (rows : list (path * I)) : bt I (option path) :=
  fold_left (fun m row =>
    bt_upd row.2 (fun unique => match unique with Some _ => None | None => Some row.1 end) m) rows [].

Definition unique_path_pairs (base candidate : bt path I) : bt path path :=
  let removed := List.filter (fun row => negb (bt_mem row.1 candidate)) base in
  let added := List.filter (fun row => negb (bt_mem row.1 base)) candidate in
  let removed_by_identity := by_identity removed in
  let added_by_identity := by_identity added in
  fold_left (fun pairs row =>
    match row.2, bt_get row.1 added_by_identity with
    | Some from, Some (Some to) => bt_insert from to pairs
    | _, _ => pairs
    end) removed_by_identity [].
End UniquePairs.

(** A loop that inserts some rows is the collection of those rows. *)
Lemma fold_insert_omap {A K V} `{Ord K} (g : A -> option (K * V)) (l : list A) m :
  fold_left (fun m x => match g x with Some kv => bt_insert kv.1 kv.2 m | None => m end) l m =
  bt_collect (omap g l) m.
Proof.
  revert m. induction l as [|x l IH]; intros m; [done|]. cbn [fold_left omap list_omap].
  rewrite IH. by destruct (g x).
Qed.

Lemma fold_left_ext {A B} (f g : B -> A -> B) (l : list A) b :
  (forall b a, f b a = g b a) -> fold_left f l b = fold_left g l b.
Proof. intros Hfg. revert b. induction l as [|a l IH]; intros b; [done|]. cbn. by rewrite Hfg, IH. Qed.

Section UniquePairsFacts.
Context {I : Type} `{OrdLaws I}.

Lemma by_identity_snoc (rows : list (path * I)) (row : path * I) :
  by_identity (rows ++ [row]) =
  bt_upd row.2 (fun unique => match unique with Some _ => None | None => Some row.1 end) (by_identity rows).
Proof. unfold by_identity. by rewrite fold_left_app. Qed.

Lemma by_identity_wf (rows : list (path * I)) : bt_wf (by_identity rows).
Proof.
  induction rows as [|row rows IH] using rev_ind; [apply bt_nil_wf|].
  rewrite by_identity_snoc. by apply bt_upd_wf.
Qed.

Lemma bt_get_by_identity (rows : list (path * I)) i :
  bt_get i (by_identity rows) =
  match filter (fun row => row.2 = i) rows with
  | [] => None
  | [row] => Some (Some row.1)
  | _ => Some None
  end.
Proof.
  induction rows as [|row rows IH] using rev_ind; [done|].
  rewrite by_identity_snoc, bt_get_upd by apply by_identity_wf. rewrite filter_app.
  destruct (decide (i = row.2)) as [->|Hne].
  - rewrite IH, (filter_cons_True _ row []) by done. cbn [filter list_filter].
    destruct (filter _ rows) as [|x [|y l]]; [done|done|]. cbn. by destruct l.
  - rewrite (filter_cons_False _ row []) by (intros Hk; by apply Hne). cbn [filter list_filter].
    by rewrite app_nil_r.
Qed.

(** A path is recorded for an identity when it is the only row with it. *)
Lemma by_identity_unique (rows : list (path * I)) i p :
  NoDup rows ->
  bt_get i (by_identity rows) = Some (Some p) <->
  (p, i) ∈ rows /\ forall q, (q, i) ∈ rows -> q = p.
Proof.
  intros Hn. rewrite bt_get_by_identity. split.
  - intros Hg. destruct (filter _ rows) as [|[q j] [|]] eqn:E; simplify_eq/=.
    apply filter_singleton in E as (Hin & Hj & Hu); [|done]. cbn in Hj. subst j.
    split; [done|]. intros r Hr. apply Hu in Hr; [|done]. congruence.
  - intros [Hin Hu].
    assert (filter (fun row => row.2 = i) rows = [(p, i)]) as ->; [|done].
    apply filter_singleton; [done|]. split_and!; [done|done|]. intros [q j] Hq Hj. cbn in Hj. subst j.
    f_equal. auto.
Qed.

Lemma elem_of_absent (m m' : bt path I) p i :
  bt_wf m -> bt_wf m' ->
  (p, i) ∈ List.filter (fun row => negb (bt_mem row.1 m')) m <-> bt_get p m = Some i /\ bt_get p m' = None.
Proof.
  intros Hm Hm'. rewrite list_elem_of_In, filter_In, <- list_elem_of_In, <- bt_get_Some by done.
  cbn [fst]. unfold bt_mem. destruct (bt_get p m'); naive_solver.
Qed.

Lemma NoDup_absent (m m' : bt path I) :
  bt_wf m -> NoDup (List.filter (fun row => negb (bt_mem row.1 m')) m).
Proof.
  intros Hm. apply bt_keys_NoDup, NoDup_fmap_1 in Hm.
  apply NoDup_ListNoDup, List.NoDup_filter, NoDup_ListNoDup. exact Hm.
Qed.

(** The rows [unique_path_pairs] inserts. *)
Definition pair_rows (base candidate : bt path I) : list (path * path) :=
  omap (fun row : I * option path =>
    match row.2, bt_get row.1 (by_identity (List.filter (fun row => negb (bt_mem row.1 base)) candidate)) with
    | Some from, Some (Some to) => Some (from, to)
    | _, _ => None
    end) (by_identity (List.filter (fun row => negb (bt_mem row.1 candidate)) base)).

Lemma unique_path_pairs_collect (base candidate : bt path I) :
  unique_path_pairs base candidate = bt_collect (pair_rows base candidate) [].
Proof.
  unfold unique_path_pairs, pair_rows. rewrite <- fold_insert_omap. apply fold_left_ext.
  intros b [i [from|]]; cbn; [|done]. by destruct (bt_get i _) as [[to|]|].
Qed.

(** [from] and [to] have the same identity, and each is the only path of its
    kind, removed or added, that has it. *)
Definition renamed (base candidate : bt path I) (from to : path) : Prop :=
  exists i,
    (bt_get from base = Some i /\ bt_get from candidate = None /\
     forall p, bt_get p base = Some i -> bt_get p candidate = None -> p = from) /\
    (bt_get to candidate = Some i /\ bt_get to base = None /\
     forall p, bt_get p candidate = Some i -> bt_get p base = None -> p = to).

Lemma elem_of_pair_rows (base candidate : bt path I) from to :
  bt_wf base -> bt_wf candidate ->
  (from, to) ∈ pair_rows base candidate <-> renamed base candidate from to.
Proof.
  intros Hb Hc. unfold pair_rows, renamed. rewrite list_elem_of_omap. split.
  - intros ([i [f|]] & Hin & Hrow); cbn in Hrow; [|done].
    destruct (bt_get i _) as [[t|]|] eqn:Et; simplify_eq.
    apply bt_get_Some in Hin; [|apply by_identity_wf].
    apply by_identity_unique in Hin as [H1 H2]; [|by apply NoDup_absent].
    apply by_identity_unique in Et as [H3 H4]; [|by apply NoDup_absent].
    apply elem_of_absent in H1, H3; [|done..]. setoid_rewrite elem_of_absent in H2; [|done..].
    setoid_rewrite elem_of_absent in H4; [|done..]. exists i. naive_solver.
  - intros (i & (H1 & H2 & H3) & (H4 & H5 & H6)). exists (i, Some from). split.
    + apply bt_get_Some; [apply by_identity_wf|]. apply by_identity_unique; [by apply NoDup_absent|].
      setoid_rewrite elem_of_absent; [|done..]. naive_solver.
    + cbn [fst snd].
      assert (bt_get i (by_identity (List.filter (fun row => negb (bt_mem row.1 base)) candidate)) = Some (Some to))
        as ->; [|done].
      apply by_identity_unique; [by apply NoDup_absent|].
      setoid_rewrite elem_of_absent; [|done..]. naive_solver.
Qed.

Lemma renamed_functional (base candidate : bt path I) from to to' :
  renamed base candidate from to -> renamed base candidate from to' -> to = to'.
Proof. intros (i & (H1 & _) & (H2 & H3 & H4)) (j & (H5 & _) & (H6 & H7 & H8)). simplify_eq. auto. Qed.

Lemma unique_path_pairs_wf (base candidate : bt path I) : bt_wf (unique_path_pairs base candidate).
Proof. rewrite unique_path_pairs_collect. apply bt_collect_wf, bt_nil_wf. Qed.

Lemma unique_path_pairs_spec (base candidate : bt path I) from to :
  bt_wf base -> bt_wf candidate ->
  bt_get from (unique_path_pairs base candidate) = Some to <-> renamed base candidate from to.
Proof.
  intros Hb Hc. rewrite unique_path_pairs_collect, bt_get_collect; [by apply elem_of_pair_rows|].
  intros k v v' H1%elem_of_pair_rows H2%elem_of_pair_rows; [|done..]. by eapply renamed_functional.
Qed.
End UniquePairsFacts.

(** ** Directory pairs *)

Notation Entries := (bt path (GitMode * Oid.t)) (only parsing).

Definition is_tree_row (identity : GitMode * Oid.t) : bool := bool_decide (identity.1 = WireModel.Tree).

(** [Iterator::map_while]. *)
Fixpoint map_while {A B} (f : A -> option B) (l : list A) : list B :=
  match l with
  | [] => []
  | x :: l => match f x with Some y => y :: map_while f l | None => [] end
  end.

Definition beneath (entries : Entries) (directory : bytes) : list (bytes * (GitMode * Oid.t)) :=
  let under := directory ++ b_ "/" in
  List.filter (fun row => negb (is_tree_row row.2))
    (map_while (fun row => option_map (fun rest => (rest, row.2)) (strip_prefix under row.1))
       (bt_from under entries)).

Section DirectoryPairs.
Variables base candidate : Entries.

(** The closure [gone]. *)
Definition gone (path : path) : bool :=
  negb (bt_mem path candidate) && match beneath candidate path with [] => true | _ => false end.

(** The paths of [candidate] that could be [first] beneath another directory
    holding exactly [files], as that directory. *)
Definition added_stems (files : list (bytes * (GitMode * Oid.t))) (first : bytes) (held : list path)
    : list bytes :=
  List.filter (fun stem =>
      negb (bt_mem stem base) && match beneath base stem with [] => true | _ => false end
      && bool_decide (beneath candidate stem = files))
    (omap (fun path => match strip_suffix first path with
                       | Some stem => strip_suffix (b_ "/") stem
                       | None => None
                       end) held).

(** One iteration of the last loop: the pair it inserts, if any. *)
Definition directory_pair (trees : bt Oid.t (list path)) (holders : bt (GitMode * Oid.t) (list path))
    (directory : path) (tree : Oid.t) : option (path * path) :=
  let files := beneath base directory in
  let removed := match bt_get tree trees with Some held => length (List.filter gone held) | None => 0%nat end in
  match files with
  | [] => None
  | (first, identity) :: _ =>
      match removed, added_stems files first (default [] (bt_get identity holders)) with
      | 1%nat, [stem] => if Path.path_bytes_valid stem then Some (directory, stem) else None
      | _, _ => None
      end
  end.

Definition directory_pairs (missing : list path) : bt path path :=
  let directories := bt_collect (omap (fun path =>
    match bt_get path base with
    | Some (mode, tree) => if is_tree_row (mode, tree) then Some (path, tree) else None
    | None => None
    end) missing) [] in
  match directories with
  | [] => []
  | _ =>
      let trees := bt_group (fun row => row.2.2) fst (List.filter (fun row => is_tree_row row.2) base) in
      let holders := bt_group snd fst candidate in
      fold_left (fun pairs row =>
        match directory_pair trees holders row.1 row.2 with
        | Some moved => bt_insert moved.1 moved.2 pairs
        | None => pairs
        end) directories []
  end.
End DirectoryPairs.

Lemma prefix_between (under a s : bytes) :
  bytes_cmp under a <> Gt -> bytes_lt a (under ++ s) -> exists t, a = under ++ t.
Proof.
  revert a. induction under as [|x under IH]; intros a Hle Hlt; [by exists a|].
  destruct a as [|y a]; [done|]. unfold bytes_lt in Hlt. cbn in *.
  rewrite Z.compare_antisym in Hlt. destruct (Z.compare_spec (u8 x) (u8 y)) as [E|E|E]; try done.
  apply u8_inj in E as ->. destruct (IH a) as [t ->]; [done|done|]. by exists t.
Qed.

Lemma map_while_omap {A B} (f : A -> option B) l :
  (forall i j x y, (i < j)%nat -> l !! i = Some x -> l !! j = Some y -> is_Some (f y) -> is_Some (f x)) ->
  map_while f l = omap f l.
Proof.
  induction l as [|x l IH]; intros Hf; [done|]. cbn. destruct (f x) as [y|] eqn:E.
  - f_equal. apply IH. intros i j a b Hij Ha Hb. apply (Hf (S i) (S j)); [lia|done|done].
  - symmetry. change (omap f l = []). apply elem_of_nil_inv. intros y (z & Hz & Hy)%list_elem_of_omap.
    apply list_elem_of_lookup in Hz as [j Hj].
    destruct (Hf 0%nat (S j) x z) as [w Hw]; [lia|done|done|by eexists|]. congruence.
Qed.

Section Beneath.
Variable entries : Entries.
Hypothesis Hwf : bt_wf entries.

Lemma beneath_filter directory :
  beneath entries directory =
  List.filter (fun row => negb (is_tree_row row.2))
    (omap (fun row => option_map (fun rest => (rest, row.2)) (strip_prefix (directory ++ b_ "/") row.1))
       (filter (fun row => kle (directory ++ b_ "/") row.1) entries)).
Proof.
  unfold beneath. cbv zeta. rewrite bt_from_spec by done. f_equal. apply map_while_omap.
  intros i j [a ia] [b ib] Hij Ha Hb [r Hr]. cbn in *.
  destruct (strip_prefix (directory ++ b_ "/") b) as [s|] eqn:E; [|done].
  apply strip_prefix_Some in E. subst b.
  assert (kle (directory ++ b_ "/") a) as Hle.
  { apply list_elem_of_lookup_2, list_elem_of_filter in Ha as [H _]. exact H. }
  assert (bytes_lt a ((directory ++ b_ "/") ++ s)) as Hlt.
  { pose proof (StronglySorted_filter _ (fun row => kle (directory ++ b_ "/") row.1) _
      (proj1 (bt_wf_rows _) Hwf)) as Hs.
    exact (StronglySorted_lookup _ _ i j _ _ Hs Hij Ha Hb). }
  destruct (prefix_between _ _ _ Hle Hlt) as [t Ht].
  replace (strip_prefix (directory ++ b_ "/") a) with (Some t); [by eexists|].
  symmetry. by apply strip_prefix_Some.
Qed.

Lemma elem_of_beneath directory rest identity :
  (rest, identity) ∈ beneath entries directory <->
  bt_get (directory ++ b_ "/" ++ rest) entries = Some identity /\ identity.1 <> WireModel.Tree.
Proof.
  rewrite beneath_filter, list_elem_of_In, filter_In, <- list_elem_of_In, list_elem_of_omap.
  unfold is_tree_row. rewrite negb_true_iff, bool_decide_eq_false. cbn [snd].
  apply and_iff_compat_r. rewrite bt_get_Some by done. split.
  - intros ([p i] & [_ Hin]%list_elem_of_filter & Hs). cbn in Hs.
    destruct (strip_prefix (directory ++ b_ "/") p) as [s|] eqn:E; [|done]. cbn in Hs. simplify_eq.
    apply strip_prefix_Some in E. subst p. by rewrite <- app_assoc in Hin.
  - intros Hin. exists (directory ++ b_ "/" ++ rest, identity). split.
    + apply list_elem_of_filter. split; [|done]. cbn [fst]. apply kle_lt.
      destruct rest as [|x rest]; [right; by rewrite app_nil_r|left].
      rewrite app_assoc. apply bytes_lt_app.
    + cbn [fst snd]. replace (strip_prefix _ _) with (Some rest); [done|].
      symmetry. apply strip_prefix_Some. by rewrite app_assoc.
Qed.

Lemma beneath_sorted directory :
  StronglySorted (fun a b => klt a.1 b.1) (beneath entries directory).
Proof.
  rewrite beneath_filter, list_filter_bool. apply StronglySorted_filter.
  eapply StronglySorted_omap; [|by apply StronglySorted_filter, bt_wf_rows].
  intros [a ia] [b ib] c d Hab Hc Hd. cbn in *.
  destruct (strip_prefix (directory ++ b_ "/") a) as [s|] eqn:Ea; [|done].
  destruct (strip_prefix (directory ++ b_ "/") b) as [t|] eqn:Eb; [|done].
  apply strip_prefix_Some in Ea, Eb. cbn in *. simplify_eq. cbn. unfold klt, cmp, bytes_ord in *.
  by rewrite bytes_cmp_app in Hab.
Qed.
End Beneath.

(** The directory [d] of [e] and the directory [d'] of [e'] hold the same files. *)
Definition same_files (e : Entries) (d : path) (e' : Entries) (d' : path) : Prop :=
  forall rest identity, identity.1 <> WireModel.Tree ->
    bt_get (d ++ b_ "/" ++ rest) e = Some identity <-> bt_get (d' ++ b_ "/" ++ rest) e' = Some identity.

Lemma row_lt_strict {V} : StrictOrder (fun a b : bytes * V => klt a.1 b.1).
Proof.
  split.
  - intros [k v] H. by apply (irreflexivity klt k).
  - intros [a ?] [b ?] [c ?]. cbn. apply transitivity.
Qed.

Lemma beneath_eq e d e' d' :
  bt_wf e -> bt_wf e' -> beneath e d = beneath e' d' <-> same_files e d e' d'.
Proof.
  intros He He'. split.
  - intros Heq rest identity Hi. pose proof (elem_of_beneath e He d rest identity) as H1.
    rewrite Heq, (elem_of_beneath e' He' d' rest identity) in H1. tauto.
  - intros Hs. refine (strict_sorted_unique _ (StrictOrder0 := row_lt_strict) _ _
      (beneath_sorted e He d) (beneath_sorted e' He' d') _).
    intros [rest identity]. rewrite !elem_of_beneath by done. split; intros [H1 H2]; split; auto;
      by apply Hs.
Qed.

Lemma beneath_nil e d :
  bt_wf e -> beneath e d = [] <->
  forall rest identity, bt_get (d ++ b_ "/" ++ rest) e = Some identity -> identity.1 = WireModel.Tree.
Proof.
  intros He. split.
  - intros Hn rest identity Hg. apply dec_stable. intros Hne.
    apply (elem_of_nil (rest, identity)). rewrite <- Hn. by apply elem_of_beneath.
  - intros Hall. apply elem_of_nil_inv. intros [rest identity] [Hg Hne]%elem_of_beneath; [|done]. eauto.
Qed.

Section DirectoryFacts.
Variables base candidate : Entries.
Hypothesis Hbase : bt_wf base.
Hypothesis Hcandidate : bt_wf candidate.

(** No file lies beneath [d]. *)
Definition no_files (e : Entries) (d : path) : Prop :=
  forall rest identity, bt_get (d ++ b_ "/" ++ rest) e = Some identity -> identity.1 = WireModel.Tree.

(** [m] is new in the candidate and holds there what [d] held. *)
Definition added_for (d m : path) : Prop :=
  bt_get m base = None /\ no_files base m /\ same_files candidate m base d.

(** [d] was a directory with files, one directory with its tree is gone, and
    [m] is the only directory added for it. *)
Definition moved_directory (d m : path) : Prop :=
  exists tree,
    bt_get d base = Some (WireModel.Tree, tree) /\
    (exists p, forall q, (bt_get q base = Some (WireModel.Tree, tree) /\
                          bt_get q candidate = None /\ no_files candidate q) <-> q = p) /\
    ~ no_files base d /\
    Path.path_bytes_valid m = true /\
    added_for d m /\ (forall s, added_for d s -> s = m).

Let trees := bt_group (fun row : path * (GitMode * Oid.t) => row.2.2) fst
               (List.filter (fun row => is_tree_row row.2) base).
Let holders := bt_group (fun row : path * (GitMode * Oid.t) => row.2) fst candidate.

Lemma is_tree_row_true i : is_tree_row i = true <-> i.1 = WireModel.Tree.
Proof. unfold is_tree_row. apply bool_decide_eq_true. Qed.

Lemma bt_mem_false (e : Entries) p : bt_mem p e = false <-> bt_get p e = None.
Proof. unfold bt_mem. destruct (bt_get p e); naive_solver. Qed.

Lemma gone_true p : gone candidate p = true <-> bt_get p candidate = None /\ no_files candidate p.
Proof.
  unfold gone. rewrite andb_true_iff, negb_true_iff, bt_mem_false.
  pose proof (beneath_nil candidate p Hcandidate) as Hn. unfold no_files. rewrite <- Hn.
  destruct (beneath candidate p); naive_solver.
Qed.

Lemma removed_one tree :
  match bt_get tree trees with Some held => length (List.filter (gone candidate) held) | None => 0%nat end
    = 1%nat <->
  exists p, forall q, (bt_get q base = Some (WireModel.Tree, tree) /\
                       bt_get q candidate = None /\ no_files candidate q) <-> q = p.
Proof.
  set (held := default [] (bt_get tree trees)).
  assert (forall q, q ∈ held <-> bt_get q base = Some (WireModel.Tree, tree)) as Hheld.
  { intros q. unfold held, trees. rewrite (bt_group_default _ fst _ tree), list_elem_of_fmap. rewrite bt_get_Some by done. split.
    - intros ([p [mode o]] & -> & [Ho Hin]%list_elem_of_filter). cbn in Ho. subst o.
      rewrite list_elem_of_In, filter_In, <- list_elem_of_In in Hin. destruct Hin as [Hin Ht].
      apply is_tree_row_true in Ht. cbn in Ht. by subst mode.
    - intros Hin. exists (q, (WireModel.Tree, tree)). split; [done|]. apply list_elem_of_filter. split; [done|].
      by rewrite list_elem_of_In, filter_In, <- list_elem_of_In. }
  assert (NoDup held) as Hn.
  { unfold held, trees. rewrite (bt_group_default _ fst _ tree). apply (bt_keys_NoDup (V := GitMode * Oid.t)). rewrite list_filter_bool. apply bt_wf_rows.
    by apply StronglySorted_filter, StronglySorted_filter, bt_wf_rows. }
  assert (match bt_get tree trees with Some held => length (List.filter (gone candidate) held) | None => 0%nat end
          = length (filter (fun q => gone candidate q = true) held)) as ->.
  { unfold held. rewrite <- list_filter_bool. by destruct (bt_get tree trees). }
  rewrite length_filter_one by done. setoid_rewrite Hheld. by setoid_rewrite gone_true.
Qed.

Lemma stem_of first p x :
  match strip_suffix first p with Some stem => strip_suffix (b_ "/") stem | None => None end = Some x <->
  p = x ++ b_ "/" ++ first.
Proof.
  split.
  - destruct (strip_suffix first p) as [stem|] eqn:E; [|done]. intros E'.
    apply strip_suffix_Some in E, E'. subst. by rewrite <- app_assoc.
  - intros ->. replace (strip_suffix first _) with (Some (x ++ b_ "/")).
    + by apply strip_suffix_Some.
    + symmetry. apply strip_suffix_Some. by rewrite <- app_assoc.
Qed.

Lemma added_stems_one d first identity m :
  (first, identity) ∈ beneath base d ->
  added_stems base candidate (beneath base d) first (default [] (bt_get identity holders)) = [m] <->
  added_for d m /\ (forall s, added_for d s -> s = m).
Proof.
  intros Hfirst. apply elem_of_beneath in Hfirst as [Hg Hmode]; [|done].
  unfold added_stems, holders. rewrite (bt_group_default _ fst _ identity), list_filter_bool.
  set (stems := omap _ _).
  assert (forall x, x ∈ stems <-> bt_get (x ++ b_ "/" ++ first) candidate = Some identity) as Hstems.
  { intros x. unfold stems. rewrite list_elem_of_omap. setoid_rewrite stem_of.
    setoid_rewrite list_elem_of_fmap. rewrite bt_get_Some by done. split.
    - intros (p & ([q i] & Hq & [Hi Hin]%list_elem_of_filter) & ->). cbn in *. by subst.
    - intros Hin. eexists. split; [|done]. exists (x ++ b_ "/" ++ first, identity).
      split; [done|]. by apply list_elem_of_filter. }
  assert (NoDup stems) as Hn.
  { apply NoDup_omap_inj.
    - intros a a' b. rewrite !stem_of. congruence.
    - apply (bt_keys_NoDup (V := GitMode * Oid.t)), bt_wf_rows. by apply StronglySorted_filter, bt_wf_rows. }
  rewrite filter_singleton by done.
  assert (forall x, (x ∈ stems /\ (negb (bt_mem x base) && match beneath base x with [] => true | _ => false end
      && bool_decide (beneath candidate x = beneath base d)) = true) <-> added_for d x) as Hadd.
  { intros x. rewrite !andb_true_iff, negb_true_iff, bt_mem_false, bool_decide_eq_true, beneath_eq by done.
    unfold added_for. pose proof (beneath_nil base x Hbase) as Hb. unfold no_files. rewrite <- Hb, Hstems.
    assert ((match beneath base x with [] => true | _ => false end) = true <-> beneath base x = []) as ->.
    { destruct (beneath base x); naive_solver. }
    split; [naive_solver|]. intros (H1 & H2 & H3). split_and!; [|done..]. by apply H3. }
  rewrite <- Hadd. setoid_rewrite <- Hadd. naive_solver.
Qed.

Lemma directory_pair_spec d tree d' m :
  directory_pair base candidate trees holders d tree = Some (d', m) <->
  d' = d /\
  (exists p, forall q, (bt_get q base = Some (WireModel.Tree, tree) /\
                        bt_get q candidate = None /\ no_files candidate q) <-> q = p) /\
  ~ no_files base d /\ Path.path_bytes_valid m = true /\
  added_for d m /\ (forall s, added_for d s -> s = m).
Proof.
  unfold directory_pair. cbv zeta. rewrite <- removed_one.
  pose proof (beneath_nil base d Hbase) as Hnil. fold (no_files base d) in Hnil.
  destruct (beneath base d) as [|[first identity] files] eqn:Eb; [naive_solver|].
  assert (~ no_files base d) as Hfiles by (rewrite <- Hnil; done).
  pose proof (added_stems_one d first identity m) as Hone. rewrite Eb in Hone. specialize (Hone ltac:(by left)).
  set (r := match bt_get tree trees with Some _ => _ | None => _ end).
  set (stems := added_stems _ _ _ _ _) in *.
  split.
  - intros Hm. destruct r as [|[|r]]; [done| |done]. destruct stems as [|x [|]]; [done| |done].
    destruct (Path.path_bytes_valid x) eqn:Ev; [|done]. simplify_eq. split_and!; try done; by apply Hone.
  - intros (-> & -> & _ & Hv & Hadd). apply Hone in Hadd. rewrite Hadd. by rewrite Hv.
Qed.
End DirectoryFacts.

Lemma directory_pairs_collect base candidate missing :
  directory_pairs base candidate missing =
  bt_collect (omap (fun row : path * Oid.t =>
    directory_pair base candidate
      (bt_group (fun row : path * (GitMode * Oid.t) => row.2.2) fst
         (List.filter (fun row => is_tree_row row.2) base))
      (bt_group (fun row : path * (GitMode * Oid.t) => row.2) fst candidate) row.1 row.2)
    (bt_collect (omap (fun path =>
      match bt_get path base with
      | Some (mode, tree) => if is_tree_row (mode, tree) then Some (path, tree) else None
      | None => None
      end) missing) [])) [].
Proof.
  unfold directory_pairs. cbv zeta. etrans; [|apply fold_insert_omap].
  match goal with |- context [bt_collect ?rows []] => destruct (bt_collect rows []); reflexivity end.
Qed.

(** ** What the pairings promise *)

(** [unique_path_pairs] pairs [from] with [to] exactly when [from] is in the
    base map only, [to] in the candidate map only, both have one identity, and
    no other removed path and no other added path has that identity. *)
Theorem unique_path_pairs_exact {I : Type} `{OrdLaws I} (base candidate : bt path I) from to :
  bt_wf base -> bt_wf candidate ->
  bt_get from (unique_path_pairs base candidate) = Some to <-> renamed base candidate from to.
Proof. apply unique_path_pairs_spec. Qed.

Lemma unique_path_pairs_exact_witness :
  let base := [(b_ "a", 1); (b_ "b", 2)] in
  let candidate := [(b_ "b", 2); (b_ "c", 1)] in
  bt_get (b_ "a") (unique_path_pairs base candidate) = Some (b_ "c") /\
  renamed base candidate (b_ "a") (b_ "c").
Proof.
  cbv zeta. split; [by vm_compute|].
  refine (proj1 (unique_path_pairs_exact [(b_ "a", 1); (b_ "b", 2)] [(b_ "b", 2); (b_ "c", 1)]
    (b_ "a") (b_ "c") _ _) _).
  - unfold bt_wf. repeat constructor.
  - unfold bt_wf. repeat constructor.
  - by vm_compute.
Defined.

(** [directory_pairs] pairs a missing directory [d] with [m] exactly when
    [d] was a tree with at least one file beneath it, exactly one base
    directory with that tree is gone from the candidate, and [m] is a valid
    path and the only directory that is new in the candidate and holds, file
    for file, what [d] held. *)
Theorem directory_pairs_exact (base candidate : Entries) missing d m :
  bt_wf base -> bt_wf candidate ->
  bt_get d (directory_pairs base candidate missing) = Some m <->
  d ∈ missing /\ moved_directory base candidate d m.
Proof.
  intros Hb Hc. rewrite directory_pairs_collect.
  set (directories := bt_collect (omap _ missing) []).
  assert (forall p t, (p, t) ∈ directories <-> p ∈ missing /\ bt_get p base = Some (WireModel.Tree, t)) as Hdirs.
  { intros p t. unfold directories.
    assert (forall q o, (q, o) ∈ omap (fun path => match bt_get path base with
        | Some (mode, tree) => if is_tree_row (mode, tree) then Some (path, tree) else None
        | None => None end) missing <-> q ∈ missing /\ bt_get q base = Some (WireModel.Tree, o)) as Hrow.
    { intros q o. rewrite list_elem_of_omap. split.
      - intros (x & Hx & Hs). destruct (bt_get x base) as [[mode tree]|] eqn:E; [|done].
        destruct (is_tree_row _) eqn:Et; [|done]. apply is_tree_row_true in Et. cbn in Et. by simplify_eq.
      - intros [Hq Hg]. exists q. by rewrite Hg. }
    rewrite <- bt_get_Some by (apply bt_collect_wf, bt_nil_wf). rewrite bt_get_collect; [apply Hrow|].
    intros k v v' [_ H1]%Hrow [_ H2]%Hrow. congruence. }
  rewrite bt_get_collect.
  - rewrite list_elem_of_omap. split.
    + intros ([p t] & [Hin Hg]%Hdirs & Hp). cbn [fst snd] in Hp.
      apply directory_pair_spec in Hp as (-> & Hrest); [|done..]. split; [done|]. by exists t.
    + intros (Hin & t & Hg & Hrest). exists (d, t). split; [by apply Hdirs|].
      by apply directory_pair_spec.
  - intros k v v' ([p t] & [_ Hg]%Hdirs & Hp)%list_elem_of_omap ([p' t'] & [_ Hg']%Hdirs & Hp')%list_elem_of_omap.
    cbn [fst snd] in Hp, Hp'.
    apply directory_pair_spec in Hp as (-> & _ & _ & _ & _ & Hu); [|done..].
    apply directory_pair_spec in Hp' as (-> & _ & _ & _ & Ha & _); [|done..]. symmetry. auto.
Qed.

Lemma directory_pairs_exact_witness :
  let tree := Oid.mk Sha1 (b_ "t") in let file := Oid.mk Sha1 (b_ "f") in
  let base := [(b_ "d", (WireModel.Tree, tree)); (b_ "d/x", (RegularFile, file))] in
  let candidate := [(b_ "e/x", (RegularFile, file))] in
  bt_get (b_ "d") (directory_pairs base candidate [b_ "d"]) = Some (b_ "e") /\
  moved_directory base candidate (b_ "d") (b_ "e").
Proof.
  cbv zeta. split; [by vm_compute|].
  refine (proj2 (proj1 (directory_pairs_exact
    [(b_ "d", (WireModel.Tree, Oid.mk Sha1 (b_ "t"))); (b_ "d/x", (RegularFile, Oid.mk Sha1 (b_ "f")))]
    [(b_ "e/x", (RegularFile, Oid.mk Sha1 (b_ "f")))] [b_ "d"] (b_ "d") (b_ "e") _ _) _)).
  - unfold bt_wf. repeat constructor.
  - unfold bt_wf. repeat constructor.
  - by vm_compute.
Defined.
