(* ===== verification/Components.v ===== *)
(** The plausible edges between two sides and their connected components:
    [crates/amiss-scan/src/correlate/components.rs]. *)
From Stdlib Require Import Strings.Byte Strings.String Lia Sorting.Sorted.
From stdpp Require Import base list numbers sorting relations.
From S2P Require Import Prelude Codec WireModel OrdMap Observation Forest.

Module CorrelationIntent.
Inductive t :=
  | Repository (commit_oid : option Oid.t) (path : option path) (target_kind : TargetKind.t)
      (query fragment : option Digest.t)
  | External (raw : Digest.t) (scheme : bytes) (query fragment : option Digest.t)
  | Other (kind : IntentKind.t) (raw : Digest.t) (query fragment : option Digest.t).

(** The variant and its fields in declaration order, which is what the
    derived order compares. *)
Definition code (i : t) :=
  match i with
  | Repository commit_oid path target_kind query fragment =>
      inl (commit_oid, (path, (TargetKind.discriminant target_kind, (query, fragment))))
  | External raw scheme query fragment => inr (inl (raw, (scheme, (query, fragment))))
  | Other kind raw query fragment =>
      inr (inr (IntentKind.discriminant kind, (raw, (query, fragment))))
  end.

Lemma code_inj i j : code i = code j -> i = j.
Proof.
  destruct i, j; intros [=]; subst; try done.
  - by rewrite (TargetKind.target_kind_discriminant_inj target_kind target_kind0).
  - by rewrite (IntentKind.intent_kind_discriminant_inj kind kind0).
Qed.
End CorrelationIntent.

Record CorrelationKey := mkKey {
  k_adapter : Adapter.t;
  k_construct : SourceConstruct.t;
  k_intent : CorrelationIntent.t
}.

Definition key_code (k : CorrelationKey) :=
  (Adapter.discriminant (k_adapter k),
    (SourceConstruct.discriminant (k_construct k), CorrelationIntent.code (k_intent k))).

#[export] Instance key_ord : Ord CorrelationKey := fun a b => cmp (key_code a) (key_code b).
#[export] Instance key_ord_laws : OrdLaws CorrelationKey.
Proof.
  apply (ord_by_laws key_code). intros [a1 c1 i1] [a2 c2 i2] [= Ha Hc Hi].
  apply Adapter.adapter_discriminant_inj in Ha as ->. apply SourceConstruct.construct_discriminant_inj in Hc as ->.
  by apply CorrelationIntent.code_inj in Hi as ->.
Qed.

Record DocumentGroup := mkGroup {
  g_observations : list Observation;
  g_projections : bt Digest.t (list Observation)
}.

Abbreviation ObservationGroups := (bt CorrelationKey (bt path DocumentGroup)) (only parsing).

(** One observation entering its document's group. *)
Definition push_document (observation : Observation) (document : option DocumentGroup) : DocumentGroup :=
  let document := default (mkGroup [] []) document in
  mkGroup (g_observations document ++ [observation])
    (bt_upd (o_projection_digest observation) (fun held => default [] held ++ [observation])
       (g_projections document)).

Record ObservationPool := mkPool {
  observations : list Observation;
  positions : bt Digest.t nat
}.

Fixpoint positions_loop (position : nat) (l : list Observation) (positions : bt Digest.t nat)
    : res (bt Digest.t nat) ScanError.t :=
  match l with
  | [] => Ok positions
  | observation :: l =>
      if bt_mem (o_id observation) positions then Err ScanError.Internal
      else positions_loop (S position) l (bt_insert (o_id observation) position positions)
  end.

(** [ObservationPool::new]. *)
Definition pool_new (observations : list Observation) : res ObservationPool ScanError.t :=
  let? positions := positions_loop 0 observations [] in
  Ok (mkPool observations positions).

(** [ObservationPool::observation]. *)
Definition pool_observation (pool : ObservationPool) (id : Digest.t) : res Observation ScanError.t :=
  let? position := ok_or (bt_get id (positions pool)) ScanError.Internal in
  let? observation := ok_or (observations pool !! position) ScanError.Internal in
  if negb (bool_decide (o_id observation = id)) then Err ScanError.Internal else Ok observation.

Fixpoint targets_loop (target : nat) (ids : list Digest.t) (targets : bt Digest.t nat)
    : res (bt Digest.t nat) ScanError.t :=
  match ids with
  | [] => Ok targets
  | id :: ids =>
      if bt_mem id targets then Err ScanError.Internal
      else targets_loop (S target) ids (bt_insert id target targets)
  end.

(** [ObservationPool::into_order]; a missing target sorts last, as
    [usize::MAX] does. *)
Definition into_order (pool : ObservationPool) (ids : list Digest.t) : res (list Observation) ScanError.t :=
  if negb (length ids =? length (observations pool))%nat then Err ScanError.Internal
  else
    let? targets := targets_loop 0 ids [] in
    if existsb (fun observation => negb (bt_mem (o_id observation) targets)) (observations pool)
    then Err ScanError.Internal
    else Ok (sort_by (fun observation => default (2 ^ 64 - 1) (option_map Z.of_nat (bt_get (o_id observation) targets)))
               (observations pool)).

Section Components.
Context {H : Hashes} {HL : HashLaws H}.

Definition LINK_QUERY_DOMAIN : bytes := b_ "amiss/scanner-link-query".
Definition LINK_FRAGMENT_DOMAIN : bytes := b_ "amiss/scanner-link-fragment".

(** [Sha256::new_with_prefix(domain).chain_update([0]).chain_update(text)]. *)
Definition link_digest (domain text : bytes) : Digest.t :=
  Digest.mk (sha256 (domain ++ [x00] ++ text)) (sha256_len _).

Definition correlation_intent (observation : Observation) : CorrelationIntent.t :=
  let intent := o_intent observation in
  let query := option_map (link_digest LINK_QUERY_DOMAIN) (i_query intent) in
  let fragment := option_map (link_digest LINK_FRAGMENT_DOMAIN) (i_fragment intent) in
  match i_kind intent with
  | IntentKind.RepositoryPath | IntentKind.SameRepositoryGithub | IntentKind.SameRepositoryGitlab
  | IntentKind.SameRepositoryGitea | IntentKind.SameRepositoryBitbucketCloud
  | IntentKind.SameRepositoryBitbucketDataCenter =>
      CorrelationIntent.Repository (i_commit_oid intent) (i_repository_path intent)
        (default TargetKind.Either (i_target_kind intent)) query fragment
  | IntentKind.ExternalUrl =>
      CorrelationIntent.External (o_raw_destination_digest observation)
        (default [] (i_external_scheme intent)) query fragment
  | IntentKind.SiteRoute | IntentKind.Label | IntentKind.Unsupported =>
      CorrelationIntent.Other (i_kind intent) (o_raw_destination_digest observation) query fragment
  end.

(** [From<&Observation> for CorrelationKey]. *)
Definition key_of (observation : Observation) : CorrelationKey :=
  mkKey (o_adapter observation) (o_construct observation) (correlation_intent observation).

Definition push_observation (groups : ObservationGroups) (observation : Observation) : ObservationGroups :=
  bt_upd (key_of observation)
    (fun documents => bt_upd (o_document observation) (push_document observation) (default [] documents))
    groups.

Fixpoint observation_groups (l : list (res Observation ScanError.t)) (groups : ObservationGroups)
    : res ObservationGroups ScanError.t :=
  match l with
  | [] => Ok groups
  | observation :: l =>
      let? observation := observation in
      observation_groups l (push_observation groups observation)
  end.

Definition connect (left right : list Observation) : sres ComponentForest.t unit ScanError.t :=
  match left, right with
  | left_primary :: _, right_primary :: right_rest =>
      let! _ := siter (fun observation =>
        ComponentForest.union (o_id observation) (o_id right_primary)) left in
      siter (fun observation => ComponentForest.union (o_id left_primary) (o_id observation)) right_rest
  | _, _ => sret tt
  end.

(** The body of the loop over one document of a base group. *)
Definition connect_document (candidate_documents : bt path DocumentGroup) (renames : bt path path)
    (row : path * DocumentGroup) : sres ComponentForest.t unit ScanError.t :=
  let '(base_document, base_group) := row in
  let! _ :=
    match bt_get base_document candidate_documents with
    | Some candidate_group => connect (g_observations base_group) (g_observations candidate_group)
    | None => sret tt
    end in
  match bt_get base_document renames with
  | None => sret tt
  | Some candidate_document =>
      match bt_get candidate_document candidate_documents with
      | None => sret tt
      | Some candidate_group =>
          siter (fun row : Digest.t * list Observation =>
            match bt_get row.1 (g_projections candidate_group) with
            | Some candidate_ids => connect row.2 candidate_ids
            | None => sret tt
            end) (g_projections base_group)
      end
  end.

Definition connect_candidates (base_groups candidate_groups : ObservationGroups) (renames : bt path path)
    : sres ComponentForest.t unit ScanError.t :=
  siter (fun row : CorrelationKey * bt path DocumentGroup =>
    match bt_get row.1 candidate_groups with
    | None => sret tt
    | Some candidate_documents => siter (connect_document candidate_documents renames) row.2
    end) base_groups.

Abbreviation ComponentIds := (bt nat (list Digest.t * list Digest.t)) (only parsing).

(** [for id in ids { grouped.entry(root_position(id)?).or_default() .. push(id) }]. *)
Fixpoint group_loop (push : Digest.t -> list Digest.t * list Digest.t -> list Digest.t * list Digest.t)
    (ids : list Digest.t) (grouped : ComponentIds) : sres ComponentForest.t ComponentIds ScanError.t :=
  match ids with
  | [] => sret grouped
  | id :: ids =>
      let! root := ComponentForest.root_position id in
      group_loop push ids (bt_upd root (fun members => push id (default ([], []) members)) grouped)
  end.

Definition unmatched (exact_ids : list Digest.t) (id : Digest.t) : bool :=
  match binary_search_by (fun x => cmp x id) exact_ids with Some _ => false | None => true end.

Definition correlation_components (base candidate : ObservationPool) (exact_ids : list Digest.t)
    (renames : bt path path) : res ComponentIds ScanError.t :=
  let base_ids := List.filter (unmatched exact_ids) (bt_keys (positions base)) in
  let candidate_ids := List.filter (unmatched exact_ids) (bt_keys (positions candidate)) in
  let identities := sort_by Datatypes.id (base_ids ++ candidate_ids) in
  let? base_groups := observation_groups (map (pool_observation base) base_ids) [] in
  let? candidate_groups := observation_groups (map (pool_observation candidate) candidate_ids) [] in
  fst ((let! _ := connect_candidates base_groups candidate_groups renames in
   let! grouped := group_loop (fun id members => (members.1 ++ [id], members.2)) base_ids [] in
   group_loop (fun id members => (members.1, members.2 ++ [id])) candidate_ids grouped)
    (ComponentForest.singletons identities)).
End Components.

(** ** Pools *)

Lemma positions_loop_targets i l m : positions_loop i l m = targets_loop i (map o_id l) m.
Proof. revert i m. induction l as [|o l IH]; intros i m; [done|]. cbn. by destruct (bt_mem _ _). Qed.

Lemma targets_loop_Ok ids i m :
  bt_wf m -> NoDup ids -> (forall x, x ∈ ids -> bt_get x m = None) ->
  exists m', targets_loop i ids m = Ok m' /\ bt_wf m' /\
    forall x p, bt_get x m' = Some p <->
      bt_get x m = Some p \/ exists j, ids !! j = Some x /\ p = (i + j)%nat.
Proof.
  revert i m. induction ids as [|id ids IH]; intros i m Hm Hn Hfresh; cbn [targets_loop].
  { exists m. split_and!; [done|done|]. intros x p. naive_solver. }
  apply NoDup_cons in Hn as [Hid Hn]. unfold bt_mem. rewrite (Hfresh id) by (by left).
  destruct (IH (S i) (bt_insert id i m)) as (m' & E & Hm' & Hg); [by apply bt_insert_wf|done| |].
  { intros x Hx. rewrite bt_get_insert by done. case_decide; [by subst|]. apply Hfresh. by right. }
  exists m'. split_and!; [done|done|]. intros x p. rewrite Hg, bt_get_insert by done. split.
  - intros [Hx|(j & Hj & ->)]; [|right; exists (S j); split; [done|lia]].
    case_decide; [|by left]. simplify_eq. right. exists 0%nat. split; [done|lia].
  - intros [Hx|([|j] & Hj & ->)].
    + left. rewrite decide_False; [done|]. intros ->. rewrite Hfresh in Hx by (by left). done.
    + left. cbn in Hj. simplify_eq. rewrite decide_True by done. f_equal. lia.
    + right. exists j. split; [done|lia].
Qed.

Lemma targets_loop_Err ids i m :
  bt_wf m -> ~ (NoDup ids /\ forall x, x ∈ ids -> bt_get x m = None) ->
  targets_loop i ids m = Err ScanError.Internal.
Proof.
  revert i m. induction ids as [|id ids IH]; intros i m Hm Hbad; cbn [targets_loop].
  { exfalso. apply Hbad. split; [constructor|]. by intros x ?%elem_of_nil. }
  unfold bt_mem. destruct (bt_get id m) as [p|] eqn:E; [done|]. apply IH; [by apply bt_insert_wf|].
  intros [Hn Hf]. apply Hbad. split.
  - apply NoDup_cons. split; [|done]. intros Hin. apply Hf in Hin.
    rewrite bt_get_insert, decide_True in Hin by done. done.
  - intros x [->|Hx]%elem_of_cons; [done|]. specialize (Hf x Hx). rewrite bt_get_insert in Hf by done.
    by destruct (decide (x = id)).
Qed.

(** The pool of a side whose identities are distinct. *)
Definition pool_of (os : list Observation) (pool : ObservationPool) : Prop :=
  observations pool = os /\ NoDup (map o_id os) /\ bt_wf (positions pool) /\
  forall id p, bt_get id (positions pool) = Some p <-> map o_id os !! p = Some id.

Lemma pool_new_Ok os : NoDup (map o_id os) -> exists pool, pool_new os = Ok pool /\ pool_of os pool.
Proof.
  intros Hn. unfold pool_new. rewrite positions_loop_targets.
  destruct (targets_loop_Ok (map o_id os) 0 [] bt_nil_wf Hn) as (m & -> & Hm & Hg); [done|].
  eexists. split; [done|]. split_and!; [done|done|done|]. intros id p. cbn [positions]. rewrite Hg. cbn.
  split; [|intros Hp; right; eauto]. by intros [|(j & Hj & ->)].
Qed.

Lemma pool_new_Err os : ~ NoDup (map o_id os) -> pool_new os = Err ScanError.Internal.
Proof.
  intros Hn. unfold pool_new. rewrite positions_loop_targets, targets_loop_Err; [done|apply bt_nil_wf|].
  intros [? _]. done.
Qed.

Section PoolFacts.
Variables (os : list Observation) (pool : ObservationPool).
Hypothesis Hpool : pool_of os pool.

Lemma elem_of_pool_keys id : id ∈ bt_keys (positions pool) <-> id ∈ map o_id os.
Proof.
  destruct Hpool as (_ & _ & Hm & Hg). rewrite elem_bt_keys by done. rewrite list_elem_of_lookup.
  split; intros [p Hp]; exists p; by apply Hg.
Qed.

Lemma pool_observation_Ok o : o ∈ os -> pool_observation pool (o_id o) = Ok o.
Proof.
  intros [p Hp]%list_elem_of_lookup. destruct Hpool as (Hos & _ & _ & Hg). unfold pool_observation.
  assert (bt_get (o_id o) (positions pool) = Some p) as ->.
  { apply Hg. rewrite list_lookup_fmap, Hp. done. }
  cbn [ok_or]. rewrite Hos, Hp. cbn [ok_or]. by rewrite bool_decide_true.
Qed.

Lemma pool_observations_Ok ids :
  (forall id, id ∈ ids -> id ∈ map o_id os) ->
  exists l, map (pool_observation pool) ids = map Ok l /\ map o_id l = ids /\
    forall o, o ∈ l <-> o ∈ os /\ o_id o ∈ ids.
Proof.
  induction ids as [|id ids IH]; intros Hin.
  { exists []. split_and!; [done|done|]. intros o. rewrite !elem_of_nil. naive_solver. }
  destruct IH as (l & E1 & E2 & E3); [intros; apply Hin; by right|].
  assert (id ∈ map o_id os) as (o & -> & Ho)%list_elem_of_fmap by (apply Hin; by left).
  exists (o :: l). cbn [map]. rewrite (pool_observation_Ok o Ho), E1, E2. split_and!; [done|done|].
  intros o'. rewrite !elem_of_cons, E3. split; [naive_solver|]. intros [Ho' [Heq|Hid]]; [|naive_solver].
  left. destruct Hpool as (_ & Hn & _). by eapply NoDup_fmap_unique.
Qed.
End PoolFacts.

Lemma StronglySorted_by_index {A} (g : A -> Z) (l : list A) :
  (forall i x, l !! i = Some x -> g x = Z.of_nat i) -> StronglySorted (fun a b => g a < g b) l.
Proof.
  intros Hg. assert (forall n, (forall i x, l !! i = Some x -> g x = Z.of_nat (n + i)) ->
    StronglySorted (fun a b => g a < g b) l) as Hgen; [|by apply (Hgen 0%nat)].
  clear Hg. induction l as [|x l IH]; intros n Hn; [constructor|]. constructor.
  - apply (IH (S n)). intros i y Hy. rewrite (Hn (S i)) by done. lia.
  - apply Forall_forall. intros y [i Hi]%list_elem_of_lookup.
    rewrite (Hn 0%nat x), (Hn (S i) y) by done. lia.
Qed.

(** [into_order] moves the observations into the order of the identities. *)
Lemma into_order_Ok os pool ids :
  pool_of os pool -> ids ≡ₚ map o_id os ->
  exists l, into_order pool ids = Ok l /\ map o_id l = ids /\ l ≡ₚ os.
Proof.
  intros (Hos & Hn & _ & _) Hp. unfold into_order. rewrite Hos.
  assert (length ids = length os) as Hlen by (rewrite Hp; apply length_map). rewrite Hlen, Nat.eqb_refl. cbn [negb].
  assert (NoDup ids) as Hn' by (by rewrite Hp).
  destruct (targets_loop_Ok ids 0 [] bt_nil_wf Hn') as (m & -> & Hm & Hg); [done|].
  assert (forall i x, ids !! i = Some x -> bt_get x m = Some i) as Hidx.
  { intros i x Hx. apply Hg. right. by exists i. }
  assert (forall x, x ∈ map o_id os -> is_Some (bt_get x m)) as Hsome.
  { intros x Hx. rewrite <- Hp in Hx. apply list_elem_of_lookup in Hx as [i Hi]. eauto. }
  replace (existsb _ os) with false.
  2:{ symmetry. apply not_true_iff_false. rewrite existsb_exists. intros (o & Ho & Hneg).
      destruct (Hsome (o_id o)) as [j Hj].
      { apply list_elem_of_fmap. exists o. split; [done|]. by apply list_elem_of_In. }
      unfold bt_mem in Hneg. by rewrite Hj in Hneg. }
  set (g := fun id => default (2 ^ 64 - 1) (option_map Z.of_nat (bt_get id m))).
  change (fun observation => default _ _) with (fun observation => g (o_id observation)).
  assert (forall i x, ids !! i = Some x -> g x = Z.of_nat i) as Hgi.
  { intros i x Hx. unfold g. by rewrite (Hidx _ _ Hx). }
  assert (sort_by (fun o => g (o_id o)) os ≡ₚ os) as Hperm by apply sort_by_perm.
  eexists. split; [done|]. split; [|done].
  assert (StrictOrder (fun a b => g a < g b)) as Hso.
  { split; [intros a; unfold complement; lia|intros a b c; lia]. }
  apply (strict_sorted_unique (fun a b => g a < g b)).
  - assert (NoDup (map (fun o => g (o_id o)) os)) as Hk.
    { rewrite <- (map_map o_id g). apply NoDup_fmap_2_strong; [|done]. intros x y Hx Hy Hxy.
      rewrite <- Hp in Hx, Hy. apply list_elem_of_lookup in Hx as [i Hi], Hy as [j Hj].
      rewrite (Hgi _ _ Hi), (Hgi _ _ Hj) in Hxy. assert (i = j) as -> by lia. congruence. }
    pose proof (sort_by_strict (fun o => g (o_id o)) os Hk) as Hs. clear -Hs.
    induction Hs as [|x l Hs IH Hf]; constructor; [done|]. apply Forall_map.
    eapply Forall_impl; [exact Hf|]. intros y Hy. by apply Z.compare_lt_iff.
  - by apply StronglySorted_by_index.
  - intros x. rewrite Hperm, <- Hp. done.
Qed.

(** ** Groups *)

Lemma fold_default {A V} (g : A -> V -> V) (z : V) (xs : list A) :
  fold_left (fun o x => Some (g x (default z o))) xs None =
  match xs with [] => None | ys => Some (fold_left (fun v x => g x v) ys z) end.
Proof.
  destruct xs as [|x xs]; [done|]. cbn [fold_left default].
  generalize (g x z). induction xs as [|y xs IH]; intros v; [done|]. cbn. apply IH.
Qed.

Definition document_group (ys : list Observation) : DocumentGroup :=
  mkGroup ys (bt_group o_projection_digest id ys).

Lemma push_documents ys :
  fold_left (fun o x => Some (push_document x o)) ys None =
  match ys with [] => None | zs => Some (document_group zs) end.
Proof.
  induction ys as [|y ys IH] using rev_ind; [done|]. rewrite fold_left_app, IH. cbn [fold_left].
  unfold push_document, document_group. rewrite bt_group_snoc. by destruct ys.
Qed.

Definition documents_of (xs : list Observation) : bt path DocumentGroup :=
  bt_fold o_document push_document xs [].

Lemma bt_get_documents xs d :
  bt_get d (documents_of xs) =
  match filter (fun o => o_document o = d) xs with [] => None | ys => Some (document_group ys) end.
Proof.
  unfold documents_of. rewrite (bt_get_fold o_document push_document xs [] d) by apply bt_nil_wf. cbn [bt_get].
  rewrite push_documents. by destruct (filter _ xs).
Qed.

Section Groups.
Context {H : Hashes} {HL : HashLaws H}.

Definition groups_of (os : list Observation) : ObservationGroups :=
  fold_left push_observation os [].

Lemma observation_groups_Ok os g :
  observation_groups (map Ok os) g = Ok (fold_left push_observation os g).
Proof. revert g. induction os as [|o os IH]; intros g; [done|]. cbn. apply IH. Qed.

Lemma bt_get_groups os k :
  bt_get k (groups_of os) =
  match filter (fun o => key_of o = k) os with [] => None | xs => Some (documents_of xs) end.
Proof.
  change (groups_of os) with (bt_fold key_of (fun o documents =>
    bt_upd (o_document o) (push_document o) (default [] documents)) os []).
  rewrite (bt_get_fold key_of _ os [] k) by apply bt_nil_wf. cbn [bt_get].
  rewrite (fold_default (fun o documents => bt_upd (o_document o) (push_document o) documents) []).
  by destruct (filter _ os).
Qed.

Lemma groups_wf os : bt_wf (groups_of os).
Proof. apply (bt_fold_wf key_of). apply bt_nil_wf. Qed.

Lemma documents_wf xs : bt_wf (documents_of xs).
Proof. apply bt_fold_wf, bt_nil_wf. Qed.

Lemma filter_match {A B} (P : A -> Prop) `{!forall x, Decision (P x)} (l : list A) (h : list A -> B) b :
  match filter P l with [] => None | xs => Some (h xs) end = Some b <->
  (exists x, x ∈ l /\ P x) /\ b = h (filter P l).
Proof.
  destruct (filter P l) as [|x xs] eqn:E.
  - split; [done|]. intros [(x & Hx & HP) _]. exfalso. apply (elem_of_nil x). rewrite <- E.
    by apply list_elem_of_filter.
  - assert (x ∈ filter P l) as [HP Hx]%list_elem_of_filter by (rewrite E; by left). naive_solver.
Qed.

(** The observations two lookups away, and three. *)
Lemma group_member os k d o :
  (exists documents group, bt_get k (groups_of os) = Some documents /\
     bt_get d documents = Some group /\ o ∈ g_observations group) <->
  o ∈ os /\ key_of o = k /\ o_document o = d.
Proof.
  rewrite bt_get_groups. setoid_rewrite filter_match. split.
  - intros (documents & group & [_ ->] & Hg & Ho). rewrite bt_get_documents in Hg.
    apply filter_match in Hg as [_ ->]. cbn in Ho. rewrite !list_elem_of_filter in Ho. naive_solver.
  - intros (Ho & Hk & Hd). do 2 eexists. split; [split; [by exists o|done]|].
    rewrite bt_get_documents. rewrite filter_match. split; [split; [|done]|].
    + exists o. by rewrite list_elem_of_filter.
    + cbn. by rewrite !list_elem_of_filter.
Qed.

Lemma projection_member os k d p o :
  (exists documents group members, bt_get k (groups_of os) = Some documents /\
     bt_get d documents = Some group /\ bt_get p (g_projections group) = Some members /\ o ∈ members) <->
  o ∈ os /\ key_of o = k /\ o_document o = d /\ o_projection_digest o = p.
Proof.
  rewrite bt_get_groups. setoid_rewrite filter_match. split.
  - intros (documents & group & members & [_ ->] & Hg & Hp & Ho). rewrite bt_get_documents in Hg.
    apply filter_match in Hg as [_ ->]. cbn in Hp. rewrite (bt_get_group o_projection_digest id _ p), map_id in Hp.
    apply (filter_match _ _ id) in Hp as [_ ->]. unfold id in Ho.
    rewrite !list_elem_of_filter in Ho. naive_solver.
  - intros (Ho & Hk & Hd & Hp). do 3 eexists. split; [split; [by exists o|done]|].
    rewrite bt_get_documents, filter_match. split; [split; [|done]|].
    { exists o. by rewrite list_elem_of_filter. }
    cbn. rewrite (bt_get_group o_projection_digest id _ p), map_id. rewrite (filter_match _ _ id). split; [split; [|done]|].
    + exists o. by rewrite !list_elem_of_filter.
    + unfold id. by rewrite !list_elem_of_filter.
Qed.
End Groups.

(** ** Edges *)

(** [inserts ids m X]: on a forest over [ids], [m] succeeds and adds the edges [X]. *)
Definition inserts (ids : list Digest.t) (m : sres ComponentForest.t unit ScanError.t)
    (X : relation Digest.t) : Prop :=
  forall f E, ComponentForest.identities f = ids -> forest_wf f -> represents f E ->
    exists f', m f = (Ok tt, f') /\ forest_wf f' /\ ComponentForest.identities f' = ids /\
      represents f' (fun a b => E a b \/ X a b).

Section Inserts.
Variable ids : list Digest.t.

(** Edge sets with the same connections are interchangeable. *)
Lemma inserts_conn m X Y :
  (forall E : relation Digest.t, forall a b, rtsc (fun a b => E a b \/ X a b) a b <-> rtsc (fun a b => E a b \/ Y a b) a b) ->
  inserts ids m X -> inserts ids m Y.
Proof.
  intros HXY Hm f E Hf Hwf Hr. destruct (Hm f E Hf Hwf Hr) as (f' & E1 & W & I & R).
  exists f'. split_and!; [done|done|done|]. eapply represents_ext; [|exact R]. intros x y _ _. apply HXY.
Qed.

Lemma inserts_ext m X Y : (forall a b, X a b <-> Y a b) -> inserts ids m X -> inserts ids m Y.
Proof. intros HXY. apply inserts_conn. intros E a b. split; apply rtsc_mono; naive_solver. Qed.

Lemma inserts_ret : inserts ids (sret tt) (fun _ _ => False).
Proof.
  intros f E Hf Hwf Hr. exists f. split_and!; [done|done|done|].
  eapply represents_ext; [|exact Hr]. intros x y _ _. split; apply rtsc_mono; naive_solver.
Qed.

Lemma inserts_bind m1 m2 X1 X2 :
  inserts ids m1 X1 -> inserts ids m2 X2 ->
  inserts ids (let! _ := m1 in m2) (fun a b => X1 a b \/ X2 a b).
Proof.
  intros H1 H2 f E Hf Hwf Hr. destruct (H1 f E Hf Hwf Hr) as (f1 & E1 & W1 & I1 & R1).
  destruct (H2 f1 _ I1 W1 R1) as (f2 & E2 & W2 & I2 & R2). exists f2. split_and!; [|done|done|].
  { unfold sbind. by rewrite E1. }
  eapply represents_ext; [|exact R2]. intros x y _ _. split; apply rtsc_mono; naive_solver.
Qed.

Lemma inserts_iter {A} (g : A -> sres ComponentForest.t unit ScanError.t) (X : A -> relation Digest.t) l :
  (forall x, x ∈ l -> inserts ids (g x) (X x)) ->
  inserts ids (siter g l) (fun a b => exists x, x ∈ l /\ X x a b).
Proof.
  induction l as [|x l IH]; intros Hg; cbn [siter].
  - eapply inserts_ext; [|apply inserts_ret]. intros a b. split; [done|]. by intros (x & ?%elem_of_nil & _).
  - eapply inserts_ext; [|apply inserts_bind; [apply Hg; by left|apply IH; intros; apply Hg; by right]].
    intros a b. cbv beta. setoid_rewrite elem_of_cons. naive_solver.
Qed.

Lemma inserts_unions {A} (g h : A -> Digest.t) (l : list A) :
  Forall (fun x => g x ∈ ids /\ h x ∈ ids) l ->
  inserts ids (siter (fun x => ComponentForest.union (g x) (h x)) l)
    (fun a b => exists x, x ∈ l /\ a = g x /\ b = h x).
Proof. intros Hl f E Hf Hwf Hr. subst ids. by apply unions_spec. Qed.

(** The spanning tree of [connect] connects what all pairs would. *)
Lemma inserts_connect left right :
  Forall (fun o => o_id o ∈ ids) left -> Forall (fun o => o_id o ∈ ids) right ->
  inserts ids (connect left right)
    (fun a b => exists x y, x ∈ left /\ y ∈ right /\ a = o_id x /\ b = o_id y).
Proof.
  intros Hl Hr. unfold connect. destruct left as [|l0 left].
  { eapply inserts_ext; [|apply inserts_ret]. intros a b. split; [done|]. by intros (x & y & ?%elem_of_nil & _). }
  destruct right as [|r0 right].
  { eapply inserts_ext; [|apply inserts_ret]. intros a b. split; [done|]. by intros (x & y & _ & ?%elem_of_nil & _). }
  apply Forall_cons_iff in Hl as Hl'. apply Forall_cons_iff in Hr as Hr'. destruct Hl' as [Hl0 _], Hr' as [Hr0 Hrr].
  eapply inserts_conn; [|apply inserts_bind; apply inserts_unions].
  2:{ eapply Forall_impl; [exact Hl|]. done. }
  2:{ eapply Forall_impl; [exact Hrr|]. done. }
  intros E a b. split.
  - apply rtsc_mono. intros u v [HE|[(x & Hx & -> & ->)|(y & Hy & -> & ->)]]; [by left| |]; right.
    + exists x, r0. split_and!; [done|by left|done|done].
    + exists l0, y. split_and!; [by left|by right|done|done].
  - match goal with |- _ -> rtsc ?S a b => set (T := S) end.
    assert (forall x, x ∈ l0 :: left -> rtsc T (o_id x) (o_id r0)) as HL.
    { intros x Hx. apply rtsc_lr. unfold T. right; left. by exists x. }
    assert (forall y, y ∈ r0 :: right -> rtsc T (o_id l0) (o_id y)) as HR.
    { intros y [->|Hy]%elem_of_cons; [apply HL; by left|]. apply rtsc_lr. unfold T. right; right. by exists y. }
    assert (forall u v, E u v \/ (exists x y, x ∈ l0 :: left /\ y ∈ r0 :: right /\ u = o_id x /\ v = o_id y) ->
      rtsc T u v) as Hstep.
    { intros u v [HE|(x & y & Hx & Hy & -> & ->)]; [apply rtsc_lr; unfold T; by left|].
      trans (o_id r0); [by apply HL|]. trans (o_id l0); [|by apply HR]. apply rtsc_flip, HL. by left. }
    induction 1 as [|u v w [Huv|Huv] _ IH]; [done| |].
    + trans v; [by apply Hstep|done].
    + trans v; [by apply rtsc_flip, Hstep|done].
Qed.
End Inserts.

(** Two descriptions of edges that differ in the order of their conditions. *)
Ltac edge_iff :=
  let x := fresh "x" in let y := fresh "y" in let Hxy := fresh "Hxy" in
  split; intros (x & y & Hxy); exists x, y; tauto.

Section Plausible.
Context {H : Hashes} {HL : HashLaws H}.

(** The candidate edges: the same adapter, construct and intent projection, in
    one document, or across a document rename with an unchanged projection. *)
Definition plausible (renames : bt path path) (x y : Observation) : Prop :=
  key_of x = key_of y /\
  (o_document x = o_document y \/
   bt_get (o_document x) renames = Some (o_document y) /\
   o_projection_digest x = o_projection_digest y).

Definition edges (renames : bt path path) (left right : list Observation) : relation Digest.t :=
  fun a b => exists x y, x ∈ left /\ y ∈ right /\ a = o_id x /\ b = o_id y /\ plausible renames x y.

Variables (ids : list Digest.t) (left right : list Observation) (renames : bt path path).
Hypothesis Hleft : Forall (fun o => o_id o ∈ ids) left.
Hypothesis Hright : Forall (fun o => o_id o ∈ ids) right.

Lemma elem_of_group os k d documents group o :
  bt_get k (groups_of os) = Some documents -> bt_get d documents = Some group ->
  o ∈ g_observations group <-> o ∈ os /\ key_of o = k /\ o_document o = d.
Proof.
  intros H1 H2. rewrite <- group_member. split; [by eauto|].
  intros (documents' & group' & H1' & H2' & Ho). by simplify_eq.
Qed.

Lemma elem_of_projection os k d documents group p members o :
  bt_get k (groups_of os) = Some documents -> bt_get d documents = Some group ->
  bt_get p (g_projections group) = Some members ->
  o ∈ members <-> o ∈ os /\ key_of o = k /\ o_document o = d /\ o_projection_digest o = p.
Proof.
  intros H1 H2 H3. rewrite <- projection_member. split; [by eauto 10|].
  intros (documents' & group' & members' & H1' & H2' & H3' & Ho). by simplify_eq.
Qed.

Lemma group_wf os k d documents group :
  bt_get k (groups_of os) = Some documents -> bt_get d documents = Some group ->
  bt_wf documents /\ bt_wf (g_projections group).
Proof.
  rewrite bt_get_groups, filter_match. intros [_ ->]. rewrite bt_get_documents, filter_match.
  intros [_ ->]. split; [apply documents_wf|apply bt_group_wf].
Qed.

Lemma part_ids os (l : list Observation) :
  Forall (fun o => o_id o ∈ ids) os -> (forall o, o ∈ l -> o ∈ os) -> Forall (fun o => o_id o ∈ ids) l.
Proof. rewrite !Forall_forall. auto. Qed.

Section Document.
Variables (k : CorrelationKey) (d : path).
Variables (base_documents candidate_documents : bt path DocumentGroup) (base_group : DocumentGroup).
Hypothesis Hbase : bt_get k (groups_of left) = Some base_documents.
Hypothesis Hgroup : bt_get d base_documents = Some base_group.
Hypothesis Hcandidate : bt_get k (groups_of right) = Some candidate_documents.

Lemma inserts_same_document :
  inserts ids
    (match bt_get d candidate_documents with
     | Some candidate_group => connect (g_observations base_group) (g_observations candidate_group)
     | None => sret tt
     end)
    (fun a b => exists x y, x ∈ left /\ y ∈ right /\ a = o_id x /\ b = o_id y /\
       key_of x = k /\ o_document x = d /\ key_of y = k /\ o_document y = d).
Proof.
  destruct (bt_get d candidate_documents) as [candidate_group|] eqn:E.
  - eapply inserts_ext; [|apply inserts_connect].
    + intros a b. cbv beta. setoid_rewrite (elem_of_group _ _ _ _ _ _ Hbase Hgroup).
      setoid_rewrite (elem_of_group _ _ _ _ _ _ Hcandidate E). edge_iff.
    + apply (part_ids left); [done|]. intros o Ho. by eapply elem_of_group in Ho as [? _].
    + apply (part_ids right); [done|]. intros o Ho. by eapply elem_of_group in Ho as [? _].
  - eapply inserts_ext; [|apply inserts_ret]. intros a b. split; [done|].
    intros (x & y & _ & Hy & _ & _ & _ & _ & Hk & Hd).
    destruct (proj2 (group_member right k d y)) as (docs & g & H1 & H2 & _); [done|]. congruence.
Qed.

Lemma inserts_renamed candidate_group d' :
  bt_get d' candidate_documents = Some candidate_group ->
  inserts ids
    (siter (fun row : Digest.t * list Observation =>
       match bt_get row.1 (g_projections candidate_group) with
       | Some candidate_ids => connect row.2 candidate_ids
       | None => sret tt
       end) (g_projections base_group))
    (fun a b => exists x y, x ∈ left /\ y ∈ right /\ a = o_id x /\ b = o_id y /\
       key_of x = k /\ o_document x = d /\ key_of y = k /\ o_document y = d' /\
       o_projection_digest x = o_projection_digest y).
Proof.
  intros E. destruct (group_wf _ _ _ _ _ Hbase Hgroup) as [_ Hwf].
  eapply inserts_ext; [|apply (inserts_iter ids _ (fun row a b => exists x y,
    x ∈ left /\ y ∈ right /\ a = o_id x /\ b = o_id y /\ key_of x = k /\ o_document x = d /\
    key_of y = k /\ o_document y = d' /\ o_projection_digest x = row.1 /\ o_projection_digest y = row.1))].
  - intros a b. split.
    { intros (row & _ & x & y & Hx & Hy & Ha & Hb & Hk & Hd & Hk' & Hd' & Hp & Hp').
      exists x, y. split_and!; congruence. }
    intros (x & y & Hx & Hy & -> & -> & Hk & Hd & Hk' & Hd' & Hp).
    destruct (proj2 (projection_member left k d (o_projection_digest x) x))
      as (docs & g & members & H1 & H2 & H3 & H4); [done|].
    rewrite Hbase in H1. injection H1 as <-. rewrite Hgroup in H2. injection H2 as <-.
    exists (o_projection_digest x, members). split; [by apply bt_get_Some|].
    exists x, y. cbn [fst]. split_and!; congruence.
  - intros [p members] Hrow. cbn [fst snd]. apply bt_get_Some in Hrow; [|done].
    destruct (bt_get p (g_projections candidate_group)) as [members'|] eqn:Ep.
    + eapply inserts_ext; [|apply inserts_connect].
      * intros a b. cbv beta. setoid_rewrite (elem_of_projection _ _ _ _ _ _ _ _ Hbase Hgroup Hrow).
        setoid_rewrite (elem_of_projection _ _ _ _ _ _ _ _ Hcandidate E Ep). edge_iff.
      * apply (part_ids left); [done|]. intros o Ho. by eapply elem_of_projection in Ho as [? _].
      * apply (part_ids right); [done|]. intros o Ho. by eapply elem_of_projection in Ho as [? _].
    + eapply inserts_ext; [|apply inserts_ret]. intros a b. split; [done|].
      intros (x & y & _ & Hy & _ & _ & _ & _ & Hk & Hd & _ & Hp).
      destruct (proj2 (projection_member right k d' p y)) as (docs & g & ms & H1 & H2 & H3 & _); [done|].
      congruence.
Qed.

Lemma inserts_document :
  inserts ids (connect_document candidate_documents renames (d, base_group))
    (fun a b => exists x y, x ∈ left /\ y ∈ right /\ a = o_id x /\ b = o_id y /\
       plausible renames x y /\ key_of x = k /\ o_document x = d).
Proof.
  unfold connect_document.
  eapply inserts_ext; [|apply inserts_bind; [apply inserts_same_document|]].
  2:{ instantiate (1 := fun a b => exists x y, x ∈ left /\ y ∈ right /\ a = o_id x /\ b = o_id y /\
        key_of x = k /\ o_document x = d /\ key_of y = k /\ bt_get d renames = Some (o_document y) /\
        o_projection_digest x = o_projection_digest y).
      destruct (bt_get d renames) as [d'|] eqn:Er.
      2:{ eapply inserts_ext; [|apply inserts_ret]. intros a b. split; [done|].
          by intros (x & y & _ & _ & _ & _ & _ & _ & _ & [=] & _). }
      destruct (bt_get d' candidate_documents) as [candidate_group|] eqn:E.
      - eapply inserts_ext; [|by apply (inserts_renamed _ d')]. intros a b.
        split; intros (x & y & Hxy); exists x, y; intuition congruence.
      - eapply inserts_ext; [|apply inserts_ret]. intros a b. split; [done|].
        intros (x & y & _ & Hy & _ & _ & _ & _ & Hk & [= Hd] & _).
        destruct (proj2 (group_member right k d' y)) as (docs & g & H1 & H2 & _); [done|]. congruence. }
  intros a b. unfold plausible. split.
  - intros [(x & y & Hxy)|(x & y & Hxy)]; exists x, y; intuition congruence.
  - intros (x & y & Hx & Hy & Ha & Hb & [Hk [Hd|[Hd Hp]]] & Hkx & Hdx); [left|right];
      exists x, y; split_and!; congruence.
Qed.
End Document.

Lemma inserts_candidates :
  inserts ids (connect_candidates (groups_of left) (groups_of right) renames) (edges renames left right).
Proof.
  unfold connect_candidates.
  eapply inserts_ext; [|apply (inserts_iter ids _ (fun row a b => exists x y,
    x ∈ left /\ y ∈ right /\ a = o_id x /\ b = o_id y /\ plausible renames x y /\ key_of x = row.1))].
  - intros a b. unfold edges. split; [intros (row & _ & x & y & Hxy); exists x, y; tauto|].
    intros (x & y & Hx & Hy & -> & -> & Hp).
    destruct (proj2 (group_member left (key_of x) (o_document x) x)) as (docs & g & H1 & H2 & H3); [done|].
    exists (key_of x, docs). split; [|by exists x, y]. apply bt_get_Some; [apply groups_wf|done].
  - intros [k documents] Hrow. cbn [fst snd]. apply bt_get_Some in Hrow; [|apply groups_wf].
    destruct (bt_get k (groups_of right)) as [candidate_documents|] eqn:E.
    + eapply inserts_ext; [|apply (inserts_iter ids _ (fun row a b => exists x y,
        x ∈ left /\ y ∈ right /\ a = o_id x /\ b = o_id y /\ plausible renames x y /\
        key_of x = k /\ o_document x = row.1))].
      * intros a b. split; [intros (row & _ & x & y & Hxy); exists x, y; tauto|].
        intros (x & y & Hx & Hy & -> & -> & Hp & Hk).
        destruct (proj2 (group_member left k (o_document x) x)) as (docs & g & H1 & H2 & H3); [done|].
        rewrite Hrow in H1. injection H1 as <-. exists (o_document x, g). destruct (group_wf _ _ _ _ _ Hrow H2) as [Hwf _].
        split; [by apply bt_get_Some|by exists x, y].
      * intros [d group] Hd. cbn [fst]. eapply inserts_document; [exact Hrow| |done].
        apply bt_get_Some; [|done].
        rewrite bt_get_groups, filter_match in Hrow. destruct Hrow as [_ ->]. apply documents_wf.
    + eapply inserts_ext; [|apply inserts_ret]. intros a b. split; [done|].
      intros (x & y & _ & Hy & _ & _ & [Hk _] & Hkx).
      destruct (proj2 (group_member right k (o_document y) y)) as (docs & g & H1 & _); [|congruence].
      split_and!; [done|congruence|done].
Qed.
End Plausible.

(** ** Components *)

Definition root_fn (f : ComponentForest.t) (id : Digest.t) : nat :=
  match (ComponentForest.root_position id f).1 with Ok r => r | _ => 0%nat end.

Lemma root_fn_spec f id : forest_wf f -> id ∈ ComponentForest.identities f -> root_of f id (root_fn f id).
Proof.
  intros Hwf Hid. destruct (root_position_spec f id Hwf Hid) as (r & f' & E & _ & Hr).
  unfold root_fn. by rewrite E.
Qed.

Lemma root_fn_same f f' id :
  forest_wf f -> same_forest f f' -> id ∈ ComponentForest.identities f -> root_fn f' id = root_fn f id.
Proof.
  intros Hwf Hs Hid. pose proof (same_forest_wf _ _ Hwf Hs) as Hwf'.
  apply (root_of_det f' id); [done| |].
  - apply root_fn_spec; [done|]. by rewrite (proj1 Hs).
  - apply (same_forest_root f f' _ _ Hs). by apply root_fn_spec.
Qed.

Lemma root_fn_represents f E a b :
  forest_wf f -> represents f E -> a ∈ ComponentForest.identities f -> b ∈ ComponentForest.identities f ->
  root_fn f a = root_fn f b <-> rtsc E a b.
Proof.
  intros Hwf Hrep Ha Hb. specialize (Hrep a b Ha Hb) as Hab. rewrite <- Hab.
  pose proof (root_fn_spec f a Hwf Ha) as Ra. pose proof (root_fn_spec f b Hwf Hb) as Rb. split.
  - intros Heq. exists (root_fn f a). split; [done|]. by rewrite Heq.
  - intros (r & H1 & H2). by rewrite (root_of_det f a _ r Hwf Ra H1), (root_of_det f b _ r Hwf Rb H2).
Qed.

Lemma bt_fold_ext {A K V} `{Ord K} (key key' : A -> K) (step : A -> option V -> V) l m :
  (forall x, x ∈ l -> key x = key' x) -> bt_fold key step l m = bt_fold key' step l m.
Proof.
  revert m. induction l as [|x l IH]; intros m Hk; [done|]. unfold bt_fold in *. cbn.
  rewrite (Hk x) by (by left). apply IH. intros y Hy. apply Hk. by right.
Qed.

Lemma group_loop_spec push ids g f :
  forest_wf f -> (forall id, id ∈ ids -> id ∈ ComponentForest.identities f) ->
  exists f', group_loop push ids g f =
    (Ok (bt_fold (root_fn f) (fun id o => push id (default ([], []) o)) ids g), f') /\ same_forest f f'.
Proof.
  revert g f. induction ids as [|id ids IH]; intros g f Hwf Hin; cbn [group_loop].
  { exists f. split; [done|]. apply same_forest_refl. apply Hwf. }
  assert (id ∈ ComponentForest.identities f) as Hid by (apply Hin; by left).
  destruct (root_position_spec f id Hwf Hid) as (r & f1 & E1 & S1 & _).
  destruct (IH (bt_upd r (fun members => push id (default ([], []) members)) g) f1) as (f2 & E2 & S2).
  - by eapply same_forest_wf.
  - intros x Hx. rewrite (proj1 S1). apply Hin. by right.
  - exists f2. split; [|by eapply same_forest_trans]. unfold sbind. rewrite E1, E2. f_equal. f_equal.
    unfold bt_fold at 2. cbn [fold_left]. unfold root_fn at 3. rewrite E1. cbn [fst].
    apply bt_fold_ext. intros x Hx. apply root_fn_same; [done|done|]. apply Hin. by right.
Qed.

Lemma fold_fst (xs : list Digest.t) o :
  fold_left (fun o id => Some (((default ([], []) o).1 ++ [id], (default ([], []) o).2))) xs o =
  match xs with [] => o | _ => Some ((default ([], []) o).1 ++ xs, (default ([], []) o).2) end
  :> option (list Digest.t * list Digest.t).
Proof.
  destruct xs as [|x xs]; [done|]. cbn [fold_left]. generalize (default ([], []) o). clear o.
  intros [u v]. cbn. revert u x. induction xs as [|y xs IH]; intros u x; [done|]. cbn.
  rewrite (IH (u ++ [x]) y). by rewrite <- app_assoc.
Qed.

Lemma fold_snd (xs : list Digest.t) o :
  fold_left (fun o id => Some (((default ([], []) o).1, (default ([], []) o).2 ++ [id]))) xs o =
  match xs with [] => o | _ => Some ((default ([], []) o).1, (default ([], []) o).2 ++ xs) end
  :> option (list Digest.t * list Digest.t).
Proof.
  destruct xs as [|x xs]; [done|]. cbn [fold_left]. generalize (default ([], []) o). clear o.
  intros [u v]. cbn. revert v x. induction xs as [|y xs IH]; intros v x; [done|]. cbn.
  rewrite (IH (v ++ [x]) y). by rewrite <- app_assoc.
Qed.

(** The grouping loops: base and candidate identities by root, in their order. *)
Definition grouping (rt : Digest.t -> nat) (base_ids candidate_ids : list Digest.t)
    : bt nat (list Digest.t * list Digest.t) :=
  bt_fold rt (fun id o => ((default ([], []) o).1, (default ([], []) o).2 ++ [id])) candidate_ids
    (bt_fold rt (fun id o => ((default ([], []) o).1 ++ [id], (default ([], []) o).2)) base_ids []).

Lemma grouping_wf rt base_ids candidate_ids : bt_wf (grouping rt base_ids candidate_ids).
Proof. apply bt_fold_wf, bt_fold_wf, bt_nil_wf. Qed.

Lemma bt_get_grouping rt base_ids candidate_ids r :
  bt_get r (grouping rt base_ids candidate_ids) =
  match filter (fun id => rt id = r) base_ids, filter (fun id => rt id = r) candidate_ids with
  | [], [] => None
  | B, C => Some (B, C)
  end.
Proof.
  unfold grouping.
  rewrite (bt_get_fold rt _ candidate_ids _ r) by apply bt_fold_wf, bt_nil_wf.
  rewrite (bt_get_fold rt _ base_ids [] r) by apply bt_nil_wf. cbn [bt_get].
  rewrite fold_fst, fold_snd. by destruct (filter _ base_ids), (filter _ candidate_ids).
Qed.

Lemma unmatched_true exact id : StronglySorted klt exact -> unmatched exact id = true <-> id ∉ exact.
Proof.
  intros Hs.
  assert (StronglySorted (fun a b => bytes_lt (Digest.as_bytes a) (Digest.as_bytes b)) exact) as Hs' by exact Hs.
  pose proof (binary_search_sorted _ _ (Digest.as_bytes id) Hs') as Hb.
  unfold unmatched. change (fun x => cmp x id) with (fun x => bytes_cmp (Digest.as_bytes x) (Digest.as_bytes id)).
  destruct (binary_search_by _ exact) as [i|].
  - split; [done|]. intros Hid. exfalso. apply Hid. destruct (proj1 Hb) as (x & Hx & E); [by eexists|].
    by apply Digest.eq in E as <-.
  - split; [|done]. intros _ Hid. destruct (proj2 Hb) as [? [=]]. by exists id.
Qed.

(** The observations of a side without an exact counterpart. *)
Definition unpaired (exact : list Digest.t) (os : list Observation) : list Observation :=
  filter (fun o => o_id o ∉ exact) os.

(** Its identities, in the order the code visits them. *)
Definition unpaired_ids (exact : list Digest.t) (pool : ObservationPool) : list Digest.t :=
  List.filter (unmatched exact) (bt_keys (positions pool)).

Section UnpairedFacts.
Variables (exact : list Digest.t) (os : list Observation) (pool : ObservationPool).
Hypothesis Hexact : StronglySorted klt exact.
Hypothesis Hpool : pool_of os pool.

Lemma elem_of_unpaired_ids id : id ∈ unpaired_ids exact pool <-> id ∈ map o_id (unpaired exact os).
Proof.
  unfold unpaired_ids. rewrite list_elem_of_In, filter_In, <- list_elem_of_In, unmatched_true by done.
  rewrite (elem_of_pool_keys os pool Hpool), !list_elem_of_fmap. unfold unpaired.
  setoid_rewrite list_elem_of_filter. naive_solver.
Qed.

Lemma unpaired_ids_sorted : StronglySorted klt (unpaired_ids exact pool).
Proof.
  unfold unpaired_ids. rewrite list_filter_bool. apply StronglySorted_filter. apply Hpool.
Qed.

Lemma unpaired_ids_NoDup : NoDup (unpaired_ids exact pool).
Proof.
  unfold unpaired_ids. rewrite list_filter_bool. apply NoDup_filter, bt_keys_NoDup. apply Hpool.
Qed.

Lemma unpaired_observations :
  exists l, map (pool_observation pool) (unpaired_ids exact pool) = map Ok l /\
    forall o, o ∈ l <-> o ∈ unpaired exact os.
Proof.
  destruct (pool_observations_Ok os pool Hpool (unpaired_ids exact pool)) as (l & E1 & E2 & E3).
  { intros id. rewrite elem_of_unpaired_ids, !list_elem_of_fmap. unfold unpaired.
    setoid_rewrite list_elem_of_filter. naive_solver. }
  exists l. split; [done|]. intros o. rewrite E3, elem_of_unpaired_ids, list_elem_of_fmap.
  unfold unpaired. setoid_rewrite list_elem_of_filter. split.
  - intros [Ho (o' & Hid & Hex & Ho')]. split; [by rewrite Hid|done].
  - intros [Hex Ho]. split; [done|]. by exists o.
Qed.
End UnpairedFacts.

Lemma bytes_sorted_id (l : list Digest.t) : NoDup l -> StronglySorted klt (sort_by id l).
Proof. intros Hn. apply (sort_by_strict id). by rewrite map_id. Qed.

Section ComponentsExact.
Context {H : Hashes} {HL : HashLaws H}.

(** The groups are the connected components of the plausible edges. *)
Lemma correlation_components_spec bs cs base candidate exact renames :
  pool_of bs base -> pool_of cs candidate -> StronglySorted klt exact ->
  (forall id, id ∈ map o_id bs -> id ∈ map o_id cs -> id ∈ exact) ->
  exists rt,
    correlation_components base candidate exact renames =
      Ok (grouping rt (unpaired_ids exact base) (unpaired_ids exact candidate)) /\
    forall a b, a ∈ unpaired_ids exact base ++ unpaired_ids exact candidate ->
      b ∈ unpaired_ids exact base ++ unpaired_ids exact candidate ->
      rt a = rt b <-> rtsc (edges renames (unpaired exact bs) (unpaired exact cs)) a b.
Proof.
  intros Hb Hc Hex Hboth. unfold correlation_components. cbv zeta.
  fold (unpaired_ids exact base) (unpaired_ids exact candidate).
  destruct (unpaired_observations exact bs base Hex Hb) as (lb & -> & Hlb).
  destruct (unpaired_observations exact cs candidate Hex Hc) as (lc & -> & Hlc).
  rewrite !observation_groups_Ok. fold (groups_of lb) (groups_of lc).
  set (B := unpaired_ids exact base). set (C := unpaired_ids exact candidate).
  assert (NoDup (B ++ C)) as Hn.
  { apply NoDup_app. split_and!; [by apply (unpaired_ids_NoDup _ bs)| |by apply (unpaired_ids_NoDup _ cs)].
    intros x Hx Hx'. apply (elem_of_unpaired_ids exact bs base Hex Hb) in Hx.
    apply (elem_of_unpaired_ids exact cs candidate Hex Hc) in Hx'.
    apply list_elem_of_fmap in Hx as (o & -> & [Hno Ho]%list_elem_of_filter).
    apply list_elem_of_fmap in Hx' as (o' & Heq & [_ Ho']%list_elem_of_filter).
    apply Hno, Hboth; apply list_elem_of_fmap; eauto. }
  set (ids := sort_by id (B ++ C)).
  assert (StronglySorted klt ids) as Hs by (by apply bytes_sorted_id).
  assert (forall x, x ∈ ids <-> x ∈ B ++ C) as Hids by (intros x; unfold ids; by rewrite sort_by_perm).
  assert (Forall (fun o => o_id o ∈ ids) lb) as Fb.
  { apply Forall_forall. intros o Ho. apply Hids, elem_of_app. left.
    apply (elem_of_unpaired_ids exact bs base Hex Hb), list_elem_of_fmap. exists o. split; [done|]. by apply Hlb. }
  assert (Forall (fun o => o_id o ∈ ids) lc) as Fc.
  { apply Forall_forall. intros o Ho. apply Hids, elem_of_app. right.
    apply (elem_of_unpaired_ids exact cs candidate Hex Hc), list_elem_of_fmap. exists o. split; [done|]. by apply Hlc. }
  destruct (inserts_candidates ids lb lc renames Fb Fc (ComponentForest.singletons ids) (fun _ _ => False)
    eq_refl (singletons_wf ids Hs) (singletons_represents ids Hs)) as (f & E & Hwf & Hi & Hrep).
  assert (forall x, x ∈ B ++ C -> x ∈ ComponentForest.identities f) as Hin by (intros x; by rewrite Hi, Hids).
  destruct (group_loop_spec (fun id members => (members.1 ++ [id], members.2)) B [] f Hwf)
    as (f1 & E1 & S1); [intros; apply Hin, elem_of_app; by left|].
  destruct (group_loop_spec (fun id members => (members.1, members.2 ++ [id])) C
    (bt_fold (root_fn f) (fun id o => ((default ([], []) o).1 ++ [id], (default ([], []) o).2)) B [])
    f1 (same_forest_wf _ _ Hwf S1)) as (f2 & E2 & S2).
  { intros x Hx. rewrite (proj1 S1). apply Hin, elem_of_app. by right. }
  exists (root_fn f). split.
  - unfold sbind. rewrite E, E1, E2. cbn [fst]. f_equal. unfold grouping. apply bt_fold_ext.
    intros x Hx. apply root_fn_same; [done|done|]. apply Hin, elem_of_app. by right.
  - intros a b Ha Hb'. rewrite (root_fn_represents f _ a b Hwf Hrep) by auto.
    split; apply rtsc_mono; unfold edges.
    + intros u v [[]|(x & y & Hx & Hy & Hxy)]. exists x, y. by rewrite <- Hlb, <- Hlc.
    + intros u v (x & y & Hx & Hy & Hxy). right. exists x, y. by rewrite Hlb, Hlc.
Qed.
End ComponentsExact.
