(* ===== verification/Correlate.v ===== *)
(** Correlation of two snapshot sides: [crates/amiss-scan/src/correlate.rs].
    Observations with one identity on both sides are exact rows; the others are
    joined by plausible edges, and every connected component is one row. *)
From Stdlib Require Import Strings.Byte Strings.String Lia Sorting.Sorted.
From stdpp Require Import base list numbers sorting relations.
From S2P Require Import Prelude Codec WireModel OrdMap Observation Forest PathPairs Components.

(** ** Rows *)

Definition located_projection (resolution : Resolution.t path) : option Digest.t :=
  match resolution with
  | Resolution.Resolved target
  | Resolution.UnsupportedSemantics (UnsupportedSemantics.Query target)
  | Resolution.UnsupportedSemantics (UnsupportedSemantics.CodeFragment target) =>
      Target.projection_digest target
  | Resolution.UnsupportedSemantics (UnsupportedSemantics.Fragment (TaggedBlobTarget.Blob blob)) =>
      BlobContent.projection_digest (bt_content blob)
  | Resolution.UnsupportedSemantics
      (UnsupportedSemantics.SiteRoute | UnsupportedSemantics.UnmodelledRoute
      | UnsupportedSemantics.NetworkPath | UnsupportedSemantics.AttributeDependent
      | UnsupportedSemantics.DuplicateLabel | UnsupportedSemantics.ExternalInventory
      | UnsupportedSemantics.RepositoryRoot | UnsupportedSemantics.OversizedDestination)
  | Resolution.Missing _ | Resolution.DeclaredUntracked _ | Resolution.TypeMismatch _
  | Resolution.UnsupportedTarget _ | Resolution.UnsupportedVersion _ | Resolution.Invalid _
  | Resolution.External _ => None
  end.

Definition derive (base candidate : Observation) (source : SourceChange.t) : TargetChange.t * Impact.t :=
  let left := o_resolution base in
  let right := o_resolution candidate in
  let source_changed := bool_decide (source = SourceChange.Changed) in
  let equal_impact := if source_changed then Impact.SubjectChanged else Impact.None in
  let not_comparable := (TargetChange.NotComparable, Impact.NotApplicable) in
  match located_projection left, located_projection right with
  | Some left_projection, Some right_projection =>
      if bool_decide (left_projection = right_projection) then (TargetChange.Equal, equal_impact)
      else
        let own_page :=
          match left, right with
          | Resolution.Resolved (Target.Blob left_blob), Resolution.Resolved (Target.Blob right_blob) =>
              bytes_eqb (bt_path left_blob) (o_document base)
              && bytes_eqb (bt_path right_blob) (o_document candidate)
          | _, _ => false
          end in
        if own_page then (TargetChange.Changed, equal_impact)
        else (TargetChange.Changed,
              if source_changed then Impact.DependencyAndSubjectCochanged
              else Impact.DependencyChangedSubjectUnchanged)
  | _, _ =>
      match left, right with
      | Resolution.Resolved _, Resolution.Resolved _ => not_comparable
      | Resolution.Missing left_missing, Resolution.Missing right_missing =>
          if bool_decide (left_missing = right_missing) then (TargetChange.Equal, equal_impact)
          else not_comparable
      | Resolution.DeclaredUntracked left_declared, Resolution.DeclaredUntracked right_declared =>
          if bool_decide (left_declared = right_declared) then (TargetChange.Equal, equal_impact)
          else not_comparable
      | Resolution.TypeMismatch left_target, Resolution.TypeMismatch right_target =>
          if bool_decide (left_target = right_target) then (TargetChange.Equal, equal_impact)
          else not_comparable
      | (Resolution.Missing _ | Resolution.TypeMismatch _), Resolution.Resolved _ =>
          (TargetChange.NewlyResolved, Impact.ReferenceResolved)
      | Resolution.Resolved _, (Resolution.Missing _ | Resolution.TypeMismatch _) =>
          (TargetChange.BecameMissing, Impact.NotApplicable)
      | _, _ => not_comparable
      end
  end.

Definition exact_comparison (left right : Observation) : Comparison :=
  let '(target_change, impact) := derive left right SourceChange.Equal in
  {| cm_outcome := Outcome.Exact;
     cm_reason := Reason.SameExtractionKeyAndProjection;
     cm_source_change := SourceChange.Equal;
     cm_base := Some left;
     cm_candidate := Some right;
     cm_alternatives_base := [];
     cm_alternatives_candidate := [];
     cm_target_change := target_change;
     cm_impact := impact |}.

Definition component_comparison (base_members candidate_members : list Observation)
    (renames : bt path path) : Comparison :=
  match base_members, candidate_members with
  | [left_member], [right_member] =>
      let across_rename :=
        negb (bytes_eqb (o_document left_member) (o_document right_member))
        && bool_decide (bt_get (o_document left_member) renames = Some (o_document right_member)) in
      let '(reason, source_change) :=
        if across_rename then (Reason.ExactDocumentRenameUnchangedProjection, SourceChange.Equal)
        else if bool_decide (o_projection_digest left_member = o_projection_digest right_member)
        then (Reason.SameIntentUnchangedProjection, SourceChange.Equal)
        else (Reason.SameIntentSourceChanged, SourceChange.Changed) in
      let '(target_change, impact) := derive left_member right_member source_change in
      {| cm_outcome := Outcome.Candidate;
         cm_reason := reason;
         cm_source_change := source_change;
         cm_base := Some left_member;
         cm_candidate := Some right_member;
         cm_alternatives_base := [];
         cm_alternatives_candidate := [];
         cm_target_change := target_change;
         cm_impact := impact |}
  | _, _ =>
      {| cm_outcome := Outcome.Ambiguous;
         cm_reason := Reason.MultipleCounterparts;
         cm_source_change := SourceChange.Unknown;
         cm_base := head base_members;
         cm_candidate := head candidate_members;
         cm_alternatives_base := tail base_members;
         cm_alternatives_candidate := tail candidate_members;
         cm_target_change := TargetChange.NotComparable;
         cm_impact := Impact.ObservationCorrelationAmbiguous |}
  end.

Definition isolated (observation : Observation) (is_base : bool) : Comparison :=
  let '(base, candidate) := if is_base then (Some observation, None) else (None, Some observation) in
  {| cm_outcome := Outcome.None;
     cm_reason := if is_base then Reason.RemovedObservation else Reason.NewObservation;
     cm_source_change := if is_base then SourceChange.Removed else SourceChange.Added;
     cm_base := base;
     cm_candidate := candidate;
     cm_alternatives_base := [];
     cm_alternatives_candidate := [];
     cm_target_change := TargetChange.NotComparable;
     cm_impact := if is_base then Impact.RemovedObservation else Impact.NewObservation |}.

(** ** The correlation *)

(** [for _ in 0..exact_count]; the two iterators are the lists that remain. *)
Fixpoint take_exact (exact_count : nat) (base candidate : list Observation)
    : res (list Comparison * list Observation * list Observation) ScanError.t :=
  match exact_count with
  | O => Ok ([], base, candidate)
  | S exact_count =>
      match base, candidate with
      | left_member :: base, right_member :: candidate =>
          if negb (bool_decide (o_id left_member = o_id right_member)) then Err ScanError.Internal
          else
            let? (rows, base, candidate) := take_exact exact_count base candidate in
            Ok (exact_comparison left_member right_member :: rows, base, candidate)
      | _, _ => Err ScanError.Internal
      end
  end.

(** The row of one component. *)
Definition component_row (base_members candidate_members : list Observation) (renames : bt path path)
    : res Comparison ScanError.t :=
  match length base_members, length candidate_members with
  | 1%nat, 0%nat =>
      let? observation := ok_or (head base_members) ScanError.Internal in Ok (isolated observation true)
  | 0%nat, 1%nat =>
      let? observation := ok_or (head candidate_members) ScanError.Internal in Ok (isolated observation false)
  | _, _ => Ok (component_comparison base_members candidate_members renames)
  end.

(** [for (base_count, candidate_count) in components]. *)
Fixpoint take_components (components : list (nat * nat)) (renames : bt path path)
    (base candidate : list Observation)
    : res (list Comparison * list Observation * list Observation) ScanError.t :=
  match components with
  | [] => Ok ([], base, candidate)
  | (base_count, candidate_count) :: components =>
      let base_members := take base_count base in
      let candidate_members := take candidate_count candidate in
      if negb (length base_members =? base_count)%nat || negb (length candidate_members =? candidate_count)%nat
      then Err ScanError.Internal
      else
        let? row := component_row base_members candidate_members renames in
        let? (rows, base, candidate) :=
          take_components components renames (drop base_count base) (drop candidate_count candidate) in
        Ok (row :: rows, base, candidate)
  end.

Definition row_key (comparison : Comparison) : option Digest.t * option Digest.t :=
  (option_map o_id (cm_candidate comparison), option_map o_id (cm_base comparison)).

(** The duplicate check of the aligned path. *)
Fixpoint check_distinct (previous : option Digest.t) (comparisons : list Comparison) : res unit ScanError.t :=
  match comparisons with
  | [] => Ok tt
  | comparison :: comparisons =>
      let? base := ok_or (cm_base comparison) ScanError.Internal in
      if bool_decide (previous = Some (o_id base)) then Err ScanError.Internal
      else check_distinct (Some (o_id base)) comparisons
  end.

Section Correlate.
Context {H : Hashes} {HL : HashLaws H}.

Definition correlate_unaligned (base candidate : Side) : res (list Comparison) ScanError.t :=
  let? base_pool := pool_new (s_observations base) in
  let? candidate_pool := pool_new (s_observations candidate) in
  let renames := unique_path_pairs (s_documents base) (s_documents candidate) in
  let exact_ids :=
    List.filter (fun id => bt_mem id (positions candidate_pool)) (bt_keys (positions base_pool)) in
  let? grouped := correlation_components base_pool candidate_pool exact_ids renames in
  let groups := map snd grouped in
  let base_order := exact_ids ++ flat_map fst groups in
  let candidate_order := exact_ids ++ flat_map snd groups in
  let? base := into_order base_pool base_order in
  let? candidate := into_order candidate_pool candidate_order in
  let? (exact_rows, base, candidate) := take_exact (length exact_ids) base candidate in
  let? (component_rows, base, candidate) :=
    take_components (map (fun members => (length members.1, length members.2)) groups) renames
      base candidate in
  match base, candidate with
  | [], [] => Ok (exact_rows ++ component_rows)
  | _, _ => Err ScanError.Internal
  end.

Definition aligned (base candidate : Side) : bool :=
  (length (s_observations base) =? length (s_observations candidate))%nat
  && forallb (fun row => bool_decide (o_id row.1 = o_id row.2))
       (zip (s_observations base) (s_observations candidate)).

Definition correlate (base candidate : Side) : res (list Comparison) ScanError.t :=
  let? comparisons :=
    if aligned base candidate
    then Ok (zip_with exact_comparison (s_observations base) (s_observations candidate))
    else correlate_unaligned base candidate in
  let comparisons := sort_by row_key comparisons in
  if aligned base candidate then
    let? _ := check_distinct None comparisons in Ok comparisons
  else Ok comparisons.
End Correlate.

(** ** Members of rows *)

Definition row_base (row : Comparison) : list Observation :=
  option_list (cm_base row) ++ cm_alternatives_base row.
Definition row_candidate (row : Comparison) : list Observation :=
  option_list (cm_candidate row) ++ cm_alternatives_candidate row.

Lemma exact_members l r : row_base (exact_comparison l r) = [l] /\ row_candidate (exact_comparison l r) = [r].
Proof. unfold exact_comparison. by destruct (derive _ _ _). Qed.

(** The row of a component as a total function. *)
Definition row_of (renames : bt path path) (members : list Observation * list Observation) : Comparison :=
  match members with
  | ([o], []) => isolated o true
  | ([], [o]) => isolated o false
  | (bm, cm) => component_comparison bm cm renames
  end.

Lemma component_row_Ok bm cm renames : component_row bm cm renames = Ok (row_of renames (bm, cm)).
Proof. unfold component_row. by destruct bm as [|? [|? ?]], cm as [|? [|? ?]]. Qed.

Lemma component_members bm cm renames :
  row_base (component_comparison bm cm renames) = bm /\ row_candidate (component_comparison bm cm renames) = cm.
Proof.
  unfold component_comparison. destruct bm as [|b [|b' bm]], cm as [|c [|c' cm]]; try done.
  destruct (_ && _); [|destruct (bool_decide _)]; by destruct (derive _ _ _).
Qed.

Lemma row_of_members renames members :
  row_base (row_of renames members) = members.1 /\ row_candidate (row_of renames members) = members.2.
Proof.
  destruct members as [[|b [|b' bm]] [|c [|c' cm]]]; try done; by apply component_members.
Qed.

Lemma take_exact_Ok ls rs base candidate :
  map o_id ls = map o_id rs ->
  take_exact (length ls) (ls ++ base) (rs ++ candidate) = Ok (zip_with exact_comparison ls rs, base, candidate).
Proof.
  revert rs. induction ls as [|l ls IH]; intros [|r rs] Hm; try done. cbn [map] in Hm. injection Hm as Hid Hm.
  cbn [length app take_exact zip_with]. rewrite bool_decide_true by done. cbn [negb]. by rewrite IH.
Qed.

Lemma map_app_inv {A B} (f : A -> B) l xs ys :
  map f l = xs ++ ys -> exists l1 l2, l = l1 ++ l2 /\ map f l1 = xs /\ map f l2 = ys.
Proof.
  revert l. induction xs as [|x xs IH]; intros l E; [by exists [], l|].
  destruct l as [|a l]; [done|]. cbn in E. injection E as Ex E. destruct (IH l E) as (l1 & l2 & -> & E1 & E2).
  exists (a :: l1), l2. cbn. by rewrite Ex, E1.
Qed.

(** The members of the components, cut out of the ordered observations. *)
Lemma take_components_Ok renames (groups : list (list Digest.t * list Digest.t)) base candidate :
  map o_id base = flat_map fst groups -> map o_id candidate = flat_map snd groups ->
  exists members,
    take_components (map (fun g => (length g.1, length g.2)) groups) renames base candidate =
      Ok (map (row_of renames) members, [], []) /\
    Forall2 (fun g m => map o_id m.1 = g.1 /\ map o_id m.2 = g.2) groups members /\
    base = flat_map fst members /\ candidate = flat_map snd members.
Proof.
  revert base candidate. induction groups as [|[gb gc] groups IH]; intros base candidate Eb Ec.
  { cbn in *. apply map_eq_nil in Eb, Ec. subst. by exists []. }
  cbn [flat_map fst snd] in Eb, Ec.
  apply map_app_inv in Eb as (b1 & b2 & -> & E1 & E2). apply map_app_inv in Ec as (c1 & c2 & -> & E3 & E4).
  destruct (IH b2 c2 E2 E4) as (members & Et & Hf & -> & ->).
  exists ((b1, c1) :: members). split_and!; [|by constructor|done|done].
  cbn [map take_components fst snd]. subst gb gc. rewrite !length_map.
  rewrite !take_app_length, !drop_app_length, !Nat.eqb_refl. cbn [negb orb].
  rewrite component_row_Ok, Et. done.
Qed.

(** ** Orders *)

Lemma flat_map_upd {K V B} `{Ord K} (g : V -> list B) k (f : option V -> V) (xs : list B) m :
  (forall v, g (f (Some v)) ≡ₚ g v ++ xs) -> g (f None) ≡ₚ xs ->
  flat_map (fun row => g row.2) (bt_upd k f m) ≡ₚ flat_map (fun row => g row.2) m ++ xs.
Proof.
  intros Hsome Hnone. induction m as [|[k' v] m IH]; cbn [bt_upd flat_map].
  { cbn. by rewrite Hnone, app_nil_r. }
  destruct (cmp k k'); cbn [flat_map snd].
  - rewrite Hsome, <- !app_assoc. by rewrite (Permutation_app_comm xs).
  - rewrite Hnone, (Permutation_app_comm xs). done.
  - by rewrite IH, app_assoc.
Qed.

Lemma flat_map_fold {A K V B} `{Ord K} (g : V -> list B) (key : A -> K) (step : A -> option V -> V)
    (val : A -> list B) l m :
  (forall x v, g (step x (Some v)) ≡ₚ g v ++ val x) -> (forall x, g (step x None) ≡ₚ val x) ->
  flat_map (fun row => g row.2) (bt_fold key step l m) ≡ₚ flat_map (fun row => g row.2) m ++ flat_map val l.
Proof.
  intros Hs Hn. induction l as [|x l IH] using rev_ind; [by rewrite app_nil_r|].
  rewrite bt_fold_snoc, flat_map_upd by done. rewrite IH, flat_map_app. cbn [flat_map].
  by rewrite app_nil_r, app_assoc.
Qed.

Lemma flat_map_singleton {A} (l : list A) : flat_map (fun x => [x]) l = l.
Proof. induction l as [|x l IH]; [done|]. cbn. by rewrite IH. Qed.

Lemma flat_map_empty {A B} (l : list A) : flat_map (fun _ => @nil B) l = [].
Proof. by induction l. Qed.

Lemma flat_map_map {A B C} (f : A -> B) (g : B -> list C) l : flat_map g (map f l) = flat_map (fun x => g (f x)) l.
Proof. induction l as [|x l IH]; [done|]. cbn. by rewrite IH. Qed.

Lemma grouping_base rt B C : flat_map fst (map snd (grouping rt B C)) ≡ₚ B.
Proof.
  rewrite flat_map_map. unfold grouping.
  rewrite (flat_map_fold fst rt _ (fun _ => [])), (flat_map_fold fst rt _ (fun x => [x])); try done.
  - by rewrite flat_map_singleton, flat_map_empty, app_nil_r.
  - intros x v. cbn. by rewrite app_nil_r.
Qed.

Lemma grouping_candidate rt B C : flat_map snd (map snd (grouping rt B C)) ≡ₚ C.
Proof.
  rewrite flat_map_map. unfold grouping.
  rewrite (flat_map_fold snd rt _ (fun x => [x])), (flat_map_fold snd rt _ (fun _ => [])); try done.
  - by rewrite flat_map_singleton, flat_map_empty.
  - intros x v. cbn. by rewrite app_nil_r.
Qed.

(** ** What the rows are *)

Lemma unpaired_eq e e' os :
  (forall id, id ∈ map o_id os -> id ∈ e <-> id ∈ e') -> unpaired e os = unpaired e' os.
Proof.
  intros He. unfold unpaired. induction os as [|o os IH]; [done|].
  assert (o_id o ∈ e <-> o_id o ∈ e') as Ho by (apply He; by left).
  specialize (IH (fun id Hid => He id (list_elem_of_further _ _ _ Hid))).
  destruct (decide (o_id o ∈ e)) as [Hin|Hin].
  - rewrite !filter_cons_False; [done|naive_solver|naive_solver].
  - rewrite !filter_cons_True; [by rewrite IH|naive_solver|done].
Qed.

Section Explained.
Context {H : Hashes} {HL : HashLaws H}.

(** [m] holds all of one connected component of the edges [E] between [lb]
    and [lc], each side in identity order. *)
Definition is_component (E : relation Digest.t) (lb lc : list Observation)
    (m : list Observation * list Observation) : Prop :=
  StronglySorted klt (map o_id m.1) /\ StronglySorted klt (map o_id m.2) /\
  exists x, x ∈ map o_id (m.1 ++ m.2) /\
    (forall o, o ∈ m.1 <-> o ∈ lb /\ rtsc E x (o_id o)) /\
    (forall o, o ∈ m.2 <-> o ∈ lc /\ rtsc E x (o_id o)).

(** The observations of one side whose identity the other side lacks, and
    the edges between them. *)
Definition base_only (bs cs : list Observation) := unpaired (map o_id cs) bs.
Definition candidate_only (bs cs : list Observation) := unpaired (map o_id bs) cs.
Definition candidate_edges (renames : bt path path) (bs cs : list Observation) : relation Digest.t :=
  edges renames (base_only bs cs) (candidate_only bs cs).

(** [rows] are one exact row per pair of equal identities and one row per
    component, and every observation is in one of them. *)
Record explained (renames : bt path path) (bs cs : list Observation) (rows : list Comparison)
    (pairs : list (Observation * Observation)) (members : list (list Observation * list Observation))
    : Prop := {
  ex_rows : rows ≡ₚ map (fun p => exact_comparison p.1 p.2) pairs ++ map (row_of renames) members;
  ex_base : map fst pairs ++ flat_map fst members ≡ₚ bs;
  ex_candidate : map snd pairs ++ flat_map snd members ≡ₚ cs;
  ex_same : Forall (fun p => o_id p.1 = o_id p.2) pairs;
  ex_components :
    Forall (is_component (candidate_edges renames bs cs) (base_only bs cs) (candidate_only bs cs)) members
}.

Lemma zip_with_pairs ls rs :
  length ls = length rs ->
  zip_with exact_comparison ls rs = map (fun p => exact_comparison p.1 p.2) (zip ls rs) /\
  map fst (zip ls rs) = ls /\ map snd (zip ls rs) = rs.
Proof.
  revert rs. induction ls as [|l ls IH]; intros [|r rs] Hl; try done. injection Hl as Hl.
  destruct (IH rs Hl) as (E1 & E2 & E3). cbn in *. by rewrite E1, E2, E3.
Qed.

Lemma zip_same_ids ls rs : map o_id ls = map o_id rs -> Forall (fun p => o_id p.1 = o_id p.2) (zip ls rs).
Proof.
  revert rs. induction ls as [|l ls IH]; intros [|r rs] E; try done; [constructor..|].
  injection E as E1 E2. constructor; [done|]. by apply IH.
Qed.

(** The members found for a group of identities are the observations with them. *)
Lemma members_of_ids os (ms l : list Observation) (U : list Digest.t) (P : Digest.t -> Prop)
    `{!forall x, Decision (P x)} :
  NoDup (map o_id os) -> (forall o, o ∈ ms -> o ∈ os) -> (forall o, o ∈ l -> o ∈ os) ->
  (forall id, id ∈ U <-> id ∈ map o_id l) -> map o_id ms = filter P U ->
  forall o, o ∈ ms <-> o ∈ l /\ P (o_id o).
Proof.
  intros Hn Hms Hl HU Em o. split.
  - intros Ho. assert (o_id o ∈ map o_id ms) as Hid by (apply list_elem_of_fmap; eauto).
    rewrite Em in Hid. apply list_elem_of_filter in Hid as [HP Hid]. split; [|done].
    apply HU, list_elem_of_fmap in Hid as (o' & Heq & Ho').
    by rewrite (NoDup_fmap_unique o_id os o o' Hn (Hms _ Ho) (Hl _ Ho') Heq).
  - intros [Ho HP]. assert (o_id o ∈ map o_id ms) as Hid.
    { rewrite Em. apply list_elem_of_filter. split; [done|]. apply HU, list_elem_of_fmap. eauto. }
    apply list_elem_of_fmap in Hid as (o' & Heq & Ho').
    by rewrite (NoDup_fmap_unique o_id os o o' Hn (Hl _ Ho) (Hms _ Ho') Heq).
Qed.

Lemma elem_of_grouping rt B C g :
  g ∈ map snd (grouping rt B C) ->
  exists r, g.1 = filter (fun id => rt id = r) B /\ g.2 = filter (fun id => rt id = r) C /\ g.1 ++ g.2 <> [].
Proof.
  intros ([r g'] & -> & Hin)%list_elem_of_fmap. cbn [snd]. exists r.
  apply bt_get_Some in Hin; [|apply grouping_wf]. rewrite bt_get_grouping in Hin.
  destruct (filter _ B), (filter _ C); by simplify_eq/=.
Qed.
End Explained.

Lemma and_iff_compat_l' (A B C : Prop) : (A -> B <-> C) -> A /\ B <-> A /\ C.
Proof. tauto. Qed.

Section Unaligned.
Context {H : Hashes} {HL : HashLaws H}.
Variables (bs cs : list Observation) (base candidate : ObservationPool) (renames : bt path path).
Hypothesis Hbase : pool_of bs base.
Hypothesis Hcandidate : pool_of cs candidate.

Let exact := List.filter (fun id => bt_mem id (positions candidate)) (bt_keys (positions base)).

Lemma exact_sorted : StronglySorted klt exact.
Proof. unfold exact. rewrite list_filter_bool. apply StronglySorted_filter. apply Hbase. Qed.

Lemma elem_of_exact id : id ∈ exact <-> id ∈ map o_id bs /\ id ∈ map o_id cs.
Proof.
  unfold exact. rewrite list_elem_of_In, filter_In, <- list_elem_of_In.
  rewrite bt_mem_true by apply Hcandidate.
  by rewrite (elem_of_pool_keys bs base Hbase), (elem_of_pool_keys cs candidate Hcandidate).
Qed.

Lemma exact_base_only : unpaired exact bs = base_only bs cs.
Proof. apply unpaired_eq. intros id Hid. rewrite elem_of_exact. naive_solver. Qed.

Lemma exact_candidate_only : unpaired exact cs = candidate_only bs cs.
Proof. apply unpaired_eq. intros id Hid. rewrite elem_of_exact. naive_solver. Qed.

Lemma exact_order os pool :
  pool_of os pool -> (forall id, id ∈ exact -> id ∈ map o_id os) ->
  exact ++ unpaired_ids exact pool ≡ₚ map o_id os.
Proof.
  intros Hpool Hsub. apply NoDup_Permutation.
  - apply NoDup_app. split_and!.
    + unfold exact. apply NoDup_ListNoDup, List.NoDup_filter, NoDup_ListNoDup, bt_keys_NoDup, Hbase.
    + intros id Hid Hid'. apply (elem_of_unpaired_ids exact os pool exact_sorted Hpool) in Hid'.
      apply list_elem_of_fmap in Hid' as (o & -> & [Hno _]%list_elem_of_filter). done.
    + by apply (unpaired_ids_NoDup exact os).
  - apply Hpool.
  - intros id. rewrite elem_of_app, (elem_of_unpaired_ids exact os pool exact_sorted Hpool).
    unfold unpaired. rewrite !list_elem_of_fmap. setoid_rewrite list_elem_of_filter. split.
    + intros [Hid%Hsub%list_elem_of_fmap|(o & -> & _ & Ho)]; eauto.
    + intros (o & -> & Ho). destruct (decide (o_id o ∈ exact)); [by left|right; eauto].
Qed.

(** A group of identities and the observations with them. *)
Lemma group_is_component rt g m :
  (forall a b, a ∈ unpaired_ids exact base ++ unpaired_ids exact candidate ->
     b ∈ unpaired_ids exact base ++ unpaired_ids exact candidate ->
     rt a = rt b <-> rtsc (edges renames (unpaired exact bs) (unpaired exact cs)) a b) ->
  g ∈ map snd (grouping rt (unpaired_ids exact base) (unpaired_ids exact candidate)) ->
  map o_id m.1 = g.1 -> map o_id m.2 = g.2 ->
  (forall o, o ∈ m.1 -> o ∈ bs) -> (forall o, o ∈ m.2 -> o ∈ cs) ->
  is_component (candidate_edges renames bs cs) (base_only bs cs) (candidate_only bs cs) m.
Proof.
  intros Hrt (r & E1 & E2 & Hne)%elem_of_grouping M1 M2 S1 S2. rewrite E1 in M1. rewrite E2 in M2.
  unfold candidate_edges. rewrite <- exact_base_only, <- exact_candidate_only.
  assert (forall o, o ∈ m.1 <-> o ∈ unpaired exact bs /\ rt (o_id o) = r) as HB.
  { apply (members_of_ids bs m.1 _ (unpaired_ids exact base) (fun id => rt id = r)); [apply Hbase|done| | |done].
    - intros o [_ Ho]%list_elem_of_filter. done.
    - intros id. by apply (elem_of_unpaired_ids exact bs base exact_sorted). }
  assert (forall o, o ∈ m.2 <-> o ∈ unpaired exact cs /\ rt (o_id o) = r) as HC.
  { apply (members_of_ids cs m.2 _ (unpaired_ids exact candidate) (fun id => rt id = r)); [apply Hcandidate|done| | |done].
    - intros o [_ Ho]%list_elem_of_filter. done.
    - intros id. by apply (elem_of_unpaired_ids exact cs candidate exact_sorted). }
  assert (forall o, o ∈ unpaired exact bs -> o_id o ∈ unpaired_ids exact base ++ unpaired_ids exact candidate) as UB.
  { intros o Ho. apply elem_of_app. left.
    apply (elem_of_unpaired_ids exact bs base exact_sorted Hbase), list_elem_of_fmap. eauto. }
  assert (forall o, o ∈ unpaired exact cs -> o_id o ∈ unpaired_ids exact base ++ unpaired_ids exact candidate) as UC.
  { intros o Ho. apply elem_of_app. right.
    apply (elem_of_unpaired_ids exact cs candidate exact_sorted Hcandidate), list_elem_of_fmap. eauto. }
  split_and!.
  - rewrite M1. apply StronglySorted_filter. by apply (unpaired_ids_sorted exact bs base).
  - rewrite M2. apply StronglySorted_filter. by apply (unpaired_ids_sorted exact cs candidate).
  - rewrite E1, E2, <- M1, <- M2, <- map_app in Hne.
    destruct (m.1 ++ m.2) as [|o ms] eqn:Em; [done|].
    assert (rt (o_id o) = r /\ o_id o ∈ unpaired_ids exact base ++ unpaired_ids exact candidate) as [Hr Ho].
    { assert (o ∈ m.1 ++ m.2) as [Ho|Ho]%elem_of_app by (rewrite Em; by left).
      - apply HB in Ho as [Ho Hr]. split; [done|by apply UB].
      - apply HC in Ho as [Ho Hr]. split; [done|by apply UC]. }
    exists (o_id o). split_and!; [by left| |].
    + intros o'. rewrite HB. apply and_iff_compat_l'. intros Ho'. rewrite <- Hrt by auto. rewrite Hr. naive_solver.
    + intros o'. rewrite HC. apply and_iff_compat_l'. intros Ho'. rewrite <- Hrt by auto. rewrite Hr. naive_solver.
Qed.
End Unaligned.

Section CorrelateFacts.
Context {H : Hashes} {HL : HashLaws H}.

Definition side_renames (base candidate : Side) : bt path path :=
  unique_path_pairs (s_documents base) (s_documents candidate).

Lemma correlate_unaligned_Ok base candidate :
  NoDup (map o_id (s_observations base)) -> NoDup (map o_id (s_observations candidate)) ->
  exists rows pairs members,
    correlate_unaligned base candidate = Ok rows /\
    explained (side_renames base candidate) (s_observations base) (s_observations candidate)
      rows pairs members.
Proof.
  intros Hb Hc. unfold correlate_unaligned.
  destruct (pool_new_Ok _ Hb) as (pb & -> & Pb). destruct (pool_new_Ok _ Hc) as (pc & -> & Pc).
  set (bs := s_observations base) in *. set (cs := s_observations candidate) in *.
  cbv zeta. fold (side_renames base candidate). set (renames := side_renames base candidate).
  set (exact := List.filter _ _).
  assert (StronglySorted klt exact) as Hex by apply (exact_sorted bs pb pc Pb).
  pose proof (elem_of_exact bs cs pb pc Pb Pc) as Hel. fold exact in Hel.
  destruct (correlation_components_spec bs cs pb pc exact renames Pb Pc Hex) as (rt & -> & Hrt).
  { intros id H1 H2. by apply Hel. }
  set (groups := map snd (grouping rt (unpaired_ids exact pb) (unpaired_ids exact pc))).
  destruct (into_order_Ok bs pb (exact ++ flat_map fst groups) Pb) as (lb & -> & Mb & Pmb).
  { unfold groups. rewrite grouping_base. apply (exact_order bs pb pc Pb bs pb Pb). intros id Hid. by apply Hel. }
  destruct (into_order_Ok cs pc (exact ++ flat_map snd groups) Pc) as (lc & -> & Mc & Pmc).
  { unfold groups. rewrite grouping_candidate. apply (exact_order bs pb pc Pb cs pc Pc). intros id Hid. by apply Hel. }
  apply map_app_inv in Mb as (eb & rb & -> & Eb & Rb). apply map_app_inv in Mc as (ec & rc & -> & Ec & Rc).
  assert (length exact = length eb) as -> by (by rewrite <- Eb, length_map).
  rewrite take_exact_Ok by congruence.
  destruct (take_components_Ok renames groups rb rc Rb Rc) as (members & -> & Hf & -> & ->).
  destruct (zip_with_pairs eb ec) as (Z1 & Z2 & Z3).
  { rewrite <- (length_map o_id eb), <- (length_map o_id ec). congruence. }
  eexists _, (zip eb ec), members. split; [reflexivity|]. split.
  - by rewrite Z1.
  - by rewrite Z2.
  - by rewrite Z3.
  - apply zip_same_ids. congruence.
  - apply Forall_forall. intros m Hm.
    assert (exists g, g ∈ groups /\ map o_id m.1 = g.1 /\ map o_id m.2 = g.2) as (g & Hg & M1 & M2).
    { apply list_elem_of_lookup in Hm as [i Hi].
      destruct (Forall2_lookup_r _ _ _ _ _ Hf Hi) as (g & Hg & M1 & M2).
      exists g. split_and!; [by eapply list_elem_of_lookup_2|done|done]. }
    eapply (group_is_component bs cs pb pc renames Pb Pc rt g m Hrt Hg M1 M2).
    + intros o Ho. rewrite <- Pmb, elem_of_app. right. apply list_elem_of_In, in_flat_map. exists m.
      by rewrite <- !list_elem_of_In.
    + intros o Ho. rewrite <- Pmc, elem_of_app. right. apply list_elem_of_In, in_flat_map. exists m.
      by rewrite <- !list_elem_of_In.
Qed.

Lemma correlate_unaligned_Err base candidate :
  ~ (NoDup (map o_id (s_observations base)) /\ NoDup (map o_id (s_observations candidate))) ->
  correlate_unaligned base candidate = Err ScanError.Internal.
Proof.
  intros Hn. unfold correlate_unaligned.
  destruct (decide (NoDup (map o_id (s_observations base)))) as [Hb|Hb]; [|by rewrite (pool_new_Err _ Hb)].
  destruct (pool_new_Ok _ Hb) as (pb & -> & _).
  by rewrite (pool_new_Err (s_observations candidate)) by tauto.
Qed.

(** *** The aligned path *)

Lemma aligned_true base candidate :
  aligned base candidate = true <-> map o_id (s_observations base) = map o_id (s_observations candidate).
Proof.
  unfold aligned. generalize (s_observations base) (s_observations candidate). intros ls.
  induction ls as [|l ls IH]; intros [|r rs]; try done. cbn. rewrite andb_true_iff in *. cbn.
  specialize (IH rs). rewrite !andb_true_iff, bool_decide_eq_true in *. split.
  - intros (Hl & Hid & Hf). f_equal; [done|]. by apply IH.
  - intros E. injection E as E1 E2. apply IH in E2 as [? ?]. done.
Qed.

Lemma aligned_explained base candidate :
  aligned base candidate = true ->
  explained (side_renames base candidate) (s_observations base) (s_observations candidate)
    (zip_with exact_comparison (s_observations base) (s_observations candidate))
    (zip (s_observations base) (s_observations candidate)) [].
Proof.
  intros Ha%aligned_true. destruct (zip_with_pairs (s_observations base) (s_observations candidate)) as (Z1 & Z2 & Z3).
  { rewrite <- (length_map o_id (s_observations base)), Ha. apply length_map. }
  split.
  - by rewrite Z1, app_nil_r.
  - by rewrite Z2, app_nil_r.
  - by rewrite Z3, app_nil_r.
  - by apply zip_same_ids.
  - constructor.
Qed.

Lemma exact_rows_bases (ls rs : list Observation) :
  length ls = length rs ->
  map (fun row => option_map o_id (cm_base row)) (zip_with exact_comparison ls rs) = map (fun o => Some (o_id o)) ls.
Proof.
  revert rs. induction ls as [|l ls IH]; intros [|r rs] Hl; try done. injection Hl as Hl.
  cbn [zip_with map]. rewrite IH by done. f_equal. unfold exact_comparison. by destruct (derive _ _ _).
Qed.
End CorrelateFacts.

(** ** Distinct row keys *)

(** The primaries of a row are the first of its members. *)
Definition primaries_first (row : Comparison) : Prop :=
  cm_base row = head (row_base row) /\ cm_candidate row = head (row_candidate row).

Lemma exact_primaries l r : primaries_first (exact_comparison l r).
Proof. unfold exact_comparison. by destruct (derive _ _ _). Qed.

Lemma row_of_primaries renames m : primaries_first (row_of renames m).
Proof.
  unfold primaries_first. destruct (row_of_members renames m) as [-> ->].
  destruct m as [[|b [|b' bm]] [|c [|c' cm]]]; try done. unfold row_of, component_comparison. cbn.
  destruct (_ && _); [|destruct (bool_decide _)]; by destruct (derive _ _ _).
Qed.

Definition tags (row : Comparison) : list (Digest.t + Digest.t) :=
  map (fun o => inl (o_id o)) (row_candidate row) ++ map (fun o => inr (o_id o)) (row_base row).

Definition first_tag (key : option Digest.t * option Digest.t) : option (Digest.t + Digest.t) :=
  match key.1 with Some id => Some (inl id) | None => option_map inr key.2 end.

Lemma head_tags row : primaries_first row -> head (tags row) = first_tag (row_key row).
Proof.
  intros [Hb Hc]. unfold first_tag, row_key, tags. rewrite Hb, Hc. cbn.
  destruct (row_candidate row) as [|c cm]; [|done]. by destruct (row_base row).
Qed.

Lemma flat_map_tags rows :
  flat_map tags rows ≡ₚ
  map (fun o => inl (o_id o)) (flat_map row_candidate rows) ++ map (fun o => inr (o_id o)) (flat_map row_base rows).
Proof.
  induction rows as [|row rows IH]; [done|]. cbn [flat_map]. rewrite IH, !map_app. unfold tags.
  rewrite <- !app_assoc. apply Permutation_app_head. rewrite !app_assoc. apply Permutation_app_tail.
  apply Permutation_app_comm.
Qed.

Lemma NoDup_heads {A B} (f : A -> list B) (l : list A) :
  Forall (fun x => f x <> []) l -> NoDup (flat_map f l) -> NoDup (map (fun x => head (f x)) l).
Proof.
  induction 1 as [|x l Hx Hl IH]; intros Hn; [constructor|]. cbn in Hn.
  apply NoDup_app in Hn as (_ & Hdis & Hn). cbn. apply NoDup_cons. split; [|by apply IH].
  intros (y & Hy & Hin)%list_elem_of_fmap. rewrite Forall_forall in Hl. specialize (Hl y Hin).
  destruct (f x) as [|b bx] eqn:Ex; [done|]. destruct (f y) as [|b' by'] eqn:Ey; [done|]. cbn in Hy. simplify_eq.
  apply (Hdis b'); [by left|]. apply list_elem_of_In, in_flat_map. exists y.
  rewrite <- !list_elem_of_In, Ey. split; [done|by left].
Qed.

Lemma or_iff (A B C D : Prop) : (A <-> C) -> (B <-> D) -> A \/ B <-> C \/ D.
Proof. tauto. Qed.

Section ExplainedFacts.
Context {H : Hashes} {HL : HashLaws H}.
Variables (renames : bt path path) (bs cs : list Observation) (rows : list Comparison).
Variables (pairs : list (Observation * Observation)) (members : list (list Observation * list Observation)).
Hypothesis Hex : explained renames bs cs rows pairs members.

Lemma explained_row row :
  row ∈ rows <->
  (exists l r, (l, r) ∈ pairs /\ row = exact_comparison l r) \/
  (exists m, m ∈ members /\ row = row_of renames m).
Proof.
  rewrite (ex_rows _ _ _ _ _ _ Hex), elem_of_app, !list_elem_of_fmap. apply or_iff; [|naive_solver].
  split; [intros ([l r] & -> & Hin); eauto|intros (l & r & Hin & ->); by exists (l, r)].
Qed.

Lemma explained_base : flat_map row_base rows ≡ₚ bs.
Proof.
  rewrite (ex_rows _ _ _ _ _ _ Hex), flat_map_app, !flat_map_map, <- (ex_base _ _ _ _ _ _ Hex).
  apply Permutation_app.
  - clear. induction pairs as [|[l r] ps IH]; [done|]. cbn [flat_map map fst]. rewrite (proj1 (exact_members _ _)).
    cbn. by rewrite IH.
  - clear. induction members as [|m ms IH]; [done|]. cbn [flat_map]. by rewrite IH, (proj1 (row_of_members _ _)).
Qed.

Lemma explained_candidate : flat_map row_candidate rows ≡ₚ cs.
Proof.
  rewrite (ex_rows _ _ _ _ _ _ Hex), flat_map_app, !flat_map_map, <- (ex_candidate _ _ _ _ _ _ Hex).
  apply Permutation_app.
  - clear. induction pairs as [|[l r] ps IH]; [done|]. cbn [flat_map map snd]. rewrite (proj2 (exact_members _ _)).
    cbn. by rewrite IH.
  - clear. induction members as [|m ms IH]; [done|]. cbn [flat_map]. by rewrite IH, (proj2 (row_of_members _ _)).
Qed.

Lemma explained_shape row : row ∈ rows -> primaries_first row /\ tags row <> [].
Proof.
  intros [(l & r & _ & ->)|(m & Hm & ->)]%explained_row.
  - split; [apply exact_primaries|]. unfold tags. by rewrite (proj2 (exact_members _ _)).
  - split; [apply row_of_primaries|]. unfold tags.
    destruct (row_of_members renames m) as [-> ->].
    pose proof (ex_components _ _ _ _ _ _ Hex) as Hc. rewrite Forall_forall in Hc.
    destruct (Hc m Hm) as (_ & _ & x & Hx & _). destruct m as [[|b bm] [|c cm]]; cbn in *; try done.
    by apply elem_of_nil in Hx.
Qed.

Lemma explained_keys : NoDup (map o_id bs) -> NoDup (map o_id cs) -> NoDup (map row_key rows).
Proof.
  intros Hb Hc. assert (NoDup (map (fun row => head (tags row)) rows)) as Hn.
  { apply NoDup_heads.
    - apply Forall_forall. intros row Hrow. by apply explained_shape.
    - rewrite flat_map_tags, explained_base, explained_candidate. apply NoDup_app. split_and!.
      + rewrite <- (map_map o_id inl). by apply (NoDup_fmap_2 inl).
      + intros x (o & -> & _)%list_elem_of_fmap (o' & [=] & _)%list_elem_of_fmap.
      + rewrite <- (map_map o_id inr). by apply (NoDup_fmap_2 inr). }
  apply (NoDup_fmap_1 first_tag). change (NoDup (map first_tag (map row_key rows))). rewrite map_map.
  rewrite (map_ext_in _ (fun row => head (tags row))); [done|].
  intros row Hrow. symmetry. apply head_tags. by apply explained_shape, list_elem_of_In.
Qed.
End ExplainedFacts.

(** ** The duplicate check *)

Lemma check_distinct_Ok previous rows ids :
  map (fun row => option_map o_id (cm_base row)) rows = map Some ids ->
  NoDup ids -> (forall id, previous = Some id -> id ∉ ids) -> check_distinct previous rows = Ok tt.
Proof.
  revert previous ids. induction rows as [|row rows IH]; intros previous [|id ids] E Hn Hp; try done.
  cbn in E. injection E as E1 E2. destruct (cm_base row) as [o|] eqn:Eo; [|done]. cbn in E1. injection E1 as <-.
  cbn [check_distinct]. rewrite Eo. cbn [ok_or]. apply NoDup_cons in Hn as [Hid Hn].
  rewrite bool_decide_false.
  - apply (IH _ ids); [done|done|]. by intros ? [= <-].
  - intros Heq. apply (Hp (o_id o)); [done|by left].
Qed.

(** On sorted rows the check passes only without a repeated identity. *)
Lemma check_distinct_sorted previous rows ids :
  map (fun row => option_map o_id (cm_base row)) rows = map Some ids ->
  StronglySorted kle ids ->
  (check_distinct previous rows = Ok tt /\ StronglySorted klt ids /\ (forall id, previous = Some id -> head ids <> Some id)) \/
  check_distinct previous rows = Err ScanError.Internal.
Proof.
  revert previous ids. induction rows as [|row rows IH]; intros previous [|id ids] E Hs; try done.
  { left. split_and!; [done|constructor|done]. }
  cbn in E. injection E as E1 E2. destruct (cm_base row) as [o|] eqn:Eo; [|done]. cbn in E1. injection E1 as <-.
  cbn [check_distinct]. rewrite Eo. cbn [ok_or]. apply StronglySorted_inv in Hs as [Hs Hf].
  case_bool_decide as Hp; [by right|]. destruct (IH (Some (o_id o)) ids E2 Hs) as [(Hk & Hss & Hh)|Hk]; [|by right].
  left. split_and!; [done| |intros id Hprev Heq; cbn in Heq; congruence]. constructor; [done|].
  destruct ids as [|i ids]; [constructor|]. apply StronglySorted_inv in Hss as [_ Hi].
  apply Forall_cons_iff in Hf as [Hoi _]. apply kle_lt in Hoi as [Hoi|Hoi]; [|by destruct (Hh (o_id o) eq_refl); subst].
  constructor; [done|]. eapply Forall_impl; [exact Hi|]. intros x Hx. by trans i.
Qed.

Section CorrelateSpec.
Context {H : Hashes} {HL : HashLaws H}.

Lemma exact_key l r : o_id l = o_id r -> row_key (exact_comparison l r) = (Some (o_id l), Some (o_id l)).
Proof. intros E. unfold exact_comparison, row_key. destruct (derive _ _ _). cbn. by rewrite E. Qed.

(** The sorted rows of the aligned path, by identity. *)
Lemma aligned_rows base candidate :
  aligned base candidate = true ->
  exists ids,
    map (fun row => option_map o_id (cm_base row))
      (sort_by row_key (zip_with exact_comparison (s_observations base) (s_observations candidate))) = map Some ids /\
    StronglySorted kle ids /\ ids ≡ₚ map o_id (s_observations base).
Proof.
  intros Ha. set (rows := zip_with exact_comparison _ _).
  assert (forall row, row ∈ rows -> exists id, row_key row = (Some id, Some id)) as Hkey.
  { intros row Hrow. apply (explained_row _ _ _ _ _ _ (aligned_explained base candidate Ha)) in Hrow
      as [(l & r & Hin & ->)|(m & Hm & _)]; [|by apply elem_of_nil in Hm].
    pose proof (ex_same _ _ _ _ _ _ (aligned_explained base candidate Ha)) as Hs. rewrite Forall_forall in Hs.
    eexists. apply exact_key, (Hs (l, r) Hin). }
  pose proof (sort_by_sorted row_key rows) as Hsorted.
  assert (forall row, row ∈ sort_by row_key rows -> exists id, row_key row = (Some id, Some id)) as Hkey'.
  { intros row Hrow. apply Hkey. by rewrite (sort_by_perm row_key rows) in Hrow. }
  assert (exists ids, map (fun row => option_map o_id (cm_base row)) (sort_by row_key rows) = map Some ids /\
    StronglySorted kle ids) as (ids & Hids & Hs).
  { induction Hsorted as [|row l Hs IH Hf]; [by exists []; split; [|constructor]|].
    destruct IH as (ids & E & Hsi); [intros; apply Hkey'; by right|].
    destruct (Hkey' row) as [id Hid]; [by left|].
    exists (id :: ids). cbn [map]. rewrite E. injection Hid as _ Hid. rewrite Hid. split; [done|].
    constructor; [done|]. apply Forall_forall. intros i Hi.
    assert (Some i ∈ map Some ids) as Hi' by (apply list_elem_of_fmap; eauto).
    rewrite <- E in Hi'. apply list_elem_of_fmap in Hi' as (row' & Ei & Hrow').
    rewrite Forall_forall in Hf. specialize (Hf row' Hrow').
    destruct (Hkey' row') as [i' Hi']; [by right|]. destruct (Hkey' row) as [id' Hid']; [by left|].
    rewrite Hi', Hid' in Hf. injection Hi' as _ Hi'. injection Hid' as _ Hid'.
    rewrite <- Ei in Hi'. rewrite Hid in Hid'. simplify_eq.
    unfold kle, cmp, pair_ord in *. cbn in Hf. unfold cmp, option_ord in Hf.
    fold (cmp id' i') in *. by destruct (cmp id' i'). }
  exists ids. split_and!; [done|done|].
  apply (Permutation_map_inj Some); [by intros ? ? [=]|]. rewrite <- Hids, sort_by_perm. unfold rows.
  rewrite exact_rows_bases, map_map; [done|].
  apply aligned_true in Ha. rewrite <- (length_map o_id (s_observations base)), Ha. apply length_map.
Qed.
End CorrelateSpec.

Section ComponentShape.
Context {H : Hashes} {HL : HashLaws H}.
Variables (renames : bt path path) (bs cs : list Observation).
Hypothesis Hbs : NoDup (map o_id bs).
Hypothesis Hcs : NoDup (map o_id cs).

Let E := candidate_edges renames bs cs.
Let lb := base_only bs cs.
Let lc := candidate_only bs cs.

Lemma base_only_in o : o ∈ lb <-> o ∈ bs /\ o_id o ∉ map o_id cs.
Proof. unfold lb, base_only, unpaired. rewrite list_elem_of_filter. tauto. Qed.

Lemma candidate_only_in o : o ∈ lc <-> o ∈ cs /\ o_id o ∉ map o_id bs.
Proof. unfold lc, candidate_only, unpaired. rewrite list_elem_of_filter. tauto. Qed.

Lemma only_disjoint x y : x ∈ lb -> y ∈ lc -> o_id x <> o_id y.
Proof.
  intros [_ Hx]%base_only_in [Hy _]%candidate_only_in Heq. apply Hx. rewrite Heq. apply list_elem_of_fmap. eauto.
Qed.

Lemma base_only_unique x y : x ∈ lb -> y ∈ lb -> o_id x = o_id y -> x = y.
Proof. intros [Hx _]%base_only_in [Hy _]%base_only_in. by apply (NoDup_fmap_unique o_id bs). Qed.

Lemma candidate_only_unique x y : x ∈ lc -> y ∈ lc -> o_id x = o_id y -> x = y.
Proof. intros [Hx _]%candidate_only_in [Hy _]%candidate_only_in. by apply (NoDup_fmap_unique o_id cs). Qed.

(** The first edge of a connection leaves to the other side. *)
Lemma first_edge_base x id :
  x ∈ lb -> rtsc E (o_id x) id -> id <> o_id x ->
  exists y, y ∈ lc /\ plausible renames x y /\ rtsc E (o_id y) id.
Proof.
  intros Hx Hr Hne. inversion Hr as [|? z ? Hz Hrest]; subst; [done|].
  destruct Hz as [(x' & y & Hx' & Hy & Ex & -> & Hp)|(x' & y & Hx' & Hy & -> & Ey & Hp)].
  - rewrite (base_only_unique x x') by done. eauto.
  - by destruct (only_disjoint x y Hx Hy).
Qed.

Lemma first_edge_candidate y id :
  y ∈ lc -> rtsc E (o_id y) id -> id <> o_id y ->
  exists x, x ∈ lb /\ plausible renames x y /\ rtsc E (o_id x) id.
Proof.
  intros Hy Hr Hne. inversion Hr as [|? z ? Hz Hrest]; subst; [done|].
  destruct Hz as [(x & y' & Hx & Hy' & Ex & -> & Hp)|(x & y' & Hx & Hy' & -> & Ey & Hp)].
  - by destruct (only_disjoint x y Hx Hy).
  - rewrite (candidate_only_unique y y') by done. eauto.
Qed.

Lemma plausible_connects x y : x ∈ lb -> y ∈ lc -> plausible renames x y -> rtsc E (o_id x) (o_id y).
Proof. intros Hx Hy Hp. apply rtsc_lr. exists x, y. done. Qed.

Variable m : list Observation * list Observation.
Hypothesis Hm : is_component E lb lc m.

Lemma component_connected o o' :
  o ∈ m.1 ++ m.2 -> o' ∈ m.1 ++ m.2 -> rtsc E (o_id o) (o_id o').
Proof.
  destruct Hm as (_ & _ & x & _ & Hb & Hc). intros Ho Ho'.
  assert (forall u, u ∈ m.1 ++ m.2 -> rtsc E x (o_id u)) as Hx.
  { intros u [Hu|Hu]%elem_of_app; [by apply Hb in Hu as [_ ?]|by apply Hc in Hu as [_ ?]]. }
  trans x; [by apply rtsc_flip, Hx|by apply Hx].
Qed.

Lemma component_closed o :
  o ∈ m.1 ++ m.2 ->
  (forall u, u ∈ m.1 <-> u ∈ lb /\ rtsc E (o_id o) (o_id u)) /\
  (forall u, u ∈ m.2 <-> u ∈ lc /\ rtsc E (o_id o) (o_id u)).
Proof.
  destruct Hm as (_ & _ & x & Hx & Hb & Hc). intros Ho.
  assert (rtsc E x (o_id o)) as Hxo.
  { apply elem_of_app in Ho as [Ho|Ho]; [by apply Hb in Ho as [_ ?]|by apply Hc in Ho as [_ ?]]. }
  split; intros u; rewrite ?Hb, ?Hc; apply and_iff_compat_l'; intros _; split; intros Hu.
  - trans x; [by apply rtsc_flip|done].
  - by trans (o_id o).
  - trans x; [by apply rtsc_flip|done].
  - by trans (o_id o).
Qed.

Lemma component_sides o : (o ∈ m.1 -> o ∈ lb) /\ (o ∈ m.2 -> o ∈ lc).
Proof. destruct Hm as (_ & _ & x & Hx & Hb & Hc). rewrite Hb, Hc. tauto. Qed.

Lemma component_NoDup : NoDup m.1 /\ NoDup m.2.
Proof.
  destruct Hm as (Hs1 & Hs2 & _).
  assert (forall l : list Observation, StronglySorted klt (map o_id l) -> NoDup l) as Hn; [|split; auto].
  intros l Hs. apply (NoDup_fmap_1 o_id). change (NoDup (map o_id l)).
  induction Hs as [|a k Hs IH Hf]; [constructor|]. apply NoDup_cons. split; [|done].
  intros Hin. rewrite Forall_forall in Hf. by apply (irreflexivity klt a), Hf.
Qed.

(** A component of more than one observation has both sides. *)
Lemma component_two_sided : (1 < length m.1 + length m.2)%nat -> m.1 <> [] /\ m.2 <> [].
Proof.
  intros Hl. destruct component_NoDup as [N1 N2].
  assert (forall o o', o ∈ m.1 -> o' ∈ m.1 -> o <> o' -> m.2 <> []) as HB.
  { intros o o' Ho Ho' Hne Hnil. pose proof (proj1 (component_sides o) Ho) as Hlo.
    pose proof (proj1 (component_sides o') Ho') as Hlo'.
    destruct (first_edge_base o (o_id o')) as (y & Hy & Hp & _); [done| | |].
    - apply component_connected; apply elem_of_app; by left.
    - intros Heq. apply Hne. by apply base_only_unique.
    - apply (elem_of_nil y). rewrite <- Hnil.
      apply (component_closed o); [apply elem_of_app; by left|]. split; [done|by apply plausible_connects]. }
  assert (forall o o', o ∈ m.2 -> o' ∈ m.2 -> o <> o' -> m.1 <> []) as HC.
  { intros o o' Ho Ho' Hne Hnil. pose proof (proj2 (component_sides o) Ho) as Hlo.
    pose proof (proj2 (component_sides o') Ho') as Hlo'.
    destruct (first_edge_candidate o (o_id o')) as (x & Hx & Hp & _); [done| | |].
    - apply component_connected; apply elem_of_app; by right.
    - intros Heq. apply Hne. by apply candidate_only_unique.
    - apply (elem_of_nil x). rewrite <- Hnil.
      apply (component_closed o); [apply elem_of_app; by right|]. split; [done|].
      apply rtsc_flip. by apply plausible_connects. }
  destruct m.1 as [|b [|b' bm]], m.2 as [|c [|c' cm]]; cbn in Hl; try lia; try done.
  - exfalso. apply (HC c c'); [by left|by right; left| |done]. apply NoDup_cons in N2 as [Hc' _].
    intros ->. apply Hc'. by left.
  - exfalso. apply (HB b b'); [by left|by right; left| |done]. apply NoDup_cons in N1 as [Hb' _].
    intros ->. apply Hb'. by left.
Qed.
End ComponentShape.

(** ** What [correlate] promises *)

Definition distinct (side : Side) : Prop := NoDup (map o_id (s_observations side)).

Section Promises.
Context {H : Hashes} {HL : HashLaws H}.

Lemma explained_sort renames bs cs rows pairs members :
  explained renames bs cs rows pairs members ->
  explained renames bs cs (sort_by row_key rows) pairs members.
Proof. intros [E1 E2 E3 E4 E5]. split; try done. by rewrite sort_by_perm. Qed.

Lemma correlate_Ok base candidate :
  distinct base -> distinct candidate ->
  exists rows pairs members,
    correlate base candidate = Ok rows /\
    explained (side_renames base candidate) (s_observations base) (s_observations candidate)
      rows pairs members /\
    StronglySorted (fun a b => klt (row_key a) (row_key b)) rows.
Proof.
  intros Hb Hc. unfold correlate. destruct (aligned base candidate) eqn:Ha.
  - destruct (aligned_rows base candidate Ha) as (ids & Hids & _ & Hperm).
    pose proof (aligned_explained base candidate Ha) as Hex.
    rewrite (check_distinct_Ok None _ ids Hids); [|by rewrite Hperm|done].
    do 3 eexists. split_and!; [done|by apply explained_sort|].
    apply sort_by_strict. by eapply explained_keys.
  - destruct (correlate_unaligned_Ok base candidate Hb Hc) as (rows & pairs & members & -> & Hex).
    do 3 eexists. split_and!; [done|by apply explained_sort|].
    apply sort_by_strict. by eapply explained_keys.
Qed.

Lemma correlate_Err base candidate :
  ~ (distinct base /\ distinct candidate) -> correlate base candidate = Err ScanError.Internal.
Proof.
  intros Hn. unfold correlate. destruct (aligned base candidate) eqn:Ha.
  - destruct (aligned_rows base candidate Ha) as (ids & Hids & Hs & Hperm).
    destruct (check_distinct_sorted None _ ids Hids Hs) as [(_ & Hss & _)|Herr]; [|by rewrite Herr].
    exfalso. apply Hn.
    assert (NoDup ids) as Hnd.
    { clear -Hss. induction Hss as [|a k Hs IH Hf]; [constructor|]. apply NoDup_cons. split; [|done].
      intros Hin. rewrite Forall_forall in Hf. by apply (irreflexivity klt a), Hf. }
    rewrite Hperm in Hnd. apply aligned_true in Ha. unfold distinct. rewrite <- Ha. done.
  - by rewrite (correlate_unaligned_Err base candidate).
Qed.

Lemma correlate_inv base candidate rows :
  correlate base candidate = Ok rows ->
  distinct base /\ distinct candidate /\
  (exists pairs members,
     explained (side_renames base candidate) (s_observations base) (s_observations candidate)
       rows pairs members) /\
  StronglySorted (fun a b => klt (row_key a) (row_key b)) rows.
Proof.
  intros E. destruct (decide (distinct base /\ distinct candidate)) as [[Hb Hc]|Hn].
  - destruct (correlate_Ok base candidate Hb Hc) as (rows' & pairs & members & E' & Hex & Hs).
    rewrite E in E'. injection E' as <-. eauto 10.
  - by rewrite correlate_Err in E.
Qed.
End Promises.

(** [correlate] returns rows exactly when no identity repeats within a side,
    on the aligned path as on the general one; otherwise it is the internal
    error, and no other internal check of the correlation can fail. *)
Theorem correlate_total {H : Hashes} {HL : HashLaws H} (base candidate : Side) :
  (distinct base /\ distinct candidate -> exists rows, correlate base candidate = Ok rows) /\
  (~ (distinct base /\ distinct candidate) -> correlate base candidate = Err ScanError.Internal).
Proof.
  split; [|apply correlate_Err]. intros [Hb Hc].
  destruct (correlate_Ok base candidate Hb Hc) as (rows & _ & _ & E & _). eauto.
Qed.

(** every observation of either side appears in exactly one row and once in
    it, as a primary or an alternative, and the rows come strictly ordered by
    candidate identity, then base identity. *)
Theorem correlate_partition {H : Hashes} {HL : HashLaws H} (base candidate : Side) rows :
  correlate base candidate = Ok rows ->
  flat_map row_base rows ≡ₚ s_observations base /\
  flat_map row_candidate rows ≡ₚ s_observations candidate /\
  StronglySorted (fun a b => klt (row_key a) (row_key b)) rows.
Proof.
  intros (_ & _ & (pairs & members & Hex) & Hs)%correlate_inv.
  split_and!; [by eapply explained_base|by eapply explained_candidate|done].
Qed.

(** What one row of an outcome is. *)
Definition row_spec {H : Hashes} {HL : HashLaws H} (renames : bt path path) (bs cs : list Observation)
    (row : Comparison) : Prop :=
  match cm_outcome row with
  | Outcome.Exact =>
      exists l r, l ∈ bs /\ r ∈ cs /\ o_id l = o_id r /\ row = exact_comparison l r
  | Outcome.Candidate =>
      exists l r, l ∈ base_only bs cs /\ r ∈ candidate_only bs cs /\
        row = component_comparison [l] [r] renames /\ plausible renames l r /\
        (forall x, x ∈ base_only bs cs -> plausible renames x r -> x = l) /\
        (forall y, y ∈ candidate_only bs cs -> plausible renames l y -> y = r)
  | Outcome.None =>
      (exists o, o ∈ base_only bs cs /\ row = isolated o true /\
         forall y, y ∈ candidate_only bs cs -> ~ plausible renames o y) \/
      (exists o, o ∈ candidate_only bs cs /\ row = isolated o false /\
         forall x, x ∈ base_only bs cs -> ~ plausible renames x o)
  | Outcome.Ambiguous =>
      exists m,
        is_component (candidate_edges renames bs cs) (base_only bs cs) (candidate_only bs cs) m /\
        row = component_comparison m.1 m.2 renames /\
        m.1 <> [] /\ m.2 <> [] /\ (2 < length m.1 + length m.2)%nat
  end.

Section RowSpecs.
Context {H : Hashes} {HL : HashLaws H}.
Variables (renames : bt path path) (bs cs : list Observation).
Hypothesis Hbs : NoDup (map o_id bs).
Hypothesis Hcs : NoDup (map o_id cs).

Lemma exact_row_spec l r : l ∈ bs -> r ∈ cs -> o_id l = o_id r -> row_spec renames bs cs (exact_comparison l r).
Proof.
  intros Hl Hr Hid. unfold row_spec.
  replace (cm_outcome (exact_comparison l r)) with Outcome.Exact; [by exists l, r|].
  unfold exact_comparison. by destruct (derive _ _ _).
Qed.

Section OneComponent.
Variables bm cm : list Observation.
Hypothesis Hm :
  is_component (candidate_edges renames bs cs) (base_only bs cs) (candidate_only bs cs) (bm, cm).

Lemma component_absorbs x y :
  x ∈ base_only bs cs -> y ∈ candidate_only bs cs -> plausible renames x y -> x ∈ bm <-> y ∈ cm.
Proof.
  intros Hx Hy Hp. pose proof (plausible_connects renames bs cs x y Hx Hy Hp) as Hxy.
  destruct Hm as (_ & _ & z & _ & Hb & Hc). cbn [fst snd] in Hb, Hc. rewrite Hb, Hc. split; intros [_ Hz].
  - split; [done|]. by trans (o_id x).
  - split; [done|]. trans (o_id y); [done|by apply rtsc_flip].
Qed.

Lemma base_member o : o ∈ bm -> o ∈ base_only bs cs.
Proof. apply (component_sides renames bs cs (bm, cm) Hm o). Qed.
Lemma candidate_member o : o ∈ cm -> o ∈ candidate_only bs cs.
Proof. apply (component_sides renames bs cs (bm, cm) Hm o). Qed.
End OneComponent.

Lemma isolated_base_spec o :
  is_component (candidate_edges renames bs cs) (base_only bs cs) (candidate_only bs cs) ([o], []) ->
  row_spec renames bs cs (isolated o true).
Proof.
  intros Hm. left. assert (o ∈ base_only bs cs) as Ho by (apply (base_member _ _ Hm); by left).
  exists o. split_and!; [done|done|]. intros y Hy Hp. apply (elem_of_nil y).
  apply (component_absorbs _ _ Hm o y Ho Hy Hp). by left.
Qed.

Lemma isolated_candidate_spec o :
  is_component (candidate_edges renames bs cs) (base_only bs cs) (candidate_only bs cs) ([], [o]) ->
  row_spec renames bs cs (isolated o false).
Proof.
  intros Hm. right. assert (o ∈ candidate_only bs cs) as Ho by (apply (candidate_member _ _ Hm); by left).
  exists o. split_and!; [done|done|]. intros x Hx Hp. apply (elem_of_nil x).
  apply (component_absorbs _ _ Hm x o Hx Ho Hp). by left.
Qed.

Lemma candidate_spec l r :
  is_component (candidate_edges renames bs cs) (base_only bs cs) (candidate_only bs cs) ([l], [r]) ->
  row_spec renames bs cs (component_comparison [l] [r] renames).
Proof.
  intros Hm. assert (l ∈ base_only bs cs) as Hl by (apply (base_member _ _ Hm); by left).
  assert (r ∈ candidate_only bs cs) as Hr by (apply (candidate_member _ _ Hm); by left).
  assert (plausible renames l r) as Hp.
  { destruct (first_edge_base renames bs cs Hbs l (o_id r) Hl) as (y & Hy & Hp & _).
    - apply (component_connected renames bs cs _ Hm); set_solver.
    - intros Heq. by apply (only_disjoint bs cs l r Hl Hr).
    - assert (y ∈ [r]) as Hyr by (apply (component_absorbs _ _ Hm l y Hl Hy Hp); by left).
      by apply list_elem_of_singleton in Hyr as ->. }
  unfold row_spec.
  replace (cm_outcome _) with Outcome.Candidate.
  2:{ cbn. destruct (_ && _); [|destruct (bool_decide _)]; by destruct (derive _ _ _). }
  exists l, r. split_and!; try done.
  - intros x Hx Hxp. apply list_elem_of_singleton. apply (component_absorbs _ _ Hm x r Hx Hr Hxp). by left.
  - intros y Hy Hyp. apply list_elem_of_singleton. apply (component_absorbs _ _ Hm l y Hl Hy Hyp). by left.
Qed.

Lemma ambiguous_spec bm cm :
  (2 < length bm + length cm)%nat ->
  is_component (candidate_edges renames bs cs) (base_only bs cs) (candidate_only bs cs) (bm, cm) ->
  row_spec renames bs cs (component_comparison bm cm renames).
Proof.
  intros Hl Hm. unfold row_spec.
  replace (cm_outcome _) with Outcome.Ambiguous.
  2:{ unfold component_comparison. destruct bm as [|b [|b' bm]], cm as [|c [|c' cm]]; try done. cbn in Hl. lia. }
  exists (bm, cm). cbn [fst snd].
  destruct (component_two_sided renames bs cs Hbs Hcs (bm, cm) Hm) as [H1 H2]; [cbn; lia|]. done.
Qed.

Lemma component_row_spec m :
  is_component (candidate_edges renames bs cs) (base_only bs cs) (candidate_only bs cs) m ->
  row_spec renames bs cs (row_of renames m).
Proof.
  intros Hm. destruct m as [bm cm].
  destruct (decide (2 < length bm + length cm)%nat) as [Hl|Hl].
  - replace (row_of renames (bm, cm)) with (component_comparison bm cm renames); [by apply ambiguous_spec|].
    destruct bm as [|b [|b' bm]], cm as [|c [|c' cm]]; try done; cbn in Hl; lia.
  - destruct bm as [|b bm]; [|destruct bm as [|b' bm]]; (destruct cm as [|c cm]; [|destruct cm as [|c' cm]]);
      cbn in Hl; try lia.
    + destruct Hm as (_ & _ & x & Hx & _). by apply elem_of_nil in Hx.
    + by apply isolated_candidate_spec.
    + destruct cm; [|cbn in Hl; lia]. destruct (component_two_sided renames bs cs Hbs Hcs _ Hm) as [? _]; [cbn; lia|done].
    + by apply isolated_base_spec.
    + by apply candidate_spec.
    + destruct bm; [|cbn in Hl; lia]. destruct (component_two_sided renames bs cs Hbs Hcs _ Hm) as [_ ?]; [cbn; lia|done].
Qed.
End RowSpecs.

(** every row is what its outcome says: an exact row pairs the two
    observations of one identity; a candidate row pairs two unmatched
    observations that are each other's only plausible counterpart; a row
    without correlation holds an unmatched observation with no plausible
    counterpart; an ambiguous row holds a whole connected component of more
    than two observations, with a primary on both sides. *)
Theorem correlate_rows {H : Hashes} {HL : HashLaws H} (base candidate : Side) rows row :
  correlate base candidate = Ok rows -> row ∈ rows ->
  row_spec (side_renames base candidate) (s_observations base) (s_observations candidate) row.
Proof.
  intros (Hb & Hc & (pairs & members & Hex) & _)%correlate_inv Hrow.
  apply (explained_row _ _ _ _ _ _ Hex) in Hrow as [(l & r & Hin & ->)|(m & Hm & ->)].
  - pose proof (ex_same _ _ _ _ _ _ Hex) as Hs. rewrite Forall_forall in Hs.
    apply exact_row_spec; [| |by apply (Hs (l, r))].
    + rewrite <- (ex_base _ _ _ _ _ _ Hex), elem_of_app, list_elem_of_fmap. left. by exists (l, r).
    + rewrite <- (ex_candidate _ _ _ _ _ _ Hex), elem_of_app, list_elem_of_fmap. left. by exists (l, r).
  - pose proof (ex_components _ _ _ _ _ _ Hex) as Hs. rewrite Forall_forall in Hs.
    apply component_row_spec; [done|done|]. by apply Hs.
Qed.

Section SameRow.
Context {H : Hashes} {HL : HashLaws H}.
Variables (renames : bt path path) (bs cs : list Observation) (rows : list Comparison).
Variables (pairs : list (Observation * Observation)) (members : list (list Observation * list Observation)).
Hypothesis Hex : explained renames bs cs rows pairs members.

Lemma pair_sides l r : (l, r) ∈ pairs -> l ∈ bs /\ r ∈ cs /\ o_id l = o_id r.
Proof.
  intros Hin. pose proof (ex_same _ _ _ _ _ _ Hex) as Hs. rewrite Forall_forall in Hs. split_and!.
  - rewrite <- (ex_base _ _ _ _ _ _ Hex), elem_of_app, list_elem_of_fmap. left. by exists (l, r).
  - rewrite <- (ex_candidate _ _ _ _ _ _ Hex), elem_of_app, list_elem_of_fmap. left. by exists (l, r).
  - by apply (Hs (l, r)).
Qed.

Lemma pair_not_only l r x :
  (l, r) ∈ pairs -> x ∈ base_only bs cs ++ candidate_only bs cs -> x <> l /\ x <> r.
Proof.
  intros (Hl & Hr & Hid)%pair_sides.
  assert (o_id l ∈ map o_id bs) by (apply list_elem_of_fmap; eauto).
  assert (o_id r ∈ map o_id cs) by (apply list_elem_of_fmap; eauto).
  intros [[_ Hx]%base_only_in|[_ Hx]%candidate_only_in]%elem_of_app; split; intros ->; apply Hx; congruence.
Qed.

Lemma elem_of_row_of m o :
  o ∈ row_base (row_of renames m) ++ row_candidate (row_of renames m) <-> o ∈ m.1 ++ m.2.
Proof. by destruct (row_of_members renames m) as [-> ->]. Qed.

Lemma only_in_component x :
  x ∈ base_only bs cs ++ candidate_only bs cs -> exists m, m ∈ members /\ x ∈ m.1 ++ m.2.
Proof.
  intros Hx. pose proof Hx as [Hb|Hc]%elem_of_app.
  - apply base_only_in in Hb as [Hb _]. rewrite <- (ex_base _ _ _ _ _ _ Hex), elem_of_app in Hb.
    destruct Hb as [([l r] & -> & Hin)%list_elem_of_fmap|(m & Hm & Hin)%list_elem_of_In%in_flat_map].
    + by destruct (pair_not_only l r l Hin Hx).
    + exists m. rewrite elem_of_app, list_elem_of_In. split; [done|]. left. by apply list_elem_of_In.
  - apply candidate_only_in in Hc as [Hc _]. rewrite <- (ex_candidate _ _ _ _ _ _ Hex), elem_of_app in Hc.
    destruct Hc as [([l r] & -> & Hin)%list_elem_of_fmap|(m & Hm & Hin)%list_elem_of_In%in_flat_map].
    + by destruct (pair_not_only l r r Hin Hx).
    + exists m. rewrite elem_of_app, list_elem_of_In. split; [done|]. right. by apply list_elem_of_In.
Qed.

Lemma member_component m : m ∈ members ->
  is_component (candidate_edges renames bs cs) (base_only bs cs) (candidate_only bs cs) m.
Proof. intros Hm. pose proof (ex_components _ _ _ _ _ _ Hex) as Hs. rewrite Forall_forall in Hs. by apply Hs. Qed.

Lemma explained_same_row x y :
  x ∈ base_only bs cs ++ candidate_only bs cs -> y ∈ base_only bs cs ++ candidate_only bs cs ->
  (exists row, row ∈ rows /\ x ∈ row_base row ++ row_candidate row /\ y ∈ row_base row ++ row_candidate row) <->
  rtsc (candidate_edges renames bs cs) (o_id x) (o_id y).
Proof.
  intros Hx Hy. split.
  - intros (row & Hrow & Hxr & Hyr). apply (explained_row _ _ _ _ _ _ Hex) in Hrow as [(l & r & Hin & ->)|(m & Hm & ->)].
    + exfalso. destruct (exact_members l r) as [Eb Ec]. rewrite Eb, Ec in Hxr.
      destruct (pair_not_only l r x Hin Hx). set_solver.
    + rewrite elem_of_row_of in Hxr, Hyr. by apply (component_connected renames bs cs m (member_component m Hm)).
  - intros Hr. destruct (only_in_component x Hx) as (m & Hm & Hxm).
    exists (row_of renames m). rewrite !elem_of_row_of. split_and!; [|done|].
    + apply (explained_row _ _ _ _ _ _ Hex). right. eauto.
    + destruct (component_closed renames bs cs m (member_component m Hm) x Hxm) as [HB HC].
      apply elem_of_app. apply elem_of_app in Hy as [Hy|Hy]; [left; by apply HB|right; by apply HC].
Qed.

(** Sides that share every identity have exact rows only. *)
Lemma shared_rows :
  NoDup (map o_id cs) -> (forall id, id ∈ map o_id bs <-> id ∈ map o_id cs) ->
  forall row, row ∈ rows <-> exists l r, l ∈ bs /\ r ∈ cs /\ o_id l = o_id r /\ row = exact_comparison l r.
Proof.
  intros Hn Hsh row.
  assert (members = []) as Hnil.
  { apply elem_of_nil_inv. intros m Hm. destruct (member_component m Hm) as (_ & _ & z & Hz & HB & HC).
    apply list_elem_of_fmap in Hz as (o & _ & [Ho|Ho]%elem_of_app).
    - apply HB in Ho as [[Ho Hno]%base_only_in _]. apply Hno, Hsh, list_elem_of_fmap. eauto.
    - apply HC in Ho as [[Ho Hno]%candidate_only_in _]. apply Hno, Hsh, list_elem_of_fmap. eauto. }
  rewrite (explained_row _ _ _ _ _ _ Hex). split.
  - intros [(l & r & Hin & ->)|(m & Hm & _)]; [|rewrite Hnil in Hm; by apply elem_of_nil in Hm].
    destruct (pair_sides l r Hin) as (? & ? & ?). by exists l, r.
  - intros (l & r & Hl & Hr & Hid & ->). left. exists l, r. split; [|done].
    pose proof (ex_base _ _ _ _ _ _ Hex) as Hb. rewrite Hnil, app_nil_r in Hb.
    rewrite <- Hb in Hl. apply list_elem_of_fmap in Hl as ([l' r'] & -> & Hin). cbn in *.
    destruct (pair_sides l' r' Hin) as (_ & Hr' & Hid').
    by rewrite (NoDup_fmap_unique o_id cs r r' Hn Hr Hr') by congruence.
Qed.
End SameRow.

(** C2: two observations without an exact counterpart share a row exactly when
    they are connected by plausible edges, so the spanning trees and the
    union-find of the implementation lose and add nothing against all pairs. *)
Theorem correlate_same_row {H : Hashes} {HL : HashLaws H} (base candidate : Side) rows x y :
  let bs := s_observations base in
  let cs := s_observations candidate in
  correlate base candidate = Ok rows ->
  x ∈ base_only bs cs ++ candidate_only bs cs -> y ∈ base_only bs cs ++ candidate_only bs cs ->
  (exists row, row ∈ rows /\ x ∈ row_base row ++ row_candidate row /\ y ∈ row_base row ++ row_candidate row) <->
  rtsc (candidate_edges (side_renames base candidate) bs cs) (o_id x) (o_id y).
Proof.
  intros bs cs (_ & _ & (pairs & members & Hex) & _)%correlate_inv. by apply explained_same_row with pairs members.
Qed.

(** the aligned path is an optimisation only: on sides whose identities
    agree position by position it returns what the general correlation would,
    the refusal of repeated identities included. *)
Theorem correlate_fast_path {H : Hashes} {HL : HashLaws H} (base candidate : Side) :
  aligned base candidate = true ->
  correlate base candidate =
  (let? rows := correlate_unaligned base candidate in Ok (sort_by row_key rows)).
Proof.
  intros Ha. pose proof Ha as Hids%aligned_true.
  destruct (decide (distinct base /\ distinct candidate)) as [[Hb Hc]|Hn].
  2:{ by rewrite correlate_Err, correlate_unaligned_Err. }
  destruct (correlate_Ok base candidate Hb Hc) as (rows & pairs & members & -> & Hex & Hs).
  destruct (correlate_unaligned_Ok base candidate Hb Hc) as (rows' & pairs' & members' & -> & Hex').
  f_equal.
  assert (StrictOrder (fun a b => klt (row_key a) (row_key b))) as Hso.
  { split; [intros a Haa; by apply (irreflexivity klt (row_key a))|intros a b c; apply transitivity]. }
  apply (strict_sorted_unique (fun a b => klt (row_key a) (row_key b))); [done| |].
  { apply sort_by_strict. by eapply explained_keys. }
  intros row. rewrite (sort_by_perm row_key rows').
  rewrite (shared_rows _ _ _ _ _ _ Hex), (shared_rows _ _ _ _ _ _ Hex'); try done; intros id; by rewrite Hids.
Qed.

(** ** The derivation table *)

(** Both sides locate a file, and its content projection changed. *)
Definition projections_differ (base candidate : Observation) : Prop :=
  exists p q, located_projection (o_resolution base) = Some p /\
    located_projection (o_resolution candidate) = Some q /\ p <> q.

(** Both references resolve to the document they are written in. *)
Definition own_page (base candidate : Observation) : Prop :=
  exists l r, o_resolution base = Resolution.Resolved (Target.Blob l) /\
    o_resolution candidate = Resolution.Resolved (Target.Blob r) /\
    bt_path l = o_document base /\ bt_path r = o_document candidate.

Definition resolves (o : Observation) : Prop := exists t, o_resolution o = Resolution.Resolved t.
Definition broken (o : Observation) : Prop :=
  (exists x, o_resolution o = Resolution.Missing x) \/ (exists t, o_resolution o = Resolution.TypeMismatch t).

Lemma derive_located base candidate source p q :
  located_projection (o_resolution base) = Some p -> located_projection (o_resolution candidate) = Some q ->
  p <> q ->
  exists own : bool, (own = true <-> own_page base candidate) /\
    derive base candidate source =
      (TargetChange.Changed,
       if own then if bool_decide (source = SourceChange.Changed) then Impact.SubjectChanged else Impact.None
       else if bool_decide (source = SourceChange.Changed) then Impact.DependencyAndSubjectCochanged
            else Impact.DependencyChangedSubjectUnchanged).
Proof.
  intros Hp Hq Hne. unfold derive. cbv zeta. rewrite Hp, Hq, (bool_decide_false (p = q)) by done.
  exists (match o_resolution base, o_resolution candidate with
          | Resolution.Resolved (Target.Blob l), Resolution.Resolved (Target.Blob r) =>
              bytes_eqb (bt_path l) (o_document base) && bytes_eqb (bt_path r) (o_document candidate)
          | _, _ => false
          end).
  split; [|by destruct (match o_resolution base with Resolution.Resolved _ => _ | _ => _ end)].
  unfold own_page. destruct (o_resolution base) as [[|l]| | | | | | | | ]; try naive_solver.
  destruct (o_resolution candidate) as [[|r]| | | | | | | | ]; try naive_solver.
  rewrite andb_true_iff, !bytes_eqb_eq. naive_solver.
Qed.

Lemma derive_unlocated base candidate source :
  ~ (exists p q, located_projection (o_resolution base) = Some p /\ located_projection (o_resolution candidate) = Some q) ->
  exists change impact,
    derive base candidate source = (change, impact) /\
    change <> TargetChange.Changed /\
    impact <> Impact.DependencyAndSubjectCochanged /\ impact <> Impact.DependencyChangedSubjectUnchanged /\
    (impact = Impact.SubjectChanged -> source = SourceChange.Changed) /\
    (change = TargetChange.BecameMissing <-> resolves base /\ broken candidate) /\
    (change = TargetChange.NewlyResolved <-> broken base /\ resolves candidate).
Proof.
  intros Hno. unfold derive. cbv zeta.
  replace (match located_projection (o_resolution base) with Some _ => _ | None => _ end)
    with (match o_resolution base, o_resolution candidate with
      | Resolution.Resolved _, Resolution.Resolved _ => (TargetChange.NotComparable, Impact.NotApplicable)
      | Resolution.Missing l, Resolution.Missing r =>
          if bool_decide (l = r) then (TargetChange.Equal, if bool_decide (source = SourceChange.Changed) then Impact.SubjectChanged else Impact.None) else (TargetChange.NotComparable, Impact.NotApplicable)
      | Resolution.DeclaredUntracked l, Resolution.DeclaredUntracked r =>
          if bool_decide (l = r) then (TargetChange.Equal, if bool_decide (source = SourceChange.Changed) then Impact.SubjectChanged else Impact.None) else (TargetChange.NotComparable, Impact.NotApplicable)
      | Resolution.TypeMismatch l, Resolution.TypeMismatch r =>
          if bool_decide (l = r) then (TargetChange.Equal, if bool_decide (source = SourceChange.Changed) then Impact.SubjectChanged else Impact.None) else (TargetChange.NotComparable, Impact.NotApplicable)
      | (Resolution.Missing _ | Resolution.TypeMismatch _), Resolution.Resolved _ =>
          (TargetChange.NewlyResolved, Impact.ReferenceResolved)
      | Resolution.Resolved _, (Resolution.Missing _ | Resolution.TypeMismatch _) =>
          (TargetChange.BecameMissing, Impact.NotApplicable)
      | _, _ => (TargetChange.NotComparable, Impact.NotApplicable)
      end).
  2:{ destruct (located_projection (o_resolution base)), (located_projection (o_resolution candidate)); try done.
      exfalso. apply Hno. eauto. }
  clear Hno. unfold resolves, broken.
  destruct (o_resolution base), (o_resolution candidate);
    repeat case_bool_decide; do 2 eexists; (split; [reflexivity|]); split_and!; try done;
    (split; [try done; eauto|naive_solver]).
Qed.

(** the derivation reports a changed target exactly when both references
    locate files whose projections differ; it is a dependency change unless
    each reference points at its own page, and names the subject too exactly
    when the source changed. A reference became missing, or newly resolved,
    exactly when it resolved on one side and was missing or of the wrong kind
    on the other. A subject change is never reported for an unchanged source. *)
Theorem derive_exact (base candidate : Observation) (source : SourceChange.t) :
  let change := (derive base candidate source).1 in
  let impact := (derive base candidate source).2 in
  (change = TargetChange.Changed <-> projections_differ base candidate) /\
  (impact = Impact.DependencyChangedSubjectUnchanged <->
     projections_differ base candidate /\ ~ own_page base candidate /\ source <> SourceChange.Changed) /\
  (impact = Impact.DependencyAndSubjectCochanged <->
     projections_differ base candidate /\ ~ own_page base candidate /\ source = SourceChange.Changed) /\
  (change = TargetChange.BecameMissing <-> resolves base /\ broken candidate) /\
  (change = TargetChange.NewlyResolved <-> broken base /\ resolves candidate) /\
  (impact = Impact.SubjectChanged -> source = SourceChange.Changed).
Proof.
  cbv zeta.
  assert (forall o p, located_projection (o_resolution o) = Some p -> ~ broken o) as Hnb.
  { intros o p Hp [[x Hx]|[t Ht]]; [by rewrite Hx in Hp|by rewrite Ht in Hp]. }
  destruct (located_projection (o_resolution base)) as [p|] eqn:Ep,
    (located_projection (o_resolution candidate)) as [q|] eqn:Eq.
  - pose proof (Hnb _ _ Ep). pose proof (Hnb _ _ Eq). destruct (decide (p = q)) as [->|Hne].
    + assert (~ projections_differ base candidate) as Hd by (intros (p & q' & Hp & Hq & Hne); congruence).
      assert (derive base candidate source = (TargetChange.Equal,
        if bool_decide (source = SourceChange.Changed) then Impact.SubjectChanged else Impact.None)) as ->.
      { unfold derive. cbv zeta. by rewrite Ep, Eq, bool_decide_true. }
      cbn. case_bool_decide; intuition congruence.
    + assert (projections_differ base candidate) as Hd by (exists p, q; done).
      destruct (derive_located base candidate source p q Ep Eq Hne) as ([] & Hown & ->); cbn; case_bool_decide;
        intuition congruence.
  - assert (~ projections_differ base candidate) by (intros (a & b & H1 & H2 & _); congruence).
    destruct (derive_unlocated base candidate source) as (ch & im & -> & Hrest); [naive_solver|]. cbn. naive_solver.
  - assert (~ projections_differ base candidate) by (intros (a & b & H1 & H2 & _); congruence).
    destruct (derive_unlocated base candidate source) as (ch & im & -> & Hrest); [naive_solver|]. cbn. naive_solver.
  - assert (~ projections_differ base candidate) by (intros (a & b & H1 & H2 & _); congruence).
    destruct (derive_unlocated base candidate source) as (ch & im & -> & Hrest); [naive_solver|]. cbn. naive_solver.
Qed.

(** ** Examples *)

(** An observation with identity [id] in [document], projected to [projection]. *)
Definition example_observation (id : Byte.byte) (document : path) (projection : Byte.byte) : Observation := {|
  o_id := example_digest id;
  o_adapter_contract_digest := example_digest "a";
  o_document := document;
  o_span := (0, 1);
  o_display := mkSpanDisplay 1 1 1 2;
  o_block_kind := BlockKind.Paragraph;
  o_node_path := [0];
  o_adapter := Adapter.Markdown;
  o_construct := SourceConstruct.InlineLink;
  o_intent := mkIntent IntentKind.RepositoryPath None (Some (b_ "t")) None None None None;
  o_external_destination := None;
  o_raw_destination := b_ "t";
  o_raw_destination_digest := example_digest "r";
  o_projection_digest := example_digest projection;
  o_resolution := Resolution.Missing Missing.LabelNotDeclared;
  o_fragment_span := None;
  o_path_span := None
|}.

(** One exact pair, one candidate pair, one component of three. *)
Definition example_base : Side := mkSide
  [example_observation "1" (b_ "x.md") "p"; example_observation "2" (b_ "y.md") "p";
   example_observation "3" (b_ "z.md") "p"] [].
Definition example_candidate : Side := mkSide
  [example_observation "6" (b_ "z.md") "q"; example_observation "5" (b_ "z.md") "p";
   example_observation "4" (b_ "y.md") "q"; example_observation "1" (b_ "x.md") "p"] [].

Definition example_rows : list Comparison :=
  match correlate (HL := toy_hash_laws) example_base example_candidate with Ok rows => rows | _ => [] end.

Lemma example_distinct : distinct example_base /\ distinct example_candidate.
Proof. split; apply (bool_decide_unpack _); by vm_compute. Qed.

Lemma example_outcomes :
  map cm_outcome example_rows = [Outcome.Exact; Outcome.Candidate; Outcome.Ambiguous].
Proof. by vm_compute. Qed.

Lemma example_correlates : correlate (HL := toy_hash_laws) example_base example_candidate = Ok example_rows.
Proof.
  destruct (correlate_Ok (HL := toy_hash_laws) example_base example_candidate) as (rows & _ & _ & E & _);
    [apply example_distinct..|]. unfold example_rows. by rewrite E.
Qed.

Lemma correlate_total_witness :
  exists rows, correlate (HL := toy_hash_laws) example_base example_candidate = Ok rows.
Proof. apply (proj1 (correlate_total (HL := toy_hash_laws) example_base example_candidate)), example_distinct. Defined.

Lemma correlate_partition_witness :
  flat_map row_base example_rows ≡ₚ s_observations example_base /\
  flat_map row_candidate example_rows ≡ₚ s_observations example_candidate /\
  StronglySorted (fun a b => klt (row_key a) (row_key b)) example_rows.
Proof.
  exact (correlate_partition (HL := toy_hash_laws) example_base example_candidate example_rows example_correlates).
Defined.

Lemma correlate_rows_witness :
  exists row, head example_rows = Some row /\
    row_spec (HL := toy_hash_laws) [] (s_observations example_base) (s_observations example_candidate) row.
Proof.
  destruct (head example_rows) as [row|] eqn:E; [|by vm_compute in E].
  exists row. split; [done|].
  refine (correlate_rows (HL := toy_hash_laws) example_base example_candidate example_rows row example_correlates _).
  destruct example_rows; [done|]. injection E as ->. by left.
Defined.

Lemma correlate_same_row_witness :
  (exists row, row ∈ example_rows /\
     example_observation "5" (b_ "z.md") "p" ∈ row_base row ++ row_candidate row /\
     example_observation "6" (b_ "z.md") "q" ∈ row_base row ++ row_candidate row) <->
  rtsc (candidate_edges (HL := toy_hash_laws) [] (s_observations example_base) (s_observations example_candidate))
    (example_digest "5") (example_digest "6").
Proof.
  refine (correlate_same_row (HL := toy_hash_laws) example_base example_candidate example_rows
    (example_observation "5" (b_ "z.md") "p") (example_observation "6" (b_ "z.md") "q") example_correlates _ _).
  - apply elem_of_app. right. apply candidate_only_in. split; [by right; left|].
    apply (bool_decide_unpack _). by vm_compute.
  - apply elem_of_app. right. apply candidate_only_in. split; [by left|].
    apply (bool_decide_unpack _). by vm_compute.
Defined.

Lemma correlate_fast_path_witness :
  correlate (HL := toy_hash_laws) example_base example_base =
  (let? rows := correlate_unaligned (HL := toy_hash_laws) example_base example_base in Ok (sort_by row_key rows)).
Proof. apply (correlate_fast_path (HL := toy_hash_laws)). by vm_compute. Defined.
