(* ===== verification/ScanResources.v ===== *)
(** Resource accounting of the scanner: [crates/amiss-scan/src/resources.rs].

    [ScanLimits] and the counters of [ScanResources] are structs of [u64]
    fields; both are functions from the name of the field. The memo of scanned
    blobs that [ScanResources] carries between the two sides is not here. *)
From Stdlib Require Import Strings.Byte Strings.String Lia.
From stdpp Require Import base numbers list.
From S2P Require Import Prelude Codec WireModel GitObject OrdMap Observation.

(** ** Limits *)

Module ScanLimit.
Inductive t :=
  | documents_per_snapshot | document_blob_bytes | aggregate_document_bytes_per_snapshot
  | raw_link_destination_bytes | parser_nesting | parser_nodes_per_document
  | parser_nodes_per_snapshot | aggregate_embedded_code_evaluation_bytes_per_snapshot
  | references_per_document | references_per_snapshot | declared_labels_per_snapshot
  | referenced_target_blob_bytes | aggregate_referenced_target_bytes_per_snapshot
  | ignore_declaration_blob_bytes | aggregate_ignore_declaration_bytes_per_snapshot
  | aggregate_line_fragment_evaluation_bytes_per_snapshot
  | aggregate_heading_anchor_evaluation_bytes_per_snapshot | projection_assertions_per_snapshot
  | aggregate_projection_selected_bytes_per_snapshot | projection_records_compared_per_snapshot
  | aggregate_projection_projected_bytes_per_snapshot
  | aggregate_projection_preview_bytes_per_snapshot | selected_control_blob_bytes
  | aggregate_selected_control_bytes_per_snapshot | control_input_bytes | repository_policy_entries
  | debt_items | waiver_items | errors_retained | complete_findings.
#[global] Instance eq_dec : EqDecision t.
Proof. solve_decision. Defined.
End ScanLimit.

Definition ScanLimits : Type := ScanLimit.t -> u64.

(** [ScanLimits::CONTRACT]. *)
Definition SCAN_CONTRACT : ScanLimits := fun field =>
  match field with
  | ScanLimit.documents_per_snapshot => 100000
  | ScanLimit.document_blob_bytes => 4194304
  | ScanLimit.aggregate_document_bytes_per_snapshot => 83886080
  | ScanLimit.raw_link_destination_bytes => 16384
  | ScanLimit.parser_nesting => 256
  | ScanLimit.parser_nodes_per_document => 250000
  | ScanLimit.parser_nodes_per_snapshot => 5000000
  | ScanLimit.aggregate_embedded_code_evaluation_bytes_per_snapshot => 536870912
  | ScanLimit.references_per_document => 16384
  | ScanLimit.references_per_snapshot => 1000000
  | ScanLimit.declared_labels_per_snapshot => 1000000
  | ScanLimit.referenced_target_blob_bytes => 16777216
  | ScanLimit.aggregate_referenced_target_bytes_per_snapshot => 536870912
  | ScanLimit.ignore_declaration_blob_bytes => 1048576
  | ScanLimit.aggregate_ignore_declaration_bytes_per_snapshot => 16777216
  | ScanLimit.aggregate_line_fragment_evaluation_bytes_per_snapshot => 536870912
  | ScanLimit.aggregate_heading_anchor_evaluation_bytes_per_snapshot => 536870912
  | ScanLimit.projection_assertions_per_snapshot => 10000
  | ScanLimit.aggregate_projection_selected_bytes_per_snapshot => 67108864
  | ScanLimit.projection_records_compared_per_snapshot => 200000
  | ScanLimit.aggregate_projection_projected_bytes_per_snapshot => 67108864
  | ScanLimit.aggregate_projection_preview_bytes_per_snapshot => 16777216
  | ScanLimit.selected_control_blob_bytes => 16777216
  | ScanLimit.aggregate_selected_control_bytes_per_snapshot => 67108864
  | ScanLimit.control_input_bytes => 16777216
  | ScanLimit.repository_policy_entries => 100000
  | ScanLimit.debt_items => 100000
  | ScanLimit.waiver_items => 100000
  | ScanLimit.errors_retained => 64
  | ScanLimit.complete_findings => 100000
  end.

(** ** Counters *)

Module Counter.
Inductive t :=
  | documents | document_bytes | nodes | embedded_code_bytes | references | labels | target_bytes
  | ignore_declaration_bytes | line_fragment_bytes | heading_anchor_bytes | projection_assertions
  | projection_selected_bytes | projection_compared_records | projection_projected_bytes
  | projection_preview_bytes | control_bytes | historical_tree_entries.
#[global] Instance eq_dec : EqDecision t.
Proof. solve_decision. Defined.
End Counter.

Record ScanResources := mkScanResources { sr_limits : ScanLimits; sr_counters : Counter.t -> u64 }.

Definition scan_resources_new (limits : ScanLimits) : ScanResources := mkScanResources limits (fun _ => 0).

Definition set_counter (counter : Counter.t) (value : u64) (r : ScanResources) : ScanResources :=
  mkScanResources (sr_limits r) (fun c => if decide (c = counter) then value else sr_counters r c).

Definition scan_crossing (resource : ResourceName) (configured_limit observed_lower_bound : u64) : ScanError.t :=
  ScanError.ResourceLimit resource configured_limit observed_lower_bound.

Definition within_limit (value limit : u64) (resource : ResourceName) (observed_lower_bound : u64) :
    res unit ScanError.t :=
  if value <=? limit then Ok tt else Err (scan_crossing resource limit observed_lower_bound).

Definition bounded_value (value limit : u64) (resource : ResourceName) : res u64 ScanError.t :=
  let? _ := within_limit value limit resource value in
  Ok value.

(** [charge_aggregate]: refused whole. *)
Definition charge_aggregate (total : Counter.t) (limit : u64) (resource : ResourceName) (amount : u64) :
    sres ScanResources unit ScanError.t :=
  let! r := sget in
  let charged := sat_add (sr_counters r total) amount in
  let! _ := slift (within_limit charged limit resource charged) in
  sput (set_counter total charged r).

(** [charge_count]: counted, then refused. *)
Definition charge_count (total : Counter.t) (increment limit : u64) (resource : ResourceName) :
    sres ScanResources unit ScanError.t :=
  let! r := sget in
  let counted := sat_add (sr_counters r total) increment in
  let! _ := sput (set_counter total counted r) in
  slift (within_limit counted limit resource (sat_add limit 1)).

Definition charge_historical_tree_entries (entries limit : u64) : sres ScanResources unit ScanError.t :=
  charge_count Counter.historical_tree_entries entries limit GitTreeEntriesPerSnapshot.

Definition embedded_code_allowance (r : ScanResources) : u64 :=
  sat_sub (sr_limits r ScanLimit.aggregate_embedded_code_evaluation_bytes_per_snapshot)
    (sr_counters r Counter.embedded_code_bytes).

Definition charge_embedded_code (spent : u64) : sres ScanResources unit ScanError.t :=
  let! r := sget in
  sput (set_counter Counter.embedded_code_bytes (sat_add (sr_counters r Counter.embedded_code_bytes) spent) r).

Definition embedded_code_crossing (r : ScanResources) (spent : u64) : ScanError.t :=
  scan_crossing AggregateEmbeddedCodeEvaluationBytesPerSnapshot
    (sr_limits r ScanLimit.aggregate_embedded_code_evaluation_bytes_per_snapshot)
    (sat_add (sr_counters r Counter.embedded_code_bytes) spent).

Definition heading_anchor_allowance (r : ScanResources) : u64 :=
  sat_sub (sr_limits r ScanLimit.aggregate_heading_anchor_evaluation_bytes_per_snapshot)
    (sr_counters r Counter.heading_anchor_bytes).

Module Aggregate.
Inductive t :=
  | SelectedControlBytes | ReferencedTargetBytes | IgnoreDeclarationBytes | LineFragmentBytes | HeadingAnchorBytes
  | ProjectionAssertions | ProjectionSelectedBytes | ProjectionComparedRecords | ProjectionProjectedBytes
  | ProjectionPreviewBytes.
#[global] Instance eq_dec : EqDecision t.
Proof. solve_decision. Defined.

(** The counter, the limit and the resource of the match in [charge]. *)
Definition row (aggregate : t) : Counter.t * ScanLimit.t * ResourceName :=
  match aggregate with
  | SelectedControlBytes => (Counter.control_bytes, ScanLimit.aggregate_selected_control_bytes_per_snapshot, AggregateSelectedControlBytesPerSnapshot)
  | ReferencedTargetBytes => (Counter.target_bytes, ScanLimit.aggregate_referenced_target_bytes_per_snapshot, AggregateReferencedTargetBytesPerSnapshot)
  | IgnoreDeclarationBytes => (Counter.ignore_declaration_bytes, ScanLimit.aggregate_ignore_declaration_bytes_per_snapshot, AggregateIgnoreDeclarationBytesPerSnapshot)
  | LineFragmentBytes => (Counter.line_fragment_bytes, ScanLimit.aggregate_line_fragment_evaluation_bytes_per_snapshot, AggregateLineFragmentEvaluationBytesPerSnapshot)
  | HeadingAnchorBytes => (Counter.heading_anchor_bytes, ScanLimit.aggregate_heading_anchor_evaluation_bytes_per_snapshot, AggregateHeadingAnchorEvaluationBytesPerSnapshot)
  | ProjectionAssertions => (Counter.projection_assertions, ScanLimit.projection_assertions_per_snapshot, ProjectionAssertionsPerSnapshot)
  | ProjectionSelectedBytes => (Counter.projection_selected_bytes, ScanLimit.aggregate_projection_selected_bytes_per_snapshot, AggregateProjectionSelectedBytesPerSnapshot)
  | ProjectionComparedRecords => (Counter.projection_compared_records, ScanLimit.projection_records_compared_per_snapshot, ProjectionRecordsComparedPerSnapshot)
  | ProjectionProjectedBytes => (Counter.projection_projected_bytes, ScanLimit.aggregate_projection_projected_bytes_per_snapshot, AggregateProjectionProjectedBytesPerSnapshot)
  | ProjectionPreviewBytes => (Counter.projection_preview_bytes, ScanLimit.aggregate_projection_preview_bytes_per_snapshot, AggregateProjectionPreviewBytesPerSnapshot)
  end.
End Aggregate.

(** [ScanResources::charge]. *)
Definition scan_charge (aggregate : Aggregate.t) (amount : u64) : sres ScanResources unit ScanError.t :=
  let! r := sget in
  let '(total, limit, resource) := Aggregate.row aggregate in
  charge_aggregate total (sr_limits r limit) resource amount.

Definition admit_document : sres ScanResources unit ScanError.t :=
  let! r := sget in
  charge_count Counter.documents 1 (sr_limits r ScanLimit.documents_per_snapshot) DocumentsPerSnapshot.

Definition charge_document_bytes (declared_bytes : u64) : sres ScanResources unit ScanError.t :=
  let! r := sget in
  let! nbytes := slift (bounded_value declared_bytes (sr_limits r ScanLimit.document_blob_bytes) DocumentBlobBytes) in
  charge_aggregate Counter.document_bytes (sr_limits r ScanLimit.aggregate_document_bytes_per_snapshot)
    AggregateDocumentBytesPerSnapshot nbytes.

Definition charge_document (declared_bytes : u64) : sres ScanResources unit ScanError.t :=
  let! _ := admit_document in
  charge_document_bytes declared_bytes.

Definition charge_work (nodes nesting : u64) : sres ScanResources unit ScanError.t :=
  let! r := sget in
  let limits := sr_limits r in
  let! _ := slift (within_limit nesting (limits ScanLimit.parser_nesting) ParserNesting
    (sat_add (limits ScanLimit.parser_nesting) 1)) in
  let! _ := slift (within_limit nodes (limits ScanLimit.parser_nodes_per_document) ParserNodesPerDocument
    (sat_add (limits ScanLimit.parser_nodes_per_document) 1)) in
  charge_count Counter.nodes nodes (limits ScanLimit.parser_nodes_per_snapshot) ParserNodesPerSnapshot.

Definition charge_reference (document_references : u64) : sres ScanResources unit ScanError.t :=
  let! r := sget in
  let per_document := sr_limits r ScanLimit.references_per_document in
  if per_document <? document_references
  then sfail (ScanError.ResourceLimit ReferencesPerDocument per_document (sat_add per_document 1))
  else charge_count Counter.references 1 (sr_limits r ScanLimit.references_per_snapshot) ReferencesPerSnapshot.

Definition charge_label : sres ScanResources unit ScanError.t :=
  let! r := sget in
  charge_count Counter.labels 1 (sr_limits r ScanLimit.declared_labels_per_snapshot) DeclaredLabelsPerSnapshot.

(** ** What a charge does *)

Lemma counter_set counter value r c :
  sr_counters (set_counter counter value r) c = if decide (c = counter) then value else sr_counters r c.
Proof. done. Qed.

Lemma charge_aggregate_spec total limit resource amount r :
  charge_aggregate total limit resource amount r =
  let charged := sat_add (sr_counters r total) amount in
  if charged <=? limit then (Ok tt, set_counter total charged r)
  else (Err (ScanError.ResourceLimit resource limit charged), r).
Proof.
  unfold charge_aggregate, within_limit, sbind, sget, slift, sput. cbv zeta. by destruct (_ <=? _).
Qed.

Lemma charge_count_spec total increment limit resource r :
  charge_count total increment limit resource r =
  let counted := sat_add (sr_counters r total) increment in
  (if counted <=? limit then Ok tt else Err (ScanError.ResourceLimit resource limit (sat_add limit 1)),
   set_counter total counted r).
Proof. unfold charge_count, within_limit, sbind, sget, slift, sput. cbv zeta. by destruct (_ <=? _). Qed.

Definition sum (amounts : list Z) : Z := foldr Z.add 0 amounts.

Lemma sum_cons x amounts : sum (x :: amounts) = x + sum amounts.
Proof. done. Qed.

(** The counters but one. *)
Definition same_but (total : Counter.t) (r r' : ScanResources) : Prop :=
  sr_limits r' = sr_limits r /\ forall c, c <> total -> sr_counters r' c = sr_counters r c.

(** What a list of charges to one aggregate leaves. *)
Definition charged_outcome (aggregate : Aggregate.t) (amounts : list Z) (r : ScanResources)
    (out : res unit ScanError.t * ScanResources) : Prop :=
  let '(total, limit, resource) := Aggregate.row aggregate in
  let start := sr_counters r total in
  same_but total r out.2 /\
  match out.1 with
  | Ok _ => start + sum amounts <= sr_limits r limit /\ sr_counters out.2 total = start + sum amounts
  | Err e =>
      exists before x after,
        amounts = before ++ x :: after /\
        sr_counters out.2 total = start + sum before /\
        start + sum before <= sr_limits r limit < start + sum before + x /\
        e = ScanError.ResourceLimit resource (sr_limits r limit) (Z.min (start + sum before + x) u64_max)
  | OutOfFuel => False
  end.

Lemma charged_total aggregate amounts r : 
  let '(total, limit, _) := Aggregate.row aggregate in
  0 <= sr_counters r total <= sr_limits r limit -> sr_limits r limit < u64_max -> Forall (Z.le 0) amounts ->
  charged_outcome aggregate amounts r (siter (scan_charge aggregate) amounts r).
Proof.
  destruct (Aggregate.row aggregate) as [[total limit] resource] eqn:Erow. intros Hr Hl Hf.
  unfold charged_outcome. rewrite Erow. revert r Hr Hl.
  induction Hf as [|x amounts Hx Hf IH]; intros r Hr Hl.
  { cbn. split; [done|]. unfold sum. cbn. lia. }
  assert (scan_charge aggregate x r = charge_aggregate total (sr_limits r limit) resource x r) as Hstep
    by (unfold scan_charge, sbind, sget; by rewrite Erow).
  rewrite charge_aggregate_spec in Hstep. cbn [siter]. unfold sbind. rewrite Hstep.
  cbv zeta. destruct (Z.leb_spec (sat_add (sr_counters r total) x) (sr_limits r limit)) as [Hle|Hgt].
  - assert (sat_add (sr_counters r total) x = sr_counters r total + x) as Hs by (by apply (sat_add_exact _ _ (sr_limits r limit))).
    rewrite Hs in *. set (r1 := set_counter total (sr_counters r total + x) r).
    assert (sr_counters r1 total = sr_counters r total + x) as Ht by (unfold r1; by rewrite counter_set, decide_True).
    assert (forall c, c <> total -> sr_counters r1 c = sr_counters r c) as Hc
      by (intros c Hne; unfold r1; by rewrite counter_set, decide_False).
    assert (sr_limits r1 = sr_limits r) as Hlr by done. clearbody r1.
    destruct (IH r1) as [[Hlim Hoth] Hout]; [rewrite Ht, Hlr; lia|by rewrite Hlr|]. rewrite Ht, Hlr in Hout.
    destruct (siter _ amounts r1) as [out r2]. cbn [fst snd] in *. split.
    { split; [congruence|]. intros c Hne. by rewrite Hoth, Hc. }
    destruct out as [[]|e|]; cbn [fst snd] in *; [rewrite sum_cons; lia| |done].
    destruct Hout as (before & y & after & -> & E1 & E2 & ->). exists (x :: before), y, after.
    rewrite sum_cons. split_and!; [done|lia|lia|lia|]. do 2 f_equal. lia.
  - cbn [fst snd]. split; [done|]. exists [], x, amounts. change (sum []) with 0. unfold sat_add in *.
    split_and!; [done|lia|lia|lia|]. do 2 f_equal. lia.
Qed.

(** ** Operations keep the counters within the limits *)

Module ScanOp.
Inductive t :=
  | Charge (aggregate : Aggregate.t) (amount : u64)
  | AdmitDocument
  | DocumentBytes (declared_bytes : u64)
  | Work (nodes nesting : u64)
  | Reference (document_references : u64)
  | Label.

Definition run (op : t) : sres ScanResources unit ScanError.t :=
  match op with
  | Charge aggregate amount => scan_charge aggregate amount
  | AdmitDocument => admit_document
  | DocumentBytes declared_bytes => charge_document_bytes declared_bytes
  | Work nodes nesting => charge_work nodes nesting
  | Reference document_references => charge_reference document_references
  | Label => charge_label
  end.

(** The amounts are [u64]s. *)
Definition unsigned (op : t) : Prop :=
  match op with
  | Charge _ amount => 0 <= amount
  | DocumentBytes declared_bytes => 0 <= declared_bytes
  | Work nodes _ => 0 <= nodes
  | AdmitDocument | Reference _ | Label => True
  end.

(** The whole sequence, each operation after the other whatever it answered. *)
Fixpoint run_all (ops : list t) (r : ScanResources) : list (res unit ScanError.t) * ScanResources :=
  match ops with
  | [] => ([], r)
  | op :: ops =>
      let '(out, r) := run op r in
      let '(outs, r) := run_all ops r in
      (out :: outs, r)
  end.
End ScanOp.

(** The counters refused whole, and the counters counted first, with their
    limits. *)
Definition metered (c : Counter.t) : option ScanLimit.t :=
  match c with
  | Counter.control_bytes => Some ScanLimit.aggregate_selected_control_bytes_per_snapshot
  | Counter.target_bytes => Some ScanLimit.aggregate_referenced_target_bytes_per_snapshot
  | Counter.ignore_declaration_bytes => Some ScanLimit.aggregate_ignore_declaration_bytes_per_snapshot
  | Counter.line_fragment_bytes => Some ScanLimit.aggregate_line_fragment_evaluation_bytes_per_snapshot
  | Counter.heading_anchor_bytes => Some ScanLimit.aggregate_heading_anchor_evaluation_bytes_per_snapshot
  | Counter.projection_assertions => Some ScanLimit.projection_assertions_per_snapshot
  | Counter.projection_selected_bytes => Some ScanLimit.aggregate_projection_selected_bytes_per_snapshot
  | Counter.projection_compared_records => Some ScanLimit.projection_records_compared_per_snapshot
  | Counter.projection_projected_bytes => Some ScanLimit.aggregate_projection_projected_bytes_per_snapshot
  | Counter.projection_preview_bytes => Some ScanLimit.aggregate_projection_preview_bytes_per_snapshot
  | Counter.document_bytes => Some ScanLimit.aggregate_document_bytes_per_snapshot
  | _ => None
  end.
Definition counted (c : Counter.t) : option ScanLimit.t :=
  match c with
  | Counter.documents => Some ScanLimit.documents_per_snapshot
  | Counter.nodes => Some ScanLimit.parser_nodes_per_snapshot
  | Counter.references => Some ScanLimit.references_per_snapshot
  | Counter.labels => Some ScanLimit.declared_labels_per_snapshot
  | _ => None
  end.

Definition nonneg (r : ScanResources) : Prop := forall c, 0 <= sr_counters r c.
Definition bounded (limit_of : Counter.t -> option ScanLimit.t) (r : ScanResources) : Prop :=
  forall c limit, limit_of c = Some limit -> sr_counters r c <= sr_limits r limit.

(** What every operation leaves, also when it refuses. *)
Record kept (r : ScanResources) (out : res unit ScanError.t) (r' : ScanResources) : Prop := {
  kept_limits : sr_limits r' = sr_limits r;
  kept_nonneg : nonneg r -> nonneg r';
  kept_metered : bounded metered r -> bounded metered r';
  kept_counted : out = Ok tt -> bounded counted r -> bounded counted r';
  kept_result : out <> OutOfFuel
}.

Lemma kept_refused r e : kept r (Err e) r.
Proof. by split. Qed.

Lemma bounded_set limit_of counter value r :
  bounded limit_of r ->
  (forall limit, limit_of counter = Some limit -> value <= sr_limits r limit) ->
  bounded limit_of (set_counter counter value r).
Proof.
  intros Hb Hv c limit Hc. rewrite counter_set. destruct (decide (c = counter)) as [->|]; [by apply Hv|by apply Hb].
Qed.

Lemma nonneg_set counter increment r :
  0 <= increment -> nonneg r -> nonneg (set_counter counter (sat_add (sr_counters r counter) increment) r).
Proof.
  intros Hi Hr c. rewrite counter_set. destruct (decide _); [|apply Hr]. specialize (Hr counter).
  unfold sat_add, usize_max, u64_max. lia.
Qed.

Lemma aggregate_kept total limit resource amount r :
  metered total = Some limit -> 0 <= amount ->
  let '(out, r') := charge_aggregate total (sr_limits r limit) resource amount r in kept r out r'.
Proof.
  intros Hm Ha. rewrite charge_aggregate_spec. cbv zeta.
  destruct (Z.leb_spec (sat_add (sr_counters r total) amount) (sr_limits r limit)); [|apply kept_refused].
  split; try done.
  - by apply nonneg_set.
  - intros Hb. apply bounded_set; [done|]. intros l Hl. congruence.
  - intros _ Hb. apply bounded_set; [done|]. intros l Hl. by destruct total.
Qed.

Lemma count_kept total limit increment resource r :
  counted total = Some limit -> 0 <= increment ->
  let '(out, r') := charge_count total increment (sr_limits r limit) resource r in kept r out r'.
Proof.
  intros Hm Ha. rewrite charge_count_spec. cbv zeta.
  split; [done|by apply nonneg_set| | |by destruct (_ <=? _)].
  - intros Hb. apply bounded_set; [done|]. intros l Hl. by destruct total.
  - destruct (Z.leb_spec (sat_add (sr_counters r total) increment) (sr_limits r limit)); [|done].
    intros _ Hb. apply bounded_set; [done|]. intros l Hl. congruence.
Qed.

(** A check before a charge. *)
Lemma check_kept {A} (check : res A ScanError.t) (k : A -> sres ScanResources unit ScanError.t) r :
  check <> OutOfFuel ->
  (forall a, check = Ok a -> let '(out, r') := k a r in kept r out r') ->
  let '(out, r') := sbind (slift check) k r in kept r out r'.
Proof. intros Hf Hk. unfold sbind, slift. destruct check; [by apply Hk|apply kept_refused|done]. Qed.

Lemma within_limit_fuel value limit resource bound : within_limit value limit resource bound <> OutOfFuel.
Proof. unfold within_limit. by destruct (_ <=? _). Qed.

Lemma op_kept op r : ScanOp.unsigned op -> let '(out, r') := ScanOp.run op r in kept r out r'.
Proof.
  destruct op as [aggregate amount| |declared_bytes|nodes nesting|references|]; cbn [ScanOp.run ScanOp.unsigned]; intros Hu.
  - unfold scan_charge, sbind at 1, sget. destruct (Aggregate.row aggregate) as [[total limit] resource] eqn:E.
    apply aggregate_kept; [|done]. by destruct aggregate; injection E as <- <- <-.
  - by apply count_kept.
  - unfold charge_document_bytes, sbind at 1, sget. apply check_kept.
    + unfold bounded_value. pose proof (within_limit_fuel declared_bytes) as Hf. by destruct (within_limit _ _ _ _) eqn:E; [| |eapply Hf in E].
    + unfold bounded_value. destruct (within_limit _ _ _ _); [|done..]. intros n [= <-]. by apply aggregate_kept.
  - unfold charge_work, sbind at 1, sget. apply check_kept; [apply within_limit_fuel|]. intros _ _.
    apply check_kept; [apply within_limit_fuel|]. intros _ _. by apply count_kept.
  - unfold charge_reference, sbind at 1, sget. destruct (_ <? _); [apply kept_refused|by apply count_kept].
  - by apply count_kept.
Qed.

(** whatever sequence of charges a snapshot makes, and whether or not
    some of them are refused, no counter that is refused whole ever exceeds its
    limit; and as long as every operation answered [Ok], the counters that are
    counted first are within theirs as well. *)
Theorem charges_within ops limits :
  (forall field, 0 <= limits field) -> Forall ScanOp.unsigned ops ->
  let '(outs, r) := ScanOp.run_all ops (scan_resources_new limits) in
  sr_limits r = limits /\ nonneg r /\ bounded metered r /\ (Forall (eq (Ok tt)) outs -> bounded counted r).
Proof.
  intros Hl Hf.
  assert (forall r0, let '(outs, r) := ScanOp.run_all ops r0 in
            sr_limits r = sr_limits r0 /\ (nonneg r0 -> nonneg r) /\ (bounded metered r0 -> bounded metered r) /\
            (bounded counted r0 -> Forall (eq (Ok tt)) outs -> bounded counted r)) as Hall.
  { induction Hf as [|op ops Hop Hf IH]; intros r0; [done|]. cbn [ScanOp.run_all].
    pose proof (op_kept op r0 Hop) as Hk. destruct (ScanOp.run op r0) as [out r1]. specialize (IH r1).
    destruct (ScanOp.run_all ops r1) as [outs r2]. destruct IH as (El & Hn & Hm & Hc), Hk as [Kl Kn Km Kc _].
    split; [congruence|]. split; [by auto|]. split; [by auto|]. intros Hb Ho. apply Forall_cons in Ho as [<- Ho].
    apply Hc; [|done]. by apply Kc. }
  specialize (Hall (scan_resources_new limits)). destruct (ScanOp.run_all _ _) as [outs r].
  destruct Hall as (El & Hn & Hm & Hc). split; [done|].
  split; [apply Hn; by intros c|]. split; [apply Hm|apply Hc]; intros c limit _; apply Hl.
Qed.

Lemma charges_within_witness :
  let '(outs, r) := ScanOp.run_all
    [ScanOp.AdmitDocument; ScanOp.DocumentBytes 4194305; ScanOp.Work 12 3; ScanOp.Reference 1;
     ScanOp.Charge Aggregate.SelectedControlBytes 67108864; ScanOp.Charge Aggregate.SelectedControlBytes 1]
    (scan_resources_new SCAN_CONTRACT) in
  sr_limits r = SCAN_CONTRACT /\ nonneg r /\ bounded metered r /\ (Forall (eq (Ok tt)) outs -> bounded counted r).
Proof. apply charges_within; [by intros []|repeat constructor; done]. Defined.

(** C36: charging one member after another against an aggregate admits exactly
    the longest prefix whose total stays within the limit: all of them when
    their sum does, and otherwise the first crossing member is refused whole,
    with the prior total and that member as the observed bound. No other
    counter moves. *)
Theorem charges_exact aggregate amounts limits :
  (forall field, 0 <= limits field < u64_max) -> Forall (Z.le 0) amounts ->
  charged_outcome aggregate amounts (scan_resources_new limits)
    (siter (scan_charge aggregate) amounts (scan_resources_new limits)).
Proof.
  intros Hl Hf. pose proof (charged_total aggregate amounts (scan_resources_new limits)) as Ht.
  destruct (Aggregate.row aggregate) as [[total limit] resource]. pose proof (Hl limit). apply Ht; cbn; [lia..|done].
Qed.

Lemma charges_exact_witness :
  charged_outcome Aggregate.IgnoreDeclarationBytes [16777215; 1; 5] (scan_resources_new SCAN_CONTRACT)
    (siter (scan_charge Aggregate.IgnoreDeclarationBytes) [16777215; 1; 5] (scan_resources_new SCAN_CONTRACT)) /\
  (siter (scan_charge Aggregate.IgnoreDeclarationBytes) [16777215; 1; 5] (scan_resources_new SCAN_CONTRACT)).1 =
  Err (ScanError.ResourceLimit AggregateIgnoreDeclarationBytesPerSnapshot 16777216 16777221).
Proof. split; [apply charges_exact; [by intros []|repeat constructor; lia]|by vm_compute]. Defined.
