(* ===== verification/ScanPath.v ===== *)
(** Written destinations as repository paths: [decode_component] and
    [decode_fragment] of [crates/amiss-wire/src/uri.rs], and
    [normalized_path_under] of [crates/amiss-scan/src/route.rs]. The
    [percent-encoding] crate is a parameter. *)
From Stdlib Require Import Strings.Byte Strings.String Lia.
From stdpp Require Import base numbers list.
From S2P Require Import Prelude Codec WireModel OrdMap Observation.

(** [percent_encoding::percent_decode_str], collected. *)
Class PercentDecode := percent_decode : bytes -> bytes.

(** [percent_decode] where every percent sign begins an escape. *)
Fixpoint decode_escapes (text : bytes) : option bytes :=
  match text with
  | [] => Some []
  | b :: text =>
      if beqb b "%" then
        match text with
        | high :: low :: text =>
            match char_nibble high, char_nibble low with
            | Some h, Some l => (cons (byte_of (16 * h + l))) <$> decode_escapes text
            | _, _ => None
            end
        | _ => None
        end
      else cons b <$> decode_escapes text
  end.

(** Escapes decode to the byte they name and everything else to itself. *)
Class PercentDecodeLaws `{PercentDecode} : Prop := {
  percent_decode_escapes text out : decode_escapes text = Some out -> percent_decode text = out
}.

(** ** Components *)

(** [first_malformed_escape]: the first percent sign two hexadecimal digits do
    not follow. *)
Fixpoint malformed_from (at_ : usize) (text : bytes) : option usize :=
  match text with
  | [] => None
  | b :: text =>
      if beqb b "%"
         && negb (match text with
                  | high :: low :: _ => is_ascii_hexdigit high && is_ascii_hexdigit low
                  | _ => false
                  end)
      then Some at_
      else malformed_from (at_ + 1) text
  end.
Definition first_malformed_escape (text : bytes) : option usize := malformed_from 0 text.

Section Path.
Context `{PD : PercentDecode}.

(** [decode_component]: what is appended to [out]; on an error the caller drops
    [out]. *)
Definition decode_component (text out : bytes) (invalid : Byte.byte -> option InvalidReference.t) :
    res bytes InvalidReference.t :=
  let malformed := first_malformed_escape text in
  let? prefix :=
    match malformed with
    | Some at_ => ok_or (slice_to text at_) InvalidReference.PercentEncoding
    | None => Ok text
    end in
  let decoded := percent_decode prefix in
  let invalid_byte :=
    fold_left (fun invalid_byte byte => match invalid_byte with Some r => Some r | None => invalid byte end)
      decoded None in
  match malformed with
  | Some _ => Err InvalidReference.PercentEncoding
  | None => match invalid_byte with Some r => Err r | None => Ok (out ++ decoded) end
  end.

Definition decode_fragment (fragment : bytes) : option bytes :=
  match decode_component fragment []
          (fun byte => if is_ascii_control byte then Some InvalidReference.DecodedPathControl else None) with
  | Ok out => from_utf8 out
  | _ => None
  end.

Definition invalid_path_byte (byte : Byte.byte) : option InvalidReference.t :=
  if beqb byte "/" then Some InvalidReference.EncodedSlash
  else if beqb byte "\" then Some InvalidReference.BackslashSeparator
  else if is_ascii_control byte then Some InvalidReference.DecodedPathControl
  else None.

(** ** Normalization *)

Definition directory (document : bytes) : bytes :=
  match rposition (fun byte => beqb byte "/") document with
  | Some split => default [] (slice_to document split)
  | None => []
  end.

(** [Vec::truncate]. *)
Definition truncate {A} (l : list A) (n : usize) : list A := take (Z.to_nat n) l.

(** The loop over the segments of [path]. *)
Fixpoint walk_segments (segments : list bytes) (resolved : bytes) : res bytes (Resolution.t path) :=
  match segments with
  | [] => Ok resolved
  | segment :: segments =>
      let prior := len resolved in
      let resolved := if 0 <? prior then resolved ++ b_ "/" else resolved in
      let decoded := len resolved in
      match decode_component segment resolved invalid_path_byte with
      | Err reason => Err (Resolution.Invalid reason)
      | OutOfFuel => OutOfFuel
      | Ok resolved =>
          let name := default [] (slice_from resolved decoded) in
          if bytes_eqb name (b_ ".") then walk_segments segments (truncate resolved prior)
          else if bytes_eqb name (b_ "..") then
            let resolved := truncate resolved prior in
            if bytes_eqb resolved [] then Err (Resolution.Invalid InvalidReference.PathTraversal)
            else
              walk_segments segments
                (match rposition (fun byte => beqb byte "/") resolved with
                 | Some separator => truncate resolved separator
                 | None => []
                 end)
          else walk_segments segments resolved
      end
  end.

Definition normalized_path_under (parent : bytes) (is_image : bool) (path_part : bytes) :
    res (path * TargetKind.t) (Resolution.t path) :=
  if existsb (fun b => beqb b "\") path_part then Err (Resolution.Invalid InvalidReference.BackslashSeparator)
  else
    let trailing_slash := (1 <? len path_part) && is_some (strip_suffix (b_ "/") path_part) in
    let path := default path_part (strip_suffix (b_ "/") path_part) in
    if existsb (fun segment => bytes_eqb segment []) (Path.segments path) || (trailing_slash && is_image)
    then Err (Resolution.Invalid InvalidReference.Syntax)
    else
      let target_kind :=
        if trailing_slash then TargetKind.Tree else if is_image then TargetKind.Blob else TargetKind.Either in
      let? resolved := walk_segments (Path.segments path) parent in
      if bytes_eqb resolved [] && negb is_image
      then Err (Resolution.UnsupportedSemantics UnsupportedSemantics.RepositoryRoot)
      else if Path.path_bytes_valid resolved then Ok (resolved, target_kind)
      else Err (Resolution.Invalid InvalidReference.Syntax).

Definition normalized_native_path (document_path : bytes) (is_image : bool) (path_part : bytes) :
    res (path * TargetKind.t) (Resolution.t path) :=
  normalized_path_under (directory document_path) is_image path_part.
End Path.
