(* ===== verification/EvalModel.v ===== *)
(** The vocabulary of policy evaluation: [crates/amiss-wire/src/report/finding.rs]
    and [report/model/finding.rs] (finding kinds with their built-in table,
    keys, facts, policy steps), [controls] (profiles, debt and waiver items,
    projection sources), [report/error.rs], and the findings of
    [crates/amiss-scan/src/evaluate/model.rs].

    [document_digest] of [amiss-wire/src/envelope.rs] hashes the canonical JSON
    of a value; the canonical serializer is the class [Canon]. *)
From Stdlib Require Import Strings.Byte Strings.String Lia Sorting.Sorted.
From stdpp Require Import base list numbers sorting.
From S2P Require Import Prelude Codec WireModel WireIdentity OrdMap Observation.

(** [serde_json_canonicalizer::to_writer] at one type; [None] is [Err]. *)
Class Canon (T : Type) := canonical : T -> option bytes.

Definition document_digest `{Hashes} {HHL : HashLaws _} {T} `{Canon T} (domain : bytes) (value : T) : option Digest.t :=
  match canonical value with
  | Some text => Some (sha256_digest (domain ++ [x00] ++ text))
  | None => None
  end.

(** ** The taxonomy of findings *)

Module FindingScope.
Inductive t := Reference | Observation | Document | Control.
#[global] Instance eq_dec : EqDecision t.
Proof. solve_decision. Defined.
End FindingScope.

Module Disposition.
Inductive t := Record_ | Warn | Fail.
#[global] Instance eq_dec : EqDecision t.
Proof. solve_decision. Defined.
(** The derived order. *)
Definition rank (d : t) : Z := match d with Record_ => 0 | Warn => 1 | Fail => 2 end.
Definition gtb (a b : t) : bool := rank b <? rank a.
Definition ltb (a b : t) : bool := rank a <? rank b.
End Disposition.

Module EvidenceClass.
Inductive t := AnalysisIntegrity | ControlPlane | CoverageBoundary | DeterministicStructural | ImpactObservation | Unsupported.
End EvidenceClass.
Module InvariantClass.
Inductive t := Absolute | Advisory | AnalysisIntegrity | Ratcheted.
End InvariantClass.

Module Profile.
Inductive t := Observe | EnforceIntroduced | Enforce.
#[global] Instance eq_dec : EqDecision t.
Proof. solve_decision. Defined.
Definition rank (p : t) : Z := match p with Observe => 0 | EnforceIntroduced => 1 | Enforce => 2 end.
Definition enforces (p : t) : bool := match p with EnforceIntroduced | Enforce => true | Observe => false end.
Definition policy_defaults (p : t) : t :=
  match p with Observe => Observe | EnforceIntroduced | Enforce => Enforce end.
Definition as_str (p : t) : bytes :=
  match p with
  | Observe => b_ "observe"
  | EnforceIntroduced => b_ "enforce-introduced"
  | Enforce => b_ "enforce"
  end.
End Profile.

Record FindingMetadata := mkFindingMetadata {
  scope : FindingScope.t;
  evidence_class : EvidenceClass.t;
  invariant_class : InvariantClass.t;
  observe_disposition : Disposition.t;
  enforce_disposition : Disposition.t
}.

Definition RATCHETED_REFERENCE : FindingMetadata :=
  mkFindingMetadata FindingScope.Reference EvidenceClass.DeterministicStructural InvariantClass.Ratcheted Disposition.Warn Disposition.Fail.
Definition RATCHETED_OBSERVATION : FindingMetadata :=
  mkFindingMetadata FindingScope.Observation EvidenceClass.DeterministicStructural InvariantClass.Ratcheted Disposition.Warn Disposition.Fail.
Definition ABSOLUTE_OBSERVATION : FindingMetadata :=
  mkFindingMetadata FindingScope.Observation EvidenceClass.DeterministicStructural InvariantClass.Absolute Disposition.Warn Disposition.Fail.
Definition RATCHETED_CONTROL : FindingMetadata :=
  mkFindingMetadata FindingScope.Control EvidenceClass.DeterministicStructural InvariantClass.Ratcheted Disposition.Warn Disposition.Fail.
Definition COVERAGE_OBSERVATION : FindingMetadata :=
  mkFindingMetadata FindingScope.Observation EvidenceClass.CoverageBoundary InvariantClass.Advisory Disposition.Record_ Disposition.Record_.
Definition COVERAGE_DOCUMENT : FindingMetadata :=
  mkFindingMetadata FindingScope.Document EvidenceClass.CoverageBoundary InvariantClass.Advisory Disposition.Record_ Disposition.Record_.
Definition UNSUPPORTED_DOCUMENT : FindingMetadata :=
  mkFindingMetadata FindingScope.Document EvidenceClass.Unsupported InvariantClass.Advisory Disposition.Record_ Disposition.Record_.
Definition UNSUPPORTED_CONTROL : FindingMetadata :=
  mkFindingMetadata FindingScope.Control EvidenceClass.Unsupported InvariantClass.AnalysisIntegrity Disposition.Fail Disposition.Fail.
Definition IMPACT_WARNING : FindingMetadata :=
  mkFindingMetadata FindingScope.Observation EvidenceClass.ImpactObservation InvariantClass.Advisory Disposition.Warn Disposition.Warn.
Definition IMPACT_DOCUMENT : FindingMetadata :=
  mkFindingMetadata FindingScope.Document EvidenceClass.ImpactObservation InvariantClass.Advisory Disposition.Warn Disposition.Warn.
Definition IMPACT_RECORD : FindingMetadata :=
  mkFindingMetadata FindingScope.Observation EvidenceClass.ImpactObservation InvariantClass.Advisory Disposition.Record_ Disposition.Record_.
Definition CONTROL_PLANE : FindingMetadata :=
  mkFindingMetadata FindingScope.Control EvidenceClass.ControlPlane InvariantClass.Absolute Disposition.Fail Disposition.Fail.

Module FindingKind.
Inductive t :=
  | ExplicitTargetMissing
  | ExplicitTargetTypeMismatch
  | InvalidReference
  | TargetDeclaredUntracked
  | UnsupportedReferenceSemantics
  | UnsupportedDocumentFormat
  | UnsupportedTargetKind
  | UnsupportedVersionScope
  | UnsupportedCapability
  | DependencyChangedSubjectUnchanged
  | DependencyAndSubjectCochanged
  | SubjectChanged
  | TranslationDrift
  | ExplicitReferenceRemoved
  | DocumentRemoved
  | OpaqueMdxRegion
  | OpaqueHtmlRegion
  | ObservationCorrelationAmbiguous
  | UnlinkedDocument
  | SiteBuildDefect
  | PolicyWeakened
  | CoverageReduced
  | ControlPlaneChanged
  | DebtWorsened
  | DebtExpired
  | WaiverInvalid
  | ClaimBroken
  | ClaimTargetMissing
  | ProjectionDrift.
#[global] Instance eq_dec : EqDecision t.
Proof. solve_decision. Defined.

(** The order of declaration, which the derived [Ord] compares. *)
Definition all : list t := [
  ExplicitTargetMissing; ExplicitTargetTypeMismatch; InvalidReference; TargetDeclaredUntracked;
  UnsupportedReferenceSemantics; UnsupportedDocumentFormat; UnsupportedTargetKind; UnsupportedVersionScope;
  UnsupportedCapability; DependencyChangedSubjectUnchanged; DependencyAndSubjectCochanged; SubjectChanged;
  TranslationDrift; ExplicitReferenceRemoved; DocumentRemoved; OpaqueMdxRegion;
  OpaqueHtmlRegion; ObservationCorrelationAmbiguous; UnlinkedDocument; SiteBuildDefect;
  PolicyWeakened; CoverageReduced; ControlPlaneChanged; DebtWorsened;
  DebtExpired; WaiverInvalid; ClaimBroken; ClaimTargetMissing;
  ProjectionDrift].

(** [AsRefStr], kebab case. *)
Definition as_ref (k : t) : bytes :=
  match k with
  | ExplicitTargetMissing => b_ "explicit-target-missing"
  | ExplicitTargetTypeMismatch => b_ "explicit-target-type-mismatch"
  | InvalidReference => b_ "invalid-reference"
  | TargetDeclaredUntracked => b_ "target-declared-untracked"
  | UnsupportedReferenceSemantics => b_ "unsupported-reference-semantics"
  | UnsupportedDocumentFormat => b_ "unsupported-document-format"
  | UnsupportedTargetKind => b_ "unsupported-target-kind"
  | UnsupportedVersionScope => b_ "unsupported-version-scope"
  | UnsupportedCapability => b_ "unsupported-capability"
  | DependencyChangedSubjectUnchanged => b_ "dependency-changed-subject-unchanged"
  | DependencyAndSubjectCochanged => b_ "dependency-and-subject-cochanged"
  | SubjectChanged => b_ "subject-changed"
  | TranslationDrift => b_ "translation-drift"
  | ExplicitReferenceRemoved => b_ "explicit-reference-removed"
  | DocumentRemoved => b_ "document-removed"
  | OpaqueMdxRegion => b_ "opaque-mdx-region"
  | OpaqueHtmlRegion => b_ "opaque-html-region"
  | ObservationCorrelationAmbiguous => b_ "observation-correlation-ambiguous"
  | UnlinkedDocument => b_ "unlinked-document"
  | SiteBuildDefect => b_ "site-build-defect"
  | PolicyWeakened => b_ "policy-weakened"
  | CoverageReduced => b_ "coverage-reduced"
  | ControlPlaneChanged => b_ "control-plane-changed"
  | DebtWorsened => b_ "debt-worsened"
  | DebtExpired => b_ "debt-expired"
  | WaiverInvalid => b_ "waiver-invalid"
  | ClaimBroken => b_ "claim-broken"
  | ClaimTargetMissing => b_ "claim-target-missing"
  | ProjectionDrift => b_ "projection-drift"
  end.

Definition metadata (k : t) : FindingMetadata :=
  match k with
  | ExplicitTargetMissing | ExplicitTargetTypeMismatch => RATCHETED_REFERENCE
  | InvalidReference => RATCHETED_OBSERVATION
  | TargetDeclaredUntracked | DocumentRemoved | OpaqueMdxRegion | OpaqueHtmlRegion | UnlinkedDocument => COVERAGE_DOCUMENT
  | UnsupportedReferenceSemantics | UnsupportedDocumentFormat | UnsupportedTargetKind | UnsupportedVersionScope => UNSUPPORTED_DOCUMENT
  | UnsupportedCapability => UNSUPPORTED_CONTROL
  | DependencyChangedSubjectUnchanged => IMPACT_WARNING
  | DependencyAndSubjectCochanged | SubjectChanged => IMPACT_RECORD
  | TranslationDrift => IMPACT_DOCUMENT
  | ExplicitReferenceRemoved | ObservationCorrelationAmbiguous => COVERAGE_OBSERVATION
  | SiteBuildDefect => ABSOLUTE_OBSERVATION
  | PolicyWeakened | CoverageReduced | ControlPlaneChanged | DebtWorsened | DebtExpired | WaiverInvalid => CONTROL_PLANE
  | ClaimBroken | ClaimTargetMissing | ProjectionDrift => RATCHETED_CONTROL
  end.

(** [built_in_disposition]. *)
Definition built_in_disposition (k : t) (profile : Profile.t) : Disposition.t :=
  if Profile.enforces profile then enforce_disposition (metadata k) else observe_disposition (metadata k).
End FindingKind.

(** Taxonomy values compare by their position. *)
Fixpoint kind_position (k : FindingKind.t) (l : list FindingKind.t) : Z :=
  match l with
  | [] => 0
  | k' :: l => if decide (k = k') then 0 else 1 + kind_position k l
  end.
#[export] Instance kind_ord : Ord FindingKind.t :=
  fun a b => cmp (kind_position a FindingKind.all) (kind_position b FindingKind.all).
#[export] Instance kind_ord_laws : OrdLaws FindingKind.t.
Proof.
  apply (ord_by_laws (fun k => kind_position k FindingKind.all)). intros a b E.
  assert (forall k, FindingKind.all !! Z.to_nat (kind_position k FindingKind.all) = Some k) as Hk
    by (by intros []; vm_compute).
  pose proof (Hk a) as Ha. rewrite E, Hk in Ha. congruence.
Qed.

Module PromotableFindingKind.
Inductive t := ExplicitTargetMissing | ExplicitTargetTypeMismatch | InvalidReference.
#[global] Instance eq_dec : EqDecision t.
Proof. solve_decision. Defined.
End PromotableFindingKind.
Module EligibleFindingKind.
Inductive t := ExplicitTargetMissing | ExplicitTargetTypeMismatch.
#[global] Instance eq_dec : EqDecision t.
Proof. solve_decision. Defined.
Definition as_ref (k : t) : bytes :=
  match k with
  | ExplicitTargetMissing => b_ "explicit-target-missing"
  | ExplicitTargetTypeMismatch => b_ "explicit-target-type-mismatch"
  end.
End EligibleFindingKind.
Module PolicyDisposition.
Inductive t := Warn | Fail.
#[global] Instance eq_dec : EqDecision t.
Proof. solve_decision. Defined.
End PolicyDisposition.
Module FixKind.
Inductive t := ClaimValueRewrite | AnchorRespelling | PathRespelling | PathRelocation.
#[global] Instance eq_dec : EqDecision t.
Proof. solve_decision. Defined.
End FixKind.
Module Attribution.
Inductive t := Introduced | NotApplicable | PreExisting | Resolved | Unknown.
#[global] Instance eq_dec : EqDecision t.
Proof. solve_decision. Defined.
End Attribution.
Module LocationSide.
Inductive t := Base | Candidate | Control | Global.
#[global] Instance eq_dec : EqDecision t.
Proof. solve_decision. Defined.
End LocationSide.
Module PolicySource.
Inductive t := BuiltIn | DebtSnapshot | OrganizationFloor | RepositoryPolicy | ResolvedProjection | UnsuppressibleClamp | WaiverBundle.
#[global] Instance eq_dec : EqDecision t.
Proof. solve_decision. Defined.
End PolicySource.

Record PolicyStep := mkPolicyStep {
  ps_source : PolicySource.t;
  ps_rule_id : bytes;
  ps_before : Disposition.t;
  ps_after : Disposition.t
}.

Module AnalysisErrorCode.
Inductive t :=
  | InvalidInvocation | InvalidEvent | InvalidProfile | RequestUnreadable
  | ConfigurationInvalid | DuplicateJsonKey | InvalidUtf8 | InvalidJson
  | UnknownSchema | UnknownField | NoncanonicalArray | DigestMismatch
  | ControlBindingMismatch | ExceptionOverlap | UnsupportedCapability | GitRepositoryUnavailable
  | GitObjectMissing | GitObjectWrongKind | GitObjectUnreadable | GitIndexInvalid
  | GitIndexOutsideRepository | GitIndexFormatUnsupported | GitIndexUnmerged | GitIntentToAdd
  | GitSnapshotChanged | UnrepresentablePath | DocumentInvalid | ParserError
  | ParserPanic | InvalidSourceSpan | ResolutionError | ResourceLimitExceeded
  | OutputLimitExceeded | TooManyErrors | ReportConstructionFailed | SandboxViolation
  | TrustedTimeInvalid | InternalError.
#[global] Instance eq_dec : EqDecision t.
Proof. solve_decision. Defined.
End AnalysisErrorCode.

Record ErrorDetail := mkErrorDetail {
  ed_code : AnalysisErrorCode.t;
  ed_path : option path;
  ed_path_bytes : option bytes;
  ed_resource : option (ResourceName * u64 * u64);
  ed_json_path : option bytes
}.

(** ** Keys and facts *)

Record TreeIdentity := mkTreeIdentity { ti_object_format : ObjectFormat; ti_tree_oid : Oid.t }.
#[export] Instance TreeIdentity_eq_dec : EqDecision TreeIdentity.
Proof. solve_decision. Defined.

(** [RepositoryIntentPath]: the empty path, or a path. *)
Module RepositoryIntentPath.
Inductive t (P : Type) := Empty | Path (path : P).
Arguments Empty {P}.
Arguments Path {P}.
End RepositoryIntentPath.

(** [kind] is [TargetIntentKind::RepositoryPath], the only one. *)
Record RepositoryTargetIntent (P : Type) := mkRepositoryTargetIntent {
  rti_commit_oid : option Oid.t;
  rti_fragment_digest : option Digest.t;
  rti_path : P;
  rti_query_digest : option Digest.t;
  rti_target_kind : TargetKind.t
}.
Arguments mkRepositoryTargetIntent {P}.

Module FindingKeyScope.
Inductive t :=
  | Control (control_path : option path) (rule_id : bytes)
  | Document (document : path)
  | Observation (observation_id : Digest.t)
  | Reference (document : path)
      (normalized_target_intent : RepositoryTargetIntent (RepositoryIntentPath.t path))
      (source_projection_digest : Digest.t) (source_construct : SourceConstruct.t).
End FindingKeyScope.

(** [FindingKeyInput]; its [schema] has one value. *)
Record FindingKeyInput (F S : Type) := mkFindingKeyInput { ki_finding_kind : F; ki_scope : S }.
Arguments mkFindingKeyInput {F S}.
Arguments ki_finding_kind {F S}.
Arguments ki_scope {F S}.
Definition ReportFindingKeyInput : Type := FindingKeyInput FindingKind.t FindingKeyScope.t.

(** [Fact]; its [schema] has one value. *)
Record Fact (K E F : Type) := mkFact { fa_evidence : E; fa_finding_kind : F; fa_key_input : K }.
Arguments mkFact {K E F}.
Arguments fa_evidence {K E F}.
Arguments fa_finding_kind {K E F}.
Arguments fa_key_input {K E F}.

Module ControlState.
Inductive t := Absent | Invalid | OutsideCoverage | Present | Unsupported.
#[global] Instance eq_dec : EqDecision t.
Proof. solve_decision. Defined.
End ControlState.

Record ControlStateSource := mkControlStateSource { css_digest : Digest.t; css_multiplicity : u64 }.
#[export] Instance ControlStateSource_eq_dec : EqDecision ControlStateSource.
Proof. solve_decision. Defined.

Record ControlStateInput := mkControlStateInput {
  csi_path : option bytes; csi_rule_id : bytes; csi_sources : list ControlStateSource; csi_state : ControlState.t
}.

Module ClaimObserved.
Inductive t := LineDiffers | LineOutOfRange | TargetAbsent | TargetLfsPointer | TargetNotABlob.
#[global] Instance eq_dec : EqDecision t.
Proof. solve_decision. Defined.
End ClaimObserved.
Module BrokenRedirectReason.
Inductive t := AmbiguousRoute | MissingAnchor | MissingRoute | NonterminalRedirect.
End BrokenRedirectReason.
Module ProjectionObserved.
Inductive t :=
  | ContentAbsent | ContentDiffers | SinkAbsent
  | SinkAmbiguous | SinkDocumentUnavailable | SinkNotAdjacent
  | SourceAbsent | SourceEndMarkerAbsent | SourceEndMarkerAmbiguous
  | SourceKeyAbsent | SourceKeyNotScalar | SourceLfsPointer
  | SourceLinesOutOfRange | SourceNotABlob | SourceRecordAbsent
  | SourceRecordSetAbsent | SourceRecordSetIncomplete | SourceRecordUnproven
  | SourceRegionNotUtf8 | SourceRegionOrderInvalid | SourceStartMarkerAbsent
  | SourceStartMarkerAmbiguous | SourceTreePathNotARow | SourceTreePathNotUtf8
  | SourceTreeRootAbsent | SourceTreeRootNotATree | SourceUnparsable.
End ProjectionObserved.

Record RowsProjectionDifference := mkRowsProjectionDifference {
  rp_expected_records : u64; rp_extra_omitted : u64; rp_extra_preview : list bytes; rp_extra_records : u64;
  rp_missing_omitted : u64; rp_missing_preview : list bytes; rp_missing_records : u64;
  rp_observed_records : u64; rp_ordering_only : bool
}.

Module ProjectionDifference.
Inductive t :=
  | Count (expected_count : u64) (observed_count : option u64)
  | Rows (rows : RowsProjectionDifference).
End ProjectionDifference.

Module ProjectionKind.
Inductive t := CodeTextV1 | SortedRowsV1 | DecimalCountV1 | ContainsV1.
End ProjectionKind.
Module KeyFormat.
Inductive t := Toml | Json.
End KeyFormat.

Module ProjectionSource.
Inductive t :=
  | BlobLines (path : bytes) (first_line last_line : u64)
  | NamedRegion (path start_marker end_marker : bytes)
  | TreePaths (root : bytes) (suffix : option bytes) (maximum_depth : u64)
  | RecordValue (set key : bytes)
  | RecordSet (set : bytes)
  | Blob (path : bytes)
  | KeyValue (path : bytes) (format : KeyFormat.t) (key : list bytes).
End ProjectionSource.

(** [ExceptionDiagnostic]; [residual_disposition] has one value, [warn]. *)
Module ExceptionDiagnostic.
Inductive t :=
  | Debt (accepted_fact_digest : Digest.t) (adoption_tree : TreeIdentity) (created_at : bytes)
      (current_fact_digest : Digest.t) (debt_id : bytes) (debt_snapshot_digest : Digest.t) (expires_at : bytes)
      (owner reason : bytes)
  | Waiver (authorized_fact_digest : Digest.t) (candidate_tree : TreeIdentity) (created_at : bytes)
      (current_fact_digest : option Digest.t) (expires_at : bytes) (finding_key : Digest.t) (issuer : bytes)
      (not_before : bytes) (owner reason : bytes) (waiver_bundle_digest : Digest.t) (waiver_id : bytes).
End ExceptionDiagnostic.

(** The types of values that evaluation only passes on. *)
Class ReportTypes := {
  DocumentResult : Type;
  ObservationComparison : Type;
  ExecutionConstraintDescriptor : Type;
  SemanticEvidenceProvenance : Type
}.

(** For closed examples. *)
Definition unit_types : ReportTypes := {|
  DocumentResult := unit; ObservationComparison := unit; ExecutionConstraintDescriptor := unit;
  SemanticEvidenceProvenance := unit
|}.

(** [FindingFactEvidence] at the resolutions of the scanner. [ClaimKind] and
    [ProjectionSink] have one value each. *)
Module Evidence.
Inductive t `{ReportTypes} :=
  | BrokenRedirect (claim_digest : Digest.t) (destination : bytes) (reason : BrokenRedirectReason.t)
      (route : bytes) (source : path)
  | Claim (expected_digest : Digest.t) (line : u64) (name : bytes) (observed : ClaimObserved.t)
      (observed_digest : option Digest.t) (sources : list ControlStateSource) (target_path : bytes)
  | Control (base_control_digest : option Digest.t) (base_control_state : option ControlStateInput)
      (candidate_control_digest : option Digest.t) (candidate_control_state : option ControlStateInput)
      (control_path : option path) (exception : option ExceptionDiagnostic.t) (rule_id : bytes)
  | Document (document_result : DocumentResult)
  | DuplicateRoute (claim_digests : list Digest.t) (route : bytes) (sources : list path)
  | Observation (comparison : ObservationComparison)
  | Projection (difference : option ProjectionDifference.t) (expected_bytes : option u64)
      (expected_digest : option Digest.t) (name : bytes) (observed : ProjectionObserved.t)
      (observed_bytes : option u64) (observed_digest : option Digest.t) (projection : ProjectionKind.t)
      (source : ProjectionSource.t) (sources : list ControlStateSource)
  | Reference (occurrence_multiplicity : u64) (resolution : Resolution.t path).
End Evidence.

Definition FindingFactInput `{ReportTypes} : Type := Fact ReportFindingKeyInput Evidence.t FindingKind.t.

(** ** Exceptions *)

(** [MissingResolution] of [controls/fact.rs]: [same_object_at] tells an absent
    field from a null. *)
Module MissingResolution.
Inductive t :=
  | HeadingAnchorNotFound (near : option bytes) (path : bytes)
  | LabelNotDeclared
  | LineFragmentOutOfRange (path : bytes)
  | PathNotFound (near : option bytes) (path : bytes) (same_object_at : option (option bytes))
  | SelectionNotFound (path : bytes).
End MissingResolution.

Module StructuralResolution.
Inductive t := Missing (missing : MissingResolution.t) | TypeMismatch (target : Target.t bytes).
End StructuralResolution.

Record ReferenceScope := mkReferenceScope {
  rs_document : bytes;
  rs_normalized_target_intent : RepositoryTargetIntent bytes;
  rs_source_projection_digest : Digest.t;
  rs_source_construct : SourceConstruct.t
}.
Record FactEvidence := mkFactEvidence { fe_resolution : StructuralResolution.t; fe_occurrence_multiplicity : u64 }.
Definition ControlFact : Type :=
  Fact (FindingKeyInput EligibleFindingKind.t ReferenceScope) FactEvidence EligibleFindingKind.t.

Record DebtItem := mkDebtItem {
  dbi_debt_id : bytes; dbi_finding_key : Digest.t; dbi_accepted_fact : ControlFact;
  dbi_accepted_fact_digest : Digest.t; dbi_owner : bytes; dbi_reason : bytes;
  dbi_created_at : bytes; dbi_expires_at : bytes
}.

Record WaiverItem := mkWaiverItem {
  wi_waiver_id : bytes; wi_finding_key : Digest.t; wi_authorized_fact : ControlFact;
  wi_authorized_fact_digest : Digest.t; wi_candidate_tree : TreeIdentity; wi_owner : bytes; wi_issuer : bytes;
  wi_reason : bytes; wi_created_at : bytes; wi_not_before : bytes; wi_expires_at : bytes
}.

Record DebtApplication := mkDebtApplication {
  da_accepted_fact_digest : Digest.t; da_adoption_tree : TreeIdentity; da_created_at : bytes; da_debt_id : bytes;
  da_debt_snapshot_digest : Digest.t; da_expires_at : bytes; da_owner : bytes; da_reason : bytes
}.

Record WaiverApplication := mkWaiverApplication {
  wa_authorized_fact_digest : Digest.t; wa_candidate_tree : TreeIdentity; wa_created_at : bytes;
  wa_expires_at : bytes; wa_issuer : bytes; wa_not_before : bytes; wa_owner : bytes; wa_reason : bytes;
  wa_waiver_bundle_digest : Digest.t; wa_waiver_id : bytes
}.

(** ** Findings *)

Module DocumentSide.
Inductive t :=
  | Scanned (mdx_regions html_regions extracted_references : u64)
  | Unsupported
  | ExcludedBuiltIn.
End DocumentSide.

Record DocumentInput := mkDocumentInput {
  di_path : path; di_base : option DocumentSide.t; di_candidate : option DocumentSide.t
}.

Record Location := mkLocation {
  lo_side : LocationSide.t; lo_path : option path; lo_span : option (usize * usize); lo_display : option SpanDisplay
}.

Record FindingFix := mkFindingFix {
  fx_path : bytes; fx_span : usize * usize; fx_replacement : bytes; fx_kind : FixKind.t
}.
#[export] Instance FindingFix_eq_dec : EqDecision FindingFix.
Proof. solve_decision. Defined.

Record FindingFact `{ReportTypes} := mkFindingFact { ff_input : FindingFactInput; ff_digest : Digest.t }.
Arguments mkFindingFact {_}.

Record Finding `{ReportTypes} := mkFinding {
  fi_key_input : ReportFindingKeyInput;
  fi_finding_key : Digest.t;
  fi_attribution : Attribution.t;
  fi_base_fact : option FindingFact;
  fi_candidate_fact : option FindingFact;
  fi_member_count : u64;
  fi_observation_ids : list Digest.t;
  fi_location : Location;
  fi_configured_disposition : Disposition.t;
  fi_effective_disposition : Disposition.t;
  fi_steps : list PolicyStep;
  fi_debt : option DebtApplication;
  fi_waiver : option WaiverApplication;
  fi_fix : option FindingFix
}.
Arguments mkFinding {_}.

(** The assignments evaluation makes to fields of a finding. *)
Definition set_candidate_fact `{ReportTypes} (fact : option FindingFact) (f : Finding) : Finding :=
  mkFinding (fi_key_input f) (fi_finding_key f) (fi_attribution f) (fi_base_fact f) fact (fi_member_count f)
    (fi_observation_ids f) (fi_location f) (fi_configured_disposition f) (fi_effective_disposition f) (fi_steps f)
    (fi_debt f) (fi_waiver f) (fi_fix f).
Definition set_member_count `{ReportTypes} (count : u64) (f : Finding) : Finding :=
  mkFinding (fi_key_input f) (fi_finding_key f) (fi_attribution f) (fi_base_fact f) (fi_candidate_fact f) count
    (fi_observation_ids f) (fi_location f) (fi_configured_disposition f) (fi_effective_disposition f) (fi_steps f)
    (fi_debt f) (fi_waiver f) (fi_fix f).
Definition set_fix `{ReportTypes} (fix_ : option FindingFix) (f : Finding) : Finding :=
  mkFinding (fi_key_input f) (fi_finding_key f) (fi_attribution f) (fi_base_fact f) (fi_candidate_fact f)
    (fi_member_count f) (fi_observation_ids f) (fi_location f) (fi_configured_disposition f)
    (fi_effective_disposition f) (fi_steps f) (fi_debt f) (fi_waiver f) fix_.
Definition set_policy `{ReportTypes} (configured effective : Disposition.t) (steps : list PolicyStep) (f : Finding) :
    Finding :=
  mkFinding (fi_key_input f) (fi_finding_key f) (fi_attribution f) (fi_base_fact f) (fi_candidate_fact f)
    (fi_member_count f) (fi_observation_ids f) (fi_location f) configured effective steps (fi_debt f) (fi_waiver f)
    (fi_fix f).
Definition set_exceptions `{ReportTypes} (debt : option DebtApplication) (waiver : option WaiverApplication)
    (f : Finding) : Finding :=
  mkFinding (fi_key_input f) (fi_finding_key f) (fi_attribution f) (fi_base_fact f) (fi_candidate_fact f)
    (fi_member_count f) (fi_observation_ids f) (fi_location f) (fi_configured_disposition f)
    (fi_effective_disposition f) (fi_steps f) debt waiver (fi_fix f).

(** ** Policy *)

Record ControlSeed := mkControlSeed {
  cs_kind : FindingKind.t; cs_rule_id : bytes; cs_control_path : option path
}.

Module RequestTrust.
Inductive t := ExternalRequiredCheck | OrganizationPolicy.
End RequestTrust.

Record DebtContext := mkDebtContext {
  dc_digest : Digest.t; dc_trust_source : RequestTrust.t; dc_adoption_tree : TreeIdentity; dc_items : list DebtItem
}.
Record WaiverContext := mkWaiverContext {
  wc_digest : Digest.t; wc_trust_source : RequestTrust.t; wc_candidate_tree : TreeIdentity; wc_items : list WaiverItem;
  wc_authorized_issuers : list bytes; wc_waivable_kinds : list EligibleFindingKind.t
}.

(** [TrustedTimeStatement]; its [schema] and [controller] have one value each. *)
Record TrustedTimeStatement := mkTrustedTimeStatement {
  tt_candidate_identity_digest : Digest.t; tt_evaluation_instant : bytes; tt_provider : bytes;
  tt_provider_run_attempt : u64; tt_provider_run_id : bytes; tt_ref_name : bytes;
  tt_repository : RepositoryIdentity.t; tt_valid_until : bytes
}.
Record TimeContext := mkTimeContext { tc_statement : TrustedTimeStatement; tc_digest : Digest.t }.
Record ConstraintContext `{ReportTypes} := mkConstraintContext {
  cc_descriptor : ExecutionConstraintDescriptor; cc_digest : Digest.t; cc_trust_source : RequestTrust.t
}.
Arguments mkConstraintContext {_}.

Record Effects `{ReportTypes} := mkEffects {
  e_raised : list (FindingKind.t * Disposition.t);
  e_floor_raised : list (FindingKind.t * Disposition.t);
  e_controls : list ControlSeed;
  e_base_digest : option Digest.t;
  e_candidate_digest : option Digest.t;
  e_floor : option (Digest.t * RequestTrust.t);
  e_debt : option DebtContext;
  e_waiver : option WaiverContext;
  e_time : option TimeContext;
  e_constraint : option ConstraintContext;
  e_semantic_evidence : list SemanticEvidenceProvenance;
  e_errors_retained : u64;
  e_complete_findings : u64;
  e_machine_json_bytes : u64;
  e_translations : list (path * path)
}.
Arguments mkEffects {_}.

(** ** Stable sorting *)

(** [slice::sort_by_key]: stable. *)
Section StableSort.
Context {A K : Type} `{Ord K} (key : A -> K).

Fixpoint insert_by (x : A) (l : list A) : list A :=
  match l with
  | [] => [x]
  | y :: l' => match cmp (key x) (key y) with Gt => y :: insert_by x l' | _ => x :: l end
  end.
Definition stable_sort_by (l : list A) : list A := foldr insert_by [] l.

Lemma insert_by_perm x l : insert_by x l ≡ₚ x :: l.
Proof.
  induction l as [|y l IH]; cbn [insert_by]; [done|]. destruct (cmp _ _); [done..|]. rewrite IH. apply Permutation_swap.
Qed.

Lemma stable_sort_by_perm l : stable_sort_by l ≡ₚ l.
Proof. induction l as [|x l IH]; cbn; [done|]. by rewrite insert_by_perm, IH. Qed.

Lemma stable_sort_by_sorted `{!OrdLaws K} l : StronglySorted (fun a b => kle (key a) (key b)) (stable_sort_by l).
Proof.
  induction l as [|x l IH]; cbn; [constructor|]. fold (stable_sort_by l). revert IH. generalize (stable_sort_by l).
  clear l. intros l Hs. induction Hs as [|y l Hs IH Hf]; cbn [insert_by]; [repeat constructor|].
  destruct (cmp (key x) (key y)) eqn:E.
  1-2: constructor; [by constructor|]; assert (kle (key x) (key y)) as Hxy by (unfold kle; congruence);
    constructor; [done|]; eapply Forall_impl; [done|]; cbv beta; intros z Hz; by etrans.
  constructor; [done|]. rewrite insert_by_perm. constructor; [|done].
  apply cmp_gt in E. unfold kle, klt in *. by rewrite E.
Qed.

(** Elements of one key keep their order. *)
Lemma stable_sort_by_stable `{!OrdLaws K} l k :
  filter (fun x => key x = k) (stable_sort_by l) = filter (fun x => key x = k) l.
Proof.
  induction l as [|x l IH]; [done|]. change (stable_sort_by (x :: l)) with (insert_by x (stable_sort_by l)).
  rewrite filter_cons, <- IH. generalize (stable_sort_by l). clear IH l. intros l.
  induction l as [|y l IHl]; cbn [insert_by]; [by rewrite filter_cons|].
  destruct (cmp (key x) (key y)) eqn:E.
  1-2: by rewrite filter_cons.
  rewrite (filter_cons _ y), IHl. destruct (decide (key x = k)) as [Hx|Hx].
  - assert (key y <> k) as Hy by (intros Hy; by rewrite Hx, Hy, cmp_refl in E).
    by rewrite (filter_cons _ y), !(decide_False (P := key y = k)) by done.
  - by rewrite (filter_cons _ y).
Qed.
End StableSort.
