(* ===== verification/Controls.v ===== *)
(** The control documents and what validates them:
    [crates/amiss-wire/src/controls.rs] and the files of [controls/] (scanner
    policy, organization floor, debt snapshot, waiver bundle, structural fact,
    trusted time). The parsers in front are [serde]; two serializers of [serde]
    are parameters, the canonical one of [EvalModel.Canon] and [Json] here. *)
From Stdlib Require Import Strings.Byte Strings.String Lia Sorting.Sorted.
From stdpp Require Import base numbers sorting list.
From S2P Require Import Prelude Codec WireModel WireTime WireIdentity OrdMap Observation EvalModel.

(** [serde_json::to_writer] at one type; [None] is [Err]. *)
Class Json (T : Type) := to_json : T -> option bytes.

(** ** Defects *)

Module ErrorKind.
Inductive t :=
  | Json (message : bytes) | MissingField | UnknownField | DuplicateKey | WrongType | InvalidValue | UnsortedSet
  | DuplicateMember | LimitExceeded | DigestMismatch | Inconsistent | Noncanonical.
End ErrorKind.

Record DeError := mkDeError { de_path : bytes; de_kind : ErrorKind.t }.

Definition fail {A} (p : bytes) (kind : ErrorKind.t) : res A DeError := Err (mkDeError p kind).

(** [condition.then_some(()).ok_or(..)]. *)
Definition require (condition : bool) (p : bytes) (kind : ErrorKind.t) : res unit DeError :=
  if condition then Ok tt else fail p kind.

(** [format!("{path}[{index}]")]. *)
Definition member_path (p : bytes) (index : usize) : bytes := p ++ b_ "[" ++ fmt_dec index ++ b_ "]".

Section SortedSet.
Context {A : Type} (compare : A -> A -> comparison) (p : bytes).

Fixpoint sorted_from (index : usize) (items : list A) : res unit DeError :=
  match items with
  | a :: items =>
      match items with
      | b :: _ =>
          match compare a b with
          | Lt => sorted_from (index + 1) items
          | Eq => fail (member_path p (index + 1)) ErrorKind.DuplicateMember
          | Gt => fail (member_path p (index + 1)) ErrorKind.UnsortedSet
          end
      | [] => Ok tt
      end
  | [] => Ok tt
  end.
End SortedSet.

(** [sorted_set]. *)
Definition sorted_set {A} (p : bytes) (items : list A) (compare : A -> A -> comparison) : res unit DeError :=
  sorted_from compare p 0 items.

Definition compare_by {A K} `{Ord K} (key : A -> K) (a b : A) : comparison := cmp (key a) (key b).

(** [for (index, item) in items.iter().enumerate() { check(&format!("{path}[{index}]"), item)?; }]. *)
Fixpoint check_each {A} (check : bytes -> A -> res unit DeError) (p : bytes) (index : usize) (items : list A) :
    res unit DeError :=
  match items with
  | [] => Ok tt
  | item :: items =>
      let? _ := check (member_path p index) item in
      check_each check p (index + 1) items
  end.

(** ** Scalars *)

Definition provider_run_id_valid (raw : bytes) : bool :=
  let allowed byte := is_ascii_alphanumeric byte || existsb (beqb byte) (b_ "._:/-") in
  negb (bytes_eqb raw []) && (len raw <=? 128)
  && match head raw with Some b => is_ascii_alphanumeric b | None => false end
  && match last raw with Some b => is_ascii_alphanumeric b | None => false end
  && forallb allowed raw.

#[export] Instance RepositoryIdentity_eq_dec : EqDecision RepositoryIdentity.t.
Proof. solve_decision. Defined.

Definition validate_repository (p : bytes) (repository : RepositoryIdentity.t) : res unit DeError :=
  require
    (bool_decide
       (RepositoryIdentity.new (RepositoryIdentity.host repository) (RepositoryIdentity.owner repository)
          (RepositoryIdentity.name repository) = Some repository)) p ErrorKind.InvalidValue.

Definition validate_owner (p : bytes) (owner : bytes) : res unit DeError :=
  require (bool_decide (owner_new owner = Some owner)) p ErrorKind.InvalidValue.

Definition validate_instant (p : bytes) (instant : bytes) : res unit DeError :=
  require (bool_decide (UtcInstant.new instant = Some instant)) p ErrorKind.InvalidValue.

Definition validate_tree (p : bytes) (tree : TreeIdentity) : res unit DeError :=
  require (bool_decide (Oid.object_format (ti_tree_oid tree) = ti_object_format tree)) p ErrorKind.InvalidValue.

(** The characters of UTF-8 text, each with its bytes. *)
Fixpoint chars (text : bytes) : list bytes :=
  match text with
  | [] => []
  | b :: text =>
      let after := chars text in
      match after with
      | character :: rest =>
          if match character with c :: _ => continuation c | [] => false end
          then (b :: character) :: rest else [b] :: after
      | [] => [[b]]
      end
  end.

(** [char::is_whitespace]: the code points of [White_Space]. *)
Definition is_whitespace (character : bytes) : bool :=
  existsb (bytes_eqb character)
    ([[x09]; [x0a]; [x0b]; [x0c]; [x0d]; [x20]; [xc2; x85]; [xc2; xa0]; [xe1; x9a; x80]; [xe2; x80; xa8];
      [xe2; x80; xa9]; [xe2; x80; xaf]; [xe2; x81; x9f]; [xe3; x80; x80]]
     ++ map (fun low => [xe2; x80; low]) [x80; x81; x82; x83; x84; x85; x86; x87; x88; x89; x8a]).

(** [char::is_control] of a UTF-8 character. *)
Definition is_control (character : bytes) : bool :=
  match character with
  | [b] => is_ascii_control b
  | [b; c] => beqb b xc2 && in_range 0x80 0x9f c
  | _ => false
  end.

Definition has_control (text : bytes) : bool := existsb is_control (chars text).

Definition valid_reason (raw : bytes) : bool :=
  let length_ := len (chars raw) in
  (1 <=? length_) && (length_ <=? 1024) && existsb (fun character => negb (is_whitespace character)) (chars raw).

(** [ResourceName::as_str], kebab case, and [ResourceName::all]. *)
Definition resource_str (resource : ResourceName) : bytes :=
  match resource with
  | GitObjectBytes => b_ "git-object-bytes"
  | GitCompressedObjectBytes => b_ "git-compressed-object-bytes"
  | AggregateGitCompressedObjectBytesPerEvaluation => b_ "aggregate-git-compressed-object-bytes-per-evaluation"
  | GitPackDirectoryEntries => b_ "git-pack-directory-entries"
  | GitPackFiles => b_ "git-pack-files"
  | GitPackIndexBytes => b_ "git-pack-index-bytes"
  | AggregateGitPackIndexBytes => b_ "aggregate-git-pack-index-bytes"
  | GitDeltaDepth => b_ "git-delta-depth"
  | GitIndexBytes => b_ "git-index-bytes"
  | GitTreeEntriesPerSnapshot => b_ "git-tree-entries-per-snapshot"
  | DocumentsPerSnapshot => b_ "documents-per-snapshot"
  | ControlInputBytes => b_ "control-input-bytes"
  | SelectedControlBlobBytes => b_ "selected-control-blob-bytes"
  | AggregateSelectedControlBytesPerSnapshot => b_ "aggregate-selected-control-bytes-per-snapshot"
  | RepositoryPolicyEntries => b_ "repository-policy-entries"
  | DebtItems => b_ "debt-items"
  | WaiverItems => b_ "waiver-items"
  | RawPathBytes => b_ "raw-path-bytes"
  | DocumentBlobBytes => b_ "document-blob-bytes"
  | ReferencedTargetBlobBytes => b_ "referenced-target-blob-bytes"
  | AggregateReferencedTargetBytesPerSnapshot => b_ "aggregate-referenced-target-bytes-per-snapshot"
  | IgnoreDeclarationBlobBytes => b_ "ignore-declaration-blob-bytes"
  | AggregateIgnoreDeclarationBytesPerSnapshot => b_ "aggregate-ignore-declaration-bytes-per-snapshot"
  | AggregateLineFragmentEvaluationBytesPerSnapshot => b_ "aggregate-line-fragment-evaluation-bytes-per-snapshot"
  | AggregateHeadingAnchorEvaluationBytesPerSnapshot => b_ "aggregate-heading-anchor-evaluation-bytes-per-snapshot"
  | ProjectionAssertionsPerSnapshot => b_ "projection-assertions-per-snapshot"
  | AggregateProjectionSelectedBytesPerSnapshot => b_ "aggregate-projection-selected-bytes-per-snapshot"
  | ProjectionRecordsComparedPerSnapshot => b_ "projection-records-compared-per-snapshot"
  | AggregateProjectionProjectedBytesPerSnapshot => b_ "aggregate-projection-projected-bytes-per-snapshot"
  | AggregateProjectionPreviewBytesPerSnapshot => b_ "aggregate-projection-preview-bytes-per-snapshot"
  | AggregateDocumentBytesPerSnapshot => b_ "aggregate-document-bytes-per-snapshot"
  | RawLinkDestinationBytes => b_ "raw-link-destination-bytes"
  | ParserNesting => b_ "parser-nesting"
  | ParserNodesPerDocument => b_ "parser-nodes-per-document"
  | ParserNodesPerSnapshot => b_ "parser-nodes-per-snapshot"
  | AggregateEmbeddedCodeEvaluationBytesPerSnapshot => b_ "aggregate-embedded-code-evaluation-bytes-per-snapshot"
  | ReferencesPerDocument => b_ "references-per-document"
  | ReferencesPerSnapshot => b_ "references-per-snapshot"
  | DeclaredLabelsPerSnapshot => b_ "declared-labels-per-snapshot"
  | OrganizationPolicyEntries => b_ "organization-policy-entries"
  | CompleteFindings => b_ "complete-findings"
  | TypedAnalysisErrorsRetained => b_ "typed-analysis-errors-retained"
  | MachineJsonBytes => b_ "machine-json-bytes"
  | PrivateTemporaryStorageBytes => b_ "private-temporary-storage-bytes"
  | EvaluatorManagedMemoryBytes => b_ "evaluator-managed-memory-bytes"
  end.
Definition resource_all : list ResourceName := [
  GitObjectBytes; GitCompressedObjectBytes; AggregateGitCompressedObjectBytesPerEvaluation;
  GitPackDirectoryEntries; GitPackFiles; GitPackIndexBytes; AggregateGitPackIndexBytes; GitDeltaDepth;
  GitIndexBytes; GitTreeEntriesPerSnapshot; DocumentsPerSnapshot; ControlInputBytes; SelectedControlBlobBytes;
  AggregateSelectedControlBytesPerSnapshot; RepositoryPolicyEntries; DebtItems; WaiverItems; RawPathBytes;
  DocumentBlobBytes; ReferencedTargetBlobBytes; AggregateReferencedTargetBytesPerSnapshot;
  IgnoreDeclarationBlobBytes; AggregateIgnoreDeclarationBytesPerSnapshot;
  AggregateLineFragmentEvaluationBytesPerSnapshot; AggregateHeadingAnchorEvaluationBytesPerSnapshot;
  ProjectionAssertionsPerSnapshot; AggregateProjectionSelectedBytesPerSnapshot;
  ProjectionRecordsComparedPerSnapshot; AggregateProjectionProjectedBytesPerSnapshot;
  AggregateProjectionPreviewBytesPerSnapshot; AggregateDocumentBytesPerSnapshot; RawLinkDestinationBytes;
  ParserNesting; ParserNodesPerDocument; ParserNodesPerSnapshot;
  AggregateEmbeddedCodeEvaluationBytesPerSnapshot; ReferencesPerDocument; ReferencesPerSnapshot;
  DeclaredLabelsPerSnapshot; OrganizationPolicyEntries; CompleteFindings; TypedAnalysisErrorsRetained;
  MachineJsonBytes; PrivateTemporaryStorageBytes; EvaluatorManagedMemoryBytes].

(** ** The scanner policy *)

Module IncludeKind.
Inductive t := Document | Tree.
#[global] Instance eq_dec : EqDecision t.
Proof. solve_decision. Defined.
Definition discriminant (kind : t) : Z := match kind with Document => 0 | Tree => 1 end.
End IncludeKind.

Record DocumentInclude := mkDocumentInclude {
  inc_path : bytes; inc_kind : IncludeKind.t; inc_suffix : option bytes; inc_adapter : option Adapter.t
}.
Record FindingDisposition := mkFindingDisposition {
  fd_finding_kind : PromotableFindingKind.t; fd_disposition : PolicyDisposition.t
}.
(** [ProjectionAssertion]; its [sink] has one value. *)
Record ProjectionAssertion := mkProjectionAssertion {
  pa_document : bytes; pa_name : bytes; pa_projection : ProjectionKind.t; pa_source : ProjectionSource.t
}.
Record TranslationPair := mkTranslationPair { tp_source : bytes; tp_target : bytes }.

Record ScannerPolicy := mkScannerPolicy {
  sp_document_includes : list DocumentInclude;
  sp_projection_assertions : option (list ProjectionAssertion);
  sp_protected_inventory : list bytes;
  sp_finding_dispositions : list FindingDisposition;
  sp_default_branch_aliases : option (list bytes);
  sp_anchor_renderers : option (list bytes);
  sp_translations : option (list TranslationPair)
}.

Definition DOCUMENT_SUFFIX_BYTES : usize := 64.
Definition SOURCE_MARKER_BYTES : usize := 256.
Definition DEFAULT_BRANCH_ALIASES : usize := 16.
Definition ANCHOR_RENDERERS : usize := 16.
Definition KEY_PATH_SEGMENTS : usize := 16.
Definition TRANSLATION_PAIRS : usize := 64.
Definition RECORD_KEY_BYTES : usize := 4096.
Definition MAX_SAFE_INT : Z := 9007199254740991.

Definition promotable_str (kind : PromotableFindingKind.t) : bytes :=
  match kind with
  | PromotableFindingKind.ExplicitTargetMissing => b_ "explicit-target-missing"
  | PromotableFindingKind.ExplicitTargetTypeMismatch => b_ "explicit-target-type-mismatch"
  | PromotableFindingKind.InvalidReference => b_ "invalid-reference"
  end.

Definition exact_suffix_valid (suffix : bytes) : bool :=
  match strip_prefix (b_ ".") suffix with
  | Some tail =>
      negb (bytes_eqb tail []) && (len suffix <=? DOCUMENT_SUFFIX_BYTES)
      && negb (existsb (fun b => beqb b "/" || beqb b "\" || beqb b x00) tail)
  | None => false
  end.

Definition validate_document_include (p : bytes) (include : DocumentInclude) : res unit DeError :=
  if is_some (inc_suffix include) && negb (bool_decide (inc_kind include = IncludeKind.Tree))
  then fail (p ++ b_ ".suffix") ErrorKind.Inconsistent
  else
    match inc_suffix include with
    | Some suffix => if exact_suffix_valid suffix then Ok tt else fail (p ++ b_ ".suffix") ErrorKind.InvalidValue
    | None => Ok tt
    end.

Definition safe_line_valid (line : u64) : bool := (1 <=? line) && (line <=? MAX_SAFE_INT).

Definition is_ascii_graphic (b : Byte.byte) : bool := (33 <=? u8 b) && (u8 b <=? 126).

Definition source_marker_valid (marker : bytes) : bool :=
  negb (bytes_eqb marker []) && (len marker <=? SOURCE_MARKER_BYTES) && existsb is_ascii_graphic marker
  && forallb (fun b => is_ascii_graphic b || beqb b " ") marker.

Definition record_key_valid (key : bytes) : bool :=
  negb (bytes_eqb key []) && (len key <=? RECORD_KEY_BYTES) && negb (has_control key).

Definition governed_name_valid (name : bytes) : bool :=
  match head name with Some b => is_ascii_alphanumeric b | None => false end
  && (len name <=? 120)
  && forallb (fun b => is_ascii_alphanumeric b || existsb (beqb b) (b_ "._-")) name.

Definition projection_source_compatible (projection : ProjectionKind.t) (source : ProjectionSource.t) : bool :=
  match source with
  | ProjectionSource.BlobLines _ _ _ | ProjectionSource.NamedRegion _ _ _ | ProjectionSource.RecordValue _ _
  | ProjectionSource.Blob _ | ProjectionSource.KeyValue _ _ _ =>
      match projection with ProjectionKind.CodeTextV1 | ProjectionKind.ContainsV1 => true | _ => false end
  | ProjectionSource.TreePaths _ _ _ | ProjectionSource.RecordSet _ =>
      match projection with ProjectionKind.SortedRowsV1 | ProjectionKind.DecimalCountV1 => true | _ => false end
  end.

(** The first defect of a source's own fields. *)
Definition source_defect (source : ProjectionSource.t) : option ErrorKind.t :=
  match source with
  | ProjectionSource.BlobLines _ first_line last_line =>
      if negb (safe_line_valid first_line) || negb (safe_line_valid last_line) then Some ErrorKind.InvalidValue
      else if last_line <? first_line then Some ErrorKind.Inconsistent
      else None
  | ProjectionSource.NamedRegion _ start_marker end_marker =>
      if negb (source_marker_valid start_marker) || negb (source_marker_valid end_marker)
      then Some ErrorKind.InvalidValue
      else if bytes_eqb start_marker end_marker then Some ErrorKind.Inconsistent
      else None
  | ProjectionSource.TreePaths _ suffix maximum_depth =>
      if negb (safe_line_valid maximum_depth)
         || negb (match suffix with Some suffix => exact_suffix_valid suffix | None => true end)
      then Some ErrorKind.InvalidValue else None
  | ProjectionSource.RecordValue _ key => if record_key_valid key then None else Some ErrorKind.InvalidValue
  | ProjectionSource.KeyValue _ _ key =>
      if bool_decide (key = []) || (KEY_PATH_SEGMENTS <? len key)
         || negb (forallb (fun segment =>
                    negb (bytes_eqb segment []) && (len segment <=? SOURCE_MARKER_BYTES)
                    && negb (has_control segment)) key)
      then Some ErrorKind.InvalidValue else None
  | ProjectionSource.RecordSet _ | ProjectionSource.Blob _ => None
  end.

Definition validate_projection_source (p : bytes) (projection : ProjectionKind.t) (source : ProjectionSource.t) :
    res unit DeError :=
  match source_defect source with
  | Some kind => fail p kind
  | None => require (projection_source_compatible projection source) p ErrorKind.Inconsistent
  end.

Definition check_projection_source (projection : ProjectionKind.t) (source : ProjectionSource.t) : res unit DeError :=
  validate_projection_source (b_ "$") projection source.

Definition validate_projection_assertion (p : bytes) (assertion : ProjectionAssertion) : res unit DeError :=
  if negb (governed_name_valid (pa_name assertion)) then fail (p ++ b_ ".name") ErrorKind.InvalidValue
  else validate_projection_source (p ++ b_ ".source") (pa_projection assertion) (pa_source assertion).

(** One limit and the order after it. *)
Definition limited {A} (p : bytes) (items : list A) (maximum : usize) : res unit DeError :=
  require (len items <=? maximum) p ErrorKind.LimitExceeded.

Definition renderer_spelled (name : bytes) : bool :=
  (len name <=? 64)
  && match head name with Some b => is_ascii_lowercase b | None => false end
  && forallb (fun b => is_ascii_lowercase b || is_ascii_digit b || beqb b "-") name.

Definition validate_scanner_policy (policy : ScannerPolicy) : res unit DeError :=
  let includes := b_ "$.document_includes" in
  let? _ := limited includes (sp_document_includes policy) 100000 in
  let? _ := check_each validate_document_include includes 0 (sp_document_includes policy) in
  let? _ := sorted_set includes (sp_document_includes policy)
    (compare_by (fun row => (inc_path row, IncludeKind.discriminant (inc_kind row)))) in
  let assertions := default [] (sp_projection_assertions policy) in
  let p := b_ "$.projection_assertions" in
  let? _ := limited p assertions 100000 in
  let? _ := check_each validate_projection_assertion p 0 assertions in
  let? _ := sorted_set p assertions (compare_by (fun row => (pa_document row, pa_name row))) in
  let p := b_ "$.protected_inventory" in
  let? _ := limited p (sp_protected_inventory policy) 100000 in
  let? _ := sorted_set p (sp_protected_inventory policy) bytes_cmp in
  let p := b_ "$.finding_dispositions" in
  let? _ := limited p (sp_finding_dispositions policy) 3 in
  let? _ := sorted_set p (sp_finding_dispositions policy) (compare_by (fun row => promotable_str (fd_finding_kind row))) in
  let aliases := default [] (sp_default_branch_aliases policy) in
  let p := b_ "$.default_branch_aliases" in
  let? _ := limited p aliases DEFAULT_BRANCH_ALIASES in
  let? _ := sorted_set p aliases bytes_cmp in
  let translations := default [] (sp_translations policy) in
  let p := b_ "$.translations" in
  let? _ := limited p translations TRANSLATION_PAIRS in
  let? _ :=
    match position (fun pair => bytes_eqb (tp_source pair) (tp_target pair)) translations with
    | Some index => fail (member_path p index) ErrorKind.Inconsistent
    | None => Ok tt
    end in
  let? _ := sorted_set p translations (compare_by (fun pair => (tp_source pair, tp_target pair))) in
  match sp_anchor_renderers policy with
  | None => Ok tt
  | Some renderers =>
      let p := b_ "$.anchor_renderers" in
      let? _ := require (negb (bool_decide (renderers = [])) && (len renderers <=? ANCHOR_RENDERERS)) p
        ErrorKind.LimitExceeded in
      let? _ := check_each (fun at_ name => require (renderer_spelled name) at_ ErrorKind.InvalidValue) p 0 renderers in
      sorted_set p renderers bytes_cmp
  end.

(** ** The organization floor *)

Record ResourceLimit := mkResourceLimit { rl_resource : ResourceName; rl_maximum : i64 }.

Record OrganizationFloor := mkOrganizationFloor {
  of_floor_id : bytes;
  of_repository : RepositoryIdentity.t;
  of_ref_name : bytes;
  of_minimum_profile : Profile.t;
  of_minimum_dispositions : list FindingDisposition;
  of_protected_inventory : list bytes;
  of_protected_control_paths : list bytes;
  of_waivable_finding_kinds : list EligibleFindingKind.t;
  of_authorized_debt_owners : list bytes;
  of_authorized_waiver_issuers : list bytes;
  of_resource_limits : list ResourceLimit
}.

Module FloorDefect.
Inductive t := Schema (defect : DeError) | Entries (configured_limit observed_lower_bound : u64).
End FloorDefect.

Definition ORGANIZATION_POLICY_ENTRIES_LIMIT : u64 := 100000.
Definition MACHINE_JSON_BYTES : u64 := 268435456.

Definition resource_is (resource other : ResourceName) : bool :=
  bytes_eqb (resource_str resource) (resource_str other).

Definition resource_maximum_valid (resource : ResourceName) (maximum : i64) : bool :=
  if resource_is resource TypedAnalysisErrorsRetained then (1 <=? maximum) && (maximum <=? 64)
  else if resource_is resource MachineJsonBytes then maximum =? MACHINE_JSON_BYTES
  else (0 <=? maximum) && (maximum <=? MAX_SAFE_INT).

Definition validate_floor_shape (floor : OrganizationFloor) : res unit DeError :=
  let p := b_ "$.minimum_dispositions" in
  let? _ := limited p (of_minimum_dispositions floor) 3 in
  let? _ := sorted_set p (of_minimum_dispositions floor) (compare_by (fun row => promotable_str (fd_finding_kind row))) in
  let p := b_ "$.protected_inventory" in
  let? _ := limited p (of_protected_inventory floor) 100000 in
  let? _ := sorted_set p (of_protected_inventory floor) bytes_cmp in
  let p := b_ "$.protected_control_paths" in
  let? _ := limited p (of_protected_control_paths floor) 100000 in
  let? _ := sorted_set p (of_protected_control_paths floor) bytes_cmp in
  let p := b_ "$.waivable_finding_kinds" in
  let? _ := limited p (of_waivable_finding_kinds floor) 2 in
  let? _ := sorted_set p (of_waivable_finding_kinds floor) (compare_by EligibleFindingKind.as_ref) in
  let p := b_ "$.authorized_debt_owners" in
  let? _ := limited p (of_authorized_debt_owners floor) 10000 in
  let? _ := check_each validate_owner p 0 (of_authorized_debt_owners floor) in
  let? _ := sorted_set p (of_authorized_debt_owners floor) bytes_cmp in
  let p := b_ "$.authorized_waiver_issuers" in
  let? _ := limited p (of_authorized_waiver_issuers floor) 10000 in
  let? _ := check_each validate_owner p 0 (of_authorized_waiver_issuers floor) in
  let? _ := sorted_set p (of_authorized_waiver_issuers floor) bytes_cmp in
  let p := b_ "$.resource_limits" in
  let? _ := limited p (of_resource_limits floor) (len resource_all) in
  let? _ := check_each (fun at_ limit =>
    require (resource_maximum_valid (rl_resource limit) (rl_maximum limit)) (at_ ++ b_ ".maximum")
      ErrorKind.InvalidValue) p 0 (of_resource_limits floor) in
  sorted_set p (of_resource_limits floor) (compare_by (fun limit => resource_str (rl_resource limit))).

Definition map_err {A E F} (f : E -> F) (r : res A E) : res A F :=
  match r with Ok a => Ok a | Err e => Err (f e) | OutOfFuel => OutOfFuel end.

(** [u64::try_from(maximum).unwrap_or(u64::MAX)]. *)
Definition unsigned_maximum (maximum : i64) : u64 := if maximum <? 0 then u64_max else maximum.

Definition floor_entries (floor : OrganizationFloor) : u64 :=
  fold_left sat_add
    [len (of_minimum_dispositions floor); len (of_protected_inventory floor); len (of_protected_control_paths floor);
     len (of_waivable_finding_kinds floor); len (of_authorized_debt_owners floor);
     len (of_authorized_waiver_issuers floor); len (of_resource_limits floor)] 0.

Definition validate_organization_floor (floor : OrganizationFloor) : res unit FloorDefect.t :=
  let? _ := map_err FloorDefect.Schema (validate_repository (b_ "$.repository") (of_repository floor)) in
  let combined := floor_entries floor in
  if ORGANIZATION_POLICY_ENTRIES_LIMIT <? combined
  then Err (FloorDefect.Entries ORGANIZATION_POLICY_ENTRIES_LIMIT (sat_add ORGANIZATION_POLICY_ENTRIES_LIMIT 1))
  else
    let? _ := map_err FloorDefect.Schema (validate_floor_shape floor) in
    match List.find (fun row => resource_is (rl_resource row) OrganizationPolicyEntries) (of_resource_limits floor) with
    | Some declared =>
        let declared := unsigned_maximum (rl_maximum declared) in
        if declared <? combined then Err (FloorDefect.Entries declared (sat_add declared 1)) else Ok tt
    | None => Ok tt
    end.

(** ** Structural facts *)

Definition validate_fact (fact : ControlFact) : res unit DeError :=
  let resolution_kind :=
    match fe_resolution (fa_evidence fact) with
    | StructuralResolution.Missing _ => EligibleFindingKind.ExplicitTargetMissing
    | StructuralResolution.TypeMismatch _ => EligibleFindingKind.ExplicitTargetTypeMismatch
    end in
  if negb (bool_decide (fa_finding_kind fact = ki_finding_kind (fa_key_input fact)))
     || negb (bool_decide (fa_finding_kind fact = resolution_kind))
  then fail (b_ "$") ErrorKind.Inconsistent
  else require (fe_occurrence_multiplicity (fa_evidence fact) =? 1) (b_ "$") ErrorKind.Inconsistent.

Definition ControlKey : Type := FindingKeyInput EligibleFindingKind.t ReferenceScope.

Definition CONTROL_KEY_DOMAIN : bytes := b_ "amiss/scanner-finding-key".
Definition CONTROL_FACT_DOMAIN : bytes := b_ "amiss/scanner-fact".

Section Items.
Context `{HH : Hashes} {HL : HashLaws HH} {JK : Json ControlKey} {CF : Canon ControlFact}.

Definition fact_digests (p : bytes) (fact : ControlFact) : res (Digest.t * Digest.t) DeError :=
  let? _ := map_err (fun error => mkDeError p (de_kind error)) (validate_fact fact) in
  let? key :=
    match to_json (fa_key_input fact) with
    | Some text => Ok (sha256_digest (CONTROL_KEY_DOMAIN ++ [x00] ++ text))
    | None => fail p ErrorKind.InvalidValue
    end in
  let? digest := ok_or (document_digest CONTROL_FACT_DOMAIN fact) (mkDeError p ErrorKind.InvalidValue) in
  Ok (key, digest).

(** ** Debt *)

Record DebtSnapshot := mkDebtSnapshot {
  ds_repository : RepositoryIdentity.t;
  ds_ref_name : bytes;
  ds_organization_floor_digest : Digest.t;
  ds_adoption_tree : TreeIdentity;
  ds_adoption_report_payload_digest : Digest.t;
  ds_created_at : bytes;
  ds_items : list DebtItem
}.

Definition validate_debt_item (p : bytes) (item : DebtItem) : res unit DeError :=
  let? row := fact_digests (p ++ b_ ".accepted_fact") (dbi_accepted_fact item) in
  let '(finding_key, fact_digest) := row in
  let? _ := require (bool_decide (dbi_finding_key item = finding_key)) (p ++ b_ ".finding_key")
    ErrorKind.DigestMismatch in
  let? _ := require (bool_decide (dbi_accepted_fact_digest item = fact_digest)) (p ++ b_ ".accepted_fact_digest")
    ErrorKind.DigestMismatch in
  let? _ := validate_owner (p ++ b_ ".owner") (dbi_owner item) in
  let? _ := require (valid_reason (dbi_reason item)) (p ++ b_ ".reason") ErrorKind.InvalidValue in
  let? _ := validate_instant (p ++ b_ ".created_at") (dbi_created_at item) in
  let? _ := validate_instant (p ++ b_ ".expires_at") (dbi_expires_at item) in
  require (bytes_ltb (dbi_created_at item) (dbi_expires_at item)) p ErrorKind.Inconsistent.

(** The loop that keeps the identifiers seen and bounds the creation. *)
Fixpoint members_loop {A K} `{EqDecision K} (key : A -> K) (created_at : A -> bytes) (document_created_at : bytes)
    (seen : list K) (items : list A) : res unit DeError :=
  match items with
  | [] => Ok tt
  | item :: items =>
      if bool_decide (key item ∈ seen) then fail (b_ "$.items") ErrorKind.DuplicateMember
      else if bytes_ltb document_created_at (created_at item) then fail (b_ "$.items") ErrorKind.Inconsistent
      else members_loop key created_at document_created_at (key item :: seen) items
  end.

Definition validate_debt_snapshot (snapshot : DebtSnapshot) : res unit DeError :=
  let? _ := validate_repository (b_ "$.repository") (ds_repository snapshot) in
  let? _ := validate_tree (b_ "$.adoption_tree") (ds_adoption_tree snapshot) in
  let? _ := validate_instant (b_ "$.created_at") (ds_created_at snapshot) in
  let p := b_ "$.items" in
  let? _ := limited p (ds_items snapshot) 100000 in
  let? _ := check_each validate_debt_item p 0 (ds_items snapshot) in
  let? _ := sorted_set p (ds_items snapshot) (compare_by dbi_debt_id) in
  members_loop dbi_finding_key dbi_created_at (ds_created_at snapshot) [] (ds_items snapshot).

(** ** Waivers *)

Record WaiverBundle := mkWaiverBundle {
  wb_repository : RepositoryIdentity.t;
  wb_ref_name : bytes;
  wb_organization_floor_digest : Digest.t;
  wb_created_at : bytes;
  wb_items : list WaiverItem
}.

Definition validate_waiver_item (p : bytes) (item : WaiverItem) : res unit DeError :=
  let? row := fact_digests (p ++ b_ ".authorized_fact") (wi_authorized_fact item) in
  let '(finding_key, fact_digest) := row in
  let? _ := require (bool_decide (wi_finding_key item = finding_key)) (p ++ b_ ".finding_key")
    ErrorKind.DigestMismatch in
  let? _ := require (bool_decide (wi_authorized_fact_digest item = fact_digest)) (p ++ b_ ".authorized_fact_digest")
    ErrorKind.DigestMismatch in
  let? _ := validate_tree (p ++ b_ ".candidate_tree") (wi_candidate_tree item) in
  let? _ := validate_owner (p ++ b_ ".owner") (wi_owner item) in
  let? _ := validate_owner (p ++ b_ ".issuer") (wi_issuer item) in
  let? _ := require (valid_reason (wi_reason item)) (p ++ b_ ".reason") ErrorKind.InvalidValue in
  let? _ := validate_instant (p ++ b_ ".created_at") (wi_created_at item) in
  let? _ := validate_instant (p ++ b_ ".not_before") (wi_not_before item) in
  let? _ := validate_instant (p ++ b_ ".expires_at") (wi_expires_at item) in
  require (bytes_leb (wi_created_at item) (wi_not_before item) && bytes_ltb (wi_not_before item) (wi_expires_at item)) p
    ErrorKind.Inconsistent.

Definition waiver_order (item : WaiverItem) : Z * (bytes * (Digest.t * bytes)) :=
  (format_discriminant (ti_object_format (wi_candidate_tree item)),
    (Oid.as_str (ti_tree_oid (wi_candidate_tree item)), (wi_finding_key item, wi_waiver_id item))).

(** [items.windows(2)]: no neighbour repeats the tree and the key. *)
Fixpoint selected_once (items : list WaiverItem) : res unit DeError :=
  match items with
  | a :: items =>
      match items with
      | b :: _ =>
          if bool_decide (wi_candidate_tree a = wi_candidate_tree b) && bool_decide (wi_finding_key a = wi_finding_key b)
          then fail (b_ "$.items") ErrorKind.DuplicateMember
          else selected_once items
      | [] => Ok tt
      end
  | [] => Ok tt
  end.

Definition validate_waiver_bundle (bundle : WaiverBundle) : res unit DeError :=
  let? _ := validate_repository (b_ "$.repository") (wb_repository bundle) in
  let? _ := validate_instant (b_ "$.created_at") (wb_created_at bundle) in
  let p := b_ "$.items" in
  let? _ := limited p (wb_items bundle) 100000 in
  let? _ := check_each validate_waiver_item p 0 (wb_items bundle) in
  let? _ := sorted_set p (wb_items bundle) (compare_by waiver_order) in
  let? _ := selected_once (wb_items bundle) in
  members_loop wi_waiver_id wi_created_at (wb_created_at bundle) [] (wb_items bundle).
End Items.

(** ** Trusted time *)

Definition STATEMENT_TTL_MAX_SECONDS : i64 := 600.

(** [i64::saturating_sub]. *)
Definition sat_sub_i64 (a b : i64) : i64 := Z.max (- 9223372036854775808) (Z.min 9223372036854775807 (a - b)).

Definition validate_trusted_time (statement : TrustedTimeStatement) : res unit DeError :=
  let? _ := validate_repository (b_ "$.repository") (tt_repository statement) in
  let? _ := require (is_some (artifact_try_from (tt_provider statement))) (b_ "$.provider") ErrorKind.InvalidValue in
  let? _ := require (provider_run_id_valid (tt_provider_run_id statement)) (b_ "$.provider_run_id")
    ErrorKind.InvalidValue in
  let? _ := require ((1 <=? tt_provider_run_attempt statement) && (tt_provider_run_attempt statement <=? MAX_SAFE_INT))
    (b_ "$.provider_run_attempt") ErrorKind.InvalidValue in
  let? _ := validate_instant (b_ "$.evaluation_instant") (tt_evaluation_instant statement) in
  let? _ := validate_instant (b_ "$.valid_until") (tt_valid_until statement) in
  let lifetime := sat_sub_i64 (UtcInstant.epoch_seconds (tt_valid_until statement))
    (UtcInstant.epoch_seconds (tt_evaluation_instant statement)) in
  require ((1 <=? lifetime) && (lifetime <=? STATEMENT_TTL_MAX_SECONDS)) (b_ "$.valid_until") ErrorKind.InvalidValue.

(** ** What the checks accept *)

Lemma required_Ok condition p kind : require condition p kind = Ok tt <-> condition = true.
Proof. unfold require, fail. by destruct condition. Qed.

Lemma limited_Ok {A} p (items : list A) maximum : limited p items maximum = Ok tt <-> len items <= maximum.
Proof. unfold limited. by rewrite required_Ok, Z.leb_le. Qed.

Lemma res_unit_bind {E} (m : res unit E) (k : res unit E) :
  (let? _ := m in k) = Ok tt <-> m = Ok tt /\ k = Ok tt.
Proof. destruct m as [[]|e|]; naive_solver. Qed.

Lemma check_each_Ok {A} (check : bytes -> A -> res unit DeError) p index (items : list A) :
  check_each check p index items = Ok tt <->
  forall i item, items !! i = Some item -> check (member_path p (index + Z.of_nat i)) item = Ok tt.
Proof.
  revert index. induction items as [|item items IH]; intros index; cbn [check_each]; [done|].
  rewrite res_unit_bind, IH. split.
  - intros [H0 H] [|i] x Hx; cbn in Hx.
    + injection Hx as ->. by rewrite Z.add_0_r.
    + replace (index + Z.of_nat (S i)) with (index + 1 + Z.of_nat i) by lia. by apply H.
  - intros H. split; [rewrite <- (Z.add_0_r index); by apply (H 0%nat)|]. intros i x Hx.
    replace (index + 1 + Z.of_nat i) with (index + Z.of_nat (S i)) by lia. by apply H.
Qed.

Lemma sorted_from_Ok {A} (compare : A -> A -> comparison) p index items :
  sorted_from compare p index items = Ok tt <-> Sorted (fun a b => compare a b = Lt) items.
Proof.
  revert index. induction items as [|a items IH]; intros index; cbn [sorted_from]; [split; [constructor|done]|].
  destruct items as [|b items]; [split; [repeat constructor|done]|]. destruct (compare a b) eqn:E.
  - split; [done|]. intros Hs. apply Sorted_inv in Hs as [_ Hh]. apply HdRel_inv in Hh. congruence.
  - rewrite IH. split; [intros Hs; constructor; [done|by constructor]|]. by intros [Hs _]%Sorted_inv.
  - split; [done|]. intros Hs. apply Sorted_inv in Hs as [_ Hh]. apply HdRel_inv in Hh. congruence.
Qed.

Section KeyOrder.
Context {A K : Type} `{OrdLaws K} (key : A -> K).

(** An accepted set is strictly increasing in its key. *)
Lemma sorted_set_Ok p items :
  sorted_set p items (compare_by key) = Ok tt <-> StronglySorted (fun a b => klt (key a) (key b)) items.
Proof.
  unfold sorted_set. rewrite sorted_from_Ok. split; [|apply StronglySorted_Sorted].
  apply Sorted_StronglySorted. intros a b c. unfold compare_by. apply (cmp_trans (key a)).
Qed.

Lemma sorted_NoDup items : StronglySorted (fun a b => klt (key a) (key b)) items -> NoDup (map key items).
Proof.
  induction 1 as [|a items Hs IH Hf]; cbn; constructor; [|done].
  intros (b & Hb & Hin)%list_elem_of_fmap. rewrite Forall_forall in Hf. specialize (Hf b Hin). rewrite Hb in Hf.
  by apply (irreflexivity klt (key b)).
Qed.

Lemma sorted_set_NoDup p items : sorted_set p items (compare_by key) = Ok tt -> NoDup (map key items).
Proof. intros Hs%sorted_set_Ok. by apply sorted_NoDup. Qed.
End KeyOrder.

Lemma members_loop_Ok {A K} `{EqDecision K} (key : A -> K) (created_at : A -> bytes) limit seen items :
  members_loop key created_at limit seen items = Ok tt <->
  NoDup (map key items) /\ (forall item, item ∈ items -> key item ∉ seen /\ bytes_ltb limit (created_at item) = false).
Proof.
  revert seen. induction items as [|item items IH]; intros seen; cbn [members_loop map].
  { split; [|done]. intros _. split; [constructor|]. intros item Hin. by apply elem_of_nil in Hin. }
  case_bool_decide as Hseen.
  { split; [done|]. intros [_ H]. destruct (H item) as [Hn _]; [by left|done]. }
  destruct (bytes_ltb limit (created_at item)) eqn:Hc.
  { split; [done|]. intros [_ H]. destruct (H item) as [_ Hn]; [by left|congruence]. }
  rewrite IH, NoDup_cons. split.
  - intros [Hn H]. split.
    + split; [|done]. intros (x & Hx & Hin)%list_elem_of_fmap. destruct (H x Hin) as [Hs _]. apply Hs. rewrite <- Hx. by left.
    + intros x [->|Hin]%elem_of_cons; [done|]. destruct (H x Hin) as [Hs Hl]. split; [|done].
      intros Hx. apply Hs. by right.
  - intros [[Hni Hn] H]. split; [done|]. intros x Hin. destruct (H x) as [Hs Hl]; [by right|]. split; [|done].
    intros [Hx|Hx]%elem_of_cons; [|done]. apply Hni. rewrite <- Hx. by apply list_elem_of_fmap_2.
Qed.

(** ** Accepted exceptions *)

(** A pair between two pairs of one first part has that first part. *)
Lemma pair_between {A B} `{OrdLaws A, OrdLaws B} (a a' : A) (b b1 b2 : B) :
  kle (a, b1) (a', b) -> kle (a', b) (a, b2) -> a' = a /\ kle b1 b /\ kle b b2.
Proof.
  unfold kle. change (cmp (a, b1) (a', b)) with (match cmp a a' with Eq => cmp b1 b | c => c end).
  change (cmp (a', b) (a, b2)) with (match cmp a' a with Eq => cmp b b2 | c => c end).
  destruct (cmp a a') eqn:E1.
  - apply cmp_eq in E1 as ->. rewrite cmp_refl. done.
  - intros _. rewrite (cmp_antisym a a'), E1. done.
  - done.
Qed.

Section Accepted.
Context `{HH : Hashes} {HL : HashLaws HH} {JK : Json ControlKey} {CF : Canon ControlFact}.

(** The digests of a fact that stands for one occurrence of an eligible
    failure. *)
Record fact_bound (fact : ControlFact) (key digest : Digest.t) : Prop := {
  fb_kind : fa_finding_kind fact = ki_finding_kind (fa_key_input fact);
  fb_resolution :
    fa_finding_kind fact =
      match fe_resolution (fa_evidence fact) with
      | StructuralResolution.Missing _ => EligibleFindingKind.ExplicitTargetMissing
      | StructuralResolution.TypeMismatch _ => EligibleFindingKind.ExplicitTargetTypeMismatch
      end;
  fb_once : fe_occurrence_multiplicity (fa_evidence fact) = 1;
  fb_key : exists text, to_json (fa_key_input fact) = Some text /\
             key = sha256_digest (CONTROL_KEY_DOMAIN ++ [x00] ++ text);
  fb_digest : document_digest CONTROL_FACT_DOMAIN fact = Some digest
}.

Lemma validate_fact_Ok fact :
  validate_fact fact = Ok tt <->
  fa_finding_kind fact = ki_finding_kind (fa_key_input fact) /\
  fa_finding_kind fact =
    match fe_resolution (fa_evidence fact) with
    | StructuralResolution.Missing _ => EligibleFindingKind.ExplicitTargetMissing
    | StructuralResolution.TypeMismatch _ => EligibleFindingKind.ExplicitTargetTypeMismatch
    end /\ fe_occurrence_multiplicity (fa_evidence fact) = 1.
Proof.
  unfold validate_fact. cbv zeta. case_bool_decide; [|naive_solver]. case_bool_decide; [|naive_solver].
  cbn [negb orb]. rewrite required_Ok, Z.eqb_eq. naive_solver.
Qed.

Lemma fact_digests_Ok p fact key digest :
  fact_digests p fact = Ok (key, digest) <-> fact_bound fact key digest.
Proof.
  unfold fact_digests. pose proof (validate_fact_Ok fact) as Hv.
  destruct (validate_fact fact) as [[]|e|]; cbn [map_err].
  2-3: split; [done|]; intros [H1 H2 H3 _ _]; by destruct Hv as [_ Hv]; specialize (Hv (conj H1 (conj H2 H3))).
  destruct Hv as [Hv _]. destruct (Hv eq_refl) as (H1 & H2 & H3).
  destruct (to_json (fa_key_input fact)) as [text|] eqn:Ej.
  2: { split; [done|]. intros [_ _ _ (text & Et & _) _]. congruence. }
  destruct (document_digest CONTROL_FACT_DOMAIN fact) as [d|] eqn:Ed; cbn [ok_or].
  2: { split; [done|]. intros [_ _ _ _ Hd]. congruence. }
  split.
  - intros [= <- <-]. split; try done. by exists text.
  - intros [_ _ _ (text' & Et & ->) Hd]. congruence.
Qed.

(** What a debt item must be. *)
Record debt_item_ok (item : DebtItem) : Prop := {
  dio_fact : fact_bound (dbi_accepted_fact item) (dbi_finding_key item) (dbi_accepted_fact_digest item);
  dio_owner : owner_new (dbi_owner item) = Some (dbi_owner item);
  dio_reason : valid_reason (dbi_reason item) = true;
  dio_created : UtcInstant.new (dbi_created_at item) = Some (dbi_created_at item);
  dio_expires : UtcInstant.new (dbi_expires_at item) = Some (dbi_expires_at item);
  dio_life : bytes_ltb (dbi_created_at item) (dbi_expires_at item) = true
}.

Lemma validate_debt_item_Ok p item : validate_debt_item p item = Ok tt <-> debt_item_ok item.
Proof.
  unfold validate_debt_item.
  destruct (fact_digests _ _) as [[key digest]|e|] eqn:E.
  2-3: split; [done|]; intros [Hf _ _ _ _ _]; eapply fact_digests_Ok in Hf; rewrite E in Hf; done.
  apply fact_digests_Ok in E. unfold validate_owner, validate_instant.
  rewrite !res_unit_bind, !required_Ok, !bool_decide_eq_true. split.
  - intros (Hk & Hd & H3 & H4 & H5 & H6 & H7). split; try done. by rewrite Hk, Hd.
  - intros [Hf Ho Hr Hc He Hl]. destruct E as [_ _ _ (t1 & E1 & ->) E2], Hf as [_ _ _ (t2 & E3 & ->) E4].
    rewrite E1 in E3. injection E3 as <-. split_and!; try done. congruence.
Qed.

Record debt_ok (snapshot : DebtSnapshot) : Prop := {
  do_repository : validate_repository (b_ "$.repository") (ds_repository snapshot) = Ok tt;
  do_tree : Oid.object_format (ti_tree_oid (ds_adoption_tree snapshot)) = ti_object_format (ds_adoption_tree snapshot);
  do_created : UtcInstant.new (ds_created_at snapshot) = Some (ds_created_at snapshot);
  do_count : len (ds_items snapshot) <= 100000;
  do_items : Forall debt_item_ok (ds_items snapshot);
  do_sorted : StronglySorted (fun a b => klt (dbi_debt_id a) (dbi_debt_id b)) (ds_items snapshot);
  do_keys : NoDup (map dbi_finding_key (ds_items snapshot));
  do_before : Forall (fun item => bytes_ltb (ds_created_at snapshot) (dbi_created_at item) = false) (ds_items snapshot)
}.

(** a debt snapshot is accepted exactly when its items are well formed
    (each reproduces the finding key and the fact digest of one structural
    failure counted once, has an owner, a reason and a life of its own), are in
    strictly increasing order of their ids, accept each finding at most once,
    and were created no later than the snapshot. *)
Theorem debt_accepted_exact snapshot : validate_debt_snapshot snapshot = Ok tt <-> debt_ok snapshot.
Proof.
  unfold validate_debt_snapshot. cbv zeta. unfold validate_tree, validate_instant.
  rewrite !res_unit_bind, !required_Ok, !bool_decide_eq_true, limited_Ok, check_each_Ok, (sorted_set_Ok dbi_debt_id).
  rewrite members_loop_Ok.
  assert ((forall i item, ds_items snapshot !! i = Some item ->
             validate_debt_item (member_path (b_ "$.items") (0 + Z.of_nat i)) item = Ok tt) <->
          Forall debt_item_ok (ds_items snapshot)) as ->.
  { rewrite Forall_lookup. split; intros Hi i item Hl.
    - by eapply validate_debt_item_Ok, Hi.
    - apply validate_debt_item_Ok. by apply (Hi i). }
  split.
  - intros (H1 & H2 & H3 & H4 & H5 & H6 & H7 & H8). split; try done.
    apply Forall_forall. intros item Hin. by apply H8.
  - intros [H1 H2 H3 H4 H5 H6 H7 H8]. rewrite Forall_forall in H8.
    split_and!; try done. intros item Hin. split; [by apply not_elem_of_nil|by apply H8].
Qed.

(** What a waiver item must be. *)
Record waiver_item_ok (item : WaiverItem) : Prop := {
  wio_fact : fact_bound (wi_authorized_fact item) (wi_finding_key item) (wi_authorized_fact_digest item);
  wio_tree : Oid.object_format (ti_tree_oid (wi_candidate_tree item)) = ti_object_format (wi_candidate_tree item);
  wio_owner : owner_new (wi_owner item) = Some (wi_owner item);
  wio_issuer : owner_new (wi_issuer item) = Some (wi_issuer item);
  wio_reason : valid_reason (wi_reason item) = true;
  wio_created : UtcInstant.new (wi_created_at item) = Some (wi_created_at item);
  wio_not_before : UtcInstant.new (wi_not_before item) = Some (wi_not_before item);
  wio_expires : UtcInstant.new (wi_expires_at item) = Some (wi_expires_at item);
  wio_life : bytes_leb (wi_created_at item) (wi_not_before item) = true /\
             bytes_ltb (wi_not_before item) (wi_expires_at item) = true
}.

Lemma validate_waiver_item_Ok p item : validate_waiver_item p item = Ok tt <-> waiver_item_ok item.
Proof.
  unfold validate_waiver_item.
  destruct (fact_digests _ _) as [[key digest]|e|] eqn:E.
  2-3: split; [done|]; intros [Hf _ _ _ _ _ _ _ _]; eapply fact_digests_Ok in Hf; rewrite E in Hf; done.
  apply fact_digests_Ok in E. unfold validate_owner, validate_instant, validate_tree.
  rewrite !res_unit_bind, !required_Ok, !bool_decide_eq_true, andb_true_iff. split.
  - intros (Hk & Hd & H3 & H4 & H5 & H6 & H7 & H8 & H9 & H10). split; try done. by rewrite Hk, Hd.
  - intros [Hf Ht Ho Hi Hr Hc Hn He Hl]. destruct E as [_ _ _ (t1 & E1 & ->) E2], Hf as [_ _ _ (t2 & E3 & ->) E4].
    rewrite E1 in E3. injection E3 as <-. split_and!; try done; [congruence|by destruct Hl..].
Qed.

(** The tree and the finding a waiver is for. *)
Definition waived (item : WaiverItem) : TreeIdentity * Digest.t := (wi_candidate_tree item, wi_finding_key item).

Lemma format_discriminant_eq f g : format_discriminant f = format_discriminant g -> f = g.
Proof. by destruct f, g. Qed.

(** Between two waivers of one tree and one finding lie only such waivers. *)
Lemma waived_between a x b :
  waiver_item_ok a -> waiver_item_ok x -> waived a = waived b ->
  klt (waiver_order a) (waiver_order x) -> kle (waiver_order x) (waiver_order b) -> waived x = waived a.
Proof.
  intros Ha Hx [= Etree Ekey] Hax Hxb. assert (kle (waiver_order a) (waiver_order x)) as Hax' by (apply kle_lt; by left).
  unfold waiver_order in *. rewrite <- Etree, <- Ekey in Hxb.
  destruct (pair_between _ _ _ _ _ Hax' Hxb) as (Ef & H1 & H2).
  destruct (pair_between _ _ _ _ _ H1 H2) as (Eo & H3 & H4).
  destruct (pair_between _ _ _ _ _ H3 H4) as (Ek & _ & _).
  apply format_discriminant_eq in Ef. unfold waived. f_equal; [|done].
  pose proof (wio_tree _ Ha) as Fa. pose proof (wio_tree _ Hx) as Fx.
  destruct (wi_candidate_tree a) as [fa [ga ra]], (wi_candidate_tree x) as [fx [gx rx]].
  cbn in *. unfold Oid.as_str in Eo. cbn in Eo. congruence.
Qed.

Lemma selected_once_next items i a b :
  selected_once items = Ok tt -> items !! i = Some a -> items !! S i = Some b -> waived a <> waived b.
Proof.
  revert i. induction items as [|x items IH]; intros i Hs; [done|]. cbn [selected_once] in Hs.
  destruct items as [|y items]; [by destruct i|].
  destruct (bool_decide (wi_candidate_tree x = wi_candidate_tree y) && bool_decide (wi_finding_key x = wi_finding_key y)) eqn:E;
    [done|].
  destruct i as [|i]; [|by apply IH]. cbn. intros [= ->] [= ->] [= Et Ek].
  rewrite !bool_decide_eq_true_2 in E by done. done.
Qed.

(** an accepted waiver bundle holds at most one waiver for one candidate
    tree and one finding: the check of neighbours is enough, because the
    accepted order puts such waivers next to each other. Every item is well
    formed, its ids are distinct and none is younger than the bundle. *)
Theorem waiver_accepted_once bundle :
  validate_waiver_bundle bundle = Ok tt ->
  Forall waiver_item_ok (wb_items bundle) /\
  NoDup (map waived (wb_items bundle)) /\ NoDup (map wi_waiver_id (wb_items bundle)) /\
  Forall (fun item => bytes_ltb (wb_created_at bundle) (wi_created_at item) = false) (wb_items bundle).
Proof.
  unfold validate_waiver_bundle. cbv zeta. rewrite !res_unit_bind, check_each_Ok, (sorted_set_Ok waiver_order), members_loop_Ok.
  intros (_ & _ & _ & Hitems & Hsorted & Hnext & Hids & Hcreated).
  assert (Forall waiver_item_ok (wb_items bundle)) as Hok.
  { apply Forall_lookup. intros i item Hl. by eapply validate_waiver_item_Ok, Hitems. }
  split_and!; [done| |done|by apply Forall_forall; intros item Hin; apply Hcreated].
  apply NoDup_alt. intros i j w Hi Hj. rewrite list_lookup_fmap in Hi, Hj.
  destruct (wb_items bundle !! i) as [a|] eqn:Ea; [|done]. destruct (wb_items bundle !! j) as [b|] eqn:Eb; [|done].
  injection Hi as <-.
  assert (waived b = waived a) as E by (cbn in Hj; congruence). rewrite Forall_lookup in Hok.
  assert (forall i j a b, (i < j)%nat -> wb_items bundle !! i = Some a -> wb_items bundle !! j = Some b ->
            waived a = waived b -> False) as Hno.
  { intros k l x y Hkl Ex Ey E'.
    destruct (lookup_lt_is_Some_2 (wb_items bundle) (S k)) as [z Ez].
    { apply lookup_lt_Some in Ey. lia. }
    apply (selected_once_next _ _ _ _ Hnext Ex Ez). symmetry. eapply (waived_between x z y); eauto.
    - exact (StronglySorted_lookup _ _ k (S k) _ _ Hsorted ltac:(lia) Ex Ez).
    - destruct (decide (S k = l)) as [<-|Hne]; [rewrite Ez in Ey; injection Ey as ->; apply kle_lt; by right|].
      apply kle_lt. left.
      exact (StronglySorted_lookup _ _ (S k) l _ _ Hsorted ltac:(lia) Ez Ey). }
  destruct (Nat.lt_trichotomy i j) as [Hlt|[->|Hlt]]; [|done|]; exfalso;
    [exact (Hno i j a b Hlt Ea Eb (eq_sym E))|exact (Hno j i b a Hlt Eb Ea E)].
Qed.
End Accepted.

(** ** Examples *)

Section Example.
#[local] Instance ex_hashes : Hashes := toy_hash.
#[local] Instance ex_hash_laws : HashLaws ex_hashes := toy_hash_laws.
#[local] Instance ex_json : Json ControlKey := fun key => Some (rs_document (ki_scope key)).
#[local] Instance ex_canon : Canon ControlFact := fun fact => Some (rs_document (ki_scope (fa_key_input fact))).

Definition ex_fact : ControlFact :=
  mkFact
    (mkFactEvidence (StructuralResolution.Missing MissingResolution.LabelNotDeclared) 1)
    EligibleFindingKind.ExplicitTargetMissing
    (mkFindingKeyInput EligibleFindingKind.ExplicitTargetMissing
       (mkReferenceScope (b_ "docs/a.md") (mkRepositoryTargetIntent None None (b_ "docs/b.md") None TargetKind.Either)
          (sha256_digest []) SourceConstruct.InlineLink)).
Definition ex_control_key : Digest.t := sha256_digest (CONTROL_KEY_DOMAIN ++ [x00] ++ b_ "docs/a.md").
Definition ex_control_digest : Digest.t := sha256_digest (CONTROL_FACT_DOMAIN ++ [x00] ++ b_ "docs/a.md").
Definition ex_tree (digit : Byte.byte) : TreeIdentity := mkTreeIdentity Sha1 (Oid.mk Sha1 (repeat digit 40)).
Definition ex_waiver (digit : Byte.byte) (id : bytes) : WaiverItem :=
  mkWaiverItem id ex_control_key ex_fact ex_control_digest (ex_tree digit) (b_ "team:docs") (b_ "user:lead")
    (b_ "moved next week") (b_ "2026-01-01T00:00:00Z") (b_ "2026-01-02T00:00:00Z") (b_ "2026-02-01T00:00:00Z").
Definition ex_repository : RepositoryIdentity.t :=
  RepositoryIdentity.mk (b_ "github.com") (b_ "project") (b_ "owner").
Definition ex_bundle : WaiverBundle :=
  mkWaiverBundle ex_repository (b_ "refs/heads/main") (sha256_digest []) (b_ "2026-01-01T00:00:00Z")
    [ex_waiver "1" (b_ "w1"); ex_waiver "2" (b_ "w2")].

Lemma waiver_accepted_once_witness :
  validate_waiver_bundle ex_bundle = Ok tt /\ NoDup (map waived (wb_items ex_bundle)).
Proof.
  split; [by vm_compute|]. apply waiver_accepted_once. by vm_compute.
Defined.
Definition ex_debt_item (id : bytes) : DebtItem :=
  mkDebtItem id ex_control_key ex_fact ex_control_digest (b_ "team:docs") (b_ "moved next week")
    (b_ "2026-01-01T00:00:00Z") (b_ "2026-02-01T00:00:00Z").
Definition ex_snapshot (items : list DebtItem) : DebtSnapshot :=
  mkDebtSnapshot ex_repository (b_ "refs/heads/main") (sha256_digest []) (ex_tree "1") (sha256_digest [])
    (b_ "2026-01-01T00:00:00Z") items.

(** One item for the key is accepted, two are not. *)
Lemma debt_accepted_exact_witness :
  debt_ok (ex_snapshot [ex_debt_item (b_ "d1")]) /\
  ~ debt_ok (ex_snapshot [ex_debt_item (b_ "d1"); ex_debt_item (b_ "d2")]).
Proof.
  split; [apply debt_accepted_exact; by vm_compute|].
  intros H. apply debt_accepted_exact in H. by vm_compute in H.
Defined.
End Example.
