(* ===== verification/EvalControls.v ===== *)
(** What controls do to a run: [effects.rs] and [floor.rs] of
    [crates/amiss-scan/src/policy/] and the verifications of [policy.rs]. *)
From Stdlib Require Import Strings.Byte Strings.String Lia Sorting.Sorted.
From stdpp Require Import base numbers sorting list.
From S2P Require Import Prelude Codec WireModel WireTime WireIdentity OrdMap GitObject Observation GitResources.
From S2P Require Import ScanResources ScanPath EvalModel Controls.

Definition SCANNER_POLICY_PATH : bytes := b_ ".amiss/scanner-policy.json".

(** [RepoPath::new]; a path is its bytes. *)
Definition repo_path_new (raw : bytes) : option path := if Path.path_bytes_valid raw then Some raw else None.

(** [BTreeSet] from an iterator. *)
Abbreviation bset K := (bt K unit) (only parsing).
Definition bset_from {K} `{Ord K} (l : list K) : bset K := bt_collect (map (fun k => (k, tt)) l) [].

(** ** Effects *)

(** [PolicySide] of [acquire.rs]. *)
Record PolicySide := mkPolicySide { pside_digest : option Digest.t; pside_policy : option ScannerPolicy }.

Module InventoryState.
Inductive t := Scanned | Unsupported | Missing | Outside.
#[global] Instance eq_dec : EqDecision t.
Proof. solve_decision. Defined.
End InventoryState.

(** [Effects::default]. *)
Definition default_effects `{ReportTypes} : Effects :=
  mkEffects [] [] [] None None None None None None None [] 64 (SCAN_CONTRACT ScanLimit.complete_findings)
    MACHINE_JSON_BYTES [].

Definition disposition_row (row : FindingDisposition) : FindingKind.t * Disposition.t :=
  (match fd_finding_kind row with
   | PromotableFindingKind.ExplicitTargetMissing => FindingKind.ExplicitTargetMissing
   | PromotableFindingKind.ExplicitTargetTypeMismatch => FindingKind.ExplicitTargetTypeMismatch
   | PromotableFindingKind.InvalidReference => FindingKind.InvalidReference
   end,
   match fd_disposition row with
   | PolicyDisposition.Warn => Disposition.Warn
   | PolicyDisposition.Fail => Disposition.Fail
   end).
Definition disposition_rows (rows : list FindingDisposition) : list (FindingKind.t * Disposition.t) :=
  map disposition_row rows.

Definition raised (policy : option ScannerPolicy) : list (FindingKind.t * Disposition.t) :=
  match policy with Some policy => disposition_rows (sp_finding_dispositions policy) | None => [] end.

Definition include_weakening (base : DocumentInclude) (candidate : option DocumentInclude) : option bytes :=
  match candidate with
  | None =>
      Some (if is_some (inc_suffix base) then b_ "policy/include-suffix-selector-removed"
            else match inc_kind base with
                 | IncludeKind.Document => b_ "policy/include-document-removed"
                 | IncludeKind.Tree => b_ "policy/include-tree-removed"
                 end)
  | Some candidate =>
      if negb (bool_decide (inc_suffix base = inc_suffix candidate)) then
        Some (if is_some (inc_suffix base) then b_ "policy/include-suffix-removed"
              else b_ "policy/include-tree-narrowed")
      else
        match inc_adapter base with
        | Some adapter =>
            if negb (bool_decide (inc_adapter candidate = Some adapter))
            then Some (b_ "policy/include-binding-removed") else None
        | None => None
        end
  end.

Definition removed_projection_assertions (base candidate : list ProjectionAssertion) : list ControlSeed :=
  let identities := bset_from (map (fun row => (pa_document row, pa_name row)) candidate) in
  map (fun row =>
         mkControlSeed FindingKind.PolicyWeakened (b_ "policy/projection-assertion-removed/" ++ pa_name row)
           (Some (pa_document row)))
    (List.filter (fun row => negb (bt_mem (pa_document row, pa_name row) identities)) base).

Definition policy_aliases (policy : option ScannerPolicy) : list bytes :=
  default [] (policy ← policy; sp_default_branch_aliases policy).

Definition file_weakening (base candidate : option ScannerPolicy) : list ControlSeed :=
  let kept := policy_aliases candidate in
  let rules :=
    map (fun alias => b_ "policy/default-branch-alias-removed/" ++ BranchRef.name alias)
      (List.filter (fun alias => negb (existsb (bytes_eqb alias) kept)) (policy_aliases base)) in
  let pinned := (policy ← base; sp_anchor_renderers policy) in
  let pin := (policy ← candidate; sp_anchor_renderers policy) in
  let rules :=
    match pinned with
    | Some pinned =>
        if match pin with
           | None => true
           | Some pin => existsb (fun name => negb (existsb (bytes_eqb name) pinned)) pin
           end
        then rules ++ [b_ "policy/anchor-renderers-widened"] else rules
    | None => rules
    end in
  map (fun rule_id => mkControlSeed FindingKind.PolicyWeakened rule_id (repo_path_new SCANNER_POLICY_PATH)) rules.

Definition removed_declarations (base candidate : bt path (bytes * option bytes)) : list ControlSeed :=
  omap (fun row : path * (bytes * option bytes) =>
          if bool_decide (bt_get row.1 candidate = Some row.2) then None
          else Some (mkControlSeed FindingKind.PolicyWeakened
                       (if bt_mem row.1 candidate then b_ "router/declaration-replaced"
                        else b_ "router/declaration-removed") (Some row.1))) base.

(** The members of a side's policy, empty where there is none. *)
Definition side_includes (policy : option ScannerPolicy) : list DocumentInclude :=
  match policy with Some policy => sp_document_includes policy | None => [] end.
Definition side_inventory (policy : option ScannerPolicy) : list bytes :=
  match policy with Some policy => sp_protected_inventory policy | None => [] end.
Definition side_assertions (policy : option ScannerPolicy) : list ProjectionAssertion :=
  default [] (policy ← policy; sp_projection_assertions policy).

Definition include_key (row : DocumentInclude) : bytes * Z := (inc_path row, IncludeKind.discriminant (inc_kind row)).

Definition includes_weakened (base candidate : list DocumentInclude) : list ControlSeed :=
  let candidates : bt (bytes * Z) DocumentInclude := bt_collect (map (fun row => (include_key row, row)) candidate) [] in
  omap (fun include =>
          option_map (fun rule => mkControlSeed FindingKind.PolicyWeakened rule (Some (inc_path include)))
            (include_weakening include (bt_get (include_key include) candidates))) base.

Definition inventory_removed (base : list bytes) (candidate : bset bytes) : list ControlSeed :=
  map (fun member => mkControlSeed FindingKind.PolicyWeakened (b_ "policy/inventory-removed") (Some member))
    (List.filter (fun member => negb (bt_mem member candidate)) base).

Definition dispositions_weakened (base candidate : list (FindingKind.t * Disposition.t)) : list ControlSeed :=
  omap (fun row : FindingKind.t * Disposition.t =>
          let now := option_map snd (List.find (fun other => bool_decide (other.1 = row.1)) candidate) in
          if match now with None => true | Some disposition => Disposition.ltb disposition row.2 end
          then Some (mkControlSeed FindingKind.PolicyWeakened (b_ "policy/disposition/" ++ FindingKind.as_ref row.1)
                       (repo_path_new SCANNER_POLICY_PATH))
          else None) base.

Definition coverage_reduced (prefix : bytes) (state : InventoryState.t) : option bytes :=
  match state with
  | InventoryState.Scanned => None
  | InventoryState.Missing => Some (prefix ++ b_ "-missing")
  | InventoryState.Unsupported => Some (prefix ++ b_ "-unsupported")
  | InventoryState.Outside => Some (prefix ++ b_ "-outside")
  end.

Definition inventory_coverage (candidate_documents : bytes -> InventoryState.t) (inventory : bset bytes) :
    list ControlSeed :=
  omap (fun p =>
          option_map (fun rule => mkControlSeed FindingKind.CoverageReduced rule (repo_path_new p))
            (coverage_reduced (b_ "coverage/repository-inventory") (candidate_documents p)))
    (bt_keys inventory).

Definition effects `{ReportTypes} (base candidate : PolicySide) (candidate_documents : bytes -> InventoryState.t) :
    Effects :=
  let base_policy := pside_policy base in
  let candidate_policy := pside_policy candidate in
  let candidate_inventory := bset_from (side_inventory candidate_policy) in
  let candidate_raised := raised candidate_policy in
  let inventory :=
    bt_collect (map (fun k => (k, tt)) (bt_keys candidate_inventory)) (bset_from (side_inventory base_policy)) in
  let controls :=
    includes_weakened (side_includes base_policy) (side_includes candidate_policy)
    ++ inventory_removed (side_inventory base_policy) candidate_inventory
    ++ removed_projection_assertions (side_assertions base_policy) (side_assertions candidate_policy)
    ++ file_weakening base_policy candidate_policy
    ++ dispositions_weakened (raised base_policy) candidate_raised
    ++ inventory_coverage candidate_documents inventory in
  let translations :=
    map (fun pair => (tp_source pair, tp_target pair))
      (default [] (policy ← candidate_policy; sp_translations policy)) in
  mkEffects candidate_raised [] controls (pside_digest base) (pside_digest candidate) None None None None None []
    (e_errors_retained default_effects) (e_complete_findings default_effects) (e_machine_json_bytes default_effects)
    translations.

(** ** The organization floor *)

Record FloorInput := mkFloorInput {
  fli_floor : OrganizationFloor; fli_digest : Digest.t; fli_trust_source : RequestTrust.t
}.

Module ProtectedState.
Inductive t := Absent | Unsupported | Present (digest : Digest.t).
#[global] Instance eq_dec : EqDecision t.
Proof. solve_decision. Defined.
End ProtectedState.

Definition floor_inventory (input : FloorInput) (candidate_documents : bytes -> InventoryState.t) : list ControlSeed :=
  omap (fun p =>
          option_map (fun rule => mkControlSeed FindingKind.CoverageReduced rule (Some p))
            (coverage_reduced (b_ "coverage/floor-inventory") (candidate_documents p)))
    (of_protected_inventory (fli_floor input)).

Definition protected_control (p : bytes) (base candidate : ProtectedState.t) : option ControlSeed :=
  if match base, candidate with
     | ProtectedState.Present a, ProtectedState.Present b => bool_decide (a = b)
     | _, _ => false
     end
  then None
  else Some (mkControlSeed FindingKind.ControlPlaneChanged (b_ "control/protected-path") (Some p)).

Definition floor_raises (input : FloorInput) : list (FindingKind.t * Disposition.t) :=
  disposition_rows (of_minimum_dispositions (fli_floor input)).

(** *** Limits *)

Module GitLimit.
Inductive t :=
  | inflated_object_bytes | compressed_stream_bytes | aggregate_compressed_bytes | pack_directory_entries | pack_files
  | pack_index_bytes | aggregate_pack_index_bytes | delta_depth | index_bytes | tree_entries_per_snapshot | raw_path_bytes.
#[global] Instance eq_dec : EqDecision t.
Proof. solve_decision. Defined.
End GitLimit.

Definition git_get (field : GitLimit.t) (limits : GitLimits) : u64 :=
  match field with
  | GitLimit.inflated_object_bytes => inflated_object_bytes limits
  | GitLimit.compressed_stream_bytes => compressed_stream_bytes limits
  | GitLimit.aggregate_compressed_bytes => aggregate_compressed_bytes limits
  | GitLimit.pack_directory_entries => pack_directory_entries limits
  | GitLimit.pack_files => pack_files limits
  | GitLimit.pack_index_bytes => pack_index_bytes limits
  | GitLimit.aggregate_pack_index_bytes => aggregate_pack_index_bytes limits
  | GitLimit.delta_depth => delta_depth limits
  | GitLimit.index_bytes => index_bytes limits
  | GitLimit.tree_entries_per_snapshot => tree_entries_per_snapshot limits
  | GitLimit.raw_path_bytes => raw_path_bytes limits
  end.
Definition git_set (field : GitLimit.t) (value : u64) (limits : GitLimits) : GitLimits :=
  let put other := if decide (other = field) then value else git_get other limits in
  {|
    inflated_object_bytes := put GitLimit.inflated_object_bytes;
    compressed_stream_bytes := put GitLimit.compressed_stream_bytes;
    aggregate_compressed_bytes := put GitLimit.aggregate_compressed_bytes;
    pack_directory_entries := put GitLimit.pack_directory_entries;
    pack_files := put GitLimit.pack_files;
    pack_index_bytes := put GitLimit.pack_index_bytes;
    aggregate_pack_index_bytes := put GitLimit.aggregate_pack_index_bytes;
    delta_depth := put GitLimit.delta_depth;
    index_bytes := put GitLimit.index_bytes;
    tree_entries_per_snapshot := put GitLimit.tree_entries_per_snapshot;
    raw_path_bytes := put GitLimit.raw_path_bytes
  |}.

(** The limits a run reads, and one field of them. *)
Definition Limits : Type := ScanLimits * GitLimits.
Module Slot.
Inductive t := Scan (field : ScanLimit.t) | Git (field : GitLimit.t).
#[global] Instance eq_dec : EqDecision t.
Proof. solve_decision. Defined.
End Slot.
Definition slot_get (slot : Slot.t) (limits : Limits) : u64 :=
  match slot with Slot.Scan field => limits.1 field | Slot.Git field => git_get field limits.2 end.
Definition slot_set (slot : Slot.t) (value : u64) (limits : Limits) : Limits :=
  match slot with
  | Slot.Scan field => (fun other => if decide (other = field) then value else limits.1 other, limits.2)
  | Slot.Git field => (limits.1, git_set field value limits.2)
  end.

(** The match of [tightened_limits]. *)
Definition resource_slot (resource : ResourceName) : option Slot.t :=
  match resource with
  | DocumentsPerSnapshot => Some (Slot.Scan ScanLimit.documents_per_snapshot)
  | DocumentBlobBytes => Some (Slot.Scan ScanLimit.document_blob_bytes)
  | AggregateDocumentBytesPerSnapshot => Some (Slot.Scan ScanLimit.aggregate_document_bytes_per_snapshot)
  | RawLinkDestinationBytes => Some (Slot.Scan ScanLimit.raw_link_destination_bytes)
  | ParserNesting => Some (Slot.Scan ScanLimit.parser_nesting)
  | ParserNodesPerDocument => Some (Slot.Scan ScanLimit.parser_nodes_per_document)
  | ParserNodesPerSnapshot => Some (Slot.Scan ScanLimit.parser_nodes_per_snapshot)
  | AggregateEmbeddedCodeEvaluationBytesPerSnapshot => Some (Slot.Scan ScanLimit.aggregate_embedded_code_evaluation_bytes_per_snapshot)
  | ReferencesPerDocument => Some (Slot.Scan ScanLimit.references_per_document)
  | ReferencesPerSnapshot => Some (Slot.Scan ScanLimit.references_per_snapshot)
  | DeclaredLabelsPerSnapshot => Some (Slot.Scan ScanLimit.declared_labels_per_snapshot)
  | ReferencedTargetBlobBytes => Some (Slot.Scan ScanLimit.referenced_target_blob_bytes)
  | AggregateReferencedTargetBytesPerSnapshot => Some (Slot.Scan ScanLimit.aggregate_referenced_target_bytes_per_snapshot)
  | IgnoreDeclarationBlobBytes => Some (Slot.Scan ScanLimit.ignore_declaration_blob_bytes)
  | AggregateIgnoreDeclarationBytesPerSnapshot => Some (Slot.Scan ScanLimit.aggregate_ignore_declaration_bytes_per_snapshot)
  | AggregateLineFragmentEvaluationBytesPerSnapshot => Some (Slot.Scan ScanLimit.aggregate_line_fragment_evaluation_bytes_per_snapshot)
  | AggregateHeadingAnchorEvaluationBytesPerSnapshot => Some (Slot.Scan ScanLimit.aggregate_heading_anchor_evaluation_bytes_per_snapshot)
  | ProjectionAssertionsPerSnapshot => Some (Slot.Scan ScanLimit.projection_assertions_per_snapshot)
  | AggregateProjectionSelectedBytesPerSnapshot => Some (Slot.Scan ScanLimit.aggregate_projection_selected_bytes_per_snapshot)
  | ProjectionRecordsComparedPerSnapshot => Some (Slot.Scan ScanLimit.projection_records_compared_per_snapshot)
  | AggregateProjectionProjectedBytesPerSnapshot => Some (Slot.Scan ScanLimit.aggregate_projection_projected_bytes_per_snapshot)
  | AggregateProjectionPreviewBytesPerSnapshot => Some (Slot.Scan ScanLimit.aggregate_projection_preview_bytes_per_snapshot)
  | SelectedControlBlobBytes => Some (Slot.Scan ScanLimit.selected_control_blob_bytes)
  | AggregateSelectedControlBytesPerSnapshot => Some (Slot.Scan ScanLimit.aggregate_selected_control_bytes_per_snapshot)
  | GitObjectBytes => Some (Slot.Git GitLimit.inflated_object_bytes)
  | GitCompressedObjectBytes => Some (Slot.Git GitLimit.compressed_stream_bytes)
  | AggregateGitCompressedObjectBytesPerEvaluation => Some (Slot.Git GitLimit.aggregate_compressed_bytes)
  | GitPackDirectoryEntries => Some (Slot.Git GitLimit.pack_directory_entries)
  | GitPackFiles => Some (Slot.Git GitLimit.pack_files)
  | GitPackIndexBytes => Some (Slot.Git GitLimit.pack_index_bytes)
  | AggregateGitPackIndexBytes => Some (Slot.Git GitLimit.aggregate_pack_index_bytes)
  | GitDeltaDepth => Some (Slot.Git GitLimit.delta_depth)
  | GitIndexBytes => Some (Slot.Git GitLimit.index_bytes)
  | GitTreeEntriesPerSnapshot => Some (Slot.Git GitLimit.tree_entries_per_snapshot)
  | RawPathBytes => Some (Slot.Git GitLimit.raw_path_bytes)
  | ControlInputBytes => Some (Slot.Scan ScanLimit.control_input_bytes)
  | RepositoryPolicyEntries => Some (Slot.Scan ScanLimit.repository_policy_entries)
  | DebtItems => Some (Slot.Scan ScanLimit.debt_items)
  | WaiverItems => Some (Slot.Scan ScanLimit.waiver_items)
  | TypedAnalysisErrorsRetained => Some (Slot.Scan ScanLimit.errors_retained)
  | CompleteFindings => Some (Slot.Scan ScanLimit.complete_findings)
  | OrganizationPolicyEntries | MachineJsonBytes | PrivateTemporaryStorageBytes | EvaluatorManagedMemoryBytes => None
  end.

(** The body of its loop. *)
Definition tighten (limits : Limits) (row : ResourceLimit) : Limits :=
  match resource_slot (rl_resource row) with
  | Some slot => slot_set slot (Z.min (slot_get slot limits) (unsigned_maximum (rl_maximum row))) limits
  | None => limits
  end.

Definition tightened_limits (scan : ScanLimits) (git : GitLimits) (floor : OrganizationFloor) : Limits :=
  fold_left tighten (of_resource_limits floor) (scan, git).

(** ** Verification *)

Record DebtInput := mkDebtInput {
  dbin_snapshot : DebtSnapshot; dbin_digest : Digest.t; dbin_trust_source : RequestTrust.t
}.
Record WaiverInput := mkWaiverInput {
  wvin_bundle : WaiverBundle; wvin_digest : Digest.t; wvin_trust_source : RequestTrust.t
}.
Record TimeInput := mkTimeInput {
  tin_statement : TrustedTimeStatement; tin_provider : bytes; tin_provider_run_id : bytes;
  tin_provider_run_attempt : u64
}.

Definition binding_mismatch_row : ErrorDetail :=
  mkErrorDetail AnalysisErrorCode.ControlBindingMismatch None None None None.
Definition trusted_time_invalid_row : ErrorDetail :=
  mkErrorDetail AnalysisErrorCode.TrustedTimeInvalid None None None None.

Definition verify_floor (input : FloorInput) (repository : option RepositoryIdentity.t) (target_ref : option bytes)
    (profile : Profile.t) : res unit ErrorDetail :=
  match repository with
  | None => Err binding_mismatch_row
  | Some identity =>
      let floor := fli_floor input in
      if negb (bool_decide (of_repository floor = identity)) then Err binding_mismatch_row
      else if negb (bool_decide (target_ref = Some (of_ref_name floor))) then Err binding_mismatch_row
      else if Profile.rank profile <? Profile.rank (of_minimum_profile floor) then Err binding_mismatch_row
      else Ok tt
  end.

Definition identity_matches (control : RepositoryIdentity.t) (control_ref : bytes)
    (repository : option RepositoryIdentity.t) (target_ref : option bytes) : bool :=
  bool_decide (repository = Some control) && bool_decide (target_ref = Some control_ref).

Definition verify_item_limit (resource : ResourceName) (item_count : usize) (limit : u64) : res unit ErrorDetail :=
  if item_count <=? limit then Ok tt
  else Err (mkErrorDetail AnalysisErrorCode.ResourceLimitExceeded None None
              (Some (resource, limit, sat_add limit 1)) None).

Definition TRUSTED_TIME_STATEMENT_SCHEMA : bytes := b_ "amiss/scanner-trusted-time-statement".

Definition verify_time `{HH : Hashes} {HL : HashLaws HH} {CT : Canon TrustedTimeStatement} (input : TimeInput)
    (repository : option RepositoryIdentity.t) (target_ref : option bytes) (candidate_identity : Digest.t) :
    res TimeContext ErrorDetail :=
  let statement := tin_statement input in
  let bound :=
    identity_matches (tt_repository statement) (tt_ref_name statement) repository target_ref
    && bool_decide (tt_candidate_identity_digest statement = candidate_identity)
    && bytes_eqb (tt_provider statement) (tin_provider input)
    && bytes_eqb (tt_provider_run_id statement) (tin_provider_run_id input)
    && (tt_provider_run_attempt statement =? tin_provider_run_attempt input) in
  if negb bound then Err trusted_time_invalid_row
  else
    let? _ := map_err (fun _ => trusted_time_invalid_row) (validate_trusted_time statement) in
    let? digest := ok_or (document_digest TRUSTED_TIME_STATEMENT_SCHEMA statement) trusted_time_invalid_row in
    Ok (mkTimeContext statement digest).

(** [verify_constraint]; the descriptor is opaque, its validation a
    parameter. *)
Class ConstraintDescriptor `{ReportTypes} := {
  descriptor_valid : ExecutionConstraintDescriptor -> bool;
  descriptor_canon :: Canon ExecutionConstraintDescriptor
}.
Definition EXECUTION_CONSTRAINT_SCHEMA : bytes := b_ "amiss/scanner-execution-constraint".

Definition verify_constraint `{HH : Hashes} {HL : HashLaws HH} `{ConstraintDescriptor}
    (descriptor : ExecutionConstraintDescriptor) (trust_source : RequestTrust.t) : res ConstraintContext ErrorDetail :=
  let invalid := mkErrorDetail AnalysisErrorCode.ConfigurationInvalid None None None None in
  if negb (descriptor_valid descriptor) then Err invalid
  else
    let? digest := ok_or (document_digest EXECUTION_CONSTRAINT_SCHEMA descriptor) invalid in
    Ok (mkConstraintContext descriptor digest trust_source).

Definition verify_debt (input : DebtInput) (repository : option RepositoryIdentity.t) (target_ref : option bytes)
    (floor : option FloorInput) (instant : bytes) (item_limit : u64) : res unit ErrorDetail :=
  let snapshot := dbin_snapshot input in
  let? _ := verify_item_limit DebtItems (len (ds_items snapshot)) item_limit in
  let? floor := ok_or floor binding_mismatch_row in
  let bound :=
    identity_matches (ds_repository snapshot) (ds_ref_name snapshot) repository target_ref
    && bool_decide (ds_organization_floor_digest snapshot = fli_digest floor)
    && bytes_leb (ds_created_at snapshot) instant
    && forallb (fun item =>
         bytes_leb (dbi_created_at item) instant
         && existsb (bytes_eqb (dbi_owner item)) (of_authorized_debt_owners (fli_floor floor))) (ds_items snapshot) in
  if bound then Ok tt else Err binding_mismatch_row.

Definition verify_waiver (input : WaiverInput) (repository : option RepositoryIdentity.t) (target_ref : option bytes)
    (floor : option FloorInput) (instant : bytes) (item_limit : u64) : res unit ErrorDetail :=
  let bundle := wvin_bundle input in
  let? _ := verify_item_limit WaiverItems (len (wb_items bundle)) item_limit in
  let? floor := ok_or floor binding_mismatch_row in
  let bound :=
    identity_matches (wb_repository bundle) (wb_ref_name bundle) repository target_ref
    && bool_decide (wb_organization_floor_digest bundle = fli_digest floor)
    && bytes_leb (wb_created_at bundle) instant in
  if bound then Ok tt else Err binding_mismatch_row.

(** ** A floor only tightens *)

Lemma git_get_set field value limits other :
  git_get other (git_set field value limits) = if decide (other = field) then value else git_get other limits.
Proof. by destruct other. Qed.

Lemma slot_get_set slot value limits other :
  slot_get other (slot_set slot value limits) = if decide (other = slot) then value else slot_get other limits.
Proof.
  destruct slot as [field|field], other as [other|other]; cbn [slot_set slot_get fst snd].
  - destruct (decide (other = field)) as [->|Hne]; [by rewrite decide_True|]. rewrite decide_False; [done|congruence].
  - by rewrite decide_False.
  - by rewrite decide_False.
  - rewrite git_get_set. destruct (decide (other = field)) as [->|Hne]; [by rewrite decide_True|].
    rewrite decide_False; [done|congruence].
Qed.

(** The maxima the rows name for a field. *)
Definition maxima (slot : Slot.t) (rows : list ResourceLimit) : list u64 :=
  omap (fun row => if decide (resource_slot (rl_resource row) = Some slot) then Some (unsigned_maximum (rl_maximum row))
                   else None) rows.

Lemma tighten_get slot row limits :
  slot_get slot (tighten limits row) = fold_left Z.min (maxima slot [row]) (slot_get slot limits).
Proof.
  unfold tighten, maxima. cbn [omap list_omap]. destruct (resource_slot (rl_resource row)) as [slot'|] eqn:E.
  - rewrite slot_get_set. destruct (decide (slot = slot')) as [->|Hne].
    + by rewrite decide_True.
    + rewrite decide_False; [done|congruence].
  - by rewrite decide_False.
Qed.

(** a floor's resource limits only tighten. Each limit of the scanner and
    of the Git reader becomes the least of its built-in value and of every
    maximum the floor names for it, whatever the order of the rows, and no other
    row touches it. *)
Theorem tightened_exact scan git floor slot :
  slot_get slot (tightened_limits scan git floor) =
    fold_left Z.min (maxima slot (of_resource_limits floor)) (slot_get slot (scan, git)) /\
  slot_get slot (tightened_limits scan git floor) <= slot_get slot (scan, git).
Proof.
  assert (forall rows limits, slot_get slot (fold_left tighten rows limits) =
            fold_left Z.min (maxima slot rows) (slot_get slot limits)) as Hall.
  { induction rows as [|row rows IH]; intros limits; [done|]. cbn [fold_left]. rewrite IH, tighten_get.
    rewrite <- fold_left_app. f_equal. unfold maxima. cbn [omap list_omap]. by destruct (decide _). }
  unfold tightened_limits. rewrite Hall. split; [done|]. generalize (slot_get slot (scan, git)).
  induction (maxima slot (of_resource_limits floor)) as [|x l IH]; intros z; cbn [fold_left]; [lia|].
  specialize (IH (Z.min z x)). lia.
Qed.

(** ** A candidate policy that weakens nothing *)

(** What the candidate keeps of one include. *)
Definition include_kept (base candidate : DocumentInclude) : Prop :=
  inc_path candidate = inc_path base /\ inc_kind candidate = inc_kind base /\
  inc_suffix candidate = inc_suffix base /\
  (is_Some (inc_adapter base) -> inc_adapter candidate = inc_adapter base).

(** The candidate policy promises at least what the base policy promised. *)
Record no_weaker (base candidate : option ScannerPolicy) : Prop := {
  nw_includes : forall include, include ∈ side_includes base ->
    exists kept, kept ∈ side_includes candidate /\ include_kept include kept;
  nw_inventory : forall member, member ∈ side_inventory base -> member ∈ side_inventory candidate;
  nw_assertions : forall assertion, assertion ∈ side_assertions base ->
    exists kept, kept ∈ side_assertions candidate /\
      pa_document kept = pa_document assertion /\ pa_name kept = pa_name assertion;
  nw_aliases : forall alias, alias ∈ policy_aliases base -> alias ∈ policy_aliases candidate;
  nw_renderers : forall pinned, (policy ← base; sp_anchor_renderers policy) = Some pinned ->
    exists pin, (policy ← candidate; sp_anchor_renderers policy) = Some pin /\ forall name, name ∈ pin -> name ∈ pinned;
  nw_dispositions : forall kind strength, (kind, strength) ∈ raised base ->
    exists now, (kind, now) ∈ raised candidate /\ Disposition.rank strength <= Disposition.rank now
}.

Lemma omap_nil {A B} (f : A -> option B) (l : list A) : omap f l = [] <-> forall x, x ∈ l -> f x = None.
Proof.
  induction l as [|x l IH].
  { split; [|done]. intros _ x Hx. by apply elem_of_nil in Hx. }
  cbn [omap list_omap]. destruct (f x) eqn:E.
  - split; [done|]. intros H. specialize (H x ltac:(by left)). congruence.
  - rewrite IH. split; intros H y; [|intros Hy; apply H; by right]. intros [->|Hy]%elem_of_cons; [done|by apply H].
Qed.

Lemma filter_map_nil {A B} (f : A -> B) (p : A -> bool) (l : list A) :
  map f (List.filter (fun x => negb (p x)) l) = [] <-> forall x, x ∈ l -> p x = true.
Proof.
  induction l as [|x l IH].
  { split; [|done]. intros _ x Hx. by apply elem_of_nil in Hx. }
  cbn [List.filter]. destruct (p x) eqn:E; cbn [negb].
  - rewrite IH. split; intros H y; [|intros Hy; apply H; by right]. intros [->|Hy]%elem_of_cons; [done|by apply H].
  - split; [done|]. intros H. specialize (H x ltac:(by left)). congruence.
Qed.

Lemma elem_bt_collect {K V} `{OrdLaws K} (rows : list (K * V)) m k :
  k ∈ bt_keys (bt_collect rows m) <-> k ∈ map fst rows \/ k ∈ bt_keys m.
Proof.
  revert m. induction rows as [|[k0 v0] rows IH]; intros m; cbn [map fst].
  { cbn. rewrite elem_of_nil. naive_solver. }
  change (bt_collect ((k0, v0) :: rows) m) with (bt_collect rows (bt_insert k0 v0 m)). rewrite IH, elem_of_cons.
  unfold bt_insert. rewrite elem_bt_upd. naive_solver.
Qed.

Lemma map_fst_unit {K} (l : list K) : map fst (map (fun k => (k, tt)) l) = l.
Proof. rewrite map_map. apply map_id. Qed.

Lemma bset_keys {K} `{OrdLaws K} (l : list K) k : k ∈ bt_keys (bset_from l) <-> k ∈ l.
Proof. unfold bset_from. rewrite elem_bt_collect, map_fst_unit. cbn. rewrite elem_of_nil. naive_solver. Qed.

Lemma bset_mem {K} `{OrdLaws K} (l : list K) k : bt_mem k (bset_from l) = true <-> k ∈ l.
Proof. rewrite bt_mem_true by (apply bt_collect_wf, bt_nil_wf). apply bset_keys. Qed.

(** What validation gives the comparison. *)
Lemma validated_policy policy :
  validate_scanner_policy policy = Ok tt ->
  NoDup (map include_key (sp_document_includes policy)) /\
  NoDup (map fd_finding_kind (sp_finding_dispositions policy)).
Proof.
  unfold validate_scanner_policy. cbv zeta. rewrite !res_unit_bind.
  intros (_ & _ & Hi & _ & _ & _ & _ & _ & _ & Hd & _). split.
  - by apply (sorted_set_NoDup include_key) in Hi.
  - apply (sorted_set_NoDup (fun row => promotable_str (fd_finding_kind row))) in Hd.
    rewrite <- (map_map fd_finding_kind promotable_str) in Hd. by apply NoDup_fmap_1 in Hd.
Qed.

Lemma map_nil {A B} (f : A -> B) (l : list A) : map f l = [] <-> l = [].
Proof. by destruct l. Qed.

(** ** Each comparison *)

Lemma existsb_bytes_elem x (l : list bytes) : existsb (bytes_eqb x) l = true <-> x ∈ l.
Proof.
  rewrite existsb_exists. split.
  - intros (y & Hin & E). apply bytes_eqb_eq in E as ->. by apply list_elem_of_In.
  - intros Hin. exists x. split; [by apply list_elem_of_In|by apply bytes_eqb_eq].
Qed.

Lemma include_weakening_None base candidate :
  include_key candidate = include_key base -> include_weakening base (Some candidate) = None <-> include_kept base candidate.
Proof.
  unfold include_key, include_kept. intros [= Ep Ek].
  assert (inc_kind candidate = inc_kind base) as Ek' by (by destruct (inc_kind candidate), (inc_kind base)).
  unfold include_weakening. case_bool_decide as Hs; cbn [negb].
  - destruct (inc_adapter base) as [adapter|].
    + case_bool_decide as Ha; cbn [negb].
      * split; [intros _; by split_and!|done].
      * split; [done|]. intros (_ & _ & _ & H). by destruct Ha; apply H.
    + split; [|done]. intros _. split_and!; try done.
  - split; [done|]. intros (_ & _ & H & _). by destruct Hs.
Qed.

Lemma elem_keyed {A K} (key : A -> K) (l : list A) k x :
  (k, x) ∈ map (fun y => (key y, y)) l <-> x ∈ l /\ key x = k.
Proof.
  rewrite list_elem_of_fmap. split.
  - intros (y & E & Hin). rewrite (f_equal snd E : x = y), (f_equal fst E : k = key y). done.
  - intros [Hin <-]. by exists x.
Qed.

Lemma includes_weakened_nil base candidate :
  NoDup (map include_key candidate) ->
  includes_weakened base candidate = [] <->
  forall include, include ∈ base -> exists kept, kept ∈ candidate /\ include_kept include kept.
Proof.
  intros Hn. unfold includes_weakened. cbv zeta. rewrite omap_nil.
  set (m := bt_collect _ _).
  assert (forall k row, bt_get k m = Some row <-> row ∈ candidate /\ include_key row = k) as Hm.
  { intros k row. unfold m. rewrite bt_get_collect.
    - apply elem_keyed.
    - intros k' v v' [Hin E]%elem_keyed [Hin' E']%elem_keyed.
      apply (NoDup_fmap_unique include_key candidate); [done..|by rewrite E, E']. }
  split; intros H include Hin; specialize (H include Hin).
  - destruct (bt_get (include_key include) m) as [kept|] eqn:E; [|done]. apply Hm in E as [Hk Ekey].
    exists kept. split; [done|]. apply include_weakening_None; [done|]. by destruct (include_weakening _ _).
  - destruct H as (kept & Hk & Hkept). assert (include_key kept = include_key include) as Ekey
      by (destruct Hkept as (E1 & E2 & _); unfold include_key; by rewrite E1, E2).
    rewrite (proj2 (Hm (include_key include) kept)) by done. by rewrite (proj2 (include_weakening_None include kept Ekey)).
Qed.

Lemma dispositions_weakened_nil base candidate :
  NoDup (map fst candidate) ->
  dispositions_weakened base candidate = [] <->
  forall kind strength, (kind, strength) ∈ base ->
    exists now, (kind, now) ∈ candidate /\ Disposition.rank strength <= Disposition.rank now.
Proof.
  intros Hn. unfold dispositions_weakened. rewrite omap_nil.
  assert (forall kind now, option_map snd (List.find (fun other : FindingKind.t * Disposition.t => bool_decide (other.1 = kind)) candidate) = Some now <->
            (kind, now) ∈ candidate) as Hf.
  { intros kind now. split.
    - destruct (List.find _ candidate) as [[k d]|] eqn:E; [|done]. cbn. intros [= ->].
      apply find_some in E as [Hin Hk]. apply bool_decide_eq_true in Hk as <-. by apply list_elem_of_In.
    - intros Hin. destruct (List.find _ candidate) as [[k d]|] eqn:E.
      + apply find_some in E as [Hin' Hk]. apply bool_decide_eq_true in Hk. cbn in Hk. subst k. cbn. f_equal.
        apply list_elem_of_In in Hin'. pose proof (NoDup_fmap_unique fst candidate _ _ Hn Hin' Hin eq_refl). congruence.
      + exfalso. apply list_elem_of_In in Hin. pose proof (find_none _ _ E _ Hin) as Hx. cbn in Hx.
        by rewrite bool_decide_eq_true_2 in Hx. }
  split.
  - intros H kind strength Hin. specialize (H (kind, strength) Hin). cbn [fst snd] in H.
    destruct (option_map snd _) as [now|] eqn:E; [|done]. apply Hf in E. exists now. split; [done|].
    unfold Disposition.ltb in H. destruct (Z.ltb_spec (Disposition.rank now) (Disposition.rank strength)); [done|lia].
  - intros H [kind strength] Hin. destruct (H kind strength Hin) as (now & Hnow & Hle). apply Hf in Hnow.
    cbn [fst snd]. rewrite Hnow. unfold Disposition.ltb.
    by destruct (Z.ltb_spec (Disposition.rank now) (Disposition.rank strength)); [lia|].
Qed.

Lemma file_weakening_nil base candidate :
  file_weakening base candidate = [] <->
  (forall alias, alias ∈ policy_aliases base -> alias ∈ policy_aliases candidate) /\
  (forall pinned, (policy ← base; sp_anchor_renderers policy) = Some pinned ->
     exists pin, (policy ← candidate; sp_anchor_renderers policy) = Some pin /\ forall name, name ∈ pin -> name ∈ pinned).
Proof.
  unfold file_weakening. cbv zeta. rewrite map_nil.
  set (rules := map _ _).
  assert (rules = [] <-> forall alias, alias ∈ policy_aliases base -> alias ∈ policy_aliases candidate) as Hr.
  { unfold rules. rewrite (filter_map_nil _ (fun alias => existsb (bytes_eqb alias) (policy_aliases candidate))).
    by setoid_rewrite existsb_bytes_elem. }
  clearbody rules. destruct (policy ← base; sp_anchor_renderers policy) as [pinned|].
  2: { rewrite Hr. split; [|by intros []]. intros H. split; [done|]. done. }
  destruct (policy ← candidate; sp_anchor_renderers policy) as [pin|].
  - assert (existsb (fun name => negb (existsb (bytes_eqb name) pinned)) pin = false <->
            forall name, name ∈ pin -> name ∈ pinned) as Hp.
    { rewrite <- not_true_iff_false, existsb_exists. split.
      - intros H name Hin. apply existsb_bytes_elem. destruct (existsb (bytes_eqb name) pinned) eqn:E; [done|].
        exfalso. apply H. exists name. split; [by apply list_elem_of_In|by rewrite E].
      - intros H (name & Hin%list_elem_of_In & E). apply H, existsb_bytes_elem in Hin. by rewrite Hin in E. }
    destruct (existsb _ pin).
    + split; [by intros []%app_eq_nil|]. intros [_ H]. destruct (H pinned eq_refl) as (p & [= <-] & Hsub).
      by apply Hp in Hsub.
    + rewrite Hr. split; [|by intros []]. intros H. split; [done|]. intros p [= <-]. exists pin. split; [done|]. by apply Hp.
  - split; [by intros []%app_eq_nil|]. intros [_ H]. by destruct (H pinned eq_refl) as (p & ? & _).
Qed.

Lemma coverage_reduced_None prefix state : coverage_reduced prefix state = None <-> state = InventoryState.Scanned.
Proof. by destruct state. Qed.

(** C33: the comparison of two policies raises no control finding exactly when
    the (validated) candidate policy weakens nothing the base policy promised
    and every path of either inventory is a scanned candidate document: a
    dropped or narrowed include, a lost adapter binding, a removed inventory
    member, projection assertion or branch alias, a widened renderer pin, a
    lowered disposition and an uncovered path are each reported, and nothing
    else is. *)
Theorem effects_guard `{ReportTypes} base candidate documents :
  (forall policy, pside_policy candidate = Some policy -> validate_scanner_policy policy = Ok tt) ->
  e_controls (effects base candidate documents) = [] <->
  no_weaker (pside_policy base) (pside_policy candidate) /\
  (forall member, member ∈ side_inventory (pside_policy base) ++ side_inventory (pside_policy candidate) ->
     documents member = InventoryState.Scanned).
Proof.
  intros Hv. unfold effects. cbv zeta. cbn [e_controls].
  assert (NoDup (map include_key (side_includes (pside_policy candidate))) /\ NoDup (map fst (raised (pside_policy candidate))))
    as [Hni Hnd].
  { destruct (pside_policy candidate) as [policy|]; cbn; [|by split; constructor].
    destruct (validated_policy policy (Hv policy eq_refl)) as [Hi Hd]. split; [done|]. unfold disposition_rows.
    rewrite map_map. revert Hd. generalize (sp_finding_dispositions policy). intros l.
    induction l as [|row l IH]; cbn; intros Hd; [constructor|]. apply NoDup_cons in Hd as [Hx Hd]. constructor; [|by apply IH].
    intros (y & Hy & Hin)%list_elem_of_fmap. apply Hx. apply list_elem_of_fmap. exists y. split; [|done].
    unfold disposition_row in Hy. cbn in Hy. by destruct (fd_finding_kind row), (fd_finding_kind y). }
  rewrite !app_nil, includes_weakened_nil, dispositions_weakened_nil, file_weakening_nil by done.
  unfold inventory_removed, removed_projection_assertions, inventory_coverage. cbv zeta.
  rewrite (filter_map_nil _ (fun member => bt_mem member _)), (filter_map_nil _ (fun row => bt_mem (pa_document row, pa_name row) _)), omap_nil.
  setoid_rewrite bset_mem. setoid_rewrite elem_bt_collect. setoid_rewrite map_fst_unit. setoid_rewrite bset_keys.
  split.
  - intros (H1 & H2 & H3 & [H4 H5] & H6 & H7). split.
    + split; try done. intros row Hin. specialize (H3 row Hin). apply list_elem_of_fmap in H3 as (kept & [= E1 E2] & Hk).
      by exists kept.
    + intros member Hin. apply (coverage_reduced_None (b_ "coverage/repository-inventory")).
      assert (member ∈ side_inventory (pside_policy candidate) \/ member ∈ side_inventory (pside_policy base)) as Hin'
        by (apply elem_of_app in Hin; tauto).
      specialize (H7 member Hin'). by destruct (coverage_reduced _ _).
  - intros [[H1 H2 H3 H4 H5 H6] H7]. split_and!; try done.
    + intros row Hin. destruct (H3 row Hin) as (kept & Hk & E1 & E2). apply list_elem_of_fmap. exists kept.
      by rewrite E1, E2.
    + intros member Hin. rewrite (proj2 (coverage_reduced_None _ _)); [done|]. apply H7, elem_of_app. tauto.
Qed.

Definition ex_policy : ScannerPolicy :=
  mkScannerPolicy
    [mkDocumentInclude (b_ "docs") IncludeKind.Document None None;
     mkDocumentInclude (b_ "docs") IncludeKind.Tree (Some (b_ ".txt")) (Some Adapter.PlainAdvisory)]
    None [b_ "README.md"] [mkFindingDisposition PromotableFindingKind.InvalidReference PolicyDisposition.Fail]
    (Some [b_ "refs/heads/master"]) None None.
Definition ex_narrowed : ScannerPolicy :=
  mkScannerPolicy [mkDocumentInclude (b_ "docs") IncludeKind.Tree (Some (b_ ".txt")) None] None [] []
    (Some [b_ "refs/heads/master"]) None None.

Lemma effects_guard_witness :
  no_weaker (Some ex_policy) (Some ex_policy) /\
  ~ no_weaker (Some ex_policy) (Some ex_narrowed).
Proof.
  split.
  - eapply (effects_guard (H := unit_types) (mkPolicySide None (Some ex_policy)) (mkPolicySide None (Some ex_policy))
      (fun _ => InventoryState.Scanned)); [|by vm_compute]. intros policy [= <-]. by vm_compute.
  - intros Hn. enough (e_controls (effects (H := unit_types) (mkPolicySide None (Some ex_policy))
      (mkPolicySide None (Some ex_narrowed)) (fun _ => InventoryState.Scanned)) = []) as E by (by vm_compute in E).
    apply effects_guard; [|by split]. intros policy [= <-]. by vm_compute.
Defined.
