(* ===== verification/EvalFindings.v ===== *)
(** How one finding is built: [finding.rs], [documents.rs] and [control.rs] of
    [crates/amiss-scan/src/evaluate/], with [resolution_kinds] of
    [evaluate.rs] and [navigation_contains] of [semantic/site.rs]. *)
From Stdlib Require Import Strings.Byte Strings.String Lia Sorting.Sorted.
From stdpp Require Import base numbers sorting list.
From S2P Require Import Prelude Codec WireModel WireIdentity OrdMap Observation ScanPath EvalModel.

Definition FINDING_KEY_DOMAIN : bytes := b_ "amiss/scanner-finding-key".
Definition FACT_DOMAIN : bytes := b_ "amiss/scanner-fact".

Record ResolutionKinds := mkResolutionKinds { structural : option FindingKind.t; boundary : option FindingKind.t }.

Definition resolution_kinds (resolution : Resolution.t path) : ResolutionKinds :=
  match resolution with
  | Resolution.Missing _ => mkResolutionKinds (Some FindingKind.ExplicitTargetMissing) None
  | Resolution.TypeMismatch _ => mkResolutionKinds (Some FindingKind.ExplicitTargetTypeMismatch) None
  | Resolution.Invalid _ => mkResolutionKinds None (Some FindingKind.InvalidReference)
  | Resolution.UnsupportedSemantics _ => mkResolutionKinds None (Some FindingKind.UnsupportedReferenceSemantics)
  | Resolution.UnsupportedVersion _ => mkResolutionKinds None (Some FindingKind.UnsupportedVersionScope)
  | Resolution.UnsupportedTarget _ => mkResolutionKinds None (Some FindingKind.UnsupportedTargetKind)
  | Resolution.DeclaredUntracked _ => mkResolutionKinds None (Some FindingKind.TargetDeclaredUntracked)
  | Resolution.Resolved _ | Resolution.External _ => mkResolutionKinds None None
  end.

(** The navigation of a site build. *)
Record SiteNavigation := mkSiteNavigation {
  nav_root : option path; nav_manifest : path; nav_entrypoints : list bytes; nav_reachable : list path
}.

Definition navigation_contains (root : option path) (p : path) : bool :=
  match root with
  | None => true
  | Some root =>
      match strip_prefix root p with
      | Some (b :: _) => beqb b "/"
      | _ => false
      end
  end.

(** One document's reserved governed definitions. *)
Record GovernedSeed := mkGovernedSeed {
  gs_document : path;
  gs_member_count : u64;
  gs_sources : list ControlStateSource;
  gs_representative_span : option (usize * usize);
  gs_representative_display : option SpanDisplay
}.

(** [RepoPathText::try_from(path.as_str()?)]. *)
Definition path_text (p : path) : option bytes :=
  match from_utf8 p with Some text => Path.text_try_from text | None => None end.

(** [str::get(at..)]: only at a character boundary. *)
Definition str_get_from (text : bytes) (at_ : usize) : option bytes :=
  match slice_from text at_ with
  | Some (b :: tail) => if (at_ =? 0) || negb (continuation b) then Some (b :: tail) else None
  | tail => tail
  end.

(** The text before the first byte that ends it. *)
Definition text_before (stop : Byte.byte -> bool) (text : bytes) : bytes :=
  match position stop text with Some at_ => default [] (slice_to text at_) | None => text end.

(** [[&str]::join]. *)
Fixpoint join (separator : bytes) (parts : list bytes) : bytes :=
  match parts with
  | [] => []
  | [part] => part
  | part :: parts => part ++ separator ++ join separator parts
  end.

(** [zip(..).take_while(equal).count()]. *)
Fixpoint shared_prefix (from to : list bytes) : usize :=
  match from, to with
  | a :: from, b :: to => if bytes_eqb a b then 1 + shared_prefix from to else 0
  | _, _ => 0
  end.

(** The spelling [plain] accepts in [relocation_fix]. *)
Definition plain (text : bytes) : bool :=
  nonempty text && negb (is_some (strip_prefix (b_ "/") text))
  && negb (existsb (fun b => existsb (beqb b) (b_ "% ()<>\:")) text).

(** The spelling that leads from the directory [from] to [to]. *)
Definition relative_spelling (from to : list bytes) : option bytes :=
  let shared := shared_prefix from to in
  match slice_from to shared with
  | Some rest => Some (join (b_ "/") (replicate (Z.to_nat (sat_sub (len from) shared)) (b_ "..") ++ rest))
  | None => None
  end.

Definition observation_location (observation : Observation) (side : LocationSide.t) : Location :=
  mkLocation side (Some (o_document observation)) (Some (o_span observation)) (Some (o_display observation)).

(** Step one of the trace. *)
Definition built_in_step (kind : FindingKind.t) (profile : Profile.t) : PolicyStep :=
  mkPolicyStep PolicySource.BuiltIn
    (b_ "scanner-policy-defaults/" ++ FindingKind.as_ref kind ++ b_ "/"
       ++ Profile.as_str (Profile.policy_defaults profile))
    Disposition.Record_ (FindingKind.built_in_disposition kind profile).

(** ** Fixes *)

Section Fixes.
Context `{PD : PercentDecode}.

Definition anchor_fix (observation : Observation) (near : bytes) : option FindingFix :=
  path ← path_text (o_document observation);
  span ← o_fragment_span observation;
  Some (mkFindingFix path span near FixKind.AnchorRespelling).

Definition path_fix (observation : Observation) (near : path) : option FindingFix :=
  span ← o_path_span observation;
  let part := text_before (fun b => beqb b "#") (o_raw_destination observation) in
  missed_bytes ← i_repository_path (o_intent observation);
  tail_at ← checked_sub (len missed_bytes) (len part);
  tail ← slice_from missed_bytes tail_at;
  if negb (bytes_eqb tail part) then None
  else
    separated ←
      (if tail_at =? 0 then Some true
       else
         before ← checked_sub tail_at 1;
         byte ← get missed_bytes before;
         Some (beqb byte "/"));
    if negb separated then None
    else
      near_head ← slice_to near tail_at;
      missed_head ← slice_to missed_bytes tail_at;
      if negb (bytes_eqb near_head missed_head) then None
      else
        text ← from_utf8 near;
        replacement ← str_get_from text tail_at;
        path ← path_text (o_document observation);
        Some (mkFindingFix path span replacement FixKind.PathRespelling).

Definition relocation_fix (observation : Observation) (moved : path) : option FindingFix :=
  span ← o_path_span observation;
  let part := text_before (fun b => beqb b "#" || beqb b "?") (o_raw_destination observation) in
  target ← from_utf8 moved;
  if negb (plain part) || negb (plain target) then None
  else
    let beside := directory (o_document observation) in
    match normalized_path_under beside false part with
    | Ok (reached, _) =>
        if negb (bool_decide (Some reached = i_repository_path (o_intent observation))) then None
        else
          text ← from_utf8 beside;
          let from := List.filter nonempty (Path.segments text) in
          relative ← relative_spelling from (Path.segments target);
          let replacement :=
            if is_some (strip_prefix (b_ "./") part) && negb (is_some (strip_prefix (b_ "../") relative))
            then b_ "./" ++ relative else relative in
          path ← path_text (o_document observation);
          Some (mkFindingFix path span replacement FixKind.PathRelocation)
    | _ => None
    end.

(** The closure [fix] of [missing_fix]. *)
Definition observation_fix (observation : Observation) : option FindingFix :=
  match o_resolution observation with
  | Resolution.Missing (Missing.HeadingAnchorNotFound _ (Some near)) => anchor_fix observation near
  | Resolution.Missing (Missing.PathNotFound _ (Some near) _) => path_fix observation near
  | Resolution.Missing (Missing.PathNotFound _ None (Some moved)) => relocation_fix observation moved
  | _ => None
  end.

Definition missing_fix (candidates : list Observation) : option FindingFix :=
  match candidates with
  | [] => None
  | first :: rest =>
      edit ← observation_fix first;
      if forallb (fun other => bool_decide (observation_fix other = Some edit)) rest then Some edit else None
  end.
End Fixes.

(** ** Findings *)

Section Findings.
Context `{HH : Hashes} {HL : HashLaws HH} `{RT : ReportTypes}.
Context {CK : Canon ReportFindingKeyInput} {CF : Canon FindingFactInput}.

Definition fact (key : ReportFindingKeyInput) (evidence : Evidence.t) : res FindingFact ScanError.t :=
  let input := mkFact evidence (ki_finding_kind key) key in
  let? digest := ok_or (document_digest FACT_DOMAIN input) ScanError.Internal in
  Ok (mkFindingFact input digest).

Definition reference_fact (key : ReportFindingKeyInput) (observation : Observation) (multiplicity : u64) :
    res FindingFact ScanError.t :=
  fact key (Evidence.Reference multiplicity (o_resolution observation)).

Definition simple (kind : FindingKind.t) (scope : FindingKeyScope.t) (attribution : Attribution.t)
    (ids : list Digest.t) (location : Location) (profile : Profile.t) : res Finding ScanError.t :=
  let key_input := mkFindingKeyInput kind scope in
  let? finding_key := ok_or (document_digest FINDING_KEY_DOMAIN key_input) ScanError.Internal in
  let configured := FindingKind.built_in_disposition kind profile in
  Ok (mkFinding key_input finding_key attribution None None 1 ids location configured configured
        [built_in_step kind profile] None None None).

Definition candidate_fact_finding (kind : FindingKind.t) (scope : FindingKeyScope.t) (evidence : Evidence.t)
    (member_count : u64) (location : Location) (profile : Profile.t) : res Finding ScanError.t :=
  let? finding := simple kind scope Attribution.NotApplicable [] location profile in
  let? candidate_fact := fact (fi_key_input finding) evidence in
  Ok (set_member_count member_count (set_candidate_fact (Some candidate_fact) finding)).

(** ** Documents *)

(** The five document findings, one shell. *)
Definition document_finding (kind : FindingKind.t) (p : path) (side : LocationSide.t) (profile : Profile.t) :
    res Finding ScanError.t :=
  simple kind (FindingKeyScope.Document p) Attribution.NotApplicable [] (mkLocation side (Some p) None None) profile.

(** [findings.push(..)] under a condition. *)
Definition push_when (condition : bool) (finding : res Finding ScanError.t) (findings : list Finding) :
    res (list Finding) ScanError.t :=
  if condition then let? finding := finding in Ok (findings ++ [finding]) else Ok findings.

Definition document_findings (document : DocumentInput) (profile : Profile.t) (navigation : option SiteNavigation)
    (findings : list Finding) : res (list Finding) ScanError.t :=
  let p := di_path document in
  if is_some (di_base document) && is_none (di_candidate document) then
    push_when true (document_finding FindingKind.DocumentRemoved p LocationSide.Base profile) findings
  else
    match di_candidate document with
    | None | Some DocumentSide.ExcludedBuiltIn => Ok findings
    | Some DocumentSide.Unsupported =>
        push_when true
          (document_finding FindingKind.UnsupportedDocumentFormat p LocationSide.Candidate profile) findings
    | Some (DocumentSide.Scanned mdx_regions html_regions _) =>
        let? findings := push_when (0 <? mdx_regions)
          (document_finding FindingKind.OpaqueMdxRegion p LocationSide.Candidate profile) findings in
        let? findings := push_when (0 <? html_regions)
          (document_finding FindingKind.OpaqueHtmlRegion p LocationSide.Candidate profile) findings in
        push_when
          (match navigation with
           | None => false
           | Some navigation =>
               navigation_contains (nav_root navigation) p
               && negb (bytes_eqb p (nav_manifest navigation))
               && is_none (binary_search_by (fun q => cmp q p) (nav_reachable navigation))
           end)
          (document_finding FindingKind.UnlinkedDocument p LocationSide.Candidate profile) findings
    end.

(** ** Control findings *)

Definition control_fact_finding (kind : FindingKind.t) (document : path) (rule_id : bytes) (evidence : Evidence.t)
    (member_count : u64) (representative : option (usize * usize) * option SpanDisplay) (profile : Profile.t) :
    res Finding ScanError.t :=
  candidate_fact_finding kind (FindingKeyScope.Control (Some document) rule_id) evidence member_count
    (mkLocation LocationSide.Candidate (Some document) representative.1 representative.2) profile.

Definition governed_finding (seed : GovernedSeed) (profile : Profile.t) : res Finding ScanError.t :=
  let rule_id := b_ "unsupported/governed-claim" in
  let? p :=
    match from_utf8 (gs_document seed) with
    | Some text => let? text := ok_or (Path.text_try_from text) ScanError.Internal in Ok (Some text)
    | None => Ok None
    end in
  let evidence :=
    Evidence.Control None None None
      (Some (mkControlStateInput p rule_id (gs_sources seed) ControlState.Unsupported))
      (Some (gs_document seed)) None rule_id in
  control_fact_finding FindingKind.UnsupportedCapability (gs_document seed) rule_id evidence
    (gs_member_count seed) (gs_representative_span seed, gs_representative_display seed) profile.

Definition control_row (kind : FindingKind.t) (rule_id : bytes) (control_path : option path)
    (control_digests : option Digest.t * option Digest.t) (exception : option ExceptionDiagnostic.t)
    (profile : Profile.t) : res Finding ScanError.t :=
  let scope := FindingKeyScope.Control control_path rule_id in
  let evidence :=
    Evidence.Control control_digests.1 None control_digests.2 None control_path exception rule_id in
  let side := if is_some control_path then LocationSide.Control else LocationSide.Global in
  candidate_fact_finding kind scope evidence 1 (mkLocation side control_path None None) profile.

Definition control_finding (seed : ControlSeed) (policy : Effects) (profile : Profile.t) :
    res Finding ScanError.t :=
  control_row (cs_kind seed) (cs_rule_id seed) (cs_control_path seed)
    (e_base_digest policy, e_candidate_digest policy) None profile.
End Findings.
