(* ===== verification/EvalClaims.v ===== *)
(** Value claims and projections as findings: [crates/amiss-scan/src/claim.rs],
    and [evaluate/claims.rs] and [evaluate/projections.rs] beside it, with the
    outcome types of [projection.rs] and [scanned.rs].

    The document scanner that proves a rewritten claim is a parameter, the
    class [DocumentScanner]. *)
From Stdlib Require Import Strings.Byte Strings.String Lia Sorting.Sorted.
From stdpp Require Import base numbers sorting list.
From S2P Require Import Prelude Codec WireModel WireIdentity OrdMap Observation ScanPath EvalModel Controls EvalFindings.

(** ** Claims *)

Record ValueClaim := mkValueClaim { vc_name : bytes; vc_path : path; vc_line : u64; vc_expected : bytes }.

Module GovernedForm.
Inductive t := Value (claim : ValueClaim) | Projection (name : bytes) | Unknown.
End GovernedForm.

(** [scan_document] with fresh contract resources: the forms of the governed
    definitions it found, or [None] where it fails. *)
Class DocumentScanner := scan_governed : Adapter.t -> bytes -> option (list GovernedForm.t).

Module Moved.
Inductive t := Nowhere | To (line : u64) (words : bytes) | Ambiguous.
End Moved.

Module ClaimMissingReason.
Inductive t := Absent | NotABlob | LfsPointer | LineOutOfRange.
End ClaimMissingReason.

Module ClaimVerdict.
Inductive t :=
  | Attested
  | Broken (observed_digest : Digest.t) (observed : bytes) (moved : Moved.t)
  | TargetMissing (reason : ClaimMissingReason.t).
End ClaimVerdict.

Module ClaimCarrier.
Inductive t := Definition_ | RstComment | AdocComment.

Definition of_adapter (adapter : Adapter.t) : t :=
  match adapter with
  | Adapter.Rst => RstComment
  | Adapter.AsciiDoc => AdocComment
  | Adapter.Markdown | Adapter.Mdx | Adapter.PlainAdvisory => Definition_
  end.

Definition prefix (carrier : t) : bytes :=
  match carrier with Definition_ => [] | RstComment => b_ ".. " | AdocComment => b_ "// " end.

Definition prover (carrier : t) : Adapter.t :=
  match carrier with
  | Definition_ => Adapter.Markdown
  | RstComment => Adapter.Rst
  | AdocComment => Adapter.AsciiDoc
  end.
End ClaimCarrier.

Record ClaimOutcome := mkClaimOutcome {
  co_carrier : ClaimCarrier.t;
  co_document : path;
  co_name : bytes;
  co_span : usize * usize;
  co_display : SpanDisplay;
  co_source_digest : Digest.t;
  co_path : path;
  co_line : u64;
  co_expected_digest : Digest.t;
  co_verdict : ClaimVerdict.t
}.

Definition QUOTE : bytes := [x22].

Section Rewrite.
Context `{DS : DocumentScanner}.

Definition rewrite_text (name path_text : bytes) (line : u64) (observed : bytes) (carrier : ClaimCarrier.t) : bytes :=
  ClaimCarrier.prefix carrier ++ b_ "[amiss:" ++ name ++ b_ "]: <amiss:value?path=" ++ path_text ++ b_ "&line=L"
    ++ fmt_dec line ++ b_ "> " ++ QUOTE ++ observed ++ QUOTE.

Definition rewrite (name : bytes) (p : path) (line : u64) (observed : bytes) (carrier : ClaimCarrier.t) :
    option bytes :=
  observed ← from_utf8 observed;
  if existsb (fun b => beqb b x22 || beqb b "\") observed || has_control observed then None
  else
    path_text ← from_utf8 p;
    let replacement := rewrite_text name path_text line observed carrier in
    governed ← scan_governed (ClaimCarrier.prover carrier) replacement;
    match governed with
    | [GovernedForm.Value claim] =>
        if bytes_eqb (vc_name claim) name && bytes_eqb (vc_path claim) p && (vc_line claim =? line)
           && bytes_eqb (vc_expected claim) observed
        then Some replacement else None
    | _ => None
    end.
End Rewrite.

(** ** Claim groups *)

Record ClaimGroup := mkClaimGroup {
  cg_kind : FindingKind.t;
  cg_carrier : ClaimCarrier.t;
  cg_document : path;
  cg_name : bytes;
  cg_member_count : u64;
  cg_sources : list ControlStateSource;
  cg_representative_span : option (usize * usize);
  cg_representative_display : option SpanDisplay;
  cg_target_path : path;
  cg_line : u64;
  cg_expected_digest : Digest.t;
  cg_observed : ClaimObserved.t;
  cg_observed_digest : option Digest.t;
  cg_observed_line : option bytes;
  cg_moved : Moved.t
}.

(** Equal neighbours with their count. *)
Fixpoint runs (l : list Digest.t) : list ControlStateSource :=
  match l with
  | [] => []
  | d :: l =>
      match runs l with
      | r :: rs =>
          if decide (d = css_digest r) then mkControlStateSource d (css_multiplicity r + 1) :: rs
          else mkControlStateSource d 1 :: r :: rs
      | [] => [mkControlStateSource d 1]
      end
  end.

Definition source_multiplicities (digests : list Digest.t) : list ControlStateSource :=
  runs (sort_by (fun digest => digest) digests).

(** The struct [Keyed] of [claim_groups]. *)
Record Keyed := mkKeyed {
  kd_outcome : ClaimOutcome; kd_kind : FindingKind.t; kd_observed : ClaimObserved.t;
  kd_observed_digest : option Digest.t; kd_observed_line : option bytes; kd_moved : option Moved.t
}.

(** What one outcome contributes; an attested claim contributes nothing. *)
Definition keyed_of (outcome : ClaimOutcome) : option Keyed :=
  match co_verdict outcome with
  | ClaimVerdict.Attested => None
  | ClaimVerdict.Broken observed_digest observed moved =>
      Some (mkKeyed outcome FindingKind.ClaimBroken ClaimObserved.LineDiffers (Some observed_digest) (Some observed)
              (Some moved))
  | ClaimVerdict.TargetMissing reason =>
      Some (mkKeyed outcome FindingKind.ClaimTargetMissing
              (match reason with
               | ClaimMissingReason.Absent => ClaimObserved.TargetAbsent
               | ClaimMissingReason.NotABlob => ClaimObserved.TargetNotABlob
               | ClaimMissingReason.LfsPointer => ClaimObserved.TargetLfsPointer
               | ClaimMissingReason.LineOutOfRange => ClaimObserved.LineOutOfRange
               end) None None None)
  end.

Definition keyed_key (k : Keyed) : path * (bytes * FindingKind.t) :=
  (co_document (kd_outcome k), (co_name (kd_outcome k), kd_kind k)).

(** One group's members as its finding's subject. *)
Definition group_of (members : list Keyed) : option ClaimGroup :=
  let members := stable_sort_by (fun member => co_span (kd_outcome member)) members in
  let sources := source_multiplicities (map (fun member => co_source_digest (kd_outcome member)) members) in
  match members with
  | [] => None
  | representative :: _ =>
      let outcome := kd_outcome representative in
      Some (mkClaimGroup (kd_kind representative) (co_carrier outcome) (co_document outcome) (co_name outcome)
              (len members) sources (Some (co_span outcome)) (Some (co_display outcome)) (co_path outcome)
              (co_line outcome) (co_expected_digest outcome) (kd_observed representative)
              (kd_observed_digest representative) (kd_observed_line representative)
              (default Moved.Nowhere (kd_moved representative)))
  end.

Definition claim_groups (outcomes : list ClaimOutcome) : list ClaimGroup :=
  omap (fun row : (path * (bytes * FindingKind.t)) * list Keyed => group_of row.2)
    (bt_group keyed_key (fun member => member) (omap keyed_of outcomes)).

(** ** Claim findings *)

Section Findings.
Context `{HH : Hashes} {HL : HashLaws HH} `{RT : ReportTypes}.
Context {CK : Canon ReportFindingKeyInput} {CF : Canon FindingFactInput}.

Section Fix.
Context `{DS : DocumentScanner}.

Definition claim_fix (group : ClaimGroup) : option FindingFix :=
  if negb (bool_decide (cg_kind group = FindingKind.ClaimBroken)) || negb (cg_member_count group =? 1) then None
  else
    '(line, words) ←
      match cg_moved group with
      | Moved.To line words => Some (line, words)
      | Moved.Ambiguous => None
      | Moved.Nowhere => option_map (fun words => (cg_line group, words)) (cg_observed_line group)
      end;
    replacement ← rewrite (cg_name group) (cg_target_path group) line words (cg_carrier group);
    span ← cg_representative_span group;
    path ← path_text (cg_document group);
    Some (mkFindingFix path span replacement FixKind.ClaimValueRewrite).

Definition claim_finding (group : ClaimGroup) (profile : Profile.t) : res Finding ScanError.t :=
  let rule_id := b_ "claim/value/" ++ cg_name group in
  let? target_path := ok_or (path_text (cg_target_path group)) ScanError.Internal in
  let evidence :=
    Evidence.Claim (cg_expected_digest group) (cg_line group) (cg_name group) (cg_observed group)
      (cg_observed_digest group) (cg_sources group) target_path in
  let? finding := control_fact_finding (cg_kind group) (cg_document group) rule_id evidence (cg_member_count group)
    (cg_representative_span group, cg_representative_display group) profile in
  Ok (set_fix (claim_fix group) finding).
End Fix.
End Findings.

(** ** Projections *)

Module Verdict.
Inductive t :=
  | Attested
  | Drift (reason : ProjectionObserved.t) (expected_digest observed_digest : option Digest.t)
      (expected_bytes observed_bytes : option u64) (difference : option ProjectionDifference.t).
End Verdict.

(** [Outcome] of [projection.rs]. *)
Record ProjectionOutcome := mkProjectionOutcome {
  po_assertion : ProjectionAssertion;
  po_carrier_digests : list Digest.t;
  po_answered_spans : list (usize * usize);
  po_representative_span : option (usize * usize);
  po_representative_display : option SpanDisplay;
  po_verdict : Verdict.t
}.

Section Projections.
Context `{HH : Hashes} {HL : HashLaws HH} `{RT : ReportTypes}.
Context {CK : Canon ReportFindingKeyInput} {CF : Canon FindingFactInput}.

Definition projection_finding (outcome : ProjectionOutcome) (profile : Profile.t) :
    res (option Finding) ScanError.t :=
  match po_verdict outcome with
  | Verdict.Attested => Ok None
  | Verdict.Drift reason expected_digest observed_digest expected_bytes observed_bytes difference =>
      let assertion := po_assertion outcome in
      let evidence :=
        Evidence.Projection difference expected_bytes expected_digest (pa_name assertion) reason observed_bytes
          observed_digest (pa_projection assertion) (pa_source assertion)
          (source_multiplicities (po_carrier_digests outcome)) in
      let? finding := control_fact_finding FindingKind.ProjectionDrift (pa_document assertion)
        (b_ "claim/projection/" ++ pa_name assertion) evidence 1
        (po_representative_span outcome, po_representative_display outcome) profile in
      Ok (Some finding)
  end.
End Projections.
