(* ===== verification/EvalReferences.v ===== *)
(** Structural aggregation and the comparison findings:
    [crates/amiss-scan/src/evaluate/references.rs]. *)
From Stdlib Require Import Strings.Byte Strings.String Lia Sorting.Sorted.
From stdpp Require Import base numbers sorting list.
From S2P Require Import Prelude Codec WireModel WireIdentity OrdMap Observation Components ScanPath EvalModel EvalFindings.

(** [MissingTag], [TargetTag] and [ResolutionTag]: the variant alone. *)
Module MissingTag.
Inductive t := PathNotFound | LineFragmentOutOfRange | HeadingAnchorNotFound | LabelNotDeclared | SelectionNotFound.
#[global] Instance eq_dec : EqDecision t.
Proof. solve_decision. Defined.
Definition from_missing (missing : Missing.t path) : t :=
  match missing with
  | Missing.PathNotFound _ _ _ => PathNotFound
  | Missing.LineFragmentOutOfRange _ => LineFragmentOutOfRange
  | Missing.HeadingAnchorNotFound _ _ => HeadingAnchorNotFound
  | Missing.LabelNotDeclared => LabelNotDeclared
  | Missing.SelectionNotFound _ => SelectionNotFound
  end.
End MissingTag.

Module TargetTag.
Inductive t := Tree | Blob.
#[global] Instance eq_dec : EqDecision t.
Proof. solve_decision. Defined.
Definition from_target (target : Target.t path) : t :=
  match target with Target.Tree _ => Tree | Target.Blob _ => Blob end.
End TargetTag.

Module ResolutionTag.
Inductive t :=
  | Resolved | Missing | DeclaredUntracked | TypeMismatch | UnsupportedTarget
  | UnsupportedSemantics | UnsupportedVersion | Invalid | External.
#[global] Instance eq_dec : EqDecision t.
Proof. solve_decision. Defined.
Definition from_resolution (resolution : Resolution.t path) : t :=
  match resolution with
  | Resolution.Resolved _ => Resolved
  | Resolution.Missing _ => Missing
  | Resolution.DeclaredUntracked _ => DeclaredUntracked
  | Resolution.TypeMismatch _ => TypeMismatch
  | Resolution.UnsupportedTarget _ => UnsupportedTarget
  | Resolution.UnsupportedSemantics _ => UnsupportedSemantics
  | Resolution.UnsupportedVersion _ => UnsupportedVersion
  | Resolution.Invalid _ => Invalid
  | Resolution.External _ => External
  end.
End ResolutionTag.

Definition failure_shape (resolution : Resolution.t path) :
    ResolutionTag.t * option MissingTag.t * option TargetTag.t :=
  (ResolutionTag.from_resolution resolution,
    match resolution with Resolution.Missing missing => Some (MissingTag.from_missing missing) | _ => None end,
    match resolution with Resolution.TypeMismatch target => Some (TargetTag.from_target target) | _ => None end).

Definition same_failure (base candidate : list Observation) : bool :=
  (len base =? len candidate)
  && match base, candidate with
     | left_ :: _, right_ :: _ =>
         bool_decide (failure_shape (o_resolution left_) = failure_shape (o_resolution right_))
     | _, _ => false
     end.

(** [Iterator::min_by_key]: the first of the least. *)
Fixpoint least_from {A K} `{Ord K} (key : A -> K) (x : A) (l : list A) : A :=
  match l with
  | [] => x
  | y :: l => least_from key (match cmp (key x) (key y) with Gt => y | _ => x end) l
  end.
Definition least_by {A K} `{Ord K} (key : A -> K) (l : list A) : option A :=
  match l with [] => None | x :: l => Some (least_from key x l) end.

Record KeyGroup := mkKeyGroup {
  kg_key : ReportFindingKeyInput; kg_base : list Observation; kg_candidate : list Observation
}.
Abbreviation KeyGroups := (bt Digest.t KeyGroup) (only parsing).

Definition push_base (observation : Observation) (group : KeyGroup) : KeyGroup :=
  mkKeyGroup (kg_key group) (kg_base group ++ [observation]) (kg_candidate group).
Definition push_candidate (observation : Observation) (group : KeyGroup) : KeyGroup :=
  mkKeyGroup (kg_key group) (kg_base group) (kg_candidate group ++ [observation]).

(** [reported_members]. *)
Definition reported_members (group : KeyGroup) : list Digest.t * u64 * Location :=
  let '(members, side) :=
    match kg_candidate group with
    | [] => (kg_base group, LocationSide.Base)
    | candidate => (candidate, LocationSide.Candidate)
    end in
  let ids := sort_by (fun id => id) (map o_id members) in
  let location :=
    match least_by (fun observation => (o_document observation, (o_span observation, o_id observation))) members with
    | None => mkLocation side None None None
    | Some observation => observation_location observation side
    end in
  (ids, len members, location).

Section References.
Context `{HH : Hashes} {HL : HashLaws HH}.

(** The key of an observation whose resolution is of the structural [kind]. *)
Definition structural_key (kind : FindingKind.t) (observation : Observation) : ReportFindingKeyInput :=
  let intent := o_intent observation in
  mkFindingKeyInput kind
    (FindingKeyScope.Reference (o_document observation)
      (mkRepositoryTargetIntent (i_commit_oid intent)
        (option_map (link_digest LINK_FRAGMENT_DOMAIN) (i_fragment intent))
        (match i_repository_path intent with
         | None => RepositoryIntentPath.Empty
         | Some p => RepositoryIntentPath.Path p
         end)
        (option_map (link_digest LINK_QUERY_DOMAIN) (i_query intent))
        (default TargetKind.Either (i_target_kind intent)))
      (o_projection_digest observation) (o_construct observation)).

Context `{RT : ReportTypes} {CK : Canon ReportFindingKeyInput} {CF : Canon FindingFactInput}.

Definition collect_structural (groups : KeyGroups) (observation : Observation) (is_base : bool) :
    res (KeyGroups * option Digest.t) ScanError.t :=
  match structural (resolution_kinds (o_resolution observation)) with
  | None => Ok (groups, None)
  | Some kind =>
      let key := structural_key kind observation in
      let? digest := ok_or (document_digest FINDING_KEY_DOMAIN key) ScanError.Internal in
      Ok (bt_upd digest
            (fun group =>
               (if is_base then push_base else push_candidate) observation (default (mkKeyGroup key [] []) group))
            groups,
          Some digest)
  end.

Fixpoint collect_all (groups : KeyGroups) (l : list Observation) (is_base : bool) : res KeyGroups ScanError.t :=
  match l with
  | [] => Ok groups
  | observation :: l =>
      let? row := collect_structural groups observation is_base in
      collect_all row.1 l is_base
  end.

(** The adoption projection. *)
Definition structural_fact (row : Digest.t * KeyGroup) : res (Digest.t * (u64 * Digest.t)) ScanError.t :=
  let '(digest, group) := row in
  let? first := ok_or (head (kg_candidate group)) ScanError.Internal in
  let multiplicity := len (kg_candidate group) in
  let input :=
    mkFact (Evidence.Reference multiplicity (o_resolution first)) (ki_finding_kind (kg_key group)) (kg_key group) in
  let? fact_digest := ok_or (document_digest FACT_DOMAIN input) ScanError.Internal in
  Ok (digest, (multiplicity, fact_digest)).

Definition structural_facts (observations : list Observation) :
    res (bt Digest.t (u64 * Digest.t)) ScanError.t :=
  let? groups := collect_all [] observations false in
  res_map structural_fact groups.

(** The body of the first loop of [structural_findings]. *)
Definition collect_comparison (groups : KeyGroups) (comparison : Comparison) : res KeyGroups ScanError.t :=
  let? row :=
    match cm_candidate comparison with
    | Some observation => collect_structural groups observation false
    | None => Ok (groups, None)
    end in
  let '(groups, collected) := row in
  let continued :=
    match cm_outcome comparison with
    | Outcome.Exact | Outcome.Candidate => collected
    | _ => None
    end in
  let? groups := collect_all groups (cm_alternatives_candidate comparison) false in
  let? groups :=
    match cm_base comparison with
    | None => Ok groups
    | Some base =>
        let kind := structural (resolution_kinds (o_resolution base)) in
        let held :=
          digest ← continued;
          group ← bt_get digest groups;
          if bool_decide (Some (ki_finding_kind (kg_key group)) = kind) then Some (digest, group) else None in
        match held with
        | Some (digest, group) => Ok (bt_insert digest (push_base base group) groups)
        | None =>
            let? row := collect_structural groups base true in
            Ok row.1
        end
    end in
  collect_all groups (cm_alternatives_base comparison) true.

Fixpoint collect_comparisons (groups : KeyGroups) (comparisons : list Comparison) : res KeyGroups ScanError.t :=
  match comparisons with
  | [] => Ok groups
  | comparison :: comparisons =>
      let? groups := collect_comparison groups comparison in
      collect_comparisons groups comparisons
  end.

(** A side's fact: its first member's, with the side's count. *)
Definition members_fact (key : ReportFindingKeyInput) (members : list Observation) :
    res (option FindingFact) ScanError.t :=
  match members with
  | [] => Ok None
  | observation :: _ =>
      let? fact := reference_fact key observation (len members) in
      Ok (Some fact)
  end.

Definition group_attribution (base candidate : list Observation) : Attribution.t :=
  match base, candidate with
  | [], _ :: _ => Attribution.Introduced
  | _ :: _, [] => Attribution.Resolved
  | _ :: _, _ :: _ => if same_failure base candidate then Attribution.PreExisting else Attribution.Unknown
  | [], [] => Attribution.NotApplicable
  end.

Definition resolved_step : PolicyStep :=
  mkPolicyStep PolicySource.ResolvedProjection (b_ "resolved-projection") Disposition.Record_ Disposition.Record_.

Section Fixes.
Context `{PD : PercentDecode}.

(** The body of the second loop: one group's finding. *)
Definition group_finding (profile : Profile.t) (row : Digest.t * KeyGroup) : res (option Finding) ScanError.t :=
  let '(digest, group) := row in
  let kind := ki_finding_kind (kg_key group) in
  let? base_fact := members_fact (kg_key group) (kg_base group) in
  let? candidate_fact := members_fact (kg_key group) (kg_candidate group) in
  let attribution := group_attribution (kg_base group) (kg_candidate group) in
  if bool_decide (attribution = Attribution.NotApplicable) then Ok None
  else
    let '(ids, member_count, location) := reported_members group in
    let resolved := bool_decide (attribution = Attribution.Resolved) in
    let configured := if resolved then Disposition.Record_ else FindingKind.built_in_disposition kind profile in
    Ok (Some (mkFinding (kg_key group) digest attribution base_fact candidate_fact member_count ids location
                configured configured
                (if resolved then [resolved_step] else [built_in_step kind profile])
                None None (missing_fix (kg_candidate group)))).

(** [structural_findings]: what is appended to [findings]. *)
Definition structural_findings (comparisons : list Comparison) (profile : Profile.t) (findings : list Finding) :
    res (list Finding) ScanError.t :=
  let? groups := collect_comparisons [] comparisons in
  let? rows := res_map (group_finding profile) groups in
  Ok (findings ++ omap (fun row => row) rows).
End Fixes.

(** ** Comparisons *)

Definition comparison_kind (comparison : Comparison) : option FindingKind.t :=
  if bool_decide (cm_outcome comparison = Outcome.None) && is_none (cm_candidate comparison)
  then Some FindingKind.ExplicitReferenceRemoved
  else if bool_decide (cm_outcome comparison = Outcome.Ambiguous)
  then Some FindingKind.ObservationCorrelationAmbiguous
  else
    match cm_impact comparison with
    | Impact.DependencyChangedSubjectUnchanged => Some FindingKind.DependencyChangedSubjectUnchanged
    | Impact.DependencyAndSubjectCochanged => Some FindingKind.DependencyAndSubjectCochanged
    | Impact.SubjectChanged => Some FindingKind.SubjectChanged
    | Impact.None | Impact.ReferenceResolved | Impact.NotApplicable | Impact.ObservationCorrelationAmbiguous
    | Impact.NewObservation | Impact.RemovedObservation => None
    end.

Definition comparison_findings (comparison : Comparison) (profile : Profile.t) (findings : list Finding) :
    res (list Finding) ScanError.t :=
  let primary :=
    match cm_candidate comparison, cm_base comparison with
    | Some observation, _ => Some (observation, LocationSide.Candidate)
    | None, Some observation => Some (observation, LocationSide.Base)
    | None, None => None
    end in
  match primary with
  | None => Ok findings
  | Some (primary, side) =>
      match comparison_kind comparison with
      | None => Ok findings
      | Some kind =>
          let? finding := simple kind (FindingKeyScope.Observation (o_id primary)) Attribution.NotApplicable
            [o_id primary] (observation_location primary side) profile in
          Ok (findings ++ [finding])
      end
  end.
End References.
