(* ===== verification/EvalPolicy.v ===== *)
(** Policy evaluation: [run.rs], [debt.rs] and [waiver.rs] of
    [crates/amiss-scan/src/evaluate/]. From the compared documents and
    observations to the sorted findings, each with its policy trace. *)
From Stdlib Require Import Strings.Byte Strings.String Lia Sorting.Sorted.
From stdpp Require Import base numbers sorting list.
From S2P Require Import Prelude Codec WireModel WireIdentity OrdMap Observation ScanPath EvalModel EvalFindings.
From S2P Require Import Controls EvalControls EvalClaims EvalReferences.

(** ** Inputs *)

(** [SiteDefect] and [SiteEvaluation] of [semantic.rs]. *)
Record SiteDefect `{ReportTypes} := mkSiteDefect {
  sd_id : Digest.t; sd_evidence : Evidence.t; sd_source : option path; sd_member_count : u64
}.
Arguments mkSiteDefect {_}.
Record SiteEvaluation `{ReportTypes} := mkSiteEvaluation {
  se_navigation : option SiteNavigation; se_defects : list SiteDefect
}.
Arguments mkSiteEvaluation {_}.

Record GovernedInputs `{ReportTypes} := mkGovernedInputs {
  gi_site : SiteEvaluation;
  gi_governed : list GovernedSeed;
  gi_claims : list ClaimGroup;
  gi_projections : list ProjectionOutcome;
  gi_translations : list (path * LocationSide.t)
}.
Arguments mkGovernedInputs {_}.

(** ** Ordinary findings *)

Definition is_invalid (resolution : Resolution.t path) : bool :=
  match resolution with Resolution.Invalid _ => true | _ => false end.

(** What one comparison inserts into [invalid_attributions]. *)
Definition invalid_rows (comparison : Comparison) : list (Digest.t * Attribution.t) :=
  match cm_candidate comparison with
  | Some candidate =>
      if is_invalid (o_resolution candidate) then
        [(o_id candidate,
           match cm_outcome comparison with
           | Outcome.Ambiguous => Attribution.Unknown
           | Outcome.Exact | Outcome.Candidate | Outcome.None =>
               match cm_base comparison with
               | Some base =>
                   if is_invalid (o_resolution base)
                      && bool_decide (o_raw_destination_digest base = o_raw_destination_digest candidate)
                   then Attribution.PreExisting else Attribution.Introduced
               | None => Attribution.Introduced
               end
           end)]
      else []
  | None => []
  end
  ++ map (fun candidate => (o_id candidate, Attribution.Unknown))
       (List.filter (fun candidate => is_invalid (o_resolution candidate)) (cm_alternatives_candidate comparison)).

Definition invalid_attributions (comparisons : list Comparison) : bt Digest.t Attribution.t :=
  bt_collect (concat (map invalid_rows comparisons)) [].

(** The candidate occurrences of a comparison. *)
Definition occurrences (comparison : Comparison) : list Observation :=
  option_list (cm_candidate comparison) ++ cm_alternatives_candidate comparison.

Definition boundary_kinds (observation : Observation) : list FindingKind.t :=
  option_list (boundary (resolution_kinds (o_resolution observation)))
  ++ (if Resolution.is_lfs_pointer (o_resolution observation) then [FindingKind.UnsupportedTargetKind] else []).

Definition occurrence_attribution (invalid : bt Digest.t Attribution.t) (observation : Observation) : Attribution.t :=
  if is_invalid (o_resolution observation) then default Attribution.Unknown (bt_get (o_id observation) invalid)
  else Attribution.NotApplicable.

Abbreviation Folded := (bt (FindingKind.t * path) (list Observation)) (only parsing).

(** Steps: a matching rule applies only when strictly raising. *)
Definition raised_for (raised : list (FindingKind.t * Disposition.t)) (kind : FindingKind.t) : option Disposition.t :=
  option_map snd (List.find (fun row => bool_decide (row.1 = kind)) raised).

Section Run.
Context `{RT : ReportTypes}.

Definition current_disposition (finding : Finding) : Disposition.t :=
  match last (fi_steps finding) with Some step => ps_after step | None => fi_configured_disposition finding end.

Definition push_step (step : PolicyStep) (effective : Disposition.t) (finding : Finding) : Finding :=
  set_policy (fi_configured_disposition finding) effective (fi_steps finding ++ [step]) finding.

Definition apply_raise (raised : list (FindingKind.t * Disposition.t)) (source : PolicySource.t) (prefix : bytes)
    (finding : Finding) : Finding :=
  match raised_for raised (ki_finding_kind (fi_key_input finding)) with
  | None => finding
  | Some target =>
      let current := current_disposition finding in
      if Disposition.gtb target current then
        push_step
          (mkPolicyStep source (prefix ++ b_ "/" ++ FindingKind.as_ref (ki_finding_kind (fi_key_input finding)))
             current target)
          (fi_effective_disposition finding) finding
      else finding
  end.

(** The first loop over the findings: the raises of the repository policy and
    of the organization floor. *)
Definition raise_finding (policy : Effects) (finding : Finding) : Finding :=
  if bool_decide (fi_attribution finding = Attribution.Resolved) || is_none (fi_candidate_fact finding) then finding
  else
    let finding := apply_raise (e_raised policy) PolicySource.RepositoryPolicy (b_ "repository") finding in
    let finding := apply_raise (e_floor_raised policy) PolicySource.OrganizationFloor (b_ "floor") finding in
    let configured := current_disposition finding in
    set_policy configured configured (fi_steps finding) finding.

(** The second loop: under [enforce-introduced] a pre-existing failure warns. *)
Definition introduced_step (finding : Finding) : PolicyStep :=
  mkPolicyStep PolicySource.BuiltIn
    (b_ "scanner-policy-defaults/" ++ FindingKind.as_ref (ki_finding_kind (fi_key_input finding))
       ++ b_ "/enforce-introduced")
    Disposition.Fail Disposition.Warn.

Definition introduce_finding (profile : Profile.t) (finding : Finding) : Finding :=
  if bool_decide (profile = Profile.EnforceIntroduced)
     && bool_decide (fi_effective_disposition finding = Disposition.Fail)
     && bool_decide (fi_attribution finding = Attribution.PreExisting)
  then push_step (introduced_step finding) Disposition.Warn finding
  else finding.

(** ** Exceptions *)

Fixpoint targets_from (index : nat) (findings : list Finding) (targets : bt Digest.t nat) : bt Digest.t nat :=
  match findings with
  | [] => targets
  | finding :: findings =>
      targets_from (S index) findings
        (if is_some (fi_candidate_fact finding)
         then bt_upd (fi_finding_key finding) (default index) targets
         else targets)
  end.

Definition exception_targets (findings : list Finding) : bt Digest.t nat := targets_from 0 findings [].

(** The digest of the candidate fact at a target. *)
Definition fact_at (findings : list Finding) (target : nat) : option Digest.t :=
  finding ← findings !! target;
  option_map ff_digest (fi_candidate_fact finding).

Definition debt_diagnostic (item : DebtItem) (context : DebtContext) (current_fact_digest : Digest.t) :
    ExceptionDiagnostic.t :=
  ExceptionDiagnostic.Debt (dbi_accepted_fact_digest item) (dc_adoption_tree context) (dbi_created_at item)
    current_fact_digest (dbi_debt_id item) (dc_digest context) (dbi_expires_at item) (dbi_owner item) (dbi_reason item).

Definition waiver_diagnostic (item : WaiverItem) (bundle_digest : Digest.t) (current_fact_digest : option Digest.t) :
    ExceptionDiagnostic.t :=
  ExceptionDiagnostic.Waiver (wi_authorized_fact_digest item) (wi_candidate_tree item) (wi_created_at item)
    current_fact_digest (wi_expires_at item) (wi_finding_key item) (wi_issuer item) (wi_not_before item)
    (wi_owner item) (wi_reason item) bundle_digest (wi_waiver_id item).

(** [*instant >= at_], on the text of the instants. *)
Definition reached (at_ instant : bytes) : bool := bytes_leb at_ instant.

(** The defects of a selected waiver, in their order of construction. *)
Definition waiver_defects (findings : list Finding) (targets : bt Digest.t nat) (context : WaiverContext)
    (instant : bytes) (item : WaiverItem) : list bytes :=
  let when (condition : bool) (defect : bytes) : list bytes := if condition then [defect] else [] in
  let target := bt_get (wi_finding_key item) targets in
  when (negb (reached (wi_not_before item) instant)) (b_ "not-yet")
  ++ when (reached (wi_expires_at item) instant) (b_ "expired")
  ++ when (negb (existsb (bytes_eqb (wi_issuer item)) (wc_authorized_issuers context))) (b_ "issuer")
  ++ when (negb (existsb (fun kind => bool_decide (kind = fa_finding_kind (wi_authorized_fact item)))
                   (wc_waivable_kinds context))) (b_ "kind")
  ++ when (bytes_eqb (wi_owner item) (wi_issuer item)) (b_ "same-owner")
  ++ match target with
     | None => []
     | Some found =>
         when (match findings !! found with
               | Some finding =>
                   negb (bytes_eqb (FindingKind.as_ref (ki_finding_kind (fi_key_input finding)))
                           (EligibleFindingKind.as_ref (fa_finding_kind (wi_authorized_fact item))))
               | None => false
               end) (b_ "key")
         ++ when (negb (bool_decide (fact_at findings found = Some (wi_authorized_fact_digest item)))) (b_ "fact")
     end.

(** The body of the loop of [apply_valid_exceptions]: the finding, and whether
    it is an overlap. *)
Definition apply_valid_exception (policy : Effects) (debt_valid waiver_valid : bt Digest.t nat) (finding : Finding) :
    Finding * bool :=
  match bt_get (fi_finding_key finding) debt_valid, bt_get (fi_finding_key finding) waiver_valid with
  | Some _, Some _ => (finding, true)
  | Some index, None =>
      match e_debt policy with
      | None => (finding, false)
      | Some context =>
          match dc_items context !! index with
          | None => (finding, false)
          | Some item =>
              let step := mkPolicyStep PolicySource.DebtSnapshot (b_ "debt/" ++ dbi_debt_id item)
                (current_disposition finding) Disposition.Warn in
              let applied := mkDebtApplication (dbi_accepted_fact_digest item) (dc_adoption_tree context)
                (dbi_created_at item) (dbi_debt_id item) (dc_digest context) (dbi_expires_at item)
                (dbi_owner item) (dbi_reason item) in
              (set_exceptions (Some applied) (fi_waiver finding) (push_step step Disposition.Warn finding), false)
          end
      end
  | None, Some index =>
      match e_waiver policy with
      | None => (finding, false)
      | Some context =>
          match wc_items context !! index with
          | None => (finding, false)
          | Some item =>
              if bool_decide (current_disposition finding = Disposition.Fail) then
                let step := mkPolicyStep PolicySource.WaiverBundle (b_ "waiver/" ++ wi_waiver_id item)
                  Disposition.Fail Disposition.Warn in
                let applied := mkWaiverApplication (wi_authorized_fact_digest item) (wi_candidate_tree item)
                  (wi_created_at item) (wi_expires_at item) (wi_issuer item) (wi_not_before item) (wi_owner item)
                  (wi_reason item) (wc_digest context) (wi_waiver_id item) in
                (set_exceptions (fi_debt finding) (Some applied) (push_step step Disposition.Warn finding), false)
              else (finding, false)
          end
      end
  | None, None => (finding, false)
  end.

Definition apply_valid_exceptions (findings : list Finding) (policy : Effects)
    (debt_valid waiver_valid : bt Digest.t nat) : list Finding * bool :=
  let rows := map (apply_valid_exception policy debt_valid waiver_valid) findings in
  (map fst rows, existsb snd rows).

Definition exception_overlap_row : ErrorDetail :=
  mkErrorDetail AnalysisErrorCode.ExceptionOverlap None None None None.
End Run.

Section Evaluate.
Context `{HH : Hashes} {HL : HashLaws HH} `{RT : ReportTypes}.
Context {CK : Canon ReportFindingKeyInput} {CF : Canon FindingFactInput}.

(** The body of the loop of [debt_pass], from [index]. *)
Fixpoint debt_loop (findings : list Finding) (targets : bt Digest.t nat) (context : DebtContext) (profile : Profile.t)
    (instant : bytes) (index : nat) (items : list DebtItem) (debt_valid : bt Digest.t nat) (extra : list Finding) :
    res (bt Digest.t nat * list Finding) ScanError.t :=
  match items with
  | [] => Ok (debt_valid, extra)
  | item :: items =>
      let continue_ := debt_loop findings targets context profile instant (S index) items in
      match (target ← bt_get (dbi_finding_key item) targets; fact_at findings target) with
      | None => continue_ debt_valid extra
      | Some current =>
          let expired := reached (dbi_expires_at item) instant in
          let equal := bool_decide (current = dbi_accepted_fact_digest item) in
          let row kind suffix :=
            control_row kind (b_ "debt/" ++ dbi_debt_id item ++ suffix) None (None, Some (dc_digest context))
              (Some (debt_diagnostic item context current)) profile in
          let? extra := push_when expired (row FindingKind.DebtExpired (b_ "/expired")) extra in
          let? extra := push_when (negb equal) (row FindingKind.DebtWorsened (b_ "/fact")) extra in
          continue_ (if negb expired && equal then bt_insert (dbi_finding_key item) index debt_valid else debt_valid)
            extra
      end
  end.

Definition debt_pass (findings : list Finding) (targets : bt Digest.t nat) (policy : Effects) (profile : Profile.t)
    (instant : bytes) (extra : list Finding) : res (bt Digest.t nat * list Finding) ScanError.t :=
  match e_debt policy with
  | None => Ok ([], extra)
  | Some context => debt_loop findings targets context profile instant 0 (dc_items context) [] extra
  end.

(** One [WaiverInvalid] row per defect. *)
Definition waiver_row (context : WaiverContext) (current : option Digest.t) (profile : Profile.t) (item : WaiverItem)
    (suffix : bytes) : res Finding ScanError.t :=
  control_row FindingKind.WaiverInvalid (b_ "waiver/" ++ wi_waiver_id item ++ b_ "/" ++ suffix) None
    (None, Some (wc_digest context)) (Some (waiver_diagnostic item (wc_digest context) current)) profile.

Fixpoint waiver_loop (findings : list Finding) (targets : bt Digest.t nat) (context : WaiverContext)
    (profile : Profile.t) (instant : bytes) (index : nat) (items : list WaiverItem) (waiver_valid : bt Digest.t nat)
    (extra : list Finding) : res (bt Digest.t nat * list Finding) ScanError.t :=
  match items with
  | [] => Ok (waiver_valid, extra)
  | item :: items =>
      let continue_ := waiver_loop findings targets context profile instant (S index) items in
      if negb (bool_decide (wi_candidate_tree item = wc_candidate_tree context)) then continue_ waiver_valid extra
      else
        let target := bt_get (wi_finding_key item) targets in
        let current := (found ← target; fact_at findings found) in
        let defects := waiver_defects findings targets context instant item in
        let? rows := res_map (waiver_row context current profile item) defects in
        continue_
          (if bool_decide (defects = []) && is_some target then bt_insert (wi_finding_key item) index waiver_valid
           else waiver_valid)
          (extra ++ rows)
  end.

Definition waiver_pass (findings : list Finding) (targets : bt Digest.t nat) (policy : Effects) (profile : Profile.t)
    (instant : bytes) (extra : list Finding) : res (bt Digest.t nat * list Finding) ScanError.t :=
  match e_waiver policy with
  | None => Ok ([], extra)
  | Some context => waiver_loop findings targets context profile instant 0 (wc_items context) [] extra
  end.

(** [apply_exceptions]: the treated findings, the defect rows and the errors. *)
Definition apply_exceptions (findings : list Finding) (policy : Effects) (profile : Profile.t) :
    res (list Finding * list Finding * list ErrorDetail) ScanError.t :=
  if is_none (e_debt policy) && is_none (e_waiver policy) then Ok (findings, [], [])
  else
    match e_time policy with
    | None => Ok (findings, [], [])
    | Some time =>
        let instant := tt_evaluation_instant (tc_statement time) in
        let targets := exception_targets findings in
        let? row := debt_pass findings targets policy profile instant [] in
        let '(debt_valid, extra) := row in
        let? row := waiver_pass findings targets policy profile instant extra in
        let '(waiver_valid, extra) := row in
        let '(findings, overlap) := apply_valid_exceptions findings policy debt_valid waiver_valid in
        Ok (findings, extra, if overlap then [exception_overlap_row] else [])
    end.

(** ** The ordinary projection *)

Fixpoint documents_loop (documents : list DocumentInput) (profile : Profile.t) (navigation : option SiteNavigation)
    (findings : list Finding) : res (list Finding) ScanError.t :=
  match documents with
  | [] => Ok findings
  | document :: documents =>
      let? findings := document_findings document profile navigation findings in
      documents_loop documents profile navigation findings
  end.

Definition site_defect_finding (profile : Profile.t) (defect : SiteDefect) : res Finding ScanError.t :=
  candidate_fact_finding FindingKind.SiteBuildDefect (FindingKeyScope.Observation (sd_id defect)) (sd_evidence defect)
    (sd_member_count defect) (mkLocation LocationSide.Candidate (sd_source defect) None None) profile.

(** The inner loop over an observation's boundary kinds. *)
Fixpoint boundary_loop (profile : Profile.t) (attribution : Attribution.t) (observation : Observation)
    (kinds : list FindingKind.t) (folded : Folded) (findings : list Finding) :
    res (Folded * list Finding) ScanError.t :=
  match kinds with
  | [] => Ok (folded, findings)
  | kind :: kinds =>
      if bool_decide (scope (FindingKind.metadata kind) = FindingScope.Document) then
        boundary_loop profile attribution observation kinds
          (bt_upd (kind, o_document observation) (fun held => default [] held ++ [observation]) folded) findings
      else
        let? finding := simple kind (FindingKeyScope.Observation (o_id observation)) attribution [o_id observation]
          (observation_location observation LocationSide.Candidate) profile in
        boundary_loop profile attribution observation kinds folded (findings ++ [finding])
  end.

Fixpoint occurrences_loop (profile : Profile.t) (invalid : bt Digest.t Attribution.t) (l : list Observation)
    (folded : Folded) (findings : list Finding) : res (Folded * list Finding) ScanError.t :=
  match l with
  | [] => Ok (folded, findings)
  | observation :: l =>
      let? row := boundary_loop profile (occurrence_attribution invalid observation) observation
        (boundary_kinds observation) folded findings in
      occurrences_loop profile invalid l row.1 row.2
  end.

Definition folded_finding (profile : Profile.t) (row : (FindingKind.t * path) * list Observation) :
    res Finding ScanError.t :=
  let '((kind, document), members) := row in
  let? representative :=
    ok_or (least_by (fun observation => (o_span observation, o_id observation)) members) ScanError.Internal in
  let ids := sort_by (fun id => id) (map o_id members) in
  let? finding := simple kind (FindingKeyScope.Document document) Attribution.NotApplicable ids
    (observation_location representative LocationSide.Candidate) profile in
  Ok (set_member_count (len members) finding).

Fixpoint comparisons_loop (comparisons : list Comparison) (profile : Profile.t) (findings : list Finding) :
    res (list Finding) ScanError.t :=
  match comparisons with
  | [] => Ok findings
  | comparison :: comparisons =>
      let? findings := comparison_findings comparison profile findings in
      comparisons_loop comparisons profile findings
  end.

Section Fixes.
Context `{PD : PercentDecode}.

Definition ordinary (documents : list DocumentInput) (comparisons : list Comparison) (profile : Profile.t)
    (site : SiteEvaluation) : res (list Finding) ScanError.t :=
  let? findings := documents_loop documents profile (se_navigation site) [] in
  let? defects := res_map (site_defect_finding profile) (se_defects site) in
  let invalid := invalid_attributions comparisons in
  let? row := occurrences_loop profile invalid (concat (map occurrences comparisons)) [] (findings ++ defects) in
  let '(folded, findings) := row in
  let? rows := res_map (folded_finding profile) folded in
  let? findings := structural_findings comparisons profile (findings ++ rows) in
  let? findings := comparisons_loop comparisons profile findings in
  Ok (stable_sort_by fi_finding_key findings).

(** ** Evaluation *)

Definition translation_finding (profile : Profile.t) (row : path * LocationSide.t) : res Finding ScanError.t :=
  simple FindingKind.TranslationDrift (FindingKeyScope.Document row.1) Attribution.NotApplicable []
    (mkLocation row.2 (Some row.1) None None) profile.

Context `{DS : DocumentScanner}.

(** The findings policy treats, in their order of construction. *)
Definition untreated (documents : list DocumentInput) (comparisons : list Comparison) (profile : Profile.t)
    (inputs : GovernedInputs) : res (list Finding) ScanError.t :=
  let? findings := ordinary documents comparisons profile (gi_site inputs) in
  let? governed := res_map (fun seed => governed_finding seed profile) (gi_governed inputs) in
  let? claims := res_map (fun group => claim_finding group profile) (gi_claims inputs) in
  let? projections := res_map (fun outcome => projection_finding outcome profile) (gi_projections inputs) in
  let? translations := res_map (translation_finding profile) (gi_translations inputs) in
  Ok (findings ++ governed ++ claims ++ omap (fun row => row) projections ++ translations).

Definition evaluate_with_site (documents : list DocumentInput) (comparisons : list Comparison) (profile : Profile.t)
    (policy : Effects) (inputs : GovernedInputs) : res (list Finding * list ErrorDetail) ScanError.t :=
  let? findings := untreated documents comparisons profile inputs in
  let findings := map (raise_finding policy) findings in
  let findings := map (introduce_finding profile) findings in
  let? row := apply_exceptions findings policy profile in
  let '(findings, exception_findings, errors) := row in
  let? controls := res_map (fun seed => control_finding seed policy profile) (e_controls policy) in
  Ok (stable_sort_by fi_finding_key (findings ++ exception_findings ++ controls), errors).

Definition evaluate_with_policy (documents : list DocumentInput) (comparisons : list Comparison) (profile : Profile.t)
    (policy : Effects) (governed : list GovernedSeed) (claims : list ClaimGroup) :
    res (list Finding * list ErrorDetail) ScanError.t :=
  evaluate_with_site documents comparisons profile policy
    (mkGovernedInputs (mkSiteEvaluation None []) governed claims [] []).

Definition evaluate (documents : list DocumentInput) (comparisons : list Comparison) (profile : Profile.t) :
    res (list Finding) ScanError.t :=
  let? row := evaluate_with_policy documents comparisons profile default_effects [] [] in
  Ok row.1.
End Fixes.
End Evaluate.
