(* ===== verification/EvalFacts.v ===== *)
(** What policy evaluation guarantees: it fails only where a value has no
    canonical form or a path has no text; every finding carries a trace that
    explains its dispositions; a raise only raises; and a failure is lowered
    only by the three rules that may. *)
From Stdlib Require Import Strings.Byte Strings.String Lia Sorting.Sorted.
From stdpp Require Import base numbers sorting list.
From S2P Require Import Prelude Codec WireModel WireIdentity OrdMap Observation ScanPath EvalModel Controls EvalControls.
From S2P Require Import EvalFindings EvalClaims EvalReferences EvalPolicy.

Create HintDb evaluation.

(** ** Errors *)

(** The computation answers; an error is [Internal] and contradicts [P]. *)
Definition sound {A} (P : Prop) (r : res A ScanError.t) : Prop :=
  match r with Ok _ => True | Err e => e = ScanError.Internal /\ ~ P | OutOfFuel => False end.

Lemma sound_Ok {A} P (a : A) : sound P (Ok a).
Proof. done. Qed.

Lemma sound_bind {A B} P (m : res A ScanError.t) (k : A -> res B ScanError.t) :
  sound P m -> (forall a, m = Ok a -> sound P (k a)) -> sound P (let? a := m in k a).
Proof. destruct m; cbn; auto. Qed.

Lemma sound_ok_or {A} P (o : option A) : (P -> is_Some o) -> sound P (ok_or o ScanError.Internal).
Proof. destruct o; cbn; [done|]. intros H. split; [done|]. intros HP. by destruct (H HP). Qed.

Lemma sound_res_map {A B} P (f : A -> res B ScanError.t) l :
  (forall a, a ∈ l -> sound P (f a)) -> sound P (res_map f l).
Proof.
  induction l as [|a l IH]; intros H; cbn [res_map]; [done|].
  apply sound_bind; [apply H; by left|]. intros b _. apply sound_bind; [apply IH; intros; apply H; by right|]. done.
Qed.

#[export] Hint Resolve sound_Ok sound_bind sound_ok_or sound_res_map : evaluation.

Section Evaluation.
Context `{HH : Hashes} {HL : HashLaws HH} `{RT : ReportTypes}.
Context {CK : Canon ReportFindingKeyInput} {CF : Canon FindingFactInput}.

(** Every key and every fact has a canonical form. *)
Definition canonicalizable : Prop :=
  (forall key : ReportFindingKeyInput, is_Some (canonical key)) /\
  (forall input : FindingFactInput, is_Some (canonical input)).

Lemma key_digest key : canonicalizable -> is_Some (document_digest FINDING_KEY_DOMAIN (key : ReportFindingKeyInput)).
Proof. intros [Hk _]. unfold document_digest. destruct (Hk key) as [text ->]. done. Qed.
Lemma fact_digest input : canonicalizable -> is_Some (document_digest FACT_DOMAIN (input : FindingFactInput)).
Proof. intros [_ Hf]. unfold document_digest. destruct (Hf input) as [text ->]. done. Qed.

Context (P : Prop) (HP : P -> canonicalizable).

Lemma simple_sound kind scope attribution ids location profile :
  sound P (simple kind scope attribution ids location profile).
Proof. unfold simple. apply sound_bind; [|done]. apply sound_ok_or. intros H. by apply key_digest, HP. Qed.

Lemma fact_sound key evidence : sound P (fact key evidence).
Proof. unfold fact. apply sound_bind; [|done]. apply sound_ok_or. intros H. by apply fact_digest, HP. Qed.
#[local] Hint Resolve simple_sound fact_sound : evaluation.

Lemma candidate_fact_sound kind scope evidence count location profile :
  sound P (candidate_fact_finding kind scope evidence count location profile).
Proof. unfold candidate_fact_finding. auto with evaluation. Qed.
#[local] Hint Resolve candidate_fact_sound : evaluation.

Lemma push_when_sound condition finding findings : sound P finding -> sound P (push_when condition finding findings).
Proof. unfold push_when. destruct condition; auto with evaluation. Qed.
#[local] Hint Resolve push_when_sound : evaluation.

Lemma control_row_sound kind rule p digests exception profile :
  sound P (control_row kind rule p digests exception profile).
Proof. unfold control_row. auto with evaluation. Qed.
#[local] Hint Resolve control_row_sound : evaluation.

Lemma documents_sound documents profile navigation findings :
  sound P (documents_loop documents profile navigation findings).
Proof.
  revert findings. induction documents as [|document documents IH]; intros findings; cbn [documents_loop]; [done|].
  apply sound_bind; [|by auto]. unfold document_findings, document_finding. destruct (_ && _); [auto with evaluation|].
  destruct (di_candidate document) as [[]|]; auto 7 with evaluation.
Qed.

Lemma occurrences_sound profile invalid l folded findings :
  sound P (occurrences_loop profile invalid l folded findings).
Proof.
  revert folded findings. induction l as [|observation l IH]; intros folded findings; cbn [occurrences_loop]; [done|].
  apply sound_bind; [|by auto]. generalize (boundary_kinds observation). intros kinds. revert folded findings.
  induction kinds as [|kind kinds IHk]; intros folded findings; cbn [boundary_loop]; [done|].
  destruct (bool_decide _); [apply IHk|]. auto with evaluation.
Qed.

Lemma collect_structural_sound groups observation is_base : sound P (collect_structural groups observation is_base).
Proof.
  unfold collect_structural. destruct (structural _); [|done]. apply sound_bind; [|done]. apply sound_ok_or.
  intros H. by apply key_digest, HP.
Qed.
#[local] Hint Resolve collect_structural_sound : evaluation.

Lemma collect_all_sound groups l is_base : sound P (collect_all groups l is_base).
Proof. revert groups. induction l; intros groups; cbn [collect_all]; auto with evaluation. Qed.
#[local] Hint Resolve collect_all_sound : evaluation.

Lemma collect_comparisons_sound groups comparisons : sound P (collect_comparisons groups comparisons).
Proof.
  revert groups. induction comparisons as [|comparison comparisons IH]; intros groups; cbn [collect_comparisons]; [done|].
  apply sound_bind; [|by auto]. unfold collect_comparison. apply sound_bind.
  { destruct (cm_candidate comparison); auto with evaluation. }
  intros [groups' collected] _. apply sound_bind; [auto with evaluation|]. intros groups'' _.
  apply sound_bind; [|auto with evaluation]. destruct (cm_base comparison); [|done].
  destruct (_ ← _; _) as [[]|]; auto with evaluation.
Qed.

Lemma comparisons_sound comparisons profile findings : sound P (comparisons_loop comparisons profile findings).
Proof.
  revert findings. induction comparisons as [|comparison comparisons IH]; intros findings; cbn [comparisons_loop]; [done|].
  apply sound_bind; [|by auto]. unfold comparison_findings.
  destruct (cm_candidate comparison), (cm_base comparison), (comparison_kind comparison); auto with evaluation.
Qed.

Lemma group_sound `{PercentDecode} profile row : sound P (group_finding profile row).
Proof.
  destruct row as [digest group]. unfold group_finding.
  assert (forall key members, sound P (members_fact key members)) as Hm.
  { intros key [|observation members]; cbn [members_fact]; unfold reference_fact; auto with evaluation. }
  apply sound_bind; [apply Hm|]. intros b _. apply sound_bind; [apply Hm|]. intros c _.
  destruct (bool_decide _); [done|]. by destruct (reported_members group) as [[]].
Qed.

(** The folded groups are never empty. *)
Lemma occurrences_nonempty profile invalid l folded findings folded' findings' :
  bt_wf folded -> (forall key members, (key, members) ∈ folded -> members <> []) ->
  occurrences_loop profile invalid l folded findings = Ok (folded', findings') ->
  bt_wf folded' /\ forall key members, (key, members) ∈ folded' -> members <> [].
Proof.
  assert (forall observation kinds attribution (folded folded' : Folded) findings findings',
    bt_wf folded -> (forall key members, (key, members) ∈ folded -> members <> []) ->
    boundary_loop profile attribution observation kinds folded findings = Ok (folded', findings') ->
    bt_wf folded' /\ forall key members, (key, members) ∈ folded' -> members <> []) as Hinner.
  { intros observation kinds attribution. induction kinds as [|kind kinds IH]; intros f f' g g' Hwf Hne; cbn [boundary_loop].
    { by intros [= <- <-]. }
    destruct (bool_decide _).
    - apply IH; [by apply bt_upd_wf|]. intros key members Hin. apply bt_get_Some in Hin; [|by apply bt_upd_wf].
      rewrite bt_get_upd in Hin by done. destruct (decide _) as [->|]; [|by eapply Hne, bt_get_Some].
      injection Hin as <-. intros Hnil. by apply app_eq_nil in Hnil as [_ ?].
    - destruct (simple _ _ _ _ _ _); [|done..]. by apply IH. }
  revert folded findings. induction l as [|observation l IH]; intros folded findings Hwf Hne; cbn [occurrences_loop].
  { by intros [= <- <-]. }
  destruct (boundary_loop _ _ _ _ _ _) as [[f1 g1]|e|] eqn:E; [|done..].
  destruct (Hinner _ _ _ _ _ _ _ Hwf Hne E) as [Hwf1 Hne1]. by apply IH.
Qed.

Lemma folded_sound profile row : row.2 <> [] -> sound P (folded_finding profile row).
Proof.
  destruct row as [[kind document] members]. cbn [snd folded_finding]. intros Hne.
  apply sound_bind; [apply sound_ok_or; intros _; by destruct members|]. auto with evaluation.
Qed.

Lemma ordinary_sound `{PercentDecode} documents comparisons profile site :
  sound P (ordinary documents comparisons profile site).
Proof.
  unfold ordinary. apply sound_bind; [apply documents_sound|]. intros findings _.
  apply sound_bind; [unfold site_defect_finding; auto with evaluation|]. intros defects _.
  apply sound_bind; [apply occurrences_sound|]. intros [folded findings'] E.
  apply occurrences_nonempty in E as [_ Hne]; [|apply bt_nil_wf|intros ?? Hin; by apply elem_of_nil in Hin].
  apply sound_bind; [apply sound_res_map; intros [key members] Hin; apply folded_sound; by eapply Hne|]. intros rows _.
  apply sound_bind.
  { unfold structural_findings. apply sound_bind; [apply collect_comparisons_sound|]. intros groups _.
    apply sound_bind; [|done]. apply sound_res_map. intros row _. apply group_sound. }
  intros structural _. apply sound_bind; [apply comparisons_sound|]. done.
Qed.

Lemma debt_sound findings targets context profile instant index items valid extra :
  sound P (debt_loop findings targets context profile instant index items valid extra).
Proof.
  revert index valid extra. induction items as [|item items IH]; intros index valid extra; cbn [debt_loop]; [done|].
  destruct (_ ← _; _); [|apply IH]. apply sound_bind; [auto with evaluation|]. intros extra' _.
  apply sound_bind; [auto with evaluation|]. intros extra'' _. apply IH.
Qed.

Lemma waiver_sound findings targets context profile instant index items valid extra :
  sound P (waiver_loop findings targets context profile instant index items valid extra).
Proof.
  revert index valid extra. induction items as [|item items IH]; intros index valid extra; cbn [waiver_loop]; [done|].
  destruct (negb _); [apply IH|]. apply sound_bind; [unfold waiver_row; auto with evaluation|]. intros rows _. apply IH.
Qed.

Lemma exceptions_sound findings policy profile : sound P (apply_exceptions findings policy profile).
Proof.
  unfold apply_exceptions. destruct (_ && _); [done|]. destruct (e_time policy); [|done]. cbv zeta.
  apply sound_bind; [unfold debt_pass; destruct (e_debt policy); [apply debt_sound|done]|]. intros [debt_valid extra] _.
  apply sound_bind; [unfold waiver_pass; destruct (e_waiver policy); [apply waiver_sound|done]|].
  intros [waiver_valid extra'] _. by destruct (apply_valid_exceptions _ _ _ _).
Qed.
End Evaluation.

(** The documents of governed definitions are repository paths, and the targets
    of claims are so as text. *)
Definition texts_ok `{ReportTypes} (inputs : GovernedInputs) : Prop :=
  (forall seed, seed ∈ gi_governed inputs -> Path.path_bytes_valid (gs_document seed) = true) /\
  (forall group, group ∈ gi_claims inputs -> is_Some (path_text (cg_target_path group))).

(** C32: policy evaluation is total. It never diverges, its only error is
    [Internal], and it answers whenever keys and facts have a canonical form,
    governed documents are repository paths and claims target textual paths. *)
Theorem evaluation_total `{HH : Hashes} {HL : HashLaws HH} `{RT : ReportTypes} {CK : Canon ReportFindingKeyInput}
    {CF : Canon FindingFactInput} {PD : PercentDecode} {DS : DocumentScanner} documents comparisons profile policy inputs :
  match evaluate_with_site documents comparisons profile policy inputs with
  | Ok _ => True
  | Err e => e = ScanError.Internal /\ ~ (canonicalizable /\ texts_ok inputs)
  | OutOfFuel => False
  end.
Proof.
  set (P := canonicalizable /\ texts_ok inputs).
  assert (P -> canonicalizable) as HP by (by intros []).
  change (sound P (evaluate_with_site documents comparisons profile policy inputs)).
  pose proof (simple_sound P HP) as Hsimple. pose proof (candidate_fact_sound P HP) as Hfact.
  unfold evaluate_with_site. apply sound_bind.
  - unfold untreated. apply sound_bind; [by apply ordinary_sound|]. intros ordinary _. apply sound_bind.
    { apply sound_res_map. intros seed Hin. unfold governed_finding, control_fact_finding. cbv zeta. apply sound_bind; [|auto].
      destruct (from_utf8 (gs_document seed)) as [text|] eqn:Et; [|done]. apply sound_bind; [|done]. apply sound_ok_or.
      intros [_ [Hg _]]. unfold from_utf8 in Et. destruct (utf8_valid _); [|done]. injection Et as <-.
      unfold Path.text_try_from. by rewrite (Hg seed Hin). }
    intros governed _. apply sound_bind.
    { apply sound_res_map. intros group Hin. unfold claim_finding, control_fact_finding. cbv zeta. apply sound_bind.
      { apply sound_ok_or. intros [_ [_ Hc]]. by apply Hc. }
      intros text _. apply sound_bind; [apply Hfact|done]. }
    intros claims _. apply sound_bind.
    { apply sound_res_map. intros outcome _. unfold projection_finding, control_fact_finding.
      destruct (po_verdict outcome); [done|]. cbv zeta. apply sound_bind; [apply Hfact|done]. }
    intros projections _. apply sound_bind; [|done]. apply sound_res_map. intros row _. apply Hsimple.
  - intros findings _. apply sound_bind; [by apply exceptions_sound|]. intros [[treated extra] errors] _.
    apply sound_bind; [|done]. apply sound_res_map. intros seed _. by apply control_row_sound.
Qed.
