(* ===== verification/EvalTrace.v ===== *)
(** The policy trace: what each pass leaves of a finding, and what the whole
    evaluation promises about dispositions. *)
From Stdlib Require Import Strings.Byte Strings.String Lia Sorting.Sorted.
From stdpp Require Import base numbers sorting list.
From S2P Require Import Prelude Codec WireModel WireIdentity OrdMap Observation ScanPath EvalModel Controls EvalControls.
From S2P Require Import EvalFindings EvalClaims EvalReferences EvalPolicy.

Section Trace.
Context `{RT : ReportTypes}.

(** Each step starts where the one before it ended. *)
Fixpoint chained (before : Disposition.t) (steps : list PolicyStep) : Prop :=
  match steps with
  | [] => True
  | step :: steps => ps_before step = before /\ chained (ps_after step) steps
  end.

(** The trace starts from [record], is chained, and ends at the effective
    disposition. *)
Record trace_ok (f : Finding) : Prop := {
  tr_steps : fi_steps f <> [];
  tr_chain : chained Disposition.Record_ (fi_steps f);
  tr_effective : current_disposition f = fi_effective_disposition f
}.

Lemma chained_snoc before steps step :
  chained before (steps ++ [step]) <->
  chained before steps /\ ps_before step = match last steps with Some s => ps_after s | None => before end.
Proof.
  revert before. induction steps as [|s steps IH]; intros before; cbn [app chained]; [naive_solver|].
  rewrite IH. destruct steps as [|s' steps]; [naive_solver|]. cbn [last]. fold (last (s' :: steps)).
  destruct (last (s' :: steps)) eqn:E; [naive_solver|]. by apply last_None in E.
Qed.

(** The parts no pass writes. *)
Record same_subject (f g : Finding) : Prop := {
  ss_key_input : fi_key_input g = fi_key_input f;
  ss_finding_key : fi_finding_key g = fi_finding_key f;
  ss_attribution : fi_attribution g = fi_attribution f;
  ss_base : fi_base_fact g = fi_base_fact f;
  ss_candidate : fi_candidate_fact g = fi_candidate_fact f;
  ss_members : fi_observation_ids g = fi_observation_ids f
}.
#[global] Instance same_subject_refl : Reflexive same_subject.
Proof. by intros f. Qed.
#[global] Instance same_subject_sym : Symmetric same_subject.
Proof. by intros f g []. Qed.
#[global] Instance same_subject_trans : Transitive same_subject.
Proof. intros f g h [] []. split; congruence. Qed.

(** A finding as it is built: no exception, and one step that is the built-in
    default, or the resolved projection for a base-only failure. *)
Record fresh (profile : Profile.t) (f : Finding) : Prop := {
  fr_effective : fi_effective_disposition f = fi_configured_disposition f;
  fr_steps :
    if decide (fi_attribution f = Attribution.Resolved)
    then fi_candidate_fact f = None /\ fi_configured_disposition f = Disposition.Record_ /\ fi_steps f = [resolved_step]
    else fi_configured_disposition f = FindingKind.built_in_disposition (ki_finding_kind (fi_key_input f)) profile /\
         fi_steps f = [built_in_step (ki_finding_kind (fi_key_input f)) profile];
  fr_debt : fi_debt f = None;
  fr_waiver : fi_waiver f = None
}.

Lemma fresh_trace profile f : fresh profile f -> trace_ok f.
Proof.
  intros [He Hs _ _]. destruct (decide _) as [Hr|Hr].
  - destruct Hs as (_ & Hc & Hst). split; rewrite ?Hst; try done. unfold current_disposition. rewrite Hst. by rewrite He, Hc.
  - destruct Hs as [Hc Hst]. split; rewrite ?Hst; try done. unfold current_disposition. rewrite Hst. by rewrite He, Hc.
Qed.

(** ** One pass at a time *)

Lemma current_push step effective f : current_disposition (push_step step effective f) = ps_after step.
Proof. unfold current_disposition, push_step, set_policy. cbn. by rewrite last_snoc. Qed.

Lemma push_chain step effective f :
  fi_steps f <> [] -> chained Disposition.Record_ (fi_steps f) -> ps_before step = current_disposition f ->
  fi_steps (push_step step effective f) <> [] /\ chained Disposition.Record_ (fi_steps (push_step step effective f)).
Proof.
  intros Hne Hc Hb. cbn. split; [by destruct (fi_steps f)|]. apply chained_snoc. split; [done|]. rewrite Hb.
  unfold current_disposition. destruct (last (fi_steps f)) eqn:E; [done|]. by apply last_None in E.
Qed.

(** The greater of a disposition and a rule's, if there is one. *)
Definition raise_to (target : option Disposition.t) (d : Disposition.t) : Disposition.t :=
  match target with Some t => if Disposition.gtb t d then t else d | None => d end.

Lemma raise_to_ge target d : Disposition.rank d <= Disposition.rank (raise_to target d).
Proof.
  unfold raise_to, Disposition.gtb. destruct target as [t|]; [|lia].
  destruct (Z.ltb_spec (Disposition.rank d) (Disposition.rank t)); lia.
Qed.

Lemma raise_to_le target d t : target = Some t -> Disposition.rank t <= Disposition.rank (raise_to target d).
Proof.
  intros ->. unfold raise_to, Disposition.gtb. destruct (Z.ltb_spec (Disposition.rank d) (Disposition.rank t)); lia.
Qed.

Lemma apply_raise_spec rows source prefix f :
  fi_steps f <> [] -> chained Disposition.Record_ (fi_steps f) ->
  let g := apply_raise rows source prefix f in
  fi_steps g <> [] /\ chained Disposition.Record_ (fi_steps g) /\
  current_disposition g = raise_to (raised_for rows (ki_finding_kind (fi_key_input f))) (current_disposition f) /\
  same_subject f g /\ fi_debt g = fi_debt f /\ fi_waiver g = fi_waiver f.
Proof.
  intros Hne Hc. cbv zeta. unfold apply_raise, raise_to. destruct (raised_for _ _) as [target|]; [|done].
  destruct (Disposition.gtb _ _) eqn:E; [|done].
  destruct (push_chain (mkPolicyStep source (prefix ++ b_ "/" ++ FindingKind.as_ref (ki_finding_kind (fi_key_input f)))
              (current_disposition f) target) (fi_effective_disposition f) f Hne Hc eq_refl) as [H1 H2].
  by rewrite current_push.
Qed.

(** What the raises configure. *)
Definition configured_for (policy : Effects) (profile : Profile.t) (f : Finding) : Disposition.t :=
  let kind := ki_finding_kind (fi_key_input f) in
  if decide (fi_attribution f = Attribution.Resolved) then Disposition.Record_
  else if fi_candidate_fact f then
    raise_to (raised_for (e_floor_raised policy) kind)
      (raise_to (raised_for (e_raised policy) kind) (FindingKind.built_in_disposition kind profile))
  else FindingKind.built_in_disposition kind profile.

Lemma raise_spec policy profile f :
  fresh profile f ->
  let g := raise_finding policy f in
  trace_ok g /\ same_subject f g /\ fi_debt g = None /\ fi_waiver g = None /\
  fi_configured_disposition g = configured_for policy profile f /\
  fi_effective_disposition g = fi_configured_disposition g.
Proof.
  intros Hf. pose proof (fresh_trace _ _ Hf) as [Hne Hc He]. destruct Hf as [Hec Hs Hd Hw]. cbv zeta.
  unfold raise_finding, configured_for. case_bool_decide as Hr; cbn [orb].
  { destruct (decide _) as [_|]; [|done]. destruct Hs as (_ & Hcf & _).
    split; [by split|]. by rewrite Hec, Hcf. }
  destruct (decide _) as [|_]; [done|]. destruct Hs as [Hcf Hst].
  destruct (fi_candidate_fact f) as [fact|] eqn:Ef; cbn [is_none].
  2: { split; [by split|]. by rewrite Hec, Hcf. }
  assert (current_disposition f = FindingKind.built_in_disposition (ki_finding_kind (fi_key_input f)) profile) as Hcur
    by (by rewrite He, Hec, Hcf).
  destruct (apply_raise_spec (e_raised policy) PolicySource.RepositoryPolicy (b_ "repository") f Hne Hc)
    as (N1 & C1 & E1 & S1 & D1 & W1).
  set (f1 := apply_raise _ _ _ f) in *.
  destruct (apply_raise_spec (e_floor_raised policy) PolicySource.OrganizationFloor (b_ "floor") f1 N1 C1)
    as (N2 & C2 & E2 & S2 & D2 & W2).
  set (f2 := apply_raise _ _ _ f1) in *. clearbody f1 f2.
  assert (same_subject f f2) as S by (by etrans).
  split; [split; [done|done|]|].
  { unfold current_disposition at 1. cbn. destruct (last (fi_steps f2)) eqn:El; [|by apply last_None in El].
    unfold current_disposition. by rewrite El. }
  split; [by destruct S|]. cbn. split; [congruence|]. split; [congruence|]. split; [|done].
  rewrite E2, (ss_key_input _ _ S1), E1, Hcur. done.
Qed.

(** Whether [enforce-introduced] lets a failure pass as pre-existing. *)
Definition forgiven (profile : Profile.t) (f : Finding) : bool :=
  bool_decide (profile = Profile.EnforceIntroduced) && bool_decide (fi_attribution f = Attribution.PreExisting).

Lemma introduce_spec profile f :
  trace_ok f ->
  let g := introduce_finding profile f in
  trace_ok g /\ same_subject f g /\ fi_debt g = fi_debt f /\ fi_waiver g = fi_waiver f /\
  fi_configured_disposition g = fi_configured_disposition f /\
  fi_effective_disposition g =
    (if bool_decide (fi_effective_disposition f = Disposition.Fail) && forgiven profile f then Disposition.Warn
     else fi_effective_disposition f).
Proof.
  intros [Hne Hc He]. cbv zeta. unfold introduce_finding, forgiven.
  case_bool_decide as Hp; cbn [andb]; [|by rewrite andb_false_r].
  case_bool_decide as Hf; cbn [andb]; [|done].
  case_bool_decide as Ha; [|done].
  destruct (push_chain (introduced_step f) Disposition.Warn f Hne Hc) as [H1 H2]; [cbn; congruence|].
  split; [split; [done|done|by rewrite current_push]|]. done.
Qed.

(** The item a valid exception names. *)
Definition debt_item (policy : Effects) (index : nat) : option DebtItem :=
  match e_debt policy with Some context => dc_items context !! index | None => None end.
Definition waiver_item (policy : Effects) (index : nat) : option WaiverItem :=
  match e_waiver policy with Some context => wc_items context !! index | None => None end.

(** What a valid exception does. *)
Definition excepted (policy : Effects) (debt_valid waiver_valid : bt Digest.t nat) (f : Finding) : option Disposition.t :=
  match bt_get (fi_finding_key f) debt_valid, bt_get (fi_finding_key f) waiver_valid with
  | Some _, Some _ | None, None => None
  | Some index, None =>
      if debt_item policy index then Some Disposition.Warn else None
  | None, Some index =>
      if waiver_item policy index
      then if decide (current_disposition f = Disposition.Fail) then Some Disposition.Warn else None
      else None
  end.

Lemma exception_spec policy debt_valid waiver_valid f :
  trace_ok f ->
  let g := (apply_valid_exception policy debt_valid waiver_valid f).1 in
  trace_ok g /\ same_subject f g /\ fi_configured_disposition g = fi_configured_disposition f /\
  fi_effective_disposition g = default (fi_effective_disposition f) (excepted policy debt_valid waiver_valid f).
Proof.
  intros [Hne Hc He]. cbv zeta. unfold apply_valid_exception, excepted, debt_item, waiver_item.
  destruct (bt_get _ debt_valid) as [i|], (bt_get _ waiver_valid) as [j|]; try done.
  - destruct (e_debt policy) as [context|]; [|done]. cbn.
    destruct (dc_items context !! i) as [item|]; [|done]. cbn [fst].
    destruct (push_chain (mkPolicyStep PolicySource.DebtSnapshot (b_ "debt/" ++ dbi_debt_id item)
                (current_disposition f) Disposition.Warn) Disposition.Warn f Hne Hc eq_refl) as [H1 H2].
    split; [split; [done|done|]|by split]. unfold current_disposition. cbn. by rewrite last_snoc.
  - destruct (e_waiver policy) as [context|]; [|done]. cbn.
    destruct (wc_items context !! j) as [item|]; [|done].
    case_bool_decide as Hf; [rewrite decide_True by done|by rewrite decide_False].
    destruct (push_chain (mkPolicyStep PolicySource.WaiverBundle (b_ "waiver/" ++ wi_waiver_id item)
                Disposition.Fail Disposition.Warn) Disposition.Warn f Hne Hc (eq_sym Hf)) as [H1 H2].
    split; [split; [done|done|]|by split]. unfold current_disposition. cbn. by rewrite last_snoc.
Qed.
End Trace.
