(* ===== verification/EvalStructural.v ===== *)
(** The structural groups: every failure a comparison holds is collected under
    the digest of its key, groups only grow, and each group makes one finding;
    with the lemmas on computations that answer ([yields]). *)
From Stdlib Require Import Strings.Byte Strings.String Lia Sorting.Sorted.
From stdpp Require Import base numbers sets sorting list.
From S2P Require Import Prelude Codec WireModel WireIdentity OrdMap Observation Components ScanPath EvalModel EvalFindings.
From S2P Require Import Controls EvalControls EvalClaims EvalReferences EvalPolicy EvalTrace.

Lemma res_bind_Ok {A B E} (m : res A E) (k : A -> res B E) b :
  (let? a := m in k a) = Ok b <-> exists a, m = Ok a /\ k a = Ok b.
Proof. destruct m; naive_solver. Qed.

(** ** What the answers satisfy *)

Definition yields {A} (Q : A -> Prop) (r : res A ScanError.t) : Prop := forall a, r = Ok a -> Q a.

Lemma yields_bind {A B} (m : res A ScanError.t) (k : A -> res B ScanError.t) (R : A -> Prop) (Q : B -> Prop) :
  yields R m -> (forall a, R a -> yields Q (k a)) -> yields Q (let? a := m in k a).
Proof. intros Hm Hk b (a & Ha & Hb)%res_bind_Ok. by eapply Hk, Hb; apply Hm. Qed.

Lemma yields_any {A B} (m : res A ScanError.t) (k : A -> res B ScanError.t) (Q : B -> Prop) :
  (forall a, m = Ok a -> yields Q (k a)) -> yields Q (let? a := m in k a).
Proof. intros Hk. apply (yields_bind m k (fun a => m = Ok a)); [by intros a|done]. Qed.

Lemma yields_Ok {A} (Q : A -> Prop) a : Q a -> yields Q (Ok a).
Proof. by intros Ha b [= <-]. Qed.

Lemma yields_res_map {A B} (f : A -> res B ScanError.t) (Q : B -> Prop) l :
  (forall a, a ∈ l -> yields Q (f a)) -> yields (Forall Q) (res_map f l).
Proof.
  induction l as [|a l IH]; intros Hf; cbn [res_map]; [by apply yields_Ok|].
  eapply yields_bind; [apply Hf; by left|]. intros b Hb. eapply yields_bind; [apply IH; intros; apply Hf; by right|].
  intros bs Hbs. apply yields_Ok. by constructor.
Qed.

(** [res_map] answers, for each element, its answer. *)
Lemma res_map_elem {A B E} (f : A -> res B E) l bs a :
  res_map f l = Ok bs -> a ∈ l -> exists b, f a = Ok b /\ b ∈ bs.
Proof.
  revert bs. induction l as [|a' l IH]; intros bs H Ha; [by apply elem_of_nil in Ha|]. cbn [res_map] in H.
  apply res_bind_Ok in H as (b & Hb & (bs' & Hbs & [= <-])%res_bind_Ok).
  apply elem_of_cons in Ha as [->|Ha]; [exists b; by split; [|left]|].
  destruct (IH bs' Hbs Ha) as (b' & Hb' & Hin). exists b'. by split; [|right].
Qed.

Section Structural.
Context `{HH : Hashes} {HL : HashLaws HH} `{RT : ReportTypes}.
Context {CK : Canon ReportFindingKeyInput} {CF : Canon FindingFactInput}.

Abbreviation KeyGroups := (bt Digest.t KeyGroup) (only parsing).

(** Each group is under the digest of its key. *)
Definition groups_ok (groups : KeyGroups) : Prop :=
  bt_wf groups /\ forall d g, bt_get d groups = Some g -> document_digest FINDING_KEY_DOMAIN (kg_key g) = Some d.

(** Groups keep their key and their members. *)
Definition grows (groups groups' : KeyGroups) : Prop :=
  forall d g, bt_get d groups = Some g ->
    exists g', bt_get d groups' = Some g' /\ kg_key g' = kg_key g /\ kg_candidate g ⊆ kg_candidate g' /\
      kg_base g ⊆ kg_base g'.
#[local] Instance grows_refl : Reflexive grows.
Proof. intros groups d g Hg. by exists g. Qed.
#[local] Instance grows_trans : Transitive grows.
Proof.
  intros g1 g2 g3 H12 H23 d g Hg. destruct (H12 d g Hg) as (g' & Hg' & Ek & Hc & Hb).
  destruct (H23 d g' Hg') as (g'' & Hg'' & Ek' & Hc' & Hb'). exists g''. split_and!; [done|congruence|set_solver..].
Qed.

(** The group a failure of a candidate observation is in. *)
Definition collected (groups : KeyGroups) (observation : Observation) : Prop :=
  forall kind, structural (resolution_kinds (o_resolution observation)) = Some kind ->
  exists d g, document_digest FINDING_KEY_DOMAIN (structural_key kind observation) = Some d /\
    bt_get d groups = Some g /\ observation ∈ kg_candidate g.

Lemma collected_grows groups groups' observation :
  grows groups groups' -> collected groups observation -> collected groups' observation.
Proof.
  intros Hg Hc kind Hk. destruct (Hc kind Hk) as (d & g & Hd & Hget & Hin).
  destruct (Hg d g Hget) as (g' & Hg' & _ & Hsub & _). exists d, g'. split_and!; [done..|set_solver].
Qed.

(** Replacing one group by a greater one. *)
Lemma upd_grows groups d f :
  groups_ok groups ->
  (forall g, bt_get d groups = Some g ->
     kg_key (f (Some g)) = kg_key g /\ kg_candidate g ⊆ kg_candidate (f (Some g)) /\ kg_base g ⊆ kg_base (f (Some g))) ->
  (bt_get d groups = None -> document_digest FINDING_KEY_DOMAIN (kg_key (f None)) = Some d) ->
  groups_ok (bt_upd d f groups) /\ grows groups (bt_upd d f groups).
Proof.
  intros [Hwf Hok] Hsome Hnone. split; [split; [by apply bt_upd_wf|]|].
  - intros d' g. rewrite bt_get_upd by done. destruct (decide (d' = d)) as [->|]; [|apply Hok]. intros [= <-].
    destruct (bt_get d groups) as [g|] eqn:E; [|by apply Hnone]. destruct (Hsome g eq_refl) as [-> _]. by apply Hok.
  - intros d' g Hg. rewrite bt_get_upd by done. destruct (decide (d' = d)) as [->|]; [|by exists g].
    rewrite Hg. destruct (Hsome g Hg) as (H1 & H2 & H3). by exists (f (Some g)).
Qed.

Lemma collect_structural_spec groups observation is_base :
  groups_ok groups ->
  yields (fun row => groups_ok row.1 /\ grows groups row.1 /\ (is_base = false -> collected row.1 observation))
    (collect_structural groups observation is_base).
Proof.
  intros Hok. unfold collect_structural, collected.
  destruct (structural _) as [kind|]; [|by apply yields_Ok].
  apply yields_any. intros d Hd%ok_or_Ok. apply yields_Ok. cbn [fst].
  destruct (upd_grows groups d (fun group => (if is_base then push_base else push_candidate) observation
              (default (mkKeyGroup (structural_key kind observation) [] []) group)) Hok) as [H1 H2].
  { intros g _. destruct is_base; cbn; set_solver. }
  { intros _. by destruct is_base. }
  split; [done|]. split; [done|]. intros -> k [= <-]. eexists d, _. split; [done|].
  rewrite bt_get_upd by apply Hok. rewrite decide_True by done. split; [done|]. cbn. set_solver.
Qed.

Lemma collect_all_spec groups l is_base :
  groups_ok groups ->
  yields (fun groups' => groups_ok groups' /\ grows groups groups' /\
            (is_base = false -> forall observation, observation ∈ l -> collected groups' observation))
    (collect_all groups l is_base).
Proof.
  revert groups. induction l as [|observation l IH]; intros groups Hok; cbn [collect_all].
  { apply yields_Ok. split_and!; [done..|]. intros _ o Ho. by apply elem_of_nil in Ho. }
  eapply yields_bind; [by apply collect_structural_spec|]. intros [groups1 d] (H1 & H2 & H3).
  intros groups' (H4 & H5 & H6)%IH; [|done]. split; [done|]. split; [by etrans|].
  intros Hb o [->|Ho]%elem_of_cons; [|by apply H6]. eapply collected_grows; [done|by apply H3].
Qed.

Lemma collect_comparison_spec groups comparison :
  groups_ok groups ->
  yields (fun groups' => groups_ok groups' /\ grows groups groups' /\
            forall observation, observation ∈ occurrences comparison -> collected groups' observation)
    (collect_comparison groups comparison).
Proof.
  intros Hok. unfold collect_comparison, occurrences.
  eapply (yields_bind _ _ (fun row => groups_ok row.1 /\ grows groups row.1 /\
            forall o, cm_candidate comparison = Some o -> collected row.1 o)).
  { destruct (cm_candidate comparison) as [o|]; [|by apply yields_Ok].
    intros row (H1 & H2 & H3)%collect_structural_spec; [|done]. split_and!; [done..|]. intros o' [= <-]. by apply H3. }
  intros [groups1 d1] (H1 & H2 & H3). cbn [fst] in *.
  eapply yields_bind; [by apply collect_all_spec|]. intros groups2 (H4 & H5 & H6).
  eapply (yields_bind _ _ (fun groups' => groups_ok groups' /\ grows groups2 groups')).
  { destruct (cm_base comparison) as [base|]; [|by apply yields_Ok]. cbv zeta.
    destruct (_ ← _; _) as [[d g]|] eqn:E.
    - apply yields_Ok. assert (bt_get d groups2 = Some g) as Hg.
      { destruct (match cm_outcome comparison with Outcome.Exact | Outcome.Candidate => _ | _ => _ end) as [d'|]; [|done].
        cbn in E. destruct (bt_get d' groups2) as [g'|] eqn:E'; [|done]. cbn in E.
        by case_bool_decide; [injection E as <- <-|]. }
      apply upd_grows; [done| |congruence]. intros g'. rewrite Hg. intros [= <-]. cbn. split_and!; set_solver.
    - eapply yields_bind; [by apply collect_structural_spec|]. intros row (H7 & H8 & _). by apply yields_Ok. }
  intros groups3 (H7 & H8). intros groups' (H9 & H10 & _)%collect_all_spec; [|done].
  assert (grows groups2 groups') as H11 by (by etrans). split; [done|]. split; [by etrans; [|etrans; [|etrans]]|].
  intros o [Ho|Ho]%elem_of_app.
  - eapply collected_grows; [|apply H3]; [by etrans|]. destruct (cm_candidate comparison); [|by apply elem_of_nil in Ho].
    by apply list_elem_of_singleton in Ho as ->.
  - eapply collected_grows; [done|by apply H6].
Qed.

Lemma collect_comparisons_spec groups comparisons :
  groups_ok groups ->
  yields (fun groups' => groups_ok groups' /\ grows groups groups' /\
            forall comparison observation, comparison ∈ comparisons -> observation ∈ occurrences comparison ->
              collected groups' observation)
    (collect_comparisons groups comparisons).
Proof.
  revert groups. induction comparisons as [|comparison comparisons IH]; intros groups Hok; cbn [collect_comparisons].
  { apply yields_Ok. split_and!; [done..|]. intros c o Hc. by apply elem_of_nil in Hc. }
  eapply yields_bind; [by apply collect_comparison_spec|]. intros groups1 (H1 & H2 & H3).
  intros groups' (H4 & H5 & H6)%IH; [|done]. split; [done|]. split; [by etrans|].
  intros c o [->|Hc]%elem_of_cons Ho; [|by eapply H6]. eapply collected_grows; [done|by apply H3].
Qed.

Lemma groups_ok_nil : groups_ok [].
Proof. split; [apply bt_nil_wf|done]. Qed.

(** ** What a finding says of itself *)

Definition fact_of (f : Finding) (fact : FindingFact) : Prop :=
  document_digest FACT_DOMAIN (ff_input fact) = Some (ff_digest fact) /\
  fa_key_input (ff_input fact) = fi_key_input f /\
  fa_finding_kind (ff_input fact) = ki_finding_kind (fi_key_input f).

(** The key is the digest of the key input; the facts carry their digests, the
    key and the kind. *)
Record identified (f : Finding) : Prop := {
  id_key : document_digest FINDING_KEY_DOMAIN (fi_key_input f) = Some (fi_finding_key f);
  id_base : forall fact, fi_base_fact f = Some fact -> fact_of f fact;
  id_candidate : forall fact, fi_candidate_fact f = Some fact -> fact_of f fact
}.

Lemma same_subject_identified f g : same_subject f g -> identified f -> identified g.
Proof.
  intros [H1 H2 H3 H4 H5 H6] [K B C]. split; unfold fact_of in *; [congruence|..]; rewrite ?H4, ?H5, H1; done.
Qed.

Lemma fact_yields key evidence :
  yields (fun f => document_digest FACT_DOMAIN (ff_input f) = Some (ff_digest f) /\
            fa_key_input (ff_input f) = key /\ fa_finding_kind (ff_input f) = ki_finding_kind key) (fact key evidence).
Proof. unfold fact. apply yields_any. intros d Hd%ok_or_Ok. by apply yields_Ok. Qed.

Lemma members_fact_yields key members :
  yields (fun found => forall f, found = Some f ->
            document_digest FACT_DOMAIN (ff_input f) = Some (ff_digest f) /\
            fa_key_input (ff_input f) = key /\ fa_finding_kind (ff_input f) = ki_finding_kind key)
    (members_fact key members).
Proof.
  unfold members_fact. destruct members as [|o members]; [by apply yields_Ok|].
  eapply yields_bind; [apply fact_yields|]. intros f Hf. apply yields_Ok. by intros g [= <-].
Qed.

Lemma simple_identified kind scope attribution ids location profile :
  yields identified (simple kind scope attribution ids location profile).
Proof. unfold simple. apply yields_any. intros d Hd%ok_or_Ok. by apply yields_Ok. Qed.

Lemma candidate_fact_identified kind scope evidence count location profile :
  yields identified (candidate_fact_finding kind scope evidence count location profile).
Proof.
  unfold candidate_fact_finding. eapply yields_bind; [apply simple_identified|]. intros f [H1 H2 H3].
  eapply yields_bind; [apply fact_yields|]. intros fact Hfact. apply yields_Ok.
  split; [done|by apply H2|]. by intros g [= <-].
Qed.

Context {PD : PercentDecode}.

Lemma group_identified profile d g :
  document_digest FINDING_KEY_DOMAIN (kg_key g) = Some d ->
  yields (fun found => forall f, found = Some f -> identified f) (group_finding profile (d, g)).
Proof.
  intros Hd. unfold group_finding.
  eapply yields_bind; [apply members_fact_yields|]. intros base Hbase.
  eapply yields_bind; [apply members_fact_yields|]. intros candidate Hcand.
  case_bool_decide; [by apply yields_Ok|]. destruct (reported_members g) as [[ids count] location]. apply yields_Ok.
  intros f [= <-]. by split.
Qed.

Lemma reported_ids g observation :
  observation ∈ kg_candidate g -> o_id observation ∈ (reported_members g).1.1.
Proof.
  unfold reported_members. intros Hin. destruct (kg_candidate g) as [|o l]; [by apply elem_of_nil in Hin|]. cbn [fst].
  rewrite sort_by_perm. by apply list_elem_of_fmap_2.
Qed.

(** A group with a candidate member makes a finding with it. *)
Lemma group_reports profile d g found observation :
  group_finding profile (d, g) = Ok found -> observation ∈ kg_candidate g ->
  exists f, found = Some f /\ fi_finding_key f = d /\ fi_key_input f = kg_key g /\
    o_id observation ∈ fi_observation_ids f /\ is_Some (fi_candidate_fact f) /\
    fi_attribution f = group_attribution (kg_base g) (kg_candidate g).
Proof.
  unfold group_finding. intros (base & _ & (candidate & Hc & H)%res_bind_Ok)%res_bind_Ok Ho.
  destruct (kg_candidate g) as [|o l] eqn:El; [by apply elem_of_nil in Ho|].
  cbn [members_fact] in Hc. apply res_bind_Ok in Hc as (fact & _ & [= <-]).
  rewrite bool_decide_eq_false_2 in H by (unfold group_attribution; destruct (kg_base g); [done|by destruct (same_failure _ _)]).
  destruct (reported_members g) as [[ids count] location] eqn:Er. injection H as <-. eexists. split; [done|]. cbn.
  split_and!; try done. assert (ids = (reported_members g).1.1) as -> by (by rewrite Er).
  apply reported_ids. by rewrite El.
Qed.

(** The finding of a structural failure of the candidate. *)
Record reports (kind : FindingKind.t) (observation : Observation) (f : Finding) : Prop := {
  rp_key : document_digest FINDING_KEY_DOMAIN (structural_key kind observation) = Some (fi_finding_key f);
  rp_member : o_id observation ∈ fi_observation_ids f;
  rp_fact : is_Some (fi_candidate_fact f);
  rp_current : fi_attribution f = Attribution.Introduced \/ fi_attribution f = Attribution.PreExisting \/
               fi_attribution f = Attribution.Unknown
}.

Lemma structural_reports comparisons profile findings :
  yields (fun findings' => findings ⊆ findings' /\
            forall comparison observation kind, comparison ∈ comparisons -> observation ∈ occurrences comparison ->
              structural (resolution_kinds (o_resolution observation)) = Some kind ->
              exists f, f ∈ findings' /\ reports kind observation f)
    (structural_findings comparisons profile findings).
Proof.
  unfold structural_findings. eapply yields_bind; [apply collect_comparisons_spec, groups_ok_nil|].
  intros groups ([Hwf Hok] & _ & Hall). apply yields_any. intros rows Hrows. apply yields_Ok. split; [set_solver|].
  intros comparison o kind Hc Ho Hk. destruct (Hall comparison o Hc Ho kind Hk) as (d & g & Hd & Hg & Hin).
  apply bt_get_Some in Hg; [|done]. destruct (res_map_elem _ _ _ _ Hrows Hg) as (found & Hf & Hfound).
  destruct (group_reports profile d g found o Hf Hin) as (f & -> & Ek & _ & Hid & Hfact & Ha). exists f. split.
  - apply elem_of_app. right. apply list_elem_of_omap. by exists (Some f).
  - split; [by rewrite Ek|done|done|]. rewrite Ha. unfold group_attribution.
    destruct (kg_base g), (kg_candidate g); [by apply elem_of_nil in Hin|by left|by apply elem_of_nil in Hin|].
    destruct (same_failure _ _); auto.
Qed.

(** The keys of the structural findings differ from each other. *)
Lemma structural_keys_distinct comparisons profile :
  yields (fun findings => NoDup (map fi_finding_key findings)) (structural_findings comparisons profile []).
Proof.
  unfold structural_findings. eapply yields_bind; [apply collect_comparisons_spec, groups_ok_nil|].
  intros groups ([Hwf _] & _ & _). apply yields_any. intros rows Hrows. apply yields_Ok. cbn [app].
  apply bt_keys_NoDup in Hwf. revert rows Hrows Hwf. unfold bt_keys.
  assert (forall rows, res_map (group_finding profile) groups = Ok rows ->
    map fi_finding_key (omap (fun row => row) rows) `sublist_of` map fst groups) as Hsub.
  { induction groups as [|[d g] groups IH]; intros rows; cbn [res_map].
    { by intros [= <-]. }
    intros (found & Hf & (rows' & Hr & [= <-])%res_bind_Ok)%res_bind_Ok. cbn. destruct found as [f|].
    - cbn. assert (fi_finding_key f = d) as ->; [|by apply sublist_skip, IH].
      unfold group_finding in Hf. apply res_bind_Ok in Hf as (? & _ & (? & _ & H)%res_bind_Ok).
      case_bool_decide; [done|]. destruct (reported_members g) as [[]]. by injection H as <-.
    - by apply sublist_cons, IH. }
  intros rows Hrows Hn. eapply sublist_NoDup; [exact Hn|by apply Hsub].
Qed.
End Structural.
