(* ===== verification/EvalBuilt.v ===== *)
(** Induction over the construction of the findings: a property that the two
    ways of building a finding establish, and the group findings have, holds of
    every finding before policy ([untreated_built]); nothing drops a finding
    already collected ([untreated_reports]). *)
From Stdlib Require Import Strings.Byte Strings.String Lia Sorting.Sorted.
From stdpp Require Import base numbers sets sorting list.
From S2P Require Import Prelude Codec WireModel WireIdentity OrdMap Observation ScanPath EvalModel Controls EvalControls.
From S2P Require Import EvalFindings EvalClaims EvalReferences EvalPolicy EvalTrace EvalStructural.

Lemma bt_collect_row {K V} `{OrdLaws K} (rows : list (K * V)) k v :
  bt_get k (bt_collect rows []) = Some v -> (k, v) ∈ rows.
Proof.
  revert v. induction rows as [|[k' v'] rows IH] using rev_ind; intros v; [done|].
  unfold bt_collect. rewrite fold_left_app. fold (bt_collect rows []). cbn [fold_left fst snd].
  rewrite bt_get_insert by (apply bt_collect_wf, bt_nil_wf). destruct (decide (k = k')) as [->|].
  - intros [= <-]. apply elem_of_app. right. by left.
  - intros Hv. apply elem_of_app. left. by apply IH.
Qed.

(** An occurrence is never attributed as resolved. *)
Lemma occurrence_attribution_current comparisons observation :
  occurrence_attribution (invalid_attributions comparisons) observation <> Attribution.Resolved.
Proof.
  unfold occurrence_attribution. destruct (is_invalid _); [|done].
  destruct (bt_get _ _) as [attribution|] eqn:E; [|done]. apply bt_collect_row in E. cbn.
  apply list_elem_of_In, in_concat in E as (rows & (comparison & <- & _)%in_map_iff & Hin).
  unfold invalid_rows in Hin. apply in_app_or in Hin as [Hin|(c & [= _ <-] & _)%in_map_iff]; [|done].
  destruct (cm_candidate comparison) as [candidate|]; [|done]. destruct (is_invalid _); [|done].
  destruct Hin as [[= _ <-]|[]]. destruct (cm_outcome comparison); try done;
    by destruct (cm_base comparison); [destruct (_ && _)|].
Qed.

Section Built.
Context `{HH : Hashes} {HL : HashLaws HH} `{RT : ReportTypes}.
Context {CK : Canon ReportFindingKeyInput} {CF : Canon FindingFactInput} {PD : PercentDecode}.
Context (profile : Profile.t) (Q : Finding -> Prop).
Context (Hsimple : forall kind scope attribution ids location, attribution <> Attribution.Resolved ->
  yields Q (simple kind scope attribution ids location profile)).
Context (Hfact : forall kind scope evidence count location,
  yields Q (candidate_fact_finding kind scope evidence count location profile)).
Context (Hcount : forall count f, Q f -> Q (set_member_count count f)).
Context (Hfix : forall fix_ f, Q f -> Q (set_fix fix_ f)).
Context (Hgroup : forall d g, document_digest FINDING_KEY_DOMAIN (kg_key g) = Some d ->
  yields (fun found => forall f, found = Some f -> Q f) (group_finding profile (d, g))).

Lemma control_row_built kind rule p digests exception :
  yields Q (control_row kind rule p digests exception profile).
Proof. unfold control_row. apply Hfact. Qed.

Lemma push_when_yields condition finding findings :
  yields Q finding -> Forall Q findings -> yields (Forall Q) (push_when condition finding findings).
Proof.
  intros Hf Hl. unfold push_when. destruct condition; [|by apply yields_Ok].
  eapply yields_bind; [done|]. intros f Hq. apply yields_Ok. apply Forall_app. split; [done|by constructor].
Qed.

Lemma documents_built documents navigation findings :
  Forall Q findings -> yields (Forall Q) (documents_loop documents profile navigation findings).
Proof.
  revert findings. induction documents as [|document documents IH]; intros findings Hf; cbn [documents_loop];
    [by apply yields_Ok|].
  eapply yields_bind; [|exact IH]. unfold document_findings, document_finding.
  destruct (_ && _); [apply push_when_yields; [by apply Hsimple|done]|].
  destruct (di_candidate document) as [[mdx html count| |]|]; try by apply yields_Ok.
  - eapply yields_bind; [apply push_when_yields; [by apply Hsimple|done]|]. intros f1 H1.
    eapply yields_bind; [apply push_when_yields; [by apply Hsimple|done]|]. intros f2 H2.
    apply push_when_yields; [by apply Hsimple|done].
  - apply push_when_yields; [by apply Hsimple|done].
Qed.

Lemma occurrences_built comparisons l folded findings :
  Forall Q findings ->
  yields (fun row => Forall Q row.2)
    (occurrences_loop profile (invalid_attributions comparisons) l folded findings).
Proof.
  assert (forall observation kinds folded findings, Forall Q findings ->
    yields (fun row => Forall Q row.2)
      (boundary_loop profile (occurrence_attribution (invalid_attributions comparisons) observation) observation kinds
         folded findings)) as Hinner.
  { intros observation kinds. induction kinds as [|kind kinds IH]; intros fo fi Hfi; cbn [boundary_loop];
      [by apply yields_Ok|].
    destruct (bool_decide _); [by apply IH|]. eapply yields_bind.
    - apply Hsimple, occurrence_attribution_current.
    - intros f Hf. apply IH, Forall_app. split; [done|by constructor]. }
  revert folded findings. induction l as [|observation l IH]; intros folded findings Hf; cbn [occurrences_loop];
    [by apply yields_Ok|].
  eapply yields_bind; [by apply Hinner|]. intros row Hrow. by apply IH.
Qed.

Lemma folded_built row : yields Q (folded_finding profile row).
Proof.
  destruct row as [[kind document] members]. unfold folded_finding.
  eapply (yields_bind _ _ (fun _ => True)); [by intros ?|]. intros representative _.
  eapply yields_bind; [by apply Hsimple|]. intros f Hf. by apply yields_Ok, Hcount.
Qed.

Lemma comparisons_built comparisons findings :
  Forall Q findings -> yields (Forall Q) (comparisons_loop comparisons profile findings).
Proof.
  revert findings. induction comparisons as [|comparison comparisons IH]; intros findings Hf; cbn [comparisons_loop];
    [by apply yields_Ok|].
  eapply yields_bind; [|exact IH]. unfold comparison_findings.
  destruct (match cm_candidate comparison with Some _ => _ | None => _ end) as [[primary side]|]; [|by apply yields_Ok].
  destruct (comparison_kind comparison); [|by apply yields_Ok].
  eapply yields_bind; [by apply Hsimple|]. intros f Hf'. apply yields_Ok, Forall_app. split; [done|by constructor].
Qed.

Lemma structural_built comparisons findings :
  Forall Q findings -> yields (Forall Q) (structural_findings comparisons profile findings).
Proof.
  intros Hf. unfold structural_findings.
  eapply yields_bind; [apply collect_comparisons_spec, groups_ok_nil|]. intros groups ([Hwf Hok] & _ & _).
  eapply yields_bind; [apply (yields_res_map _ (fun found => forall f, found = Some f -> Q f))|].
  { intros [d g] Hin. apply Hgroup, Hok. by apply bt_get_Some. }
  intros rows Hrows. apply yields_Ok, Forall_app. split; [done|].
  apply Forall_forall. intros f (found & Hin & Hfound)%list_elem_of_omap. rewrite Forall_forall in Hrows. by eapply Hrows.
Qed.

Lemma ordinary_built documents comparisons site :
  yields (Forall Q) (ordinary documents comparisons profile site).
Proof.
  unfold ordinary. eapply yields_bind; [by apply documents_built|]. intros findings Hf.
  eapply yields_bind; [apply yields_res_map; intros defect _; apply Hfact|]. intros defects Hd.
  eapply yields_bind; [by apply occurrences_built, Forall_app|]. intros [folded findings'] Hf'.
  eapply yields_bind; [apply yields_res_map; intros row _; apply folded_built|]. intros rows Hr.
  eapply yields_bind; [by apply structural_built, Forall_app|]. intros structural Hs.
  eapply yields_bind; [by apply comparisons_built|]. intros all Hall. apply yields_Ok.
  by rewrite stable_sort_by_perm.
Qed.

Context {DS : DocumentScanner}.

Lemma untreated_built documents comparisons inputs :
  yields (Forall Q) (untreated documents comparisons profile inputs).
Proof.
  unfold untreated. eapply yields_bind; [apply ordinary_built|]. intros ordinary Ho.
  eapply yields_bind.
  { apply (yields_res_map _ Q). intros seed _. unfold governed_finding. cbv zeta.
    eapply (yields_bind _ _ (fun _ => True)); [by intros ?|]. intros p _. apply Hfact. }
  intros governed Hg. eapply yields_bind.
  { apply (yields_res_map _ Q). intros group _. unfold claim_finding. cbv zeta.
    eapply (yields_bind _ _ (fun _ => True)); [by intros ?|]. intros text _.
    eapply yields_bind; [apply Hfact|]. intros f Hf. by apply yields_Ok, Hfix. }
  intros claims Hc. eapply yields_bind.
  { apply (yields_res_map _ (fun found => forall f, found = Some f -> Q f)). intros outcome _.
    unfold projection_finding. destruct (po_verdict outcome); [by apply yields_Ok|]. cbv zeta.
    eapply yields_bind; [apply Hfact|]. intros f Hf. apply yields_Ok. by intros g [= <-]. }
  intros projections Hp. eapply yields_bind; [apply yields_res_map; intros row _; by apply Hsimple|].
  intros translations Ht. apply yields_Ok. rewrite !Forall_app. split_and!; try done.
  apply Forall_forall. intros f (found & Hin & Hfound)%list_elem_of_omap. rewrite Forall_forall in Hp. by eapply Hp.
Qed.

End Built.

(** ** No failure is dropped *)

Section Reported.
Context `{HH : Hashes} {HL : HashLaws HH} `{RT : ReportTypes}.
Context {CK : Canon ReportFindingKeyInput} {CF : Canon FindingFactInput} {PD : PercentDecode} {DS : DocumentScanner}.

Lemma comparisons_keep comparisons profile findings :
  yields (fun findings' => findings ⊆ findings') (comparisons_loop comparisons profile findings).
Proof.
  revert findings. induction comparisons as [|comparison comparisons IH]; intros findings; cbn [comparisons_loop].
  { by apply yields_Ok. }
  eapply (yields_bind _ _ (fun findings' => findings ⊆ findings')).
  - unfold comparison_findings.
    destruct (match cm_candidate comparison with Some _ => _ | None => _ end) as [[primary side]|]; [|by apply yields_Ok].
    destruct (comparison_kind comparison); [|by apply yields_Ok]. apply yields_any. intros f _. apply yields_Ok.
    set_solver.
  - intros findings1 H1 findings2 H2%IH. by etrans.
Qed.

Lemma untreated_reports documents comparisons profile inputs :
  yields (fun findings =>
      forall comparison observation kind, comparison ∈ comparisons -> observation ∈ occurrences comparison ->
        structural (resolution_kinds (o_resolution observation)) = Some kind ->
        exists f, f ∈ findings /\ reports kind observation f)
    (untreated documents comparisons profile inputs).
Proof.
  unfold untreated, ordinary. eapply (yields_bind _ _ (fun findings =>
    forall comparison observation kind, comparison ∈ comparisons -> observation ∈ occurrences comparison ->
      structural (resolution_kinds (o_resolution observation)) = Some kind ->
      exists f, f ∈ findings /\ reports kind observation f)).
  - apply yields_any. intros f1 _. apply yields_any. intros f2 _. apply yields_any. intros [folded f3] _.
    apply yields_any. intros rows _. eapply yields_bind; [apply structural_reports|]. intros f4 [_ Hr].
    eapply yields_bind; [apply comparisons_keep|]. intros f5 Hsub. apply yields_Ok. intros c o k Hc Ho Hk.
    destruct (Hr c o k Hc Ho Hk) as (f & Hf & Hrep). exists f. split; [|done]. rewrite stable_sort_by_perm. by apply Hsub.
  - intros findings Hr. do 4 (apply yields_any; intros ? _). apply yields_Ok. intros c o k Hc Ho Hk.
    destruct (Hr c o k Hc Ho Hk) as (f & Hf & Hrep). exists f. split; [|done]. apply elem_of_app. by left.
Qed.
End Reported.
