(* ===== verification/EvalOutcome.v ===== *)
(** The outcome of policy evaluation: every finding is built fresh, treated by
    the passes in order, and sorted; theorems on the dispositions, on what may
    lower a failure and on the exceptions. *)
From Stdlib Require Import Strings.Byte Strings.String Lia Sorting.Sorted.
From stdpp Require Import base numbers sets sorting list.
From S2P Require Import Prelude Codec WireModel WireIdentity OrdMap Observation ScanPath EvalModel Controls EvalControls.
From S2P Require Import EvalFindings EvalClaims EvalReferences EvalPolicy EvalFacts EvalTrace EvalStructural EvalBuilt.

Lemma existsb_fmap {A B} (f : A -> B) (p : B -> bool) l : existsb p (map f l) = existsb (fun a => p (f a)) l.
Proof. induction l as [|a l IH]; [done|]. cbn. by rewrite IH. Qed.

Section Outcome.
Context `{HH : Hashes} {HL : HashLaws HH} `{RT : ReportTypes}.
Context {CK : Canon ReportFindingKeyInput} {CF : Canon FindingFactInput}.

(** ** Everything is built fresh *)

Context (profile : Profile.t).
Abbreviation fresh := (fresh profile).
(** As it is built, and under its digest. *)
Definition made (f : Finding) : Prop := fresh f /\ identified f.

Lemma simple_fresh kind scope attribution ids location :
  attribution <> Attribution.Resolved -> yields fresh (simple kind scope attribution ids location profile).
Proof.
  intros Ha. unfold simple. apply yields_any. intros key _.
  apply yields_Ok. split; try done. cbn. by rewrite decide_False.
Qed.

Lemma candidate_fact_fresh kind scope evidence count location :
  yields fresh (candidate_fact_finding kind scope evidence count location profile).
Proof.
  unfold candidate_fact_finding. apply yields_any. intros f E.
  assert (fi_attribution f = Attribution.NotApplicable) as Ha.
  { unfold simple in E. by apply res_bind_Ok in E as (key & _ & [= <-]). }
  apply simple_fresh in E as [He Hs Hd Hw]; [|done]. apply yields_any. intros c _. apply yields_Ok.
  rewrite Ha, decide_False in Hs by done. split; try done. cbn. by rewrite Ha, decide_False.
Qed.

Lemma group_fresh `{PercentDecode} digest group :
  yields (fun found => forall f, found = Some f -> fresh f) (group_finding profile (digest, group)).
Proof.
  unfold group_finding.
  apply yields_any. intros base _.
  eapply (yields_bind _ _ (fun fact => kg_candidate group = [] -> fact = None)).
  { intros fact E Hnil. rewrite Hnil in E. by injection E as <-. }
  intros candidate Hc. case_bool_decide as Hn; [by apply yields_Ok|].
  destruct (reported_members group) as [[ids count] location]. apply yields_Ok. intros f [= <-].
  split; try done. cbn. case_bool_decide as Hr.
  - rewrite decide_True by done. split; [|done]. apply Hc. unfold group_attribution in Hr.
    destruct (kg_base group), (kg_candidate group); try done. by destruct (same_failure _ _).
  - by rewrite decide_False.
Qed.

Lemma count_fresh count f : fresh f -> fresh (set_member_count count f).
Proof. intros []. by split. Qed.
Lemma fix_fresh fix_ f : fresh f -> fresh (set_fix fix_ f).
Proof. intros []. by split. Qed.

Lemma made_intro {A} (r : res A ScanError.t) (Q1 Q2 : A -> Prop) :
  yields Q1 r -> yields Q2 r -> yields (fun a => Q1 a /\ Q2 a) r.
Proof. intros H1 H2 a Ha. split; [by apply H1|by apply H2]. Qed.

Lemma candidate_fact_made kind scope evidence count location :
  yields made (candidate_fact_finding kind scope evidence count location profile).
Proof. apply made_intro; [apply candidate_fact_fresh|apply candidate_fact_identified]. Qed.

Lemma control_row_made kind rule p digests exception :
  yields made (control_row kind rule p digests exception profile).
Proof. apply control_row_built, candidate_fact_made. Qed.

Lemma untreated_made `{PercentDecode} `{DocumentScanner} documents comparisons inputs :
  yields (Forall made) (untreated documents comparisons profile inputs).
Proof.
  apply untreated_built.
  - intros. apply made_intro; [by apply simple_fresh|apply simple_identified].
  - apply candidate_fact_made.
  - intros count f [Hf [H1 H2 H3]]. split; [by apply count_fresh|by split].
  - intros fix_ f [Hf [H1 H2 H3]]. split; [by apply fix_fresh|by split].
  - intros d g Hd found Hfound f ->. split; [by eapply group_fresh|by eapply group_identified].
Qed.

(** ** The exception passes *)

(** The finding that stands for a key: the first of it that has a candidate fact. *)
Definition stands (k : Digest.t) (f : Finding) : Prop := fi_finding_key f = k /\ is_Some (fi_candidate_fact f).
#[local] Instance stands_dec k f : Decision (stands k f).
Proof. apply and_dec; [apply decide_rel, _|]. apply _. Defined.
Definition target (findings : list Finding) (k : Digest.t) : option Finding := head (filter (stands k) findings).

Lemma target_stands findings k f : target findings k = Some f -> f ∈ findings /\ stands k f.
Proof.
  unfold target. intros Hh. assert (f ∈ filter (stands k) findings) as Hin.
  { destruct (filter (stands k) findings); [done|]. injection Hh as ->. by left. }
  apply list_elem_of_filter in Hin. tauto.
Qed.

Lemma target_cons f findings k :
  target (f :: findings) k = if decide (stands k f) then Some f else target findings k.
Proof. unfold target. rewrite filter_cons. by destruct (decide (stands k f)). Qed.

(** The targets are these findings, by index. *)
Lemma targets_from_spec index findings targets k :
  bt_wf targets ->
  match bt_get k targets with
  | Some i => bt_get k (targets_from index findings targets) = Some i
  | None =>
      match bt_get k (targets_from index findings targets) with
      | Some i => exists j f, i = (index + j)%nat /\ findings !! j = Some f /\ target findings k = Some f
      | None => target findings k = None
      end
  end.
Proof.
  revert index targets. induction findings as [|f findings IH]; intros index targets Hwf; cbn [targets_from].
  { by destruct (bt_get k targets). }
  rewrite target_cons. destruct (fi_candidate_fact f) as [fact|] eqn:Ef; cbn [is_some].
  - pose proof (IH (S index) (bt_upd (fi_finding_key f) (default index) targets)) as IHu.
    specialize (IHu (bt_upd_wf _ _ _ Hwf)). rewrite bt_get_upd in IHu by done.
    destruct (decide (k = fi_finding_key f)) as [->|Hne].
    + destruct (bt_get _ targets) as [i|] eqn:Et; cbn beta iota in IHu.
      { exact IHu. }
      match goal with |- context [bt_get ?x (targets_from ?a ?b ?c)] =>
        change (bt_get x (targets_from a b c) = Some index) in IHu end. rewrite IHu.
      rewrite decide_True by (split; [done|by eexists]). exists 0%nat, f. split_and!; [cbn; lia|done..].
    + destruct (bt_get k targets); [done|]. rewrite decide_False by (intros [? _]; congruence).
      destruct (bt_get k (targets_from _ _ _)); [|done]. destruct IHu as (j & g & -> & Hj).
      exists (S j), g. split; [lia|done].
  - specialize (IH (S index) targets Hwf). destruct (bt_get k targets); [done|].
    rewrite decide_False by (intros [_ [x Hx]]; congruence).
    destruct (bt_get k (targets_from _ _ _)); [|done]. destruct IH as (j & g & -> & Hj). exists (S j), g. split; [lia|done].
Qed.

Lemma exception_targets_spec findings k :
  match bt_get k (exception_targets findings) with
  | Some i => exists f fact, findings !! i = Some f /\ target findings k = Some f /\ fi_candidate_fact f = Some fact /\
                fact_at findings i = Some (ff_digest fact)
  | None => target findings k = None
  end.
Proof.
  pose proof (targets_from_spec 0 findings [] k bt_nil_wf) as H. cbn [bt_get] in H. unfold exception_targets.
  destruct (bt_get k _) as [i|]; [|done]. destruct H as (j & f & -> & Hj & Ht). cbn [Nat.add].
  destruct (target_stands _ _ _ Ht) as (_ & _ & fact & Ef). exists f, fact. split_and!; try done.
  unfold fact_at. cbn. rewrite Hj. cbn. by rewrite Ef.
Qed.

(** A debt item that applies to a key: the finding that stands for it has the
    accepted fact, and the item has not expired. *)
Record debt_applies (findings : list Finding) (instant : bytes) (k : Digest.t) (item : DebtItem) : Prop := {
  dap_key : dbi_finding_key item = k;
  dap_fact : exists f fact, target findings k = Some f /\ fi_candidate_fact f = Some fact /\
               ff_digest fact = dbi_accepted_fact_digest item;
  dap_active : reached (dbi_expires_at item) instant = false
}.

(** A waiver item that applies to a key: it has none of the defects. *)
Record waiver_applies (findings : list Finding) (context : WaiverContext) (instant : bytes) (k : Digest.t)
    (item : WaiverItem) : Prop := {
  wap_key : wi_finding_key item = k;
  wap_tree : wi_candidate_tree item = wc_candidate_tree context;
  wap_fact : exists f fact, target findings k = Some f /\ fi_candidate_fact f = Some fact /\
               ff_digest fact = wi_authorized_fact_digest item /\
               FindingKind.as_ref (ki_finding_kind (fi_key_input f)) =
               EligibleFindingKind.as_ref (fa_finding_kind (wi_authorized_fact item));
  wap_active : reached (wi_not_before item) instant = true /\ reached (wi_expires_at item) instant = false;
  wap_issuer : wi_issuer item ∈ wc_authorized_issuers context;
  wap_kind : fa_finding_kind (wi_authorized_fact item) ∈ wc_waivable_kinds context;
  wap_owner : wi_owner item <> wi_issuer item
}.

(** Both depend only on what stands for the key. *)
Lemma debt_applies_target findings findings' instant k item :
  (forall f, target findings k = Some f -> exists g, target findings' k = Some g /\ same_subject f g) ->
  debt_applies findings instant k item -> debt_applies findings' instant k item.
Proof.
  intros Hsub [Hk (f & fact & Ht & Ef & Ed) Ha]. split; [done| |done].
  destruct (Hsub f Ht) as (g & Hg & []). exists g, fact. split_and!; congruence.
Qed.

Lemma waiver_applies_target findings findings' context instant k item :
  (forall f, target findings k = Some f -> exists g, target findings' k = Some g /\ same_subject f g) ->
  waiver_applies findings context instant k item -> waiver_applies findings' context instant k item.
Proof.
  intros Hsub [Hk Ht (f & fact & Hf & Ef & Ed & Ey) Ha Hi Hw Ho]. split; try done.
  destruct (Hsub f Hf) as (g & Hg & []). exists g, fact. split_and!; congruence.
Qed.

(** Treating the findings, adding to them and sorting them keep what stood for a key. *)
Lemma target_treated (h : Finding -> Finding) findings k :
  (forall f, f ∈ findings -> same_subject f (h f)) -> target (map h findings) k = h <$> target findings k.
Proof.
  induction findings as [|f findings IH]; intros Hh; [done|]. cbn [map]. rewrite !target_cons, IH by (intros; apply Hh; by right).
  assert (stands k (h f) <-> stands k f) as Hs.
  { destruct (Hh f) as [_ S2 _ _ S5 _]; [by left|]. unfold stands. by rewrite S2, S5. }
  destruct (decide (stands k f)); [by rewrite decide_True by tauto|by rewrite decide_False by tauto].
Qed.

Lemma target_app l1 l2 k : target (l1 ++ l2) k = match target l1 k with Some f => Some f | None => target l2 k end.
Proof. unfold target. rewrite filter_app. by destruct (filter _ l1). Qed.

Lemma target_sorted findings k : target (stable_sort_by fi_finding_key findings) k = target findings k.
Proof.
  assert (forall l : list Finding, filter (stands k) l =
    filter (fun f => is_Some (fi_candidate_fact f)) (filter (fun f => fi_finding_key f = k) l)) as Hsplit.
  { intros l. rewrite list_filter_filter. apply list_filter_iff. intros f. unfold stands. tauto. }
  unfold target. rewrite !Hsplit. do 2 f_equal.
  etrans; [|etrans; [apply (stable_sort_by_stable fi_finding_key findings k)|]]; by apply list_filter_iff.
Qed.

(** A map of valid items says of each key which item of the list it is. *)
Definition names {A} (valid : bt Digest.t nat) (index : nat) (items : list A) (applies : Digest.t -> A -> Prop) : Prop :=
  forall k i, bt_get k valid = Some i -> exists j item, i = (index + j)%nat /\ items !! j = Some item /\ applies k item.

Lemma names_cons {A} (valid valid' : bt Digest.t nat) index item (items : list A) (applies : Digest.t -> A -> Prop) k0 :
  bt_wf valid ->
  (forall k i, bt_get k valid' = Some i ->
     bt_get k (bt_insert k0 index valid) = Some i \/
     exists j x, i = (S index + j)%nat /\ items !! j = Some x /\ applies k x) ->
  applies k0 item ->
  forall k i, bt_get k valid' = Some i ->
    bt_get k valid = Some i \/ exists j x, i = (index + j)%nat /\ (item :: items) !! j = Some x /\ applies k x.
Proof.
  intros Hwf H Ha k i Hi. destruct (H k i Hi) as [Hk|(j & x & -> & Hj & Hx)].
  - rewrite bt_get_insert in Hk by done. destruct (decide (k = k0)) as [->|]; [|by left]. injection Hk as <-.
    right. exists 0%nat, item. split_and!; [lia|done|done].
  - right. exists (S j), x. split_and!; [lia|done|done].
Qed.

Lemma names_skip {A} (valid valid' : bt Digest.t nat) index item (items : list A) (applies : Digest.t -> A -> Prop) :
  (forall k i, bt_get k valid' = Some i ->
     bt_get k valid = Some i \/ exists j x, i = (S index + j)%nat /\ items !! j = Some x /\ applies k x) ->
  forall k i, bt_get k valid' = Some i ->
    bt_get k valid = Some i \/ exists j x, i = (index + j)%nat /\ (item :: items) !! j = Some x /\ applies k x.
Proof.
  intros H k i Hi. destruct (H k i Hi) as [|(j & x & -> & Hj & Hx)]; [by left|].
  right. exists (S j), x. split_and!; [lia|done|done].
Qed.

(** The fact a debt item is held against. *)
Lemma debt_current findings k current :
  (i ← bt_get k (exception_targets findings); fact_at findings i) = Some current <->
  exists f fact, target findings k = Some f /\ fi_candidate_fact f = Some fact /\ ff_digest fact = current.
Proof.
  pose proof (exception_targets_spec findings k) as H. destruct (bt_get k _) as [i|]; cbn.
  - destruct H as (f & fact & _ & Ht & Ef & ->). split.
    + intros [= <-]. eauto.
    + intros (f' & fact' & Ht' & Ef' & <-). rewrite Ht in Ht'. injection Ht' as <-. congruence.
  - split; [done|]. intros (f & fact & Ht & _). congruence.
Qed.

Lemma debt_loop_spec findings context instant index items valid extra valid' extra' :
  bt_wf valid -> Forall made extra ->
  debt_loop findings (exception_targets findings) context profile instant index items valid extra = Ok (valid', extra') ->
  Forall made extra' /\
  forall k i, bt_get k valid' = Some i ->
    bt_get k valid = Some i \/
    exists j x, i = (index + j)%nat /\ items !! j = Some x /\ debt_applies findings instant k x.
Proof.
  revert index valid extra. induction items as [|item items IH]; intros index valid extra Hwf Hf; cbn [debt_loop].
  { intros [= <- <-]. split; [done|]. by left. }
  destruct (target ← bt_get (dbi_finding_key item) (exception_targets findings); fact_at findings target) as [current|] eqn:E.
  2: { intros H. apply IH in H as [Hf' H]; [|done..]. split; [done|]. by apply names_skip. }
  cbv zeta. intros (extra1 & H1 & (extra2 & H2 & H)%res_bind_Ok)%res_bind_Ok.
  assert (Forall made extra1) as Hf1 by (eapply (push_when_yields made); [apply control_row_made|exact Hf|exact H1]).
  assert (Forall made extra2) as Hf2 by (eapply (push_when_yields made); [apply control_row_made|exact Hf1|exact H2]).
  destruct (reached (dbi_expires_at item) instant) eqn:Ex; cbn [negb andb] in H.
  { apply IH in H as [Hf' H]; [|done..]. split; [done|]. by apply names_skip. }
  case_bool_decide as Heq; cbn [andb] in H.
  - apply IH in H as [Hf' H]; [|by apply bt_insert_wf|done]. split; [done|]. eapply names_cons; [done|exact H|].
    split; [done| |done]. rewrite <- Heq. by apply debt_current.
  - apply IH in H as [Hf' H]; [|done..]. split; [done|]. by apply names_skip.
Qed.

Lemma when_nil (condition : bool) (defect : bytes) : (if condition then [defect] else []) = [] <-> condition = false.
Proof. by destruct condition. Qed.

(** An item that applies is valid, and a valid item stays valid. *)
Lemma debt_loop_complete findings context instant k index items valid extra valid' extra' :
  bt_wf valid ->
  debt_loop findings (exception_targets findings) context profile instant index items valid extra = Ok (valid', extra') ->
  is_Some (bt_get k valid) \/ (exists item, item ∈ items /\ debt_applies findings instant k item) ->
  is_Some (bt_get k valid').
Proof.
  revert index valid extra. induction items as [|item items IH]; intros index valid extra Hwf; cbn [debt_loop].
  { intros [= <- <-] [Hv|(item & Hin & _)]; [done|]. by apply not_elem_of_nil in Hin. }
  destruct (target ← bt_get (dbi_finding_key item) (exception_targets findings); fact_at findings target) as [current|] eqn:E.
  2: { intros H Hv. eapply IH; [done|exact H|]. destruct Hv as [Hv|(x & [->|Hx]%elem_of_cons & Ha)]; [by left| |by eauto].
    destruct Ha as [<- Hf _]. exfalso. destruct Hf as (f & fact & Ht & Ef & _).
    assert ((i ← bt_get (dbi_finding_key item) (exception_targets findings); fact_at findings i) = Some (ff_digest fact))
      as E' by (apply debt_current; eauto). congruence. }
  cbv zeta. intros (extra1 & _ & (extra2 & _ & H)%res_bind_Ok)%res_bind_Ok Hv.
  eapply IH; [|exact H|]; [destruct (_ && _); [by apply bt_insert_wf|done]|].
  destruct Hv as [Hv|(x & [->|Hx]%elem_of_cons & Ha)]; [left|left|by eauto].
  - destruct (_ && _); [|done]. rewrite bt_get_insert by done. by destruct (decide _); [eexists|].
  - destruct Ha as [<- Hf%debt_current ->]. rewrite E in Hf. injection Hf as ->.
    rewrite bool_decide_true by done. cbn. rewrite bt_get_insert, decide_True by done. by eexists.
Qed.

Lemma waiver_defects_nil findings context instant item :
  wi_candidate_tree item = wc_candidate_tree context /\
  waiver_defects findings (exception_targets findings) context instant item = [] /\
  is_Some (bt_get (wi_finding_key item) (exception_targets findings)) <->
  waiver_applies findings context instant (wi_finding_key item) item.
Proof.
  unfold waiver_defects. cbv zeta. rewrite !app_nil, !when_nil, !negb_false_iff, existsb_bytes_elem.
  pose proof (exception_targets_spec findings (wi_finding_key item)) as H.
  assert (existsb (fun kind => bool_decide (kind = fa_finding_kind (wi_authorized_fact item))) (wc_waivable_kinds context) = true
    <-> fa_finding_kind (wi_authorized_fact item) ∈ wc_waivable_kinds context) as ->.
  { rewrite existsb_exists, list_elem_of_In. setoid_rewrite bool_decide_eq_true. split; [by intros (x & Hx & <-)|eauto]. }
  destruct (bt_get _ (exception_targets findings)) as [i|].
  - destruct H as (f & fact & Hi & Ht & Ef & Hat). rewrite Hi, Hat, app_nil, !when_nil, !negb_false_iff, bool_decide_eq_true, bytes_eqb_eq.
    split.
    + intros (Hc & (H1 & H2 & H3 & H4 & H5 & H6 & H7) & _). injection H7 as H7. split; try done.
      * by exists f, fact.
      * by apply bytes_eqb_neq.
    + intros [_ Hc (f' & fact' & Ht' & Ef' & Ed & Ey) [H1 H2] H3 H4 H5]. rewrite Ht in Ht'. injection Ht' as <-.
      assert (fact' = fact) as -> by congruence. split; [done|]. split; [|by eexists]. split_and!; try done; [|congruence].
      by apply bytes_eqb_neq.
  - split; [intros (_ & _ & [? ?]); done|]. intros [_ _ (f' & fact' & Ht' & _) _ _ _ _]. congruence.
Qed.

Lemma waiver_loop_spec findings context instant index items valid extra valid' extra' :
  bt_wf valid -> Forall made extra ->
  waiver_loop findings (exception_targets findings) context profile instant index items valid extra = Ok (valid', extra') ->
  Forall made extra' /\
  forall k i, bt_get k valid' = Some i ->
    bt_get k valid = Some i \/
    exists j x, i = (index + j)%nat /\ items !! j = Some x /\ waiver_applies findings context instant k x.
Proof.
  revert index valid extra. induction items as [|item items IH]; intros index valid extra Hwf Hf; cbn [waiver_loop].
  { intros [= <- <-]. split; [done|]. by left. }
  case_bool_decide as Htree; cbn [negb].
  2: { intros H. apply IH in H as [Hf' H]; [|done..]. split; [done|]. by apply names_skip. }
  cbv zeta. intros (rows & Hrows & H)%res_bind_Ok.
  assert (Forall made (extra ++ rows)) as Hf1.
  { apply Forall_app. split; [done|]. eapply (yields_res_map _ made); [|exact Hrows]. intros suffix _. apply control_row_made. }
  case_bool_decide as Hd; cbn [andb] in H.
  2: { apply IH in H as [Hf' H]; [|done..]. split; [done|]. by apply names_skip. }
  destruct (bt_get (wi_finding_key item) (exception_targets findings)) as [t|] eqn:Et; cbn [is_some is_none negb] in H.
  - apply IH in H as [Hf' H]; [|by apply bt_insert_wf|done]. split; [done|]. eapply names_cons; [done|exact H|].
    apply waiver_defects_nil. rewrite Et. split_and!; [done..|by eexists].
  - apply IH in H as [Hf' H]; [|done..]. split; [done|]. by apply names_skip.
Qed.

Lemma waiver_loop_complete findings context instant k index items valid extra valid' extra' :
  bt_wf valid ->
  waiver_loop findings (exception_targets findings) context profile instant index items valid extra = Ok (valid', extra') ->
  is_Some (bt_get k valid) \/ (exists item, item ∈ items /\ waiver_applies findings context instant k item) ->
  is_Some (bt_get k valid').
Proof.
  revert index valid extra. induction items as [|item items IH]; intros index valid extra Hwf; cbn [waiver_loop].
  { intros [= <- <-] [Hv|(item & Hin & _)]; [done|]. by apply not_elem_of_nil in Hin. }
  case_bool_decide as Htree; cbn [negb].
  2: { intros H Hv. eapply IH; [done|exact H|]. destruct Hv as [Hv|(x & [->|Hx]%elem_of_cons & Ha)]; [by left| |by eauto].
    by destruct (Htree (wap_tree _ _ _ _ _ Ha)). }
  cbv zeta. intros (rows & _ & H)%res_bind_Ok Hv.
  eapply IH; [|exact H|]; [destruct (_ && _); [by apply bt_insert_wf|done]|].
  destruct Hv as [Hv|(x & [->|Hx]%elem_of_cons & Ha)]; [left|left|by eauto].
  - destruct (_ && _); [|done]. rewrite bt_get_insert by done. by destruct (decide _); [eexists|].
  - pose proof (wap_key _ _ _ _ _ Ha) as <-. apply waiver_defects_nil in Ha as (_ & -> & [i ->]).
    rewrite bool_decide_true by done. cbn. rewrite bt_get_insert, decide_True by done. by eexists.
Qed.

(** ** The whole evaluation *)

Definition before_exceptions (policy : Effects) (f : Finding) : Finding :=
  introduce_finding profile (raise_finding policy f).
Definition treat (policy : Effects) (debt_valid waiver_valid : bt Digest.t nat) (f : Finding) : Finding :=
  (apply_valid_exception policy debt_valid waiver_valid (before_exceptions policy f)).1.

Definition instant_of (time : TimeContext) : bytes := tt_evaluation_instant (tc_statement time).

(** The valid items are the items of the verified documents that apply: each valid
    one does, and each key with one that does has a valid one. *)
Record exceptions_ok (policy : Effects) (findings : list Finding) (debt_valid waiver_valid : bt Digest.t nat) : Prop := {
  eo_debt : forall k i, bt_get k debt_valid = Some i ->
    exists time item, e_time policy = Some time /\ debt_item policy i = Some item /\
      debt_applies findings (instant_of time) k item;
  eo_waiver : forall k i, bt_get k waiver_valid = Some i ->
    exists time context item, e_time policy = Some time /\ e_waiver policy = Some context /\
      waiver_item policy i = Some item /\ waiver_applies findings context (instant_of time) k item;
  eo_every_debt : forall k time i item, e_time policy = Some time -> debt_item policy i = Some item ->
    debt_applies findings (instant_of time) k item -> is_Some (bt_get k debt_valid);
  eo_every_waiver : forall k time context i item, e_time policy = Some time -> e_waiver policy = Some context ->
    waiver_item policy i = Some item -> waiver_applies findings context (instant_of time) k item ->
    is_Some (bt_get k waiver_valid)
}.

Lemma exceptions_ok_target policy findings findings' debt_valid waiver_valid :
  (forall k f, target findings k = Some f -> exists g, target findings' k = Some g /\ same_subject f g) ->
  (forall k g, target findings' k = Some g -> exists f, target findings k = Some f /\ same_subject g f) ->
  exceptions_ok policy findings debt_valid waiver_valid -> exceptions_ok policy findings' debt_valid waiver_valid.
Proof.
  intros Hto Hfrom [Hd Hw Hed Hew]. split.
  - intros k i Hi. destruct (Hd k i Hi) as (time & item & H1 & H2 & H3). exists time, item.
    split_and!; try done. by apply (debt_applies_target findings); [apply Hto|].
  - intros k i Hi. destruct (Hw k i Hi) as (time & context & item & H1 & H2 & H3 & H4). exists time, context, item.
    split_and!; try done. by apply (waiver_applies_target findings); [apply Hto|].
  - intros k time i item H1 H2 H3. eapply Hed; [exact H1|exact H2|]. by apply (debt_applies_target findings'); [apply Hfrom|].
  - intros k time context i item H1 H2 H3 H4. eapply Hew; [exact H1|exact H2|exact H3|]. by apply (waiver_applies_target findings'); [apply Hfrom|].
Qed.

Lemma treated_spec policy debt_valid waiver_valid f :
  fresh f ->
  let g := treat policy debt_valid waiver_valid f in
  trace_ok g /\ same_subject f g /\ fi_configured_disposition g = configured_for policy profile f.
Proof.
  intros Hf. cbv zeta. unfold treat, before_exceptions.
  destruct (raise_spec policy profile f Hf) as (T1 & S1 & _ & _ & C1 & _).
  destruct (introduce_spec profile _ T1) as (T2 & S2 & _ & _ & C2 & _).
  destruct (exception_spec policy debt_valid waiver_valid _ T2) as (T3 & S3 & C3 & _).
  split; [done|]. split; [by etrans; [|etrans]|congruence].
Qed.

Lemma before_spec policy f :
  fresh f ->
  let g := before_exceptions policy f in
  same_subject f g /\ fi_debt g = None /\ fi_waiver g = None /\
  fi_configured_disposition g = configured_for policy profile f /\
  fi_effective_disposition g =
    (if bool_decide (configured_for policy profile f = Disposition.Fail) && forgiven profile f then Disposition.Warn
     else configured_for policy profile f) /\
  trace_ok g.
Proof.
  intros Hf. cbv zeta. unfold before_exceptions.
  destruct (raise_spec policy profile f Hf) as (T1 & S1 & D1 & W1 & C1 & E1).
  destruct (introduce_spec profile _ T1) as (T2 & S2 & D2 & W2 & C2 & E2).
  split; [by etrans|]. rewrite E2, E1, C1, C2, D2, W2. unfold forgiven. by rewrite (ss_attribution _ _ S1).
Qed.

(** What the two passes answer. *)
Lemma debt_pass_spec findings policy instant debt_valid extra :
  debt_pass findings (exception_targets findings) policy profile instant [] = Ok (debt_valid, extra) ->
  Forall made extra /\
  (forall k i, bt_get k debt_valid = Some i ->
     exists item, debt_item policy i = Some item /\ debt_applies findings instant k item) /\
  (forall k i item, debt_item policy i = Some item -> debt_applies findings instant k item ->
     is_Some (bt_get k debt_valid)).
Proof.
  unfold debt_pass, debt_item. destruct (e_debt policy) as [context|]; [|by intros [= <- <-]].
  intros Hd. pose proof Hd as [Hf Hspec]%debt_loop_spec; [|apply bt_nil_wf|constructor]. split_and!; [done| |].
  - intros k i [Hi|(j & item & -> & Hj & Ha)]%Hspec; [done|by exists item].
  - intros k i item Hi%list_elem_of_lookup_2 Ha. eapply debt_loop_complete; [apply bt_nil_wf|exact Hd|eauto].
Qed.

Lemma waiver_pass_spec findings policy instant extra waiver_valid extra' :
  Forall made extra ->
  waiver_pass findings (exception_targets findings) policy profile instant extra = Ok (waiver_valid, extra') ->
  Forall made extra' /\
  (forall k i, bt_get k waiver_valid = Some i ->
     exists context item, e_waiver policy = Some context /\ waiver_item policy i = Some item /\
       waiver_applies findings context instant k item) /\
  (forall k context i item, e_waiver policy = Some context -> waiver_item policy i = Some item ->
     waiver_applies findings context instant k item -> is_Some (bt_get k waiver_valid)).
Proof.
  intros Hextra. unfold waiver_pass, waiver_item. destruct (e_waiver policy) as [context|]; [|by intros [= <- <-]].
  intros Hw. pose proof Hw as [Hf Hspec]%waiver_loop_spec; [|apply bt_nil_wf|done]. split_and!; [done| |].
  - intros k i [Hi|(j & item & -> & Hj & Ha)]%Hspec; [done|by exists context, item].
  - intros k context' i item [= <-] Hi%list_elem_of_lookup_2 Ha.
    eapply waiver_loop_complete; [apply bt_nil_wf|exact Hw|eauto].
Qed.

(** What [apply_exceptions] answers. *)
Lemma apply_exceptions_shape findings policy treated extra errors :
  apply_exceptions findings policy profile = Ok (treated, extra, errors) ->
  exists debt_valid waiver_valid,
    treated = map (fun f => (apply_valid_exception policy debt_valid waiver_valid f).1) findings /\
    Forall made extra /\ exceptions_ok policy findings debt_valid waiver_valid /\
    errors = if existsb (fun f => (apply_valid_exception policy debt_valid waiver_valid f).2) findings
             then [exception_overlap_row] else [].
Proof.
  assert ((forall time, e_time policy = Some time -> e_debt policy = None /\ e_waiver policy = None) ->
    treated = findings -> extra = [] -> errors = [] -> exists debt_valid waiver_valid,
    treated = map (fun f => (apply_valid_exception policy debt_valid waiver_valid f).1) findings /\
    Forall made extra /\ exceptions_ok policy findings debt_valid waiver_valid /\
    errors = if existsb (fun f => (apply_valid_exception policy debt_valid waiver_valid f).2) findings
             then [exception_overlap_row] else []) as Hnone.
  { intros Hidle -> -> ->. exists [], []. split; [symmetry; apply map_id|]. split; [constructor|]. split; [split; try done|].
    - intros k time i item [Hd _]%Hidle. unfold debt_item. by rewrite Hd.
    - intros k time context i item [_ Hw]%Hidle. by rewrite Hw.
    - clear Hidle. induction findings as [|f findings IH]; [done|]. exact IH. }
  unfold apply_exceptions. destruct (is_none (e_debt policy) && _) eqn:En.
  { intros [= <- <- <-]. apply Hnone; [|done..]. intros _ _. apply andb_true_iff in En as [Ed Ew].
    by destruct (e_debt policy), (e_waiver policy). }
  destruct (e_time policy) as [time|] eqn:Et; [|by intros [= <- <- <-]; apply Hnone]. cbv zeta. clear Hnone.
  intros ([debt_valid extra1] & Hd & ([waiver_valid extra2] & Hw & H)%res_bind_Ok)%res_bind_Ok.
  unfold apply_valid_exceptions in H. cbv zeta in H. injection H as <- <- <-.
  apply debt_pass_spec in Hd as (Hf1 & Hdv & Hed). apply waiver_pass_spec in Hw as (Hf2 & Hwv & Hew); [|done].
  exists debt_valid, waiver_valid. rewrite !map_map. split; [done|]. split; [done|]. split.
  - split.
    + intros k i Hi. destruct (Hdv k i Hi) as (item & H1 & H2). by exists time, item.
    + intros k i Hi. destruct (Hwv k i Hi) as (context & item & H1 & H2 & H3). by exists time, context, item.
    + intros k time' i item Et' Hi Ha. rewrite Et in Et'. injection Et' as <-. eauto.
    + intros k time' context i item Et' Hc Hi Ha. rewrite Et in Et'. injection Et' as <-. eauto.
  - by rewrite existsb_fmap.
Qed.

Context {PD : PercentDecode} {DS : DocumentScanner}.

Record evaluated (policy : Effects) (base findings : list Finding) (errors : list ErrorDetail)
    (debt_valid waiver_valid : bt Digest.t nat) (rest : list Finding) : Prop := {
  ev_base : Forall made base;
  ev_rest : Forall made rest;
  ev_findings : findings = stable_sort_by fi_finding_key (map (treat policy debt_valid waiver_valid) base ++ rest);
  ev_exceptions : exceptions_ok policy base debt_valid waiver_valid;
  ev_target : forall k f, target base k = Some f -> exists g, target findings k = Some g /\ same_subject f g;
  ev_errors : errors =
    if existsb (fun f => (apply_valid_exception policy debt_valid waiver_valid (before_exceptions policy f)).2) base
    then [exception_overlap_row] else []
}.

Lemma evaluate_shape documents comparisons policy inputs findings errors :
  evaluate_with_site documents comparisons profile policy inputs = Ok (findings, errors) ->
  exists base debt_valid waiver_valid rest,
    untreated documents comparisons profile inputs = Ok base /\
    evaluated policy base findings errors debt_valid waiver_valid rest.
Proof.
  unfold evaluate_with_site. intros (base & Hb & H)%res_bind_Ok. cbv zeta in H.
  apply res_bind_Ok in H as ([[treated extra] errors'] & He & (controls & Hc & [= <- <-])%res_bind_Ok).
  apply apply_exceptions_shape in He as (debt_valid & waiver_valid & -> & Hextra & Hok & ->).
  exists base, debt_valid, waiver_valid, (extra ++ controls). split; [done|].
  pose proof (untreated_made documents comparisons inputs base Hb) as Hbase.
  assert (forall f, f ∈ base -> fresh f) as Hmade by (intros f Hf; rewrite Forall_forall in Hbase; by apply Hbase).
  rewrite !map_map in *. split; try done.
  - apply Forall_app. split; [done|]. eapply (yields_res_map _ made); [|exact Hc]. intros seed _. apply control_row_made.
  - assert (forall k, target (map (before_exceptions policy) base) k = before_exceptions policy <$> target base k) as Hb'.
    { intros k. apply target_treated. intros f Hf. by apply before_spec, Hmade. }
    eapply exceptions_ok_target; [| |exact Hok]; intros k f Hf.
    + rewrite Hb' in Hf. apply fmap_Some in Hf as (b & Hf & ->). exists b. split; [done|].
      symmetry. apply before_spec, Hmade. by destruct (target_stands _ _ _ Hf).
    + exists (before_exceptions policy f). rewrite Hb', Hf. split; [done|].
      apply before_spec, Hmade. by destruct (target_stands _ _ _ Hf).
  - intros k f Hf. exists (treat policy debt_valid waiver_valid f).
    rewrite target_sorted, target_app, target_treated, Hf by (intros; by apply treated_spec, Hmade).
    split; [done|]. apply treated_spec, Hmade. by destruct (target_stands _ _ _ Hf).
  - by rewrite existsb_fmap.
Qed.
End Outcome.
