(* ===== verification/EvalGuarantees.v ===== *)
(** What policy evaluation guarantees of its findings: each explains and
    identifies itself, the configured disposition is the greatest rule's, a
    failure is lowered only by the rules that may, exceptions exclude each
    other, and no failing reference of the candidate is lost. *)
From Stdlib Require Import Strings.Byte Strings.String Lia Sorting.Sorted.
From stdpp Require Import base numbers sets sorting list.
From S2P Require Import Prelude Codec WireModel WireIdentity OrdMap Observation Correlate ScanPath EvalModel Controls.
From S2P Require Import EvalControls EvalFindings EvalClaims EvalReferences EvalPolicy EvalFacts EvalTrace.
From S2P Require Import EvalStructural EvalBuilt EvalOutcome.

Section Guarantees.
Context `{HH : Hashes} {HL : HashLaws HH} `{RT : ReportTypes}.
Context {CK : Canon ReportFindingKeyInput} {CF : Canon FindingFactInput} {PD : PercentDecode} {DS : DocumentScanner}.

Lemma elem_of_evaluated profile policy base findings errors debt_valid waiver_valid rest f :
  evaluated profile policy base findings errors debt_valid waiver_valid rest ->
  f ∈ findings <-> (exists b, b ∈ base /\ f = treat profile policy debt_valid waiver_valid b) \/ f ∈ rest.
Proof.
  intros []. subst findings. rewrite stable_sort_by_perm, elem_of_app, list_elem_of_fmap. naive_solver.
Qed.

(** every finding of the report explains itself: its policy steps are not
    empty, the first starts from [record], each starts where the one before
    ended, and the last ends at the effective disposition. *)
Theorem trace_explains documents comparisons profile policy inputs findings errors :
  evaluate_with_site documents comparisons profile policy inputs = Ok (findings, errors) ->
  Forall trace_ok findings.
Proof.
  intros (base & dv & wv & rest & _ & Hev)%evaluate_shape. apply Forall_forall. intros f Hf.
  apply (elem_of_evaluated _ _ _ _ _ _ _ _ _ Hev) in Hf as [(b & Hb & ->)|Hf]; destruct Hev as [Hbase Hrest _ _ _ _].
  - rewrite Forall_forall in Hbase. by destruct (treated_spec profile policy dv wv b (proj1 (Hbase b Hb))).
  - rewrite Forall_forall in Hrest. eapply fresh_trace, Hrest, Hf.
Qed.

(** C25: policy only re-dispositions: the findings policy is given come back with
    the same keys, facts, members and attribution, each configured with the
    greatest of the built-in disposition and the raises of the repository policy
    and of the organization floor for its kind (a finding without a candidate
    fact keeps the built-in one, a resolved one records); what is added is
    configured as built in; and the report is sorted by finding key. *)
Theorem evaluation_configures documents comparisons profile policy inputs findings errors :
  evaluate_with_site documents comparisons profile policy inputs = Ok (findings, errors) ->
  exists base treated rest,
    untreated documents comparisons profile inputs = Ok base /\ findings ≡ₚ treated ++ rest /\
    Forall2 (fun f g => same_subject f g /\ fi_configured_disposition g = configured_for policy profile f) base treated /\
    Forall (fresh profile) rest /\
    StronglySorted (fun f g => kle (fi_finding_key f) (fi_finding_key g)) findings.
Proof.
  intros (base & dv & wv & rest & Hb & [Hbase Hrest -> _ _])%evaluate_shape.
  exists base, (map (treat profile policy dv wv) base), rest. split; [done|]. split; [apply stable_sort_by_perm|].
  split; [|split; [by eapply Forall_impl; [exact Hrest|intros f []]|apply stable_sort_by_sorted, _]]. apply Forall2_fmap_r, Forall_Forall2_diag.
  eapply Forall_impl; [exact Hbase|]. intros f [Hf _]. by destruct (treated_spec profile policy dv wv f Hf) as (_ & ? & ?).
Qed.

(** No overlap where one of the two is absent. *)
Ltac idle := cbn; split; [tauto|]; split; [split; [done|intros [[? ?] [? ?]]; done]|done].

(** What a finding carries after the exceptions. *)
Lemma exception_marks policy dv wv f :
  fi_debt f = None -> fi_waiver f = None ->
  let row := apply_valid_exception policy dv wv f in
  (fi_debt row.1 = None \/ fi_waiver row.1 = None) /\
  (row.2 = true <-> is_Some (bt_get (fi_finding_key f) dv) /\ is_Some (bt_get (fi_finding_key f) wv)) /\
  (row.2 = true -> row.1 = f).
Proof.
  intros Hd Hw. cbv zeta. unfold apply_valid_exception.
  destruct (bt_get _ dv) as [i|], (bt_get _ wv) as [j|]; cbn.
  - split; [by left|]. split; [|done]. split; [|done]. intros _. split; by eexists.
  - destruct (e_debt policy) as [context|]; [|idle]. destruct (dc_items context !! i); idle.
  - destruct (e_waiver policy) as [context|]; [|idle]. destruct (wc_items context !! j); [|idle].
    destruct (bool_decide _); idle.
  - idle.
Qed.

(** What lowers a configured failure. *)
Definition lowered_by (profile : Profile.t) (policy : Effects) (findings : list Finding) (f : Finding) : Prop :=
  forgiven profile f = true \/
  exists time, e_time policy = Some time /\
    ((exists index item, debt_item policy index = Some item /\
        debt_applies findings (instant_of time) (fi_finding_key f) item) \/
     (exists context index item, e_waiver policy = Some context /\ waiver_item policy index = Some item /\
        waiver_applies findings context (instant_of time) (fi_finding_key f) item)).

(** C24: a configured failure stands: whenever a finding configured to fail does
    not fail, it warns, and either [enforce-introduced] forgives it as
    pre-existing, or an item of the verified debt snapshot for exactly its key,
    unexpired at the trusted instant, or an item of the verified waiver bundle for
    exactly its key, within its window, for the candidate tree, by an authorized
    issuer other than its owner and of a waivable kind. The fact the item accepts
    is the candidate fact of the finding that stands for the key: the first of the
    report with that key and a candidate fact, which is the finding itself when no
    other has its key; a waiver is of that finding's kind too. *)
Theorem failure_stands documents comparisons profile policy inputs findings errors f :
  evaluate_with_site documents comparisons profile policy inputs = Ok (findings, errors) ->
  f ∈ findings -> fi_configured_disposition f = Disposition.Fail -> fi_effective_disposition f <> Disposition.Fail ->
  fi_effective_disposition f = Disposition.Warn /\ lowered_by profile policy findings f.
Proof.
  intros (base & dv & wv & rest & _ & Hev)%evaluate_shape Hf Hconf Heff.
  apply (elem_of_evaluated _ _ _ _ _ _ _ _ _ Hev) in Hf as [(b & Hb & ->)|Hf];
    destruct Hev as [Hbase Hrest _ [Hdebt Hwaiver _ _] Htarget _].
  2: { rewrite Forall_forall in Hrest. destruct (proj1 (Hrest f Hf)) as [He _ _ _]. congruence. }
  rewrite Forall_forall in Hbase. specialize (proj1 (Hbase b Hb)) as Hfresh.
  destruct (before_spec profile policy b Hfresh) as (S1 & _ & _ & C1 & E1 & T1).
  unfold treat in *. set (g := before_exceptions profile policy b) in *. clearbody g.
  destruct (exception_spec policy dv wv g T1) as (_ & S2 & C2 & E2). cbv zeta in *.
  set (h := (apply_valid_exception policy dv wv g).1) in *. clearbody h.
  assert (fi_finding_key h = fi_finding_key g) as Ek by apply S2.
  assert (forgiven profile h = forgiven profile b) as Efo.
  { unfold forgiven. by rewrite (ss_attribution _ _ S2), (ss_attribution _ _ S1). }
  rewrite C2, C1 in Hconf. rewrite Hconf, bool_decide_true in E1 by done. cbn [andb] in E1.
  unfold lowered_by. rewrite Efo, Ek. unfold excepted in E2.
  destruct (bt_get (fi_finding_key g) dv) as [i|] eqn:Edv, (bt_get (fi_finding_key g) wv) as [j|] eqn:Ewv; cbn in E2.
  - rewrite E2, E1 in *. destruct (forgiven profile b); [|done]. split; [done|by left].
  - destruct (Hdebt _ _ Edv) as (time & item & Ht & Hi & Ha). rewrite Hi in E2. cbn in E2. split; [done|].
    right. exists time. split; [done|]. left. exists i, item. split; [done|]. by apply (debt_applies_target base); [apply Htarget|].
  - destruct (Hwaiver _ _ Ewv) as (time & context & item & Ht & Hc & Hi & Ha). rewrite Hi in E2. cbn in E2.
    destruct (decide _) in E2; cbn in E2.
    + split; [done|]. right. exists time. split; [done|]. right. exists context, j, item.
      split_and!; [done..|]. by apply (waiver_applies_target base); [apply Htarget|].
    + rewrite E2, E1 in *. destruct (forgiven profile b); [|done]. split; [done|by left].
  - rewrite E2, E1 in *. destruct (forgiven profile b); [|done]. split; [done|by left].
Qed.

(** A debt item and a waiver item of the policy that both apply to a key. *)
Definition both_apply (policy : Effects) (findings : list Finding) (k : Digest.t) : Prop :=
  exists time context index item index' item',
    e_time policy = Some time /\ debt_item policy index = Some item /\
    debt_applies findings (instant_of time) k item /\
    e_waiver policy = Some context /\ waiver_item policy index' = Some item' /\
    waiver_applies findings context (instant_of time) k item'.

Lemma both_apply_valid policy findings dv wv k :
  exceptions_ok policy findings dv wv ->
  both_apply policy findings k <-> is_Some (bt_get k dv) /\ is_Some (bt_get k wv).
Proof.
  intros [Hd Hw Hed Hew]. split.
  - intros (time & context & i & item & j & item' & H1 & H2 & H3 & H4 & H5 & H6). split; [by eapply Hed|by eapply Hew].
  - intros [[i Hi] [j Hj]]. destruct (Hd k i Hi) as (time & item & H1 & H2 & H3).
    destruct (Hw k j Hj) as (time' & context & item' & H4 & H5 & H6 & H7). rewrite H1 in H4. injection H4 as <-.
    by exists time, context, i, item, j, item'.
Qed.

(** Something stands for a key that a valid item names. *)
Lemma both_apply_target policy findings k :
  both_apply policy findings k -> exists f, f ∈ findings /\ fi_finding_key f = k.
Proof.
  intros (time & context & i & item & j & item' & _ & _ & [_ (f & fact & Hf & _) _] & _).
  destruct (target_stands _ _ _ Hf) as (Hin & Hk & _). eauto.
Qed.

(** C26: exceptions exclude each other. No finding carries both a debt and a
    waiver. Policy adds no error, or the one exception overlap row; it adds the row
    if and only if for some key a debt item and a waiver item of the verified
    documents both apply to the findings policy is given: each names the key and
    the fact of the finding that stands for it (the first of the key with a
    candidate fact), the debt is unexpired at the trusted instant, and the waiver
    is of the candidate's tree and of that finding's kind, inside its window, by an
    authorized issuer other than its owner and of a waivable kind. And no finding
    of such a key carries either. *)
Theorem exceptions_exclusive documents comparisons profile policy inputs findings errors :
  evaluate_with_site documents comparisons profile policy inputs = Ok (findings, errors) ->
  exists base,
    untreated documents comparisons profile inputs = Ok base /\
    Forall (fun f => fi_debt f = None \/ fi_waiver f = None) findings /\
    (errors = [] \/ errors = [exception_overlap_row]) /\
    (errors = [exception_overlap_row] <-> exists k, both_apply policy base k) /\
    Forall (fun f => both_apply policy base (fi_finding_key f) -> fi_debt f = None /\ fi_waiver f = None) findings.
Proof.
  intros (base & dv & wv & rest & Hb & Hev)%evaluate_shape. exists base. split; [done|].
  pose proof (fun f => proj1 (elem_of_evaluated _ _ _ _ _ _ _ _ f Hev)) as Hin.
  destruct Hev as [Hbase Hrest _ Hok _ ->]. rewrite Forall_forall in Hbase, Hrest.
  assert (forall b, b ∈ base ->
    let row := apply_valid_exception policy dv wv (before_exceptions profile policy b) in
    (fi_debt row.1 = None \/ fi_waiver row.1 = None) /\ (row.2 = true <-> both_apply policy base (fi_finding_key b)) /\
    (row.2 = true -> fi_debt row.1 = None /\ fi_waiver row.1 = None) /\ fi_finding_key row.1 = fi_finding_key b)
    as Hrow.
  { intros b Hinb. destruct (before_spec profile policy b (proj1 (Hbase b Hinb))) as (S & Hd & Hw & _ & _ & T).
    destruct (exception_marks policy dv wv _ Hd Hw) as (Hone & Hiff & Hsame).
    destruct (exception_spec policy dv wv _ T) as (_ & S' & _). cbv zeta in *.
    split; [done|]. rewrite (both_apply_valid _ _ _ _ _ Hok), <- (ss_finding_key _ _ S). split; [done|].
    split; [by intros ->%Hsame|apply S']. }
  split_and!.
  - apply Forall_forall. intros f [(b & Hinb & ->)|Hf]%Hin; [by apply Hrow|]. left. by destruct (proj1 (Hrest f Hf)).
  - destruct (existsb _ base); [by right|by left].
  - destruct (existsb _ base) eqn:E; (split; [intros|]); try done.
    + apply existsb_exists in E as (b & Hinb%list_elem_of_In & E). exists (fi_finding_key b). by apply Hrow.
    + intros (k & Hk). destruct (both_apply_target _ _ _ Hk) as (b & Hinb & <-).
      apply Hrow in Hk; [|done]. exfalso. rewrite <- not_true_iff_false in E. apply E, existsb_exists.
      exists b. split; [by apply list_elem_of_In|done].
  - apply Forall_forall. intros f [(b & Hinb & ->)|Hf]%Hin Hk.
    + destruct (Hrow b Hinb) as (_ & Hiff & Hnone & Ek). unfold treat in *. rewrite Ek in Hk. by apply Hnone, Hiff.
    + by destruct (proj1 (Hrest f Hf)).
Qed.

(** C31: every finding identifies itself: its key is the digest of its key input,
    and each of its facts is under its own digest and is of that key and kind. *)
Theorem findings_identified documents comparisons profile policy inputs findings errors :
  evaluate_with_site documents comparisons profile policy inputs = Ok (findings, errors) ->
  Forall identified findings.
Proof.
  intros (base & dv & wv & rest & _ & Hev)%evaluate_shape. apply Forall_forall. intros f Hf.
  apply (elem_of_evaluated _ _ _ _ _ _ _ _ _ Hev) in Hf as [(b & Hb & ->)|Hf]; destruct Hev as [Hbase Hrest _ _ _ _].
  - rewrite Forall_forall in Hbase. destruct (Hbase b Hb) as [Hf Hid].
    destruct (treated_spec profile policy dv wv b Hf) as (_ & S & _). by eapply same_subject_identified.
  - rewrite Forall_forall in Hrest. apply Hrest, Hf.
Qed.

(** C23: no failing reference is lost between the snapshots and the report: for
    every observation of the candidate that resolves to a structural failure,
    the evaluation of the correlated sides has a finding under the digest of
    that failure's key, with the observation among its members and a candidate
    fact, and it is not attributed as resolved. *)
Theorem failure_reported base candidate documents comparisons profile policy inputs findings errors observation kind :
  correlate base candidate = Ok comparisons ->
  evaluate_with_site documents comparisons profile policy inputs = Ok (findings, errors) ->
  observation ∈ s_observations candidate ->
  structural (resolution_kinds (o_resolution observation)) = Some kind ->
  exists f, f ∈ findings /\ reports kind observation f.
Proof.
  intros (_ & _ & (pairs & members & Hex) & _)%correlate_inv
    (before & dv & wv & rest & Hb & Hev)%evaluate_shape Ho Hk.
  assert (exists row, row ∈ comparisons /\ observation ∈ occurrences row) as (row & Hrow & Hin).
  { rewrite <- (explained_candidate _ _ _ _ _ _ Hex) in Ho. apply list_elem_of_In, in_flat_map in Ho as (row & H1 & H2).
    exists row. by split; apply list_elem_of_In. }
  destruct (untreated_reports documents comparisons profile inputs before Hb row observation kind Hrow Hin Hk)
    as (f & Hf & [R1 R2 R3 R4]).
  exists (treat profile policy dv wv f). split.
  - apply (elem_of_evaluated _ _ _ _ _ _ _ _ _ Hev). left. by exists f.
  - destruct Hev as [Hbase _ _ _ _ _]. rewrite Forall_forall in Hbase.
    destruct (treated_spec profile policy dv wv f (proj1 (Hbase f Hf))) as (_ & [S1 S2 S3 S4 S5 S6] & _).
    split; [by rewrite S2|by rewrite S6|by rewrite S5|by rewrite S3].
Qed.
End Guarantees.

(** ** Example: the example sides of the correlation under a debt snapshot and a
    waiver bundle; the first finding is in debt, the second in both. *)

#[local] Existing Instances toy_hash unit_types.
#[local] Existing Instance toy_hash_laws.
#[local] Instance ex_key_canon : Canon ReportFindingKeyInput :=
  fun key => Some (FindingKind.as_ref (ki_finding_kind key) ++
    match ki_scope key with
    | FindingKeyScope.Reference document _ projection _ => document ++ Digest.as_bytes projection
    | FindingKeyScope.Observation id => Digest.as_bytes id
    | FindingKeyScope.Document document => document
    | FindingKeyScope.Control _ rule_id => rule_id
    end).
#[local] Instance ex_fact_canon : Canon FindingFactInput := fun input => canonical (fa_key_input input).
#[local] Instance ex_percent : PercentDecode := fun text => text.
#[local] Instance ex_scanner : DocumentScanner := fun _ _ => Some [].

Definition ex_run (policy : Effects) : res (list Finding * list ErrorDetail) ScanError.t :=
  evaluate_with_site [] example_rows Profile.EnforceIntroduced policy
    (mkGovernedInputs (mkSiteEvaluation None []) [] [] [] []).
Definition ex_findings (policy : Effects) : list Finding := match ex_run policy with Ok (fs, _) => fs | _ => [] end.
Definition ex_debt (f : Finding) : DebtItem :=
  mkDebtItem (b_ "d") (fi_finding_key f) ex_fact (match fi_candidate_fact f with Some c => ff_digest c | None => fi_finding_key f end)
    (b_ "team:docs") (b_ "moved next week") (b_ "2026-01-01T00:00:00Z") (b_ "2026-02-01T00:00:00Z").
Definition ex_waive (f : Finding) : WaiverItem :=
  mkWaiverItem (b_ "w") (fi_finding_key f) ex_fact (dbi_accepted_fact_digest (ex_debt f)) (ex_tree "1") (b_ "team:docs")
    (b_ "user:lead") (b_ "moved next week") (b_ "2026-01-01T00:00:00Z") (b_ "2026-01-01T00:00:00Z")
    (b_ "2026-02-01T00:00:00Z").
Definition ex_time : TimeContext :=
  mkTimeContext (mkTrustedTimeStatement ex_control_key (b_ "2026-01-15T00:00:00Z") (b_ "github") 1 (b_ "7")
    (b_ "refs/heads/main") ex_repository (b_ "2026-01-15T00:10:00Z")) ex_control_digest.
Definition ex_effects : Effects :=
  let plain := ex_findings default_effects in
  mkEffects [] [] [] None None None
    (Some (mkDebtContext ex_control_key RequestTrust.OrganizationPolicy (ex_tree "0") (map ex_debt (take 2 plain))))
    (Some (mkWaiverContext ex_control_key RequestTrust.OrganizationPolicy (ex_tree "1")
       (map ex_waive (take 1 (drop 1 plain))) [b_ "user:lead"] [EligibleFindingKind.ExplicitTargetMissing]))
    (Some ex_time) None [] 64 100 1000 [].
Definition ex_first : Finding :=
  match ex_findings ex_effects with
  | f :: _ => f
  | [] => mkFinding (mkFindingKeyInput FindingKind.InvalidReference (FindingKeyScope.Document [])) ex_control_key
            Attribution.Unknown None None 0 [] (mkLocation LocationSide.Global None None None) Disposition.Fail
            Disposition.Fail [] None None None
  end.

Lemma ex_outcome : ex_run ex_effects = Ok (ex_findings ex_effects, [exception_overlap_row]).
Proof.
  assert (match ex_run ex_effects with Ok (_, errors) => errors = [exception_overlap_row] | _ => False end) as H
    by (by vm_compute).
  unfold ex_findings. destruct (ex_run ex_effects) as [[fs errors]| |]; [by rewrite H|done..].
Qed.

Lemma ex_first_elem : ex_first ∈ ex_findings ex_effects.
Proof.
  assert (ex_findings ex_effects <> []) as H by (by vm_compute). unfold ex_first.
  destruct (ex_findings ex_effects); [done|by left].
Qed.

Lemma evaluation_total_witness :
  match evaluate_with_site [] example_rows Profile.EnforceIntroduced ex_effects
    (mkGovernedInputs (mkSiteEvaluation None []) [] [] [] []) with
  | Ok _ => True
  | Err e => e = ScanError.Internal /\ ~ (canonicalizable /\ texts_ok (mkGovernedInputs (mkSiteEvaluation None []) [] [] [] []))
  | OutOfFuel => False
  end.
Proof.
  pose proof (evaluation_total [] example_rows Profile.EnforceIntroduced ex_effects
    (mkGovernedInputs (mkSiteEvaluation None []) [] [] [] [])) as H.
  exact H.
Defined.

Lemma trace_explains_witness : Forall trace_ok (ex_findings ex_effects).
Proof. eapply trace_explains, ex_outcome. Defined.

Lemma evaluation_configures_witness :
  exists base treated rest,
    untreated [] example_rows Profile.EnforceIntroduced (mkGovernedInputs (mkSiteEvaluation None []) [] [] [] []) = Ok base /\
    ex_findings ex_effects ≡ₚ treated ++ rest /\
    Forall2 (fun f g => same_subject f g /\
      fi_configured_disposition g = configured_for ex_effects Profile.EnforceIntroduced f) base treated /\
    Forall (fresh Profile.EnforceIntroduced) rest /\
    StronglySorted (fun f g => kle (fi_finding_key f) (fi_finding_key g)) (ex_findings ex_effects).
Proof. eapply evaluation_configures, ex_outcome. Defined.

Lemma failure_stands_witness :
  fi_effective_disposition ex_first = Disposition.Warn /\
  lowered_by Profile.EnforceIntroduced ex_effects (ex_findings ex_effects) ex_first.
Proof.
  eapply failure_stands; [apply ex_outcome|apply ex_first_elem|by vm_compute|by vm_compute].
Defined.

Lemma exceptions_exclusive_witness :
  exists base,
    untreated [] example_rows Profile.EnforceIntroduced (mkGovernedInputs (mkSiteEvaluation None []) [] [] [] []) = Ok base /\
    Forall (fun f => fi_debt f = None \/ fi_waiver f = None) (ex_findings ex_effects) /\
    ([exception_overlap_row] = [] \/ [exception_overlap_row] = [exception_overlap_row]) /\
    ([exception_overlap_row] = [exception_overlap_row] <-> exists k, both_apply ex_effects base k) /\
    Forall (fun f => both_apply ex_effects base (fi_finding_key f) -> fi_debt f = None /\ fi_waiver f = None)
      (ex_findings ex_effects).
Proof. eapply exceptions_exclusive, ex_outcome. Defined.

Lemma findings_identified_witness : Forall identified (ex_findings ex_effects).
Proof. eapply findings_identified, ex_outcome. Defined.

Lemma failure_reported_witness :
  exists f, f ∈ ex_findings ex_effects /\
    reports FindingKind.ExplicitTargetMissing (example_observation "6" (b_ "z.md") "q") f.
Proof.
  eapply failure_reported; [exact example_correlates|exact ex_outcome| |by vm_compute]. by left.
Defined.
