(* ===== verification/CtlModel.v ===== *)
(** The controller's data: [controller/src/identity.rs] (provider and delivery
    identities, run identities), the publication of [provider.rs], the artifact
    references of [artifacts.rs], the check binding of [bootstrap_job.rs], the
    accepted delivery of [ingress.rs] and the well-formedness of a run
    ([orchestration/model.rs]).

    A validated string type ([ProviderNamespace], [OpaqueId], [BranchRef]) is
    the list of its bytes; a [NonZeroU64] is a [Z]. *)
From Stdlib Require Import Strings.Byte Strings.String Lia.
From stdpp Require Import base numbers list.
From S2P Require Import Prelude Codec WireModel WireIdentity OrdMap Observation.

Definition i64_max : Z := 9223372036854775807.
Definition i64_min : Z := -9223372036854775808.

(** [i64::checked_add] and [i64::checked_sub]. *)
Definition checked_add_i64 (a b : i64) : option i64 :=
  if (i64_min <=? a + b) && (a + b <=? i64_max) then Some (a + b) else None.
Definition checked_sub_i64 (a b : i64) : option i64 :=
  if (i64_min <=? a - b) && (a - b <=? i64_max) then Some (a - b) else None.

Lemma checked_add_i64_Some a b c :
  checked_add_i64 a b = Some c <-> c = a + b /\ i64_min <= a + b <= i64_max.
Proof.
  unfold checked_add_i64. destruct (Z.leb_spec i64_min (a + b)), (Z.leb_spec (a + b) i64_max);
    cbn [andb]; naive_solver lia.
Qed.

(** ** Validated strings *)

Module ByteClass.
Inductive t := Namespace | Opaque.

Definition admits (class : t) (byte : Byte.byte) : bool :=
  match class with
  | Namespace => is_ascii_lowercase byte || is_ascii_digit byte || beqb byte "." || beqb byte "-"
  | Opaque => is_ascii_alphanumeric byte || existsb (beqb byte) (b_ "._:/@+-")
  end.
End ByteClass.

(** The loop of [bounded]. *)
Fixpoint admitted (class : ByteClass.t) (rest : bytes) : bool :=
  match rest with
  | [] => true
  | byte :: tail => if negb (ByteClass.admits class byte) then false else admitted class tail
  end.

Definition bounded (raw : bytes) (maximum : usize) (class : ByteClass.t) : bool :=
  if match raw with [] => true | _ => false end || (maximum <? len raw) then false
  else admitted class raw.

Module ProviderNamespace.
Definition valid (raw : bytes) : bool :=
  match raw with
  | first :: _ => (is_ascii_lowercase first || is_ascii_digit first) && bounded raw 64 ByteClass.Namespace
  | [] => false
  end.
Definition try_from (raw : bytes) : option bytes := if valid raw then Some raw else None.
End ProviderNamespace.

Module OpaqueId.
Definition valid (raw : bytes) : bool := bounded raw 256 ByteClass.Opaque.
Definition try_from (raw : bytes) : option bytes := if valid raw then Some raw else None.
End OpaqueId.

Module ProviderRunAttempt.
Definition valid (raw : u64) : bool := negb (raw =? 0) && (raw <=? 9007199254740991).
Definition try_from (raw : u64) : option u64 := if valid raw then Some raw else None.
End ProviderRunAttempt.

Notation ProviderNamespaceT := bytes (only parsing).
Notation OpaqueIdT := bytes (only parsing).
Notation BranchRefT := bytes (only parsing).

(** ** Identities *)

#[export] Instance RepositoryIdentity_eq_dec : EqDecision RepositoryIdentity.t.
Proof. solve_decision. Defined.

Record PipelineJob := mkPipelineJob { pipeline_id : u64; job_id : u64 }.
#[export] Instance PipelineJob_eq_dec : EqDecision PipelineJob.
Proof. solve_decision. Defined.

Module ProviderRun.
Inductive t := PullRequest (digest : Digest.t) | Job (job : PipelineJob).
#[global] Instance eq_dec : EqDecision t.
Proof. solve_decision. Defined.
End ProviderRun.

Record ProviderRunIdentity := mkProviderRunIdentity {
  pr_run : ProviderRun.t;
  pr_attempt : u64;
  pr_object_format : ObjectFormat;
  pr_candidate_commit : Oid.t
}.
#[export] Instance ProviderRunIdentity_eq_dec : EqDecision ProviderRunIdentity.
Proof. solve_decision. Defined.

(** [ProviderRunIdentity::is_valid] and [new]. *)
Definition provider_run_valid (r : ProviderRunIdentity) : bool :=
  bool_decide (Oid.object_format (pr_candidate_commit r) = pr_object_format r).
Definition provider_run_new (run : ProviderRun.t) (attempt : u64) (object_format : ObjectFormat)
    (candidate_commit : Oid.t) : option ProviderRunIdentity :=
  let identity := mkProviderRunIdentity run attempt object_format candidate_commit in
  if provider_run_valid identity then Some identity else None.

Record ProviderIdentity := mkProviderIdentity { pi_namespace : ProviderNamespaceT; pi_instance : OpaqueIdT }.
#[export] Instance ProviderIdentity_eq_dec : EqDecision ProviderIdentity.
Proof. solve_decision. Defined.

Definition provider_identity_new (namespace instance : bytes) : option ProviderIdentity :=
  match ProviderNamespace.try_from namespace with
  | Some namespace =>
      match OpaqueId.try_from instance with
      | Some instance => Some (mkProviderIdentity namespace instance)
      | None => None
      end
  | None => None
  end.

Record OidcToken := mkOidcToken { runner_id : u64; jti : Digest.t }.
#[export] Instance OidcToken_eq_dec : EqDecision OidcToken.
Proof. solve_decision. Defined.

Module Delivery.
Inductive t := Provided (id : OpaqueIdT) | Body (digest : Digest.t) | Token (token : OidcToken).
#[global] Instance eq_dec : EqDecision t.
Proof. solve_decision. Defined.
End Delivery.

Record DeliveryIdentity := mkDeliveryIdentity {
  di_provider : ProviderIdentity;
  di_integration : OpaqueIdT;
  di_delivery : Delivery.t
}.
#[export] Instance DeliveryIdentity_eq_dec : EqDecision DeliveryIdentity.
Proof. solve_decision. Defined.

Record PullRequestChange := mkPullRequestChange {
  pc_repository_id : u64; pc_pull_request_id : u64; pc_number : u64
}.
#[export] Instance PullRequestChange_eq_dec : EqDecision PullRequestChange.
Proof. solve_decision. Defined.

Record MergeRequestChange := mkMergeRequestChange { mc_project_id : u64; mc_iid : u64 }.
#[export] Instance MergeRequestChange_eq_dec : EqDecision MergeRequestChange.
Proof. solve_decision. Defined.

Module Change.
Inductive t := PullRequest (change : PullRequestChange) | MergeRequest (change : MergeRequestChange).
#[global] Instance eq_dec : EqDecision t.
Proof. solve_decision. Defined.
End Change.

Record ChangeLocator := mkChangeLocator {
  cl_provider : ProviderIdentity;
  cl_repository : RepositoryIdentity.t;
  cl_change : Change.t
}.
#[export] Instance ChangeLocator_eq_dec : EqDecision ChangeLocator.
Proof. solve_decision. Defined.

Module ChangeState.
Inductive t := Active | Superseded | Closed | AuthorizationRevoked.
#[global] Instance eq_dec : EqDecision t.
Proof. solve_decision. Defined.
End ChangeState.

Record RunRefs := mkRunRefs {
  rr_forge : ForgeDialect; rr_candidate : BranchRefT; rr_target : BranchRefT; rr_default_branch : BranchRefT
}.
#[export] Instance RunRefs_eq_dec : EqDecision RunRefs.
Proof. solve_decision. Defined.

Record OidPair := mkOidPair { op_base : Oid.t; op_candidate : Oid.t }.
#[export] Instance OidPair_eq_dec : EqDecision OidPair.
Proof. solve_decision. Defined.

(** [OidPair::well_formed]. *)
Definition well_formed (pair : OidPair) (f : ObjectFormat) : bool :=
  forallb (fun oid => bool_decide (Oid.object_format oid = f)) [op_base pair; op_candidate pair].
#[global] Arguments well_formed : simpl never.

Record RunIdentity := mkRunIdentity {
  ri_change : ChangeLocator;
  ri_refs : RunRefs;
  ri_object_format : ObjectFormat;
  ri_commits : OidPair;
  ri_trees : OidPair
}.
#[export] Instance RunIdentity_eq_dec : EqDecision RunIdentity.
Proof. solve_decision. Defined.

(** [RunIdentity::new]. *)
Definition run_identity_new (change : ChangeLocator) (refs : RunRefs) (f : ObjectFormat)
    (commits trees : OidPair) : option RunIdentity :=
  if negb (well_formed commits f) || negb (well_formed trees f) then None
  else Some (mkRunIdentity change refs f commits trees).

Record ChangeSnapshot := mkChangeSnapshot {
  cs_state : ChangeState.t; cs_run : RunIdentity; cs_gate_commit : Oid.t
}.

Record ProviderFacts := mkProviderFacts {
  pf_provider : ProviderIdentity;
  pf_integration : OpaqueIdT;
  pf_change : ChangeLocator;
  pf_provider_run : ProviderRunIdentity
}.

Record AuthenticatedDelivery := mkAuthenticatedDelivery {
  ad_identity : DeliveryIdentity;
  ad_change : ChangeLocator;
  ad_provider_run : ProviderRunIdentity
}.
#[export] Instance AuthenticatedDelivery_eq_dec : EqDecision AuthenticatedDelivery.
Proof. solve_decision. Defined.

(** ** Accepted deliveries *)

Record ReplayWindow := mkReplayWindow { max_signed_age_millis : i64; max_queue_age_millis : i64 }.
#[export] Instance ReplayWindow_eq_dec : EqDecision ReplayWindow.
Proof. solve_decision. Defined.

Module ReplayKeep.
Inductive t := Permanent | KeepThrough (unix_millis : i64) (window : ReplayWindow).
#[global] Instance eq_dec : EqDecision t.
Proof. solve_decision. Defined.
End ReplayKeep.

Record AcceptedDelivery := mkAcceptedDelivery {
  acc_delivery : AuthenticatedDelivery; acc_replay_keep : ReplayKeep.t
}.

(** [AcceptedDelivery::replay_keep_through_unix_millis]. *)
Definition replay_keep_through (d : AcceptedDelivery) : option i64 :=
  match acc_replay_keep d with
  | ReplayKeep.Permanent => None
  | ReplayKeep.KeepThrough unix_millis _ => Some unix_millis
  end.

(** ** Publications *)

Record CheckBinding := mkCheckBinding {
  plan_digest : Digest.t; required_status_name : bytes; execution_constraint_digest : Digest.t
}.
#[export] Instance CheckBinding_eq_dec : EqDecision CheckBinding.
Proof. solve_decision. Defined.

Module RunFailure.
Inductive t :=
  | MissingOutput | Timeout | TamperedRuntime | Unavailable | OversizedOutput | WrongIdentity
  | WrongTree | AuthorizationRevoked | Closed.
#[global] Instance eq_dec : EqDecision t.
Proof. solve_decision. Defined.
End RunFailure.

Module CheckConclusion.
Inductive t := Pass | Block | Superseded | Unavailable (failure : RunFailure.t).
#[global] Instance eq_dec : EqDecision t.
Proof. solve_decision. Defined.
End CheckConclusion.

Record ExternalTally := mkExternalTally { et_refuted : u64; et_unproven : u64; et_reachable : u64 }.
#[export] Instance ExternalTally_eq_dec : EqDecision ExternalTally.
Proof. solve_decision. Defined.

Record ArtifactReference := mkArtifactReference {
  ar_id : bytes;
  ar_locator : bytes;
  ar_expires_at_unix_millis : i64;
  ar_report_digest : Digest.t;
  ar_assessment_digest : option Digest.t;
  ar_external_tally : option ExternalTally;
  ar_external_incomplete : bool;
  ar_semantic_digest : option Digest.t
}.
#[export] Instance ArtifactReference_eq_dec : EqDecision ArtifactReference.
Proof. solve_decision. Defined.

Record Publication := mkPublication {
  p_provider_run : ProviderRunIdentity;
  p_evaluation_id : OpaqueIdT;
  p_check : CheckBinding;
  p_run : RunIdentity;
  p_gate_commit : Oid.t;
  p_conclusion : CheckConclusion.t;
  p_report : option bytes;
  p_artifact : option ArtifactReference
}.
#[export] Instance Publication_eq_dec : EqDecision Publication.
Proof. solve_decision. Defined.

(** ** Artifact references *)

Definition lower_hex_digit (byte : Byte.byte) : bool :=
  is_ascii_digit byte || ((97 <=? u8 byte) && (u8 byte <=? 102)).

(** [artifacts::format::valid_artifact_id] and the ledger's [validate_key] test
    the same grammar. *)
Definition valid_artifact_id (id : bytes) : bool := (len id =? 64) && forallb lower_hex_digit id.

(** A parsed URL of the [url] crate. *)
Record Url := mkUrl {
  url_scheme : bytes; url_host_str : option bytes; url_username : bytes; url_password : option bytes;
  url_query : option bytes; url_fragment : option bytes; url_path : bytes; url_as_str : bytes
}.
Class UrlParser := { url_parse : bytes -> option Url }.

Definition route_byte (byte : Byte.byte) : bool :=
  is_ascii_alphanumeric byte || existsb (beqb byte) (b_ "-._~").

Section Artifacts.
Context `{UrlParser} `{HH : Hashes} {HHL : HashLaws HH}.

Definition artifact_route (base_url : bytes) : option bytes :=
  if (2048 <? len base_url) || RepositoryIdentity.is_some_and (beqb "/") (last base_url) then None
  else
    match url_parse base_url with
    | None => None
    | Some parsed =>
        let path := url_path parsed in
        match (if bytes_eqb path (b_ "/") then Some false
               else option_map
                      (fun rest => forallb (fun segment => nonempty segment && forallb route_byte segment)
                                     (RepositoryIdentity.split_slash rest))
                      (strip_prefix (b_ "/") path)) with
        | None => None
        | Some valid_path =>
            if bytes_eqb (url_scheme parsed) (b_ "https") && is_some (url_host_str parsed)
               && negb (nonempty (url_username parsed)) && is_none (url_password parsed)
               && is_none (url_query parsed) && is_none (url_fragment parsed)
               && bytes_eqb (url_as_str parsed) base_url && valid_path
            then Some path else None
        end
    end.

(** [str::rsplit_once('/')]. *)
Definition rsplit_once_slash (l : bytes) : option (bytes * bytes) :=
  match rposition (beqb "/") l with
  | Some i => Some (take (Z.to_nat i) l, drop (Z.to_nat (i + 1)) l)
  | None => None
  end.

Definition valid_reference (reference : ArtifactReference) : bool :=
  valid_artifact_id (ar_id reference)
  && RepositoryIdentity.is_some_and
       (fun '(base, id) => bytes_eqb id (ar_id reference) && is_some (artifact_route base))
       (match strip_suffix (b_ "/report") (ar_locator reference) with
        | Some path => rsplit_once_slash path
        | None => None
        end)
  && (0 <=? ar_expires_at_unix_millis reference)
  && negb (ar_external_incomplete reference && is_some (ar_external_tally reference))
  && Bool.eqb (is_some (ar_assessment_digest reference)) (is_some (ar_external_tally reference)).

Definition reference_matches_report (reference : ArtifactReference) (report : option bytes) : bool :=
  RepositoryIdentity.is_some_and
    (fun data => bool_decide (sha256_digest data = ar_report_digest reference)) report.
End Artifacts.
