(* ===== verification/CtlIngress.v ===== *)
(** Trusted ingress: [controller/src/ingress.rs], [ingress/policy.rs] and
    [ingress/binding.rs]. What an untrusted delivery must satisfy before and
    after its provider authenticates it, how long it must be remembered, and
    the digest that binds a proof to the exact request. *)
From Stdlib Require Import Strings.Byte Strings.String Lia.
From stdpp Require Import base numbers list.
From S2P Require Import Prelude Codec WireModel WireIdentity CtlModel.

(** ** Requests *)

(** [std::time::Duration]: [nanos] is below one thousand million. *)
Record Duration := mkDuration { as_secs : u64; subsec_nanos : u32 }.
Definition as_millis (d : Duration) : Z := as_secs d * 1000 + subsec_nanos d / 1000000.

Module SignedTimePolicy.
Inductive t := ReplayOnly | Required (max_age : Duration).
End SignedTimePolicy.

Record DeliveryRoute := mkDeliveryRoute {
  dr_provider : ProviderIdentity; dr_trust_set : OpaqueIdT; dr_signed_time : SignedTimePolicy.t
}.

Record DeliveryHeader := mkDeliveryHeader { h_name : bytes; h_value : bytes }.

Record UntrustedDelivery := mkUntrustedDelivery {
  ud_route : DeliveryRoute;
  ud_received_at_unix_millis : i64;
  ud_headers : list DeliveryHeader;
  ud_body : bytes
}.

Module ReplayIdentity.
Inductive t := Authenticated (delivery : Delivery.t) | ExactBody.
End ReplayIdentity.

Module IngressError.
Inductive t := Clock | Limits | Policy | Request | Route | Freshness | Replay.
#[global] Instance eq_dec : EqDecision t.
Proof. solve_decision. Defined.
End IngressError.
Import IngressError.

(** [nonnegative_millis] and [positive_millis]. *)
Definition nonnegative_millis (d : Duration) : option i64 :=
  if as_millis d <=? i64_max then Some (as_millis d) else None.
Definition positive_millis (d : Duration) : option i64 :=
  match nonnegative_millis d with
  | Some value => if 0 <? value then Some value else None
  | None => None
  end.

(** [ReplayWindow::new]. *)
Definition replay_window_new (max_signed_age max_queue_age : Duration) : option ReplayWindow :=
  match positive_millis max_signed_age with
  | None => None
  | Some signed =>
      match positive_millis max_queue_age with
      | None => None
      | Some queue => Some (mkReplayWindow signed queue)
      end
  end.

(** ** Limits *)

Record IngressLimits := mkIngressLimits { body_bytes : usize; header_count : usize; header_bytes : usize }.

Definition ingress_limits_new (max_body_bytes max_header_count max_header_bytes : usize) : option IngressLimits :=
  if (max_body_bytes =? 0) || (max_header_count =? 0) || (max_header_bytes =? 0) then None
  else Some (mkIngressLimits max_body_bytes max_header_count max_header_bytes).

(** The running total of [accepts]; [None] is an overflow. *)
Fixpoint header_total (headers : list DeliveryHeader) (total : usize) : option usize :=
  match headers with
  | [] => Some total
  | header :: headers =>
      match checked_add total (len (h_name header)) with
      | None => None
      | Some total =>
          match checked_add total (len (h_value header)) with
          | None => None
          | Some total => header_total headers total
          end
      end
  end.

Definition accepts (limits : IngressLimits) (d : UntrustedDelivery) : bool :=
  if (body_bytes limits <? len (ud_body d)) || (header_count limits <? len (ud_headers d)) then false
  else match header_total (ud_headers d) 0 with
       | Some total => total <=? header_bytes limits
       | None => false
       end.

(** ** The request binding *)

Definition DOMAIN : bytes := b_ "amiss/controller-ingress-request-v1".

(** [to_be_bytes] of an [i64]. *)
Definition i64_be (v : i64) : bytes := to_be 8 (v mod 2 ^ 64).

Definition frame_len (n : usize) : option bytes := if n <=? u64_max then Some (to_be 8 n) else None.
Definition frame (value : bytes) : option bytes :=
  match frame_len (len value) with Some length => Some (length ++ value) | None => None end.

Fixpoint frame_headers (headers : list DeliveryHeader) : option bytes :=
  match headers with
  | [] => Some []
  | header :: headers =>
      match frame (h_name header), frame (h_value header), frame_headers headers with
      | Some name, Some value, Some rest => Some (name ++ value ++ rest)
      | _, _, _ => None
      end
  end.

Definition signed_time_bytes (policy : SignedTimePolicy.t) : bytes :=
  match policy with
  | SignedTimePolicy.ReplayOnly => [x00]
  | SignedTimePolicy.Required max_age => [x01] ++ to_be 8 (as_secs max_age) ++ to_be 4 (subsec_nanos max_age)
  end.

(** The bytes [RequestBinding::new] feeds the digest. *)
Definition binding_bytes (d : UntrustedDelivery) : option bytes :=
  let provider := dr_provider (ud_route d) in
  match frame (pi_namespace provider), frame (pi_instance provider), frame (dr_trust_set (ud_route d)),
        frame_len (len (ud_headers d)), frame_headers (ud_headers d), frame (ud_body d) with
  | Some namespace, Some instance, Some trust_set, Some count, Some headers, Some body =>
      Some (DOMAIN ++ [x00] ++ namespace ++ instance ++ trust_set ++ signed_time_bytes (dr_signed_time (ud_route d))
            ++ i64_be (ud_received_at_unix_millis d) ++ count ++ headers ++ body)
  | _, _, _, _, _, _ => None
  end.

Record VerifiedDelivery := mkVerifiedDelivery {
  vd_facts : ProviderFacts;
  vd_trust_set : OpaqueIdT;
  vd_anchor : OpaqueIdT;
  vd_issued_at_unix_millis : option i64;
  vd_replay : ReplayIdentity.t;
  vd_request : bytes
}.

(** ** The policy *)

Record IngressPolicy := mkIngressPolicy {
  ip_limits : IngressLimits; ip_replay_window : ReplayWindow; ip_future_skew_millis : i64
}.

Definition ingress_policy_new (limits : IngressLimits) (window : ReplayWindow) (future_skew : Duration) :
    option IngressPolicy :=
  match nonnegative_millis future_skew with
  | Some skew => Some (mkIngressPolicy limits window skew)
  | None => None
  end.

Definition check_window (value reference maximum_age future_skew : i64) : res unit IngressError.t :=
  if (value <? 0) || (reference <? 0) then Err Clock
  else
    let '(distance, limit) :=
      (if reference <? value then (checked_sub_i64 value reference, future_skew)
       else (checked_sub_i64 reference value, maximum_age)) in
    let? distance := ok_or distance Clock in
    if distance <=? limit then Ok tt else Err Freshness.

(** [IngressCheck]; [ic_request] is the request binding. *)
Record IngressCheck := mkIngressCheck {
  ic_delivery : UntrustedDelivery; ic_now : i64; ic_signed_max_age_millis : option i64; ic_request : bytes
}.

Section Ingress.
Context `{HH : Hashes} {HHL : HashLaws HH}.

Definition request_binding (d : UntrustedDelivery) : option bytes :=
  match binding_bytes d with Some b => Some (sha256 b) | None => None end.

(** [pre_auth]; [clock] is what the controller clock reads. *)
Definition pre_auth (policy : IngressPolicy) (delivery : UntrustedDelivery) (clock : option i64) :
    res IngressCheck IngressError.t :=
  if negb (accepts (ip_limits policy) delivery) then Err Limits
  else
    let? signed_max_age_millis :=
      match dr_signed_time (ud_route delivery) with
      | SignedTimePolicy.ReplayOnly => Ok None
      | SignedTimePolicy.Required max_age =>
          let? max_age := ok_or (positive_millis max_age) Policy in
          if max_signed_age_millis (ip_replay_window policy) <? max_age then Err Policy else Ok (Some max_age)
      end in
    let? now :=
      match clock with
      | Some value => if 0 <=? value then Ok value else Err Clock
      | None => Err Clock
      end in
    let? _ := check_window (ud_received_at_unix_millis delivery) now
                (max_queue_age_millis (ip_replay_window policy)) (ip_future_skew_millis policy) in
    let? request := ok_or (request_binding delivery) Limits in
    Ok (mkIngressCheck delivery now signed_max_age_millis request).

Definition check_signed_time (policy : IngressPolicy) (check : IngressCheck) (issued_at : option i64) :
    res (option i64) IngressError.t :=
  match ic_signed_max_age_millis check, issued_at with
  | None, None => Ok None
  | None, Some _ => Err Policy
  | Some _, None => Err Freshness
  | Some max_age, Some issued_at =>
      if issued_at <? 0 then Err Freshness
      else
        let? _ := check_window issued_at (ic_now check) i64_max (ip_future_skew_millis policy) in
        let? _ := check_window issued_at (ud_received_at_unix_millis (ic_delivery check)) max_age
                    (ip_future_skew_millis policy) in
        Ok (Some issued_at)
  end.

Definition EXACT_BODY_DOMAIN : bytes := b_ "amiss/controller-exact-delivery-v1".
Definition exact_body_digest (body : bytes) : Digest.t := sha256_digest (EXACT_BODY_DOMAIN ++ [x00] ++ body).

Definition normalize_delivery (verified : VerifiedDelivery) (body : bytes) (issued_at : option i64)
    (window : ReplayWindow) : res AcceptedDelivery IngressError.t :=
  let 'mkProviderFacts provider integration change provider_run := vd_facts verified in
  match vd_replay verified with
  | ReplayIdentity.Authenticated assigned =>
      let delivery := mkAuthenticatedDelivery (mkDeliveryIdentity provider integration assigned) change provider_run in
      match issued_at with
      | Some issued_at =>
          let? unix_millis :=
            ok_or (match checked_add_i64 issued_at (max_signed_age_millis window) with
                   | Some value => checked_add_i64 value (max_queue_age_millis window)
                   | None => None
                   end) Replay in
          Ok (mkAcceptedDelivery delivery (ReplayKeep.KeepThrough unix_millis window))
      | None => Ok (mkAcceptedDelivery delivery ReplayKeep.Permanent)
      end
  | ReplayIdentity.ExactBody =>
      Ok (mkAcceptedDelivery
            (mkAuthenticatedDelivery
               (mkDeliveryIdentity provider integration (Delivery.Body (exact_body_digest body))) change provider_run)
            ReplayKeep.Permanent)
  end.

Definition post_auth (policy : IngressPolicy) (check : IngressCheck) (verified : VerifiedDelivery) :
    res AcceptedDelivery IngressError.t :=
  if negb (bytes_eqb (vd_request verified) (ic_request check)) then Err Request
  else
    let route := ud_route (ic_delivery check) in
    if negb (bytes_eqb (vd_trust_set verified) (dr_trust_set route))
       || negb (bool_decide (pf_provider (vd_facts verified) = dr_provider route))
       || negb (bool_decide (cl_provider (pf_change (vd_facts verified)) = dr_provider route))
    then Err Route
    else
      let? issued_at := check_signed_time policy check (vd_issued_at_unix_millis verified) in
      normalize_delivery verified (ud_body (ic_delivery check)) issued_at (ip_replay_window policy).
End Ingress.

(** ** Windows *)

(** A time within its window: not too old, and not too far ahead. *)
Definition fresh (value reference maximum_age future_skew : i64) : Prop :=
  0 <= value /\ 0 <= reference /\
  (reference < value -> value - reference <= future_skew) /\
  (value <= reference -> reference - value <= maximum_age).

Definition is_i64 (v : Z) : Prop := i64_min <= v <= i64_max.

Lemma check_window_Ok value reference maximum_age skew :
  is_i64 value -> is_i64 reference ->
  check_window value reference maximum_age skew = Ok tt <-> fresh value reference maximum_age skew.
Proof.
  unfold is_i64, check_window, fresh. intros Hv Hr.
  destruct (Z.ltb_spec value 0); cbn [orb]; [naive_solver lia|].
  destruct (Z.ltb_spec reference 0); cbn [orb]; [naive_solver lia|].
  assert (forall a b, 0 <= a <= i64_max -> 0 <= b <= i64_max -> checked_sub_i64 a b = Some (a - b)) as Hs.
  { intros a b Ha Hb. unfold checked_sub_i64. rewrite (proj2 (Z.leb_le _ _)) by (unfold i64_min, i64_max in *; lia).
    by rewrite (proj2 (Z.leb_le _ _)) by lia. }
  destruct (Z.ltb_spec reference value); rewrite Hs by lia; cbn [ok_or];
    [destruct (Z.leb_spec (value - reference) skew)|destruct (Z.leb_spec (reference - value) maximum_age)];
    naive_solver lia.
Qed.

Section IngressLemmas.
Context `{HH : Hashes} {HHL : HashLaws HH}.

Lemma check_window_unit value reference maximum_age skew u :
  check_window value reference maximum_age skew = Ok u -> check_window value reference maximum_age skew = Ok tt.
Proof. by destruct u. Qed.

Lemma pre_auth_Ok policy delivery clock check :
  is_i64 (ud_received_at_unix_millis delivery) -> (forall now, clock = Some now -> is_i64 now) ->
  pre_auth policy delivery clock = Ok check ->
  accepts (ip_limits policy) delivery = true /\ ic_delivery check = delivery /\ clock = Some (ic_now check) /\
  fresh (ud_received_at_unix_millis delivery) (ic_now check)
    (max_queue_age_millis (ip_replay_window policy)) (ip_future_skew_millis policy) /\
  request_binding delivery = Some (ic_request check) /\
  match ic_signed_max_age_millis check with
  | Some age => 0 < age <= max_signed_age_millis (ip_replay_window policy)
  | None => dr_signed_time (ud_route delivery) = SignedTimePolicy.ReplayOnly
  end.
Proof.
  intros Hr Hc. unfold pre_auth. destruct (accepts _ _) eqn:Ea; [|done]. cbn [negb].
  set (signed := match dr_signed_time (ud_route delivery) with SignedTimePolicy.ReplayOnly => _ | _ => _ end).
  destruct signed as [age|e|] eqn:Es; [|done|done]. subst signed.
  destruct clock as [now|]; [|done]. destruct (Z.leb_spec 0 now); [|done].
  destruct (check_window _ now _ _) as [u|e|] eqn:Ew; [|done|done].
  apply check_window_unit, check_window_Ok in Ew; [|done|auto].
  destruct (request_binding delivery) as [request|]; [|done]. intros [= <-]. cbn.
  split_and!; try done. destruct (dr_signed_time (ud_route delivery)) as [|max_age]; [by injection Es as <-|].
  destruct (positive_millis max_age) as [m|] eqn:Em; [|done]. cbn [ok_or] in Es.
  destruct (Z.ltb_spec (max_signed_age_millis (ip_replay_window policy)) m); [done|]. injection Es as <-.
  unfold positive_millis in Em. destruct (nonnegative_millis max_age) as [v|]; [|done].
  destruct (Z.ltb_spec 0 v); [|done]. injection Em as <-. lia.
Qed.

Lemma pre_auth_replay_only policy delivery clock check :
  pre_auth policy delivery clock = Ok check ->
  dr_signed_time (ud_route delivery) = SignedTimePolicy.ReplayOnly -> ic_signed_max_age_millis check = None.
Proof.
  unfold pre_auth. intros Hpre Hro. rewrite Hro in Hpre. destruct (accepts _ _); [|done]. cbn [negb] in Hpre.
  destruct clock as [now|]; [|done]. destruct (0 <=? now); [|done].
  destruct (check_window _ _ _ _); [|done|done]. destruct (request_binding delivery); [|done]. by injection Hpre as <-.
Qed.

Lemma check_signed_time_Ok policy check issued_at result :
  (forall v, issued_at = Some v -> is_i64 v) -> is_i64 (ic_now check) ->
  is_i64 (ud_received_at_unix_millis (ic_delivery check)) ->
  check_signed_time policy check issued_at = Ok result ->
  result = issued_at /\
  match ic_signed_max_age_millis check, issued_at with
  | None, None => True
  | Some max_age, Some issued =>
      fresh issued (ic_now check) i64_max (ip_future_skew_millis policy) /\
      fresh issued (ud_received_at_unix_millis (ic_delivery check)) max_age (ip_future_skew_millis policy)
  | _, _ => False
  end.
Proof.
  intros Hi Hn Hr. unfold check_signed_time.
  destruct (ic_signed_max_age_millis check) as [max_age|], issued_at as [issued|]; try done; [|by intros [= <-]].
  destruct (Z.ltb_spec issued 0); [done|].
  destruct (check_window issued (ic_now check) _ _) as [u|e|] eqn:E1; [|done|done].
  destruct (check_window issued (ud_received_at_unix_millis _) _ _) as [u'|e|] eqn:E2; [|done|done].
  apply check_window_unit, check_window_Ok in E1; [|auto|done].
  apply check_window_unit, check_window_Ok in E2; [|auto|done]. by intros [= <-].
Qed.

Lemma post_auth_Ok policy check verified accepted :
  post_auth policy check verified = Ok accepted ->
  vd_request verified = ic_request check /\
  vd_trust_set verified = dr_trust_set (ud_route (ic_delivery check)) /\
  pf_provider (vd_facts verified) = dr_provider (ud_route (ic_delivery check)) /\
  cl_provider (pf_change (vd_facts verified)) = dr_provider (ud_route (ic_delivery check)) /\
  exists issued_at, check_signed_time policy check (vd_issued_at_unix_millis verified) = Ok issued_at /\
    normalize_delivery verified (ud_body (ic_delivery check)) issued_at (ip_replay_window policy) = Ok accepted.
Proof.
  unfold post_auth. destruct (bytes_eqb (vd_request verified) _) eqn:E1; [|done]. apply bytes_eqb_eq in E1. cbn [negb].
  destruct (bytes_eqb (vd_trust_set verified) _) eqn:E2; [|done]. apply bytes_eqb_eq in E2. cbn [negb orb].
  case_bool_decide as E3; [|done]. case_bool_decide as E4; [|done]. cbn [negb orb].
  destruct (check_signed_time _ _ _) as [issued_at|e|]; [|done|done]. intros Hn. split_and!; eauto.
Qed.

Lemma normalize_delivery_Ok verified body issued_at window accepted :
  normalize_delivery verified body issued_at window = Ok accepted ->
  let facts := vd_facts verified in
  acc_delivery accepted =
    mkAuthenticatedDelivery
      (mkDeliveryIdentity (pf_provider facts) (pf_integration facts)
         (match vd_replay verified with
          | ReplayIdentity.Authenticated assigned => assigned
          | ReplayIdentity.ExactBody => Delivery.Body (exact_body_digest body)
          end)) (pf_change facts) (pf_provider_run facts) /\
  match acc_replay_keep accepted with
  | ReplayKeep.Permanent => True
  | ReplayKeep.KeepThrough k w =>
      exists issued, issued_at = Some issued /\ w = window /\
        k = issued + max_signed_age_millis window + max_queue_age_millis window
  end.
Proof.
  unfold normalize_delivery. destruct (vd_facts verified) as [provider integration change run]. cbn.
  destruct (vd_replay verified) as [assigned|]; [|by intros [= <-]].
  destruct issued_at as [issued|]; [|by intros [= <-]].
  destruct (checked_add_i64 issued _) as [x|] eqn:E1; [|done].
  destruct (checked_add_i64 x _) as [k|] eqn:E2; [|done]. intros [= <-]. cbn.
  apply checked_add_i64_Some in E1 as [-> _], E2 as [-> _]. split; [done|]. by exists issued.
Qed.
End IngressLemmas.

(** C9: trusted ingress. A delivery that passes both gates is within the raw ceilings;
    its receipt time is within the queue window of the controller's clock; its
    proof binds exactly this request, its route's trust set and its route's
    provider; its identity carries the authenticated facts. A delivery kept
    only for a time is kept at least until the end of the last moment at which
    it could be accepted again: every acceptance happens no later than the
    instant it is kept through, which depends only on its signed time. *)
Theorem ingress_replay_covered (HH : Hashes) (HHL : HashLaws HH) policy delivery clock check verified accepted
    (signed_age queue_age : Duration) :
  is_i64 (ud_received_at_unix_millis delivery) -> (forall now, clock = Some now -> is_i64 now) ->
  (forall v, vd_issued_at_unix_millis verified = Some v -> is_i64 v) ->
  replay_window_new signed_age queue_age = Some (ip_replay_window policy) ->
  pre_auth policy delivery clock = Ok check -> post_auth policy check verified = Ok accepted ->
  accepts (ip_limits policy) delivery = true /\ clock = Some (ic_now check) /\
  fresh (ud_received_at_unix_millis delivery) (ic_now check)
    (max_queue_age_millis (ip_replay_window policy)) (ip_future_skew_millis policy) /\
  request_binding delivery = Some (vd_request verified) /\
  vd_trust_set verified = dr_trust_set (ud_route delivery) /\
  di_provider (ad_identity (acc_delivery accepted)) = dr_provider (ud_route delivery) /\
  cl_provider (ad_change (acc_delivery accepted)) = dr_provider (ud_route delivery) /\
  ad_provider_run (acc_delivery accepted) = pf_provider_run (vd_facts verified) /\
  (dr_signed_time (ud_route delivery) = SignedTimePolicy.ReplayOnly <-> vd_issued_at_unix_millis verified = None) /\
  match acc_replay_keep accepted with
  | ReplayKeep.Permanent => True
  | ReplayKeep.KeepThrough k window =>
      window = ip_replay_window policy /\ ic_now check <= k /\
      exists issued, vd_issued_at_unix_millis verified = Some issued /\
        k = issued + max_signed_age_millis window + max_queue_age_millis window
  end.
Proof.
  intros Hr Hc Hi Hw Hpre Hpost.
  assert (0 < max_queue_age_millis (ip_replay_window policy)) as Hq.
  { unfold replay_window_new in Hw. destruct (positive_millis signed_age) as [a|]; [|done].
    unfold positive_millis in Hw. destruct (nonnegative_millis queue_age) as [b|]; [|done].
    destruct (Z.ltb_spec 0 b); [|done]. by injection Hw as <-. }
  pose proof Hpre as (Ha & Hd & Hnow & Hf & Hreq & Hage)%pre_auth_Ok; [|done..].
  apply post_auth_Ok in Hpost as (Hq1 & Ht & Hp & Hcp & issued_at & Hs & Hn). rewrite Hd in *.
  apply check_signed_time_Ok in Hs as [-> Hs]; [|done|auto|by rewrite Hd]. rewrite Hd in Hs.
  apply normalize_delivery_Ok in Hn as [Hid Hk]. rewrite Hid. cbn.
  split_and!; try done; [by rewrite Hq1| |].
  - pose proof (pre_auth_replay_only _ _ _ _ Hpre) as Hro.
    destruct (ic_signed_max_age_millis check), (vd_issued_at_unix_millis verified); try done.
    split; [|done]. intros Hx. by specialize (Hro Hx).
  - destruct (acc_replay_keep accepted) as [|k window]; [done|].
    destruct Hk as (issued & Hiss & -> & ->). rewrite Hiss in Hs.
    destruct (ic_signed_max_age_millis check) as [age|]; [|done]. destruct Hs as [_ Hs].
    destruct Hs as (_ & _ & Hs1 & Hs2), Hf as (_ & _ & Hf1 & Hf2).
    split_and!; [done| |by exists issued].
    set (received := ud_received_at_unix_millis delivery) in *.
    destruct (Z.lt_ge_cases (ic_now check) received), (Z.lt_ge_cases received issued); lia.
Qed.

(** ** The binding is unambiguous *)

Lemma app_inj_len {A} (a b : list A) r r' : a ++ r = b ++ r' -> length a = length b -> a = b /\ r = r'.
Proof. intros H Hl. by apply app_inj_1 in H. Qed.

Lemma to_be_app_inj n x y r r' :
  0 <= x < 256 ^ Z.of_nat n -> 0 <= y < 256 ^ Z.of_nat n -> to_be n x ++ r = to_be n y ++ r' -> x = y /\ r = r'.
Proof.
  intros Hx Hy H. apply app_inj_len in H as [H ->].
  - split; [|done]. rewrite <- (from_be_to_be n x Hx), <- (from_be_to_be n y Hy). by rewrite H.
  - pose proof (to_be_len n x). pose proof (to_be_len n y). unfold len in *. lia.
Qed.

Lemma frame_len_app_inj n m a b r r' :
  0 <= n -> 0 <= m -> frame_len n = Some a -> frame_len m = Some b -> a ++ r = b ++ r' -> n = m /\ r = r'.
Proof.
  unfold frame_len. intros Hn Hm Ha Hb. destruct (Z.leb_spec n u64_max); [|done].
  destruct (Z.leb_spec m u64_max); [|done]. apply (inj Some) in Ha as <-, Hb as <-.
  apply to_be_app_inj; change (256 ^ Z.of_nat 8) with (u64_max + 1); lia.
Qed.

Lemma frame_app_inj v v' a b r r' :
  frame v = Some a -> frame v' = Some b -> a ++ r = b ++ r' -> v = v' /\ r = r'.
Proof.
  unfold frame. destruct (frame_len (len v)) as [l|] eqn:E1; [|done]. destruct (frame_len (len v')) as [l'|] eqn:E2; [|done].
  intros [= <-] [= <-]. rewrite <- !app_assoc. intros H.
  apply (frame_len_app_inj (len v) (len v')) in H as [Hl H]; [|apply len_nonneg|apply len_nonneg|done|done].
  apply app_inj_len in H; [done|]. unfold len in Hl. lia.
Qed.

Lemma frame_headers_app_inj hs hs' a b r r' :
  length hs = length hs' -> frame_headers hs = Some a -> frame_headers hs' = Some b -> a ++ r = b ++ r' ->
  hs = hs' /\ r = r'.
Proof.
  revert hs' a b. induction hs as [|h hs IH]; intros [|h' hs'] a b Hl; try done; cbn [frame_headers].
  - by intros [= <-] [= <-].
  - destruct (frame (h_name h)) as [n|] eqn:E1; [|done]. destruct (frame (h_value h)) as [v|] eqn:E2; [|done].
    destruct (frame_headers hs) as [rest|] eqn:E3; [|done]. intros [= <-].
    destruct (frame (h_name h')) as [n'|] eqn:E1'; [|done]. destruct (frame (h_value h')) as [v'|] eqn:E2'; [|done].
    destruct (frame_headers hs') as [rest'|] eqn:E3'; [|done]. intros [= <-]. rewrite <- !app_assoc. intros H.
    eapply frame_app_inj in H as [Hn H]; [|done|done]. eapply frame_app_inj in H as [Hv H]; [|done|done].
    cbn [length] in Hl. eapply (IH hs') in H as [-> ->]; [|lia|done|done]. split; [|done].
    destruct h, h'; cbn in *. congruence.
Qed.

Definition is_duration (d : Duration) : Prop := 0 <= as_secs d <= u64_max /\ 0 <= subsec_nanos d < 1000000000.
Definition is_signed_time (p : SignedTimePolicy.t) : Prop :=
  match p with SignedTimePolicy.ReplayOnly => True | SignedTimePolicy.Required d => is_duration d end.

Lemma signed_time_app_inj p p' r r' :
  is_signed_time p -> is_signed_time p' -> signed_time_bytes p ++ r = signed_time_bytes p' ++ r' -> p = p' /\ r = r'.
Proof.
  destruct p as [|[s n]], p' as [|[s' n']]; cbn [signed_time_bytes]; [naive_solver|done|done|].
  intros [Hs Hn] [Hs' Hn'] H. cbn [as_secs subsec_nanos] in *. rewrite <- !app_assoc in H.
  apply app_inj_len in H as [_ H]; [|done].
  apply to_be_app_inj in H as [-> H]; [|change (256 ^ Z.of_nat 8) with (u64_max + 1); lia..].
  apply to_be_app_inj in H as [-> H]; [|change (256 ^ Z.of_nat 4) with 4294967296; lia..]. done.
Qed.

Lemma i64_be_app_inj x y r r' :
  is_i64 x -> is_i64 y -> i64_be x ++ r = i64_be y ++ r' -> x = y /\ r = r'.
Proof.
  unfold is_i64, i64_be. intros Hx Hy H.
  apply to_be_app_inj in H as [He H]; [|change (256 ^ Z.of_nat 8) with (2 ^ 64); apply Z.mod_pos_bound; lia..].
  split; [|done]. unfold i64_min, i64_max in *. pose proof (Z.div_mod x (2 ^ 64)). pose proof (Z.div_mod y (2 ^ 64)).
  assert (-1 <= x / 2 ^ 64 <= 0) by (split; [apply Z.div_le_lower_bound|apply Z.lt_succ_r, Z.div_lt_upper_bound]; lia).
  assert (-1 <= y / 2 ^ 64 <= 0) by (split; [apply Z.div_le_lower_bound|apply Z.lt_succ_r, Z.div_lt_upper_bound]; lia).
  lia.
Qed.

(** C27: the bytes the request binding digests determine the request: two requests with
    the same framing have the same route provider, trust set, signed-time rule,
    receipt time, headers in their order, and body. *)
Theorem request_binding_injective d d' b :
  is_i64 (ud_received_at_unix_millis d) -> is_i64 (ud_received_at_unix_millis d') ->
  is_signed_time (dr_signed_time (ud_route d)) -> is_signed_time (dr_signed_time (ud_route d')) ->
  binding_bytes d = Some b -> binding_bytes d' = Some b -> d = d'.
Proof.
  destruct d as [[[ns inst] ts st] t hs body], d' as [[[ns' inst'] ts' st'] t' hs' body']. unfold binding_bytes.
  cbn [ud_route ud_received_at_unix_millis ud_headers ud_body dr_provider dr_trust_set dr_signed_time pi_namespace
    pi_instance]. intros Ht Ht' Hst Hst'.
  destruct (frame ns) as [f1|] eqn:E1; [|done]. destruct (frame inst) as [f2|] eqn:E2; [|done].
  destruct (frame ts) as [f3|] eqn:E3; [|done]. destruct (frame_len (len hs)) as [f4|] eqn:E4; [|done].
  destruct (frame_headers hs) as [f5|] eqn:E5; [|done]. destruct (frame body) as [f6|] eqn:E6; [|done].
  destruct (frame ns') as [g1|] eqn:G1; [|done]. destruct (frame inst') as [g2|] eqn:G2; [|done].
  destruct (frame ts') as [g3|] eqn:G3; [|done]. destruct (frame_len (len hs')) as [g4|] eqn:G4; [|done].
  destruct (frame_headers hs') as [g5|] eqn:G5; [|done]. destruct (frame body') as [g6|] eqn:G6; [|done].
  intros <-%(inj Some) H%(inj Some). apply app_inj_len in H as [_ H]; [|done].
  apply app_inj_len in H as [_ H]; [|done]. symmetry in H.
  apply (frame_app_inj _ _ _ _ _ _ E1 G1) in H as [-> H]. apply (frame_app_inj _ _ _ _ _ _ E2 G2) in H as [-> H].
  apply (frame_app_inj _ _ _ _ _ _ E3 G3) in H as [-> H]. apply signed_time_app_inj in H as [-> H]; [|done|done].
  apply i64_be_app_inj in H as [-> H]; [|done|done].
  apply (frame_len_app_inj (len hs) (len hs') _ _ _ _ (len_nonneg _) (len_nonneg _) E4 G4) in H as [Hl H].
  apply (frame_headers_app_inj hs hs' _ _ _ _ ltac:(unfold len in Hl; lia) E5 G5) in H as [-> H].
  apply (f_equal (fun l => l ++ [])) in H.
  by apply (frame_app_inj _ _ _ _ _ _ E6 G6) in H as [-> _].
Qed.

(** ** Witnesses *)

Definition ex_in_provider : ProviderIdentity := mkProviderIdentity (b_ "github") (b_ "main").
Definition ex_in_route : DeliveryRoute :=
  mkDeliveryRoute ex_in_provider (b_ "set") (SignedTimePolicy.Required (mkDuration 60 0)).
Definition ex_in_delivery : UntrustedDelivery :=
  mkUntrustedDelivery ex_in_route 1000 [mkDeliveryHeader (b_ "a") (b_ "1")] (b_ "body").
Definition ex_in_policy : IngressPolicy :=
  mkIngressPolicy (mkIngressLimits 100 10 100) (mkReplayWindow 90000 30000) 5000.
Definition ex_in_run : ProviderRunIdentity :=
  mkProviderRunIdentity (ProviderRun.Job (mkPipelineJob 1 2)) 1 Sha1 (Oid.mk Sha1 (repeat x61 40)).
Definition ex_in_facts : ProviderFacts :=
  mkProviderFacts ex_in_provider (b_ "app")
    (mkChangeLocator ex_in_provider (RepositoryIdentity.mk (b_ "h") (b_ "n") (b_ "o"))
       (Change.MergeRequest (mkMergeRequestChange 1 2))) ex_in_run.
Definition ex_in_verified : VerifiedDelivery :=
  mkVerifiedDelivery ex_in_facts (b_ "set") (b_ "anchor") (Some 900)
    (ReplayIdentity.Authenticated (Delivery.Provided (b_ "d")))
    (match request_binding (HH := toy_hash) ex_in_delivery with Some r => r | None => [] end).

Lemma ingress_replay_covered_witness :
  exists check accepted,
    (pre_auth (HH := toy_hash) ex_in_policy ex_in_delivery (Some 2000) = Ok check /\
     post_auth (HHL := toy_hash_laws) ex_in_policy check ex_in_verified = Ok accepted) /\
    request_binding (HH := toy_hash) ex_in_delivery = Some (vd_request ex_in_verified).
Proof.
  eexists _, _.
  assert (pre_auth (HH := toy_hash) ex_in_policy ex_in_delivery (Some 2000) = Ok _) as H1 by (vm_compute; reflexivity).
  match type of H1 with _ = Ok ?c =>
    assert (post_auth (HHL := toy_hash_laws) ex_in_policy c ex_in_verified = Ok _) as H2 by (vm_compute; reflexivity) end.
  split; [exact (conj H1 H2)|].
  refine (proj1 (proj2 (proj2 (proj2 (ingress_replay_covered toy_hash toy_hash_laws ex_in_policy ex_in_delivery
    (Some 2000) _ ex_in_verified _ (mkDuration 90 0) (mkDuration 30 0) _ _ _ _ H1 H2))))).
  - unfold is_i64, i64_min, i64_max. cbn. lia.
  - intros now [= <-]. unfold is_i64, i64_min, i64_max. lia.
  - intros v [= <-]. unfold is_i64, i64_min, i64_max. lia.
  - reflexivity.
Defined.

Lemma request_binding_injective_witness :
  exists b, binding_bytes ex_in_delivery = Some b /\ ex_in_delivery = ex_in_delivery.
Proof.
  eexists. assert (binding_bytes ex_in_delivery = Some _) as H by (vm_compute; reflexivity).
  split; [exact H|].
  refine (request_binding_injective ex_in_delivery ex_in_delivery _ _ _ _ _ H H);
    cbn; unfold is_i64, is_duration, i64_min, i64_max; cbn; unfold_widths; lia.
Defined.
