(* ===== verification/CtlFrame.v ===== *)
(** Framed values on disk: [controller/src/frame.rs]. A frame is a magic, a
    version byte, the payload's length, its domain-separated digest and the
    payload, the JSON text of one validated value. [serde_json] is a
    parameter. *)
From Stdlib Require Import Strings.Byte Strings.String Lia.
From stdpp Require Import base numbers list.
From S2P Require Import Prelude Codec WireModel.

(** [serde_json::to_vec] and [from_slice] at one type; [None] is [Err]. *)
Class Json (T : Type) := {
  to_vec : T -> option bytes;
  from_slice : bytes -> option T
}.

(** A value that was written reads back as itself. *)
Class JsonLaws (T : Type) `{Json T} : Prop := {
  from_slice_to_vec v b : to_vec v = Some b -> from_slice b = Some v
}.

Definition VERSION : Byte.byte := x01.
Definition LENGTH_BYTES : usize := 8.
Definition DIGEST_BYTES : usize := 32.

Record FrameFormat := mkFrameFormat { magic : bytes; domain : bytes; maximum : u64 }.

(** [<[u8]>::split_first_chunk::<N>]. *)
Definition split_first_chunk (n : usize) (l : bytes) : option (bytes * bytes) :=
  if n <=? len l then Some (take (Z.to_nat n) l, drop (Z.to_nat n) l) else None.

Section Frame.
Context `{HH : Hashes} {T E : Type} `{Json T}.
(** [E::from(Corrupt)] and the [validate] the store passes. *)
Context (corrupt : E) (validate : T -> res unit E).

Definition frame_digest (format : FrameFormat) (payload : bytes) : bytes :=
  sha256 (domain format ++ [x00] ++ payload).

Definition encode (format : FrameFormat) (value : T) : res bytes E :=
  let? _ := validate value in
  let? payload := ok_or (to_vec value) corrupt in
  let payload_length := len payload in
  let? frame_length :=
    ok_or (match checked_add (len (magic format)) (1 + LENGTH_BYTES + DIGEST_BYTES) with
           | Some length => checked_add length (len payload)
           | None => None
           end) corrupt in
  if maximum format <? frame_length then Err corrupt
  else Ok (magic format ++ [VERSION] ++ to_be 8 payload_length ++ frame_digest format payload ++ payload).

Definition decode (format : FrameFormat) (frame : bytes) : res T E :=
  if maximum format <? len frame then Err corrupt
  else
    let? header := ok_or (strip_prefix (magic format) frame) corrupt in
    match header with
    | [] => Err corrupt
    | version :: header =>
        if negb (beqb version VERSION) then Err corrupt
        else
          let? (length, header) := ok_or (split_first_chunk LENGTH_BYTES header) corrupt in
          let? (expected_digest, payload) := ok_or (split_first_chunk DIGEST_BYTES header) corrupt in
          if negb (len payload =? from_be_bytes length)
             || negb (bytes_eqb (frame_digest format payload) expected_digest)
          then Err corrupt
          else
            let? value := ok_or (from_slice payload) corrupt in
            let? _ := validate value in
            let? rewritten := ok_or (to_vec value) corrupt in
            if negb (bytes_eqb rewritten payload) then Err corrupt else Ok value
    end.

Lemma split_first_chunk_Some n l a b :
  0 <= n -> split_first_chunk n l = Some (a, b) <-> l = a ++ b /\ len a = n.
Proof.
  intros Hn. unfold split_first_chunk. destruct (Z.leb_spec n (len l)) as [Hle|Hgt].
  - split.
    + intros [= <- <-]. rewrite take_drop. split; [done|]. unfold len in *. rewrite length_take. lia.
    + intros [-> Ha]. unfold len in Ha. subst n. rewrite Nat2Z.id, take_app_length, drop_app_length. done.
  - split; [done|]. intros [-> Ha]. rewrite len_app in Hgt. pose proof (len_nonneg b). lia.
Qed.

(** The bytes of a frame. *)
Definition framed (format : FrameFormat) (value : T) (frame : bytes) : Prop :=
  exists payload,
    validate value = Ok tt /\ to_vec value = Some payload /\
    frame = magic format ++ [VERSION] ++ to_be 8 (len payload) ++ frame_digest format payload ++ payload /\
    len (magic format) + 41 + len payload <= u64_max /\ len (magic format) + 41 + len payload <= maximum format.

Lemma encode_framed format value frame : encode format value = Ok frame <-> framed format value frame.
Proof.
  unfold encode, framed. pose proof (len_nonneg (magic format)) as Hm. split.
  - intros He. destruct (validate value) as [[]|e|] eqn:Ev; [|done|done].
    destruct (to_vec value) as [payload|] eqn:Ep; [|done]. cbn [ok_or] in He.
    destruct (checked_add _ _) as [x|] eqn:E1; [|done]. apply checked_add_Some in E1 as [-> E1].
    destruct (checked_add _ (len payload)) as [y|] eqn:E2; [|done]. apply checked_add_Some in E2 as [-> E2].
    cbn [ok_or] in He. unfold LENGTH_BYTES, DIGEST_BYTES in *.
    destruct (Z.ltb_spec (maximum format) (len (magic format) + (1 + 8 + 32) + len payload)); [done|].
    injection He as <-. exists payload. split_and!; [done|done|done|lia|lia].
  - intros (payload & -> & -> & -> & Hu & Hx). cbn [ok_or]. pose proof (len_nonneg payload).
    unfold LENGTH_BYTES, DIGEST_BYTES, checked_add.
    rewrite (proj2 (Z.leb_le _ _)) by lia. rewrite (proj2 (Z.leb_le _ _)) by lia. cbn [ok_or].
    rewrite (proj2 (Z.ltb_ge _ _)) by lia. done.
Qed.

Context {JL : JsonLaws T} {HHL : HashLaws HH}.

Lemma framed_len format value frame :
  framed format value frame ->
  exists payload, to_vec value = Some payload /\ len frame = len (magic format) + 41 + len payload.
Proof.
  intros (payload & _ & Hp & -> & _). exists payload. split; [done|].
  rewrite !len_app, to_be_len. unfold frame_digest. rewrite sha256_len. change (len [VERSION]) with 1. lia.
Qed.

Lemma decode_framed format value frame :
  rust_slice frame -> decode format frame = Ok value <-> framed format value frame.
Proof.
  intros Hr. split.
  - unfold decode. destruct (Z.ltb_spec (maximum format) (len frame)) as [|Hmax]; [done|].
    destruct (strip_prefix _ _) as [header|] eqn:Es; [|done]. apply strip_prefix_Some in Es as ->.
    cbn [ok_or]. destruct header as [|version header]; [done|].
    destruct (beqb version VERSION) eqn:Ev; [|done]. apply beqb_eq in Ev as ->. cbn [negb].
    destruct (split_first_chunk LENGTH_BYTES header) as [[length rest]|] eqn:E1; [|done].
    apply split_first_chunk_Some in E1 as [-> Hl]; [|done]. cbn [ok_or].
    destruct (split_first_chunk DIGEST_BYTES rest) as [[digest payload]|] eqn:E2; [|done].
    apply split_first_chunk_Some in E2 as [-> Hd]; [|done]. cbn [ok_or].
    destruct (Z.eqb_spec (len payload) (from_be_bytes length)) as [Hp|]; [|done]. cbn [negb orb].
    destruct (bytes_eqb _ digest) eqn:Ed; [|done]. apply bytes_eqb_eq in Ed as <-. cbn [negb].
    destruct (from_slice payload) as [v|]; [|done]. cbn [ok_or].
    destruct (validate v) as [[]|e|] eqn:Eval; [|done|done].
    destruct (to_vec v) as [again|] eqn:Et; [|done]. cbn [ok_or].
    destruct (bytes_eqb again payload) eqn:Ea; [|done]. apply bytes_eqb_eq in Ea as ->.
    cbn [negb]. intros [= <-]. exists payload. split_and!; [done|done| | |].
    + rewrite Hp. replace 8%nat with (List.length length) by (unfold len, LENGTH_BYTES in Hl; lia).
      rewrite to_be_from_be. cbn [app]. reflexivity.
    + unfold rust_slice in Hr. rewrite !len_app, !len_cons, !len_app in Hr. unfold frame_digest in Hr.
      rewrite sha256_len in Hr. unfold LENGTH_BYTES in Hl. unfold_widths. lia.
    + rewrite !len_app, !len_cons, !len_app in Hmax. unfold frame_digest in Hmax. rewrite sha256_len in Hmax.
      unfold LENGTH_BYTES in Hl. lia.
  - intros Hf. destruct (framed_len _ _ _ Hf) as (payload & Hp & Hlen).
    destruct Hf as (payload' & Hv & Hp' & -> & Hu & Hx). rewrite Hp in Hp'. injection Hp' as <-.
    unfold decode. rewrite (proj2 (Z.ltb_ge _ _)) by lia.
    rewrite (proj2 (strip_prefix_Some _ _ _) eq_refl). cbn [ok_or app].
    rewrite beqb_refl. cbn [negb].
    rewrite (proj2 (split_first_chunk_Some LENGTH_BYTES _ (to_be 8 (len payload))
      (frame_digest format payload ++ payload) ltac:(done)))
      by (split; [done|apply to_be_len]).
    cbn [ok_or].
    rewrite (proj2 (split_first_chunk_Some DIGEST_BYTES _ (frame_digest format payload) payload ltac:(done)))
      by (split; [done|apply sha256_len]).
    cbn [ok_or]. pose proof (len_nonneg payload). pose proof (len_nonneg (magic format)).
    rewrite from_be_to_be by (unfold_widths; simpl; lia).
    rewrite Z.eqb_refl, (proj2 (bytes_eqb_eq _ _) eq_refl). cbn [negb orb].
    rewrite (from_slice_to_vec _ _ Hp). cbn [ok_or]. rewrite Hv, Hp. cbn [ok_or].
    by rewrite (proj2 (bytes_eqb_eq _ _) eq_refl).
Qed.
End Frame.

(** C28: a frame decodes to a value exactly when it is the frame that value encodes to:
    what was written reads back, and no second spelling of a value, no other
    magic, version, length or digest is accepted. *)
Theorem frame_exact (HH : Hashes) (HHL : HashLaws HH) {T E : Type} (J : Json T) (JL : JsonLaws T)
    (corrupt : E) (validate : T -> res unit E) format value frame :
  rust_slice frame ->
  decode corrupt validate format frame = Ok value <-> encode corrupt validate format value = Ok frame.
Proof. intros Hr. rewrite decode_framed, encode_framed by done. done. Qed.

(** A codec of a finite table of values, for closed examples: a value is
    written as its position. *)
Section TableJson.
Context {T : Type} `{EqDecision T}.

Fixpoint table_position (table : list T) (v : T) : option nat :=
  match table with
  | [] => None
  | w :: table => if decide (v = w) then Some O else option_map S (table_position table v)
  end.

Definition table_json (table : list T) : Json T := {|
  to_vec v := option_map (fun i => to_be 2 (Z.of_nat i))
                (match table_position table v with
                 | Some i => if Z.of_nat i <? 65536 then Some i else None
                 | None => None
                 end);
  from_slice b := if len b =? 2 then table !! Z.to_nat (from_be_bytes b) else None
|}.

Lemma table_position_lookup table v i : table_position table v = Some i -> table !! i = Some v.
Proof.
  revert i. induction table as [|w table IH]; intros i; cbn [table_position]; [done|].
  destruct (decide (v = w)) as [->|]; [by intros [= <-]|].
  destruct (table_position table v) as [j|]; [|done]. intros [= <-]. by apply IH.
Qed.

Lemma table_json_laws table : JsonLaws T (H := table_json table).
Proof.
  split. intros v b. cbn [to_vec from_slice table_json].
  destruct (table_position table v) as [i|] eqn:Ei; [|done].
  destruct (Z.ltb_spec (Z.of_nat i) 65536) as [Hi|]; [|done]. unfold option_map. intros Hb.
  assert (to_be 2 (Z.of_nat i) = b) as <- by congruence.
  rewrite to_be_len. change (Z.of_nat 2 =? 2) with true.
  rewrite from_be_to_be by (change (256 ^ Z.of_nat 2) with 65536; lia).
  rewrite Nat2Z.id. by apply table_position_lookup.
Qed.
End TableJson.

Lemma frame_exact_witness :
  let J := table_json (T := Z) [7; 9] in
  let format := mkFrameFormat (b_ "M") (b_ "d") 100 in
  exists frame, (HashLaws toy_hash /\ JsonLaws Z (H := J) /\ rust_slice frame) /\
    decode (HH := toy_hash) (H := J) tt (fun _ => Ok tt) format frame = Ok 9.
Proof.
  intros J format.
  assert (exists frame, rust_slice frame /\
    encode (HH := toy_hash) (H := J) tt (fun _ => Ok tt) format 9 = Ok frame) as (frame & Hr & He).
  { eexists. split; [|vm_compute; reflexivity]. vm_compute. discriminate. }
  exists frame. split; [exact (conj toy_hash_laws (conj (table_json_laws _) Hr))|].
  exact (proj2 (frame_exact toy_hash toy_hash_laws J (table_json_laws _) tt (fun _ => Ok tt) format 9 frame Hr) He).
Defined.
