(* ===== verification/CtlCapacity.v ===== *)
(** The bounded admission of the delivery ledger: its configuration and errors
    ([controller/src/file_ledger.rs]), the root metadata with the clock's high
    water ([store/metadata.rs]) and the record counter with its two-phase
    reservations ([store/capacity.rs]). *)
From Stdlib Require Import Strings.Byte Strings.String Lia.
From stdpp Require Import base numbers gmap fin_sets list.
From S2P Require Import Prelude Codec WireModel CtlModel CtlFrame.

Module FileLedgerError.
Inductive t :=
  | Configuration | Full | Expired | Clock | Random | ReportTooLarge | Corrupt | Io (e : IoError.t).
#[global] Instance eq_dec : EqDecision t.
Proof. solve_decision. Defined.
End FileLedgerError.
Import FileLedgerError.

Record FileLedgerConfig := mkFileLedgerConfig {
  c_lease_millis : i64; c_max_records : u64; c_replay_window : ReplayWindow
}.

(** [FileLedgerConfig::new]; the duration is given in milliseconds. *)
Definition config_new (lease_millis : Z) (max_records : u64) (w : ReplayWindow) : option FileLedgerConfig :=
  if (lease_millis <=? i64_max) && (0 <? lease_millis) then
    if 0 <? max_records then Some (mkFileLedgerConfig lease_millis max_records w) else None
  else None.

(** [validate_key]. *)
Definition validate_key (key : bytes) : res unit FileLedgerError.t :=
  if (len key =? 64) && forallb lower_hex_digit key then Ok tt else Err Corrupt.

(** ** Root metadata *)

Module RootSchema.
Inductive t := Current | Legacy.
#[global] Instance eq_dec : EqDecision t.
Proof. solve_decision. Defined.
End RootSchema.

Record RootMetadata := mkRootMetadata {
  rm_schema : RootSchema.t;
  rm_lease_millis : i64;
  rm_max_records : u64;
  rm_max_signed_age_millis : i64;
  rm_max_queue_age_millis : i64;
  rm_clock_high_water_unix_millis : i64
}.
#[export] Instance RootMetadata_eq_dec : EqDecision RootMetadata.
Proof. solve_decision. Defined.

Module StoredMetadata.
Inductive t := Current (metadata : RootMetadata) | Legacy (metadata : RootMetadata).
End StoredMetadata.

Definition metadata_legacy (config : FileLedgerConfig) (now : i64) : RootMetadata :=
  mkRootMetadata RootSchema.Legacy (c_lease_millis config) (c_max_records config)
    (max_signed_age_millis (c_replay_window config)) (max_queue_age_millis (c_replay_window config)) now.

Definition metadata_matches (m : RootMetadata) (config : FileLedgerConfig) : bool :=
  (rm_lease_millis m =? c_lease_millis config)
  && (rm_max_records m =? c_max_records config)
  && (rm_max_signed_age_millis m =? max_signed_age_millis (c_replay_window config))
  && (rm_max_queue_age_millis m =? max_queue_age_millis (c_replay_window config)).

(** [advance_clock]: the updated metadata and the effective time. *)
Definition advance_clock (m : RootMetadata) (now : i64) : res (RootMetadata * i64) FileLedgerError.t :=
  if now <? 0 then Err Clock
  else
    let high := Z.max (rm_clock_high_water_unix_millis m) now in
    Ok (mkRootMetadata (rm_schema m) (rm_lease_millis m) (rm_max_records m) (rm_max_signed_age_millis m)
          (rm_max_queue_age_millis m) high, high).

Definition metadata_upgrade (m : RootMetadata) : RootMetadata :=
  mkRootMetadata RootSchema.Current (rm_lease_millis m) (rm_max_records m) (rm_max_signed_age_millis m)
    (rm_max_queue_age_millis m) (rm_clock_high_water_unix_millis m).

Definition metadata_validate (m : RootMetadata) : res unit FileLedgerError.t :=
  if (rm_lease_millis m <=? 0) || (rm_max_records m =? 0) || (rm_max_signed_age_millis m <=? 0)
     || (rm_max_queue_age_millis m <=? 0) || (rm_clock_high_water_unix_millis m <? 0)
  then Err Corrupt else Ok tt.

Definition stored_matches (m : StoredMetadata.t) (config : FileLedgerConfig) : bool :=
  match m with
  | StoredMetadata.Current metadata | StoredMetadata.Legacy metadata => metadata_matches metadata config
  end.

Definition into_current (m : StoredMetadata.t) : RootMetadata * bool :=
  match m with
  | StoredMetadata.Current metadata => (metadata, false)
  | StoredMetadata.Legacy metadata => (metadata_upgrade metadata, true)
  end.

(** ** Capacity *)

Module CapacitySchema.
Inductive t := Current.
#[global] Instance eq_dec : EqDecision t.
Proof. solve_decision. Defined.
End CapacitySchema.

Record Capacity := mkCapacity {
  cap_schema : CapacitySchema.t;
  cap_max_records : u64;
  cap_records : u64;
  cap_pending_key : option bytes;
  cap_cleanup_pending : bool
}.
#[export] Instance Capacity_eq_dec : EqDecision Capacity.
Proof. solve_decision. Defined.

Definition capacity_validate (c : Capacity) : res unit FileLedgerError.t :=
  if negb (bool_decide (cap_schema c = CapacitySchema.Current))
     || (cap_max_records c =? 0)
     || (cap_max_records c <? cap_records c)
     || (is_some (cap_pending_key c) && (cap_records c =? 0))
     || (cap_cleanup_pending c && (is_some (cap_pending_key c) || (cap_records c =? 0)))
     || match cap_pending_key c with
        | Some key => negb (is_ok (validate_key key))
        | None => false
        end
  then Err Corrupt else Ok tt.

Definition ready (max_records records : u64) : res Capacity FileLedgerError.t :=
  let capacity := mkCapacity CapacitySchema.Current max_records records None false in
  let? _ := capacity_validate capacity in Ok capacity.

Definition reserve (capacity : Capacity) (key : bytes) : res Capacity FileLedgerError.t :=
  let 'mkCapacity schema max_records records pending_key cleanup_pending := capacity in
  if is_some pending_key || cleanup_pending then Err Corrupt
  else if max_records <=? records then Err Full
  else
    let? _ := validate_key key in
    let? records := ok_or (checked_add records 1) Corrupt in
    Ok (mkCapacity schema max_records records (Some key) cleanup_pending).

Definition begin_cleanup (capacity : Capacity) : res Capacity FileLedgerError.t :=
  let 'mkCapacity schema max_records records pending_key cleanup_pending := capacity in
  if is_some pending_key || cleanup_pending || (records =? 0) then Err Corrupt
  else Ok (mkCapacity schema max_records records pending_key true).

Definition settle (capacity : Capacity) (pending_file_is_present : bool) : res Capacity FileLedgerError.t :=
  let 'mkCapacity schema max_records records pending_key cleanup_pending := capacity in
  if is_none pending_key || cleanup_pending then Err Corrupt
  else
    let? records :=
      (if pending_file_is_present then Ok records else ok_or (checked_sub records 1) Corrupt) in
    let settled := mkCapacity schema max_records records None cleanup_pending in
    let? _ := capacity_validate settled in Ok settled.

Definition finish_cleanup (capacity : Capacity) (records : u64) : res Capacity FileLedgerError.t :=
  let 'mkCapacity schema max_records previous pending_key cleanup_pending := capacity in
  if negb cleanup_pending || is_some pending_key || (previous <? records) then Err Corrupt
  else
    let capacity := mkCapacity schema max_records records pending_key false in
    let? _ := capacity_validate capacity in Ok capacity.

Definition reconcile_cleanup (capacity : Capacity) (records : u64) : res Capacity FileLedgerError.t :=
  if cap_cleanup_pending capacity then finish_cleanup capacity records
  else if cap_records capacity =? records then Ok capacity
  else Err Corrupt.

(** ** What the counter counts *)

(** The counter against the set of keys that have a record: exact when nothing
    is pending; a reserved key is counted whether or not its record was
    written; an unfinished cleanup may have removed records it still counts. *)
Definition counts (c : Capacity) (keys : gset bytes) : Prop :=
  capacity_validate c = Ok tt /\
  match cap_pending_key c, cap_cleanup_pending c with
  | None, false => cap_records c = Z.of_nat (size keys)
  | None, true => Z.of_nat (size keys) <= cap_records c
  | Some key, _ => cap_records c = Z.of_nat (size ({[key]} ∪ keys))
  end.

Lemma capacity_validate_Ok c :
  capacity_validate c = Ok tt <->
  cap_max_records c <> 0 /\ cap_records c <= cap_max_records c /\
  (forall key, cap_pending_key c = Some key ->
     cap_records c <> 0 /\ validate_key key = Ok tt /\ cap_cleanup_pending c = false) /\
  (cap_cleanup_pending c = true -> cap_records c <> 0).
Proof.
  destruct c as [[] max records [key|] cleanup]; unfold capacity_validate;
    cbn [cap_schema cap_max_records cap_records cap_pending_key cap_cleanup_pending is_some is_none negb].
  all: rewrite bool_decide_true by done; cbn [negb orb].
  all: destruct (Z.eqb_spec max 0); cbn [orb]; [naive_solver|].
  all: destruct (Z.ltb_spec max records); cbn [orb]; [naive_solver lia|].
  all: destruct (Z.eqb_spec records 0), cleanup; cbn [orb andb]; try naive_solver.
  assert (validate_key key = Ok tt <-> is_ok (validate_key key) = true) as Hk
    by (unfold validate_key; by destruct (_ && _)).
  destruct (is_ok (validate_key key)); cbn [negb]; naive_solver.
Qed.

Lemma counts_bounded c keys : counts c keys -> Z.of_nat (size keys) <= cap_records c <= cap_max_records c.
Proof.
  intros [Hv Hc]. apply capacity_validate_Ok in Hv as (_ & Hle & _).
  destruct (cap_pending_key c) as [key|], (cap_cleanup_pending c); try lia.
  - assert (size keys <= size ({[key]} ∪ keys))%nat by (apply subseteq_size; set_solver). lia.
  - assert (size keys <= size ({[key]} ∪ keys))%nat by (apply subseteq_size; set_solver). lia.
Qed.

Lemma counts_ready max keys c :
  ready max (Z.of_nat (size keys)) = Ok c -> counts c keys /\ cap_max_records c = max.
Proof.
  unfold ready. destruct (capacity_validate _) as [[]| |] eqn:Ev; [|done|done].
  intros [= <-]. split; [|done]. by split.
Qed.

Lemma reserve_Ok c key c' :
  reserve c key = Ok c' ->
  cap_pending_key c = None /\ cap_cleanup_pending c = false /\ cap_records c < cap_max_records c /\
  validate_key key = Ok tt /\
  c' = mkCapacity (cap_schema c) (cap_max_records c) (cap_records c + 1) (Some key) false.
Proof.
  destruct c as [schema max records pending cleanup]. unfold reserve.
  destruct pending, cleanup; try done. cbn [is_some is_none negb orb].
  destruct (Z.leb_spec max records); [done|]. destruct (validate_key key) as [[]| |] eqn:Ek; [|done|done].
  destruct (checked_add records 1) as [r|] eqn:Er; [|done]. apply checked_add_Some in Er as [-> _].
  cbn [ok_or]. intros [= <-]. done.
Qed.

(** Reserving counts the key before its record is written. *)
Lemma counts_reserve c keys key c' :
  counts c keys -> key ∉ keys -> reserve c key = Ok c' ->
  counts c' keys /\ counts c' ({[key]} ∪ keys) /\ cap_max_records c' = cap_max_records c.
Proof.
  intros [Hv Hc] Hk (Hp & Hcl & Hlt & Hkey & ->)%reserve_Ok. rewrite Hp, Hcl in Hc.
  assert (size ({[key]} ∪ keys) = S (size keys)) as Hs by (rewrite size_union, size_singleton by set_solver; lia).
  assert (capacity_validate (mkCapacity (cap_schema c) (cap_max_records c) (cap_records c + 1) (Some key) false)
    = Ok tt) as Hv'.
  { apply capacity_validate_Ok. cbn [cap_max_records cap_records cap_pending_key cap_cleanup_pending].
    apply capacity_validate_Ok in Hv as (Hm & _). split_and!; [done|lia| |done].
    intros ? [= <-]. split_and!; [lia|done|done]. }
  split_and!; [split; [done|]|split; [done|]|done];
    cbn [cap_records cap_pending_key cap_cleanup_pending].
  - rewrite Hs. lia.
  - rewrite (assoc_L _ {[key]} {[key]} keys), (idemp_L _ {[key]}), Hs. lia.
Qed.

(** Settling a reservation makes the count exact again, whether or not the
    record was written. *)
Lemma counts_settle c keys key c' :
  counts c keys -> cap_pending_key c = Some key ->
  settle c (bool_decide (key ∈ keys)) = Ok c' ->
  counts c' keys /\ cap_pending_key c' = None /\ cap_cleanup_pending c' = false /\
  cap_max_records c' = cap_max_records c.
Proof.
  intros [_ Hc] Hp. destruct c as [schema max records pending cleanup].
  cbn [cap_pending_key cap_records cap_cleanup_pending cap_max_records] in *. subst pending.
  unfold settle. cbn [is_none orb]. destruct cleanup; [done|].
  case_bool_decide as Hk.
  - destruct (capacity_validate _) as [[]| |] eqn:Ev; [|done|done]. intros [= <-].
    split_and!; [split; [done|]|done|done|done]. cbn. rewrite Hc. do 2 f_equal. set_solver.
  - destruct (checked_sub records 1) as [r|] eqn:Er; [|done]. apply checked_sub_Some in Er as [-> _].
    cbn [ok_or]. destruct (capacity_validate _) as [[]| |] eqn:Ev; [|done|done]. intros [= <-].
    split_and!; [split; [done|]|done|done|done]. cbn. rewrite Hc.
    rewrite size_union, size_singleton by set_solver. lia.
Qed.

Lemma settle_present c key c' :
  capacity_validate c = Ok tt -> cap_pending_key c = Some key -> settle c true = Ok c' ->
  c' = mkCapacity (cap_schema c) (cap_max_records c) (cap_records c) None false.
Proof.
  destruct c as [schema max records pending cleanup]. cbn. intros _ ->. cbn. destruct cleanup; [done|].
  destruct (capacity_validate _) as [[]| |]; [|done|done]. by intros [= <-].
Qed.

Lemma counts_begin_cleanup c keys c' :
  counts c keys -> begin_cleanup c = Ok c' ->
  (forall keys', keys' ⊆ keys -> counts c' keys') /\ cap_max_records c' = cap_max_records c /\
  cap_pending_key c' = None /\ cap_cleanup_pending c' = true /\ cap_records c' = cap_records c.
Proof.
  intros [Hv Hc]. destruct c as [schema max records pending cleanup].
  cbn [cap_pending_key cap_records cap_cleanup_pending cap_max_records] in *. unfold begin_cleanup.
  destruct pending, cleanup; try done. cbn [is_some is_none negb orb]. destruct (Z.eqb_spec records 0); [done|].
  intros [= <-]. split_and!; try done. intros keys' Hsub. split.
  - apply capacity_validate_Ok in Hv as (Hm & Hle & _). apply capacity_validate_Ok. cbn in *.
    split_and!; naive_solver.
  - cbn. apply subseteq_size in Hsub. lia.
Qed.

Lemma counts_finish_cleanup c keys c' :
  counts c keys -> finish_cleanup c (Z.of_nat (size keys)) = Ok c' ->
  counts c' keys /\ cap_max_records c' = cap_max_records c /\
  cap_pending_key c' = None /\ cap_cleanup_pending c' = false.
Proof.
  intros [_ Hc]. destruct c as [schema max records pending cleanup]. unfold finish_cleanup.
  destruct pending, cleanup; try done. cbn [is_some is_none negb orb].
  destruct (Z.ltb_spec records (Z.of_nat (size keys))); [done|].
  destruct (capacity_validate _) as [[]| |] eqn:Ev; [|done|done]. intros [= <-]. by split_and!.
Qed.

(** The clock's high water is the largest time ever observed. *)
Lemma advance_clock_Ok m now m' effective :
  advance_clock m now = Ok (m', effective) ->
  0 <= now /\ effective = Z.max (rm_clock_high_water_unix_millis m) now /\
  rm_clock_high_water_unix_millis m' = effective.
Proof.
  unfold advance_clock. destruct (Z.ltb_spec now 0); [done|]. by intros [= <- <-].
Qed.
