(* ===== verification/CtlRecord.v ===== *)
(** The delivery ledger's durable record: [controller/src/file_ledger/format.rs],
    [format/model/*.rs], [format/publication.rs] and [format/record.rs]. *)
From Stdlib Require Import Strings.Byte Strings.String Lia.
From stdpp Require Import base numbers list.
From S2P Require Import Prelude Codec WireModel WireIdentity OrdMap Observation CtlModel CtlFrame CtlCapacity.
Import FileLedgerError.

Definition MACHINE_JSON_BYTES : u64 := 268435456.
Definition MAX_RECORD_BYTES : u64 := 131072.

(** [checked]. *)
Definition checked {A} (value : option A) : res A FileLedgerError.t := ok_or value Corrupt.
(** [condition.then_some(()).ok_or(FileLedgerError::Corrupt)]. *)
Definition require (condition : bool) : res unit FileLedgerError.t := if condition then Ok tt else Err Corrupt.

Lemma require_Ok b : require b = Ok tt <-> b = true.
Proof. by destruct b. Qed.

(** ** Stored deliveries *)

Record StoredRepository := mkStoredRepository { sr_host : bytes; sr_owner : bytes; sr_name : bytes }.
#[export] Instance StoredRepository_eq_dec : EqDecision StoredRepository.
Proof. solve_decision. Defined.
Definition stored_repository_new (r : RepositoryIdentity.t) : StoredRepository :=
  mkStoredRepository (RepositoryIdentity.host r) (RepositoryIdentity.owner r) (RepositoryIdentity.name r).

Module StoredChange.
Record t := mk { provider : ProviderIdentity; repository : StoredRepository; change : Change.t }.
#[global] Instance eq_dec : EqDecision t.
Proof. solve_decision. Defined.

Definition new (c : ChangeLocator) : t :=
  mk (cl_provider c) (stored_repository_new (cl_repository c)) (cl_change c).

Definition materialize (s : t) : res ChangeLocator FileLedgerError.t :=
  let r := repository s in
  let? repository := checked (RepositoryIdentity.new (sr_host r) (sr_owner r) (sr_name r)) in
  Ok (mkChangeLocator (provider s) repository (change s)).

Definition matches (s : t) (c : ChangeLocator) : bool :=
  bool_decide (provider s = cl_provider c) && bool_decide (change s = cl_change c)
  && bytes_eqb (sr_host (repository s)) (RepositoryIdentity.host (cl_repository c))
  && bytes_eqb (sr_owner (repository s)) (RepositoryIdentity.owner (cl_repository c))
  && bytes_eqb (sr_name (repository s)) (RepositoryIdentity.name (cl_repository c)).

Definition is_valid (s : t) : bool :=
  RepositoryIdentity.valid_components (sr_host (repository s)) (sr_owner (repository s)) (sr_name (repository s)).
End StoredChange.

Module StoredDelivery.
Record t := mk { identity : DeliveryIdentity; change : StoredChange.t; provider_run : ProviderRunIdentity }.
#[global] Instance eq_dec : EqDecision t.
Proof. solve_decision. Defined.

Definition new (d : AuthenticatedDelivery) : t :=
  mk (ad_identity d) (StoredChange.new (ad_change d)) (ad_provider_run d).

Definition matches (s : t) (d : AuthenticatedDelivery) : bool :=
  bool_decide (identity s = ad_identity d) && StoredChange.matches (change s) (ad_change d)
  && bool_decide (provider_run s = ad_provider_run d).

Definition validate (s : t) : res unit FileLedgerError.t :=
  require (StoredChange.is_valid (change s) && provider_run_valid (provider_run s)
           && bool_decide (di_provider (identity s) = StoredChange.provider (change s))).
End StoredDelivery.

Module StoredReplayKeep.
Inductive t := Permanent | KeepThrough (unix_millis : i64).
#[global] Instance eq_dec : EqDecision t.
Proof. solve_decision. Defined.

Definition new (replay : ReplayKeep.t) : t :=
  match replay with
  | ReplayKeep.Permanent => Permanent
  | ReplayKeep.KeepThrough unix_millis _ => KeepThrough unix_millis
  end.

Definition validate (k : t) : res unit FileLedgerError.t :=
  match k with
  | Permanent => Ok tt
  | KeepThrough unix_millis => if 0 <=? unix_millis then Ok tt else Err Corrupt
  end.

Definition expired_at (k : t) (now : i64) : bool :=
  match k with Permanent => false | KeepThrough unix_millis => unix_millis <? now end.
End StoredReplayKeep.

(** ** Stored publications *)

Module StoredRun.
Record t := mk {
  change : StoredChange.t; refs : RunRefs; object_format : ObjectFormat; commits : OidPair; trees : OidPair
}.
#[global] Instance eq_dec : EqDecision t.
Proof. solve_decision. Defined.

Definition materialize (s : t) : res RunIdentity FileLedgerError.t :=
  let? change := StoredChange.materialize (change s) in
  checked (run_identity_new change (refs s) (object_format s) (commits s) (trees s)).

Definition validate (s : t) : res unit FileLedgerError.t :=
  require (StoredChange.is_valid (change s) && well_formed (commits s) (object_format s)
           && well_formed (trees s) (object_format s)).
End StoredRun.

Module StoredRunFailure.
Inductive t :=
  | MissingOutput | Timeout | TamperedRuntime | Unavailable | OversizedOutput | WrongIdentity
  | WrongTree | AuthorizationRevoked | Closed.
#[global] Instance eq_dec : EqDecision t.
Proof. solve_decision. Defined.

Definition new (failure : RunFailure.t) : t :=
  match failure with
  | RunFailure.MissingOutput => MissingOutput | RunFailure.Timeout => Timeout
  | RunFailure.TamperedRuntime => TamperedRuntime | RunFailure.Unavailable => Unavailable
  | RunFailure.OversizedOutput => OversizedOutput | RunFailure.WrongIdentity => WrongIdentity
  | RunFailure.WrongTree => WrongTree | RunFailure.AuthorizationRevoked => AuthorizationRevoked
  | RunFailure.Closed => Closed
  end.
Definition materialize (failure : t) : RunFailure.t :=
  match failure with
  | MissingOutput => RunFailure.MissingOutput | Timeout => RunFailure.Timeout
  | TamperedRuntime => RunFailure.TamperedRuntime | Unavailable => RunFailure.Unavailable
  | OversizedOutput => RunFailure.OversizedOutput | WrongIdentity => RunFailure.WrongIdentity
  | WrongTree => RunFailure.WrongTree | AuthorizationRevoked => RunFailure.AuthorizationRevoked
  | Closed => RunFailure.Closed
  end.
End StoredRunFailure.

Module StoredConclusion.
Inductive t := Pass | Block | Superseded | Unavailable (failure : StoredRunFailure.t).
#[global] Instance eq_dec : EqDecision t.
Proof. solve_decision. Defined.

Definition new (c : CheckConclusion.t) : t :=
  match c with
  | CheckConclusion.Pass => Pass | CheckConclusion.Block => Block
  | CheckConclusion.Superseded => Superseded
  | CheckConclusion.Unavailable failure => Unavailable (StoredRunFailure.new failure)
  end.
Definition materialize (c : t) : CheckConclusion.t :=
  match c with
  | Pass => CheckConclusion.Pass | Block => CheckConclusion.Block
  | Superseded => CheckConclusion.Superseded
  | Unavailable failure => CheckConclusion.Unavailable (StoredRunFailure.materialize failure)
  end.
End StoredConclusion.

Definition REPORT_DOMAIN : bytes := b_ "amiss/controller-report-blob-v1".

(** [report_length]. *)
Definition report_length (length : usize) : res u64 FileLedgerError.t :=
  if length <=? MACHINE_JSON_BYTES then Ok length else Err ReportTooLarge.

Record ReportRef := mkReportRef { rf_digest : Digest.t; rf_length : u64 }.
#[export] Instance ReportRef_eq_dec : EqDecision ReportRef.
Proof. solve_decision. Defined.

Module StoredReport.
Inductive t := Absent | Blob (reference : ReportRef).
#[global] Instance eq_dec : EqDecision t.
Proof. solve_decision. Defined.
End StoredReport.

Record StoredPublication := mkStoredPublication {
  sp_provider_run : ProviderRunIdentity;
  sp_evaluation_id : OpaqueIdT;
  sp_check : CheckBinding;
  sp_run : StoredRun.t;
  sp_gate_commit : option Oid.t;
  sp_conclusion : StoredConclusion.t;
  sp_report_field : StoredReport.t;
  sp_artifact : option ArtifactReference
}.
#[export] Instance StoredPublication_eq_dec : EqDecision StoredPublication.
Proof. solve_decision. Defined.

(** [StoredPublication::report] and [has_gate_commit]. *)
Definition sp_report (s : StoredPublication) : option ReportRef :=
  match sp_report_field s with StoredReport.Absent => None | StoredReport.Blob reference => Some reference end.
Definition has_gate_commit (s : StoredPublication) : bool := is_some (sp_gate_commit s).

(** ** Records *)

Module State.
Inductive t :=
  | Running (owner : bytes) (fence : u64) (expires_at_unix_millis : i64)
  | Staged (fence : u64) (publication : StoredPublication)
  | Done (fence : u64) (staged_digest : Digest.t).
#[global] Instance eq_dec : EqDecision t.
Proof. solve_decision. Defined.
End State.

Module RecordSchema.
Inductive t := Current.
#[global] Instance eq_dec : EqDecision t.
Proof. solve_decision. Defined.
End RecordSchema.

Record Record_ := mkRecord {
  r_schema : RecordSchema.t;
  r_generation : u64;
  r_last_seen_unix_millis : i64;
  r_binding : StoredDelivery.t;
  r_replay_keep : StoredReplayKeep.t;
  r_check : CheckBinding;
  r_evaluation_id : OpaqueIdT;
  r_state : State.t
}.
#[export] Instance Record_eq_dec : EqDecision Record_.
Proof. solve_decision. Defined.

(** [Record::running]. *)
Definition record_running (delivery : AcceptedDelivery) (check : CheckBinding) (evaluation_id owner : bytes)
    (now expires_at_unix_millis : i64) : Record_ :=
  mkRecord RecordSchema.Current 1 now (StoredDelivery.new (acc_delivery delivery))
    (StoredReplayKeep.new (acc_replay_keep delivery)) check evaluation_id
    (State.Running owner 1 expires_at_unix_millis).

(** [Record::matches]. *)
Definition record_matches (r : Record_) (delivery : AcceptedDelivery) (check : CheckBinding) : bool :=
  StoredDelivery.matches (r_binding r) (acc_delivery delivery)
  && bool_decide (r_replay_keep r = StoredReplayKeep.new (acc_replay_keep delivery))
  && bool_decide (r_check r = check).

(** [Record::advance]. *)
Definition advance (r : Record_) (now : i64) : res Record_ FileLedgerError.t :=
  let? generation := ok_or (checked_add (r_generation r) 1) Corrupt in
  Ok (mkRecord (r_schema r) generation now (r_binding r) (r_replay_keep r) (r_check r)
        (r_evaluation_id r) (r_state r)).

(** [record.state = state]. *)
Definition set_state (r : Record_) (s : State.t) : Record_ :=
  mkRecord (r_schema r) (r_generation r) (r_last_seen_unix_millis r) (r_binding r) (r_replay_keep r)
    (r_check r) (r_evaluation_id r) s.

Definition KEY_DOMAIN : bytes := b_ "amiss/controller-delivery-key-v1".
Definition STAGED_DOMAIN : bytes := b_ "amiss/controller-staged-publication-v2".

(** The value a delivery's key digests. *)
Record StoredDeliveryKey := mkStoredDeliveryKey {
  dk_provider_namespace : ProviderNamespaceT;
  dk_provider_instance : OpaqueIdT;
  dk_integration : OpaqueIdT;
  dk_delivery : Delivery.t
}.
#[export] Instance StoredDeliveryKey_eq_dec : EqDecision StoredDeliveryKey.
Proof. solve_decision. Defined.

Definition delivery_key_new (identity : DeliveryIdentity) : StoredDeliveryKey :=
  mkStoredDeliveryKey (pi_namespace (di_provider identity)) (pi_instance (di_provider identity))
    (di_integration identity) (di_delivery identity).

Record StagedDigest := mkStagedDigest {
  sd_evaluation_id : OpaqueIdT; sd_fence : u64; sd_publication : StoredPublication
}.
#[export] Instance StagedDigest_eq_dec : EqDecision StagedDigest.
Proof. solve_decision. Defined.

Section Format.
Context `{HX : Hex} `{HH : Hashes} {HHL : HashLaws HH} `{UP : UrlParser}.
Context `{JK : Json StoredDeliveryKey} `{JS : Json StagedDigest} `{JR : Json Record_}.

(** [ReportRef::new], [matches], [validate]. *)
Definition report_ref_new (report : bytes) : res ReportRef FileLedgerError.t :=
  let? length := report_length (len report) in
  Ok (mkReportRef (sha256_digest (REPORT_DOMAIN ++ [x00] ++ report)) length).

Definition report_ref_matches (reference : ReportRef) (report : bytes) : bool :=
  (len report =? rf_length reference)
  && match report_ref_new report with Ok actual => bool_decide (actual = reference) | _ => false end.

Definition report_ref_validate (reference : ReportRef) : res unit FileLedgerError.t :=
  if MACHINE_JSON_BYTES <? rf_length reference then Err Corrupt else Ok tt.

(** [StoredReport::new] and [verify]. *)
Definition stored_report_new (report : option bytes) : res StoredReport.t FileLedgerError.t :=
  match report with
  | Some data => let? reference := report_ref_new data in Ok (StoredReport.Blob reference)
  | None => Ok StoredReport.Absent
  end.

Definition stored_report_verify (s : StoredReport.t) (report : option bytes) : res unit FileLedgerError.t :=
  match s, report with
  | StoredReport.Absent, None => Ok tt
  | StoredReport.Blob reference, Some data =>
      if report_ref_matches reference data then Ok tt else Err Corrupt
  | _, _ => Err Corrupt
  end.

Definition validate_artifact_report (artifact : option ArtifactReference) (report : option bytes) :
    res unit FileLedgerError.t :=
  match artifact with
  | Some reference => if negb (reference_matches_report reference report) then Err Corrupt else Ok tt
  | None => Ok tt
  end.

(** [StoredPublication::new]. *)
Definition stored_publication_new (p : Publication) : res StoredPublication FileLedgerError.t :=
  let? _ := validate_artifact_report (p_artifact p) (p_report p) in
  let? report := stored_report_new (p_report p) in
  Ok (mkStoredPublication (p_provider_run p) (p_evaluation_id p) (p_check p)
        (StoredRun.mk (StoredChange.new (ri_change (p_run p))) (ri_refs (p_run p))
           (ri_object_format (p_run p)) (ri_commits (p_run p)) (ri_trees (p_run p)))
        (Some (p_gate_commit p)) (StoredConclusion.new (p_conclusion p)) report (p_artifact p)).

(** [StoredPublication::validate_metadata]. *)
Definition validate_metadata (s : StoredPublication) : res unit FileLedgerError.t :=
  let? _ := match sp_report s with Some reference => report_ref_validate reference | None => Ok tt end in
  if RepositoryIdentity.is_some_and (fun artifact => negb (valid_reference artifact)) (sp_artifact s)
     || negb (provider_run_valid (sp_provider_run s))
     || match sp_gate_commit s with
        | Some commit => negb (bool_decide (Oid.object_format commit = StoredRun.object_format (sp_run s)))
        | None => true
        end
  then Err Corrupt
  else StoredRun.validate (sp_run s).

(** [StoredPublication::materialize]. *)
Definition materialize (s : StoredPublication) (report : option bytes) : res Publication FileLedgerError.t :=
  let? _ := validate_metadata s in
  let? _ := stored_report_verify (sp_report_field s) report in
  let? _ := validate_artifact_report (sp_artifact s) report in
  match sp_gate_commit s with
  | None => Err Corrupt
  | Some gate_commit =>
      let? run := StoredRun.materialize (sp_run s) in
      Ok (mkPublication (sp_provider_run s) (sp_evaluation_id s) (sp_check s) run gate_commit
            (StoredConclusion.materialize (sp_conclusion s)) report (sp_artifact s))
  end.

(** [StoredPublication::validate_binding]. *)
Definition validate_binding (s : StoredPublication) (evaluation_id : bytes) (delivery : StoredDelivery.t)
    (check : CheckBinding) : res unit FileLedgerError.t :=
  if is_some (sp_artifact s) && is_none (sp_report s) then Err Corrupt
  else
    let? _ :=
      (if has_gate_commit s then validate_metadata s
       else if is_some (sp_artifact s) then Err Corrupt
       else
         let? _ := match sp_report s with Some reference => report_ref_validate reference | None => Ok tt end in
         if negb (provider_run_valid (sp_provider_run s)) then Err Corrupt
         else StoredRun.validate (sp_run s)) in
    if negb (bytes_eqb (sp_evaluation_id s) evaluation_id)
       || negb (bool_decide (sp_provider_run s = StoredDelivery.provider_run delivery))
       || negb (bool_decide (StoredRun.change (sp_run s) = StoredDelivery.change delivery))
       || negb (bool_decide (StoredRun.object_format (sp_run s)
                             = pr_object_format (StoredDelivery.provider_run delivery)))
       || negb (bool_decide (op_candidate (StoredRun.commits (sp_run s))
                             = pr_candidate_commit (StoredDelivery.provider_run delivery)))
       || negb (bool_decide (sp_check s = check))
    then Err Corrupt else Ok tt.

(** [Record::validate]. *)
Definition fence_in (fence : u64) (r : Record_) : bool := negb ((fence =? 0) || (r_generation r <? fence)).

Definition record_validate (r : Record_) : res unit FileLedgerError.t :=
  if negb (bool_decide (r_schema r = RecordSchema.Current)) || (r_generation r =? 0)
     || (r_last_seen_unix_millis r <? 0)
  then Err Corrupt
  else
    let? _ := StoredDelivery.validate (r_binding r) in
    let? _ := StoredReplayKeep.validate (r_replay_keep r) in
    match r_state r with
    | State.Running _ fence expires =>
        if negb (fence_in fence r) || (expires <=? r_last_seen_unix_millis r) then Err Corrupt else Ok tt
    | State.Staged fence publication =>
        if negb (fence_in fence r) then Err Corrupt
        else validate_binding publication (r_evaluation_id r) (r_binding r) (r_check r)
    | State.Done fence _ => if negb (fence_in fence r) then Err Corrupt else Ok tt
    end.

(** [format::encode] and [format::decode]. *)
Definition RECORD_FRAME : FrameFormat :=
  mkFrameFormat (b_ "AMISS-DELIVERY-RECORD") (b_ "amiss/controller-file-record-v1") MAX_RECORD_BYTES.
Definition record_encode (r : Record_) : res bytes FileLedgerError.t :=
  encode Corrupt record_validate RECORD_FRAME r.
Definition record_decode (data : bytes) : res Record_ FileLedgerError.t :=
  decode Corrupt record_validate RECORD_FRAME data.

(** [format::delivery_key], [evaluation_id], [staged_digest]. *)
Definition delivery_key (identity : DeliveryIdentity) : res bytes FileLedgerError.t :=
  let? text := ok_or (to_vec (delivery_key_new identity)) Corrupt in
  Ok (hex_encode (sha256 (KEY_DOMAIN ++ [x00] ++ text))).

Definition evaluation_id (identity : DeliveryIdentity) (nonce : bytes) : res bytes FileLedgerError.t :=
  let? key := delivery_key identity in
  ok_or (OpaqueId.try_from (b_ "eval:" ++ key ++ b_ ":" ++ hex_encode nonce)) Corrupt.

Definition staged_digest (evaluation_id : bytes) (fence : u64) (publication : StoredPublication) :
    res Digest.t FileLedgerError.t :=
  let? text := ok_or (to_vec (mkStagedDigest evaluation_id fence publication)) Corrupt in
  Ok (sha256_digest (STAGED_DOMAIN ++ [x00] ++ text)).

(** [Record::matches_key]. *)
Definition matches_key (r : Record_) (key : bytes) : res bool FileLedgerError.t :=
  let? own := delivery_key (StoredDelivery.identity (r_binding r)) in Ok (bytes_eqb own key).
End Format.

(** ** Stored and live values *)

Lemma stored_change_materialize s c :
  StoredChange.materialize s = Ok c <-> s = StoredChange.new c /\ StoredChange.is_valid s = true.
Proof.
  destruct s as [provider [host owner name] change], c as [provider' [host' name' owner'] change'].
  unfold StoredChange.materialize, StoredChange.is_valid, StoredChange.new, RepositoryIdentity.new,
    stored_repository_new, checked.
  cbn. destruct (RepositoryIdentity.valid_components host owner name); cbn; naive_solver.
Qed.

Lemma stored_change_matches s c : StoredChange.matches s c = true <-> s = StoredChange.new c.
Proof.
  destruct s as [provider [host owner name] change], c as [provider' [host' name' owner'] change'].
  unfold StoredChange.matches, StoredChange.new, stored_repository_new. cbn.
  rewrite !andb_true_iff, !bool_decide_eq_true, !bytes_eqb_eq. naive_solver.
Qed.

Lemma stored_delivery_matches s d : StoredDelivery.matches s d = true <-> s = StoredDelivery.new d.
Proof.
  destruct s as [identity change run]. unfold StoredDelivery.matches, StoredDelivery.new. cbn.
  rewrite !andb_true_iff, !bool_decide_eq_true, stored_change_matches. naive_solver.
Qed.

(** The stored form of a run. *)
Definition stored_run (run : RunIdentity) : StoredRun.t :=
  StoredRun.mk (StoredChange.new (ri_change run)) (ri_refs run) (ri_object_format run) (ri_commits run)
    (ri_trees run).

Lemma stored_run_materialize s run :
  StoredRun.materialize s = Ok run <-> s = stored_run run /\ StoredRun.validate s = Ok tt.
Proof.
  destruct s as [change refs f commits trees]. unfold StoredRun.materialize, StoredRun.validate, stored_run. cbn.
  rewrite require_Ok, !andb_true_iff. split.
  - destruct (StoredChange.materialize change) as [c| |] eqn:Ec; [|done|done].
    apply stored_change_materialize in Ec as [-> Hv]. unfold run_identity_new, checked.
    destruct (well_formed commits f), (well_formed trees f); cbn; try done. intros [= <-]. by split_and!.
  - destruct run as [c refs' f' commits' trees']. cbn. intros [[= -> -> -> -> ->] [[Hv Hc] Ht]].
    rewrite (proj2 (stored_change_materialize _ c) (conj eq_refl Hv)).
    unfold run_identity_new, checked. by rewrite Hc, Ht.
Qed.

Lemma stored_conclusion_materialize s c : StoredConclusion.materialize s = c <-> s = StoredConclusion.new c.
Proof.
  split; [intros <-|intros ->].
  - by destruct s as [| | |[]].
  - by destruct c as [| | |[]].
Qed.

(** [Record::matches] is equality with what [Record::running] stores. *)
Lemma record_matches_eq r d check :
  record_matches r d check = true <->
  r_binding r = StoredDelivery.new (acc_delivery d) /\
  r_replay_keep r = StoredReplayKeep.new (acc_replay_keep d) /\ r_check r = check.
Proof.
  unfold record_matches. rewrite !andb_true_iff, !bool_decide_eq_true, stored_delivery_matches. naive_solver.
Qed.

Section FormatLemmas.
Context `{HX : Hex} `{HH : Hashes} {HHL : HashLaws HH} `{UP : UrlParser}.
Context `{JK : Json StoredDeliveryKey} `{JS : Json StagedDigest} `{JR : Json Record_}.

Lemma report_ref_matches_new reference report :
  report_ref_matches reference report = true <-> report_ref_new report = Ok reference.
Proof.
  unfold report_ref_matches, report_ref_new, report_length.
  destruct (Z.leb_spec (len report) MACHINE_JSON_BYTES); [|by rewrite andb_false_r].
  rewrite andb_true_iff, bool_decide_eq_true, Z.eqb_eq. split.
  - by intros [_ ->].
  - intros [= <-]. done.
Qed.

Lemma stored_report_verify_new s report :
  stored_report_verify s report = Ok tt <-> stored_report_new report = Ok s.
Proof.
  unfold stored_report_verify, stored_report_new.
  destruct s as [|reference], report as [data|]; [|done| |naive_solver].
  - destruct (report_ref_new data); naive_solver.
  - destruct (report_ref_matches reference data) eqn:Em.
    + apply report_ref_matches_new in Em as ->. naive_solver.
    + split; [done|]. destruct (report_ref_new data) as [actual| |] eqn:En; [|done|done]. intros [= ->].
      by rewrite (proj2 (report_ref_matches_new _ _) En) in Em.
Qed.

Lemma stored_publication_new_Ok p s :
  stored_publication_new p = Ok s <->
  validate_artifact_report (p_artifact p) (p_report p) = Ok tt /\
  exists report, stored_report_new (p_report p) = Ok report /\
  s = mkStoredPublication (p_provider_run p) (p_evaluation_id p) (p_check p) (stored_run (p_run p))
        (Some (p_gate_commit p)) (StoredConclusion.new (p_conclusion p)) report (p_artifact p).
Proof.
  unfold stored_publication_new. destruct (validate_artifact_report _ _) as [[]| |]; [|naive_solver|naive_solver].
  destruct (stored_report_new _) as [report| |]; naive_solver.
Qed.

Lemma materialize_exact_spec s report p :
  materialize s report = Ok p <->
  stored_publication_new p = Ok s /\ p_report p = report /\ validate_metadata s = Ok tt.
Proof.
  rewrite stored_publication_new_Ok. unfold materialize. split.
  - destruct (validate_metadata s) as [[]| |]; [|done|done].
    destruct (stored_report_verify _ _) as [[]| |] eqn:Ev; [|done|done].
    apply stored_report_verify_new in Ev.
    destruct (validate_artifact_report _ _) as [[]| |] eqn:Ea; [|done|done].
    destruct (sp_gate_commit s) as [gate|] eqn:Eg; [|done].
    destruct (StoredRun.materialize _) as [run| |] eqn:Er; [|done|done].
    apply stored_run_materialize in Er as [Er _]. intros [= <-]. cbn.
    split_and!; [done| |done|done]. exists (sp_report_field s). split; [done|].
    destruct s; cbn in *. rewrite Er, Eg. f_equal. by apply stored_conclusion_materialize.
  - intros ((Ha & stored & Hr & Hs) & <- & Hv). rewrite Hv. rewrite Hs. cbn.
    rewrite (proj2 (stored_report_verify_new _ _) Hr), Ha.
    assert (StoredRun.validate (stored_run (p_run p)) = Ok tt) as Hrun.
    { revert Hv. rewrite Hs. unfold validate_metadata. cbn.
      destruct (match sp_report _ with Some _ => _ | None => _ end); [|done|done]. by destruct (_ || _). }
    rewrite (proj2 (stored_run_materialize _ (p_run p)) (conj eq_refl Hrun)).
    destruct p; cbn. f_equal. f_equal. by apply stored_conclusion_materialize.
Qed.

(** What a valid staged record has bound. *)
Lemma validate_binding_Ok s eid delivery check :
  validate_binding s eid delivery check = Ok tt ->
  sp_evaluation_id s = eid /\ sp_provider_run s = StoredDelivery.provider_run delivery /\
  StoredRun.change (sp_run s) = StoredDelivery.change delivery /\ sp_check s = check /\
  (has_gate_commit s = true -> validate_metadata s = Ok tt).
Proof.
  unfold validate_binding. destruct (is_some (sp_artifact s) && _); [done|].
  destruct (if has_gate_commit s then _ else _) as [[]| |] eqn:Em; [|done|done].
  destruct (bytes_eqb _ eid) eqn:E1; [|done]. apply bytes_eqb_eq in E1. cbn [negb orb].
  case_bool_decide as E2; [|done]. case_bool_decide as E3; [|done]. cbn [negb orb].
  destruct (negb (bool_decide (StoredRun.object_format _ = _)) || _); [done|].
  case_bool_decide as E4; [|done]. intros _. split_and!; try done.
  intros Hg. by rewrite Hg in Em.
Qed.

Lemma fence_in_true fence r : fence_in fence r = true <-> fence <> 0 /\ fence <= r_generation r.
Proof.
  unfold fence_in. rewrite negb_true_iff, orb_false_iff, Z.eqb_neq, Z.ltb_ge. done.
Qed.

(** The fence a state carries. *)
Definition fence_of (s : State.t) : u64 :=
  match s with State.Running _ fence _ | State.Staged fence _ | State.Done fence _ => fence end.

Lemma record_validate_fence r :
  record_validate r = Ok tt -> fence_of (r_state r) <> 0 /\ fence_of (r_state r) <= r_generation r.
Proof.
  unfold record_validate. destruct (_ || _ || _); [done|].
  destruct (StoredDelivery.validate _) as [[]| |]; [|done|done].
  destruct (StoredReplayKeep.validate _) as [[]| |]; [|done|done]. rewrite <- fence_in_true.
  destruct (r_state r) as [owner fence e|fence publication|fence d]; cbn [fence_of];
    destruct (fence_in fence r); cbn [negb orb]; done.
Qed.

Lemma record_validate_staged r fence s :
  record_validate r = Ok tt -> r_state r = State.Staged fence s ->
  validate_binding s (r_evaluation_id r) (r_binding r) (r_check r) = Ok tt.
Proof.
  unfold record_validate. intros Hv Hs. rewrite Hs in Hv. destruct (_ || _ || _); [done|].
  destruct (StoredDelivery.validate _) as [[]| |]; [|done|done].
  destruct (StoredReplayKeep.validate _) as [[]| |]; [|done|done].
  by destruct (negb _).
Qed.

Lemma record_validate_running r owner fence e :
  record_validate r = Ok tt -> r_state r = State.Running owner fence e -> r_last_seen_unix_millis r < e.
Proof.
  unfold record_validate. intros Hv Hs. rewrite Hs in Hv. destruct (_ || _ || _); [done|].
  destruct (StoredDelivery.validate _) as [[]| |]; [|done|done].
  destruct (StoredReplayKeep.validate _) as [[]| |]; [|done|done].
  destruct (negb _); [done|]. cbn [orb] in Hv. destruct (Z.leb_spec e (r_last_seen_unix_millis r)); [done|lia].
Qed.
End FormatLemmas.

(** storing a publication loses nothing: a stored publication materializes beside a
    report to exactly the publication it was made from, and it materializes
    only beside the report it names, when its metadata is valid. *)
Theorem stored_publication_exact (HH : Hashes) (HHL : HashLaws HH) (UP : UrlParser) s report p :
  materialize s report = Ok p <->
  stored_publication_new p = Ok s /\ p_report p = report /\ validate_metadata s = Ok tt.
Proof. apply materialize_exact_spec. Qed.
