(* ===== verification/CtlPublication.v ===== *)
(** What a run publishes: [controller/src/orchestration/model.rs] (outcomes of a
    runner) and [orchestration/publication.rs] (the conclusion of a run and its
    invalidation by a later refresh). *)
From Stdlib Require Import Strings.Byte Strings.String Lia.
From stdpp Require Import base numbers list.
From S2P Require Import Prelude Codec WireModel WireIdentity CtlModel CtlRecord.

Module Evaluation.
Inductive t := Pass | Block.
End Evaluation.

Module RunnerOutcome.
Inductive t :=
  | Complete (identity : RunIdentity) (evaluation : Evaluation.t) (report : bytes) (semantic_artifact : option bytes)
  | MissingOutput | OversizedOutput | TimedOut | TamperedRuntime | Unavailable.
End RunnerOutcome.

(** [RunRequest]; the check plan is of the type [Plan]. *)
Record RunRequest (Plan : Type) := mkRunRequest {
  rq_delivery : DeliveryIdentity;
  rq_provider_run : ProviderRunIdentity;
  rq_evaluation_id : OpaqueIdT;
  rq_check : CheckBinding;
  rq_plan : Plan;
  rq_run : RunIdentity
}.
Arguments mkRunRequest {Plan}.
Arguments rq_delivery {Plan}.
Arguments rq_provider_run {Plan}.
Arguments rq_evaluation_id {Plan}.
Arguments rq_check {Plan}.
Arguments rq_plan {Plan}.
Arguments rq_run {Plan}.

Record PreparedPublication := mkPreparedPublication { pp_publication : Publication; pp_semantic_artifact : option bytes }.

(** [publication.conclusion = conclusion]. *)
Definition set_conclusion (p : Publication) (c : CheckConclusion.t) : Publication :=
  mkPublication (p_provider_run p) (p_evaluation_id p) (p_check p) (p_run p) (p_gate_commit p) c (p_report p) (p_artifact p).
(** [publication.artifact = artifact]. *)
Definition set_artifact (p : Publication) (a : option ArtifactReference) : Publication :=
  mkPublication (p_provider_run p) (p_evaluation_id p) (p_check p) (p_run p) (p_gate_commit p) (p_conclusion p)
    (p_report p) a.

Definition runner_conclusion (expected : RunIdentity) (outcome : option RunnerOutcome.t) :
    CheckConclusion.t * option bytes :=
  match outcome with
  | Some (RunnerOutcome.Complete identity evaluation report _) =>
      if negb (bool_decide (ri_change identity = ri_change expected))
         || negb (bool_decide (ri_refs identity = ri_refs expected))
         || negb (bool_decide (ri_object_format identity = ri_object_format expected))
         || negb (bool_decide (ri_commits identity = ri_commits expected))
      then (CheckConclusion.Unavailable RunFailure.WrongIdentity, None)
      else if negb (bool_decide (ri_trees identity = ri_trees expected))
      then (CheckConclusion.Unavailable RunFailure.WrongTree, None)
      else if negb (nonempty report) then (CheckConclusion.Unavailable RunFailure.MissingOutput, None)
      else if MACHINE_JSON_BYTES <? len report then (CheckConclusion.Unavailable RunFailure.OversizedOutput, None)
      else (match evaluation with
            | Evaluation.Pass => CheckConclusion.Pass
            | Evaluation.Block => CheckConclusion.Block
            end, Some report)
  | Some RunnerOutcome.MissingOutput | None => (CheckConclusion.Unavailable RunFailure.MissingOutput, None)
  | Some RunnerOutcome.OversizedOutput => (CheckConclusion.Unavailable RunFailure.OversizedOutput, None)
  | Some RunnerOutcome.TimedOut => (CheckConclusion.Unavailable RunFailure.Timeout, None)
  | Some RunnerOutcome.TamperedRuntime => (CheckConclusion.Unavailable RunFailure.TamperedRuntime, None)
  | Some RunnerOutcome.Unavailable => (CheckConclusion.Unavailable RunFailure.Unavailable, None)
  end.

Definition publication {Plan} (request : RunRequest Plan) (initial : ChangeSnapshot)
    (outcome : option RunnerOutcome.t) : PreparedPublication :=
  let semantic_artifact :=
    match outcome with
    | Some (RunnerOutcome.Complete _ _ _ semantic_artifact) => semantic_artifact
    | _ => None
    end in
  let '(conclusion, report) := runner_conclusion (cs_run initial) outcome in
  let semantic_artifact := match report with Some _ => semantic_artifact | None => None end in
  mkPreparedPublication
    (mkPublication (rq_provider_run request) (rq_evaluation_id request) (rq_check request) (cs_run initial)
       (cs_gate_commit initial) conclusion report None)
    semantic_artifact.

Definition finalize_publication (initial fresh : ChangeSnapshot) (p : Publication) : Publication :=
  let state_is s := bool_decide (cs_state fresh = s) || bool_decide (cs_state initial = s) in
  let invalidated :=
    if state_is ChangeState.AuthorizationRevoked
    then Some (CheckConclusion.Unavailable RunFailure.AuthorizationRevoked)
    else if state_is ChangeState.Closed then Some (CheckConclusion.Unavailable RunFailure.Closed)
    else if state_is ChangeState.Superseded
            || negb (bool_decide (cs_run initial = cs_run fresh))
            || negb (bool_decide (cs_gate_commit initial = cs_gate_commit fresh))
    then Some CheckConclusion.Superseded
    else None in
  match invalidated with
  | Some conclusion => set_conclusion p conclusion
  | None => p
  end.

(** ** What a conclusion needs *)

(** The run answered for exactly the expected identity with a usable report. *)
Definition complete_run (expected : RunIdentity) (outcome : option RunnerOutcome.t) (evaluation : Evaluation.t)
    (report : bytes) : Prop :=
  (exists semantic, outcome = Some (RunnerOutcome.Complete expected evaluation report semantic)) /\
  report <> [] /\ len report <= MACHINE_JSON_BYTES.

Lemma runner_conclusion_report expected outcome c report :
  runner_conclusion expected outcome = (c, Some report) <->
  exists evaluation, complete_run expected outcome evaluation report /\
    c = match evaluation with Evaluation.Pass => CheckConclusion.Pass | Evaluation.Block => CheckConclusion.Block end.
Proof.
  unfold complete_run. destruct outcome as [[identity evaluation r s| | | | |]|]; cbn [runner_conclusion].
  2-7: naive_solver.
  destruct identity as [c1 r1 f1 m1 t1], expected as [c2 r2 f2 m2 t2]; cbn [ri_change ri_refs ri_object_format ri_commits ri_trees].
  repeat (case_bool_decide; cbn [negb orb]; [|naive_solver]). subst.
  destruct r as [|b r]; cbn [nonempty negb]; [naive_solver|].
  destruct (Z.ltb_spec MACHINE_JSON_BYTES (len (b :: r))); [naive_solver lia|].
  split.
  - intros [= <- <-]. exists evaluation. naive_solver.
  - intros (e & ((s' & [= -> -> ->]) & _ & _) & ->). done.
Qed.

Lemma runner_conclusion_none expected outcome c :
  runner_conclusion expected outcome = (c, None) -> exists failure, c = CheckConclusion.Unavailable failure.
Proof.
  destruct outcome as [[identity evaluation r s| | | | |]|]; cbn [runner_conclusion]; try naive_solver.
  repeat (case_match; try naive_solver).
Qed.

(** Both looks at the change agree and allow a result. *)
Definition unchanged (initial fresh : ChangeSnapshot) : Prop :=
  cs_state initial = ChangeState.Active /\ cs_state fresh = ChangeState.Active /\
  cs_run initial = cs_run fresh /\ cs_gate_commit initial = cs_gate_commit fresh.

Lemma finalize_kept initial fresh p :
  p_run (finalize_publication initial fresh p) = p_run p /\
  p_provider_run (finalize_publication initial fresh p) = p_provider_run p /\
  p_evaluation_id (finalize_publication initial fresh p) = p_evaluation_id p /\
  p_check (finalize_publication initial fresh p) = p_check p /\
  p_gate_commit (finalize_publication initial fresh p) = p_gate_commit p /\
  p_report (finalize_publication initial fresh p) = p_report p /\
  p_artifact (finalize_publication initial fresh p) = p_artifact p.
Proof. unfold finalize_publication. by repeat case_match. Qed.

(** A conclusion about the content survives only when nothing changed. *)
Lemma finalize_conclusion initial fresh p c :
  (c = CheckConclusion.Pass \/ c = CheckConclusion.Block) ->
  p_conclusion (finalize_publication initial fresh p) = c <-> unchanged initial fresh /\ p_conclusion p = c.
Proof.
  intros Hc. unfold finalize_publication, unchanged.
  destruct (cs_state initial), (cs_state fresh); cbn [bool_decide decide orb];
    repeat (case_bool_decide; cbn [negb orb]); cbn; naive_solver.
Qed.
