(* ===== verification/CtlStore.v ===== *)
(** The delivery ledger's files: [controller/src/file_ledger/store.rs],
    [store/report.rs] and [atomic_write_recovery.rs].

    The directory is a parameter ([Disk]): one operation per call of [std::fs],
    [atomicwrites], the clock and the random source. Every call may fail. A
    process that stops between two calls leaves the directory as the failure of
    the later call would: no operation touches the directory after a failed
    call. *)
From Stdlib Require Import Strings.Byte Strings.String Lia.
From stdpp Require Import base numbers gmap fin_sets list.
From S2P Require Import Prelude Codec WireModel CtlModel CtlFrame CtlCapacity OrdMap CtlRecord.
Import FileLedgerError.

(** ** The directory *)

(** What a name of the directory stands for: a regular file, or anything else
    (a directory, a symbolic link). *)
Inductive Node := Regular (content : bytes) | Irregular.

Record DiskMetadata := mkDiskMetadata { dm_is_file : bool; dm_len : u64 }.

(** One row of [fs::read_dir]: its name and [entry.file_type()]. *)
Inductive FileType := TFile | TDir | TOther.
Record DirEntry := mkDirEntry { de_name : bytes; de_type : res FileType IoError.t }.

Class Disk := {
  DWorld : Type;
  DFile : Type;
  (** [fs::symlink_metadata(root.join(name))]. *)
  dk_symlink_metadata : bytes -> sres DWorld DiskMetadata IoError.t;
  (** [File::open], [OpenOptions::new().read(true).write(true).create(true)]. *)
  dk_open : bytes -> sres DWorld DFile IoError.t;
  dk_open_create : bytes -> sres DWorld DFile IoError.t;
  (** [file.metadata()?.is_file()], [file.take(n).read_to_end], the locks. *)
  dk_is_file : DFile -> sres DWorld bool IoError.t;
  dk_read_to_end : DFile -> u64 -> sres DWorld bytes IoError.t;
  dk_lock : DFile -> sres DWorld unit IoError.t;
  dk_lock_shared : DFile -> sres DWorld unit IoError.t;
  (** [AtomicFile::new(path, AllowOverwrite).write(|file| file.write_all(data))]
      and [fs::remove_file]. *)
  dk_atomic_write : bytes -> bytes -> sres DWorld unit IoError.t;
  dk_remove : bytes -> sres DWorld unit IoError.t;
  (** [fs::read_dir] of the root and of one of its directories, and the removal
      of a directory's file and of a directory. *)
  dk_read_dir : sres DWorld (list (res DirEntry IoError.t)) IoError.t;
  dk_read_subdir : bytes -> sres DWorld (list (res DirEntry IoError.t)) IoError.t;
  dk_remove_in : bytes -> bytes -> sres DWorld unit IoError.t;
  dk_remove_dir : bytes -> sres DWorld unit IoError.t;
  (** The root: [fs::symlink_metadata(root)?.file_type().is_dir()] and
      [fs::canonicalize]. *)
  dk_root_is_dir : sres DWorld bool IoError.t;
  dk_canonicalize : sres DWorld unit IoError.t;
  (** [ControllerClock::now_unix_millis] and [getrandom::u64]. *)
  dk_now : DWorld -> option i64 * DWorld;
  dk_random : DWorld -> option u64 * DWorld;
  (** What a name stands for, and what an open file reads: files are replaced
      and never written in place, so the latter does not depend on the
      directory. *)
  dk_entry : DWorld -> bytes -> option Node;
  dk_node : DFile -> Node;
  (** The name a file was opened by, and the locks this process holds. *)
  dk_name : DFile -> bytes;
  dk_held : DWorld -> bytes -> Prop
}.

(** ** File operations *)

Section Files.
Context `{Disk}.

Abbreviation op A := (sres DWorld A FileLedgerError.t).

(** [?] on an [io::Result]. *)
Definition io {A} (m : sres DWorld A IoError.t) : op A :=
  fun w => match m w with
           | (Ok a, w) => (Ok a, w)
           | (Err e, w) => (Err (Io e), w)
           | (OutOfFuel, w) => (OutOfFuel, w)
           end.

(** [Err(error) if error.kind() == NotFound] as [None]. *)
Definition unless_not_found {A} (m : op A) : op (option A) :=
  fun w => match m w with
           | (Ok a, w) => (Ok (Some a), w)
           | (Err (Io IoError.NotFound), w) => (Ok None, w)
           | (Err e, w) => (Err e, w)
           | (OutOfFuel, w) => (OutOfFuel, w)
           end.

Definition reject_non_file (name : bytes) : op unit :=
  let! found := unless_not_found (io (dk_symlink_metadata name)) in
  match found with
  | Some metadata => if dm_is_file metadata then sret tt else sfail Corrupt
  | None => sret tt
  end.

Definition open_lock (name : bytes) : op DFile :=
  let! _ := reject_non_file name in
  let! lock := io (dk_open_create name) in
  let! is_file := io (dk_is_file lock) in
  if negb is_file then sfail Corrupt else sret lock.

Definition atomic_write (name data : bytes) : op unit :=
  let! _ := reject_non_file name in
  io (dk_atomic_write name data).

Definition read_bounded (name : bytes) (maximum : u64) : op bytes :=
  let! metadata := io (dk_symlink_metadata name) in
  if negb (dm_is_file metadata) || (maximum <? dm_len metadata) then sfail Corrupt
  else
    let! file := io (dk_open name) in
    let! is_file := io (dk_is_file file) in
    if negb is_file then sfail Corrupt
    else
      let! data := io (dk_read_to_end file (sat_add maximum 1)) in
      if maximum <? len data then sfail Corrupt else sret data.

(** ** Names *)

Definition MAINTENANCE_LOCK : bytes := b_ ".amiss-maintenance.lock".
Definition ADMISSION_LOCK : bytes := b_ ".amiss-admission.lock".
Definition CLOCK_LOCK : bytes := b_ ".amiss-clock.lock".
Definition METADATA_FILE : bytes := b_ ".amiss-root.state".
Definition CAPACITY_FILE : bytes := b_ ".amiss-capacity.state".
Definition ATOMIC_WRITE_DIRECTORY_PREFIX : bytes := b_ ".atomicwrite".

Definition state_name (key : bytes) : bytes := key ++ b_ ".state".
Definition report_name (key : bytes) : bytes := key ++ b_ ".report".

Definition row_lock_name `{Hex} (key : bytes) : res bytes FileLedgerError.t :=
  let? prefix := ok_or (slice_to key 2) Corrupt in
  if existsb is_ascii_uppercase prefix then Err Corrupt
  else
    let? _ := ok_or (hex_decode_to_slice prefix 1) Corrupt in
    Ok (b_ ".amiss-row-" ++ prefix ++ b_ ".lock").

(** ** Metadata and capacity files *)

Context `{HX : Hex} `{HH : Hashes} {HHL : HashLaws HH} `{UP : UrlParser}.
Context `{JK : Json StoredDeliveryKey} `{JS : Json StagedDigest} `{JR : Json Record_}
        `{JM : Json RootMetadata} `{JC : Json Capacity}.

Definition MAX_METADATA_BYTES : u64 := 4096.
Definition METADATA_FRAME : FrameFormat :=
  mkFrameFormat (b_ "AMISS-DELIVERY-ROOT") (b_ "amiss/controller-file-root-frame-v1") MAX_METADATA_BYTES.
Definition metadata_encode (m : RootMetadata) : res bytes FileLedgerError.t :=
  encode Corrupt metadata_validate METADATA_FRAME m.
Definition metadata_decode (data : bytes) : res StoredMetadata.t FileLedgerError.t :=
  let? metadata := decode Corrupt metadata_validate METADATA_FRAME data in
  match rm_schema metadata with
  | RootSchema.Current => Ok (StoredMetadata.Current metadata)
  | RootSchema.Legacy => Ok (StoredMetadata.Legacy metadata)
  end.

Definition MAX_CAPACITY_BYTES : u64 := 4096.
Definition CAPACITY_FRAME : FrameFormat :=
  mkFrameFormat (b_ "AMISS-DELIVERY-CAPACITY") (b_ "amiss/controller-file-capacity-frame-v1") MAX_CAPACITY_BYTES.
Definition capacity_encode (c : Capacity) : res bytes FileLedgerError.t :=
  encode Corrupt capacity_validate CAPACITY_FRAME c.
Definition capacity_decode (data : bytes) : res Capacity FileLedgerError.t :=
  decode Corrupt capacity_validate CAPACITY_FRAME data.

Definition load_stored_metadata : op StoredMetadata.t :=
  let! data := read_bounded METADATA_FILE MAX_METADATA_BYTES in
  slift (metadata_decode data).

Definition load_metadata : op RootMetadata :=
  let! stored := load_stored_metadata in
  match stored with
  | StoredMetadata.Current metadata => sret metadata
  | StoredMetadata.Legacy _ => sfail Corrupt
  end.

Definition load_optional_capacity : op (option Capacity) :=
  let! found := unless_not_found (read_bounded CAPACITY_FILE MAX_CAPACITY_BYTES) in
  match found with
  | Some data => let! capacity := slift (capacity_decode data) in sret (Some capacity)
  | None => sret None
  end.

Definition save_capacity (c : Capacity) : op unit :=
  let! data := slift (capacity_encode c) in atomic_write CAPACITY_FILE data.

(** A record file that belongs to its key. *)
Definition decode_for (key data : bytes) : res Record_ FileLedgerError.t :=
  let? record := record_decode data in
  let? own := matches_key record key in
  if negb own then Err Corrupt else Ok record.

Definition recover_capacity (capacity : Capacity) : op Capacity :=
  match cap_pending_key capacity with
  | None => sret capacity
  | Some key =>
      let! found := unless_not_found (read_bounded (state_name key) MAX_RECORD_BYTES) in
      let! present :=
        match found with
        | Some data => let! _ := slift (decode_for key data) in sret true
        | None => sret false
        end in
      let! capacity := slift (settle capacity present) in
      let! _ := save_capacity capacity in
      sret capacity
  end.

(** ** Rows *)

Record Row := mkRow { row_key : bytes; row_config : FileLedgerConfig }.

(** [Store::lock]. *)
Definition lock (config : FileLedgerConfig) (key : bytes) (replay_keep : ReplayKeep.t) : op Row :=
  let! _ := slift (validate_key key) in
  if match replay_keep with
     | ReplayKeep.KeepThrough _ window => negb (bool_decide (window = c_replay_window config))
     | ReplayKeep.Permanent => false
     end
  then sfail Configuration
  else
    let! maintenance := open_lock MAINTENANCE_LOCK in
    let! _ := io (dk_lock_shared maintenance) in
    let! name := slift (row_lock_name key) in
    let! row_lock := open_lock name in
    let! _ := io (dk_lock row_lock) in
    sret (mkRow key config).

(** [Row::load]. *)
Definition load (row : Row) : op (option Record_) :=
  let! found := unless_not_found (read_bounded (state_name (row_key row)) MAX_RECORD_BYTES) in
  match found with
  | Some data => let! record := slift (decode_for (row_key row) data) in sret (Some record)
  | None => sret None
  end.

(** [Row::save]. *)
Definition save (row : Row) (record : Record_) : op unit :=
  let! data := slift (record_encode record) in
  atomic_write (state_name (row_key row)) data.

(** [Row::save_new] once the admission lock is held. *)
Definition save_admitted (row : Row) (record : Record_) : op unit :=
  let! loaded := load_optional_capacity in
  let! capacity := slift (ok_or loaded Corrupt) in
  if negb (cap_max_records capacity =? c_max_records (row_config row)) then sfail Corrupt
  else
    let! capacity := recover_capacity capacity in
    let! existing := load row in
    if is_some existing then sfail Corrupt
    else
      let! capacity := slift (reserve capacity (row_key row)) in
      let! _ := save_capacity capacity in
      let! _ := save row record in
      let! capacity := slift (settle capacity true) in
      save_capacity capacity.

(** [Row::save_new]. *)
Definition save_new (row : Row) (record : Record_) : op unit :=
  let! admission := open_lock ADMISSION_LOCK in
  let! _ := io (dk_lock admission) in
  save_admitted row record.

(** [Row::observe_clock] once the clock lock is held. *)
Definition observe_locked (row : Row) (now : i64) : op i64 :=
  let! metadata := load_metadata in
  if negb (metadata_matches metadata (row_config row)) then sfail Configuration
  else
    let previous := rm_clock_high_water_unix_millis metadata in
    let! (metadata, effective) := slift (advance_clock metadata now) in
    let! _ :=
      (if effective =? previous then sret tt
       else let! data := slift (metadata_encode metadata) in atomic_write METADATA_FILE data) in
    sret effective.

(** [Row::observe_clock]. *)
Definition observe_clock (row : Row) (now : i64) : op i64 :=
  if now <? 0 then sfail Clock
  else
    let! clock := open_lock CLOCK_LOCK in
    let! _ := io (dk_lock clock) in
    observe_locked row now.

(** [Row::save_report], [load_report] and [remove_report]. *)
Definition save_report (row : Row) (report : option bytes) (reference : option ReportRef) : op unit :=
  match report, reference with
  | None, None => sret tt
  | Some report, Some reference =>
      if report_ref_matches reference report then
        let! existing := unless_not_found (read_bounded (report_name (row_key row)) MACHINE_JSON_BYTES) in
        match existing with
        | Some data => if bytes_eqb data report then sret tt else sfail Corrupt
        | None => atomic_write (report_name (row_key row)) report
        end
      else sfail Corrupt
  | _, _ => sfail Corrupt
  end.

Definition load_report (row : Row) (reference : option ReportRef) : op (option bytes) :=
  match reference with
  | None => sret None
  | Some reference =>
      let! found := unless_not_found (read_bounded (report_name (row_key row)) MACHINE_JSON_BYTES) in
      match found with
      | None => sfail Corrupt
      | Some data => if negb (report_ref_matches reference data) then sfail Corrupt else sret (Some data)
      end
  end.

Definition remove_report (row : Row) : op unit :=
  let! _ := reject_non_file (report_name (row_key row)) in
  let! _ := unless_not_found (io (dk_remove (report_name (row_key row)))) in
  sret tt.

(** ** Opening a root *)

(** [AtomicWriteDirectory]: the directory and the file it holds. *)
Record AtomicWriteDirectory := mkAtomicWriteDirectory { aw_path : bytes; aw_file : option bytes }.

Fixpoint atomic_directory_loop (entries : list (res DirEntry IoError.t)) (file : option bytes) :
    res (option bytes) FileLedgerError.t :=
  match entries with
  | [] => Ok file
  | Ok entry :: entries =>
      if is_some file || negb (bytes_eqb (de_name entry) (b_ "tmpfile.tmp")) then Err Corrupt
      else
        match de_type entry with
        | Ok TFile => atomic_directory_loop entries (Some (de_name entry))
        | Ok _ => Err Corrupt
        | Err e => Err (Io e)
        | OutOfFuel => OutOfFuel
        end
  | Err e :: _ => Err (Io e)
  | OutOfFuel :: _ => OutOfFuel
  end.

Definition atomic_directory_read (name : bytes) : op AtomicWriteDirectory :=
  let! entries := io (dk_read_subdir name) in
  let! file := slift (atomic_directory_loop entries None) in
  sret (mkAtomicWriteDirectory name file).

Definition atomic_directory_remove (d : AtomicWriteDirectory) : op unit :=
  let! _ := match aw_file d with Some file => io (dk_remove_in (aw_path d) file) | None => sret tt end in
  io (dk_remove_dir (aw_path d)).

Definition starts_with (prefix l : bytes) : bool := is_some (strip_prefix prefix l).

(** The entry of [fs::read_dir] with its name as text and its type. *)
Definition checked_entry (entry : res DirEntry IoError.t) : res (bytes * FileType) FileLedgerError.t :=
  match entry with
  | Ok entry =>
      if negb (utf8_valid (de_name entry)) then Err Corrupt
      else
        match de_type entry with
        | Ok file_type => Ok (de_name entry, file_type)
        | Err e => Err (Io e)
        | OutOfFuel => OutOfFuel
        end
  | Err e => Err (Io e)
  | OutOfFuel => OutOfFuel
  end.

Fixpoint prepare_loop (entries : list (res DirEntry IoError.t)) (temporary : list AtomicWriteDirectory) :
    op (list AtomicWriteDirectory) :=
  match entries with
  | [] => sret temporary
  | entry :: entries =>
      let! (name, file_type) := slift (checked_entry entry) in
      match file_type with
      | TFile => if bytes_eqb name MAINTENANCE_LOCK then prepare_loop entries temporary else sfail Corrupt
      | TDir =>
          if starts_with ATOMIC_WRITE_DIRECTORY_PREFIX name then
            let! directory := atomic_directory_read name in
            prepare_loop entries (temporary ++ [directory])
          else sfail Corrupt
      | TOther => sfail Corrupt
      end
  end.

Definition prepare_new_root : op unit :=
  let! entries := io dk_read_dir in
  let! temporary := prepare_loop entries [] in
  siter atomic_directory_remove temporary.

Definition load_or_create_metadata (config : FileLedgerConfig) (now : i64) : op StoredMetadata.t :=
  let! found := unless_not_found (read_bounded METADATA_FILE MAX_METADATA_BYTES) in
  match found with
  | Some data => slift (metadata_decode data)
  | None =>
      let! _ := prepare_new_root in
      let metadata := metadata_legacy config now in
      let! data := slift (metadata_encode metadata) in
      let! _ := atomic_write METADATA_FILE data in
      sret (StoredMetadata.Legacy metadata)
  end.

(** [Store::open]; the store keeps its configuration. *)
Definition store_open (config : FileLedgerConfig) (now : i64) : op FileLedgerConfig :=
  let! is_dir := io dk_root_is_dir in
  if negb is_dir || (now <? 0) then sfail Corrupt
  else
    let! _ := io dk_canonicalize in
    let! maintenance := open_lock MAINTENANCE_LOCK in
    let! _ := io (dk_lock maintenance) in
    let! metadata := load_or_create_metadata config now in
    if negb (stored_matches metadata config) then sfail Configuration else sret config.
End Files.
