(* ===== verification/CtlDisk.v ===== *)
(** What the delivery ledger relies on of its directory, and what its file
    operations do to it.

    A name is guarded while this process holds the lock the ledger's protocol
    assigns to it: then only this process's own writes change it. Of every
    other name nothing is assumed, other processes may change it between any
    two calls. Every call may fail; a failed replacement or removal leaves the
    old or the new content, never a mixture. *)
From Stdlib Require Import Strings.Byte Strings.String Lia.
From stdpp Require Import base numbers gmap list.
From S2P Require Import Prelude Codec WireModel CtlModel CtlFrame CtlCapacity OrdMap CtlRecord CtlStore.
Import FileLedgerError.

(** Whether a name is absent ([None]), a regular file or something else. *)
Definition kind (o : option Node) : option bool :=
  match o with
  | None => None
  | Some (Regular _) => Some true
  | Some Irregular => Some false
  end.

Section Laws.
Context `{DK : Disk} `{HX : Hex}.

(** The lock that protects a file of the root. *)
Inductive guard : bytes -> bytes -> Prop :=
  | guard_metadata : guard CLOCK_LOCK METADATA_FILE
  | guard_capacity : guard ADMISSION_LOCK CAPACITY_FILE
  | guard_state key l : row_lock_name key = Ok l -> guard l (state_name key)
  | guard_report key l : row_lock_name key = Ok l -> guard l (report_name key).

(** This process's lock keeps the content of the name. *)
Definition guarded (w : DWorld) (name : bytes) : Prop :=
  dk_held w MAINTENANCE_LOCK /\ exists l, guard l name /\ dk_held w l.

(** The admission lock keeps which rows have a state file. *)
Definition admitting (w : DWorld) : Prop := dk_held w MAINTENANCE_LOCK /\ dk_held w ADMISSION_LOCK.
Definition pinned (w : DWorld) (name : bytes) : Prop :=
  guarded w name \/ (admitting w /\ exists key, validate_key key = Ok tt /\ name = state_name key).

(** What a call that touches only the names of [touched] keeps. *)
Definition rely (touched : bytes -> Prop) (w w' : DWorld) : Prop :=
  (forall l, dk_held w l -> dk_held w' l) /\
  (forall name, guarded w name -> ~ touched name -> dk_entry w' name = dk_entry w name) /\
  (forall name, pinned w name -> ~ touched name -> kind (dk_entry w' name) = kind (dk_entry w name)).

Definition nothing : bytes -> Prop := fun _ => False.

Definition settles {A E} (touched : bytes -> Prop) (m : sres DWorld A E) : Prop :=
  forall w r w', m w = (r, w') -> r <> OutOfFuel /\ rely touched w w'.

Class DiskLaws : Prop := {
  symlink_metadata_settles name : settles nothing (dk_symlink_metadata name);
  open_settles name : settles nothing (dk_open name);
  open_create_settles l : settles (eq l) (dk_open_create l);
  is_file_settles f : settles nothing (dk_is_file f);
  read_settles f n : settles nothing (dk_read_to_end f n);
  lock_settles f : settles nothing (dk_lock f);
  lock_shared_settles f : settles nothing (dk_lock_shared f);
  write_settles name data : settles (eq name) (dk_atomic_write name data);
  remove_settles name : settles (eq name) (dk_remove name);
  now_settles w : rely nothing w (dk_now w).2;
  random_settles w : rely nothing w (dk_random w).2;
  (** Metadata of a name that others cannot create or remove. *)
  symlink_metadata_Ok name w m w' :
    dk_symlink_metadata name w = (Ok m, w') -> pinned w name ->
    kind (dk_entry w name) = Some (dm_is_file m);
  symlink_metadata_absent name w w' :
    dk_symlink_metadata name w = (Err IoError.NotFound, w') -> pinned w name -> dk_entry w name = None;
  (** Opening a regular file; its handle reads what the name stood for. *)
  open_Ok name w f w' content :
    dk_open name w = (Ok f, w') -> guarded w name -> dk_entry w name = Some (Regular content) ->
    dk_node f = Regular content;
  open_absent name w w' :
    dk_open name w = (Err IoError.NotFound, w') -> pinned w name -> kind (dk_entry w name) <> Some true;
  open_create_name l w f w' : dk_open_create l w = (Ok f, w') -> dk_name f = l;
  (** An open file is not lost. *)
  is_file_found f w w' : dk_is_file f w <> (Err IoError.NotFound, w');
  read_found f n w w' : dk_read_to_end f n w <> (Err IoError.NotFound, w');
  read_Ok f n w data w' content :
    dk_read_to_end f n w = (Ok data, w') -> dk_node f = Regular content ->
    data = take (Z.to_nat n) content;
  lock_Ok f w w' : dk_lock f w = (Ok tt, w') -> dk_held w' (dk_name f);
  lock_shared_Ok f w w' : dk_lock_shared f w = (Ok tt, w') -> dk_held w' (dk_name f);
  (** Replacement and removal. *)
  write_Ok name data w w' :
    dk_atomic_write name data w = (Ok tt, w') -> guarded w name -> dk_entry w' name = Some (Regular data);
  write_Err name data w e w' :
    dk_atomic_write name data w = (Err e, w') -> guarded w name ->
    dk_entry w' name = dk_entry w name \/ dk_entry w' name = Some (Regular data);
  remove_Ok name w w' : dk_remove name w = (Ok tt, w') -> guarded w name -> dk_entry w' name = None;
  remove_absent name w w' :
    dk_remove name w = (Err IoError.NotFound, w') -> guarded w name -> dk_entry w' name = None;
  remove_Err name w e w' :
    dk_remove name w = (Err e, w') -> guarded w name ->
    dk_entry w' name = dk_entry w name \/ dk_entry w' name = None
}.

(** ** Calls *)

Context `{DL : DiskLaws}.

(** A fact of the directory that calls without writes keep. *)
Definition stable (P : DWorld -> Prop) : Prop := forall w w', P w -> rely nothing w w' -> P w'.

Lemma rely_guarded touched w w' name : rely touched w w' -> guarded w name -> guarded w' name.
Proof. intros (Hh & _) (Hm & l & Hg & Hl). split; [auto|]. exists l. auto. Qed.

Lemma rely_pinned touched w w' name : rely touched w w' -> pinned w name -> pinned w' name.
Proof.
  intros Hr [Hg|[[Hm Ha] Hk]]; [left; by eapply rely_guarded|]. right. destruct Hr as (Hh & _).
  split; [split; auto|done].
Qed.

Lemma guarded_pinned w name : guarded w name -> pinned w name.
Proof. by left. Qed.

Lemma stable_and P Q : stable P -> stable Q -> stable (fun w => P w /\ Q w).
Proof. intros Hp Hq w w' [H1 H2] Hr. split; eauto. Qed.

Lemma stable_entry name e : stable (fun w => guarded w name /\ dk_entry w name = e).
Proof.
  intros w w' [Hg He] Hr. split; [by eapply rely_guarded|].
  destruct Hr as (_ & Hc & _). rewrite Hc; auto.
Qed.

Lemma stable_kind name k : stable (fun w => pinned w name /\ kind (dk_entry w name) = k).
Proof.
  intros w w' [Hg He] Hr. split; [by eapply rely_pinned|].
  destruct Hr as (_ & _ & Hc). rewrite Hc; auto.
Qed.

Lemma stable_held l : stable (fun w => dk_held w l).
Proof. intros w w' Hw (Hh & _). auto. Qed.

Lemma hoare_call {A E} P (m : sres DWorld A E) (Q : A -> DWorld -> Prop) (X : E -> DWorld -> Prop) :
  stable P -> settles nothing m ->
  (forall w a w', m w = (Ok a, w') -> P w -> P w' -> Q a w') ->
  (forall w e w', m w = (Err e, w') -> P w -> P w' -> X e w') ->
  hoare P m Q X.
Proof.
  intros Hs Hm Ho Hx w Hw. destruct (m w) as [[a|e|] w'] eqn:E1; destruct (Hm _ _ _ E1) as [Hf Hr]; eauto.
Qed.

Lemma hoare_io {A} P (m : sres DWorld A IoError.t) Q X :
  hoare P m Q (fun e => X (Io e)) -> hoare P (io m) Q X.
Proof. intros Hm w Hw. specialize (Hm w Hw). unfold io. by destruct (m w) as [[a|e|] w']. Qed.

Lemma hoare_unless_not_found {A} P (m : sres DWorld A FileLedgerError.t) Q X :
  hoare P m Q X ->
  hoare P (unless_not_found m)
    (fun found w => match found with Some a => Q a w | None => X (Io IoError.NotFound) w end) X.
Proof.
  intros Hm w Hw. specialize (Hm w Hw). unfold unless_not_found.
  destruct (m w) as [[a|e|] w']; [done| |done]. repeat case_match; naive_solver.
Qed.

Lemma hoare_now P : stable P -> forall w, P w -> P (dk_now w).2.
Proof. intros Hs w Hw. eapply Hs; [done|]. apply now_settles. Qed.

(** A call whose outcome does not matter. *)
Lemma hoare_quiet {A} P (m : sres DWorld A IoError.t) :
  stable P -> settles nothing m -> hoare P (io m) (fun _ => P) (fun _ => P).
Proof. intros Hs Hm. apply hoare_io, hoare_call; auto. Qed.

(** ** File operations *)

Lemma hoare_reject_non_file P name : stable P -> hoare P (reject_non_file name) (fun _ => P) (fun _ => P).
Proof.
  intros Hs. unfold reject_non_file.
  eapply hoare_bind; [eapply hoare_unless_not_found, hoare_quiet; [done|apply symlink_metadata_settles]|].
  intros [m|]; [|by apply hoare_ret]. destruct (dm_is_file m); [by apply hoare_ret|by apply hoare_fail].
Qed.

Lemma hoare_open_lock P l :
  stable P -> (forall w w', P w -> rely (eq l) w w' -> P w') ->
  hoare P (open_lock l) (fun f w => dk_name f = l /\ P w) (fun _ => P).
Proof.
  intros Hs Hl. unfold open_lock. eapply hoare_bind; [by apply hoare_reject_non_file|]. intros ?.
  eapply hoare_bind with (R := fun f w => dk_name f = l /\ P w).
  { apply hoare_io. intros w Hw.
    destruct (dk_open_create l w) as [[f|e|] w'] eqn:Eo; destruct (open_create_settles _ _ _ _ Eo) as [Hf Hr];
      [split; [by eapply open_create_name|]| |]; eauto. }
  intros f. apply hoare_pure. intros Hn.
  eapply hoare_bind; [apply hoare_quiet; [done|apply is_file_settles]|].
  intros [|]; [by apply hoare_ret|by apply hoare_fail].
Qed.

Lemma hoare_lock P f : stable P -> hoare P (io (dk_lock f)) (fun _ w => dk_held w (dk_name f) /\ P w) (fun _ => P).
Proof.
  intros Hs. apply hoare_io, hoare_call; [done|apply lock_settles| |done].
  intros w [] w' Hl _ Hw. split; [by eapply lock_Ok|done].
Qed.

Lemma hoare_lock_shared P f :
  stable P -> hoare P (io (dk_lock_shared f)) (fun _ w => dk_held w (dk_name f) /\ P w) (fun _ => P).
Proof.
  intros Hs. apply hoare_io, hoare_call; [done|apply lock_shared_settles| |done].
  intros w [] w' Hl _ Hw. split; [by eapply lock_shared_Ok|done].
Qed.

(** A bounded read of a name that others cannot change reads its content. *)
Lemma hoare_read_bounded P name e maximum :
  stable P -> (forall w, P w -> guarded w name /\ dk_entry w name = e) -> 0 <= maximum < u64_max ->
  hoare P (read_bounded name maximum)
    (fun data w => (e = Some (Regular data) /\ len data <= maximum) /\ P w)
    (fun err w => (err = Io IoError.NotFound -> e = None) /\ P w).
Proof.
  intros Hs He Hmax. unfold read_bounded.
  eapply hoare_bind with (R := fun m w => kind e = Some (dm_is_file m) /\ P w).
  { apply hoare_io, hoare_call; [done|apply symlink_metadata_settles| |].
    - intros w m w' Hm Hw Hw'. split; [|done]. destruct (He w Hw) as [Hg <-].
      eapply symlink_metadata_Ok; [done|by apply guarded_pinned].
    - intros w err w' Hm Hw Hw'. split; [|done]. intros [= ->]. destruct (He w Hw) as [Hg <-].
      eapply symlink_metadata_absent; [done|by apply guarded_pinned]. }
  intros m. apply hoare_pure. intros Hk.
  destruct (dm_is_file m) eqn:Hf; cbn [negb orb]; [|by apply hoare_fail].
  destruct (maximum <? dm_len m); [by apply hoare_fail|].
  assert (exists content, e = Some (Regular content)) as [content ->]
    by (destruct e as [[content|]|]; [eauto|done|done]).
  eapply hoare_bind with (R := fun f w => dk_node f = Regular content /\ P w).
  { apply hoare_io, hoare_call; [done|apply open_settles| |].
    - intros w f w' Ho Hw Hw'. split; [|done]. destruct (He w Hw) as [Hg Hc]. by eapply open_Ok.
    - intros w err w' Ho Hw Hw'. split; [|done]. intros [= ->]. destruct (He w Hw) as [Hg Hc].
      exfalso. eapply open_absent; [done|by apply guarded_pinned|by rewrite Hc]. }
  intros f. apply hoare_pure. intros Hn.
  eapply hoare_bind with (R := fun _ => P).
  { apply hoare_io, hoare_call; [done|apply is_file_settles|done|].
    intros w err w' Hi Hw Hw'. split; [|done]. intros [= ->]. by apply is_file_found in Hi. }
  intros [|]; cbn [negb]; [|by apply hoare_fail].
  eapply hoare_bind with (R := fun data w => data = take (Z.to_nat (maximum + 1)) content /\ P w).
  { apply hoare_io, hoare_call; [done|apply read_settles| |].
    - intros w data w' Hd Hw Hw'. split; [|done]. eapply read_Ok in Hd; [|done].
      rewrite sat_add_small in Hd; [done|unfold usize_max; lia].
    - intros w err w' Hi Hw Hw'. split; [|done]. intros [= ->]. by apply read_found in Hi. }
  intros data. apply hoare_pure. intros ->.
  destruct (Z.ltb_spec maximum (len (take (Z.to_nat (maximum + 1)) content))) as [|Hle]; [by apply hoare_fail|].
  apply hoare_ret. intros w Hw.
  assert (take (Z.to_nat (maximum + 1)) content = content) as Ht.
  { apply take_ge. unfold len in Hle. rewrite length_take in Hle. lia. }
  rewrite Ht in *. auto.
Qed.

(** A bounded read of a row's state finds it exactly when it exists. *)
Lemma hoare_read_kind P name k maximum :
  stable P -> (forall w, P w -> pinned w name /\ kind (dk_entry w name) = k) ->
  hoare P (read_bounded name maximum)
    (fun _ w => k = Some true /\ P w)
    (fun err w => (err = Io IoError.NotFound -> k = None) /\ P w).
Proof.
  intros Hs He. unfold read_bounded.
  eapply hoare_bind with (R := fun m w => k = Some (dm_is_file m) /\ P w).
  { apply hoare_io, hoare_call; [done|apply symlink_metadata_settles| |].
    - intros w m w' Hm Hw Hw'. split; [|done]. destruct (He w Hw) as [Hg <-]. by eapply symlink_metadata_Ok.
    - intros w err w' Hm Hw Hw'. split; [|done]. intros [= ->]. destruct (He w Hw) as [Hg <-].
      by erewrite symlink_metadata_absent. }
  intros m. apply hoare_pure. intros Hk.
  destruct (dm_is_file m) eqn:Hf; cbn [negb orb]; [|by apply hoare_fail].
  destruct (maximum <? dm_len m); [by apply hoare_fail|].
  eapply hoare_bind with (R := fun _ => P).
  { apply hoare_io, hoare_call; [done|apply open_settles|done|].
    intros w err w' Ho Hw Hw'. split; [|done]. intros [= ->]. destruct (He w Hw) as [Hg Hc].
    exfalso. eapply open_absent; [done|done|by rewrite Hc]. }
  intros f. eapply hoare_bind with (R := fun _ => P).
  { apply hoare_io, hoare_call; [done|apply is_file_settles|done|].
    intros w err w' Hi Hw Hw'. split; [|done]. intros [= ->]. by apply is_file_found in Hi. }
  intros [|]; cbn [negb]; [|by apply hoare_fail].
  eapply hoare_bind with (R := fun _ => P).
  { apply hoare_io, hoare_call; [done|apply read_settles|done|].
    intros w err w' Hi Hw Hw'. split; [|done]. intros [= ->]. by apply read_found in Hi. }
  intros data. destruct (maximum <? len data); [by apply hoare_fail|by apply hoare_ret].
Qed.

Lemma hoare_atomic_write P Q name data :
  stable P -> (forall w, P w -> guarded w name) ->
  (forall w w', P w -> rely (eq name) w w' -> dk_entry w' name = Some (Regular data) -> Q w') ->
  (forall w w', P w -> rely (eq name) w w' -> dk_entry w' name = dk_entry w name -> P w') ->
  hoare P (atomic_write name data) (fun _ => Q) (fun _ w => P w \/ Q w).
Proof.
  intros Hs Hg Hq Hp. unfold atomic_write.
  eapply hoare_bind with (R := fun _ => P).
  { eapply hoare_conseq; [by apply hoare_reject_non_file|done|done|]. cbv beta. auto. }
  intros _. apply hoare_io. intros w Hw. specialize (Hg w Hw).
  destruct (dk_atomic_write name data w) as [[[]|e|] w'] eqn:Ew; destruct (write_settles _ _ _ _ _ Ew) as [Hf Hr].
  - eapply Hq; [done|done|]. by eapply write_Ok.
  - destruct (write_Err _ _ _ _ _ Ew Hg); eauto.
  - done.
Qed.

Lemma hoare_remove P Q name :
  (forall w, P w -> guarded w name) ->
  (forall w w', P w -> rely (eq name) w w' -> dk_entry w' name = None -> Q w') ->
  (forall w w', P w -> rely (eq name) w w' -> dk_entry w' name = dk_entry w name -> P w') ->
  hoare P (unless_not_found (io (dk_remove name))) (fun _ => Q) (fun _ w => P w \/ Q w).
Proof.
  intros Hg Hq Hp. eapply hoare_conseq; [apply hoare_unless_not_found, hoare_io with
    (Q := fun _ => Q) (X := fun e w => (P w \/ Q w) /\ (e = Io IoError.NotFound -> Q w))| | |].
  - intros w Hw. specialize (Hg w Hw).
    destruct (dk_remove name w) as [[[]|e|] w'] eqn:Ew; destruct (remove_settles _ _ _ _ Ew) as [Hf Hr].
    + eapply Hq; [done|done|]. by eapply remove_Ok.
    + split.
      * destruct (remove_Err _ _ _ _ Ew Hg); eauto.
      * intros [= ->]. eapply Hq; [done|done|]. by eapply remove_absent.
    + done.
  - done.
  - intros [u|] w; naive_solver.
  - naive_solver.
Qed.

(** ** The files of one row *)

Lemma validate_key_Ok key : validate_key key = Ok tt <-> len key = 64 /\ forallb lower_hex_digit key = true.
Proof. unfold validate_key. destruct (Z.eqb_spec (len key) 64), (forallb _ key); cbn; naive_solver. Qed.

(** A row's files are not the root's. *)
Lemma row_names_fresh key name suffix :
  validate_key key = Ok tt -> head name = Some "."%byte -> key ++ suffix <> name.
Proof.
  intros (Hl & Hf)%validate_key_Ok Hn <-. destruct key as [|c key]; [done|].
  cbn [app head] in Hn. injection Hn as ->. done.
Qed.

Lemma state_report_name key : state_name key <> report_name key.
Proof. unfold state_name, report_name. intros H%app_inv_head. done. Qed.

Lemma state_name_inj key key' : state_name key = state_name key' -> key = key'.
Proof. unfold state_name. apply app_inv_tail. Qed.

(** This process holds the row's lock. *)
Definition row_guarded (key : bytes) (w : DWorld) : Prop :=
  validate_key key = Ok tt /\ dk_held w MAINTENANCE_LOCK /\
  exists l, row_lock_name key = Ok l /\ dk_held w l.

(** ... and these are its files. *)
Definition at_row (key : bytes) (s p : option Node) (w : DWorld) : Prop :=
  row_guarded key w /\ dk_entry w (state_name key) = s /\ dk_entry w (report_name key) = p.

Lemma row_guarded_state key w : row_guarded key w -> guarded w (state_name key).
Proof. intros (_ & Hm & l & Hl & Hh). split; [done|]. exists l. split; [by constructor|done]. Qed.

Lemma row_guarded_report key w : row_guarded key w -> guarded w (report_name key).
Proof. intros (_ & Hm & l & Hl & Hh). split; [done|]. exists l. split; [by constructor|done]. Qed.

Lemma rely_row_guarded touched key w w' : rely touched w w' -> row_guarded key w -> row_guarded key w'.
Proof. intros (Hh & _) (Hv & Hm & l & Hl & Hl'). split_and!; [done|auto|]. exists l. auto. Qed.

(** A call that touches neither file keeps both. *)
Lemma rely_at_row touched key s p w w' :
  rely touched w w' -> ~ touched (state_name key) -> ~ touched (report_name key) ->
  at_row key s p w -> at_row key s p w'.
Proof.
  intros Hr Hs Hp (Hg & <- & <-). pose proof Hr as (_ & Hc & _).
  split_and!; [by eapply rely_row_guarded| |].
  - apply Hc; [by apply row_guarded_state|done].
  - apply Hc; [by apply row_guarded_report|done].
Qed.

Lemma at_row_stable key s p : stable (at_row key s p).
Proof. intros w w' Hw Hr. eapply rely_at_row; [done|by intros []|by intros []|done]. Qed.

(** Files of the root are not files of the row. *)
Lemma at_row_root key s p w w' name :
  head name = Some "."%byte -> at_row key s p w -> rely (eq name) w w' -> at_row key s p w'.
Proof.
  intros Hh Hat Hr. pose proof Hat as ((Hv & _) & _).
  eapply rely_at_row; [done| | |done]; intros He; symmetry in He; revert He; by apply row_names_fresh.
Qed.

Lemma at_row_state key s s' p w w' :
  at_row key s p w -> rely (eq (state_name key)) w w' -> dk_entry w' (state_name key) = s' ->
  at_row key s' p w'.
Proof.
  intros (Hg & _ & <-) Hr Hs. pose proof Hr as (_ & Hc & _).
  split_and!; [by eapply rely_row_guarded|done|].
  apply Hc; [by apply row_guarded_report|apply state_report_name].
Qed.

Lemma at_row_report key s p p' w w' :
  at_row key s p w -> rely (eq (report_name key)) w w' -> dk_entry w' (report_name key) = p' ->
  at_row key s p' w'.
Proof.
  intros (Hg & <- & _) Hr Hs. pose proof Hr as (_ & Hc & _).
  split_and!; [by eapply rely_row_guarded| |done].
  apply Hc; [by apply row_guarded_state|]. intros He. by apply (state_report_name key).
Qed.
(** Writing a file of the root does not touch rows. *)
Lemma hoare_write_root (P : DWorld -> Prop) key s p name data :
  stable P -> (forall w, P w -> guarded w name /\ at_row key s p w) -> head name = Some "."%byte ->
  hoare P (atomic_write name data) (fun _ => at_row key s p) (fun _ => at_row key s p).
Proof.
  intros Hs Hp Hh.
  assert (forall w w', P w -> rely (eq name) w w' -> at_row key s p w') as Hkeep
    by (intros w w' Hw; apply at_row_root; [done|by apply Hp]).
  unfold atomic_write. eapply hoare_bind with (R := fun _ => P).
  { eapply hoare_conseq; [by apply hoare_reject_non_file|done|done|]. intros e w Hw. by apply Hp. }
  intros _. apply hoare_io. intros w Hw.
  destruct (dk_atomic_write name data w) as [[[]|e|] w'] eqn:Ew; destruct (write_settles _ _ _ _ _ Ew) as [Hf Hr];
    [eauto|eauto|done].
Qed.
End Laws.
