(* ===== verification/CtlMemory.v ===== *)
(** A directory in memory, which satisfies the laws the ledger relies on. Its
    calls never fail. *)
From Stdlib Require Import Strings.Byte Strings.String Lia.
From stdpp Require Import base numbers gmap list.
From S2P Require Import Prelude Codec WireModel CtlModel CtlFrame CtlCapacity OrdMap CtlRecord CtlStore CtlDisk.

Record MemDisk := mkMemDisk {
  md_files : gmap bytes Node; md_locks : gset bytes; md_clock : i64; md_random : u64
}.

Definition md_put (w : MemDisk) (name : bytes) (node : Node) : MemDisk :=
  mkMemDisk (<[name := node]> (md_files w)) (md_locks w) (md_clock w) (md_random w).
Definition md_drop (w : MemDisk) (name : bytes) : MemDisk :=
  mkMemDisk (delete name (md_files w)) (md_locks w) (md_clock w) (md_random w).
Definition md_take_lock (w : MemDisk) (l : bytes) : MemDisk :=
  mkMemDisk (md_files w) ({[l]} ∪ md_locks w) (md_clock w) (md_random w).
(** Every lock is released and the clock stands at [t]. *)
Definition md_at (w : MemDisk) (t : i64) : MemDisk := mkMemDisk (md_files w) ∅ t (md_random w).

Definition mem_disk : Disk := {|
  DWorld := MemDisk;
  DFile := bytes * Node;
  dk_symlink_metadata name w :=
    match md_files w !! name with
    | None => (Err IoError.NotFound, w)
    | Some (Regular content) => (Ok (mkDiskMetadata true (len content)), w)
    | Some Irregular => (Ok (mkDiskMetadata false 0), w)
    end;
  dk_open name w :=
    match md_files w !! name with
    | None => (Err IoError.NotFound, w)
    | Some (Regular content) => (Ok (name, Regular content), w)
    | Some Irregular => (Err IoError.Other, w)
    end;
  dk_open_create name w :=
    match md_files w !! name with
    | None => (Ok (name, Regular []), md_put w name (Regular []))
    | Some node => (Ok (name, node), w)
    end;
  dk_is_file f w := (Ok (match f.2 with Regular _ => true | Irregular => false end), w);
  dk_read_to_end f n w :=
    match f.2 with
    | Regular content => (Ok (take (Z.to_nat (Z.min n (len content))) content), w)
    | Irregular => (Err IoError.Other, w)
    end;
  dk_lock f w := (Ok tt, md_take_lock w f.1);
  dk_lock_shared f w := (Ok tt, md_take_lock w f.1);
  dk_atomic_write name data w := (Ok tt, md_put w name (Regular data));
  dk_remove name w :=
    match md_files w !! name with
    | None => (Err IoError.NotFound, w)
    | Some _ => (Ok tt, md_drop w name)
    end;
  dk_read_dir w := (Ok [], w);
  dk_read_subdir _ w := (Ok [], w);
  dk_remove_in _ _ w := (Ok tt, w);
  dk_remove_dir _ w := (Ok tt, w);
  dk_root_is_dir w := (Ok true, w);
  dk_canonicalize w := (Ok tt, w);
  dk_now w := (Some (md_clock w), w);
  dk_random w := (Some (md_random w), w);
  dk_entry w name := md_files w !! name;
  dk_node f := f.2;
  dk_name f := f.1;
  dk_held w l := l ∈ md_locks w
|}.

Section MemLaws.
Context `{HX : Hex}.
#[local] Existing Instance mem_disk.

Lemma mem_rely_refl touched w : rely touched w w.
Proof. by split_and!. Qed.

Lemma mem_rely_files w w' name :
  md_locks w' = md_locks w -> (forall n, n <> name -> md_files w' !! n = md_files w !! n) -> rely (eq name) w w'.
Proof.
  intros Hl Hf. split_and!; cbn; [by rewrite Hl| |]; intros n _ Hn; rewrite Hf by congruence; done.
Qed.

Lemma mem_rely_lock w l : rely nothing w (md_take_lock w l).
Proof. split_and!; cbn; [set_solver|done|done]. Qed.

Lemma mem_put_rely w name node : rely (eq name) w (md_put w name node).
Proof. apply mem_rely_files; [done|]. intros n Hn. cbn. by rewrite lookup_insert_ne. Qed.

Lemma mem_drop_rely w name : rely (eq name) w (md_drop w name).
Proof. apply mem_rely_files; [done|]. intros n Hn. cbn. by rewrite lookup_delete_ne. Qed.

Lemma mem_take n (content : bytes) : take (Z.to_nat (Z.min n (len content))) content = take (Z.to_nat n) content.
Proof.
  destruct (Z.min_spec n (len content)) as [[_ ->]|[Hle ->]]; [done|].
  unfold len in *. rewrite !take_ge by lia. done.
Qed.

Lemma mem_disk_laws : DiskLaws.
Proof.
  split; unfold settles; cbn; intros; repeat case_match; simplify_eq/=;
    try (split; [done|]); auto using mem_rely_refl, mem_rely_lock, mem_put_rely, mem_drop_rely with set_solver.
  all: rewrite ?lookup_insert_eq, ?lookup_delete_eq; auto using mem_take.
Qed.
End MemLaws.
