(* ===== verification/CtlRow.v ===== *)
(** One row of the delivery ledger while its lock is held: what
    [Row::load], [save], [save_report], [load_report], [remove_report],
    [save_new] and [observe_clock] of [controller/src/file_ledger/store.rs] and
    [store/report.rs] read and leave, on every outcome. *)
From Stdlib Require Import Strings.Byte Strings.String Lia.
From stdpp Require Import base numbers gmap list.
From S2P Require Import Prelude Codec WireModel CtlModel CtlFrame CtlCapacity OrdMap CtlRecord CtlStore CtlDisk.
Import FileLedgerError.

(** ** Results *)

Section Fuel.
Context `{HX : Hex} `{HH : Hashes} {HHL : HashLaws HH} `{UP : UrlParser}.
Context `{JK : Json StoredDeliveryKey} `{JS : Json StagedDigest} `{JR : Json Record_}.

Lemma require_fuel b : require b <> OutOfFuel.
Proof. by destruct b. Qed.
Lemma stored_run_validate_fuel s : StoredRun.validate s <> OutOfFuel.
Proof. apply require_fuel. Qed.
Lemma report_ref_validate_fuel s : report_ref_validate s <> OutOfFuel.
Proof. unfold report_ref_validate. by destruct (_ <? _). Qed.
#[local] Hint Resolve require_fuel stored_run_validate_fuel report_ref_validate_fuel : fuel.
Lemma validate_metadata_fuel s : validate_metadata s <> OutOfFuel.
Proof. unfold validate_metadata. no_fuel. Qed.
#[local] Hint Resolve validate_metadata_fuel : fuel.
Lemma validate_binding_fuel s eid d c : validate_binding s eid d c <> OutOfFuel.
Proof. unfold validate_binding. no_fuel. Qed.
#[local] Hint Resolve validate_binding_fuel : fuel.
Lemma stored_delivery_validate_fuel s : StoredDelivery.validate s <> OutOfFuel.
Proof. apply require_fuel. Qed.
Lemma replay_keep_validate_fuel s : StoredReplayKeep.validate s <> OutOfFuel.
Proof. destruct s as [|u]; [done|]. cbn. by destruct (_ <=? _). Qed.
#[local] Hint Resolve stored_delivery_validate_fuel replay_keep_validate_fuel : fuel.
Lemma record_validate_fuel r : record_validate r <> OutOfFuel.
Proof. unfold record_validate. no_fuel. Qed.
End Fuel.

Section FrameFuel.
Context `{HH : Hashes} {T E : Type} `{Json T} (corrupt : E) (validate : T -> res unit E).
Context (validate_fuel : forall v, validate v <> OutOfFuel).
#[local] Hint Resolve validate_fuel : fuel.
Lemma encode_fuel format v : encode corrupt validate format v <> OutOfFuel.
Proof using validate_fuel. unfold encode. no_fuel. Qed.
Lemma decode_fuel format data : decode corrupt validate format data <> OutOfFuel.
Proof using validate_fuel. unfold decode. no_fuel. Qed.
End FrameFuel.

Section Row.
Context `{DK : Disk} `{HX : Hex} `{HH : Hashes} {HHL : HashLaws HH} `{UP : UrlParser}.
Context `{JK : Json StoredDeliveryKey} `{JS : Json StagedDigest} `{JR : Json Record_}
        `{JM : Json RootMetadata} `{JC : Json Capacity}.

Lemma record_encode_fuel r : record_encode r <> OutOfFuel.
Proof. apply encode_fuel, record_validate_fuel. Qed.
Lemma record_decode_fuel data : record_decode data <> OutOfFuel.
Proof. apply decode_fuel, record_validate_fuel. Qed.
Lemma delivery_key_fuel d : delivery_key d <> OutOfFuel.
Proof. unfold delivery_key. no_fuel. Qed.
#[local] Hint Resolve record_encode_fuel record_decode_fuel delivery_key_fuel : fuel.
Lemma matches_key_fuel r key : matches_key r key <> OutOfFuel.
Proof. unfold matches_key. no_fuel. Qed.
#[local] Hint Resolve matches_key_fuel : fuel.
Lemma decode_for_fuel key data : decode_for key data <> OutOfFuel.
Proof. unfold decode_for. no_fuel. Qed.
Lemma metadata_validate_fuel m : metadata_validate m <> OutOfFuel.
Proof. unfold metadata_validate. no_fuel. Qed.
Lemma metadata_encode_fuel m : metadata_encode m <> OutOfFuel.
Proof. apply encode_fuel, metadata_validate_fuel. Qed.
Lemma metadata_decode_raw_fuel data : decode Corrupt metadata_validate METADATA_FRAME data <> OutOfFuel.
Proof. apply decode_fuel, metadata_validate_fuel. Qed.
#[local] Hint Resolve metadata_decode_raw_fuel : fuel.
Lemma metadata_decode_fuel data : metadata_decode data <> OutOfFuel.
Proof. unfold metadata_decode. no_fuel. Qed.
Lemma validate_key_fuel key : validate_key key <> OutOfFuel.
Proof. unfold validate_key. no_fuel. Qed.
#[local] Hint Resolve validate_key_fuel : fuel.
Lemma capacity_validate_fuel c : capacity_validate c <> OutOfFuel.
Proof. unfold capacity_validate. by destruct (_ || _). Qed.
#[local] Hint Resolve capacity_validate_fuel : fuel.
Lemma capacity_encode_fuel c : capacity_encode c <> OutOfFuel.
Proof. apply encode_fuel, capacity_validate_fuel. Qed.
Lemma capacity_decode_fuel data : capacity_decode data <> OutOfFuel.
Proof. apply decode_fuel, capacity_validate_fuel. Qed.
Lemma reserve_fuel c key : reserve c key <> OutOfFuel.
Proof. unfold reserve. no_fuel. Qed.
Lemma settle_fuel c b : settle c b <> OutOfFuel.
Proof. unfold settle. no_fuel. Qed.
Lemma advance_clock_fuel m now : advance_clock m now <> OutOfFuel.
Proof. unfold advance_clock. no_fuel. Qed.
Lemma row_lock_name_fuel key : row_lock_name key <> OutOfFuel.
Proof. unfold row_lock_name. no_fuel. Qed.
Lemma report_ref_new_fuel report : report_ref_new report <> OutOfFuel.
Proof. unfold report_ref_new, report_length. no_fuel. Qed.
#[local] Hint Resolve report_ref_new_fuel : fuel.
Lemma stored_publication_new_fuel p : stored_publication_new p <> OutOfFuel.
Proof. unfold stored_publication_new, validate_artifact_report, stored_report_new. no_fuel. Qed.
Lemma stored_run_materialize_fuel s : StoredRun.materialize s <> OutOfFuel.
Proof. unfold StoredRun.materialize, StoredChange.materialize, checked. no_fuel. Qed.
#[local] Hint Resolve stored_run_materialize_fuel validate_metadata_fuel : fuel.
Lemma materialize_fuel s report : materialize s report <> OutOfFuel.
Proof. unfold materialize, stored_report_verify, validate_artifact_report. no_fuel. Qed.
Lemma staged_digest_fuel eid fence p : staged_digest eid fence p <> OutOfFuel.
Proof. unfold staged_digest. no_fuel. Qed.
Lemma advance_fuel r now : advance r now <> OutOfFuel.
Proof. unfold advance. no_fuel. Qed.
Lemma evaluation_id_fuel d nonce : evaluation_id d nonce <> OutOfFuel.
Proof. unfold evaluation_id. no_fuel. Qed.
End Row.
#[export] Hint Resolve record_encode_fuel record_decode_fuel delivery_key_fuel matches_key_fuel decode_for_fuel
  metadata_encode_fuel metadata_decode_fuel validate_key_fuel capacity_encode_fuel capacity_decode_fuel
  reserve_fuel settle_fuel advance_clock_fuel row_lock_name_fuel report_ref_new_fuel
  stored_publication_new_fuel materialize_fuel staged_digest_fuel advance_fuel evaluation_id_fuel : fuel.

(** ** The row's record *)

Section View.
Context `{HX : Hex} `{HH : Hashes} {HHL : HashLaws HH} `{UP : UrlParser}.
Context `{JK : Json StoredDeliveryKey} `{JS : Json StagedDigest} `{JR : Json Record_}.

(** What the ledger reads in a row's state file: no record, a record, or
    ([None]) something it refuses. *)
Definition row_view (key : bytes) (s : option Node) : option (option Record_) :=
  match s with
  | None => Some None
  | Some (Regular data) =>
      if MAX_RECORD_BYTES <? len data then None
      else match decode_for key data with Ok record => Some (Some record) | _ => None end
  | Some Irregular => None
  end.

Lemma decode_for_Ok key data r :
  decode_for key data = Ok r <->
  record_decode data = Ok r /\ delivery_key (StoredDelivery.identity (r_binding r)) = Ok key.
Proof.
  unfold decode_for, matches_key. destruct (record_decode data) as [r'|e|]; [|naive_solver|naive_solver].
  destruct (delivery_key _) as [own|e|] eqn:Ed.
  - destruct (bytes_eqb own key) eqn:Ek; cbn [negb].
    + apply bytes_eqb_eq in Ek. naive_solver.
    + split; [done|]. intros [[= ->] Hk]. rewrite Ed in Hk. injection Hk as ->.
      by rewrite (proj2 (bytes_eqb_eq _ _) eq_refl) in Ek.
  - split; [done|]. intros [[= ->] Hk]. congruence.
  - split; [done|]. intros [[= ->] Hk]. congruence.
Qed.

Lemma row_view_None key s : row_view key s = Some None -> s = None.
Proof.
  destruct s as [[data|]|]; cbn; [|done|done]. destruct (_ <? _); [done|]. by destruct (decode_for key data).
Qed.

(** The record a row holds is valid and belongs to the row. *)
Lemma row_view_valid key s r :
  row_view key s = Some (Some r) ->
  record_validate r = Ok tt /\ delivery_key (StoredDelivery.identity (r_binding r)) = Ok key.
Proof.
  destruct s as [[data|]|]; cbn; [|done|done]. destruct (_ <? _); [done|].
  destruct (decode_for key data) as [r'|e|] eqn:Ed; [|done|done]. intros [= ->].
  apply decode_for_Ok in Ed as [Hd Hk]. split; [|done].
  unfold record_decode, decode in Hd. inv_ok Hd. injection Hd as ->. match goal with H : record_validate r = Ok ?u |- _ => by destruct u end.
Qed.

Context {JRL : JsonLaws Record_}.

(** What is saved is what is read next. *)
Lemma row_view_encode key r data :
  record_encode r = Ok data -> delivery_key (StoredDelivery.identity (r_binding r)) = Ok key ->
  row_view key (Some (Regular data)) = Some (Some r).
Proof.
  intros He Hk. assert (len data <= MAX_RECORD_BYTES) as Hmax.
  { pose proof He as Hf. apply encode_framed in Hf as (payload & _ & _ & -> & _ & Hx).
    rewrite !len_app, to_be_len. unfold frame_digest. rewrite sha256_len.
    change (len [VERSION]) with 1. cbn [maximum RECORD_FRAME] in Hx. lia. }
  cbn [row_view]. rewrite (proj2 (Z.ltb_ge _ _)) by done.
  rewrite (proj2 (decode_for_Ok key data r)); [done|]. split; [|done].
  assert (rust_slice data) by (unfold rust_slice; unfold MAX_RECORD_BYTES in Hmax; unfold_widths; lia).
  unfold record_decode. rewrite decode_framed by done. by apply (encode_framed Corrupt).
Qed.
End View.

(** ** Row operations *)

Section RowOps.
Context `{DK : Disk} `{HX : Hex} {DL : DiskLaws} `{HH : Hashes} {HHL : HashLaws HH} `{UP : UrlParser}.
Context `{JK : Json StoredDeliveryKey} `{JS : Json StagedDigest} `{JR : Json Record_}
        `{JM : Json RootMetadata} `{JC : Json Capacity}.
Context (key : bytes) (config : FileLedgerConfig).
Abbreviation row := (mkRow key config).

Lemma hoare_load_in P s p :
  stable P -> (forall w, P w -> at_row key s p w) ->
  hoare P (load row) (fun found w => row_view key s = Some found /\ P w) (fun _ => P).
Proof using DL.
  intros HP Hat. unfold load. cbn [row_key]. eapply hoare_bind.
  { eapply hoare_conseq with (Q' := fun found w =>
      match found with
      | Some data => s = Some (Regular data) /\ len data <= MAX_RECORD_BYTES
      | None => s = None
      end /\ P w) (X' := fun _ => P);
      [eapply hoare_unless_not_found, hoare_read_bounded with (e := s)| | |].
    - done.
    - intros w (Hg & Hs & _)%Hat. split; [by apply row_guarded_state|done].
    - unfold MAX_RECORD_BYTES. unfold_widths. lia.
    - done.
    - intros [data|] w; naive_solver.
    - naive_solver. }
  intros [data|]; apply hoare_pure.
  - intros [-> Hl]. eapply hoare_bind with (R := fun r w => decode_for key data = Ok r /\ P w).
    + apply hoare_lift; auto with fuel.
    + intros r. apply hoare_pure. intros Hd. apply hoare_ret. intros w Hw. split; [|done].
      cbn [row_view]. rewrite (proj2 (Z.ltb_ge _ _)) by done. by rewrite Hd.
  - intros ->. by apply hoare_ret.
Qed.

Lemma hoare_load s p :
  hoare (at_row key s p) (load row)
    (fun found w => row_view key s = Some found /\ at_row key s p w) (fun _ => at_row key s p).
Proof using DL. apply (hoare_load_in _ s p); [apply at_row_stable|done]. Qed.

(** A save leaves the old record or the new one. *)
Lemma hoare_save_in (P : option Node -> DWorld -> Prop) s p r :
  (forall s, stable (P s)) -> (forall s w, P s w -> at_row key s p w) ->
  (forall s s' w w', P s w -> rely (eq (state_name key)) w w' -> dk_entry w' (state_name key) = s' -> P s' w') ->
  hoare (P s) (save row r)
    (fun _ w => exists data, record_encode r = Ok data /\ P (Some (Regular data)) w)
    (fun _ w => P s w \/ exists data, record_encode r = Ok data /\ P (Some (Regular data)) w).
Proof using DL.
  intros HP Hat Hw. unfold save. cbn [row_key].
  eapply hoare_bind with (R := fun data w => record_encode r = Ok data /\ P s w).
  { apply hoare_lift; auto with fuel. }
  intros data. apply hoare_pure. intros He.
  eapply hoare_conseq; [apply hoare_atomic_write with (P := P s) (Q := P (Some (Regular data)))|done| |].
  - done.
  - intros w (Hg & _)%Hat. by apply row_guarded_state.
  - eauto.
  - intros w w' Hp Hr Hs. eapply Hw; [done|done|]. rewrite Hs. by destruct (Hat _ _ Hp) as (_ & -> & _).
  - eauto.
  - naive_solver.
Qed.

Lemma hoare_save s p r :
  hoare (at_row key s p) (save row r)
    (fun _ w => exists data, record_encode r = Ok data /\ at_row key (Some (Regular data)) p w)
    (fun _ w => at_row key s p w \/
       exists data, record_encode r = Ok data /\ at_row key (Some (Regular data)) p w).
Proof using DL.
  apply (hoare_save_in (fun s => at_row key s p) s p r); [intros; apply at_row_stable|done|].
  intros s1 s2 w w'. apply at_row_state.
Qed.

Lemma hoare_remove_report s p :
  hoare (at_row key s p) (remove_report row) (fun _ => at_row key s None)
    (fun _ w => at_row key s p w \/ at_row key s None w).
Proof using DL.
  unfold remove_report. cbn [row_key]. eapply hoare_bind with (R := fun _ => at_row key s p).
  { eapply hoare_conseq; [apply hoare_reject_non_file, at_row_stable|done|done|]. cbv beta. eauto. }
  intros _. eapply hoare_bind with (R := fun _ => at_row key s None); [|intros _; by apply hoare_ret].
  apply hoare_remove.
  - intros w (Hg & _). by apply row_guarded_report.
  - intros w w' Hw Hr Hs. by eapply at_row_report.
  - intros w w' Hw Hr Hs. eapply at_row_report; [done|done|]. rewrite Hs. by destruct Hw as (_ & _ & ->).
Qed.

(** A bounded read of the row's report. *)
Lemma hoare_read_report s p :
  hoare (at_row key s p) (unless_not_found (read_bounded (report_name key) MACHINE_JSON_BYTES))
    (fun found w => match found with Some data => p = Some (Regular data) | None => p = None end /\ at_row key s p w)
    (fun _ => at_row key s p).
Proof using DL.
  eapply hoare_conseq; [eapply hoare_unless_not_found, hoare_read_bounded with (e := p)| | |].
  - apply at_row_stable.
  - intros w (Hg & _ & Hp). split; [by apply row_guarded_report|done].
  - unfold MACHINE_JSON_BYTES. unfold_widths. lia.
  - done.
  - intros [data|] w; naive_solver.
  - naive_solver.
Qed.

(** After a successful save the file is the report; without one it is untouched. *)
Lemma hoare_save_report s p report reference :
  hoare (at_row key s p) (save_report row report reference)
    (fun _ w => match report with
                | Some data => at_row key s (Some (Regular data)) w
                | None => at_row key s p w
                end)
    (fun _ w => exists p', at_row key s p' w).
Proof using DL.
  unfold save_report. cbn [row_key]. destruct report as [report|], reference as [reference|];
    [|apply hoare_fail; eauto|apply hoare_fail; eauto|by apply hoare_ret].
  destruct (report_ref_matches reference report); [|apply hoare_fail; eauto].
  eapply hoare_bind.
  { eapply hoare_conseq; [apply hoare_read_report|done|done|]. cbv beta. eauto. }
  intros [data|]; apply hoare_pure.
  - intros ->. destruct (bytes_eqb data report) eqn:Ed; [|apply hoare_fail; eauto].
    apply bytes_eqb_eq in Ed as ->. by apply hoare_ret.
  - intros ->. eapply hoare_conseq; [apply hoare_atomic_write with (P := at_row key s None)
      (Q := at_row key s (Some (Regular report)))|done|done|].
    + apply at_row_stable.
    + intros w (Hg & _). by apply row_guarded_report.
    + intros w w' Hw Hr Hs. by eapply at_row_report.
    + intros w w' Hw Hr Hs. eapply at_row_report; [done|done|]. rewrite Hs. by destruct Hw as (_ & _ & ->).
    + naive_solver.
Qed.

Lemma hoare_load_report s p reference :
  hoare (at_row key s p) (load_report row reference)
    (fun report w =>
       match reference, report with
       | None, None => True
       | Some reference, Some data => p = Some (Regular data) /\ report_ref_matches reference data = true
       | _, _ => False
       end /\ at_row key s p w)
    (fun _ => at_row key s p).
Proof using DL.
  unfold load_report. cbn [row_key]. destruct reference as [reference|]; [|by apply hoare_ret].
  eapply hoare_bind; [apply hoare_read_report|].
  intros [data|]; apply hoare_pure; intros ->; [|by apply hoare_fail].
  destruct (report_ref_matches reference data) eqn:Em; [|by apply hoare_fail]. by apply hoare_ret.
Qed.

Lemma hoare_read_quiet P name maximum :
  stable P -> hoare P (read_bounded name maximum) (fun _ => P) (fun _ => P).
Proof using DL.
  intros Hs. unfold read_bounded.
  eapply hoare_bind; [apply hoare_quiet; [done|apply symlink_metadata_settles]|].
  intros m. destruct (_ || _); [by apply hoare_fail|].
  eapply hoare_bind; [apply hoare_quiet; [done|apply open_settles]|]. intros f.
  eapply hoare_bind; [apply hoare_quiet; [done|apply is_file_settles]|]. intros [|]; [|by apply hoare_fail].
  eapply hoare_bind; [apply hoare_quiet; [done|apply read_settles]|]. intros data.
  destruct (_ <? _); [by apply hoare_fail|by apply hoare_ret].
Qed.

(** Observing the clock does not touch rows, and the effective time is not
    before the observed one. *)
Lemma hoare_load_metadata P :
  stable P -> hoare P load_metadata (fun _ => P) (fun _ => P).
Proof using DL.
  intros Hs. unfold load_metadata, load_stored_metadata.
  eapply hoare_bind with (R := fun _ => P); [|by intros [m|m]; [apply hoare_ret|apply hoare_fail]].
  eapply hoare_bind; [by apply hoare_read_quiet|]. intros data. apply hoare_lift; auto with fuel.
Qed.

Lemma hoare_observe_clock s p t :
  hoare (at_row key s p) (observe_clock row t)
    (fun effective w => (0 <= t <= effective) /\ at_row key s p w) (fun _ => at_row key s p).
Proof using DL.
  unfold observe_clock. destruct (Z.ltb_spec t 0) as [|Ht]; [by apply hoare_fail|].
  assert (stable (at_row key s p)) as Hst by apply at_row_stable.
  eapply hoare_bind; [apply hoare_open_lock; [done|intros w w'; by apply at_row_root]|]. intros f. apply hoare_pure. intros Hn.
  eapply hoare_bind with (R := fun _ w => dk_held w CLOCK_LOCK /\ at_row key s p w).
  { rewrite <- Hn. by apply hoare_lock. }
  intros _. unfold observe_locked. set (P := fun w => dk_held w CLOCK_LOCK /\ at_row key s p w).
  assert (stable P) as HP by (apply stable_and; [apply stable_held|done]).
  eapply hoare_bind with (R := fun _ => P).
  { eapply hoare_conseq; [by apply hoare_load_metadata|done|done|]. by intros e w [_ Hw]. }
  intros m. destruct (negb _); [apply hoare_fail; by intros w [_ Hw]|].
  eapply hoare_bind with (R := fun v w => t <= v.2 /\ P w).
  { apply hoare_lift; [auto with fuel| |by intros e w _ [_ Hw]].
    intros [m' effective] w (_ & -> & _)%advance_clock_Ok Hw. cbn [snd]. split; [lia|done]. }
  intros [m' effective]. apply hoare_pure. cbn [snd]. intros He.
  eapply hoare_bind with (R := fun _ => at_row key s p); [|intros _; apply hoare_ret; auto].
  destruct (_ =? _); [apply hoare_ret; by intros w [_ Hw]|].
  eapply hoare_bind with (R := fun _ => P).
  { apply hoare_lift; [auto with fuel|done|by intros e w _ [_ Hw]]. }
  intros data. eapply hoare_write_root; [done| |done].
  intros w [Hc Hw]. split; [|done]. destruct Hw as ((_ & Hm & _) & _).
  split; [done|]. exists CLOCK_LOCK. split; [constructor|done].
Qed.

(** ** Admission *)

(** The row with the admission lock held as well. *)
Definition admitting_row (s p : option Node) (w : DWorld) : Prop :=
  dk_held w ADMISSION_LOCK /\ at_row key s p w.

Lemma admitting_row_stable s p : stable (admitting_row s p).
Proof. apply stable_and; [apply stable_held|apply at_row_stable]. Qed.

Lemma admitting_row_guards s p w : admitting_row s p w -> guarded w CAPACITY_FILE.
Proof.
  intros [Ha ((_ & Hm & _) & _)]. split; [done|]. exists ADMISSION_LOCK. split; [constructor|done].
Qed.

Lemma admitting_row_root s p w w' name :
  admitting_row s p w -> rely (eq name) w w' -> head name = Some "."%byte -> admitting_row s p w'.
Proof.
  intros [Ha Hat] Hr Hh. split; [by apply Hr|by eapply at_row_root].
Qed.

(** The directory under the admission lock: the row, the capacity file, and the
    keys that have a state file. *)
Definition census (keys : gset bytes) (w : DWorld) : Prop :=
  forall k, validate_key k = Ok tt -> k ∈ keys <-> kind (dk_entry w (state_name k)) <> None.

Definition admission (s p : option Node) (d : bytes) (keys : gset bytes) (w : DWorld) : Prop :=
  admitting_row s p w /\ dk_entry w CAPACITY_FILE = Some (Regular d) /\ census keys w.

Lemma admission_rely s p d keys touched w w' :
  admission s p d keys w -> rely touched w w' -> ~ touched CAPACITY_FILE ->
  (forall k, validate_key k = Ok tt -> ~ touched (state_name k)) ->
  dk_entry w' CAPACITY_FILE = Some (Regular d) /\ census keys w'.
Proof.
  intros (Ha & Hd & Hk) Hr Hc Hs. split.
  - destruct Hr as (_ & He & _). rewrite He; [done|by eapply admitting_row_guards|done].
  - intros k Hv. rewrite (Hk k Hv). destruct Hr as (_ & _ & He). rewrite He; [done| |by apply Hs].
    right. destruct Ha as [Ha ((_ & Hm & _) & _)]. split; [done|]. by exists k.
Qed.

Lemma admission_stable s p d keys : stable (admission s p d keys).
Proof.
  intros w w' Hw Hr. split; [by eapply admitting_row_stable; [apply Hw|]|].
  eapply admission_rely; [done|done|by intros []|by intros k _ []].
Qed.

Lemma admission_capacity s p d keys w w' :
  admission s p d keys w -> rely (eq CAPACITY_FILE) w w' ->
  forall d', dk_entry w' CAPACITY_FILE = Some (Regular d') -> admission s p d' keys w'.
Proof.
  intros (Ha & Hd & Hk) Hr d' Hd'. split_and!; [by eapply admitting_row_root|done|].
  intros k Hv. rewrite (Hk k Hv). destruct Hr as (_ & _ & He). rewrite He; [done| |].
  - right. destruct Ha as [Ha ((_ & Hm & _) & _)]. split; [done|]. by exists k.
  - intros Hc. symmetry in Hc. revert Hc. by apply row_names_fresh.
Qed.

Lemma admission_kept s p d keys w w' :
  admission s p d keys w -> rely (eq (state_name key)) w w' ->
  dk_entry w' (state_name key) = dk_entry w (state_name key) -> admission s p d keys w'.
Proof.
  intros (Ha & Hd & Hk) Hr Hs. pose proof Ha as [Hadm ((Hv & Hm & _) & He0 & _)]. split_and!.
  - split; [by apply Hr|]. eapply at_row_state; [apply Ha|done|congruence].
  - destruct Hr as (_ & He & _). rewrite He; [done|by eapply admitting_row_guards|]. by apply row_names_fresh.
  - intros k Hvk. rewrite (Hk k Hvk). destruct (decide (k = key)) as [->|Hne]; [by rewrite Hs|].
    destruct Hr as (_ & _ & He). rewrite He; [done| |].
    + right. split; [done|]. by exists k.
    + intros Hn%state_name_inj. congruence.
Qed.

Lemma admission_admit s p d keys w w' data :
  admission s p d keys w -> rely (eq (state_name key)) w w' ->
  dk_entry w' (state_name key) = Some (Regular data) ->
  admission (Some (Regular data)) p d ({[key]} ∪ keys) w'.
Proof.
  intros (Ha & Hd & Hk) Hr Hs. pose proof Ha as [Hadm ((Hv & Hm & _) & _)]. split_and!.
  - split; [by apply Hr|]. by eapply at_row_state; [apply Ha| |].
  - destruct Hr as (_ & He & _). rewrite He; [done|by eapply admitting_row_guards|]. by apply row_names_fresh.
  - intros k Hvk. rewrite elem_of_union, elem_of_singleton. destruct (decide (k = key)) as [->|Hne].
    + rewrite Hs. naive_solver.
    + rewrite (Hk k Hvk). destruct Hr as (_ & _ & He). rewrite He; [naive_solver| |].
      * right. split; [done|]. by exists k.
      * intros Hn%state_name_inj. congruence.
Qed.

Context {JCL : JsonLaws Capacity}.

Lemma capacity_encode_decode c data : capacity_encode c = Ok data -> capacity_decode data = Ok c.
Proof using JCL HHL.
  intros He. pose proof He as Hf. apply encode_framed in Hf as (payload & _ & _ & Hd & _ & Hx).
  assert (rust_slice data).
  { rewrite Hd. unfold rust_slice. rewrite !len_app, to_be_len. unfold frame_digest. rewrite sha256_len.
    change (len [VERSION]) with 1. cbn [maximum CAPACITY_FRAME] in Hx. unfold MAX_CAPACITY_BYTES in Hx.
    unfold_widths. lia. }
  unfold capacity_decode. rewrite decode_framed by done. by apply (encode_framed Corrupt).
Qed.

(** The directory with a counter that is right about it. *)
Definition counted (s p : option Node) (c : Capacity) (keys : gset bytes) (w : DWorld) : Prop :=
  exists d, capacity_decode d = Ok c /\ counts c keys /\ admission s p d keys w.

Lemma counted_stable s p c keys : stable (counted s p c keys).
Proof. intros w w' (d & Hd & Hc & Hw) Hr. exists d. split_and!; [done..|]. by eapply admission_stable. Qed.

Lemma hoare_save_capacity s p c c' keys :
  counts c' keys ->
  hoare (counted s p c keys) (save_capacity c') (fun _ => counted s p c' keys)
    (fun _ w => counted s p c keys w \/ counted s p c' keys w).
Proof using DL JCL HHL.
  intros Hc'. unfold save_capacity.
  eapply hoare_bind with (R := fun data w => capacity_encode c' = Ok data /\ counted s p c keys w).
  { apply hoare_lift; auto with fuel. }
  intros data. apply hoare_pure. intros He%capacity_encode_decode.
  apply hoare_atomic_write.
  - apply counted_stable.
  - intros w (d & _ & _ & Hw & _). by eapply admitting_row_guards.
  - intros w w' (d & Hd & Hc & Hw) Hr Hs. exists data. split_and!; [done|done|]. by eapply admission_capacity.
  - intros w w' (d & Hd & Hc & Hw) Hr Hs. exists d. split_and!; [done|done|].
    eapply admission_capacity; [done|done|]. rewrite Hs. by destruct Hw as (_ & -> & _).
Qed.

Lemma counted_kind s p c keys k w :
  counted s p c keys w -> validate_key k = Ok tt ->
  pinned w (state_name k) /\ (k ∈ keys <-> kind (dk_entry w (state_name k)) <> None).
Proof.
  intros (d & _ & _ & Ha & _ & Hk) Hv. split; [|by apply Hk].
  right. destruct Ha as [Ha ((_ & Hm & _) & _)]. split; [done|]. by exists k.
Qed.

(** Recovery settles a reservation against the directory. *)
Lemma hoare_recover_capacity s p c keys :
  hoare (counted s p c keys) (recover_capacity c)
    (fun c' w => (cap_pending_key c' = None /\ cap_max_records c' = cap_max_records c) /\ counted s p c' keys w)
    (fun _ w => exists c', cap_max_records c' = cap_max_records c /\ counted s p c' keys w).
Proof using DL JCL HHL.
  unfold recover_capacity. destruct (cap_pending_key c) as [k|] eqn:Ek; [|by apply hoare_ret].
  apply hoare_know with (F := validate_key k = Ok tt /\ counts c keys).
  { intros w (d & _ & Hc & _). split; [|done]. destruct Hc as [Hv _].
    apply capacity_validate_Ok in Hv as (_ & _ & Hp & _). by apply (Hp k Ek). }
  intros [Hvk Hcounts].
  set (P kd w := counted s p c keys w /\ pinned w (state_name k) /\ kind (dk_entry w (state_name k)) = kd).
  apply hoare_pre with (P := fun w => exists kd, P kd w); [apply hoare_exists; intros kd|].
  2: { intros w Hw. exists (kind (dk_entry w (state_name k))). split; [done|]. split; [by eapply counted_kind|done]. }
  apply hoare_know with (F := k ∈ keys <-> kd <> None).
  { intros w (Hw & _ & <-). by eapply counted_kind. }
  intros Hkd. eapply hoare_bind.
  { eapply hoare_conseq with (Q' := fun found w => is_some found = bool_decide (k ∈ keys) /\ counted s p c keys w)
      (X' := fun _ w => exists c', cap_max_records c' = cap_max_records c /\ counted s p c' keys w);
      [eapply hoare_unless_not_found, hoare_read_kind with (P := P kd) (k := kd)| | |].
    - apply stable_and; [apply counted_stable|apply stable_kind].
    - by intros w [_ Hw].
    - done.
    - intros [data|] w [Hk [Hw _]]; (split; [|done]); symmetry.
      + apply bool_decide_true. by rewrite Hkd, Hk.
      + apply bool_decide_false. rewrite Hkd, Hk by done. by intros [].
    - intros e w [_ [Hw _]]. eauto. }
  intros found. apply hoare_pure. intros Hfound.
  eapply hoare_bind with (R := fun present w => present = bool_decide (k ∈ keys) /\ counted s p c keys w).
  { destruct found as [data|]; [|by apply hoare_ret].
    eapply hoare_bind with (R := fun _ => counted s p c keys); [|intros _; by apply hoare_ret].
    apply hoare_lift; [auto with fuel|done|eauto]. }
  intros present. apply hoare_pure. intros ->.
  eapply hoare_bind with (R := fun c' w =>
    (counts c' keys /\ cap_pending_key c' = None /\ cap_max_records c' = cap_max_records c)
    /\ counted s p c keys w).
  { apply hoare_lift; [auto with fuel| |eauto]. intros c' w Hs Hw. split; [|done].
    destruct (counts_settle _ _ _ _ Hcounts Ek Hs) as (? & ? & _ & ?). done. }
  intros c'. apply hoare_pure. intros (Hc' & Hp & Hm).
  eapply hoare_bind with (R := fun _ => counted s p c' keys); [|intros _; by apply hoare_ret].
  eapply hoare_conseq; [by apply hoare_save_capacity|done|done|].
  intros e w [Hw|Hw]; eauto.
Qed.

Lemma hoare_load_capacity s p c keys :
  hoare (counted s p c keys) load_optional_capacity
    (fun found w => found = Some c /\ counted s p c keys w) (fun _ => counted s p c keys).
Proof using DL.
  apply hoare_pre with (P := fun w => exists d, capacity_decode d = Ok c /\ counts c keys /\ admission s p d keys w);
    [|done].
  apply hoare_exists. intros d. apply hoare_pure. intros Hd. apply hoare_pure. intros Hc.
  assert (forall w, admission s p d keys w -> counted s p c keys w) as Hin by (intros w Hw; exists d; done).
  unfold load_optional_capacity. eapply hoare_bind.
  { eapply hoare_conseq with (Q' := fun found w => found = Some d /\ admission s p d keys w)
      (X' := fun _ => counted s p c keys);
      [eapply hoare_unless_not_found, hoare_read_bounded with (e := Some (Regular d))| | |].
    - apply admission_stable.
    - intros w (Hw & He & _). split; [by eapply admitting_row_guards|done].
    - unfold MAX_CAPACITY_BYTES. unfold_widths. lia.
    - done.
    - intros [data|] w [Hf Hw]; [|by specialize (Hf eq_refl)]. destruct Hf as [[= ->] _]. done.
    - intros e w [_ Hw]. auto. }
  intros found. apply hoare_pure. intros ->.
  eapply hoare_bind with (R := fun c' w => c' = c /\ admission s p d keys w).
  { apply hoare_lift; [auto with fuel| |]; rewrite Hd; [|done]. by intros c' w [= <-]. }
  intros c'. apply hoare_pure. intros ->. apply hoare_ret. auto.
Qed.

Lemma hoare_save_counted s p c keys r :
  counts c ({[key]} ∪ keys) ->
  hoare (counted s p c keys) (save row r)
    (fun _ w => exists data, record_encode r = Ok data /\ counted (Some (Regular data)) p c ({[key]} ∪ keys) w)
    (fun _ w => counted s p c keys w \/
       exists data, record_encode r = Ok data /\ counted (Some (Regular data)) p c ({[key]} ∪ keys) w).
Proof using DL.
  intros Hc'. unfold save. cbn [row_key].
  eapply hoare_bind with (R := fun data w => record_encode r = Ok data /\ counted s p c keys w).
  { apply hoare_lift; auto with fuel. }
  intros data. apply hoare_pure. intros He.
  eapply hoare_conseq; [apply hoare_atomic_write with (P := counted s p c keys)
    (Q := counted (Some (Regular data)) p c ({[key]} ∪ keys))|done| |].
  - apply counted_stable.
  - intros w (d & _ & _ & [_ (Hg & _)] & _). by apply row_guarded_state.
  - intros w w' (d & Hd & Hc & Hw) Hr Hs. exists d. split_and!; [done|done|]. by eapply admission_admit.
  - intros w w' (d & Hd & Hc & Hw) Hr Hs. exists d. split_and!; [done|done|]. by eapply admission_kept.
  - eauto.
  - naive_solver.
Qed.

(** The outcomes of an admission. *)
Definition admitted (s p : option Node) (c : Capacity) (keys : gset bytes) (r : Record_) (w : DWorld) : Prop :=
  exists data c', (record_encode r = Ok data /\ s = None /\ cap_max_records c' = cap_max_records c) /\
    counted (Some (Regular data)) p c' ({[key]} ∪ keys) w.
Definition refused (s p : option Node) (c : Capacity) (keys : gset bytes) (w : DWorld) : Prop :=
  exists c', cap_max_records c' = cap_max_records c /\ counted s p c' keys w.

Lemma hoare_reserve_save p c keys r :
  counts c keys -> key ∉ keys ->
  hoare (counted None p c keys)
    (let! capacity := slift (reserve c key) in
     let! _ := save_capacity capacity in
     let! _ := save row r in
     let! capacity := slift (settle capacity true) in
     save_capacity capacity)
    (fun _ => admitted None p c keys r) (fun _ w => refused None p c keys w \/ admitted None p c keys r w).
Proof using DL JCL HHL.
  intros Hc Hfresh.
  eapply hoare_bind with (R := fun c' w =>
    (counts c' keys /\ counts c' ({[key]} ∪ keys) /\ cap_max_records c' = cap_max_records c /\
     cap_pending_key c' = Some key) /\ counted None p c keys w).
  { apply hoare_lift; [auto with fuel| |].
    - intros c' w Hr Hw. split; [|done]. destruct (counts_reserve _ _ _ _ Hc Hfresh Hr) as (? & ? & ?).
      apply reserve_Ok in Hr as (_ & _ & _ & _ & ->). done.
    - intros e w _ Hw. left. by exists c. }
  intros c1. apply hoare_pure. intros (Hc1 & Hc1' & Hm1 & Hp1).
  eapply hoare_bind with (R := fun _ => counted None p c1 keys).
  { eapply hoare_conseq; [by apply (hoare_save_capacity None p c c1 keys)|done|done|].
    intros e w [Hw|Hw]; left; [by exists c|by exists c1]. }
  intros _. eapply hoare_bind.
  { eapply hoare_conseq; [by apply (hoare_save_counted None p c1 keys r)|done|intros u w Hw; exact Hw|].
    intros e w [Hw|(data & He & Hw)]; [left; by exists c1|right; by exists data, c1]. }
  intros []. apply hoare_exists. intros data. apply hoare_pure. intros He.
  eapply hoare_bind with (R := fun c2 w =>
    (counts c2 ({[key]} ∪ keys) /\ cap_max_records c2 = cap_max_records c) /\
    counted (Some (Regular data)) p c1 ({[key]} ∪ keys) w).
  { apply hoare_lift; [auto with fuel| |].
    - intros c2 w Hs Hw. split; [|done]. rewrite <- (bool_decide_true (key ∈ {[key]} ∪ keys)) in Hs by set_solver.
      destruct (counts_settle _ _ _ _ Hc1' Hp1 Hs) as (? & _ & _ & ?). split; [done|congruence].
    - intros e w _ Hw. right. by exists data, c1. }
  intros c2. apply hoare_pure. intros [Hc2 Hm2].
  eapply hoare_conseq; [by apply (hoare_save_capacity (Some (Regular data)) p c1 c2 ({[key]} ∪ keys))|done| |].
  - intros u w Hw. by exists data, c2.
  - intros e w [Hw|Hw]; right; [by exists data, c1|by exists data, c2].
Qed.

(** Admission keeps the counter right on every outcome. *)
Lemma hoare_admit s p c keys r :
  hoare (counted s p c keys) (save_admitted row r)
    (fun _ => admitted s p c keys r) (fun _ w => refused s p c keys w \/ admitted s p c keys r w).
Proof using DL JCL HHL.
  unfold save_admitted. eapply hoare_bind.
  { eapply hoare_conseq; [apply hoare_load_capacity|done|done|]. intros e w Hw. left. by exists c. }
  intros found. apply hoare_pure. intros ->. cbn [ok_or].
  eapply hoare_bind with (R := fun c' w => c' = c /\ counted s p c keys w).
  { apply hoare_lift; [done| |done]. by intros c' w [= ->]. }
  intros c'. apply hoare_pure. intros ->. cbn [row_config row_key].
  destruct (negb _); [apply hoare_fail; intros w Hw; left; by exists c|].
  eapply hoare_bind.
  { eapply hoare_conseq; [apply hoare_recover_capacity|done|done|]. intros e w Hw. by left. }
  intros c1. apply hoare_pure. intros [Hp1 Hm1].
  assert (forall w, counted s p c1 keys w -> refused s p c keys w) as Href by (intros w Hw; by exists c1).
  eapply hoare_bind.
  { eapply hoare_conseq; [apply (hoare_load_in (counted s p c1 keys) s p)|done|done|].
    - apply counted_stable.
    - by intros w (d & _ & _ & [_ Hw] & _).
    - cbv beta. eauto. }
  intros [existing|]; apply hoare_pure; [intros _; apply hoare_fail; eauto|]. intros ->%row_view_None.
  cbn [is_some is_none negb].
  apply hoare_know with (F := counts c1 keys /\ key ∉ keys).
  { intros w Hw. pose proof Hw as (d & _ & Hc & [_ ((Hv & _) & Hs & _)] & _). split; [done|].
    destruct (counted_kind _ _ _ _ _ _ Hw Hv) as [_ Hk]. rewrite Hk, Hs. by intros []. }
  intros [Hc1 Hfresh]. eapply hoare_conseq; [by apply hoare_reserve_save|done| |].
  - intros u w. unfold admitted. by rewrite Hm1.
  - intros e w. unfold refused, admitted. by rewrite Hm1.
Qed.

(** ** Admission and the row *)

Lemma hoare_save_capacity_row s p c :
  hoare (admitting_row s p) (save_capacity c) (fun _ => admitting_row s p) (fun _ => admitting_row s p).
Proof using DL.
  unfold save_capacity. eapply hoare_bind with (R := fun _ => admitting_row s p).
  { apply hoare_lift; auto with fuel. }
  intros data. eapply hoare_conseq; [apply hoare_atomic_write with (P := admitting_row s p)
    (Q := admitting_row s p)|done|done|].
  - apply admitting_row_stable.
  - apply admitting_row_guards.
  - intros w w' Hw Hr _. by eapply admitting_row_root.
  - intros w w' Hw Hr _. by eapply admitting_row_root.
  - naive_solver.
Qed.

Lemma hoare_recover_capacity_row s p c :
  hoare (admitting_row s p) (recover_capacity c) (fun _ => admitting_row s p) (fun _ => admitting_row s p).
Proof using DL.
  unfold recover_capacity. destruct (cap_pending_key c) as [k|]; [|by apply hoare_ret].
  eapply hoare_bind with (R := fun _ => admitting_row s p).
  { eapply hoare_conseq; [apply hoare_unless_not_found, hoare_read_quiet, (admitting_row_stable s p)|done| |done].
    by intros [data|] w. }
  intros found. eapply hoare_bind with (R := fun _ => admitting_row s p).
  { destruct found as [data|]; [|by apply hoare_ret].
    eapply hoare_bind with (R := fun _ => admitting_row s p); [|intros _; by apply hoare_ret].
    apply hoare_lift; auto with fuel. }
  intros present. eapply hoare_bind with (R := fun _ => admitting_row s p).
  { apply hoare_lift; auto with fuel. }
  intros c'. eapply hoare_bind; [apply hoare_save_capacity_row|]. intros []. by apply hoare_ret.
Qed.

Lemma hoare_load_capacity_row s p :
  hoare (admitting_row s p) load_optional_capacity (fun _ => admitting_row s p) (fun _ => admitting_row s p).
Proof using DL.
  unfold load_optional_capacity. eapply hoare_bind with (R := fun _ => admitting_row s p).
  - eapply hoare_conseq; [apply hoare_unless_not_found, hoare_read_quiet, (admitting_row_stable s p)|done| |done].
    by intros [data|] w.
  - intros [data|]; [|by apply hoare_ret].
    eapply hoare_bind with (R := fun _ => admitting_row s p); [|intros c; by apply hoare_ret].
    apply hoare_lift; auto with fuel.
Qed.

(** A new record is written only where there was none. *)
Lemma hoare_admit_row s p r :
  hoare (admitting_row s p) (save_admitted row r)
    (fun _ w => exists data, (s = None /\ record_encode r = Ok data) /\ admitting_row (Some (Regular data)) p w)
    (fun _ w => admitting_row s p w \/
       exists data, (s = None /\ record_encode r = Ok data) /\ admitting_row (Some (Regular data)) p w).
Proof using DL.
  unfold save_admitted. eapply hoare_bind.
  { eapply hoare_conseq; [apply (hoare_load_capacity_row s p)|done|done|auto]. }
  intros loaded. eapply hoare_bind with (R := fun _ => admitting_row s p).
  { apply hoare_lift; auto with fuel. }
  intros c. destruct (negb _); [apply hoare_fail; auto|].
  eapply hoare_bind; [eapply hoare_conseq; [apply (hoare_recover_capacity_row s p)|done|done|auto]|].
  intros c1. eapply hoare_bind.
  { eapply hoare_conseq; [apply (hoare_load_in (admitting_row s p) s p);
      [apply admitting_row_stable|by intros w [_ Hw]]|done|done|auto]. }
  intros [existing|]; apply hoare_pure; [intros _; apply hoare_fail; auto|]. intros ->%row_view_None.
  cbn [is_some is_none negb]. eapply hoare_bind with (R := fun _ => admitting_row None p).
  { apply hoare_lift; auto with fuel. }
  intros c2. eapply hoare_bind; [eapply hoare_conseq; [apply (hoare_save_capacity_row None p)|done|done|auto]|].
  intros []. eapply hoare_bind.
  { eapply hoare_conseq; [apply (hoare_save_in (fun s => admitting_row s p) None p r)|done|intros u w Hw; exact Hw|].
    - intros. apply admitting_row_stable.
    - by intros s w [_ Hw].
    - intros s s' w w' [Ha Hw] Hr Hs. split; [by apply Hr|by eapply at_row_state].
    - naive_solver. }
  intros []. apply hoare_exists. intros data. apply hoare_pure. intros He.
  eapply hoare_bind with (R := fun _ => admitting_row (Some (Regular data)) p).
  { apply hoare_lift; [auto with fuel|done|]. intros e w _ Hw. right. eauto. }
  intros c3. eapply hoare_conseq; [apply (hoare_save_capacity_row (Some (Regular data)) p)|done|eauto|].
  intros e w Hw. right. eauto.
Qed.

Lemma hoare_save_new s p r :
  hoare (at_row key s p) (save_new row r)
    (fun _ w => exists data, (s = None /\ record_encode r = Ok data) /\ at_row key (Some (Regular data)) p w)
    (fun _ w => at_row key s p w \/
       exists data, (s = None /\ record_encode r = Ok data) /\ at_row key (Some (Regular data)) p w).
Proof using DL.
  unfold save_new. eapply hoare_bind.
  { eapply hoare_conseq; [apply hoare_open_lock; [apply (at_row_stable key s p)|intros w w'; by apply at_row_root]|done|done|auto]. }
  intros f. apply hoare_pure. intros Hn. eapply hoare_bind with (R := fun _ => admitting_row s p).
  { unfold admitting_row. rewrite <- Hn.
    eapply hoare_conseq; [apply hoare_lock, (at_row_stable key s p)|done|done|auto]. }
  intros _. eapply hoare_conseq; [apply (hoare_admit_row s p r)|done| |]; unfold admitting_row; naive_solver.
Qed.
End RowOps.
