(* ===== verification/CtlLedgerApi.v ===== *)
(** What the controller asks of a delivery ledger:
    [controller/src/orchestration/ledger.rs]. *)
From Stdlib Require Import Strings.Byte Strings.String Lia.
From stdpp Require Import base numbers list.
From S2P Require Import Prelude WireModel CtlModel.

(** [LeaseFence::new]: a fence is a nonzero [u64]. *)
Definition lease_fence_new (raw : u64) : option u64 := if raw =? 0 then None else Some raw.

Record DeliveryLease := mkDeliveryLease {
  l_evaluation_id : OpaqueIdT; l_check : CheckBinding; l_fence : u64; l_expires_at_unix_millis : i64
}.
#[export] Instance DeliveryLease_eq_dec : EqDecision DeliveryLease.
Proof. solve_decision. Defined.

Record StagedPublication := mkStagedPublication {
  stg_evaluation_id : OpaqueIdT; stg_fence : u64; stg_publication : Publication
}.
#[export] Instance StagedPublication_eq_dec : EqDecision StagedPublication.
Proof. solve_decision. Defined.

Module DeliveryClaim.
Inductive t :=
  | Execute (lease : DeliveryLease)
  | Publish (staged : StagedPublication)
  | Busy (evaluation_id : OpaqueIdT) (retry_at_unix_millis : i64)
  | Duplicate (evaluation_id : OpaqueIdT)
  | BindingConflict.
End DeliveryClaim.

Module LeaseRenewal.
Inductive t := Renewed (lease : DeliveryLease) | Lost.
End LeaseRenewal.

Module StageOutcome.
Inductive t := Staged (staged : StagedPublication) | Lost.
End StageOutcome.

Module LeaseCompletion.
Inductive t := Completed | Lost.
End LeaseCompletion.

(** The trait [DeliveryLedger]; [LWorld] is what its methods read and change. *)
Class DeliveryLedger := {
  LWorld : Type;
  LError : Type;
  l_claim : AcceptedDelivery -> CheckBinding -> sres LWorld DeliveryClaim.t LError;
  l_renew : AcceptedDelivery -> DeliveryLease -> sres LWorld LeaseRenewal.t LError;
  l_stage : AcceptedDelivery -> DeliveryLease -> Publication -> sres LWorld StageOutcome.t LError;
  l_complete : AcceptedDelivery -> StagedPublication -> sres LWorld LeaseCompletion.t LError
}.
