(* ===== verification/CtlController.v ===== *)
(** The controller's trust flow: [controller/src/orchestration/controller.rs],
    [controller/helpers.rs], [plans.rs] and the registry of [provider.rs].

    The ledger is any [DeliveryLedger]. Adapters, the runner, the artifact
    store, the wall clock and the external report functions are parameters: the
    traits and the store the source calls, over a world of their own. The state
    keeps the list of calls made, the runner's heartbeats included. *)
From Stdlib Require Import Strings.Byte Strings.String Lia.
From stdpp Require Import base numbers list.
From S2P Require Import Prelude Codec WireModel WireIdentity OrdMap CtlModel CtlIngress CtlRecord CtlPublication CtlLedgerApi.

Module ProviderError.
Inductive t := Authentication | AuthorizationRevoked | Unavailable | InvalidResponse.
End ProviderError.

Module ArtifactError.
Inductive t :=
  | AlreadyOpen | Configuration | Corrupt | Full | TooLarge | Conflict | NotFound | Clock | Io (e : IoError.t).
End ArtifactError.

Module PlanError.
Inductive t := Duplicate | Missing | Invalid.
End PlanError.

Module RegistryError.
Inductive t := DuplicateNamespace.
End RegistryError.

Module ControllerError.
Inductive t (E : Type) :=
  | UnknownProvider
  | Plan (e : PlanError.t)
  | Ingress (e : IngressError.t)
  | Provider (e : ProviderError.t)
  | WrongChangeIdentity
  | WrongProviderRun
  | DeliveryBindingConflict
  | LeaseLost
  | CompletionLost
  | Ledger (e : E)
  | Completion (e : E)
  | Artifact (e : ArtifactError.t)
  | Publish (e : ProviderError.t).
Arguments UnknownProvider {E}.
Arguments Plan {E}.
Arguments Ingress {E}.
Arguments Provider {E}.
Arguments WrongChangeIdentity {E}.
Arguments WrongProviderRun {E}.
Arguments DeliveryBindingConflict {E}.
Arguments LeaseLost {E}.
Arguments CompletionLost {E}.
Arguments Ledger {E}.
Arguments Completion {E}.
Arguments Artifact {E}.
Arguments Publish {E}.
End ControllerError.

Module HandleOutcome.
Inductive t :=
  | InProgress (evaluation_id : OpaqueIdT) (retry_at_unix_millis : i64)
  | Duplicate (evaluation_id : OpaqueIdT) (artifact : option ArtifactReference)
  | Published (conclusion : CheckConclusion.t) (artifact : option ArtifactReference).
End HandleOutcome.

Module ClaimResolution.
Inductive t := Execute (lease : DeliveryLease) | Publish (staged : StagedPublication) | Return_ (outcome : HandleOutcome.t).
End ClaimResolution.

Module HeartbeatOutcome.
Inductive t := Renewed (renew_within_millis : u64) | Stop.
End HeartbeatOutcome.

Module ExternalPolicy.
Inductive t := Off | Advisory | BlockConfirmedRefutations.
#[global] Instance eq_dec : EqDecision t.
Proof. solve_decision. Defined.
End ExternalPolicy.

Module ExternalVerdict.
Inductive t := Reachable | Refuted | Unproven.
End ExternalVerdict.

Record ArtifactBundle := mkArtifactBundle {
  ab_report : bytes; ab_semantic : option bytes; ab_plan : option bytes; ab_evidence : option bytes;
  ab_assessment : option bytes; ab_external_tally : option ExternalTally; ab_external_incomplete : bool
}.

(** A runner that returns: it works, renews its lease a finite number of times,
    and ends with an outcome. *)
Inductive RunnerProgram (W : Type) :=
  | Finish (outcome : RunnerOutcome.t)
  | Renew (next : HeartbeatOutcome.t -> RunnerProgram W)
  | Work (work : W -> W) (next : W -> RunnerProgram W).
Arguments Finish {W}.
Arguments Renew {W}.
Arguments Work {W}.

(** The traits and functions the controller calls. *)
Class Environment := {
  EWorld : Type;
  Plan : Type;
  Adapter : Type;
  Engine : Type;
  (** [ProviderAdapter]. *)
  namespace : Adapter -> bytes;
  authenticate : Adapter -> IngressCheck -> sres EWorld VerifiedDelivery ProviderError.t;
  refresh : Adapter -> AuthenticatedDelivery -> sres EWorld ChangeSnapshot ProviderError.t;
  publish : Adapter -> AuthenticatedDelivery -> Publication -> sres EWorld unit ProviderError.t;
  verify_external : Adapter -> bytes -> bytes -> sres EWorld (option bytes) ProviderError.t;
  (** [Runner::run]. *)
  run : RunRequest Plan -> RunnerProgram EWorld;
  (** [ControllerClock::now_unix_millis]. *)
  now_unix_millis : EWorld -> option i64 * EWorld;
  (** [FileArtifactStore::find], [verify], [retain]. *)
  find : OpaqueIdT -> sres EWorld (option ArtifactReference) ArtifactError.t;
  verify : ArtifactReference -> sres EWorld unit ArtifactError.t;
  retain : OpaqueIdT -> ArtifactBundle -> sres EWorld ArtifactReference ArtifactError.t;
  (** [check_binding] of a plan and [plan.policy.external_policy]. *)
  check_binding : Plan -> option CheckBinding;
  external_policy : Plan -> ExternalPolicy.t;
  (** [ReportPayload::parse(report)] with its engine, [external::plan],
      [external::assess] and the verdicts of [ExternalAssessment::parse]. *)
  parse_engine : bytes -> option Engine;
  external_plan : bytes -> Engine -> option bytes;
  external_assess : bytes -> bytes -> Engine -> option bytes;
  parse_verdicts : bytes -> option (list ExternalVerdict.t)
}.

(** ** Registries *)

Section Registry.
Context `{EN : Environment}.

Definition AdapterRegistry : Type := bt bytes Adapter.

Definition registry_register (registry : AdapterRegistry) (adapter : Adapter) : res AdapterRegistry RegistryError.t :=
  if bt_mem (namespace adapter) registry then Err RegistryError.DuplicateNamespace
  else Ok (bt_insert (namespace adapter) adapter registry).

(** [PlanScope], as the key its derived order compares. *)
Definition PlanScope : Type := (bytes * bytes) * (bytes * (bytes * (bytes * bytes))).
Definition plan_scope (provider : ProviderIdentity) (integration : OpaqueIdT) (repository : RepositoryIdentity.t) : PlanScope :=
  ((pi_namespace provider, pi_instance provider),
   (integration, (RepositoryIdentity.host repository, (RepositoryIdentity.name repository, RepositoryIdentity.owner repository)))).
Definition PlanRegistry : Type := bt PlanScope Plan.

Definition register_plan (registry : PlanRegistry) (scope : PlanScope) (plan : Plan) : res PlanRegistry PlanError.t :=
  let? _ := ok_or (check_binding plan) PlanError.Invalid in
  if bt_mem scope registry then Err PlanError.Duplicate else Ok (bt_insert scope plan registry).

Definition resolve_plan (registry : PlanRegistry) (delivery : AuthenticatedDelivery) :
    res (Plan * CheckBinding) PlanError.t :=
  let scope := plan_scope (di_provider (ad_identity delivery)) (di_integration (ad_identity delivery))
                 (cl_repository (ad_change delivery)) in
  let? plan := ok_or (bt_get scope registry) PlanError.Missing in
  let? check := ok_or (check_binding plan) PlanError.Invalid in
  Ok (plan, check).
End Registry.

(** ** Calls *)

Module Event.
Inductive t `{DeliveryLedger} :=
  | Claimed (claim : DeliveryClaim.t)
  | Renewed (lease : DeliveryLease) (result : LeaseRenewal.t)
  | Refreshed (snapshot : ChangeSnapshot)
  | Ran (run : RunIdentity) (outcome : RunnerOutcome.t)
  | Retained (reference : ArtifactReference)
  | Staged (staged : StagedPublication)
  | Publishing (publication : Publication)
  | Published (publication : Publication)
  | Completed (staged : StagedPublication)
  | Observed (tally : option ExternalTally).
End Event.

Section Controller.
Context `{DLG : DeliveryLedger} `{EN : Environment}.

Record Controller := mkController {
  ct_registry : AdapterRegistry;
  ct_plans : PlanRegistry;
  ct_ingress : IngressPolicy;
  ct_external : bool;   (** an [ExternalSink] is set *)
  ct_artifacts : bool   (** a [FileArtifactStore] is set *)
}.

Record World := mkWorld { w_ledger : LWorld; w_env : EWorld; w_calls : list Event.t }.

Abbreviation ctl A := (sres World A (ControllerError.t LError)).

Definition emit (e : Event.t) : ctl unit :=
  fun w => (Ok tt, mkWorld (w_ledger w) (w_env w) (w_calls w ++ [e])).

(** A call of the ledger or of the environment, with [map_err]. *)
Definition ledger_call {A} (f : LError -> ControllerError.t LError) (m : sres LWorld A LError) : ctl A :=
  fun w => match m (w_ledger w) with
           | (Ok a, l) => (Ok a, mkWorld l (w_env w) (w_calls w))
           | (Err e, l) => (Err (f e), mkWorld l (w_env w) (w_calls w))
           | (OutOfFuel, l) => (OutOfFuel, mkWorld l (w_env w) (w_calls w))
           end.
Definition env_call {A E} (f : E -> ControllerError.t LError) (m : sres EWorld A E) : ctl A :=
  fun w => match m (w_env w) with
           | (Ok a, e) => (Ok a, mkWorld (w_ledger w) e (w_calls w))
           | (Err x, e) => (Err (f x), mkWorld (w_ledger w) e (w_calls w))
           | (OutOfFuel, e) => (OutOfFuel, mkWorld (w_ledger w) e (w_calls w))
           end.
Definition clock_call : ctl (option i64) :=
  fun w => let '(now, e) := now_unix_millis (w_env w) in (Ok now, mkWorld (w_ledger w) e (w_calls w)).

(** ** Leases *)

Definition renew_lease (delivery : AcceptedDelivery) (lease : DeliveryLease) : ctl DeliveryLease :=
  let! renewal := ledger_call ControllerError.Ledger (l_renew delivery lease) in
  let! _ := emit (Event.Renewed lease renewal) in
  match renewal with
  | LeaseRenewal.Lost => sfail ControllerError.LeaseLost
  | LeaseRenewal.Renewed renewed =>
      if negb (bytes_eqb (l_evaluation_id renewed) (l_evaluation_id lease))
         || negb (bool_decide (l_check renewed = l_check lease))
         || negb (l_fence renewed =? l_fence lease)
         || (l_expires_at_unix_millis renewed <? l_expires_at_unix_millis lease)
      then sfail ControllerError.LeaseLost
      else sret renewed
  end.

Definition renewal_window (lease : DeliveryLease) : ctl (option u64) :=
  let! now := clock_call in
  sret (match now with
        | None => None
        | Some now =>
            match checked_sub_i64 (l_expires_at_unix_millis lease) now with
            | None => None
            | Some millis => if 0 <? millis then Some millis else None
            end
        end).

(** [LedgerHeartbeat]: the live lease and the first failure. *)
Record Heartbeat := mkHeartbeat { hb_lease : DeliveryLease; hb_failure : option (ControllerError.t LError) }.

Definition renewal_attempt (delivery : AcceptedDelivery) (lease : DeliveryLease) : ctl (DeliveryLease * u64) :=
  let! lease := renew_lease delivery lease in
  let! window := renewal_window lease in
  match window with
  | Some window => sret (lease, window)
  | None => sfail ControllerError.LeaseLost
  end.

Definition heartbeat_renew (delivery : AcceptedDelivery) (hb : Heartbeat) : ctl (HeartbeatOutcome.t * Heartbeat) :=
  match hb_failure hb with
  | Some _ => sret (HeartbeatOutcome.Stop, hb)
  | None =>
      fun w => match renewal_attempt delivery (hb_lease hb) w with
               | (Ok (lease, window), w) => (Ok (HeartbeatOutcome.Renewed window, mkHeartbeat lease None), w)
               | (Err error, w) => (Ok (HeartbeatOutcome.Stop, mkHeartbeat (hb_lease hb) (Some error)), w)
               | (OutOfFuel, w) => (OutOfFuel, w)
               end
  end.

Fixpoint drive (delivery : AcceptedDelivery) (program : RunnerProgram EWorld) (hb : Heartbeat) :
    ctl (RunnerOutcome.t * Heartbeat) :=
  match program with
  | Finish outcome => sret (outcome, hb)
  | Renew next =>
      let! (outcome, hb) := heartbeat_renew delivery hb in
      drive delivery (next outcome) hb
  | Work work next =>
      fun w => let e := work (w_env w) in
               drive delivery (next e) hb (mkWorld (w_ledger w) e (w_calls w))
  end.

(** The supervised run and [heartbeat.finish()?]. *)
Definition supervise (delivery : AcceptedDelivery) (request : RunRequest Plan) (lease : DeliveryLease) :
    ctl (RunnerOutcome.t * DeliveryLease) :=
  let! (outcome, hb) := drive delivery (run request) (mkHeartbeat lease None) in
  match hb_failure hb with
  | Some error => sfail error
  | None => let! _ := emit (Event.Ran (rq_run request) outcome) in sret (outcome, hb_lease hb)
  end.

(** ** Validation *)

Definition validate_gate_commit `{Hex} (run : RunIdentity) (gate_commit : Oid.t) : res unit (ControllerError.t LError) :=
  let? _ := ok_or (Oid.new (ri_object_format run) (Oid.as_str gate_commit)) ControllerError.WrongProviderRun in Ok tt.

Definition validate_run (delivery : AuthenticatedDelivery) (run : RunIdentity) : res unit (ControllerError.t LError) :=
  if negb (bool_decide (ri_change run = ad_change delivery)) then Err ControllerError.WrongChangeIdentity
  else if negb (bool_decide (ri_object_format run = pr_object_format (ad_provider_run delivery)))
          || negb (bool_decide (op_candidate (ri_commits run) = pr_candidate_commit (ad_provider_run delivery)))
  then Err ControllerError.WrongProviderRun
  else Ok tt.

Context `{HX : Hex} `{HH : Hashes} {HHL : HashLaws HH} `{UP : UrlParser}.

Definition validate_change (delivery : AuthenticatedDelivery) (snapshot : ChangeSnapshot) :
    res unit (ControllerError.t LError) :=
  let? _ := validate_run delivery (cs_run snapshot) in
  validate_gate_commit (cs_run snapshot) (cs_gate_commit snapshot).

Definition validate_staged (delivery : AuthenticatedDelivery) (check : CheckBinding) (staged : StagedPublication) :
    res unit (ControllerError.t LError) :=
  let p := stg_publication staged in
  if negb (bytes_eqb (p_evaluation_id p) (stg_evaluation_id staged)) then Err ControllerError.LeaseLost
  else if negb (bool_decide (p_provider_run p = ad_provider_run delivery)) then Err ControllerError.WrongProviderRun
  else if negb (bool_decide (p_check p = check)) then Err ControllerError.DeliveryBindingConflict
  else
    let? _ := validate_run delivery (p_run p) in
    validate_gate_commit (p_run p) (p_gate_commit p).

(** ** Staging and publishing *)

Definition validate_staged_lease (lease : DeliveryLease) (staged : StagedPublication) :
    res StagedPublication (ControllerError.t LError) :=
  if negb (bytes_eqb (stg_evaluation_id staged) (l_evaluation_id lease))
     || negb (stg_fence staged =? l_fence lease)
     || negb (bool_decide (p_check (stg_publication staged) = l_check lease))
  then Err ControllerError.LeaseLost
  else Ok staged.

Definition stage_publication (delivery : AcceptedDelivery) (lease : DeliveryLease) (p : Publication) : ctl StagedPublication :=
  let! outcome := ledger_call ControllerError.Ledger (l_stage delivery lease p) in
  match outcome with
  | StageOutcome.Staged staged =>
      if bool_decide (stg_publication staged = p) then
        let! staged := slift (validate_staged_lease lease staged) in
        let! _ := emit (Event.Staged staged) in
        sret staged
      else sfail ControllerError.LeaseLost
  | StageOutcome.Lost => sfail ControllerError.LeaseLost
  end.

Definition observe_external (sink : bool) (p : Publication) : ctl unit :=
  match sink, p_artifact p with
  | true, Some reference =>
      if ar_external_incomplete reference then emit (Event.Observed None)
      else match ar_external_tally reference with
           | Some tally => emit (Event.Observed (Some tally))
           | None => sret tt
           end
  | _, _ => sret tt
  end.

Definition publish_staged (self : Controller) (adapter : Adapter) (delivery : AcceptedDelivery)
    (staged : StagedPublication) : ctl HandleOutcome.t :=
  let p := stg_publication staged in
  let! _ :=
    match p_artifact p with
    | Some reference =>
        if negb (reference_matches_report reference (p_report p)) then sfail (ControllerError.Artifact ArtifactError.Conflict)
        else if negb (ct_artifacts self) then sfail (ControllerError.Artifact ArtifactError.NotFound)
        else env_call ControllerError.Artifact (verify reference)
    | None =>
        if ct_artifacts self && is_some (p_report p) then sfail (ControllerError.Artifact ArtifactError.NotFound)
        else sret tt
    end in
  let! _ := emit (Event.Publishing p) in
  let! _ := env_call ControllerError.Publish (publish adapter (acc_delivery delivery) p) in
  let! _ := emit (Event.Published p) in
  let! completion := ledger_call ControllerError.Completion (l_complete delivery staged) in
  match completion with
  | LeaseCompletion.Completed =>
      let! _ := emit (Event.Completed staged) in
      let! _ := observe_external (ct_external self) p in
      sret (HandleOutcome.Published (p_conclusion p) (p_artifact p))
  | LeaseCompletion.Lost => sfail ControllerError.CompletionLost
  end.

(** ** Claims *)

Definition resolve_claim (self : Controller) (delivery : AcceptedDelivery) (check : CheckBinding)
    (claim : DeliveryClaim.t) : ctl ClaimResolution.t :=
  match claim with
  | DeliveryClaim.Execute lease =>
      if bool_decide (l_check lease = check) then sret (ClaimResolution.Execute lease)
      else sfail ControllerError.LeaseLost
  | DeliveryClaim.Publish staged =>
      let! _ := slift (validate_staged (acc_delivery delivery) check staged) in
      sret (ClaimResolution.Publish staged)
  | DeliveryClaim.Busy evaluation_id retry_at => sret (ClaimResolution.Return_ (HandleOutcome.InProgress evaluation_id retry_at))
  | DeliveryClaim.Duplicate evaluation_id =>
      let! artifact :=
        (if ct_artifacts self then env_call ControllerError.Artifact (find evaluation_id) else sret None) in
      sret (ClaimResolution.Return_ (HandleOutcome.Duplicate evaluation_id artifact))
  | DeliveryClaim.BindingConflict => sfail ControllerError.DeliveryBindingConflict
  end.

(** ** External evidence *)

Record PreparedExternal := mkPreparedExternal {
  pe_plan : option bytes; pe_evidence : option bytes; pe_assessment : option bytes;
  pe_tally : option ExternalTally; pe_incomplete : bool
}.

Definition count_verdict (tally : ExternalTally) (verdict : ExternalVerdict.t) : ExternalTally :=
  match verdict with
  | ExternalVerdict.Refuted => mkExternalTally (sat_add (et_refuted tally) 1) (et_unproven tally) (et_reachable tally)
  | ExternalVerdict.Unproven => mkExternalTally (et_refuted tally) (sat_add (et_unproven tally) 1) (et_reachable tally)
  | ExternalVerdict.Reachable => mkExternalTally (et_refuted tally) (et_unproven tally) (sat_add (et_reachable tally) 1)
  end.

Definition default_tally : ExternalTally := mkExternalTally 0 0 0.

(** The value of the last match of [prepare_external]. *)
Definition assessed (plan_bytes evidence : bytes) (engine : Engine) : PreparedExternal :=
  match external_assess plan_bytes evidence engine with
  | None => mkPreparedExternal (Some plan_bytes) (Some evidence) None None true
  | Some assessment =>
      match parse_verdicts assessment with
      | None => mkPreparedExternal (Some plan_bytes) (Some evidence) None None true
      | Some verdicts =>
          mkPreparedExternal (Some plan_bytes) (Some evidence) (Some assessment)
            (Some (fold_left count_verdict verdicts default_tally)) false
      end
  end.

(** [i64::to_string]. *)
Definition i64_to_string (v : i64) : bytes := if v <? 0 then b_ "-" ++ fmt_dec (- v) else fmt_dec v.

Definition prepare_external (adapter : Adapter) (report : bytes) : ctl PreparedExternal :=
  match parse_engine report with
  | None => sret (mkPreparedExternal None None None None true)
  | Some engine =>
      match external_plan report engine with
      | None => sret (mkPreparedExternal None None None None true)
      | Some plan_bytes =>
          let! now := clock_call in
          match now with
          | None => sret (mkPreparedExternal (Some plan_bytes) None None None true)
          | Some now =>
              fun w =>
                match verify_external adapter plan_bytes (i64_to_string now) (w_env w) with
                | (Ok (Some evidence), e) => (Ok (assessed plan_bytes evidence engine), mkWorld (w_ledger w) e (w_calls w))
                | (Ok None, e) => (Ok (mkPreparedExternal (Some plan_bytes) None None None false), mkWorld (w_ledger w) e (w_calls w))
                | (Err _, e) => (Ok (mkPreparedExternal (Some plan_bytes) None None None true), mkWorld (w_ledger w) e (w_calls w))
                | (OutOfFuel, e) => (OutOfFuel, mkWorld (w_ledger w) e (w_calls w))
                end
          end
      end
  end.

Definition external_conclusion (policy : ExternalPolicy.t) (artifact : ArtifactReference) (engine : CheckConclusion.t) :
    CheckConclusion.t :=
  if bool_decide (policy = ExternalPolicy.BlockConfirmedRefutations)
     && match ar_external_tally artifact with Some tally => 0 <? et_refuted tally | None => false end
  then CheckConclusion.Block
  else engine.

(** [Sha256::digest] as a [Digest]. *)
Definition report_digest (b : bytes) : Digest.t := sha256_digest b.

Definition retain_publication (adapter : Adapter) (policy : ExternalPolicy.t) (p : Publication)
    (semantic_artifact : option bytes) : ctl Publication :=
  match p_report p with
  | None => sfail (ControllerError.Artifact ArtifactError.Corrupt)
  | Some report =>
      let! found := env_call ControllerError.Artifact (find (p_evaluation_id p)) in
      let! artifact :=
        match found with
        | Some reference =>
            if negb (bool_decide (ar_report_digest reference = report_digest report))
               || match ar_semantic_digest reference with
                  | Some digest => negb (bool_decide (Some digest = option_map report_digest semantic_artifact))
                  | None => false
                  end
            then sfail (ControllerError.Artifact ArtifactError.Conflict)
            else
              let! _ := env_call ControllerError.Artifact (verify reference) in
              sret reference
        | None =>
            let! external :=
              (if bool_decide (policy = ExternalPolicy.Off) then sret (mkPreparedExternal None None None None false)
               else prepare_external adapter report) in
            env_call ControllerError.Artifact
              (retain (p_evaluation_id p)
                 (mkArtifactBundle report semantic_artifact (pe_plan external) (pe_evidence external)
                    (pe_assessment external) (pe_tally external) (pe_incomplete external)))
        end in
      let! _ := emit (Event.Retained artifact) in
      sret (set_artifact (set_conclusion p (external_conclusion policy artifact (p_conclusion p))) (Some artifact))
  end.

(** ** The flow *)

(** [adapter.refresh(delivery)?] and [validate_change]. *)
Definition refresh_change (adapter : Adapter) (delivery : AuthenticatedDelivery) : ctl ChangeSnapshot :=
  let! snapshot := env_call ControllerError.Provider (refresh adapter delivery) in
  let! _ := emit (Event.Refreshed snapshot) in
  let! _ := slift (validate_change delivery snapshot) in
  sret snapshot.

(** The gates: [pre_auth], the adapter, [post_auth] and the plan. *)
Definition admit_delivery (self : Controller) (input : UntrustedDelivery) :
    ctl (Adapter * AcceptedDelivery * Plan * CheckBinding) :=
  let! now := clock_call in
  let! checked :=
    slift (match pre_auth (ct_ingress self) input now with
           | Ok checked => Ok checked
           | Err e => Err (ControllerError.Ingress e)
           | OutOfFuel => OutOfFuel
           end) in
  let! adapter :=
    slift (ok_or (bt_get (pi_namespace (dr_provider (ud_route (ic_delivery checked)))) (ct_registry self))
             ControllerError.UnknownProvider) in
  let! verified := env_call ControllerError.Provider (authenticate adapter checked) in
  let! accepted :=
    slift (match post_auth (ct_ingress self) checked verified with
           | Ok accepted => Ok accepted
           | Err e => Err (ControllerError.Ingress e)
           | OutOfFuel => OutOfFuel
           end) in
  let! (plan, check) :=
    slift (match resolve_plan (ct_plans self) (acc_delivery accepted) with
           | Ok resolved => Ok resolved
           | Err e => Err (ControllerError.Plan e)
           | OutOfFuel => OutOfFuel
           end) in
  sret (adapter, accepted, plan, check).

(** The runner, when the change is active. *)
Definition run_active (accepted : AcceptedDelivery) (request : RunRequest Plan) (initial : ChangeSnapshot)
    (lease : DeliveryLease) : ctl (option RunnerOutcome.t * DeliveryLease) :=
  match cs_state initial with
  | ChangeState.Active =>
      let! (outcome, lease) := supervise accepted request lease in
      sret (Some outcome, lease)
  | _ => sret (None, lease)
  end.

(** Retention, when there is a report and a store. *)
Definition retain_report (self : Controller) (adapter : Adapter) (accepted : AcceptedDelivery) (plan : Plan)
    (prepared : PreparedPublication) (lease : DeliveryLease) : ctl (Publication * DeliveryLease) :=
  let p := pp_publication prepared in
  if is_some (p_report p) && ct_artifacts self then
    let! lease := renew_lease accepted lease in
    let! p := retain_publication adapter (external_policy plan) p (pp_semantic_artifact prepared) in
    let! lease := renew_lease accepted lease in
    sret (p, lease)
  else sret (p, lease).

(** The rest of [handle] under a lease. *)
Definition execute (self : Controller) (adapter : Adapter) (accepted : AcceptedDelivery) (plan : Plan)
    (check : CheckBinding) (lease : DeliveryLease) : ctl HandleOutcome.t :=
  let delivery := acc_delivery accepted in
  let! initial := refresh_change adapter delivery in
  let! lease := renew_lease accepted lease in
  let request := mkRunRequest (ad_identity delivery) (ad_provider_run delivery) (l_evaluation_id lease) check plan
                   (cs_run initial) in
  let! (outcome, lease) := run_active accepted request initial lease in
  let! lease := renew_lease accepted lease in
  let prepared := publication request initial outcome in
  let! (p, lease) := retain_report self adapter accepted plan prepared lease in
  let! fresh := refresh_change adapter delivery in
  let! lease := renew_lease accepted lease in
  let p := finalize_publication initial fresh p in
  let! staged := stage_publication accepted lease p in
  publish_staged self adapter accepted staged.

(** [Controller::handle]. *)
Definition handle (self : Controller) (input : UntrustedDelivery) : ctl HandleOutcome.t :=
  let! (adapter, accepted, plan, check) := admit_delivery self input in
  let! claim := ledger_call ControllerError.Ledger (l_claim accepted check) in
  let! _ := emit (Event.Claimed claim) in
  let! resolution := resolve_claim self accepted check claim in
  match resolution with
  | ClaimResolution.Execute lease => execute self adapter accepted plan check lease
  | ClaimResolution.Publish staged => publish_staged self adapter accepted staged
  | ClaimResolution.Return_ outcome => sret outcome
  end.
End Controller.
