(* ===== verification/CtlFlow.v ===== *)
(** What [handle] ([CtlController]) does, whatever the ledger, the adapters,
    the runner and the artifact store answer: which calls follow which, and what
    a published conclusion rests on. *)
From Stdlib Require Import Strings.Byte Strings.String Lia.
From stdpp Require Import base numbers sets list.
From S2P Require Import Prelude Codec WireModel WireIdentity OrdMap CtlModel CtlIngress CtlRecord CtlPublication CtlLedgerApi CtlController.

Section Flow.
Context `{DLG : DeliveryLedger} `{EN : Environment} `{HX : Hex} `{HH : Hashes} {HHL : HashLaws HH} `{UP : UrlParser}.

(** Every call returns. *)
Class Answers : Prop := {
  claim_returns d c w : (l_claim d c w).1 <> OutOfFuel;
  renew_returns d l w : (l_renew d l w).1 <> OutOfFuel;
  stage_returns d l p w : (l_stage d l p w).1 <> OutOfFuel;
  complete_returns d s w : (l_complete d s w).1 <> OutOfFuel;
  authenticate_returns a c w : (authenticate a c w).1 <> OutOfFuel;
  refresh_returns a d w : (refresh a d w).1 <> OutOfFuel;
  publish_returns a d p w : (publish a d p w).1 <> OutOfFuel;
  verify_external_returns a p t w : (verify_external a p t w).1 <> OutOfFuel;
  find_returns i w : (find i w).1 <> OutOfFuel;
  verify_returns r w : (verify r w).1 <> OutOfFuel;
  retain_returns i b w : (retain i b w).1 <> OutOfFuel
}.
Context {AN : Answers}.

Abbreviation ctl A := (sres World A (ControllerError.t LError)).

(** ** Calls *)

(** The calls that decide a delivery's fate; the others gather facts. *)
Definition decisive (e : Event.t) : bool :=
  match e with
  | Event.Claimed _ | Event.Staged _ | Event.Publishing _ | Event.Published _ | Event.Completed _ => true
  | _ => false
  end.

(** The calls a publication rests on: the decisive ones, the readings of the change
    and the runner's answers. *)
Definition telling (e : Event.t) : bool :=
  match e with Event.Refreshed _ | Event.Ran _ _ => true | _ => decisive e end.

(** The telling calls so far, in their order. *)
Definition calls (told : list Event.t) (w : World) : Prop := List.filter telling (w_calls w) = told.

(** The decisive calls so far, in their order. *)
Definition decisions (decided : list Event.t) (w : World) : Prop := List.filter decisive (w_calls w) = decided.

Lemma decisive_telling l : List.filter decisive (List.filter telling l) = List.filter decisive l.
Proof. induction l as [|e l IH]; [done|]. destruct e; cbn; by rewrite ?IH. Qed.

Lemma calls_decisions told w : calls told w -> decisions (List.filter decisive told) w.
Proof. unfold calls, decisions. intros <-. by rewrite decisive_telling. Qed.

(** A computation that makes no telling call. *)
Definition gathers {A} (m : ctl A) : Prop :=
  forall w r w', m w = (r, w') ->
    r <> OutOfFuel /\ exists es, w_calls w' = w_calls w ++ es /\ List.filter telling es = [].

Lemma calls_more told w w' es :
  calls told w -> w_calls w' = w_calls w ++ es -> List.filter telling es = [] -> calls told w'.
Proof. unfold calls. intros Hd Hw Hes. by rewrite Hw, List.filter_app, Hd, Hes, app_nil_r. Qed.

Lemma hoare_gathers {A} (m : ctl A) told :
  gathers m -> hoare (calls told) m (fun _ => calls told) (fun _ => calls told).
Proof.
  intros Hm w Hw. destruct (m w) as [r w'] eqn:E1. destruct (Hm _ _ _ E1) as [Hf (es & Hes & Hk)].
  destruct r; [|by eapply calls_more|done]. by eapply calls_more.
Qed.

Lemma gathers_ret {A} (a : A) : gathers (sret a).
Proof. intros w r w' [= <- <-]. split; [done|]. exists []. by rewrite app_nil_r. Qed.
Lemma gathers_fail {A} e : gathers (A := A) (sfail e).
Proof. intros w r w' [= <- <-]. split; [done|]. exists []. by rewrite app_nil_r. Qed.
Lemma gathers_lift {A} (r : res A (ControllerError.t LError)) : r <> OutOfFuel -> gathers (slift r).
Proof. intros Hr w r' w' [= <- <-]. split; [done|]. exists []. by rewrite app_nil_r. Qed.

Lemma gathers_bind {A B} (m : ctl A) (k : A -> ctl B) :
  gathers m -> (forall a, gathers (k a)) -> gathers (sbind m k).
Proof.
  intros Hm Hk w r w'. unfold sbind. destruct (m w) as [r1 w1] eqn:E1.
  destruct (Hm _ _ _ E1) as [Hf (es & Hes & Hd)]. destruct r1 as [a|e|]; [|intros [= <- <-]; eauto|done].
  intros E2. destruct (Hk a _ _ _ E2) as [Hf' (es' & Hes' & Hd')]. split; [done|].
  exists (es ++ es'). split; [by rewrite Hes', Hes, <- app_assoc|]. by rewrite List.filter_app, Hd, Hd'.
Qed.

Lemma gathers_emit e : telling e = false -> gathers (emit e).
Proof. intros He w r w' [= <- <-]. split; [done|]. exists [e]. cbn. by rewrite He. Qed.

Lemma gathers_ledger {A} f (m : sres LWorld A LError) : (forall w, (m w).1 <> OutOfFuel) -> gathers (ledger_call f m).
Proof.
  intros Hm w r w'. unfold ledger_call. specialize (Hm (w_ledger w)). destruct (m (w_ledger w)) as [[a|e|] l];
    [| |done]; intros [= <- <-]; (split; [done|]); exists []; by rewrite app_nil_r.
Qed.

Lemma gathers_env {A E} f (m : sres EWorld A E) : (forall w, (m w).1 <> OutOfFuel) -> gathers (env_call f m).
Proof.
  intros Hm w r w'. unfold env_call. specialize (Hm (w_env w)). destruct (m (w_env w)) as [[a|e|] l];
    [| |done]; intros [= <- <-]; (split; [done|]); exists []; by rewrite app_nil_r.
Qed.

Lemma gathers_clock : gathers clock_call.
Proof.
  intros w r w'. unfold clock_call. destruct (now_unix_millis (w_env w)) as [n e]. intros [= <- <-].
  split; [done|]. exists []. by rewrite app_nil_r.
Qed.

(** ** Facts *)

Lemma gathers_renew_lease d lease : gathers (renew_lease d lease).
Proof.
  unfold renew_lease. apply gathers_bind; [apply gathers_ledger, renew_returns|]. intros renewal.
  apply gathers_bind; [by apply gathers_emit|]. intros _. destruct renewal; [|apply gathers_fail].
  destruct (_ || _); [apply gathers_fail|apply gathers_ret].
Qed.

(** Leases of one claim. *)
Definition same_claim (a b : DeliveryLease) : Prop :=
  l_evaluation_id b = l_evaluation_id a /\ l_check b = l_check a /\ l_fence b = l_fence a.

Lemma same_claim_trans a b c : same_claim a b -> same_claim b c -> same_claim a c.
Proof. intros (? & ? & ?) (? & ? & ?). split_and!; congruence. Qed.

(** A renewed lease is the same claim. *)
Lemma renew_lease_Ok d lease w lease' w' :
  renew_lease d lease w = (Ok lease', w') -> same_claim lease lease'.
Proof.
  unfold renew_lease. intros (renewal & w1 & _ & (u & w2 & _ & He)%sbind_Ok)%sbind_Ok.
  destruct renewal as [renewed|]; [|done].
  destruct (negb _ || _ || _ || _) eqn:Eb; [done|]. injection He as -> ->. bool_prop.
  apply bytes_eqb_eq in H. apply bool_decide_eq_true in H2. done.
Qed.

Lemma gathers_renewal_attempt d lease : gathers (renewal_attempt d lease).
Proof.
  unfold renewal_attempt. apply gathers_bind; [apply gathers_renew_lease|]. intros l.
  apply gathers_bind; [apply gathers_bind; [apply gathers_clock|intros; apply gathers_ret]|].
  intros [m|]; [apply gathers_ret|apply gathers_fail].
Qed.

Lemma gathers_heartbeat d hb : gathers (heartbeat_renew d hb).
Proof.
  unfold heartbeat_renew. destruct (hb_failure hb); [apply gathers_ret|]. intros w r w'.
  destruct (renewal_attempt d (hb_lease hb) w) as [r1 w1] eqn:E1.
  destruct (gathers_renewal_attempt _ _ _ _ _ E1) as [Hf He].
  destruct r1 as [[l m]|e|]; [| |done]; intros [= <- <-]; done.
Qed.

Lemma gathers_drive d program hb : gathers (drive d program hb).
Proof.
  revert hb. induction program as [outcome|next IH|work next IH]; intros hb; cbn [drive].
  - apply gathers_ret.
  - apply gathers_bind; [apply gathers_heartbeat|]. intros [outcome hb']. apply IH.
  - intros w r w' He. apply IH in He. done.
Qed.

Lemma drive_lease d program hb w outcome hb' w' :
  drive d program hb w = (Ok (outcome, hb'), w') -> same_claim (hb_lease hb) (hb_lease hb').
Proof.
  revert hb w. induction program as [o|next IH|work next IH]; intros hb w; cbn [drive].
  - by intros [= <- <- <-].
  - intros ([o1 hb1] & w1 & Hb & Hd)%sbind_Ok. apply IH in Hd.
    assert (same_claim (hb_lease hb) (hb_lease hb1)) as Hs.
    { revert Hb. unfold heartbeat_renew. destruct (hb_failure hb); [by intros [= _ <- _]|].
      destruct (renewal_attempt d (hb_lease hb) w) as [[[l m]|e|] w2] eqn:E1; [|by intros [= _ <- _]|done].
      intros [= _ <- _]. unfold renewal_attempt in E1. apply sbind_Ok in E1 as (l1 & w3 & Hl & E2).
      apply sbind_Ok in E2 as (o2 & w4 & _ & E3). destruct o2 as [o2|]; [|done]. injection E3 as <- _ _.
      by apply renew_lease_Ok in Hl. }
    by eapply same_claim_trans.
  - apply IH.
Qed.

Lemma hoare_gathers_Ok {A} (m : ctl A) (Q : A -> Prop) told :
  gathers m -> (forall w a w', m w = (Ok a, w') -> Q a) ->
  hoare (calls told) m (fun a w => Q a /\ calls told w) (fun _ => calls told).
Proof.
  intros Hg Hq w Hw. pose proof (hoare_gathers m told Hg w Hw) as Hh.
  destruct (m w) as [[a|e|] w'] eqn:E1; [|done|done]. eauto.
Qed.

(** A telling call. *)
Lemma hoare_emit e told X :
  telling e = true -> hoare (calls told) (emit e) (fun _ => calls (told ++ [e])) X.
Proof. unfold calls. intros He w Hw. cbn. rewrite List.filter_app, Hw. cbn. by rewrite He. Qed.

(** Any other call. *)
Lemma hoare_emit_aside e told X :
  telling e = false -> hoare (calls told) (emit e) (fun _ => calls told) X.
Proof. unfold calls. intros He w Hw. cbn. rewrite List.filter_app, Hw. cbn. by rewrite He, app_nil_r. Qed.

Lemma hoare_supervise d request lease told :
  hoare (calls told) (supervise d request lease)
    (fun ol w => same_claim lease ol.2 /\ calls (told ++ [Event.Ran (rq_run request) ol.1]) w)
    (fun _ => calls told).
Proof.
  unfold supervise.
  apply hoare_bind with (R := fun oh w => same_claim lease (hb_lease oh.2) /\ calls told w).
  { apply hoare_gathers_Ok; [apply gathers_drive|]. intros w [o hb] w' H%drive_lease. done. }
  intros [o hb]. apply hoare_pure. intros Hs. destruct (hb_failure hb); [by apply hoare_fail|].
  eapply hoare_bind; [by apply hoare_emit|]. intros u. by apply hoare_ret.
Qed.

Lemma validate_run_fuel delivery r : validate_run delivery r <> OutOfFuel.
Proof. unfold validate_run. by repeat case_match. Qed.

Lemma validate_gate_commit_fuel r c : validate_gate_commit r c <> OutOfFuel.
Proof. unfold validate_gate_commit, ok_or. by repeat case_match. Qed.

Lemma validate_change_fuel delivery s : validate_change delivery s <> OutOfFuel.
Proof.
  unfold validate_change. destruct (validate_run delivery (cs_run s)) eqn:E1; [|done|].
  - apply validate_gate_commit_fuel.
  - by destruct (validate_run_fuel _ _ E1).
Qed.

Lemma validate_staged_fuel delivery check sp : validate_staged delivery check sp <> OutOfFuel.
Proof.
  unfold validate_staged. destruct (validate_run delivery (p_run (stg_publication sp))) eqn:E1;
    [| |by destruct (validate_run_fuel _ _ E1)]; repeat case_match; try done; apply validate_gate_commit_fuel.
Qed.

Lemma validate_staged_lease_fuel l sp : validate_staged_lease l sp <> OutOfFuel.
Proof. unfold validate_staged_lease. by case_match. Qed.

(** A reading of the change that the controller accepts. *)
Lemma hoare_refresh_change adapter delivery told :
  hoare (calls told) (refresh_change adapter delivery)
    (fun s w => validate_change delivery s = Ok tt /\ calls (told ++ [Event.Refreshed s]) w)
    (fun _ => decisions (List.filter decisive told)).
Proof.
  unfold refresh_change.
  eapply hoare_bind.
  { eapply hoare_conseq; [apply hoare_gathers, gathers_env, refresh_returns|done|done|].
    cbv beta. intros _ w. apply calls_decisions. }
  cbv beta. intros s. eapply hoare_bind; [by apply hoare_emit|]. cbv beta. intros _.
  apply hoare_bind with (R := fun _ w => validate_change delivery s = Ok tt /\ calls (told ++ [Event.Refreshed s]) w).
  - apply hoare_lift; [apply validate_change_fuel|by intros [] w|]. intros e w _ H%calls_decisions.
    by rewrite List.filter_app, app_nil_r in H.
  - intros _. by apply hoare_ret.
Qed.

(** ** Retention *)

Lemma gathers_prepare_external adapter report : gathers (prepare_external adapter report).
Proof.
  unfold prepare_external. destruct (parse_engine report) as [engine|]; [|apply gathers_ret].
  destruct (external_plan report engine) as [plan_bytes|]; [|apply gathers_ret].
  apply gathers_bind; [apply gathers_clock|]. intros [now|]; [|apply gathers_ret].
  intros w r w'. pose proof (verify_external_returns adapter plan_bytes (i64_to_string now) (w_env w)) as Hv.
  destruct (verify_external _ _ _ (w_env w)) as [[[evidence|]|e|] e']; [| | |done];
    intros [= <- <-]; (split; [done|]); exists []; by rewrite app_nil_r.
Qed.

(** What retention leaves: the publication, with the artifact that the external
    policy has looked at. *)
Definition retained (policy : ExternalPolicy.t) (p p' : Publication) : Prop :=
  exists a, p' = set_artifact (set_conclusion p (external_conclusion policy a (p_conclusion p))) (Some a).

Lemma gathers_retain_publication adapter policy p semantic : gathers (retain_publication adapter policy p semantic).
Proof.
  unfold retain_publication. destruct (p_report p) as [report|]; [|apply gathers_fail].
  apply gathers_bind; [apply gathers_env, find_returns|]. intros found.
  apply gathers_bind.
  - destruct found as [reference|].
    + case_match; [apply gathers_fail|]. apply gathers_bind; [apply gathers_env, verify_returns|]. intros; apply gathers_ret.
    + apply gathers_bind; [|intros; apply gathers_env, retain_returns].
      case_bool_decide; [apply gathers_ret|apply gathers_prepare_external].
  - intros a. apply gathers_bind; [by apply gathers_emit|]. intros; apply gathers_ret.
Qed.

Lemma hoare_retain_publication adapter policy p semantic told :
  hoare (calls told) (retain_publication adapter policy p semantic)
    (fun p' w => retained policy p p' /\ calls told w) (fun _ => calls told).
Proof.
  apply hoare_gathers_Ok; [apply gathers_retain_publication|]. intros w p' w'. unfold retain_publication.
  destruct (p_report p); [|done].
  intros (found & w1 & _ & (a & w2 & _ & (u & w3 & _ & He)%sbind_Ok)%sbind_Ok)%sbind_Ok.
  injection He as <- _. by exists a.
Qed.

Lemma hoare_renew_same d lease0 lease told :
  same_claim lease0 lease ->
  hoare (calls told) (renew_lease d lease)
    (fun lease' w => same_claim lease0 lease' /\ calls told w) (fun _ => calls told).
Proof.
  intros Hs. apply hoare_gathers_Ok; [apply gathers_renew_lease|]. intros w l' w' H%renew_lease_Ok.
  by eapply same_claim_trans.
Qed.

Lemma hoare_retain_report self adapter accepted plan prepared lease0 lease told :
  same_claim lease0 lease ->
  hoare (calls told) (retain_report self adapter accepted plan prepared lease)
    (fun pl w => (same_claim lease0 pl.2 /\
                  (pl.1 = pp_publication prepared \/
                   retained (external_policy plan) (pp_publication prepared) pl.1)) /\ calls told w)
    (fun _ => calls told).
Proof.
  intros Hs. unfold retain_report. destruct (is_some _ && ct_artifacts self); [|apply hoare_ret; by auto].
  eapply hoare_bind; [by apply (hoare_renew_same accepted lease0 lease)|]. cbv beta. intros l1. apply hoare_pure. intros Hs1.
  eapply hoare_bind; [apply hoare_retain_publication|]. cbv beta. intros p'. apply hoare_pure. intros Hp.
  eapply hoare_bind; [by apply (hoare_renew_same accepted lease0 l1)|]. cbv beta. intros l2. apply hoare_pure. intros Hs2.
  apply hoare_ret. auto.
Qed.

(** ** Publishing *)

(** The calls that publish a staged result. *)
Definition publishing (staged : StagedPublication) : list Event.t :=
  [Event.Publishing (stg_publication staged); Event.Published (stg_publication staged); Event.Completed staged].

(** Calls that stop on the way through [script]. *)
Definition part_of (told script : list Event.t) (w : World) : Prop :=
  exists done_, done_ `prefix_of` script /\ calls (told ++ done_) w.

Lemma part_of_none told script w : calls told w -> part_of told script w.
Proof. intros Hw. exists []. split; [apply prefix_nil|]. by rewrite app_nil_r. Qed.

Lemma part_of_cons told e script w : part_of (told ++ [e]) script w -> part_of told (e :: script) w.
Proof.
  intros (l & Hl & Hw). exists (e :: l). split; [by apply prefix_cons|]. by rewrite <- app_assoc in Hw.
Qed.

Lemma gathers_check_artifact self p :
  gathers (match p_artifact p with
    | Some reference =>
        if negb (reference_matches_report reference (p_report p)) then sfail (ControllerError.Artifact ArtifactError.Conflict)
        else if negb (ct_artifacts self) then sfail (ControllerError.Artifact ArtifactError.NotFound)
        else env_call ControllerError.Artifact (verify reference)
    | None =>
        if ct_artifacts self && is_some (p_report p) then sfail (ControllerError.Artifact ArtifactError.NotFound)
        else sret tt
    end).
Proof.
  repeat case_match; try apply gathers_fail; try apply gathers_ret. apply gathers_env, verify_returns.
Qed.

Lemma hoare_publish_staged self adapter d staged told :
  hoare (calls told) (publish_staged self adapter d staged)
    (fun o w => o = HandleOutcome.Published (p_conclusion (stg_publication staged)) (p_artifact (stg_publication staged)) /\
       calls (told ++ publishing staged) w)
    (fun _ => part_of told (take 2 (publishing staged))).
Proof.
  set (p := stg_publication staged). unfold publish_staged. fold p.
  eapply hoare_bind.
  { eapply hoare_conseq; [apply hoare_gathers, gathers_check_artifact|done|done|]. cbv beta. intros _ w. apply part_of_none. }
  cbv beta. intros _. eapply hoare_bind; [by apply hoare_emit|]. cbv beta. intros _.
  eapply hoare_bind.
  { eapply hoare_conseq; [apply hoare_gathers, gathers_env, publish_returns|done|done|]. cbv beta. intros _ w Hw.
    by apply part_of_cons, part_of_none. }
  cbv beta. intros _. eapply hoare_bind; [by apply hoare_emit|]. cbv beta. intros _.
  eapply hoare_bind.
  { eapply hoare_conseq; [apply hoare_gathers, gathers_ledger, complete_returns|done|done|]. cbv beta. intros _ w Hw.
    by apply part_of_cons, part_of_cons, part_of_none. }
  cbv beta. intros [|].
  2: { apply hoare_fail. intros w Hw. by apply part_of_cons, part_of_cons, part_of_none. }
  eapply hoare_bind; [by apply hoare_emit|]. cbv beta. intros _.
  rewrite <- !app_assoc. cbn [app].
  apply hoare_bind with (R := fun _ => calls (told ++ publishing staged)).
  - unfold observe_external. repeat case_match; first [by apply hoare_ret|by apply hoare_emit_aside].
  - intros _. by apply hoare_ret.
Qed.

(** ** Running *)

(** The runner's answer, if it was asked. *)
Definition answer (initial : ChangeSnapshot) (outcome : option RunnerOutcome.t) : list Event.t :=
  match outcome with Some o => [Event.Ran (cs_run initial) o] | None => [] end.

(** What a run under a lease publishes rests on these calls, in this order: a
    reading of the change, the runner's answer for exactly the run it names, when
    the change is active, and another reading. *)
Definition grounded (delivery : AuthenticatedDelivery) (policy : ExternalPolicy.t) (p : Publication)
    (facts : list Event.t) : Prop :=
  exists initial outcome fresh_,
    facts = Event.Refreshed initial :: answer initial outcome ++ [Event.Refreshed fresh_] /\
    (outcome = None <-> cs_state initial <> ChangeState.Active) /\
    validate_change delivery initial = Ok tt /\ validate_change delivery fresh_ = Ok tt /\
    p_provider_run p = ad_provider_run delivery /\ p_run p = cs_run initial /\ p_gate_commit p = cs_gate_commit initial /\
    (p_conclusion p = CheckConclusion.Pass ->
     unchanged initial fresh_ /\
     (exists report semantic,
        outcome = Some (RunnerOutcome.Complete (cs_run initial) Evaluation.Pass report semantic) /\
        p_report p = Some report /\ report <> [] /\ len report <= MACHINE_JSON_BYTES) /\
     (forall a tally, p_artifact p = Some a -> policy = ExternalPolicy.BlockConfirmedRefutations ->
        ar_external_tally a = Some tally -> et_refuted tally <= 0)).

Lemma external_conclusion_Pass policy a c :
  external_conclusion policy a c = CheckConclusion.Pass ->
  c = CheckConclusion.Pass /\
  (forall tally, policy = ExternalPolicy.BlockConfirmedRefutations -> ar_external_tally a = Some tally -> et_refuted tally <= 0).
Proof.
  unfold external_conclusion. destruct (bool_decide _ && _) eqn:E1; [done|]. intros ->. split; [done|].
  intros tally -> Ht. rewrite Ht, bool_decide_true in E1 by done. cbn in E1. by apply Z.ltb_ge in E1.
Qed.

Lemma hoare_run_active accepted request initial lease0 lease told :
  same_claim lease0 lease -> rq_run request = cs_run initial ->
  hoare (calls told) (run_active accepted request initial lease)
    (fun ol w => (same_claim lease0 ol.2 /\ (ol.1 = None <-> cs_state initial <> ChangeState.Active)) /\
       calls (told ++ answer initial ol.1) w)
    (fun _ => calls told).
Proof.
  intros Hs Hrq. unfold run_active.
  destruct (cs_state initial) eqn:E1; [|apply hoare_ret; intros w Hw; cbn; by rewrite app_nil_r..].
  eapply hoare_bind; [apply hoare_supervise|]. cbv beta. intros [o l]. apply hoare_pure. intros Hl.
  apply hoare_ret. intros w Hw. cbn in *. rewrite <- Hrq. split; [|done]. split; [by eapply same_claim_trans|].
  split; [done|by intros []].
Qed.

(** The publication a run prepares and finalises is grounded. *)
Lemma grounded_finalized {Plan'} delivery policy (request : RunRequest Plan') initial fresh_ outcome p :
  rq_provider_run request = ad_provider_run delivery -> rq_run request = cs_run initial ->
  validate_change delivery initial = Ok tt -> validate_change delivery fresh_ = Ok tt ->
  (outcome = None <-> cs_state initial <> ChangeState.Active) ->
  p = pp_publication (publication request initial outcome) \/
  retained policy (pp_publication (publication request initial outcome)) p ->
  grounded delivery policy (finalize_publication initial fresh_ p)
    (Event.Refreshed initial :: answer initial outcome ++ [Event.Refreshed fresh_]).
Proof.
  intros Hpr Hrq Hvi Hvf Hact Hp. exists initial, outcome, fresh_. split; [done|]. split; [done|].
  pose proof (finalize_kept initial fresh_ p) as (-> & -> & _ & _ & -> & -> & ->).
  unfold publication in Hp. destruct (runner_conclusion (cs_run initial) outcome) as [c report] eqn:Erc. cbn in Hp.
  assert (p_provider_run p = ad_provider_run delivery /\ p_run p = cs_run initial /\
          p_gate_commit p = cs_gate_commit initial /\ p_report p = report) as (-> & -> & -> & ->).
  { destruct Hp as [->|[a ->]]; by rewrite <- ?Hpr. }
  split_and!; try done. intros [Hu Hc]%finalize_conclusion; [|by left].
  assert (c = CheckConclusion.Pass /\ forall a tally, p_artifact p = Some a ->
            policy = ExternalPolicy.BlockConfirmedRefutations -> ar_external_tally a = Some tally ->
            et_refuted tally <= 0) as [-> Ht].
  { destruct Hp as [->|[a ->]]; cbn in *; [done|]. apply external_conclusion_Pass in Hc as [-> Ht].
    split; [done|]. intros a' tally [= <-]. apply Ht. }
  split_and!; [done| |done].
  destruct report as [report|]; [|by destruct (runner_conclusion_none _ _ _ Erc)].
  apply runner_conclusion_report in Erc as ([] & ((semantic & ->) & Hne & Hlen) & Hcc); [|done].
  by exists report, semantic.
Qed.

(** A staged result carries the claim it was staged under. *)
Definition staged_under (lease : DeliveryLease) (staged : StagedPublication) : Prop :=
  stg_evaluation_id staged = l_evaluation_id lease /\ stg_fence staged = l_fence lease /\
  p_check (stg_publication staged) = l_check lease.

Lemma hoare_stage_publication d lease p told :
  hoare (calls told) (stage_publication d lease p)
    (fun staged w => (staged_under lease staged /\ stg_publication staged = p) /\
       calls (told ++ [Event.Staged staged]) w)
    (fun _ => calls told).
Proof.
  unfold stage_publication.
  eapply hoare_bind; [apply hoare_gathers, gathers_ledger, stage_returns|]. cbv beta. intros [staged|];
    [|by apply hoare_fail]. case_bool_decide as Hp; [|by apply hoare_fail].
  apply hoare_bind with (R := fun s w => (s = staged /\ staged_under lease staged) /\ calls told w).
  - apply hoare_lift; [apply validate_staged_lease_fuel| |done]. intros s w. unfold validate_staged_lease.
    destruct (negb _ || _ || _) eqn:Eb; [done|]. intros [= <-] Hw. bool_prop.
    apply bytes_eqb_eq in H. apply bool_decide_eq_true in H0. done.
  - intros s. apply hoare_pure. intros [-> Hs].
    eapply hoare_bind; [by apply hoare_emit|]. cbv beta. intros _. by apply hoare_ret.
Qed.

(** The telling calls of a delivery that is claimed and not refused. *)
Inductive tale (accepted : AcceptedDelivery) (plan : Plan) (check : CheckBinding) : list Event.t -> Prop :=
  | tale_again staged :
      validate_staged (acc_delivery accepted) check staged = Ok tt ->
      tale accepted plan check (Event.Claimed (DeliveryClaim.Publish staged) :: publishing staged)
  | tale_run lease facts staged :
      l_check lease = check -> staged_under lease staged ->
      grounded (acc_delivery accepted) (external_policy plan) (stg_publication staged) facts ->
      tale accepted plan check
        (Event.Claimed (DeliveryClaim.Execute lease) :: facts ++ Event.Staged staged :: publishing staged).

(** Under a lease: nothing is staged, or a grounded result is, and then published. *)
Lemma hoare_execute self adapter accepted plan check lease :
  let claimed := Event.Claimed (DeliveryClaim.Execute lease) in
  hoare (calls [claimed]) (execute self adapter accepted plan check lease)
    (fun o w => exists facts staged,
       (staged_under lease staged /\
        grounded (acc_delivery accepted) (external_policy plan) (stg_publication staged) facts) /\
       o = HandleOutcome.Published (p_conclusion (stg_publication staged)) (p_artifact (stg_publication staged)) /\
       calls (claimed :: facts ++ Event.Staged staged :: publishing staged) w)
    (fun _ w => decisions [claimed] w \/
       exists facts staged,
         (staged_under lease staged /\
          grounded (acc_delivery accepted) (external_policy plan) (stg_publication staged) facts) /\
         part_of (claimed :: facts ++ [Event.Staged staged]) (take 2 (publishing staged)) w).
Proof.
  intros claimed. set (X := fun (_ : ControllerError.t LError) w => decisions [claimed] w \/ _).
  assert (forall told, List.filter decisive told = [claimed] -> forall e w, calls told w -> X e w) as Hearly.
  { intros told Ht e w Hw%calls_decisions. left. by rewrite <- Ht. }
  assert (same_claim lease lease) as Hl0 by done.
  unfold execute.
  eapply hoare_bind. { eapply hoare_conseq; [apply hoare_refresh_change|done..|]. cbv beta. intros e w Hw. by left. }
  cbv beta. intros initial. apply hoare_pure. intros Hvi.
  eapply hoare_bind. { eapply hoare_conseq; [by apply (hoare_renew_same accepted lease)|done..|]. cbv beta. by apply Hearly. }
  cbv beta. intros l1. apply hoare_pure. intros Hl1. set (request := mkRunRequest _ _ _ _ _ _).
  eapply hoare_bind. { eapply hoare_conseq; [by apply (hoare_run_active accepted request initial lease)|done..|]. cbv beta. by apply Hearly. }
  cbv beta. intros [outcome l2]. apply hoare_pure. intros [Hl2 Hact]. cbn [fst snd] in *.
  set (told := _ ++ answer initial outcome).
  assert (List.filter decisive told = [claimed]) as Htold by (subst told; by destruct outcome).
  eapply hoare_bind. { eapply hoare_conseq; [by apply (hoare_renew_same accepted lease)|done..|]. cbv beta. by apply Hearly. }
  cbv beta. intros l3. apply hoare_pure. intros Hl3.
  eapply hoare_bind. { eapply hoare_conseq; [by apply (hoare_retain_report _ _ _ _ _ lease)|done..|]. cbv beta. by apply Hearly. }
  cbv beta. intros [p l4]. apply hoare_pure. intros [Hl4 Hp]. cbn [fst snd] in *.
  eapply hoare_bind.
  { eapply hoare_conseq; [apply hoare_refresh_change|done..|]. cbv beta. intros e w Hw. left. by rewrite <- Htold. }
  cbv beta. intros fresh_. apply hoare_pure. intros Hvf.
  assert (List.filter decisive (told ++ [Event.Refreshed fresh_]) = [claimed]) as Htold'
    by (by rewrite List.filter_app, Htold).
  eapply hoare_bind. { eapply hoare_conseq; [by apply (hoare_renew_same accepted lease)|done..|]. cbv beta. by apply Hearly. }
  cbv beta. intros l5. apply hoare_pure. intros Hl5.
  eapply hoare_bind. { eapply hoare_conseq; [apply hoare_stage_publication|done..|]. cbv beta. by apply Hearly. }
  cbv beta. intros staged. apply hoare_pure. intros [Hs Hsp].
  set (facts := Event.Refreshed initial :: answer initial outcome ++ [Event.Refreshed fresh_]).
  assert (staged_under lease staged /\
    grounded (acc_delivery accepted) (external_policy plan) (stg_publication staged) facts) as Ht.
  { split.
    - destruct Hs as (? & ? & ?), Hl5 as (? & ? & ?). unfold staged_under. split_and!; congruence.
    - rewrite Hsp. by apply (grounded_finalized _ _ request). }
  assert ((told ++ [Event.Refreshed fresh_]) ++ [Event.Staged staged] = claimed :: facts ++ [Event.Staged staged]) as ->
    by (subst told facts; cbn; by rewrite <- !app_assoc).
  eapply hoare_conseq; [apply hoare_publish_staged|done| |].
  - cbv beta. intros o w [-> Hw]. exists facts, staged. split; [done|]. split; [done|].
    cbn [app] in Hw. by rewrite <- app_assoc in Hw.
  - cbv beta. intros e w Hw. right. by exists facts, staged.
Qed.

(** ** The whole flow *)

Lemma check_window_fuel value reference maximum_age skew : check_window value reference maximum_age skew <> OutOfFuel.
Proof. unfold check_window. no_fuel. Qed.
#[local] Hint Resolve check_window_fuel : fuel.

Lemma pre_auth_fuel policy delivery clock : pre_auth policy delivery clock <> OutOfFuel.
Proof. unfold pre_auth. no_fuel. Qed.

Lemma check_signed_time_fuel policy check issued_at : check_signed_time policy check issued_at <> OutOfFuel.
Proof. unfold check_signed_time. no_fuel. Qed.

Lemma normalize_delivery_fuel verified body issued_at window : normalize_delivery verified body issued_at window <> OutOfFuel.
Proof. unfold normalize_delivery. no_fuel. Qed.
#[local] Hint Resolve check_signed_time_fuel normalize_delivery_fuel : fuel.

Lemma post_auth_fuel policy check verified : post_auth policy check verified <> OutOfFuel.
Proof. unfold post_auth. no_fuel. Qed.

Lemma resolve_plan_fuel registry delivery : resolve_plan registry delivery <> OutOfFuel.
Proof. unfold resolve_plan. no_fuel. Qed.
#[local] Hint Resolve pre_auth_fuel post_auth_fuel resolve_plan_fuel : fuel.

Lemma gathers_admit_delivery self input : gathers (admit_delivery self input).
Proof.
  unfold admit_delivery. repeat first [apply gathers_clock | apply gathers_ret
    | apply gathers_env, authenticate_returns | apply gathers_bind; [|intros ?] | apply gathers_lift; no_fuel
    | case_match ].
Qed.

(** The lives of a delivery, as far as its decisive calls go. *)
Inductive life (accepted : AcceptedDelivery) (check : CheckBinding) : list Event.t -> Prop :=
  | life_refused claim : life accepted check [Event.Claimed claim]
  | life_again staged :
      validate_staged (acc_delivery accepted) check staged = Ok tt ->
      life accepted check (Event.Claimed (DeliveryClaim.Publish staged) :: publishing staged)
  | life_run lease staged :
      l_check lease = check -> staged_under lease staged ->
      life accepted check (Event.Claimed (DeliveryClaim.Execute lease) :: Event.Staged staged :: publishing staged).

Lemma gathers_find self evaluation_id :
  gathers (if ct_artifacts self then env_call ControllerError.Artifact (find evaluation_id) else sret None).
Proof. case_match; [apply gathers_env, find_returns|apply gathers_ret]. Qed.

(** What a resolved claim allows. *)
Definition resolved (accepted : AcceptedDelivery) (check : CheckBinding) (claim : DeliveryClaim.t)
    (resolution : ClaimResolution.t) : Prop :=
  match resolution with
  | ClaimResolution.Execute lease => claim = DeliveryClaim.Execute lease /\ l_check lease = check
  | ClaimResolution.Publish staged =>
      claim = DeliveryClaim.Publish staged /\ validate_staged (acc_delivery accepted) check staged = Ok tt
  | ClaimResolution.Return_ outcome =>
      match claim with DeliveryClaim.Busy _ _ | DeliveryClaim.Duplicate _ => True | _ => False end /\
      match outcome with HandleOutcome.Published _ _ => False | _ => True end
  end.

Lemma hoare_resolve_claim self accepted check claim told :
  hoare (calls told) (resolve_claim self accepted check claim)
    (fun resolution w => resolved accepted check claim resolution /\ calls told w)
    (fun _ => calls told).
Proof.
  apply hoare_gathers_Ok.
  - destruct claim; cbn [resolve_claim].
    + case_bool_decide; [apply gathers_ret|apply gathers_fail].
    + apply gathers_bind; [apply gathers_lift, validate_staged_fuel|intros; apply gathers_ret].
    + apply gathers_ret.
    + apply gathers_bind; [apply gathers_find|intros; apply gathers_ret].
    + apply gathers_fail.
  - intros w resolution w'. destruct claim; cbn [resolve_claim].
    + case_bool_decide; [|done]. by intros [= <- _].
    + intros ([] & w1 & Hv & He)%sbind_Ok. injection He as <- _. split; [done|]. by injection Hv.
    + by intros [= <- _].
    + intros (a & w1 & _ & He)%sbind_Ok. by injection He as <- _.
    + done.
Qed.

(** The rest of [handle], from the claim on. *)
Definition claim_and_run (self : Controller) (adapter : Adapter) (accepted : AcceptedDelivery) (plan : Plan)
    (check : CheckBinding) : ctl HandleOutcome.t :=
  let! claim := ledger_call ControllerError.Ledger (l_claim accepted check) in
  let! _ := emit (Event.Claimed claim) in
  let! resolution := resolve_claim self accepted check claim in
  match resolution with
  | ClaimResolution.Execute lease => execute self adapter accepted plan check lease
  | ClaimResolution.Publish staged => publish_staged self adapter accepted staged
  | ClaimResolution.Return_ outcome => sret outcome
  end.

(** The decisive calls made are the start of a life, and unless only the claim was
    made, the telling ones are the start of a tale. *)
Definition traced (accepted : AcceptedDelivery) (plan : Plan) (check : CheckBinding) (whole decided : list Event.t)
    (w : World) : Prop :=
  life accepted check whole /\ decided `prefix_of` whole /\ decisions decided w /\
  ((exists claim, decided = [Event.Claimed claim]) \/
   exists t, tale accepted plan check t /\ List.filter telling (w_calls w) `prefix_of` t).

(** A life that ended, with the result the controller reports. *)
Definition ended (whole : list Event.t) (o : HandleOutcome.t) : Prop :=
  match o with
  | HandleOutcome.Published c a =>
      exists staged, Event.Completed staged ∈ whole /\ c = p_conclusion (stg_publication staged) /\
        a = p_artifact (stg_publication staged)
  | _ => exists claim, whole = [Event.Claimed claim]
  end.

Definition uncompleted (decided : list Event.t) : Prop := forall staged, Event.Completed staged ∉ decided.

(** The decisive calls stopped before the completion. *)
Definition stopped (accepted : AcceptedDelivery) (plan : Plan) (check : CheckBinding) (w : World) : Prop :=
  decisions [] w \/ exists whole decided, traced accepted plan check whole decided w /\ uncompleted decided.

Lemma tale_life accepted plan check t : tale accepted plan check t -> life accepted check (List.filter decisive t).
Proof.
  destruct 1 as [staged Hv|lease facts staged Hc Hs (i & o & f & -> & _)]; [by apply (life_again _ _ staged)|].
  assert (List.filter decisive (answer i o) = []) as Ho by (by destruct o).
  cbn. rewrite !List.filter_app, Ho. by apply (life_run _ _ lease staged).
Qed.

Lemma filter_prefix {A} (q : A -> bool) l l' : l `prefix_of` l' -> List.filter q l `prefix_of` List.filter q l'.
Proof. intros [k ->]. rewrite List.filter_app. by exists (List.filter q k). Qed.

(** A told part of a tale is a trace. *)
Lemma tale_traced accepted plan check t told w :
  tale accepted plan check t -> calls told w -> told `prefix_of` t ->
  traced accepted plan check (List.filter decisive t) (List.filter decisive told) w.
Proof.
  intros Ht Hw Hp. split_and!; [by eapply tale_life|by apply filter_prefix|by apply calls_decisions|].
  right. exists t. split; [done|]. by rewrite Hw.
Qed.

(** A part of the publishing script, before its completion. *)
Lemma part_of_stopped accepted plan check told staged w :
  tale accepted plan check (told ++ publishing staged) -> uncompleted told ->
  part_of told (take 2 (publishing staged)) w -> stopped accepted plan check w.
Proof.
  intros Ht Hu (l & Hl & Hw). right.
  exists (List.filter decisive (told ++ publishing staged)), (List.filter decisive (told ++ l)). split.
  - eapply tale_traced; [done..|]. apply prefix_app. etrans; [done|]. by exists [Event.Completed staged].
  - intros s Hs. assert (Event.Completed s ∈ told ++ l) as [Hs'|Hs']%elem_of_app; [|by eapply Hu|].
    + apply list_elem_of_In in Hs. apply filter_In in Hs as [Hs _]. by apply list_elem_of_In.
    + destruct Hl as [k Hk]. assert (Event.Completed s ∈ take 2 (publishing staged)) as Hin by (rewrite Hk; set_solver).
      cbn in Hin. set_solver.
Qed.

Lemma claimed_traced accepted plan check claim w :
  decisions [Event.Claimed claim] w -> traced accepted plan check [Event.Claimed claim] [Event.Claimed claim] w.
Proof. intros Hd. split_and!; [apply life_refused|done|done|eauto]. Qed.

Lemma claimed_stopped accepted plan check claim w :
  decisions [Event.Claimed claim] w -> stopped accepted plan check w.
Proof. intros Hd. right. eexists _, _. split; [by apply claimed_traced|]. intros s. set_solver. Qed.

Lemma facts_uncompleted delivery policy p facts : grounded delivery policy p facts -> uncompleted facts.
Proof. intros (i & o & f & -> & _) s. destruct o; cbn; set_solver. Qed.

Lemma hoare_claim_and_run self adapter accepted plan check :
  hoare (calls []) (claim_and_run self adapter accepted plan check)
    (fun o w => exists whole, traced accepted plan check whole whole w /\ ended whole o)
    (fun _ => stopped accepted plan check).
Proof.
  unfold claim_and_run.
  eapply hoare_bind.
  { eapply hoare_conseq; [apply hoare_gathers, gathers_ledger, claim_returns|done..|]. cbv beta. intros _ w Hw.
    left. by apply calls_decisions in Hw. }
  cbv beta. intros claim. eapply hoare_bind; [by apply hoare_emit|]. cbv beta. intros _. cbn [app].
  apply hoare_bind with (R := fun r w => resolved accepted check claim r /\ calls [Event.Claimed claim] w).
  { eapply hoare_conseq; [apply hoare_resolve_claim|done..|]. cbv beta. intros _ w Hw%calls_decisions.
    by apply (claimed_stopped _ _ _ claim). }
  intros resolution. apply hoare_pure. intros Hr. destruct resolution as [lease|staged|o]; cbn in Hr.
  - destruct Hr as [-> Hc]. eapply hoare_conseq; [apply hoare_execute|done| |].
    + cbv beta. intros o w (facts & staged & [Hs Hg] & -> & Hw).
      pose proof (tale_run accepted plan check lease facts staged Hc Hs Hg) as Ht. eexists. split; [by eapply tale_traced|].
      exists staged. split; [|done]. apply list_elem_of_In, filter_In. split; [|done]. apply list_elem_of_In.
      unfold publishing. set_solver.
    + cbv beta. intros e w [Hw|(facts & staged & [Hs Hg] & Hp)]; [by eapply claimed_stopped|].
      eapply part_of_stopped; [| |exact Hp].
      * cbn [app]. rewrite <- app_assoc. by apply tale_run.
      * pose proof (facts_uncompleted _ _ _ _ Hg) as Hu. intros s. specialize (Hu s). set_solver.
  - destruct Hr as [-> Hv]. pose proof (tale_again accepted plan check staged Hv) as Ht.
    eapply hoare_conseq; [apply hoare_publish_staged|done| |].
    + cbv beta. intros o w [-> Hw]. eexists. split; [by eapply tale_traced|].
      exists staged. split; [|done]. unfold publishing. cbn. set_solver.
    + cbv beta. intros e w Hp. apply (part_of_stopped _ _ _ [_] staged _ Ht); [intros s; set_solver|exact Hp].
  - apply hoare_ret. intros w Hw%calls_decisions. exists [Event.Claimed claim].
    split; [by apply claimed_traced|]. destruct o; [by exists claim..|by destruct Hr].
Qed.

(** What any call of [handle] comes to. *)
Lemma handle_traced self input w r w' :
  w_calls w = [] -> handle self input w = (r, w') ->
  (List.filter decisive (w_calls w') = [] /\ exists e, r = Err e) \/
  exists adapter accepted plan check w1 whole decided,
    admit_delivery self input w = (Ok (adapter, accepted, plan, check), w1) /\
    traced accepted plan check whole decided w' /\
    match r with
    | Ok o => decided = whole /\ ended whole o
    | Err _ => uncompleted decided
    | OutOfFuel => False
    end.
Proof.
  intros Hw. assert (calls [] w) as H0 by (unfold calls; by rewrite Hw).
  change (handle self input) with
    (sbind (admit_delivery self input) (fun '(adapter, accepted, plan, check) => claim_and_run self adapter accepted plan check)).
  unfold sbind. pose proof (hoare_gathers _ [] (gathers_admit_delivery self input) w H0) as Ha.
  destruct (admit_delivery self input w) as [[[[[adapter accepted] plan] check]|e|] w1]; [| |done].
  - pose proof (hoare_claim_and_run self adapter accepted plan check w1 Ha) as Hh. intros He. rewrite He in Hh.
    destruct r as [o|e|]; [| |done].
    + destruct Hh as (whole & Ht & Ho). right. eauto 12.
    + destruct Hh as [Hd|(whole & decided & Ht & Hu)]; [left; eauto|right; eauto 12].
  - intros [= <- <-]. left. split; [by apply calls_decisions in Ha|eauto].
Qed.

Lemma elem_of_decisive e l : decisive e = true -> e ∈ List.filter decisive l <-> e ∈ l.
Proof. intros He. rewrite !list_elem_of_In, filter_In. naive_solver. Qed.

Lemma life_completed accepted check whole s s' :
  life accepted check whole -> Event.Completed s ∈ whole -> Event.Completed s' ∈ whole -> s = s'.
Proof. destruct 1; unfold publishing; set_solver. Qed.

(** C4: from any world and whatever the ledger, the adapters, the runner and the
    artifact store answer, [Controller::handle] returns; its decisive calls (claims,
    stagings, publications and completions) are the beginning of one of the lives
    a delivery has: a claim alone, a claim that hands back a staged result that is
    then published and completed, or a claim that leases the row, the staging of a
    result under exactly that lease, its publication and its completion, in this
    order and at most once each. It reports [Published] exactly when the completion
    was made, with the staged conclusion and artifact. *)
Theorem delivery_life self input w r w' :
  w_calls w = [] -> handle self input w = (r, w') ->
  r <> OutOfFuel /\
  (List.filter decisive (w_calls w') = [] \/
   exists accepted check whole, life accepted check whole /\ List.filter decisive (w_calls w') `prefix_of` whole) /\
  (forall c a, r = Ok (HandleOutcome.Published c a) <->
     exists staged, Event.Completed staged ∈ w_calls w' /\ c = p_conclusion (stg_publication staged) /\
       a = p_artifact (stg_publication staged)).
Proof.
  intros Hw He. destruct (handle_traced _ _ _ _ _ Hw He)
    as [(Hd & e & ->)|(ad & accepted & plan & check & w1 & whole & decided & _ & (Hl & Hp & Hd & _) & Hr)].
  - split_and!; [done|by left|]. intros c a. split; [done|]. intros (s & Hs & _).
    apply (elem_of_decisive (Event.Completed s)) in Hs; [|done]. rewrite Hd in Hs. set_solver.
  - split_and!; [by destruct r|right; rewrite Hd; eauto|]. intros c a.
    setoid_rewrite <- (elem_of_decisive (Event.Completed _) (w_calls w') eq_refl). rewrite Hd.
    destruct r as [o|e|]; [|split; [done|intros (s & Hs & _); by apply Hr in Hs]|done].
    destruct Hr as [-> Ho]. destruct o as [i t|i a'|c' a']; cbn in Ho.
    1-2: destruct Ho as [claim ->]; set_solver.
    destruct Ho as (s & Hs & -> & ->). split.
    + intros [= <- <-]. by exists s.
    + intros (s' & Hs' & -> & ->). by assert (s' = s) as -> by eauto using life_completed.
Qed.

Lemma elem_of_telling e l : telling e = true -> e ∈ List.filter telling l <-> e ∈ l.
Proof. intros He. rewrite !list_elem_of_In, filter_In. naive_solver. Qed.

(** A start of a list that has what the list has only from some point on reaches that point. *)
Lemma prefix_reaches {A} (l l1 l2 : list A) a b :
  l `prefix_of` l1 ++ a :: l2 -> b ∈ l -> b ∉ l1 -> exists l', l' `prefix_of` l2 /\ l = l1 ++ a :: l'.
Proof.
  revert l. induction l1 as [|x l1 IH]; intros l Hp Hb Hn; destruct l as [|y l]; try by apply not_elem_of_nil in Hb.
  - apply prefix_cons_inv_1 in Hp as Ha. apply prefix_cons_inv_2 in Hp. subst. by exists l.
  - apply prefix_cons_inv_1 in Hp as Ha. apply prefix_cons_inv_2 in Hp. subst.
    destruct (IH l Hp) as (l' & Hl' & ->); [set_solver|set_solver|]. by exists l'.
Qed.

Lemma facts_unpublished delivery policy q facts p : grounded delivery policy q facts -> Event.Publishing p ∉ facts.
Proof. intros (i & o & f & -> & _). destruct o; cbn; set_solver. Qed.

(** C3: what is sent to a provider is sent only at the end of one of two exact
    sequences of telling calls (claims, readings of the change, answers of the
    runner, stagings, publications and completions). Either the ledger handed the
    result back, valid for the authenticated delivery and the configured check, and
    it is sent next; or the ledger leased the row for the configured check, the
    change was read, the runner was asked for exactly the run that reading names if
    and only if the change was active, the change was read once more after the
    answer, the result was staged under that lease, and that result is sent next.
    Its run is then the provider's for the authenticated delivery, and it says
    [Pass] only if the second reading agrees with the first on an active change,
    the runner answered for exactly that run with a nonempty report within the size
    limit that says pass, that report is the one published, and the external policy
    did not find a refutation it must block on. *)
Theorem published_grounded self input w r w' p :
  w_calls w = [] -> handle self input w = (r, w') -> Event.Publishing p ∈ w_calls w' ->
  exists adapter accepted plan check w1 staged rest,
    admit_delivery self input w = (Ok (adapter, accepted, plan, check), w1) /\
    p = stg_publication staged /\ rest `prefix_of` [Event.Published p; Event.Completed staged] /\
    ((validate_staged (acc_delivery accepted) check staged = Ok tt /\
      List.filter telling (w_calls w') =
        Event.Claimed (DeliveryClaim.Publish staged) :: Event.Publishing p :: rest) \/
     (exists lease facts,
        l_check lease = check /\ staged_under lease staged /\
        grounded (acc_delivery accepted) (external_policy plan) p facts /\
        List.filter telling (w_calls w') =
          Event.Claimed (DeliveryClaim.Execute lease) :: facts ++ Event.Staged staged :: Event.Publishing p :: rest)).
Proof.
  intros Hw He Hin. apply (elem_of_telling (Event.Publishing p)) in Hin as Htold; [|done].
  apply (elem_of_decisive (Event.Publishing p)) in Hin; [|done].
  destruct (handle_traced _ _ _ _ _ Hw He)
    as [(Hd & _)|(ad & accepted & plan & check & w1 & whole & decided & Ha & (_ & _ & Hd & Ht) & _)];
    unfold decisions in Hd; rewrite Hd in Hin; [set_solver|].
  destruct Ht as [[claim ->]|(t & Ht & Hp)]; [set_solver|]. exists ad, accepted, plan, check, w1.
  assert (Event.Publishing p ∈ t) as Hpt by (destruct Hp as [k ->]; set_solver).
  destruct Ht as [staged Hv|lease facts staged Hc Hs Hg].
  - assert (p = stg_publication staged) as -> by (unfold publishing in Hpt; set_solver).
    destruct (prefix_reaches _ [Event.Claimed (DeliveryClaim.Publish staged)] _ _ _ Hp Htold) as (rest & Hrest & E); [set_solver|].
    exists staged, rest. split_and!; try done. by left.
  - pose proof (facts_unpublished _ _ _ _ p Hg) as Hn.
    assert (p = stg_publication staged) as -> by (unfold publishing in Hpt; set_solver).
    destruct (prefix_reaches (List.filter telling (w_calls w'))
      (Event.Claimed (DeliveryClaim.Execute lease) :: facts ++ [Event.Staged staged])
      [Event.Published (stg_publication staged); Event.Completed staged] (Event.Publishing (stg_publication staged))
      (Event.Publishing (stg_publication staged))) as (rest & Hrest & E).
    + cbn [app]. by rewrite <- app_assoc.
    + done.
    + set_solver.
    + exists staged, rest. split_and!; try done. right. exists lease, facts. split_and!; try done.
      rewrite E. cbn [app]. by rewrite <- app_assoc.
Qed.
End Flow.

(** ** A closed run *)

Definition ex_fl_run : RunIdentity :=
  mkRunIdentity (pf_change ex_in_facts) (mkRunRefs Github (b_ "topic") (b_ "main") (b_ "main")) Sha1
    (mkOidPair (Oid.mk Sha1 (repeat x62 40)) (pr_candidate_commit ex_in_run))
    (mkOidPair (Oid.mk Sha1 (repeat x63 40)) (Oid.mk Sha1 (repeat x64 40))).
Definition ex_fl_snapshot : ChangeSnapshot :=
  mkChangeSnapshot ChangeState.Active ex_fl_run (Oid.mk Sha1 (repeat x65 40)).
Definition ex_fl_check : CheckBinding :=
  mkCheckBinding (Digest.mk (repeat x05 32) eq_refl) (b_ "amiss") (Digest.mk (repeat x05 32) eq_refl).
Definition ex_fl_report : bytes := b_ "{}".

(** A ledger that grants one lease and keeps its word. *)
Definition ex_fl_ledger : DeliveryLedger := {|
  LWorld := unit;
  LError := unit;
  l_claim _ check := sret (DeliveryClaim.Execute (mkDeliveryLease (b_ "e") check 1 5000));
  l_renew _ lease := sret (LeaseRenewal.Renewed lease);
  l_stage _ lease p := sret (StageOutcome.Staged (mkStagedPublication (l_evaluation_id lease) (l_fence lease) p));
  l_complete _ _ := sret LeaseCompletion.Completed
|}.

(** A provider, a clock that stands still, a runner that renews once and passes,
    and no artifact store. *)
Definition ex_fl_env : Environment := {|
  EWorld := unit;
  Plan := unit;
  Adapter := unit;
  Engine := unit;
  namespace _ := b_ "github";
  authenticate _ _ := sret ex_in_verified;
  refresh _ _ := sret ex_fl_snapshot;
  publish _ _ _ := sret tt;
  verify_external _ _ _ := sret None;
  run request :=
    Renew (fun _ => Finish (RunnerOutcome.Complete (rq_run request) Evaluation.Pass ex_fl_report None));
  now_unix_millis e := (Some 2000, e);
  find _ := sret None;
  verify _ := sret tt;
  retain _ _ := sfail ArtifactError.Full;
  check_binding _ := Some ex_fl_check;
  external_policy _ := ExternalPolicy.Off;
  parse_engine _ := None;
  external_plan _ _ := None;
  external_assess _ _ _ := None;
  parse_verdicts _ := None
|}.

Lemma ex_fl_answers : Answers (DLG := ex_fl_ledger) (EN := ex_fl_env).
Proof. by split. Qed.

Definition ex_fl_controller : Controller (EN := ex_fl_env) :=
  mkController (EN := ex_fl_env) [(b_ "github", tt)]
    [(plan_scope ex_in_provider (b_ "app") (cl_repository (pf_change ex_in_facts)), tt)] ex_in_policy false false.
Definition ex_fl_world : World (DLG := ex_fl_ledger) (EN := ex_fl_env) :=
  mkWorld (DLG := ex_fl_ledger) (EN := ex_fl_env) tt tt [].

Abbreviation ex_fl_handle :=
  (handle (DLG := ex_fl_ledger) (EN := ex_fl_env) (HX := rfc_hex) (HH := toy_hash) (HHL := toy_hash_laws)
     ex_fl_controller ex_in_delivery ex_fl_world).

Definition ex_fl_publication : Publication :=
  mkPublication ex_in_run (b_ "e") ex_fl_check ex_fl_run (cs_gate_commit ex_fl_snapshot) CheckConclusion.Pass
    (Some ex_fl_report) None.

Example ex_fl_result : ex_fl_handle.1 = Ok (HandleOutcome.Published CheckConclusion.Pass None).
Proof. vm_compute. reflexivity. Qed.

Lemma delivery_life_witness :
  exists staged, Event.Completed staged ∈ w_calls ex_fl_handle.2 /\
    CheckConclusion.Pass = p_conclusion (stg_publication staged) /\ None = p_artifact (stg_publication staged).
Proof.
  exact (proj1 (proj2 (proj2 (delivery_life (AN := ex_fl_answers) ex_fl_controller ex_in_delivery ex_fl_world
    ex_fl_handle.1 ex_fl_handle.2 eq_refl (surjective_pairing _))) CheckConclusion.Pass None) ex_fl_result).
Defined.

Lemma ex_fl_published : Event.Publishing ex_fl_publication ∈ w_calls ex_fl_handle.2.
Proof. apply list_elem_of_In. vm_compute. intuition. Qed.

Lemma published_grounded_witness :
  exists staged rest,
    ex_fl_publication = stg_publication staged /\
    rest `prefix_of` [Event.Published ex_fl_publication; Event.Completed staged] /\
    ((exists before_, List.filter (telling (DLG := ex_fl_ledger)) (w_calls ex_fl_handle.2) =
        before_ ++ Event.Publishing ex_fl_publication :: rest)).
Proof.
  destruct (published_grounded (AN := ex_fl_answers) ex_fl_controller ex_in_delivery ex_fl_world
    ex_fl_handle.1 ex_fl_handle.2 ex_fl_publication eq_refl (surjective_pairing _) ex_fl_published)
    as (adapter & accepted & plan & check & w1 & staged & rest & _ & Hp & Hr & [[_ E]|(lease & facts & _ & _ & _ & E)]);
    exists staged, rest; (split; [exact Hp|]); (split; [exact Hr|]).
  - exists [Event.Claimed (DeliveryClaim.Publish staged)]. exact E.
  - exists (Event.Claimed (DeliveryClaim.Execute lease) :: facts ++ [Event.Staged staged]).
    rewrite E. cbn [app]. rewrite <- app_assoc. reflexivity.
Defined.
