(* ===== verification/CtlLedger.v ===== *)
(** The file-backed delivery ledger: [controller/src/file_ledger.rs],
    [file_ledger/transitions.rs], [transitions/claim.rs] and
    [transitions/stage.rs]. *)
From Stdlib Require Import Strings.Byte Strings.String Lia.
From stdpp Require Import base numbers list.
From S2P Require Import Prelude Codec WireModel CtlModel CtlFrame CtlCapacity OrdMap Observation CtlRecord CtlStore CtlLedgerApi.
Import FileLedgerError.

(** One owner session. *)
Record FileLedger := mkFileLedger { fl_config : FileLedgerConfig; fl_lease_millis : i64; fl_owner : bytes }.

Section Ledger.
Context `{DK : Disk} `{HX : Hex} `{HH : Hashes} {HHL : HashLaws HH} `{UP : UrlParser}.
Context `{JK : Json StoredDeliveryKey} `{JS : Json StagedDigest} `{JR : Json Record_}
        `{JM : Json RootMetadata} `{JC : Json Capacity}.

Abbreviation op A := (sres DWorld A FileLedgerError.t).

(** [clock.now_unix_millis().filter(|now| *now >= 0).ok_or(Clock)]. *)
Definition trusted_now : op i64 :=
  fun w => match dk_now w with
           | (Some now, w) => if 0 <=? now then (Ok now, w) else (Err Clock, w)
           | (None, w) => (Err Clock, w)
           end.

Definition random_u64 : op u64 :=
  fun w => match dk_random w with
           | (Some v, w) => (Ok v, w)
           | (None, w) => (Err Random, w)
           end.

Definition random_id : op bytes :=
  let! high := random_u64 in
  let! low := random_u64 in
  sret (to_be 16 (Z.lor (Z.shiftl high 64) low)).

(** [FileLedgerRoot::session]. *)
Definition session (config : FileLedgerConfig) (lease_millis : i64) : op FileLedger :=
  let! owner := random_id in sret (mkFileLedger config lease_millis owner).

Section Session.
Context (self : FileLedger).

Definition now (row : Row) (record : option Record_) : op i64 :=
  let! now := trusted_now in
  let! now := observe_clock row now in
  sret (match record with Some record => Z.max now (r_last_seen_unix_millis record) | None => now end).

Definition deadline (now : i64) : res i64 FileLedgerError.t :=
  ok_or (checked_add_i64 now (fl_lease_millis self)) Clock.

Definition accepted_expired (row : Row) (delivery : AcceptedDelivery) : op bool :=
  let! now := now row None in
  sret (match replay_keep_through delivery with Some keep_through => keep_through <? now | None => false end).

Definition row (delivery : AcceptedDelivery) : op Row :=
  let! key := slift (delivery_key (ad_identity (acc_delivery delivery))) in
  lock (fl_config self) key (acc_replay_keep delivery).

Definition make_lease (evaluation_id : bytes) (check : CheckBinding) (fence : u64) (expires : i64) :
    res DeliveryLease FileLedgerError.t :=
  let? fence := ok_or (lease_fence_new fence) Corrupt in
  Ok (mkDeliveryLease evaluation_id check fence expires).

Definition staged (row : Row) (evaluation_id : bytes) (fence : u64) (stored : StoredPublication) :
    op StagedPublication :=
  let! report := load_report row (sp_report stored) in
  let! fence := slift (ok_or (lease_fence_new fence) Corrupt) in
  let! publication := slift (materialize stored report) in
  sret (mkStagedPublication evaluation_id fence publication).

(** ** Claim *)

Definition claim_new (row : Row) (delivery : AcceptedDelivery) (check : CheckBinding) : op DeliveryClaim.t :=
  let! now := now row None in
  let! nonce := random_id in
  let! evaluation_id := slift (evaluation_id (ad_identity (acc_delivery delivery)) nonce) in
  let! expires := slift (deadline now) in
  let record := record_running delivery check evaluation_id (fl_owner self) now expires in
  let! _ := save_new row record in
  let! lease := slift (make_lease evaluation_id check 1 expires) in
  sret (DeliveryClaim.Execute lease).

Definition start_running (row : Row) (record : Record_) (evaluation_id : bytes) (check : CheckBinding)
    (fence : u64) (now : i64) : op DeliveryClaim.t :=
  let! next_fence := slift (ok_or (checked_add fence 1) Corrupt) in
  let! expires := slift (deadline now) in
  let! record := slift (advance record now) in
  let record := set_state record (State.Running (fl_owner self) next_fence expires) in
  let! _ := save row record in
  let! lease := slift (make_lease evaluation_id check next_fence expires) in
  sret (DeliveryClaim.Execute lease).

Definition claim_running (row : Row) (record : Record_) (evaluation_id : bytes) (check : CheckBinding) :
    op DeliveryClaim.t :=
  match r_state record with
  | State.Running owner fence expires =>
      let! now := now row (Some record) in
      if now <? expires then
        if bytes_eqb owner (fl_owner self) then
          let! lease := slift (make_lease evaluation_id check fence expires) in
          sret (DeliveryClaim.Execute lease)
        else sret (DeliveryClaim.Busy evaluation_id expires)
      else start_running row record evaluation_id check fence now
  | _ => sfail Corrupt
  end.

(** ... once the row's lock is held. *)
Definition claim_locked (row : Row) (delivery : AcceptedDelivery) (check : CheckBinding) : op DeliveryClaim.t :=
  let! loaded := load row in
  match loaded with
  | None =>
      let! expired := accepted_expired row delivery in
      if expired then sfail Expired else claim_new row delivery check
  | Some record =>
      if negb (record_matches record delivery check) then sret DeliveryClaim.BindingConflict
      else
        let evaluation_id := r_evaluation_id record in
        match r_state record with
        | State.Running _ _ _ => claim_running row record evaluation_id check
        | State.Staged fence publication =>
            if negb (has_gate_commit publication) then
              let! now := now row (Some record) in
              let! claim := start_running row record evaluation_id check fence now in
              let! _ := remove_report row in
              sret claim
            else
              let! s := staged row evaluation_id fence publication in
              sret (DeliveryClaim.Publish s)
        | State.Done _ _ =>
            let! _ := remove_report row in
            sret (DeliveryClaim.Duplicate evaluation_id)
        end
  end.

Definition claim (delivery : AcceptedDelivery) (check : CheckBinding) : op DeliveryClaim.t :=
  let! row := row delivery in claim_locked row delivery check.

(** ** Renew *)

(** ... once the row's lock is held. *)
Definition renew_locked (row : Row) (delivery : AcceptedDelivery) (lease : DeliveryLease) : op LeaseRenewal.t :=
  let! loaded := load row in
  match loaded with
  | None => sret LeaseRenewal.Lost
  | Some record =>
      if negb (record_matches record delivery (l_check lease)) then sret LeaseRenewal.Lost
      else
        match r_state record with
        | State.Running owner fence expires =>
            let evaluation_id := r_evaluation_id record in
            if negb (bytes_eqb owner (fl_owner self))
               || negb (bytes_eqb (l_evaluation_id lease) evaluation_id)
               || negb (l_fence lease =? fence)
               || negb (l_expires_at_unix_millis lease =? expires)
            then sret LeaseRenewal.Lost
            else
              let! now := now row (Some record) in
              if expires <=? now then sret LeaseRenewal.Lost
              else
                let! bound := slift (deadline now) in
                let renewed_deadline := Z.max expires bound in
                let! record := slift (advance record now) in
                let record := set_state record (State.Running owner fence renewed_deadline) in
                let! _ := save row record in
                let! lease := slift (make_lease evaluation_id (l_check lease) fence renewed_deadline) in
                sret (LeaseRenewal.Renewed lease)
        | _ => sret LeaseRenewal.Lost
        end
  end.

Definition renew (delivery : AcceptedDelivery) (lease : DeliveryLease) : op LeaseRenewal.t :=
  let! row := row delivery in renew_locked row delivery lease.

(** ** Stage *)

Definition publication_matches (delivery : AuthenticatedDelivery) (evaluation_id : bytes)
    (publication : Publication) : bool :=
  bytes_eqb (p_evaluation_id publication) evaluation_id
  && bool_decide (p_provider_run publication = ad_provider_run delivery)
  && bool_decide (ri_change (p_run publication) = ad_change delivery)
  && bool_decide (ri_object_format (p_run publication) = pr_object_format (ad_provider_run delivery))
  && bool_decide (op_candidate (ri_commits (p_run publication)) = pr_candidate_commit (ad_provider_run delivery)).

Definition restage (row : Row) (lease : DeliveryLease) (publication : Publication) (evaluation_id : bytes)
    (fence : u64) (stored : StoredPublication) : op StageOutcome.t :=
  let! existing := staged row evaluation_id fence stored in
  if bytes_eqb (stg_evaluation_id existing) (l_evaluation_id lease)
     && (stg_fence existing =? l_fence lease)
     && bool_decide (stg_publication existing = publication)
  then sret (StageOutcome.Staged existing) else sret StageOutcome.Lost.

Definition stage_running (row : Row) (lease : DeliveryLease) (publication : Publication) (record : Record_)
    (evaluation_id : bytes) : op StageOutcome.t :=
  match r_state record with
  | State.Running owner fence expires =>
      if negb (bytes_eqb owner (fl_owner self))
         || negb (bytes_eqb (l_evaluation_id lease) evaluation_id)
         || negb (l_fence lease =? fence)
         || negb (l_expires_at_unix_millis lease =? expires)
      then sret StageOutcome.Lost
      else
        let! now := now row (Some record) in
        if expires <=? now then sret StageOutcome.Lost
        else
          let! stored := slift (stored_publication_new publication) in
          let! _ := remove_report row in
          let! _ := save_report row (p_report publication) (sp_report stored) in
          let! record := slift (advance record now) in
          let record := set_state record (State.Staged fence stored) in
          let! _ := save row record in
          sret (StageOutcome.Staged (mkStagedPublication evaluation_id (l_fence lease) publication))
  | _ => sfail Corrupt
  end.

(** ... once the row's lock is held. *)
Definition stage_locked (row : Row) (delivery : AcceptedDelivery) (lease : DeliveryLease) (publication : Publication) :
    op StageOutcome.t :=
  let! loaded := load row in
  match loaded with
  | None => sret StageOutcome.Lost
  | Some record =>
      let evaluation_id := r_evaluation_id record in
      if negb (record_matches record delivery (l_check lease))
         || negb (bool_decide (p_check publication = l_check lease))
         || negb (publication_matches (acc_delivery delivery) evaluation_id publication)
      then sret StageOutcome.Lost
      else
        match r_state record with
        | State.Staged fence stored => restage row lease publication evaluation_id fence stored
        | State.Done _ _ => sret StageOutcome.Lost
        | State.Running _ _ _ => stage_running row lease publication record evaluation_id
        end
  end.

Definition stage (delivery : AcceptedDelivery) (lease : DeliveryLease) (publication : Publication) :
    op StageOutcome.t :=
  let! row := row delivery in stage_locked row delivery lease publication.

(** ** Complete *)

Definition complete_record (row : Row) (delivery : AcceptedDelivery) (staged_publication : StagedPublication)
    (record : Record_) : op LeaseCompletion.t :=
  let evaluation_id := r_evaluation_id record in
  let fence' := stg_fence staged_publication in
  if negb (record_matches record delivery (p_check (stg_publication staged_publication)))
     || negb (bytes_eqb (stg_evaluation_id staged_publication) evaluation_id)
  then sret LeaseCompletion.Lost
  else
    match stored_publication_new (stg_publication staged_publication) with
    | OutOfFuel => slift OutOfFuel
    | Err ReportTooLarge => sret LeaseCompletion.Lost
    | Err error => sfail error
    | Ok requested =>
        let! requested_digest := slift (staged_digest evaluation_id fence' requested) in
        match r_state record with
        | State.Done fence done_digest =>
            if (fence =? fence') && bool_decide (done_digest = requested_digest) then
              let! _ := remove_report row in sret LeaseCompletion.Completed
            else sret LeaseCompletion.Lost
        | State.Running _ _ _ => sret LeaseCompletion.Lost
        | State.Staged fence publication =>
            if negb (fence =? fence') then sret LeaseCompletion.Lost
            else
              let! own := slift (staged_digest evaluation_id fence publication) in
              if negb (bool_decide (own = requested_digest))
                 || negb (bool_decide (publication = requested))
              then sret LeaseCompletion.Lost
              else
                let! report := load_report row (sp_report publication) in
                if negb (bool_decide (report = p_report (stg_publication staged_publication)))
                then sret LeaseCompletion.Lost
                else
                  let! record := slift (advance record (r_last_seen_unix_millis record)) in
                  let record := set_state record (State.Done fence requested_digest) in
                  let! _ := save row record in
                  let! _ := remove_report row in
                  sret LeaseCompletion.Completed
        end
    end.

(** ... once the row's lock is held. *)
Definition complete_locked (row : Row) (delivery : AcceptedDelivery) (staged_publication : StagedPublication) :
    op LeaseCompletion.t :=
  let! loaded := load row in
  match loaded with
  | None => let! _ := now row None in sret LeaseCompletion.Lost
  | Some record => complete_record row delivery staged_publication record
  end.

Definition complete (delivery : AcceptedDelivery) (staged_publication : StagedPublication) :
    op LeaseCompletion.t :=
  let! row := row delivery in complete_locked row delivery staged_publication.
End Session.

(** The file ledger is a delivery ledger. *)
Definition file_ledger (self : FileLedger) : DeliveryLedger := {|
  LWorld := DWorld;
  LError := FileLedgerError.t;
  l_claim := claim self;
  l_renew := renew self;
  l_stage := stage self;
  l_complete := complete self
|}.
End Ledger.
