(* ===== verification/CtlExample.v ===== *)
(** A closed delivery, its publication and a root directory in memory, on which
    the theorems about the ledger are instantiated. *)
From Stdlib Require Import Strings.Byte Strings.String Lia.
From stdpp Require Import base numbers gmap list.
From S2P Require Import Prelude Codec WireModel WireIdentity CtlModel CtlFrame CtlCapacity OrdMap Observation CtlRecord CtlStore CtlDisk CtlMemory CtlLedgerApi CtlLedger.

Definition ex_digest : Digest.t := Digest.mk (repeat x05 32) eq_refl.
Definition ex_oid (b : Byte.byte) : Oid.t := Oid.mk Sha1 (repeat b 40).
Definition ex_provider : ProviderIdentity := mkProviderIdentity (b_ "github") (b_ "main").
Definition ex_change : ChangeLocator :=
  mkChangeLocator ex_provider (RepositoryIdentity.mk (b_ "github.com") (b_ "demo") (b_ "acme"))
    (Change.PullRequest (mkPullRequestChange 1 2 3)).
Definition ex_run_identity : ProviderRunIdentity :=
  mkProviderRunIdentity (ProviderRun.PullRequest ex_digest) 1 Sha1 (ex_oid "b").
Definition ex_delivery : AcceptedDelivery :=
  mkAcceptedDelivery
    (mkAuthenticatedDelivery (mkDeliveryIdentity ex_provider (b_ "app") (Delivery.Provided (b_ "d1")))
       ex_change ex_run_identity)
    ReplayKeep.Permanent.
Definition ex_check : CheckBinding := mkCheckBinding ex_digest (b_ "amiss") ex_digest.
Definition ex_run : RunIdentity :=
  mkRunIdentity ex_change (mkRunRefs Github (b_ "topic") (b_ "main") (b_ "main")) Sha1
    (mkOidPair (ex_oid "a") (ex_oid "b")) (mkOidPair (ex_oid "c") (ex_oid "d")).

Definition no_urls : UrlParser := {| url_parse _ := None |}.
#[local] Existing Instances rfc_hex toy_hash mem_disk no_urls.
#[local] Existing Instance toy_hash_laws.

Definition ex_json_key : Json StoredDeliveryKey :=
  table_json [delivery_key_new (ad_identity (acc_delivery ex_delivery))].
#[local] Existing Instance ex_json_key.

Definition unwrap {A E} (d : A) (r : res A E) : A := match r with Ok a => a | _ => d end.
Definition ex_key : bytes := unwrap [] (delivery_key (ad_identity (acc_delivery ex_delivery))).
Definition ex_eid : bytes :=
  unwrap [] (evaluation_id (ad_identity (acc_delivery ex_delivery)) (to_be 16 (Z.lor (Z.shiftl 9 64) 9))).
Definition ex_window : ReplayWindow := mkReplayWindow 100 100.
Definition ex_config : FileLedgerConfig := mkFileLedgerConfig 50 4 ex_window.
(** Two sessions. *)
Definition ex_a : FileLedger := mkFileLedger ex_config 50 (to_be 16 1).
Definition ex_b : FileLedger := mkFileLedger ex_config 50 (to_be 16 2).

Definition ex_publication : Publication :=
  mkPublication ex_run_identity ex_eid ex_check ex_run (ex_oid "e") CheckConclusion.Pass (Some (b_ "{}")) None.
Definition ex_stored : StoredPublication :=
  unwrap (mkStoredPublication ex_run_identity ex_eid ex_check (stored_run ex_run) None StoredConclusion.Pass
            StoredReport.Absent None)
    (stored_publication_new ex_publication).
Definition ex_staged : StagedPublication := mkStagedPublication ex_eid 2 ex_publication.
Definition ex_json_digest : Json StagedDigest := table_json [mkStagedDigest ex_eid 2 ex_stored].
#[local] Existing Instance ex_json_digest.

(** The records of: a claim by the first session, a claim by the second after
    the lease ended, its publication, and the completion. *)
Definition ex_record (generation : u64) (seen : i64) (state : State.t) : Record_ :=
  mkRecord RecordSchema.Current generation seen (StoredDelivery.new (acc_delivery ex_delivery))
    StoredReplayKeep.Permanent ex_check ex_eid state.
Definition ex_records : list Record_ :=
  [ex_record 1 10 (State.Running (to_be 16 1) 1 60);
   ex_record 2 70 (State.Running (to_be 16 2) 2 120);
   ex_record 3 80 (State.Staged 2 ex_stored);
   ex_record 4 80 (State.Done 2 (unwrap ex_digest (staged_digest ex_eid 2 ex_stored)))].
Definition ex_json_record : Json Record_ := table_json ex_records.
#[local] Existing Instance ex_json_record.

Definition ex_metadata (high : i64) : RootMetadata := mkRootMetadata RootSchema.Current 50 4 100 100 high.
Definition ex_json_metadata : Json RootMetadata := table_json (map ex_metadata [0; 10; 70; 80]).
Definition ex_capacity (records : u64) (pending : option bytes) : Capacity :=
  mkCapacity CapacitySchema.Current 4 records pending false.
Definition ex_json_capacity : Json Capacity :=
  table_json [ex_capacity 0 None; ex_capacity 1 (Some ex_key); ex_capacity 1 None].
#[local] Existing Instances ex_json_metadata ex_json_capacity.

Definition ex_root : MemDisk :=
  mkMemDisk
    (<[METADATA_FILE := Regular (unwrap [] (metadata_encode (ex_metadata 0)))]>
     (<[CAPACITY_FILE := Regular (unwrap [] (capacity_encode (ex_capacity 0 None)))]> ∅))
    ∅ 0 9.

(** The world in which a session holds the row's lock at time [t]. *)
Definition ex_locked (self : FileLedger) (t : i64) (w : MemDisk) : MemDisk :=
  (row self ex_delivery (md_at w t)).2.
