(* ===== verification/CtlAdmission.v ===== *)
(** The root's shared state under its locks: the record counter under the
    admission lock and the clock's high water under the clock lock. *)
From Stdlib Require Import Strings.Byte Strings.String Lia.
From stdpp Require Import base numbers gmap list.
From S2P Require Import Prelude Codec WireModel CtlModel CtlFrame CtlCapacity OrdMap CtlRecord CtlStore CtlDisk CtlRow CtlLedgerApi CtlLedger CtlMemory CtlExample.
Import FileLedgerError.

Section Clock.
Context `{DK : Disk} `{HX : Hex} {DL : DiskLaws} `{HH : Hashes} {HHL : HashLaws HH} `{UP : UrlParser}.
Context `{JK : Json StoredDeliveryKey} `{JS : Json StagedDigest} `{JR : Json Record_}
        `{JM : Json RootMetadata} `{JC : Json Capacity}.
Context {JML : JsonLaws RootMetadata}.

(** The clock lock is held and the root's metadata is [m]. *)
Definition clock_at (m : RootMetadata) (w : DWorld) : Prop :=
  exists d, metadata_decode d = Ok (StoredMetadata.Current m) /\
    guarded w METADATA_FILE /\ dk_entry w METADATA_FILE = Some (Regular d).

Lemma clock_at_stable m : stable (clock_at m).
Proof.
  intros w w' (d & Hd & Hw) Hr. exists d. split; [done|]. by eapply stable_entry.
Qed.

Lemma metadata_encode_decode m data :
  rm_schema m = RootSchema.Current -> metadata_encode m = Ok data ->
  metadata_decode data = Ok (StoredMetadata.Current m).
Proof using JML HHL.
  intros Hs He. pose proof He as Hf. apply encode_framed in Hf as (payload & _ & _ & Hd & _ & Hx).
  assert (rust_slice data).
  { rewrite Hd. unfold rust_slice. rewrite !len_app, to_be_len. unfold frame_digest. rewrite sha256_len.
    change (len [VERSION]) with 1. cbn [maximum METADATA_FRAME] in Hx. unfold MAX_METADATA_BYTES in Hx.
    unfold_widths. lia. }
  unfold metadata_decode.
  assert (decode Corrupt metadata_validate METADATA_FRAME data = Ok m) as ->.
  { rewrite decode_framed by done. by apply (encode_framed Corrupt). }
  by rewrite Hs.
Qed.

Lemma metadata_decode_current d m :
  metadata_decode d = Ok (StoredMetadata.Current m) -> rm_schema m = RootSchema.Current.
Proof.
  unfold metadata_decode. destruct (decode _ _ _ _) as [m'| |]; [|done|done].
  destruct (rm_schema m') eqn:Es; [|done]. by intros [= <-].
Qed.

Lemma hoare_load_clock m :
  hoare (clock_at m) load_metadata (fun m' w => m' = m /\ clock_at m w) (fun _ => clock_at m).
Proof using DL.
  apply hoare_pre with (P := fun w => exists d, metadata_decode d = Ok (StoredMetadata.Current m) /\
    guarded w METADATA_FILE /\ dk_entry w METADATA_FILE = Some (Regular d)); [|done].
  apply hoare_exists. intros d. apply hoare_pure. intros Hd.
  assert (forall w, guarded w METADATA_FILE /\ dk_entry w METADATA_FILE = Some (Regular d) -> clock_at m w) as Hin
    by (intros w Hw; by exists d).
  unfold load_metadata, load_stored_metadata.
  eapply hoare_bind with (R := fun stored w => stored = StoredMetadata.Current m /\ clock_at m w).
  - eapply hoare_bind.
    { eapply hoare_conseq with (P := fun w => guarded w METADATA_FILE /\ dk_entry w METADATA_FILE = Some (Regular d));
        [eapply hoare_read_bounded with (e := Some (Regular d))|done|intros a w Hw; exact Hw|].
      - apply stable_entry.
      - done.
      - unfold MAX_METADATA_BYTES. unfold_widths. lia.
      - intros e w [_ Hw]. auto. }
    intros data. apply hoare_pure. intros [[= <-] _]. apply hoare_lift; [auto with fuel| |]; rewrite Hd.
    + intros stored w [= <-] Hw. auto.
    + done.
  - intros stored. apply hoare_pure. intros ->. by apply hoare_ret.
Qed.

Lemma hoare_observe_locked row m t :
  hoare (clock_at m) (observe_locked row t)
    (fun effective w => exists m', (effective = Z.max (rm_clock_high_water_unix_millis m) t /\
       rm_clock_high_water_unix_millis m' = effective /\ 0 <= t) /\ clock_at m' w)
    (fun _ w => exists m', rm_clock_high_water_unix_millis m <= rm_clock_high_water_unix_millis m' /\ clock_at m' w).
Proof using DL JML HHL.
  unfold observe_locked.
  assert (forall w, clock_at m w -> exists m', rm_clock_high_water_unix_millis m <= rm_clock_high_water_unix_millis m' /\
    clock_at m' w) as Hstay by (intros w Hw; exists m; split; [lia|done]).
  eapply hoare_bind; [eapply hoare_conseq; [apply hoare_load_clock|done|done|eauto]|].
  intros m0. apply hoare_pure. intros ->. destruct (negb _); [apply hoare_fail; eauto|].
  eapply hoare_bind with (R := fun v w => (advance_clock m t = Ok v) /\ clock_at m w).
  { apply hoare_lift; [auto with fuel|done|eauto]. }
  intros [m' effective]. apply hoare_pure. intros Ha. pose proof Ha as (Ht & He & Hh)%advance_clock_Ok.
  assert (rm_schema m' = rm_schema m) as Hs.
  { unfold advance_clock in Ha. destruct (t <? 0); [done|]. by injection Ha as <- _. }
  eapply hoare_bind with (R := fun _ w => exists m'', rm_clock_high_water_unix_millis m'' = effective /\ clock_at m'' w).
  - destruct (Z.eqb_spec effective (rm_clock_high_water_unix_millis m)) as [Heq|].
    { apply hoare_ret. intros w Hw. exists m. split; [congruence|done]. }
    apply hoare_know with (F := rm_schema m = RootSchema.Current).
    { intros w (d & Hd & _). by eapply metadata_decode_current. }
    intros Hc. eapply hoare_bind with (R := fun data w => metadata_encode m' = Ok data /\ clock_at m w).
    { apply hoare_lift; [auto with fuel|done|eauto]. }
    intros data. apply hoare_pure. intros Hd%metadata_encode_decode; [|congruence].
    eapply hoare_conseq; [apply hoare_atomic_write with (P := clock_at m) (Q := clock_at m')|done| |].
    + apply clock_at_stable.
    + by intros w (d & _ & Hg & _).
    + intros w w' (d & _ & Hg & _) Hr Hw. exists data. split_and!; [done|by eapply rely_guarded|done].
    + intros w w' (d & Hd' & Hg & He') Hr Hw. exists d. split_and!; [done|by eapply rely_guarded|congruence].
    + eauto.
    + intros e w [Hw|Hw]; [eauto|]. exists m'. split; [lia|done].
  - intros _. apply hoare_exists. intros m''. apply hoare_pure. intros Hm''. apply hoare_ret. intros w Hw.
    exists m''. done.
Qed.
End Clock.

(** the clock never runs backwards. Under the clock lock an observation returns the
    later of the observed time and every time observed before, and the root's
    high water becomes it; whatever fails, the high water never decreases. *)
Theorem clock_monotone (DK : Disk) (HX : Hex) (DL : DiskLaws) (HH : Hashes) (HHL : HashLaws HH)
    (JM : Json RootMetadata) (JML : JsonLaws RootMetadata) row m t w result w' :
  clock_at m w -> observe_locked row t w = (result, w') ->
  exists m', clock_at m' w' /\
    rm_clock_high_water_unix_millis m <= rm_clock_high_water_unix_millis m' /\
    match result with
    | Ok effective =>
        effective = Z.max (rm_clock_high_water_unix_millis m) t /\ rm_clock_high_water_unix_millis m' = effective
    | Err _ => True
    | OutOfFuel => False
    end.
Proof.
  intros Hw He. pose proof (hoare_observe_locked row m t w Hw) as Hh. rewrite He in Hh.
  destruct result as [effective|e|]; [| |done].
  - destruct Hh as (m' & (-> & Hm & _) & Hc). exists m'. split_and!; [done|lia|done|done].
  - destruct Hh as (m' & Hm & Hc). by exists m'.
Qed.

(** C8: bounded admission. Under the admission lock, with a counter that is right
    about the records in the directory, admitting a record leaves a right
    counter on every outcome, also when the process stops at any call; a
    success adds exactly the new row, a failure leaves the rows or has added
    it; the root never holds more records than its limit. *)
Theorem admission_bounded (DK : Disk) (HX : Hex) (DL : DiskLaws) (HH : Hashes) (HHL : HashLaws HH)
    (UP : UrlParser) (JK : Json StoredDeliveryKey) (JR : Json Record_) (JC : Json Capacity)
    (JCL : JsonLaws Capacity) key config s p c keys r w result w' :
  counted key s p c keys w -> save_admitted (mkRow key config) r w = (result, w') ->
  exists s' c' keys', counted key s' p c' keys' w' /\ cap_max_records c' = cap_max_records c /\
    Z.of_nat (size keys') <= cap_max_records c /\
    match result with
    | Ok _ => s = None /\ keys' = {[key]} ∪ keys
    | Err _ => keys' = keys \/ keys' = {[key]} ∪ keys
    | OutOfFuel => False
    end.
Proof.
  intros Hw He. pose proof (hoare_admit key config s p c keys r w Hw) as Hh. rewrite He in Hh.
  assert (forall s' c' keys', counted key s' p c' keys' w' -> cap_max_records c' = cap_max_records c ->
    Z.of_nat (size keys') <= cap_max_records c) as Hb.
  { intros s' c' keys' (d & _ & Hc & _) Hm. apply counts_bounded in Hc. lia. }
  destruct result as [[]|e|]; [| |done].
  - destruct Hh as (data & c' & (_ & -> & Hm) & Hc). eexists _, c', _. split_and!; eauto.
  - destruct Hh as [(c' & Hm & Hc)|(data & c' & (_ & -> & Hm) & Hc)]; eexists _, c', _; split_and!; eauto.
Qed.

(** ** Witnesses *)

#[local] Existing Instances rfc_hex toy_hash mem_disk no_urls ex_json_key ex_json_digest ex_json_record
  ex_json_metadata ex_json_capacity.
#[local] Existing Instance toy_hash_laws.

(** The example's root with every lock of an admission held. *)
Definition ex_row_lock : bytes := unwrap [] (row_lock_name ex_key).
Definition ex_admitting : MemDisk :=
  mkMemDisk (md_files ex_root) {[MAINTENANCE_LOCK; CLOCK_LOCK; ADMISSION_LOCK; ex_row_lock]} 10 9.

Lemma clock_monotone_witness :
  exists m', clock_at (ex_metadata 0) ex_admitting /\
    clock_at m' (observe_locked (mkRow ex_key ex_config) 10 ex_admitting).2 /\
    0 <= rm_clock_high_water_unix_millis m'.
Proof.
  assert (clock_at (ex_metadata 0) ex_admitting) as Hc.
  { exists (unwrap [] (metadata_encode (ex_metadata 0))).
    split; [vm_compute; reflexivity|]. split; [|vm_compute; reflexivity].
    split; [cbn; set_solver|]. exists CLOCK_LOCK. split; [constructor|cbn; set_solver]. }
  destruct (clock_monotone mem_disk rfc_hex mem_disk_laws toy_hash toy_hash_laws ex_json_metadata
    (table_json_laws _) (mkRow ex_key ex_config) (ex_metadata 0) 10 ex_admitting _ _ Hc (surjective_pairing _))
    as (m' & H1 & H2 & _).
  exists m'. exact (conj Hc (conj H1 H2)).
Defined.

Lemma ex_counted : counted ex_key None None (ex_capacity 0 None) ∅ ex_admitting.
Proof.
  exists (unwrap [] (capacity_encode (ex_capacity 0 None))).
  split; [vm_compute; reflexivity|]. split; [split; vm_compute; reflexivity|].
  split; [|split; [vm_compute; reflexivity|]].
  - split; [cbn; set_solver|]. split; [|split; vm_compute; reflexivity].
    split; [vm_compute; reflexivity|]. split; [cbn; set_solver|].
    exists ex_row_lock. split; [vm_compute; reflexivity|cbn; set_solver].
  - intros k Hk. split; [set_solver|]. intros Hn. destruct Hn.
    cbn [dk_entry mem_disk ex_admitting md_files ex_root].
    rewrite !lookup_insert_ne; [done| |]; apply not_eq_sym, row_names_fresh; done.
Qed.

Lemma admission_bounded_witness :
  exists s' c' keys', counted ex_key None None (ex_capacity 0 None) ∅ ex_admitting /\
    counted ex_key s' None c' keys'
      (save_admitted (mkRow ex_key ex_config) (ex_record 1 10 (State.Running (to_be 16 1) 1 60)) ex_admitting).2 /\
    Z.of_nat (size keys') <= 4.
Proof.
  destruct (admission_bounded mem_disk rfc_hex mem_disk_laws toy_hash toy_hash_laws no_urls ex_json_key
    ex_json_record ex_json_capacity (table_json_laws _) ex_key ex_config None None (ex_capacity 0 None) ∅
    (ex_record 1 10 (State.Running (to_be 16 1) 1 60)) ex_admitting _ _ ex_counted (surjective_pairing _))
    as (s' & c' & keys' & H1 & _ & H2 & _).
  exists s', c', keys'. exact (conj ex_counted (conj H1 H2)).
Defined.

Lemma stored_publication_exact_witness :
  HashLaws toy_hash /\ materialize ex_stored (p_report ex_publication) = Ok ex_publication.
Proof.
  split; [exact toy_hash_laws|].
  apply (stored_publication_exact toy_hash toy_hash_laws no_urls ex_stored (p_report ex_publication) ex_publication).
  split; [vm_compute; reflexivity|]. split; [reflexivity|vm_compute; reflexivity].
Defined.
