(* ===== verification/CtlSteps.v ===== *)
(** What one visit of the ledger does to one row: the operations of
    [CtlLedger] against an abstract machine on records. The machine's states
    are the records a row can hold, its steps the only changes a visit can
    make, whether the visit succeeds or stops at any failed call. *)
From Stdlib Require Import Strings.Byte Strings.String Lia.
From stdpp Require Import base numbers gmap list.
From S2P Require Import Prelude Codec WireModel CtlModel CtlFrame CtlCapacity OrdMap Observation CtlRecord CtlStore CtlDisk CtlRow CtlLedgerApi CtlLedger.
Import FileLedgerError.

(** ** The abstract machine *)

Inductive row_step : option Record_ -> Record_ -> Prop :=
  (** A first claim creates the row with fence 1. *)
  | step_create d check eid owner now e :
      row_step None (record_running d check eid owner now e)
  (** The owner extends its lease before it ends. *)
  | step_renew r r1 owner fence e now e' :
      r_state r = State.Running owner fence e -> r_last_seen_unix_millis r <= now < e -> e <= e' ->
      advance r now = Ok r1 ->
      row_step (Some r) (set_state r1 (State.Running owner fence e'))
  (** A claim takes over a lease that has ended, under the next fence. *)
  | step_reclaim r r1 owner fence e now owner' e' :
      r_state r = State.Running owner fence e -> r_last_seen_unix_millis r <= now -> e <= now ->
      advance r now = Ok r1 ->
      row_step (Some r) (set_state r1 (State.Running owner' (fence + 1) e'))
  (** A publication staged by an older version, which kept no gate commit, is
      run again under the next fence. *)
  | step_reopen r r1 fence p now owner' e' :
      r_state r = State.Staged fence p -> has_gate_commit p = false -> r_last_seen_unix_millis r <= now ->
      advance r now = Ok r1 ->
      row_step (Some r) (set_state r1 (State.Running owner' (fence + 1) e'))
  (** The owner stages its publication before its lease ends. *)
  | step_stage r r1 owner fence e now p :
      r_state r = State.Running owner fence e -> r_last_seen_unix_millis r <= now < e ->
      has_gate_commit p = true -> advance r now = Ok r1 ->
      row_step (Some r) (set_state r1 (State.Staged fence p))
  (** A staged publication is completed. *)
  | step_done r r1 fence p digest :
      r_state r = State.Staged fence p -> has_gate_commit p = true ->
      advance r (r_last_seen_unix_millis r) = Ok r1 ->
      row_step (Some r) (set_state r1 (State.Done fence digest)).

Lemma advance_Ok r now r1 :
  advance r now = Ok r1 <->
  r_generation r + 1 <= u64_max /\
  r1 = mkRecord (r_schema r) (r_generation r + 1) now (r_binding r) (r_replay_keep r) (r_check r)
         (r_evaluation_id r) (r_state r).
Proof.
  unfold advance. destruct (checked_add (r_generation r) 1) as [g|] eqn:Eg; cbn [ok_or].
  - apply checked_add_Some in Eg as [-> Hg]. naive_solver.
  - split; [done|]. intros [Hg _]. unfold checked_add in Eg. destruct (Z.leb_spec (r_generation r + 1) u64_max); [done|lia].
Qed.

(** What every step keeps: whose row it is, its clock and its fence. *)
Lemma row_step_keeps r r' :
  row_step (Some r) r' ->
  r_binding r' = r_binding r /\ r_replay_keep r' = r_replay_keep r /\ r_check r' = r_check r /\
  r_evaluation_id r' = r_evaluation_id r /\ r_generation r' = r_generation r + 1 /\
  r_last_seen_unix_millis r <= r_last_seen_unix_millis r' /\
  fence_of (r_state r) <= fence_of (r_state r').
Proof.
  inversion 1 as [|? ? ? ? ? ? ? Hs ? ? Ha|? ? ? ? ? ? ? ? Hs ? ? Ha|? ? ? ? ? ? ? Hs ? ? Ha|? ? ? ? ? ? ? Hs ? ? Ha|? ? ? ? ? Hs ? Ha];
    subst; apply advance_Ok in Ha as [_ ->]; rewrite Hs; cbn; split_and!; (done || lia).
Qed.

Lemma record_matches_kept r r' d check :
  record_matches r d check = true ->
  r_binding r' = r_binding r -> r_replay_keep r' = r_replay_keep r -> r_check r' = r_check r ->
  record_matches r' d check = true.
Proof. rewrite !record_matches_eq. intros (<- & <- & <-) -> -> ->. done. Qed.

(** ** Rows before and after *)

Section Steps.
Context `{DK : Disk} `{HX : Hex} {DL : DiskLaws} `{HH : Hashes} {HHL : HashLaws HH} `{UP : UrlParser}.
Context `{JK : Json StoredDeliveryKey} `{JS : Json StagedDigest} `{JR : Json Record_}
        `{JM : Json RootMetadata} `{JC : Json Capacity}.
Context {JRL : JsonLaws Record_}.
Context (key : bytes).

(** The row is staged for good. *)
Definition staged_row (s : option Node) (r : Record_) (fence : u64) (p : StoredPublication) : Prop :=
  row_view key s = Some (Some r) /\ r_state r = State.Staged fence p /\ has_gate_commit p = true.

(** The state file is as it was or one step on; a staged row keeps its report. *)
Definition steps_to (s s' : option Node) : Prop :=
  s' = s \/ exists o r', row_view key s = Some o /\ row_view key s' = Some (Some r') /\ row_step o r'.
Definition moves (s p s' p' : option Node) : Prop :=
  steps_to s s' /\ (s' = s -> (exists r fence q, staged_row s r fence q) -> p' = p).

Definition moved (s p : option Node) (w : DWorld) : Prop := exists s' p', moves s p s' p' /\ at_row key s' p' w.

Lemma moves_refl s p : moves s p s p.
Proof. split; [by left|done]. Qed.

Lemma moved_refl s p w : at_row key s p w -> moved s p w.
Proof. exists s, p. split; [apply moves_refl|done]. Qed.

(** A saved step. *)
Lemma steps_to_encode o r' data s :
  row_view key s = Some o -> row_step o r' -> record_encode r' = Ok data ->
  delivery_key (StoredDelivery.identity (r_binding r')) = Ok key ->
  steps_to s (Some (Regular data)) /\ row_view key (Some (Regular data)) = Some (Some r').
Proof using JRL HHL.
  intros Ho Hs He Hk. pose proof (row_view_encode key r' data He Hk) as Hv. split; [|done].
  right. by exists o, r'.
Qed.

Lemma steps_to_record r r' data s :
  row_view key s = Some (Some r) -> row_step (Some r) r' -> record_encode r' = Ok data ->
  steps_to s (Some (Regular data)) /\ row_view key (Some (Regular data)) = Some (Some r').
Proof using JRL HHL.
  intros Ho Hs He. eapply steps_to_encode; [done|done|done|].
  apply row_step_keeps in Hs as (-> & _). by apply row_view_valid in Ho as [_ ->].
Qed.

(** A step never keeps a staged row's state: a record that is staged for good
    changes by completion alone. *)
Lemma row_step_neq r r' : row_step (Some r) r' -> r' <> r.
Proof. intros (_ & _ & _ & _ & Hg & _)%row_step_keeps ->. lia. Qed.

(** ** The clock *)

Lemma hoare_ledger_now config s p record :
  hoare (at_row key s p) (now (mkRow key config) record)
    (fun t w => (0 <= t /\ forall r, record = Some r -> r_last_seen_unix_millis r <= t) /\ at_row key s p w)
    (fun _ => at_row key s p).
Proof using DL.
  unfold now. eapply hoare_bind with (R := fun _ => at_row key s p).
  { intros w Hw. unfold trusted_now. pose proof (hoare_now _ (at_row_stable key s p) w Hw) as Hn.
    destruct (dk_now w) as [[t|] w']; [|done]. by destruct (0 <=? t). }
  intros t. eapply hoare_bind; [apply hoare_observe_clock|]. intros t'. apply hoare_pure. intros [Ht Ht'].
  apply hoare_ret. intros w Hw. split; [|done]. destruct record as [r|].
  - split; [lia|]. intros r' [= <-]. lia.
  - split; [lia|done].
Qed.

Lemma hoare_random s p : hoare (at_row key s p) random_id (fun _ => at_row key s p) (fun _ => at_row key s p).
Proof using DL.
  assert (hoare (at_row key s p) random_u64 (fun _ => at_row key s p) (fun _ => at_row key s p)) as Hr.
  { intros w Hw. unfold random_u64. pose proof (at_row_stable key s p _ _ Hw (random_settles w)) as Hn.
    by destruct (dk_random w) as [[v|] w']. }
  unfold random_id. eapply hoare_bind; [done|]. intros high. eapply hoare_bind; [done|]. intros low.
  by apply hoare_ret.
Qed.

(** ** Replies *)

(** The row now runs under this lease. *)
Definition granted (self : FileLedger) (d : AcceptedDelivery) (check : CheckBinding) (s' : option Node)
    (lease : DeliveryLease) : Prop :=
  exists r, row_view key s' = Some (Some r) /\
    r_state r = State.Running (fl_owner self) (l_fence lease) (l_expires_at_unix_millis lease) /\
    l_evaluation_id lease = r_evaluation_id r /\ l_check lease = check /\ record_matches r d check = true.

(** The staged publication a row and its report file hold. *)
Definition published (p : option Node) (eid : bytes) (fence : u64) (q : StoredPublication)
    (sp : StagedPublication) : Prop :=
  stg_evaluation_id sp = eid /\ stg_fence sp = fence /\ stored_publication_new (stg_publication sp) = Ok q /\
  match p_report (stg_publication sp) with Some data => p = Some (Regular data) | None => True end.

Definition claim_reply (self : FileLedger) (d : AcceptedDelivery) (check : CheckBinding)
    (s p s' p' : option Node) (c : DeliveryClaim.t) : Prop :=
  match c with
  | DeliveryClaim.Execute lease => granted self d check s' lease
  | DeliveryClaim.Publish sp =>
      s' = s /\ p' = p /\ exists r fence q, staged_row s r fence q /\ record_matches r d check = true /\
        published p (r_evaluation_id r) fence q sp
  | DeliveryClaim.Busy eid t =>
      s' = s /\ p' = p /\ exists r owner fence, row_view key s = Some (Some r) /\
        r_state r = State.Running owner fence t /\ owner <> fl_owner self /\ eid = r_evaluation_id r /\
        record_matches r d check = true
  | DeliveryClaim.Duplicate eid =>
      s' = s /\ exists r fence digest, row_view key s = Some (Some r) /\ r_state r = State.Done fence digest /\
        eid = r_evaluation_id r /\ record_matches r d check = true
  | DeliveryClaim.BindingConflict =>
      s' = s /\ p' = p /\ exists r, row_view key s = Some (Some r) /\ record_matches r d check = false
  end.

(** An outcome with its reply, and a failure. *)
Definition replied {A} (s p : option Node) (reply : option Node -> option Node -> A -> Prop) (a : A) (w : DWorld) : Prop :=
  exists s' p', (moves s p s' p' /\ reply s' p' a) /\ at_row key s' p' w.

Lemma replied_same {A} s p (reply : option Node -> option Node -> A -> Prop) a w :
  at_row key s p w -> reply s p a -> replied s p reply a w.
Proof. intros Hw Hr. exists s, p. split; [|done]. split; [apply moves_refl|done]. Qed.

Lemma hoare_unchanged {A} s p (reply : option Node -> option Node -> A -> Prop) a :
  reply s p a ->
  hoare (E := FileLedgerError.t) (at_row key s p) (sret a) (replied s p reply) (fun _ => moved s p).
Proof. intros Hr. apply hoare_ret. intros w Hw. by apply replied_same. Qed.

Lemma make_lease_Ok eid check fence e lease :
  make_lease eid check fence e = Ok lease <-> fence <> 0 /\ lease = mkDeliveryLease eid check fence e.
Proof.
  unfold make_lease, lease_fence_new. destruct (Z.eqb_spec fence 0); cbn [ok_or]; naive_solver.
Qed.
Lemma make_lease_fuel eid check fence e : make_lease eid check fence e <> OutOfFuel.
Proof. unfold make_lease. no_fuel. Qed.
Lemma deadline_fuel self t : deadline self t <> OutOfFuel.
Proof. unfold deadline. apply ok_or_fuel. Qed.
#[local] Hint Resolve make_lease_fuel deadline_fuel : fuel.

Lemma hoare_staged config s p eid fence q :
  hoare (at_row key s p) (staged (mkRow key config) eid fence q)
    (fun sp w => published p eid fence q sp /\ at_row key s p w) (fun _ => at_row key s p).
Proof using DL.
  unfold staged. eapply hoare_bind; [apply hoare_load_report|]. intros report. apply hoare_pure. intros Hrep.
  eapply hoare_bind with (R := fun f w => f = fence /\ at_row key s p w).
  { apply hoare_lift; [auto with fuel| |done]. intros f w Hf Hw. split; [|done].
    apply ok_or_Ok in Hf. unfold lease_fence_new in Hf. destruct (fence =? 0); congruence. }
  intros f. apply hoare_pure. intros ->.
  eapply hoare_bind with (R := fun pub w => materialize q report = Ok pub /\ at_row key s p w).
  { apply hoare_lift; auto with fuel. }
  intros pub. apply hoare_pure. intros (Hn & Hr & _)%materialize_exact_spec. apply hoare_ret. intros w Hw.
  split; [|done]. unfold published. cbn. split_and!; [done|done|done|]. rewrite Hr.
  destruct (sp_report q), report; naive_solver.
Qed.

(** Two materializations of one row are the same publication. *)
Lemma published_unique p eid fence q sp sp' :
  validate_metadata q = Ok tt -> published p eid fence q sp -> published p eid fence q sp' -> sp = sp'.
Proof.
  intros Hv (He & Hf & Hn & Hr) (He' & Hf' & Hn' & Hr').
  assert (p_report (stg_publication sp) = p_report (stg_publication sp')) as Heq.
  { apply stored_publication_new_Ok in Hn as (_ & rep & Hrep & Hq), Hn' as (_ & rep' & Hrep' & Hq').
    assert (rep = rep') as <- by (rewrite Hq in Hq'; congruence).
    destruct (p_report (stg_publication sp)) as [data|], (p_report (stg_publication sp')) as [data'|]; [congruence| | |done].
    - cbn in Hrep, Hrep'. destruct (report_ref_new data); [|done|done]. congruence.
    - cbn in Hrep, Hrep'. destruct (report_ref_new data'); [|done|done]. congruence. }
  pose proof (proj2 (materialize_exact_spec q _ (stg_publication sp)) (conj Hn (conj eq_refl Hv))) as H1.
  pose proof (proj2 (materialize_exact_spec q _ (stg_publication sp')) (conj Hn' (conj eq_refl Hv))) as H2.
  destruct sp as [e1 f1 p1], sp' as [e2 f2 p2]; cbn in *. rewrite Heq in H1. congruence.
Qed.

(** ** Saving a step *)

Lemma steps_to_moves s s' p : steps_to s s' -> moves s p s' p.
Proof. by split. Qed.

(** The row holds the new record, one step on. *)
Definition stepped (s p : option Node) (r' : Record_) (w : DWorld) : Prop :=
  exists s', (steps_to s s' /\ row_view key s' = Some (Some r')) /\ at_row key s' p w.

Lemma stepped_moved s p r' w : stepped s p r' w -> moved s p w.
Proof. intros (s' & [Hs _] & Hw). exists s', p. split; [by apply steps_to_moves|done]. Qed.

Lemma hoare_save_step config s p r r' :
  row_view key s = Some (Some r) -> row_step (Some r) r' ->
  hoare (at_row key s p) (save (mkRow key config) r')
    (fun _ => stepped s p r') (fun _ w => at_row key s p w \/ stepped s p r' w).
Proof using DL JRL HHL.
  intros Hv Hs. assert (forall data w, record_encode r' = Ok data -> at_row key (Some (Regular data)) p w ->
    stepped s p r' w) as Hdone.
  { intros data w He Hw. exists (Some (Regular data)). split; [|done]. by eapply steps_to_record. }
  eapply hoare_conseq; [apply (hoare_save key config s p r')|done| |]; naive_solver.
Qed.

Lemma hoare_start_running self config d s p r check fence t :
  row_view key s = Some (Some r) -> record_matches r d check = true ->
  (forall r1 e, advance r t = Ok r1 ->
     row_step (Some r) (set_state r1 (State.Running (fl_owner self) (fence + 1) e))) ->
  hoare (at_row key s p) (start_running self (mkRow key config) r (r_evaluation_id r) check fence t)
    (fun c w => exists lease s', (c = DeliveryClaim.Execute lease /\ granted self d check s' lease /\ steps_to s s')
       /\ at_row key s' p w)
    (fun _ w => exists s', steps_to s s' /\ at_row key s' p w).
Proof using DL JRL HHL.
  intros Hv Hm Hstep. unfold start_running.
  assert (forall w, at_row key s p w -> exists s', steps_to s s' /\ at_row key s' p w) as Hstay
    by (intros w Hw; exists s; split; [by left|done]).
  eapply hoare_bind with (R := fun f w => f = fence + 1 /\ at_row key s p w).
  { apply hoare_lift; [auto with fuel| |eauto]. intros f w Hf Hw. split; [|done].
    apply ok_or_Ok, checked_add_Some in Hf. naive_solver. }
  intros f. apply hoare_pure. intros ->. eapply hoare_bind with (R := fun _ => at_row key s p).
  { apply hoare_lift; eauto with fuel. }
  intros e. eapply hoare_bind with (R := fun r1 w => advance r t = Ok r1 /\ at_row key s p w).
  { apply hoare_lift; eauto with fuel. }
  intros r1. apply hoare_pure. intros Ha.
  eapply hoare_bind with (R := fun _ => stepped s p (set_state r1 (State.Running (fl_owner self) (fence + 1) e))).
  { eapply hoare_conseq; [apply (hoare_save_step config s p r _ Hv (Hstep r1 e Ha))|done|done|].
    intros err w [Hw|(s' & [Hs' _] & Hw)]; eauto. }
  intros _. apply hoare_exists. intros s'. apply hoare_pure. intros [Hs' Hv'].
  eapply hoare_bind with (R := fun lease w =>
    lease = mkDeliveryLease (r_evaluation_id r) check (fence + 1) e /\ at_row key s' p w).
  { apply hoare_lift; [auto with fuel| |eauto]. intros lease w [_ ->]%make_lease_Ok Hw. done. }
  intros lease. apply hoare_pure. intros ->. apply hoare_ret. intros w Hw.
  eexists _, s'. split; [|done]. split; [done|]. split; [|done].
  eexists. split; [done|]. pose proof (row_step_keeps _ _ (Hstep r1 e Ha)) as (Hb & Hk & Hc & Hid & _).
  cbn [r_state set_state l_fence l_expires_at_unix_millis l_evaluation_id l_check].
  split_and!; [done|done|done|]. eapply record_matches_kept; eauto.
Qed.

(** ** Claim *)

Lemma hoare_claim_new self config d check p :
  delivery_key (ad_identity (acc_delivery d)) = Ok key ->
  hoare (at_row key None p) (claim_new self (mkRow key config) d check)
    (replied None p (claim_reply self d check None p)) (fun _ => moved None p).
Proof using DL JRL HHL.
  intros Hkey. unfold claim_new. pose proof (moved_refl None p) as Hstay.
  eapply hoare_bind; [eapply hoare_conseq; [apply (hoare_ledger_now config None p None)|done|done|eauto]|].
  intros t. apply hoare_pure. intros _.
  eapply hoare_bind; [eapply hoare_conseq; [apply (hoare_random None p)|done|done|eauto]|].
  intros nonce. eapply hoare_bind with (R := fun _ => at_row key None p); [apply hoare_lift; eauto with fuel|].
  intros eid. eapply hoare_bind with (R := fun _ => at_row key None p); [apply hoare_lift; eauto with fuel|].
  intros e. set (r := record_running d check eid (fl_owner self) t e).
  assert (forall data w, record_encode r = Ok data -> at_row key (Some (Regular data)) p w -> stepped None p r w)
    as Hnew.
  { intros data w He Hw. exists (Some (Regular data)). split; [|done].
    eapply steps_to_encode; [done|constructor|done|done]. }
  eapply hoare_bind with (R := fun _ => stepped None p r).
  { eapply hoare_conseq; [apply (hoare_save_new key config None p r)|done| |].
    - intros u w (data & [_ He] & Hw). eauto.
    - intros err w [Hw|(data & [_ He] & Hw)]; [eauto|]. eapply stepped_moved. eauto. }
  intros _. apply hoare_exists. intros s'. apply hoare_pure. intros [Hs' Hv'].
  eapply hoare_bind with (R := fun lease w => lease = mkDeliveryLease eid check 1 e /\ at_row key s' p w).
  { apply hoare_lift; [auto with fuel| |].
    - by intros lease w [_ ->]%make_lease_Ok Hw.
    - intros err w _ Hw. exists s', p. split; [by apply steps_to_moves|done]. }
  intros lease. apply hoare_pure. intros ->. apply hoare_ret. intros w Hw.
  exists s', p. split; [|done]. split; [by apply steps_to_moves|].
  exists r. split_and!; [done|done|done|done|]. by apply record_matches_eq.
Qed.

Lemma not_staged s r : row_view key s = Some (Some r) ->
  (forall fence q, r_state r = State.Staged fence q -> has_gate_commit q = false) ->
  ~ exists r fence q, staged_row s r fence q.
Proof. intros Hv Hn (r' & fence & q & Hv' & Hs & Hg). rewrite Hv in Hv'. injection Hv' as <-. by rewrite (Hn _ _ Hs) in Hg. Qed.

(** Removing the report of a row that is not staged for good. *)
Lemma hoare_remove_report_after config s0 p0 s p r :
  steps_to s0 s -> row_view key s0 = Some (Some r) ->
  (forall fence q, r_state r = State.Staged fence q -> has_gate_commit q = false) ->
  hoare (at_row key s p) (remove_report (mkRow key config))
    (fun _ w => moves s0 p0 s None /\ at_row key s None w) (fun _ => moved s0 p0).
Proof using DL.
  intros Hs Hv Hn. pose proof (not_staged _ _ Hv Hn) as Hno.
  assert (forall p', moves s0 p0 s p') as Hm by (intros p'; by split).
  eapply hoare_conseq; [apply (hoare_remove_report key config s p)|done|auto|].
  intros e w [Hw|Hw]; eexists s, _; eauto.
Qed.

Lemma hoare_claim_running self config d check s p r :
  row_view key s = Some (Some r) -> record_matches r d check = true ->
  hoare (at_row key s p) (claim_running self (mkRow key config) r (r_evaluation_id r) check)
    (replied s p (claim_reply self d check s p)) (fun _ => moved s p).
Proof using DL JRL HHL.
  intros Hv Hm. unfold claim_running. pose proof (moved_refl s p) as Hstay.
  destruct (r_state r) as [owner fence e|fence q|fence digest] eqn:Es; try (apply hoare_fail; eauto).
  eapply hoare_bind; [eapply hoare_conseq; [apply (hoare_ledger_now config s p (Some r))|done|done|eauto]|].
  intros t. apply hoare_pure. intros [_ Ht]. specialize (Ht r eq_refl).
  destruct (Z.ltb_spec t e) as [Hlt|Hge].
  - destruct (bytes_eqb owner (fl_owner self)) eqn:Eo.
    + apply bytes_eqb_eq in Eo as ->.
      eapply hoare_bind with (R := fun lease w =>
        lease = mkDeliveryLease (r_evaluation_id r) check fence e /\ at_row key s p w).
      { apply hoare_lift; [auto with fuel| |eauto]. by intros lease w [_ ->]%make_lease_Ok Hw. }
      intros lease. apply hoare_pure. intros ->. apply hoare_ret. intros w Hw.
      apply replied_same; [done|]. exists r. done.
    + apply hoare_ret. intros w Hw. apply replied_same; [done|]. cbn. split_and!; [done|done|].
      exists r, owner, fence. split_and!; try done. intros ->.
      by rewrite (proj2 (bytes_eqb_eq _ _) eq_refl) in Eo.
  - eapply hoare_conseq; [apply (hoare_start_running self config d s p r check fence t Hv Hm)|done| |].
    + intros r1 e' Ha. by eapply step_reclaim.
    + intros c w (lease & s' & (-> & Hg & Hs) & Hw). exists s', p. split; [|done]. split; [by apply steps_to_moves|done].
    + intros err w (s' & Hs & Hw). exists s', p. split; [by apply steps_to_moves|done].
Qed.

Lemma hoare_claim_done self config d check s p r fence digest :
  row_view key s = Some (Some r) -> record_matches r d check = true -> r_state r = State.Done fence digest ->
  hoare (at_row key s p)
    (let! _ := remove_report (mkRow key config) in sret (DeliveryClaim.Duplicate (r_evaluation_id r)))
    (replied s p (claim_reply self d check s p)) (fun _ => moved s p).
Proof using DL.
  intros Hv Hm Es. eapply hoare_bind.
  - apply (hoare_remove_report_after config s p s p r); [by left|done|]. by rewrite Es.
  - intros []. apply hoare_pure. intros Hmv. apply hoare_ret. intros w Hw.
    exists s, None. split; [|done]. split; [done|]. cbn. split; [done|]. by exists r, fence, digest.
Qed.

Lemma hoare_claim_staged self config d check s p r fence q :
  row_view key s = Some (Some r) -> record_matches r d check = true -> r_state r = State.Staged fence q ->
  hoare (at_row key s p)
    (if negb (has_gate_commit q) then
       let! t := now (mkRow key config) (Some r) in
       let! claim := start_running self (mkRow key config) r (r_evaluation_id r) check fence t in
       let! _ := remove_report (mkRow key config) in
       sret claim
     else
       let! sp := staged (mkRow key config) (r_evaluation_id r) fence q in
       sret (DeliveryClaim.Publish sp))
    (replied s p (claim_reply self d check s p)) (fun _ => moved s p).
Proof using DL JRL HHL.
  intros Hv Hm Es. pose proof (moved_refl s p) as Hstay.
  destruct (has_gate_commit q) eqn:Hg; cbn [negb].
  - eapply hoare_bind; [eapply hoare_conseq; [apply (hoare_staged config s p (r_evaluation_id r) fence q)|done|done|eauto]|].
    intros sp. apply hoare_pure. intros Hp. apply hoare_ret. intros w Hw. apply replied_same; [done|].
    cbn. split_and!; [done|done|]. by exists r, fence, q.
  - eapply hoare_bind; [eapply hoare_conseq; [apply (hoare_ledger_now config s p (Some r))|done|done|eauto]|].
    intros t. apply hoare_pure. intros [_ Ht]. specialize (Ht r eq_refl). eapply hoare_bind.
    { eapply hoare_conseq; [apply (hoare_start_running self config d s p r check fence t Hv Hm)|done| |].
      - intros r1 e' Ha. by eapply step_reopen.
      - intros c w Hw. exact Hw.
      - intros err w (s' & Hs & Hw). exists s', p. split; [by apply steps_to_moves|done]. }
    intros c. apply hoare_exists. intros lease. apply hoare_exists. intros s'. apply hoare_pure.
    intros (-> & Hgr & Hs). eapply hoare_bind.
    { apply (hoare_remove_report_after config s p s' p r); [done|done|]. rewrite Es. by intros ? ? [= <- <-]. }
    intros []. apply hoare_pure. intros Hmv. apply hoare_ret. intros w Hw. exists s', None. done.
Qed.

Lemma hoare_claim self config d check s p :
  delivery_key (ad_identity (acc_delivery d)) = Ok key ->
  hoare (at_row key s p) (claim_locked self (mkRow key config) d check)
    (replied s p (claim_reply self d check s p)) (fun _ => moved s p).
Proof using DL JRL HHL.
  intros Hkey. unfold claim_locked. pose proof (moved_refl s p) as Hstay.
  eapply hoare_bind; [eapply hoare_conseq; [apply (hoare_load key config s p)|done|done|eauto]|].
  intros [r|]; apply hoare_pure; intros Hv.
  - destruct (record_matches r d check) eqn:Hm; cbn [negb].
    2: { apply hoare_ret. intros w Hw. apply replied_same; [done|]. cbn. eauto. }
    destruct (r_state r) as [owner fence e|fence q|fence digest] eqn:Es.
    + by apply hoare_claim_running.
    + by eapply hoare_claim_staged.
    + by eapply hoare_claim_done.
  - apply row_view_None in Hv as ->. unfold accepted_expired.
    eapply hoare_bind with (R := fun _ => at_row key None p).
    { eapply hoare_bind; [eapply hoare_conseq; [apply (hoare_ledger_now config None p None)|done|done|eauto]|].
      intros t. apply hoare_pure. intros _. by apply hoare_ret. }
    intros [|]; [apply hoare_fail; eauto|]. by apply hoare_claim_new.
Qed.

(** ** Renew *)

Definition renew_reply (self : FileLedger) (d : AcceptedDelivery) (lease : DeliveryLease)
    (s p s' p' : option Node) (reply : LeaseRenewal.t) : Prop :=
  p' = p /\
  match reply with
  | LeaseRenewal.Renewed lease' =>
      granted self d (l_check lease) s lease /\ granted self d (l_check lease) s' lease' /\
      l_fence lease' = l_fence lease /\ l_expires_at_unix_millis lease <= l_expires_at_unix_millis lease'
  | LeaseRenewal.Lost => s' = s
  end.

(** The guard the owner's operations share. *)
Lemma lease_guard self r lease owner fence e :
  negb (bytes_eqb owner (fl_owner self)) || negb (bytes_eqb (l_evaluation_id lease) (r_evaluation_id r))
    || negb (l_fence lease =? fence) || negb (l_expires_at_unix_millis lease =? e) = false ->
  owner = fl_owner self /\ l_evaluation_id lease = r_evaluation_id r /\ l_fence lease = fence /\
  l_expires_at_unix_millis lease = e.
Proof. intros Hb. bool_prop. apply bytes_eqb_eq in H, H2. done. Qed.

Lemma hoare_renew self config d lease s p :
  hoare (at_row key s p) (renew_locked self (mkRow key config) d lease)
    (replied s p (renew_reply self d lease s p)) (fun _ => moved s p).
Proof using DL JRL HHL.
  unfold renew_locked. pose proof (moved_refl s p) as Hstay.
  pose proof (hoare_unchanged s p (renew_reply self d lease s p) LeaseRenewal.Lost ltac:(done)) as Hlost.
  eapply hoare_bind; [eapply hoare_conseq; [apply (hoare_load key config s p)|done|done|eauto]|].
  intros [r|]; apply hoare_pure; intros Hv; [|by apply Hlost].
  destruct (record_matches r d (l_check lease)) eqn:Hm; cbn [negb]; [|by apply Hlost].
  destruct (r_state r) as [owner fence e|fence q|fence digest] eqn:Es; [|by apply Hlost..].
  destruct (negb _ || _ || _ || _) eqn:Hb; [by apply Hlost|].
  apply lease_guard in Hb as (-> & Hid & <- & <-).
  eapply hoare_bind; [eapply hoare_conseq; [apply (hoare_ledger_now config s p (Some r))|done|done|eauto]|].
  intros t. apply hoare_pure. intros [_ Ht]. specialize (Ht r eq_refl).
  destruct (Z.leb_spec (l_expires_at_unix_millis lease) t) as [|Hlt]; [by apply Hlost|].
  eapply hoare_bind with (R := fun _ => at_row key s p); [apply hoare_lift; eauto with fuel|].
  intros bound. set (e' := Z.max _ bound).
  eapply hoare_bind with (R := fun r1 w => advance r t = Ok r1 /\ at_row key s p w); [apply hoare_lift; eauto with fuel|].
  intros r1. apply hoare_pure. intros Ha.
  assert (row_step (Some r) (set_state r1 (State.Running (fl_owner self) (l_fence lease) e'))) as Hstep
    by (eapply step_renew; [done|done|lia|done]).
  eapply hoare_bind.
  { eapply hoare_conseq; [apply (hoare_save_step config s p r _ Hv Hstep)|done|intros u w Hw; exact Hw|].
    intros err w [Hw|Hw]; [eauto|by eapply stepped_moved]. }
  intros []. apply hoare_exists. intros s'. apply hoare_pure. intros [Hs' Hv'].
  eapply hoare_bind with (R := fun lease' w =>
    lease' = mkDeliveryLease (r_evaluation_id r) (l_check lease) (l_fence lease) e' /\ at_row key s' p w).
  { apply hoare_lift; [auto with fuel|by intros lease' w [_ ->]%make_lease_Ok Hw|].
    intros err w _ Hw. exists s', p. split; [by apply steps_to_moves|done]. }
  intros lease'. apply hoare_pure. intros ->. apply hoare_ret. intros w Hw.
  exists s', p. split; [|done]. split; [by apply steps_to_moves|]. split; [done|].
  pose proof (row_step_keeps _ _ Hstep) as (Hb & Hk & Hc & Hi & _).
  split_and!; [by exists r| |done|cbn; lia].
  eexists. split_and!; [done|done|done|done|]. by eapply record_matches_kept.
Qed.

(** ** Stage *)

Definition stage_reply (self : FileLedger) (d : AcceptedDelivery) (lease : DeliveryLease) (pub : Publication)
    (s p s' p' : option Node) (reply : StageOutcome.t) : Prop :=
  match reply with
  | StageOutcome.Staged sp =>
      sp = mkStagedPublication (l_evaluation_id lease) (l_fence lease) pub /\
      (s' = s \/ granted self d (l_check lease) s lease) /\
      exists r q, staged_row s' r (l_fence lease) q /\ record_matches r d (l_check lease) = true /\
        published p' (r_evaluation_id r) (l_fence lease) q sp
  | StageOutcome.Lost => s' = s /\ p' = p
  end.

Lemma stored_publication_gate pub q : stored_publication_new pub = Ok q -> has_gate_commit q = true.
Proof. intros (_ & rep & _ & ->)%stored_publication_new_Ok. done. Qed.

Lemma hoare_restage self config d lease pub s p r fence q :
  row_view key s = Some (Some r) -> record_matches r d (l_check lease) = true ->
  r_state r = State.Staged fence q ->
  hoare (at_row key s p) (restage (mkRow key config) lease pub (r_evaluation_id r) fence q)
    (replied s p (stage_reply self d lease pub s p)) (fun _ => moved s p).
Proof using DL.
  intros Hv Hm Es. pose proof (moved_refl s p) as Hstay. unfold restage.
  eapply hoare_bind; [eapply hoare_conseq; [apply (hoare_staged config s p (r_evaluation_id r) fence q)|done|done|eauto]|].
  intros sp. apply hoare_pure. intros Hp.
  destruct (bytes_eqb _ _ && _ && _) eqn:Eb; apply hoare_ret; intros w Hw; (apply replied_same; [done|]); [|done].
  apply andb_prop in Eb as [Eb E3]. apply andb_prop in Eb as [E1 E2].
  apply bytes_eqb_eq in E1. apply Z.eqb_eq in E2. apply bool_decide_eq_true in E3.
  pose proof Hp as (_ & Hf & Hn & _). cbn. split; [destruct sp; cbn in *; congruence|]. split; [by left|].
  exists r, q. assert (fence = l_fence lease) as -> by congruence. split_and!; [|done|done].
  split_and!; [done|done|]. by eapply stored_publication_gate.
Qed.

Lemma hoare_stage_running self config d lease pub s p r :
  row_view key s = Some (Some r) -> record_matches r d (l_check lease) = true ->
  hoare (at_row key s p) (stage_running self (mkRow key config) lease pub r (r_evaluation_id r))
    (replied s p (stage_reply self d lease pub s p)) (fun _ => moved s p).
Proof using DL JRL HHL.
  intros Hv Hm. pose proof (moved_refl s p) as Hstay. unfold stage_running.
  pose proof (hoare_unchanged s p (stage_reply self d lease pub s p) StageOutcome.Lost ltac:(done)) as Hlost.
  destruct (r_state r) as [owner fence e|fence q|fence digest] eqn:Es; try (apply hoare_fail; eauto).
  destruct (negb _ || _ || _ || _) eqn:Hb; [by apply Hlost|].
  apply lease_guard in Hb as (-> & Hid & <- & <-).
  assert (~ exists r fence q, staged_row s r fence q) as Hno by (eapply not_staged; [done|by rewrite Es]).
  assert (forall p', moves s p s p') as Hfree by (intros p'; split; [by left|done]).
  eapply hoare_bind; [eapply hoare_conseq; [apply (hoare_ledger_now config s p (Some r))|done|done|eauto]|].
  intros t. apply hoare_pure. intros [_ Ht]. specialize (Ht r eq_refl).
  destruct (Z.leb_spec (l_expires_at_unix_millis lease) t) as [|Hlt]; [by apply Hlost|].
  eapply hoare_bind with (R := fun q w => stored_publication_new pub = Ok q /\ at_row key s p w);
    [apply hoare_lift; eauto with fuel|].
  intros q. apply hoare_pure. intros Hq. eapply hoare_bind.
  { eapply hoare_conseq; [apply (hoare_remove_report key config s p)|done|done|].
    intros err w [Hw|Hw]; eexists s, _; eauto. }
  intros []. eapply hoare_bind with (R := fun _ w => exists p', match p_report pub with
      Some data => p' = Some (Regular data) | None => True end /\ at_row key s p' w).
  { eapply hoare_conseq; [apply (hoare_save_report key config s None (p_report pub) (sp_report q))|done| |].
    - intros u w Hw. destruct (p_report pub); eauto.
    - intros err w (p' & Hw). exists s, p'. eauto. }
  intros []. apply hoare_exists. intros p'. apply hoare_pure. intros Hrep.
  eapply hoare_bind with (R := fun r1 w => advance r t = Ok r1 /\ at_row key s p' w).
  { apply hoare_lift; [auto with fuel|done|]. intros err w _ Hw. exists s, p'. eauto. }
  intros r1. apply hoare_pure. intros Ha. pose proof (stored_publication_gate _ _ Hq) as Hgate.
  assert (row_step (Some r) (set_state r1 (State.Staged (l_fence lease) q))) as Hstep by by eapply step_stage.
  eapply hoare_bind.
  { eapply hoare_conseq; [apply (hoare_save_step config s p' r _ Hv Hstep)|done|intros u w Hw; exact Hw|].
    intros err w [Hw|(s' & [Hs' _] & Hw)]; [exists s, p'; eauto|]. exists s', p'. split; [by split|done]. }
  intros []. apply hoare_exists. intros s'. apply hoare_pure. intros [Hs' Hv']. apply hoare_ret. intros w Hw.
  exists s', p'. split; [|done]. split; [by split|]. cbn. rewrite Hid. split; [done|].
  pose proof (row_step_keeps _ _ Hstep) as (Hkb & Hk & Hc & Hi & _).
  split; [right; by exists r|]. eexists _, q. split; [by split_and!|]. split; [by eapply record_matches_kept|].
  rewrite Hi. by split_and!.
Qed.

Lemma hoare_stage self config d lease pub s p :
  hoare (at_row key s p) (stage_locked self (mkRow key config) d lease pub)
    (replied s p (stage_reply self d lease pub s p)) (fun _ => moved s p).
Proof using DL JRL HHL.
  unfold stage_locked. pose proof (moved_refl s p) as Hstay.
  pose proof (hoare_unchanged s p (stage_reply self d lease pub s p) StageOutcome.Lost ltac:(done)) as Hlost.
  eapply hoare_bind; [eapply hoare_conseq; [apply (hoare_load key config s p)|done|done|eauto]|].
  intros [r|]; apply hoare_pure; intros Hv; [|by apply Hlost].
  destruct (record_matches r d (l_check lease)) eqn:Hm; cbn [negb orb]; [|by apply Hlost].
  destruct (negb _ || _); [by apply Hlost|].
  destruct (r_state r) as [owner fence e|fence q|fence digest] eqn:Es; [|by apply hoare_restage|by apply Hlost].
  by apply hoare_stage_running.
Qed.

(** ** Complete *)

Definition complete_reply (d : AcceptedDelivery) (sp : StagedPublication)
    (s p s' p' : option Node) (reply : LeaseCompletion.t) : Prop :=
  match reply with
  | LeaseCompletion.Completed =>
      exists r q digest, row_view key s' = Some (Some r) /\ r_state r = State.Done (stg_fence sp) digest /\
        record_matches r d (p_check (stg_publication sp)) = true /\
        stg_evaluation_id sp = r_evaluation_id r /\ stored_publication_new (stg_publication sp) = Ok q /\
        staged_digest (r_evaluation_id r) (stg_fence sp) q = Ok digest /\
        (s' = s \/ exists r0, staged_row s r0 (stg_fence sp) q /\
           published p (r_evaluation_id r0) (stg_fence sp) q sp)
  | LeaseCompletion.Lost => s' = s /\ p' = p
  end.

Lemma hoare_complete_done config d sp s p r q digest fence :
  row_view key s = Some (Some r) -> record_matches r d (p_check (stg_publication sp)) = true ->
  stg_evaluation_id sp = r_evaluation_id r -> r_state r = State.Done fence digest ->
  stored_publication_new (stg_publication sp) = Ok q ->
  staged_digest (r_evaluation_id r) (stg_fence sp) q = Ok digest -> fence = stg_fence sp ->
  hoare (at_row key s p) (let! _ := remove_report (mkRow key config) in sret LeaseCompletion.Completed)
    (replied s p (complete_reply d sp s p)) (fun _ => moved s p).
Proof using DL.
  intros Hv Hm Hid Es Hq Hd ->. eapply hoare_bind.
  - apply (hoare_remove_report_after config s p s p r); [by left|done|]. by rewrite Es.
  - intros []. apply hoare_pure. intros Hmv. apply hoare_ret. intros w Hw.
    exists s, None. split; [|done]. split; [done|]. exists r, q, digest. split_and!; try done. by left.
Qed.

Lemma hoare_complete_staged config d sp s p r q digest fence :
  row_view key s = Some (Some r) -> record_matches r d (p_check (stg_publication sp)) = true ->
  stg_evaluation_id sp = r_evaluation_id r -> r_state r = State.Staged fence q ->
  stored_publication_new (stg_publication sp) = Ok q ->
  staged_digest (r_evaluation_id r) (stg_fence sp) q = Ok digest -> fence = stg_fence sp ->
  hoare (at_row key s p)
    (let! report := load_report (mkRow key config) (sp_report q) in
     if negb (bool_decide (report = p_report (stg_publication sp))) then sret LeaseCompletion.Lost
     else
       let! r1 := slift (advance r (r_last_seen_unix_millis r)) in
       let! _ := save (mkRow key config) (set_state r1 (State.Done fence digest)) in
       let! _ := remove_report (mkRow key config) in
       sret LeaseCompletion.Completed)
    (replied s p (complete_reply d sp s p)) (fun _ => moved s p).
Proof using DL JRL HHL.
  intros Hv Hm Hid Es Hq Hd ->. pose proof (moved_refl s p) as Hstay.
  pose proof (stored_publication_gate _ _ Hq) as Hgate.
  eapply hoare_bind; [eapply hoare_conseq; [apply (hoare_load_report key config s p (sp_report q))|done|done|eauto]|].
  intros report. apply hoare_pure. intros Hrep.
  case_bool_decide as Hr; cbn [negb]; [|by apply hoare_unchanged].
  eapply hoare_bind with (R := fun r1 w => advance r (r_last_seen_unix_millis r) = Ok r1 /\ at_row key s p w);
    [apply hoare_lift; eauto with fuel|].
  intros r1. apply hoare_pure. intros Ha.
  assert (row_step (Some r) (set_state r1 (State.Done (stg_fence sp) digest))) as Hstep by by eapply step_done.
  eapply hoare_bind.
  { eapply hoare_conseq; [apply (hoare_save_step config s p r _ Hv Hstep)|done|intros u w Hw; exact Hw|].
    intros err w [Hw|Hw]; [eauto|by eapply stepped_moved]. }
  intros []. apply hoare_exists. intros s'. apply hoare_pure. intros [Hs' Hv'].
  pose proof (row_step_keeps _ _ Hstep) as (Hkb & Hk & Hc & Hi & Hgen & _).
  assert (forall p', moves s p s' p') as Hfree.
  { intros p'. split; [done|]. intros ->. rewrite Hv in Hv'. injection Hv' as Heq. rewrite <- Heq in Hgen. lia. }
  eapply hoare_bind.
  { eapply hoare_conseq; [apply (hoare_remove_report key config s' p)|done|done|].
    intros err w [Hw|Hw]; eexists s', _; eauto. }
  intros []. apply hoare_ret. intros w Hw. exists s', None. split; [|done]. split; [done|].
  eexists _, q, digest. split_and!; [done|done|by eapply record_matches_kept|congruence|done|congruence|].
  right. exists r. split; [by split_and!|]. split_and!; [done|done|done|].
  rewrite <- Hr. destruct (sp_report q), report; naive_solver.
Qed.

Lemma hoare_complete config d sp s p :
  hoare (at_row key s p) (complete_locked (mkRow key config) d sp)
    (replied s p (complete_reply d sp s p)) (fun _ => moved s p).
Proof using DL JRL HHL.
  unfold complete_locked. pose proof (moved_refl s p) as Hstay.
  pose proof (hoare_unchanged s p (complete_reply d sp s p) LeaseCompletion.Lost ltac:(done)) as Hlost.
  eapply hoare_bind; [eapply hoare_conseq; [apply (hoare_load key config s p)|done|done|eauto]|].
  intros [r|]; apply hoare_pure; intros Hv.
  2: { eapply hoare_bind; [eapply hoare_conseq; [apply (hoare_ledger_now config s p None)|done|done|eauto]|].
       intros t. by apply hoare_pure. }
  unfold complete_record. destruct (record_matches r d _) eqn:Hm; cbn [negb orb]; [|done].
  destruct (bytes_eqb _ _) eqn:Eid; cbn [negb]; [|done]. apply bytes_eqb_eq in Eid.
  destruct (stored_publication_new (stg_publication sp)) as [q|err|] eqn:Eq.
  3: { by apply stored_publication_new_fuel in Eq. }
  2: { destruct err; try (apply hoare_fail; eauto). done. }
  eapply hoare_bind with (R := fun digest w =>
    staged_digest (r_evaluation_id r) (stg_fence sp) q = Ok digest /\ at_row key s p w);
    [apply hoare_lift; eauto with fuel|].
  intros digest. apply hoare_pure. intros Hd.
  destruct (r_state r) as [owner fence e|fence q'|fence digest'] eqn:Es; [done| |].
  - destruct (Z.eqb_spec fence (stg_fence sp)) as [Hf|]; cbn [negb]; [|done].
    eapply hoare_bind with (R := fun _ => at_row key s p); [apply hoare_lift; eauto with fuel|].
    intros own. destruct (negb _); cbn [orb]; [done|]. case_bool_decide as Heq; cbn [negb]; [|done].
    subst q'. by apply hoare_complete_staged.
  - destruct (Z.eqb_spec fence (stg_fence sp)) as [Hf|]; cbn [andb]; [|done].
    case_bool_decide as Heq; [|done]. subst digest'. by eapply hoare_complete_done.
Qed.
End Steps.
