(* ===== verification/CtlHistory.v ===== *)
(** Histories of one row. A visit is the part of a ledger operation that runs
    with the row's lock held; a history is any sequence of visits of any
    sessions, each succeeding or stopping at any failed call, in which nothing
    else touches the row's two files. Between visits, and in every other file
    also during them, anything may happen. *)
From Stdlib Require Import Strings.Byte Strings.String Lia.
From stdpp Require Import base numbers gmap list.
From S2P Require Import Prelude Codec WireModel CtlModel CtlFrame CtlCapacity OrdMap Observation CtlRecord CtlStore CtlDisk CtlRow CtlLedgerApi CtlLedger CtlMemory CtlExample CtlSteps.
Import FileLedgerError.

(** ** Operations *)

Module Call.
Inductive t :=
  | Claim (delivery : AcceptedDelivery) (check : CheckBinding)
  | Renew (delivery : AcceptedDelivery) (lease : DeliveryLease)
  | Stage (delivery : AcceptedDelivery) (lease : DeliveryLease) (publication : Publication)
  | Complete (delivery : AcceptedDelivery) (staged : StagedPublication).
Definition delivery (c : t) : AcceptedDelivery :=
  match c with Claim d _ | Renew d _ | Stage d _ _ | Complete d _ => d end.
End Call.

Module Reply.
Inductive t :=
  | Claimed (claim : DeliveryClaim.t)
  | Renewal (renewal : LeaseRenewal.t)
  | Staging (outcome : StageOutcome.t)
  | Completion (completion : LeaseCompletion.t).
End Reply.

Section History.
Context `{DK : Disk} `{HX : Hex} {DL : DiskLaws} `{HH : Hashes} {HHL : HashLaws HH} `{UP : UrlParser}.
Context `{JK : Json StoredDeliveryKey} `{JS : Json StagedDigest} `{JR : Json Record_}
        `{JM : Json RootMetadata} `{JC : Json Capacity}.

Abbreviation op A := (sres DWorld A FileLedgerError.t).

Definition smap {A B} (f : A -> B) (m : op A) : op B := let! a := m in sret (f a).

(** A whole operation, and its part under the row's lock. *)
Definition operation (self : FileLedger) (c : Call.t) : op Reply.t :=
  match c with
  | Call.Claim d check => smap Reply.Claimed (claim self d check)
  | Call.Renew d lease => smap Reply.Renewal (renew self d lease)
  | Call.Stage d lease p => smap Reply.Staging (stage self d lease p)
  | Call.Complete d sp => smap Reply.Completion (complete self d sp)
  end.
Definition locked (self : FileLedger) (c : Call.t) (r : Row) : op Reply.t :=
  match c with
  | Call.Claim d check => smap Reply.Claimed (claim_locked self r d check)
  | Call.Renew d lease => smap Reply.Renewal (renew_locked self r d lease)
  | Call.Stage d lease p => smap Reply.Staging (stage_locked self r d lease p)
  | Call.Complete d sp => smap Reply.Completion (complete_locked r d sp)
  end.

Record Visit := mkVisit {
  v_self : FileLedger; v_call : Call.t; v_before : DWorld; v_after : DWorld;
  v_result : res Reply.t FileLedgerError.t
}.

Definition visit (key : bytes) (v : Visit) : Prop :=
  row_guarded key (v_before v) /\
  delivery_key (ad_identity (acc_delivery (Call.delivery (v_call v)))) = Ok key /\
  locked (v_self v) (v_call v) (mkRow key (fl_config (v_self v))) (v_before v) = (v_result v, v_after v).

(** The row's two files. *)
Definition files (key : bytes) (w : DWorld) : option Node * option Node :=
  (dk_entry w (state_name key), dk_entry w (report_name key)).

Inductive history (key : bytes) : option Node * option Node -> list Visit -> option Node * option Node -> Prop :=
  | history_nil f : history key f [] f
  | history_cons v vs f :
      visit key v -> history key (files key (v_after v)) vs f -> history key (files key (v_before v)) (v :: vs) f.

Lemma history_app key f vs vs' f' :
  history key f (vs ++ vs') f' <-> exists f1, history key f vs f1 /\ history key f1 vs' f'.
Proof.
  revert f. induction vs as [|v vs IH]; intros f; cbn [app].
  - split; [intros H; exists f; split; [constructor|done]|]. intros (f1 & H1 & H2). by inversion H1; subst.
  - split.
    + inversion 1 as [|? ? ? Hv Hh]; subst. apply IH in Hh as (f1 & H1 & H2). exists f1. split; [by constructor|done].
    + intros (f1 & H1 & H2). inversion H1 as [|? ? ? Hv Hh]; subst. constructor; [done|]. apply IH. eauto.
Qed.

(** The lock an operation takes before its visit. *)
Lemma hoare_row self d :
  hoare (fun _ => True) (row self d)
    (fun r w => exists key, (r = mkRow key (fl_config self) /\
       delivery_key (ad_identity (acc_delivery d)) = Ok key) /\ row_guarded key w)
    (fun _ _ => True).
Proof using DL.
  assert (stable (fun _ => True)) as Hst by done. unfold row, lock.
  eapply hoare_bind with (R := fun key _ => delivery_key (ad_identity (acc_delivery d)) = Ok key).
  { apply hoare_lift; auto with fuel. }
  intros key. apply hoare_know with (F := delivery_key (ad_identity (acc_delivery d)) = Ok key); [done|].
  intros Hk. eapply hoare_bind with (R := fun _ _ => validate_key key = Ok tt).
  { apply hoare_lift; [auto with fuel| |done]. by intros [] w Hv _. }
  intros _. eapply hoare_know with (F := validate_key key = Ok tt); [done|]. intros Hv.
  destruct (match acc_replay_keep d with ReplayKeep.Permanent => _ | _ => _ end); [by apply hoare_fail|].
  eapply hoare_bind with (R := fun f w => dk_name f = MAINTENANCE_LOCK /\ True).
  { eapply hoare_pre; [by apply hoare_open_lock|done]. }
  intros f. apply hoare_pure. intros Hf. eapply hoare_bind with (R := fun _ w => dk_held w MAINTENANCE_LOCK).
  { rewrite <- Hf. eapply hoare_conseq; [by apply (hoare_lock_shared (fun _ => True))|done| |done]. by intros u w [Hw _]. }
  intros _. eapply hoare_bind with (R := fun l w => row_lock_name key = Ok l /\ dk_held w MAINTENANCE_LOCK).
  { apply hoare_lift; auto with fuel. }
  intros l. apply hoare_pure. intros Hl. eapply hoare_bind with (R := fun f w => dk_name f = l /\ dk_held w MAINTENANCE_LOCK).
  { eapply hoare_conseq; [apply (hoare_open_lock (fun w => dk_held w MAINTENANCE_LOCK))|done|done|done].
    - apply stable_held.
    - intros w w' Hw (Hh & _). auto. }
  intros f'. apply hoare_pure. intros Hf'.
  eapply hoare_bind with (R := fun _ w => dk_held w l /\ dk_held w MAINTENANCE_LOCK).
  { rewrite <- Hf'. eapply hoare_conseq; [apply (hoare_lock (fun w => dk_held w MAINTENANCE_LOCK)), stable_held|done|done|done]. }
  intros _. apply hoare_ret. intros w [Hw Hm]. exists key. split; [done|]. split_and!; [done|done|]. eauto.
Qed.

(** Every operation fails before it has the lock, or is a visit. *)
Lemma operation_visit self c w result w' :
  operation self c w = (result, w') ->
  (exists e, result = Err e /\ row self (Call.delivery c) w = (Err e, w')) \/
  exists key w1, visit key (mkVisit self c w1 w' result).
Proof using DL.
  intros Ho. pose proof (hoare_row self (Call.delivery c) w I) as Hr.
  assert (operation self c w = match row self (Call.delivery c) w with
    | (Ok r, w1) => locked self c r w1 | (Err e, w1) => (Err e, w1) | (OutOfFuel, w1) => (OutOfFuel, w1) end) as He.
  { destruct c; cbn [operation locked Call.delivery]; unfold smap, claim, renew, stage, complete, sbind;
      by destruct (row self delivery w) as [[r|e|] w1]. }
  rewrite He in Ho. destruct (row self (Call.delivery c) w) as [[r|e|] w1]; [|left; naive_solver|done].
  destruct Hr as (key & [-> Hk] & Hg). right. by exists key, w1.
Qed.

(** ** One visit *)

Definition reply_ok (key : bytes) (v : Visit) (s p s' p' : option Node) (reply : Reply.t) : Prop :=
  match v_call v, reply with
  | Call.Claim d check, Reply.Claimed c => claim_reply key (v_self v) d check s p s' p' c
  | Call.Renew d lease, Reply.Renewal x => renew_reply key (v_self v) d lease s p s' p' x
  | Call.Stage d lease pub, Reply.Staging x => stage_reply key (v_self v) d lease pub s p s' p' x
  | Call.Complete d sp, Reply.Completion x => complete_reply key d sp s p s' p' x
  | _, _ => False
  end.

Context {JRL : JsonLaws Record_}.

Lemma hoare_smap {A B} P (m : op A) (f : A -> B) Q X :
  hoare P m (fun a => Q (f a)) X -> hoare P (smap f m) Q X.
Proof. intros Hm. eapply hoare_bind; [exact Hm|]. intros a. by apply hoare_ret. Qed.

Lemma hoare_locked key v s p :
  delivery_key (ad_identity (acc_delivery (Call.delivery (v_call v)))) = Ok key ->
  hoare (at_row key s p) (locked (v_self v) (v_call v) (mkRow key (fl_config (v_self v))))
    (replied key s p (reply_ok key v s p)) (fun _ => moved key s p).
Proof using DL JRL HHL.
  intros Hk. unfold locked, reply_ok. destruct (v_call v) as [d check|d lease|d lease pub|d sp]; apply hoare_smap.
  - by apply hoare_claim.
  - apply hoare_renew.
  - apply hoare_stage.
  - apply hoare_complete.
Qed.

(** A visit leaves the row as it was or one step on, and its reply is true of
    the row. *)
Lemma visit_moves key v :
  visit key v ->
  let '(s, p) := files key (v_before v) in
  let '(s', p') := files key (v_after v) in
  moves key s p s' p' /\
  match v_result v with Ok reply => reply_ok key v s p s' p' reply | Err _ => True | OutOfFuel => False end.
Proof using DL JRL HHL.
  intros (Hg & Hk & He). unfold files.
  pose proof (hoare_locked key v _ _ Hk (v_before v) (conj Hg (conj eq_refl eq_refl))) as Hh.
  rewrite He in Hh. destruct (v_result v) as [reply|e|]; [|split|done].
  - by destruct Hh as (s' & p' & [Hm Hr] & (_ & -> & ->)).
  - by destruct Hh as (s' & p' & Hm & (_ & -> & ->)).
  - done.
Qed.

(** ** Invariants along a history *)

Lemma history_invariant key (J : option Node * option Node -> Prop) :
  (forall v, visit key v -> J (files key (v_before v)) -> J (files key (v_after v))) ->
  forall f vs f', history key f vs f' -> J f -> J f'.
Proof. intros Hv f vs f'. induction 1; eauto. Qed.

(** What holds of the row's record from then on. *)
Definition holds (key : bytes) (F : Record_ -> Prop) (f : option Node * option Node) : Prop :=
  exists r, row_view key f.1 = Some (Some r) /\ F r.

Lemma holds_visit key F v :
  (forall r r', row_step (Some r) r' -> F r -> F r') ->
  visit key v -> holds key F (files key (v_before v)) -> holds key F (files key (v_after v)).
Proof using DL JRL HHL.
  intros HF Hv%visit_moves (r & Hr & Hf). unfold files in *. cbn [fst] in *.
  destruct Hv as [[[Hs|(o & r' & Ho & Hr' & Hstep)] _] _].
  - exists r. cbn [fst]. by rewrite Hs.
  - exists r'. split; [done|]. rewrite Hr in Ho. injection Ho as <-. eauto.
Qed.

Lemma holds_history key F f vs f' :
  (forall r r', row_step (Some r) r' -> F r -> F r') -> history key f vs f' -> holds key F f -> holds key F f'.
Proof using DL JRL HHL. intros HF. apply history_invariant. intros v. by apply holds_visit. Qed.

(** ** Leases *)

(** The visit returned this lease to its session. *)
Definition grants (v : Visit) (lease : DeliveryLease) : Prop :=
  v_result v = Ok (Reply.Claimed (DeliveryClaim.Execute lease)) \/
  v_result v = Ok (Reply.Renewal (LeaseRenewal.Renewed lease)).

(** What a granted lease means for the record from then on: under its fence
    nobody else runs, and its end never moves forward; a later fence exists
    only once the lease has ended. *)
Definition leased (owner : bytes) (fence : u64) (e : i64) (r : Record_) : Prop :=
  (fence_of (r_state r) = fence /\
   match r_state r with
   | State.Running owner' _ e' => owner' = owner /\ e <= e'
   | State.Staged _ q => has_gate_commit q = true
   | State.Done _ _ => True
   end) \/
  (fence < fence_of (r_state r) /\ e <= r_last_seen_unix_millis r).

Lemma leased_step owner fence e r r' : row_step (Some r) r' -> leased owner fence e r -> leased owner fence e r'.
Proof.
  intros Hs [[Hf Hm]|[Hf Hm]].
  - revert Hf Hm. inversion Hs as [|? ? ? ? ? ? ? Er ? ? Ha|? ? ? ? ? ? ? ? Er ? ? Ha|? ? ? ? ? ? ? Er Hg ? Ha|? ? ? ? ? ? ? Er ? ? Ha|? ? ? ? ? Er ? Ha];
      subst; rewrite Er; cbn [fence_of]; intros Hf Hm; unfold leased; cbn [r_state set_state fence_of].
    + left. destruct Hm. split; [done|]. split; [done|lia].
    + right. apply advance_Ok in Ha as [_ ->]. cbn. lia.
    + congruence.
    + by left.
    + by left.
  - right. apply row_step_keeps in Hs as (_ & _ & _ & _ & _ & Hl & Hfe). lia.
Qed.

Lemma grants_row key v lease :
  visit key v -> grants v lease ->
  holds key (fun r => r_state r = State.Running (fl_owner (v_self v)) (l_fence lease) (l_expires_at_unix_millis lease))
    (files key (v_after v)).
Proof using DL JRL HHL.
  intros Hv%visit_moves Hg. unfold files in *. destruct Hv as [_ Hr].
  destruct Hg as [He|He]; rewrite He in Hr; unfold reply_ok in Hr; destruct (v_call v); try done.
  - destruct Hr as (r & Hv & Hs & _). by exists r.
  - destruct Hr as (_ & _ & (r & Hv & Hs & _) & _). by exists r.
Qed.

Lemma history_pair key f vs1 v1 vs2 v2 vs3 f' :
  history key f (vs1 ++ v1 :: vs2 ++ v2 :: vs3) f' ->
  visit key v1 /\ visit key v2 /\
  history key (files key (v_after v1)) (vs2 ++ [v2]) (files key (v_after v2)) /\
  history key (files key (v_after v1)) vs2 (files key (v_before v2)).
Proof.
  intros (f1 & _ & H1)%history_app. inversion H1 as [|? ? ? Hv1 Hh]; subst.
  apply history_app in Hh as (f2 & H2 & H3). inversion H3 as [|? ? ? Hv2 Hh]; subst.
  split_and!; [done|done| |done]. apply history_app. eexists. split; [done|]. constructor; [done|constructor].
Qed.

(** ** Publications *)

(** The row holds this publication, staged with its report or completed. *)
Definition settled (key : bytes) (sp : StagedPublication) (f : option Node * option Node) : Prop :=
  exists r, row_view key f.1 = Some (Some r) /\ r_evaluation_id r = stg_evaluation_id sp /\
    ((exists q, staged_row key f.1 r (stg_fence sp) q /\
        published f.2 (r_evaluation_id r) (stg_fence sp) q sp) \/
     exists fence digest, r_state r = State.Done fence digest).

Lemma row_step_staged r r' fence q :
  row_step (Some r) r' -> r_state r = State.Staged fence q -> has_gate_commit q = true ->
  exists digest, r_state r' = State.Done fence digest.
Proof.
  intros Hs Er Hg. inversion Hs as [|? ? ? ? ? ? ? E1|? ? ? ? ? ? ? ? E1|? ? ? ? ? ? ? E1|? ? ? ? ? ? ? E1|? ? ? ? ? E1];
    subst; rewrite Er in E1; try discriminate; injection E1 as <- <-; [congruence|]. eexists. done.
Qed.

Lemma row_step_done r r' fence digest : row_step (Some r) r' -> r_state r <> State.Done fence digest.
Proof. inversion 1; congruence. Qed.

Lemma settled_visit key sp v :
  visit key v -> settled key sp (files key (v_before v)) -> settled key sp (files key (v_after v)).
Proof using DL JRL HHL.
  intros Hv%visit_moves (r & Hr & Hid & Hst). unfold files in *. cbn [fst snd] in *.
  destruct Hv as [[[Hs|(o & r' & Ho & Hr' & Hstep)] Hrep] _].
  - exists r. cbn [fst snd]. rewrite Hs. split_and!; [done|done|].
    destruct Hst as [(q & Hq & Hp)|Hd]; [|by right]. left. exists q. split; [done|].
    rewrite Hrep; [done|done|]. by exists r, (stg_fence sp), q.
  - rewrite Hr in Ho. injection Ho as <-. exists r'. cbn [fst snd].
    pose proof (row_step_keeps _ _ Hstep) as (_ & _ & _ & Hi & _). split_and!; [done|congruence|].
    right. destruct Hst as [(q & (_ & Eq & Hg) & _)|(fence & digest & Ed)].
    + eexists. by eapply row_step_staged.
    + by apply row_step_done with (fence := fence) (digest := digest) in Hstep.
Qed.

(** The visit handed out this publication. *)
Definition hands_out (v : Visit) (sp : StagedPublication) : Prop :=
  v_result v = Ok (Reply.Staging (StageOutcome.Staged sp)) \/
  v_result v = Ok (Reply.Claimed (DeliveryClaim.Publish sp)).

Lemma hands_out_settled key v sp : visit key v -> hands_out v sp -> settled key sp (files key (v_after v)).
Proof using DL JRL HHL.
  intros Hv%visit_moves Hg. unfold files in *. destruct Hv as [_ Hr].
  destruct Hg as [He|He]; rewrite He in Hr; unfold reply_ok in Hr; destruct (v_call v); try done.
  - destruct Hr as (Hsp & _ & r & q & Hst & _ & Hp). pose proof Hp as (Hid & Hf & _). exists r.
    split_and!; [apply Hst|done|]. left. exists q. cbn [fst snd]. by rewrite Hf.
  - destruct Hr as (-> & -> & r & fence & q & Hst & _ & Hp). pose proof Hp as (Hid & Hf & _). exists r.
    split_and!; [apply Hst|done|]. left. exists q. cbn [fst snd]. by rewrite Hf.
Qed.

Lemma published_same key s p r fence q sp r' fence' q' sp' :
  staged_row key s r fence q -> published p (r_evaluation_id r) fence q sp ->
  staged_row key s r' fence' q' -> published p (r_evaluation_id r') fence' q' sp' -> sp' = sp.
Proof.
  intros (Hv & Hs & Hg) Hp (Hv' & Hs' & _) Hp'. rewrite Hv in Hv'. injection Hv' as <-.
  rewrite Hs in Hs'. injection Hs' as <- <-.
  apply row_view_valid in Hv as [Hval _].
  pose proof (record_validate_staged _ _ _ Hval Hs) as Hb. apply validate_binding_Ok in Hb as (_ & _ & _ & _ & Hmeta).
  by eapply published_unique; [apply Hmeta|..].
Qed.

Lemma settled_running key sp f r owner fence e :
  settled key sp f -> row_view key f.1 = Some (Some r) -> r_state r = State.Running owner fence e -> False.
Proof.
  intros (r' & Hr & _ & [(q & (_ & Es & _) & _)|(fence' & digest & Es)]) Hv Hr'; congruence.
Qed.

Lemma settled_granted key sp f self d check lease :
  settled key sp f -> granted key self d check f.1 lease -> False.
Proof. intros Hs (r & Hv & Er & _). by eapply settled_running. Qed.

Lemma settled_published key sp sp' f r fence q :
  settled key sp f -> staged_row key f.1 r fence q -> published f.2 (r_evaluation_id r) fence q sp' -> sp' = sp.
Proof.
  intros (r' & Hr & _ & [(q' & Hst & Hp)|(fence' & digest & Es)]) Hst' Hp'; [exact (published_same _ _ _ _ _ _ _ _ _ _ _ Hst Hp Hst' Hp')|].
  destruct Hst' as (Hv & Es' & _). congruence.
Qed.
End History.

(** ** A history *)

#[local] Existing Instances rfc_hex toy_hash mem_disk no_urls ex_json_key ex_json_digest ex_json_record
  ex_json_metadata ex_json_capacity.
#[local] Existing Instance toy_hash_laws.

Definition ex_visit (self : FileLedger) (c : Call.t) (t : i64) (w : MemDisk) : Visit :=
  let w1 := ex_locked self t w in
  let outcome := locked self c (mkRow ex_key (fl_config self)) w1 in
  mkVisit self c w1 outcome.2 outcome.1.

(** One session claims, the other claims after the lease has ended, stages, and
    claims again. *)
Definition ex_v1 : Visit := ex_visit ex_a (Call.Claim ex_delivery ex_check) 10 ex_root.
Definition ex_v2 : Visit := ex_visit ex_b (Call.Claim ex_delivery ex_check) 70 (v_after ex_v1).
Definition ex_v3 : Visit :=
  ex_visit ex_b (Call.Stage ex_delivery (mkDeliveryLease ex_eid ex_check 2 120) ex_publication) 80 (v_after ex_v2).
Definition ex_v4 : Visit := ex_visit ex_b (Call.Claim ex_delivery ex_check) 80 (v_after ex_v3).

Lemma ex_guarded self t w :
  bool_decide (MAINTENANCE_LOCK ∈ md_locks (ex_locked self t w)) = true ->
  (exists l, row_lock_name ex_key = Ok l /\ bool_decide (l ∈ md_locks (ex_locked self t w)) = true) ->
  row_guarded ex_key (ex_locked self t w).
Proof.
  intros Hm%bool_decide_eq_true (l & Hl & Hh%bool_decide_eq_true).
  refine (conj _ (conj Hm (ex_intro _ l (conj Hl Hh)))). vm_compute. reflexivity.
Qed.

Lemma ex_visit_visit self c t w :
  row_guarded ex_key (ex_locked self t w) ->
  delivery_key (ad_identity (acc_delivery (Call.delivery c))) = Ok ex_key ->
  visit ex_key (ex_visit self c t w).
Proof. intros Hg Hk. exact (conj Hg (conj Hk (surjective_pairing _))). Qed.

Lemma ex_history :
  history ex_key (files ex_key (v_before ex_v1)) [ex_v1; ex_v2; ex_v3; ex_v4] (files ex_key (v_after ex_v4)).
Proof.
  assert (forall v, v = ex_v1 \/ v = ex_v2 \/ v = ex_v3 \/ v = ex_v4 -> visit ex_key v) as Hv.
  { intros v [->|[->|[->| ->]]]; (apply ex_visit_visit; [|vm_compute; reflexivity]);
      (apply ex_guarded; [vm_compute; reflexivity|]); eexists; split; vm_compute; reflexivity. }
  assert (files ex_key (v_after ex_v1) = files ex_key (v_before ex_v2)) as E1 by (vm_compute; reflexivity).
  assert (files ex_key (v_after ex_v2) = files ex_key (v_before ex_v3)) as E2 by (vm_compute; reflexivity).
  assert (files ex_key (v_after ex_v3) = files ex_key (v_before ex_v4)) as E3 by (vm_compute; reflexivity).
  pose proof (Hv _ (or_introl eq_refl)) as H1. pose proof (Hv _ (or_intror (or_introl eq_refl))) as H2.
  pose proof (Hv _ (or_intror (or_intror (or_introl eq_refl)))) as H3.
  pose proof (Hv _ (or_intror (or_intror (or_intror eq_refl)))) as H4.
  apply history_cons; [exact H1|]. rewrite E1. apply history_cons; [exact H2|]. rewrite E2.
  apply history_cons; [exact H3|]. rewrite E3. apply history_cons; [exact H4|apply history_nil].
Qed.

(** C7: what an operation of the file ledger can do. Whatever fails, and wherever,
    an operation either fails before it holds its row's lock, or leaves the
    row's record as it was or exactly one step of the abstract machine on
    (create, renew, reclaim, reopen, stage, complete), keeps the report of a
    staged record, and gives a reply that is true of the row it leaves. *)
Theorem ledger_refines (DK : Disk) (HX : Hex) (DL : DiskLaws) (HH : Hashes) (HHL : HashLaws HH) (UP : UrlParser)
    (JK : Json StoredDeliveryKey) (JS : Json StagedDigest) (JR : Json Record_) (JM : Json RootMetadata)
    (JC : Json Capacity) (JRL : JsonLaws Record_) self c w result w' :
  operation self c w = (result, w') ->
  (exists e, result = Err e /\ row self (Call.delivery c) w = (Err e, w')) \/
  exists key w1,
    delivery_key (ad_identity (acc_delivery (Call.delivery c))) = Ok key /\ row_guarded key w1 /\
    let '(s, p) := files key w1 in
    let '(s', p') := files key w' in
    moves key s p s' p' /\
    match result with
    | Ok reply => reply_ok key (mkVisit self c w1 w' result) s p s' p' reply
    | Err _ => True
    | OutOfFuel => False
    end.
Proof.
  intros [Hf|(key & w1 & Hv)]%operation_visit; [by left|]. right. exists key, w1.
  pose proof Hv as (Hg & Hk & _). split_and!; [done|done|]. by apply visit_moves in Hv.
Qed.

(** C5: mutual exclusion. In any history of a row, of two leases granted one after the
    other the second never has the smaller fence; under one fence both belong
    to the same session and the end does not move forward; and a greater fence
    exists only once the row's clock has reached the end of the first lease. *)
Theorem lease_exclusion (DK : Disk) (HX : Hex) (DL : DiskLaws) (HH : Hashes) (HHL : HashLaws HH) (UP : UrlParser)
    (JK : Json StoredDeliveryKey) (JS : Json StagedDigest) (JR : Json Record_) (JM : Json RootMetadata)
    (JC : Json Capacity) (JRL : JsonLaws Record_) key f vs1 v1 vs2 v2 vs3 f' lease1 lease2 :
  history key f (vs1 ++ v1 :: vs2 ++ v2 :: vs3) f' -> grants v1 lease1 -> grants v2 lease2 ->
  (l_fence lease1 = l_fence lease2 /\ fl_owner (v_self v1) = fl_owner (v_self v2) /\
   l_expires_at_unix_millis lease1 <= l_expires_at_unix_millis lease2) \/
  (l_fence lease1 < l_fence lease2 /\
   exists r, row_view key (files key (v_after v2)).1 = Some (Some r) /\
     l_expires_at_unix_millis lease1 <= r_last_seen_unix_millis r).
Proof.
  intros (Hv1 & Hv2 & Hh & _)%history_pair Hg1 Hg2.
  apply grants_row with (key := key) in Hg1 as (r1 & Hr1 & Hs1); [|done].
  apply grants_row with (key := key) in Hg2 as (r2 & Hr2 & Hs2); [|done].
  eapply holds_history with (F := leased (fl_owner (v_self v1)) (l_fence lease1) (l_expires_at_unix_millis lease1))
    in Hh as (r & Hr & Hl).
  - rewrite Hr in Hr2. injection Hr2 as ->. unfold leased in Hl. rewrite Hs2 in Hl. cbn in Hl.
    destruct Hl as [[Hf [Ho He]]|[Hf He]]; [left; split_and!; congruence|right; eauto].
  - intros ? ?. apply leased_step.
  - exists r1. split; [done|]. left. rewrite Hs1. cbn. split; [done|]. split; [done|lia].
Qed.

(** C6: a staged publication is final. Once a visit has handed out a staged publication,
    every later claim of the row that succeeds returns that same publication
    with its report, or reports it completed, or refuses a delivery that is
    not the row's: it never runs the delivery again and never waits. Renewals
    are lost, and nothing else can be staged. *)
Theorem staged_final (DK : Disk) (HX : Hex) (DL : DiskLaws) (HH : Hashes) (HHL : HashLaws HH) (UP : UrlParser)
    (JK : Json StoredDeliveryKey) (JS : Json StagedDigest) (JR : Json Record_) (JM : Json RootMetadata)
    (JC : Json Capacity) (JRL : JsonLaws Record_) key f vs1 v1 vs2 v2 vs3 f' sp reply :
  history key f (vs1 ++ v1 :: vs2 ++ v2 :: vs3) f' -> hands_out v1 sp -> v_result v2 = Ok reply ->
  match reply with
  | Reply.Claimed c =>
      c = DeliveryClaim.Publish sp \/ c = DeliveryClaim.Duplicate (stg_evaluation_id sp) \/
      c = DeliveryClaim.BindingConflict
  | Reply.Renewal x => x = LeaseRenewal.Lost
  | Reply.Staging x => x = StageOutcome.Staged sp \/ x = StageOutcome.Lost
  | Reply.Completion _ => True
  end.
Proof.
  intros (Hv1 & Hv2 & _ & Hh)%history_pair Hg1 Hr2.
  apply hands_out_settled with (key := key) in Hg1; [|done].
  pose proof (history_invariant key (settled key sp) (settled_visit key sp) _ _ _ Hh Hg1) as Hs.
  pose proof (settled_visit key sp v2 Hv2 Hs) as Hs'.
  apply visit_moves in Hv2 as [_ Hrep]. rewrite Hr2 in Hrep. unfold files in *.
  unfold reply_ok in Hrep. destruct (v_call v2), reply as [c|x|x|x]; try done.
  - destruct c as [lease|sp'|eid t|eid|]; cbn in Hrep.
    + by eapply settled_granted in Hs'.
    + destruct Hrep as (_ & _ & r & fence & q & Hst & _ & Hp). left. f_equal. exact (settled_published _ _ _ _ _ _ _ Hs Hst Hp).
    + destruct Hrep as (_ & _ & r & owner & fence & Hv & Er & _). by eapply settled_running in Hs.
    + destruct Hrep as (_ & r & fence & digest & Hv & Er & -> & _). right. left.
      destruct Hs as (r' & Hr' & Hid & _). cbn in Hr'. congruence.
    + by right; right.
  - destruct x as [lease'|]; [|done]. destruct Hrep as (_ & Hg & _). by eapply settled_granted in Hs.
  - destruct x as [sp'|]; [left|by right]. destruct Hrep as (_ & _ & r & q & Hst & _ & Hp).
    f_equal. exact (settled_published _ _ _ _ _ _ _ Hs' Hst Hp).
Qed.

Lemma ledger_refines_witness :
  exists result w', operation ex_a (Call.Claim ex_delivery ex_check) (md_at ex_root 10) = (result, w') /\
  ((exists e, result = Err e /\ row ex_a ex_delivery (md_at ex_root 10) = (Err e, w')) \/
   exists key w1,
    delivery_key (ad_identity (acc_delivery ex_delivery)) = Ok key /\ row_guarded key w1 /\
    let '(s, p) := files key w1 in
    let '(s', p') := files key w' in
    moves key s p s' p' /\
    match result with
    | Ok reply => reply_ok key (mkVisit ex_a (Call.Claim ex_delivery ex_check) w1 w' result) s p s' p' reply
    | Err _ => True
    | OutOfFuel => False
    end).
Proof.
  eexists _, _. split; [apply surjective_pairing|].
  exact (ledger_refines mem_disk rfc_hex mem_disk_laws toy_hash toy_hash_laws no_urls ex_json_key ex_json_digest
    ex_json_record ex_json_metadata ex_json_capacity (table_json_laws _) ex_a (Call.Claim ex_delivery ex_check)
    (md_at ex_root 10) _ _ (surjective_pairing _)).
Defined.

Lemma lease_exclusion_witness :
  exists lease1 lease2,
    (history ex_key (files ex_key (v_before ex_v1)) ([] ++ ex_v1 :: [] ++ ex_v2 :: [ex_v3; ex_v4])
       (files ex_key (v_after ex_v4)) /\ grants ex_v1 lease1 /\ grants ex_v2 lease2) /\
    l_fence lease1 < l_fence lease2 /\
    ((l_fence lease1 = l_fence lease2 /\ fl_owner (v_self ex_v1) = fl_owner (v_self ex_v2) /\
      l_expires_at_unix_millis lease1 <= l_expires_at_unix_millis lease2) \/
     (l_fence lease1 < l_fence lease2 /\
      exists r, row_view ex_key (files ex_key (v_after ex_v2)).1 = Some (Some r) /\
        l_expires_at_unix_millis lease1 <= r_last_seen_unix_millis r)).
Proof.
  exists (mkDeliveryLease ex_eid ex_check 1 60), (mkDeliveryLease ex_eid ex_check 2 120).
  assert (grants ex_v1 (mkDeliveryLease ex_eid ex_check 1 60)) as G1 by (left; vm_compute; reflexivity).
  assert (grants ex_v2 (mkDeliveryLease ex_eid ex_check 2 120)) as G2 by (left; vm_compute; reflexivity).
  split; [exact (conj ex_history (conj G1 G2))|]. split; [reflexivity|].
  exact (lease_exclusion mem_disk rfc_hex mem_disk_laws toy_hash toy_hash_laws no_urls ex_json_key ex_json_digest
    ex_json_record ex_json_metadata ex_json_capacity (table_json_laws _) ex_key _ [] ex_v1 [] ex_v2 [ex_v3; ex_v4] _
    _ _ ex_history G1 G2).
Defined.

Lemma staged_final_witness :
  history ex_key (files ex_key (v_before ex_v1)) ([ex_v1; ex_v2] ++ ex_v3 :: [] ++ ex_v4 :: [])
    (files ex_key (v_after ex_v4)) /\ hands_out ex_v3 ex_staged /\
  exists c, v_result ex_v4 = Ok (Reply.Claimed c) /\
    (c = DeliveryClaim.Publish ex_staged \/ c = DeliveryClaim.Duplicate (stg_evaluation_id ex_staged) \/
     c = DeliveryClaim.BindingConflict).
Proof.
  assert (hands_out ex_v3 ex_staged) as G by (left; vm_compute; reflexivity).
  assert (v_result ex_v4 = Ok (Reply.Claimed (DeliveryClaim.Publish ex_staged))) as R by (vm_compute; reflexivity).
  split; [exact ex_history|]. split; [exact G|]. exists (DeliveryClaim.Publish ex_staged). split; [exact R|].
  exact (staged_final mem_disk rfc_hex mem_disk_laws toy_hash toy_hash_laws no_urls ex_json_key ex_json_digest
    ex_json_record ex_json_metadata ex_json_capacity (table_json_laws _) ex_key _ [ex_v1; ex_v2] ex_v3 [] ex_v4 [] _
    ex_staged _ ex_history G R).
Defined.
