(* ===== verification/ScanLines.v ===== *)
(** Lines of a source: the shared scanner of [crates/amiss-md/src/lines.rs],
    and what [crates/amiss-scan/src/resolve/line.rs] and [scanned.rs] select by
    line: line ranges and their fragment spelling, named regions between two
    marker lines, and where the words of a claim sit now. *)
From Stdlib Require Import Strings.Byte Strings.String Lia.
From stdpp Require Import base numbers sets list.
From S2P Require Import Prelude Codec WireModel OrdMap Observation EvalModel Controls EvalClaims.

(** ** The scanner *)

Module Line.
Record t := mk { start : usize; content_end : usize; end_ : usize; terminated : bool }.

(** [Line::content]. *)
Definition content (line : t) (source : bytes) : bytes :=
  default [] (slice source (start line) (content_end line)).

(** [Line::is_blank]. *)
Definition is_blank (line : t) (source : bytes) : bool :=
  forallb (fun b => beqb b " " || beqb b x09) (content line source).

(** [source.get(line.start..line.end).unwrap_or_default()]. *)
Definition text (line : t) (source : bytes) : bytes := default [] (slice source (start line) (end_ line)).
End Line.

Definition LF : Byte.byte := x0a.
Definition CR : Byte.byte := x0d.

(** The [while let] of [Lines::next], over what is left from [cursor]: where
    the content ends and where the line does. *)
Fixpoint find_ending (rest : bytes) (cursor : usize) : option (usize * usize) :=
  match rest with
  | [] => None
  | byte :: rest =>
      if beqb byte LF then Some (cursor, sat_add cursor 1)
      else if beqb byte CR then
        let after := sat_add cursor 1 in
        match rest with
        | next :: _ => if beqb next LF then Some (cursor, sat_add after 1) else Some (cursor, after)
        | [] => Some (cursor, after)
        end
      else find_ending rest (sat_add cursor 1)
  end.

(** [Lines::next]: the line and the new [at]. *)
Definition next (source : bytes) (at_ : usize) : option (Line.t * usize) :=
  if len source <=? at_ then None
  else
    match find_ending (default [] (slice_from source at_)) at_ with
    | Some (content_end, end_) => Some (Line.mk at_ content_end end_ true, end_)
    | None => Some (Line.mk at_ (len source) (len source) false, len source)
    end.

(** What the iterator yields. *)
Fixpoint scan_from (fuel : nat) (source : bytes) (at_ : usize) : list Line.t :=
  match fuel with
  | O => []
  | S fuel =>
      match next source at_ with
      | None => []
      | Some (line, at_) => line :: scan_from fuel source at_
      end
  end.

(** [scan], collected: every line takes at least one byte. *)
Definition scan (source : bytes) : list Line.t := scan_from (length source) source 0.

(** *** Reference grammar *)

Definition plain (content : bytes) : Prop := Forall (fun b => b <> LF /\ b <> CR) content.

(** [rest], which begins at [at_], is cut into [lines]. *)
Inductive cuts : usize -> bytes -> list Line.t -> Prop :=
  | cuts_nil at_ : cuts at_ [] []
  | cuts_last at_ content :
      plain content -> content <> [] ->
      cuts at_ content [Line.mk at_ (at_ + len content) (at_ + len content) false]
  | cuts_line at_ content ending rest lines :
      plain content -> ending ∈ [[LF]; [CR; LF]; [CR]] -> (ending = [CR] -> head rest <> Some LF) ->
      cuts (at_ + len content + len ending) rest lines ->
      cuts at_ (content ++ ending ++ rest)
        (Line.mk at_ (at_ + len content) (at_ + len content + len ending) true :: lines).

(** ** Selections *)

(** [line_content]: one line without the terminator that ended it. *)
Definition line_content (selected : bytes) : bytes :=
  match strip_suffix [CR; LF] selected with
  | Some content => content
  | None =>
      match strip_suffix [LF] selected with
      | Some content => content
      | None => match strip_suffix [CR] selected with Some content => content | None => selected end
      end
  end.

Record LineRange := mkLineRange { first : u64; last_ : u64 }.
#[export] Instance LineRange_eq_dec : EqDecision LineRange.
Proof. solve_decision. Defined.

(** The loop of [selected_line_bytes]. *)
Fixpoint select_lines (source : bytes) (range : LineRange) (lines : list Line.t) (line_number : u64)
    (selection_start : option usize) : option bytes :=
  match lines with
  | [] => None
  | line :: lines =>
      let line_number := sat_add line_number 1 in
      let selection_start := if line_number =? first range then Some (Line.start line) else selection_start in
      if line_number =? last_ range
      then match selection_start with Some start => slice source start (Line.end_ line) | None => None end
      else select_lines source range lines line_number selection_start
  end.
Definition selected_line_bytes (source : bytes) (range : LineRange) : option bytes :=
  select_lines source range (scan source) 0 None.

(** The loop of [moved], over the lines numbered from [number]. *)
Fixpoint moved_from (body expected : bytes) (claimed : u64) (number : u64) (lines : list Line.t) (found : Moved.t) :
    Moved.t :=
  match lines with
  | [] => found
  | line :: lines =>
      let words := line_content (Line.text line body) in
      if (number =? claimed) || negb (bytes_eqb words expected)
      then moved_from body expected claimed (number + 1) lines found
      else
        match found with
        | Moved.Nowhere => moved_from body expected claimed (number + 1) lines (Moved.To number words)
        | Moved.To _ _ | Moved.Ambiguous => Moved.Ambiguous
        end
  end.
Definition moved (body expected : bytes) (claimed : u64) : Moved.t :=
  moved_from body expected claimed 1 (scan body) Moved.Nowhere.

(** *** Named regions *)

(** [memchr::memmem::Finder::find_iter], collected. *)
Class Memmem := find_iter : bytes -> bytes -> list usize.

(** The occurrences of [needle] from left to right, each after the end of the
    one before; [at_] is where [hay] begins. *)
Fixpoint occurrences (fuel : nat) (needle hay : bytes) (at_ : usize) : list usize :=
  match fuel with
  | O => []
  | S fuel =>
      match hay with
      | [] => []
      | _ :: hay' =>
          match strip_prefix needle hay with
          | Some rest => at_ :: occurrences fuel needle rest (at_ + len needle)
          | None => occurrences fuel needle hay' (at_ + 1)
          end
      end
  end.
Class MemmemLaws `{Memmem} : Prop := {
  find_iter_nonempty needle hay :
    needle <> [] -> find_iter needle hay = occurrences (length hay) needle hay 0
}.

Record MarkerLine := mkMarkerLine { ml_start : usize; ml_after : usize }.

Definition line_break (b : Byte.byte) : bool := beqb b CR || beqb b LF.

(** The loop of [unique_marker_line]: what one occurrence of the marker is. *)
Definition marker_line (body marker : bytes) (marker_at : usize) : option MarkerLine :=
  if (0 <? marker_at)
     && negb (match get body (sat_sub marker_at 1) with Some b => line_break b | None => false end)
  then None
  else
    let marker_end := sat_add marker_at (len marker) in
    match get body marker_end with
    | None => Some (mkMarkerLine marker_at marker_end)
    | Some b =>
        if beqb b CR && match get body (sat_add marker_end 1) with Some n => beqb n LF | None => false end
        then Some (mkMarkerLine marker_at (sat_add marker_end 2))
        else if line_break b then Some (mkMarkerLine marker_at (sat_add marker_end 1))
        else None
    end.

Fixpoint unique_marker (body marker : bytes) (found : list usize) (unique : option MarkerLine)
    (absent ambiguous : ProjectionObserved.t) : res MarkerLine ProjectionObserved.t :=
  match found with
  | [] => ok_or unique absent
  | marker_at :: found =>
      match marker_line body marker marker_at with
      | None => unique_marker body marker found unique absent ambiguous
      | Some line =>
          match unique with
          | Some _ => Err ambiguous
          | None => unique_marker body marker found (Some line) absent ambiguous
          end
      end
  end.

Section Region.
Context `{MM : Memmem}.

Definition unique_marker_line (body marker : bytes) (absent ambiguous : ProjectionObserved.t) :
    res MarkerLine ProjectionObserved.t :=
  unique_marker body marker (find_iter marker body) None absent ambiguous.

(** [named_region_bytes]: [start_marker] and [end_marker] are the fields of the
    selection. *)
Definition named_region_bytes (body start_marker end_marker : bytes) : res bytes ProjectionObserved.t :=
  let? start_line := unique_marker_line body start_marker
    ProjectionObserved.SourceStartMarkerAbsent ProjectionObserved.SourceStartMarkerAmbiguous in
  let? end_line := unique_marker_line body end_marker
    ProjectionObserved.SourceEndMarkerAbsent ProjectionObserved.SourceEndMarkerAmbiguous in
  if (ml_start end_line <=? ml_start start_line) || (ml_start end_line <? ml_after start_line)
  then Err ProjectionObserved.SourceRegionOrderInvalid
  else
    let? selected := ok_or (slice body (ml_after start_line) (ml_start end_line))
      ProjectionObserved.SourceRegionOrderInvalid in
    ok_or (from_utf8 selected) ProjectionObserved.SourceRegionNotUtf8.
End Region.

(** *** Line fragments *)

(** [str::parse::<u64>]: an optional plus sign and digits, each step checked. *)
Fixpoint parse_digits (text : bytes) (acc : u64) : option u64 :=
  match text with
  | [] => Some acc
  | b :: text =>
      if is_ascii_digit b then
        acc ← checked_mul acc 10;
        acc ← checked_add acc (u8 b - 48);
        parse_digits text acc
      else None
  end.
Definition parse_u64 (text : bytes) : option u64 :=
  let digits := default text (strip_prefix (b_ "+") text) in
  if bytes_eqb digits [] then None else parse_digits digits 0.

Definition MAX_SAFE : u64 := 9007199254740991.

Definition safe_line_number (text : bytes) : option u64 :=
  if bytes_eqb text [] || (16 <? len text) || match head text with Some b => beqb b "0" | None => false end
  then None
  else if negb (forallb is_ascii_digit text) then None
  else match parse_u64 text with
       | Some value => if value <=? MAX_SAFE then Some value else None
       | None => None
       end.

(** [str::split_once] and [str::rsplit_once] of a nonempty pattern. *)
Fixpoint split_once (pattern text : bytes) : option (bytes * bytes) :=
  match strip_prefix pattern text with
  | Some rest => Some ([], rest)
  | None =>
      match text with
      | [] => None
      | b :: text =>
          match split_once pattern text with
          | Some (before, after) => Some (b :: before, after)
          | None => None
          end
      end
  end.
Fixpoint rsplit_once (c : Byte.byte) (text : bytes) : option (bytes * bytes) :=
  match text with
  | [] => None
  | b :: text =>
      match rsplit_once c text with
      | Some (before, after) => Some (b :: before, after)
      | None => if beqb b c then Some ([], text) else None
      end
  end.

(** [rsplit(|byte| byte == b'/').next().unwrap_or_default()]. *)
Definition basename (p : bytes) : bytes := default [] (last (Path.segments p)).

Definition single_line (line : u64) : LineRange := mkLineRange line line.

Definition line_fragment (forge : option ForgeDialect) (p : path) (decoded : bytes) : option LineRange :=
  if bool_decide (forge = Some BitbucketCloud) then
    '(name, line) ← rsplit_once "-" decoded;
    if negb (bytes_eqb name (basename p)) then None
    else
      line ← safe_line_number line;
      Some (single_line line)
  else
    '(rest, separator) ←
      match forge with
      | Some BitbucketDataCenter => Some (decoded, b_ "-")
      | Some Gitlab => (fun rest => (rest, b_ "-")) <$> strip_prefix (b_ "L") decoded
      | _ => (fun rest => (rest, b_ "-L")) <$> strip_prefix (b_ "L") decoded
      end;
    match split_once separator rest with
    | None => single_line <$> safe_line_number rest
    | Some (start, end_) =>
        match safe_line_number start, safe_line_number end_ with
        | Some first, Some last_ => if first <=? last_ then Some (mkLineRange first last_) else None
        | _, _ => None
        end
    end.

(** ** The scanner cuts a source into its lines *)

Lemma plain_cons b content : plain (b :: content) <-> (b <> LF /\ b <> CR) /\ plain content.
Proof. unfold plain. by rewrite Forall_cons. Qed.

Lemma find_ending_plain content cursor : plain content -> find_ending content cursor = None.
Proof.
  intros Hp. revert cursor. induction Hp as [|b content [H1 H2] Hp IH]; intros cursor; [done|]. cbn [find_ending].
  destruct (beqb b LF) eqn:E1; [by apply beqb_eq in E1|]. destruct (beqb b CR) eqn:E2; [by apply beqb_eq in E2|].
  apply IH.
Qed.

Lemma find_ending_line content ending rest cursor :
  plain content -> ending ∈ [[LF]; [CR; LF]; [CR]] -> (ending = [CR] -> head rest <> Some LF) ->
  0 <= cursor -> cursor + len (content ++ ending ++ rest) <= isize_max ->
  find_ending (content ++ ending ++ rest) cursor =
  Some (cursor + len content, cursor + len content + len ending).
Proof.
  intros Hp He Hh. revert cursor. induction Hp as [|b content [H1 H2] Hp IH]; intros cursor Hc Hl.
  - rewrite len_app in Hl. pose proof (len_nonneg rest). rewrite len_app in Hl.
    rewrite !elem_of_cons in He. unfold isize_max in Hl.
    destruct He as [->|[->|[->|[]%not_elem_of_nil]]]; cbn [find_ending app beqb Byte.eqb LF CR];
      rewrite ?len_cons, ?len_nil in *; rewrite ?sat_add_small by (unfold usize_max, u64_max; lia).
    + cbn. do 2 f_equal; lia.
    + cbn. do 2 f_equal; lia.
    + cbn. destruct rest as [|n rest]; [do 2 f_equal; lia|]. specialize (Hh eq_refl). cbn in Hh.
      destruct (beqb n LF) eqn:E; [apply beqb_eq in E; congruence|]. do 2 f_equal; lia.
  - cbn [find_ending app]. destruct (beqb b LF) eqn:E1; [by apply beqb_eq in E1|].
    destruct (beqb b CR) eqn:E2; [by apply beqb_eq in E2|]. cbn [app] in Hl. rewrite len_cons in Hl.
    pose proof (len_nonneg (content ++ ending ++ rest)). unfold isize_max in Hl.
    rewrite sat_add_small by (unfold usize_max, u64_max; lia).
    rewrite IH by (unfold isize_max; lia). rewrite len_cons. do 2 f_equal; lia.
Qed.

(** Every source begins with a line, unless it is empty. *)
Lemma line_cases rest :
  plain rest \/
  exists content ending tail,
    rest = content ++ ending ++ tail /\ plain content /\ ending ∈ [[LF]; [CR; LF]; [CR]] /\
    (ending = [CR] -> head tail <> Some LF).
Proof.
  induction rest as [|b rest [IH|(content & ending & tail & -> & Hp & He & Hh)]]; [by left; constructor|..].
  - destruct (decide (b = LF)) as [->|H1].
    { right. exists [], [LF], rest. by repeat split; [constructor|set_solver|]. }
    destruct (decide (b = CR)) as [->|H2]; [|left; by constructor].
    right. exists [], [CR], rest. repeat split; [constructor|set_solver|]. intros _.
    destruct rest as [|n rest]; [done|]. cbn. apply plain_cons in IH. naive_solver.
  - right. destruct (decide (b = LF)) as [->|H1].
    { exists [], [LF], (content ++ ending ++ tail). by repeat split; [constructor|set_solver|]. }
    destruct (decide (b = CR)) as [->|H2]; [|exists (b :: content), ending, tail; by repeat split; [constructor|..]].
    destruct content as [|c content].
    + rewrite !elem_of_cons in He. destruct He as [->|[->|[->|[]%not_elem_of_nil]]].
      * exists [], [CR; LF], tail. by repeat split; [constructor|set_solver|].
      * exists [], [CR], (CR :: LF :: tail). by repeat split; [constructor|set_solver|].
      * exists [], [CR], (CR :: tail). by repeat split; [constructor|set_solver|].
    + exists [], [CR], ((c :: content) ++ ending ++ tail). repeat split; [constructor|set_solver|].
      cbn. apply plain_cons in Hp. naive_solver.
Qed.

Lemma ending_len ending : ending ∈ [[LF]; [CR; LF]; [CR]] -> 1 <= len ending.
Proof. rewrite !elem_of_cons. by intros [->|[->|[->|[]%not_elem_of_nil]]]. Qed.

Lemma cuts_total n rest at_ : (length rest <= n)%nat -> exists lines, cuts at_ rest lines.
Proof.
  revert rest at_. induction n as [|n IH]; intros rest at_ Hn.
  { destruct rest; [eexists; constructor|cbn in Hn; lia]. }
  destruct (line_cases rest) as [Hp|(content & ending & tail & -> & Hp & He & Hh)].
  - destruct rest; eexists; [constructor|]. by apply cuts_last.
  - destruct (IH tail (at_ + len content + len ending)) as [lines Hl].
    + pose proof (ending_len _ He). unfold len in *. rewrite !length_app in Hn. lia.
    + eexists. by eapply cuts_line.
Qed.

Lemma drop_len {A} (pre rest : list A) : slice_from (pre ++ rest) (len pre) = Some rest.
Proof. apply slice_from_spec. by exists pre. Qed.

Lemma cuts_scan_from at_ rest lines pre fuel :
  cuts at_ rest lines -> at_ = len pre -> (length rest <= fuel)%nat -> rust_slice (pre ++ rest) ->
  scan_from fuel (pre ++ rest) at_ = lines.
Proof.
  unfold rust_slice. intros Hc. revert pre fuel.
  induction Hc as [at_|at_ content Hp Hne|at_ content ending rest lines Hp He Hh Hc IH];
    intros pre fuel -> Hf Hl; (destruct fuel as [|fuel]; [cbn in Hf|]); cbn [scan_from]; unfold next.
  - done.
  - rewrite app_nil_r. by rewrite Z.leb_refl.
  - destruct content; [done|cbn in Hf; lia].
  - rewrite drop_len. cbn. rewrite find_ending_plain by done. rewrite !len_app.
    destruct (Z.leb_spec (len pre + len content) (len pre)).
    { destruct content; [done|]. rewrite len_cons in *. pose proof (len_nonneg content). lia. }
    destruct fuel; cbn [scan_from]; [done|]. unfold next. rewrite !len_app.
    by rewrite Z.leb_refl.
  - pose proof (ending_len _ He). unfold len in *. rewrite !length_app in Hf. lia.
  - pose proof (ending_len _ He) as Hel. pose proof (len_nonneg content). pose proof (len_nonneg rest).
    pose proof (len_nonneg pre). rewrite drop_len. cbn [from_option id]. rewrite find_ending_line; [|done..|by rewrite !len_app in *].
    rewrite !len_app in *. destruct (Z.leb_spec (len pre + (len content + (len ending + len rest))) (len pre)); [lia|].
    f_equal. replace (pre ++ content ++ ending ++ rest) with ((pre ++ content ++ ending) ++ rest) by by rewrite <- !app_assoc.
    apply IH; rewrite ?len_app; [lia| |lia]. unfold len in *. rewrite !length_app in Hf. lia.
Qed.

Lemma scan_cuts source : rust_slice source -> cuts 0 source (scan source).
Proof.
  intros Hs. destruct (cuts_total _ source 0 (Nat.le_refl _)) as [lines Hl].
  rewrite <- (cuts_scan_from 0 source lines [] (length source) Hl) in Hl; [done..|by cbn].
Qed.

(** the line scanner yields exactly the lines of the source: they follow
    each other without gap or overlap from the first byte to the last, a line
    ends at CRLF, at a bare CR or at LF and its content holds neither, CRLF is
    never split, and a fragment without an ending is the last line and is not
    empty. No other list of lines does this. *)
Theorem scan_exact source lines : rust_slice source -> scan source = lines <-> cuts 0 source lines.
Proof.
  intros Hs. split; [intros <-; by apply scan_cuts|]. intros Hc.
  by rewrite <- (cuts_scan_from 0 source lines [] (length source) Hc).
Qed.

Lemma scan_exact_witness :
  scan (b_ "a" ++ [CR; LF; CR] ++ b_ "bc" ++ [LF; LF] ++ b_ "d") =
    [Line.mk 0 1 3 true; Line.mk 3 3 4 true; Line.mk 4 6 7 true; Line.mk 7 7 8 true; Line.mk 8 9 9 false] <->
  cuts 0 (b_ "a" ++ [CR; LF; CR] ++ b_ "bc" ++ [LF; LF] ++ b_ "d")
    [Line.mk 0 1 3 true; Line.mk 3 3 4 true; Line.mk 4 6 7 true; Line.mk 7 7 8 true; Line.mk 8 9 9 false].
Proof. apply scan_exact. by vm_compute. Defined.

(** ** The texts of the lines *)

(** The lines of [body] with their endings, and without. *)
Definition texts (body : bytes) : list bytes := map (fun line => Line.text line body) (scan body).
Definition contents (body : bytes) : list bytes := map (fun line => Line.content line body) (scan body).

(** A line is its content and then a line ending or the end of the source. *)
Definition line_of (text content : bytes) : Prop :=
  exists ending, text = content ++ ending /\ plain content /\ ending ∈ [[]; [LF]; [CR; LF]; [CR]].

Lemma slice_first (pre s q : bytes) at_ : at_ = len pre -> slice (pre ++ s ++ q) at_ (at_ + len s) = Some s.
Proof. intros ->. apply slice_app_mid. Qed.

Lemma last_text pre content :
  Line.text (Line.mk (len pre) (len pre + len content) (len pre + len content) false) (pre ++ content) = content.
Proof.
  unfold Line.text. cbn. rewrite <- (app_nil_r content) at 1. by rewrite slice_first.
Qed.

Lemma cut_line_text pre content ending rest :
  Line.text (Line.mk (len pre) (len pre + len content) (len pre + len content + len ending) true)
    (pre ++ content ++ ending ++ rest) = content ++ ending.
Proof.
  unfold Line.text. cbn. rewrite <- Z.add_assoc, <- len_app, (app_assoc content). by rewrite slice_first.
Qed.

Lemma content_at pre content tail e t :
  Line.content (Line.mk (len pre) (len pre + len content) e t) (pre ++ content ++ tail) = content.
Proof. unfold Line.content. cbn. by rewrite slice_first. Qed.

Lemma content_last pre content e t :
  Line.content (Line.mk (len pre) (len pre + len content) e t) (pre ++ content) = content.
Proof. rewrite <- (app_nil_r content) at 2. apply content_at. Qed.

Lemma cuts_texts pre at_ rest lines :
  cuts at_ rest lines -> at_ = len pre ->
  concat (map (fun line => Line.text line (pre ++ rest)) lines) = rest /\
  Forall (fun line => line_of (Line.text line (pre ++ rest)) (Line.content line (pre ++ rest))) lines.
Proof.
  intros Hc. revert pre.
  induction Hc as [at_|at_ content Hp Hne|at_ content ending rest lines Hp He Hh Hc IH]; intros pre ->; [done|..].
  - cbn [map concat]. rewrite last_text, app_nil_r. split; [done|]. apply Forall_singleton. rewrite last_text, content_last.
    exists []. rewrite app_nil_r. by repeat split; [|set_solver].
  - destruct (IH (pre ++ content ++ ending)) as [Hcc Hf]; [rewrite !len_app; lia|].
    rewrite <- !app_assoc in Hcc, Hf. cbn [map concat]. rewrite cut_line_text, Hcc, <- app_assoc. split; [done|].
    constructor; [|done]. rewrite cut_line_text, content_at. exists ending. repeat split; [done|set_solver].
Qed.

Lemma cuts_at pre at_ rest lines k line :
  cuts at_ rest lines -> at_ = len pre -> lines !! k = Some line ->
  let ts := map (fun line => Line.text line (pre ++ rest)) lines in
  Line.start line = at_ + len (concat (take k ts)) /\ Line.end_ line = at_ + len (concat (take (S k) ts)).
Proof.
  intros Hc. revert pre k.
  induction Hc as [at_|at_ content Hp Hne|at_ content ending rest lines Hp He Hh Hc IH]; intros pre k -> Hk; [done|..];
    cbn [map]; (destruct k as [|k]; cbn in Hk); [|done|..].
  - injection Hk as <-. rewrite last_text. cbn. rewrite app_nil_r, len_nil. lia.
  - injection Hk as <-. rewrite cut_line_text. cbn. rewrite app_nil_r, len_nil, len_app. lia.
  - rewrite cut_line_text. destruct (IH (pre ++ content ++ ending) k) as [-> ->]; [rewrite !len_app; lia|done|].
    rewrite <- !app_assoc. cbn [take concat]. rewrite !len_app. cbn. lia.
Qed.

Lemma texts_concat body : rust_slice body -> concat (texts body) = body.
Proof. intros Hs. by apply (cuts_texts [] 0 body (scan body) (scan_cuts _ Hs)). Qed.

Lemma scan_at body k line :
  rust_slice body -> scan body !! k = Some line ->
  Line.start line = len (concat (take k (texts body))) /\ Line.end_ line = len (concat (take (S k) (texts body))).
Proof. intros Hs Hk. by destruct (cuts_at [] 0 body (scan body) k line (scan_cuts _ Hs) eq_refl Hk) as [-> ->]. Qed.

(** The bytes from the start of one line to the start of another. *)
Lemma slice_texts body i j :
  rust_slice body -> (i <= j)%nat ->
  slice body (len (concat (take i (texts body)))) (len (concat (take j (texts body)))) =
  Some (concat (take (j - i) (drop i (texts body)))).
Proof.
  intros Hs Hij.
  assert (body = concat (take i (texts body)) ++ concat (take (j - i) (drop i (texts body))) ++
                 concat (drop j (texts body))) as Hb.
  { rewrite <- (texts_concat body Hs) at 1. rewrite <- (take_drop i (texts body)) at 1.
    rewrite <- (take_drop (j - i) (drop i (texts body))) at 1. rewrite drop_drop, !concat_app.
    by replace (i + (j - i))%nat with j by lia. }
  rewrite Hb at 1. replace (take j (texts body)) with (take i (texts body) ++ take (j - i) (drop i (texts body))).
  - rewrite concat_app, len_app. apply slice_app_mid.
  - rewrite take_drop_commute. replace (i + (j - i))%nat with j by lia.
    rewrite <- (take_drop i (take j (texts body))) at 2. by rewrite take_take, Nat.min_l.
Qed.

Lemma strip_suffix_snoc k b l c :
  strip_suffix (k ++ [b]) (l ++ [c]) = if beqb b c then strip_suffix k l else None.
Proof.
  unfold strip_suffix. rewrite !rev_app_distr. cbn. by destruct (beqb b c).
Qed.

Lemma strip_suffix_plain k b content : plain content -> b = LF \/ b = CR -> strip_suffix (k ++ [b]) content = None.
Proof.
  intros Hp Hb. destruct (strip_suffix _ _) as [s|] eqn:E; [|done]. apply strip_suffix_Some in E as ->.
  apply Forall_app in Hp as [_ Hp]. apply Forall_app in Hp as [_ Hp]. apply Forall_cons in Hp as [[? ?] _]. naive_solver.
Qed.

Lemma line_content_text text content : line_of text content -> line_content text = content.
Proof.
  intros (ending & -> & Hp & He). unfold line_content.
  pose proof (strip_suffix_plain [CR] LF content Hp) as H1. pose proof (strip_suffix_plain [] LF content Hp) as H2.
  pose proof (strip_suffix_plain [] CR content Hp) as H3. cbn [app] in H1, H2, H3.
  pose proof (fun c => strip_suffix_snoc [CR] LF content c) as S1. pose proof (fun c => strip_suffix_snoc [] LF content c) as S2.
  pose proof (fun c => strip_suffix_snoc [] CR content c) as S3. cbn [app] in S1, S2, S3.
  assert (strip_suffix [] content = Some content) as H0 by (apply strip_suffix_Some; by rewrite app_nil_r).
  rewrite !elem_of_cons in He. destruct He as [->|[->|[->|[->|[]%not_elem_of_nil]]]].
  - rewrite app_nil_r, H1, H2, H3; auto.
  - rewrite S1, S2, H0, H3 by auto. done.
  - by rewrite (proj2 (strip_suffix_Some [CR; LF] (content ++ [CR; LF]) content) eq_refl).
  - rewrite S1, S2, S3, H0. done.
Qed.

Lemma scan_rows body :
  rust_slice body ->
  Forall (fun line => line_of (Line.text line body) (Line.content line body)) (scan body).
Proof. intros Hs. by apply (cuts_texts [] 0 body (scan body) (scan_cuts _ Hs)). Qed.

(** ** Selections by line *)

Lemma get_cons {A} (x : A) l i : get (x :: l) i = if i =? 0 then Some x else if 0 <? i then get l (i - 1) else None.
Proof.
  unfold get. destruct (Z.eqb_spec i 0) as [->|]; [done|]. destruct (Z.leb_spec 0 i), (Z.ltb_spec 0 i); try lia; [|done].
  destruct (Z.leb_spec 0 (i - 1)); [|lia]. replace (Z.to_nat i) with (S (Z.to_nat (i - 1))) by lia. done.
Qed.

Ltac step_line := cbn [select_lines]; rewrite ?len_cons, ?sat_add_small by (unfold usize_max; lia).

Lemma select_never source range lines n :
  0 <= n -> n + len lines < u64_max -> first range <= n -> select_lines source range lines n None = None.
Proof.
  revert n. induction lines as [|line lines IH]; intros n Hn Hl Hf; [done|]. rewrite len_cons in Hl.
  pose proof (len_nonneg lines). step_line. destruct (Z.eqb_spec (n + 1) (first range)); [lia|].
  destruct (_ =? _); [done|]. apply IH; lia.
Qed.

Lemma select_started source range lines n a :
  0 <= n -> n + len lines < u64_max -> first range <= n ->
  select_lines source range lines n (Some a) =
  if (n <? last_ range) && (last_ range <=? n + len lines)
  then line ← get lines (last_ range - n - 1); slice source a (Line.end_ line)
  else None.
Proof.
  revert n. induction lines as [|line lines IH]; intros n Hn Hl Hf.
  { rewrite len_nil. cbn. destruct (_ <? _) eqn:E1, (_ <=? _) eqn:E2; try done. lia. }
  rewrite len_cons in Hl. pose proof (len_nonneg lines). step_line. destruct (Z.eqb_spec (n + 1) (first range)); [lia|].
  rewrite get_cons. destruct (Z.eqb_spec (n + 1) (last_ range)) as [<-|].
  - destruct (Z.ltb_spec n (n + 1)), (Z.leb_spec (n + 1) (n + (len lines + 1))); try lia. cbn.
    by destruct (Z.eqb_spec (n + 1 - n - 1) 0); [|lia].
  - rewrite IH by lia. destruct (Z.ltb_spec (n + 1) (last_ range)), (Z.ltb_spec n (last_ range)); try lia; [|done].
    replace (last_ range <=? n + 1 + len lines) with (last_ range <=? n + (len lines + 1)) by (f_equal; lia).
    destruct (Z.eqb_spec (last_ range - n - 1) 0); [lia|]. destruct (Z.ltb_spec 0 (last_ range - n - 1)); [|lia].
    by replace (last_ range - (n + 1) - 1) with (last_ range - n - 1 - 1) by lia.
Qed.

Lemma select_waiting source range lines n :
  0 <= n -> n + len lines < u64_max -> n < first range ->
  select_lines source range lines n None =
  if (first range <=? last_ range) && (last_ range <=? n + len lines)
  then
    start ← get lines (first range - n - 1);
    end_ ← get lines (last_ range - n - 1);
    slice source (Line.start start) (Line.end_ end_)
  else None.
Proof.
  revert n. induction lines as [|line lines IH]; intros n Hn Hl Hf.
  { rewrite len_nil. cbn. destruct (_ <=? _) eqn:E1, (last_ range <=? _) eqn:E2; try done. lia. }
  rewrite len_cons in Hl. pose proof (len_nonneg lines). step_line. rewrite !get_cons.
  destruct (Z.eqb_spec (n + 1) (first range)) as [Ef|].
  - destruct (Z.eqb_spec (first range - n - 1) 0); [|lia]. cbn.
    destruct (Z.eqb_spec (n + 1) (last_ range)) as [El|].
    + destruct (Z.leb_spec (first range) (last_ range)), (Z.leb_spec (last_ range) (n + (len lines + 1))); try lia. cbn.
      by destruct (Z.eqb_spec (last_ range - n - 1) 0); [|lia].
    + rewrite select_started by lia.
      replace (last_ range <=? n + 1 + len lines) with (last_ range <=? n + (len lines + 1)) by (f_equal; lia).
      destruct (Z.ltb_spec (n + 1) (last_ range)), (Z.leb_spec (first range) (last_ range)); try lia; [|done].
      destruct (Z.eqb_spec (last_ range - n - 1) 0); [lia|]. destruct (Z.ltb_spec 0 (last_ range - n - 1)); [|lia].
      by replace (last_ range - (n + 1) - 1) with (last_ range - n - 1 - 1) by lia.
  - destruct (Z.eqb_spec (n + 1) (last_ range)) as [El|].
    + destruct (Z.leb_spec (first range) (last_ range)); [lia|done].
    + rewrite IH by lia.
      replace (last_ range <=? n + 1 + len lines) with (last_ range <=? n + (len lines + 1)) by (f_equal; lia).
      destruct (Z.leb_spec (first range) (last_ range)); [|done].
      destruct (Z.eqb_spec (first range - n - 1) 0); [lia|]. destruct (Z.ltb_spec 0 (first range - n - 1)); [|lia].
      destruct (Z.eqb_spec (last_ range - n - 1) 0); [lia|]. destruct (Z.ltb_spec 0 (last_ range - n - 1)); [|lia].
      replace (last_ range - (n + 1) - 1) with (last_ range - n - 1 - 1) by lia.
      by replace (first range - (n + 1) - 1) with (first range - n - 1 - 1) by lia.
Qed.

Lemma texts_pos body : rust_slice body -> Forall (fun text => text <> []) (texts body).
Proof.
  intros Hs. unfold texts. pose proof (scan_cuts _ Hs) as Hc. revert Hc.
  enough (forall pre at_ rest lines, cuts at_ rest lines -> at_ = len pre ->
            Forall (fun text => text <> []) (map (fun line => Line.text line (pre ++ rest)) lines)) as H
    by (intros Hc; by apply (H [] 0)).
  intros pre at_ rest lines Hc. revert pre.
  induction Hc as [at_|at_ content Hp Hne|at_ content ending rest lines Hp He Hh Hc IH]; intros pre ->; [done|..];
    cbn [map]; constructor.
  - by rewrite last_text.
  - constructor.
  - rewrite cut_line_text. pose proof (ending_len _ He). destruct ending; [done|by destruct content].
  - replace (pre ++ content ++ ending ++ rest) with ((pre ++ content ++ ending) ++ rest) by by rewrite <- !app_assoc.
    apply IH. rewrite !len_app. lia.
Qed.

Lemma len_concat_pos ts : Forall (fun text : bytes => text <> []) ts -> len ts <= len (concat ts).
Proof.
  induction 1 as [|t ts Ht _ IH]; [done|]. cbn. rewrite len_cons, len_app. destruct t; [done|].
  rewrite len_cons. pose proof (len_nonneg t). lia.
Qed.

Lemma scan_len body : rust_slice body -> len (scan body) <= len body.
Proof.
  intros Hs. rewrite <- (texts_concat body Hs) at 2. pose proof (len_concat_pos _ (texts_pos body Hs)) as H.
  unfold texts, len in *. by rewrite length_map in *.
Qed.

(** a line range selects the exact bytes of its lines, endings included,
    when it is not empty, begins at line one or later and ends within the
    source; every other range selects nothing. *)
Theorem selected_exact source range :
  rust_slice source ->
  selected_line_bytes source range =
  if (1 <=? first range) && (first range <=? last_ range) && (last_ range <=? len (texts source))
  then Some (concat (take (Z.to_nat (last_ range - first range + 1)) (drop (Z.to_nat (first range - 1)) (texts source))))
  else None.
Proof.
  intros Hs. pose proof (scan_len source Hs) as Hl. unfold rust_slice, isize_max in Hs. unfold selected_line_bytes.
  replace (len (texts source)) with (len (scan source)) by (unfold texts, len; by rewrite length_map).
  destruct (Z.leb_spec 1 (first range)); [|rewrite select_never; unfold u64_max; [done|lia..]].
  rewrite select_waiting by (unfold u64_max; lia). cbn [andb]. rewrite Z.add_0_l.
  destruct (Z.leb_spec (first range) (last_ range)); [|done].
  destruct (Z.leb_spec (last_ range) (len (scan source))); [|done]. cbn [andb].
  destruct (get_Some (scan source) (first range - 0 - 1)) as [a Ha]; [lia|].
  destruct (get_Some (scan source) (last_ range - 0 - 1)) as [b Hb]; [lia|]. rewrite Ha, Hb. cbn.
  unfold get in Ha, Hb. destruct (Z.leb_spec 0 (first range - 0 - 1)), (Z.leb_spec 0 (last_ range - 0 - 1)); try done.
  destruct (scan_at _ _ _ Hs Ha) as [-> _]. destruct (scan_at _ _ _ Hs Hb) as [_ ->].
  rewrite slice_texts by (done || lia). do 3 f_equal; [lia|]. f_equal. lia.
Qed.

Lemma selected_exact_witness :
  selected_line_bytes (b_ "a" ++ [CR; LF] ++ b_ "bc" ++ [LF; LF] ++ b_ "d") (mkLineRange 2 3) =
    Some (b_ "bc" ++ [LF; LF]) /\
  selected_line_bytes (b_ "a" ++ [LF]) (mkLineRange 1 2) =
    if (1 <=? 1) && (1 <=? 2) && (2 <=? len (texts (b_ "a" ++ [LF])))
    then Some (concat (take 2 (drop 0 (texts (b_ "a" ++ [LF]))))) else None.
Proof. split; [by vm_compute|]. apply (selected_exact (b_ "a" ++ [LF]) (mkLineRange 1 2)). by vm_compute. Defined.

(** ** Where a claim's words sit *)

(** The other lines that hold the expected words, by number. *)
Definition elsewhere (body expected : bytes) (claimed : u64) : list Z :=
  (filter (fun '(number, words) => number <> claimed /\ words = expected)
    (zip (zseq 1 (length (contents body))) (contents body))).*1.

Definition moved_answer (found : Moved.t) (hits : list Z) (expected : bytes) : Moved.t :=
  match found, hits with
  | _, [] => found
  | Moved.Nowhere, [number] => Moved.To number expected
  | _, _ => Moved.Ambiguous
  end.

Lemma moved_from_spec body expected claimed lines number found :
  Forall (fun line => line_of (Line.text line body) (Line.content line body)) lines ->
  moved_from body expected claimed number lines found =
  moved_answer found
    (filter (fun '(number, words) => number <> claimed /\ words = expected)
      (zip (zseq number (length lines)) (map (fun line => Line.content line body) lines))).*1 expected.
Proof.
  intros Hf. revert number found. induction Hf as [|line lines Hl Hf IH]; intros number found; [by destruct found|].
  cbn [moved_from length zseq map zip zip_with]. rewrite (line_content_text _ _ Hl), filter_cons.
  destruct (Z.eqb_spec number claimed) as [->|Hn]; cbn [orb].
  { rewrite IH, decide_False by naive_solver. done. }
  destruct (bytes_eqb (Line.content line body) expected) eqn:E; cbn [negb].
  - apply bytes_eqb_eq in E as ->. rewrite decide_True by done. cbn [fmap list_fmap].
    destruct found; [|done..]. rewrite IH. cbn. by destruct (filter _ _).*1.
  - apply bytes_eqb_neq in E. rewrite IH, decide_False by naive_solver. done.
Qed.

(** the words of a broken claim are reported to have moved to a line
    exactly when that line, and no other line but the claimed one, holds them;
    they are nowhere when none does and ambiguous when several do. *)
Theorem moved_exact body expected claimed :
  rust_slice body ->
  moved body expected claimed =
  match elsewhere body expected claimed with
  | [] => Moved.Nowhere
  | [number] => Moved.To number expected
  | _ => Moved.Ambiguous
  end.
Proof.
  intros Hs. unfold moved, elsewhere, contents. rewrite moved_from_spec by by apply scan_rows. rewrite length_map.
  by destruct (filter _ _).*1 as [|? []].
Qed.

Lemma moved_exact_witness :
  moved (b_ "x" ++ [LF] ++ b_ "y" ++ [CR; LF] ++ b_ "x") (b_ "x") 1 =
  match elsewhere (b_ "x" ++ [LF] ++ b_ "y" ++ [CR; LF] ++ b_ "x") (b_ "x") 1 with
  | [] => Moved.Nowhere
  | [number] => Moved.To number (b_ "x")
  | _ => Moved.Ambiguous
  end /\
  moved (b_ "x" ++ [LF] ++ b_ "y" ++ [CR; LF] ++ b_ "x") (b_ "x") 1 = Moved.To 3 (b_ "x").
Proof. split; [apply moved_exact|]; by vm_compute. Defined.

(** ** Named regions *)

Definition marker_ok (marker : bytes) : Prop := marker <> [] /\ plain marker.

Lemma source_marker_ok marker : source_marker_valid marker = true -> marker_ok marker.
Proof.
  unfold source_marker_valid. intros [[[Hn _]%andb_prop _]%andb_prop Hf]%andb_prop. split.
  - intros ->. done.
  - apply Forall_forall. intros b Hb.
    rewrite forallb_forall in Hf. apply list_elem_of_In, Hf in Hb. by split; intros ->.
Qed.

Section Needle.
Context (marker : bytes) (Hm : marker_ok marker).

Definition occ (hay : bytes) (at_ : usize) : list usize := occurrences (length hay) marker hay at_.

Lemma occurrences_fuel fuel hay at_ : (length hay <= fuel)%nat -> occurrences fuel marker hay at_ = occ hay at_.
Proof.
  unfold occ. revert hay at_.
  enough (forall n fuel hay at_, (length hay <= n)%nat -> (n <= fuel)%nat ->
            occurrences fuel marker hay at_ = occurrences n marker hay at_) as H by (intros; by apply H).
  induction n as [|n IH]; intros [|f] hay at_ Hl Hf; (destruct hay as [|b hay]; cbn in Hl |- *; try done; try lia).
  destruct (strip_prefix marker (b :: hay)) as [rest|] eqn:E.
  - f_equal. apply IH; [|lia]. apply strip_prefix_Some in E. destruct Hm as [Hne _], marker as [|m marker']; [done|].
    apply (f_equal length) in E. rewrite length_app in E. cbn in E. lia.
  - apply IH; lia.
Qed.

Lemma occ_cons b hay at_ :
  occ (b :: hay) at_ =
  match strip_prefix marker (b :: hay) with
  | Some rest => at_ :: occ rest (at_ + len marker)
  | None => occ hay (at_ + 1)
  end.
Proof.
  unfold occ at 1. cbn [length occurrences]. destruct (strip_prefix _ _) as [rest|] eqn:E.
  - rewrite occurrences_fuel; [done|]. apply strip_prefix_Some in E. destruct Hm as [Hne _], marker as [|m marker']; [done|].
    apply (f_equal length) in E. rewrite length_app in E. cbn in E. lia.
  - by rewrite occurrences_fuel.
Qed.

(** An occurrence lies within the content of one line. *)
Lemma strip_in_line content tail rest :
  plain content -> (forall b, head tail = Some b -> b = LF \/ b = CR) ->
  strip_prefix marker (content ++ tail) = Some rest -> exists c, content = marker ++ c /\ rest = c ++ tail.
Proof.
  intros Hp Ht Hs. apply strip_prefix_Some in Hs. destruct Hm as [_ Hm'].
  apply app_eq_inv in Hs as [(k & -> & ->)|(k & -> & Htail)]; [by exists k|].
  destruct k as [|b k]; [exists []; by rewrite !app_nil_r in *|]. exfalso.
  apply Forall_app in Hm' as [_ [[? ?] _]%Forall_cons]. destruct (Ht b); [by subst tail|done..].
Qed.

Lemma strip_break b hay : b = LF \/ b = CR -> strip_prefix marker (b :: hay) = None.
Proof.
  intros Hb. destruct (strip_prefix _ _) as [rest|] eqn:E; [|done]. apply strip_prefix_Some in E.
  destruct Hm as [Hne Hm']. destruct marker as [|m marker']; [done|]. injection E as -> _.
  apply Forall_cons in Hm' as [[? ?] _]. naive_solver.
Qed.

Lemma occ_ending ending rest at_ :
  ending ∈ [[LF]; [CR; LF]; [CR]] -> occ (ending ++ rest) at_ = occ rest (at_ + len ending).
Proof.
  rewrite !elem_of_cons. intros [->|[->|[->|[]%not_elem_of_nil]]]; cbn [app]; rewrite !occ_cons, !strip_break by auto.
  - done.
  - rewrite !len_cons, len_nil. f_equal. lia.
  - done.
Qed.

(** What follows a line's content. *)
Definition breaks (tail : bytes) : Prop := forall b, head tail = Some b -> b = LF \/ b = CR.

Definition begins_line (pre : bytes) : Prop := pre = [] \/ exists p b, pre = p ++ [b] /\ (b = LF \/ b = CR).
Definition within_line (pre : bytes) : Prop := exists p b, pre = p ++ [b] /\ b <> LF /\ b <> CR.

Lemma line_break_spec b : line_break b = true <-> b = LF \/ b = CR.
Proof. unfold line_break. rewrite orb_true_iff, !beqb_eq. tauto. Qed.

Lemma marker_line_within body pre rest : within_line pre -> body = pre ++ rest -> marker_line body marker (len pre) = None.
Proof.
  intros (p & b & -> & H1 & H2) ->. unfold marker_line. rewrite len_snoc. pose proof (len_nonneg p).
  destruct (Z.ltb_spec 0 (len p + 1)); [|lia]. rewrite sat_sub_small by lia.
  replace (len p + 1 - 1) with (len p) by lia. rewrite <- app_assoc. cbn [app]. rewrite get_app_r.
  destruct (line_break b) eqn:E; [|done]. apply line_break_spec in E. naive_solver.
Qed.

Lemma not_break b : b <> LF /\ b <> CR -> line_break b = false.
Proof. intros [? ?]. apply not_true_iff_false. rewrite line_break_spec. naive_solver. Qed.

(** The line a marker at the beginning of a line is. *)
Definition ending_len_of (tail : bytes) : usize :=
  match tail with
  | b :: n :: _ => if beqb b CR && beqb n LF then 2 else 1
  | [_] => 1
  | [] => 0
  end.

Lemma get_tail (pre tail : bytes) i : 0 <= i -> get (pre ++ tail) (len pre + i) = get tail i.
Proof.
  intros Hi. unfold get. pose proof (len_nonneg pre). destruct (Z.leb_spec 0 (len pre + i)), (Z.leb_spec 0 i); try lia.
  unfold len. rewrite lookup_app_r by lia. f_equal. lia.
Qed.

Lemma marker_line_begins pre c tail :
  begins_line pre -> plain c -> breaks tail -> rust_slice (pre ++ (marker ++ c) ++ tail) ->
  marker_line (pre ++ (marker ++ c) ++ tail) marker (len pre) =
  match c with
  | _ :: _ => None
  | [] => Some (mkMarkerLine (len pre) (len pre + len marker + ending_len_of tail))
  end.
Proof.
  intros Hb Hc Ht Hs. unfold marker_line.
  assert ((0 <? len pre) && negb (match get (pre ++ (marker ++ c) ++ tail) (sat_sub (len pre) 1) with
            Some b => line_break b | None => false end) = false) as ->.
  { destruct Hb as [->|(p & b & -> & Hb)]; [done|]. rewrite len_snoc. pose proof (len_nonneg p).
    rewrite sat_sub_small by lia. replace (len p + 1 - 1) with (len p) by lia. rewrite <- (app_assoc p). cbn [app].
    rewrite get_app_r. by rewrite (proj2 (line_break_spec b) Hb), andb_false_r. }
  unfold rust_slice, isize_max in Hs. rewrite !len_app in Hs.
  pose proof (len_nonneg c). pose proof (len_nonneg tail). pose proof (len_nonneg pre). pose proof (len_nonneg marker).
  rewrite !sat_add_small by (rewrite ?sat_add_small; unfold usize_max, u64_max; lia).
  assert (forall i, 0 <= i -> get (pre ++ (marker ++ c) ++ tail) (len pre + len marker + i) = get (c ++ tail) i) as Hg.
  { intros i Hi. rewrite <- Z.add_assoc, get_tail by lia. rewrite <- app_assoc. by apply get_tail. }
  pose proof (Hg 0 ltac:(lia)) as Hg0. rewrite Z.add_0_r in Hg0. rewrite Hg0, (Hg 1 ltac:(lia)). destruct c as [|x c]; cbn [app].
  - destruct tail as [|b tail]; [cbn; do 2 f_equal; lia|]. change (get (b :: tail) 0) with (Some b). cbn iota.
    replace (get (b :: tail) 1) with (head tail) by by destruct tail.
    specialize (Ht b eq_refl). rewrite (proj2 (line_break_spec b) Ht).
    destruct tail as [|n tail]; cbn [ending_len_of head]; [by rewrite andb_false_r|].
    destruct (beqb b CR && beqb n LF); done.
  - change (get (x :: c ++ tail) 0) with (Some x). cbn iota. apply plain_cons in Hc as [Hx _].
    rewrite (not_break x Hx). destruct (beqb x CR) eqn:E; [apply beqb_eq in E; naive_solver|done].
Qed.

Lemma within_snoc pre c x : x <> LF /\ x <> CR -> within_line (pre ++ c ++ [x]).
Proof. intros Hx. exists (pre ++ c), x. by rewrite app_assoc. Qed.

Lemma within_app pre c : within_line pre \/ c <> [] -> plain c -> within_line (pre ++ c).
Proof.
  intros H Hp. destruct c as [|y c' _] using rev_ind; [rewrite app_nil_r; naive_solver|].
  apply within_snoc. apply Forall_app in Hp as [_ Hp]. by apply Forall_cons in Hp as [? _].
Qed.

(** What follows an occurrence, and what follows the first byte of a line's
    content, has no marker line before the next line. *)
Lemma occ_within n body pre content tail :
  (length content <= n)%nat -> within_line pre -> plain content -> breaks tail -> body = pre ++ content ++ tail ->
  omap (marker_line body marker) (occ (content ++ tail) (len pre)) =
  omap (marker_line body marker) (occ tail (len pre + len content)).
Proof.
  revert pre content. induction n as [|n IH]; intros pre content Hn Hw Hp Ht Hb.
  { destruct content; [|cbn in Hn; lia]. cbn. by rewrite len_nil, Z.add_0_r. }
  destruct content as [|x content]; [cbn; by rewrite len_nil, Z.add_0_r|].
  pose proof Hp as [Hx Hp']%plain_cons. cbn [app]. rewrite occ_cons.
  destruct (strip_prefix _ _) as [rest|] eqn:E.
  - apply (strip_in_line (x :: content)) in E as (c & Hc & ->); [|done..]. cbn [omap list_omap].
    rewrite (marker_line_within body pre ((x :: content) ++ tail)) by done.
    rewrite Hc in Hp, Hb |- *. apply Forall_app in Hp as [Hpm Hpc]. rewrite (len_app marker c), Z.add_assoc, <- (len_app pre marker).
    apply IH; [|apply within_app; [by left|done]|done..|by rewrite Hb, <- !app_assoc].
    apply (f_equal length) in Hc. rewrite length_app in Hc. cbn in Hc, Hn. destruct Hm as [Hne _].
    destruct marker; [done|]. cbn in Hc. lia.
  - replace (len pre + 1) with (len (pre ++ [x])) by apply len_snoc.
    rewrite (IH (pre ++ [x]) content); [|cbn in Hn; lia| |done..|by rewrite Hb, <- app_assoc].
    + f_equal. rewrite len_snoc, len_cons. f_equal. lia.
    + by exists pre, x.
Qed.

Lemma occ_begins body pre content tail :
  begins_line pre -> plain content -> breaks tail -> body = pre ++ content ++ tail -> rust_slice body ->
  omap (marker_line body marker) (occ (content ++ tail) (len pre)) =
  (if bool_decide (content = marker) then [mkMarkerLine (len pre) (len pre + len content + ending_len_of tail)] else []) ++
  omap (marker_line body marker) (occ tail (len pre + len content)).
Proof.
  intros Hl Hp Ht Hb Hs. destruct content as [|x content].
  { rewrite bool_decide_false by (destruct Hm; congruence). cbn. by rewrite len_nil, Z.add_0_r. }
  pose proof Hp as [Hx Hp']%plain_cons. cbn [app]. rewrite occ_cons.
  destruct (strip_prefix _ _) as [rest|] eqn:E.
  - apply (strip_in_line (x :: content)) in E as (c & Hc & ->); [|done..].
    rewrite Hc in Hp, Hb |- *. apply Forall_app in Hp as [Hpm Hpc].
    cbn [omap list_omap]. subst body. rewrite marker_line_begins by done.
    assert (omap (marker_line (pre ++ (marker ++ c) ++ tail) marker) (occ (c ++ tail) (len pre + len marker)) =
            omap (marker_line (pre ++ (marker ++ c) ++ tail) marker) (occ tail (len pre + len (marker ++ c)))) as Hrest.
    { rewrite <- len_app. rewrite (occ_within (length c) _ (pre ++ marker)); [|done| |done..|by rewrite <- !app_assoc].
      - by rewrite !len_app, Z.add_assoc.
      - apply within_app; [right; by destruct Hm|done]. }
    destruct c as [|y c].
    + rewrite app_nil_r in *. rewrite bool_decide_true by done. done.
    + rewrite bool_decide_false; [by rewrite Hrest|]. intros H. apply (f_equal length) in H. rewrite length_app in H.
      cbn in H. lia.
  - rewrite bool_decide_false.
    + replace (len pre + 1) with (len (pre ++ [x])) by apply len_snoc.
      rewrite (occ_within (length content) body (pre ++ [x])); [|done|by exists pre, x|done..|by rewrite Hb, <- app_assoc].
      rewrite len_snoc, len_cons. cbn [app]. do 2 f_equal. lia.
    + intros H. destruct marker eqn:Em; [done|]. injection H as -> ->.
      rewrite (proj2 (strip_prefix_Some (b :: l) (b :: l ++ tail) tail)) in E; done.
Qed.
End Needle.

Definition marker_row (line : Line.t) : MarkerLine := mkMarkerLine (Line.start line) (Line.end_ line).

Lemma breaks_ending ending rest : ending ∈ [[LF]; [CR; LF]; [CR]] -> breaks (ending ++ rest).
Proof. rewrite !elem_of_cons. intros [->|[->|[->|[]%not_elem_of_nil]]] b [= <-]; auto. Qed.

Lemma ending_len_of_spec ending rest :
  ending ∈ [[LF]; [CR; LF]; [CR]] -> (ending = [CR] -> head rest <> Some LF) -> ending_len_of (ending ++ rest) = len ending.
Proof.
  rewrite !elem_of_cons. intros [->|[->|[->|[]%not_elem_of_nil]]] Hh; [by destruct rest|done|].
  destruct rest as [|n rest]; [done|]. cbn. destruct (beqb n LF) eqn:E; [|done]. apply beqb_eq in E as ->.
  by specialize (Hh eq_refl).
Qed.

(** The occurrences that are marker lines are the lines whose content is the
    marker. *)
Lemma occ_lines marker pre at_ rest lines :
  marker_ok marker -> cuts at_ rest lines -> at_ = len pre -> begins_line pre -> rust_slice (pre ++ rest) ->
  omap (marker_line (pre ++ rest) marker) (occ marker rest at_) =
  map marker_row (filter (fun line => Line.content line (pre ++ rest) = marker) lines).
Proof.
  intros Hm Hc. revert pre.
  induction Hc as [at_|at_ content Hp Hne|at_ content ending rest lines Hp He Hh Hc IH]; intros pre -> Hb Hs; [done|..].
  - rewrite <- (app_nil_r content) at 2. rewrite (occ_begins marker Hm _ _ content []); [|done..|by intros ?|by rewrite app_nil_r|done].
    cbn [occ length occurrences omap list_omap ending_len_of]. rewrite app_nil_r, Z.add_0_r, filter_cons, content_last.
    cbn [filter list_filter]. by destruct (decide (content = marker)); [rewrite bool_decide_true|rewrite bool_decide_false].
  - rewrite (occ_begins marker Hm _ _ content (ending ++ rest)); [|done..|by apply breaks_ending|done|done].
    rewrite occ_ending, ending_len_of_spec, filter_cons, content_at by done.
    specialize (IH (pre ++ content ++ ending)). rewrite <- !app_assoc in IH. rewrite IH; [|rewrite !len_app; lia| |done].
    + by destruct (decide (content = marker)); [rewrite bool_decide_true|rewrite bool_decide_false].
    + right. rewrite app_assoc. rewrite !elem_of_cons in He. destruct He as [->|[->|[->|[]%not_elem_of_nil]]].
      * exists (pre ++ content), LF. auto.
      * exists ((pre ++ content) ++ [CR]), LF. rewrite <- (app_assoc _ [CR]). auto.
      * exists (pre ++ content), CR. auto.
Qed.

(** The numbers, from zero, of the lines whose content is [marker]. *)
Definition marker_lines (marker body : bytes) : list nat :=
  (filter (fun '(k, content) => content = marker) (zip (seq 0 (length (contents body))) (contents body))).*1.

Lemma filter_numbers {A} (f : A -> bytes) marker (l : list A) off :
  Forall2 (fun x k => (off <= k)%nat /\ l !! (k - off)%nat = Some x)
    (filter (fun x => f x = marker) l)
    (filter (fun '(k, y) => y = marker) (zip (seq off (length l)) (map f l))).*1.
Proof.
  revert off. induction l as [|x l IH]; intros off; [constructor|]. cbn [length seq map zip zip_with].
  rewrite !filter_cons. specialize (IH (S off)).
  assert (Forall2 (fun y k => (off <= k)%nat /\ (x :: l) !! (k - off)%nat = Some y)
            (filter (fun x => f x = marker) l)
            (filter (fun '(k, y) => y = marker) (zip (seq (S off) (length l)) (map f l))).*1) as Ht.
  { eapply Forall2_impl; [exact IH|]. cbn. intros y k [Hk Hy]. split; [lia|].
    by replace (k - off)%nat with (S (k - S off)) by lia. }
  destruct (decide (f x = marker)); [|done]. cbn. constructor; [|done]. by rewrite Nat.sub_diag.
Qed.

(** [unique_marker] over the rows that are marker lines. *)
Lemma unique_marker_spec body marker found unique absent ambiguous :
  unique_marker body marker found unique absent ambiguous =
  match unique, omap (marker_line body marker) found with
  | Some line, [] => Ok line
  | None, [line] => Ok line
  | None, [] => Err absent
  | _, _ => Err ambiguous
  end.
Proof.
  revert unique. induction found as [|at_ found IH]; intros unique; [by destruct unique|]. cbn.
  destruct (marker_line body marker at_) as [line|]; [|by rewrite IH]. destruct unique; [done|]. by rewrite IH.
Qed.

(** What the numbers of the marker lines say. *)
Definition sole {A E} (l : list A) (absent ambiguous : E) : res A E :=
  match l with [] => Err absent | [x] => Ok x | _ => Err ambiguous end.

Lemma concat_take_mono (ts : list bytes) i j :
  (i <= j)%nat -> len (concat (take i ts)) <= len (concat (take j ts)).
Proof.
  intros Hij. rewrite <- (take_drop i (take j ts)), take_take, Nat.min_l, concat_app, len_app by lia.
  pose proof (len_nonneg (concat (drop i (take j ts)))). lia.
Qed.

Section RegionExact.
Context `{MM : Memmem} {ML : MemmemLaws (H := MM)}.

Lemma unique_marker_lines body marker absent ambiguous :
  rust_slice body -> marker_ok marker ->
  match sole (marker_lines marker body) absent ambiguous with
  | Ok k => exists line, scan body !! k = Some line /\ unique_marker_line body marker absent ambiguous = Ok (marker_row line)
  | out => unique_marker_line body marker absent ambiguous = let? _ := out in Ok (mkMarkerLine 0 0)
  end.
Proof.
  intros Hs Hm. unfold unique_marker_line. rewrite find_iter_nonempty by apply Hm.
  change (occurrences (length body) marker body 0) with (occ marker body 0).
  pose proof (occ_lines marker [] 0 body (scan body) Hm (scan_cuts _ Hs) eq_refl (or_introl eq_refl) Hs) as Hocc.
  cbn [app] in Hocc. rewrite unique_marker_spec, Hocc.
  unfold marker_lines, contents. rewrite length_map.
  pose proof (filter_numbers (fun line => Line.content line body) marker (scan body) 0) as H.
  destruct H as [|line k ? ? [_ H1] H]; [done|]. rewrite Nat.sub_0_r in H1. destruct H; [|done]. cbn. by exists line.
Qed.

(** a named region is the bytes of the lines strictly between the one line
    that is the start marker and the one that is the end marker, whatever
    else on other lines contains the markers. It is refused when a marker has
    no line or several, when the end does not follow the start, and when the
    bytes are not UTF-8, in this order. *)
Theorem named_region_exact body start_marker end_marker :
  rust_slice body -> source_marker_valid start_marker = true -> source_marker_valid end_marker = true ->
  named_region_bytes body start_marker end_marker =
  let? i := sole (marker_lines start_marker body)
    ProjectionObserved.SourceStartMarkerAbsent ProjectionObserved.SourceStartMarkerAmbiguous in
  let? j := sole (marker_lines end_marker body)
    ProjectionObserved.SourceEndMarkerAbsent ProjectionObserved.SourceEndMarkerAmbiguous in
  if (i <? j)%nat
  then ok_or (from_utf8 (concat (take (j - S i) (drop (S i) (texts body))))) ProjectionObserved.SourceRegionNotUtf8
  else Err ProjectionObserved.SourceRegionOrderInvalid.
Proof.
  intros Hs H1%source_marker_ok H2%source_marker_ok. unfold named_region_bytes.
  pose proof (unique_marker_lines body start_marker ProjectionObserved.SourceStartMarkerAbsent
    ProjectionObserved.SourceStartMarkerAmbiguous Hs H1) as U1.
  destruct (sole (marker_lines start_marker body) _ _) as [i|e|]; [|by rewrite U1..].
  destruct U1 as (si & Hi & ->).
  pose proof (unique_marker_lines body end_marker ProjectionObserved.SourceEndMarkerAbsent
    ProjectionObserved.SourceEndMarkerAmbiguous Hs H2) as U2.
  destruct (sole (marker_lines end_marker body) _ _) as [j|e|]; [|by rewrite U2..].
  destruct U2 as (sj & Hj & ->). cbn [marker_row ml_start ml_after].
  destruct (scan_at _ _ _ Hs Hi) as [-> ->], (scan_at _ _ _ Hs Hj) as [-> _].
  assert (len (concat (take i (texts body))) < len (concat (take (S i) (texts body)))) as Hlt.
  { assert (is_Some (texts body !! i)) as [t Ht] by (unfold texts; rewrite list_lookup_fmap, Hi; by eexists).
    rewrite (take_S_r _ _ _ Ht), concat_app, len_app. cbn. rewrite app_nil_r.
    pose proof (texts_pos body Hs) as Hp. rewrite Forall_lookup in Hp. specialize (Hp _ _ Ht). destruct t; [done|].
    rewrite len_cons. pose proof (len_nonneg t). lia. }
  destruct (Nat.ltb_spec i j) as [Hij|Hij].
  - pose proof (concat_take_mono (texts body) (S i) j ltac:(lia)).
    destruct (Z.leb_spec (len (concat (take j (texts body)))) (len (concat (take i (texts body))))); [lia|].
    destruct (Z.ltb_spec (len (concat (take j (texts body)))) (len (concat (take (S i) (texts body))))); [lia|].
    cbn [orb]. by rewrite slice_texts by (done || lia).
  - pose proof (concat_take_mono (texts body) j i Hij).
    by destruct (Z.leb_spec (len (concat (take j (texts body)))) (len (concat (take i (texts body))))); [|lia].
Qed.
End RegionExact.

(** The search itself as an instance. *)
Definition naive_memmem : Memmem := fun needle hay => occurrences (length hay) needle hay 0.
Lemma naive_memmem_laws : MemmemLaws (H := naive_memmem).
Proof. by constructor. Qed.

Lemma named_region_exact_witness :
  named_region_bytes (MM := naive_memmem) (b_ "# go!" ++ [CR; LF] ++ b_ "x # go!" ++ [LF] ++ b_ "# end") (b_ "# go!") (b_ "# end") =
  Ok (b_ "x # go!" ++ [LF]).
Proof.
  pose proof (named_region_exact (MM := naive_memmem) (ML := naive_memmem_laws)
    (b_ "# go!" ++ [CR; LF] ++ b_ "x # go!" ++ [LF] ++ b_ "# end") (b_ "# go!") (b_ "# end")
    ltac:(by vm_compute) eq_refl eq_refl) as H.
  rewrite H. by vm_compute.
Defined.

(** ** Line fragments *)

(** The number a list of digits spells, after [acc]. *)
Definition value (acc : Z) (text : bytes) : Z := fold_left (fun v b => v * 10 + (u8 b - 48)) text acc.
Definition digits (text : bytes) : Prop := Forall (fun b => is_ascii_digit b = true) text.

Lemma digit_range b : is_ascii_digit b = true -> 0 <= u8 b - 48 < 10.
Proof. intros H. by apply digit_char_u8 in H as [_ ?]. Qed.

Lemma value_snoc acc text b : value acc (text ++ [b]) = value acc text * 10 + (u8 b - 48).
Proof. unfold value. by rewrite fold_left_app. Qed.

Lemma value_ge acc text : digits text -> 0 <= acc -> acc <= value acc text.
Proof.
  intros Hd. revert acc. induction Hd as [|b text Hb Hd IH]; intros acc Ha; [done|]. cbn.
  pose proof (digit_range b Hb). specialize (IH (acc * 10 + (u8 b - 48)) ltac:(lia)). unfold value in IH. lia.
Qed.

Lemma value_lt text : digits text -> 0 <= value 0 text < 10 ^ len text.
Proof.
  induction text as [|b text IH] using rev_ind; intros Hd; [done|]. apply Forall_app in Hd as [Hd Hb].
  apply Forall_cons in Hb as [Hb _]. pose proof (digit_range b Hb). specialize (IH Hd).
  rewrite value_snoc, len_snoc, Z.pow_add_r by (try lia; apply len_nonneg). lia.
Qed.

Lemma parse_digits_spec text acc :
  digits text -> 0 <= acc <= u64_max ->
  parse_digits text acc = if value acc text <=? u64_max then Some (value acc text) else None.
Proof.
  intros Hd. revert acc. induction Hd as [|b text Hb Hd IH]; intros acc Ha; cbn [parse_digits].
  { cbn. by destruct (Z.leb_spec acc u64_max); [|lia]. }
  rewrite Hb. pose proof (digit_range b Hb). pose proof (value_ge (acc * 10 + (u8 b - 48)) text Hd ltac:(lia)) as Hv.
  change (value acc (b :: text)) with (value (acc * 10 + (u8 b - 48)) text).
  unfold checked_mul. destruct (Z.leb_spec (acc * 10) u64_max); cbn.
  - unfold checked_add. replace (u8 b - 48 + acc * 10) with (acc * 10 + (u8 b - 48)) by lia.
    destruct (Z.leb_spec (acc * 10 + (u8 b - 48)) u64_max); cbn; [by apply IH; lia|].
    by destruct (Z.leb_spec (value (acc * 10 + (u8 b - 48)) text) u64_max); [lia|].
  - by destruct (Z.leb_spec (value (acc * 10 + (u8 b - 48)) text) u64_max); [lia|].
Qed.

(** A number without leading zero is what its digits print as. *)
Lemma fmt_value text :
  digits text -> text <> [] -> head text <> Some "0"%byte -> len text <= 19 ->
  0 < value 0 text /\ fmt_dec (value 0 text) = text.
Proof.
  induction text as [|b text IH] using rev_ind; [done|]. intros Hd _ Hh Hl.
  apply Forall_app in Hd as [Hd Hb]. apply Forall_cons in Hb as [Hb _]. rewrite len_snoc in Hl.
  apply digit_char_u8 in Hb as [Eb Hr]. rewrite value_snoc. destruct text as [|c text].
  - change (value 0 []) with 0. rewrite Z.mul_0_l, Z.add_0_l, fmt_dec_digit, <- Eb by done. split; [|done].
    destruct (decide (u8 b = 48)) as [E|]; [|lia]. destruct Hh. cbn. f_equal. by apply u8_inj.
  - destruct IH as [Hpos IH]; [done..|lia|]. pose proof (value_lt (c :: text) Hd) as Hlt.
    assert (10 ^ len (c :: text) <= 10 ^ 18) by (apply Z.pow_le_mono_r; lia).
    pose proof (digit_range b) as Hdr. rewrite fmt_dec_snoc by lia. rewrite IH, <- Eb. split; [lia|done].
Qed.

Lemma fmt_dec_digits k n :
  (k <= 19)%nat -> 1 <= n < 10 ^ Z.of_nat k ->
  digits (fmt_dec n) /\ fmt_dec n <> [] /\ head (fmt_dec n) <> Some "0"%byte /\ len (fmt_dec n) <= Z.of_nat k /\
  value 0 (fmt_dec n) = n.
Proof.
  revert n. induction k as [|k IH]; intros n Hk Hn; [change (10 ^ Z.of_nat 0) with 1 in Hn; lia|].
  assert (forall d, 0 <= d < 10 -> is_ascii_digit (digit_char d) = true /\ u8 (digit_char d) - 48 = d) as Hdc.
  { intros d Hd. unfold is_ascii_digit, digit_char. rewrite u8_byte_of by lia. split; [|lia].
    by destruct (Z.leb_spec 48 (48 + d)), (Z.leb_spec (48 + d) 57); try lia. }
  destruct (Z.ltb_spec n 10).
  - rewrite fmt_dec_digit by lia. destruct (Hdc n ltac:(lia)) as [H1 H2]. repeat split.
    + by apply Forall_cons.
    + done.
    + cbn. intros [= E]. rewrite E in H2. cbn in H2. lia.
    + rewrite len_cons, len_nil. lia.
    + cbn. lia.
  - pose proof (Z.div_mod n 10 ltac:(lia)) as Edm. pose proof (Z.mod_pos_bound n 10 ltac:(lia)) as Hm.
    assert (1 <= n / 10 < 10 ^ Z.of_nat k) as Hq.
    { rewrite Nat2Z.inj_succ, <- Z.add_1_l, Z.pow_add_r in Hn by lia.
      split; [apply Z.div_le_lower_bound; lia|apply Z.div_lt_upper_bound; lia]. }
    assert (10 ^ Z.of_nat k <= 10 ^ 18) by (apply Z.pow_le_mono_r; lia).
    destruct (IH (n / 10) ltac:(lia) Hq) as (I1 & I2 & I3 & I4 & I5). destruct (Hdc (n mod 10) Hm) as [H1 H2].
    replace n with (n / 10 * 10 + n mod 10) by lia. rewrite fmt_dec_snoc by lia. repeat split.
    + apply Forall_app. split; [done|by apply Forall_cons].
    + by destruct (fmt_dec (n / 10)).
    + by destruct (fmt_dec (n / 10)).
    + rewrite len_snoc. lia.
    + rewrite value_snoc, I5. lia.
Qed.

Lemma forallb_digits text : forallb is_ascii_digit text = true <-> digits text.
Proof. unfold digits. rewrite forallb_forall, Forall_forall. by setoid_rewrite list_elem_of_In. Qed.

Definition safe_number (text : bytes) (n : Z) : Prop := 1 <= n <= MAX_SAFE /\ text = fmt_dec n.

Lemma strip_prefix_head c pattern b text : b <> c -> strip_prefix (c :: pattern) (b :: text) = None.
Proof. intros Hne. cbn [strip_prefix]. destruct (beqb c b) eqn:E; [|done]. apply beqb_eq in E. congruence. Qed.

Lemma strip_plus text : head text <> Some "+"%byte -> strip_prefix (b_ "+") text = None.
Proof.
  destruct text as [|b text]; [done|]. intros H. apply strip_prefix_head. intros ->. by apply H.
Qed.

Lemma safe_line_number_exact text n : safe_line_number text = Some n <-> safe_number text n.
Proof.
  unfold safe_line_number, safe_number. split.
  - destruct (bytes_eqb text []) eqn:E0; [done|]. apply bytes_eqb_neq in E0. destruct (Z.ltb_spec 16 (len text)); [done|]. cbn [orb].
    destruct (match head text with Some b => beqb b "0" | None => false end) eqn:Eh; [done|].
    destruct (forallb is_ascii_digit text) eqn:Ed; [|done]. apply forallb_digits in Ed. cbn [negb].
    assert (head text <> Some "0"%byte) as Hz by (intros E; by rewrite E in Eh).
    destruct (fmt_value text Ed E0 Hz ltac:(lia)) as [Hpos Hfmt].
    unfold parse_u64. rewrite strip_plus.
    2: { intros E. destruct text as [|b text]; [done|]. injection E as ->. by apply Forall_cons in Ed as [? _]. }
    cbn [from_option id]. destruct (bytes_eqb text []) eqn:E0'; [by apply bytes_eqb_eq in E0'|].
    rewrite parse_digits_spec by (done || (unfold u64_max; lia)).
    destruct (_ <=? u64_max); [|done]. destruct (Z.leb_spec (value 0 text) MAX_SAFE); [|done]. intros [= <-].
    split; [lia|done].
  - intros [Hn ->]. destruct (fmt_dec_digits 16 n) as (H1 & H2 & H3 & H4 & H5); [lia|unfold MAX_SAFE in Hn; lia|].
    destruct (bytes_eqb (fmt_dec n) []) eqn:E0; [by apply bytes_eqb_eq in E0|].
    destruct (Z.ltb_spec 16 (len (fmt_dec n))); [lia|].
    destruct (head (fmt_dec n)) as [b|] eqn:Eh; [|by destruct (fmt_dec n)].
    destruct (beqb b "0") eqn:Eb; [apply beqb_eq in Eb as ->; done|]. cbn [orb]. rewrite (proj2 (forallb_digits _) H1). cbn [negb].
    unfold parse_u64. rewrite strip_plus.
    2: { intros E. destruct (fmt_dec n) as [|c t]; [done|]. injection E as ->. by apply Forall_cons in H1 as [? _]. }
    cbn [from_option id]. rewrite E0, parse_digits_spec, H5 by (done || (unfold u64_max; lia)). unfold MAX_SAFE, u64_max in *.
    destruct (Z.leb_spec n 18446744073709551615); [|lia]. by destruct (Z.leb_spec n 9007199254740991); [|lia].
Qed.

Lemma split_once_Some pattern text x y : split_once pattern text = Some (x, y) -> text = x ++ pattern ++ y.
Proof.
  revert x. induction text as [|b text IH]; intros x; cbn [split_once].
  - destruct (strip_prefix pattern []) eqn:E; [|done]. intros [= <- <-]. by apply strip_prefix_Some in E.
  - destruct (strip_prefix pattern (b :: text)) eqn:E; [intros [= <- <-]; by apply strip_prefix_Some in E|].
    destruct (split_once pattern text) as [[before after]|]; [|done]. intros [= <- <-]. cbn. f_equal. by apply IH.
Qed.

Lemma split_once_app c pattern before after :
  c ∉ before -> split_once (c :: pattern) (before ++ (c :: pattern) ++ after) = Some (before, after).
Proof.
  induction before as [|b before IH]; intros Hc.
  - assert (strip_prefix (c :: pattern) ((c :: pattern) ++ after) = Some after) as E by by apply strip_prefix_Some.
    cbn [app] in *. cbn [split_once]. by rewrite E.
  - apply not_elem_of_cons in Hc as [Hne Hc]. cbn [app split_once]. rewrite strip_prefix_head by congruence. cbn [app] in IH. by rewrite IH.
Qed.

Lemma split_once_absent c pattern text : c ∉ text -> split_once (c :: pattern) text = None.
Proof.
  intros Hc. destruct (split_once _ _) as [[x y]|] eqn:E; [|done]. apply split_once_Some in E as ->.
  destruct Hc. apply elem_of_app. right. by left.
Qed.

Lemma rsplit_once_Some c text x y : rsplit_once c text = Some (x, y) <-> text = x ++ c :: y /\ c ∉ y.
Proof.
  revert x y. induction text as [|b text IH]; intros x y; cbn [rsplit_once].
  { split; [done|]. intros [E _]. by destruct x. }
  destruct (rsplit_once c text) as [[before after]|] eqn:E.
  - split.
    + intros [= <- <-]. destruct (proj1 (IH before after) eq_refl) as [-> ?]. done.
    + intros [Et Hy]. destruct x as [|b' x]; injection Et as -> ->.
      * exfalso. destruct (proj1 (IH before after) eq_refl) as [-> _]. apply Hy, elem_of_app. right. by left.
      * destruct (proj1 (IH before after) eq_refl) as [E1 H1]. pose proof (proj2 (IH x y) (conj eq_refl Hy)) as E2.
        by injection E2 as -> ->.
  - destruct (beqb b c) eqn:Eb.
    + apply beqb_eq in Eb as ->. split.
      * intros [= <- <-]. split; [done|]. intros Hin. apply list_elem_of_split_r in Hin as (l1 & l2 & -> & Hl2).
        pose proof (proj2 (IH l1 l2) (conj eq_refl Hl2)). done.
      * intros [Et Hy]. destruct x as [|b' x]; simplify_eq/=; [done|].
        pose proof (proj2 (IH x y) (conj eq_refl Hy)). done.
    + split; [done|]. intros [Et Hy]. destruct x as [|b' x]; injection Et as -> ->.
      * by rewrite (proj2 (beqb_eq c c) eq_refl) in Eb.
      * pose proof (proj2 (IH x y) (conj eq_refl Hy)). done.
Qed.

(** *** The spellings of the dialects *)

(** What stands before the first number, and between the two. *)
Definition spelling (forge : option ForgeDialect) : bytes * bytes :=
  match forge with
  | Some BitbucketDataCenter => ([], b_ "-")
  | Some Gitlab => (b_ "L", b_ "-")
  | _ => (b_ "L", b_ "-L")
  end.

Inductive spells (forge : option ForgeDialect) (p : path) : bytes -> LineRange -> Prop :=
  | spells_bitbucket text n :
      forge = Some BitbucketCloud -> safe_number text n ->
      spells forge p (basename p ++ b_ "-" ++ text) (single_line n)
  | spells_line text n :
      forge <> Some BitbucketCloud -> safe_number text n ->
      spells forge p ((spelling forge).1 ++ text) (single_line n)
  | spells_range text text' n n' :
      forge <> Some BitbucketCloud -> safe_number text n -> safe_number text' n' -> n <= n' ->
      spells forge p ((spelling forge).1 ++ text ++ (spelling forge).2 ++ text') (mkLineRange n n').

Lemma safe_number_dash text n : safe_number text n -> "-"%byte ∉ text.
Proof.
  intros [Hn ->] Hin. destruct (fmt_dec_digits 16 n) as (H1 & _); [lia|unfold MAX_SAFE in Hn; lia|].
  by apply (proj1 (Forall_forall _ _) H1) in Hin.
Qed.

Lemma line_fragment_other forge p decoded :
  forge <> Some BitbucketCloud ->
  line_fragment forge p decoded =
  rest ← strip_prefix (spelling forge).1 decoded;
  match split_once (spelling forge).2 rest with
  | None => single_line <$> safe_line_number rest
  | Some (start, end_) =>
      match safe_line_number start, safe_line_number end_ with
      | Some first, Some last_ => if first <=? last_ then Some (mkLineRange first last_) else None
      | _, _ => None
      end
  end.
Proof.
  intros Hf. unfold line_fragment. rewrite bool_decide_false by done.
  destruct forge as [[]|]; cbn [spelling fst snd strip_prefix mbind option_bind]; try done;
    by destruct (strip_prefix (b_ "L") decoded).
Qed.

(** a fragment selects lines exactly when it is spelled the way the
    dialect spells one line or a range of lines: numbers are decimal without
    leading zero, at least one and at most 2^53 - 1, and a range does not end
    before it begins. *)
Theorem line_fragment_exact forge p decoded range :
  line_fragment forge p decoded = Some range <-> spells forge p decoded range.
Proof.
  destruct (decide (forge = Some BitbucketCloud)) as [->|Hf].
  - unfold line_fragment. rewrite bool_decide_true by done. split.
    + destruct (rsplit_once "-" decoded) as [[name line]|] eqn:E; [|done]. cbn. apply rsplit_once_Some in E as [-> _].
      destruct (bytes_eqb name (basename p)) eqn:En; [|done]. apply bytes_eqb_eq in En as ->. cbn.
      destruct (safe_line_number line) as [n|] eqn:El; [|done]. intros [= <-]. apply safe_line_number_exact in El.
      by apply (spells_bitbucket (Some BitbucketCloud) p line n).
    + inversion 1 as [text n _ Hn|text n Hc|text text' n n' Hc]; subst; [|done..].
      assert (rsplit_once "-" (basename p ++ b_ "-" ++ text) = Some (basename p, text)) as ->
        by (apply rsplit_once_Some; split; [done|by eapply safe_number_dash]).
      cbn. rewrite (proj2 (bytes_eqb_eq _ _) eq_refl). cbn. by rewrite (proj2 (safe_line_number_exact _ _) Hn).
  - rewrite line_fragment_other by done. assert (exists pattern, (spelling forge).2 = "-"%byte :: pattern) as [pattern Hs]
      by (destruct forge as [[]|]; by eexists).
    split.
    + destruct (strip_prefix _ decoded) as [rest|] eqn:E; [|done]. cbn. apply strip_prefix_Some in E as ->.
      destruct (split_once _ rest) as [[start end_]|] eqn:Es.
      * apply split_once_Some in Es as ->. destruct (safe_line_number start) as [n|] eqn:E1; [|done].
        destruct (safe_line_number end_) as [n'|] eqn:E2; [|done]. destruct (Z.leb_spec n n'); [|done]. intros [= <-].
        apply safe_line_number_exact in E1, E2. by constructor.
      * destruct (safe_line_number rest) as [n|] eqn:E1; [|done]. intros [= <-]. apply safe_line_number_exact in E1. by constructor.
    + inversion 1 as [|text n _ Hn|text text' n n' _ Hn Hn' Hle]; subst; [done|..].
      * rewrite (proj2 (strip_prefix_Some _ _ text) eq_refl). cbn.
        rewrite Hs, split_once_absent by by eapply safe_number_dash. by rewrite (proj2 (safe_line_number_exact _ _) Hn).
      * rewrite (proj2 (strip_prefix_Some _ _ (text ++ (spelling forge).2 ++ text')) eq_refl). cbn.
        rewrite Hs, split_once_app by by eapply safe_number_dash.
        rewrite (proj2 (safe_line_number_exact _ _) Hn), (proj2 (safe_line_number_exact _ _) Hn').
        by destruct (Z.leb_spec n n'); [|lia].
Qed.
