(* ===== verification/ScanLfs.v ===== *)
(** LFS pointers: [crates/amiss-scan/src/lfs.rs]. *)
From Stdlib Require Import Strings.Byte Strings.String Lia Sorting.Sorted.
From stdpp Require Import base numbers sets sorting list.
From S2P Require Import Prelude Codec WireModel OrdMap Observation ScanLines.

Definition MAX_POINTER_BYTES : usize := 1023.
Definition MAX_SIZE_VALUE : u64 := 9223372036854775807.
Definition VERSIONS : list bytes :=
  [b_ "version https://git-lfs.github.com/spec/v1"; b_ "version https://hawser.github.com/spec/v1"].
Definition BOM : bytes := [xef; xbb; xbf].

(** [str::contains] of a string and [str::split]; [str::replace] by the empty
    string joins what the split leaves. *)
Definition contains (pattern text : bytes) : bool := is_some (split_once pattern text).
Fixpoint split_fuel (fuel : nat) (pattern text : bytes) : list bytes :=
  match fuel with
  | O => [text]
  | S fuel =>
      match split_once pattern text with
      | Some (before, after) => before :: split_fuel fuel pattern after
      | None => [text]
      end
  end.
Definition split (pattern text : bytes) : list bytes := split_fuel (length text) pattern text.
Definition remove (pattern text : bytes) : bytes := concat (split pattern text).

Definition key_byte (b : Byte.byte) : bool :=
  is_ascii_lowercase b || is_ascii_digit b || beqb b "." || beqb b "-".
Definition lower_hex (b : Byte.byte) : bool := is_ascii_digit b || (97 <=? u8 b) && (u8 b <=? 102).

(** The arms of the match on the key. *)
Definition oid_value (value : bytes) : bool :=
  match strip_prefix (b_ "sha256:") value with
  | Some hex => (len hex =? 64) && forallb lower_hex hex
  | None => false
  end.
Definition size_value (value : bytes) : bool :=
  if negb (bytes_eqb value (b_ "0")) && (is_some (strip_prefix (b_ "0") value) || bytes_eqb value []) then false
  else if negb (forallb is_ascii_digit value) then false
  else match parse_u64 value with Some size => size <=? MAX_SIZE_VALUE | None => false end.

(** The loop over the lines after the first. *)
Fixpoint pointer_rows (lines : list bytes) (previous_key : option bytes) (oid_lines size_lines : u32) : bool :=
  match lines with
  | [] => (oid_lines =? 1) && (size_lines =? 1)
  | line :: lines =>
      match split_once (b_ " ") line with
      | None => false
      | Some (key, value) =>
          if is_some (strip_prefix (b_ " ") value) then false
          else if bytes_eqb key [] || negb (forallb key_byte key) then false
          else if match previous_key with Some previous => bytes_leb key previous | None => false end then false
          else if bytes_eqb key (b_ "version") then false
          else if bytes_eqb key (b_ "oid") then
            let oid_lines := sat_add32 oid_lines 1 in
            if oid_value value then pointer_rows lines (Some key) oid_lines size_lines else false
          else if bytes_eqb key (b_ "size") then
            let size_lines := sat_add32 size_lines 1 in
            if size_value value then pointer_rows lines (Some key) oid_lines size_lines else false
          else pointer_rows lines (Some key) oid_lines size_lines
      end
  end.

(** The checks of the line endings and the split of the body. *)
Definition pointer_lines (text : bytes) : option (list bytes) :=
  let crlf := contains [CR; LF] text in
  if crlf && existsb line_break (remove [CR; LF] text) then None
  else if negb crlf && existsb (beqb CR) text then None
  else
    let ending := if crlf then [CR; LF] else [LF] in
    body ← strip_suffix ending text;
    Some (split ending body).

Definition is_pointer (source : bytes) : bool :=
  if bytes_eqb source [] || (MAX_POINTER_BYTES <? len source) || is_some (strip_prefix BOM source) then false
  else
    match from_utf8 source with
    | None => false
    | Some text =>
        match pointer_lines text with
        | None | Some [] => false
        | Some (first :: lines) =>
            if negb (existsb (bytes_eqb first) VERSIONS) then false else pointer_rows lines None 0 0
        end
    end.

(** ** Reference grammar *)

Definition key_ok (key : bytes) : Prop := key <> [] /\ Forall (fun b => key_byte b = true) key /\ key <> b_ "version".

Definition value_ok (key value : bytes) : Prop :=
  head value <> Some " "%byte /\
  (key = b_ "oid" -> exists hex, value = b_ "sha256:" ++ hex /\ len hex = 64 /\ Forall (fun b => lower_hex b = true) hex) /\
  (key = b_ "size" -> exists size, value = fmt_dec size /\ 0 <= size <= MAX_SIZE_VALUE).

Definition row_text (row : bytes * bytes) : bytes := row.1 ++ b_ " " ++ row.2.

(** A pointer: the version line, then keys in increasing order, an [oid] and a
    [size] among them, every line ended the same way. *)
Record pointer (source : bytes) (ending version : bytes) (rows : list (bytes * bytes)) : Prop := {
  ptr_len : len source <= MAX_POINTER_BYTES;
  ptr_utf8 : utf8_valid source = true;
  ptr_ending : ending ∈ [[LF]; [CR; LF]];
  ptr_version : version ∈ VERSIONS;
  ptr_text : source = concat (map (fun line => line ++ ending) (version :: map row_text rows));
  ptr_plain : Forall plain (map row_text rows);
  ptr_rows : Forall (fun row => key_ok row.1 /\ value_ok row.1 row.2) rows;
  ptr_sorted : StronglySorted bytes_lt rows.*1;
  ptr_oid : b_ "oid" ∈ rows.*1;
  ptr_size : b_ "size" ∈ rows.*1
}.

(** ** Lines joined and split *)

Fixpoint join (ending : bytes) (lines : list bytes) : bytes :=
  match lines with
  | [] => []
  | [line] => line
  | line :: lines => line ++ ending ++ join ending lines
  end.

Definition ended (ending : bytes) (lines : list bytes) : bytes := concat (map (fun line => line ++ ending) lines).

Lemma join_snoc ending lines x : join ending (lines ++ [x]) = ended ending lines ++ x.
Proof.
  induction lines as [|line lines IH]; [done|]. cbn [app]. unfold ended in *. cbn. rewrite <- !app_assoc, <- IH.
  by destruct (lines ++ [x]) eqn:E; [apply app_nil in E as [_ ?]|].
Qed.

Lemma ended_snoc ending lines x : ended ending (lines ++ [x]) = ended ending lines ++ x ++ ending.
Proof. unfold ended. rewrite map_app, concat_app. cbn. by rewrite app_nil_r. Qed.

Lemma join_in ending lines piece b : piece ∈ lines -> b ∈ piece -> b ∈ join ending lines.
Proof.
  induction 1 as [piece [|line lines]|piece line [|line' lines] Hin IH]; intros Hb; [done| |by apply not_elem_of_nil in Hin|].
  - apply elem_of_app. by left.
  - apply elem_of_app. right. apply elem_of_app. right. by apply IH.
Qed.

Lemma split_nonempty pattern text : exists pieces x, split pattern text = pieces ++ [x].
Proof.
  unfold split. assert (split_fuel (length text) pattern text <> []) as Hne
    by (destruct text; cbn [length split_fuel]; [done|]; by destruct (split_once _ _) as [[]|]).
  destruct (split_fuel _ _ _) as [|x l _] using rev_ind; [done|]. eauto.
Qed.

Lemma join_split pattern text : join pattern (split pattern text) = text.
Proof.
  unfold split. generalize (length text) as fuel. intros fuel. revert text.
  induction fuel as [|fuel IH]; intros text; [done|]. cbn [split_fuel].
  destruct (split_once pattern text) as [[before after]|] eqn:E; [|done]. apply split_once_Some in E as ->.
  rewrite <- (IH after) at 2. cbn [join]. destruct (split_fuel fuel pattern after) eqn:Es; [|done].
  destruct fuel; cbn in Es; [done|]. by destruct (split_once pattern after) as [[]|].
Qed.

Lemma ending_head ending : ending ∈ [[LF]; [CR; LF]] -> exists c pattern, ending = c :: pattern /\ (c = LF \/ c = CR).
Proof. rewrite !elem_of_cons. intros [->|[->|[]%not_elem_of_nil]]; eauto. Qed.

Lemma plain_absent c line : c = LF \/ c = CR -> plain line -> c ∉ line.
Proof. intros Hc Hp Hin. apply (proj1 (Forall_forall _ _) Hp) in Hin. naive_solver. Qed.

Lemma split_join_fuel ending lines fuel :
  ending ∈ [[LF]; [CR; LF]] -> Forall plain lines -> lines <> [] -> (length (join ending lines) <= fuel)%nat ->
  split_fuel fuel ending (join ending lines) = lines.
Proof.
  intros He Hp. revert fuel. destruct (ending_head _ He) as (c & pattern & -> & Hc).
  induction Hp as [|line lines Hl Hp IH]; [done|]. intros fuel _ Hf. destruct lines as [|line' lines].
  - cbn [join]. destruct fuel; cbn [split_fuel]; [done|]. by rewrite split_once_absent by by apply plain_absent.
  - change (join (c :: pattern) (line :: line' :: lines)) with (line ++ (c :: pattern) ++ join (c :: pattern) (line' :: lines)) in *.
    rewrite !length_app in Hf. cbn [length] in Hf. destruct fuel as [|fuel]; [lia|]. cbn [split_fuel].
    rewrite split_once_app by by apply plain_absent. f_equal. apply IH; [done|lia].
Qed.

Lemma split_join ending lines :
  ending ∈ [[LF]; [CR; LF]] -> Forall plain lines -> lines <> [] -> split ending (join ending lines) = lines.
Proof. intros. by apply split_join_fuel. Qed.

(** Pieces between single bytes hold none of them. *)
Lemma split_single c text : Forall (fun piece => c ∉ piece) (split [c] text).
Proof.
  unfold split. assert (length text <= length text)%nat as Hf by done. revert Hf.
  generalize (length text) at 2 3 as fuel. intros fuel. revert text.
  assert (forall text x y, split_once [c] text = Some (x, y) -> c ∉ x) as Hx.
  { induction text as [|b text IH]; intros x y; cbn [split_once strip_prefix]; [done|].
    destruct (beqb c b) eqn:E; [intros [= <- <-]; apply not_elem_of_nil|].
    destruct (split_once [c] text) as [[before after]|] eqn:Es; [|done]. intros [= <- <-].
    apply not_elem_of_cons. split; [|by eapply IH]. intros ->. by rewrite (proj2 (beqb_eq b b) eq_refl) in E. }
  assert (forall text, split_once [c] text = None -> c ∉ text) as Hn.
  { induction text as [|b text IH]; cbn [split_once strip_prefix]; [intros _; apply not_elem_of_nil|].
    destruct (beqb c b) eqn:E; [done|]. destruct (split_once [c] text) as [[]|]; [done|]. intros _.
    apply not_elem_of_cons. split; [|by apply IH]. intros ->. by rewrite (proj2 (beqb_eq b b) eq_refl) in E. }
  induction fuel as [|fuel IH]; intros text Hf; cbn [split_fuel].
  { destruct text; [|cbn in Hf; lia]. repeat constructor. apply not_elem_of_nil. }
  destruct (split_once [c] text) as [[before after]|] eqn:E; [|by repeat constructor; apply Hn].
  constructor; [by eapply Hx|]. apply IH. apply split_once_Some in E as ->. rewrite !length_app in Hf. cbn in Hf. lia.
Qed.

Lemma existsb_false {A} (f : A -> bool) l : existsb f l = false <-> Forall (fun x => f x = false) l.
Proof.
  rewrite <- not_true_iff_false, existsb_exists, Forall_forall. split.
  - intros H x Hx. apply not_true_iff_false. intros Hf. apply H. exists x. by rewrite <- list_elem_of_In.
  - intros H (x & Hx & Hf). apply list_elem_of_In in Hx. specialize (H x Hx). congruence.
Qed.

Lemma no_breaks text : existsb line_break text = false <-> plain text.
Proof.
  rewrite existsb_false. unfold plain. apply Forall_proper; [|done]. intros b.
  rewrite <- not_true_iff_false, line_break_spec. naive_solver.
Qed.

Lemma no_cr text : existsb (beqb CR) text = false <-> CR ∉ text.
Proof.
  rewrite existsb_false, Forall_forall. split.
  - intros H Hin. by specialize (H _ Hin).
  - intros H x Hx. apply not_true_iff_false. intros E%beqb_eq. by subst.
Qed.

Lemma last_plain content ending x body :
  ending ∈ [[LF]; [CR; LF]] -> plain x -> content ++ x = body ++ ending -> x = [].
Proof.
  intros He Hp E. destruct x as [|b x' _] using rev_ind; [done|]. exfalso.
  apply Forall_app in Hp as [_ Hp]. apply Forall_cons in Hp as [[Hb _] _].
  assert (exists e, ending = e ++ [LF]) as [e ->]
    by (rewrite !elem_of_cons in He; destruct He as [->|[->|[]%not_elem_of_nil]]; [by exists []|by exists [CR]]).
  rewrite !app_assoc in E. apply app_inj_tail in E as [_ E]. done.
Qed.

(** The lines of a text, all ended the same way. *)
Lemma pointer_lines_spec text lines :
  pointer_lines text = Some lines <->
  exists ending, ending ∈ [[LF]; [CR; LF]] /\ text = ended ending lines /\ Forall plain lines /\ lines <> [].
Proof.
  split.
  - unfold pointer_lines.
    destruct (contains [CR; LF] text && existsb line_break (remove [CR; LF] text)) eqn:E1; [done|].
    destruct (negb (contains [CR; LF] text) && existsb (beqb CR) text) eqn:E2; [done|].
    set (ending := if contains [CR; LF] text then [CR; LF] else [LF]).
    assert (ending ∈ [[LF]; [CR; LF]]) as He by (unfold ending; destruct (contains _ _); set_solver).
    destruct (strip_suffix ending text) as [body|] eqn:Es; [|done]. apply strip_suffix_Some in Es. cbn. intros [= <-].
    destruct (split_nonempty ending text) as (pieces & x & Hsp).
    assert (Forall plain (pieces ++ [x])) as Hp.
    { rewrite <- Hsp. unfold ending in *. destruct (contains [CR; LF] text).
      - cbn in E1. apply no_breaks in E1. unfold remove in E1. apply Forall_forall. intros piece Hin.
        apply Forall_forall. intros b Hb. apply (proj1 (Forall_forall _ _) E1).
        apply list_elem_of_In, in_concat. exists piece. by rewrite <- !list_elem_of_In.
      - cbn in E2. apply no_cr in E2. apply Forall_forall. intros piece Hin. apply Forall_forall. intros b Hb. split.
        + intros ->. by apply (proj1 (Forall_forall _ _) (split_single LF text) _ Hin).
        + intros ->. apply E2. rewrite <- (join_split [LF] text). by eapply join_in. }
    pose proof (join_split ending text) as Hj. rewrite Hsp, join_snoc in Hj. apply Forall_app in Hp as [Hp Hx].
    apply Forall_cons in Hx as [Hx _]. rewrite Es in Hj. pose proof (last_plain _ _ _ _ He Hx Hj) as ->.
    rewrite app_nil_r in Hj. destruct pieces as [|piece pieces _] using rev_ind.
    { exfalso. cbn in Hj. destruct (ending_head _ He) as (c & pattern & -> & _). by destruct body. }
    rewrite ended_snoc, app_assoc in Hj. apply app_inv_tail in Hj. rewrite <- join_snoc in Hj. rewrite <- Hj.
    rewrite split_join by (done || by destruct pieces). exists ending. repeat split; [done| |done|by destruct pieces].
    by rewrite Es, <- Hj, join_snoc, ended_snoc, <- app_assoc.
  - intros (ending & He & -> & Hp & Hne). unfold pointer_lines.
    assert (split ending (ended ending lines) = lines ++ [[]]) as Hsp.
    { rewrite <- (app_nil_r (ended ending lines)), <- join_snoc. apply split_join; [done| |by destruct lines].
      apply Forall_app. split; [done|]. repeat constructor. }
    assert (contains [CR; LF] (ended ending lines) = bool_decide (ending = [CR; LF])) as Hc.
    { rewrite !elem_of_cons in He. destruct He as [->|[->|[]%not_elem_of_nil]]; unfold contains.
      - rewrite bool_decide_false, split_once_absent; [done| |done]. clear -Hp. unfold ended.
        intros [l [Hl Hin]]%list_elem_of_In%in_concat. apply in_map_iff in Hl as (line & <- & Hl).
        apply list_elem_of_In in Hl, Hin. apply elem_of_app in Hin as [Hin|Hin].
        + by apply (plain_absent CR line (or_intror eq_refl) (proj1 (Forall_forall _ _) Hp _ Hl)).
        + by apply list_elem_of_singleton in Hin.
      - rewrite bool_decide_true by done. destruct lines as [|line lines]; [done|]. unfold ended. cbn [map concat].
        apply Forall_cons in Hp as [Hl _]. rewrite <- app_assoc, split_once_app; [done|]. by apply plain_absent; [right|]. }
    rewrite Hc. assert (strip_suffix ending (ended ending lines) = Some (join ending lines)) as Hss.
    { apply strip_suffix_Some. destruct lines as [|x lines _] using rev_ind; [done|].
      by rewrite ended_snoc, join_snoc, <- app_assoc. }
    rewrite !elem_of_cons in He. destruct He as [->|[->|[]%not_elem_of_nil]].
    + rewrite bool_decide_false by done. cbn [andb negb]. assert (existsb (beqb CR) (ended [LF] lines) = false) as ->.
      { apply no_cr. unfold contains in Hc. rewrite bool_decide_false in Hc by done. clear -Hp. unfold ended.
        intros [l [Hl Hin]]%list_elem_of_In%in_concat. apply in_map_iff in Hl as (line & <- & Hl).
        apply list_elem_of_In in Hl, Hin. apply elem_of_app in Hin as [Hin|Hin].
        + by apply (plain_absent CR line (or_intror eq_refl) (proj1 (Forall_forall _ _) Hp _ Hl)).
        + by apply list_elem_of_singleton in Hin. }
      rewrite Hss. cbn. f_equal. apply split_join; [set_solver|done..].
    + rewrite bool_decide_true by done. cbn [andb negb]. unfold remove. rewrite Hsp.
      assert (existsb line_break (concat (lines ++ [[]])) = false) as ->.
      { apply no_breaks. rewrite concat_app. cbn. rewrite app_nil_r. apply Forall_forall. intros b Hb.
        apply list_elem_of_In, in_concat in Hb as (l & Hl & Hb). apply list_elem_of_In in Hl, Hb.
        apply (proj1 (Forall_forall _ _) (proj1 (Forall_forall _ _) Hp _ Hl) _ Hb). }
      rewrite Hss. cbn. f_equal. apply split_join; [set_solver|done..].
Qed.

(** ** Rows *)

Lemma value_low text :
  digits text -> text <> [] -> head text <> Some "0"%byte -> 10 ^ (len text - 1) <= value 0 text.
Proof.
  induction text as [|b text IH] using rev_ind; [done|]. intros Hd _ Hh. apply Forall_app in Hd as [Hd Hb].
  apply Forall_cons in Hb as [Hb _]. pose proof (digit_range b Hb). rewrite value_snoc, len_snoc.
  destruct text as [|c text].
  - change (value 0 []) with 0. change (len (@nil Byte.byte)) with 0. change (10 ^ (0 + 1 - 1)) with 1.
    destruct (decide (u8 b = 48)) as [E|]; [|lia]. destruct Hh. cbn. f_equal. by apply u8_inj.
  - specialize (IH Hd ltac:(done) Hh). rewrite len_cons in *. pose proof (len_nonneg text).
    replace (len text + 1 + 1 - 1) with (len text + 1 - 1 + 1) by lia. rewrite Z.pow_add_r by lia. lia.
Qed.

Lemma strip_head c text : is_some (strip_prefix [c] text) = true <-> head text = Some c.
Proof.
  destruct text as [|b text]; cbn [strip_prefix head]; [done|].
  destruct (beqb c b) eqn:E; [apply beqb_eq in E as ->; done|]. split; [done|]. intros [= ->].
  by rewrite (proj2 (beqb_eq c c) eq_refl) in E.
Qed.

Lemma size_value_spec text : size_value text = true <-> exists size, text = fmt_dec size /\ 0 <= size <= MAX_SIZE_VALUE.
Proof.
  unfold size_value. destruct (bytes_eqb text (b_ "0")) eqn:E0; cbn [negb andb].
  { apply bytes_eqb_eq in E0 as ->. split; intros _; [|reflexivity]. exists 0. split; [reflexivity|]. unfold MAX_SIZE_VALUE. lia. }
  apply bytes_eqb_neq in E0. destruct (is_some (strip_prefix (b_ "0") text) || bytes_eqb text []) eqn:E1.
  - split; [done|]. intros (n & -> & Hn). destruct (decide (n = 0)) as [->|]; [done|].
    destruct (fmt_dec_digits 19 n) as (_ & H2 & H3 & _); [lia|unfold MAX_SIZE_VALUE in Hn; lia|].
    apply orb_true_iff in E1 as [E1%strip_head|E1%bytes_eqb_eq]; done.
  - apply orb_false_iff in E1 as [E1 E2]. apply bytes_eqb_neq in E2.
    assert (head text <> Some "0"%byte) as Hh by (intros H; apply (strip_head "0" text) in H; change ["0"%byte] with (b_ "0") in H; congruence).
    destruct (forallb is_ascii_digit text) eqn:Ed; cbn [negb].
    + apply forallb_digits in Ed. unfold parse_u64. rewrite strip_plus.
      2: { intros E. destruct text as [|b text]; [done|]. injection E as ->. by apply Forall_cons in Ed as [? _]. }
      cbn [from_option id]. rewrite (proj2 (bytes_eqb_neq _ _) E2), parse_digits_spec by (done || (unfold u64_max; lia)).
      pose proof (value_low text Ed E2 Hh) as Hlow. split.
      * destruct (value 0 text <=? u64_max); [|done]. intros Hle%Z.leb_le. exists (value 0 text).
        assert (len text <= 19) as Hl.
        { destruct (Z.le_gt_cases (len text) 19); [done|].
          assert (10 ^ 19 <= 10 ^ (len text - 1)) by (apply Z.pow_le_mono_r; lia). unfold MAX_SIZE_VALUE in Hle. lia. }
        destruct (fmt_value text Ed E2 Hh Hl) as [? ->]. split; [done|lia].
      * intros (n & -> & Hn). destruct (decide (n = 0)) as [->|]; [done|].
        destruct (fmt_dec_digits 19 n) as (_ & _ & _ & _ & ->); [lia|unfold MAX_SIZE_VALUE in Hn; lia|].
        unfold MAX_SIZE_VALUE, u64_max in *. destruct (Z.leb_spec n 18446744073709551615); [|lia]. apply Z.leb_le. lia.
    + split; [done|]. intros (n & -> & Hn). destruct (decide (n = 0)) as [->|]; [done|].
      destruct (fmt_dec_digits 19 n) as (H1 & _); [lia|unfold MAX_SIZE_VALUE in Hn; lia|].
      apply forallb_digits in H1. congruence.
Qed.

Lemma oid_value_spec text :
  oid_value text = true <->
  exists hex, text = b_ "sha256:" ++ hex /\ len hex = 64 /\ Forall (fun b => lower_hex b = true) hex.
Proof.
  unfold oid_value. split.
  - destruct (strip_prefix _ text) as [hex|] eqn:E; [|done]. apply strip_prefix_Some in E as ->.
    intros [Hl%Z.eqb_eq Hf]%andb_prop. exists hex. repeat split; [done|]. apply Forall_forall. intros b Hb.
    rewrite forallb_forall in Hf. by apply Hf, list_elem_of_In.
  - intros (hex & -> & Hl & Hf). rewrite (proj2 (strip_prefix_Some _ _ hex) eq_refl). rewrite Hl. cbn.
    apply forallb_forall. intros b Hb%list_elem_of_In. by apply (proj1 (Forall_forall _ _) Hf).
Qed.

Definition count (key : bytes) (keys : list bytes) : Z := len (filter (eq key) keys).

Lemma count_cons key k keys : count key (k :: keys) = (if decide (key = k) then 1 else 0) + count key keys.
Proof. unfold count. rewrite filter_cons. destruct (decide _); [rewrite len_cons; lia|lia]. Qed.

Lemma count_sorted key keys : StronglySorted bytes_lt keys -> count key keys = 1 <-> key ∈ keys.
Proof.
  induction 1 as [|k keys Hs IH Hf]; [split; [done|by intros ?%not_elem_of_nil]|].
  rewrite count_cons, elem_of_cons. destruct (decide (key = k)) as [->|]; [|naive_solver lia].
  assert (count k keys = 0) as ->; [|naive_solver lia]. unfold count.
  enough (filter (eq k) keys = []) as -> by done. destruct (filter (eq k) keys) as [|x l] eqn:E; [done|]. exfalso.
  assert (x ∈ filter (eq k) keys) as Hx by (rewrite E; by left). apply list_elem_of_filter in Hx as [<- Hx].
  apply (proj1 (Forall_forall _ _) Hf) in Hx. unfold bytes_lt in Hx. by rewrite bytes_cmp_refl in Hx.
Qed.

Definition row_ok (row : bytes * bytes) : Prop := key_ok row.1 /\ value_ok row.1 row.2.

Lemma key_no_space key : Forall (fun b => key_byte b = true) key -> " "%byte ∉ key.
Proof. intros Hf Hin. by apply (proj1 (Forall_forall _ _) Hf) in Hin. Qed.

Lemma key_bytes key : forallb key_byte key = true <-> Forall (fun b => key_byte b = true) key.
Proof. rewrite forallb_forall, Forall_forall. by setoid_rewrite list_elem_of_In. Qed.

Definition after_key (previous : option bytes) (keys : list bytes) : Prop :=
  match previous with Some p => Forall (bytes_lt p) keys | None => True end.

(** The part of [value_ok] the arms of the match check. *)
Lemma value_ok_spec key text :
  is_some (strip_prefix (b_ " ") text) = false ->
  value_ok key text <->
  (if bytes_eqb key (b_ "oid") then oid_value text else if bytes_eqb key (b_ "size") then size_value text else true) = true.
Proof.
  intros Hsp. assert (head text <> Some " "%byte) as Hh by (intros H; apply (strip_head " " text) in H; change [" "%byte] with (b_ " ") in H; congruence).
  unfold value_ok. destruct (bytes_eqb key (b_ "oid")) eqn:E1.
  - apply bytes_eqb_eq in E1 as ->. rewrite oid_value_spec. naive_solver.
  - apply bytes_eqb_neq in E1. destruct (bytes_eqb key (b_ "size")) eqn:E2.
    + apply bytes_eqb_eq in E2 as ->. rewrite size_value_spec. naive_solver.
    + apply bytes_eqb_neq in E2. naive_solver.
Qed.

Lemma row_text_split row : key_ok row.1 -> split_once (b_ " ") (row_text row) = Some row.
Proof.
  destruct row as [key value]. intros (_ & Hk & _). cbn [fst] in Hk. unfold row_text. cbn [fst snd].
  apply (split_once_app " " []). by apply key_no_space.
Qed.

Definition tally (key name : bytes) (n : Z) : Z := if bytes_eqb key name then n + 1 else n.

Lemma tally_count key name n keys : tally key name n + count name keys = n + count name (key :: keys).
Proof.
  rewrite count_cons. unfold tally. destruct (bytes_eqb key name) eqn:E.
  - apply bytes_eqb_eq in E as ->. rewrite decide_True by done. lia.
  - apply bytes_eqb_neq in E. rewrite decide_False by congruence. lia.
Qed.

(** One row of the loop. *)
Lemma pointer_rows_cons line lines previous o s :
  o < u32_max -> s < u32_max ->
  pointer_rows (line :: lines) previous o s = true <->
  exists row, line = row_text row /\ row_ok row /\ after_key previous [row.1] /\
    pointer_rows lines (Some row.1) (tally row.1 (b_ "oid") o) (tally row.1 (b_ "size") s) = true.
Proof.
  intros Ho Hs. cbn [pointer_rows].
  destruct (split_once (b_ " ") line) as [[key text]|] eqn:E.
  2: { split; [done|]. intros (row & -> & [Hk _] & _). by rewrite row_text_split in E. }
  assert (forall row, line = row_text row -> row_ok row -> row = (key, text)) as Hrow.
  { intros row -> [Hk _]. rewrite row_text_split in E by done. congruence. }
  apply split_once_Some in E as ->. split.
  - destruct (is_some _) eqn:Esp; [done|]. destruct (bytes_eqb key []) eqn:E0; [done|]. apply bytes_eqb_neq in E0.
    destruct (forallb key_byte key) eqn:Ek; [|done]. apply key_bytes in Ek. cbn [orb negb].
    destruct (match previous with Some p => bytes_leb key p | None => false end) eqn:Ep; [done|].
    destruct (bytes_eqb key (b_ "version")) eqn:Ev; [done|]. apply bytes_eqb_neq in Ev.
    intros H. exists (key, text). split; [done|]. cbn [fst].
    assert (key_ok key) as Hkey by done.
    assert (after_key previous [key]) as Ha.
    { destruct previous as [p|]; [|done]. cbn. apply bytes_leb_false in Ep. by repeat constructor. }
    unfold row_ok, tally. cbn [fst snd]. rewrite value_ok_spec by done.
    rewrite !sat_add32_small in H by lia.
    destruct (bytes_eqb key (b_ "oid")) eqn:E1.
    + apply bytes_eqb_eq in E1 as ->. cbn. by destruct (oid_value text).
    + destruct (bytes_eqb key (b_ "size")); [by destruct (size_value text)|done].
  - intros (row & Et & Hok & Ha & H). pose proof (Hrow row Et Hok) as ->. destruct Hok as [(K1 & K2 & K3) V]. cbn [fst snd] in *.
    assert (is_some (strip_prefix (b_ " ") text) = false) as Esp
      by (apply not_true_iff_false; rewrite (strip_head " " text); apply V).
    rewrite Esp, (proj2 (bytes_eqb_neq _ _) K1), (proj2 (key_bytes _) K2), (proj2 (bytes_eqb_neq _ _) K3). cbn [orb negb].
    assert (match previous with Some p => bytes_leb key p | None => false end = false) as ->.
    { destruct previous as [p|]; [|done]. apply bytes_leb_false. cbn in Ha. by apply Forall_cons in Ha as [? _]. }
    apply value_ok_spec in V; [|done]. rewrite !sat_add32_small by lia. unfold tally in H.
    destruct (bytes_eqb key (b_ "oid")) eqn:E1.
    + apply bytes_eqb_eq in E1 as ->. cbn in H. by rewrite V.
    + destruct (bytes_eqb key (b_ "size")); [by rewrite V|done].
Qed.

Lemma pointer_rows_spec lines previous o s :
  0 <= o -> 0 <= s -> o + len lines < u32_max -> s + len lines < u32_max ->
  pointer_rows lines previous o s = true <->
  exists rows, lines = map row_text rows /\ Forall row_ok rows /\ StronglySorted bytes_lt rows.*1 /\
    after_key previous rows.*1 /\ o + count (b_ "oid") rows.*1 = 1 /\ s + count (b_ "size") rows.*1 = 1.
Proof.
  revert previous o s. induction lines as [|line lines IH]; intros previous o s Ho Hs Hlo Hls.
  { cbn [pointer_rows]. rewrite andb_true_iff, !Z.eqb_eq. split.
    - intros [-> ->]. exists []. split; [done|]. split; [constructor|]. split; [constructor|].
      split; [destruct previous; [constructor|done]|done].
    - intros ([|row rows] & E & _ & _ & _ & H1 & H2); [|done].
      change (count (b_ "oid") ([] : list (bytes * bytes)).*1) with 0 in H1. change (count (b_ "size") ([] : list (bytes * bytes)).*1) with 0 in H2. lia. }
  rewrite len_cons in *. pose proof (len_nonneg lines).
  assert (forall key name n, 0 <= n -> 0 <= tally key name n <= n + 1) as Ht by (intros; unfold tally; destruct (bytes_eqb _ _); lia).
  rewrite pointer_rows_cons by lia. split.
  - intros (row & -> & Hr & Ha & Hrec). pose proof (Ht row.1 (b_ "oid") o Ho) as Hta. pose proof (Ht row.1 (b_ "size") s Hs) as Htb.
    apply IH in Hrec as (rows & -> & Hrs & Hsort & Hak & H1 & H2); [|lia..]. rewrite tally_count in H1, H2.
    exists (row :: rows). repeat split; [by constructor|by constructor| |done..].
    destruct previous as [p|]; [|done]. cbn in *. apply Forall_cons in Ha as [Ha _]. constructor; [done|].
    eapply Forall_impl; [exact Hak|]. cbn. intros k. by transitivity row.1.
  - intros ([|row rows] & E & Hr & Hsort & Hak & H1 & H2); [done|]. injection E as -> ->.
    apply Forall_cons in Hr as [Hr Hrs]. cbn [fmap list_fmap] in *. apply StronglySorted_inv in Hsort as [Hsort Hf].
    exists row. split; [done|]. split; [done|]. pose proof (Ht row.1 (b_ "oid") o Ho) as Hta. pose proof (Ht row.1 (b_ "size") s Hs) as Htb. split.
    + destruct previous as [p|]; [|done]. cbn in *. apply Forall_cons in Hak as [? _]. by constructor.
    + apply IH; [lia..|]. exists rows. rewrite !tally_count. by repeat split.
Qed.

Lemma ended_len ending lines : ending ∈ [[LF]; [CR; LF]] -> len lines <= len (ended ending lines).
Proof.
  intros He. destruct (ending_head _ He) as (c & pattern & -> & _). induction lines as [|line lines IH]; [done|].
  unfold ended in *. cbn [map concat]. rewrite !len_app, !len_cons. pose proof (len_nonneg line). pose proof (len_nonneg pattern). lia.
Qed.

(** a blob is taken for a pointer exactly when it is one: at most 1,023
    bytes of UTF-8, a version line and then rows of a key and a value, every
    line ended the same way, the keys strictly increasing and none [version],
    with one well-formed [oid] and one [size] that fits 63 bits. *)
Theorem is_pointer_exact source :
  is_pointer source = true <-> exists ending version rows, pointer source ending version rows.
Proof.
  unfold is_pointer. split.
  - destruct (bytes_eqb source []); [done|]. destruct (Z.ltb_spec MAX_POINTER_BYTES (len source)); [done|]. cbn [orb].
    destruct (is_some _); [done|]. unfold from_utf8. destruct (utf8_valid source) eqn:Eu; [|done].
    destruct (pointer_lines source) as [[|first lines]|] eqn:El; [done| |done].
    apply pointer_lines_spec in El as (ending & He & Ht & Hp & _).
    destruct (existsb (bytes_eqb first) VERSIONS) eqn:Ev; [|done]. cbn [negb]. intros H1.
    apply Forall_cons in Hp as [_ Hp]. apply existsb_exists in Ev as (v & Hv & ->%bytes_eqb_eq).
    apply pointer_rows_spec in H1 as (rows & -> & Hr & Hs & _ & H1 & H2); [|done|done| |].
    + exists ending, v, rows. split; try done; [by apply list_elem_of_In|by apply count_sorted..].
    + pose proof (ended_len ending (v :: lines) He) as Hl. rewrite <- Ht, len_cons in Hl. unfold MAX_POINTER_BYTES, u32_max in *. lia.
    + pose proof (ended_len ending (v :: lines) He) as Hl. rewrite <- Ht, len_cons in Hl. unfold MAX_POINTER_BYTES, u32_max in *. lia.
  - intros (ending & version & rows & [Hl Hu He Hv Ht Hp Hr Hs Ho Hz]).
    pose proof (ended_len ending (version :: map row_text rows) He) as Hlen. unfold ended in Hlen. rewrite <- Ht, len_cons in Hlen.
    pose proof (len_nonneg (map row_text rows)).
    destruct (Z.ltb_spec MAX_POINTER_BYTES (len source)); [lia|]. rewrite (proj2 (bytes_eqb_neq source [])).
    2: { intros ->. change (len (@nil Byte.byte)) with 0 in Hlen. lia. }
    assert (strip_prefix BOM source = None) as ->.
    { rewrite Ht. unfold VERSIONS in Hv. rewrite !elem_of_cons in Hv. by destruct Hv as [->|[->|[]%not_elem_of_nil]]. }
    cbn [orb is_some is_none negb]. unfold from_utf8. rewrite Hu.
    assert (pointer_lines source = Some (version :: map row_text rows)) as ->.
    { apply pointer_lines_spec. exists ending. repeat split; [done..| |done]. constructor; [|done].
      unfold VERSIONS in Hv. rewrite !elem_of_cons in Hv. by destruct Hv as [->|[->|[]%not_elem_of_nil]]; repeat constructor. }
    rewrite (proj2 (existsb_exists _ _)) by (exists version; split; [by apply list_elem_of_In|by apply bytes_eqb_eq]).
    cbn [negb]. unfold MAX_POINTER_BYTES in Hl. apply pointer_rows_spec; [lia..|unfold u32_max; lia|unfold u32_max; lia|].
    exists rows. repeat split; [done..|by apply count_sorted|by apply count_sorted].
Qed.

Definition example_pointer : bytes :=
  b_ "version https://git-lfs.github.com/spec/v1" ++ [LF] ++
  b_ "oid sha256:4d7a214614ab2935c943f9e0ff69d22eadbb8f32b1258daaa5e2ca24d17e2393" ++ [LF] ++
  b_ "size 12345" ++ [LF].

Example pointer_recognized : is_pointer example_pointer = true.
Proof. by vm_compute. Qed.
Example pointer_open_line : is_pointer (take (length example_pointer - 1) example_pointer) = false.
Proof. by vm_compute. Qed.
