(* ===== verification/ScanDeclared.v ===== *)
(** What a tracked ignore file declares: [crates/amiss-scan/src/declared.rs]. *)
From Stdlib Require Import Strings.Byte Strings.String Lia.
From stdpp Require Import base numbers gmap sets list.
From S2P Require Import Prelude Codec WireModel GitResources OrdMap Observation ScanLines.

Record Declarations := mkDeclarations {
  de_files : str_set; de_directories : str_set; de_kept : str_set; de_whole_directory : bool
}.

Definition REJECTED : bytes := b_ "*?[]\".
Definition EVERYTHING : bytes := b_ "*".

(** [split] on one byte. *)
Fixpoint split_byte (c : Byte.byte) (l : bytes) : list bytes :=
  match l with
  | [] => [[]]
  | b :: l =>
      if beqb b c then [] :: split_byte c l
      else match split_byte c l with piece :: pieces => (b :: piece) :: pieces | [] => [[b]] end
  end.

Definition trim_trailing_blanks (line : bytes) : bytes :=
  let end_ :=
    match rposition (fun b => negb (beqb b " ") && negb (beqb b x09)) line with
    | Some index => sat_add index 1
    | None => 0
    end in
  default [] (slice_to line end_).

Definition rejected (b : Byte.byte) : bool := existsb (beqb b) REJECTED.

Definition qualifying (line : bytes) : option bytes :=
  if match head line with Some b => beqb b "#" | None => false end || existsb rejected line then None
  else
    anchor ← position (fun b => beqb b "/") line;
    if sat_sub (len line) 1 <=? anchor then None
    else Some (default line (strip_prefix (b_ "/") line)).

Definition well_formed (spelled : bytes) : bool :=
  negb (bytes_eqb spelled [])
  && forallb (fun segment => negb (bytes_eqb segment []) && negb (bytes_eqb segment (b_ ".")) && negb (bytes_eqb segment (b_ "..")))
       (split_byte "/" spelled).

Definition kept_entry (negated : bytes) : option bytes :=
  let anchored := default negated (strip_prefix (b_ "/") negated) in
  let spelled := default anchored (strip_suffix (b_ "/") anchored) in
  let single := negb (existsb (fun b => beqb b "/") spelled) && negb (existsb rejected spelled) in
  if single && well_formed spelled then Some spelled else None.

Definition re_included (kept : str_set) (relative : bytes) : bool :=
  let entry := default [] (head (split_byte "/" relative)) in
  bool_decide (entry ∈ kept).

(** One line of [Declarations::parse]: [empties] and [unbounded] are its two
    flags. *)
Definition declare_line (state : Declarations * bool * bool) (raw : bytes) : Declarations * bool * bool :=
  let '(d, empties, unbounded) := state in
  let line := default raw (strip_suffix [CR] raw) in
  let trimmed := trim_trailing_blanks line in
  if bytes_eqb trimmed EVERYTHING then (d, true, unbounded)
  else
    match strip_prefix (b_ "!") trimmed with
    | Some negated =>
        match kept_entry negated with
        | Some entry =>
            (mkDeclarations (de_files d) (de_directories d) ({[ entry ]} ∪ de_kept d) (de_whole_directory d), empties, unbounded)
        | None => (d, empties, true)
        end
    | None =>
        match qualifying trimmed with
        | None => state
        | Some anchored =>
            let directory := is_some (strip_suffix (b_ "/") anchored) in
            let spelled := default anchored (strip_suffix (b_ "/") anchored) in
            if negb (well_formed spelled) then state
            else if directory then
              (mkDeclarations (de_files d) ({[ spelled ]} ∪ de_directories d) (de_kept d) (de_whole_directory d), empties, unbounded)
            else
              (mkDeclarations ({[ spelled ]} ∪ de_files d) (de_directories d) (de_kept d) (de_whole_directory d), empties, unbounded)
        end
    end.

(** [Declarations::parse]. *)
Definition parse (body : bytes) : Declarations :=
  let '(d, empties, unbounded) :=
    fold_left declare_line (split_byte LF body) (mkDeclarations ∅ ∅ ∅ false, false, false) in
  mkDeclarations (de_files d) (de_directories d) (de_kept d) (empties && negb unbounded).

(** The prefixes of [relative] that end before a separator. *)
Definition prefix_indices (relative : bytes) : list usize :=
  omap (fun '(index, b) => if beqb b "/" then Some index else None) (zip (zseq 0 (length relative)) relative).

(** [Declarations::declares]. *)
Definition declares (d : Declarations) (relative : bytes) : bool :=
  if de_whole_directory d && negb (re_included (de_kept d) relative) then true
  else if bool_decide (relative ∈ de_files d) || bool_decide (relative ∈ de_directories d) then true
  else
    existsb (fun index =>
        match slice_to relative index with
        | Some prefix => bool_decide (prefix ∈ de_directories d)
        | None => false
        end) (prefix_indices relative).

(** ** What a file says, line by line *)

Definition ignore_lines (body : bytes) : list bytes :=
  map (fun raw => trim_trailing_blanks (default raw (strip_suffix [CR] raw))) (split_byte LF body).

(** A literal path: no pattern or escape byte, and segments that name. *)
Definition literal (text : bytes) : Prop := Forall (fun b => b ∉ REJECTED) text.
Definition named (segment : bytes) : Prop := segment <> [] /\ segment <> b_ "." /\ segment <> b_ "..".
Definition spelled (p : bytes) : Prop := p <> [] /\ Forall named (split_byte "/" p).

(** The line names [p] itself, anchored at the front or in the middle. *)
Definition names_file (line p : bytes) : Prop :=
  literal line /\ spelled p /\ head line <> Some "#"%byte /\ head line <> Some "!"%byte /\
  (line = b_ "/" ++ p \/ line = p /\ "/"%byte ∈ p).
(** The line names the directory [p]. *)
Definition names_directory (line p : bytes) : Prop :=
  literal line /\ spelled p /\ head line <> Some "#"%byte /\ head line <> Some "!"%byte /\
  (line = b_ "/" ++ p ++ b_ "/" \/ line = p ++ b_ "/" /\ "/"%byte ∈ p).
(** A negation of [negated] puts back the one entry [entry]. *)
Definition keeps (negated entry : bytes) : Prop :=
  literal entry /\ named entry /\ "/"%byte ∉ entry /\
  exists front back, front ∈ [[]; b_ "/"] /\ back ∈ [[]; b_ "/"] /\ negated = front ++ entry ++ back.

(** The first segment. *)
Definition entry_of (relative : bytes) : bytes := default [] (head (split_byte "/" relative)).

(** Everything in the directory: a bare star, every negation bounded, and none
    of them keeping the entry. *)
Definition emptied (lines : list bytes) (relative : bytes) : Prop :=
  EVERYTHING ∈ lines /\
  (forall negated, b_ "!" ++ negated ∈ lines -> exists entry, keeps negated entry) /\
  ~ exists negated, b_ "!" ++ negated ∈ lines /\ keeps negated (entry_of relative).

Definition beneath (p relative : bytes) : Prop := relative = p \/ exists rest, relative = p ++ b_ "/" ++ rest.

(** ** The lines *)

Lemma split_byte_cons c l : exists piece pieces, split_byte c l = piece :: pieces.
Proof. induction l as [|b l (piece & pieces & E)]; cbn; [eauto|]. destruct (beqb b c); [eauto|]. rewrite E. eauto. Qed.

(** A text without the byte is one piece. *)
Lemma split_byte_absent c l : c ∉ l -> split_byte c l = [l].
Proof.
  induction l as [|b l IH]; [done|]. intros [Hne Hc]%not_elem_of_cons. cbn.
  destruct (beqb b c) eqn:E; [by apply beqb_eq in E|]. by rewrite IH.
Qed.

Lemma split_byte_app c l1 l2 :
  exists p q qs, split_byte c l1 = p ++ [q] /\ split_byte c (l1 ++ c :: l2) = p ++ q :: qs /\ qs = split_byte c l2.
Proof.
  induction l1 as [|b l1 (p & q & qs & E1 & E2 & ->)]; cbn.
  - rewrite (proj2 (beqb_eq c c) eq_refl). by exists [], [], (split_byte c l2).
  - rewrite E1, E2. destruct (beqb b c); [by exists ([] :: p), q, (split_byte c l2)|].
    destruct p as [|p0 p]; cbn; [by exists [], (b :: q), (split_byte c l2)|by exists ((b :: p0) :: p), q, (split_byte c l2)].
Qed.

Lemma well_formed_spec p : well_formed p = true <-> spelled p.
Proof.
  unfold well_formed, spelled, named. rewrite andb_true_iff, negb_true_iff, bytes_eqb_neq, forallb_forall, Forall_forall.
  setoid_rewrite list_elem_of_In. setoid_rewrite andb_true_iff. setoid_rewrite andb_true_iff.
  setoid_rewrite negb_true_iff. setoid_rewrite bytes_eqb_neq. naive_solver.
Qed.

Lemma rejected_spec l : existsb rejected l = false <-> literal l.
Proof.
  unfold literal. rewrite <- not_true_iff_false, existsb_exists, Forall_forall. unfold rejected.
  setoid_rewrite existsb_exists. setoid_rewrite beqb_eq. setoid_rewrite <- list_elem_of_In. naive_solver.
Qed.

Lemma literal_app l1 l2 : literal (l1 ++ l2) <-> literal l1 /\ literal l2.
Proof. apply Forall_app. Qed.

Lemma has_slash l : existsb (fun b => beqb b "/") l = false <-> "/"%byte ∉ l.
Proof.
  rewrite <- not_true_iff_false, existsb_exists. setoid_rewrite beqb_eq. setoid_rewrite <- list_elem_of_In. naive_solver.
Qed.

(** A path that is spelled neither begins nor ends with a separator. *)
Lemma spelled_head p : spelled p -> head p <> Some "/"%byte.
Proof. intros [Hne Hf] E. destruct p as [|b p]; [done|]. injection E as ->. cbn in Hf. by apply Forall_cons in Hf as [[? _] _]. Qed.

Lemma spelled_last p : spelled p -> strip_suffix (b_ "/") p = None.
Proof.
  intros [Hne Hf]. destruct (strip_suffix _ p) as [s|] eqn:E; [|done]. apply strip_suffix_Some in E as ->.
  destruct (split_byte_app "/" s []) as (p & q & qs & _ & E & ->). change (b_ "/") with ["/"%byte] in Hf. rewrite E in Hf.
  apply Forall_app in Hf as [_ [_ Hf]%Forall_cons]. cbn in Hf. by apply Forall_cons in Hf as [[? _] _].
Qed.

Lemma strip_slash p : head p <> Some "/"%byte -> strip_prefix (b_ "/") p = None.
Proof. destruct p as [|b p]; [done|]. intros H. apply strip_prefix_head. intros ->. by apply H. Qed.

Lemma spelled_single p : "/"%byte ∉ p -> spelled p <-> named p.
Proof.
  intros H. unfold spelled. rewrite split_byte_absent by done. rewrite Forall_singleton. unfold named. naive_solver.
Qed.

Lemma strip_front text : exists front, front ∈ [[]; b_ "/"] /\ text = front ++ default text (strip_prefix (b_ "/") text).
Proof.
  destruct (strip_prefix _ text) as [rest|] eqn:E; cbn; [apply strip_prefix_Some in E; exists (b_ "/")|exists []];
    (split; [set_solver|done]).
Qed.

Lemma strip_back text : exists back, back ∈ [[]; b_ "/"] /\ text = default text (strip_suffix (b_ "/") text) ++ back.
Proof.
  destruct (strip_suffix _ text) as [rest|] eqn:E; cbn; [apply strip_suffix_Some in E; exists (b_ "/")|exists []; rewrite app_nil_r];
    (split; [set_solver|done]).
Qed.

Lemma strip_suffix_slash p : strip_suffix (b_ "/") (p ++ b_ "/") = Some p.
Proof. by apply strip_suffix_Some. Qed.
Lemma strip_prefix_slash p : strip_prefix (b_ "/") (b_ "/" ++ p) = Some p.
Proof. by apply strip_prefix_Some. Qed.

Lemma kept_entry_spec negated entry : kept_entry negated = Some entry <-> keeps negated entry.
Proof.
  unfold kept_entry. set (anchored := default negated (strip_prefix (b_ "/") negated)).
  set (sp := default anchored (strip_suffix (b_ "/") anchored)). split.
  - destruct (_ && well_formed sp) eqn:E; [|done]. intros [= <-].
    apply andb_prop in E as [[E1 E2]%andb_prop E3%well_formed_spec].
    apply negb_true_iff in E1, E2. apply has_slash in E1. apply rejected_spec in E2.
    apply spelled_single in E3; [|done]. split; [done|]. split; [done|]. split; [done|].
    destruct (strip_front negated) as (front & Hf & Ef). destruct (strip_back anchored) as (back & Hb & Eb).
    exists front, back. split; [done|]. split; [done|]. fold anchored in Ef. fold sp in Eb. congruence.
  - intros (Hl & Hn & Hs & front & back & Hf & Hb & ->).
    pose proof (proj2 (spelled_single entry Hs) Hn) as Hsp.
    assert (anchored = entry ++ back) as Ea.
    { unfold anchored. rewrite !elem_of_cons in Hf. destruct Hf as [->|[->|[]%not_elem_of_nil]].
      - rewrite strip_slash; [done|]. cbn. pose proof (spelled_head entry Hsp). destruct Hsp as [Hne _]. by destruct entry.
      - by rewrite strip_prefix_slash. }
    assert (sp = entry) as ->.
    { unfold sp. rewrite Ea. rewrite !elem_of_cons in Hb. destruct Hb as [->|[->|[]%not_elem_of_nil]].
      - by rewrite app_nil_r, spelled_last.
      - by rewrite strip_suffix_slash. }
    rewrite (proj2 (has_slash entry)), (proj2 (rejected_spec entry)), (proj2 (well_formed_spec entry)) by done. done.
Qed.

(** What a line that is neither a star nor a negation names. *)
Definition line_names (line : bytes) : option (bytes * bool) :=
  anchored ← qualifying line;
  let sp := default anchored (strip_suffix (b_ "/") anchored) in
  if well_formed sp then Some (sp, is_some (strip_suffix (b_ "/") anchored)) else None.

Definition names (directory : bool) : bytes -> bytes -> Prop := if directory then names_directory else names_file.

Definition slash_position : bytes -> option usize := position (fun b => beqb b "/").

Lemma slash_first l1 l2 : "/"%byte ∉ l1 -> slash_position (l1 ++ b_ "/" ++ l2) = Some (len l1).
Proof.
  intros H. apply position_spec. exists l1, "/"%byte, l2. repeat split. apply Forall_forall. intros b Hb.
  destruct (beqb b "/") eqn:E; [apply beqb_eq in E; by subst|done].
Qed.

Lemma slash_split l : "/"%byte ∈ l -> exists l1 l2, l = l1 ++ b_ "/" ++ l2 /\ "/"%byte ∉ l1.
Proof. intros (l1 & l2 & -> & H)%list_elem_of_split_l. by exists l1, l2. Qed.

Lemma slash_in l i : slash_position l = Some i -> exists l1 l2, l = l1 ++ b_ "/" ++ l2 /\ len l1 = i /\ "/"%byte ∉ l1.
Proof.
  intros (l1 & x & l2 & -> & <- & ->%beqb_eq & Hf)%position_spec. exists l1, l2. repeat split; [done..|].
  intros Hin. by apply (proj1 (Forall_forall _ _) Hf) in Hin.
Qed.

Lemma qualifying_spec line anchored :
  qualifying line = Some anchored <->
  literal line /\ head line <> Some "#"%byte /\ anchored = default line (strip_prefix (b_ "/") line) /\
  exists l1 l2, line = l1 ++ b_ "/" ++ l2 /\ "/"%byte ∉ l1 /\ l2 <> [].
Proof.
  unfold qualifying.
  assert (match head line with Some b => beqb b "#" | None => false end = false <-> head line <> Some "#"%byte) as Hh.
  { destruct (head line) as [b|]; [|done]. rewrite <- not_true_iff_false, beqb_eq. naive_solver. }
  assert (forall l1 l2, (sat_sub (len (l1 ++ b_ "/" ++ l2)) 1 <=? len l1) = bool_decide (l2 = [])) as Hpos.
  { intros l1 l2. rewrite !len_app. change (len (b_ "/")) with 1. pose proof (len_nonneg l1). pose proof (len_nonneg l2).
    rewrite sat_sub_small by lia. destruct l2 as [|b l2].
    - rewrite bool_decide_true by done. rewrite len_nil in *. apply Z.leb_le. lia.
    - rewrite bool_decide_false by done. rewrite len_cons in *. pose proof (len_nonneg l2). apply Z.leb_gt. lia. }
  destruct (_ || existsb rejected line) eqn:E.
  - split; [done|]. intros (Hl & H & _). apply orb_true_iff in E as [E|E].
    + apply Hh in H. congruence.
    + apply rejected_spec in Hl. congruence.
  - apply orb_false_iff in E as [E1%Hh E2%rejected_spec]. fold slash_position. split.
    + destruct (slash_position line) as [i|] eqn:Ei; [|done]. cbn [mbind option_bind]. apply slash_in in Ei as (l1 & l2 & El & <- & H1).
      pose proof (Hpos l1 l2) as Hp. rewrite <- El in Hp. rewrite Hp. case_bool_decide; [done|]. intros [= <-].
      repeat split; [done..|]. by exists l1, l2.
    + intros (_ & _ & -> & l1 & l2 & El & H1 & H2). rewrite El at 1. rewrite slash_first by done. cbn [mbind option_bind].
      pose proof (Hpos l1 l2) as Hp. rewrite <- El in Hp. rewrite Hp. by rewrite bool_decide_false.
Qed.

Lemma line_names_spec line p directory :
  head line <> Some "!"%byte -> line_names line = Some (p, directory) <-> names directory line p.
Proof.
  intros Hb. unfold line_names. split.
  - destruct (qualifying line) as [anchored|] eqn:Eq; [|done]. cbn [mbind option_bind].
    apply qualifying_spec in Eq as (Hl & Hh & Ea & l1 & l2 & El & H1 & H2).
    destruct (well_formed _) eqn:Ew; [|done]. apply well_formed_spec in Ew. intros [= <- <-].
    destruct (strip_suffix (b_ "/") anchored) as [sp|] eqn:Es; cbn in *.
    + apply strip_suffix_Some in Es. split; [done|]. split; [done|]. split; [done|]. split; [done|].
      destruct (strip_prefix (b_ "/") line) as [rest|] eqn:Ef; cbn in Ea; subst anchored.
      * left. apply strip_prefix_Some in Ef. by rewrite Ef, Es.
      * right. split; [done|]. rewrite Es in El. destruct l2 as [|x l2 _] using rev_ind; [done|].
        rewrite !app_assoc in El. apply app_inj_tail in El as [-> _]. apply elem_of_app. left. apply elem_of_app. right. by left.
    + split; [done|]. split; [done|]. split; [done|]. split; [done|].
      destruct (strip_prefix (b_ "/") line) as [rest|] eqn:Ef; cbn in Ea; subst anchored.
      * left. by apply strip_prefix_Some in Ef.
      * right. split; [done|]. rewrite El. apply elem_of_app. right. by left.
  - destruct directory; intros (Hl & Hsp & Hh & _ & Hcase).
    + assert (qualifying line = Some (p ++ b_ "/")) as ->.
      { apply qualifying_spec. split; [done|]. split; [done|]. destruct Hcase as [->|[-> Hin]].
        - split; [by rewrite strip_prefix_slash|]. exists [], (p ++ b_ "/"). by repeat split; [apply not_elem_of_nil|destruct p].
        - split.
          + rewrite strip_slash; [done|]. pose proof (spelled_head p Hsp). destruct Hsp as [Hne _]. by destruct p.
          + apply slash_split in Hin as (l1 & l2 & -> & H1). exists l1, (l2 ++ b_ "/").
            repeat split; [by rewrite <- !app_assoc|done|by destruct l2]. }
      cbn [mbind option_bind]. rewrite strip_suffix_slash. cbn. by rewrite (proj2 (well_formed_spec p) Hsp).
    + assert (qualifying line = Some p) as ->.
      { apply qualifying_spec. split; [done|]. split; [done|]. destruct Hcase as [->|[-> Hin]].
        - split; [by rewrite strip_prefix_slash|]. exists [], p. by repeat split; [apply not_elem_of_nil|destruct Hsp].
        - split; [by rewrite strip_slash by by apply spelled_head|].
          apply slash_split in Hin as (l1 & l2 & -> & H1). exists l1, l2. repeat split; [done|].
          intros ->. apply spelled_last in Hsp. rewrite app_nil_r in Hsp. by rewrite strip_suffix_slash in Hsp. }
      cbn [mbind option_bind]. rewrite spelled_last by done. cbn. by rewrite (proj2 (well_formed_spec p) Hsp).
Qed.

(** ** The file as a whole *)

(** What the loop has read after [lines]. *)
Record parsed (lines : list bytes) (state : Declarations * bool * bool) : Prop := {
  pd_files p : p ∈ de_files state.1.1 <-> exists line, line ∈ lines /\ names_file line p;
  pd_directories p : p ∈ de_directories state.1.1 <-> exists line, line ∈ lines /\ names_directory line p;
  pd_kept e : e ∈ de_kept state.1.1 <-> exists negated, b_ "!" ++ negated ∈ lines /\ keeps negated e;
  pd_empties : state.1.2 = true <-> EVERYTHING ∈ lines;
  pd_unbounded :
    state.2 = false <-> forall negated, b_ "!" ++ negated ∈ lines -> exists entry, keeps negated entry
}.

Definition trimmed (raw : bytes) : bytes := trim_trailing_blanks (default raw (strip_suffix [CR] raw)).

Lemma declare_line_names d empties unbounded raw :
  declare_line (d, empties, unbounded) raw =
  if bytes_eqb (trimmed raw) EVERYTHING then (d, true, unbounded)
  else
    match strip_prefix (b_ "!") (trimmed raw) with
    | Some negated =>
        match kept_entry negated with
        | Some entry =>
            (mkDeclarations (de_files d) (de_directories d) ({[ entry ]} ∪ de_kept d) (de_whole_directory d), empties, unbounded)
        | None => (d, empties, true)
        end
    | None =>
        match line_names (trimmed raw) with
        | Some (p, true) =>
            (mkDeclarations (de_files d) ({[ p ]} ∪ de_directories d) (de_kept d) (de_whole_directory d), empties, unbounded)
        | Some (p, false) =>
            (mkDeclarations ({[ p ]} ∪ de_files d) (de_directories d) (de_kept d) (de_whole_directory d), empties, unbounded)
        | None => (d, empties, unbounded)
        end
    end.
Proof.
  unfold declare_line, line_names. fold (trimmed raw). destruct (bytes_eqb _ _); [done|].
  destruct (strip_prefix (b_ "!") _); [done|]. destruct (qualifying (trimmed raw)) as [anchored|]; [|done].
  cbn [mbind option_bind]. by destruct (strip_suffix (b_ "/") anchored); cbn; destruct (well_formed _).
Qed.

Lemma strip_bang line : head line <> Some "!"%byte -> strip_prefix (b_ "!") line = None.
Proof. destruct line as [|b line]; [done|]. intros H. apply strip_prefix_head. intros ->. by apply H. Qed.

(** A star names no path. *)
Lemma star_not_literal line : "*"%byte ∈ line -> ~ literal line.
Proof. intros Hin Hl. apply (proj1 (Forall_forall _ _) Hl) in Hin. apply Hin. by vm_compute; left. Qed.

(** Only the last case of a line names a path. *)
Lemma names_case directory line p :
  names directory line p -> line <> EVERYTHING /\ head line <> Some "!"%byte.
Proof.
  intros H. assert (literal line /\ head line <> Some "!"%byte) as [Hl Hb] by (destruct directory; split; apply H).
  split; [|done]. intros ->. by apply (star_not_literal EVERYTHING); [left|].
Qed.

Lemma declare_line_parsed lines state raw :
  parsed lines state -> parsed (lines ++ [trimmed raw]) (declare_line state raw).
Proof.
  destruct state as [[d empties] unbounded]. intros [Pf Pd Pk Pe Pu]. cbn [fst snd] in *.
  rewrite declare_line_names. set (line := trimmed raw).
  assert (forall (P : bytes -> Prop), (exists x, x ∈ lines ++ [line] /\ P x) <-> (exists x, x ∈ lines /\ P x) \/ P line) as Hex
    by (intros P; setoid_rewrite elem_of_app; setoid_rewrite list_elem_of_singleton; naive_solver).
  assert (forall (P : bytes -> Prop), (exists x, b_ "!" ++ x ∈ lines ++ [line] /\ P x) <->
            (exists x, b_ "!" ++ x ∈ lines /\ P x) \/ exists x, line = b_ "!" ++ x /\ P x) as Hbang
    by (intros P; setoid_rewrite elem_of_app; setoid_rewrite list_elem_of_singleton; naive_solver).
  assert (forall (P : bytes -> Prop), (forall x, b_ "!" ++ x ∈ lines ++ [line] -> P x) <->
            (forall x, b_ "!" ++ x ∈ lines -> P x) /\ forall x, line = b_ "!" ++ x -> P x) as Hall
    by (intros P; setoid_rewrite elem_of_app; setoid_rewrite list_elem_of_singleton; naive_solver).
  assert (EVERYTHING ∈ lines ++ [line] <-> EVERYTHING ∈ lines \/ line = EVERYTHING) as Hstar
    by (rewrite elem_of_app, list_elem_of_singleton; naive_solver).
  destruct (bytes_eqb line EVERYTHING) eqn:Es.
  { apply bytes_eqb_eq in Es.
    assert (forall directory p, ~ names directory line p) as Hno by (intros directory p [? _]%names_case; done).
    split; cbn [fst snd].
    - intros p. rewrite Hex, Pf. pose proof (Hno false p). naive_solver.
    - intros p. rewrite Hex, Pd. pose proof (Hno true p). naive_solver.
    - intros e. rewrite Hbang, Pk, Es. naive_solver.
    - naive_solver.
    - rewrite Hall, Pu, Es. naive_solver. }
  apply bytes_eqb_neq in Es. destruct (strip_prefix (b_ "!") line) as [negated|] eqn:Eb.
  - apply strip_prefix_Some in Eb.
    assert (forall directory p, ~ names directory line p) as Hno.
    { intros directory p [_ H]%names_case. apply H. by rewrite Eb. }
    assert (forall x, line = b_ "!" ++ x -> x = negated) as Hx by (intros x E; rewrite Eb in E; by apply app_inv_head in E).
    destruct (kept_entry negated) as [entry|] eqn:Ek; split; cbn [fst snd de_files de_directories de_kept].
    1,6: intros p; rewrite Hex, Pf; pose proof (Hno false p); naive_solver.
    1,5: intros p; rewrite Hex, Pd; pose proof (Hno true p); naive_solver.
    + intros e. rewrite Hbang, elem_of_union, elem_of_singleton, Pk. split.
      * intros [->|?]; [|by left]. right. exists negated. split; [done|by apply kept_entry_spec].
      * intros [?|(x & Ex & He)]; [by right|]. rewrite (Hx x Ex) in He. apply kept_entry_spec in He. left. congruence.
    + naive_solver.
    + rewrite Hall, Pu. split; [|naive_solver]. intros ?. split; [done|]. intros x ->%Hx. exists entry. by apply kept_entry_spec.
    + intros e. rewrite Hbang, Pk. split; [naive_solver|]. intros [?|(x & Ex & He)]; [done|].
      rewrite (Hx x Ex) in He. apply kept_entry_spec in He. congruence.
    + naive_solver.
    + rewrite Hall. split; [done|]. intros [_ H]. destruct (H negated Eb) as [entry He]. apply kept_entry_spec in He. congruence.
  - assert (head line <> Some "!"%byte) as Hh.
    { intros E. destruct line as [|b l]; [done|]. injection E as ->. cbn in Eb. done. }
    assert (forall x, line <> b_ "!" ++ x) as Hx by (intros x E; rewrite E in Hh; done).
    assert (forall directory p, names directory line p <-> line_names line = Some (p, directory)) as Hn
      by (intros; symmetry; by apply line_names_spec).
    pose proof (fun p => Hn false p) as Hf. pose proof (fun p => Hn true p) as Hd. cbn [names] in Hf, Hd.
    destruct (line_names line) as [[p0 [|]]|] eqn:El; split; cbn [fst snd de_files de_directories de_kept].
    3,8,13: intros e; rewrite Hbang, Pk; naive_solver.
    3,7,11: naive_solver.
    3,6,9: rewrite Hall, Pu; naive_solver.
    all: intros p; rewrite Hex, ?elem_of_union, ?elem_of_singleton, ?Pf, ?Pd, ?Hf, ?Hd; naive_solver.
Qed.

Lemma parsed_all body :
  parsed (ignore_lines body) (fold_left declare_line (split_byte LF body) (mkDeclarations ∅ ∅ ∅ false, false, false)).
Proof.
  unfold ignore_lines. change (map _ (split_byte LF body)) with (map trimmed (split_byte LF body)).
  generalize (split_byte LF body) as raws. intros raws. induction raws as [|raw raws IH] using rev_ind.
  - split; cbn; set_solver.
  - rewrite fold_left_app, map_app. by apply declare_line_parsed.
Qed.

Lemma prefix_indices_spec relative i :
  i ∈ prefix_indices relative <-> exists l1 l2, relative = l1 ++ b_ "/" ++ l2 /\ i = len l1.
Proof.
  unfold prefix_indices. rewrite list_elem_of_omap. split.
  - intros ([index b] & Hin & Hb). destruct (beqb b "/") eqn:E; [|done]. apply beqb_eq in E as ->. injection Hb as ->.
    apply list_elem_of_lookup in Hin as [k Hk]. apply lookup_zip_with_Some in Hk as (j & c & [= <- <-] & Hj & Hc).
    rewrite zseq_lookup in Hj. destruct (decide _) as [Hlt|]; [|done]. injection Hj as Hj.
    exists (take k relative), (drop (S k) relative). split; [|apply lookup_lt_Some in Hc; unfold len; rewrite length_take; lia].
    rewrite <- (take_drop_middle _ _ _ Hc) at 1. done.
  - intros (l1 & l2 & -> & ->). exists (len l1, "/"%byte). split; [|done].
    apply list_elem_of_lookup. exists (length l1). rewrite lookup_zip_with, zseq_lookup, decide_True.
    + cbn. rewrite lookup_app_r, Nat.sub_diag by lia. done.
    + rewrite !length_app. change (length (b_ "/")) with 1%nat. lia.
Qed.

Lemma prefix_declared (directories : str_set) relative :
  existsb (fun index =>
      match slice_to relative index with
      | Some prefix => bool_decide (prefix ∈ directories)
      | None => false
      end) (prefix_indices relative) = true <->
  exists p rest, relative = p ++ b_ "/" ++ rest /\ p ∈ directories.
Proof.
  assert (forall l1 l2 : bytes, slice_to (l1 ++ l2) (len l1) = Some l1) as Hs
    by (intros l1 l2; apply slice_to_spec; by exists l2).
  rewrite existsb_exists. split.
  - intros (i & Hi & H). apply list_elem_of_In, prefix_indices_spec in Hi as (l1 & l2 & -> & ->).
    rewrite Hs in H. apply bool_decide_eq_true in H. by exists l1, l2.
  - intros (p & rest & -> & Hp). exists (len p). split.
    + apply list_elem_of_In, prefix_indices_spec. by exists p, rest.
    + rewrite Hs. by apply bool_decide_eq_true.
Qed.

(** an ignore file declares a path exactly when one of its lines names the
    path as an anchored literal file, or names the path or a directory above it
    as an anchored literal directory, or when the file empties its own
    directory by a bare star, each of its negations keeps a single literal
    entry, and none of them keeps the entry the path is in. *)
Theorem declares_exact body relative :
  declares (parse body) relative = true <->
  emptied (ignore_lines body) relative \/
  (exists line, line ∈ ignore_lines body /\ names_file line relative) \/
  (exists line p, line ∈ ignore_lines body /\ names_directory line p /\ beneath p relative).
Proof.
  unfold parse. pose proof (parsed_all body) as P. destruct (fold_left _ _ _) as [[d empties] unbounded].
  destruct P as [Pf Pd Pk Pe Pu]. cbn [fst snd] in *. unfold declares, re_included. cbn [de_files de_directories de_kept de_whole_directory].
  fold (entry_of relative).
  assert (empties && negb unbounded && negb (bool_decide (entry_of relative ∈ de_kept d)) = true <->
          emptied (ignore_lines body) relative) as He.
  { unfold emptied. rewrite !andb_true_iff, !negb_true_iff, Pe, Pu, bool_decide_eq_false, Pk. tauto. }
  destruct (empties && negb unbounded && negb _) eqn:E; [naive_solver|].
  assert (~ emptied (ignore_lines body) relative) as Hne by (intros H; apply He in H; done).
  pose proof (prefix_declared (de_directories d) relative) as Hpre.
  destruct (bool_decide (relative ∈ de_files d) || bool_decide (relative ∈ de_directories d)) eqn:E2.
  - split; [|done]. intros _. right. apply orb_true_iff in E2 as [E2|E2]; apply bool_decide_eq_true in E2.
    + left. by apply Pf.
    + right. apply Pd in E2 as (line & Hin & Hn). exists line, relative. split; [done|]. split; [done|by left].
  - apply orb_false_iff in E2 as [E2 E3]. apply bool_decide_eq_false in E2, E3. rewrite Hpre. split.
    + intros (p & rest & -> & Hp). right. right. apply Pd in Hp as (line & Hin & Hn). exists line, p.
      split; [done|]. split; [done|]. right. by exists rest.
    + intros [?|[?|(line & p & Hin & Hn & [->|[rest ->]])]]; [done| | |].
      * destruct E2. by apply Pf.
      * destruct E3. apply Pd. by exists line.
      * exists p, rest. split; [done|]. apply Pd. by exists line.
Qed.

Example star_keeps :
  map (declares (parse (b_ "*" ++ [LF] ++ b_ "!.gitignore" ++ [LF]))) [b_ ".gitignore"; b_ "out/a.md"; b_ ".gitignore/x"] =
  [false; true; false].
Proof. by vm_compute. Qed.
Example anchored_lines :
  map (declares (parse (b_ "/dist/" ++ [CR; LF] ++ b_ "build/" ++ [LF] ++ b_ "a/b.md  " ++ [LF] ++ b_ "c/*.md")))
    [b_ "dist"; b_ "dist/x/y"; b_ "build/x"; b_ "a/b.md"; b_ "a/b.md/c"; b_ "c/d.md"] =
  [true; true; false; true; false; false].
Proof. by vm_compute. Qed.
