(* ===== verification/ScanDocument.v ===== *)
(** Which paths are documents, and under which grammar:
    [crates/amiss-scan/src/document.rs], and the includes of a policy in
    [policy/acquire.rs]. *)
From Stdlib Require Import Strings.Byte Strings.String Lia.
From stdpp Require Import base numbers gmap sets sorting list.
From S2P Require Import Prelude Codec WireModel GitResources OrdMap Observation EvalModel Controls EvalControls ScanLines ScanDeclared.

Module DocumentClassification.
Inductive t :=
  | ExtensionlessMarkdown | PlainAdvisory | PolicyIncluded | StructuredAsciiDoc | StructuredMarkdown | StructuredMdx
  | StructuredRst | UnparsedMarkup.
#[global] Instance eq_dec : EqDecision t.
Proof. solve_decision. Defined.
End DocumentClassification.

Definition EXTENSIONLESS : list bytes :=
  [b_ "README"; b_ "CONTRIBUTING"; b_ "CHANGELOG"; b_ "SECURITY"; b_ "SUPPORT"; b_ "CODE_OF_CONDUCT"].
Definition EXCLUDED_TREES : list bytes :=
  [b_ "node_modules"; b_ "vendor"; b_ "third_party"; b_ "dist"; b_ "build"; b_ ".next"; b_ "target"; b_ "test"; b_ "tests"].

Definition native_adapter (classification : DocumentClassification.t) : option Adapter.t :=
  match classification with
  | DocumentClassification.StructuredMarkdown | DocumentClassification.ExtensionlessMarkdown => Some Adapter.Markdown
  | DocumentClassification.StructuredMdx => Some Adapter.Mdx
  | DocumentClassification.StructuredAsciiDoc => Some Adapter.AsciiDoc
  | DocumentClassification.StructuredRst => Some Adapter.Rst
  | DocumentClassification.PlainAdvisory => Some Adapter.PlainAdvisory
  | DocumentClassification.UnparsedMarkup | DocumentClassification.PolicyIncluded => None
  end.

Definition ends_with (suffix l : bytes) : bool := is_some (strip_suffix suffix l).

Definition classify (p : bytes) : option DocumentClassification.t :=
  if ends_with (b_ ".md") p || ends_with (b_ ".markdown") p then Some DocumentClassification.StructuredMarkdown
  else if ends_with (b_ ".mdx") p then Some DocumentClassification.StructuredMdx
  else if ends_with (b_ ".adoc") p || ends_with (b_ ".asciidoc") p then Some DocumentClassification.StructuredAsciiDoc
  else if ends_with (b_ ".rst") p then Some DocumentClassification.StructuredRst
  else if ends_with (b_ ".ipynb") p || ends_with (b_ ".org") p then Some DocumentClassification.UnparsedMarkup
  else
    let basename := default p (last (split_byte "/" p)) in
    if existsb (bytes_eqb basename) EXTENSIONLESS then Some DocumentClassification.ExtensionlessMarkdown
    else if bytes_eqb basename (b_ ".cursorrules") || bytes_eqb basename (b_ "llms.txt")
    then Some DocumentClassification.PlainAdvisory
    else None.

Definition excluded_by_built_in (p : bytes) : bool :=
  match rposition (fun b => beqb b "/") p with
  | None => false
  | Some split =>
      match slice_to p split with
      | Some directories => existsb (fun component => existsb (bytes_eqb component) EXCLUDED_TREES) (split_byte "/" directories)
      | None => false
      end
  end.

(** ** Includes *)

Record PolicySide := mkPolicySide { ps_digest : option Digest.t; ps_policy : option ScannerPolicy }.

Record Includes := mkIncludes {
  in_documents : str_set;
  in_trees : str_set;
  in_suffix_roots : gmap bytes str_set;
  in_document_bindings : gmap bytes Adapter.t;
  in_tree_bindings : gmap bytes Adapter.t;
  in_suffix_bindings : gmap bytes (bytes * Adapter.t);
  in_renderers : option str_set
}.
Definition includes_default : Includes := mkIncludes ∅ ∅ ∅ ∅ ∅ ∅ None.

(** The first loop of [Includes::union]. *)
Definition merge_include (m : Includes) (include : DocumentInclude) : Includes :=
  let p := inc_path include in
  let '(mkIncludes documents trees suffix_roots db tb sb renderers) := m in
  match inc_suffix include with
  | Some suffix =>
      mkIncludes documents trees (<[suffix := {[ p ]} ∪ default ∅ (suffix_roots !! suffix)]> suffix_roots) db tb sb renderers
  | None =>
      match inc_kind include with
      | IncludeKind.Document => mkIncludes ({[ p ]} ∪ documents) trees suffix_roots db tb sb renderers
      | IncludeKind.Tree => mkIncludes documents ({[ p ]} ∪ trees) suffix_roots db tb sb renderers
      end
  end.

(** The second loop. *)
Definition bind_include (m : Includes) (include : DocumentInclude) : Includes :=
  match inc_adapter include with
  | None => m
  | Some adapter =>
      let p := inc_path include in
      let '(mkIncludes documents trees suffix_roots db tb sb renderers) := m in
      match inc_suffix include with
      | Some suffix => mkIncludes documents trees suffix_roots db tb (<[p := (suffix, adapter)]> sb) renderers
      | None =>
          match inc_kind include with
          | IncludeKind.Document => mkIncludes documents trees suffix_roots (<[p := adapter]> db) tb sb renderers
          | IncludeKind.Tree => mkIncludes documents trees suffix_roots db (<[p := adapter]> tb) sb renderers
          end
      end
  end.

Definition set_renderers (m : Includes) (renderers : option str_set) : Includes :=
  mkIncludes (in_documents m) (in_trees m) (in_suffix_roots m) (in_document_bindings m) (in_tree_bindings m)
    (in_suffix_bindings m) renderers.

(** The policy whose bindings count. *)
Definition binding_policy (base candidate : PolicySide) : option ScannerPolicy :=
  match ps_policy candidate with Some policy => Some policy | None => ps_policy base end.

Definition includes_union (base candidate : PolicySide) : Includes :=
  let merged :=
    fold_left (fun merged side =>
        match ps_policy side with
        | None => merged
        | Some policy => fold_left merge_include (sp_document_includes policy) merged
        end) [base; candidate] includes_default in
  let merged :=
    match binding_policy base candidate with
    | Some policy => fold_left bind_include (sp_document_includes policy) merged
    | None => merged
    end in
  set_renderers merged (list_to_set <$> (policy ← ps_policy candidate; sp_anchor_renderers policy)).

(** [ancestors]: the path itself, and then every directory above it, the
    nearest first. *)
Definition ancestors (p : bytes) : list bytes := p :: omap (slice_to p) (reverse (prefix_indices p)).

Definition covered (roots : str_set) (p : bytes) : bool :=
  existsb (fun ancestor => bool_decide (ancestor ∈ roots)) (ancestors p).

(** The loop of [Includes::binding]. *)
Fixpoint nearest_binding (m : Includes) (raw : bytes) (above : list bytes) : option Adapter.t :=
  match above with
  | [] => None
  | ancestor :: above =>
      match in_suffix_bindings m !! ancestor with
      | Some (suffix, adapter) =>
          if ends_with suffix raw then Some adapter
          else match in_tree_bindings m !! ancestor with Some adapter => Some adapter | None => nearest_binding m raw above end
      | None => match in_tree_bindings m !! ancestor with Some adapter => Some adapter | None => nearest_binding m raw above end
      end
  end.

Definition includes_binding (m : Includes) (p : path) : option Adapter.t :=
  match in_document_bindings m !! p with
  | Some adapter => Some adapter
  | None => nearest_binding m p (ancestors p)
  end.

(** The suffixes of the basename that begin with a dot. *)
Definition dotted (basename : bytes) : list bytes :=
  omap (fun '(start, b) => if beqb b "." then slice_from basename start else None)
    (zip (zseq 0 (length basename)) basename).

Definition includes_matches (m : Includes) (p : path) : bool :=
  bool_decide (p ∈ in_documents m)
  || (let basename := default p (last (split_byte "/" p)) in
      covered (in_trees m) p
      || existsb (fun suffix =>
             match in_suffix_roots m !! suffix with Some roots => covered roots p | None => false end)
           (omap from_utf8 (filter (fun suffix => len suffix <= DOCUMENT_SUFFIX_BYTES) (dotted basename)))).

(** ** What an include says *)

(** [p] is the root or below it. *)
Definition include_matches (include : DocumentInclude) (p : path) : Prop :=
  match inc_suffix include with
  | Some suffix => beneath (inc_path include) p /\ exists stem, p = stem ++ suffix
  | None =>
      match inc_kind include with
      | IncludeKind.Document => p = inc_path include
      | IncludeKind.Tree => beneath (inc_path include) p
      end
  end.

(** The includes of both sides. *)
Definition both_includes (base candidate : PolicySide) : list DocumentInclude :=
  side_includes (ps_policy base) ++ side_includes (ps_policy candidate).

(** ** Paths and their segments *)

(** What stands before a segment, and after it. *)
Definition opens (pre : bytes) : Prop := pre = [] \/ exists d, pre = d ++ b_ "/".
Definition closes (post : bytes) : Prop := post = [] \/ exists d, post = b_ "/" ++ d.

Lemma split_byte_pieces c l p ps :
  split_byte c l = p :: ps ->
  (c ∉ p /\ exists post, l = p ++ post /\ (post = [] \/ exists d, post = c :: d)) /\
  (forall piece, piece ∈ ps -> c ∉ piece /\ exists d post, l = d ++ c :: piece ++ post /\ (post = [] \/ exists d, post = c :: d)).
Proof.
  revert p ps. induction l as [|b l IH]; intros p ps; cbn.
  { intros [= <- <-]. split; [|by intros ? ?%not_elem_of_nil]. split; [apply not_elem_of_nil|]. exists []. auto. }
  destruct (split_byte_cons c l) as (p0 & ps0 & E). destruct (IH _ _ E) as [[H1 (post & El & Hpost)] H2]. rewrite E.
  destruct (beqb b c) eqn:Eb; intros [= <- <-].
  - apply beqb_eq in Eb as ->. split.
    + split; [apply not_elem_of_nil|]. exists (c :: l). split; [done|]. right. by exists l.
    + intros piece [->|Hin]%elem_of_cons.
      * split; [done|]. exists [], post. by rewrite El.
      * destruct (H2 piece Hin) as [Hc (d & post' & -> & Hp)]. split; [done|]. by exists (c :: d), post'.
  - assert (b <> c) by (intros ->; by rewrite (proj2 (beqb_eq c c) eq_refl) in Eb). split.
    + split; [by apply not_elem_of_cons|]. exists post. by rewrite El.
    + intros piece Hin. destruct (H2 piece Hin) as [Hc (d & post' & -> & Hp)]. split; [done|]. by exists (b :: d), post'.
Qed.

Lemma split_byte_segment c l piece :
  piece ∈ split_byte c l <->
  c ∉ piece /\ exists pre post,
    l = pre ++ piece ++ post /\ (pre = [] \/ exists d, pre = d ++ [c]) /\ (post = [] \/ exists d, post = c :: d).
Proof.
  split.
  - destruct (split_byte_cons c l) as (p & ps & E). destruct (split_byte_pieces c l p ps E) as [[H1 (post & El & Hpost)] H2].
    rewrite E. intros [->|Hin]%elem_of_cons.
    + split; [done|]. exists [], post. auto.
    + destruct (H2 piece Hin) as [Hc (d & post' & -> & Hp)]. split; [done|]. exists (d ++ [c]), post'.
      rewrite <- app_assoc. cbn. split; [done|]. split; [right; by exists d|done].
  - intros (Hc & pre & post & -> & Hpre & Hpost).
    assert (piece ∈ split_byte c (piece ++ post)) as Hin.
    { destruct Hpost as [->|[d ->]]; [rewrite app_nil_r, split_byte_absent by done; by left|].
      destruct (split_byte_app c piece d) as (ps & q & qs & E & -> & _). rewrite split_byte_absent in E by done.
      destruct ps as [|? [|? ?]]; cbn in E; simplify_eq. by left. }
    destruct Hpre as [->|[d ->]]; [done|]. rewrite <- app_assoc. cbn.
    destruct (split_byte_app c d (piece ++ post)) as (ps & q & qs & _ & -> & ->). apply elem_of_app. right. by right.
Qed.

Lemma base_split p :
  exists dir base, last (split_byte "/" p) = Some base /\ p = dir ++ base /\ "/"%byte ∉ base /\ opens dir.
Proof.
  destruct (decide ("/"%byte ∈ p)) as [Hin|Hin].
  - apply list_elem_of_split_r in Hin as (l1 & l2 & -> & H2).
    destruct (split_byte_app "/" l1 l2) as (ps & q & qs & _ & -> & ->). rewrite split_byte_absent by done.
    exists (l1 ++ b_ "/"), l2. split; [by rewrite last_app_cons|]. split; [by rewrite <- app_assoc|].
    split; [done|]. right. by exists l1.
  - exists [], p. rewrite split_byte_absent by done. split; [done|]. split; [done|]. split; [done|by left].
Qed.

Lemma raw_ends_with_spec suffix l : ends_with suffix l = true <-> exists stem, l = stem ++ suffix.
Proof.
  unfold ends_with. split.
  - destruct (strip_suffix suffix l) as [stem|] eqn:E; [|done]. apply strip_suffix_Some in E. by exists stem.
  - intros [stem ->]. by rewrite (proj2 (strip_suffix_Some _ _ stem) eq_refl).
Qed.

(** A suffix without separator is one of the basename. *)
Lemma ends_with_base suffix dir base :
  "/"%byte ∉ suffix -> opens dir -> "/"%byte ∉ base -> ends_with suffix (dir ++ base) = ends_with suffix base.
Proof.
  intros Hs Hd Hb. apply eq_true_iff_eq. rewrite !raw_ends_with_spec. split.
  - intros [stem E]. symmetry in E. apply app_eq_inv in E as [(k & -> & ->)|(k & -> & ->)]; [by exists k|].
    destruct Hd as [E|[d E]].
    + apply app_nil in E as [-> ->]. by exists [].
    + destruct k as [|x k _] using rev_ind; [by exists []|]. exfalso. rewrite app_assoc in E.
      change (b_ "/") with ["/"%byte] in E. apply app_inj_tail in E as [_ ->]. apply Hs, elem_of_app. left. apply elem_of_app. right. by left.
  - intros [stem ->]. exists (dir ++ stem). by rewrite app_assoc.
Qed.

(** the class of a path is the class of its last segment alone: the
    directories a document is in never decide its grammar. *)
Theorem classify_basename dir base : opens dir -> "/"%byte ∉ base -> classify (dir ++ base) = classify base.
Proof.
  intros Hd Hb. assert (forall suffix, "/"%byte ∉ suffix -> ends_with suffix (dir ++ base) = ends_with suffix base) as H
    by (intros; by apply ends_with_base).
  assert (default (dir ++ base) (last (split_byte "/" (dir ++ base))) = default base (last (split_byte "/" base))) as Hbase.
  { rewrite (split_byte_absent "/" base) by done. cbn. destruct Hd as [->|[d ->]]; [by rewrite split_byte_absent|].
    rewrite <- app_assoc. destruct (split_byte_app "/" d base) as (ps & q & qs & _ & E & ->).
    change (d ++ b_ "/" ++ base) with (d ++ "/"%byte :: base). rewrite E, (split_byte_absent "/" base) by done.
    by rewrite last_app_cons. }
  unfold classify. rewrite Hbase, !H by (by vm_compute; set_solver). done.
Qed.

Lemma classify_basename_witness :
  classify (b_ "a.mdx/docs/" ++ b_ "README") = classify (b_ "README") /\
  classify (b_ "README") = Some DocumentClassification.ExtensionlessMarkdown.
Proof.
  split; [|by vm_compute]. apply classify_basename; [right; by exists (b_ "a.mdx/docs")|].
  intros H. apply list_elem_of_In in H. cbn in H. repeat (destruct H as [H|H]; [done|]). done.
Defined.

(** a document is excluded exactly when one of the directories above it,
    and not its own name, is one of the closed set, byte for byte. *)
Theorem excluded_exact p :
  excluded_by_built_in p = true <->
  exists component pre post, component ∈ EXCLUDED_TREES /\ opens pre /\ p = pre ++ component ++ b_ "/" ++ post.
Proof.
  assert (forall component, existsb (bytes_eqb component) EXCLUDED_TREES = true <-> component ∈ EXCLUDED_TREES) as Hex.
  { intros component. rewrite existsb_exists. setoid_rewrite bytes_eqb_eq. setoid_rewrite <- list_elem_of_In. naive_solver. }
  assert (forall component, component ∈ EXCLUDED_TREES -> "/"%byte ∉ component) as Hns.
  { intros component Hc. unfold EXCLUDED_TREES in Hc. rewrite !elem_of_cons, elem_of_nil in Hc.
    repeat (destruct Hc as [->|Hc]; [by apply has_slash|]). done. }
  unfold excluded_by_built_in. destruct (rposition _ p) as [split|] eqn:Er.
  - apply rposition_spec in Er as (dirs & x & base & -> & <- & ->%beqb_eq & Hb).
    assert ("/"%byte ∉ base) as Hbase by (intros Hin; by apply (proj1 (Forall_forall _ _) Hb) in Hin).
    rewrite (proj2 (slice_to_spec _ _ dirs)) by by exists ("/"%byte :: base).
    rewrite existsb_exists. setoid_rewrite Hex. split.
    + intros (component & Hin & Hc). apply list_elem_of_In, split_byte_segment in Hin as (_ & pre & post & -> & Hpre & Hpost).
      destruct Hpost as [->|[d ->]].
      * exists component, pre, base. repeat split; [done..|]. by rewrite <- !app_assoc.
      * exists component, pre, (d ++ "/"%byte :: base). repeat split; [done..|]. by rewrite <- !app_assoc.
    + intros (component & pre & post & Hc & Hpre & E). exists component. split; [|done].
      apply list_elem_of_In, split_byte_segment. split; [by apply Hns|].
      assert (exists rest, dirs = pre ++ component ++ rest /\ (rest = [] \/ exists d, rest = "/"%byte :: d)) as (rest & -> & Hrest); [|by exists pre, rest].
      rewrite app_assoc in E. apply app_eq_inv in E as [(k & -> & Ek)|(k & Ek & Ek')].
      * exists k. split; [by rewrite <- app_assoc|]. destruct k as [|y k]; [by left|]. injection Ek as <- _. right. by exists k.
      * destruct k as [|y k].
        -- rewrite app_nil_r in Ek. exists []. rewrite app_nil_r. auto.
        -- injection Ek' as <- ->. destruct Hbase. apply elem_of_app. right. by left.
  - split; [done|]. intros (component & pre & post & _ & _ & ->). exfalso.
    destruct (list_elem_of_split_r ((pre ++ component) ++ b_ "/" ++ post) "/"%byte) as (l1 & l2 & E & Hl); [set_solver|].
    rewrite app_assoc, E in Er. rewrite (proj2 (rposition_spec _ _ (len l1))) in Er; [done|].
    exists l1, "/"%byte, l2. repeat split. apply Forall_forall. intros b Hb.
    destruct (beqb b "/") eqn:Eb; [apply beqb_eq in Eb; by subst|done].
Qed.

(** ** Matching an include *)

Lemma ancestors_spec p ancestor : ancestor ∈ ancestors p <-> beneath ancestor p.
Proof.
  unfold ancestors, beneath. rewrite elem_of_cons, list_elem_of_omap. split.
  - intros [->|(i & Hi & Hs)]; [by left|]. rewrite elem_of_reverse in Hi. apply prefix_indices_spec in Hi as (l1 & l2 & -> & ->).
    rewrite (proj2 (slice_to_spec _ _ l1)) in Hs by by exists (b_ "/" ++ l2). injection Hs as <-. right. by exists l2.
  - intros [->|[rest ->]]; [by left|]. right. exists (len ancestor). rewrite elem_of_reverse. split.
    + apply prefix_indices_spec. by exists ancestor, rest.
    + apply slice_to_spec. by exists (b_ "/" ++ rest).
Qed.

Lemma covered_spec roots p : covered roots p = true <-> exists root, root ∈ roots /\ beneath root p.
Proof.
  unfold covered. rewrite existsb_exists. setoid_rewrite <- list_elem_of_In. setoid_rewrite ancestors_spec.
  setoid_rewrite bool_decide_eq_true. naive_solver.
Qed.

Lemma dotted_spec base suffix :
  suffix ∈ dotted base <-> head suffix = Some "."%byte /\ exists stem, base = stem ++ suffix.
Proof.
  unfold dotted. rewrite list_elem_of_omap. split.
  - intros ([i b] & Hin & Hb). destruct (beqb b ".") eqn:E; [|done]. apply beqb_eq in E as ->.
    apply list_elem_of_lookup in Hin as [k Hk]. apply lookup_zip_with_Some in Hk as (j & c & [= <- <-] & Hj & Hc).
    apply slice_from_spec in Hb as (stem & -> & Hl). rewrite zseq_lookup in Hj. destruct (decide _); [|done]. injection Hj as Hj.
    split; [|by exists stem]. assert (k = length stem) as -> by (unfold len in Hl; lia).
    rewrite lookup_app_r, Nat.sub_diag in Hc by lia. destruct suffix; cbn in Hc |- *; congruence.
  - intros [Hh [stem ->]]. destruct suffix as [|b suffix]; [done|]. injection Hh as ->.
    exists (len stem, "."%byte). split; [|apply slice_from_spec; by exists stem].
    apply list_elem_of_lookup. exists (length stem). rewrite lookup_zip_with, zseq_lookup, decide_True.
    + cbn. by rewrite lookup_app_r, Nat.sub_diag by lia.
    + rewrite length_app. cbn. lia.
Qed.

(** The maps the first loop fills. *)
Record merged_from (l : list DocumentInclude) (m : Includes) : Prop := {
  mf_documents p : p ∈ in_documents m <->
    exists include, include ∈ l /\ inc_path include = p /\ inc_suffix include = None /\ inc_kind include = IncludeKind.Document;
  mf_trees p : p ∈ in_trees m <->
    exists include, include ∈ l /\ inc_path include = p /\ inc_suffix include = None /\ inc_kind include = IncludeKind.Tree;
  mf_suffixes suffix p : p ∈ default ∅ (in_suffix_roots m !! suffix) <->
    exists include, include ∈ l /\ inc_path include = p /\ inc_suffix include = Some suffix
}.

Lemma merge_include_from l m include : merged_from l m -> merged_from (l ++ [include]) (merge_include m include).
Proof.
  destruct m as [documents trees suffix_roots db tb sb renderers]. intros [Hd Ht Hs]. cbn in *.
  assert (forall P : DocumentInclude -> Prop, (exists x, x ∈ l ++ [include] /\ P x) <-> (exists x, x ∈ l /\ P x) \/ P include) as Hex
    by (intros P; setoid_rewrite elem_of_app; setoid_rewrite list_elem_of_singleton; naive_solver).
  unfold merge_include. destruct (inc_suffix include) as [suffix|] eqn:Es; [|destruct (inc_kind include) eqn:Ek];
    split; cbn; intros; rewrite Hex, ?elem_of_union, ?elem_of_singleton, ?Hd, ?Ht, ?Hs; rewrite ?Es, ?Ek; clear Hex Hd Ht.
  3: { destruct (decide (suffix = suffix0)) as [->|Hne].
       - rewrite lookup_insert_eq. cbn. rewrite elem_of_union, elem_of_singleton, Hs. clear Hs. intuition congruence.
       - rewrite lookup_insert_ne, Hs by done. clear Hs. intuition congruence. }
  all: clear Hs; intuition congruence.
Qed.

Lemma merge_includes_from l1 l2 m : merged_from l1 m -> merged_from (l1 ++ l2) (fold_left merge_include l2 m).
Proof.
  revert l1 m. induction l2 as [|include l2 IH]; intros l1 m Hm; [by rewrite app_nil_r|].
  rewrite cons_middle, app_assoc. by apply IH, merge_include_from.
Qed.

Lemma bind_include_keeps m include :
  in_documents (bind_include m include) = in_documents m /\ in_trees (bind_include m include) = in_trees m /\
  in_suffix_roots (bind_include m include) = in_suffix_roots m.
Proof. destruct m. unfold bind_include. by destruct (inc_adapter include), (inc_suffix include), (inc_kind include). Qed.

Lemma bind_includes_keep l m :
  in_documents (fold_left bind_include l m) = in_documents m /\ in_trees (fold_left bind_include l m) = in_trees m /\
  in_suffix_roots (fold_left bind_include l m) = in_suffix_roots m.
Proof.
  revert m. induction l as [|include l IH]; intros m; [done|]. cbn [fold_left].
  destruct (IH (bind_include m include)) as (-> & -> & ->). apply bind_include_keeps.
Qed.

Lemma union_merged base candidate :
  merged_from (both_includes base candidate) (includes_union base candidate).
Proof.
  assert (forall l m m', merged_from l m -> in_documents m' = in_documents m -> in_trees m' = in_trees m ->
    in_suffix_roots m' = in_suffix_roots m -> merged_from l m') as Hsame
    by (intros l m m' [Hd Ht Hs] E1 E2 E3; split; intros; rewrite ?E1, ?E2, ?E3; auto).
  assert (merged_from (both_includes base candidate) (fold_left (fun merged side =>
        match ps_policy side with
        | None => merged
        | Some policy => fold_left merge_include (sp_document_includes policy) merged
        end) [base; candidate] includes_default)) as Hm.
  { assert (merged_from [] includes_default) as H0
      by (split; intros; cbn; rewrite ?lookup_empty; cbn; set_solver).
    unfold both_includes, side_includes. cbn [fold_left].
    destruct (ps_policy base) as [pb|], (ps_policy candidate) as [pc|]; rewrite ?app_nil_r;
      repeat apply merge_includes_from; try done.
    all: by apply (merge_includes_from []). }
  unfold includes_union. destruct (binding_policy base candidate) as [policy|].
  - destruct (bind_includes_keep (sp_document_includes policy) (fold_left (fun merged side =>
        match ps_policy side with
        | None => merged
        | Some policy => fold_left merge_include (sp_document_includes policy) merged
        end) [base; candidate] includes_default)) as (E1 & E2 & E3). by eapply Hsame.
  - by eapply Hsame.
Qed.

(** What [validate_document_include] leaves. *)
Definition include_valid (include : DocumentInclude) : Prop :=
  forall suffix, inc_suffix include = Some suffix ->
    inc_kind include = IncludeKind.Tree /\ exact_suffix_valid suffix = true /\ utf8_valid suffix = true.

Lemma suffix_valid_spec suffix :
  exact_suffix_valid suffix = true ->
  head suffix = Some "."%byte /\ len suffix <= DOCUMENT_SUFFIX_BYTES /\ "/"%byte ∉ suffix.
Proof.
  unfold exact_suffix_valid. destruct (strip_prefix _ suffix) as [tail|] eqn:E; [|done]. apply strip_prefix_Some in E as ->.
  intros [[_ Hl%Z.leb_le]%andb_prop Ht%negb_true_iff]%andb_prop. split; [done|]. split; [done|].
  intros [?|Hin]%elem_of_cons; [done|]. apply list_elem_of_In in Hin.
  apply not_true_iff_false in Ht. apply Ht, existsb_exists. by exists "/"%byte.
Qed.

(** a path is selected by the policies exactly when one of the includes of
    either side names it: a document include its own path, a tree include its
    root and what is below it, and a suffixed tree only the paths below its
    root that end in the suffix. *)
Theorem matches_exact base candidate p :
  Forall include_valid (both_includes base candidate) ->
  includes_matches (includes_union base candidate) p = true <->
  exists include, include ∈ both_includes base candidate /\ include_matches include p.
Proof.
  intros Hv. destruct (union_merged base candidate) as [Hd Ht Hs]. set (m := includes_union base candidate) in *. clearbody m.
  destruct (base_split p) as (dir & name & Elast & Ep & Hname & Hdir).
  assert (existsb (fun suffix => match in_suffix_roots m !! suffix with Some roots => covered roots p | None => false end)
      (omap from_utf8 (filter (fun suffix => len suffix <= DOCUMENT_SUFFIX_BYTES) (dotted name))) = true <->
      exists include suffix, include ∈ both_includes base candidate /\ inc_suffix include = Some suffix /\
        beneath (inc_path include) p /\ exists stem, p = stem ++ suffix) as Hsuffix.
  { rewrite existsb_exists. setoid_rewrite <- list_elem_of_In. setoid_rewrite list_elem_of_omap.
    setoid_rewrite list_elem_of_filter. setoid_rewrite dotted_spec. unfold from_utf8. split.
    - intros (suffix & (s & (Hlen & Hhead & stem & Hstem) & Hu) & Hr). destruct (utf8_valid s); [|done]. injection Hu as ->.
      destruct (in_suffix_roots m !! suffix) as [roots|] eqn:Er; [|done]. apply covered_spec in Hr as (root & Hroot & Hb).
      pose proof (Hs suffix root) as H. rewrite Er in H. cbn in H. apply H in Hroot as (include & Hin & <- & Hinc).
      exists include, suffix. repeat split; [done..|]. exists (dir ++ stem). rewrite Ep, Hstem. by rewrite app_assoc.
    - intros (include & suffix & Hin & Hinc & Hb & stem & Hp). exists suffix.
      rewrite Forall_forall in Hv. destruct (Hv include Hin suffix Hinc) as (_ & Hsv & Hu).
      apply suffix_valid_spec in Hsv as (Hhead & Hlen & Hslash). split.
      + exists suffix. rewrite Hu. repeat split; [done..|]. apply raw_ends_with_spec.
        rewrite <- (ends_with_base suffix dir name) by done. apply raw_ends_with_spec. exists stem. congruence.
      + assert (inc_path include ∈ default ∅ (in_suffix_roots m !! suffix)) as Hroot by (apply Hs; by exists include).
        destruct (in_suffix_roots m !! suffix) as [roots|]; cbn in Hroot; [|set_solver]. apply covered_spec. by exists (inc_path include). }
  unfold includes_matches. rewrite Elast. cbn [default from_option id]. rewrite !orb_true_iff, bool_decide_eq_true, covered_spec, Hsuffix, Hd.
  setoid_rewrite Ht. unfold include_matches. split.
  - intros [(include & Hin & Hp & Hsx & Hk)|[(root & (include & Hin & Hp & Hsx & Hk) & Hb)|(include & suffix & Hin & Hinc & Hb & Hst)]];
      exists include; (split; [done|]).
    + by rewrite Hsx, Hk.
    + rewrite Hsx, Hk. by subst.
    + by rewrite Hinc.
  - intros (include & Hin & Hm). destruct (inc_suffix include) as [suffix|] eqn:Esx.
    + right. right. by exists include, suffix.
    + destruct (inc_kind include) eqn:Ek.
      * left. by exists include.
      * right. left. exists (inc_path include). split; [|done]. by exists include.
Qed.

Lemma matches_exact_witness :
  let base := mkPolicySide None None in
  let candidate := mkPolicySide None (Some (mkScannerPolicy
    [mkDocumentInclude (b_ "docs") IncludeKind.Tree (Some (b_ ".txt")) (Some Adapter.Markdown);
     mkDocumentInclude (b_ "notes") IncludeKind.Document None None] None [] [] None None None)) in
  includes_matches (includes_union base candidate) (b_ "docs/a/b.txt") = true /\
  (includes_matches (includes_union base candidate) (b_ "docs/a/b.md") = true <->
   exists include, include ∈ both_includes base candidate /\ include_matches include (b_ "docs/a/b.md")).
Proof.
  split; [by vm_compute|]. apply matches_exact.
  apply Forall_cons; split; [intros suffix [= <-]; by vm_compute|]. apply Forall_cons; split; [by intros suffix|constructor].
Defined.

(** ** The binding of a path *)

Definition include_binds (adapter : Adapter.t) (p : path) (include : DocumentInclude) : Prop :=
  inc_path include = p /\ inc_adapter include = Some adapter.

(** The maps the second loop fills. *)
Record bound_from (l : list DocumentInclude) (m : Includes) : Prop := {
  bf_documents p adapter : in_document_bindings m !! p = Some adapter <->
    exists include, include ∈ l /\ include_binds adapter p include /\ inc_suffix include = None /\ inc_kind include = IncludeKind.Document;
  bf_trees p adapter : in_tree_bindings m !! p = Some adapter <->
    exists include, include ∈ l /\ include_binds adapter p include /\ inc_suffix include = None /\ inc_kind include = IncludeKind.Tree;
  bf_suffixes p suffix adapter : in_suffix_bindings m !! p = Some (suffix, adapter) <->
    exists include, include ∈ l /\ include_binds adapter p include /\ inc_suffix include = Some suffix
}.

Lemma bind_include_from l m include :
  Forall include_valid (l ++ [include]) -> NoDup (map include_key (l ++ [include])) ->
  bound_from l m -> bound_from (l ++ [include]) (bind_include m include).
Proof.
  intros Hv Hnd [Hd Ht Hs].
  assert (forall x, x ∈ l -> inc_path x = inc_path include -> inc_kind x = inc_kind include -> False) as Huniq.
  { intros x Hx Hp Hk. rewrite map_app in Hnd. apply NoDup_app in Hnd as (_ & Hnd & _).
    apply (Hnd (include_key x)); [by apply list_elem_of_fmap_2|]. apply list_elem_of_singleton. unfold include_key. congruence. }
  assert (forall x suffix, x ∈ l ++ [include] -> inc_suffix x = Some suffix -> inc_kind x = IncludeKind.Tree) as Htree
    by (intros x suffix Hx Hsx; rewrite Forall_forall in Hv; by apply (Hv x Hx suffix)).
  assert (forall P : DocumentInclude -> Prop, (exists x, x ∈ l ++ [include] /\ P x) <-> (exists x, x ∈ l /\ P x) \/ P include) as Hex
    by (intros P; setoid_rewrite elem_of_app; setoid_rewrite list_elem_of_singleton; naive_solver).
  assert (forall x, x ∈ l -> x ∈ l ++ [include]) as Hin by (intros; apply elem_of_app; auto).
  assert (include ∈ l ++ [include]) as Hself by (apply elem_of_app; right; by left).
  destruct m as [documents trees suffix_roots db tb sb renderers]. cbn in *. unfold bind_include.
  destruct (inc_adapter include) as [adapter|] eqn:Ea.
  2: { split; cbn; intros; rewrite Hex; rewrite ?Hd, ?Ht, ?Hs; unfold include_binds; rewrite Ea; naive_solver. }
  assert (forall p a, include_binds a p include <-> p = inc_path include /\ a = adapter) as Hb
    by (intros; unfold include_binds; rewrite Ea; naive_solver).
  destruct (inc_suffix include) as [suffix|] eqn:Es; [pose proof (Htree _ _ Hself Es) as Ek|destruct (inc_kind include) eqn:Ek];
    split; cbn; intros; rewrite Hex, Hb, ?Es, ?Ek.
  all: try (rewrite lookup_insert; destruct (decide _) as [<-|Hne]).
  all: rewrite ?Hd, ?Ht, ?Hs.
  all: try (split; [intros [= <-] || intros [= <- <-]; right; by repeat split|]).
  all: try (intros [(x & Hx & [Hp Ha] & Hsx & Hk)|[[? ->] ?]]; [exfalso; eapply Huniq; [done|congruence|congruence]|congruence]).
  all: try (intros [(x & Hx & [Hp Ha] & Hsx)|[[? ->] [= ->]]]; [exfalso; eapply Huniq; [done|congruence|by rewrite (Htree x _ (Hin x Hx) Hsx)]|congruence]).
  all: naive_solver.
Qed.

Lemma bind_includes_from l m :
  Forall include_valid l -> NoDup (map include_key l) -> bound_from [] m -> bound_from l (fold_left bind_include l m).
Proof.
  intros Hv Hnd Hm. induction l as [|include l IH] using rev_ind; [done|]. rewrite fold_left_app. apply bind_include_from; [done..|].
  apply IH; [by apply Forall_app in Hv as [? _]|]. rewrite map_app in Hnd. by apply NoDup_app in Hnd as (? & _).
Qed.

Lemma union_bound base candidate policy :
  binding_policy base candidate = Some policy -> Forall include_valid (sp_document_includes policy) ->
  NoDup (map include_key (sp_document_includes policy)) ->
  bound_from (sp_document_includes policy) (includes_union base candidate).
Proof.
  intros Ep Hv Hnd. unfold includes_union. rewrite Ep.
  set (merged := fold_left _ [base; candidate] includes_default).
  assert (bound_from [] merged) as Hm.
  { assert (forall l m, in_document_bindings (fold_left merge_include l m) = in_document_bindings m /\
      in_tree_bindings (fold_left merge_include l m) = in_tree_bindings m /\
      in_suffix_bindings (fold_left merge_include l m) = in_suffix_bindings m) as Hkeep.
    { induction l as [|include l IH]; intros m; [done|]. cbn [fold_left]. destruct (IH (merge_include m include)) as (-> & -> & ->).
      destruct m. unfold merge_include. by destruct (inc_suffix include), (inc_kind include). }
    assert (in_document_bindings merged = ∅ /\ in_tree_bindings merged = ∅ /\ in_suffix_bindings merged = ∅) as (E1 & E2 & E3).
    { unfold merged. cbn [fold_left].
      destruct (ps_policy base) as [pb|], (ps_policy candidate) as [pc|];
        repeat (rewrite (proj1 (Hkeep _ _)) || rewrite (proj1 (proj2 (Hkeep _ _))) || rewrite (proj2 (proj2 (Hkeep _ _)))); done. }
    split; intros; rewrite ?E1, ?E2, ?E3, lookup_empty; (split; [done|]); intros (x & Hx & _); by apply not_elem_of_nil in Hx. }
  destruct (bind_includes_from _ _ Hv Hnd Hm) as [Hd Ht Hs]. by split.
Qed.

(** The directories above a path come in order. *)
Definition longer (a b : bytes) : Prop := len b < len a.
#[export] Instance longer_trans : Transitive longer.
Proof. intros a b c. unfold longer. lia. Qed.

Lemma indices_sorted off l :
  let indices := omap (fun '(i, b) => if beqb b "/" then Some i else None) (zip (zseq off (length l)) l) in
  Sorted.StronglySorted Z.lt indices /\ Forall (Z.le off) indices.
Proof.
  revert off. induction l as [|b l IH]; intros off; [split; constructor|]. cbn. destruct (IH (off + 1)) as [H1 H2].
  assert (Forall (Z.lt off) (omap (fun '(i, b) => if beqb b "/" then Some i else None) (zip (zseq (off + 1) (length l)) l))) as Hlt
    by (eapply Forall_impl; [exact H2|]; cbn; lia).
  destruct (beqb b "/"); (split; [|]); try done.
  - by constructor.
  - constructor; [lia|]. eapply Forall_impl; [exact Hlt|]. cbn. lia.
  - eapply Forall_impl; [exact Hlt|]. cbn. lia.
Qed.

Lemma StronglySorted_reverse {A} (R : A -> A -> Prop) l :
  Sorted.StronglySorted R l -> Sorted.StronglySorted (flip R) (reverse l).
Proof.
  induction 1 as [|x l Hs IH Hf]; [constructor|]. rewrite reverse_cons. apply StronglySorted_snoc; [done|].
  apply Forall_forall. intros y Hy. rewrite elem_of_reverse in Hy. unfold flip. rewrite Forall_forall in Hf. by apply Hf.
Qed.

Lemma ancestors_sorted p : Sorted.StronglySorted longer (ancestors p).
Proof.
  unfold ancestors, prefix_indices. destruct (indices_sorted 0 p) as [Hs _]. apply StronglySorted_reverse in Hs.
  assert (Forall (fun i => 0 <= i < len p) (reverse (prefix_indices p))) as Hb.
  { apply Forall_forall. intros i Hi. rewrite elem_of_reverse in Hi. apply prefix_indices_spec in Hi as (l1 & l2 & -> & ->).
    rewrite !len_app. change (len (b_ "/")) with 1. pose proof (len_nonneg l1). pose proof (len_nonneg l2). lia. }
  unfold prefix_indices in Hb. set (indices := reverse _) in *. clearbody indices.
  assert (Sorted.StronglySorted longer (omap (slice_to p) indices) /\
          Forall (fun a => exists i, i ∈ indices /\ len a = i) (omap (slice_to p) indices)) as [H1 H2].
  { induction Hs as [|i indices Hs IH Hf]; [split; constructor|]. apply Forall_cons in Hb as [Hi Hb]. destruct (IH Hb) as [H1 H2]. cbn.
    destruct (slice_to p i) as [a|] eqn:E.
    - apply slice_to_spec in E as (post & -> & Hl). split; constructor.
      + done.
      + eapply Forall_impl; [exact H2|]. cbn. intros x (j & Hj & Hx). unfold longer.
        apply (proj1 (Forall_forall _ _) Hf) in Hj. cbn in Hj. lia.
      + exists i. split; [by left|done].
      + eapply Forall_impl; [exact H2|]. cbn. intros x (j & Hj & Hx). exists j. split; [by right|done].
    - split; [done|]. eapply Forall_impl; [exact H2|]. cbn. intros x (j & Hj & Hx). exists j. split; [by right|done]. }
  constructor; [done|]. eapply Forall_impl; [exact H2|]. cbn. intros a (i & Hi & Ha). unfold longer.
  apply (proj1 (Forall_forall _ _) Hb) in Hi. lia.
Qed.

(** What one ancestor binds. *)
Definition binding_at (m : Includes) (raw ancestor : bytes) : option Adapter.t :=
  match in_suffix_bindings m !! ancestor with
  | Some (suffix, adapter) => if ends_with suffix raw then Some adapter else in_tree_bindings m !! ancestor
  | None => in_tree_bindings m !! ancestor
  end.

Lemma nearest_binding_first m raw above adapter :
  nearest_binding m raw above = Some adapter <->
  exists before ancestor after, above = before ++ ancestor :: after /\ binding_at m raw ancestor = Some adapter /\
    Forall (fun a => binding_at m raw a = None) before.
Proof.
  assert (forall a above, nearest_binding m raw (a :: above) =
            match binding_at m raw a with Some adapter => Some adapter | None => nearest_binding m raw above end) as Hcons.
  { intros a above'. cbn. unfold binding_at. destruct (in_suffix_bindings m !! a) as [[suffix ad]|]; [|done].
    by destruct (ends_with suffix raw). }
  induction above as [|a above IH]; [split; [done|]; intros (before & ? & ? & E & _); by destruct before|]. rewrite Hcons.
  destruct (binding_at m raw a) as [adapter'|] eqn:E.
  - split.
    + intros [= <-]. by exists [], a, above.
    + intros ([|a' before] & ancestor & after & Ea & Hb & Hf); simplify_eq/=; [congruence|].
      apply Forall_cons in Hf as [Hf _]. congruence.
  - rewrite IH. split.
    + intros (before & ancestor & after & -> & Hb & Hf). exists (a :: before), ancestor, after. by repeat split; [|constructor].
    + intros ([|a' before] & ancestor & after & Ea & Hb & Hf); simplify_eq/=.
      apply Forall_cons in Hf as [_ Hf]. by exists before, ancestor, after.
Qed.

Section Binding.
Context (l : list DocumentInclude) (m : Includes) (Hv : Forall include_valid l) (Hnd : NoDup (map include_key l)) (Hm : bound_from l m).

(** A tree include with a grammar. *)
Definition binding_tree (p : path) (include : DocumentInclude) : Prop :=
  include ∈ l /\ inc_kind include = IncludeKind.Tree /\ is_Some (inc_adapter include) /\ include_matches include p.

Lemma binding_at_spec p ancestor adapter :
  beneath ancestor p ->
  binding_at m p ancestor = Some adapter <->
  exists include, binding_tree p include /\ inc_path include = ancestor /\ inc_adapter include = Some adapter.
Proof.
  intros Hb. unfold binding_at, binding_tree, include_matches. destruct Hm as [_ Ht Hs].
  assert (forall include suffix, include ∈ l -> inc_suffix include = Some suffix -> inc_kind include = IncludeKind.Tree) as Htree
    by (intros x suffix Hx Hsx; rewrite Forall_forall in Hv; by apply (Hv x Hx suffix)).
  assert (forall x y, x ∈ l -> y ∈ l -> inc_kind x = IncludeKind.Tree -> inc_kind y = IncludeKind.Tree -> inc_path x = inc_path y -> x = y) as Huniq.
  { intros x y [i Hi]%list_elem_of_lookup [j Hj]%list_elem_of_lookup Hkx Hky Hp.
    assert (i = j) as ->; [|congruence]. apply (NoDup_lookup _ _ _ (include_key x) Hnd); rewrite list_lookup_fmap.
    - by rewrite Hi.
    - rewrite Hj. cbn. unfold include_key. congruence. }
  destruct (in_suffix_bindings m !! ancestor) as [[suffix ad]|] eqn:Es.
  - apply Hs in Es as (x & Hx & [Hpx Hax] & Hsx). pose proof (Htree x suffix Hx Hsx) as Hkx. destruct (ends_with suffix p) eqn:Ee.
    + apply raw_ends_with_spec in Ee. split.
      * intros [= <-]. exists x. rewrite Hsx, Hpx. naive_solver.
      * intros (y & (Hy & Hky & _ & _) & Hpy & Hay). rewrite (Huniq y x) in Hay by congruence. congruence.
    + split.
      * intros Hta. apply Ht in Hta as (y & Hy & [Hpy Hay] & Hsy & Hky). rewrite (Huniq y x) in Hsy by congruence. congruence.
      * intros (y & (Hy & Hky & _ & Hmy) & Hpy & Hay). rewrite (Huniq y x) in Hmy by congruence. rewrite Hsx in Hmy.
        destruct Hmy as [_ Hst%raw_ends_with_spec]. congruence.
  - rewrite Ht. split.
    + intros (y & Hy & [Hpy Hay] & Hsy & Hky). exists y. rewrite Hsy, Hky, Hpy. naive_solver.
    + intros (y & (Hy & Hky & _ & Hmy) & Hpy & Hay). exists y. destruct (inc_suffix y) as [suffix|] eqn:Esy; [|by repeat split].
      exfalso. assert (in_suffix_bindings m !! ancestor = Some (suffix, adapter)) by (apply Hs; by exists y). congruence.
Qed.

Lemma binding_spec p adapter :
  includes_binding m p = Some adapter <->
  (exists include, include ∈ l /\ include_binds adapter p include /\ inc_kind include = IncludeKind.Document) \/
  (forall include, include ∈ l -> inc_path include = p -> inc_kind include = IncludeKind.Document -> inc_adapter include = None) /\
  exists include, binding_tree p include /\ inc_adapter include = Some adapter /\
    forall other, binding_tree p other -> len (inc_path other) <= len (inc_path include).
Proof.
  assert (forall include suffix, include ∈ l -> inc_suffix include = Some suffix -> inc_kind include = IncludeKind.Tree) as Htree
    by (intros x suffix Hx Hsx; rewrite Forall_forall in Hv; by apply (Hv x Hx suffix)).
  assert (forall include adapter, include ∈ l -> include_binds adapter p include -> inc_kind include = IncludeKind.Document ->
            in_document_bindings m !! p = Some adapter) as Hdoc.
  { intros x a Hx Hb Hk. apply (bf_documents _ _ Hm). exists x. split; [done|]. split; [done|]. split; [|done].
    destruct (inc_suffix x) as [suffix|] eqn:Es; [|done]. apply Htree in Es; [congruence|done]. }
  assert (forall include, binding_tree p include -> beneath (inc_path include) p) as Hbeneath.
  { intros x (_ & Hk & _ & Hmx). unfold include_matches in Hmx. rewrite Hk in Hmx. destruct (inc_suffix x); [by destruct Hmx|done]. }
  unfold includes_binding. destruct (in_document_bindings m !! p) as [adapter'|] eqn:Ed.
  - pose proof Ed as (x & Hx & Hb & Hsx & Hk)%(bf_documents _ _ Hm). split.
    + intros [= <-]. left. by exists x.
    + intros [(y & Hy & Hby & Hky)|[Hno _]]; [by apply (Hdoc y)|].
      destruct Hb as [Hp Ha]. rewrite (Hno x Hx Hp Hk) in Ha. done.
  - assert (forall include, include ∈ l -> inc_path include = p -> inc_kind include = IncludeKind.Document -> inc_adapter include = None) as Hno.
    { intros x Hx Hp Hk. destruct (inc_adapter x) as [a|] eqn:Ea; [|done].
      exfalso. by pose proof (Hdoc x a Hx (conj Hp Ea) Hk). }
    rewrite nearest_binding_first. pose proof (ancestors_sorted p) as Hsorted. split.
    + intros (before & ancestor & after & Ea & Hat & Hf). right. split; [done|].
      assert (beneath ancestor p) as Hba by (apply ancestors_spec; rewrite Ea; apply elem_of_app; right; by left).
      apply binding_at_spec in Hat as (x & Hx & Hpx & Hax); [|done]. exists x. split; [done|]. split; [done|].
      intros y Hy. pose proof (Hbeneath y Hy) as Hin%ancestors_spec. rewrite Hpx, Ea in *.
      apply elem_of_app in Hin as [Hin|[->|Hin]%elem_of_cons]; [|done|].
      * exfalso. apply (proj1 (Forall_forall _ _) Hf) in Hin as Hnone. destruct (Hy) as (_ & _ & [a Ha] & _).
        assert (binding_at m p (inc_path y) = Some a) as Hs by (apply binding_at_spec; [by apply Hbeneath|by exists y]). congruence.
      * apply StronglySorted_app in Hsorted as (_ & _ & Hs). apply StronglySorted_inv in Hs as [_ Hs].
        apply (proj1 (Forall_forall _ _) Hs) in Hin. unfold longer in Hin. lia.
    + intros [(x & Hx & Hb & Hk)|(_ & x & Hx & Hax & Hmax)]; [by pose proof (Hdoc x adapter Hx Hb Hk)|].
      pose proof (Hbeneath x Hx) as Hbx. apply ancestors_spec in Hbx as Hin. apply list_elem_of_split in Hin as (before & after & Ea).
      exists before, (inc_path x), after. split; [done|]. split; [apply binding_at_spec; [done|by exists x]|].
      apply Forall_forall. intros a Hin. destruct (binding_at m p a) as [a'|] eqn:Eat; [|done]. exfalso.
      assert (beneath a p) as Hba by (apply ancestors_spec; rewrite Ea; apply elem_of_app; by left).
      apply binding_at_spec in Eat as (y & Hy & <- & _); [|done]. specialize (Hmax y Hy).
      rewrite Ea in Hsorted. apply StronglySorted_app in Hsorted as (Hs & _ & _).
      specialize (Hs _ (inc_path x) Hin ltac:(by left)). unfold longer in Hs. lia.
Qed.
End Binding.

(** the grammar of a path an include selects is the one its document
    include names; without one, that of the nearest tree above it, with or
    without suffix, that matches it and names a grammar. Only the candidate's
    policy is asked, and the base's when the candidate has none. *)
Theorem binding_exact base candidate policy p adapter :
  binding_policy base candidate = Some policy -> Forall include_valid (sp_document_includes policy) ->
  NoDup (map include_key (sp_document_includes policy)) ->
  includes_binding (includes_union base candidate) p = Some adapter <->
  (exists include, include ∈ sp_document_includes policy /\ include_binds adapter p include /\ inc_kind include = IncludeKind.Document) \/
  (forall include, include ∈ sp_document_includes policy -> inc_path include = p -> inc_kind include = IncludeKind.Document ->
     inc_adapter include = None) /\
  exists include, binding_tree (sp_document_includes policy) p include /\ inc_adapter include = Some adapter /\
    forall other, binding_tree (sp_document_includes policy) p other -> len (inc_path other) <= len (inc_path include).
Proof. intros Ep Hv Hnd. apply binding_spec; [done..|]. by apply union_bound. Qed.

Definition nested_includes : PolicySide :=
  mkPolicySide None (Some (mkScannerPolicy
    [mkDocumentInclude (b_ "docs") IncludeKind.Tree None (Some Adapter.Markdown);
     mkDocumentInclude (b_ "docs/api") IncludeKind.Tree (Some (b_ ".txt")) (Some Adapter.Rst)] None [] [] None None None)).

Lemma binding_exact_witness :
  includes_binding (includes_union (mkPolicySide None None) nested_includes) (b_ "docs/api/a.txt") = Some Adapter.Rst /\
  includes_binding (includes_union (mkPolicySide None None) nested_includes) (b_ "docs/api/a.log") = Some Adapter.Markdown /\
  (includes_binding (includes_union (mkPolicySide None None) nested_includes) (b_ "docs/api/a.txt") = Some Adapter.Rst ->
   exists include, binding_tree [mkDocumentInclude (b_ "docs") IncludeKind.Tree None (Some Adapter.Markdown);
     mkDocumentInclude (b_ "docs/api") IncludeKind.Tree (Some (b_ ".txt")) (Some Adapter.Rst)] (b_ "docs/api/a.txt") include).
Proof.
  split; [by vm_compute|]. split; [by vm_compute|]. intros H.
  pose proof (binding_exact (mkPolicySide None None) nested_includes _ (b_ "docs/api/a.txt") Adapter.Rst eq_refl) as B.
  apply B in H as [(x & Hx & _ & Hk)|(_ & x & Hx & _)].
  - exfalso. cbn in Hx. rewrite !elem_of_cons, elem_of_nil in Hx. by destruct Hx as [->|[->|[]]].
  - by exists x.
  - apply Forall_cons; split; [by intros suffix|]. apply Forall_cons; split; [|constructor]. intros suffix [= <-]. by vm_compute.
  - by apply (bool_decide_unpack (NoDup _)); vm_compute.
Defined.
