(* ===== verification/ScanScalar.v ===== *)
(** Declarations read line by line, without a parser: frontmatter regions
    ([crates/amiss-md/src/frontmatter.rs]), and the scalars, descriptors and
    configuration files of [crates/amiss-scan/src/route.rs].

    A [str] is the list of its UTF-8 bytes. The characters [str::trim_start] and
    [char::is_control] test are given by their encodings. *)
From Stdlib Require Import Strings.Byte Strings.String Lia.
From stdpp Require Import base numbers gmap sets list.
From S2P Require Import Prelude Codec WireModel GitResources OrdMap Observation ScanLines ScanDeclared ScanLfs.

(** ** Text *)

(** The encodings of the characters [char::is_whitespace] holds for. *)
Definition WHITE_SPACE : list bytes :=
  [[x09]; [x0a]; [x0b]; [x0c]; [x0d]; [x20]; [xc2; x85]; [xc2; xa0]; [xe1; x9a; x80]; [xe2; x80; x80]; [xe2; x80; x81];
   [xe2; x80; x82]; [xe2; x80; x83]; [xe2; x80; x84]; [xe2; x80; x85]; [xe2; x80; x86]; [xe2; x80; x87]; [xe2; x80; x88];
   [xe2; x80; x89]; [xe2; x80; x8a]; [xe2; x80; xa8]; [xe2; x80; xa9]; [xe2; x80; xaf]; [xe2; x81; x9f]; [xe3; x80; x80]].

Fixpoint strip_one (patterns : list bytes) (text : bytes) : option bytes :=
  match patterns with
  | [] => None
  | pattern :: patterns =>
      match strip_prefix pattern text with Some rest => Some rest | None => strip_one patterns text end
  end.
(** [trim_start_matches] of some encodings; every one has a byte. *)
Fixpoint trim_start_fuel (fuel : nat) (patterns : list bytes) (text : bytes) : bytes :=
  match fuel with
  | O => text
  | S fuel => match strip_one patterns text with Some rest => trim_start_fuel fuel patterns rest | None => text end
  end.
Definition trim_start_of (patterns : list bytes) (text : bytes) : bytes := trim_start_fuel (length text) patterns text.
Definition trim_end_of (patterns : list bytes) (text : bytes) : bytes :=
  rev (trim_start_of (map (@rev Byte.byte) patterns) (rev text)).
Definition trim_of (patterns : list bytes) (text : bytes) : bytes := trim_end_of patterns (trim_start_of patterns text).

(** [str::trim_start], [str::trim_end], [trim_matches([' ', '\t'])]. *)
Definition str_trim_start : bytes -> bytes := trim_start_of WHITE_SPACE.
Definition str_trim_end : bytes -> bytes := trim_end_of WHITE_SPACE.
Definition BLANKS : list bytes := [[x20]; [x09]].
(** [u8::is_ascii_whitespace], and the three [trim_ascii] of slices. *)
Definition ASCII_WHITE_SPACE : list bytes := [[x09]; [x0a]; [x0c]; [x0d]; [x20]].
Definition is_ascii_whitespace (b : Byte.byte) : bool := existsb (bytes_eqb [b]) ASCII_WHITE_SPACE.
Definition trim_ascii_start : bytes -> bytes := trim_start_of ASCII_WHITE_SPACE.
Definition trim_ascii : bytes -> bytes := trim_of ASCII_WHITE_SPACE.

(** [contains(char::is_control)]: C0, DEL and C1. *)
Fixpoint has_control_char (text : bytes) : bool :=
  match text with
  | [] => false
  | b :: rest =>
      is_ascii_control b
      || (beqb b xc2 && match rest with c :: _ => (128 <=? u8 c) && (u8 c <=? 159) | [] => false end)
      || has_control_char rest
  end.

Definition starts_with (pattern text : bytes) : bool := is_some (strip_prefix pattern text).

(** ** Frontmatter *)

Definition MAX_BYTES : usize := 65536.

Record Region := mkRegion { rg_bom_bytes : usize; rg_bytes : usize; rg_suffix_offset : usize; rg_suffix_line : usize }.

(** The loop of [recognize], after [consumed] lines. *)
Fixpoint find_closer (body : bytes) (closers : list bytes) (lines : list Line.t) (consumed : usize) : option (Line.t * usize) :=
  match lines with
  | [] => None
  | line :: lines =>
      let consumed := sat_add consumed 1 in
      if existsb (bytes_eqb (Line.content line body)) closers then Some (line, consumed)
      else find_closer body closers lines consumed
  end.

Definition closers_of (opener : bytes) : option (list bytes) :=
  if bytes_eqb opener (b_ "---") then Some [b_ "---"; b_ "..."]
  else if bytes_eqb opener (b_ "+++") then Some [b_ "+++"]
  else None.

(** [frontmatter::recognize]. *)
Definition recognize (source : bytes) : option Region :=
  let bom_bytes := if starts_with BOM source then len BOM else 0 in
  body ← slice_from source bom_bytes;
  match scan body with
  | [] => None
  | opener :: lines =>
      if negb (Line.terminated opener) then None
      else
        closers ← closers_of (Line.content opener body);
        '(line, consumed) ← find_closer body closers lines 1;
        if MAX_BYTES <? Line.end_ line then None
        else Some (mkRegion bom_bytes (Line.end_ line) (sat_add bom_bytes (Line.end_ line)) consumed)
  end.

Definition body_offset (source : bytes) : usize :=
  match recognize source with
  | Some region => rg_suffix_offset region
  | None => if starts_with BOM source then len BOM else 0
  end.

(** ** Scalars *)

(** [spelled]. *)
Definition spelled_value (value : bytes) : option bytes :=
  if bytes_eqb value []
     || match head value with Some b => existsb (beqb b) (b_ ">|&*{[" ++ [x22; x27]) | None => false end
     || has_control_char value
  then None else Some value.

(** One turn of the loop over the quotes: [None] goes on. *)
Definition quoted_scalar (quote : Byte.byte) (text : bytes) : option (option bytes) :=
  match strip_prefix [quote] text with
  | None => None
  | Some rest =>
      match strip_suffix [quote] rest with
      | Some inner => Some (spelled_value inner)
      | None =>
          match ScanLines.split_once [quote] rest with
          | Some (inner, after) =>
              if starts_with (b_ "#") (str_trim_start after) then Some (spelled_value inner) else None
          | None => None
          end
      end
  end.

Definition scalar (line key : bytes) : option bytes :=
  value ← strip_prefix key line;
  value ← from_utf8 value;
  let text := trim_of BLANKS value in
  match quoted_scalar x22 text with
  | Some value => value
  | None =>
      match quoted_scalar x27 text with
      | Some value => value
      | None =>
          spelled_value (str_trim_end (match ScanLines.split_once (b_ " #") text with Some (value, _) => value | None => text end))
      end
  end.

Definition opens_sequence (line key : bytes) : bool :=
  match strip_prefix key line with
  | Some rest => forallb (fun b => beqb b " " || beqb b x09) rest
  | None => false
  end.

Definition sequence_entry (line : bytes) : option bytes :=
  opened ← position (fun b => negb (beqb b " " || beqb b x09)) line;
  entry ← slice_from line opened;
  if starts_with (b_ "- ") entry then scalar entry (b_ "-") else None.

(** [assigned] and [configured]. *)
Definition assigned (line key : bytes) : option bytes :=
  rest ← strip_prefix key line;
  strip_prefix (b_ "=") (trim_ascii_start rest).
Definition configured (line key : bytes) : option bytes :=
  match assigned line key with
  | Some value => scalar value []
  | None => scalar line (key ++ b_ ":")
  end.

(** ** Publication *)

Record Publication := mkPublication {
  pb_slug : option bytes; pb_id : option bytes; pb_redirects : list bytes; pb_layout : bool
}.
Definition publication_default : Publication := mkPublication None None [] false.

Definition get_or_insert {A} (slot : option A) (value : A) : option A :=
  match slot with Some held => Some held | None => Some value end.

(** The loop of [declared_publication]; [listing] says whether a block is open. *)
Fixpoint publication_lines (lines : list bytes) (listing : bool) (p : Publication) : Publication :=
  match lines with
  | [] => p
  | content :: lines =>
      match (if listing then sequence_entry content else None) with
      | Some entry =>
          publication_lines lines listing (mkPublication (pb_slug p) (pb_id p) (pb_redirects p ++ [entry]) (pb_layout p))
      | None =>
          let listing := opens_sequence content (b_ "aliases:") in
          let layout := pb_layout p || is_some (scalar content (b_ "layout:")) in
          let '(slug, id) :=
            match scalar content (b_ "slug:") with
            | Some value => (get_or_insert (pb_slug p) value, pb_id p)
            | None =>
                match scalar content (b_ "id:") with
                | Some value => (pb_slug p, get_or_insert (pb_id p) value)
                | None => (pb_slug p, pb_id p)
                end
            end in
          publication_lines lines listing (mkPublication slug id (pb_redirects p) layout)
      end
  end.

Definition declared_publication (adapter : Adapter.t) (source : bytes) : Publication :=
  if negb (bool_decide (adapter = Adapter.Markdown) || bool_decide (adapter = Adapter.Mdx)) then publication_default
  else
    match (region ← recognize source; slice source (rg_bom_bytes region) (rg_suffix_offset region)) with
    | Some body => publication_lines (map (fun line => Line.content line body) (scan body)) false publication_default
    | None => publication_default
    end.

(** ** Descriptors *)

Record AntoraComponent := mkAntoraComponent { an_name : bytes; an_version : option bytes; an_extended : bool }.

(** The loop of [antora_descriptor]. *)
Fixpoint antora_lines (lines : list bytes) (name version : option bytes) (extended : bool) : option AntoraComponent :=
  match lines with
  | [] => (fun name => mkAntoraComponent name version extended) <$> name
  | content :: lines =>
      match scalar content (b_ "name:") with
      | Some value => antora_lines lines (get_or_insert name value) version extended
      | None =>
          match scalar content (b_ "version:") with
          | Some value => antora_lines lines name (get_or_insert version value) extended
          | None => antora_lines lines name version (if starts_with (b_ "ext:") content then true else extended)
          end
      end
  end.
Definition antora_descriptor (source : bytes) : option AntoraComponent :=
  antora_lines (contents source) None None false.

(** ** Frontmatter is the region between two delimiter lines *)

Lemma starts_with_spec pattern text : starts_with pattern text = true <-> exists rest, text = pattern ++ rest.
Proof.
  unfold starts_with. split.
  - destruct (strip_prefix pattern text) as [rest|] eqn:E; [|done]. apply strip_prefix_Some in E. by exists rest.
  - intros [rest ->]. by rewrite (proj2 (strip_prefix_Some _ _ rest) eq_refl).
Qed.

(** The source without its byte order mark. *)
Definition without_bom (source : bytes) : bytes := default source (strip_prefix BOM source).
Definition bom_of (source : bytes) : usize := if starts_with BOM source then len BOM else 0.

Lemma slice_without_bom source : slice_from source (bom_of source) = Some (without_bom source).
Proof.
  unfold bom_of, without_bom, starts_with. destruct (strip_prefix BOM source) as [rest|] eqn:E; cbn [is_some is_none negb from_option id].
  - apply strip_prefix_Some in E as ->. apply drop_len.
  - apply slice_from_spec. by exists [].
Qed.

Lemma find_closer_spec body closers lines consumed line total :
  0 <= consumed -> consumed + len lines < u64_max ->
  find_closer body closers lines consumed = Some (line, total) <->
  exists k, lines !! k = Some line /\ total = consumed + Z.of_nat k + 1 /\ Line.content line body ∈ closers /\
    forall j line', (j < k)%nat -> lines !! j = Some line' -> Line.content line' body ∉ closers.
Proof.
  assert (forall c, existsb (bytes_eqb c) closers = true <-> c ∈ closers) as Hex.
  { intros c. rewrite existsb_exists. setoid_rewrite bytes_eqb_eq. setoid_rewrite <- list_elem_of_In. naive_solver. }
  revert consumed. induction lines as [|l lines IH]; intros consumed Hc Hl; cbn [find_closer].
  { split; [done|]. by intros (k & Hk & _). }
  rewrite len_cons in Hl. pose proof (len_nonneg lines). rewrite sat_add_small by (unfold usize_max; lia).
  destruct (existsb _ closers) eqn:E.
  - apply Hex in E. split.
    + intros [= <- <-]. exists O. repeat split; [lia|done|lia].
    + intros ([|k] & Hk & -> & Hin & Hbefore); [injection Hk as <-; do 2 f_equal; lia|].
      by destruct (Hbefore O l ltac:(lia) eq_refl).
  - assert (Line.content l body ∉ closers) as Hno by (intros Hin%Hex; congruence). rewrite IH by lia. split.
    + intros (k & Hk & -> & Hin & Hbefore). exists (S k). repeat split; [done|lia|done|].
      intros [|j] line' Hj Hlookup; [by injection Hlookup as <-|]. by apply (Hbefore j); [lia|].
    + intros ([|k] & Hk & -> & Hin & Hbefore); [by injection Hk as <-|]. exists k. repeat split; [done|lia|done|].
      intros j line' Hj Hlookup. by apply (Hbefore (S j)); [lia|].
Qed.

Lemma first_terminated body line lines : rust_slice body -> scan body = line :: lines -> lines <> [] -> Line.terminated line = true.
Proof. intros Hs E Hne. pose proof (scan_cuts body Hs) as Hc. rewrite E in Hc. by inversion Hc; subst. Qed.

Lemma contents_at body k : contents body !! k = (fun line => Line.content line body) <$> (scan body !! k).
Proof. apply list_lookup_fmap. Qed.

(** frontmatter is recognized exactly when the first line, after at most
    one byte order mark, is a delimiter and a later line closes it within the
    first 65,536 bytes, both being whole lines; the region ends with the first
    such line. *)
Theorem recognize_exact source region :
  rust_slice source ->
  recognize source = Some region <->
  exists opener closers k closer,
    let body := without_bom source in
    contents body !! O = Some opener /\ closers_of opener = Some closers /\
    (0 < k)%nat /\ contents body !! k = Some closer /\ closer ∈ closers /\
    (forall j content, (0 < j < k)%nat -> contents body !! j = Some content -> content ∉ closers) /\
    len (concat (take (S k) (texts body))) <= MAX_BYTES /\
    region = mkRegion (bom_of source) (len (concat (take (S k) (texts body))))
      (bom_of source + len (concat (take (S k) (texts body)))) (Z.of_nat k + 1).
Proof.
  intros Hs. unfold recognize. fold (bom_of source). rewrite slice_without_bom. cbn [mbind option_bind].
  set (body := without_bom source). cbv zeta.
  assert (rust_slice body) as Hb.
  { unfold body, without_bom, rust_slice in *. destruct (strip_prefix BOM source) as [rest|] eqn:E; [|done].
    apply strip_prefix_Some in E as ->. rewrite len_app in Hs. pose proof (len_nonneg BOM). cbn. lia. }
  assert (bom_of source = 0 \/ bom_of source = 3) as Hbom by (unfold bom_of; destruct (starts_with _ _); auto).
  pose proof (scan_len body Hb) as Hlen. unfold rust_slice, isize_max in Hb.
  setoid_rewrite contents_at. destruct (scan body) as [|opener lines] eqn:El.
  { split; [done|]. by intros (? & ? & ? & ? & H & _). }
  assert (forall k line, scan body !! k = Some line -> Line.end_ line = len (concat (take (S k) (texts body)))) as Hend
    by (intros k line Hk; by apply scan_at).
  assert (forall j, (opener :: lines) !! S j = lines !! j) as Hcons by done.
  rewrite len_cons in Hlen. split.
  - destruct (Line.terminated opener) eqn:Et; [|done]. cbn [negb].
    destruct (closers_of (Line.content opener body)) as [closers|] eqn:Ec; [|done]. cbn [mbind option_bind].
    destruct (find_closer body closers lines 1) as [[line consumed]|] eqn:Ef; [|done]. cbn [mbind option_bind].
    apply find_closer_spec in Ef as (k & Hk & -> & Hin & Hbefore); [|lia|unfold u64_max; pose proof (len_nonneg lines); lia].
    pose proof (Hend (S k) line) as He. rewrite El in He. rewrite (He Hk).
    destruct (Z.ltb_spec MAX_BYTES (len (concat (take (S (S k)) (texts body))))) as [|Hle]; [done|]. intros [= <-].
    exists (Line.content opener body), closers, (S k), (Line.content line body).
    split; [done|]. split; [done|]. split; [lia|]. split; [by rewrite Hcons, Hk|]. split; [done|]. split.
    + intros [|j] content Hj Hlookup; [lia|]. rewrite Hcons in Hlookup.
      destruct (lines !! j) as [line'|] eqn:Ej; [|done]. injection Hlookup as <-. by apply (Hbefore j); [lia|].
    + split; [done|]. f_equal; [|lia]. rewrite sat_add_small; [done|]. unfold usize_max, u64_max, MAX_BYTES in *. lia.
  - intros (o & closers & [|k] & closer & Ho & Ec & Hk & Hcl & Hin & Hbefore & Hmax & ->); [lia|]. rewrite Hcons in Hcl. injection Ho as <-.
    destruct (lines !! k) as [line|] eqn:Ek; [|done]. injection Hcl as <-.
    rewrite (first_terminated body opener lines); [|done|done|by intros ->]. cbn [negb]. rewrite Ec. cbn [mbind option_bind].
    assert (find_closer body closers lines 1 = Some (line, Z.of_nat (S k) + 1)) as ->.
    { apply find_closer_spec; [lia|unfold u64_max; pose proof (len_nonneg lines); lia|]. exists k. repeat split; [done|lia|done|].
      intros j line' Hj Ej. apply (Hbefore (S j)); [lia|]. by rewrite Hcons, Ej. }
    cbn [mbind option_bind]. pose proof (Hend (S k) line) as He. rewrite El in He. rewrite (He Ek).
    destruct (Z.ltb_spec MAX_BYTES (len (concat (take (S (S k)) (texts body))))); [lia|].
    rewrite sat_add_small; [done|]. unfold usize_max, u64_max, MAX_BYTES in *. lia.
Qed.

Definition example_front : bytes :=
  b_ "---" ++ [CR; LF] ++ b_ "slug: /a" ++ [LF] ++ b_ "aliases:" ++ [LF] ++ b_ "  - ../old" ++ [LF] ++ b_ "..." ++ [LF] ++ b_ "text".

Lemma recognize_exact_witness :
  recognize example_front = Some (mkRegion 0 38 38 5) /\
  (recognize (b_ "---" ++ [LF] ++ b_ "text") = Some (mkRegion 0 8 8 2) ->
   exists opener, contents (without_bom (b_ "---" ++ [LF] ++ b_ "text")) !! O = Some opener).
Proof.
  split; [by vm_compute|]. intros H. apply recognize_exact in H as (opener & closers & k & closer & H & _); [|by vm_compute].
  by exists opener.
Defined.

Example publication_read :
  declared_publication Adapter.Markdown example_front = mkPublication (Some (b_ "/a")) None [b_ "../old"] false.
Proof. by vm_compute. Qed.

(** ** A quoted scalar is read back *)

Lemma utf8_valid_app a b : utf8_valid a = true -> utf8_valid (a ++ b) = utf8_valid b.
Proof.
  remember (length a) as n eqn:En. revert a En. induction (lt_wf n) as [n _ IH]. intros a ->.
  assert (forall a', (length a' < length a)%nat -> utf8_valid a' = true -> utf8_valid (a' ++ b) = utf8_valid b) as IH'
    by (intros; by eapply IH).
  clear IH. destruct a as [|x a]; [done|]. cbn [utf8_valid app]. destruct (is_ascii x); [apply IH'; cbn; lia|].
  destruct a as [|y a]; [done|]. cbn [app]. destruct (in_range 194 223 x).
  { intros [-> H]%andb_prop. apply IH'; [cbn; lia|done]. }
  destruct a as [|z a]; [done|]. cbn [app].
  repeat match goal with
  | |- (if ?c then _ else _) = true -> _ => destruct c
  end; try (intros [[-> ->]%andb_prop H]%andb_prop; apply IH'; [cbn; lia|done]).
  destruct a as [|w a]; [done|]. cbn [app].
  repeat match goal with
  | |- (if ?c then _ else _) = true -> _ => destruct c
  end; try done; intros [[[-> ->]%andb_prop ->]%andb_prop H]%andb_prop; apply IH'; cbn; (lia || done).
Qed.

Lemma strip_one_none patterns text :
  Forall (fun pattern => strip_prefix pattern text = None) patterns -> strip_one patterns text = None.
Proof. induction 1 as [|pattern patterns Hp _ IH]; [done|]. cbn. by rewrite Hp. Qed.

Lemma trim_start_stops patterns text : strip_one patterns text = None -> trim_start_of patterns text = text.
Proof. unfold trim_start_of. intros H. destruct text; [done|]. cbn [length trim_start_fuel]. by rewrite H. Qed.

Lemma not_blank b text : b <> " "%byte -> b <> x09 -> strip_one BLANKS (b :: text) = None.
Proof. intros H1 H2. apply strip_one_none. repeat constructor; by apply strip_prefix_head. Qed.

(** a value that a scalar can spell, written after its key between quotes of
    either kind, is read back as it is. *)
Theorem scalar_quoted key quote value :
  quote = x22 \/ quote = x27 -> utf8_valid value = true -> spelled_value value = Some value ->
  scalar (key ++ b_ " " ++ [quote] ++ value ++ [quote]) key = Some value.
Proof.
  intros Hq Hu Hs. unfold scalar. rewrite (proj2 (strip_prefix_Some key _ (b_ " " ++ [quote] ++ value ++ [quote])) eq_refl).
  cbn [mbind option_bind]. unfold from_utf8.
  assert (utf8_valid (b_ " " ++ [quote] ++ value ++ [quote]) = true) as ->.
  { assert (utf8_valid [quote] = true) as H1 by by destruct Hq as [->| ->].
    rewrite !utf8_valid_app; by destruct Hq as [->| ->]. }
  cbn [mbind option_bind].
  assert (trim_of BLANKS (b_ " " ++ [quote] ++ value ++ [quote]) = [quote] ++ value ++ [quote]) as ->.
  { unfold trim_of. assert (trim_start_of BLANKS (b_ " " ++ [quote] ++ value ++ [quote]) = [quote] ++ value ++ [quote]) as ->.
    { change (trim_start_of BLANKS (quote :: value ++ [quote]) = quote :: value ++ [quote]).
      apply trim_start_stops, not_blank; by destruct Hq as [->| ->]. }
    unfold trim_end_of. rewrite !rev_app_distr. cbn [rev app]. rewrite trim_start_stops.
    - cbn [rev]. rewrite rev_app_distr, rev_involutive. by cbn.
    - apply (not_blank quote); by destruct Hq as [->| ->]. }
  assert (forall q, q <> quote -> quoted_scalar q ([quote] ++ value ++ [quote]) = None) as Hother.
  { intros q Hne. unfold quoted_scalar. change ([quote] ++ value ++ [quote]) with (quote :: value ++ [quote]).
    by rewrite strip_prefix_head. }
  assert (quoted_scalar quote ([quote] ++ value ++ [quote]) = Some (Some value)) as Hself.
  { unfold quoted_scalar. rewrite (proj2 (strip_prefix_Some [quote] _ (value ++ [quote])) eq_refl).
    rewrite (proj2 (strip_suffix_Some [quote] _ value) eq_refl). by rewrite Hs. }
  destruct Hq as [->| ->]; [by rewrite Hself|]. by rewrite Hother, Hself.
Qed.

Lemma scalar_quoted_witness : scalar (b_ "slug:" ++ b_ " " ++ [x27] ++ b_ "a # b" ++ [x27]) (b_ "slug:") = Some (b_ "a # b").
Proof.
  apply scalar_quoted; [by right|done..].
Defined.
