(* ===== verification/ScanRoute.v ===== *)
(** The routers a repository's pages may be served by, and the source paths they
    serve a destination from: the tables and the path functions of
    [crates/amiss-scan/src/route.rs], and [scheme] of
    [crates/amiss-wire/src/uri.rs]. *)
From Stdlib Require Import Strings.Byte Strings.String Lia.
From stdpp Require Import base numbers gmap sets list.
From S2P Require Import Prelude Codec WireModel GitResources OrdMap Observation ScanPath ScanLines ScanLfs ScanDeclared ScanDocument ScanScalar.

(** ** Rules *)

Module Spelling.
Inductive t :=
  | Extensionless | OutputExtension | ReadmeIndex | AntoraResource | SiteAlias | ContentRoot | DocumentId
  | SourceRoot | DirectoryUrl | PageUrl | PageDirectory | BookRoute | BuiltPage | BuiltRoute.
#[global] Instance eq_dec : EqDecision t.
Proof. solve_decision. Defined.
End Spelling.

Record RouteRule := mkRouteRule { rr_name : bytes; rr_declared_by : list bytes; rr_serves : list Spelling.t }.
Definition serves (rule : RouteRule) (spelling : Spelling.t) : bool := bool_decide (spelling ∈ rr_serves rule).

Definition ANTORA : RouteRule := mkRouteRule (b_ "antora") [b_ "antora.yml"] [Spelling.AntoraResource].
Definition DOCUSAURUS : RouteRule :=
  mkRouteRule (b_ "docusaurus")
    (map b_ ["docusaurus.config.ts"; "docusaurus.config.mts"; "docusaurus.config.cts";
             "docusaurus.config.js"; "docusaurus.config.mjs"; "docusaurus.config.cjs"]%string)
    [Spelling.SiteAlias; Spelling.ContentRoot; Spelling.DocumentId].
Definition MKDOCS : RouteRule :=
  mkRouteRule (b_ "mkdocs") (map b_ ["mkdocs.yml"; "mkdocs.yaml"; "zensical.toml"]%string) [Spelling.DirectoryUrl].
Definition SPHINX : RouteRule := mkRouteRule (b_ "sphinx") [b_ "conf.py"] [Spelling.SourceRoot].
Definition MDBOOK_PAGES : RouteRule :=
  mkRouteRule (b_ "mdbook-pages") [b_ "book.toml"] [Spelling.BookRoute; Spelling.BuiltPage].
Definition ZOLA : RouteRule := mkRouteRule (b_ "zola") [b_ "config.toml"] [Spelling.ContentRoot].
Definition ASTRO : RouteRule :=
  mkRouteRule (b_ "astro")
    (map b_ ["astro.config.ts"; "astro.config.mts"; "astro.config.js"; "astro.config.mjs"; "astro.config.cjs"]%string)
    [Spelling.BuiltRoute].
Definition NEXTJS_APP : RouteRule :=
  mkRouteRule (b_ "nextjs-app")
    (map b_ ["next.config.js"; "next.config.mjs"; "next.config.ts"; "next.config.cjs"; "next.config.mts"]%string)
    [Spelling.PageDirectory].
Definition APP_PAGES : list bytes := [b_ "page.mdx"; b_ "page.md"].
Definition ELEVENTY : RouteRule :=
  mkRouteRule (b_ "eleventy")
    (map b_ ["eleventy.config.ts"; "eleventy.config.js"; "eleventy.config.mjs"; "eleventy.config.cjs"; ".eleventy.js"]%string)
    [Spelling.BuiltRoute].
Definition HUGO : RouteRule :=
  mkRouteRule (b_ "hugo")
    (map b_ ["hugo.toml"; "hugo.yaml"; "hugo.json"; "config.toml"; "config.yaml"; "config.json";
             "config/_default/hugo.toml"; "config/_default/hugo.yaml"; "config/_default/hugo.json";
             "config/_default/config.toml"; "config/_default/config.yaml"; "config/_default/config.json"]%string)
    [Spelling.BuiltRoute].
Definition SHARED_CONFIGS : list bytes := map b_ ["config.toml"; "config.yaml"; "config.json"]%string.
Definition JEKYLL : RouteRule := mkRouteRule (b_ "jekyll") [b_ "_config.yml"] [Spelling.BuiltRoute].
Definition DIRECTORY_PAGES : RouteRule := mkRouteRule (b_ "directory-pages") [] [Spelling.PageUrl].

Definition ROUTERS : list RouteRule :=
  [mkRouteRule (b_ "mdbook") [] [Spelling.OutputExtension; Spelling.ReadmeIndex];
   mkRouteRule (b_ "vitepress") [] [Spelling.Extensionless; Spelling.OutputExtension];
   mkRouteRule (b_ "vitepress-readme") [] [Spelling.Extensionless; Spelling.OutputExtension; Spelling.ReadmeIndex];
   ANTORA; DOCUSAURUS; MKDOCS; SPHINX; MDBOOK_PAGES; ZOLA; ASTRO; NEXTJS_APP; ELEVENTY; HUGO; DIRECTORY_PAGES; JEKYLL].

Definition DECLARABLE : list Spelling.t :=
  [Spelling.SiteAlias; Spelling.ContentRoot; Spelling.DocumentId; Spelling.SourceRoot; Spelling.DirectoryUrl;
   Spelling.PageUrl; Spelling.PageDirectory].
Definition declarable (rule : RouteRule) : bool :=
  forallb (fun spelling => bool_decide (spelling ∈ DECLARABLE)) (rr_serves rule).

Definition ANTORA_FAMILIES : list (bytes * bytes) :=
  [(b_ "page", b_ "pages"); (b_ "partial", b_ "partials"); (b_ "example", b_ "examples");
   (b_ "attachment", b_ "attachments"); (b_ "image", b_ "images")].
Definition DOCUSAURUS_CONTENT_ROOTS : list (list bytes) :=
  [[b_ "docs"]; [b_ "blog"]; [b_ "src"; b_ "pages"]; [b_ "versioned_docs"; b_ "*"]].
Definition DEFAULT_SOURCE_SUFFIX : bytes := b_ ".rst".
Definition SITE_ALIAS : bytes := b_ "@site/".
Definition BUNDLE_INDEX : list bytes := [b_ "_index.md"; b_ "index.md"].

(** ** Destinations no tree answers *)

Definition generator_alias (path_part : bytes) (construct : option SourceConstruct.t) : bool :=
  starts_with SITE_ALIAS path_part
  || bool_decide (construct = Some SourceConstruct.MarkdownLiquidLink)
  || bool_decide (construct = Some SourceConstruct.MarkdownHugoRef).

Definition BUNDLER_REQUESTS : list (bytes * list bytes) := [(b_ "webpack", [b_ "!"; b_ "-!"])].
Definition bundler_request (path_part : bytes) : bool :=
  existsb (fun opening => starts_with opening path_part) (concat (map snd BUNDLER_REQUESTS)).

Definition TEMPLATE_EXPRESSIONS : list (bytes * bytes) := [(b_ "{{", b_ "}}"); (b_ "{%", b_ "%}")].
Definition template_expression (semantic : bytes) : bool :=
  existsb (fun '(open, _) => contains open semantic) TEMPLATE_EXPRESSIONS.

(** [scheme]: the loop over the bytes after the first. *)
Fixpoint scheme_loop (rest : bytes) (length : usize) : option usize :=
  match rest with
  | [] => None
  | byte :: rest =>
      if beqb byte ":" then Some length
      else if is_ascii_alphanumeric byte || beqb byte "+" || beqb byte "." || beqb byte "-"
      then scheme_loop rest (sat_add length 1)
      else None
  end.
Definition scheme (p : bytes) : option bytes :=
  match p with
  | [] => None
  | first :: rest =>
      if negb (is_ascii_alphabetic first) then None
      else length ← scheme_loop rest 1; slice_to p length
  end.

(** ** Names and directories *)

Definition join (dir name : bytes) : bytes := if bytes_eqb dir [] then name else dir ++ b_ "/" ++ name.

(** [slice.rsplit(|byte| byte == b'/').next()]: there always is one. *)
Definition last_segment (raw : bytes) : bytes := default [] (last (split_byte "/" raw)).

Definition PAGE_SUFFIXES : list bytes := [b_ ".md"; b_ ".mdx"; b_ ".markdown"].

Definition output_extension (raw : bytes) : option bytes :=
  stem ← strip_suffix (b_ ".html") raw;
  if bytes_eqb stem [] then None else Some (stem ++ b_ ".md").

Definition extensionless (raw suffix : bytes) : option bytes :=
  let last := last_segment raw in
  if negb (bytes_eqb last []) && negb (ends_with (b_ ".html") last)
     && negb (existsb (fun held => ends_with held last) PAGE_SUFFIXES)
  then Some (raw ++ suffix)
  else None.

Definition readme_index (raw : bytes) : option bytes :=
  cut ← rposition (fun byte => beqb byte "/") raw;
  head ← slice_to raw (cut + 1);
  tail ← slice_from raw (sat_add cut 1);
  if bytes_eqb tail (b_ "index.md") then Some (head ++ b_ "README.md") else None.

(** [RepoPath::from_bytes]; a path is its bytes. *)
Definition path_from_bytes (raw : bytes) : option path := if Path.path_bytes_valid raw then Some raw else None.

(** The closure [push] of [spellings]. *)
Definition push_spelling (raw : bytes) (out : list (Spelling.t * path)) (row : Spelling.t * option bytes) :
    list (Spelling.t * path) :=
  match (bytes ← row.2; path_from_bytes bytes) with
  | None => out
  | Some p =>
      if negb (bytes_eqb p raw) && negb (existsb (fun held => bytes_eqb held.2 p) out) then out ++ [(row.1, p)] else out
  end.

(** The calls of [push], in order. *)
Definition spelling_rows (rule : RouteRule) (raw : bytes) : list (Spelling.t * option bytes) :=
  let source := output_extension raw in
  (if serves rule Spelling.OutputExtension then [(Spelling.OutputExtension, source)] else [])
  ++ (if serves rule Spelling.Extensionless
      then map (fun suffix => (Spelling.Extensionless, extensionless raw suffix)) PAGE_SUFFIXES else [])
  ++ (if serves rule Spelling.PageDirectory
      then map (fun page => (Spelling.PageDirectory, Some (join raw page))) APP_PAGES else [])
  ++ (if serves rule Spelling.ReadmeIndex
      then (Spelling.ReadmeIndex, readme_index raw)
           :: (if serves rule Spelling.OutputExtension then [(Spelling.ReadmeIndex, (source ← source; readme_index source))] else [])
      else []).

Definition spellings (rule : RouteRule) (destination : path) : list (Spelling.t * path) :=
  fold_left (push_spelling destination) (spelling_rows rule destination) [].

Definition push_candidate (out : list (Spelling.t * path)) (candidate : Spelling.t * path) : list (Spelling.t * path) :=
  if existsb (fun held => bytes_eqb held.2 candidate.2) out then out else out ++ [candidate].

Definition candidates (destination : path) : list (Spelling.t * path) :=
  fold_left (fun out rule => fold_left push_candidate (spellings rule destination) out) ROUTERS [].

Definition within (document project : bytes) : bool :=
  bytes_eqb project [] || match strip_prefix project document with Some rest => starts_with (b_ "/") rest | None => false end.

Definition under_base (base route : bytes) : option bytes :=
  rest ← strip_prefix base route;
  if bytes_eqb base [] then Some rest else strip_prefix (b_ "/") rest.

(** ** Pages *)

Definition page_route (document : bytes) (bundles : bool) : bytes :=
  let parent := directory document in
  let name := last_segment document in
  let stem :=
    match rposition (fun byte => beqb byte ".") name with
    | Some dot => if 0 <? dot then default [] (slice_to name dot) else name
    | None => name
    end in
  if bytes_eqb stem (b_ "index") || bytes_eqb stem (b_ "README") || (bundles && bytes_eqb stem (b_ "_index")) then parent
  else join parent stem.

(** [slice.join(&b'/')]. *)
Definition join_segments (segments : list bytes) : bytes := ScanLfs.join (b_ "/") segments.

Definition pattern_matches (pattern head : list bytes) : bool :=
  forallb (fun '(want, have) => bytes_eqb want (b_ "*") || bytes_eqb want have) (zip pattern head).

(** The closure of [find_map] in [plugin_path]. *)
Definition pattern_root (site : bytes) (segments pattern : list bytes) : option bytes :=
  head ← slice_to segments (len pattern);
  if (len pattern <? len segments) && pattern_matches pattern head then Some (join site (join_segments head)) else None.

(** [Iterator::find_map]. *)
Fixpoint find_map {A B} (f : A -> option B) (l : list A) : option B :=
  match l with
  | [] => None
  | x :: l => match f x with Some y => Some y | None => find_map f l end
  end.

Definition plugin_path (site document : bytes) : option bytes :=
  relative ← strip_prefix site document;
  relative ← (if bytes_eqb site [] then Some relative else strip_prefix (b_ "/") relative);
  let segments := split_byte "/" relative in
  find_map (pattern_root site segments) DOCUSAURUS_CONTENT_ROOTS.

Definition content_root (site document : bytes) : option bytes :=
  match plugin_path site document with
  | Some root => Some root
  | None => plugin_path (directory site) document
  end.

Definition translated_content (site document : bytes) : list bytes :=
  match (if bytes_eqb site [] then Some document else rest ← strip_prefix site document; strip_prefix (b_ "/") rest) with
  | None => []
  | Some relative =>
      match split_byte "/" relative with
      | i18n :: locale :: plugin :: next :: _ =>
          if negb (bytes_eqb i18n (b_ "i18n")) then []
          else
            let localized := join site (join_segments [b_ "i18n"; locale; plugin]) in
            let pair :=
              if bytes_eqb plugin (b_ "docusaurus-plugin-content-docs") && bytes_eqb next (b_ "current")
              then Some (join localized (b_ "current"), b_ "docs")
              else if bytes_eqb plugin (b_ "docusaurus-plugin-content-docs") && starts_with (b_ "version-") next
              then Some (join localized next, b_ "versioned_docs/" ++ next)
              else if bytes_eqb plugin (b_ "docusaurus-plugin-content-blog") then Some (localized, b_ "blog")
              else if bytes_eqb plugin (b_ "docusaurus-plugin-content-pages") then Some (localized, b_ "src/pages")
              else None in
            match pair with
            | Some (localized, default_) => [localized; join site default_]
            | None => []
            end
      | _ => []
      end
  end.

(** ** Document names *)

Definition docname_spelling (docname suffix : bytes) : bytes :=
  if ends_with suffix docname then docname else docname ++ suffix.

Definition rooted_docname (root absolute : bytes) (suffixes : list bytes) : list (bytes * bytes) :=
  if bytes_eqb absolute [] || starts_with (b_ "/") absolute then []
  else map (fun suffix => (root, docname_spelling absolute suffix)) suffixes.

Definition beside_document (document : path) (path_part : bytes) : option (bytes * bytes) :=
  let name := default path_part (strip_suffix (b_ "/") path_part) in
  if negb (bytes_eqb name []) && negb (starts_with (b_ "/") name) && negb (starts_with (b_ "@/") name)
     && is_none (scheme name)
  then Some (directory document, name)
  else None.

Definition docname_beside (document : path) (docname : bytes) (suffixes : list bytes) : list (bytes * bytes) :=
  if existsb (fun suffix => ends_with suffix docname) (suffixes ++ [DEFAULT_SOURCE_SUFFIX]) then []
  else
    match beside_document document docname with
    | None => []
    | Some (beside, relative) =>
        map (fun suffix => (beside, docname_spelling relative suffix)) suffixes ++ [(beside, relative)]
    end.

(** The loop of [ancestor_root]: [end_] shrinks with every turn. *)
Fixpoint ancestor_loop (fuel : nat) (document : bytes) (holds : bytes -> bool) (end_ : usize) : option bytes :=
  match fuel with
  | O => None
  | S fuel =>
      above ← slice_to document end_;
      let cut := rposition (fun byte => beqb byte "/") above in
      let dir := default [] (cut ← cut; slice_to document cut) in
      if holds dir then Some dir else cut ← cut; ancestor_loop fuel document holds cut
  end.
Definition ancestor_root (document : bytes) (holds : bytes -> bool) : option bytes :=
  ancestor_loop (S (length document)) document holds (len document).

(** ** Claims and declarations *)

Abbreviation path_map := (gmap bytes).

(** One turn of the loop of [sole_claims]. *)
Definition claim_route (state : path_map path * str_set) (claim : path * path) : path_map path * str_set :=
  let '(routes, claimed_twice) := state in
  let '(route, document) := claim in
  (<[route := document]> routes,
   match routes !! route with
   | Some held => if negb (bytes_eqb held document) then {[ route ]} ∪ claimed_twice else claimed_twice
   | None => claimed_twice
   end).
Definition sole_claims (claims : list (path * path)) : path_map path :=
  let '(routes, claimed_twice) := fold_left claim_route claims (∅, ∅) in
  filter (fun row => row.1 ∉ claimed_twice) routes.

Definition declaring_directory (p name : bytes) : option bytes :=
  above ← strip_suffix name p;
  if bytes_eqb above [] then Some above else strip_suffix (b_ "/") above.

Definition declares (rule : RouteRule) (p : path) : bool :=
  existsb (fun name => is_some (declaring_directory p name)) (rr_declared_by rule).

(** ** The last separator *)

Lemma last_slash dir rest :
  "/"%byte ∉ rest -> rposition (fun byte => beqb byte "/") (dir ++ b_ "/" ++ rest) = Some (len dir).
Proof.
  intros H. apply rposition_spec. exists dir, "/"%byte, rest. repeat split.
  apply Forall_forall. intros b Hb. destruct (beqb b "/") eqn:E; [|done].
  apply beqb_eq in E as ->. contradiction.
Qed.

Lemma slash_cases l :
  ("/"%byte ∉ l /\ rposition (fun byte => beqb byte "/") l = None)
  \/ exists dir rest, l = dir ++ b_ "/" ++ rest /\ "/"%byte ∉ rest /\ rposition (fun byte => beqb byte "/") l = Some (len dir).
Proof.
  destruct (decide ("/"%byte ∈ l)) as [Hin|Hin].
  - right. apply list_elem_of_split_r in Hin as (dir & rest & -> & Hrest). exists dir, rest.
    split; [done|]. split; [done|]. by apply (last_slash dir rest).
  - left. split; [done|]. apply rposition_None, Forall_forall. intros b Hb.
    destruct (beqb b "/") eqn:E; [|done]. apply beqb_eq in E as ->. contradiction.
Qed.

Lemma path_len p : Path.path_bytes_valid p = true -> p <> [] /\ len p <= 4096.
Proof.
  unfold Path.path_bytes_valid. destruct (bytes_eqb p []) eqn:E; [done|]. apply bytes_eqb_neq in E. cbn [orb].
  destruct (Z.gtb_spec (len p) 4096); [done|]. intros _. split; [done|lia].
Qed.

Lemma last_segment_split raw :
  exists dir, raw = dir ++ last_segment raw /\ "/"%byte ∉ last_segment raw /\ opens dir.
Proof.
  destruct (base_split raw) as (dir & base & E & Hraw & Hb & Hd). exists dir.
  unfold last_segment. rewrite E. cbn [default from_option id]. done.
Qed.

(** ** Candidates *)

(** What a router serves a destination from. *)
Inductive served : Spelling.t -> bytes -> bytes -> Prop :=
  | ServedOutput stem :
      stem <> [] -> served Spelling.OutputExtension (stem ++ b_ ".html") (stem ++ b_ ".md")
  | ServedElided destination suffix :
      suffix ∈ PAGE_SUFFIXES ->
      Forall (fun held => ends_with held destination = false) (b_ ".html" :: PAGE_SUFFIXES) ->
      served Spelling.Extensionless destination (destination ++ suffix)
  | ServedPage destination page :
      page ∈ APP_PAGES -> served Spelling.PageDirectory destination (destination ++ b_ "/" ++ page)
  | ServedReadme dir index :
      index ∈ [b_ "/index.md"; b_ "/index.html"] ->
      served Spelling.ReadmeIndex (dir ++ index) (dir ++ b_ "/README.md").

Lemma output_extension_spec raw p :
  output_extension raw = Some p <-> exists stem, stem <> [] /\ raw = stem ++ b_ ".html" /\ p = stem ++ b_ ".md".
Proof.
  unfold output_extension. destruct (strip_suffix (b_ ".html") raw) as [stem|] eqn:E; cbn [mbind option_bind].
  - apply strip_suffix_Some in E as ->. split.
    + destruct (bytes_eqb stem []) eqn:E; [done|]. intros [= <-]. exists stem. by apply bytes_eqb_neq in E.
    + intros (stem' & Hne & Heq & ->). apply app_inv_tail in Heq as ->. by rewrite (proj2 (bytes_eqb_neq _ _) Hne).
  - split; [done|]. intros (stem & _ & -> & _). by rewrite (proj2 (strip_suffix_Some _ _ stem) eq_refl) in E.
Qed.

Lemma readme_index_spec raw p :
  rust_slice raw ->
  readme_index raw = Some p <-> exists dir, raw = dir ++ b_ "/index.md" /\ p = dir ++ b_ "/README.md".
Proof.
  intros Hraw. unfold readme_index, rust_slice in *. destruct (slash_cases raw) as [[Hin ->]|(dir & rest & -> & Hrest & ->)].
  - split; [done|]. intros (dir & -> & _). exfalso. apply Hin, elem_of_app. right. by left.
  - rewrite !len_app in Hraw. change (len (b_ "/")) with 1 in Hraw. pose proof (len_nonneg dir). pose proof (len_nonneg rest).
    cbn [mbind option_bind]. rewrite sat_add_small by (unfold usize_max, u64_max, isize_max in *; lia).
    rewrite app_assoc.
    rewrite (proj2 (slice_to_spec ((dir ++ b_ "/") ++ rest) (len dir + 1) (dir ++ b_ "/"))), (proj2 (slice_from_spec _ _ rest));
      [|by exists (dir ++ b_ "/"); rewrite len_app|by exists rest; rewrite len_app].
    cbn [mbind option_bind]. split.
    + destruct (bytes_eqb rest (b_ "index.md")) eqn:E; [|done]. apply bytes_eqb_eq in E as ->. intros [= <-].
      exists dir. by rewrite <- !app_assoc.
    + intros (dir' & E & ->). replace (dir' ++ b_ "/index.md") with ((dir' ++ b_ "/") ++ b_ "index.md") in E by by rewrite <- app_assoc.
      assert (rest = b_ "index.md") as ->.
      { apply (f_equal (split_byte "/")) in E. rewrite <- !app_assoc in E.
        destruct (split_byte_app "/" dir rest) as (ps & q & qs & _ & E1 & ->).
        destruct (split_byte_app "/" dir' (b_ "index.md")) as (ps' & q' & qs' & _ & E2 & ->).
        change (b_ "/" ++ rest) with ("/"%byte :: rest) in E. change (b_ "/" ++ b_ "index.md") with ("/"%byte :: b_ "index.md") in E.
        rewrite E1, E2, split_byte_absent in E by done. apply (f_equal last) in E. rewrite !last_app_cons in E. by injection E. }
      apply app_inv_tail in E. apply app_inv_tail in E as ->. by rewrite <- app_assoc.
Qed.

(** A literal does not hold a byte. *)
Ltac absent := apply (bool_decide_unpack _); vm_compute; exact I.

Lemma existsb_ends held (l : list bytes) :
  existsb (fun suffix => ends_with suffix held) l = false <-> Forall (fun suffix => ends_with suffix held = false) l.
Proof. apply existsb_false. Qed.

Lemma extensionless_spec raw suffix p :
  last_segment raw <> [] ->
  extensionless raw suffix = Some p
  <-> Forall (fun held => ends_with held raw = false) (b_ ".html" :: PAGE_SUFFIXES) /\ p = raw ++ suffix.
Proof.
  intros Hlast. unfold extensionless.
  destruct (last_segment_split raw) as (dir & Hraw & Hb & Hd). set (base := last_segment raw) in *.
  assert (forall held, "/"%byte ∉ held -> ends_with held base = ends_with held raw) as Heq.
  { intros held Hh. rewrite Hraw. by rewrite ends_with_base. }
  rewrite (proj2 (bytes_eqb_neq _ _) Hlast). cbn [negb andb]. rewrite Forall_cons, <- existsb_ends.
  assert (existsb (fun held => ends_with held base) PAGE_SUFFIXES = existsb (fun held => ends_with held raw) PAGE_SUFFIXES) as ->.
  { cbn [existsb PAGE_SUFFIXES]. rewrite !Heq by absent. done. }
  rewrite Heq by absent.
  destruct (ends_with (b_ ".html") raw), (existsb _ PAGE_SUFFIXES); cbn; naive_solver.
Qed.

(** What holds of a list after pushing rows under a test of freshness. *)
Section Pushed.
Context {K : Type} (key : bytes -> Prop) {key_dec : forall p, Decision (key p)}.

Definition push_fresh (out : list (K * bytes)) (row : K * bytes) : list (K * bytes) :=
  if bool_decide (key row.2) && negb (existsb (fun held => bytes_eqb held.2 row.2) out) then out ++ [row] else out.

Lemma held_spec (out : list (K * bytes)) p : existsb (fun held => bytes_eqb held.2 p) out = true <-> p ∈ map snd out.
Proof.
  rewrite existsb_exists. setoid_rewrite <- list_elem_of_In. rewrite list_elem_of_fmap.
  setoid_rewrite bytes_eqb_eq. naive_solver.
Qed.

Lemma push_fresh_sound row rows out :
  row ∈ fold_left push_fresh rows out -> row ∈ out \/ (row ∈ rows /\ key row.2).
Proof.
  revert out. induction rows as [|r rows IH]; intros out H; [by left|]. cbn in H. apply IH in H as [H|[H Hk]]; [|by right; split; [right|]].
  unfold push_fresh in H. destruct (bool_decide (key r.2)) eqn:Ek; cbn [andb] in H; [|by left].
  destruct (existsb _ out); [by left|]. cbn in H. apply elem_of_app in H as [H|H%list_elem_of_singleton]; [by left|].
  subst r. apply bool_decide_eq_true in Ek. right. split; [left|done].
Qed.

Lemma push_fresh_complete row rows out :
  row ∈ rows \/ row.2 ∈ map snd out -> key row.2 -> row.2 ∈ map snd (fold_left push_fresh rows out).
Proof.
  revert out. induction rows as [|r rows IH]; intros out H Hk; [destruct H as [H|H]; [by apply elem_of_nil in H|done]|].
  cbn. apply IH; [|done]. destruct H as [[->|H]%elem_of_cons|H]; [|by left|].
  - right. unfold push_fresh. rewrite bool_decide_eq_true_2 by done. cbn [andb].
    destruct (existsb _ out) eqn:E; cbn [negb]; [by apply held_spec|]. rewrite map_app. apply elem_of_app. right. by left.
  - right. unfold push_fresh. destruct (_ && _); [|done]. rewrite map_app. apply elem_of_app. by left.
Qed.

Lemma push_fresh_distinct rows out : NoDup (map snd out) -> NoDup (map snd (fold_left push_fresh rows out)).
Proof.
  revert out. induction rows as [|r rows IH]; intros out H; [done|]. cbn. apply IH. unfold push_fresh.
  destruct (bool_decide _); [|done]. cbn [andb]. destruct (existsb _ out) eqn:E; [done|]. cbn [negb]. rewrite map_app.
  apply NoDup_app. split; [done|]. split; [|apply NoDup_singleton].
  intros p Hp Hr%list_elem_of_singleton. subst p. apply held_spec in Hp. congruence.
Qed.
End Pushed.

(** The rows of every rule that spell something. *)
Definition spelled_rows (rule : RouteRule) (raw : bytes) : list (Spelling.t * bytes) :=
  omap (fun row => pair row.1 <$> row.2) (spelling_rows rule raw).
Definition router_rows (raw : bytes) : list (Spelling.t * bytes) := concat (map (fun rule => spelled_rows rule raw) ROUTERS).

Definition source_key (raw p : bytes) : Prop := Path.path_bytes_valid p = true /\ p <> raw.
#[export] Instance source_key_dec raw p : Decision (source_key raw p).
Proof. unfold source_key. apply _. Defined.

Lemma source_key_bool raw p : bool_decide (source_key raw p) = Path.path_bytes_valid p && negb (bytes_eqb p raw).
Proof.
  apply eq_true_iff_eq. rewrite bool_decide_eq_true, andb_true_iff, negb_true_iff, bytes_eqb_neq. done.
Qed.

Lemma push_spelling_fresh raw out row :
  push_spelling raw out row = match row.2 with Some p => push_fresh (source_key raw) out (row.1, p) | None => out end.
Proof.
  unfold push_spelling, push_fresh, path_from_bytes. destruct row as [s [p|]]; [|done]. cbn [fst snd mbind option_bind].
  rewrite source_key_bool. by destruct (Path.path_bytes_valid p).
Qed.

Lemma spellings_fresh rule raw : spellings rule raw = fold_left (push_fresh (source_key raw)) (spelled_rows rule raw) [].
Proof.
  unfold spellings, spelled_rows. generalize (@nil (Spelling.t * path)). induction (spelling_rows rule raw) as [|row rows IH]; [done|].
  intros out. cbn [fold_left omap list_omap]. rewrite push_spelling_fresh. destruct row as [s [p|]]; cbn; apply IH.
Qed.

Definition any_key (p : bytes) : Prop := True.
#[export] Instance any_key_dec p : Decision (any_key p).
Proof. by left. Defined.

Lemma candidates_fresh raw :
  candidates raw = fold_left (push_fresh any_key) (concat (map (fun rule => spellings rule raw) ROUTERS)) [].
Proof.
  unfold candidates. generalize (@nil (Spelling.t * path)). induction ROUTERS as [|rule rules IH]; [done|].
  intros out. cbn [map concat fold_left]. rewrite fold_left_app, <- IH. f_equal.
  clear. revert out. induction (spellings rule raw) as [|row rows IH]; intros out; [done|]. cbn [fold_left]. rewrite <- IH. f_equal.
  unfold push_candidate, push_fresh. rewrite bool_decide_eq_true_2 by done. by destruct (existsb _ out).
Qed.

Lemma spelling_rows_spec rule raw s p :
  (s, Some p) ∈ spelling_rows rule raw <->
  (serves rule Spelling.OutputExtension = true /\ s = Spelling.OutputExtension /\ output_extension raw = Some p)
  \/ (serves rule Spelling.Extensionless = true /\ s = Spelling.Extensionless
      /\ exists suffix, suffix ∈ PAGE_SUFFIXES /\ extensionless raw suffix = Some p)
  \/ (serves rule Spelling.PageDirectory = true /\ s = Spelling.PageDirectory /\ exists page, page ∈ APP_PAGES /\ p = join raw page)
  \/ (serves rule Spelling.ReadmeIndex = true /\ s = Spelling.ReadmeIndex
      /\ (readme_index raw = Some p
          \/ serves rule Spelling.OutputExtension = true /\ exists source, output_extension raw = Some source /\ readme_index source = Some p)).
Proof.
  unfold spelling_rows. rewrite !elem_of_app.
  assert (forall (b : bool) (l : list (Spelling.t * option bytes)) x, x ∈ (if b then l else []) <-> b = true /\ x ∈ l) as Hif.
  { intros [] l x; split; [done|by intros []|by intros ?%elem_of_nil|by intros []]. }
  setoid_rewrite Hif. rewrite list_elem_of_singleton, elem_of_cons. setoid_rewrite Hif. rewrite list_elem_of_singleton, !list_elem_of_fmap.
  split.
  - intros [(Hs & [= -> E])|[(Hs & suffix & [= -> E] & Hin)|[(Hs & page & [= -> ->] & Hin)|(Hs & [[= -> E]|(Ho & [= -> E])])]]].
    + by left.
    + right. left. split; [done|]. split; [done|]. by exists suffix.
    + right. right. left. split; [done|]. split; [done|]. by exists page.
    + do 3 right. split; [done|]. split; [done|]. by left.
    + do 3 right. split; [done|]. split; [done|]. right. split; [done|].
      destruct (output_extension raw) as [source|]; [|done]. by exists source.
  - intros [(Hs & -> & E)|[(Hs & -> & suffix & Hin & E)|[(Hs & -> & page & Hin & ->)|(Hs & -> & [E|(Ho & source & E1 & E2)])]]].
    + left. split; [done|]. by rewrite E.
    + right. left. split; [done|]. exists suffix. by rewrite E.
    + right. right. left. split; [done|]. by exists page.
    + do 3 right. split; [done|]. left. by rewrite E.
    + do 3 right. split; [done|]. right. split; [done|]. rewrite E1. cbn [mbind option_bind]. by rewrite E2.
Qed.

Lemma router_rows_spec raw s p :
  (s, p) ∈ router_rows raw <-> exists rule, rule ∈ ROUTERS /\ (s, Some p) ∈ spelling_rows rule raw.
Proof.
  unfold router_rows. rewrite list_elem_of_In, in_concat. setoid_rewrite in_map_iff. setoid_rewrite <- list_elem_of_In.
  unfold spelled_rows. split.
  - intros (rows & (rule & <- & Hrule) & H). exists rule. split; [done|].
    apply list_elem_of_omap in H as ([s' [p'|]] & Hrow & E); [|done]. by injection E as -> ->.
  - intros (rule & Hrule & H). eexists. split; [by exists rule|]. apply list_elem_of_omap. by exists (s, Some p).
Qed.

Lemma router_serves spelling :
  spelling ∈ [Spelling.OutputExtension; Spelling.Extensionless; Spelling.PageDirectory] ->
  exists rule, rule ∈ ROUTERS /\ serves rule spelling = true.
Proof.
  intros H. assert (existsb (fun rule => serves rule spelling) ROUTERS = true) as (rule & Hin%list_elem_of_In & Hs)%existsb_exists;
    [|by exists rule]. repeat (apply elem_of_cons in H as [->|H]; [by vm_compute|]). by apply elem_of_nil in H.
Qed.
Lemma router_readme :
  exists rule, rule ∈ ROUTERS /\ serves rule Spelling.ReadmeIndex = true /\ serves rule Spelling.OutputExtension = true.
Proof. exists (mkRouteRule (b_ "mdbook") [] [Spelling.OutputExtension; Spelling.ReadmeIndex]). by repeat split; [left|..]. Qed.

Lemma rust_swap (stem a b : bytes) : len b <= len a -> rust_slice (stem ++ a) -> rust_slice (stem ++ b).
Proof. unfold rust_slice. rewrite !len_app. lia. Qed.

(** What the rules spell for a destination. *)
Lemma router_rows_served raw s p :
  raw <> [] -> last_segment raw <> [] -> rust_slice raw -> (s, p) ∈ router_rows raw <-> served s raw p.
Proof.
  intros Hraw Hlast Hlen. rewrite router_rows_spec. setoid_rewrite spelling_rows_spec.
  assert (forall page, join raw page = raw ++ b_ "/" ++ page) as Hjoin.
  { intros page. unfold join. by rewrite (proj2 (bytes_eqb_neq _ _) Hraw). }
  split.
  - intros (rule & _ & [(_ & -> & H)|[(_ & -> & suffix & Hs & H)|[(_ & -> & page & Hp & ->)|(_ & -> & [H|(_ & source & Hso & H)])]]]).
    + apply output_extension_spec in H as (stem & Hne & -> & ->). by constructor.
    + apply extensionless_spec in H as [H ->]; [|done]. by constructor.
    + rewrite Hjoin. by constructor.
    + apply readme_index_spec in H as (dir & -> & ->); [|done]. constructor. by left.
    + apply output_extension_spec in Hso as (stem & Hne & -> & ->).
      apply readme_index_spec in H as (dir & E & ->); [|by apply (rust_swap _ (b_ ".html")); [vm_compute|]].
      change (b_ "/index.md") with (b_ "/index" ++ b_ ".md") in E. rewrite app_assoc in E. apply app_inv_tail in E as ->.
      rewrite <- app_assoc. constructor. right. by left.
  - intros H. destruct H as [stem Hne|raw suffix Hs Hends|raw page Hp|dir index Hin].
    + destruct (router_serves Spelling.OutputExtension) as (rule & Hrule & Hs); [by left|]. exists rule. split; [done|]. left.
      split; [done|]. split; [done|]. apply output_extension_spec. by exists stem.
    + destruct (router_serves Spelling.Extensionless) as (rule & Hrule & Hr); [by right; left|]. exists rule. split; [done|]. right. left.
      split; [done|]. split; [done|]. exists suffix. split; [done|]. by apply extensionless_spec.
    + destruct (router_serves Spelling.PageDirectory) as (rule & Hrule & Hr); [by right; right; left|]. exists rule. split; [done|]. do 2 right. left.
      split; [done|]. split; [done|]. exists page. by rewrite Hjoin.
    + destruct router_readme as (rule & Hrule & Hr & Ho). exists rule. split; [done|]. do 3 right. split; [done|]. split; [done|].
      apply elem_of_cons in Hin as [->|[->|[]%elem_of_nil]%elem_of_cons].
      * left. apply readme_index_spec; [done|]. by exists dir.
      * right. split; [done|]. exists (dir ++ b_ "/index.md"). split.
        { apply output_extension_spec. exists (dir ++ b_ "/index"). rewrite <- !app_assoc. split; [by destruct dir|]. done. }
        apply readme_index_spec; [by apply (rust_swap _ (b_ "/index.html")); [vm_compute|]|]. by exists dir.
Qed.

(** *** No two spellings serve one path from one destination *)

Lemma not_ending held raw stem :
  Forall (fun held => ends_with held raw = false) (b_ ".html" :: PAGE_SUFFIXES) -> held ∈ b_ ".html" :: PAGE_SUFFIXES ->
  raw = stem ++ held -> False.
Proof.
  intros Hall Hin ->. rewrite Forall_forall in Hall. specialize (Hall held Hin).
  assert (ends_with held (stem ++ held) = true) by (apply raw_ends_with_spec; by exists stem). congruence.
Qed.

Lemma output_or_page stem page : stem ++ b_ ".md" = (stem ++ b_ ".html") ++ b_ "/" ++ page -> False.
Proof.
  intros E%(f_equal len). rewrite !len_app in E. pose proof (len_nonneg page).
  change (len (b_ ".md")) with 3 in E. change (len (b_ ".html")) with 5 in E. change (len (b_ "/")) with 1 in E. lia.
Qed.

Lemma output_or_readme stem dir index :
  index ∈ [b_ "/index.md"; b_ "/index.html"] -> stem ++ b_ ".html" = dir ++ index -> stem ++ b_ ".md" = dir ++ b_ "/README.md" -> False.
Proof.
  intros Hin E1 E2. change (b_ "/README.md") with (b_ "/README" ++ b_ ".md") in E2.
  rewrite app_assoc in E2. apply app_inv_tail in E2 as ->. apply (f_equal (@rev Byte.byte)) in E1.
  apply elem_of_cons in Hin as [->|[->|[]%elem_of_nil]%elem_of_cons]; rewrite !rev_app_distr in E1; by cbn in E1.
Qed.

Lemma elided_or_page raw suffix page : suffix ∈ PAGE_SUFFIXES -> raw ++ suffix = raw ++ b_ "/" ++ page -> False.
Proof.
  intros Hs E%app_inv_head. repeat (apply elem_of_cons in Hs as [->|Hs]; [by cbn in E|]). by apply elem_of_nil in Hs.
Qed.

Lemma elided_or_readme dir index :
  index ∈ [b_ "/index.md"; b_ "/index.html"] ->
  Forall (fun held => ends_with held (dir ++ index) = false) (b_ ".html" :: PAGE_SUFFIXES) -> False.
Proof.
  intros Hin Hall. apply elem_of_cons in Hin as [->|[->|[]%elem_of_nil]%elem_of_cons].
  - apply (not_ending (b_ ".md") _ (dir ++ b_ "/index") Hall); [by right; left|by rewrite <- app_assoc].
  - apply (not_ending (b_ ".html") _ (dir ++ b_ "/index") Hall); [by left|by rewrite <- app_assoc].
Qed.

Lemma page_or_readme dir index page :
  index ∈ [b_ "/index.md"; b_ "/index.html"] -> (dir ++ index) ++ b_ "/" ++ page = dir ++ b_ "/README.md" -> False.
Proof.
  intros Hi E. rewrite <- app_assoc in E. apply app_inv_head in E. cbn in E.
  apply elem_of_cons in Hi as [->|[->|[]%elem_of_nil]%elem_of_cons]; by cbn in E.
Qed.

Lemma served_rank s s' raw p :
  served s raw p -> served s' raw p ->
  match s, s' with
  | Spelling.OutputExtension, (Spelling.Extensionless | Spelling.PageDirectory | Spelling.ReadmeIndex)
  | Spelling.Extensionless, (Spelling.PageDirectory | Spelling.ReadmeIndex)
  | Spelling.PageDirectory, Spelling.ReadmeIndex => False
  | _, _ => True
  end.
Proof.
  intros H. destruct H as [stem Hne|raw suffix Hs Hends|raw page Hp|dir index Hin]; intros H'.
  - inversion H' as [|raw suffix Hs Hends E1 E2 E3|raw page Hp E1 E2 E3|dir index Hin E1 E2 E3]; subst; [done|..].
    + apply (not_ending (b_ ".html") (stem ++ b_ ".html") stem Hends); [by left|done].
    + by apply (output_or_page stem page); symmetry.
    + by apply (output_or_readme stem dir index); [|symmetry|symmetry].
  - inversion H' as [| |raw' page Hp E1 E2 E3|dir index Hin E1 E2 E3]; subst; try done.
    + by apply (elided_or_page raw suffix page); [|symmetry].
    + by apply (elided_or_readme dir index).
  - inversion H' as [| | |dir index Hin E1 E2 E3]; subst; try done. by apply (page_or_readme dir index page); [|symmetry].
  - by destruct s'.
Qed.

Lemma served_once s s' raw p : served s raw p -> served s' raw p -> s = s'.
Proof.
  intros H H'. pose proof (served_rank _ _ _ _ H H') as Hr. pose proof (served_rank _ _ _ _ H' H) as Hr'.
  destruct H, H'; done.
Qed.

(** A served path is another path. *)
Lemma served_other s raw p : served s raw p -> p <> raw.
Proof.
  intros H E. destruct H as [stem Hne|raw suffix Hs Hends|raw page Hp|dir index Hin].
  - by apply app_inv_head in E.
  - rewrite <- (app_nil_r raw) in E at 2. apply app_inv_head in E as ->.
    repeat (apply elem_of_cons in Hs as [Hs|Hs]; [done|]). by apply elem_of_nil in Hs.
  - rewrite <- (app_nil_r raw) in E at 2. by apply app_inv_head in E.
  - apply app_inv_head in E as <-. by repeat (apply elem_of_cons in Hin as [Hin|Hin]; [done|]); apply elem_of_nil in Hin.
Qed.

Lemma valid_last p : Path.path_bytes_valid p = true -> last_segment p <> [].
Proof.
  intros H E. destruct (last_segment_split p) as (dir & Hp & _ & Hd). rewrite E, app_nil_r in Hp. subst dir.
  destruct Hd as [->|[d ->]]; [done|]. unfold Path.path_bytes_valid in H. destruct (_ || _); [done|].
  replace (Path.scan Path.Empty (d ++ b_ "/")) with (s ← Path.scan Path.Empty d; Path.scan s (b_ "/")) in H.
  - destruct (Path.scan Path.Empty d) as [[]|]; done.
  - clear. generalize Path.Empty. induction d as [|b d IH]; intros s; [done|]. cbn [app Path.scan].
    destruct (Path.step s b); [apply IH|done].
Qed.

(** C37: the source paths tried for a destination that is not in the tree are exactly
    those some modelled router serves it from, each a valid path other than
    the destination, once, and under the one spelling that serves it. *)
Theorem candidates_exact destination :
  Path.path_bytes_valid destination = true ->
  NoDup (map snd (candidates destination)) /\
  forall spelling p,
    (spelling, p) ∈ candidates destination <-> served spelling destination p /\ Path.path_bytes_valid p = true.
Proof.
  intros Hvalid. destruct (path_len _ Hvalid) as [Hne Hlen]. pose proof (valid_last _ Hvalid) as Hlast.
  assert (rust_slice destination) as Hrust by (unfold rust_slice, isize_max; lia).
  assert (forall s p, (s, p) ∈ concat (map (fun rule => spellings rule destination) ROUTERS) ->
            served s destination p /\ Path.path_bytes_valid p = true) as Hsound.
  { intros s p. rewrite list_elem_of_In, in_concat. setoid_rewrite in_map_iff. setoid_rewrite <- list_elem_of_In.
    intros (rows & (rule & <- & Hrule) & H). rewrite spellings_fresh in H.
    apply push_fresh_sound in H as [H|[H [Hv _]]]; [by apply elem_of_nil in H|]. split; [|done].
    apply router_rows_served; [done..|]. unfold router_rows. rewrite list_elem_of_In, in_concat.
    exists (spelled_rows rule destination). rewrite in_map_iff, <- list_elem_of_In. split; [|done]. exists rule.
    by rewrite <- list_elem_of_In. }
  rewrite candidates_fresh. split; [apply push_fresh_distinct, NoDup_nil_2|]. intros s p. split.
  - intros [H|[H _]]%push_fresh_sound; [by apply elem_of_nil in H|]. by apply Hsound.
  - intros [Hs Hv]. pose proof Hs as Hrow. apply router_rows_served in Hrow; [|done..].
    assert (p ∈ map snd (fold_left (push_fresh any_key) (concat (map (fun rule => spellings rule destination) ROUTERS)) [])) as Hin.
    { unfold router_rows in Hrow. rewrite list_elem_of_In, in_concat in Hrow. destruct Hrow as (rows & Hrows & Hrow).
      apply in_map_iff in Hrows as (rule & <- & Hrule). rewrite <- list_elem_of_In in Hrow.
      assert (p ∈ map snd (spellings rule destination)) as Hp.
      { rewrite spellings_fresh. apply (push_fresh_complete (source_key destination) (s, p)); [by left|].
        split; [done|by eapply served_other]. }
      apply list_elem_of_fmap in Hp as ([s' p'] & -> & Hp). apply (push_fresh_complete any_key (s', p')); [|done]. left.
      rewrite list_elem_of_In, in_concat. exists (spellings rule destination). rewrite in_map_iff, <- list_elem_of_In.
      split; [by exists rule|done]. }
    apply list_elem_of_fmap in Hin as ([s' p'] & -> & Hin). cbn [snd] in *.
    pose proof Hin as Hin'. apply push_fresh_sound in Hin' as [Hin'|[Hin' _]]; [by apply elem_of_nil in Hin'|].
    apply Hsound in Hin' as [Hs' _]. by rewrite (served_once _ _ _ _ Hs Hs').
Qed.

Lemma candidates_exact_witness :
  Path.path_bytes_valid (b_ "docs/index.html") = true /\
  candidates (b_ "docs/index.html")
  = [(Spelling.OutputExtension, b_ "docs/index.md"); (Spelling.ReadmeIndex, b_ "docs/README.md");
     (Spelling.PageDirectory, b_ "docs/index.html/page.mdx"); (Spelling.PageDirectory, b_ "docs/index.html/page.md")] /\
  NoDup (map snd (candidates (b_ "docs/index.html"))).
Proof. split; [done|]. split; [by vm_compute|]. apply (candidates_exact (b_ "docs/index.html")). done. Defined.

(** ** The nearest directory above a document *)

(** [dir] is the root or holds [document]. *)
Definition above (dir document : bytes) : Prop := dir = [] \/ exists rest, document = dir ++ b_ "/" ++ rest.

Lemma above_root document dir : "/"%byte ∉ document -> above dir document <-> dir = [].
Proof.
  intros H. unfold above. split; [|by left]. intros [->|[rest ->]]; [done|].
  exfalso. apply H, elem_of_app. right. by left.
Qed.

Lemma above_parent parent name dir :
  "/"%byte ∉ name -> above dir (parent ++ b_ "/" ++ name) <-> dir = parent \/ above dir parent.
Proof.
  intros Hname. unfold above. split.
  - intros [->|[rest E]]; [by right; left|]. symmetry in E. apply app_eq_inv in E as [(k & -> & E)|(k & -> & E)].
    + destruct k as [|b k]; [by left; rewrite app_nil_r|]. injection E as <- E. exfalso. apply Hname.
      rewrite E. apply elem_of_app. right. by left.
    + destruct k as [|b k]; [by left; rewrite app_nil_r|]. injection E as <- E. right. right. by exists k.
  - intros [->|[->|[rest ->]]]; [by right; exists name|by left|]. right. exists (rest ++ b_ "/" ++ name). by rewrite <- !app_assoc.
Qed.

(** [dir] is the longest directory above [document] the test holds for. *)
Definition nearest_above (holds : bytes -> bool) (document dir : bytes) : Prop :=
  holds dir = true /\ above dir document /\ forall other, above other document -> len dir < len other -> holds other = false.

Lemma above_len dir document : above dir document -> len dir <= len document.
Proof. intros [->|[rest ->]]; [apply len_nonneg|]. rewrite !len_app. pose proof (len_nonneg rest). change (len (b_ "/")) with 1. lia. Qed.

Lemma ancestor_loop_spec holds fuel document pre post dir :
  document = pre ++ post -> (length pre < fuel)%nat ->
  ancestor_loop fuel document holds (len pre) = Some dir <-> nearest_above holds pre dir.
Proof.
  revert pre post. induction fuel as [|fuel IH]; intros pre post -> Hf; [lia|]. cbn [ancestor_loop].
  rewrite (proj2 (slice_to_spec (pre ++ post) (len pre) pre)) by by exists post. cbn [mbind option_bind].
  unfold nearest_above. destruct (slash_cases pre) as [[Hin ->]|(parent & name & -> & Hname & ->)]; cbn [mbind option_bind default from_option id].
  - destruct (holds []) eqn:Eh.
    + split; [|intros (_ & H%above_root & _); [by subst|done]]. intros [= <-]. split; [done|]. split; [by left|].
      intros other Ho%above_root Hl; [|done]. subst other. lia.
    + split; [done|]. intros (Hd & H%above_root & _); [|done]. congruence.
  - rewrite (proj2 (slice_to_spec _ (len parent) parent)) by (exists ((b_ "/" ++ name) ++ post); by rewrite <- !app_assoc).
    cbn [from_option id]. setoid_rewrite (above_parent parent name); [|done..].
    destruct (holds parent) eqn:Eh.
    + split.
      * intros [= <-]. split; [done|]. split; [by left|]. intros other [->|Ho%above_len] Hl; lia.
      * intros (Hd & Ha & Hmax). destruct Ha as [->|Ha]; [done|]. pose proof (above_len _ _ Ha) as Hl.
        destruct (decide (len dir = len parent)) as [Heq|Hne].
        -- destruct Ha as [->|[rest ->]]; [|rewrite !len_app in Heq; change (len (b_ "/")) with 1 in Heq; pose proof (len_nonneg rest); lia].
           by destruct parent.
        -- specialize (Hmax parent (or_introl eq_refl) ltac:(lia)). congruence.
    + rewrite length_app in Hf. change (length (b_ "/" ++ name)) with (S (length name)) in Hf.
      rewrite (IH parent ((b_ "/" ++ name) ++ post)); [|by rewrite <- !app_assoc|lia]. unfold nearest_above. split.
      * intros (Hd & Ha & Hmax). split; [done|]. split; [by right|]. intros other [->|Ho] Hl; [done|by apply Hmax].
      * intros (Hd & [->|Ha] & Hmax); [congruence|]. split; [done|]. split; [done|]. intros other Ho. apply Hmax. by right.
Qed.

(** the directory found for a document is the nearest one above it that the
    test holds for, from its own directory to the repository root; there is
    none exactly when the test holds for none of them. *)
Theorem ancestor_root_exact holds document :
  (forall dir, ancestor_root document holds = Some dir <-> nearest_above holds document dir) /\
  (ancestor_root document holds = None <-> forall dir, above dir document -> holds dir = false).
Proof.
  assert (forall dir, ancestor_root document holds = Some dir <-> nearest_above holds document dir) as H.
  { intros dir. unfold ancestor_root. apply (ancestor_loop_spec _ _ _ document []); [by rewrite app_nil_r|lia]. }
  split; [done|]. split.
  - intros Hnone.
    assert (forall n dir, (length document - length dir < n)%nat -> above dir document -> holds dir = false) as Hall.
    { induction n as [|n IH]; intros dir Hn Ha; [lia|]. destruct (holds dir) eqn:Eh; [|done].
      exfalso. rewrite (proj2 (H dir)) in Hnone; [done|]. split; [done|]. split; [done|].
      intros other Ho Hl. apply IH; [|done]. apply above_len in Ho. unfold len in *. lia. }
    intros dir. apply (Hall (S (length document))). lia.
  - intros Hall. destruct (ancestor_root document holds) as [dir|] eqn:E; [|done]. destruct (proj1 (H dir) eq_refl) as (Hd & Ha & _).
    by rewrite Hall in Hd.
Qed.

(** ** Claims *)

Record claimed (l : list (path * path)) (routes : path_map path) (twice : str_set) : Prop := {
  cl_held route document : routes !! route = Some document -> (route, document) ∈ l;
  cl_unheld route document : routes !! route = None -> (route, document) ∉ l;
  cl_twice route : route ∈ twice -> exists d d', (route, d) ∈ l /\ (route, d') ∈ l /\ d <> d';
  cl_once route d d' : route ∉ twice -> (route, d) ∈ l -> (route, d') ∈ l -> d = d'
}.

Lemma claim_route_claimed l routes twice claim :
  claimed l routes twice -> claimed (l ++ [claim]) (claim_route (routes, twice) claim).1 (claim_route (routes, twice) claim).2.
Proof.
  intros [Hheld Hunheld Htwice Honce]. destruct claim as [route document]. cbn [claim_route fst snd].
  assert (forall r d, (r, d) ∈ l ++ [(route, document)] <-> (r, d) ∈ l \/ (r = route /\ d = document)) as Hin.
  { intros r d. rewrite elem_of_app, list_elem_of_singleton. naive_solver. }
  assert (forall held, routes !! route = Some held ->
      route ∉ (if negb (bytes_eqb held document) then {[route]} ∪ twice else twice) -> held = document) as Hsame.
  { intros held _. destruct (bytes_eqb held document) eqn:E; [by apply bytes_eqb_eq in E|]. cbn. set_solver. }
  constructor.
  - intros r d. rewrite Hin. destruct (decide (r = route)) as [->|Hne].
    + rewrite lookup_insert_eq. intros [= ->]. by right.
    + rewrite lookup_insert_ne by done. intros H. left. by apply Hheld.
  - intros r d. rewrite Hin. destruct (decide (r = route)) as [->|Hne]; [by rewrite lookup_insert_eq|].
    rewrite lookup_insert_ne by done. intros H [Hr|[-> _]]; [by apply (Hunheld r d)|done].
  - assert (forall r, r ∈ twice -> exists d d', (r, d) ∈ l ++ [(route, document)] /\ (r, d') ∈ l ++ [(route, document)] /\ d <> d') as Hold.
    { intros r (d & d' & H1 & H2 & H3)%Htwice. exists d, d'. rewrite !elem_of_app. auto. }
    intros r. destruct (routes !! route) as [held|] eqn:E; [|apply Hold].
    destruct (bytes_eqb held document) eqn:Eh; cbn [negb]; [apply Hold|]. apply bytes_eqb_neq in Eh.
    rewrite elem_of_union, elem_of_singleton. intros [->|Hr]; [|by apply Hold]. exists held, document. rewrite !Hin. auto.
  - intros r d d' Hr. rewrite !Hin. destruct (routes !! route) as [held|] eqn:E.
    + assert (r ∉ twice) as Hr' by (destruct (negb _); [set_solver|done]).
      assert (forall e, (route, e) ∈ l -> r = route -> e = document) as Hone.
      { intros e He ->. rewrite <- (Hsame held eq_refl Hr). by apply (Honce route); [| |apply Hheld]. }
      intros [H|[Hd ->]] [H'|[Hd' ->]]; [by apply (Honce r)|subst r; by apply Hone|subst r; symmetry; by apply Hone|done].
    + intros [H|[Hd ->]] [H'|[Hd' ->]]; [by apply (Honce r)| | |done]; exfalso; subst r; by apply (Hunheld route _ E) in H || by apply (Hunheld route _ E) in H'.
Qed.

(** a route names a document exactly when that document claims it and no
    other one does. *)
Theorem sole_claims_exact claims route document :
  sole_claims claims !! route = Some document
  <-> (route, document) ∈ claims /\ forall other, (route, other) ∈ claims -> other = document.
Proof.
  assert (forall l, claimed l (fold_left claim_route l (∅, ∅)).1 (fold_left claim_route l (∅, ∅)).2) as Hall.
  { intros l. induction l as [|claim l IH] using rev_ind; [by constructor; intros; set_solver|].
    rewrite fold_left_app. cbn [fold_left]. destruct (fold_left claim_route l (∅, ∅)) as [routes twice]. by apply claim_route_claimed. }
  specialize (Hall claims). unfold sole_claims. destruct (fold_left claim_route claims (∅, ∅)) as [routes twice]. cbn [fst snd] in Hall.
  destruct Hall as [Hheld Hunheld Htwice Honce]. rewrite map_lookup_filter_Some. cbn [fst]. split.
  - intros [H Hn]. split; [by apply Hheld|]. intros other Ho. by apply (Honce route); [| |apply Hheld].
  - intros [H Hone]. split.
    + destruct (routes !! route) as [held|] eqn:E; [|by apply (Hunheld route document) in E]. f_equal. by apply Hone, Hheld.
    + intros (d & d' & Hd & Hd' & Hne)%Htwice. apply Hne. by rewrite (Hone d), (Hone d').
Qed.

(** ** Schemes *)

Definition scheme_byte (b : Byte.byte) : bool := is_ascii_alphanumeric b || beqb b "+" || beqb b "." || beqb b "-".

Lemma scheme_loop_spec rest n length :
  0 <= n -> n + len rest <= usize_max ->
  scheme_loop rest n = Some length
  <-> exists name tail, rest = name ++ b_ ":" ++ tail /\ Forall (fun b => scheme_byte b = true) name /\ length = n + len name.
Proof.
  revert n. induction rest as [|b rest IH]; intros n Hn Hmax; cbn [scheme_loop].
  - split; [done|]. by intros ([|] & ? & ? & _).
  - rewrite len_cons in Hmax. pose proof (len_nonneg rest). destruct (beqb b ":") eqn:Eb.
    + apply beqb_eq in Eb as ->. split.
      * intros [= <-]. exists [], rest. rewrite len_nil. split; [done|]. split; [done|lia].
      * intros ([|c name] & tail & E & Hname & ->); [rewrite len_nil; f_equal; lia|]. injection E as <- _.
        apply Forall_cons in Hname as [Hc _]. by vm_compute in Hc.
    + change (is_ascii_alphanumeric b || beqb b "+" || beqb b "." || beqb b "-") with (scheme_byte b).
      destruct (scheme_byte b) eqn:Es.
      * rewrite sat_add_small by lia. rewrite IH by lia. split.
        -- intros (name & tail & -> & Hname & ->). exists (b :: name), tail. rewrite len_cons. split; [done|]. split; [by constructor|lia].
        -- intros ([|c name] & tail & [= -> ->] & Hname & ->); [by vm_compute in Eb|].
           exists name, tail. rewrite len_cons. apply Forall_cons in Hname as [_ Hname]. split; [done|]. split; [done|lia].
      * split; [done|]. intros ([|c name] & tail & [= -> ->] & Hname & ->); [by vm_compute in Eb|].
        apply Forall_cons in Hname as [Hc _]. congruence.
Qed.

(** a destination has a scheme exactly when RFC 3986 gives it one: a letter
    and then letters, digits, plus, dot and minus up to the first colon. *)
Theorem scheme_exact p name :
  rust_slice p ->
  scheme p = Some name
  <-> exists first rest tail, name = first :: rest /\ p = name ++ b_ ":" ++ tail
      /\ is_ascii_alphabetic first = true /\ Forall (fun b => scheme_byte b = true) rest.
Proof.
  intros Hp. unfold scheme. destruct p as [|first p]; [split; [done|by intros (? & ? & ? & -> & ? & _)]|].
  unfold rust_slice in Hp. rewrite len_cons in Hp. pose proof (len_nonneg p).
  assert (1 + len p <= usize_max) as Hmax by (unfold usize_max, u64_max, isize_max in *; lia).
  destruct (is_ascii_alphabetic first) eqn:Ea; cbn [negb].
  - destruct (scheme_loop p 1) as [length|] eqn:E; cbn [mbind option_bind].
    + apply scheme_loop_spec in E as (rest & tail & -> & Hrest & ->); [|lia|done].
      rewrite (proj2 (slice_to_spec _ _ (first :: rest))) by (exists (b_ ":" ++ tail); rewrite len_cons; split; [done|lia]).
      split; [intros [= <-]; by exists first, rest, tail|]. intros (first' & rest' & tail' & -> & E & _ & Hrest').
      injection E as <- E. f_equal. f_equal. change (b_ ":") with [":"%byte] in E.
      apply (app_first_unique (fun b => beqb b ":") rest ":"%byte tail rest' ":"%byte tail'); [| |done..];
        (eapply Forall_impl; [eassumption|]); intros b Hb; destruct (beqb b ":") eqn:Eb; [apply beqb_eq in Eb as ->; by vm_compute in Hb|done|apply beqb_eq in Eb as ->; by vm_compute in Hb|done].
    + split; [done|]. intros (first' & rest' & tail' & -> & E' & _ & Hrest'). injection E' as <- ->.
      rewrite (proj2 (scheme_loop_spec _ 1 (1 + len rest') ltac:(lia) Hmax)) in E; [done|]. by exists rest', tail'.
  - split; [done|]. intros (first' & rest' & tail' & -> & E' & Ha & _). injection E' as <- _. congruence.
Qed.

Lemma scheme_exact_witness :
  scheme (b_ "https://a") = Some (b_ "https") /\ scheme (b_ "docs/a:b") = None /\
  (scheme (b_ "mailto:x") = Some (b_ "mailto") -> exists tail, b_ "mailto:x" = b_ "mailto" ++ b_ ":" ++ tail).
Proof.
  split; [by vm_compute|]. split; [by vm_compute|]. intros H.
  apply (scheme_exact (b_ "mailto:x") (b_ "mailto")) in H as (? & ? & tail & _ & H & _); [by exists tail|by vm_compute].
Defined.
