(* ===== verification/RelPlan.v ===== *)
(** Relations between two repositories: [controller/src/relation_plan.rs],
    [relations.rs] (the registry) and [relations/schedule.rs].

    An array of two is a pair; an [Arc] is the value it shares. *)
From Stdlib Require Import Strings.Byte Strings.String Lia.
From stdpp Require Import base numbers sorting list.
From S2P Require Import Prelude Codec WireModel WireIdentity GitResources OrdMap Observation EvalModel Controls CtlModel CtlLedgerApi.

#[export] Instance KeyFormat_eq_dec : EqDecision KeyFormat.t.
Proof. solve_decision. Defined.
#[export] Instance ProjectionSource_eq_dec : EqDecision ProjectionSource.t.
Proof. solve_decision. Defined.
#[export] Instance ProjectionKind_eq_dec : EqDecision ProjectionKind.t.
Proof. solve_decision. Defined.

(** ** Plans *)

Record PlanScope := mkPlanScope { ps_provider : ProviderIdentity; ps_integration : OpaqueIdT; ps_repository : RepositoryIdentity.t }.
#[export] Instance PlanScope_eq_dec : EqDecision PlanScope.
Proof. solve_decision. Defined.

Record RelationLimits := mkRelationLimits {
  acquisition_objects : u64; acquisition_bytes : u64; projection_records : u64; projection_bytes : u64
}.
#[export] Instance RelationLimits_eq_dec : EqDecision RelationLimits.
Proof. solve_decision. Defined.

Record RegisteredSubject := mkRegisteredSubject {
  rs_role : bytes;
  rs_scope : PlanScope;
  rs_target : bytes;
  rs_object_format : ObjectFormat;
  rs_credential : OpaqueIdT;
  rs_source : ProjectionSource.t;
  rs_limits : RelationLimits
}.
#[export] Instance RegisteredSubject_eq_dec : EqDecision RegisteredSubject.
Proof. solve_decision. Defined.

Record RelationStatusDestination := mkRelationStatusDestination { sd_subject_role : bytes; sd_required_status_name : bytes }.
#[export] Instance RelationStatusDestination_eq_dec : EqDecision RelationStatusDestination.
Proof. solve_decision. Defined.

Record RegisteredRelation := mkRegisteredRelation {
  rr_identity : bytes;
  rr_context_digest : Digest.t;
  rr_projection : ProjectionKind.t;
  rr_subjects : RegisteredSubject * RegisteredSubject;
  rr_aggregate_limits : RelationLimits;
  rr_status_destinations : list RelationStatusDestination
}.
#[export] Instance RegisteredRelation_eq_dec : EqDecision RegisteredRelation.
Proof. solve_decision. Defined.

Record TriggeredRelation := mkTriggeredRelation { tr_plan : RegisteredRelation; tr_trigger_role : bytes }.
#[export] Instance TriggeredRelation_eq_dec : EqDecision TriggeredRelation.
Proof. solve_decision. Defined.

Module RelationRegistryError.
Inductive t :=
  | TooManyRelations | DuplicateRelation | DuplicateDestination | ReboundCredential | InvalidSubjects | InvalidLimits
  | InvalidProjection | InvalidDestination.
#[global] Instance eq_dec : EqDecision t.
Proof. solve_decision. Defined.
End RelationRegistryError.

(** The elements of an array of two. *)
Definition both {A} (pair : A * A) : list A := [pair.1; pair.2].
(** [sort_by] on an array of two. *)
Definition sort_both {A} (key : A -> bytes) (pair : A * A) : A * A :=
  match bytes_cmp (key pair.1) (key pair.2) with Gt => (pair.2, pair.1) | _ => pair end.

Definition limit_row_valid (row : u64 * u64 * u64) : bool :=
  let '(aggregate, left_, right_) := row in
  negb (left_ =? 0) && negb (right_ =? 0)
  && match checked_add left_ right_ with
     | Some total => (Z.max left_ right_ <=? aggregate) && (aggregate <=? total)
     | None => false
     end.

Definition relation_limits_valid (plan : RegisteredRelation) : bool :=
  let aggregate := rr_aggregate_limits plan in
  let left_ := rs_limits (rr_subjects plan).1 in
  let right_ := rs_limits (rr_subjects plan).2 in
  forallb limit_row_valid
    [(acquisition_objects aggregate, acquisition_objects left_, acquisition_objects right_);
     (acquisition_bytes aggregate, acquisition_bytes left_, acquisition_bytes right_);
     (projection_records aggregate, projection_records left_, projection_records right_);
     (projection_bytes aggregate, projection_bytes left_, projection_bytes right_)].

(** [windows(2).any(|pair| test(left, right))]. *)
Fixpoint any_window {A} (test : A -> A -> bool) (l : list A) : bool :=
  match l with
  | left_ :: ((right_ :: _) as rest) => test left_ right_ || any_window test rest
  | _ => false
  end.

Definition has_role {A} (role_of : A -> bytes) (role : bytes) (l : list A) : bool := existsb (fun x => bytes_eqb (role_of x) role) l.
(** [iter().find(|subject| subject.role == role)]. *)
Definition find_role {A} (role_of : A -> bytes) (role : bytes) (l : list A) : option A := List.find (fun x => bytes_eqb (role_of x) role) l.

Definition validate_relation (plan : RegisteredRelation) : res unit RelationRegistryError.t :=
  let '(left_, right_) := rr_subjects plan in
  let subjects := both (rr_subjects plan) in
  let destinations := rr_status_destinations plan in
  if bytes_eqb (rs_role left_) (rs_role right_)
     || bool_decide (ps_repository (rs_scope left_) = ps_repository (rs_scope right_))
  then Err RelationRegistryError.InvalidSubjects
  else if negb (relation_limits_valid plan) then Err RelationRegistryError.InvalidLimits
  else if existsb (fun subject => negb (is_ok (check_projection_source (rr_projection plan) (rs_source subject)))) subjects
  then Err RelationRegistryError.InvalidProjection
  else if negb ((1 <=? len destinations) && (len destinations <=? len subjects))
          || any_window (fun a b => bytes_eqb (sd_subject_role a) (sd_subject_role b)) destinations
          || existsb (fun d => negb (has_role rs_role (sd_subject_role d) subjects)) destinations
  then Err RelationRegistryError.InvalidDestination
  else Ok tt.

(** ** Transitions *)

Record RelationSubjectTransition := mkRelationSubjectTransition { rt_role : bytes; rt_commits : OidPair; rt_trees : OidPair }.
#[export] Instance RelationSubjectTransition_eq_dec : EqDecision RelationSubjectTransition.
Proof. solve_decision. Defined.

Record RelationTransition := mkRelationTransition {
  rt_relation : TriggeredRelation;
  rt_coordination : bytes;
  rt_subjects : RelationSubjectTransition * RelationSubjectTransition
}.
#[export] Instance RelationTransition_eq_dec : EqDecision RelationTransition.
Proof. solve_decision. Defined.

Module RelationAcquisitionError.
Inductive t := InvalidTransition | Unproven.
#[global] Instance eq_dec : EqDecision t.
Proof. solve_decision. Defined.
End RelationAcquisitionError.

Definition subject_formats (subject : RegisteredSubject) (transition : RelationSubjectTransition) : bool :=
  forallb (fun oid => bool_decide (Oid.object_format oid = rs_object_format subject))
    [op_base (rt_commits transition); op_candidate (rt_commits transition);
     op_base (rt_trees transition); op_candidate (rt_trees transition)].

Definition relation_transition (relation : TriggeredRelation) (coordination : bytes)
    (subjects : RelationSubjectTransition * RelationSubjectTransition) : res RelationTransition RelationAcquisitionError.t :=
  let subjects := sort_both rt_role subjects in
  let plan := tr_plan relation in
  let relation_valid :=
    is_ok (validate_relation plan) && has_role rs_role (tr_trigger_role relation) (both (rr_subjects plan)) in
  let subjects_valid :=
    negb (bytes_eqb (rt_role subjects.1) (rt_role subjects.2))
    && forallb (fun transition =>
           match find_role rs_role (rt_role transition) (both (rr_subjects plan)) with
           | Some subject => subject_formats subject transition
           | None => false
           end) (both subjects) in
  if negb relation_valid || negb subjects_valid then Err RelationAcquisitionError.InvalidTransition
  else Ok (mkRelationTransition relation coordination subjects).

(** ** Scheduling *)

Record PendingRelation := mkPendingRelation { pd_transition : RelationTransition; pd_fence : u64 }.
#[export] Instance PendingRelation_eq_dec : EqDecision PendingRelation.
Proof. solve_decision. Defined.

Module RelationAdmission.
Inductive t := Scheduled (pending : PendingRelation) | Duplicate (pending : PendingRelation).
End RelationAdmission.

Module RelationScheduleError.
Inductive t := InvalidTransition | BindingConflict | CoordinationConflict | GenerationExhausted.
#[global] Instance eq_dec : EqDecision t.
Proof. solve_decision. Defined.
End RelationScheduleError.

(** [map_err]. *)
Definition map_err {A E F} (f : E -> F) (r : res A E) : res A F :=
  match r with Ok a => Ok a | Err e => Err (f e) | OutOfFuel => OutOfFuel end.

Definition recheck (transition : RelationTransition) : res RelationTransition RelationAcquisitionError.t :=
  relation_transition (rt_relation transition) (rt_coordination transition) (rt_subjects transition).

Definition schedule_relation (previous : option PendingRelation) (transition : RelationTransition) :
    res RelationAdmission.t RelationScheduleError.t :=
  let? transition := map_err (fun _ => RelationScheduleError.InvalidTransition) (recheck transition) in
  match previous with
  | None =>
      let? fence := ok_or (lease_fence_new 1) RelationScheduleError.GenerationExhausted in
      Ok (RelationAdmission.Scheduled (mkPendingRelation transition fence))
  | Some previous =>
      let? checked_previous :=
        map_err (fun _ => RelationScheduleError.InvalidTransition) (recheck (pd_transition previous)) in
      if negb (bool_decide (tr_plan (rt_relation checked_previous) = tr_plan (rt_relation transition)))
      then Err RelationScheduleError.BindingConflict
      else if bytes_eqb (rt_coordination checked_previous) (rt_coordination transition) then
        if bool_decide (rt_subjects checked_previous = rt_subjects transition)
        then Ok (RelationAdmission.Duplicate previous)
        else Err RelationScheduleError.CoordinationConflict
      else
        let? fence :=
          ok_or (next ← checked_add (pd_fence previous) 1; lease_fence_new next) RelationScheduleError.GenerationExhausted in
        Ok (RelationAdmission.Scheduled (mkPendingRelation transition fence))
  end.

(** ** The registry *)

Definition RELATION_REGISTRY_LIMIT : usize := 1024.

(** [TriggerScope], as the key its derived order compares. *)
Definition TriggerScope : Type := ((bytes * bytes) * (bytes * (bytes * (bytes * bytes)))) * Z.
Definition object_format_index (f : ObjectFormat) : Z := match f with Sha1 => 0 | Sha256 => 1 end.
Definition trigger_scope (scope : PlanScope) (f : ObjectFormat) : TriggerScope :=
  (((pi_namespace (ps_provider scope), pi_instance (ps_provider scope)),
    (ps_integration scope,
      (RepositoryIdentity.host (ps_repository scope),
        (RepositoryIdentity.name (ps_repository scope), RepositoryIdentity.owner (ps_repository scope))))),
   object_format_index f).

Record RelationRegistry := mkRelationRegistry {
  rg_plans : bt bytes RegisteredRelation;
  rg_triggers : bt TriggerScope (list TriggeredRelation);
  rg_credentials : bt bytes (ProviderIdentity * OpaqueIdT)
}.

Definition sorted_plan (plan : RegisteredRelation) : RegisteredRelation :=
  mkRegisteredRelation (rr_identity plan) (rr_context_digest plan) (rr_projection plan)
    (sort_both rs_role (rr_subjects plan)) (rr_aggregate_limits plan)
    (stable_sort_by sd_subject_role (rr_status_destinations plan)).

(** The loop over [&mut plans]: the first invalid plan ends it. *)
Definition checked_plan (plan : RegisteredRelation) : res RegisteredRelation RelationRegistryError.t :=
  let plan := sorted_plan plan in
  let? _ := validate_relation plan in
  Ok plan.

Definition bind_credential (credentials : bt bytes (ProviderIdentity * OpaqueIdT)) (subject : RegisteredSubject) :
    res (bt bytes (ProviderIdentity * OpaqueIdT)) RelationRegistryError.t :=
  let scope := (ps_provider (rs_scope subject), ps_integration (rs_scope subject)) in
  if match bt_get (rs_credential subject) credentials with
     | Some registered => bool_decide (registered = scope)
     | None => true
     end
  then Ok (bt_insert (rs_credential subject) scope credentials)
  else Err RelationRegistryError.ReboundCredential.

Definition Destination : Type := ProviderIdentity * RepositoryIdentity.t * bytes.
(** [BTreeSet::insert] into the set of destinations. *)
Definition own_destination (plan : RegisteredRelation) (destinations : list Destination) (destination : RelationStatusDestination) :
    res (list Destination) RelationRegistryError.t :=
  let? subject :=
    ok_or (find_role rs_role (sd_subject_role destination) (both (rr_subjects plan))) RelationRegistryError.InvalidDestination in
  let owned := (ps_provider (rs_scope subject), ps_repository (rs_scope subject), sd_required_status_name destination) in
  if bool_decide (owned ∈ destinations) then Err RelationRegistryError.DuplicateDestination
  else Ok (owned :: destinations).

(** [for x in l { state = f(state, x)?; }]. *)
Fixpoint res_fold {S A E} (f : S -> A -> res S E) (l : list A) (state : S) : res S E :=
  match l with
  | [] => Ok state
  | x :: l => let? state := f state x in res_fold f l state
  end.

Definition bind_plan (state : bt bytes (ProviderIdentity * OpaqueIdT) * list Destination) (plan : RegisteredRelation) :
    res (bt bytes (ProviderIdentity * OpaqueIdT) * list Destination) RelationRegistryError.t :=
  let? credentials := res_fold bind_credential (both (rr_subjects plan)) state.1 in
  let? destinations := res_fold (own_destination plan) (rr_status_destinations plan) state.2 in
  Ok (credentials, destinations).

Definition push_trigger (triggers : bt TriggerScope (list TriggeredRelation)) (row : RegisteredRelation * RegisteredSubject) :
    bt TriggerScope (list TriggeredRelation) :=
  let '(plan, subject) := row in
  bt_upd (trigger_scope (rs_scope subject) (rs_object_format subject))
    (fun held => default [] held ++ [mkTriggeredRelation plan (rs_role subject)]) triggers.

Definition relation_registry (plans : list RegisteredRelation) : res RelationRegistry RelationRegistryError.t :=
  if RELATION_REGISTRY_LIMIT <? len plans then Err RelationRegistryError.TooManyRelations
  else
    let? plans := res_map checked_plan plans in
    let plans := stable_sort_by rr_identity plans in
    if any_window (fun a b => bytes_eqb (rr_identity a) (rr_identity b)) plans then Err RelationRegistryError.DuplicateRelation
    else
      let? bound := res_fold bind_plan plans ([], []) in
      let plans := bt_collect (map (fun plan => (rr_identity plan, plan)) plans) [] in
      let triggers :=
        fold_left push_trigger
          (flat_map (fun row => map (pair row.2) (both (rr_subjects row.2))) plans) [] in
      Ok (mkRelationRegistry plans triggers bound.1).

(** [RelationLookupError] has one value. *)
Definition relations_for_delivery (registry : RelationRegistry) (delivery : AuthenticatedDelivery) : res (list TriggeredRelation) unit :=
  if negb (bool_decide (di_provider (ad_identity delivery) = cl_provider (ad_change delivery)))
     || negb (bool_decide (pr_object_format (ad_provider_run delivery)
                           = Oid.object_format (pr_candidate_commit (ad_provider_run delivery))))
  then Err tt
  else
    let trigger :=
      trigger_scope
        (mkPlanScope (di_provider (ad_identity delivery)) (di_integration (ad_identity delivery)) (cl_repository (ad_change delivery)))
        (pr_object_format (ad_provider_run delivery)) in
    Ok (default [] (bt_get trigger (rg_triggers registry))).

(** ** What an accepted registry holds *)

Lemma res_map_Forall2 {A B X} (f : A -> res B X) l ys : res_map f l = Ok ys <-> Forall2 (fun x y => f x = Ok y) l ys.
Proof.
  revert ys. induction l as [|x l IH]; intros ys; cbn [res_map].
  - split; [intros [= <-]; constructor|]. by inversion 1.
  - destruct (f x) as [y|e|] eqn:E; [|split; [done|inversion 1; congruence]..].
    destruct (res_map f l) as [ys'|e|] eqn:El.
    + split; [intros [= <-]; constructor; [done|by apply IH]|]. inversion 1 as [|? y' ? ys2 Hy Hys]; subst.
      apply IH in Hys. congruence.
    + split; [done|]. inversion 1 as [|? y' ? ys2 Hy Hys]; subst. apply IH in Hys. congruence.
    + split; [done|]. inversion 1 as [|? y' ? ys2 Hy Hys]; subst. apply IH in Hys. congruence.
Qed.

Lemma any_window_strict {A} (key : A -> bytes) (l : list A) :
  StronglySorted (fun a b => kle (key a) (key b)) l -> any_window (fun a b => bytes_eqb (key a) (key b)) l = false ->
  StronglySorted (fun a b => klt (key a) (key b)) l.
Proof.
  induction 1 as [|x l Hs IH Hf]; intros Hw; [constructor|]. destruct l as [|y l]; [by repeat constructor|].
  cbn [any_window] in Hw. apply orb_false_iff in Hw as [Hxy Hw]. specialize (IH Hw). constructor; [done|].
  apply Forall_cons in Hf as [Hf _]. apply bytes_eqb_neq in Hxy.
  assert (klt (key x) (key y)) as Hlt by (apply kle_lt in Hf as [|]; done).
  constructor; [done|]. apply StronglySorted_inv in IH as [_ Hy]. eapply Forall_impl; [exact Hy|].
  intros z Hz. cbv beta in *. by trans (key y).
Qed.

Lemma collect_sorted {A} (key : A -> bytes) (l : list A) :
  StronglySorted (fun a b => klt (key a) (key b)) l -> bt_collect (map (fun x => (key x, x)) l) [] = map (fun x => (key x, x)) l.
Proof.
  intros Hs. assert (StrictOrder (fun a b : bytes * A => klt a.1 b.1)) as Ho.
  { split; [intros x Hx; cbv beta in Hx; by apply (irreflexivity klt) in Hx|intros x y z Hxy Hyz; cbv beta in *; by trans y.1]. }
  apply (strict_sorted_unique (fun a b : bytes * A => klt a.1 b.1)).
  - apply bt_wf_rows, bt_collect_wf, bt_nil_wf.
  - induction Hs as [|x l Hs IH Hf]; cbn; constructor; [done|]. by apply Forall_map.
  - intros [k x]. rewrite <- bt_get_Some by (apply bt_collect_wf, bt_nil_wf). apply bt_get_collect.
    intros k' a b Ha Hb. apply list_elem_of_fmap in Ha as (x1 & [= -> ->] & H1). apply list_elem_of_fmap in Hb as (x2 & [= E ->] & H2).
    assert (NoDup (map key l)) as Hn.
    { clear -Hs. induction Hs as [|x l Hs IH Hf]; cbn; constructor; [|done]. intros (y & E & Hy)%list_elem_of_fmap.
      rewrite Forall_forall in Hf. specialize (Hf y Hy). rewrite E in Hf. by apply (irreflexivity klt) in Hf. }
    by eapply (NoDup_fmap_unique key l).
Qed.

Lemma sort_both_perm {A} (key : A -> bytes) pair : both (sort_both key pair) ≡ₚ both pair.
Proof. unfold sort_both. destruct (bytes_cmp _ _); [done..|]. apply Permutation_swap. Qed.

Lemma trigger_scope_inj s s' f f' : trigger_scope s f = trigger_scope s' f' -> s = s' /\ f = f'.
Proof.
  destruct s as [[n i] g [h nm o]], s' as [[n' i'] g' [h' nm' o']]. unfold trigger_scope. cbn.
  intros [= -> -> -> -> -> -> E]. split; [done|]. by destruct f, f'.
Qed.

Lemma push_triggers rows m :
  fold_left push_trigger rows m
  = fold_left (fun m row => bt_upd (trigger_scope (rs_scope row.2) (rs_object_format row.2))
      (fun o => default [] o ++ [mkTriggeredRelation row.1 (rs_role row.2)]) m) rows m.
Proof. revert m. induction rows as [|[plan subject] rows IH]; intros m; [done|apply IH]. Qed.

(** An accepted registry: its plans in the order of their identities, grouped
    by what triggers them. *)
Record registered (plans : list RegisteredRelation) (registry : RelationRegistry) (sorted : list RegisteredRelation) : Prop := {
  re_perm : sorted ≡ₚ map sorted_plan plans;
  re_order : StronglySorted (fun a b => klt (rr_identity a) (rr_identity b)) sorted;
  re_valid plan : plan ∈ sorted -> validate_relation plan = Ok tt;
  re_plans : rg_plans registry = map (fun plan => (rr_identity plan, plan)) sorted;
  re_triggers : rg_triggers registry
    = bt_group (fun row => trigger_scope (rs_scope row.2) (rs_object_format row.2))
        (fun row => mkTriggeredRelation row.1 (rs_role row.2)) (flat_map (fun plan => map (pair plan) (both (rr_subjects plan))) sorted);
  re_bound : exists destinations, res_fold bind_plan sorted ([], []) = Ok (rg_credentials registry, destinations)
}.

Lemma registry_registered plans registry :
  relation_registry plans = Ok registry -> exists sorted, registered plans registry sorted.
Proof.
  unfold relation_registry. destruct (RELATION_REGISTRY_LIMIT <? len plans); [done|].
  destruct (res_map checked_plan plans) as [checked|e|] eqn:Ec; [|done|done].
  set (sorted := stable_sort_by rr_identity checked). destruct (any_window _ sorted) eqn:Ew; [done|].
  destruct (res_fold bind_plan sorted ([], [])) as [[credentials destinations]|e|] eqn:Eb; [|done|done].
  intros [= <-]. exists sorted. apply res_map_Forall2 in Ec.
  assert (forall plan, plan ∈ sorted -> validate_relation plan = Ok tt) as Hvalid.
  { intros plan Hin. unfold sorted in Hin. rewrite stable_sort_by_perm in Hin.
    apply list_elem_of_lookup in Hin as [i Hi]. eapply Forall2_lookup_r in Ec as (x & _ & Hx); [|done].
    unfold checked_plan in Hx. destruct (validate_relation (sorted_plan x)) as [[]| |] eqn:Ev; [|done|done]. by injection Hx as <-. }
  assert (checked = map sorted_plan plans) as ->.
  { clear -Ec. induction Ec as [|x y l ys Hy Hys IH]; [done|]. cbn. f_equal; [|done]. unfold checked_plan in Hy.
    destruct (validate_relation (sorted_plan x)) as [[]| |]; [by injection Hy|done|done]. }
  assert (StronglySorted (fun a b => klt (rr_identity a) (rr_identity b)) sorted) as Hs.
  { apply any_window_strict; [|done]. apply stable_sort_by_sorted, _. }
  constructor; cbn; [apply stable_sort_by_perm|done|done|by apply collect_sorted| |by exists destinations].
  rewrite collect_sorted by done. unfold bt_group. rewrite flat_map_concat_map, map_map. cbn [snd fst].
  rewrite <- flat_map_concat_map. generalize (flat_map (fun plan => map (pair plan) (both (rr_subjects plan))) sorted). intros rows.
  apply push_triggers.
Qed.

(** What a valid plan promises of its subjects and destinations. *)
Lemma valid_repositories plan :
  validate_relation plan = Ok tt ->
  rs_role (rr_subjects plan).1 <> rs_role (rr_subjects plan).2 /\
  ps_repository (rs_scope (rr_subjects plan).1) <> ps_repository (rs_scope (rr_subjects plan).2).
Proof.
  unfold validate_relation. destruct (rr_subjects plan) as [a b]. cbn [fst snd].
  destruct (bytes_eqb (rs_role a) (rs_role b)) eqn:Er; [done|]. apply bytes_eqb_neq in Er. cbn [orb].
  destruct (bool_decide _) eqn:Ed; [done|]. by apply bool_decide_eq_false in Ed.
Qed.

(** The trigger of a delivery, and whether its own facts agree. *)
Definition delivery_scope (delivery : AuthenticatedDelivery) : PlanScope :=
  mkPlanScope (di_provider (ad_identity delivery)) (di_integration (ad_identity delivery)) (cl_repository (ad_change delivery)).
Definition delivery_consistent (delivery : AuthenticatedDelivery) : Prop :=
  di_provider (ad_identity delivery) = cl_provider (ad_change delivery) /\
  pr_object_format (ad_provider_run delivery) = Oid.object_format (pr_candidate_commit (ad_provider_run delivery)).
(** [subject] is what a delivery is about. *)
Definition triggers_subject (delivery : AuthenticatedDelivery) (subject : RegisteredSubject) : Prop :=
  rs_scope subject = delivery_scope delivery /\ rs_object_format subject = pr_object_format (ad_provider_run delivery).
#[export] Instance triggers_subject_dec delivery subject : Decision (triggers_subject delivery subject).
Proof. unfold triggers_subject. apply _. Defined.

Lemma relations_for_delivery_rows plans registry sorted delivery l :
  registered plans registry sorted -> relations_for_delivery registry delivery = Ok l ->
  l = flat_map (fun plan => map (fun subject => mkTriggeredRelation plan (rs_role subject))
        (filter (triggers_subject delivery) (both (rr_subjects plan)))) sorted.
Proof.
  intros Hr. unfold relations_for_delivery. destruct (_ || _); [done|]. intros [= <-]. rewrite (re_triggers _ _ _ Hr).
  rewrite (bt_group_default _ _ _ _). clear Hr. induction sorted as [|plan sorted IH]; [done|].
  change (flat_map ?f (plan :: sorted)) with (f plan ++ flat_map f sorted). cbn beta. rewrite filter_app, map_app. f_equal.
  - clear. induction (both (rr_subjects plan)) as [|subject subjects IH]; [done|]. cbn [map]. rewrite !filter_cons. cbn [snd].
    destruct (decide (triggers_subject delivery subject)) as [[Hs Hf]|Hn].
    + rewrite decide_True by (by rewrite Hs, Hf). cbn [map fst snd]. by f_equal.
    + rewrite decide_False; [done|]. intros E. apply trigger_scope_inj in E. by apply Hn.
  - apply IH.
Qed.

Lemma valid_triggers delivery plan :
  validate_relation plan = Ok tt -> (length (filter (triggers_subject delivery) (both (rr_subjects plan))) <= 1)%nat.
Proof.
  intros Hv. destruct (valid_repositories plan Hv) as [_ Hne]. unfold both. rewrite !filter_cons, filter_nil.
  destruct (decide (triggers_subject delivery (rr_subjects plan).1)) as [[H1 _]|]; [|by case_decide; cbn; lia].
  rewrite decide_False; [cbn; lia|]. intros [H2 _]. by rewrite H1, H2 in Hne.
Qed.

(** C22: in an accepted registry a delivery whose facts agree selects exactly the relations with
    a subject it is about, once each and in the order of their identities,
    and names that subject the trigger; other deliveries are refused. *)
Theorem registry_routes plans registry delivery :
  relation_registry plans = Ok registry ->
  match relations_for_delivery registry delivery with
  | Ok selected =>
      delivery_consistent delivery /\
      StronglySorted (fun a b => klt (rr_identity (tr_plan a)) (rr_identity (tr_plan b))) selected /\
      forall t, t ∈ selected <->
        exists plan subject, plan ∈ plans /\ tr_plan t = sorted_plan plan /\ subject ∈ both (rr_subjects plan)
          /\ triggers_subject delivery subject /\ tr_trigger_role t = rs_role subject
  | Err _ => ~ delivery_consistent delivery
  | OutOfFuel => False
  end.
Proof.
  intros [sorted Hr]%registry_registered. destruct (relations_for_delivery registry delivery) as [l|[]|] eqn:E.
  - pose proof (relations_for_delivery_rows _ _ _ _ _ Hr E) as ->. split; [|split].
    + unfold relations_for_delivery in E. destruct (bool_decide _) eqn:E1 in E; [|done]. apply bool_decide_eq_true in E1.
      destruct (bool_decide _) eqn:E2 in E; [|done]. by apply bool_decide_eq_true in E2.
    + pose proof (re_order _ _ _ Hr) as Hs. pose proof (re_valid _ _ _ Hr) as Hv. clear E Hr.
      induction Hs as [|plan sorted Hs IH Hf]; [constructor|]. cbn [flat_map]. apply StronglySorted_app. split; [|split].
      * intros a b (sa & -> & _)%list_elem_of_fmap Hb. apply list_elem_of_In, in_flat_map in Hb as (plan' & Hin & Hb).
        apply list_elem_of_In, list_elem_of_fmap in Hb as (sb & -> & _). cbn. rewrite Forall_forall in Hf. apply Hf. by apply list_elem_of_In.
      * specialize (Hv plan (list_elem_of_here _ _)). apply (valid_triggers delivery) in Hv. revert Hv.
        destruct (filter _ (both _)) as [|s [|s' l]]; cbn; [repeat constructor..|lia].
      * apply IH. intros plan' Hin. apply Hv. by right.
    + intros t. rewrite list_elem_of_In, in_flat_map. setoid_rewrite <- list_elem_of_In. setoid_rewrite list_elem_of_fmap.
      setoid_rewrite list_elem_of_filter. setoid_rewrite (re_perm _ _ _ Hr). setoid_rewrite list_elem_of_fmap. split.
      * intros (p & (plan & -> & Hin) & subject & -> & Ht & Hs). exists plan, subject. cbn in Hs. by rewrite sort_both_perm in Hs.
      * intros (plan & subject & Hin & Hp & Hs & Ht & Hrole). exists (sorted_plan plan). split; [by exists plan|].
        exists subject. destruct t as [p role]. cbn in *. subst. split; [done|]. split; [done|]. by rewrite sort_both_perm.
  - unfold relations_for_delivery in E. intros [H1 H2]. by rewrite !bool_decide_eq_true_2 in E.
  - unfold relations_for_delivery in E. by destruct (_ || _).
Qed.

(** The status destinations of a plan, and the authority of its credentials. *)
Definition owns (plan : RegisteredRelation) (x : Destination) : Prop :=
  exists d subject, d ∈ rr_status_destinations plan /\ subject ∈ both (rr_subjects plan)
    /\ rs_role subject = sd_subject_role d
    /\ x = (ps_provider (rs_scope subject), ps_repository (rs_scope subject), sd_required_status_name d).
Definition authority (subject : RegisteredSubject) : ProviderIdentity * OpaqueIdT :=
  (ps_provider (rs_scope subject), ps_integration (rs_scope subject)).

Lemma find_role_subject plan subject role :
  validate_relation plan = Ok tt -> subject ∈ both (rr_subjects plan) -> rs_role subject = role ->
  find_role rs_role role (both (rr_subjects plan)) = Some subject.
Proof.
  intros Hv Hin <-. destruct (valid_repositories plan Hv) as [Hne _]. unfold both in *. cbn [find_role List.find].
  apply elem_of_cons in Hin as [->|Hin%list_elem_of_singleton].
  - cbn. by rewrite (proj2 (bytes_eqb_eq _ _) eq_refl).
  - subst subject. cbn. rewrite (proj2 (bytes_eqb_neq _ _) Hne). by rewrite (proj2 (bytes_eqb_eq _ _) eq_refl).
Qed.

Lemma own_destinations plan ds held held' :
  validate_relation plan = Ok tt -> res_fold (own_destination plan) ds held = Ok held' ->
  forall x, x ∈ held' <-> x ∈ held \/ exists d subject, d ∈ ds /\ subject ∈ both (rr_subjects plan)
    /\ rs_role subject = sd_subject_role d /\ x = (ps_provider (rs_scope subject), ps_repository (rs_scope subject), sd_required_status_name d).
Proof.
  intros Hv. revert held. induction ds as [|d ds IH]; intros held; cbn [res_fold].
  { intros [= <-] x. split; [by left|]. intros [|(d & s & Hd & _)]; [done|by apply elem_of_nil in Hd]. }
  unfold own_destination at 1. destruct (find_role _ _ _) as [subject|] eqn:Ef; [|done]. cbn [ok_or].
  destruct (bool_decide _); [done|]. intros H x. rewrite (IH _ H), elem_of_cons.
  assert (subject ∈ both (rr_subjects plan) /\ rs_role subject = sd_subject_role d) as [Hs Hr].
  { unfold find_role in Ef. apply find_some in Ef as [Hin Heq]. rewrite list_elem_of_In. by apply bytes_eqb_eq in Heq. }
  split.
  - intros [[->|Hx]|(d' & s & Hd & Hs' & Hr' & ->)]; [right; exists d, subject; by split; [left|]|by left|].
    right. exists d', s. by split; [right|].
  - intros [Hx|(d' & s & Hd & Hs' & Hr' & ->)]; [left; by right|]. apply elem_of_cons in Hd as [->|Hd].
    + left. left. rewrite (find_role_subject plan s) in Ef by done. by injection Ef as ->.
    + right. by exists d', s.
Qed.

Lemma own_destinations_fresh plan ds held held' :
  res_fold (own_destination plan) ds held = Ok held' ->
  forall d subject, d ∈ ds -> find_role rs_role (sd_subject_role d) (both (rr_subjects plan)) = Some subject ->
  (ps_provider (rs_scope subject), ps_repository (rs_scope subject), sd_required_status_name d) ∉ held.
Proof.
  revert held. induction ds as [|d ds IH]; intros held; cbn [res_fold]; [by intros _ d s ?%elem_of_nil|].
  unfold own_destination at 1. destruct (find_role _ _ _) as [subject|] eqn:Ef; [|done]. cbn [ok_or].
  case_bool_decide as Hd; [done|]. intros H d' s [->|Hin]%elem_of_cons Hs.
  - rewrite Ef in Hs. by injection Hs as <-.
  - intros Hx. apply (IH _ H d' s Hin Hs). by right.
Qed.

Lemma bind_credentials subjects credentials credentials' :
  bt_wf credentials -> res_fold bind_credential subjects credentials = Ok credentials' ->
  bt_wf credentials' /\ (forall k v, bt_get k credentials = Some v -> bt_get k credentials' = Some v)
  /\ forall subject, subject ∈ subjects -> bt_get (rs_credential subject) credentials' = Some (authority subject).
Proof.
  revert credentials. induction subjects as [|s subjects IH]; intros credentials Hwf; cbn [res_fold].
  { intros [= <-]. split; [done|]. split; [done|]. by intros ? ?%elem_of_nil. }
  unfold bind_credential at 1. destruct (match bt_get _ _ with Some _ => _ | None => _ end) eqn:Eg; [|done].
  intros (Hwf' & Hkeep & Hall)%IH; [|by apply bt_insert_wf]. split; [done|].
  assert (bt_get (rs_credential s) credentials' = Some (authority s)) as Hs.
  { apply Hkeep. rewrite bt_get_insert by done. by rewrite decide_True. }
  split.
  - intros k v Hk. destruct (decide (k = rs_credential s)) as [->|Hne].
    + rewrite Hk in Eg. apply bool_decide_eq_true in Eg as ->. done.
    + apply Hkeep. rewrite bt_get_insert by done. by rewrite decide_False.
  - intros subject [->|Hin]%elem_of_cons; [done|by apply Hall].
Qed.

Lemma bind_plans sorted credentials held credentials' held' :
  bt_wf credentials -> (forall plan, plan ∈ sorted -> validate_relation plan = Ok tt) ->
  res_fold bind_plan sorted (credentials, held) = Ok (credentials', held') ->
  (forall k v, bt_get k credentials = Some v -> bt_get k credentials' = Some v)
  /\ (forall plan subject, plan ∈ sorted -> subject ∈ both (rr_subjects plan) -> bt_get (rs_credential subject) credentials' = Some (authority subject))
  /\ (forall plan x, plan ∈ sorted -> owns plan x -> x ∉ held)
  /\ (forall p q x, p ∈ sorted -> q ∈ sorted -> owns p x -> owns q x -> p = q).
Proof.
  revert credentials held. induction sorted as [|plan sorted IH]; intros credentials held Hwf Hv; cbn [res_fold].
  { intros [= <- <-]. split; [done|]. split; [by intros ? ? ?%elem_of_nil|]. split; [by intros ? ? ?%elem_of_nil|by intros ? ? ? ?%elem_of_nil]. }
  unfold bind_plan at 1. cbn [fst snd].
  destruct (res_fold bind_credential _ _) as [credentials1| |] eqn:Ec; [|done|done].
  destruct (res_fold (own_destination plan) _ _) as [held1| |] eqn:Ed; [|done|done]. intros H.
  apply bind_credentials in Ec as (Hwf1 & Hkeep1 & Hall1); [|done].
  assert (validate_relation plan = Ok tt) as Hplan by (apply Hv; by left).
  apply IH in H as (Hkeep & Hall & Hfresh & Huniq); [|done|intros p Hp; apply Hv; by right].
  pose proof (own_destinations plan _ _ _ Hplan Ed) as Hheld.
  split; [by intros k v Hk; apply Hkeep, Hkeep1|]. split; [|split].
  - intros p s [->|Hp]%elem_of_cons Hs; [by apply Hkeep, Hall1|by apply (Hall p)].
  - intros p x [->|Hp]%elem_of_cons Hx.
    + destruct Hx as (d & s & Hd & Hs & Hr & ->). eapply own_destinations_fresh; [exact Ed|done|]. by apply find_role_subject.
    + intros Hin. apply (Hfresh p x Hp Hx). apply Hheld. by left.
  - intros p q x [->|Hp]%elem_of_cons [->|Hq]%elem_of_cons Hpx Hqx; [done| | |by apply (Huniq p q x)].
    + exfalso. apply (Hfresh q x Hq Hqx), Hheld. right. exact Hpx.
    + exfalso. apply (Hfresh p x Hp Hpx), Hheld. right. exact Hqx.
Qed.

Lemma owns_sorted plan x : owns (sorted_plan plan) x <-> owns plan x.
Proof.
  unfold owns. cbn [sorted_plan rr_status_destinations rr_subjects].
  setoid_rewrite (stable_sort_by_perm sd_subject_role). by setoid_rewrite sort_both_perm.
Qed.

(** an accepted registry gives each identity to one relation, each external
    status of a repository to one relation, and each credential to one
    provider and integration. *)
Theorem registry_exclusive plans registry :
  relation_registry plans = Ok registry ->
  NoDup (map rr_identity plans) /\
  (forall p q x, p ∈ plans -> q ∈ plans -> owns p x -> owns q x -> rr_identity p = rr_identity q) /\
  (forall p q s t, p ∈ plans -> q ∈ plans -> s ∈ both (rr_subjects p) -> t ∈ both (rr_subjects q) ->
     rs_credential s = rs_credential t -> authority s = authority t).
Proof.
  intros [sorted Hr]%registry_registered. destruct (re_bound _ _ _ Hr) as [destinations Hb].
  apply bind_plans in Hb as (_ & Hcred & _ & Huniq); [|apply bt_nil_wf|apply (re_valid _ _ _ Hr)].
  assert (forall p, p ∈ plans -> sorted_plan p ∈ sorted) as Hin.
  { intros p Hp. rewrite (re_perm _ _ _ Hr). apply list_elem_of_fmap. by exists p. }
  split; [|split].
  - assert (map rr_identity plans = map rr_identity (map sorted_plan plans)) as -> by by rewrite map_map.
    rewrite <- (re_perm _ _ _ Hr). pose proof (re_order _ _ _ Hr) as Hs. clear -Hs.
    induction Hs as [|plan sorted Hs IH Hf]; cbn; constructor; [|done]. intros (q & E & Hq)%list_elem_of_fmap.
    rewrite Forall_forall in Hf. specialize (Hf q Hq). cbv beta in Hf. rewrite E in Hf. by apply (irreflexivity klt) in Hf.
  - intros p q x Hp Hq Hpx%owns_sorted Hqx%owns_sorted. specialize (Huniq _ _ x (Hin p Hp) (Hin q Hq) Hpx Hqx).
    by apply (f_equal rr_identity) in Huniq.
  - intros p q s t Hp Hq Hs Ht E. rewrite <- (sort_both_perm rs_role) in Hs, Ht.
    pose proof (Hcred (sorted_plan p) s (Hin p Hp) Hs) as H1. pose proof (Hcred (sorted_plan q) t (Hin q Hq) Ht) as H2.
    rewrite E in H1. congruence.
Qed.

(** *** A registry of one relation *)

Definition example_limits : RelationLimits := mkRelationLimits 1 1 1 1.
Definition example_subject (role repository : bytes) : RegisteredSubject :=
  mkRegisteredSubject role
    (mkPlanScope (mkProviderIdentity (b_ "github") (b_ "github.com")) (b_ "app") (RepositoryIdentity.mk (b_ "github.com") repository (b_ "acme")))
    (b_ "refs/heads/main") Sha1 (b_ "key") (ProjectionSource.Blob (b_ "VERSION")) example_limits.
Definition example_relation : RegisteredRelation :=
  mkRegisteredRelation (b_ "docs-api") (sha256_digest (HH := toy_hash) (HHL := toy_hash_laws) []) ProjectionKind.CodeTextV1
    (example_subject (b_ "source") (b_ "api"), example_subject (b_ "docs") (b_ "site")) example_limits
    [mkRelationStatusDestination (b_ "docs") (b_ "amiss/relation")].
Definition example_delivery : AuthenticatedDelivery :=
  mkAuthenticatedDelivery
    (mkDeliveryIdentity (mkProviderIdentity (b_ "github") (b_ "github.com")) (b_ "app") (Delivery.Provided (b_ "1")))
    (mkChangeLocator (mkProviderIdentity (b_ "github") (b_ "github.com")) (RepositoryIdentity.mk (b_ "github.com") (b_ "site") (b_ "acme"))
      (Change.MergeRequest (mkMergeRequestChange 1 1)))
    (mkProviderRunIdentity (ProviderRun.Job (mkPipelineJob 1 1)) 1 Sha1 (Oid.mk Sha1 (repeat "a"%byte 40))).

Lemma registry_routes_witness :
  exists registry, relation_registry [example_relation] = Ok registry /\
  (exists selected, relations_for_delivery registry example_delivery = Ok selected /\
     map tr_trigger_role selected = [b_ "docs"] /\ delivery_consistent example_delivery).
Proof.
  destruct (relation_registry [example_relation]) as [registry| |] eqn:E; [|by vm_compute in E..].
  exists registry. split; [done|]. pose proof (registry_routes [example_relation] registry example_delivery E) as H.
  destruct (relations_for_delivery registry example_delivery) as [selected| |] eqn:Es.
  - exists selected. split; [done|]. destruct H as (Hc & _). split; [|done].
    vm_compute in E. injection E as <-. vm_compute in Es. injection Es as <-. by vm_compute.
  - exfalso. apply H. by split; vm_compute.
  - done.
Defined.

Lemma registry_exclusive_witness :
  is_ok (relation_registry [example_relation]) = true /\ NoDup (map rr_identity [example_relation]).
Proof.
  split; [by vm_compute|]. destruct (relation_registry [example_relation]) as [registry| |] eqn:E; [|by vm_compute in E..].
  apply (registry_exclusive [example_relation] registry E).
Defined.

(** ** What scheduling promises *)

Lemma recheck_Ok transition checked :
  recheck transition = Ok checked ->
  rt_relation checked = rt_relation transition /\ rt_coordination checked = rt_coordination transition
  /\ rt_subjects checked = sort_both rt_role (rt_subjects transition)
  /\ validate_relation (tr_plan (rt_relation transition)) = Ok tt.
Proof.
  unfold recheck, relation_transition. destruct (validate_relation _) as [[]| |] eqn:Ev; [|done|done]. cbn [is_ok andb].
  destruct (_ || _); [done|]. by intros [= <-].
Qed.

Lemma sort_both_again {A} (key : A -> bytes) pair : sort_both key (sort_both key pair) = sort_both key pair.
Proof.
  destruct pair as [a b]. unfold sort_both. cbn [fst snd]. destruct (bytes_cmp (key a) (key b)) eqn:E; cbn [fst snd]; [by rewrite E..|].
  apply cmp_gt in E. unfold klt in E. change (bytes_cmp (key b) (key a) = Lt) in E. by rewrite E.
Qed.

(** A checked transition checks again as itself. *)
Lemma recheck_idempotent transition checked : recheck transition = Ok checked -> recheck checked = Ok checked.
Proof.
  intros H. destruct (recheck_Ok _ _ H) as (H1 & H2 & H3 & _). unfold recheck, relation_transition in *.
  rewrite H1, H2, H3, sort_both_again. destruct (_ || _); [done|]. by injection H as <-.
Qed.

(** New work takes the next fence of its relation; work of the current
    coordination is only accepted unchanged. *)
Lemma schedule_relation_Ok previous transition admission :
  schedule_relation previous transition = Ok admission ->
  exists checked, recheck transition = Ok checked /\
  match admission with
  | RelationAdmission.Scheduled pending =>
      pd_transition pending = checked /\
      match previous with
      | None => pd_fence pending = 1
      | Some q =>
          pd_fence pending = pd_fence q + 1 /\ pd_fence pending <= u64_max /\ pd_fence pending <> 0
          /\ tr_plan (rt_relation (pd_transition q)) = tr_plan (rt_relation transition)
          /\ rt_coordination (pd_transition q) <> rt_coordination transition
      end
  | RelationAdmission.Duplicate pending =>
      previous = Some pending /\ rt_coordination (pd_transition pending) = rt_coordination transition
  end.
Proof.
  unfold schedule_relation. destruct (recheck transition) as [checked| |] eqn:Ec; [|done|done]. cbn [map_err].
  destruct (recheck_Ok _ _ Ec) as (H1 & H2 & _). destruct previous as [q|].
  - destruct (recheck (pd_transition q)) as [checked'| |] eqn:Eq; [|done|done]. cbn [map_err].
    destruct (recheck_Ok _ _ Eq) as (H1' & H2' & _). rewrite H1, H1', H2, H2'.
    case_bool_decide as Hp; [|done]. cbn [negb]. destruct (bytes_eqb _ _) eqn:Eb.
    + apply bytes_eqb_eq in Eb. case_bool_decide; [|done]. intros [= <-]. by exists checked.
    + apply bytes_eqb_neq in Eb. destruct (checked_add (pd_fence q) 1) as [next|] eqn:En; [|done]. apply checked_add_Some in En as [-> Hle].
      cbn [mbind option_bind]. unfold lease_fence_new. destruct (Z.eqb_spec (pd_fence q + 1) 0) as [|Hz]; [done|]. cbn [ok_or].
      intros [= <-]. exists checked. cbn [pd_transition pd_fence]. split; [done|]. split; [done|]. split; [done|]. split; [lia|]. done.
  - intros [= <-]. by exists checked.
Qed.
