(* ===== verification/RelJournal.v ===== *)
(** The journal of scheduled relations: [controller/src/relations/store/journal.rs],
    and the state [relations/store.rs] replays from it.

    A [BTreeSet] of digests that is only asked for its members and their number
    is a list without duplicates. The two schema members have one value. *)
From Stdlib Require Import Strings.Byte Strings.String Lia.
From stdpp Require Import base numbers sorting list.
From S2P Require Import Prelude Codec WireModel OrdMap Observation CtlModel CtlLedgerApi CtlFrame RelPlan.

Module ArtifactError.
Inductive t :=
  | AlreadyOpen | Configuration | Corrupt | Full | TooLarge | Conflict | NotFound | Clock | Io (error : IoError.t).
End ArtifactError.

Module RelationStatusError.
Inductive t := InvalidTransition | InvalidHeads | Superseded | InvalidAudit | BindingConflict | InvalidPublication.
End RelationStatusError.

Module StoreError.
Inductive t :=
  | Configuration | Full | Corrupt | Schedule (error : RelationScheduleError.t) | Status (error : RelationStatusError.t)
  | Artifact (error : ArtifactError.t) | DeliveryPending | Io (error : IoError.t).
End StoreError.

(** ** Rows *)

Record RootMetadata := mkRootMetadata {
  rm_max_bindings : u64; rm_binding_count : u64; rm_entry_count : u64; rm_journal_bytes : u64; rm_tail_digest : option Digest.t
}.

Record StoredBinding := mkStoredBinding {
  sb_coordination : bytes; sb_work_binding : Digest.t; sb_trigger_role : bytes; sb_fence : u64
}.
#[export] Instance StoredBinding_eq_dec : EqDecision StoredBinding.
Proof. solve_decision. Defined.

Record StoredStatus := mkStoredStatus {
  ss_relation : bytes;
  ss_coordination : bytes;
  ss_trigger_role : bytes;
  ss_fence : u64;
  ss_status_binding : Digest.t;
  ss_destinations : list Digest.t;
  ss_artifact_id : bytes
}.
#[export] Instance StoredStatus_eq_dec : EqDecision StoredStatus.
Proof. solve_decision. Defined.

Module JournalAction.
Inductive t :=
  | Schedule (relation : bytes) (plan_binding : Digest.t) (binding : StoredBinding)
  | Stage (plan_binding work_binding : Digest.t) (status : StoredStatus)
  | Acknowledge (relation coordination : bytes) (status_binding destination_binding : Digest.t)
  | Complete (relation coordination : bytes) (status_binding : Digest.t).
End JournalAction.

Record JournalEntry := mkJournalEntry { je_previous_tail : option Digest.t; je_action : JournalAction.t }.

Module StoredStatusState.
Inductive t :=
  | Staged (binding : Digest.t) (status : StoredStatus) (acknowledged : list Digest.t)
  | Completed (binding : Digest.t).
End StoredStatusState.

Record StoredRelation := mkStoredRelation {
  sr_plan_binding : Digest.t; sr_bindings : bt bytes StoredBinding; sr_current_coordination : bytes
}.

Record State := mkState {
  st_relations : bt bytes StoredRelation;
  st_statuses : bt (bytes * bytes) StoredStatusState.t;
  st_binding_count : u64;
  st_entry_count : u64;
  st_journal_bytes : u64;
  st_tail_digest : option Digest.t
}.
Definition state_default : State := mkState [] [] 0 0 0 None.

(** ** Bounds *)

Definition RELATION_SCHEDULE_BINDING_LIMIT : u64 := 16384.
Definition MAX_ROOT_BYTES : u64 := 4096.
Definition MAX_ENTRY_BYTES : u64 := 16384.
Definition MAX_SMALL_ENTRY_BYTES : u64 := 4096.
Definition ENTRY_LENGTH_BYTES : u64 := 8.
Definition ROOT_FRAME : FrameFormat :=
  mkFrameFormat (b_ "AMISS-RELATION-JOURNAL-ROOT") (b_ "amiss/controller-relation-journal-root-frame-v3") MAX_ROOT_BYTES.
Definition ENTRY_FRAME : FrameFormat :=
  mkFrameFormat (b_ "AMISS-RELATION-JOURNAL-ENTRY") (b_ "amiss/controller-relation-journal-entry-frame-v3") MAX_ENTRY_BYTES.
Definition MAX_JOURNAL_BYTES_PER_BINDING : u64 := MAX_ENTRY_BYTES + 4 * MAX_SMALL_ENTRY_BYTES + 5 * ENTRY_LENGTH_BYTES.
Definition MAX_ACTIONS_PER_BINDING : u64 := 5.
Definition JOURNAL_CHAIN_DOMAIN : bytes := b_ "amiss/controller-relation-journal-chain-v3".

Definition journal_byte_limit (max_bindings : u64) : option u64 := checked_mul max_bindings MAX_JOURNAL_BYTES_PER_BINDING.

Definition entry_byte_limit (action : JournalAction.t) : u64 :=
  match action with JournalAction.Stage _ _ _ => MAX_ENTRY_BYTES | _ => MAX_SMALL_ENTRY_BYTES end.

Definition empty_metadata (max_bindings : u64) : RootMetadata := mkRootMetadata max_bindings 0 0 0 None.

(** ** Frames *)

Definition validate_metadata (m : RootMetadata) : res unit StoreError.t :=
  let empty := rm_entry_count m =? 0 in
  let? max_entries := ok_or (checked_mul (rm_max_bindings m) MAX_ACTIONS_PER_BINDING) StoreError.Corrupt in
  let? admitted_entries := ok_or (checked_mul (rm_binding_count m) MAX_ACTIONS_PER_BINDING) StoreError.Corrupt in
  let? journal_byte_limit := ok_or (journal_byte_limit (rm_max_bindings m)) StoreError.Corrupt in
  if negb ((1 <=? rm_max_bindings m) && (rm_max_bindings m <=? RELATION_SCHEDULE_BINDING_LIMIT))
     || (rm_max_bindings m <? rm_binding_count m)
     || (rm_entry_count m <? rm_binding_count m)
     || (max_entries <? rm_entry_count m)
     || (admitted_entries <? rm_entry_count m)
     || (journal_byte_limit <? rm_journal_bytes m)
     || negb (Bool.eqb (rm_journal_bytes m =? 0) empty)
     || negb (Bool.eqb (is_none (rm_tail_digest m)) empty)
  then Err StoreError.Corrupt
  else Ok tt.

Definition validate_stored_status (stored : StoredStatus) : res unit StoreError.t :=
  if is_none (lease_fence_new (ss_fence stored))
     || negb ((1 <=? len (ss_destinations stored)) && (len (ss_destinations stored) <=? 2))
     || any_window (fun a b => match cmp a b with Lt => false | _ => true end) (ss_destinations stored)
     || negb (valid_artifact_id (ss_artifact_id stored))
  then Err StoreError.Corrupt
  else Ok tt.

Definition validate_entry (entry : JournalEntry) : res unit StoreError.t :=
  let valid :=
    match je_action entry with
    | JournalAction.Schedule _ _ binding => negb (sb_fence binding =? 0)
    | JournalAction.Stage _ _ status => is_ok (validate_stored_status status)
    | JournalAction.Acknowledge _ _ _ _ | JournalAction.Complete _ _ _ => true
    end in
  if valid then Ok tt else Err StoreError.Corrupt.

Section Codec.
Context `{HH : Hashes} {HHL : HashLaws HH} `{JR : !Json RootMetadata} `{JE : !Json JournalEntry}.

Definition decode_metadata (data : bytes) (max_bindings : u64) : res RootMetadata StoreError.t :=
  let? metadata := decode StoreError.Corrupt validate_metadata ROOT_FRAME data in
  if negb (rm_max_bindings metadata =? max_bindings) then Err StoreError.Configuration else Ok metadata.
Definition encode_metadata (metadata : RootMetadata) : res bytes StoreError.t :=
  encode StoreError.Corrupt validate_metadata ROOT_FRAME metadata.

Definition encode_entry (entry : JournalEntry) : res bytes StoreError.t :=
  let? frame := encode StoreError.Corrupt validate_entry ENTRY_FRAME entry in
  let length := len frame in
  if entry_byte_limit (je_action entry) <? length then Err StoreError.Corrupt
  else
    let? _ := ok_or (checked_add (len frame) 8) StoreError.Corrupt in
    Ok (to_be 8 length ++ frame).

Definition decode_entry (data : bytes) : res JournalEntry StoreError.t :=
  let? entry := decode StoreError.Corrupt validate_entry ENTRY_FRAME data in
  if len data <=? entry_byte_limit (je_action entry) then Ok entry else Err StoreError.Corrupt.

Definition chain_digest (chunk : bytes) : Digest.t := sha256_digest (JOURNAL_CHAIN_DOMAIN ++ [x00] ++ chunk).
End Codec.

(** ** Replay *)

Definition state_matches (state : State) (metadata : RootMetadata) : bool :=
  (st_binding_count state =? rm_binding_count metadata)
  && (st_entry_count state =? rm_entry_count metadata)
  && (st_journal_bytes state =? rm_journal_bytes metadata)
  && bool_decide (st_tail_digest state = rm_tail_digest metadata).

Definition validate_status_progress (state : State) (relation coordination : bytes) (status_binding : Digest.t)
    (destination : option Digest.t) : res unit StoreError.t :=
  match bt_get (relation, coordination) (st_statuses state) with
  | Some (StoredStatusState.Staged binding status acknowledged) =>
      if negb (bool_decide (binding = status_binding)) then Err StoreError.Corrupt
      else
        let valid :=
          match destination with
          | Some destination =>
              is_some (binary_search_by (fun stored => cmp stored destination) (ss_destinations status))
              && negb (bool_decide (destination ∈ acknowledged))
          | None =>
              (len (ss_destinations status) =? len acknowledged)
              && forallb (fun destination => bool_decide (destination ∈ acknowledged)) (ss_destinations status)
          end in
        if valid then Ok tt else Err StoreError.Corrupt
  | _ => Err StoreError.Corrupt
  end.

(** [all_destinations_acknowledged] of [outbox.rs]. *)
Definition all_destinations_acknowledged (status : StoredStatus) (acknowledged : list Digest.t) : bool :=
  (len (ss_destinations status) =? len acknowledged)
  && forallb (fun destination => bool_decide (destination ∈ acknowledged)) (ss_destinations status).

Definition schedule_fits (state : State) (max_bindings : u64) (relation : bytes) (plan_binding : Digest.t)
    (binding : StoredBinding) : bool :=
  match bt_get relation (st_relations state) with
  | None => (sb_fence binding =? 1) && (st_binding_count state <? max_bindings)
  | Some relation =>
      (st_binding_count state <? max_bindings)
      && bool_decide (sr_plan_binding relation = plan_binding)
      && negb (bt_mem (sb_coordination binding) (sr_bindings relation))
      && bool_decide ((current ← bt_get (sr_current_coordination relation) (sr_bindings relation);
                       checked_add (sb_fence current) 1) = Some (sb_fence binding))
  end.

(** The binding a status is staged for, while it is the relation's current one. *)
Definition current_binding (state : State) (plan_binding : Digest.t) (status : StoredStatus) : option StoredBinding :=
  relation ← bt_get (ss_relation status) (st_relations state);
  if bool_decide (sr_plan_binding relation = plan_binding)
     && bytes_eqb (sr_current_coordination relation) (ss_coordination status)
  then bt_get (ss_coordination status) (sr_bindings relation)
  else None.

(** The match of [validate_append] on the action. *)
Definition validate_action (state : State) (action : JournalAction.t) (max_bindings : u64) : res unit StoreError.t :=
  match action with
  | JournalAction.Schedule relation plan_binding binding =>
      if schedule_fits state max_bindings relation plan_binding binding then Ok tt else Err StoreError.Corrupt
  | JournalAction.Stage plan_binding work_binding status =>
      let? _ := validate_stored_status status in
      let key := (ss_relation status, ss_coordination status) in
      if bt_mem key (st_statuses state)
         || match current_binding state plan_binding status with
            | None => true
            | Some binding =>
                negb (bool_decide (sb_work_binding binding = work_binding))
                || negb (bytes_eqb (sb_trigger_role binding) (ss_trigger_role status))
                || negb (sb_fence binding =? ss_fence status)
            end
      then Err StoreError.Corrupt
      else Ok tt
  | JournalAction.Acknowledge relation coordination status_binding destination_binding =>
      validate_status_progress state relation coordination status_binding (Some destination_binding)
  | JournalAction.Complete relation coordination status_binding =>
      validate_status_progress state relation coordination status_binding None
  end.

Definition validate_append (state : State) (entry : JournalEntry) (chunk_length : u64) (max_bindings : u64) : res unit StoreError.t :=
  let? max_entries := ok_or (checked_mul max_bindings MAX_ACTIONS_PER_BINDING) StoreError.Corrupt in
  let? journal_byte_limit := ok_or (journal_byte_limit max_bindings) StoreError.Corrupt in
  if negb (bool_decide (je_previous_tail entry = st_tail_digest state))
     || (max_entries <=? st_entry_count state)
     || match checked_add (st_journal_bytes state) chunk_length with Some total => journal_byte_limit <? total | None => true end
  then Err StoreError.Corrupt
  else validate_action state (je_action entry) max_bindings.

Definition add_binding (plan_binding : Digest.t) (binding : StoredBinding) (held : option StoredRelation) : StoredRelation :=
  let coordination := sb_coordination binding in
  match held with
  | None => mkStoredRelation plan_binding [(coordination, binding)] coordination
  | Some relation =>
      mkStoredRelation (sr_plan_binding relation) (bt_insert coordination binding (sr_bindings relation)) coordination
  end.

Definition is_schedule (action : JournalAction.t) : bool :=
  match action with JournalAction.Schedule _ _ _ => true | _ => false end.

(** The change an action makes to the two maps. *)
Definition apply_action (state : State) (action : JournalAction.t) :
    res (bt bytes StoredRelation * bt (bytes * bytes) StoredStatusState.t) StoreError.t :=
  let relations := st_relations state in
  let statuses := st_statuses state in
  match action with
  | JournalAction.Schedule relation plan_binding binding =>
      Ok (bt_upd relation (add_binding plan_binding binding) relations, statuses)
  | JournalAction.Stage _ _ status =>
      Ok (relations,
          bt_insert (ss_relation status, ss_coordination status)
            (StoredStatusState.Staged (ss_status_binding status) status []) statuses)
  | JournalAction.Acknowledge relation coordination _ destination_binding =>
      match bt_get (relation, coordination) statuses with
      | Some (StoredStatusState.Staged binding status acknowledged) =>
          if bool_decide (destination_binding ∈ acknowledged) then Err StoreError.Corrupt
          else
            Ok (relations,
                bt_insert (relation, coordination)
                  (StoredStatusState.Staged binding status (destination_binding :: acknowledged)) statuses)
      | _ => Err StoreError.Corrupt
      end
  | JournalAction.Complete relation coordination binding =>
      Ok (relations, bt_insert (relation, coordination) (StoredStatusState.Completed binding) statuses)
  end.

Definition apply_entry (state : State) (entry : JournalEntry) (tail_digest : Digest.t) (chunk_length : u64) (max_bindings : u64) :
    res State StoreError.t :=
  let? _ := validate_append state entry chunk_length max_bindings in
  let? binding_count :=
    ok_or (checked_add (st_binding_count state) (if is_schedule (je_action entry) then 1 else 0)) StoreError.Corrupt in
  let? entry_count := ok_or (checked_add (st_entry_count state) 1) StoreError.Corrupt in
  let? journal_bytes := ok_or (checked_add (st_journal_bytes state) chunk_length) StoreError.Corrupt in
  let? (relations, statuses) := apply_action state (je_action entry) in
  Ok (mkState relations statuses binding_count entry_count journal_bytes (Some tail_digest)).
