(* ===== verification/RelHistory.v ===== *)
(** What a journal of relations holds, read as the history of its actions:
    [relations/store.rs] and [relations/store/journal.rs]. *)
From Stdlib Require Import Strings.Byte Strings.String Lia.
From stdpp Require Import base numbers sets sorting list.
From S2P Require Import Prelude Codec WireModel OrdMap Observation CtlModel CtlLedgerApi CtlFrame RelPlan RelJournal.

(** ** History *)

Abbreviation Key := (bytes * bytes)%type.
Abbreviation history := (list JournalAction.t).

(** The schedules of one relation, oldest first, with the plan they name. *)
Definition scheduled (relation : bytes) (h : history) : list (Digest.t * StoredBinding) :=
  omap (fun a => match a with
    | JournalAction.Schedule r plan binding => if bool_decide (r = relation) then Some (plan, binding) else None
    | _ => None end) h.
(** What was staged, acknowledged and completed for one coordination. *)
Definition staged (key : Key) (h : history) : list StoredStatus :=
  omap (fun a => match a with
    | JournalAction.Stage _ _ status => if bool_decide ((ss_relation status, ss_coordination status) = key) then Some status else None
    | _ => None end) h.
Definition acknowledged (key : Key) (h : history) : list (Digest.t * Digest.t) :=
  omap (fun a => match a with
    | JournalAction.Acknowledge r c status destination => if bool_decide ((r, c) = key) then Some (status, destination) else None
    | _ => None end) h.
Definition completed (key : Key) (h : history) : list Digest.t :=
  omap (fun a => match a with
    | JournalAction.Complete r c status => if bool_decide ((r, c) = key) then Some status else None
    | _ => None end) h.
(** Every relation and coordination that was scheduled. *)
Definition scheduled_keys (h : history) : list Key :=
  omap (fun a => match a with
    | JournalAction.Schedule r _ binding => Some (r, sb_coordination binding)
    | _ => None end) h.

(** A journal of at most [max] bindings and the state its replay ends in. A
    chunk is a length and a frame within the ceiling of its action. *)
Inductive journal (max : u64) : history -> State -> Prop :=
  | journal_nil : journal max [] state_default
  | journal_snoc h state entry tail length state' :
      journal max h state ->
      0 < length <= ENTRY_LENGTH_BYTES + entry_byte_limit (je_action entry) ->
      apply_entry state entry tail length max = Ok state' ->
      journal max (h ++ [je_action entry]) state'.

(** ** The state says what the history says *)

Definition relation_holds (rows : list (Digest.t * StoredBinding)) (held : option StoredRelation) : Prop :=
  match held with
  | None => rows = []
  | Some R => exists l b,
      rows = map (pair (sr_plan_binding R)) (l ++ [b]) /\ sr_current_coordination R = sb_coordination b /\
      NoDup (map sb_coordination (l ++ [b])) /\ bt_wf (sr_bindings R) /\
      (forall c x, bt_get c (sr_bindings R) = Some x <-> x ∈ l ++ [b] /\ sb_coordination x = c) /\
      map sb_fence (l ++ [b]) = zseq 1 (length (l ++ [b]))
  end.

Definition status_holds (key : Key) (h : history) (held : option StoredStatusState.t) : Prop :=
  match held with
  | None => staged key h = [] /\ acknowledged key h = [] /\ completed key h = []
  | Some (StoredStatusState.Staged binding s acks) =>
      staged key h = [s] /\ binding = ss_status_binding s /\ validate_stored_status s = Ok tt /\
      acknowledged key h = map (pair binding) (reverse acks) /\ completed key h = [] /\
      NoDup acks /\ acks ⊆ ss_destinations s
  | Some (StoredStatusState.Completed binding) => exists s acks,
      staged key h = [s] /\ binding = ss_status_binding s /\ validate_stored_status s = Ok tt /\
      acknowledged key h = map (pair binding) acks /\ completed key h = [binding] /\ acks ≡ₚ ss_destinations s
  end.

(** What the entries of one status cost: [stage] for the first, [small] for any other. *)
Definition charge (stage small : Z) (a : JournalAction.t) : Z :=
  match a with JournalAction.Stage _ _ _ => stage | _ => small end.
Definition charges (stage small : Z) (h : history) : Z := foldr (fun a n => charge stage small a + n) 0 h.
Definition status_cost (stage small : Z) (s : StoredStatusState.t) : Z :=
  match s with
  | StoredStatusState.Staged _ _ acks => stage + small * len acks
  | StoredStatusState.Completed _ => stage + 3 * small
  end.
Definition statuses_cost (stage small : Z) (m : bt Key StoredStatusState.t) : Z :=
  foldr (fun row n => status_cost stage small row.2 + n) 0 m.

Record replayed (max : u64) (h : history) (state : State) : Prop := {
  rp_relations : bt_wf (st_relations state);
  rp_statuses : bt_wf (st_statuses state);
  rp_relation r : relation_holds (scheduled r h) (bt_get r (st_relations state));
  rp_status key : status_holds key h (bt_get key (st_statuses state));
  rp_owned : bt_keys (st_statuses state) ⊆ scheduled_keys h;
  rp_distinct : NoDup (scheduled_keys h);
  rp_count : st_binding_count state = len (scheduled_keys h);
  rp_max : st_binding_count state <= max;
  rp_entries : st_entry_count state = len h;
  rp_bytes : len h <= st_journal_bytes state
    <= charges (ENTRY_LENGTH_BYTES + MAX_ENTRY_BYTES) (ENTRY_LENGTH_BYTES + MAX_SMALL_ENTRY_BYTES) h;
  rp_tail : st_tail_digest state = None <-> h = [];
  rp_cost stage small : 0 <= stage -> 0 <= small ->
    charges stage small h <= small * len (scheduled_keys h) + statuses_cost stage small (st_statuses state)
}.

(** ** Appending to a history *)

Lemma scheduled_app r h h' : scheduled r (h ++ h') = scheduled r h ++ scheduled r h'.
Proof. apply omap_app. Qed.
Lemma staged_app key h h' : staged key (h ++ h') = staged key h ++ staged key h'.
Proof. apply omap_app. Qed.
Lemma acknowledged_app key h h' : acknowledged key (h ++ h') = acknowledged key h ++ acknowledged key h'.
Proof. apply omap_app. Qed.
Lemma completed_app key h h' : completed key (h ++ h') = completed key h ++ completed key h'.
Proof. apply omap_app. Qed.
Lemma scheduled_keys_app h h' : scheduled_keys (h ++ h') = scheduled_keys h ++ scheduled_keys h'.
Proof. apply omap_app. Qed.
Lemma charges_snoc stage small h a : charges stage small (h ++ [a]) = charges stage small h + charge stage small a.
Proof. unfold charges. induction h as [|x h IH]; cbn [app foldr]; [lia|]. rewrite IH. lia. Qed.

Lemma elem_scheduled_keys r c h :
  (r, c) ∈ scheduled_keys h <-> exists p b, (p, b) ∈ scheduled r h /\ sb_coordination b = c.
Proof.
  unfold scheduled_keys, scheduled. rewrite list_elem_of_omap. setoid_rewrite list_elem_of_omap. split.
  - intros ([r' p b| | |] & Ha & E); try done. injection E as <- <-. exists p, b. split; [|done].
    exists (JournalAction.Schedule r' p b). split; [done|]. by rewrite bool_decide_true.
  - intros (p & b & ([r' p' b'| | |] & Ha & E) & <-); try done. case_bool_decide as Hr; [|done].
    injection E as <- <-. subst r'. by exists (JournalAction.Schedule r p' b').
Qed.

(** What an action leaves alone. *)
Definition key_of (a : JournalAction.t) : option Key :=
  match a with
  | JournalAction.Schedule _ _ _ => None
  | JournalAction.Stage _ _ s => Some (ss_relation s, ss_coordination s)
  | JournalAction.Acknowledge r c _ _ | JournalAction.Complete r c _ => Some (r, c)
  end.
Lemma status_holds_other key h a held :
  key_of a <> Some key -> status_holds key h held -> status_holds key (h ++ [a]) held.
Proof.
  intros Hk. unfold status_holds. rewrite staged_app, acknowledged_app, completed_app.
  assert (staged key [a] = [] /\ acknowledged key [a] = [] /\ completed key [a] = []) as (-> & -> & ->).
  { destruct a; cbn in *; repeat (rewrite bool_decide_false by congruence); done. }
  by rewrite !app_nil_r.
Qed.
Lemma scheduled_other r h a : is_schedule a = false -> scheduled r (h ++ [a]) = scheduled r h.
Proof. intros Ha. rewrite scheduled_app. destruct a; [done|by rewrite app_nil_r..]. Qed.
Lemma scheduled_keys_other h a : is_schedule a = false -> scheduled_keys (h ++ [a]) = scheduled_keys h.
Proof. intros Ha. rewrite scheduled_keys_app. destruct a; [done|by rewrite app_nil_r..]. Qed.

(** ** Costs *)

Lemma statuses_cost_insert stage small key v m :
  bt_wf m ->
  statuses_cost stage small (bt_insert key v m)
  = statuses_cost stage small m + status_cost stage small v
    - match bt_get key m with Some old => status_cost stage small old | None => 0 end.
Proof.
  unfold bt_insert, statuses_cost. induction m as [|[k w] m IH]; intros Hwf; cbn [bt_upd bt_get foldr snd]; [lia|].
  apply bt_wf_cons in Hwf as [Hwf Hf]. destruct (cmp key k) eqn:E; cbn [foldr snd]; [lia..|]. rewrite (IH Hwf). lia.
Qed.

Lemma valid_status_destinations s :
  validate_stored_status s = Ok tt ->
  1 <= len (ss_destinations s) <= 2 /\ StronglySorted klt (ss_destinations s).
Proof.
  unfold validate_stored_status. destruct (is_none _); [done|]. cbn [orb].
  destruct (_ <=? _) eqn:E1; [|done]. destruct (len (ss_destinations s) <=? 2) eqn:E2; [|done]. cbn [andb negb orb].
  destruct (any_window _ _) eqn:Ew; [done|]. intros _. apply Z.leb_le in E1, E2. split; [lia|]. clear E1 E2.
  induction (ss_destinations s) as [|x l IH]; [constructor|]. destruct l as [|y l]; [by repeat constructor|].
  cbn [any_window] in Ew. apply orb_false_iff in Ew as [Hxy Ew]. specialize (IH Ew). constructor; [done|].
  assert (klt x y) as Hlt by (unfold klt; by destruct (cmp x y)). constructor; [done|].
  apply StronglySorted_inv in IH as [_ Hy]. eapply Forall_impl; [exact Hy|]. intros z Hz. by trans y.
Qed.

Lemma strict_NoDup {K} `{OrdLaws K} (l : list K) : StronglySorted klt l -> NoDup l.
Proof.
  induction 1 as [|k l Hs IH Hf]; [constructor|]. apply NoDup_cons. split; [|done].
  intros Hin. rewrite Forall_forall in Hf. by apply (irreflexivity klt k), Hf.
Qed.

Lemma acks_bound s acks :
  validate_stored_status s = Ok tt -> NoDup acks -> acks ⊆ ss_destinations s -> len acks <= len (ss_destinations s) <= 2.
Proof.
  intros [Hd _]%valid_status_destinations Hn Hsub. split; [|lia]. unfold len.
  apply Nat2Z.inj_le, submseteq_length. by apply NoDup_submseteq.
Qed.

Lemma status_cost_bound stage small key h s :
  0 <= stage -> 0 <= small -> status_holds key h (Some s) -> 0 <= status_cost stage small s <= stage + 3 * small.
Proof.
  intros Hst Hsm. destruct s as [b s acks|b]; [|cbn; lia]. intros (_ & _ & Hv & _ & _ & Hn & Hsub). cbn [status_cost].
  pose proof (acks_bound s acks Hv Hn Hsub). pose proof (len_nonneg acks). nia.
Qed.

(** ** One more action *)

Lemma statuses_fit max h state : replayed max h state -> len (st_statuses state) <= len (scheduled_keys h).
Proof.
  intros Hr. unfold len. apply Nat2Z.inj_le. rewrite <- (length_map fst (st_statuses state)).
  apply submseteq_length, NoDup_submseteq; [apply bt_keys_NoDup|]; apply Hr.
Qed.

Lemma statuses_cost_bound max h state stage small :
  replayed max h state -> 0 <= stage -> 0 <= small ->
  statuses_cost stage small (st_statuses state) <= (stage + 3 * small) * len (scheduled_keys h).
Proof.
  intros Hr Hst Hsm. pose proof (statuses_fit _ _ _ Hr) as Hl.
  assert (statuses_cost stage small (st_statuses state) <= (stage + 3 * small) * len (st_statuses state));
    [|etrans; [done|apply Z.mul_le_mono_nonneg_l; lia]].
  assert (forall k s, (k, s) ∈ st_statuses state -> status_cost stage small s <= stage + 3 * small) as Hb.
  { intros k s Hin. apply bt_get_Some in Hin; [|apply Hr]. eapply status_cost_bound; [done..|].
    rewrite <- Hin. apply Hr. }
  clear Hl Hr. unfold statuses_cost. induction (st_statuses state) as [|[k s] m IH]; [change (len []) with 0; cbn [foldr]; lia|].
  cbn [foldr snd]. rewrite len_cons. specialize (Hb k s ltac:(by left)) as Hs.
  specialize (IH (fun k s Hin => Hb k s (list_elem_of_further _ _ _ Hin))). lia.
Qed.

(** The whole history costs no more than the bindings pay for. *)
Lemma charges_bound max h state stage small :
  replayed max h state -> 0 <= stage -> 0 <= small ->
  charges stage small h <= (stage + 4 * small) * st_binding_count state.
Proof.
  intros Hr Hst Hsm. rewrite (rp_count _ _ _ Hr). pose proof (rp_cost _ _ _ Hr stage small Hst Hsm).
  pose proof (statuses_cost_bound _ _ _ _ _ Hr Hst Hsm). lia.
Qed.

Definition next_state (state : State) (a : JournalAction.t) (tail : Digest.t) (length : u64)
    (maps : bt bytes StoredRelation * bt Key StoredStatusState.t) : State :=
  mkState maps.1 maps.2 (st_binding_count state + if is_schedule a then 1 else 0) (st_entry_count state + 1)
    (st_journal_bytes state + length) (Some tail).

Lemma entry_charge a length :
  length <= ENTRY_LENGTH_BYTES + entry_byte_limit a ->
  length <= charge (ENTRY_LENGTH_BYTES + MAX_ENTRY_BYTES) (ENTRY_LENGTH_BYTES + MAX_SMALL_ENTRY_BYTES) a.
Proof. by destruct a. Qed.

(** An action on one coordination's status. *)
Lemma replay_status max h state a tail length key v :
  replayed max h state -> key_of a = Some key -> key ∈ scheduled_keys h ->
  0 < length <= ENTRY_LENGTH_BYTES + entry_byte_limit a ->
  status_holds key (h ++ [a]) (Some v) ->
  (forall stage small, 0 <= stage -> 0 <= small ->
    charge stage small a
    <= status_cost stage small v - match bt_get key (st_statuses state) with Some old => status_cost stage small old | None => 0 end) ->
  replayed max (h ++ [a])
    (next_state state a tail length (st_relations state, bt_insert key v (st_statuses state))).
Proof.
  intros Hr Hk Hin [Hl Hlen%entry_charge] Hv Hcost. assert (is_schedule a = false) as Ha by (by destruct a).
  pose proof (rp_statuses _ _ _ Hr) as Hwf. pose proof (rp_bytes _ _ _ Hr). pose proof (rp_count _ _ _ Hr).
  split; cbn [next_state st_relations st_statuses st_binding_count st_entry_count st_journal_bytes st_tail_digest fst snd];
    rewrite ?scheduled_keys_other, ?Ha, ?Z.add_0_r, ?len_snoc by done; try apply Hr.
  - by apply bt_insert_wf.
  - intros r. rewrite scheduled_other by done. apply Hr.
  - intros key'. rewrite bt_get_insert by done. case_decide as Hd; [by subst|].
    apply status_holds_other; [congruence|apply Hr].
  - intros x [->|Hx]%elem_bt_upd; [done|]. by apply (rp_owned _ _ _ Hr).
  - by rewrite (rp_entries _ _ _ Hr).
  - rewrite charges_snoc. lia.
  - split; [done|]. intros E. by destruct h.
  - intros stage small Hst Hsm. rewrite charges_snoc, statuses_cost_insert by done.
    pose proof (rp_cost _ _ _ Hr stage small Hst Hsm). specialize (Hcost stage small Hst Hsm). lia.
Qed.

(** ** Scheduling *)

Lemma zseq_snoc i n : zseq i (S n) = zseq i n ++ [i + Z.of_nat n].
Proof.
  revert i. induction n as [|n IH]; intros i; [cbn; f_equal; lia|].
  change (zseq i (S (S n))) with (i :: zseq (i + 1) (S n)). rewrite IH. cbn [zseq app]. do 3 f_equal. lia.
Qed.

Lemma last_fence (l : list StoredBinding) b :
  map sb_fence (l ++ [b]) = zseq 1 (length (l ++ [b])) -> sb_fence b = len (l ++ [b]).
Proof.
  rewrite length_app, Nat.add_1_r, zseq_snoc, map_app. intros [_ E]%app_inj_2; [|done]. injection E as E.
  rewrite E, len_snoc. unfold len. lia.
Qed.

(** The binding a relation is at. *)
Lemma current_last rows R :
  relation_holds rows (Some R) ->
  exists l b, rows = map (pair (sr_plan_binding R)) (l ++ [b]) /\
    bt_get (sr_current_coordination R) (sr_bindings R) = Some b /\ sb_fence b = len rows.
Proof.
  intros (l & b & -> & -> & Hn & _ & Hg & Hf). exists l, b. split; [done|]. split.
  - apply Hg. split; [|done]. apply elem_of_app. right. by left.
  - rewrite (last_fence _ _ Hf). unfold len. by rewrite length_map.
Qed.

Definition may_schedule (rows : list (Digest.t * StoredBinding)) (plan : Digest.t) (b : StoredBinding) : Prop :=
  sb_fence b = len rows + 1 /\
  forall row, row ∈ rows -> row.1 = plan /\ sb_coordination row.2 <> sb_coordination b.

Lemma relation_next rows held plan b :
  relation_holds rows held -> may_schedule rows plan b ->
  relation_holds (rows ++ [(plan, b)]) (Some (add_binding plan b held)).
Proof.
  intros Hh [Hf Hrows]. destruct held as [R|].
  - destruct Hh as (l & b0 & -> & _ & Hn & Hwf & Hg & Hs). exists (l ++ [b0]), b.
    cbn [add_binding sr_plan_binding sr_bindings sr_current_coordination].
    assert (plan = sr_plan_binding R) as ->.
    { symmetry. apply (Hrows (sr_plan_binding R, b0)). apply list_elem_of_fmap. exists b0. split; [done|].
      apply elem_of_app. right. by left. }
    assert (forall x, x ∈ l ++ [b0] -> sb_coordination x <> sb_coordination b) as Hfresh.
    { intros x Hx. apply (Hrows (sr_plan_binding R, x)). apply list_elem_of_fmap. by exists x. }
    split; [by rewrite (map_app _ (l ++ [b0]))|]. split; [done|]. split; [|split; [by apply bt_insert_wf|split]].
    + rewrite map_app. apply NoDup_app. split; [done|]. split; [|apply NoDup_singleton].
      intros c (x & -> & Hx)%list_elem_of_fmap. cbn. rewrite list_elem_of_singleton. by apply Hfresh.
    + intros c x. rewrite bt_get_insert by done. rewrite elem_of_app, list_elem_of_singleton.
      case_decide as Hc; [naive_solver|]. rewrite Hg. naive_solver.
    + rewrite (map_app _ (l ++ [b0])), (length_app (l ++ [b0])), Nat.add_1_r, zseq_snoc, Hs. cbn [map]. do 2 f_equal.
      rewrite Hf. unfold len. rewrite length_map. lia.
  - cbn in Hh. subst rows. exists [], b. cbn. cbn in Hf. split; [done|]. split; [done|]. split; [apply NoDup_singleton|].
    split; [repeat constructor|]. split; [|by rewrite Hf].
    intros c x. rewrite list_elem_of_singleton. destruct (cmp c (sb_coordination b)) eqn:E.
    + apply cmp_eq in E. naive_solver.
    + split; [done|]. intros [-> <-]. by rewrite cmp_refl in E.
    + split; [done|]. intros [-> <-]. by rewrite cmp_refl in E.
Qed.

Lemma scheduled_len r h : len (scheduled r h) <= len (scheduled_keys h).
Proof.
  unfold len, scheduled, scheduled_keys. apply Nat2Z.inj_le. induction h as [|[r' p b| | |] h IH]; cbn; [lia| |exact IH..].
  case_bool_decide; cbn; unfold omap in *; lia.
Qed.

Lemma schedule_fits_spec max h state r plan b :
  replayed max h state -> st_binding_count state < u64_max ->
  schedule_fits state max r plan b = true <-> st_binding_count state < max /\ may_schedule (scheduled r h) plan b.
Proof.
  intros Hr Hlim. unfold schedule_fits, may_schedule. pose proof (rp_relation _ _ _ Hr r) as Hh.
  destruct (bt_get r (st_relations state)) as [R|] eqn:E.
  - destruct (current_last _ _ Hh) as (l & b0 & El & Hc & Hf). rewrite Hc. cbn [mbind option_bind].
    assert (len (scheduled r h) < u64_max) as Hlen.
    { rewrite (rp_count _ _ _ Hr) in Hlim. assert (len (scheduled r h) <= len (scheduled_keys h)) by apply scheduled_len. lia. }
    rewrite (proj2 (checked_add_Some _ 1 (len (scheduled r h) + 1))) by lia.
    rewrite !andb_true_iff, Z.ltb_lt, !bool_decide_eq_true, negb_true_iff. unfold bt_mem.
    destruct Hh as (l' & b1 & El' & _ & _ & _ & Hg & _). split.
    + intros [[[Hm Hp] Hmem] [= Hb]]. split; [done|]. split; [lia|]. intros row. rewrite El'.
      intros (x & -> & Hx)%list_elem_of_fmap. cbn. split; [done|]. intros Eq.
      by rewrite (proj2 (Hg (sb_coordination b) x)) in Hmem.
    + intros (Hm & Hb & Hrows). repeat split; [done| | |congruence].
      * apply (Hrows (sr_plan_binding R, b0)). rewrite El. apply list_elem_of_fmap. exists b0. split; [done|].
        apply elem_of_app. right. by left.
      * destruct (bt_get (sb_coordination b) (sr_bindings R)) as [x|] eqn:Ex; [|done]. apply Hg in Ex as [Hx Hxc].
        destruct (Hrows (sr_plan_binding R, x)) as [_ []]; [|done]. rewrite El'. apply list_elem_of_fmap. by exists x.
  - cbn in Hh. rewrite Hh, andb_true_iff, Z.eqb_eq, Z.ltb_lt, len_nil. setoid_rewrite elem_of_nil. naive_solver lia.
Qed.

Lemma replay_schedule max h state r plan b tail length :
  replayed max h state -> st_binding_count state < max -> may_schedule (scheduled r h) plan b ->
  0 < length <= ENTRY_LENGTH_BYTES + MAX_SMALL_ENTRY_BYTES ->
  let a := JournalAction.Schedule r plan b in
  replayed max (h ++ [a])
    (next_state state a tail length (bt_upd r (add_binding plan b) (st_relations state), st_statuses state)).
Proof.
  intros Hr Hm Hb Hl a. pose proof (rp_relations _ _ _ Hr) as Hwf. pose proof (rp_bytes _ _ _ Hr).
  assert (scheduled_keys (h ++ [a]) = scheduled_keys h ++ [(r, sb_coordination b)]) as Ek by apply scheduled_keys_app.
  pose proof (rp_count _ _ _ Hr).
  split; cbn [next_state st_relations st_statuses st_binding_count st_entry_count st_journal_bytes st_tail_digest fst snd];
    rewrite ?Ek, ?len_snoc; try apply Hr.
  - by apply bt_upd_wf.
  - intros r'. rewrite bt_get_upd by done. rewrite scheduled_app. cbn [scheduled omap list_omap].
    case_decide as Hd.
    + subst r'. cbn. rewrite bool_decide_true by done. by apply relation_next, Hb; apply Hr.
    + cbn. rewrite bool_decide_false by done. rewrite app_nil_r. apply Hr.
  - intros key. by apply status_holds_other, Hr.
  - intros x Hx. apply elem_of_app. left. by apply (rp_owned _ _ _ Hr).
  - apply NoDup_app. split; [apply Hr|]. split; [|apply NoDup_singleton]. intros x Hx ->%list_elem_of_singleton.
    apply elem_scheduled_keys in Hx as (p & b' & Hin & Ec). by apply (proj2 Hb) in Hin as [_ ?].
  - cbn [is_schedule a]. lia.
  - cbn [is_schedule a]. lia.
  - by rewrite (rp_entries _ _ _ Hr).
  - rewrite charges_snoc. cbn [charge a]. lia.
  - split; [done|]. intros E. by destruct h.
  - intros stage small Hst Hsm. rewrite charges_snoc. cbn [charge a]. pose proof (rp_cost _ _ _ Hr stage small Hst Hsm). nia.
Qed.

(** ** Statuses *)

Lemma cmp_search_ordered {K} `{OrdLaws K} (l : list K) k : StronglySorted klt l -> search_ordered (fun x => cmp x k) l.
Proof.
  intros Hs i j x y Hij Hx Hy.
  destruct (decide (i = j)) as [->|Hne]; [assert (x = y) as -> by congruence; done|].
  assert (klt x y) as Hlt by (apply (StronglySorted_lookup _ _ i j x y Hs); [lia|done|done]).
  split; intros Hc.
  - apply cmp_gt in Hc. apply cmp_gt. by trans x.
  - change (klt x k). by trans y.
Qed.

Lemma search_destination s d :
  validate_stored_status s = Ok tt ->
  is_some (binary_search_by (fun stored => cmp stored d) (ss_destinations s)) = bool_decide (d ∈ ss_destinations s).
Proof.
  intros [_ Hs]%valid_status_destinations. destruct (binary_search_by _ _) as [i|] eqn:E.
  - apply binary_search_by_sound in E as (x & Hx & Hc%cmp_eq). subst. symmetry. apply bool_decide_eq_true.
    by eapply list_elem_of_lookup_2.
  - symmetry. apply bool_decide_eq_false. intros Hd. edestruct (binary_search_by_complete (fun x => cmp x d)) as [i Hi];
      [by apply cmp_search_ordered|exact Hd|apply cmp_refl|congruence].
Qed.

(** The status of a coordination while it can make progress. *)
Definition open_status (state : State) (key : Key) (binding : Digest.t) (s : StoredStatus) (acks : list Digest.t) : Prop :=
  bt_get key (st_statuses state) = Some (StoredStatusState.Staged binding s acks).

Lemma open_holds max h state key binding s acks :
  replayed max h state -> open_status state key binding s acks ->
  staged key h = [s] /\ binding = ss_status_binding s /\ validate_stored_status s = Ok tt /\
  acknowledged key h = map (pair binding) (reverse acks) /\ completed key h = [] /\ NoDup acks /\ acks ⊆ ss_destinations s.
Proof. intros Hr Ho. pose proof (rp_status _ _ _ Hr key) as Hh. unfold open_status in Ho. by rewrite Ho in Hh. Qed.

Lemma all_acknowledged s acks :
  validate_stored_status s = Ok tt -> NoDup acks ->
  all_destinations_acknowledged s acks = true <-> acks ≡ₚ ss_destinations s.
Proof.
  intros [_ Hs%strict_NoDup]%valid_status_destinations Hn. unfold all_destinations_acknowledged.
  rewrite andb_true_iff, Z.eqb_eq, forallb_forall. setoid_rewrite <- list_elem_of_In. split.
  - intros [Hl Hall]. symmetry. apply submseteq_length_Permutation; [|unfold len in Hl; lia].
    apply NoDup_submseteq; [done|]. intros d Hd. by apply Hall, bool_decide_eq_true in Hd.
  - intros Hp. split; [unfold len; by rewrite Hp|]. intros d Hd. apply bool_decide_eq_true. by rewrite Hp.
Qed.

Lemma progress_spec max h state r c binding destination :
  replayed max h state ->
  validate_status_progress state r c binding destination = Ok tt <->
  exists s acks, open_status state (r, c) binding s acks /\
    match destination with
    | Some d => d ∈ ss_destinations s /\ d ∉ acks
    | None => acks ≡ₚ ss_destinations s
    end.
Proof.
  intros Hr. unfold validate_status_progress, open_status.
  destruct (bt_get (r, c) (st_statuses state)) as [[b s acks|b]|] eqn:E; [|naive_solver..].
  pose proof (open_holds _ _ _ _ _ _ _ Hr E) as (_ & _ & Hv & _ & _ & Hn & _).
  case_bool_decide as Hb; cbn [negb]; [subst b|split; [done|naive_solver]].
  cbv zeta.
  destruct destination as [d|].
  - rewrite search_destination by done. case_bool_decide as H1; case_bool_decide as H2; naive_solver.
  - fold (all_destinations_acknowledged s acks). pose proof (all_acknowledged s acks Hv Hn) as Ha.
    destruct (all_destinations_acknowledged s acks); naive_solver.
Qed.

Definition may_stage (state : State) (plan work : Digest.t) (s : StoredStatus) : Prop :=
  validate_stored_status s = Ok tt /\ bt_get (ss_relation s, ss_coordination s) (st_statuses state) = None /\
  exists b, current_binding state plan s = Some b /\
    sb_work_binding b = work /\ sb_trigger_role b = ss_trigger_role s /\ sb_fence b = ss_fence s.

Lemma stage_spec state plan work s max :
  validate_action state (JournalAction.Stage plan work s) max = Ok tt <-> may_stage state plan work s.
Proof.
  unfold validate_action, may_stage, bt_mem. destruct (validate_stored_status s) as [[]|e|]; [|naive_solver..].
  destruct (bt_get _ _); [naive_solver|]. destruct (current_binding state plan s) as [b|]; [|naive_solver].
  cbn [orb]. case_bool_decide; cbn [negb orb]; [|naive_solver].
  destruct (bytes_eqb _ _) eqn:Eb; cbn [negb orb]; [|apply bytes_eqb_neq in Eb; naive_solver]. apply bytes_eqb_eq in Eb.
  destruct (Z.eqb_spec (sb_fence b) (ss_fence s)); naive_solver.
Qed.

Lemma current_binding_spec max h state plan s b :
  replayed max h state ->
  current_binding state plan s = Some b <->
  last (scheduled (ss_relation s) h) = Some (plan, b) /\ sb_coordination b = ss_coordination s.
Proof.
  intros Hr. unfold current_binding. pose proof (rp_relation _ _ _ Hr (ss_relation s)) as Hh.
  destruct (bt_get (ss_relation s) (st_relations state)) as [R|]; cbn [mbind option_bind].
  - destruct (current_last _ _ Hh) as (l & b0 & El & Hc & _). rewrite El, map_app. cbn [map]. rewrite last_snoc.
    destruct Hh as (l1 & b1 & _ & _ & _ & _ & Hg & _). apply Hg in Hc as Hg'. destruct Hg' as [_ Eb].
    case_bool_decide as Hp; cbn [andb]; [|naive_solver].
    destruct (bytes_eqb _ _) eqn:E; [apply bytes_eqb_eq in E; rewrite <- E, Hc|apply bytes_eqb_neq in E].
    + split; [intros [= <-]; by subst|]. intros [Ex _]. congruence.
    + split; [done|]. intros [Ex Ec]. congruence.
  - cbn in Hh. rewrite Hh. cbn. naive_solver.
Qed.

(** ** Every accepted action *)

Lemma snoc_last {A} (l : list A) x : last l = Some x -> x ∈ l.
Proof. intros Hl. apply last_Some in Hl as [l' ->]. apply elem_of_app. right. by left. Qed.

Lemma open_scheduled max h state key s :
  replayed max h state -> bt_get key (st_statuses state) = Some s -> key ∈ scheduled_keys h.
Proof. intros Hr E. apply (rp_owned _ _ _ Hr), elem_bt_keys; [apply Hr|]. by exists s. Qed.

Lemma stage_step max h state plan work s tail length :
  replayed max h state -> may_stage state plan work s ->
  let a := JournalAction.Stage plan work s in
  0 < length <= ENTRY_LENGTH_BYTES + entry_byte_limit a ->
  replayed max (h ++ [a]) (next_state state a tail length
    (st_relations state, bt_insert (ss_relation s, ss_coordination s) (StoredStatusState.Staged (ss_status_binding s) s []) (st_statuses state))).
Proof.
  intros Hr (Hv & Hnone & b & Hb & _) a Hl. apply (current_binding_spec max h) in Hb as [Hlast Hc]; [|done].
  apply replay_status; [done|done| |done| |].
  - apply elem_scheduled_keys. exists plan, b. split; [by apply snoc_last|done].
  - pose proof (rp_status _ _ _ Hr (ss_relation s, ss_coordination s)) as Hh. rewrite Hnone in Hh.
    destruct Hh as (Es & Ea & Ec). cbn [status_holds]. rewrite staged_app, acknowledged_app, completed_app, Es, Ea, Ec. cbn.
    rewrite bool_decide_true by done. repeat split; [done|constructor|set_solver].
  - intros stage small Hst Hsm. rewrite Hnone. subst a. cbn [charge status_cost]. change (len []) with 0. lia.
Qed.

Lemma acknowledge_step max h state r c s acks d tail length :
  replayed max h state -> open_status state (r, c) (ss_status_binding s) s acks -> d ∈ ss_destinations s -> d ∉ acks ->
  let a := JournalAction.Acknowledge r c (ss_status_binding s) d in
  0 < length <= ENTRY_LENGTH_BYTES + entry_byte_limit a ->
  replayed max (h ++ [a]) (next_state state a tail length
    (st_relations state, bt_insert (r, c) (StoredStatusState.Staged (ss_status_binding s) s (d :: acks)) (st_statuses state))).
Proof.
  intros Hr Ho Hd Hn a Hl. destruct (open_holds _ _ _ _ _ _ _ Hr Ho) as (Es & _ & Hv & Ea & Ec & Hnd & Hsub).
  apply replay_status; [done|done|by eapply open_scheduled|done| |].
  - cbn [status_holds]. rewrite staged_app, acknowledged_app, completed_app, Es, Ea, Ec, reverse_cons, map_app. cbn.
    rewrite bool_decide_true by done. split; [done|]. split; [done|]. split; [done|]. split; [done|]. split; [done|]. split; [by constructor|set_solver].
  - intros stage small Hst Hsm. rewrite Ho. cbn [charge a status_cost]. rewrite len_cons. lia.
Qed.

Lemma complete_step max h state r c s acks tail length :
  replayed max h state -> open_status state (r, c) (ss_status_binding s) s acks -> acks ≡ₚ ss_destinations s ->
  let a := JournalAction.Complete r c (ss_status_binding s) in
  0 < length <= ENTRY_LENGTH_BYTES + entry_byte_limit a ->
  replayed max (h ++ [a]) (next_state state a tail length
    (st_relations state, bt_insert (r, c) (StoredStatusState.Completed (ss_status_binding s)) (st_statuses state))).
Proof.
  intros Hr Ho Hp a Hl. destruct (open_holds _ _ _ _ _ _ _ Hr Ho) as (Es & _ & Hv & Ea & Ec & Hnd & Hsub).
  apply replay_status; [done|done|by eapply open_scheduled|done| |].
  - cbn [status_holds]. exists s, (reverse acks). rewrite staged_app, acknowledged_app, completed_app, Es, Ea, Ec. cbn.
    rewrite bool_decide_true by done. rewrite app_nil_r. repeat split; [done|]. by rewrite reverse_Permutation.
  - intros stage small Hst Hsm. rewrite Ho. cbn [charge a status_cost].
    pose proof (acks_bound s acks Hv Hnd Hsub). nia.
Qed.

(** The action's own conditions are all that a replay needs. *)
Lemma action_step max h state a tail length :
  replayed max h state -> max <= RELATION_SCHEDULE_BINDING_LIMIT ->
  validate_action state a max = Ok tt -> 0 < length <= ENTRY_LENGTH_BYTES + entry_byte_limit a ->
  exists maps, apply_action state a = Ok maps /\ replayed max (h ++ [a]) (next_state state a tail length maps).
Proof.
  intros Hr Hmax Hv Hl. destruct a as [r plan b|plan work s|r c binding d|r c binding].
  - cbn [validate_action] in Hv. destruct (schedule_fits _ _ _ _ _) eqn:E; [|done].
    pose proof (rp_max _ _ _ Hr). apply (schedule_fits_spec max h) in E as [Hc Hb];
      [|done|unfold RELATION_SCHEDULE_BINDING_LIMIT, u64_max in *; lia].
    eexists. split; [done|]. by apply replay_schedule.
  - apply stage_spec in Hv. eexists. split; [done|]. by apply stage_step.
  - cbn [validate_action] in Hv. apply (progress_spec max h) in Hv as (s & acks & Ho & Hd & Hn); [|done].
    destruct (open_holds _ _ _ _ _ _ _ Hr Ho) as (_ & -> & _). cbn [apply_action]. rewrite Ho, bool_decide_false by done.
    eexists. split; [done|]. by apply acknowledge_step.
  - cbn [validate_action] in Hv. apply (progress_spec max h) in Hv as (s & acks & Ho & Hp); [|done].
    destruct (open_holds _ _ _ _ _ _ _ Hr Ho) as (_ & -> & _). eexists. split; [done|]. by eapply complete_step.
Qed.

Lemma replayed_nil max : 0 <= max -> replayed max [] state_default.
Proof.
  intros Hm. split; cbn; try done; try constructor; try apply bt_nil_wf; try lia; try done. intros. change (len []) with 0. lia.
Qed.

Lemma space_left max h state :
  replayed max h state -> max <= RELATION_SCHEDULE_BINDING_LIMIT ->
  checked_mul max MAX_ACTIONS_PER_BINDING = Some (max * 5) /\
  journal_byte_limit max = Some (max * MAX_JOURNAL_BYTES_PER_BINDING) /\
  st_entry_count state <= st_binding_count state * 5 /\
  st_journal_bytes state <= st_binding_count state * MAX_JOURNAL_BYTES_PER_BINDING.
Proof.
  intros Hr Hmax. pose proof (charges_bound _ _ _ 1 1 Hr ltac:(lia) ltac:(lia)) as Hc.
  pose proof (charges_bound _ _ _ (ENTRY_LENGTH_BYTES + MAX_ENTRY_BYTES) (ENTRY_LENGTH_BYTES + MAX_SMALL_ENTRY_BYTES) Hr
    ltac:(done) ltac:(done)) as Hb.
  pose proof (rp_bytes _ _ _ Hr). pose proof (rp_max _ _ _ Hr). pose proof (rp_entries _ _ _ Hr).
  assert (charges 1 1 h = len h) as E1.
  { clear. unfold charges. induction h as [|a h IH]; [done|]. cbn [foldr]. rewrite len_cons, IH. destruct a; cbn; lia. }
  unfold journal_byte_limit, MAX_JOURNAL_BYTES_PER_BINDING, MAX_ACTIONS_PER_BINDING, ENTRY_LENGTH_BYTES, MAX_ENTRY_BYTES, MAX_SMALL_ENTRY_BYTES,
    RELATION_SCHEDULE_BINDING_LIMIT in *.
  rewrite !(proj2 (checked_mul_Some _ _ _)) by (unfold u64_max; split; [reflexivity|lia]). repeat split; lia.
Qed.

Lemma checked_add_le a b : a + b <= u64_max -> checked_add a b = Some (a + b).
Proof. intros Hab. by apply checked_add_Some. Qed.

(** An entry that names the tail and satisfies its action's conditions is
    accepted: there is always space for it. *)
Lemma entry_accepted max h state entry tail length :
  replayed max h state -> max <= RELATION_SCHEDULE_BINDING_LIMIT ->
  je_previous_tail entry = st_tail_digest state -> validate_action state (je_action entry) max = Ok tt ->
  0 < length <= ENTRY_LENGTH_BYTES + entry_byte_limit (je_action entry) ->
  exists state', apply_entry state entry tail length max = Ok state' /\ replayed max (h ++ [je_action entry]) state'.
Proof.
  intros Hr Hmax Ht Hv Hl. destruct (action_step _ _ _ _ tail _ Hr Hmax Hv Hl) as ([relations statuses] & Ha & Hr').
  exists (next_state state (je_action entry) tail length (relations, statuses)). split; [|done].
  pose proof (space_left _ _ _ Hr' Hmax) as (Em & Eb & He & Hb). pose proof (rp_max _ _ _ Hr').
  cbn [next_state st_binding_count st_entry_count st_journal_bytes] in *.
  unfold apply_entry, validate_append. rewrite Em, Eb. cbn [ok_or]. rewrite bool_decide_true by done. cbn [negb orb].
  change MAX_JOURNAL_BYTES_PER_BINDING with 32808 in *. unfold RELATION_SCHEDULE_BINDING_LIMIT in *.
  rewrite !checked_add_le by (unfold u64_max; lia).
  destruct (Z.leb_spec (max * 5) (st_entry_count state)); [lia|].
  destruct (Z.ltb_spec (max * 32808) (st_journal_bytes state + length)); [lia|].
  cbn [orb]. rewrite Hv. cbn [ok_or]. by rewrite Ha.
Qed.

Lemma apply_entry_Ok state entry tail length max state' :
  apply_entry state entry tail length max = Ok state' ->
  je_previous_tail entry = st_tail_digest state /\ validate_action state (je_action entry) max = Ok tt /\
  st_tail_digest state' = Some tail.
Proof.
  unfold apply_entry. destruct (validate_append _ _ _ _) as [[]|e|] eqn:Ev; [|done..].
  repeat match goal with |- context [ok_or ?o _] => destruct (ok_or o _); [|done..] end.
  destruct (apply_action _ _) as [[relations statuses]|e|]; [|done..]. intros [= <-]. cbn.
  unfold validate_append in Ev. repeat match type of Ev with context [ok_or ?o _] => destruct (ok_or o _); [|done..] end.
  destruct (negb _) eqn:Et; [done|]. apply negb_false_iff, bool_decide_eq_true in Et.
  destruct (_ <=? _); [done|]. cbn [orb] in Ev. destruct (match checked_add _ _ with Some _ => _ | None => _ end); done.
Qed.

Lemma journal_replayed max h state :
  0 <= max <= RELATION_SCHEDULE_BINDING_LIMIT -> journal max h state -> replayed max h state.
Proof.
  intros [Hm Hmax]. induction 1 as [|h state entry tail length state' Hj IH Hl Ha]; [by apply replayed_nil|].
  destruct (apply_entry_Ok _ _ _ _ _ _ Ha) as (Ht & Hv & _).
  destruct (entry_accepted _ _ _ entry tail length IH Hmax Ht Hv Hl) as (state2 & Ha2 & Hr2). congruence.
Qed.

(** Every prefix of a journal is one. *)
Lemma journal_prefix max h h' state : journal max (h ++ h') state -> exists state0, journal max h state0.
Proof.
  revert state. induction h' as [|a h' IH] using rev_ind; intros state Hj; [rewrite app_nil_r in Hj; eauto|].
  rewrite app_assoc in Hj. inversion Hj as [E|h0 state0 entry tail length ? Hj0 Hl Ha E]; [by destruct (h ++ h')|].
  apply app_inj_2 in E as [-> _]; [|done]. by eapply IH.
Qed.

(** The state an action of a journal met. *)
Lemma journal_split max h1 a h2 state :
  0 <= max <= RELATION_SCHEDULE_BINDING_LIMIT -> journal max (h1 ++ a :: h2) state ->
  exists state1, replayed max h1 state1 /\ validate_action state1 a max = Ok tt.
Proof.
  intros Hm Hj. rewrite cons_middle, app_assoc in Hj. apply journal_prefix in Hj as [state0 Hj].
  inversion Hj as [E|h0 state1 entry tail length ? Hj0 Hl Ha E]; [by destruct h1|].
  apply app_inj_2 in E as [-> [= <-]]; [|done]. exists state1. split; [by apply journal_replayed|].
  by eapply apply_entry_Ok.
Qed.

(** Some digest, where any does. *)
Definition no_digest : Digest.t := Digest.mk (repeat x00 32) eq_refl.

(** ** What a journal can hold *)

Section Journal.
Context (max : u64) (h : history) (state : State).
Hypothesis max_limit : 0 <= max <= RELATION_SCHEDULE_BINDING_LIMIT.
Hypothesis committed : journal max h state.

Lemma committed_replayed : replayed max h state.
Proof. by apply journal_replayed. Qed.

Lemma staged_once h1 plan work s h2 :
  h = h1 ++ JournalAction.Stage plan work s :: h2 ->
  staged (ss_relation s, ss_coordination s) (h1 ++ h2) = [].
Proof.
  intros E. pose proof (rp_status _ _ _ committed_replayed (ss_relation s, ss_coordination s)) as Hh.
  assert (exists l, staged (ss_relation s, ss_coordination s) h = l /\ (length l <= 1)%nat) as (l & El & Hl).
  { destruct (bt_get _ _) as [[]|]; naive_solver. }
  rewrite E, cons_middle, !staged_app in El. rewrite staged_app. cbn in El. rewrite bool_decide_true in El by done.
  rewrite <- El, length_app in Hl. destruct (staged _ h1); cbn in *; [|lia]. destruct (staged _ h2); [done|cbn in *; lia].
Qed.

Lemma completed_once h1 r c b h2 :
  h = h1 ++ JournalAction.Complete r c b :: h2 -> completed (r, c) (h1 ++ h2) = [].
Proof.
  intros E. pose proof (rp_status _ _ _ committed_replayed (r, c)) as Hh.
  assert (exists l, completed (r, c) h = l /\ (length l <= 1)%nat) as (l & El & Hl).
  { destruct (bt_get _ _) as [[]|]; naive_solver. }
  rewrite E, cons_middle, !completed_app in El. rewrite completed_app. cbn in El. rewrite bool_decide_true in El by done.
  rewrite <- El, length_app in Hl. destruct (completed _ h1); cbn in *; [|lia]. destruct (completed _ h2); [done|cbn in *; lia].
Qed.

Lemma acknowledged_distinct key : NoDup (acknowledged key h).
Proof.
  pose proof (rp_status _ _ _ committed_replayed key) as Hh. destruct (bt_get _ _) as [[b s acks|b]|].
  - destruct Hh as (_ & _ & _ & -> & _ & Hn & _). apply NoDup_fmap_2; [intros ? ? [=]; done|].
    by rewrite reverse_Permutation.
  - destruct Hh as (s & acks & _ & _ & Hv & -> & _ & Hp). apply NoDup_fmap_2; [intros ? ? [=]; done|].
    rewrite Hp. by apply strict_NoDup, valid_status_destinations.
  - destruct Hh as (_ & -> & _). constructor.
Qed.
End Journal.

(** C12: a committed journal numbers the coordinations of a relation 1, 2, 3 and
    so on, all under one plan and each once, and never holds more of them than
    the root admits. A status is staged for the coordination that was the
    relation's latest at that point, with its work, trigger role and fence, and
    once. *)
Theorem journal_fences max h state :
  0 <= max <= RELATION_SCHEDULE_BINDING_LIMIT -> journal max h state ->
  (forall relation, exists plan bindings,
    scheduled relation h = map (pair plan) bindings /\
    map sb_fence bindings = zseq 1 (length bindings) /\ NoDup (map sb_coordination bindings)) /\
  len (scheduled_keys h) <= max /\
  (forall h1 plan work s h2, h = h1 ++ JournalAction.Stage plan work s :: h2 ->
    last (scheduled (ss_relation s) h1)
      = Some (plan, mkStoredBinding (ss_coordination s) work (ss_trigger_role s) (ss_fence s)) /\
    staged (ss_relation s, ss_coordination s) (h1 ++ h2) = []).
Proof.
  intros Hm Hj. pose proof (committed_replayed _ _ _ Hm Hj) as Hr. split; [|split].
  - intros r. pose proof (rp_relation _ _ _ Hr r) as Hh. destruct (bt_get _ _) as [R|].
    + destruct Hh as (l & b & E & _ & Hn & _ & _ & Hf). by exists (sr_plan_binding R), (l ++ [b]).
    + exists no_digest, []. split; [done|]. split; [done|constructor].
  - rewrite <- (rp_count _ _ _ Hr). apply Hr.
  - intros h1 plan work s h2 E. split; [|by eapply staged_once].
    subst h. destruct (journal_split _ _ _ _ _ Hm Hj) as (state1 & Hr1 & Hv).
    apply stage_spec in Hv as (_ & _ & [c w t f] & Hb & <- & <- & <-).
    apply (current_binding_spec max h1) in Hb as [Hb <-]; done.
Qed.

(** C13: each destination of a staged status is acknowledged at most once, only
    under that status and before its completion, and the status is completed at
    most once, exactly after all its destinations were acknowledged. *)
Theorem journal_delivery max h state :
  0 <= max <= RELATION_SCHEDULE_BINDING_LIMIT -> journal max h state ->
  (forall key, NoDup (acknowledged key h)) /\
  (forall h1 r c b d h2, h = h1 ++ JournalAction.Acknowledge r c b d :: h2 ->
    exists s, staged (r, c) h1 = [s] /\ ss_status_binding s = b /\ d ∈ ss_destinations s /\ completed (r, c) h1 = []) /\
  (forall h1 r c b h2, h = h1 ++ JournalAction.Complete r c b :: h2 ->
    (exists s, staged (r, c) h1 = [s] /\ ss_status_binding s = b /\
       acknowledged (r, c) h1 ≡ₚ map (pair b) (ss_destinations s)) /\
    completed (r, c) (h1 ++ h2) = []).
Proof.
  intros Hm Hj. split; [|split].
  - intros key. by eapply acknowledged_distinct.
  - intros h1 r c b d h2 ->. destruct (journal_split _ _ _ _ _ Hm Hj) as (state1 & Hr1 & Hv).
    cbn [validate_action] in Hv. apply (progress_spec max h1) in Hv as (s & acks & Ho & Hd & _); [|done].
    destruct (open_holds _ _ _ _ _ _ _ Hr1 Ho) as (? & -> & _ & _ & ? & _). by exists s.
  - intros h1 r c b h2 E. split; [|by eapply completed_once]. subst h.
    destruct (journal_split _ _ _ _ _ Hm Hj) as (state1 & Hr1 & Hv).
    cbn [validate_action] in Hv. apply (progress_spec max h1) in Hv as (s & acks & Ho & Hp); [|done].
    destruct (open_holds _ _ _ _ _ _ _ Hr1 Ho) as (Es & Eb & _ & Ea & _). exists s. split; [done|]. split; [done|].
    rewrite Ea. apply Permutation_map. by rewrite reverse_Permutation.
Qed.

(** ** Progress *)

Lemma open_of_history max h state key s acks :
  replayed max h state -> staged key h = [s] -> completed key h = [] ->
  acknowledged key h = map (pair (ss_status_binding s)) acks ->
  open_status state key (ss_status_binding s) s (reverse acks).
Proof.
  intros Hr Es Ec Ea. unfold open_status. pose proof (rp_status _ _ _ Hr key) as Hh.
  destruct (bt_get _ _) as [[b s' acks'|b]|]; [|naive_solver congruence..].
  destruct Hh as (Es' & -> & _ & Ea' & _). rewrite Es in Es'. injection Es' as <-. rewrite Ea in Ea'.
  apply (f_equal (map snd)) in Ea'. rewrite !map_map, !map_id in Ea'. subst acks.
  by rewrite reverse_involutive.
Qed.

Definition remaining (s : StoredStatus) (acks : list Digest.t) : list Digest.t :=
  filter (fun d => d ∉ acks) (ss_destinations s).

(** Whatever the action, its chunk fits: here one of a single byte. *)
Lemma journal_step max h state a :
  0 <= max <= RELATION_SCHEDULE_BINDING_LIMIT -> journal max h state -> validate_action state a max = Ok tt ->
  exists state', journal max (h ++ [a]) state'.
Proof.
  intros Hm Hj Hv.
  destruct (entry_accepted max h state (mkJournalEntry (st_tail_digest state) a) no_digest 1) as (state' & Ha & _);
    [by apply journal_replayed|apply Hm|done|done|destruct a; cbn; done|].
  exists state'. by apply (journal_snoc max h state (mkJournalEntry (st_tail_digest state) a) no_digest 1);
    [| destruct a; cbn |].
Qed.

Lemma journal_acknowledge max h state r c s acks ds :
  0 <= max <= RELATION_SCHEDULE_BINDING_LIMIT -> journal max h state ->
  open_status state (r, c) (ss_status_binding s) s acks -> NoDup ds -> (forall d, d ∈ ds -> d ∈ remaining s acks) ->
  exists state', journal max (h ++ map (JournalAction.Acknowledge r c (ss_status_binding s)) ds) state' /\
    open_status state' (r, c) (ss_status_binding s) s (reverse ds ++ acks).
Proof.
  intros Hm. revert h state acks. induction ds as [|d ds IH]; intros h state acks Hj Ho Hn Hds.
  { rewrite app_nil_r. by exists state. }
  apply NoDup_cons in Hn as [Hd Hn]. pose proof (Hds d ltac:(by left)) as [Hd1 Hd2]%list_elem_of_filter.
  pose proof (journal_replayed _ _ _ Hm Hj) as Hr. destruct (open_holds _ _ _ _ _ _ _ Hr Ho) as (Es & _ & _ & Ea & Ec & _).
  set (a := JournalAction.Acknowledge r c (ss_status_binding s) d).
  destruct (journal_step max h state a Hm Hj) as [state1 Hj1].
  { cbn [validate_action a]. apply (progress_spec max h); [done|]. by exists s, acks. }
  assert (open_status state1 (r, c) (ss_status_binding s) s (d :: acks)) as Ho1.
  { rewrite <- (reverse_involutive (d :: acks)). apply (open_of_history max (h ++ [a])); [by apply journal_replayed| | |];
      rewrite ?staged_app, ?completed_app, ?acknowledged_app, ?Es, ?Ec, ?Ea, ?reverse_cons, ?map_app; [done..|].
    cbn. by rewrite bool_decide_true. }
  destruct (IH _ _ _ Hj1 Ho1 Hn) as (state2 & Hj2 & Ho2).
  { intros x Hx. specialize (Hds x ltac:(by right)). unfold remaining in *. rewrite list_elem_of_filter in *. set_solver. }
  exists state2. rewrite <- app_assoc in Hj2. split; [done|]. by rewrite reverse_cons, <- app_assoc.
Qed.

Lemma remaining_permutation s acks :
  validate_stored_status s = Ok tt -> NoDup acks -> acks ⊆ ss_destinations s -> remaining s acks ++ acks ≡ₚ ss_destinations s.
Proof.
  intros [_ Hs%strict_NoDup]%valid_status_destinations Hn Hsub. unfold remaining. apply NoDup_Permutation; [|done|].
  - apply NoDup_app. split; [by apply NoDup_filter|]. split; [|done]. intros x [Hx _]%list_elem_of_filter. done.
  - intros x. rewrite elem_of_app, list_elem_of_filter. destruct (decide (x ∈ acks)); set_solver.
Qed.

(** C11: a committed journal never runs out of space for a step: an action whose
    own conditions hold is accepted with every chunk its frame may have. So a
    status that was staged can always be driven to completion, by acknowledging
    its remaining destinations in any order. *)
Theorem journal_progress max h state :
  0 <= max <= RELATION_SCHEDULE_BINDING_LIMIT -> journal max h state ->
  (forall a tail length, validate_action state a max = Ok tt -> 0 < length <= ENTRY_LENGTH_BYTES + entry_byte_limit a ->
    exists state', apply_entry state (mkJournalEntry (st_tail_digest state) a) tail length max = Ok state') /\
  (forall r c b s acks ds, bt_get (r, c) (st_statuses state) = Some (StoredStatusState.Staged b s acks) ->
    ds ≡ₚ remaining s acks ->
    exists state',
      journal max (h ++ map (JournalAction.Acknowledge r c b) ds ++ [JournalAction.Complete r c b]) state' /\
      bt_get (r, c) (st_statuses state') = Some (StoredStatusState.Completed b)).
Proof.
  intros Hm Hj. pose proof (journal_replayed _ _ _ Hm Hj) as Hr. split.
  - intros a tail length Hv Hl.
    destruct (entry_accepted max h state (mkJournalEntry (st_tail_digest state) a) tail length) as (state' & Ha & _); eauto.
    apply Hm.
  - intros r c b s acks ds Ho Hp. destruct (open_holds _ _ _ _ _ _ _ Hr Ho) as (_ & -> & Hv & _ & _ & Hn & Hsub).
    assert (NoDup ds) as Hnd by (rewrite Hp; by apply NoDup_filter, strict_NoDup, valid_status_destinations).
    destruct (journal_acknowledge _ _ _ r c s acks ds Hm Hj Ho Hnd) as (state1 & Hj1 & Ho1); [intros d; by rewrite Hp|].
    pose proof (journal_replayed _ _ _ Hm Hj1) as Hr1. set (a := JournalAction.Complete r c (ss_status_binding s)).
    destruct (journal_step _ _ state1 a Hm Hj1) as [state2 Hj2].
    { apply (progress_spec _ _ _ r c _ None Hr1). exists s, (reverse ds ++ acks). split; [done|].
      by rewrite reverse_Permutation, Hp, remaining_permutation. }
    exists state2. rewrite app_assoc. split; [done|]. pose proof (rp_status _ _ _ (journal_replayed _ _ _ Hm Hj2) (r, c)) as Hh.
    destruct (open_holds _ _ _ _ _ _ _ Hr1 Ho1) as (_ & _ & _ & _ & Ec & _).
    destruct (bt_get (r, c) (st_statuses state2)) as [[b' s' acks'|b']|];
      [destruct Hh as (_ & _ & _ & _ & Hh & _)|destruct Hh as (s' & acks' & _ & _ & _ & _ & Hh & _)|destruct Hh as (_ & _ & Hh)];
      rewrite completed_app, Ec in Hh; cbn in Hh; rewrite bool_decide_true in Hh by done; by simplify_eq.
Qed.

(** the root that summarises a committed journal is one the store reads back. *)
Theorem journal_root_valid max h state :
  1 <= max <= RELATION_SCHEDULE_BINDING_LIMIT -> journal max h state ->
  validate_metadata (mkRootMetadata max (st_binding_count state) (st_entry_count state) (st_journal_bytes state) (st_tail_digest state))
  = Ok tt.
Proof.
  intros Hm Hj. assert (replayed max h state) as Hr by (apply journal_replayed; [lia|done]).
  destruct (space_left _ _ _ Hr (proj2 Hm)) as (Em & Eb & He & Hb). pose proof (rp_max _ _ _ Hr). pose proof (rp_bytes _ _ _ Hr).
  pose proof (rp_entries _ _ _ Hr) as Hne. pose proof (rp_count _ _ _ Hr) as Hc. pose proof (len_nonneg h).
  assert (len (scheduled_keys h) <= len h) as Hle.
  { unfold len. apply Nat2Z.inj_le. unfold scheduled_keys. clear. induction h as [|[] h IH]; cbn; unfold omap in *; lia. }
  assert (st_binding_count state * MAX_ACTIONS_PER_BINDING <= u64_max) as Ho.
  { unfold MAX_ACTIONS_PER_BINDING, RELATION_SCHEDULE_BINDING_LIMIT, u64_max in *. lia. }
  unfold validate_metadata. cbn [rm_max_bindings rm_binding_count rm_entry_count rm_journal_bytes rm_tail_digest].
  rewrite Em, Eb, (proj2 (checked_mul_Some _ _ _) (conj eq_refl Ho)). cbn [ok_or].
  change MAX_JOURNAL_BYTES_PER_BINDING with 32808 in *. change MAX_ACTIONS_PER_BINDING with 5.
  assert (is_none (st_tail_digest state) = (st_entry_count state =? 0)) as ->.
  { pose proof (rp_tail _ _ _ Hr) as Ht. rewrite Hne. destruct h as [|a h']; [by rewrite (proj2 Ht)|].
    destruct (st_tail_digest state); [|discriminate (proj1 Ht eq_refl)]. cbn. symmetry. apply Z.eqb_neq. rewrite len_cons.
    pose proof (len_nonneg h'). lia. }
  assert ((st_journal_bytes state =? 0) = (st_entry_count state =? 0)) as ->.
  { destruct (Z.eqb_spec (st_entry_count state) 0); [|apply Z.eqb_neq; lia]. apply Z.eqb_eq. lia. }
  rewrite !Bool.eqb_reflx. rewrite !(proj2 (Z.ltb_ge _ _)) by lia. rewrite !(proj2 (Z.leb_le _ _)) by lia. done.
Qed.

(** ** An example *)

(** A replay that takes each action as it comes. *)
Definition replay (max : u64) (h : history) : res State StoreError.t :=
  res_fold (fun state a => apply_entry state (mkJournalEntry (st_tail_digest state) a) no_digest 1 max) h state_default.

Lemma replay_journal max h state : replay max h = Ok state -> journal max h state.
Proof.
  unfold replay. change h with ([] ++ h) at 2. generalize (journal_nil max). generalize state_default as state0.
  generalize (@nil JournalAction.t) as h0. induction h as [|a h IH]; intros h0 state0 Hj; cbn [res_fold].
  - intros [= <-]. by rewrite app_nil_r.
  - destruct (apply_entry _ _ _ _ _) as [state1|e|] eqn:E; [|done..]. rewrite cons_middle, app_assoc. apply IH.
    change a with (je_action (mkJournalEntry (st_tail_digest state0) a)).
    eapply journal_snoc; [done| |exact E]. destruct a; cbn; done.
Qed.

Definition example_binding (c : string) (fence : u64) : StoredBinding := mkStoredBinding (b_ c) no_digest (b_ "source") fence.
Definition example_status : StoredStatus :=
  mkStoredStatus (b_ "docs") (b_ "c-2") (b_ "source") 2 no_digest
    [Digest.mk (repeat x01 32) eq_refl; Digest.mk (repeat x02 32) eq_refl]
    (b_ "0123456789abcdef0123456789abcdef0123456789abcdef0123456789abcdef").
Definition example_history : history :=
  [JournalAction.Schedule (b_ "docs") no_digest (example_binding "c-1" 1);
   JournalAction.Schedule (b_ "api") no_digest (example_binding "c-1" 1);
   JournalAction.Schedule (b_ "docs") no_digest (example_binding "c-2" 2);
   JournalAction.Stage no_digest no_digest example_status;
   JournalAction.Acknowledge (b_ "docs") (b_ "c-2") no_digest (Digest.mk (repeat x02 32) eq_refl)].
Definition example_state : State := match replay 3 example_history with Ok state => state | _ => state_default end.

Lemma example_journal : journal 3 example_history example_state.
Proof. apply replay_journal. vm_compute. reflexivity. Qed.

Lemma journal_fences_witness :
  journal 3 example_history example_state /\ len (scheduled_keys example_history) <= 3 /\
  exists plan bindings, scheduled (b_ "docs") example_history = map (pair plan) bindings /\ map sb_fence bindings = zseq 1 (length bindings).
Proof.
  pose proof (journal_fences 3 example_history example_state ltac:(done) example_journal) as (Hb & Hk & _).
  split; [exact example_journal|]. split; [exact Hk|]. destruct (Hb (b_ "docs")) as (plan & bindings & E & Hf & _). by exists plan, bindings.
Defined.

Lemma journal_delivery_witness :
  journal 3 example_history example_state /\ NoDup (acknowledged (b_ "docs", b_ "c-2") example_history).
Proof.
  pose proof (journal_delivery 3 example_history example_state ltac:(done) example_journal) as (Hk & _).
  split; [exact example_journal|apply Hk].
Defined.

Lemma journal_progress_witness : exists state',
  journal 3 (example_history ++ [JournalAction.Acknowledge (b_ "docs") (b_ "c-2") no_digest (Digest.mk (repeat x01 32) eq_refl);
                                 JournalAction.Complete (b_ "docs") (b_ "c-2") no_digest]) state' /\
  bt_get (b_ "docs", b_ "c-2") (st_statuses state') = Some (StoredStatusState.Completed no_digest).
Proof.
  pose proof (journal_progress 3 example_history example_state ltac:(done) example_journal) as (_ & Hp).
  apply (Hp (b_ "docs") (b_ "c-2") no_digest example_status [Digest.mk (repeat x02 32) eq_refl] [Digest.mk (repeat x01 32) eq_refl]).
  - vm_compute. reflexivity.
  - vm_compute. reflexivity.
Defined.

Lemma journal_root_valid_witness :
  validate_metadata (mkRootMetadata 3 (st_binding_count example_state) (st_entry_count example_state)
    (st_journal_bytes example_state) (st_tail_digest example_state)) = Ok tt.
Proof. exact (journal_root_valid 3 example_history example_state ltac:(done) example_journal). Defined.
