(* ===== verification/RelStore.v ===== *)
(** The journal's files: [controller/src/relations/store.rs] from [open] to
    [read_entries], and [controller/files/src/lib.rs].

    The directory is [CtlStore]'s [Disk]; the calls on an open journal are
    [JournalDisk]. An operation works on the directory and on the state behind
    the store's mutex, which keeps what a failed operation already did to it.
    The root is canonical, so every path is absolute. Dropping the lock ends an
    operation and is not modelled. *)
From Stdlib Require Import Strings.Byte Strings.String Lia.
From stdpp Require Import base numbers sorting list.
From S2P Require Import Prelude Codec WireModel OrdMap Observation CtlModel CtlLedgerApi CtlFrame CtlCapacity CtlRecord CtlStore RelPlan RelJournal.
Import StoreError.

(** [File] methods of a file that is written in place. *)
Class JournalDisk `{Disk} := {
  (** [OpenOptions::new().read(true).write(true)] and with [create_new(true)]. *)
  jd_open : bytes -> sres DWorld DFile IoError.t;
  jd_create_new : bytes -> sres DWorld unit IoError.t;
  jd_len : DFile -> sres DWorld u64 IoError.t;
  jd_set_len : DFile -> u64 -> sres DWorld unit IoError.t;
  jd_sync_all : DFile -> sres DWorld unit IoError.t;
  (** [seek(SeekFrom::Start(n))] and [seek(SeekFrom::End(0))]. *)
  jd_seek_start : DFile -> u64 -> sres DWorld u64 IoError.t;
  jd_seek_end : DFile -> sres DWorld u64 IoError.t;
  (** [read_exact] into a buffer of [n] bytes. *)
  jd_read_exact : DFile -> usize -> sres DWorld bytes IoError.t;
  jd_write_all : DFile -> bytes -> sres DWorld unit IoError.t;
  (** [try_lock]; [false] is [WouldBlock]. *)
  jd_try_lock : DFile -> sres DWorld bool IoError.t;
  (** Where the next read or write of the file is. *)
  jd_cursor : DWorld -> DFile -> u64
}.

Definition LOCK_FILE : bytes := b_ ".amiss-relation-schedules.lock".
Definition DELIVERY_LOCK_PREFIX : bytes := b_ ".amiss-relation-delivery-".
Definition METADATA_FILE : bytes := b_ ".amiss-relation-schedules.root".
Definition JOURNAL_FILE : bytes := b_ ".amiss-relation-schedules.journal".
Definition DELIVERY_LOCK_SHARDS : usize := 256.
Definition MAX_ROOT_ENTRIES : usize := 16 + DELIVERY_LOCK_SHARDS.

Definition is_delivery_lock (name : bytes) : bool :=
  match rest ← strip_prefix DELIVERY_LOCK_PREFIX name; strip_suffix (b_ ".lock") rest with
  | Some shard => (len shard =? 2) && forallb lower_hex_digit shard
  | None => false
  end.

Section Store.
Context `{JD : JournalDisk} `{HH : Hashes} {HHL : HashLaws HH} `{JR : !Json RootMetadata} `{JE : !Json JournalEntry}.

(** What an operation works on: the directory and the state behind the mutex. *)
Definition World : Type := DWorld * State.
Abbreviation op A := (sres World A StoreError.t).

(** [.map_err(RelationScheduleStoreError::Io)?]. *)
Definition disk {A} (m : sres DWorld A IoError.t) : op A :=
  fun w => match m w.1 with
           | (Ok a, d) => (Ok a, (d, w.2))
           | (Err e, d) => (Err (Io e), (d, w.2))
           | (OutOfFuel, d) => (OutOfFuel, (d, w.2))
           end.
(** The mutex's contents, read and replaced. *)
Definition get_state : op State := fun w => (Ok w.2, w).
Definition put_state (s : State) : op unit := fun w => (Ok tt, (w.1, s)).

(** ** Files *)

Definition reject_non_file (name : bytes) : op unit :=
  fun w => match disk (dk_symlink_metadata name) w with
           | (Ok metadata, w) => (if dm_is_file metadata then Ok tt else Err Corrupt, w)
           | (Err (Io IoError.NotFound), w) => (Ok tt, w)
           | (Err e, w) => (Err e, w)
           | (OutOfFuel, w) => (OutOfFuel, w)
           end.

Definition open_regular (name : bytes) (opening : bytes -> sres DWorld DFile IoError.t) : op DFile :=
  let! _ := reject_non_file name in
  let! file := disk (opening name) in
  let! is_file := disk (dk_is_file file) in
  if negb is_file then sfail Corrupt else sret file.

Definition open_lock (name : bytes) : op DFile := open_regular name dk_open_create.
Definition open_journal : op DFile := open_regular JOURNAL_FILE jd_open.
Definition create_journal : op unit := disk (jd_create_new JOURNAL_FILE).

Definition atomic_write (name data : bytes) : op unit :=
  let! _ := reject_non_file name in
  disk (dk_atomic_write name data).

Definition save_metadata (metadata : RootMetadata) : op unit :=
  let! data := slift (encode_metadata metadata) in
  atomic_write METADATA_FILE data.

(** [amiss_controller_files::read_bounded]. *)
Definition read_bounded (name : bytes) (maximum : u64) : sres DWorld bytes IoError.t :=
  let! file := dk_open name in
  let! is_file := dk_is_file file in
  let! length := jd_len file in
  if negb is_file || (maximum <? length) then sfail IoError.Other
  else
    let! data := dk_read_to_end file (sat_add maximum 1) in
    if maximum <? len data then sfail IoError.Other else sret data.

Record RootScan := mkRootScan { sc_lock : bool; sc_metadata : bool; sc_journal : bool; sc_temporary : list AtomicWriteDirectory }.

(** The defects of [AtomicWriteDirectory]. *)
Definition of_directory {A} (m : sres DWorld A FileLedgerError.t) : op A :=
  fun w => match m w.1 with
           | (Ok a, d) => (Ok a, (d, w.2))
           | (Err (FileLedgerError.Io e), d) => (Err (Io e), (d, w.2))
           | (Err _, d) => (Err Corrupt, (d, w.2))
           | (OutOfFuel, d) => (OutOfFuel, (d, w.2))
           end.

(** The entry's name as text and its type. *)
Definition root_entry (entry : res DirEntry IoError.t) : res (bytes * FileType) StoreError.t :=
  match entry with
  | Ok entry =>
      if negb (utf8_valid (de_name entry)) then Err Corrupt
      else
        match de_type entry with
        | Ok file_type => Ok (de_name entry, file_type)
        | Err e => Err (Io e)
        | OutOfFuel => OutOfFuel
        end
  | Err e => Err (Io e)
  | OutOfFuel => OutOfFuel
  end.

Definition is_regular (t : FileType) : bool := match t with TFile => true | _ => false end.
Definition is_directory (t : FileType) : bool := match t with TDir => true | _ => false end.

Fixpoint scan_loop (position : usize) (entries : list (res DirEntry IoError.t)) (scan : RootScan) : op RootScan :=
  match entries with
  | [] => sret scan
  | entry :: entries =>
      if MAX_ROOT_ENTRIES <=? position then sfail Corrupt
      else
        let! (name, file_type) := slift (root_entry entry) in
        let! scan :=
          if bytes_eqb name LOCK_FILE && is_regular file_type && negb (sc_lock scan)
          then sret (mkRootScan true (sc_metadata scan) (sc_journal scan) (sc_temporary scan))
          else if is_delivery_lock name && is_regular file_type then sret scan
          else if bytes_eqb name METADATA_FILE && is_regular file_type && negb (sc_metadata scan)
          then sret (mkRootScan (sc_lock scan) true (sc_journal scan) (sc_temporary scan))
          else if bytes_eqb name JOURNAL_FILE && is_regular file_type && negb (sc_journal scan)
          then sret (mkRootScan (sc_lock scan) (sc_metadata scan) true (sc_temporary scan))
          else if starts_with ATOMIC_WRITE_DIRECTORY_PREFIX name && is_directory file_type
          then
            let! directory := of_directory (atomic_directory_read name) in
            sret (mkRootScan (sc_lock scan) (sc_metadata scan) (sc_journal scan) (sc_temporary scan ++ [directory]))
          else sfail Corrupt in
        scan_loop (position + 1) entries scan
  end.

Definition scan_root : op (bool * bool) :=
  let! entries := disk dk_read_dir in
  let! scan := scan_loop 0 entries (mkRootScan false false false []) in
  if negb (sc_lock scan) then sfail Corrupt
  else
    let! _ := siter (fun directory => of_directory (atomic_directory_remove directory)) (sc_temporary scan) in
    sret (sc_metadata scan, sc_journal scan).

(** ** The store *)

Definition lock : op DFile :=
  let! file := open_lock LOCK_FILE in
  let! _ := disk (dk_lock file) in
  sret file.

Definition try_delivery_lock (destination : Digest.t) : op (option DFile) :=
  let shard := rfc_encode (take 1 (Digest.as_bytes destination)) in
  let! file := open_lock (DELIVERY_LOCK_PREFIX ++ shard ++ b_ ".lock") in
  let! acquired := disk (jd_try_lock file) in
  sret (if acquired then Some file else None).

Definition load_metadata (max_bindings : u64) : op RootMetadata :=
  let! (metadata_present, journal_present) := scan_root in
  if negb metadata_present || negb journal_present then sfail Corrupt
  else
    let! data := disk (read_bounded METADATA_FILE MAX_ROOT_BYTES) in
    slift (decode_metadata data max_bindings).

Definition initialize (max_bindings : u64) : op RootMetadata :=
  let metadata := empty_metadata max_bindings in
  let! _ := save_metadata metadata in
  sret metadata.

Definition load_or_initialize (max_bindings : u64) : op RootMetadata :=
  let! present := scan_root in
  match present with
  | (true, true) => load_metadata max_bindings
  | (false, false) =>
      let! _ := create_journal in
      initialize max_bindings
  | (false, true) =>
      let! journal := open_journal in
      let! length := disk (jd_len journal) in
      if negb (length =? 0) then sfail Corrupt else initialize max_bindings
  | (true, false) => sfail Corrupt
  end.

Definition open_committed_journal (metadata : RootMetadata) : op DFile :=
  let! journal := open_journal in
  let! physical_bytes := disk (jd_len journal) in
  if physical_bytes <? rm_journal_bytes metadata then sfail Corrupt
  else if rm_journal_bytes metadata <? physical_bytes then
    let! _ := disk (jd_set_len journal (rm_journal_bytes metadata)) in
    let! _ := disk (jd_sync_all journal) in
    sret journal
  else sret journal.

(** One round of [read_entries]: the chunk at the cursor and what it does. *)
Definition read_entry (journal : DFile) (committed_bytes max_bindings : u64) : op unit :=
  let! state := get_state in
  let! remaining := slift (ok_or (checked_sub committed_bytes (st_journal_bytes state)) Corrupt) in
  if remaining <? ENTRY_LENGTH_BYTES then sfail Corrupt
  else
    let! length_bytes := disk (jd_read_exact journal 8) in
    let frame_length := from_be_bytes length_bytes in
    let! chunk_length := slift (ok_or (checked_add ENTRY_LENGTH_BYTES frame_length) Corrupt) in
    if remaining <? chunk_length then sfail Corrupt
    else if (frame_length =? 0) || (MAX_ENTRY_BYTES <? frame_length) then sfail Corrupt
    else
      let! frame := disk (jd_read_exact journal frame_length) in
      let! entry := slift (decode_entry frame) in
      let! next := slift (apply_entry state entry (chain_digest (length_bytes ++ frame)) chunk_length max_bindings) in
      put_state next.

(** Every round adds a chunk of at least nine bytes to the state's count. *)
Fixpoint read_loop (fuel : nat) (journal : DFile) (committed_bytes max_bindings : u64) : op unit :=
  let! state := get_state in
  if st_journal_bytes state <? committed_bytes then
    match fuel with
    | O => slift OutOfFuel
    | S fuel =>
        let! _ := read_entry journal committed_bytes max_bindings in
        read_loop fuel journal committed_bytes max_bindings
    end
  else sret tt.

Definition read_entries (journal : DFile) (committed_bytes max_bindings : u64) : op unit :=
  let! state := get_state in
  let! _ := disk (jd_seek_start journal (st_journal_bytes state)) in
  read_loop (Z.to_nat (committed_bytes - st_journal_bytes state)) journal committed_bytes max_bindings.

Definition synchronize (journal : DFile) (metadata : RootMetadata) (max_bindings : u64) : op unit :=
  let! state := get_state in
  if state_matches state metadata then sret tt
  else
    let! _ :=
      if (rm_journal_bytes metadata <? st_journal_bytes state)
         || (rm_binding_count metadata <? st_binding_count state)
         || (rm_entry_count metadata <? st_entry_count state)
      then put_state state_default else sret tt in
    let! _ := read_entries journal (rm_journal_bytes metadata) max_bindings in
    let! state := get_state in
    if negb (state_matches state metadata) then sfail Corrupt else sret tt.

(** [total.filter(|total| limit.is_some_and(|limit| total <= limit))]. *)
Definition within (total limit : option u64) : option u64 :=
  match total, limit with Some total, Some limit => if total <=? limit then Some total else None | _, _ => None end.

(** The writing half of [append]: the chunk, the root, the state. *)
Definition commit_chunk (max_bindings : u64) (journal : DFile) (journal_bytes : u64) (entry : JournalEntry) (chunk : bytes)
    (next : RootMetadata) : op RootMetadata :=
  let! state := get_state in
  let! end_ := disk (jd_seek_end journal) in
  if negb (end_ =? journal_bytes) then sfail Corrupt
  else
    let! _ := disk (jd_write_all journal chunk) in
    let! _ := disk (jd_sync_all journal) in
    let! _ := save_metadata next in
    let! applied := slift (apply_entry state entry (chain_digest chunk) (len chunk) max_bindings) in
    let! _ := put_state applied in
    if negb (state_matches applied next) then sfail Corrupt else sret next.

Definition append (max_bindings : u64) (journal : DFile) (metadata : RootMetadata) (action : JournalAction.t) : op RootMetadata :=
  let! state := get_state in
  let entry := mkJournalEntry (st_tail_digest state) action in
  let! chunk := slift (encode_entry entry) in
  let chunk_length := len chunk in
  let! next_bytes := slift (ok_or (within (checked_add (rm_journal_bytes metadata) chunk_length) (journal_byte_limit max_bindings)) Full) in
  let! next_count :=
    slift (ok_or (within (checked_add (rm_binding_count metadata) (if is_schedule action then 1 else 0)) (Some max_bindings)) Full) in
  let! max_entries := slift (ok_or (checked_mul max_bindings MAX_ACTIONS_PER_BINDING) Configuration) in
  let! next_entry_count := slift (ok_or (within (checked_add (rm_entry_count metadata) 1) (Some max_entries)) Full) in
  let! _ := slift (validate_append state entry chunk_length max_bindings) in
  commit_chunk max_bindings journal (rm_journal_bytes metadata) entry chunk
    (mkRootMetadata max_bindings next_count next_entry_count next_bytes (Some (chain_digest chunk))).

(** What every operation does before its own work: the lock, the root, the
    journal, and the state brought up to the root. *)
Definition resume (max_bindings : u64) : op (DFile * RootMetadata) :=
  let! metadata := load_metadata max_bindings in
  let! journal := open_committed_journal metadata in
  let! _ := synchronize journal metadata max_bindings in
  sret (journal, metadata).
Definition begin (max_bindings : u64) : op (DFile * RootMetadata) :=
  let! _ := lock in
  resume max_bindings.

(** [FileRelationScheduleStore::open], from a new state. *)
Definition store_open (max_bindings : u64) : op unit :=
  if negb ((1 <=? max_bindings) && (max_bindings <=? RELATION_SCHEDULE_BINDING_LIMIT)) then sfail Configuration
  else
    let! is_dir := disk dk_root_is_dir in
    if negb is_dir then sfail Configuration
    else
      let! _ := disk dk_canonicalize in
      let! is_dir := disk dk_root_is_dir in
      if negb is_dir then sfail Corrupt
      else
        let! _ := put_state state_default in
        let! _ := lock in
        let! metadata := load_or_initialize max_bindings in
        let! journal := open_committed_journal metadata in
        synchronize journal metadata max_bindings.
End Store.
