(* ===== verification/RelCommit.v ===== *)
(** What the journal's store keeps across failures: [relations/store.rs].

    While a process holds the store's lock only its own calls change the root
    and the journal. A failed replacement leaves the old or the new root, a
    failed write leaves any prefix of its bytes after what was there. *)
From Stdlib Require Import Strings.Byte Strings.String Lia.
From stdpp Require Import base numbers sets sorting list.
From S2P Require Import Prelude Codec WireModel OrdMap Observation CtlModel CtlLedgerApi CtlFrame CtlCapacity CtlRecord CtlStore CtlRow RelPlan RelJournal RelHistory RelStore.
Import StoreError.

Section Laws.
Context `{JD : JournalDisk}.

(** This process holds the lock of the store. *)
Definition own (d : DWorld) : Prop := dk_held d LOCK_FILE.
Definition kept_name (name : bytes) : Prop := name = METADATA_FILE \/ name = JOURNAL_FILE.

(** A call that under the lock changes no kept name but those of [touched]. *)
Definition keeps {A} (touched : bytes -> Prop) (m : sres DWorld A IoError.t) : Prop :=
  forall d r d', m d = (r, d') -> r <> OutOfFuel /\
    (own d -> own d' /\ forall name, kept_name name -> ~ touched name -> dk_entry d' name = dk_entry d name).
Definition untouched : bytes -> Prop := fun _ => False.

(** Reading a directory ends, entry by entry. *)
Definition ends (entry : res DirEntry IoError.t) : Prop :=
  entry <> OutOfFuel /\ forall e, entry = Ok e -> de_type e <> OutOfFuel.

Class JournalLaws : Prop := {
  keeps_symlink_metadata name : keeps untouched (dk_symlink_metadata name);
  keeps_open name : keeps untouched (dk_open name);
  keeps_open_create name : keeps (eq name) (dk_open_create name);
  keeps_is_file f : keeps untouched (dk_is_file f);
  keeps_read f n : keeps untouched (dk_read_to_end f n);
  keeps_lock f : keeps untouched (dk_lock f);
  keeps_write name data : keeps (eq name) (dk_atomic_write name data);
  keeps_read_dir : keeps untouched dk_read_dir;
  keeps_read_subdir name : keeps untouched (dk_read_subdir name);
  read_dir_ends d entries d' : dk_read_dir d = (Ok entries, d') -> Forall ends entries;
  read_subdir_ends name d entries d' : dk_read_subdir name d = (Ok entries, d') -> Forall ends entries;
  keeps_remove_in directory name : keeps untouched (dk_remove_in directory name);
  keeps_remove_dir directory : keeps untouched (dk_remove_dir directory);
  keeps_jd_open name : keeps untouched (jd_open name);
  keeps_len f : keeps untouched (jd_len f);
  keeps_set_len f n : keeps (eq (dk_name f)) (jd_set_len f n);
  keeps_sync f : keeps untouched (jd_sync_all f);
  keeps_seek_start f n : keeps untouched (jd_seek_start f n);
  keeps_seek_end f : keeps untouched (jd_seek_end f);
  keeps_read_exact f n : keeps untouched (jd_read_exact f n);
  keeps_write_all f data : keeps (eq (dk_name f)) (jd_write_all f data);
  (** The root: a replaced file, read through the handle that was opened. *)
  open_reads name d f d' c : dk_open name d = (Ok f, d') -> own d -> dk_entry d name = Some (Regular c) -> dk_node f = Regular c;
  read_reads f n d data d' c : dk_read_to_end f n d = (Ok data, d') -> dk_node f = Regular c -> data = take (Z.to_nat n) c;
  write_replaces name data d d' :
    dk_atomic_write name data d = (Ok tt, d') -> own d -> dk_entry d' name = Some (Regular data);
  write_atomic name data d e d' :
    dk_atomic_write name data d = (Err e, d') -> own d -> dk_entry d' name = dk_entry d name \/ dk_entry d' name = Some (Regular data);
  (** The journal: a file written in place. *)
  jd_open_name name d f d' : jd_open name d = (Ok f, d') -> dk_name f = name;
  jd_len_reads f d n d' c : jd_len f d = (Ok n, d') -> own d -> dk_entry d (dk_name f) = Some (Regular c) -> n = len c;
  set_len_cuts f n d d' c :
    jd_set_len f n d = (Ok tt, d') -> own d -> dk_entry d (dk_name f) = Some (Regular c) -> 0 <= n <= len c ->
    dk_entry d' (dk_name f) = Some (Regular (take (Z.to_nat n) c));
  set_len_fails f n d e d' c :
    jd_set_len f n d = (Err e, d') -> own d -> dk_entry d (dk_name f) = Some (Regular c) -> 0 <= n <= len c ->
    dk_entry d' (dk_name f) = Some (Regular c) \/ dk_entry d' (dk_name f) = Some (Regular (take (Z.to_nat n) c));
  seek_start_moves f n d k d' : jd_seek_start f n d = (Ok k, d') -> jd_cursor d' f = n;
  seek_end_moves f d k d' c :
    jd_seek_end f d = (Ok k, d') -> own d -> dk_entry d (dk_name f) = Some (Regular c) -> k = len c /\ jd_cursor d' f = len c;
  read_exact_len f n d data d' : jd_read_exact f n d = (Ok data, d') -> 0 <= n -> len data = n;
  read_exact_reads f n d data d' c :
    jd_read_exact f n d = (Ok data, d') -> own d -> dk_entry d (dk_name f) = Some (Regular c) -> 0 <= n ->
    data = take (Z.to_nat n) (drop (Z.to_nat (jd_cursor d f)) c) /\ jd_cursor d' f = jd_cursor d f + n;
  write_all_appends f data d d' c :
    jd_write_all f data d = (Ok tt, d') -> own d -> dk_entry d (dk_name f) = Some (Regular c) -> jd_cursor d f = len c ->
    dk_entry d' (dk_name f) = Some (Regular (c ++ data));
  write_all_fails f data d e d' c :
    jd_write_all f data d = (Err e, d') -> own d -> dk_entry d (dk_name f) = Some (Regular c) -> jd_cursor d f = len c ->
    exists part, part `prefix_of` data /\ dk_entry d' (dk_name f) = Some (Regular (c ++ part))
}.
End Laws.

Section Commit.
Context `{JD : JournalDisk} {JL : JournalLaws} `{HH : Hashes} {HHL : HashLaws HH}.
Context `{JR : !Json RootMetadata} {JRL : JsonLaws RootMetadata} `{JE : !Json JournalEntry} {JEL : JsonLaws JournalEntry}.
Context (max : u64) (max_limit : 1 <= max <= RELATION_SCHEDULE_BINDING_LIMIT).

Abbreviation op A := (sres World A StoreError.t).

(** ** Journals as bytes *)

(** The bytes of one entry. *)
Definition chunk_of (chunk : bytes) (entry : JournalEntry) : Prop :=
  exists frame, chunk = to_be 8 (len frame) ++ frame /\ 0 < len frame <= MAX_ENTRY_BYTES /\ decode_entry frame = Ok entry.

(** The chunks of a journal, its actions and the state they replay to. *)
Inductive replays : list bytes -> history -> State -> Prop :=
  | replays_nil : replays [] [] state_default
  | replays_snoc chunks h state chunk entry state' :
      replays chunks h state -> chunk_of chunk entry ->
      apply_entry state entry (chain_digest chunk) (len chunk) max = Ok state' ->
      replays (chunks ++ [chunk]) (h ++ [je_action entry]) state'.

(** Two different chunks with one digest, the first in [l], the second in [l']. *)
Definition chain_collision (l l' : list bytes) : Prop :=
  exists c c', c ∈ l /\ c' ∈ l' /\ c <> c' /\ chain_digest c = chain_digest c'.

(** What the files hold: a root that summarises a journal, and the journal
    followed by bytes no root ever named. *)
Definition stored (chunks : list bytes) (h : history) (state : State) (root journal : option Node) : Prop :=
  replays chunks h state /\
  (exists data metadata, root = Some (Regular data) /\ len data <= MAX_ROOT_BYTES /\ decode_metadata data max = Ok metadata /\ state_matches state metadata = true) /\
  (exists junk, journal = Some (Regular (concat chunks ++ junk))).

(** The two files and the state in memory, under the lock. *)
Definition files (root journal : option Node) (state : State) (w : World) : Prop :=
  own w.1 /\ dk_entry w.1 METADATA_FILE = root /\ dk_entry w.1 JOURNAL_FILE = journal /\ w.2 = state.

Definition is_io (e : StoreError.t) : Prop := exists x, e = Io x.

Lemma decode_entry_limit frame entry :
  decode_entry frame = Ok entry -> len frame <= entry_byte_limit (je_action entry).
Proof.
  unfold decode_entry. destruct (decode _ _ _ _) as [e|x|]; [|done..].
  destruct (Z.leb_spec (len frame) (entry_byte_limit (je_action e))); [|done]. by intros [= <-].
Qed.

Lemma chunk_len chunk entry :
  chunk_of chunk entry -> 0 < len chunk <= ENTRY_LENGTH_BYTES + entry_byte_limit (je_action entry).
Proof.
  intros (frame & -> & Hl & Hd%decode_entry_limit). rewrite len_app, to_be_len. unfold ENTRY_LENGTH_BYTES. lia.
Qed.

Lemma chunk_of_fun chunk e e' : chunk_of chunk e -> chunk_of chunk e' -> e = e'.
Proof.
  intros (f & -> & _ & Hd) (f' & E & _ & Hd'). apply app_inj_1 in E as [_ ->]; [congruence|].
  apply Nat2Z.inj. etrans; [apply to_be_len|symmetry; apply to_be_len].
Qed.

Lemma replays_journal chunks h state : replays chunks h state -> journal max h state.
Proof.
  induction 1 as [|chunks h state chunk entry state' _ IH Hc Ha]; [constructor|].
  eapply journal_snoc; [exact IH|by eapply chunk_len|exact Ha].
Qed.

Lemma replays_replayed chunks h state : replays chunks h state -> replayed max h state.
Proof. intros Hr. apply journal_replayed; [lia|by eapply replays_journal]. Qed.

Lemma replays_tail chunks h state :
  replays chunks h state -> st_tail_digest state = chain_digest <$> last chunks.
Proof. induction 1 as [|????? state' _ _ _ Ha%apply_entry_Ok]; [done|]. rewrite last_snoc. apply Ha. Qed.

Lemma apply_entry_bytes state entry tail length m state' :
  apply_entry state entry tail length m = Ok state' -> st_journal_bytes state' = st_journal_bytes state + length.
Proof.
  unfold apply_entry. destruct (validate_append _ _ _ _) as [[]|e|]; [|done..].
  destruct (ok_or (checked_add (st_binding_count state) _) _); [|done..].
  destruct (ok_or (checked_add (st_entry_count state) _) _); [|done..].
  destruct (checked_add (st_journal_bytes state) length) as [n|] eqn:E; [|done]. apply checked_add_Some in E as [-> _].
  cbn [ok_or]. destruct (apply_action _ _) as [[]|e|]; [|done..]. by intros [= <-].
Qed.

Lemma replays_bytes chunks h state : replays chunks h state -> st_journal_bytes state = len (concat chunks).
Proof.
  induction 1 as [|chunks h state chunk entry state' _ IH _ Ha%apply_entry_bytes]; [done|].
  rewrite concat_app, len_app, Ha, IH. cbn. by rewrite app_nil_r.
Qed.

(** Journals with one tail are one journal. *)
Lemma replays_bound chunks h state chunks' h' state' :
  replays chunks h state -> replays chunks' h' state' -> st_tail_digest state = st_tail_digest state' ->
  chunks = chunks' /\ h = h' /\ state = state' \/ chain_collision chunks chunks'.
Proof.
  intros Hr. revert chunks' h' state'. induction Hr as [|chunks h state chunk entry state2 Hr IH Hc Ha]; intros chunks' h' state' Hr' Ht.
  - rewrite (replays_tail _ _ _ Hr') in Ht. cbn in Ht. destruct Hr'; [by left|]. by rewrite last_snoc in Ht.
  - destruct Hr' as [|chunks' h' state0 chunk' entry' state' Hr' Hc' Ha'].
    { apply apply_entry_Ok in Ha as (_ & _ & E). rewrite E in Ht. done. }
    pose proof (apply_entry_Ok _ _ _ _ _ _ Ha) as (Hp & _ & E). pose proof (apply_entry_Ok _ _ _ _ _ _ Ha') as (Hp' & _ & E').
    assert (chain_digest chunk = chain_digest chunk') by congruence. destruct (decide (chunk = chunk')) as [->|Hne].
    + assert (entry = entry') as -> by by eapply chunk_of_fun.
      destruct (IH _ _ _ Hr') as [(-> & -> & ->)|(c & c' & H1 & H2 & ?)]; [congruence|left|right].
      * split; [done|]. split; [done|]. congruence.
      * exists c, c'. split; [by apply elem_of_app; left|]. by split; [apply elem_of_app; left|].
    + right. exists chunk, chunk'. split; [apply elem_of_app; right; by left|]. by split; [apply elem_of_app; right; left|].
Qed.

Lemma replays_fun chunks h state h' state' : replays chunks h state -> replays chunks h' state' -> h = h' /\ state = state'.
Proof.
  intros Hr. revert h' state'. induction Hr as [|chunks h state chunk entry state2 Hr IH Hc Ha]; intros h' state' Hr'.
  - inversion Hr' as [|????????? E]; [done|]. by destruct chunks.
  - inversion Hr' as [E|chunks0 h0 state0 chunk0 entry0 state1 Hr0 Hc0 Ha0 E E1 E2]; [by destruct chunks|].
    apply app_inj_2 in E as [-> [= ->]]; [|done]. destruct (IH _ _ Hr0) as [-> ->].
    assert (entry0 = entry) as -> by by eapply chunk_of_fun. split; [done|]. congruence.
Qed.

(** The chunk a prefix of a journal goes on with. *)
Lemma replays_next chunks chunk rest h state h0 state0 :
  replays (chunks ++ chunk :: rest) h state -> replays chunks h0 state0 ->
  exists entry state1, chunk_of chunk entry /\ apply_entry state0 entry (chain_digest chunk) (len chunk) max = Ok state1 /\
    replays (chunks ++ [chunk]) (h0 ++ [je_action entry]) state1.
Proof.
  revert h state. induction rest as [|x rest IH] using rev_ind; intros h state Hr Hr0.
  - inversion Hr as [E|chunks1 h1 state1 chunk1 entry state2 Hr1 Hc Ha E E1 E2]; [by destruct chunks|].
    apply app_inj_2 in E as [-> [= ->]]; [|done]. destruct (replays_fun _ _ _ _ _ Hr1 Hr0) as [-> ->].
    exists entry, state. split; [done|]. split; [done|]. by eapply replays_snoc.
  - inversion Hr as [E|chunks1 h1 state1 chunk1 entry state2 Hr1 Hc Ha E E1 E2]; [by destruct chunks|].
    rewrite app_comm_cons, app_assoc in E. apply app_inj_2 in E as [-> _]; [|done]. by eapply IH.
Qed.

(** ** Calls under the lock *)

Definition quiet {A E} (m : sres DWorld A E) : Prop :=
  forall d r d', m d = (r, d') -> r <> OutOfFuel /\
    (own d -> own d' /\ forall name, kept_name name -> dk_entry d' name = dk_entry d name).

Lemma keeps_quiet {A} (m : sres DWorld A IoError.t) : keeps untouched m -> quiet m.
Proof.
  intros Hk d r d' E. destruct (Hk _ _ _ E) as [Hf Hd]. split; [done|]. intros Ho. destruct (Hd Ho) as [Ho' He].
  split; [done|]. intros name Hn. apply He; [done|intros []].
Qed.

Lemma quiet_files {A E} (m : sres DWorld A E) root journal state d s r d' :
  quiet m -> m d = (r, d') -> files root journal state (d, s) -> r <> OutOfFuel /\ files root journal state (d', s).
Proof.
  intros Hk E1 (Ho & <- & <- & <-). destruct (Hk _ _ _ E1) as [Hf Hd]. split; [done|]. destruct (Hd Ho) as [Ho' He].
  split; [done|]. split; [apply He; by left|]. split; [apply He; by right|done].
Qed.

Lemma hoare_disk {A} root journal state (m : sres DWorld A IoError.t) :
  keeps untouched m ->
  hoare (files root journal state) (disk m) (fun _ => files root journal state) (fun e w => is_io e /\ files root journal state w).
Proof.
  intros Hk%keeps_quiet [d s] Hs. unfold disk. cbn [fst snd]. destruct (m d) as [r d'] eqn:E.
  destruct (quiet_files _ _ _ _ _ _ _ _ Hk E Hs) as [Hf Hs']. destruct r as [a|e|]; [done| |done]. split; [by exists e|done].
Qed.

Lemma hoare_disk_kept {A} root journal state (m : sres DWorld A IoError.t) :
  keeps untouched m -> hoare (files root journal state) (disk m) (fun _ => files root journal state) (fun _ => files root journal state).
Proof. intros Hk. eapply hoare_conseq; [by apply hoare_disk|done|done|]. by intros e s [_ ?]. Qed.

Lemma hoare_of_directory {A} root journal state (m : sres DWorld A FileLedgerError.t) :
  quiet m -> hoare (files root journal state) (of_directory m) (fun _ => files root journal state) (fun _ => files root journal state).
Proof.
  intros Hk [d s] Hs. unfold of_directory. cbn [fst snd]. destruct (m d) as [r d'] eqn:E.
  destruct (quiet_files _ _ _ _ _ _ _ _ Hk E Hs) as [Hf Hs']. destruct r as [a|[]|]; done.
Qed.

Lemma quiet_bind {A B E} (m : sres DWorld A E) (k : A -> sres DWorld B E) : quiet m -> (forall a, quiet (k a)) -> quiet (sbind m k).
Proof.
  intros Hm Hk d r d' E1. unfold sbind in E1. destruct (m d) as [rm d1] eqn:Em. destruct (Hm _ _ _ Em) as [Hf Hd].
  destruct rm as [a|e|]; [|by injection E1 as <- <-|done]. destruct (Hk a _ _ _ E1) as [Hf' Hd']. split; [done|].
  intros Ho. destruct (Hd Ho) as [Ho1 He1]. destruct (Hd' Ho1) as [Ho2 He2]. split; [done|]. intros name Hn. rewrite He2; auto.
Qed.

Lemma quiet_slift {A E} (r : res A E) : r <> OutOfFuel -> quiet (slift r).
Proof. intros Hr d r' d' [= <- <-]. by split. Qed.

Lemma quiet_ledger {A} (m : sres DWorld A IoError.t) : keeps untouched m -> quiet (CtlStore.io m).
Proof.
  intros Hk%keeps_quiet d r d' E. unfold CtlStore.io in E. destruct (m d) as [r1 d1] eqn:E1.
  destruct (Hk _ _ _ E1) as [Hf Hd]. destruct r1; injection E as <- <-; by split.
Qed.

Lemma directory_loop_ends entries file : Forall ends entries -> atomic_directory_loop entries file <> OutOfFuel.
Proof.
  intros Hf. revert file. induction Hf as [|entry entries [He Ht] Hf IH]; intros file; [done|]. cbn [atomic_directory_loop].
  destruct entry as [entry|e|]; [|done..]. specialize (Ht _ eq_refl). destruct (is_some file || _); [done|].
  destruct (de_type entry) as [[]|e|]; done.
Qed.

Lemma quiet_directory_read name : quiet (atomic_directory_read name).
Proof.
  intros d r d' E. unfold atomic_directory_read, sbind, CtlStore.io in E. destruct (dk_read_subdir name d) as [r1 d1] eqn:E1.
  destruct (keeps_quiet _ (keeps_read_subdir name) _ _ _ E1) as [Hf Hd].
  destruct r1 as [entries|e|]; [|by injection E as <- <-|done]. apply read_subdir_ends in E1. unfold slift, sret in E.
  pose proof (directory_loop_ends entries None E1). destruct (atomic_directory_loop entries None); [by injection E as <- <-..|done].
Qed.

Lemma quiet_directory_remove directory : quiet (atomic_directory_remove directory).
Proof.
  apply quiet_bind; [|intros _; apply quiet_ledger, keeps_remove_dir].
  destruct (aw_file directory); [apply quiet_ledger, keeps_remove_in|by apply quiet_slift].
Qed.

(** ** Opening and reading *)

Abbreviation keeps_files root journal state m :=
  (hoare (files root journal state) m (fun _ => files root journal state) (fun _ => files root journal state)).

Lemma hoare_reject root journal state name : keeps_files root journal state (reject_non_file name).
Proof.
  intros w Hw. pose proof (hoare_disk_kept root journal state _ (keeps_symlink_metadata name) w Hw) as Hd. unfold reject_non_file.
  destruct (disk _ w) as [[m|e|] w']; [by destruct (dm_is_file m)| |done]. by destruct e as [| | | | | | |[]].
Qed.

Lemma hoare_open_regular root journal state name opening :
  keeps untouched (opening name) ->
  hoare (files root journal state) (open_regular name opening)
    (fun f w => (exists d d', opening name d = (Ok f, d')) /\ files root journal state w) (fun _ => files root journal state).
Proof.
  intros Hk. eapply hoare_bind; [apply hoare_reject|]. intros [].
  eapply (hoare_bind _ _ _ (fun f w => (exists d d', opening name d = (Ok f, d')) /\ files root journal state w)).
  - intros w Hw. pose proof (hoare_disk_kept root journal state _ Hk w Hw) as Hd. unfold disk in *.
    destruct (opening name w.1) as [[f|e|] d'] eqn:E; [|done..]. split; [by exists w.1, d'|done].
  - intros f. apply hoare_pure. intros Hf. eapply hoare_bind; [apply hoare_disk_kept, keeps_is_file|]. intros is_file.
    destruct (negb is_file); [by apply hoare_fail|by apply hoare_ret].
Qed.

Lemma hoare_open_journal root journal state :
  hoare (files root journal state) open_journal (fun f w => dk_name f = JOURNAL_FILE /\ files root journal state w)
    (fun _ => files root journal state).
Proof.
  eapply hoare_conseq; [apply hoare_open_regular, keeps_jd_open|done| |done].
  intros f w [(d & d' & E%jd_open_name) Hw]. done.
Qed.

Lemma hoare_siter {A} (P : World -> Prop) X (f : A -> op unit) l :
  (forall x, hoare P (f x) (fun _ => P) X) -> hoare P (siter f l) (fun _ => P) X.
Proof.
  intros Hf. induction l as [|x l IH]; [by apply hoare_ret|]. cbn [siter]. eapply hoare_bind; [apply Hf|]. by intros [].
Qed.

Lemma hoare_scan_loop root journal state position entries scan :
  Forall ends entries -> keeps_files root journal state (scan_loop position entries scan).
Proof.
  intros Hf. revert position scan. induction Hf as [|entry entries [He Ht] Hf IH]; intros position scan; [by apply hoare_ret|].
  cbn [scan_loop]. destruct (_ <=? _); [by apply hoare_fail|].
  eapply (hoare_bind _ _ _ (fun _ => files root journal state)).
  - apply hoare_lift; [|done..]. unfold root_entry. destruct entry as [entry|e|]; [|done..]. specialize (Ht _ eq_refl).
    destruct (negb _); [done|]. by destruct (de_type entry).
  - intros [name file_type]. eapply hoare_bind; [|intros scan'; apply IH].
    repeat case_match; try (by apply hoare_ret); try (by apply hoare_fail).
    eapply hoare_bind; [apply hoare_of_directory, quiet_directory_read|]. intros directory. by apply hoare_ret.
Qed.

Lemma hoare_scan_root root journal state : keeps_files root journal state scan_root.
Proof.
  eapply (hoare_bind _ _ _ (fun entries w => Forall ends entries /\ files root journal state w)).
  - intros w Hw. pose proof (hoare_disk_kept root journal state _ keeps_read_dir w Hw) as Hd. unfold disk in *.
    destruct (dk_read_dir w.1) as [[entries|e|] d'] eqn:E; [|done..]. split; [by eapply read_dir_ends|done].
  - intros entries. apply hoare_pure. intros Hf. eapply hoare_bind; [by apply hoare_scan_loop|]. intros scan.
    destruct (negb _); [by apply hoare_fail|]. eapply hoare_bind.
    + apply (hoare_siter (files root journal state)). intros directory. apply hoare_of_directory, quiet_directory_remove.
    + intros []. by apply hoare_ret.
Qed.

(** A bounded read of the root reads all of it. *)
Lemma hoare_read_root data journal state maximum :
  0 <= maximum < u64_max ->
  hoare (files (Some (Regular data)) journal state) (disk (read_bounded METADATA_FILE maximum))
    (fun r w => r = data /\ files (Some (Regular data)) journal state w) (fun _ => files (Some (Regular data)) journal state).
Proof.
  intros Hmax [d s] Hw. unfold disk, read_bounded, sbind, sfail, sret. cbn [fst snd].
  destruct (dk_open METADATA_FILE d) as [r1 d1] eqn:E1.
  destruct (quiet_files _ _ _ _ _ _ _ _ (keeps_quiet _ (keeps_open _)) E1 Hw) as [H1 Hw1]. destruct r1 as [f| |]; [|done..].
  destruct (dk_is_file f d1) as [r2 d2] eqn:E2.
  destruct (quiet_files _ _ _ _ _ _ _ _ (keeps_quiet _ (keeps_is_file _)) E2 Hw1) as [H2 Hw2]. destruct r2 as [is_file| |]; [|done..].
  destruct (jd_len f d2) as [r3 d3] eqn:E3.
  destruct (quiet_files _ _ _ _ _ _ _ _ (keeps_quiet _ (keeps_len _)) E3 Hw2) as [H3 Hw3]. destruct r3 as [length| |]; [|done..].
  destruct (negb is_file || (maximum <? length)); [done|].
  destruct (dk_read_to_end f _ d3) as [r4 d4] eqn:E4.
  destruct (quiet_files _ _ _ _ _ _ _ _ (keeps_quiet _ (keeps_read _ _)) E4 Hw3) as [H4 Hw4]. destruct r4 as [read| |]; [|done..].
  destruct (Z.ltb_spec maximum (len read)) as [|Hl]; [done|]. split; [|done].
  destruct Hw as (Ho & Hm & _). pose proof (open_reads _ _ _ _ _ E1 Ho Hm) as Hn. apply (read_reads _ _ _ _ _ _ E4) in Hn as ->.
  rewrite sat_add_small in * by (unfold usize_max; lia). apply take_ge. unfold len in Hl. rewrite length_take in Hl. lia.
Qed.

Lemma root_validate_fuel m : validate_metadata m <> OutOfFuel.
Proof. unfold validate_metadata. no_fuel. Qed.
Lemma decode_metadata_fuel data : decode_metadata data max <> OutOfFuel.
Proof.
  unfold decode_metadata. pose proof (decode_fuel Corrupt validate_metadata root_validate_fuel ROOT_FRAME data).
  destruct (decode _ _ _ _); [|done..]. by destruct (negb _).
Qed.

Lemma hoare_load_root data journal state :
  hoare (files (Some (Regular data)) journal state) (load_metadata max)
    (fun m w => decode_metadata data max = Ok m /\ files (Some (Regular data)) journal state w)
    (fun _ => files (Some (Regular data)) journal state).
Proof.
  eapply hoare_bind; [apply hoare_scan_root|]. intros [present_m present_j]. destruct (_ || _); [by apply hoare_fail|].
  eapply hoare_bind; [by apply hoare_read_root|]. intros read. apply hoare_pure. intros ->.
  apply hoare_lift; [apply decode_metadata_fuel|done..].
Qed.

(** ** The committed journal *)

(** Any bytes may follow the committed ones. *)
Definition torn (root : option Node) (committed : bytes) (state : State) (w : World) : Prop :=
  exists junk, files root (Some (Regular (committed ++ junk))) state w.

Lemma hoare_jd_len root c state f :
  dk_name f = JOURNAL_FILE ->
  hoare (files root (Some (Regular c)) state) (disk (jd_len f))
    (fun n w => n = len c /\ files root (Some (Regular c)) state w) (fun _ => files root (Some (Regular c)) state).
Proof.
  intros Hf w Hw. pose proof (hoare_disk_kept _ _ _ _ (keeps_len f) w Hw) as Hd. unfold disk in *.
  destruct (jd_len f w.1) as [[n|e|] d'] eqn:E; [|done..]. split; [|done].
  destruct Hw as (Ho & _ & Hj & _). eapply jd_len_reads; [exact E|done|by rewrite Hf].
Qed.

(** A call on the journal's handle leaves the root and the state alone. *)
Lemma touch_journal {A} (m : sres DWorld A IoError.t) f root j state d s r d' :
  dk_name f = JOURNAL_FILE -> keeps (eq (dk_name f)) m -> m d = (r, d') -> files root j state (d, s) ->
  r <> OutOfFuel /\ files root (dk_entry d' JOURNAL_FILE) state (d', s).
Proof.
  intros Hf Hk E (Ho & Hm & _ & Hs). destruct (Hk _ _ _ E) as [Hr Hd]. split; [done|]. destruct (Hd Ho) as [Ho' He].
  split; [done|]. split; [|by split]. rewrite <- Hm. apply He; [by left|]. by rewrite Hf.
Qed.

Lemma take_committed (c junk : bytes) : take (Z.to_nat (len c)) (c ++ junk) = c.
Proof. unfold len. by rewrite Nat2Z.id, take_app_length. Qed.

Lemma hoare_cut root c state f :
  dk_name f = JOURNAL_FILE ->
  hoare (torn root c state) (disk (jd_set_len f (len c)))
    (fun _ => files root (Some (Regular c)) state) (fun _ => torn root c state).
Proof.
  intros Hf [d s] [junk Hw]. unfold disk. cbn [fst snd]. destruct (jd_set_len f (len c) d) as [r d'] eqn:E.
  destruct (touch_journal _ _ _ _ _ _ _ _ _ Hf (keeps_set_len f _) E Hw) as [Hr Hw'].
  destruct Hw as (Ho & Hm & Hj & Hs). cbn [fst] in *. rewrite <- Hf in Hj. pose proof (len_nonneg c). pose proof (len_nonneg junk).
  destruct r as [[]|e|]; [| |done].
  - apply (set_len_cuts _ _ _ _ _ E Ho) in Hj; [|rewrite len_app; lia]. rewrite take_committed, Hf in Hj. by rewrite Hj in Hw'.
  - apply (set_len_fails _ _ _ _ _ _ E Ho) in Hj; [|rewrite len_app; lia]. rewrite take_committed, Hf in Hj.
    destruct Hj as [Hj|Hj]; rewrite Hj in Hw'; [by exists junk|exists []; by rewrite app_nil_r].
Qed.

Lemma hoare_torn {A} root c state (m : op A) Q X :
  (forall junk, hoare (files root (Some (Regular (c ++ junk))) state) m Q X) -> hoare (torn root c state) m Q X.
Proof. intros Hm. by apply hoare_exists. Qed.

Lemma files_torn root c state w : files root (Some (Regular c)) state w -> torn root c state w.
Proof. intros Hw. exists []. by rewrite app_nil_r. Qed.

Lemma hoare_open_committed root c state metadata :
  rm_journal_bytes metadata = len c ->
  hoare (torn root c state) (open_committed_journal metadata)
    (fun f w => dk_name f = JOURNAL_FILE /\ files root (Some (Regular c)) state w) (fun _ => torn root c state).
Proof.
  intros Hb. apply hoare_torn. intros junk.
  eapply hoare_bind; [eapply hoare_conseq; [apply hoare_open_journal|done|done|intros; by exists junk]|].
  intros f. apply hoare_pure. intros Hf.
  eapply hoare_bind; [eapply hoare_conseq; [by apply hoare_jd_len|done|done|intros; by exists junk]|].
  intros n. apply hoare_pure. intros ->. rewrite Hb, len_app.
  destruct (Z.ltb_spec (len c + len junk) (len c)); [apply hoare_fail; intros; by exists junk|].
  destruct (Z.ltb_spec (len c) (len c + len junk)).
  - eapply hoare_bind; [eapply hoare_pre; [by apply hoare_cut|intros; by exists junk]|]. intros [].
    eapply hoare_bind; [eapply hoare_conseq; [apply hoare_disk_kept, keeps_sync|done|done|intros; by apply files_torn]|].
    intros []. by apply hoare_ret.
  - assert (junk = []) as -> by (destruct junk; [done|]; rewrite len_cons in *; pose proof (len_nonneg junk); lia).
    apply hoare_ret. rewrite app_nil_r. done.
Qed.

(** ** Replaying *)

Lemma chunk_of_read chunk entry :
  chunk_of chunk entry ->
  exists frame, chunk = take 8 chunk ++ frame /\ len (take 8 chunk) = 8 /\ from_be_bytes (take 8 chunk) = len frame /\
    0 < len frame <= MAX_ENTRY_BYTES /\ decode_entry frame = Ok entry.
Proof.
  intros (frame & -> & Hl & Hd). exists frame. pose proof (to_be_len 8 (len frame)) as H8.
  assert (length (to_be 8 (len frame)) = 8%nat) as H8' by (apply Nat2Z.inj; exact H8).
  assert (take 8 (to_be 8 (len frame) ++ frame) = to_be 8 (len frame)) as -> by (rewrite <- H8' at 1; apply take_app_length). split; [done|]. split; [done|]. split; [|done].
  apply from_be_to_be. unfold MAX_ENTRY_BYTES in Hl. simpl. lia.
Qed.

(** The memory replays a prefix [chunks] of the journal, the cursor is after it. *)
Definition reading (root : option Node) (f : DFile) (chunks rest : list bytes) (h : history) (state : State) (w : World) : Prop :=
  files root (Some (Regular (concat (chunks ++ rest)))) state w /\ jd_cursor w.1 f = st_journal_bytes state /\
  replays chunks h state.

Lemma read_exact_step root f c state n d s r d' :
  dk_name f = JOURNAL_FILE -> 0 <= n -> files root (Some (Regular c)) state (d, s) -> jd_read_exact f n d = (r, d') ->
  r <> OutOfFuel /\ files root (Some (Regular c)) state (d', s) /\
  forall data, r = Ok data -> data = take (Z.to_nat n) (drop (Z.to_nat (jd_cursor d f)) c) /\ jd_cursor d' f = jd_cursor d f + n.
Proof.
  intros Hf Hn Hw E. destruct (quiet_files _ _ _ _ _ _ _ _ (keeps_quiet _ (keeps_read_exact f n)) E Hw) as [Hr Hw'].
  split; [done|]. split; [done|]. intros data ->. destruct Hw as (Ho & _ & Hj & _).
  eapply read_exact_reads; [exact E|done|by rewrite Hf|done].
Qed.

(** The state in memory replays some prefix of the journal. *)
Definition behind (root : option Node) (all : list bytes) (w : World) : Prop :=
  exists chunks rest h, all = chunks ++ rest /\ replays chunks h w.2 /\ files root (Some (Regular (concat all))) w.2 w.

Lemma read_length (chunks rest : list bytes) (chunk : bytes) :
  8 <= len chunk ->
  take (Z.to_nat 8) (drop (Z.to_nat (len (concat chunks))) (concat (chunks ++ chunk :: rest))) = take 8 chunk.
Proof.
  intros Hl. rewrite concat_app. unfold len at 1. rewrite Nat2Z.id, drop_app_length. cbn [concat].
  rewrite take_app_le; [done|]. unfold len in Hl. lia.
Qed.

Lemma read_frame (chunks rest : list bytes) (chunk frame : bytes) :
  chunk = take 8 chunk ++ frame -> len (take 8 chunk) = 8 ->
  take (Z.to_nat (len frame)) (drop (Z.to_nat (len (concat chunks) + 8)) (concat (chunks ++ chunk :: rest))) = frame.
Proof.
  intros Ec H8. rewrite concat_app, Z2Nat.inj_add by (done || apply len_nonneg). rewrite <- drop_drop. unfold len at 2.
  rewrite Nat2Z.id, drop_app_length. cbn [concat]. rewrite Ec. set (prefix := take 8 chunk) in *. rewrite <- app_assoc.
  replace (Z.to_nat 8) with (length prefix) by (unfold len in H8; lia). rewrite drop_app_length.
  unfold len. by rewrite Nat2Z.id, take_app_length.
Qed.

(** The lengths the loop checks, for the chunk at the cursor. *)
Lemma chunk_lengths (chunks rest : list bytes) (chunk frame : bytes) :
  chunk = take 8 chunk ++ frame -> len (take 8 chunk) = 8 -> 0 < len frame <= MAX_ENTRY_BYTES ->
  len chunk = ENTRY_LENGTH_BYTES + len frame /\ ENTRY_LENGTH_BYTES + len frame <= u64_max /\
  checked_sub (len (concat (chunks ++ chunk :: rest))) (len (concat chunks)) = Some (len chunk + len (concat rest)).
Proof.
  intros Ec H8 Hl. pose proof (len_nonneg (concat rest)).
  assert (len chunk = 8 + len frame) as Hcl by (rewrite Ec, len_app at 1; lia).
  unfold ENTRY_LENGTH_BYTES, MAX_ENTRY_BYTES, u64_max in *. split; [done|]. split; [lia|]. apply checked_sub_Some.
  rewrite concat_app, len_app. cbn [concat]. rewrite len_app. lia.
Qed.

Lemma hoare_read_entry root f chunks chunk rest h state hall final :
  dk_name f = JOURNAL_FILE -> replays (chunks ++ chunk :: rest) hall final ->
  hoare (reading root f chunks (chunk :: rest) h state) (read_entry f (len (concat (chunks ++ chunk :: rest))) max)
    (fun _ w => exists entry state', reading root f (chunks ++ [chunk]) rest (h ++ [je_action entry]) state' w)
    (fun e w => is_io e /\ behind root (chunks ++ chunk :: rest) w).
Proof.
  intros Hf Hall [d s] (Hw & Hc & Hr). destruct (replays_next _ _ _ _ _ _ _ Hall Hr) as (entry & state1 & Hchunk & Ha & Hr1).
  assert (s = state) as -> by apply Hw.
  assert (forall d', files root (Some (Regular (concat (chunks ++ chunk :: rest)))) state (d', state) ->
    behind root (chunks ++ chunk :: rest) (d', state)) as Hb by (intros; by exists chunks, (chunk :: rest), h).
  rewrite (replays_bytes _ _ _ Hr) in Hc. destruct (chunk_of_read _ _ Hchunk) as (frame & Ec & H8 & Hlen & Hl & Hd).
  destruct (chunk_lengths chunks rest chunk frame Ec H8 Hl) as (Hcl & Hover & Hsub). pose proof (len_nonneg (concat rest)).
  unfold read_entry, sbind, get_state, slift. cbn [snd fst]. rewrite (replays_bytes _ _ _ Hr), Hsub. cbn [ok_or].
  rewrite (proj2 (Z.ltb_ge _ ENTRY_LENGTH_BYTES)) by (unfold ENTRY_LENGTH_BYTES in *; lia).
  unfold disk at 1. cbn [fst snd] in *. destruct (jd_read_exact f 8 d) as [r1 d1] eqn:E1.
  destruct (read_exact_step _ _ _ _ 8 _ _ _ _ Hf ltac:(done) Hw E1) as (Hr1f & Hw1 & Hread).
  destruct r1 as [length_bytes|e|]; [|split; [by exists e|by apply Hb]|done]. destruct (Hread _ eq_refl) as [-> Hc1]. clear Hread.
  rewrite Hc, read_length, Hlen by (unfold ENTRY_LENGTH_BYTES in *; lia). rewrite checked_add_le by done. cbn [ok_or].
  rewrite <- Hcl, (proj2 (Z.ltb_ge _ _)), (proj2 (Z.eqb_neq _ _)), (proj2 (Z.ltb_ge _ _)) by lia. cbn [orb].
  unfold disk at 1. cbn [fst snd]. destruct (jd_read_exact f (len frame) d1) as [r2 d2] eqn:E2.
  destruct (read_exact_step _ _ _ _ _ _ _ _ _ Hf (len_nonneg frame) Hw1 E2) as (Hr2f & Hw2 & Hread).
  destruct r2 as [frame'|e|]; [|split; [by exists e|by apply Hb]|done]. destruct (Hread _ eq_refl) as [-> Hc2].
  rewrite Hc1, Hc, read_frame, Hd, <- Ec, Ha by done. cbn [fst snd put_state]. exists entry, state1. destruct Hw2 as (Ho & Hm & Hj & _).
  split; [|split; [|done]].
  - rewrite <- app_assoc. by split_and!.
  - cbn [fst]. rewrite Hc2, Hc1, Hc, (apply_entry_bytes _ _ _ _ _ _ Ha), (replays_bytes _ _ _ Hr), Hcl.
    unfold ENTRY_LENGTH_BYTES. lia.
Qed.

Lemma chunks_nonempty chunks h state : replays chunks h state -> Forall (fun chunk => 0 < len chunk) chunks.
Proof.
  induction 1 as [|chunks h state chunk entry state' _ IH Hc _]; [constructor|]. apply Forall_app. split; [done|].
  constructor; [|done]. apply chunk_len in Hc. lia.
Qed.

Lemma hoare_read_loop root f chunks rest h state hall final fuel :
  dk_name f = JOURNAL_FILE -> replays (chunks ++ rest) hall final ->
  len (concat (chunks ++ rest)) - st_journal_bytes state <= Z.of_nat fuel ->
  hoare (reading root f chunks rest h state) (read_loop fuel f (len (concat (chunks ++ rest))) max)
    (fun _ => files root (Some (Regular (concat (chunks ++ rest)))) final)
    (fun e w => is_io e /\ behind root (chunks ++ rest) w).
Proof.
  intros Hf. revert chunks h state fuel. induction rest as [|chunk rest IH]; intros chunks h state fuel Hall Hfuel w (Hw & Hc & Hr).
  - assert (w.2 = state) as Es by apply Hw. rewrite app_nil_r in *. destruct (replays_fun _ _ _ _ _ Hr Hall) as [-> ->].
    assert (read_loop fuel f (len (concat chunks)) max w = (Ok tt, w)) as ->.
    { destruct fuel; cbn [read_loop]; unfold sbind, get_state; rewrite Es, (replays_bytes _ _ _ Hr), Z.ltb_irrefl; done. }
    done.
  - assert (w.2 = state) as Es by apply Hw. pose proof (replays_bytes _ _ _ Hr) as Hb.
    assert (0 < len chunk) as Hpos.
    { pose proof (chunks_nonempty _ _ _ Hall) as Hn. apply Forall_app in Hn as [_ Hn]. by apply Forall_cons in Hn as [? _]. }
    assert (st_journal_bytes state < len (concat (chunks ++ chunk :: rest))) as Hlt.
    { rewrite Hb, concat_app, len_app. cbn [concat]. rewrite len_app. pose proof (len_nonneg (concat rest)). lia. }
    destruct fuel as [|fuel]; [cbn in Hfuel; lia|]. cbn [read_loop]. unfold sbind at 1, get_state. rewrite Es.
    rewrite (proj2 (Z.ltb_lt _ _)) by done.
    eapply (hoare_bind (reading root f chunks (chunk :: rest) h state));
      [by eapply hoare_read_entry| |split; [done|by split]].
    intros []. apply hoare_exists. intros entry. apply hoare_exists. intros state'.
    assert (chunks ++ chunk :: rest = (chunks ++ [chunk]) ++ rest) as E by by rewrite <- app_assoc.
    intros w' Hw'. rewrite E in *. apply (IH _ (h ++ [je_action entry]) state' fuel Hall); [|done].
    destruct Hw' as (_ & _ & Hr'). rewrite (replays_bytes _ _ _ Hr'), (concat_app chunks [chunk]), len_app. cbn [concat].
    rewrite app_nil_r, <- Hb. lia.
Qed.

Lemma replays_prefix chunks rest h state hall final :
  replays (chunks ++ rest) hall final -> replays chunks h state -> exists h', hall = h ++ h'.
Proof.
  revert hall final. induction rest as [|x rest IH] using rev_ind; intros hall final Hall Hr.
  - rewrite app_nil_r in Hall. destruct (replays_fun _ _ _ _ _ Hr Hall) as [-> _]. exists []. by rewrite app_nil_r.
  - inversion Hall as [E|chunks1 h1 state1 chunk1 entry state2 Hr1 Hc Ha E E1 E2]; [by destruct chunks, rest|].
    rewrite app_assoc in E. apply app_inj_2 in E as [-> _]; [|done]. destruct (IH _ _ Hr1 Hr) as [h' ->].
    exists (h' ++ [je_action entry]). by rewrite app_assoc.
Qed.

(** A prefix counts no more than the whole. *)
Lemma replays_counts chunks rest h state hall final :
  replays (chunks ++ rest) hall final -> replays chunks h state ->
  st_journal_bytes state <= st_journal_bytes final /\ st_binding_count state <= st_binding_count final /\
  st_entry_count state <= st_entry_count final.
Proof.
  intros Hall Hr. destruct (replays_prefix _ _ _ _ _ _ Hall Hr) as [h' ->].
  pose proof (replays_replayed _ _ _ Hr) as H1. pose proof (replays_replayed _ _ _ Hall) as H2.
  rewrite (replays_bytes _ _ _ Hr), (replays_bytes _ _ _ Hall), (rp_count _ _ _ H1), (rp_count _ _ _ H2),
    (rp_entries _ _ _ H1), (rp_entries _ _ _ H2), concat_app, scheduled_keys_app, !len_app.
  pose proof (len_nonneg (concat rest)). pose proof (len_nonneg (scheduled_keys h')). pose proof (len_nonneg h'). lia.
Qed.

Lemma state_matches_spec state metadata :
  state_matches state metadata = true <->
  st_binding_count state = rm_binding_count metadata /\ st_entry_count state = rm_entry_count metadata /\
  st_journal_bytes state = rm_journal_bytes metadata /\ st_tail_digest state = rm_tail_digest metadata.
Proof. unfold state_matches. rewrite !andb_true_iff, !Z.eqb_eq, bool_decide_eq_true. tauto. Qed.

Lemma hoare_synchronize root f all hall final metadata :
  dk_name f = JOURNAL_FILE -> replays all hall final -> state_matches final metadata = true ->
  hoare (behind root all) (synchronize f metadata max)
    (fun _ => files root (Some (Regular (concat all))) final) (fun e w => is_io e /\ behind root all w).
Proof.
  intros Hf Hall Hm [d s] (chunks & rest & h & -> & Hr & Hw). cbn [snd] in *.
  pose proof Hm as (Eb & Ee & Ej & Et)%state_matches_spec.
  destruct (replays_counts _ _ _ _ _ _ Hall Hr) as (Hj & Hb & He).
  unfold synchronize, sbind at 1, get_state at 1. cbn [snd]. destruct (state_matches s metadata) eqn:Es.
  - apply state_matches_spec in Es as (_ & _ & Ej' & _). cbn. assert (rest = []) as ->.
    { destruct rest as [|chunk rest]; [done|]. pose proof (chunks_nonempty _ _ _ Hall) as Hf'.
      apply Forall_app in Hf' as [_ [Hpos _]%Forall_cons]. pose proof (replays_bytes _ _ _ Hr). pose proof (replays_bytes _ _ _ Hall) as Hall'.
      rewrite concat_app, len_app in Hall'. cbn [concat] in Hall'. rewrite len_app in Hall'. pose proof (len_nonneg (concat rest)). lia. }
    rewrite app_nil_r in *. destruct (replays_fun _ _ _ _ _ Hr Hall) as [-> ->]. done.
  - rewrite !(proj2 (Z.ltb_ge _ _)) by lia. cbn [orb]. unfold sbind at 1, sret at 1.
    rewrite <- Ej, (replays_bytes _ _ _ Hall).
    eapply (hoare_bind (fun w => w = (d, s)) _ _ (fun _ => files root (Some (Regular (concat (chunks ++ rest)))) final)); [|intros []|done].
    + intros ? ->. unfold read_entries, sbind at 1, get_state at 1. cbn [snd].
      eapply (hoare_bind (files root (Some (Regular (concat (chunks ++ rest)))) s) _ _ (fun _ => reading root f chunks rest h s)); [|intros n|done].
      * intros [d0 s0] Hw0. assert (s0 = s) as -> by apply Hw0. pose proof (hoare_disk _ _ _ _ (keeps_seek_start f (st_journal_bytes s)) _ Hw0) as Hd. unfold disk in *.
        cbn [fst snd] in *. destruct (jd_seek_start _ _ d0) as [[k|e|] d'] eqn:E; [|destruct Hd as [? Hd]; split; [done|]; by exists chunks, rest, h|done].
        split; [done|]. split; [by eapply seek_start_moves|done].
      * eapply hoare_read_loop; [done|exact Hall|]. rewrite (replays_bytes _ _ _ Hall) in Hj. lia.
    + intros w0 Hw0. unfold sbind, get_state. assert (w0.2 = final) as -> by apply Hw0. rewrite Hm. done.
Qed.

(** ** Operations *)

(** Under the lock: the files hold the journal [all], the memory a prefix of it. *)
Definition consistent (all : list bytes) (h : history) (w : World) : Prop :=
  exists root journal final, files root journal w.2 w /\ stored all h final root journal /\
    exists chunks rest hp, all = chunks ++ rest /\ replays chunks hp w.2.

(** The memory is at the journal's end and nothing follows it. *)
Definition current (all : list bytes) (h : history) (state : State) (metadata : RootMetadata) (w : World) : Prop :=
  exists data, files (Some (Regular data)) (Some (Regular (concat all))) state w /\
    len data <= MAX_ROOT_BYTES /\ decode_metadata data max = Ok metadata /\ state_matches state metadata = true /\ replays all h state.

Lemma current_consistent all h state metadata w : current all h state metadata w -> consistent all h w.
Proof.
  intros (data & Hw & Hl & Hd & Hm & Hr). assert (w.2 = state) as Es by apply Hw. rewrite <- Es in *.
  eexists _, _, w.2. split; [exact Hw|]. split; [split_and!; [done|by exists data, metadata|exists []; by rewrite app_nil_r]|].
  exists all, [], h. by rewrite app_nil_r.
Qed.

Lemma behind_consistent data all h final metadata w :
  len data <= MAX_ROOT_BYTES -> decode_metadata data max = Ok metadata -> state_matches final metadata = true -> replays all h final ->
  behind (Some (Regular data)) all w -> consistent all h w.
Proof.
  intros Hl Hd Hm Hr (chunks & rest & hp & E & Hp & Hw). eexists _, _, final. split; [exact Hw|].
  split; [|by exists chunks, rest, hp]. split_and!; [done|by exists data, metadata|exists []; by rewrite app_nil_r].
Qed.

(** Once the lock is held, an operation sees exactly the committed journal. *)
Lemma hoare_resume all h :
  hoare (consistent all h) (resume max)
    (fun fm w => dk_name fm.1 = JOURNAL_FILE /\ exists state, current all h state fm.2 w) (fun _ => consistent all h).
Proof.
  intros w0 (root & journal & final & Hw0 & (Hr & (data & metadata & -> & Hl & Hd & Hm) & (junk & ->)) & (chunks & rest & hp & E & Hp)).
  assert (forall w, torn (Some (Regular data)) (concat all) w0.2 w -> consistent all h w) as Htorn.
  { intros w [junk' Hw]. assert (w.2 = w0.2) as Es by apply Hw. eexists _, _, final. rewrite Es. split; [exact Hw|].
    split; [|by exists chunks, rest, hp]. split_and!; [done|by exists data, metadata|by exists junk']. }
  revert w0 Hw0 Hp Htorn. intros w0 Hw0 Hp Htorn.
  eapply (hoare_bind (fun w => w = w0) _ _ (fun m w => decode_metadata data max = Ok m /\ files (Some (Regular data)) (Some (Regular (concat all ++ junk))) w0.2 w));
    [|intros m; apply hoare_pure; intros Hd'|done].
  { intros ? ->. pose proof (hoare_load_root data (Some (Regular (concat all ++ junk))) w0.2 w0 Hw0) as Hh.
    destruct (load_metadata max w0) as [[m|e|] w1]; [done| |done]. apply Htorn. by exists junk. }
  assert (m = metadata) as -> by congruence.
  eapply hoare_bind; [eapply hoare_conseq; [apply (hoare_open_committed (Some (Regular data)) (concat all) w0.2)| | |]|].
  - apply state_matches_spec in Hm as (_ & _ & <- & _). by eapply replays_bytes.
  - intros w Hw. by exists junk.
  - intros f w Hw. exact Hw.
  - intros e w Hw. by apply Htorn.
  - intros f. apply hoare_pure. intros Hf.
    eapply (hoare_bind _ _ _ (fun _ => files (Some (Regular data)) (Some (Regular (concat all))) final));
      [eapply hoare_conseq; [exact (hoare_synchronize (Some (Regular data)) f all h final metadata Hf Hr Hm)| | |]|].
    + intros w Hw. exists chunks, rest, hp. assert (w.2 = w0.2) as -> by apply Hw. done.
    + intros [] w Hw. exact Hw.
    + intros e w [_ Hw]. by eapply behind_consistent.
    + intros []. apply hoare_ret. intros w Hw. split; [done|]. exists final, data. by split_and!.
Qed.

(** ** Appending *)

Lemma encode_chunk entry chunk : encode_entry entry = Ok chunk -> chunk_of chunk entry.
Proof.
  unfold encode_entry. destruct (encode _ _ _ _) as [frame|e|] eqn:E; [|done..].
  destruct (Z.ltb_spec (entry_byte_limit (je_action entry)) (len frame)) as [|Hl]; [done|].
  destruct (ok_or _ _); [|done..]. intros [= <-]. exists frame. split; [done|].
  assert (len frame <= MAX_ENTRY_BYTES) as Hmax by (destruct (je_action entry); cbn in Hl; unfold MAX_ENTRY_BYTES, MAX_SMALL_ENTRY_BYTES in *; lia).
  assert (0 < len frame) as Hpos.
  { apply encode_framed in E. destruct (framed_len _ _ _ _ E) as (payload & _ & ->). pose proof (len_nonneg payload).
    pose proof (len_nonneg (magic ENTRY_FRAME)). lia. }
  assert (rust_slice frame) as Hs by (unfold rust_slice, isize_max, MAX_ENTRY_BYTES in *; lia).
  split; [lia|]. unfold decode_entry. rewrite (proj2 (decode_framed _ _ _ _ _ Hs) (proj1 (encode_framed _ _ _ _ _) E)).
  by rewrite (proj2 (Z.leb_le _ _)).
Qed.

Lemma encode_root next data :
  encode_metadata next = Ok data -> rm_max_bindings next = max -> len data <= MAX_ROOT_BYTES /\ decode_metadata data max = Ok next.
Proof.
  intros E%encode_framed Hmax. destruct (framed_len _ _ _ _ E) as (payload & Hp & Hl).
  assert (len data <= MAX_ROOT_BYTES) as Hle by (destruct E as (payload' & _ & Hp' & _ & _ & Hx); cbn [maximum ROOT_FRAME] in Hx; congruence || (rewrite Hp in Hp'; injection Hp' as <-; lia)).
  assert (rust_slice data) as Hs by (unfold rust_slice, isize_max, MAX_ROOT_BYTES in *; lia).
  split; [done|]. unfold decode_metadata. rewrite (proj2 (decode_framed _ _ _ _ _ Hs) E).
  by rewrite Hmax, Z.eqb_refl.
Qed.

Lemma encode_metadata_fuel m : encode_metadata m <> OutOfFuel.
Proof. apply encode_fuel, root_validate_fuel. Qed.

Definition rooted (next : RootMetadata) (journal : option Node) (state : State) (w : World) : Prop :=
  exists data, files (Some (Regular data)) journal state w /\ len data <= MAX_ROOT_BYTES /\ decode_metadata data max = Ok next.

Lemma hoare_save_root root journal state next :
  rm_max_bindings next = max ->
  hoare (files root journal state) (save_metadata next) (fun _ => rooted next journal state)
    (fun _ w => files root journal state w \/ rooted next journal state w).
Proof.
  intros Hmax. unfold save_metadata. intros w Hw. unfold sbind at 1, slift. pose proof (encode_metadata_fuel next).
  destruct (encode_metadata next) as [data|e|] eqn:E; [|by left|done]. destruct (encode_root _ _ E Hmax) as [Hl Hd].
  assert (forall w', files (Some (Regular data)) journal state w' -> rooted next journal state w') as Hn by (intros; by exists data).
  revert w Hw. change (hoare (files root journal state) (atomic_write METADATA_FILE data) (fun _ => rooted next journal state)
    (fun _ w => files root journal state w \/ rooted next journal state w)).
  eapply hoare_bind; [eapply hoare_conseq; [apply hoare_reject|done|done|by left]|]. intros [] [d s] Hw. unfold disk. cbn [fst snd].
  destruct (dk_atomic_write METADATA_FILE data d) as [r d'] eqn:E1. destruct (keeps_write _ _ _ _ _ E1) as [Hr Hk].
  destruct Hw as (Ho & <- & <- & <-). destruct (Hk Ho) as [Ho' He]. cbn [fst snd] in *.
  assert (dk_entry d' JOURNAL_FILE = dk_entry d JOURNAL_FILE) as Ej by (apply He; [by right|done]). destruct r as [[]|e|]; [| |done].
  - apply Hn. split_and!; cbn; [done|by eapply write_replaces|done|done].
  - destruct (write_atomic _ _ _ _ _ E1 Ho) as [Em|Em]; [left|right; apply Hn]; by split_and!.
Qed.

Lemma hoare_write_chunk root c state f data :
  dk_name f = JOURNAL_FILE ->
  hoare (fun w => files root (Some (Regular c)) state w /\ jd_cursor w.1 f = len c) (disk (jd_write_all f data))
    (fun _ => files root (Some (Regular (c ++ data))) state) (fun _ => torn root c state).
Proof.
  intros Hf [d s] [Hw Hc]. unfold disk. cbn [fst snd] in *. destruct (jd_write_all f data d) as [r d'] eqn:E.
  destruct (touch_journal _ _ _ _ _ _ _ _ _ Hf (keeps_write_all f _) E Hw) as [Hr Hw'].
  destruct Hw as (Ho & Hm & Hj & Hs). cbn [fst] in *. rewrite <- Hf in Hj. destruct r as [[]|e|]; [| |done].
  - pose proof (write_all_appends _ _ _ _ _ E Ho Hj Hc) as Hj'. rewrite Hf in Hj'. by rewrite Hj' in Hw'.
  - destruct (write_all_fails _ _ _ _ _ _ E Ho Hj Hc) as (part & _ & Hj'). rewrite Hf in Hj'. rewrite Hj' in Hw'. by exists part.
Qed.

Lemma apply_entry_counts state entry tail length m state' :
  apply_entry state entry tail length m = Ok state' ->
  st_binding_count state' = st_binding_count state + (if is_schedule (je_action entry) then 1 else 0) /\
  st_entry_count state' = st_entry_count state + 1.
Proof.
  unfold apply_entry. destruct (validate_append _ _ _ _) as [[]|e|]; [|done..].
  destruct (checked_add (st_binding_count state) _) as [n1|] eqn:E1; [|done]. apply checked_add_Some in E1 as [-> _].
  destruct (checked_add (st_entry_count state) _) as [n2|] eqn:E2; [|done]. apply checked_add_Some in E2 as [-> _].
  destruct (checked_add (st_journal_bytes state) length) as [n|]; [|done]. cbn [ok_or].
  destruct (apply_action _ _) as [[]|e|]; [|done..]. by intros [= <-].
Qed.

Lemma within_some a b limit : a + b <= limit -> limit <= u64_max -> within (checked_add a b) (Some limit) = Some (a + b).
Proof. intros Hl Hu. unfold within. rewrite checked_add_le by lia. by rewrite (proj2 (Z.leb_le _ _)). Qed.

(** The root that [append] computes is the one of the state it replays to. *)
Lemma next_root state metadata h entry tail length :
  replayed max h state -> state_matches state metadata = true -> je_previous_tail entry = st_tail_digest state ->
  validate_action state (je_action entry) max = Ok tt -> 0 < length <= ENTRY_LENGTH_BYTES + entry_byte_limit (je_action entry) ->
  exists state' max_entries, apply_entry state entry tail length max = Ok state' /\
    within (checked_add (rm_journal_bytes metadata) length) (journal_byte_limit max) = Some (st_journal_bytes state') /\
    within (checked_add (rm_binding_count metadata) (if is_schedule (je_action entry) then 1 else 0)) (Some max) = Some (st_binding_count state') /\
    checked_mul max MAX_ACTIONS_PER_BINDING = Some max_entries /\
    within (checked_add (rm_entry_count metadata) 1) (Some max_entries) = Some (st_entry_count state') /\
    st_tail_digest state' = Some tail.
Proof.
  intros Hr (<- & <- & <- & _)%state_matches_spec Ht Hv Hl.
  destruct (entry_accepted max h state entry tail length Hr (proj2 max_limit) Ht Hv Hl) as (state' & Ha & Hr').
  exists state', (max * 5). split; [done|]. destruct (apply_entry_counts _ _ _ _ _ _ Ha) as [-> ->].
  rewrite (apply_entry_bytes _ _ _ _ _ _ Ha). destruct (space_left _ _ _ Hr' (proj2 max_limit)) as (-> & -> & He & Hb).
  pose proof (rp_max _ _ _ Hr') as Hmax. destruct (apply_entry_counts _ _ _ _ _ _ Ha) as [E1 E2]. rewrite E1, E2 in *.
  rewrite (apply_entry_bytes _ _ _ _ _ _ Ha) in Hb. change MAX_JOURNAL_BYTES_PER_BINDING with 32808 in *.
  destruct max_limit as [_ Hlim]. unfold RELATION_SCHEDULE_BINDING_LIMIT in Hlim.
  rewrite !within_some by (unfold u64_max; lia). split_and!; [done..|]. by eapply apply_entry_Ok.
Qed.

Lemma validate_append_action state entry length :
  validate_append state entry length max = Ok tt -> validate_action state (je_action entry) max = Ok tt.
Proof.
  unfold validate_append. destruct (ok_or _ _); [|done..]. destruct (ok_or _ _); [|done..]. by destruct (_ || _).
Qed.
Lemma validate_append_next state entry tail length state' :
  apply_entry state entry tail length max = Ok state' -> validate_append state entry length max = Ok tt.
Proof. unfold apply_entry. by destruct (validate_append _ _ _ _) as [[]|e|]. Qed.

Lemma validate_append_fuel state entry length : validate_append state entry length max <> OutOfFuel.
Proof.
  unfold validate_append, validate_action, validate_status_progress, validate_stored_status, ok_or.
  repeat (case_match; simplify_eq; try done).
Qed.
Lemma encode_entry_fuel entry : encode_entry entry <> OutOfFuel.
Proof.
  unfold encode_entry. pose proof (encode_fuel Corrupt validate_entry) as Hf. specialize (Hf ltac:(intros v; unfold validate_entry; by case_match) ENTRY_FRAME entry).
  destruct (encode _ _ _ _); [|done..]. destruct (_ <? _); [done|]. by destruct (checked_add _ 8).
Qed.
Lemma encode_entry_error entry e : encode_entry entry = Err e -> e = Corrupt.
Proof.
  unfold encode_entry, encode, ok_or. intros E. repeat (case_match; simplify_eq; try done). all: unfold validate_entry in *; by case_match; simplify_eq.
Qed.

(** Only [append]'s own sums report a full store. *)
Definition never_full {A} (m : op A) : Prop := forall w w', m w <> (Err Full, w').
Lemma never_full_bind {A B} (m : op A) (k : A -> op B) : never_full m -> (forall a, never_full (k a)) -> never_full (sbind m k).
Proof. intros Hm Hk w w'. unfold sbind. destruct (m w) as [[a|e|] w1] eqn:E; [apply Hk|intros [= -> <-]; by eapply Hm|done]. Qed.
Lemma never_full_disk {A} (m : sres DWorld A IoError.t) : never_full (disk m).
Proof. intros w w'. unfold disk. by destruct (m w.1) as [[a|e|] d]. Qed.
Lemma never_full_lift {A} (r : res A StoreError.t) : r <> Err Full -> never_full (slift r).
Proof. intros Hr w w' [= E _]. done. Qed.

Lemma apply_entry_not_full state entry tail length : apply_entry state entry tail length max <> Err Full.
Proof.
  unfold apply_entry, apply_action, validate_append, validate_action, validate_status_progress, validate_stored_status, ok_or.
  repeat (case_match; simplify_eq; try done).
Qed.
Lemma never_full_save metadata : never_full (save_metadata metadata).
Proof.
  apply never_full_bind.
  - apply never_full_lift. unfold encode_metadata, encode, validate_metadata, ok_or. repeat (case_match; simplify_eq; try done).
  - intros data. apply never_full_bind; [|intros []; apply never_full_disk]. intros w w'. unfold reject_non_file.
    pose proof (never_full_disk (dk_symlink_metadata METADATA_FILE) w) as Hd. destruct (disk _ w) as [[m|e|] w1]; [by destruct (dm_is_file m)| |done].
    specialize (Hd w1). destruct e as [| | | | | | |[]]; congruence.
Qed.
Lemma never_full_commit f n entry chunk next : never_full (commit_chunk max f n entry chunk next).
Proof.
  apply never_full_bind; [done|]. intros state. apply never_full_bind; [apply never_full_disk|]. intros end_.
  destruct (negb _); [done|]. apply never_full_bind; [apply never_full_disk|]. intros [].
  apply never_full_bind; [apply never_full_disk|]. intros []. apply never_full_bind; [apply never_full_save|]. intros [].
  apply never_full_bind; [apply never_full_lift, apply_entry_not_full|]. intros applied.
  apply never_full_bind; [done|]. intros []. by destruct (negb _).
Qed.

(** The entry was committed, or nothing was. *)
Definition either (all : list bytes) (h : history) (a : JournalAction.t) (w : World) : Prop :=
  consistent all h w \/ exists chunk, consistent (all ++ [chunk]) (h ++ [a]) w.

Lemma hoare_commit_chunk all h state metadata f entry chunk next state' :
  dk_name f = JOURNAL_FILE -> je_previous_tail entry = st_tail_digest state -> chunk_of chunk entry ->
  apply_entry state entry (chain_digest chunk) (len chunk) max = Ok state' ->
  rm_max_bindings next = max -> state_matches state' next = true ->
  hoare (current all h state metadata) (commit_chunk max f (rm_journal_bytes metadata) entry chunk next)
    (fun m w => current (all ++ [chunk]) (h ++ [je_action entry]) state' m w)
    (fun _ => either all h (je_action entry)).
Proof.
  intros Hf Ht Hchunk Ha Hmax Hm' w (data & Hw & Hl & Hd & Hm & Hr). assert (w.2 = state) as Es by apply Hw.
  assert (replays (all ++ [chunk]) (h ++ [je_action entry]) state') as Hr' by by eapply replays_snoc.
  assert (rm_journal_bytes metadata = len (concat all)) as Hb.
  { apply state_matches_spec in Hm as (_ & _ & <- & _). by eapply replays_bytes. }
  assert (concat (all ++ [chunk]) = concat all ++ chunk) as Ec by (rewrite concat_app; cbn; by rewrite app_nil_r).
  assert (forall w, torn (Some (Regular data)) (concat all) state w -> consistent all h w) as Htorn.
  { intros w' [junk Hw']. assert (w'.2 = state) as Es' by apply Hw'. eexists _, _, state. rewrite Es'. split; [exact Hw'|].
    split; [split_and!; [done|by exists data, metadata|by exists junk]|]. exists all, [], h. by rewrite app_nil_r. }
  assert (forall w, rooted next (Some (Regular (concat all ++ chunk))) state w -> consistent (all ++ [chunk]) (h ++ [je_action entry]) w) as Hrooted.
  { intros w' (data' & Hw' & Hl' & Hd'). assert (w'.2 = state) as Es' by apply Hw'. eexists _, _, state'. rewrite Es'. split; [exact Hw'|].
    split; [split_and!; [done|by exists data', next|exists []; by rewrite Ec, app_nil_r]|]. by exists all, [chunk], h. }
  unfold commit_chunk, sbind at 1, get_state. rewrite Es. clear Es Ht.
  eapply (hoare_bind (files (Some (Regular data)) (Some (Regular (concat all))) state) _ _
    (fun n w => n = len (concat all) /\ files (Some (Regular data)) (Some (Regular (concat all))) state w /\ jd_cursor w.1 f = len (concat all)));
    [|intros n; apply hoare_pure; intros ->|done].
  { intros w0 Hw0. pose proof (hoare_disk_kept _ _ _ _ (keeps_seek_end f) w0 Hw0) as Hh. unfold disk in *.
    destruct (jd_seek_end f w0.1) as [[n|e|] d'] eqn:E; [|left; by apply Htorn, files_torn|done].
    destruct Hw0 as (Ho & _ & Hj & _). rewrite <- Hf in Hj. destruct (seek_end_moves _ _ _ _ _ E Ho Hj) as [-> Hc]. by split_and!. }
  rewrite Hb, Z.eqb_refl. cbn [negb].
  eapply hoare_bind; [eapply hoare_conseq; [exact (hoare_write_chunk (Some (Regular data)) (concat all) state f chunk Hf)|done| |]|].
  { intros u w0 Hw0. exact Hw0. }
  { intros e w0 Hw0. left. by apply Htorn. }
  intros [].
  eapply hoare_bind; [eapply hoare_conseq; [apply hoare_disk_kept, keeps_sync|done|done|]|].
  { intros e w0 Hw0. left. apply Htorn. by exists chunk. }
  intros [].
  eapply hoare_bind; [eapply hoare_conseq; [by apply hoare_save_root|done| |]|].
  { intros u w0 Hw0. exact Hw0. }
  { intros e w0 [Hw0|Hw0]; [left; apply Htorn; by exists chunk|right; exists chunk; by apply Hrooted]. }
  intros []. rewrite Ha. intros w0 (data' & Hw0 & Hl' & Hd'). unfold sbind, slift, put_state. rewrite Hm'. cbn [negb].
  exists data'. rewrite Ec. destruct Hw0 as (Ho & Hm0 & Hj0 & _). by split_and!.
Qed.

Lemma slift_bind {A B} (r : res A StoreError.t) (k : A -> op B) w :
  sbind (slift r) k w = match r with Ok a => k a w | Err e => (Err e, w) | OutOfFuel => (OutOfFuel, w) end.
Proof. unfold sbind, slift. by destruct r. Qed.

(** An action that does not fit the state changes nothing. *)
Lemma append_refused all h state metadata f a w :
  current all h state metadata w -> validate_action state a max <> Ok tt -> exists e, append max f metadata a w = (Err e, w).
Proof.
  intros (data & Hw & _) Hv. assert (w.2 = state) as Es by apply Hw.
  unfold append. unfold sbind at 1, get_state. rewrite Es, !slift_bind. pose proof (encode_entry_fuel (mkJournalEntry (st_tail_digest state) a)).
  destruct (encode_entry _) as [chunk|e|]; [|by exists e|done]. rewrite !slift_bind.
  destruct (within _ _); [|by exists Full]. cbn [ok_or]. rewrite !slift_bind.
  destruct (within _ _); [|by exists Full]. cbn [ok_or]. rewrite !slift_bind.
  destruct (checked_mul _ _); [|by exists Configuration]. cbn [ok_or]. rewrite !slift_bind.
  destruct (within _ _); [|by exists Full]. cbn [ok_or]. rewrite !slift_bind.
  pose proof (validate_append_fuel state (mkJournalEntry (st_tail_digest state) a) (len chunk)).
  destruct (validate_append _ _ _ _) as [[]|e|] eqn:E; [|by exists e|done]. by apply validate_append_action in E.
Qed.

#[local] Instance accepted_dec (r : res unit StoreError.t) : Decision (r = Ok tt).
Proof. destruct r as [[]|e|]; [by left|by right|by right]. Defined.

Lemma hoare_append all h state metadata f a :
  dk_name f = JOURNAL_FILE ->
  hoare (current all h state metadata) (append max f metadata a)
    (fun m w => exists chunk state', chunk_of chunk (mkJournalEntry (st_tail_digest state) a) /\
       apply_entry state (mkJournalEntry (st_tail_digest state) a) (chain_digest chunk) (len chunk) max = Ok state' /\
       current (all ++ [chunk]) (h ++ [a]) state' m w)
    (fun e w => (validate_action state a max = Ok tt -> e <> Full) /\ either all h a w).
Proof.
  intros Hf w Hw. destruct (decide (validate_action state a max = Ok tt)) as [Hv|Hv].
  2: { destruct (append_refused _ _ _ _ f _ _ Hw Hv) as [e ->]. split; [done|]. left. by eapply current_consistent. }
  assert (exists data, files (Some (Regular data)) (Some (Regular (concat all))) state w /\ state_matches state metadata = true /\ replays all h state)
    as (data & Hfiles & Hm & Hr) by (destruct Hw as (data & ? & _ & _ & ? & ?); by exists data).
  assert (w.2 = state) as Es by apply Hfiles. unfold append. unfold sbind at 1, get_state. rewrite Es. rewrite slift_bind.
  set (entry := mkJournalEntry (st_tail_digest state) a). pose proof (encode_entry_fuel entry) as Hfuel.
  destruct (encode_entry entry) as [chunk|e|] eqn:E; [| |done].
  2: { apply encode_entry_error in E as ->. split; [done|]. left. by eapply current_consistent. }
  apply encode_chunk in E. pose proof (replays_replayed _ _ _ Hr) as Hrr.
  destruct (next_root state metadata h entry (chain_digest chunk) (len chunk) Hrr Hm eq_refl Hv (chunk_len _ _ E))
    as (state' & max_entries & Ha & E1 & E2 & E3 & E4 & E5). cbn [je_action entry] in E2.
  rewrite E1, E2, E3. cbn [ok_or]. rewrite !slift_bind. rewrite E4. cbn [ok_or]. rewrite !slift_bind.
  rewrite (validate_append_next _ _ _ _ _ Ha).
  set (next := mkRootMetadata _ _ _ _ _).
  assert (state_matches state' next = true) as Hm' by (apply state_matches_spec; by split_and!).
  pose proof (hoare_commit_chunk all h state metadata f entry chunk next state' Hf eq_refl E Ha eq_refl Hm' w Hw) as Hc.
  pose proof (never_full_commit f (rm_journal_bytes metadata) entry chunk next w) as Hn.
  destruct (commit_chunk _ _ _ _ _ _ w) as [[m'|e|] w']; [by exists chunk, state'| |done]. split; [|done]. intros _ ->. by apply (Hn w').
Qed.

(** ** What never reports a full store *)

Lemma never_full_ret {A} (a : A) : never_full (sret a).
Proof. done. Qed.
Lemma never_full_corrupt {A} : never_full (sfail (A := A) Corrupt).
Proof. done. Qed.
Lemma never_full_get : never_full get_state.
Proof. done. Qed.
Lemma never_full_put s : never_full (put_state s).
Proof. done. Qed.
Lemma never_full_of_directory {A} (m : sres DWorld A FileLedgerError.t) : never_full (of_directory m).
Proof. intros w w'. unfold of_directory. by destruct (m w.1) as [[a|[]|] d]. Qed.
Lemma never_full_reject name : never_full (reject_non_file name).
Proof.
  intros w w'. unfold reject_non_file. pose proof (never_full_disk (dk_symlink_metadata name) w) as Hd.
  destruct (disk _ w) as [[m|e|] w1]; [by destruct (dm_is_file m)| |done]. specialize (Hd w1). destruct e as [| | | | | | |[]]; congruence.
Qed.
Lemma never_full_siter {A} (f : A -> op unit) l : (forall x, never_full (f x)) -> never_full (siter f l).
Proof. intros Hf. induction l as [|x l IH]; [done|]. apply never_full_bind; [apply Hf|by intros []]. Qed.

Ltac never_full :=
  repeat first
    [ apply never_full_bind; [|intros ?] | apply never_full_disk | apply never_full_of_directory | apply never_full_reject
    | apply never_full_get | apply never_full_put | apply never_full_ret | apply never_full_corrupt
    | progress case_match | apply never_full_lift ].

Lemma never_full_scan_loop position entries scan : never_full (scan_loop position entries scan).
Proof.
  revert position scan. induction entries as [|entry entries IH]; intros position scan; [done|]. cbn [scan_loop].
  destruct (_ <=? _); [done|]. apply never_full_bind.
  - apply never_full_lift. unfold root_entry. repeat (case_match; simplify_eq; try done).
  - intros [name file_type]. apply never_full_bind; [never_full|intros scan'; apply IH].
Qed.
Lemma never_full_scan : never_full scan_root.
Proof.
  apply never_full_bind; [apply never_full_disk|intros entries]. apply never_full_bind; [apply never_full_scan_loop|intros scan].
  destruct (negb _); [done|]. apply never_full_bind; [apply never_full_siter; intros; apply never_full_of_directory|done].
Qed.
Lemma never_full_load : never_full (load_metadata max).
Proof.
  apply never_full_bind; [apply never_full_scan|]. intros [a b]. destruct (_ || _); [done|].
  apply never_full_bind; [apply never_full_disk|]. intros data. apply never_full_lift.
  unfold decode_metadata, decode, validate_metadata, ok_or. repeat (case_match; simplify_eq; try done).
Qed.
Lemma never_full_open_committed metadata : never_full (open_committed_journal metadata).
Proof. unfold open_committed_journal, open_journal, open_regular. never_full. Qed.
Lemma never_full_read_entry f committed : never_full (read_entry f committed max).
Proof.
  unfold read_entry. never_full; try (unfold ok_or; by case_match).
  - unfold decode_entry, decode, validate_entry, ok_or. repeat (case_match; simplify_eq; try done).
  - apply apply_entry_not_full.
Qed.
Lemma never_full_read_loop fuel f committed : never_full (read_loop fuel f committed max).
Proof.
  induction fuel as [|fuel IH]; cbn [read_loop]; (apply never_full_bind; [done|]; intros state; destruct (_ <? _); [|done]); [done|].
  apply never_full_bind; [apply never_full_read_entry|by intros []].
Qed.
Lemma never_full_synchronize f metadata : never_full (synchronize f metadata max).
Proof.
  apply never_full_bind; [done|]. intros state. destruct (state_matches _ _); [done|].
  apply never_full_bind; [by destruct (_ || _)|]. intros []. apply never_full_bind.
  - apply never_full_bind; [done|]. intros s. apply never_full_bind; [apply never_full_disk|]. intros n. apply never_full_read_loop.
  - intros []. apply never_full_bind; [done|]. intros s. by destruct (negb _).
Qed.
Lemma never_full_resume : never_full (resume max).
Proof.
  apply never_full_bind; [apply never_full_load|]. intros metadata. apply never_full_bind; [apply never_full_open_committed|].
  intros f. apply never_full_bind; [apply never_full_synchronize|done].
Qed.
End Commit.
