(* ===== verification/RelMemory.v ===== *)
(** A directory in memory for the journal's store, which satisfies the laws
    [RelCommit] relies on. Its calls never fail. *)
From Stdlib Require Import Strings.Byte Strings.String Lia.
From stdpp Require Import base numbers gmap list.
From S2P Require Import Prelude Codec WireModel OrdMap CtlModel CtlFrame CtlCapacity CtlRecord CtlStore RelPlan RelJournal RelHistory RelStore RelCommit.

Record Memory := mkMemory { mm_files : gmap bytes Node; mm_locks : gset bytes; mm_cursor : Z }.

Definition mm_put (w : Memory) (name content : bytes) : Memory := mkMemory (<[name := Regular content]> (mm_files w)) (mm_locks w) (mm_cursor w).
Definition mm_seek (w : Memory) (n : Z) : Memory := mkMemory (mm_files w) (mm_locks w) n.
(** The content of a regular file, empty for anything else. *)
Definition mm_content (w : Memory) (name : bytes) : bytes := match mm_files w !! name with Some (Regular c) => c | _ => [] end.

Definition memory_disk : Disk := {|
  DWorld := Memory;
  DFile := bytes * Node;
  dk_symlink_metadata name w :=
    match mm_files w !! name with
    | None => (Err IoError.NotFound, w)
    | Some (Regular content) => (Ok (mkDiskMetadata true (len content)), w)
    | Some Irregular => (Ok (mkDiskMetadata false 0), w)
    end;
  dk_open name w :=
    match mm_files w !! name with
    | Some (Regular content) => (Ok (name, Regular content), w)
    | _ => (Err IoError.NotFound, w)
    end;
  dk_open_create name w :=
    match mm_files w !! name with
    | None => (Ok (name, Regular []), mm_put w name [])
    | Some node => (Ok (name, node), w)
    end;
  dk_is_file f w := (Ok (match f.2 with Regular _ => true | Irregular => false end), w);
  dk_read_to_end f n w :=
    match f.2 with Regular content => (Ok (take (Z.to_nat n) content), w) | Irregular => (Err IoError.Other, w) end;
  dk_lock f w := (Ok tt, mkMemory (mm_files w) ({[f.1]} ∪ mm_locks w) (mm_cursor w));
  dk_lock_shared f w := (Ok tt, w);
  dk_atomic_write name data w := (Ok tt, mm_put w name data);
  dk_remove name w := (Err IoError.Other, w);
  dk_read_dir w :=
    (Ok (map (fun row => Ok (mkDirEntry row.1 (Ok (match row.2 with Regular _ => TFile | Irregular => TOther end))))
          (map_to_list (mm_files w))), w);
  dk_read_subdir _ w := (Ok [], w);
  dk_remove_in _ _ w := (Ok tt, w);
  dk_remove_dir _ w := (Ok tt, w);
  dk_root_is_dir w := (Ok true, w);
  dk_canonicalize w := (Ok tt, w);
  dk_now w := (None, w);
  dk_random w := (None, w);
  dk_entry w name := mm_files w !! name;
  dk_node f := f.2;
  dk_name f := f.1;
  dk_held w l := l ∈ mm_locks w
|}.
#[local] Existing Instance memory_disk.

Definition memory_journal : JournalDisk := {|
  jd_open name w :=
    match mm_files w !! name with
    | Some (Regular content) => (Ok (name, Regular content), mm_seek w 0)
    | _ => (Err IoError.NotFound, w)
    end;
  jd_create_new name w :=
    match mm_files w !! name with None => (Ok tt, mm_put w name []) | Some _ => (Err IoError.Other, w) end;
  jd_len f w := (Ok (len (mm_content w f.1)), w);
  jd_set_len f n w := (Ok tt, mm_put w f.1 (take (Z.to_nat n) (mm_content w f.1)));
  jd_sync_all f w := (Ok tt, w);
  jd_seek_start f n w := (Ok n, mm_seek w n);
  jd_seek_end f w := (Ok (len (mm_content w f.1)), mm_seek w (len (mm_content w f.1)));
  jd_read_exact f n w :=
    let data := take (Z.to_nat n) (drop (Z.to_nat (mm_cursor w)) (mm_content w f.1)) in
    if len data =? n then (Ok data, mm_seek w (mm_cursor w + n)) else (Err IoError.UnexpectedEof, w);
  jd_write_all f data w :=
    (Ok tt, mm_put w f.1 (take (Z.to_nat (mm_cursor w)) (mm_content w f.1) ++ data));
  jd_try_lock f w := (Ok true, w);
  jd_cursor w _ := mm_cursor w
|}.
#[local] Existing Instance memory_journal.

Lemma mm_put_keeps (w : Memory) name content :
  own w -> own (mm_put w name content) /\
  forall n, kept_name n -> ~ name = n -> dk_entry (mm_put w name content) n = dk_entry w n.
Proof. intros Ho. split; [done|]. intros n _ Hn. cbn. by rewrite lookup_insert_ne. Qed.

Lemma memory_entries (w : Memory) :
  Forall ends (map (fun row => Ok (mkDirEntry row.1 (Ok (match row.2 with Regular _ => TFile | Irregular => TOther end)))) (map_to_list (mm_files w))).
Proof. apply Forall_map, Forall_forall. intros row _. split; [done|]. intros e [= <-]. done. Qed.

Lemma mm_content_entry w name c : mm_files w !! name = Some (Regular c) -> mm_content w name = c.
Proof. unfold mm_content. by intros ->. Qed.

Lemma memory_laws : JournalLaws.
Proof.
  split; unfold keeps; cbn; intros; repeat case_match; simplify_eq/=;
    repeat match goal with H : mm_files _ !! _ = Some (Regular _) |- _ => progress rewrite ?(mm_content_entry _ _ _ H) in * end;
    try (split; [done|]; first [done | apply mm_put_keeps | intros Ho; split; [unfold own in *; cbn in *; set_solver|done]]);
    try done; try apply memory_entries; try (split; [done|]); rewrite ?lookup_insert_eq; try done.
  - by apply Z.eqb_eq.
  - do 2 f_equal. f_equal. apply take_ge. unfold len in *. lia.
Qed.

(** A root without a journal's entries, just opened by this process. *)
Section Empty.
Context `{HH : Hashes} {HHL : HashLaws HH} `{JR : !Json RootMetadata} {JRL : JsonLaws RootMetadata}.
Context `{JE : !Json JournalEntry}.
Definition memory_root (root : bytes) : Memory :=
  mkMemory (<[METADATA_FILE := Regular root]> (<[JOURNAL_FILE := Regular []]> (<[LOCK_FILE := Regular []]> ∅))) {[LOCK_FILE]} 0.

Lemma memory_consistent max root :
  0 <= max -> encode_metadata (empty_metadata max) = Ok root -> consistent max [] [] (memory_root root, state_default).
Proof.
  intros Hmax He. destruct (encode_root max (empty_metadata max) root He eq_refl) as [Hl Hd].
  eexists _, _, state_default. split; [|split].
  - split; [set_solver|]. split; [apply lookup_insert_eq|]. split; [|done]. cbn. by rewrite lookup_insert_ne, lookup_insert_eq.
  - split; [constructor|]. split; [by exists root, (empty_metadata max)|by exists []].
  - exists [], [], []. split; [done|constructor].
Qed.
End Empty.
