(* ===== verification/RelWork.v ===== *)
(** Scheduling against the journal: [relations/store/binding.rs] and the
    operations [schedule] and [is_current] of [relations/store.rs].

    What is hashed is a value [serde_json] writes: its fields are the record's,
    its text a parameter. *)
From Stdlib Require Import Strings.Byte Strings.String Lia.
From stdpp Require Import base numbers sets sorting list.
From S2P Require Import Prelude Codec WireModel WireIdentity OrdMap Observation EvalModel Controls CtlModel CtlLedgerApi CtlFrame CtlStore RelPlan RelJournal RelHistory RelStore RelCommit RelMemory.
Import StoreError.

Definition PLAN_BINDING_DOMAIN : bytes := b_ "amiss/controller-relation-plan-binding-v1".
Definition SOURCE_BINDING_SCHEMA : bytes := b_ "amiss/controller-relation-source-binding-v1".
Definition WORK_BINDING_DOMAIN : bytes := b_ "amiss/controller-relation-work-binding-v1".

Record CheckedWork := mkCheckedWork {
  cw_transition : RelationTransition; cw_relation : bytes; cw_plan_binding : Digest.t; cw_binding : StoredBinding
}.

Record BoundPlanSubject := mkBoundPlanSubject {
  bp_role : bytes; bp_provider_namespace : bytes; bp_provider_instance : bytes; bp_integration : bytes;
  bp_repository_host : bytes; bp_repository_owner : bytes; bp_repository_name : bytes; bp_target : bytes;
  bp_object_format : bytes; bp_credential : bytes; bp_source : Digest.t; bp_limits : RelationLimits
}.
Record BoundPlan := mkBoundPlan {
  bl_identity : bytes; bl_context_digest : Digest.t; bl_projection : bytes; bl_subjects : BoundPlanSubject * BoundPlanSubject;
  bl_aggregate_limits : RelationLimits; bl_status_destinations : list RelationStatusDestination
}.
Record BoundWorkSubject := mkBoundWorkSubject {
  bw_role : bytes; bw_object_format : ObjectFormat; bw_base_commit : bytes; bw_candidate_commit : bytes; bw_base_tree : bytes; bw_candidate_tree : bytes
}.
Record BoundWork := mkBoundWork {
  bk_relation : bytes; bk_plan_binding : Digest.t; bk_coordination : bytes; bk_subjects : BoundWorkSubject * BoundWorkSubject
}.

(** [AsRefStr] of the two enums. *)
Definition object_format_str (f : ObjectFormat) : bytes := match f with Sha1 => b_ "sha1" | Sha256 => b_ "sha256" end.
Definition projection_kind_str (k : ProjectionKind.t) : bytes :=
  match k with
  | ProjectionKind.CodeTextV1 => b_ "code-text-v1"
  | ProjectionKind.SortedRowsV1 => b_ "sorted-rows-v1"
  | ProjectionKind.DecimalCountV1 => b_ "decimal-count-v1"
  | ProjectionKind.ContainsV1 => b_ "contains-v1"
  end.

(** [map] over an array of two, and with [?] on each. *)
Definition map_both {A B} (f : A -> B) (pair : A * A) : B * B := (f pair.1, f pair.2).
Definition try_both {A B E} (f : A -> res B E) (pair : A * A) : res (B * B) E :=
  let? l := f pair.1 in
  let? r := f pair.2 in
  Ok (l, r).

Section Binding.
Context `{HH : Hashes} {HHL : HashLaws HH} `{CS : !Canon ProjectionSource.t} `{JP : !Json BoundPlan} `{JW : !Json BoundWork}.

(** [Sha256::new_with_prefix(domain)], a zero byte, then [data]. *)
Definition domain_digest (domain data : bytes) : Digest.t := sha256_digest (domain ++ [x00] ++ data).

Definition bound_plan_subject (subject : RegisteredSubject) : res BoundPlanSubject StoreError.t :=
  let? source := ok_or (document_digest SOURCE_BINDING_SCHEMA (rs_source subject)) Corrupt in
  let scope := rs_scope subject in
  Ok (mkBoundPlanSubject (rs_role subject) (pi_namespace (ps_provider scope)) (pi_instance (ps_provider scope)) (ps_integration scope)
    (RepositoryIdentity.host (ps_repository scope)) (RepositoryIdentity.owner (ps_repository scope)) (RepositoryIdentity.name (ps_repository scope))
    (rs_target subject) (object_format_str (rs_object_format subject)) (rs_credential subject) source (rs_limits subject)).

Definition plan_binding (plan : RegisteredRelation) : res Digest.t StoreError.t :=
  let? subjects := try_both bound_plan_subject (rr_subjects plan) in
  let? data := ok_or (to_vec (mkBoundPlan (rr_identity plan) (rr_context_digest plan) (projection_kind_str (rr_projection plan)) subjects
    (rr_aggregate_limits plan) (rr_status_destinations plan))) Corrupt in
  Ok (domain_digest PLAN_BINDING_DOMAIN data).

Definition bound_work_subject (subject : RelationSubjectTransition) : BoundWorkSubject :=
  mkBoundWorkSubject (rt_role subject) (Oid.object_format (op_base (rt_commits subject)))
    (Oid.as_str (op_base (rt_commits subject))) (Oid.as_str (op_candidate (rt_commits subject)))
    (Oid.as_str (op_base (rt_trees subject))) (Oid.as_str (op_candidate (rt_trees subject))).

Definition checked_work (transition : RelationTransition) : res CheckedWork StoreError.t :=
  let? transition := map_err (fun _ => Schedule RelationScheduleError.InvalidTransition) (recheck transition) in
  let plan := tr_plan (rt_relation transition) in
  let? plan_binding := plan_binding plan in
  let relation := rr_identity plan in
  let subjects := map_both bound_work_subject (rt_subjects transition) in
  let? data := ok_or (to_vec (mkBoundWork relation plan_binding (rt_coordination transition) subjects)) Corrupt in
  Ok (mkCheckedWork transition relation plan_binding
    (mkStoredBinding (rt_coordination transition) (domain_digest WORK_BINDING_DOMAIN data) (tr_trigger_role (rt_relation transition)) 0)).

Definition pending_from_binding (transition : RelationTransition) (binding : StoredBinding) : res PendingRelation StoreError.t :=
  let relation := mkTriggeredRelation (tr_plan (rt_relation transition)) (sb_trigger_role binding) in
  let? transition :=
    map_err (fun _ => Corrupt) (relation_transition relation (sb_coordination binding) (rt_subjects transition)) in
  let? fence := ok_or (lease_fence_new (sb_fence binding)) Corrupt in
  Ok (mkPendingRelation transition fence).

Definition is_current_work (state : State) (checked : CheckedWork) (pending : PendingRelation) : bool :=
  match stored ← bt_get (cw_relation checked) (st_relations state);
        (if bool_decide (sr_plan_binding stored = cw_plan_binding checked)
         then bt_get (sr_current_coordination stored) (sr_bindings stored) else None) with
  | Some current =>
      bytes_eqb (sb_coordination current) (sb_coordination (cw_binding checked))
      && bool_decide (sb_work_binding current = sb_work_binding (cw_binding checked))
      && bytes_eqb (sb_trigger_role current) (sb_trigger_role (cw_binding checked))
      && (sb_fence current =? pd_fence pending)
  | None => false
  end.

(** [Option::transpose] of an option mapped by a fallible function. *)
Definition transpose_map {A B E} (f : A -> res B E) (o : option A) : res (option B) E :=
  match o with
  | Some a => let? b := f a in Ok (Some b)
  | None => Ok None
  end.

(** What [schedule] decides from the state alone: a duplicate, or the pending
    relation and the action that records it. *)
Definition decide_schedule (state : State) (checked : CheckedWork) (max_bindings : u64) :
    res (RelationAdmission.t * option JournalAction.t) StoreError.t :=
  let stored := bt_get (cw_relation checked) (st_relations state) in
  if match stored with Some stored => negb (bool_decide (sr_plan_binding stored = cw_plan_binding checked)) | None => false end
  then Err (Schedule RelationScheduleError.BindingConflict)
  else
    match stored ← stored; bt_get (sb_coordination (cw_binding checked)) (sr_bindings stored) with
    | Some previous =>
        if negb (bool_decide (sb_work_binding previous = sb_work_binding (cw_binding checked)))
        then Err (Schedule RelationScheduleError.CoordinationConflict)
        else
          let? pending := pending_from_binding (cw_transition checked) previous in
          Ok (RelationAdmission.Duplicate pending, None)
    | None =>
        if max_bindings <=? st_binding_count state then Err Full
        else
          let? current :=
            transpose_map (fun stored => ok_or (bt_get (sr_current_coordination stored) (sr_bindings stored)) Corrupt) stored in
          let? previous := transpose_map (pending_from_binding (cw_transition checked)) current in
          let? admission := map_err Schedule (schedule_relation previous (cw_transition checked)) in
          match admission with
          | RelationAdmission.Scheduled pending =>
              let binding := cw_binding checked in
              let binding :=
                mkStoredBinding (sb_coordination binding) (sb_work_binding binding) (sb_trigger_role binding) (pd_fence pending) in
              Ok (RelationAdmission.Scheduled pending,
                Some (JournalAction.Schedule (cw_relation checked) (cw_plan_binding checked) binding))
          | RelationAdmission.Duplicate _ => Err Corrupt
          end
    end.
End Binding.

Section Operations.
Context `{JD : JournalDisk} `{HH : Hashes} {HHL : HashLaws HH} `{JR : !Json RootMetadata} `{JE : !Json JournalEntry}.
Context `{CS : !Canon ProjectionSource.t} `{JP : !Json BoundPlan} `{JW : !Json BoundWork}.
Abbreviation op A := (sres World A StoreError.t).

(** [schedule] and [is_current] once the lock is held. *)
Definition schedule_locked (max_bindings : u64) (checked : CheckedWork) : op RelationAdmission.t :=
  let! (journal, metadata) := resume max_bindings in
  let! state := get_state in
  let! (admission, action) := slift (decide_schedule state checked max_bindings) in
  match action with
  | Some action =>
      let! _ := append max_bindings journal metadata action in
      sret admission
  | None => sret admission
  end.

Definition schedule (max_bindings : u64) (transition : RelationTransition) : op RelationAdmission.t :=
  let! checked := slift (checked_work transition) in
  let! _ := lock in
  schedule_locked max_bindings checked.

Definition is_current (max_bindings : u64) (pending : PendingRelation) : op bool :=
  let! checked := slift (checked_work (pd_transition pending)) in
  let! _ := begin max_bindings in
  let! state := get_state in
  sret (is_current_work state checked pending).
End Operations.

(** ** Deciding a schedule *)

Section Decide.
Context `{HH : Hashes} {HHL : HashLaws HH} `{CS : !Canon ProjectionSource.t} `{JP : !Json BoundPlan} `{JW : !Json BoundWork}.
Context (max : u64) (h : history) (state : State) (checked : CheckedWork).
Hypothesis history_state : replayed max h state.
Hypothesis within_limit : max <= RELATION_SCHEDULE_BINDING_LIMIT.

Abbreviation rows := (scheduled (cw_relation checked) h).

(** The work of a checked transition, at a fence. *)
Definition work_at (fence : u64) : StoredBinding :=
  mkStoredBinding (sb_coordination (cw_binding checked)) (sb_work_binding (cw_binding checked))
    (sb_trigger_role (cw_binding checked)) fence.

(** The work was scheduled before: the recorded fence and trigger role. *)
Definition repeats (pending : PendingRelation) : Prop :=
  exists binding, (cw_plan_binding checked, binding) ∈ rows /\
    sb_coordination binding = sb_coordination (cw_binding checked) /\ sb_work_binding binding = sb_work_binding (cw_binding checked) /\
    pending_from_binding (cw_transition checked) binding = Ok pending.

(** The work is new: it takes the next fence. *)
Definition extends (pending : PendingRelation) (action : JournalAction.t) : Prop :=
  pending = mkPendingRelation (cw_transition checked) (len rows + 1) /\
  action = JournalAction.Schedule (cw_relation checked) (cw_plan_binding checked) (work_at (len rows + 1)) /\
  may_schedule rows (cw_plan_binding checked) (work_at (len rows + 1)) /\ len (scheduled_keys h) < max.

Lemma pending_from_binding_fence transition binding pending :
  pending_from_binding transition binding = Ok pending -> pd_fence pending = sb_fence binding.
Proof.
  unfold pending_from_binding. destruct (map_err _ _); [|done..]. unfold lease_fence_new. destruct (_ =? 0); [done|].
  cbn [ok_or]. by intros [= <-].
Qed.

Lemma decide_schedule_Ok admission action :
  recheck (cw_transition checked) = Ok (cw_transition checked) ->
  decide_schedule state checked max = Ok (admission, action) ->
  match admission, action with
  | RelationAdmission.Duplicate pending, None => repeats pending
  | RelationAdmission.Scheduled pending, Some action => extends pending action
  | _, _ => False
  end.
Proof.
  intros Hre. unfold decide_schedule. pose proof (rp_relation _ _ _ history_state (cw_relation checked)) as Hh.
  pose proof (rp_count _ _ _ history_state) as Hk.
  destruct (bt_get (cw_relation checked) (st_relations state)) as [R|]; cbn [mbind option_bind transpose_map].
  - case_bool_decide as Hp; cbn [negb]; [|done]. destruct (current_last _ _ Hh) as (l & b0 & El & Hc & Hf).
    destruct Hh as (l' & b1 & El' & _ & _ & _ & Hg & _).
    destruct (bt_get (sb_coordination (cw_binding checked)) (sr_bindings R)) as [previous|] eqn:Eb.
    + case_bool_decide as Hw; cbn [negb]; [|done]. destruct (pending_from_binding _ _) as [pending|e|] eqn:Ep; [|done..].
      intros [= <- <-]. apply Hg in Eb as [Hin Hco]. exists previous. split; [|done]. rewrite El', <- Hp.
      apply list_elem_of_fmap. by exists previous.
    + destruct (Z.leb_spec max (st_binding_count state)); [done|]. rewrite Hc. cbn [ok_or transpose_map].
      destruct (pending_from_binding _ b0) as [previous|e|] eqn:Ep; [|done..].
      destruct (schedule_relation _ _) as [a|e|] eqn:Es; [|done..]. cbn [map_err].
      destruct a as [pending|pending]; [|done]. intros [= <- <-].
      apply schedule_relation_Ok in Es as (again & Hre' & Hpd & Hfence & _). rewrite Hre in Hre'. injection Hre' as <-.
      rewrite (pending_from_binding_fence _ _ _ Ep), Hf in Hfence. destruct pending as [t fence]. cbn [pd_transition pd_fence] in *.
      subst t fence. split; [done|]. split; [done|]. split; [|lia]. split; [done|]. intros row.
      rewrite El'. intros (x & -> & Hx)%list_elem_of_fmap. split; [done|]. cbn. intros Ec.
      by rewrite (proj2 (Hg (sb_coordination (cw_binding checked)) x)) in Eb.
  - destruct (Z.leb_spec max (st_binding_count state)); [done|].
    destruct (schedule_relation _ _) as [a|e|] eqn:Es; [|done..]. cbn [map_err].
    destruct a as [pending|pending]; [|done]. intros [= <- <-].
    apply schedule_relation_Ok in Es as (again & Hre' & Hpd & Hfence). rewrite Hre in Hre'. injection Hre' as <-.
    destruct pending as [t fence]. cbn [pd_transition pd_fence] in *. subst t fence. cbn in Hh.
    unfold extends, may_schedule. rewrite Hh, len_nil. setoid_rewrite elem_of_nil. split_and!; [done..|lia].
Qed.

Lemma extends_accepted pending action :
  extends pending action -> validate_action state action max = Ok tt.
Proof.
  intros (_ & -> & Hm & Hc). cbn [validate_action].
  rewrite <- (rp_count _ _ _ history_state) in Hc.
  assert (st_binding_count state < u64_max) as Hu by (unfold RELATION_SCHEDULE_BINDING_LIMIT, u64_max in *; lia).
  by rewrite (proj2 (schedule_fits_spec max h state (cw_relation checked) _ _ history_state Hu)).
Qed.
End Decide.

Lemma checked_work_Ok `{HH : Hashes} {HHL : HashLaws HH} `{CS : !Canon ProjectionSource.t} `{JP : !Json BoundPlan} `{JW : !Json BoundWork}
    transition checked :
  checked_work transition = Ok checked ->
  recheck (cw_transition checked) = Ok (cw_transition checked) /\
  cw_relation checked = rr_identity (tr_plan (rt_relation transition)) /\
  sb_coordination (cw_binding checked) = rt_coordination transition /\
  rt_coordination (cw_transition checked) = rt_coordination transition.
Proof.
  unfold checked_work. destruct (recheck transition) as [t|e|] eqn:Er; [|done..]. cbn [map_err].
  destruct (plan_binding _); [|done..]. destruct (to_vec _); [|done]. intros [= <-]. cbn.
  destruct (recheck_Ok _ _ Er) as (E1 & E2 & _). split; [by eapply recheck_idempotent|]. by rewrite E1, E2.
Qed.

(** ** The operation *)

Lemma decide_schedule_fuel `{HH : Hashes} {HHL : HashLaws HH} `{CS : !Canon ProjectionSource.t} `{JP : !Json BoundPlan} `{JW : !Json BoundWork}
    state checked max : decide_schedule state checked max <> OutOfFuel.
Proof.
  assert (forall t binding, pending_from_binding t binding <> OutOfFuel) as Hp.
  { intros t binding. unfold pending_from_binding, map_err, relation_transition, ok_or. repeat (case_match; simplify_eq; try done). }
  unfold decide_schedule, transpose_map, map_err, schedule_relation, recheck, relation_transition, ok_or.
  repeat (case_match; simplify_eq; try done). all: exfalso; by eapply Hp.
Qed.

Lemma decide_schedule_full `{HH : Hashes} {HHL : HashLaws HH} `{CS : !Canon ProjectionSource.t} `{JP : !Json BoundPlan} `{JW : !Json BoundWork}
    state checked max : decide_schedule state checked max = Err Full -> max <= st_binding_count state.
Proof.
  assert (forall t binding, pending_from_binding t binding <> Err Full) as Hp.
  { intros t binding. unfold pending_from_binding, map_err, ok_or. repeat (case_match; simplify_eq; try done). }
  unfold decide_schedule. destruct (match bt_get _ _ with Some _ => _ | None => _ end); [done|].
  destruct (bt_get _ _ ≫= _) as [previous|].
  - destruct (negb _); [done|]. pose proof (Hp (cw_transition checked) previous). destruct (pending_from_binding _ _); intros; congruence.
  - destruct (Z.leb_spec max (st_binding_count state)); [done|]. unfold transpose_map, map_err, ok_or.
    repeat (case_match; simplify_eq; try done). all: intros E; simplify_eq; exfalso; by eapply Hp.
Qed.

Section Schedule.
Context `{JD : JournalDisk} {JL : JournalLaws} `{HH : Hashes} {HHL : HashLaws HH}.
Context `{JR : !Json RootMetadata} {JRL : JsonLaws RootMetadata} `{JE : !Json JournalEntry} {JEL : JsonLaws JournalEntry}.
Context `{CS : !Canon ProjectionSource.t} `{JP : !Json BoundPlan} `{JW : !Json BoundWork}.

(** C10: with the lock held and the files consistent, [schedule] answers a
    coordination whose work the journal already holds with the fence recorded
    for it and changes nothing, and new work with the relation's next fence,
    committed as one entry after the journal. When it fails the journal is as
    before or holds exactly that entry, the files stay consistent, and the
    store is reported full only when every binding it may hold was scheduled. *)
Theorem schedule_durable max all h transition checked w :
  1 <= max <= RELATION_SCHEDULE_BINDING_LIMIT -> checked_work transition = Ok checked -> consistent max all h w ->
  match schedule_locked max checked w with
  | (Ok (RelationAdmission.Duplicate pending), w') => repeats h checked pending /\ consistent max all h w'
  | (Ok (RelationAdmission.Scheduled pending), w') =>
      exists action chunk, extends max h checked pending action /\ consistent max (all ++ [chunk]) (h ++ [action]) w'
  | (Err e, w') =>
      (e = Full -> max <= len (scheduled_keys h)) /\
      (consistent max all h w' \/
       exists pending action chunk, extends max h checked pending action /\ consistent max (all ++ [chunk]) (h ++ [action]) w')
  | (OutOfFuel, _) => False
  end.
Proof.
  intros Hmax (Hre & _)%checked_work_Ok Hw. unfold schedule_locked, sbind at 1.
  pose proof (hoare_resume max Hmax all h w Hw) as Hb. pose proof (never_full_resume max w) as Hn.
  destruct (resume max w) as [[[f metadata]|e|] w1]; [|split; [intros ->; by destruct (Hn w1)|by left]|done].
  destruct Hb as (Hf & state & Hcur). cbn [fst snd] in *. assert (w1.2 = state) as Es by (destruct Hcur as (? & Hx & _); apply Hx).
  assert (replayed max h state) as Hr by (destruct Hcur as (? & _ & _ & _ & _ & Hx); by eapply replays_replayed).
  pose proof (current_consistent _ _ _ _ _ _ Hcur) as Hcon.
  unfold sbind at 1, get_state. rewrite Es, slift_bind. pose proof (decide_schedule_fuel state checked max) as Hfuel.
  destruct (decide_schedule state checked max) as [[admission action]|e|] eqn:Ed; [| |done].
  2: { split; [intros ->|by left]. rewrite <- (rp_count _ _ _ Hr). by eapply decide_schedule_full. }
  apply (decide_schedule_Ok max h state checked Hr) in Ed; [|done].
  destruct action as [action|]; destruct admission as [pending|pending]; [|done..].
  pose proof (extends_accepted max h state checked Hr (proj2 Hmax) _ _ Ed) as Hv.
  pose proof (hoare_append max Hmax all h state metadata f action Hf w1 Hcur) as Ha. unfold sbind, sret.
  destruct (append max f metadata action w1) as [[m|e|] w2]; [| |done].
  - destruct Ha as (chunk & state' & _ & _ & Hc). exists action, chunk. split; [done|]. by eapply current_consistent.
  - destruct Ha as [Hnf [Hc|(chunk & Hc)]]; (split; [intros ->; by destruct (Hnf Hv)|]); [by left|right]. by exists pending, action, chunk.
Qed.
End Schedule.

(** ** An example: the first schedule of an empty store in memory *)

#[export] Instance JournalAction_eq_dec : EqDecision JournalAction.t.
Proof. solve_decision. Defined.
#[export] Instance JournalEntry_eq_dec : EqDecision JournalEntry.
Proof. solve_decision. Defined.
#[export] Instance RootMetadata_eq_dec : EqDecision RootMetadata.
Proof. solve_decision. Defined.

Section Example.
#[local] Existing Instance toy_hash.
#[local] Existing Instance toy_hash_laws.
#[local] Existing Instance memory_disk.
#[local] Existing Instance memory_journal.
#[local] Instance ex_canon : Canon ProjectionSource.t := fun _ => Some [].
#[local] Instance ex_plan_json : Json BoundPlan := {| to_vec p := Some (bl_identity p); from_slice _ := None |}.
#[local] Instance ex_work_json : Json BoundWork := {| to_vec p := Some (bk_coordination p); from_slice _ := None |}.

Definition ex_oid (b : Byte.byte) : Oid.t := Oid.mk Sha1 (repeat b 40).
Definition ex_pair (b : Byte.byte) : OidPair := mkOidPair (ex_oid b) (ex_oid b).
Definition ex_transition : RelationTransition :=
  mkRelationTransition (mkTriggeredRelation (sorted_plan example_relation) (b_ "docs")) (b_ "c-1")
    (mkRelationSubjectTransition (b_ "docs") (ex_pair x61) (ex_pair x62), mkRelationSubjectTransition (b_ "source") (ex_pair x63) (ex_pair x64)).
Definition ex_checked : option CheckedWork := res_ok (checked_work ex_transition).
Definition ex_action : option JournalAction.t :=
  checked ← ex_checked; decided ← res_ok (decide_schedule state_default checked 3); decided.2.
Definition ex_entries : list JournalEntry := match ex_action with Some a => [mkJournalEntry None a] | None => [] end.
#[local] Instance ex_entry_json : Json JournalEntry := table_json ex_entries.
Definition ex_chunk : bytes := default [] (entry ← head ex_entries; res_ok (encode_entry entry)).
Definition ex_roots : list RootMetadata := [empty_metadata 3; mkRootMetadata 3 1 1 (len ex_chunk) (Some (chain_digest ex_chunk))].
#[local] Instance ex_root_json : Json RootMetadata := table_json ex_roots.
Definition ex_root : bytes := default [] (res_ok (encode_metadata (empty_metadata 3))).

Definition ex_world : World := (memory_root ex_root, state_default).

Lemma schedule_durable_witness : exists checked,
  checked_work ex_transition = Ok checked /\ consistent 3 [] [] ex_world /\
  exists pending w', schedule_locked 3 checked ex_world = (Ok (RelationAdmission.Scheduled pending), w') /\
    exists action chunk, extends 3 [] checked pending action /\ consistent 3 [chunk] [action] w'.
Proof.
  destruct (checked_work ex_transition) as [checked|e|] eqn:E; [|vm_compute in E; done..]. exists checked. split; [done|].
  assert (consistent 3 [] [] ex_world) as Hc.
  { apply (memory_consistent (JRL := table_json_laws ex_roots)); [done|]. vm_compute. reflexivity. }
  split; [exact Hc|].
  pose proof (schedule_durable (JL := memory_laws) (JRL := table_json_laws ex_roots) (JEL := table_json_laws ex_entries)
    3 [] [] ex_transition checked ex_world ltac:(done) E Hc) as H.
  destruct (schedule_locked 3 checked ex_world) as [r w'] eqn:Er.
  assert (exists pending, r = Ok (RelationAdmission.Scheduled pending)) as [pending ->].
  { apply (f_equal fst) in Er. cbn [fst] in Er. rewrite <- Er. clear -E. vm_compute in E. injection E as <-. vm_compute. eauto. }
  exists pending, w'. split; [done|]. exact H.
Defined.
End Example.
