(* ===== verification/WireEnvelope.v ===== *)
(** Sealed documents: [amiss-wire/src/envelope.rs], and [read] and
    [deserialize_error] of [de.rs].

    The schema of a document has one value and is not stored. Serde's derives
    and serde_json's reader are parameters; the writer's text is spelled out. *)
From Stdlib Require Import Strings.Byte Strings.String Lia.
From stdpp Require Import base numbers list.
From S2P Require Import Prelude Codec WireModel OrdMap Observation EvalModel Controls CtlFrame.

Module Sealing.
Inductive t := Typed | Exact | Received.
End Sealing.

(** [Payload], with the text of its schema's value; [Defect] is [Error]. *)
Class Payload (T : Type) := {
  pl_schema : bytes;
  pl_domain : bytes;
  pl_document_bytes : u64;
  pl_sealing : Sealing.t;
  pl_validate : T -> res unit DeError
}.

Record Envelope (T : Type) := mkEnvelope { ev_payload : T; ev_payload_digest : Digest.t }.
Arguments mkEnvelope {T}.
Arguments ev_payload {T}.
Arguments ev_payload_digest {T}.

(** [Sealed], as it is read. *)
Record Sealed := mkSealed { sl_payload : bytes; sl_payload_digest : Digest.t }.

(** ** Rejected shapes *)

(** What a serde error tells: whether it is a syntax error or the end of the
    input, its text with its path, its text, its path, and the last segment. *)
Record SerdeError := mkSerdeError {
  se_malformed : bool; se_display : bytes; se_message : bytes; se_path : bytes; se_last : option bytes
}.

(** [split_once('`')], its first part. *)
Fixpoint before_tick (l : bytes) : option bytes :=
  match l with
  | [] => None
  | b :: l => if beqb b "`" then Some [] else (cons b) <$> before_tick l
  end.
Definition quoted_member (prefix message : bytes) : option bytes := rest ← strip_prefix prefix message; before_tick rest.

Definition error_kind (message : bytes) : ErrorKind.t * option bytes :=
  match quoted_member (b_ "missing field `") message with
  | Some member => (ErrorKind.MissingField, Some member)
  | None =>
      match quoted_member (b_ "unknown field `") message with
      | Some member => (ErrorKind.UnknownField, Some member)
      | None =>
          match quoted_member (b_ "duplicate field `") message with
          | Some member => (ErrorKind.DuplicateKey, Some member)
          | None =>
              if is_some (strip_prefix (b_ "invalid type:") message) then (ErrorKind.WrongType, None) else (ErrorKind.InvalidValue, None)
          end
      end
  end.

Definition deserialize_error (base : bytes) (defect : SerdeError) : DeError :=
  if se_malformed defect then mkDeError base (ErrorKind.Json (se_display defect))
  else
    let (kind, member) := error_kind (se_message defect) in
    let raw_path := se_path defect in
    let path := if bytes_eqb raw_path (b_ ".") then base else base ++ b_ "." ++ raw_path in
    let path :=
      match member with
      | Some member => if bool_decide (se_last defect = Some member) then path else path ++ b_ "." ++ member
      | None => path
      end in
    mkDeError path kind.

(** A shape reads a value and gives the complaint about what follows it. *)
Definition Shape (D : Type) : Type := bytes -> res (D * option bytes) SerdeError.

(** [de::read]. *)
Definition read {D} (shape : Shape D) (data : bytes) (limit : u64) : res D DeError :=
  if limit <? len data then fail (b_ "$") ErrorKind.LimitExceeded
  else
    match shape data with
    | Ok (document, None) => Ok document
    | Ok (_, Some message) => fail (b_ "$") (ErrorKind.Json message)
    | Err defect => Err (deserialize_error (b_ "$") defect)
    | OutOfFuel => OutOfFuel
    end.

(** ** Serde and serde_json *)

(** The text of one JSON value, as [&RawValue] holds it, and the canonical
    text of the first JSON value, as a transcoder writes it. *)
Class JsonText := { raw_value : bytes -> option bytes; transcoded : bytes -> option bytes }.

Class Document (T : Type) := {
  canonical_envelope : Envelope T -> option bytes;
  envelope_shape : Shape (Envelope T);
  sealed_shape : Shape Sealed;
  payload_shape : bytes -> res T SerdeError
}.

(** ** Sealing *)

Section Sealing.
Context `{HH : Hashes} {HHL : HashLaws HH} `{HX : Hex} `{JT : JsonText}.
Context {T : Type} `{PL : !Payload T} `{CN : !Canon T} `{DC : !Document T}.

Definition sealed_digest (domain text : bytes) : Digest.t := sha256_digest (domain ++ [x00] ++ text).
Definition transcoded_digest (domain json : bytes) : option Digest.t := sealed_digest domain <$> transcoded json.

Definition quoted (b : bytes) : bytes := [x22] ++ b ++ [x22].
Definition json_member (name value : bytes) : bytes := quoted name ++ b_ ":" ++ value.
(** [serde_json::to_writer] of a [Sealed]. *)
Definition sealed_text (payload : bytes) (payload_digest : Digest.t) : bytes :=
  b_ "{" ++ json_member (b_ "payload") payload ++ b_ "," ++ json_member (b_ "payload_digest") (quoted (Digest.display payload_digest))
  ++ b_ "," ++ json_member (b_ "schema") (quoted pl_schema) ++ b_ "}".
(** [None] is its error. *)
Definition write_sealed (payload : bytes) (payload_digest : Digest.t) : option bytes :=
  if utf8_valid payload then raw ← raw_value payload; Some (sealed_text raw payload_digest) else None.

(** [Payload::digest], [spell], [emit] and [parse]. *)
Definition payload_digest (payload : T) : res Digest.t DeError :=
  let? _ := pl_validate payload in
  ok_or (document_digest pl_domain payload) (mkDeError (b_ "$.payload") ErrorKind.InvalidValue).

Definition spell (payload : T) : res bytes DeError :=
  ok_or (canonical payload) (mkDeError (b_ "$.payload") ErrorKind.InvalidValue).

Definition emit (payload : T) : res bytes DeError :=
  let? _ := pl_validate payload in
  let? text := spell payload in
  let? document := ok_or (write_sealed text (sealed_digest pl_domain text)) (mkDeError (b_ "$") ErrorKind.InvalidValue) in
  if pl_document_bytes <? len document then fail (b_ "$") ErrorKind.LimitExceeded else Ok document.

(** [Envelope::validate] and [Envelope::sealed]. *)
Definition envelope_validate (document : Envelope T) : res unit DeError :=
  let? _ := pl_validate (ev_payload document) in
  let? text := spell (ev_payload document) in
  if negb (bool_decide (sealed_digest pl_domain text = ev_payload_digest document))
  then fail (b_ "$.payload_digest") ErrorKind.DigestMismatch
  else
    let? measured := ok_or (write_sealed text (ev_payload_digest document)) (mkDeError (b_ "$") ErrorKind.InvalidValue) in
    if pl_document_bytes <? len measured then fail (b_ "$") ErrorKind.LimitExceeded else Ok tt.

Definition envelope_sealed (document : Envelope T) : res unit DeError :=
  let? digest := ok_or (document_digest pl_domain (ev_payload document)) (mkDeError (b_ "$.payload") ErrorKind.InvalidValue) in
  if negb (bool_decide (digest = ev_payload_digest document)) then fail (b_ "$.payload_digest") ErrorKind.DigestMismatch else Ok tt.

Definition parse (data : bytes) : res (Envelope T) DeError :=
  match pl_sealing with
  | Sealing.Typed =>
      let? document := read envelope_shape data pl_document_bytes in
      let? _ := envelope_validate document in
      Ok document
  | Sealing.Exact =>
      let? document := read envelope_shape data pl_document_bytes in
      let? spelled := ok_or (document_digest (T := Envelope T) (H0 := canonical_envelope) pl_domain document) (mkDeError (b_ "$") ErrorKind.InvalidValue) in
      if negb (bool_decide (transcoded_digest pl_domain data = Some spelled)) then fail (b_ "$") ErrorKind.Noncanonical
      else
        let? _ := envelope_sealed document in
        let? _ := pl_validate (ev_payload document) in
        Ok document
  | Sealing.Received =>
      let? received := read sealed_shape data pl_document_bytes in
      let? sealed :=
        ok_or (transcoded_digest pl_domain (sl_payload received)) (mkDeError (b_ "$.payload") ErrorKind.InvalidValue) in
      let? payload :=
        match payload_shape (sl_payload received) with
        | Ok payload => Ok payload
        | Err defect => Err (deserialize_error (b_ "$.payload") defect)
        | OutOfFuel => OutOfFuel
        end in
      if negb (bool_decide (sealed = sl_payload_digest received)) then fail (b_ "$.payload_digest") ErrorKind.DigestMismatch
      else
        let? _ := pl_validate payload in
        Ok (mkEnvelope payload (sl_payload_digest received))
  end.

(** ** What reads back *)

(** A written document has the shape of its value and is canonical, and its
    payload is the raw text that was written. *)
Class DocumentLaws : Prop := {
  raw_canonical (payload : T) text raw : canonical payload = Some text -> raw_value text = Some raw -> raw = text;
  shape_written (payload : T) text digest :
    canonical payload = Some text -> envelope_shape (sealed_text text digest) = Ok (mkEnvelope payload digest, None);
  envelope_written (payload : T) text digest :
    canonical payload = Some text -> canonical_envelope (mkEnvelope payload digest) = Some (sealed_text text digest);
  transcoded_written (payload : T) text digest :
    canonical payload = Some text -> transcoded (sealed_text text digest) = Some (sealed_text text digest);
  sealed_written (payload : T) text digest :
    canonical payload = Some text -> sealed_shape (sealed_text text digest) = Ok (mkSealed text digest, None);
  transcoded_canonical (payload : T) text : canonical payload = Some text -> transcoded text = Some text;
  payload_written (payload : T) text : canonical payload = Some text -> payload_shape text = Ok payload
}.

(** What holds of a typed document that was accepted. *)
Definition sealed (document : Envelope T) : Prop :=
  pl_validate (ev_payload document) = Ok tt /\
  exists text data, canonical (ev_payload document) = Some text /\ sealed_digest pl_domain text = ev_payload_digest document /\
    write_sealed text (ev_payload_digest document) = Some data /\ len data <= pl_document_bytes.

Lemma envelope_validate_Ok document : envelope_validate document = Ok tt <-> sealed document.
Proof.
  unfold envelope_validate, sealed, spell. destruct (pl_validate _) as [[]|e|]; [|naive_solver..].
  destruct (canonical _) as [text|]; cbn [ok_or]; [|naive_solver].
  case_bool_decide as Hd; cbn [negb]; [|naive_solver]. destruct (write_sealed _ _) as [data|] eqn:Ew; cbn [ok_or]; [|naive_solver].
  destruct (Z.ltb_spec pl_document_bytes (len data)); [|naive_solver]. split; [done|].
  intros (_ & text' & data' & [= <-] & _ & E & ?). rewrite Ew in E. injection E as <-. lia.
Qed.

Lemma read_Ok {D} (shape : Shape D) data limit document :
  read shape data limit = Ok document <-> len data <= limit /\ shape data = Ok (document, None).
Proof.
  unfold read. destruct (Z.ltb_spec limit (len data)); [split; [done|lia]|].
  destruct (shape data) as [[d [m|]]|e|]; naive_solver.
Qed.

Lemma parse_sealed data document : pl_sealing = Sealing.Typed -> parse data = Ok document -> sealed document /\ len data <= pl_document_bytes.
Proof.
  intros Hs. unfold parse. rewrite Hs. destruct (read _ _ _) as [d|e|] eqn:Er; [|done..]. apply read_Ok in Er as [Hl _].
  destruct (envelope_validate d) as [[]|e|] eqn:E; [|done..]. intros [= <-]. by apply envelope_validate_Ok in E.
Qed.

Lemma sealed_payload_digest document : sealed document -> payload_digest (ev_payload document) = Ok (ev_payload_digest document).
Proof.
  intros (Hv & text & data & Ht & Hd & _). unfold payload_digest, document_digest. rewrite Hv, Ht. cbn [ok_or]. by rewrite <- Hd.
Qed.

(** A document that was emitted, in its parts. *)
Lemma emit_Ok `{!DocumentLaws} payload data :
  emit payload = Ok data ->
  exists text, pl_validate payload = Ok tt /\ canonical payload = Some text /\ write_sealed text (sealed_digest pl_domain text) = Some data /\
    data = sealed_text text (sealed_digest pl_domain text) /\ len data <= pl_document_bytes.
Proof.
  unfold emit, spell. destruct (pl_validate payload) as [[]|e|] eqn:Ev; [|done..].
  destruct (canonical payload) as [text|] eqn:Ec; [|done]. cbn [ok_or].
  destruct (write_sealed text _) as [written|] eqn:Ew; [|done]. cbn [ok_or].
  destruct (Z.ltb_spec pl_document_bytes (len written)); [done|]. intros [= <-]. exists text. split_and!; [done..| |done].
  unfold write_sealed in Ew. destruct (utf8_valid text); [|done]. destruct (raw_value text) as [raw|] eqn:Er; [|done].
  cbn in Ew. injection Ew as <-. by rewrite (raw_canonical _ _ _ Ec Er).
Qed.

Lemma written_reads `{!DocumentLaws} payload text :
  pl_validate payload = Ok tt -> canonical payload = Some text ->
  write_sealed text (sealed_digest pl_domain text) = Some (sealed_text text (sealed_digest pl_domain text)) ->
  len (sealed_text text (sealed_digest pl_domain text)) <= pl_document_bytes ->
  parse (sealed_text text (sealed_digest pl_domain text)) = Ok (mkEnvelope payload (sealed_digest pl_domain text)).
Proof.
  intros Hv Hc Hw Hl. set (d := sealed_digest pl_domain text) in *. unfold parse. destruct pl_sealing.
  - rewrite (proj2 (read_Ok _ _ _ _) (conj Hl (shape_written payload text d Hc))).
    rewrite (proj2 (envelope_validate_Ok _)); [done|]. split; [done|]. by exists text, (sealed_text text d).
  - rewrite (proj2 (read_Ok _ _ _ _) (conj Hl (shape_written payload text d Hc))).
    unfold document_digest, transcoded_digest, envelope_sealed, document_digest. unfold canonical at 1.
    rewrite (envelope_written payload text d Hc), (transcoded_written payload text d Hc). cbn [ok_or fmap option_fmap option_map].
    rewrite bool_decide_true by done. cbn [negb ev_payload ev_payload_digest]. rewrite Hc. cbn [ok_or].
    rewrite bool_decide_true by done. cbn [negb]. by rewrite Hv.
  - rewrite (proj2 (read_Ok _ _ _ _) (conj Hl (sealed_written payload text d Hc))). cbn [sl_payload sl_payload_digest].
    unfold transcoded_digest. rewrite (transcoded_canonical payload text Hc), (payload_written payload text Hc).
    cbn [ok_or fmap option_fmap option_map]. rewrite bool_decide_true by done. cbn [negb]. by rewrite Hv.
Qed.

Lemma emit_parse `{!DocumentLaws} payload data :
  emit payload = Ok data ->
  exists text, canonical payload = Some text /\ parse data = Ok (mkEnvelope payload (sealed_digest pl_domain text)).
Proof.
  intros (text & Hv & Hc & Hw & -> & Hl)%emit_Ok. exists text. split; [done|]. by apply written_reads.
Qed.
End Sealing.
Arguments DocumentLaws {HX JT} T {PL CN DC}.

(** ** Documents of one payload, for closed examples *)

Section Single.
Context {T : Type} `{EqDecision T} (payload : T) `{PL : !Payload T}.
#[local] Existing Instances rfc_hex rfc_hex_laws.

(** Its text is the number 0. *)
Definition single_canon : Canon T := fun y => if bool_decide (y = payload) then Some (b_ "0") else None.
Definition single_json : JsonText := {| raw_value b := Some b; transcoded b := Some b |}.
(** The digest at its place in a document. *)
Definition digest_at (data : bytes) : res Digest.t SerdeError :=
  ok_or (Digest.from_wire (take 71 (drop 31 data))) (mkSerdeError false [] (b_ "invalid value") (b_ ".") None).
Definition single_document : Document T := {|
  canonical_envelope document := if bool_decide (ev_payload document = payload) then Some (sealed_text (b_ "0") (ev_payload_digest document)) else None;
  envelope_shape data := let? digest := digest_at data in Ok (mkEnvelope payload digest, None);
  sealed_shape data := let? digest := digest_at data in Ok (mkSealed (b_ "0") digest, None);
  payload_shape data := Ok payload
|}.

Lemma digest_at_text digest : digest_at (sealed_text (b_ "0") digest) = Ok digest.
Proof.
  assert (take 71 (drop 31 (sealed_text (b_ "0") digest)) = Digest.display digest) as E.
  { unfold sealed_text, json_member, quoted.
    assert (length (Digest.display digest) = 71%nat) as Hl.
    { unfold Digest.display. rewrite length_app. pose proof (hex_encode_len (Digest.as_bytes digest)) as H1.
      pose proof (Digest.as_bytes_len digest) as H2. unfold len in *. cbn [length b_]. change (length (b_ "sha256:")) with 7%nat. lia. }
    rewrite <- Hl. clear Hl. match goal with |- take _ (drop _ (?a ++ ?p ++ ?c ++ (?n ++ ?k ++ (?q ++ ?d ++ ?q') ) ++ ?r)) = _ =>
      replace (a ++ p ++ c ++ (n ++ k ++ (q ++ d ++ q')) ++ r) with ((a ++ p ++ c ++ n ++ k ++ q) ++ d ++ (q' ++ r)) by (by rewrite <- !app_assoc);
      change 31%nat with (length (a ++ p ++ c ++ n ++ k ++ q)) end.
    rewrite drop_app_length. apply take_app_length. }
  unfold digest_at. by rewrite E, Digest.from_wire_display.
Qed.

Lemma single_laws : DocumentLaws T (JT := single_json) (CN := single_canon) (DC := single_document).
Proof.
  assert (forall y text, single_canon y = Some text -> y = payload /\ text = b_ "0") as Hc.
  { intros y text. unfold single_canon. case_bool_decide; [|done]. by intros [= <-]. }
  constructor.
  - intros y text raw _. cbn. congruence.
  - intros y text digest [-> ->]%Hc. cbn [envelope_shape single_document]. by rewrite digest_at_text.
  - intros y text digest [-> ->]%Hc. cbn [canonical_envelope single_document ev_payload ev_payload_digest]. by rewrite bool_decide_true.
  - intros y text digest [-> ->]%Hc. done.
  - intros y text digest [-> ->]%Hc. cbn [sealed_shape single_document]. by rewrite digest_at_text.
  - intros y text [-> ->]%Hc. done.
  - intros y text [-> ->]%Hc. done.
Qed.
End Single.

(** ** What a sealed document promises *)

(** What binds an accepted document to its bytes. *)
Definition seal_binds `{HH : Hashes} {HHL : HashLaws HH} `{JT : JsonText} {T} `{PL : !Payload T} `{CN : !Canon T} `{DC : !Document T}
    (data : bytes) (document : Envelope T) : Prop :=
  match pl_sealing with
  | Sealing.Typed => document_digest pl_domain (ev_payload document) = Some (ev_payload_digest document)
  | Sealing.Exact =>
      document_digest pl_domain (ev_payload document) = Some (ev_payload_digest document) /\
      exists text spelled, transcoded data = Some text /\ canonical_envelope document = Some spelled /\
        sealed_digest pl_domain text = sealed_digest pl_domain spelled
  | Sealing.Received =>
      exists received text, sealed_shape data = Ok (received, None) /\ sl_payload_digest received = ev_payload_digest document /\
        transcoded (sl_payload received) = Some text /\ sealed_digest pl_domain text = ev_payload_digest document /\
        payload_shape (sl_payload received) = Ok (ev_payload document)
  end.

(** C29: an accepted document is within its ceiling, its payload satisfies its
    grammar and its digest is bound the way its sealing says: to the typed
    payload's text, for an exact one with the whole document's text, or to the
    received payload's text. A document that was emitted is accepted as the
    same payload under the payload's own digest, whatever the sealing. *)
Theorem seal_exact (HH : Hashes) (HHL : HashLaws HH) (HX : Hex) (JT : JsonText) (T : Type) (PL : Payload T) (CN : Canon T) (DC : Document T)
    (DL : DocumentLaws T) :
  (forall data document, parse data = Ok document ->
    pl_validate (ev_payload document) = Ok tt /\ len data <= pl_document_bytes /\ seal_binds data document) /\
  (forall payload data, emit payload = Ok data ->
    exists digest, payload_digest payload = Ok digest /\ parse data = Ok (mkEnvelope payload digest)).
Proof.
  split.
  - intros data document. unfold parse, seal_binds. destruct pl_sealing.
    + destruct (read _ _ _) as [d|e|] eqn:Er; [|done..]. apply read_Ok in Er as [Hl _].
      destruct (envelope_validate d) as [[]|e|] eqn:E; [|done..]. intros [= <-]. apply envelope_validate_Ok in E as (Hv & text & w & Hc & <- & _).
      split_and!; [done..|]. unfold document_digest. by rewrite Hc.
    + destruct (read _ _ _) as [d|e|] eqn:Er; [|done..]. apply read_Ok in Er as [Hl _]. unfold transcoded_digest, envelope_sealed, document_digest at 1.
      unfold canonical at 1. destruct (canonical_envelope d) as [spelled|] eqn:Es; cbn [ok_or]; [|done].
      case_bool_decide as Ht; cbn [negb]; [|done]. destruct (document_digest pl_domain (ev_payload d)) as [g|] eqn:Eg; cbn [ok_or]; [|done].
      case_bool_decide as Hg; cbn [negb]; [|done]. destruct (pl_validate (ev_payload d)) as [[]|e|] eqn:Ev; [|done..]. intros [= <-].
      split_and!; [done..|by rewrite Eg, Hg|]. apply fmap_Some in Ht as (text & Et & Ht). by exists text, spelled.
    + destruct (read _ _ _) as [r|e|] eqn:Er; [|done..]. apply read_Ok in Er as [Hl Hr]. unfold transcoded_digest.
      destruct (transcoded (sl_payload r)) as [text|] eqn:Et; cbn [ok_or fmap option_fmap option_map]; [|done].
      destruct (payload_shape (sl_payload r)) as [p|e|] eqn:Ep; [|done..]. case_bool_decide as Hd; cbn [negb]; [|done].
      destruct (pl_validate p) as [[]|e|] eqn:Ev; [|done..]. intros [= <-]. cbn [ev_payload ev_payload_digest].
      split_and!; [done..|]. by exists r, text.
  - intros payload data (text & Hv & Hc & Hw & -> & Hl)%emit_Ok. exists (sealed_digest pl_domain text). split; [|by apply written_reads].
    unfold payload_digest, document_digest. by rewrite Hv, Hc.
Qed.

Section Example.
#[local] Existing Instances toy_hash toy_hash_laws rfc_hex single_json.
#[local] Instance ex_received : Payload bool :=
  {| pl_schema := b_ "amiss/example"; pl_domain := b_ "amiss/example-payload"; pl_document_bytes := 1000; pl_sealing := Sealing.Received;
     pl_validate _ := Ok tt |}.
#[local] Instance ex_received_canon : Canon bool := single_canon true.
#[local] Instance ex_received_document : Document bool := single_document true.

Lemma seal_exact_witness : exists data digest, emit true = Ok data /\ payload_digest true = Ok digest /\ parse data = Ok (mkEnvelope true digest).
Proof.
  destruct (emit true) as [data|e|] eqn:E; [|vm_compute in E; discriminate..].
  destruct (seal_exact _ _ _ _ _ _ _ _ (single_laws true)) as [_ H]. destruct (H true data E) as (digest & Hd & Hp).
  exists data, digest. exact (conj eq_refl (conj Hd Hp)).
Defined.
End Example.
