(* ===== verification/RelWire.v ===== *)
(** Relation documents: [amiss-wire/src/relation.rs], [relation/evidence.rs],
    [relation/assessment.rs], and the checks of [controller/src/relations.rs]
    and [relation_audit.rs] on them.

    [accepted_report] reads a scan report and is a parameter; a [Nullable] is
    an option. *)
From Stdlib Require Import Strings.Byte Strings.String Lia.
From stdpp Require Import base numbers list.
From S2P Require Import Prelude Codec WireModel WireIdentity OrdMap Observation EvalModel Controls CtlModel CtlLedgerApi CtlFrame WireEnvelope RelPlan RelJournal.

Definition PLAN_ENVELOPE_SCHEMA : bytes := b_ "amiss/relation-plan-envelope".
Definition EVIDENCE_ENVELOPE_SCHEMA : bytes := b_ "amiss/relation-evidence-envelope".
Definition ASSESSMENT_ENVELOPE_SCHEMA : bytes := b_ "amiss/relation-assessment-envelope".
Definition PLAN_PAYLOAD_SCHEMA : bytes := b_ "amiss/relation-plan-payload".
Definition EVIDENCE_PAYLOAD_SCHEMA : bytes := b_ "amiss/relation-evidence-payload".
Definition ASSESSMENT_PAYLOAD_SCHEMA : bytes := b_ "amiss/relation-assessment-payload".
Definition RELATION_DOCUMENT_BYTES : u64 := 65536.
Definition PRODUCER_VERSION_BYTES : usize := 128.
(** [js_int::MAX_SAFE_UINT]: 2^53 - 1. *)
Definition MAX_SAFE_UINT : u64 := 9007199254740991.

(** ** Documents *)

Record RelationSnapshot := mkRelationSnapshot { sn_commit : Oid.t; sn_tree : Oid.t }.
#[export] Instance RelationSnapshot_eq_dec : EqDecision RelationSnapshot.
Proof. solve_decision. Defined.

Record RelationSubject := mkRelationSubject {
  su_role : bytes; su_repository : RepositoryIdentity.t; su_target : bytes; su_object_format : ObjectFormat;
  su_source : ProjectionSource.t; su_base : RelationSnapshot; su_candidate : RelationSnapshot
}.
#[export] Instance RelationSubject_eq_dec : EqDecision RelationSubject.
Proof. solve_decision. Defined.

Record RelationIdentity := mkRelationIdentity { ri_identity : bytes; ri_context_digest : Digest.t }.
#[export] Instance RelationIdentity_eq_dec : EqDecision RelationIdentity.
Proof. solve_decision. Defined.

Record RelationPlan := mkRelationPlan {
  rp_report_payload_digest : Digest.t;
  rp_relation : RelationIdentity;
  rp_coordination : bytes;
  rp_trigger_role : bytes;
  rp_projection : ProjectionKind.t;
  rp_subjects : RelationSubject * RelationSubject
}.
#[export] Instance RelationPlan_eq_dec : EqDecision RelationPlan.
Proof. solve_decision. Defined.

Record RelationProjectedValue := mkRelationProjectedValue { pv_value_digest : Digest.t; pv_value_bytes : u64 }.
#[export] Instance RelationProjectedValue_eq_dec : EqDecision RelationProjectedValue.
Proof. solve_decision. Defined.

Module RelationProjectionSlot.
Inductive t := Projected (value : RelationProjectedValue) | Unproven.
End RelationProjectionSlot.

Record RelationEvidenceSubject := mkRelationEvidenceSubject {
  es_role : bytes; es_base : RelationProjectionSlot.t; es_candidate : RelationProjectionSlot.t
}.
Record RelationEvidence := mkRelationEvidence {
  re_plan_payload_digest : Digest.t; re_subjects : RelationEvidenceSubject * RelationEvidenceSubject
}.

Module RelationVerdict.
Inductive t := Aligned | IntroducedDrift | PreExistingDrift | ResolvedDrift | Unproven.
#[global] Instance eq_dec : EqDecision t.
Proof. solve_decision. Defined.
End RelationVerdict.

Module RelationReason.
Inductive t := EvidenceAbsent | EvidenceUnbound | RoleMismatch | ProjectionUnproven.
#[global] Instance eq_dec : EqDecision t.
Proof. solve_decision. Defined.
End RelationReason.

Record AssessmentEngine := mkAssessmentEngine { en_engine_version : bytes; en_engine_digest : Digest.t }.
#[export] Instance AssessmentEngine_eq_dec : EqDecision AssessmentEngine.
Proof. solve_decision. Defined.
Record AssessmentSubject := mkAssessmentSubject {
  as_report_payload_digest : Digest.t; as_plan_payload_digest : Digest.t; as_evidence_payload_digest : option Digest.t
}.
#[export] Instance AssessmentSubject_eq_dec : EqDecision AssessmentSubject.
Proof. solve_decision. Defined.
Record RelationAssessment := mkRelationAssessment {
  ra_engine : AssessmentEngine; ra_subject : AssessmentSubject; ra_verdict : RelationVerdict.t; ra_reason : option RelationReason.t
}.
#[export] Instance RelationAssessment_eq_dec : EqDecision RelationAssessment.
Proof. solve_decision. Defined.

(** ** Their grammar *)

Definition subject_path (index : usize) (field : bytes) : bytes := member_path (b_ "$.payload.subjects") index ++ b_ "." ++ field.

(** The snapshots and their object IDs, in order, with their member names. *)
Definition subject_oids (subject : RelationSubject) : list (bytes * Oid.t) :=
  [(b_ "base.commit_oid", sn_commit (su_base subject)); (b_ "base.tree_oid", sn_tree (su_base subject));
   (b_ "candidate.commit_oid", sn_commit (su_candidate subject)); (b_ "candidate.tree_oid", sn_tree (su_candidate subject))].

Fixpoint check_oids (index : usize) (f : ObjectFormat) (oids : list (bytes * Oid.t)) : res unit DeError :=
  match oids with
  | [] => Ok tt
  | (name, oid) :: oids =>
      if negb (bool_decide (Oid.object_format oid = f)) then fail (subject_path index name) ErrorKind.InvalidValue
      else check_oids index f oids
  end.

Definition check_subject (projection : ProjectionKind.t) (index : usize) (subject : RelationSubject) : res unit DeError :=
  let repository := su_repository subject in
  if negb (bool_decide (RepositoryIdentity.new (RepositoryIdentity.host repository) (RepositoryIdentity.owner repository)
                          (RepositoryIdentity.name repository) = Some repository))
  then fail (subject_path index (b_ "repository")) ErrorKind.InvalidValue
  else
    let? _ := map_err (fun error => mkDeError (subject_path index (b_ "source")) (de_kind error))
                (check_projection_source projection (su_source subject)) in
    if bool_decide (projection = ProjectionKind.ContainsV1) then fail (b_ "$.payload.projection") ErrorKind.InvalidValue
    else check_oids index (su_object_format subject) (subject_oids subject).

Definition validate_plan (plan : RelationPlan) : res unit DeError :=
  let '(left_, right_) := rp_subjects plan in
  match bytes_cmp (su_role left_) (su_role right_) with
  | Eq => fail (b_ "$.payload.subjects") ErrorKind.DuplicateMember
  | Gt => fail (b_ "$.payload.subjects") ErrorKind.UnsortedSet
  | Lt =>
      if bool_decide (su_repository left_ = su_repository right_)
         || negb (has_role su_role (rp_trigger_role plan) (both (rp_subjects plan)))
      then fail (b_ "$.payload") ErrorKind.Inconsistent
      else
        let? _ := check_subject (rp_projection plan) 0 left_ in
        check_subject (rp_projection plan) 1 right_
  end.

Definition check_slot (index : usize) (field : bytes) (slot : RelationProjectionSlot.t) : res unit DeError :=
  match slot with
  | RelationProjectionSlot.Projected projected =>
      if MAX_SAFE_UINT <? pv_value_bytes projected
      then fail (subject_path index (field ++ b_ ".value_bytes")) ErrorKind.InvalidValue else Ok tt
  | RelationProjectionSlot.Unproven => Ok tt
  end.

Definition check_slots (index : usize) (subject : RelationEvidenceSubject) : res unit DeError :=
  let? _ := check_slot index (b_ "base") (es_base subject) in
  check_slot index (b_ "candidate") (es_candidate subject).

Definition validate_evidence (evidence : RelationEvidence) : res unit DeError :=
  let '(left_, right_) := re_subjects evidence in
  match bytes_cmp (es_role left_) (es_role right_) with
  | Eq => fail (b_ "$.payload.subjects") ErrorKind.DuplicateMember
  | Gt => fail (b_ "$.payload.subjects") ErrorKind.UnsortedSet
  | Lt =>
      let? _ := check_slots 0 left_ in
      check_slots 1 right_
  end.

(** [semantic::producer_version_valid]. *)
Definition producer_byte (b : Byte.byte) : bool := is_ascii_alphanumeric b || beqb b "." || beqb b "_" || beqb b "+" || beqb b "-".
Definition producer_version_valid (version : bytes) : bool :=
  match version with
  | [] => false
  | first :: tail => (len version <=? PRODUCER_VERSION_BYTES) && is_ascii_alphanumeric first && forallb producer_byte tail
  end.

Definition assessment_consistent (assessment : RelationAssessment) : bool :=
  let unproven := bool_decide (ra_verdict assessment = RelationVerdict.Unproven) in
  let evidence := is_some (as_evidence_payload_digest (ra_subject assessment)) in
  match ra_reason assessment with
  | None => negb unproven && evidence
  | Some RelationReason.EvidenceAbsent => unproven && negb evidence
  | Some (RelationReason.EvidenceUnbound | RelationReason.RoleMismatch | RelationReason.ProjectionUnproven) => unproven && evidence
  end.

Definition validate_assessment (assessment : RelationAssessment) : res unit DeError :=
  if negb (producer_version_valid (en_engine_version (ra_engine assessment)))
  then fail (b_ "$.payload.engine.engine_version") ErrorKind.InvalidValue
  else if negb (assessment_consistent assessment) then fail (b_ "$.payload") ErrorKind.Inconsistent
  else Ok tt.

#[export] Instance plan_payload : Payload RelationPlan :=
  {| pl_schema := PLAN_ENVELOPE_SCHEMA; pl_domain := PLAN_PAYLOAD_SCHEMA; pl_document_bytes := RELATION_DOCUMENT_BYTES;
     pl_sealing := Sealing.Typed; pl_validate := validate_plan |}.
#[export] Instance evidence_payload : Payload RelationEvidence :=
  {| pl_schema := EVIDENCE_ENVELOPE_SCHEMA; pl_domain := EVIDENCE_PAYLOAD_SCHEMA; pl_document_bytes := RELATION_DOCUMENT_BYTES;
     pl_sealing := Sealing.Typed; pl_validate := validate_evidence |}.
#[export] Instance assessment_payload : Payload RelationAssessment :=
  {| pl_schema := ASSESSMENT_ENVELOPE_SCHEMA; pl_domain := ASSESSMENT_PAYLOAD_SCHEMA; pl_document_bytes := RELATION_DOCUMENT_BYTES;
     pl_sealing := Sealing.Typed; pl_validate := validate_assessment |}.

(** ** Judging *)

Section Judge.
Context `{HH : Hashes} {HHL : HashLaws HH} `{HX : Hex} `{JT : JsonText} `{CP : !Canon RelationPlan} `{CE : !Canon RelationEvidence}.

(** The verdict of four projected values. *)
Definition drift (left_base right_base left_candidate right_candidate : RelationProjectedValue) : RelationVerdict.t :=
  match bool_decide (left_base = right_base), bool_decide (left_candidate = right_candidate) with
  | true, true => RelationVerdict.Aligned
  | true, false => RelationVerdict.IntroducedDrift
  | false, false => RelationVerdict.PreExistingDrift
  | false, true => RelationVerdict.ResolvedDrift
  end.

Definition judgment (plan : Envelope RelationPlan) (evidence : option (Envelope RelationEvidence)) : res RelationVerdict.t RelationReason.t :=
  let? evidence := ok_or evidence RelationReason.EvidenceAbsent in
  let observed := re_subjects (ev_payload evidence) in
  let planned := rp_subjects (ev_payload plan) in
  if negb (bool_decide (re_plan_payload_digest (ev_payload evidence) = ev_payload_digest plan)) then Err RelationReason.EvidenceUnbound
  else if negb (bytes_eqb (es_role observed.1) (su_role planned.1)) || negb (bytes_eqb (es_role observed.2) (su_role planned.2))
  then Err RelationReason.RoleMismatch
  else
    match es_base observed.1, es_base observed.2, es_candidate observed.1, es_candidate observed.2 with
    | RelationProjectionSlot.Projected left_base, RelationProjectionSlot.Projected right_base,
      RelationProjectionSlot.Projected left_candidate, RelationProjectionSlot.Projected right_candidate =>
        Ok (drift left_base right_base left_candidate right_candidate)
    | _, _, _, _ => Err RelationReason.ProjectionUnproven
    end.

(** [RelationAssessment::evaluate]. *)
Definition evaluate (plan : Envelope RelationPlan) (evidence : option (Envelope RelationEvidence)) (engine_version : bytes)
    (engine_digest : Digest.t) : res RelationAssessment DeError :=
  let? plan_digest := payload_digest (ev_payload plan) in
  if negb (bool_decide (plan_digest = ev_payload_digest plan)) then fail (b_ "$.plan.payload_digest") ErrorKind.DigestMismatch
  else
    let? _ :=
      match evidence with
      | Some evidence =>
          let? evidence_digest := payload_digest (ev_payload evidence) in
          if negb (bool_decide (evidence_digest = ev_payload_digest evidence))
          then fail (b_ "$.evidence.payload_digest") ErrorKind.DigestMismatch else Ok tt
      | None => Ok tt
      end in
    let judged := judgment plan evidence in
    let assessment :=
      mkRelationAssessment (mkAssessmentEngine engine_version engine_digest)
        (mkAssessmentSubject (rp_report_payload_digest (ev_payload plan)) (ev_payload_digest plan) (ev_payload_digest <$> evidence))
        (match judged with Ok verdict => verdict | _ => RelationVerdict.Unproven end)
        (match judged with Err reason => Some reason | _ => None end) in
    let? _ := validate_assessment assessment in
    Ok assessment.

(** [assess]. *)
Definition assess `{CA : !Canon RelationAssessment} `{DA : !Document RelationAssessment} (plan : Envelope RelationPlan)
    (evidence : option (Envelope RelationEvidence)) (engine_version : bytes) (engine_digest : Digest.t) : res bytes DeError :=
  let? assessment := evaluate plan evidence engine_version engine_digest in
  emit assessment.

(** [verify_relation_plan]. *)
Definition planned_subject (transition : RelationTransition) (planned : RelationSubject) : bool :=
  match find_role rs_role (su_role planned) (both (rr_subjects (tr_plan (rt_relation transition)))),
        find_role rt_role (su_role planned) (both (rt_subjects transition)) with
  | Some subject, Some frozen =>
      bool_decide (su_repository planned = ps_repository (rs_scope subject))
      && bytes_eqb (su_target planned) (rs_target subject)
      && bool_decide (su_source planned = rs_source subject)
      && bool_decide (sn_commit (su_base planned) = op_base (rt_commits frozen))
      && bool_decide (sn_tree (su_base planned) = op_base (rt_trees frozen))
      && bool_decide (sn_commit (su_candidate planned) = op_candidate (rt_commits frozen))
      && bool_decide (sn_tree (su_candidate planned) = op_candidate (rt_trees frozen))
  | _, _ => false
  end.
Definition verify_relation_plan `{DP : !Document RelationPlan} (plan : Envelope RelationPlan) (transition : RelationTransition) :
    res unit RelationAcquisitionError.t :=
  let? _ := map_err (fun _ => RelationAcquisitionError.InvalidTransition) (envelope_validate plan) in
  let registered := tr_plan (rt_relation transition) in
  let payload := ev_payload plan in
  if bytes_eqb (ri_identity (rp_relation payload)) (rr_identity registered)
     && bool_decide (ri_context_digest (rp_relation payload) = rr_context_digest registered)
     && bytes_eqb (rp_coordination payload) (rt_coordination transition)
     && bytes_eqb (rp_trigger_role payload) (tr_trigger_role (rt_relation transition))
     && bool_decide (rp_projection payload = rr_projection registered)
     && forallb (planned_subject transition) (both (rp_subjects payload))
  then Ok tt else Err RelationAcquisitionError.InvalidTransition.
End Judge.

(** ** Audits *)

Record AcceptedSnapshot := mkAcceptedSnapshot { ac_commit : Oid.t; ac_tree : Oid.t }.
Record AcceptedReport := mkAcceptedReport {
  ac_report_digest : Digest.t; ac_payload_digest : Digest.t; ac_repository : RepositoryIdentity.t; ac_target_ref : option bytes;
  ac_base : AcceptedSnapshot; ac_candidate : AcceptedSnapshot; ac_candidate_identity_digest : Digest.t
}.

Record RelationAuditBundle := mkRelationAuditBundle {
  ab_transition : RelationTransition; ab_report : bytes; ab_plan : bytes; ab_evidence : option bytes; ab_assessment : bytes
}.
Record RelationAuditDigests := mkRelationAuditDigests {
  ad_report_digest : Digest.t; ad_plan_digest : Digest.t; ad_evidence_digest : option Digest.t; ad_assessment_digest : Digest.t;
  ad_verdict : RelationVerdict.t
}.
#[export] Instance RelationAuditDigests_eq_dec : EqDecision RelationAuditDigests.
Proof. solve_decision. Defined.

Section Audit.
Context `{HH : Hashes} {HHL : HashLaws HH} `{HX : Hex} `{JT : JsonText} `{CP : !Canon RelationPlan} `{CE : !Canon RelationEvidence} `{CA : !Canon RelationAssessment}.
Context `{DP : !Document RelationPlan} `{DE : !Document RelationEvidence} `{DA : !Document RelationAssessment}.
(** [audit_report::accepted_report]. *)
Context (accepted_report : bytes -> res AcceptedReport ArtifactError.t).
Import ArtifactError.

Definition planned (registered : RegisteredRelation) (frozen : RelationSubjectTransition) : res RelationSubject ArtifactError.t :=
  let? subject := ok_or (find_role rs_role (rt_role frozen) (both (rr_subjects registered))) Corrupt in
  Ok (mkRelationSubject (rt_role frozen) (ps_repository (rs_scope subject)) (rs_target subject) (rs_object_format subject) (rs_source subject)
    (mkRelationSnapshot (op_base (rt_commits frozen)) (op_base (rt_trees frozen)))
    (mkRelationSnapshot (op_candidate (rt_commits frozen)) (op_candidate (rt_trees frozen)))).

(** The report scanned the trigger's own transition. *)
Definition reports_trigger (report : AcceptedReport) (trigger : RelationSubject) : bool :=
  bool_decide (su_repository trigger = ac_repository report)
  && bool_decide (ac_target_ref report = Some (su_target trigger))
  && bool_decide (sn_commit (su_base trigger) = ac_commit (ac_base report))
  && bool_decide (sn_tree (su_base trigger) = ac_tree (ac_base report))
  && bool_decide (sn_commit (su_candidate trigger) = ac_commit (ac_candidate report))
  && bool_decide (sn_tree (su_candidate trigger) = ac_tree (ac_candidate report)).

Definition checked_relation_plan (transition : RelationTransition) (report : bytes) : res (RelationPlan * Digest.t) ArtifactError.t :=
  let? transition := map_err (fun _ => Corrupt) (recheck transition) in
  let? report := accepted_report report in
  let registered := tr_plan (rt_relation transition) in
  let? left_ := planned registered (rt_subjects transition).1 in
  let? right_ := planned registered (rt_subjects transition).2 in
  let trigger_role := tr_trigger_role (rt_relation transition) in
  match find_role su_role trigger_role (both (left_, right_)) with
  | Some trigger =>
      if reports_trigger report trigger then
        Ok (mkRelationPlan (ac_payload_digest report) (mkRelationIdentity (rr_identity registered) (rr_context_digest registered))
              (rt_coordination transition) trigger_role (rr_projection registered) (left_, right_),
            ac_report_digest report)
      else Err Corrupt
  | None => Err Corrupt
  end.

Definition relation_audit_plan (transition : RelationTransition) (report : bytes) : res bytes ArtifactError.t :=
  let? (plan, _) := checked_relation_plan transition report in
  map_err (fun _ => Corrupt) (emit plan).

Definition validate_relation_audit (bundle : RelationAuditBundle) : res RelationAuditDigests ArtifactError.t :=
  let evidence_bytes := match ab_evidence bundle with Some data => [data] | None => [] end in
  if existsb (fun data => RELATION_DOCUMENT_BYTES <? len data) ([ab_plan bundle; ab_assessment bundle] ++ evidence_bytes) then Err TooLarge
  else
    let? (expected, report_digest) := checked_relation_plan (ab_transition bundle) (ab_report bundle) in
    let? plan := map_err (fun _ => Corrupt) (parse (ab_plan bundle)) in
    if negb (bool_decide (ev_payload plan = expected)) then Err Corrupt
    else
      let? evidence :=
        match ab_evidence bundle with
        | Some data => let? evidence := map_err (fun _ => Corrupt) (parse data) in Ok (Some evidence)
        | None => Ok None
        end in
      let? assessment := map_err (fun _ => Corrupt) (parse (ab_assessment bundle)) in
      let engine := ra_engine (ev_payload assessment) in
      let? replayed := map_err (fun _ => Corrupt) (evaluate plan evidence (en_engine_version engine) (en_engine_digest engine)) in
      if negb (bool_decide (replayed = ev_payload assessment)) then Err Corrupt
      else
        Ok (mkRelationAuditDigests report_digest (sha256_digest (ab_plan bundle)) (sha256_digest <$> ab_evidence bundle)
              (sha256_digest (ab_assessment bundle)) (ra_verdict (ev_payload assessment))).
End Audit.

(** ** Verdicts *)

Section Verdicts.
Context `{HH : Hashes} {HHL : HashLaws HH} `{CP : !Canon RelationPlan} `{CE : !Canon RelationEvidence}.

(** Evidence that projects both subjects of the plan on both sides. *)
Definition complete (plan : Envelope RelationPlan) (evidence : option (Envelope RelationEvidence))
    (left_base right_base left_candidate right_candidate : RelationProjectedValue) : Prop :=
  exists e observed_left observed_right, evidence = Some e /\
    re_plan_payload_digest (ev_payload e) = ev_payload_digest plan /\ re_subjects (ev_payload e) = (observed_left, observed_right) /\
    es_role observed_left = su_role (rp_subjects (ev_payload plan)).1 /\ es_role observed_right = su_role (rp_subjects (ev_payload plan)).2 /\
    es_base observed_left = RelationProjectionSlot.Projected left_base /\ es_base observed_right = RelationProjectionSlot.Projected right_base /\
    es_candidate observed_left = RelationProjectionSlot.Projected left_candidate /\
    es_candidate observed_right = RelationProjectionSlot.Projected right_candidate.

Lemma judgment_Ok plan evidence v :
  judgment plan evidence = Ok v <-> exists lb rb lc rc, complete plan evidence lb rb lc rc /\ v = drift lb rb lc rc.
Proof.
  unfold judgment, complete. destruct evidence as [e|]; cbn [ok_or]; [|split; [done|intros (?&?&?&?&(?&?&?&[=]&_)&_)]].
  destruct (re_subjects (ev_payload e)) as [l r] eqn:Es. cbn [fst snd].
  case_bool_decide as Hd; cbn [negb]; [|split; [done|intros (?&?&?&?&(?&?&?&[= <-]&?&_)&_); done]].
  destruct (bytes_eqb (es_role l) _) eqn:El; cbn [negb orb];
    [apply bytes_eqb_eq in El|apply bytes_eqb_neq in El; split; [done|intros (?&?&?&?&(?&?&?&[= <-]&_&E&?&_)&_); congruence]].
  destruct (bytes_eqb (es_role r) _) eqn:Er; cbn [negb];
    [apply bytes_eqb_eq in Er|apply bytes_eqb_neq in Er; split; [done|intros (?&?&?&?&(?&?&?&[= <-]&_&E&_&?&_)&_); congruence]].
  split.
  - intros H. destruct (es_base l) as [lb|] eqn:E1, (es_base r) as [rb|] eqn:E2, (es_candidate l) as [lc|] eqn:E3, (es_candidate r) as [rc|] eqn:E4;
      try done. injection H as <-. exists lb, rb, lc, rc. split; [|done]. by exists e, l, r.
  - intros (lb & rb & lc & rc & (e' & l' & r' & [= <-] & _ & E & _ & _ & E1 & E2 & E3 & E4) & ->).
    rewrite Es in E. injection E as <- <-. by rewrite E1, E2, E3, E4.
Qed.

Lemma complete_fun plan evidence lb rb lc rc lb' rb' lc' rc' :
  complete plan evidence lb rb lc rc -> complete plan evidence lb' rb' lc' rc' -> lb = lb' /\ rb = rb' /\ lc = lc' /\ rc = rc'.
Proof.
  intros (e & l & r & -> & _ & E & _ & _ & E1 & E2 & E3 & E4) (e' & l' & r' & [= <-] & _ & E' & _ & _ & E1' & E2' & E3' & E4').
  rewrite E in E'. injection E' as <- <-. repeat split; congruence.
Qed.

Lemma judgment_fuel plan evidence : judgment plan evidence <> OutOfFuel.
Proof. unfold judgment, ok_or. repeat (case_match; simplify_eq; try done). Qed.

(** The two digests are those of the payloads. *)
Definition bound (plan : Envelope RelationPlan) (evidence : option (Envelope RelationEvidence)) : Prop :=
  payload_digest (ev_payload plan) = Ok (ev_payload_digest plan) /\
  forall e, evidence = Some e -> payload_digest (ev_payload e) = Ok (ev_payload_digest e).

(** What [evaluate] writes. *)
Definition assessed (plan : Envelope RelationPlan) (evidence : option (Envelope RelationEvidence)) (version : bytes) (digest : Digest.t) :
    RelationAssessment :=
  mkRelationAssessment (mkAssessmentEngine version digest)
    (mkAssessmentSubject (rp_report_payload_digest (ev_payload plan)) (ev_payload_digest plan) (ev_payload_digest <$> evidence))
    (match judgment plan evidence with Ok verdict => verdict | _ => RelationVerdict.Unproven end)
    (match judgment plan evidence with Err reason => Some reason | _ => None end).

Lemma assessed_consistent plan evidence version digest : assessment_consistent (assessed plan evidence version digest) = true.
Proof.
  unfold assessment_consistent, assessed. cbn [ra_reason ra_verdict ra_subject as_evidence_payload_digest].
  destruct (judgment plan evidence) as [v|reason|] eqn:E; [| |by apply judgment_fuel in E].
  - apply judgment_Ok in E as (lb & rb & lc & rc & (e & _ & _ & -> & _) & ->). unfold drift. by repeat case_bool_decide.
  - unfold judgment in E. destruct evidence as [e|]; cbn [ok_or] in E; [|by injection E as <-].
    repeat case_match; simplify_eq; done.
Qed.

Lemma evaluate_bound plan evidence version digest :
  bound plan evidence ->
  evaluate plan evidence version digest
  = if producer_version_valid version then Ok (assessed plan evidence version digest)
    else fail (b_ "$.payload.engine.engine_version") ErrorKind.InvalidValue.
Proof.
  intros [Hp He]. unfold evaluate. rewrite Hp, bool_decide_true by done. cbn [negb].
  assert (match evidence with
    | Some e => let? d := payload_digest (ev_payload e) in
        if negb (bool_decide (d = ev_payload_digest e)) then fail (b_ "$.evidence.payload_digest") ErrorKind.DigestMismatch else Ok tt
    | None => Ok tt end = Ok tt) as ->.
  { destruct evidence as [e|]; [|done]. by rewrite (He e eq_refl), bool_decide_true. }
  fold (assessed plan evidence version digest). unfold validate_assessment. rewrite assessed_consistent.
  cbn [ra_engine assessed en_engine_version]. by destruct (producer_version_valid version).
Qed.

Lemma evaluate_Ok plan evidence version digest a :
  evaluate plan evidence version digest = Ok a ->
  a = assessed plan evidence version digest /\ producer_version_valid version = true.
Proof.
  unfold evaluate. destruct (payload_digest (ev_payload plan)) as [d|e|]; [|done..]. destruct (negb _); [done|].
  destruct (match evidence with Some _ => _ | None => _ end) as [[]|e|]; [|done..].
  fold (assessed plan evidence version digest). unfold validate_assessment. cbn [ra_engine assessed en_engine_version].
  destruct (producer_version_valid version); [|done]. cbn [negb]. destruct (negb _); [done|]. by intros [= <-].
Qed.
End Verdicts.

(** an assessment is made exactly of plans and evidence that reproduce their
    digests and of a valid engine version, and then satisfies its own grammar.
    It is unproven exactly when the evidence is missing, names another plan or
    other roles, or lacks one of the four values; otherwise its verdict tells
    whether the two sides agreed at the base and whether they agree at the
    candidate. *)
Theorem evaluate_exact (HH : Hashes) (HHL : HashLaws HH) (CP : Canon RelationPlan) (CE : Canon RelationEvidence)
    plan evidence version digest :
  bound plan evidence ->
  (producer_version_valid version = true <-> is_ok (evaluate plan evidence version digest) = true) /\
  forall a, evaluate plan evidence version digest = Ok a ->
    validate_assessment a = Ok tt /\
    (ra_verdict a = RelationVerdict.Unproven <-> ~ exists lb rb lc rc, complete plan evidence lb rb lc rc) /\
    (forall lb rb lc rc, complete plan evidence lb rb lc rc ->
      (lb = rb <-> ra_verdict a = RelationVerdict.Aligned \/ ra_verdict a = RelationVerdict.IntroducedDrift) /\
      (lc = rc <-> ra_verdict a = RelationVerdict.Aligned \/ ra_verdict a = RelationVerdict.ResolvedDrift)).
Proof.
  intros Hb. rewrite evaluate_bound by done. split; [by destruct (producer_version_valid version)|].
  destruct (producer_version_valid version) eqn:Ev; [|done]. intros a [= <-]. split.
  { unfold validate_assessment. rewrite assessed_consistent. cbn [ra_engine assessed en_engine_version]. by rewrite Ev. }
  cbn [assessed ra_verdict]. destruct (judgment plan evidence) as [v|reason|] eqn:E; [| |by apply judgment_fuel in E].
  - apply judgment_Ok in E as (lb & rb & lc & rc & Hc & ->). split.
    + split; [unfold drift; by repeat case_bool_decide|]. intros []. by exists lb, rb, lc, rc.
    + intros lb' rb' lc' rc' Hc'. destruct (complete_fun _ _ _ _ _ _ _ _ _ _ Hc Hc') as (<- & <- & <- & <-).
      unfold drift. repeat case_bool_decide; naive_solver.
  - assert (forall lb rb lc rc, ~ complete plan evidence lb rb lc rc) as Hn.
    { intros lb rb lc rc Hc. assert (judgment plan evidence = Ok (drift lb rb lc rc)) by (apply judgment_Ok; eauto 6). congruence. }
    split; [naive_solver|]. intros lb rb lc rc Hc. by destruct (Hn lb rb lc rc).
Qed.

(** ** An example: evidence that disagreed and now agrees *)

#[export] Instance RelationProjectionSlot_eq_dec : EqDecision RelationProjectionSlot.t.
Proof. solve_decision. Defined.
#[export] Instance RelationEvidenceSubject_eq_dec : EqDecision RelationEvidenceSubject.
Proof. solve_decision. Defined.
#[export] Instance RelationEvidence_eq_dec : EqDecision RelationEvidence.
Proof. solve_decision. Defined.

Section Example.
#[local] Existing Instances toy_hash toy_hash_laws.

Definition ex_value (b : Byte.byte) : RelationProjectedValue := mkRelationProjectedValue (sha256_digest [b]) 1.
Definition ex_evidence (plan_digest : Digest.t) : RelationEvidence :=
  mkRelationEvidence plan_digest
    (mkRelationEvidenceSubject (b_ "docs") (RelationProjectionSlot.Projected (ex_value x01)) (RelationProjectionSlot.Projected (ex_value x02)),
     mkRelationEvidenceSubject (b_ "source") (RelationProjectionSlot.Projected (ex_value x03)) (RelationProjectionSlot.Projected (ex_value x02))).
(** A payload under its own digest. *)
Definition ex_sealed {T} `{!Payload T} `{!Canon T} (payload : T) : option (Envelope T) := mkEnvelope payload <$> res_ok (payload_digest payload).

Definition ex_side (role host : bytes) : RelationSubject :=
  mkRelationSubject role (RepositoryIdentity.mk host (b_ "o") (b_ "r")) (b_ "refs/heads/main") Sha1
    (rs_source (rr_subjects (sorted_plan example_relation)).1)
    (mkRelationSnapshot (Oid.mk Sha1 (repeat x61 40)) (Oid.mk Sha1 (repeat x62 40)))
    (mkRelationSnapshot (Oid.mk Sha1 (repeat x63 40)) (Oid.mk Sha1 (repeat x64 40))).
Definition ex_plan : RelationPlan :=
  mkRelationPlan (sha256_digest []) (mkRelationIdentity (b_ "api") (sha256_digest [])) (b_ "c-1") (b_ "docs")
    (rr_projection example_relation) (ex_side (b_ "docs") (b_ "a.example"), ex_side (b_ "source") (b_ "b.example")).
#[local] Instance ex_plan_canon : Canon RelationPlan := single_canon ex_plan.
#[local] Instance ex_evidence_canon : Canon RelationEvidence := fun _ => Some [].

Lemma evaluate_exact_witness : exists plan evidence a,
  bound plan (Some evidence) /\ evaluate plan (Some evidence) (b_ "1.0.0") (sha256_digest []) = Ok a /\
  validate_assessment a = Ok tt /\ ra_verdict a = RelationVerdict.ResolvedDrift.
Proof.
  destruct (ex_sealed ex_plan) as [plan|] eqn:Ep; [|vm_compute in Ep; discriminate].
  destruct (ex_sealed (ex_evidence (ev_payload_digest plan))) as [evidence|] eqn:Ee; [|vm_compute in Ep; injection Ep as <-; vm_compute in Ee; discriminate].
  unfold ex_sealed in Ep, Ee.
  destruct (payload_digest ex_plan) as [pd|e|] eqn:Epd; [|discriminate..]. injection Ep as <-. cbn [ev_payload_digest] in Ee.
  destruct (payload_digest (ex_evidence pd)) as [ed|e|] eqn:Eed; [|discriminate..]. injection Ee as <-.
  assert (bound (mkEnvelope ex_plan pd) (Some (mkEnvelope (ex_evidence pd) ed))) as Hb by (split; [done|intros e [= <-]; done]).
  destruct (evaluate_exact _ _ _ _ _ _ (b_ "1.0.0") (sha256_digest []) Hb) as [Hok Ha].
  destruct (evaluate _ _ _ _) as [a|e|] eqn:Ev; [|by specialize (proj1 Hok eq_refl)|by specialize (proj1 Hok eq_refl)].
  exists (mkEnvelope ex_plan pd), (mkEnvelope (ex_evidence pd) ed), a. split; [done|]. split; [done|].
  split; [by apply Ha|]. pose proof (proj1 (evaluate_Ok _ _ _ _ _ Ev)) as Hass. rewrite Hass. cbn [assessed ra_verdict].
  unfold judgment. cbn [ok_or ev_payload ex_evidence re_plan_payload_digest ev_payload_digest]. rewrite (bool_decide_true (pd = pd)) by done. reflexivity.
Defined.
End Example.
