(* ===== verification/RelAudit.v ===== *)
(** What an accepted relation audit says, and that the documents this code
    writes are accepted. *)
From Stdlib Require Import Strings.Byte Strings.String Lia.
From stdpp Require Import base numbers sets list.
From S2P Require Import Prelude Codec WireModel WireIdentity OrdMap Observation EvalModel Controls CtlModel CtlLedgerApi CtlFrame WireEnvelope RelPlan RelJournal RelHistory RelStore RelWork RelWire.

(** ** Frozen transitions *)

Lemma bytes_eqb_same b : bytes_eqb b b = true.
Proof. by apply bytes_eqb_eq. Qed.

Lemma find_role_Some {A} (role_of : A -> bytes) role l x : find_role role_of role l = Some x -> x ∈ l /\ role_of x = role.
Proof. intros (Hx & E)%List.find_some. apply bytes_eqb_eq in E. by rewrite list_elem_of_In. Qed.

Lemma find_role_of {A} (role_of : A -> bytes) l x :
  NoDup (map role_of l) -> x ∈ l -> find_role role_of (role_of x) l = Some x.
Proof.
  intros Hn Hx. destruct (find_role role_of (role_of x) l) as [y|] eqn:E.
  - apply find_role_Some in E as [Hy Ey]. f_equal. by eapply (NoDup_fmap_unique role_of l).
  - apply list_elem_of_In in Hx. eapply List.find_none in E; [|done]. cbv beta in E. by rewrite bytes_eqb_same in E.
Qed.

Lemma both_nodup {A} (role_of : A -> bytes) (pair : A * A) : role_of pair.1 <> role_of pair.2 -> NoDup (map role_of (both pair)).
Proof. destruct pair as [a b]. cbn. intros H. repeat constructor; set_solver. Qed.

Lemma recheck_roles transition checked :
  recheck transition = Ok checked ->
  NoDup (map rt_role (both (rt_subjects checked))) /\ tr_plan (rt_relation checked) = tr_plan (rt_relation transition).
Proof.
  unfold recheck, relation_transition. case_match eqn:E; [done|]. intros [= <-]. apply orb_false_iff in E as [_ E].
  apply negb_false_iff, andb_true_iff in E as [E _]. apply negb_true_iff, bytes_eqb_neq in E. split; [|done]. by apply both_nodup.
Qed.

Section Audit.
Context `{HH : Hashes} {HHL : HashLaws HH} `{HX : Hex} `{JT : JsonText} `{CP : !Canon RelationPlan} `{CE : !Canon RelationEvidence} `{CA : !Canon RelationAssessment}.
Context `{DP : !Document RelationPlan} `{DE : !Document RelationEvidence} `{DA : !Document RelationAssessment}.
Context (accepted_report : bytes -> res AcceptedReport ArtifactError.t).

(** ** The expected plan *)

Lemma planned_Ok registered frozen subject :
  planned registered frozen = Ok subject ->
  exists rs, find_role rs_role (rt_role frozen) (both (rr_subjects registered)) = Some rs /\
    subject = mkRelationSubject (rt_role frozen) (ps_repository (rs_scope rs)) (rs_target rs) (rs_object_format rs) (rs_source rs)
      (mkRelationSnapshot (op_base (rt_commits frozen)) (op_base (rt_trees frozen)))
      (mkRelationSnapshot (op_candidate (rt_commits frozen)) (op_candidate (rt_trees frozen))).
Proof. unfold planned. destruct (find_role _ _ _) as [rs|]; cbn [ok_or]; [|done]. intros [= <-]. by exists rs. Qed.

(** The subject planned for a frozen one is the one the verifier accepts. *)
Lemma planned_accepted transition frozen subject :
  NoDup (map rt_role (both (rt_subjects transition))) -> frozen ∈ both (rt_subjects transition) ->
  planned (tr_plan (rt_relation transition)) frozen = Ok subject -> planned_subject transition subject = true.
Proof.
  intros Hn Hin (rs & Hf & ->)%planned_Ok. unfold planned_subject. cbn [su_role su_repository su_target su_source su_base su_candidate sn_commit sn_tree].
  rewrite Hf, (find_role_of rt_role) by done. rewrite !bool_decide_true by done. by rewrite bytes_eqb_same.
Qed.

Lemma checked_plan_Ok transition report expected digest :
  checked_relation_plan accepted_report transition report = Ok (expected, digest) ->
  exists checked accepted left_ right_, recheck transition = Ok checked /\ accepted_report report = Ok accepted /\
    planned (tr_plan (rt_relation checked)) (rt_subjects checked).1 = Ok left_ /\
    planned (tr_plan (rt_relation checked)) (rt_subjects checked).2 = Ok right_ /\
    digest = ac_report_digest accepted /\
    expected = mkRelationPlan (ac_payload_digest accepted)
      (mkRelationIdentity (rr_identity (tr_plan (rt_relation checked))) (rr_context_digest (tr_plan (rt_relation checked))))
      (rt_coordination checked) (tr_trigger_role (rt_relation checked)) (rr_projection (tr_plan (rt_relation checked))) (left_, right_) /\
    exists trigger, trigger ∈ [left_; right_] /\ su_role trigger = tr_trigger_role (rt_relation checked) /\ reports_trigger accepted trigger = true.
Proof.
  unfold checked_relation_plan. destruct (recheck transition) as [checked|e|]; cbn [map_err]; [|done..].
  destruct (accepted_report report) as [accepted|e|]; [|done..].
  destruct (planned _ (rt_subjects checked).1) as [left_|e|] eqn:El; [|done..].
  destruct (planned _ (rt_subjects checked).2) as [right_|e|] eqn:Er; [|done..].
  destruct (find_role su_role _ _) as [trigger|] eqn:Ef; [|done]. destruct (reports_trigger accepted trigger) eqn:Et; [|done].
  intros [= <- <-]. apply find_role_Some in Ef as [Hin Hr]. exists checked, accepted, left_, right_. repeat split; [done..|]. by exists trigger.
Qed.

Lemma checked_plan_verified transition checked report expected digest plan :
  checked_relation_plan accepted_report transition report = Ok (expected, digest) -> recheck transition = Ok checked ->
  ev_payload plan = expected -> envelope_validate plan = Ok tt -> verify_relation_plan plan checked = Ok tt.
Proof.
  intros (checked' & accepted & left_ & right_ & E & _ & El & Er & _ & -> & _)%checked_plan_Ok Ec Ep Hv.
  rewrite Ec in E. injection E as <-. destruct (recheck_roles _ _ Ec) as [Hn _].
  unfold verify_relation_plan. rewrite Hv, Ep. cbn [map_err rp_relation ri_identity ri_context_digest rp_coordination rp_trigger_role rp_projection rp_subjects].
  rewrite !bytes_eqb_same, !bool_decide_true by done. cbn [andb both fst snd forallb].
  rewrite (planned_accepted checked _ left_ Hn ltac:(left) El), (planned_accepted checked _ right_ Hn ltac:(right; left) Er). done.
Qed.

(** The verdict of an assessment that was evaluated. *)
Lemma ad_verdict_assessed plan evidence version digest a :
  a = assessed plan evidence version digest ->
  (ra_verdict a <> RelationVerdict.Unproven <-> exists lb rb lc rc, complete plan evidence lb rb lc rc) /\
  forall lb rb lc rc, complete plan evidence lb rb lc rc -> ra_verdict a = drift lb rb lc rc.
Proof.
  assert (forall lb rb lc rc, complete plan evidence lb rb lc rc -> judgment plan evidence = Ok (drift lb rb lc rc)) as Hj
    by (intros; apply judgment_Ok; eauto 6).
  intros ->. cbn [assessed ra_verdict]. split; [split|].
  - destruct (judgment plan evidence) as [v|e|] eqn:E; [|done..]. intros _. apply judgment_Ok in E as (lb & rb & lc & rc & H & _). eauto.
  - intros (lb & rb & lc & rc & Hc). rewrite (Hj _ _ _ _ Hc). unfold drift. by repeat case_bool_decide.
  - intros lb rb lc rc Hc. by rewrite (Hj _ _ _ _ Hc).
Qed.

(** ** Accepted audits *)

(** The evidence of a bundle, parsed. *)
Definition parsed_evidence (data : option bytes) (evidence : option (Envelope RelationEvidence)) : Prop :=
  match data with
  | Some data => exists e, parse data = Ok e /\ evidence = Some e
  | None => evidence = None
  end.

Lemma parsed_bound data plan edata evidence :
  parse data = Ok plan -> parsed_evidence edata evidence -> bound plan evidence.
Proof.
  intros [Hs _]%(parse_sealed (PL := plan_payload) _ _ eq_refl) He. split; [by apply sealed_payload_digest|]. intros e ->. destruct edata as [d|]; [|done].
  destruct He as (e' & [Hs' _]%(parse_sealed (PL := evidence_payload) _ _ eq_refl) & [= <-]). by apply sealed_payload_digest.
Qed.

Lemma audit_parts bundle digests :
  validate_relation_audit accepted_report bundle = Ok digests ->
  exists expected plan evidence assessment,
    checked_relation_plan accepted_report (ab_transition bundle) (ab_report bundle) = Ok (expected, ad_report_digest digests) /\
    parse (ab_plan bundle) = Ok plan /\ ev_payload plan = expected /\ parsed_evidence (ab_evidence bundle) evidence /\
    parse (ab_assessment bundle) = Ok assessment /\
    evaluate plan evidence (en_engine_version (ra_engine (ev_payload assessment))) (en_engine_digest (ra_engine (ev_payload assessment)))
      = Ok (ev_payload assessment) /\
    ad_verdict digests = ra_verdict (ev_payload assessment) /\
    ad_plan_digest digests = sha256_digest (ab_plan bundle) /\ ad_evidence_digest digests = sha256_digest <$> ab_evidence bundle /\
    ad_assessment_digest digests = sha256_digest (ab_assessment bundle).
Proof.
  unfold validate_relation_audit. destruct (existsb _ _); [done|].
  destruct (checked_relation_plan _ _ _) as [[expected report_digest]|e|] eqn:Ec; [|done..].
  destruct (parse (ab_plan bundle)) as [plan|e|] eqn:Ep; cbn [map_err]; [|done..].
  case_bool_decide as Hx; cbn [negb]; [|done].
  destruct (match ab_evidence bundle with Some _ => _ | None => _ end) as [evidence|e|] eqn:Ee; [|done..].
  destruct (parse (ab_assessment bundle)) as [assessment|e|] eqn:Ea; cbn [map_err]; [|done..].
  destruct (evaluate plan evidence _ _) as [replayed|e|] eqn:Er; cbn [map_err]; [|done..].
  case_bool_decide as Hy; cbn [negb]; [|done]. intros [= <-]. exists expected, plan, evidence, assessment.
  split; [done|]. split; [done|]. split; [done|]. split; [|by rewrite Er, Hy].
  unfold parsed_evidence. destruct (ab_evidence bundle) as [data|]; [|by injection Ee].
  destruct (parse data) as [ev|e|]; cbn [map_err] in Ee; [|done..]. injection Ee as <-. by exists ev.
Qed.

(** Written documents are within their size. *)
Lemma parse_small {T} `{PL : !Payload T} `{CN : !Canon T} `{DC : !Document T} data (document : Envelope T) :
  pl_sealing = Sealing.Typed -> pl_document_bytes = RELATION_DOCUMENT_BYTES -> parse data = Ok document -> (RELATION_DOCUMENT_BYTES <? len data) = false.
Proof. intros Hs E [_ H]%parse_sealed; [|done]. rewrite E in H. by apply Z.ltb_ge. Qed.

Lemma audit_accepts bundle expected report_digest plan evidence assessment :
  checked_relation_plan accepted_report (ab_transition bundle) (ab_report bundle) = Ok (expected, report_digest) ->
  parse (ab_plan bundle) = Ok plan -> ev_payload plan = expected -> parsed_evidence (ab_evidence bundle) evidence ->
  parse (ab_assessment bundle) = Ok assessment ->
  evaluate plan evidence (en_engine_version (ra_engine (ev_payload assessment))) (en_engine_digest (ra_engine (ev_payload assessment)))
    = Ok (ev_payload assessment) ->
  validate_relation_audit accepted_report bundle
  = Ok (mkRelationAuditDigests report_digest (sha256_digest (ab_plan bundle)) (sha256_digest <$> ab_evidence bundle)
          (sha256_digest (ab_assessment bundle)) (ra_verdict (ev_payload assessment))).
Proof.
  intros Hc Hp Hx He Ha Hr. unfold validate_relation_audit. rewrite Hc, Hp, Ha. cbn [map_err].
  assert (existsb (fun data => RELATION_DOCUMENT_BYTES <? len data)
    ([ab_plan bundle; ab_assessment bundle] ++ match ab_evidence bundle with Some data => [data] | None => [] end) = false) as ->.
  { cbn [app existsb]. rewrite (parse_small (PL := plan_payload) _ _ eq_refl eq_refl Hp), (parse_small (PL := assessment_payload) _ _ eq_refl eq_refl Ha). unfold parsed_evidence in He.
    destruct (ab_evidence bundle) as [data|]; [|done]. destruct He as (e & He & _). cbn [existsb]. by rewrite (parse_small (PL := evidence_payload) _ _ eq_refl eq_refl He). }
  rewrite (bool_decide_true (ev_payload plan = expected)) by done. cbn [negb].
  assert (match ab_evidence bundle with
    | Some data => let? evidence := map_err (fun _ => ArtifactError.Corrupt) (parse data) in Ok (Some evidence)
    | None => Ok None end = @Ok _ ArtifactError.t evidence) as ->.
  { unfold parsed_evidence in He. destruct (ab_evidence bundle) as [data|]; [|by subst]. destruct He as (e & He & ->). by rewrite He. }
  rewrite Hr. cbn [map_err]. by rewrite bool_decide_true.
Qed.
End Audit.

(** C20: an accepted relation audit replays. The bundle's plan is the one the
    frozen transition and the accepted report determine, the transition
    verifies it, and the recorded digests are those of the bundle's bytes; the
    recorded verdict is not [Unproven] exactly when the bundle has evidence for
    this plan with all four values, and is then the drift of those values. *)
Theorem audit_sound (HH : Hashes) (HHL : HashLaws HH) (HX : Hex) (JT : JsonText) (CP : Canon RelationPlan) (CE : Canon RelationEvidence) (CA : Canon RelationAssessment)
    (DP : Document RelationPlan) (DE : Document RelationEvidence) (DA : Document RelationAssessment)
    (accepted_report : bytes -> res AcceptedReport ArtifactError.t) bundle digests :
  validate_relation_audit accepted_report bundle = Ok digests ->
  exists checked plan evidence,
    recheck (ab_transition bundle) = Ok checked /\ parse (ab_plan bundle) = Ok plan /\ parsed_evidence (ab_evidence bundle) evidence /\
    checked_relation_plan accepted_report (ab_transition bundle) (ab_report bundle) = Ok (ev_payload plan, ad_report_digest digests) /\
    verify_relation_plan plan checked = Ok tt /\
    ad_plan_digest digests = sha256_digest (ab_plan bundle) /\ ad_evidence_digest digests = sha256_digest <$> ab_evidence bundle /\
    ad_assessment_digest digests = sha256_digest (ab_assessment bundle) /\
    (ad_verdict digests <> RelationVerdict.Unproven <-> exists lb rb lc rc, complete plan evidence lb rb lc rc) /\
    forall lb rb lc rc, complete plan evidence lb rb lc rc -> ad_verdict digests = drift lb rb lc rc.
Proof.
  intros (expected & plan & evidence & assessment & Hc & Hp & Hx & He & Ha & Hr & -> & Hd)%audit_parts.
  destruct (checked_plan_Ok _ _ _ _ _ Hc) as (checked & _ & _ & _ & Ec & _). exists checked, plan, evidence. rewrite Hx.
  assert (envelope_validate plan = Ok tt) as Hv by (apply envelope_validate_Ok; by apply (parse_sealed (PL := plan_payload) (ab_plan bundle) plan eq_refl)).
  pose proof (checked_plan_verified _ _ _ _ _ _ _ Hc Ec Hx Hv) as Hverify.
  apply evaluate_Ok in Hr as [Hr _]. destruct Hd as (-> & -> & ->). do 8 (split; [done|]).
  by apply (ad_verdict_assessed plan evidence _ _ _ Hr).
Qed.

(** C21: what the code writes for a frozen transition, it accepts. A report's
    canonical plan, any evidence that parses, and the assessment that [assess]
    writes of them pass the audit, with the assessed verdict; when the written
    documents read back. *)
Theorem audit_replay (HH : Hashes) (HHL : HashLaws HH) (HX : Hex) (JT : JsonText) (CP : Canon RelationPlan) (CE : Canon RelationEvidence) (CA : Canon RelationAssessment)
    (DP : Document RelationPlan) (DE : Document RelationEvidence) (DA : Document RelationAssessment)
    (DPL : DocumentLaws RelationPlan) (DAL : DocumentLaws RelationAssessment)
    (accepted_report : bytes -> res AcceptedReport ArtifactError.t)
    transition report plan_bytes evidence_bytes evidence version engine_digest assessment_bytes plan :
  relation_audit_plan accepted_report transition report = Ok plan_bytes ->
  parse plan_bytes = Ok plan -> parsed_evidence evidence_bytes evidence ->
  assess plan evidence version engine_digest = Ok assessment_bytes ->
  exists report_digest,
    validate_relation_audit accepted_report (mkRelationAuditBundle transition report plan_bytes evidence_bytes assessment_bytes)
    = Ok (mkRelationAuditDigests report_digest (sha256_digest plan_bytes) (sha256_digest <$> evidence_bytes)
            (sha256_digest assessment_bytes) (match judgment plan evidence with Ok verdict => verdict | _ => RelationVerdict.Unproven end)).
Proof.
  intros Hplan Hp He Ha. unfold relation_audit_plan in Hplan.
  destruct (checked_relation_plan _ _ _) as [[expected report_digest]|e|] eqn:Ec; [|done..].
  destruct (emit expected) as [written|e|] eqn:Em; cbn [map_err] in Hplan; [|done..]. injection Hplan as ->.
  apply (emit_parse (H := DPL)) in Em as (text & _ & Em). rewrite Hp in Em. injection Em as ->.
  set (plan := mkEnvelope expected _) in *. unfold assess in Ha.
  destruct (evaluate plan evidence version engine_digest) as [assessment|e|] eqn:Ev; [|done..].
  apply (emit_parse (H := DAL)) in Ha as (text' & _ & Ha).
  pose proof (evaluate_Ok _ _ _ _ _ Ev) as [Hassessed _].
  exists report_digest. rewrite (audit_accepts accepted_report (mkRelationAuditBundle transition report plan_bytes evidence_bytes assessment_bytes)
    expected report_digest plan evidence _ Ec Hp eq_refl He Ha).
  - cbn [ab_plan ab_evidence ab_assessment ev_payload]. by rewrite Hassessed.
  - cbn [ev_payload]. by rewrite Hassessed in *.
Qed.

(** ** An example: the audit of a frozen transition *)

Section Example.
#[local] Existing Instances toy_hash toy_hash_laws rfc_hex single_json.

(** A report of the transition's own trigger. *)
Definition ex_report (_ : bytes) : res AcceptedReport ArtifactError.t :=
  match planned (tr_plan (rt_relation ex_transition)) (rt_subjects ex_transition).1 with
  | Ok trigger =>
      Ok (mkAcceptedReport (sha256_digest [x01]) (sha256_digest [x02]) (su_repository trigger) (Some (su_target trigger))
            (mkAcceptedSnapshot (sn_commit (su_base trigger)) (sn_tree (su_base trigger)))
            (mkAcceptedSnapshot (sn_commit (su_candidate trigger)) (sn_tree (su_candidate trigger))) (sha256_digest [x03]))
  | _ => Err ArtifactError.Corrupt
  end.
Definition ex_expected : option RelationPlan := fst <$> res_ok (checked_relation_plan ex_report ex_transition []).
Definition ex_audit_plan : RelationPlan := default ex_plan ex_expected.
#[local] Instance ex_audit_plan_canon : Canon RelationPlan := single_canon ex_audit_plan.
#[local] Instance ex_audit_plan_document : Document RelationPlan := single_document ex_audit_plan.
#[local] Instance ex_audit_evidence_canon : Canon RelationEvidence := fun _ => Some [].
#[local] Instance ex_audit_evidence_document : Document RelationEvidence :=
  single_document (ex_evidence (sha256_digest [])).
Definition ex_audit_envelope : option (Envelope RelationPlan) := ex_sealed ex_audit_plan.
(** There is no evidence, so the relation is unproven. *)
Definition ex_assessment : RelationAssessment :=
  mkRelationAssessment (mkAssessmentEngine (b_ "1.0.0") (sha256_digest []))
    (mkAssessmentSubject (rp_report_payload_digest ex_audit_plan) (default (sha256_digest []) (ev_payload_digest <$> ex_audit_envelope)) None)
    RelationVerdict.Unproven (Some RelationReason.EvidenceAbsent).
#[local] Instance ex_assessment_canon : Canon RelationAssessment := single_canon ex_assessment.
#[local] Instance ex_assessment_document : Document RelationAssessment := single_document ex_assessment.
Definition ex_plan_bytes : bytes := default [] (res_ok (relation_audit_plan ex_report ex_transition [])).
Definition ex_assessment_bytes : bytes :=
  default [] (plan ← res_ok (parse ex_plan_bytes); res_ok (assess plan None (b_ "1.0.0") (sha256_digest []))).

Lemma audit_replay_witness : exists report_digest,
  validate_relation_audit ex_report (mkRelationAuditBundle ex_transition [] ex_plan_bytes None ex_assessment_bytes)
  = Ok (mkRelationAuditDigests report_digest (sha256_digest ex_plan_bytes) None (sha256_digest ex_assessment_bytes) RelationVerdict.Unproven).
Proof.
  destruct (parse (T := RelationPlan) ex_plan_bytes) as [plan|e|] eqn:Ep; [|vm_compute in Ep; discriminate..].
  pose proof (audit_replay _ _ _ _ _ _ _ _ _ _ (single_laws ex_audit_plan) (single_laws ex_assessment) ex_report ex_transition [] ex_plan_bytes None None
    (b_ "1.0.0") (sha256_digest []) ex_assessment_bytes plan) as H.
  assert (relation_audit_plan ex_report ex_transition [] = Ok ex_plan_bytes) as Ha by (vm_compute; reflexivity).
  assert (assess plan None (b_ "1.0.0") (sha256_digest []) = Ok ex_assessment_bytes) as Hb.
  { clear H. vm_compute in Ep. injection Ep as <-. vm_compute. reflexivity. }
  exact (H Ha Ep eq_refl Hb).
Defined.

Lemma audit_sound_witness : exists digests,
  validate_relation_audit ex_report (mkRelationAuditBundle ex_transition [] ex_plan_bytes None ex_assessment_bytes) = Ok digests /\
  exists checked plan, recheck ex_transition = Ok checked /\ parse ex_plan_bytes = Ok plan /\ verify_relation_plan plan checked = Ok tt.
Proof.
  destruct (validate_relation_audit ex_report (mkRelationAuditBundle ex_transition [] ex_plan_bytes None ex_assessment_bytes)) as [digests|e|] eqn:E;
    [|vm_compute in E; discriminate..].
  exists digests. split; [done|].
  destruct (audit_sound _ _ _ _ _ _ _ _ _ _ _ _ _ E) as (checked & plan & evidence & Hr & Hp & _ & _ & Hv & _).
  exists checked, plan. exact (conj Hr (conj Hp Hv)).
Defined.
End Example.
