(* ===== verification/RelStatus.v ===== *)
(** Statuses of a relation: [controller/src/relations/status.rs],
    [relations/credential.rs] and the references of [artifacts.rs]. *)
From Stdlib Require Import Strings.Byte Strings.String Lia.
From stdpp Require Import base numbers sets sorting list.
From S2P Require Import Prelude Codec WireModel WireIdentity OrdMap Observation EvalModel Controls CtlModel CtlLedgerApi CtlFrame WireEnvelope RelPlan RelJournal RelHistory RelStore RelWork RelWire RelAudit.

#[export] Instance RelationStatusError_eq_dec : EqDecision RelationStatusError.t.
Proof. solve_decision. Defined.

(** ** Audited artifacts *)

Module AssessmentVerdict.
Inductive t := Matched | Refuted | Unproven.
#[global] Instance eq_dec : EqDecision t.
Proof. solve_decision. Defined.
End AssessmentVerdict.

Record PublicationAuditDigests := mkPublicationAuditDigests {
  pa_report_digest : Digest.t; pa_plan_digest : Digest.t; pa_evidence_digest : option Digest.t; pa_assessment_digest : Digest.t;
  pa_verdict : AssessmentVerdict.t
}.
#[export] Instance PublicationAuditDigests_eq_dec : EqDecision PublicationAuditDigests.
Proof. solve_decision. Defined.
Record LocaleAuditDigests := mkLocaleAuditDigests {
  la_report_digest : Digest.t; la_plan_digest : Digest.t; la_evidence_digest : option Digest.t; la_assessment_digest : Digest.t;
  la_verdict : AssessmentVerdict.t
}.
#[export] Instance LocaleAuditDigests_eq_dec : EqDecision LocaleAuditDigests.
Proof. solve_decision. Defined.

Module ArtifactAuditDigests.
Inductive t :=
  | Publication (digests : PublicationAuditDigests)
  | Relation (digests : RelationAuditDigests)
  | Locale (digests : LocaleAuditDigests).
#[global] Instance eq_dec : EqDecision t.
Proof. solve_decision. Defined.
End ArtifactAuditDigests.

Record ArtifactAuditReference := mkArtifactAuditReference { aa_artifact : ArtifactReference; aa_audit : ArtifactAuditDigests.t }.
#[export] Instance ArtifactAuditReference_eq_dec : EqDecision ArtifactAuditReference.
Proof. solve_decision. Defined.

(** ** Records *)

Record RelationSubjectHead := mkRelationSubjectHead { hd_subject : RegisteredSubject; hd_candidate : RelationSnapshot }.

Record RelationStatusTarget := mkRelationStatusTarget {
  tg_role : bytes; tg_scope : PlanScope; tg_credential : OpaqueIdT; tg_candidate_commit : Oid.t; tg_required_status_name : bytes
}.
#[export] Instance RelationStatusTarget_eq_dec : EqDecision RelationStatusTarget.
Proof. solve_decision. Defined.

Record RelationStatusTargets := mkRelationStatusTargets {
  ts_relation : bytes; ts_coordination : bytes; ts_trigger_role : bytes; ts_fence : u64; ts_destinations : list RelationStatusTarget
}.
#[export] Instance RelationStatusTargets_eq_dec : EqDecision RelationStatusTargets.
Proof. solve_decision. Defined.

Record RelationStatusRecord := mkRelationStatusRecord { sr_targets : RelationStatusTargets; sr_audit : ArtifactAuditReference; sr_completed : bool }.
#[export] Instance RelationStatusRecord_eq_dec : EqDecision RelationStatusRecord.
Proof. solve_decision. Defined.

Record RelationStatusPublication := mkRelationStatusPublication { pb_summary : bytes; pb_passing : bool }.

(** ** Targets *)

(** [zip] of two arrays of two. *)
Definition zip_both {A B} (a : A * A) (b : B * B) : list (A * B) := [(a.1, b.1); (a.2, b.2)].
(** [sort_by] on the heads. *)
Definition head_role (head : RelationSubjectHead) : bytes := rs_role (hd_subject head).

Definition head_mismatch (plan : RegisteredRelation) (row : RelationSubjectHead * RelationSubjectTransition) : bool :=
  let '(head, frozen) := row in
  negb (bytes_eqb (head_role head) (rt_role frozen))
  || negb (bool_decide (Oid.object_format (sn_commit (hd_candidate head)) = rs_object_format (hd_subject head)))
  || negb (bool_decide (Oid.object_format (sn_tree (hd_candidate head)) = rs_object_format (hd_subject head)))
  || negb (bool_decide (find_role rs_role (rt_role frozen) (both (rr_subjects plan)) = Some (hd_subject head))).

Definition head_superseded (row : RelationSubjectHead * RelationSubjectTransition) : bool :=
  let '(head, frozen) := row in
  negb (bool_decide (sn_commit (hd_candidate head) = op_candidate (rt_commits frozen)))
  || negb (bool_decide (sn_tree (hd_candidate head) = op_candidate (rt_trees frozen))).

Definition status_target (transition : RelationTransition) (destination : RelationStatusDestination) :
    res RelationStatusTarget RelationStatusError.t :=
  let plan := tr_plan (rt_relation transition) in
  let? subject := ok_or (find_role rs_role (sd_subject_role destination) (both (rr_subjects plan))) RelationStatusError.InvalidTransition in
  let? frozen := ok_or (find_role rt_role (sd_subject_role destination) (both (rt_subjects transition))) RelationStatusError.InvalidTransition in
  Ok (mkRelationStatusTarget (rs_role subject) (rs_scope subject) (rs_credential subject) (op_candidate (rt_commits frozen))
        (sd_required_status_name destination)).

Definition relation_status_targets (pending : PendingRelation) (heads : RelationSubjectHead * RelationSubjectHead) :
    res RelationStatusTargets RelationStatusError.t :=
  let? transition := map_err (fun _ => RelationStatusError.InvalidTransition) (recheck (pd_transition pending)) in
  let heads := sort_both head_role heads in
  let plan := tr_plan (rt_relation transition) in
  let rows := zip_both heads (rt_subjects transition) in
  if existsb (head_mismatch plan) rows then Err RelationStatusError.InvalidHeads
  else if existsb head_superseded rows then Err RelationStatusError.Superseded
  else
    let? destinations := res_map (status_target transition) (rr_status_destinations plan) in
    Ok (mkRelationStatusTargets (rr_identity plan) (rt_coordination transition) (tr_trigger_role (rt_relation transition)) (pd_fence pending)
          (stable_sort_by tg_role destinations)).

(** ** Staging and completing *)

(** No part of another kind of delivery. *)
Definition relation_artifact (artifact : ArtifactReference) : bool :=
  is_none (ar_semantic_digest artifact) && is_none (ar_assessment_digest artifact) && is_none (ar_external_tally artifact)
  && negb (ar_external_incomplete artifact).

Section Staging.
Context `{UrlParser} `{HH : Hashes} {HHL : HashLaws HH} `{HX : Hex} `{JT : JsonText}.
Context `{CP : !Canon RelationPlan} `{CE : !Canon RelationEvidence} `{CA : !Canon RelationAssessment}.
Context `{DP : !Document RelationPlan} `{DE : !Document RelationEvidence} `{DA : !Document RelationAssessment}.
Context (accepted_report : bytes -> res AcceptedReport ArtifactError.t).

Definition stage_relation_status (pending : PendingRelation) (current : option PendingRelation)
    (heads : RelationSubjectHead * RelationSubjectHead) (previous : option RelationStatusRecord) (audit : ArtifactAuditReference)
    (bundle : RelationAuditBundle) : res (option RelationStatusRecord) RelationStatusError.t :=
  if negb (bool_decide (current = Some pending)) then Err RelationStatusError.Superseded
  else
    let? targets := relation_status_targets pending heads in
    if negb (bool_decide (ab_transition bundle = pd_transition pending)) then Err RelationStatusError.InvalidAudit
    else
      let? digests := map_err (fun _ => RelationStatusError.InvalidAudit) (validate_relation_audit accepted_report bundle) in
      if negb (bool_decide (aa_audit audit = ArtifactAuditDigests.Relation digests))
         || negb (valid_reference (aa_artifact audit))
         || negb (bool_decide (ar_report_digest (aa_artifact audit) = ad_report_digest digests))
         || negb (relation_artifact (aa_artifact audit))
      then Err RelationStatusError.InvalidAudit
      else
        match previous with
        | None => Ok (Some (mkRelationStatusRecord targets audit false))
        | Some previous =>
            if negb (bool_decide (sr_targets previous = targets)) || negb (bool_decide (sr_audit previous = audit))
            then Err RelationStatusError.BindingConflict
            else Ok (if sr_completed previous then None else Some previous)
        end.

Definition complete_relation_status (current staged : RelationStatusRecord) : res RelationStatusRecord RelationStatusError.t :=
  if negb (bool_decide (sr_targets current = sr_targets staged)) || negb (bool_decide (sr_audit current = sr_audit staged))
  then Err RelationStatusError.BindingConflict
  else Ok (mkRelationStatusRecord (sr_targets current) (sr_audit current) true).

(** ** Publishing *)

(** [RelationVerdict]'s [AsRefStr]. *)
Definition verdict_str (verdict : RelationVerdict.t) : bytes :=
  match verdict with
  | RelationVerdict.Aligned => b_ "aligned"
  | RelationVerdict.IntroducedDrift => b_ "introduced-drift"
  | RelationVerdict.PreExistingDrift => b_ "pre-existing-drift"
  | RelationVerdict.ResolvedDrift => b_ "resolved-drift"
  | RelationVerdict.Unproven => b_ "unproven"
  end.

Definition summary_line (name value : bytes) : bytes := name ++ b_ ": " ++ value.
Fixpoint lines_of (rows : list (bytes * bytes)) : bytes :=
  match rows with
  | [] => []
  | [(name, value)] => summary_line name value
  | (name, value) :: rows => summary_line name value ++ [x0a] ++ lines_of rows
  end.

Definition status_summary (targets : RelationStatusTargets) (target : RelationStatusTarget) (audit : RelationAuditDigests) : bytes :=
  let repository := ps_repository (tg_scope target) in
  let provider := ps_provider (tg_scope target) in
  lines_of
    [(b_ "relation", ts_relation targets);
     (b_ "coordination", ts_coordination targets);
     (b_ "fence", fmt_dec (ts_fence targets));
     (b_ "verdict", verdict_str (ad_verdict audit));
     (b_ "provider", pi_namespace provider ++ b_ "/" ++ pi_instance provider);
     (b_ "repository",
       RepositoryIdentity.host repository ++ b_ "/" ++ RepositoryIdentity.owner repository ++ b_ "/" ++ RepositoryIdentity.name repository);
     (b_ "trigger-role", ts_trigger_role targets);
     (b_ "destination-role", tg_role target);
     (b_ "status", tg_required_status_name target);
     (b_ "candidate-commit", Oid.as_str (tg_candidate_commit target));
     (b_ "report", Digest.display (ad_report_digest audit));
     (b_ "plan", Digest.display (ad_plan_digest audit));
     (b_ "evidence", match ad_evidence_digest audit with Some digest => Digest.display digest | None => b_ "none" end);
     (b_ "assessment", Digest.display (ad_assessment_digest audit))].

Definition passing_verdict (verdict : RelationVerdict.t) : bool :=
  match verdict with RelationVerdict.Aligned | RelationVerdict.ResolvedDrift => true | _ => false end.

Definition relation_status_publication (status : RelationStatusRecord) (target : RelationStatusTarget) :
    res RelationStatusPublication RelationStatusError.t :=
  let destinations := ts_destinations (sr_targets status) in
  let exact_target := len (filter (fun item => item = target) destinations) =? 1 in
  let ordered_targets :=
    (1 <=? len destinations) && (len destinations <=? 2)
    && negb (any_window (fun a b => negb (bool_decide (bytes_cmp (tg_role a) (tg_role b) = Lt))) destinations) in
  match aa_audit (sr_audit status) with
  | ArtifactAuditDigests.Relation audit =>
      let artifact := aa_artifact (sr_audit status) in
      if sr_completed status || negb exact_target || negb ordered_targets
         || negb (bool_decide (ar_report_digest artifact = ad_report_digest audit))
         || negb (relation_artifact artifact)
         || (negb (bool_decide (ad_verdict audit = RelationVerdict.Unproven)) && is_none (ad_evidence_digest audit))
      then Err RelationStatusError.InvalidPublication
      else Ok (mkRelationStatusPublication (status_summary (sr_targets status) target audit) (passing_verdict (ad_verdict audit)))
  | _ => Err RelationStatusError.InvalidPublication
  end.
End Staging.

(** ** What targets name *)

(** Facts of a checked transition. *)
Lemma recheck_facts transition checked :
  recheck transition = Ok checked ->
  validate_relation (tr_plan (rt_relation checked)) = Ok tt /\ klt (rt_role (rt_subjects checked).1) (rt_role (rt_subjects checked).2) /\
  forall frozen, frozen ∈ both (rt_subjects checked) ->
    exists subject, find_role rs_role (rt_role frozen) (both (rr_subjects (tr_plan (rt_relation checked)))) = Some subject /\
      subject_formats subject frozen = true.
Proof.
  unfold recheck, relation_transition. set (sorted := sort_both rt_role (rt_subjects transition)).
  destruct (negb _ || negb _) eqn:E; [done|]. intros [= <-]. cbn [rt_relation rt_subjects].
  apply orb_false_iff in E as [E1 E2]. apply negb_false_iff, andb_true_iff in E1 as [E1 _].
  apply negb_false_iff, andb_true_iff in E2 as [E2 E3]. apply negb_true_iff, bytes_eqb_neq in E2.
  destruct (validate_relation _) as [[]|e|] eqn:Ev; [|done..]. split; [done|]. split.
  - unfold sorted, sort_both in *. destruct (bytes_cmp _ _) eqn:Ec; [|done|].
    + cbn [fst snd] in E2. by apply (cmp_eq (K := bytes)) in Ec.
    + cbn [fst snd]. by apply (cmp_gt (K := bytes)) in Ec.
  - intros frozen Hin. rewrite forallb_forall in E3. specialize (E3 frozen). rewrite <- list_elem_of_In in E3. specialize (E3 Hin). cbv beta in E3.
    destruct (find_role _ _ _) as [subject|]; [|done]. by exists subject.
Qed.

(** The head a frozen subject must still have. *)
Definition current_head (checked : RelationTransition) (frozen : RelationSubjectTransition) (head : RelationSubjectHead) : Prop :=
  find_role rs_role (rt_role frozen) (both (rr_subjects (tr_plan (rt_relation checked)))) = Some (hd_subject head) /\
  hd_candidate head = mkRelationSnapshot (op_candidate (rt_commits frozen)) (op_candidate (rt_trees frozen)).
Definition current_heads (checked : RelationTransition) (heads : RelationSubjectHead * RelationSubjectHead) : Prop :=
  exists a b, both heads ≡ₚ [a; b] /\ current_head checked (rt_subjects checked).1 a /\ current_head checked (rt_subjects checked).2 b.

Lemma sort_both_two {A} (key : A -> bytes) pair a b : both pair ≡ₚ [a; b] -> klt (key a) (key b) -> sort_both key pair = (a, b).
Proof.
  destruct pair as [x y]. unfold both. cbn [fst snd]. intros Hp Hk.
  assert ((x, y) = (a, b) \/ (x, y) = (b, a)) as [E|E].
  { apply Permutation_length_2_inv in Hp as [E|E]; injection E as -> ->; auto. }
  - injection E as -> ->. unfold sort_both. cbn [fst snd]. unfold klt in Hk. change (bytes_cmp (key a) (key b) = Lt) in Hk. by rewrite Hk.
  - injection E as -> ->. unfold sort_both. cbn [fst snd]. apply (cmp_gt (K := bytes)) in Hk. change (bytes_cmp (key b) (key a) = Gt) in Hk. by rewrite Hk.
Qed.

Lemma current_head_role checked frozen head : current_head checked frozen head -> head_role head = rt_role frozen.
Proof. intros [[_ H]%find_role_Some _]. exact H. Qed.

Lemma head_row_current transition checked frozen head :
  recheck transition = Ok checked -> frozen ∈ both (rt_subjects checked) ->
  (head_mismatch (tr_plan (rt_relation checked)) (head, frozen) = false /\ head_superseded (head, frozen) = false
   <-> current_head checked frozen head).
Proof.
  intros Hr Hin. destruct (recheck_facts _ _ Hr) as (_ & _ & Hf). destruct (Hf frozen Hin) as (subject & Hs & Hformat).
  unfold head_mismatch, head_superseded, current_head. rewrite Hs. split.
  - intros [H1 H2]. apply orb_false_iff in H1 as [_ H1]. apply orb_false_iff in H2 as [H2 H3].
    apply negb_false_iff, bool_decide_eq_true in H1, H2, H3. split; [done|]. destruct (hd_candidate head) as [c t]. cbn in *. by subst.
  - intros [[= E] Hc]. rewrite Hc. cbn [sn_commit sn_tree]. rewrite <- E.
    pose proof (find_role_Some _ _ _ _ Hs) as [_ Hrole]. unfold head_role. rewrite <- E, Hrole, bytes_eqb_same.
    unfold subject_formats in Hformat. cbn [forallb] in Hformat. apply andb_true_iff in Hformat as [_ Hformat].
    apply andb_true_iff in Hformat as [F1 Hformat]. apply andb_true_iff in Hformat as [_ Hformat]. apply andb_true_iff in Hformat as [F2 _].
    rewrite F1, F2, !bool_decide_true by done. done.
Qed.

(** The rows are clean exactly when the heads are current. *)
Lemma rows_current transition checked heads :
  recheck transition = Ok checked ->
  let rows := zip_both (sort_both head_role heads) (rt_subjects checked) in
  existsb (head_mismatch (tr_plan (rt_relation checked))) rows = false /\ existsb head_superseded rows = false <-> current_heads checked heads.
Proof.
  intros Hr rows. destruct (recheck_facts _ _ Hr) as (_ & Hlt & _). subst rows. unfold zip_both. cbn [existsb]. rewrite !orb_false_r.
  assert ((rt_subjects checked).1 ∈ both (rt_subjects checked)) as H1 by left.
  assert ((rt_subjects checked).2 ∈ both (rt_subjects checked)) as H2 by (right; left).
  split.
  - intros [[A1 A2]%orb_false_iff [B1 B2]%orb_false_iff]. exists (sort_both head_role heads).1, (sort_both head_role heads).2.
    split; [symmetry; exact (sort_both_perm head_role heads)|].
    split; [by apply (head_row_current _ _ _ _ Hr H1)|by apply (head_row_current _ _ _ _ Hr H2)].
  - intros (a & b & Hp & Ha & Hb). rewrite (sort_both_two head_role heads a b Hp).
    + cbn [fst snd]. apply (head_row_current _ _ _ _ Hr H1) in Ha as [-> ->]. by apply (head_row_current _ _ _ _ Hr H2) in Hb as [-> ->].
    + by rewrite (current_head_role _ _ _ Ha), (current_head_role _ _ _ Hb).
Qed.

(** What a destination's target names. *)
Definition names_target (checked : RelationTransition) (destination : RelationStatusDestination) (target : RelationStatusTarget) : Prop :=
  exists subject frozen, subject ∈ both (rr_subjects (tr_plan (rt_relation checked))) /\ frozen ∈ both (rt_subjects checked) /\
    rs_role subject = sd_subject_role destination /\ rt_role frozen = sd_subject_role destination /\
    target = mkRelationStatusTarget (sd_subject_role destination) (rs_scope subject) (rs_credential subject) (op_candidate (rt_commits frozen))
      (sd_required_status_name destination).

Lemma status_target_Ok checked destination target :
  status_target checked destination = Ok target -> names_target checked destination target.
Proof.
  unfold status_target. destruct (find_role rs_role _ _) as [subject|] eqn:Es; [|done].
  destruct (find_role rt_role _ _) as [frozen|] eqn:Ef; [|done]. cbn [ok_or]. intros [= <-].
  apply find_role_Some in Es as [H1 E1]. apply find_role_Some in Ef as [H2 E2]. exists subject, frozen. by rewrite E1.
Qed.

Lemma has_role_find {A} (role_of : A -> bytes) role l : has_role role_of role l = true <-> exists x, find_role role_of role l = Some x.
Proof.
  unfold has_role, find_role. induction l as [|x l IH]; cbn; [naive_solver|]. destruct (bytes_eqb _ _); naive_solver.
Qed.

(** Every destination of a valid plan has a target, and its roles are few and strictly ordered. *)
Lemma valid_destinations plan :
  validate_relation plan = Ok tt ->
  (1 <= length (rr_status_destinations plan) <= 2)%nat /\
  any_window (fun a b => bytes_eqb (sd_subject_role a) (sd_subject_role b)) (rr_status_destinations plan) = false /\
  forall d, d ∈ rr_status_destinations plan -> has_role rs_role (sd_subject_role d) (both (rr_subjects plan)) = true.
Proof.
  unfold validate_relation. destruct (rr_subjects plan) as [a b]. destruct (bytes_eqb (rs_role a) _ || _); [done|].
  destruct (negb (relation_limits_valid plan)); [done|]. destruct (existsb _ (both (a, b))); [done|].
  destruct (_ || _) eqn:E; [done|]. intros _.
  apply orb_false_iff in E as [E1 E3]. apply orb_false_iff in E1 as [E1 E2]. apply negb_false_iff, andb_true_iff in E1 as [L1 L2].
  apply Z.leb_le in L1, L2. unfold len in *. cbn [length both] in L2. split; [lia|]. split; [done|].
  intros d Hd. destruct (has_role _ _ _) eqn:Eh; [done|]. assert (existsb (fun d => negb (has_role rs_role (sd_subject_role d) (both (a, b))))
    (rr_status_destinations plan) = true) as E; [|congruence].
  apply existsb_exists. exists d. rewrite <- list_elem_of_In. by rewrite Eh.
Qed.

Lemma res_map_total {A B X} (f : A -> res B X) l : (forall x, x ∈ l -> exists y, f x = Ok y) -> exists ys, res_map f l = Ok ys.
Proof.
  induction l as [|x l IH]; intros H; [by exists []|]. destruct (H x ltac:(left)) as [y Hy].
  destruct IH as [ys Hys]; [intros z Hz; apply H; by right|]. exists (y :: ys). cbn [res_map]. by rewrite Hy, Hys.
Qed.

Lemma checked_has_role transition checked role :
  recheck transition = Ok checked -> has_role rs_role role (both (rr_subjects (tr_plan (rt_relation checked)))) = true ->
  has_role rt_role role (both (rt_subjects checked)) = true.
Proof.
  intros Hr Hrole. destruct (recheck_facts _ _ Hr) as (Hv & Hlt & Hf). destruct (valid_repositories _ Hv) as [Hne _].
  destruct (Hf (rt_subjects checked).1 ltac:(left)) as (s1 & F1 & _). destruct (Hf (rt_subjects checked).2 ltac:(right; left)) as (s2 & F2 & _).
  apply find_role_Some in F1 as [I1 R1]. apply find_role_Some in F2 as [I2 R2].
  assert (rt_role (rt_subjects checked).1 <> rt_role (rt_subjects checked).2) as Hd by (intros E; rewrite E in Hlt; by apply (irreflexivity klt) in Hlt).
  unfold has_role, both in *. cbn [existsb] in *. rewrite !orb_false_r in *.
  apply elem_of_cons in I1 as [->|I1%list_elem_of_singleton]; apply elem_of_cons in I2 as [->|I2%list_elem_of_singleton]; subst;
    rewrite <- ?R1, <- ?R2; try done; [congruence| |congruence]. by rewrite orb_comm.
Qed.

Lemma targets_total transition checked :
  recheck transition = Ok checked -> exists targets, res_map (status_target checked) (rr_status_destinations (tr_plan (rt_relation checked))) = Ok targets.
Proof.
  intros Hr. destruct (recheck_facts _ _ Hr) as (Hv & _). destruct (valid_destinations _ Hv) as (_ & _ & Hd). apply res_map_total. intros d Hin.
  pose proof (Hd d Hin) as H1. pose proof (checked_has_role _ _ _ Hr H1) as H2. apply has_role_find in H1 as [subject E1], H2 as [frozen E2].
  unfold status_target. rewrite E1, E2. cbn [ok_or]. eauto.
Qed.

Lemma names_target_role checked d t : names_target checked d t -> tg_role t = sd_subject_role d.
Proof. by intros (? & ? & ? & ? & ? & ? & ->). Qed.

Lemma short_nodup {A} (key : A -> bytes) l :
  (length l <= 2)%nat -> any_window (fun a b => bytes_eqb (key a) (key b)) l = false -> NoDup (map key l).
Proof.
  destruct l as [|a [|b [|c l]]]; intros Hl Hw; [repeat constructor..| |cbn in Hl; lia]; [set_solver|].
  cbn in Hw. rewrite orb_false_r in Hw. apply bytes_eqb_neq in Hw. cbn. repeat constructor; set_solver.
Qed.

Lemma sorted_roles (l : list RelationStatusTarget) :
  NoDup (map tg_role l) -> StronglySorted (fun a b => klt (tg_role a) (tg_role b)) (stable_sort_by tg_role l).
Proof.
  intros Hn. pose proof (stable_sort_by_sorted tg_role l) as Hs.
  assert (NoDup (map tg_role (stable_sort_by tg_role l))) as Hn' by (by rewrite (stable_sort_by_perm tg_role l)).
  clear Hn. induction Hs as [|x l' Hs IH Hf]; [constructor|]. apply NoDup_cons in Hn' as [Hx Hn']. constructor; [by apply IH|].
  rewrite Forall_forall in Hf |- *. intros y Hy. specialize (Hf y Hy). apply kle_lt in Hf as [|E]; [done|].
  exfalso. apply Hx. rewrite E. apply list_elem_of_fmap. by exists y.
Qed.

(** What [relation_status_targets] returns for current heads. *)
Record targets_of (pending : PendingRelation) (checked : RelationTransition) (targets : RelationStatusTargets) : Prop := {
  to_relation : ts_relation targets = rr_identity (tr_plan (rt_relation checked));
  to_coordination : ts_coordination targets = rt_coordination checked;
  to_trigger : ts_trigger_role targets = tr_trigger_role (rt_relation checked);
  to_fence : ts_fence targets = pd_fence pending;
  to_order : StronglySorted (fun a b => klt (tg_role a) (tg_role b)) (ts_destinations targets);
  to_bound : (1 <= length (ts_destinations targets) <= 2)%nat;
  to_exact target : target ∈ ts_destinations targets <->
    exists d, d ∈ rr_status_destinations (tr_plan (rt_relation checked)) /\ names_target checked d target
}.

Lemma names_target_fun checked transition d t t' :
  recheck transition = Ok checked -> names_target checked d t -> names_target checked d t' -> t = t'.
Proof.
  intros Hr (s & f & Hs & Hf & Rs & Rf & ->) (s' & f' & Hs' & Hf' & Rs' & Rf' & ->).
  destruct (recheck_facts _ _ Hr) as (Hv & Hlt & _). destruct (valid_repositories _ Hv) as [Hne _].
  assert (s = s') as ->.
  { eapply (NoDup_fmap_unique rs_role); [exact (both_nodup rs_role _ Hne)|done|done|congruence]. }
  assert (f = f') as ->; [|done].
  eapply (NoDup_fmap_unique rt_role); [apply (both_nodup rt_role (rt_subjects checked))|done|done|congruence].
  intros E. rewrite E in Hlt. by apply (irreflexivity klt) in Hlt.
Qed.

Lemma status_targets_current pending checked heads :
  recheck (pd_transition pending) = Ok checked -> current_heads checked heads ->
  exists targets, relation_status_targets pending heads = Ok targets /\ targets_of pending checked targets.
Proof.
  intros Hr Hc. destruct (targets_total _ _ Hr) as [ts Hts]. unfold relation_status_targets. rewrite Hr. cbn [map_err].
  destruct (proj2 (rows_current _ _ _ Hr) Hc) as [-> ->]. rewrite Hts. eexists. split; [done|].
  destruct (recheck_facts _ _ Hr) as (Hv & _). destruct (valid_destinations _ Hv) as (Hl & Hw & _). apply res_map_Forall2 in Hts.
  assert (Forall2 (names_target checked) (rr_status_destinations (tr_plan (rt_relation checked))) ts) as Hn.
  { eapply Forall2_impl; [exact Hts|]. intros d t. apply status_target_Ok. }
  assert (map tg_role ts = map sd_subject_role (rr_status_destinations (tr_plan (rt_relation checked)))) as Hroles.
  { clear -Hn. induction Hn as [|d t ds ts Hd _ IH]; [done|]. cbn. by rewrite IH, (names_target_role _ _ _ Hd). }
  constructor; cbn [ts_relation ts_coordination ts_trigger_role ts_fence ts_destinations]; [done..| | |].
  - apply sorted_roles. rewrite Hroles. apply short_nodup; [lia|done].
  - rewrite (Permutation_length (stable_sort_by_perm tg_role ts)), <- (Forall2_length _ _ _ Hn). exact Hl.
  - intros t. rewrite (stable_sort_by_perm tg_role ts). split.
    + intros [i Hi]%list_elem_of_lookup. eapply Forall2_lookup_r in Hn as (d & Hd & Hnames); [|done].
      exists d. split; [by eapply list_elem_of_lookup_2|done].
    + intros (d & [i Hi]%list_elem_of_lookup & Hnames). eapply Forall2_lookup_l in Hn as (t' & Ht' & Hnames'); [|done].
      rewrite (names_target_fun _ _ _ _ _ Hr Hnames Hnames'). by eapply list_elem_of_lookup_2.
Qed.

(** the targets of a status exist exactly when the transition is valid and
    the two heads are the relation's own subjects, each still at its frozen
    commit and tree; they are then the configured destinations, one target
    each, in the strict order of their roles, with the frozen candidate. *)
Theorem status_targets_exact pending heads :
  match relation_status_targets pending heads with
  | Ok targets =>
      exists checked, recheck (pd_transition pending) = Ok checked /\ current_heads checked heads /\ targets_of pending checked targets
  | Err _ => ~ exists checked, recheck (pd_transition pending) = Ok checked /\ current_heads checked heads
  | OutOfFuel => False
  end.
Proof.
  destruct (recheck (pd_transition pending)) as [checked|e|] eqn:Hr.
  - destruct (existsb (head_mismatch (tr_plan (rt_relation checked))) (zip_both (sort_both head_role heads) (rt_subjects checked))
      || existsb head_superseded (zip_both (sort_both head_role heads) (rt_subjects checked))) eqn:E.
    + assert (~ current_heads checked heads) as Hn.
      { intros Hc. apply (rows_current _ _ _ Hr) in Hc as [E1 E2]. by rewrite E1, E2 in E. }
      unfold relation_status_targets. rewrite Hr. cbn [map_err].
      destruct (existsb (head_mismatch _) _); [|destruct (existsb head_superseded _); [|done]]; intros (c & [= <-] & Hc); done.
    + apply orb_false_iff in E. apply (rows_current _ _ _ Hr) in E.
      destruct (status_targets_current _ _ _ Hr E) as (targets & -> & Ht). by exists checked.
  - unfold relation_status_targets. rewrite Hr. by intros (c & [=] & _).
  - unfold recheck, relation_transition in Hr. by destruct (_ || _).
Qed.

(** ** What a staged status publishes *)

Lemma strict_windows {A} (key : A -> bytes) l :
  StronglySorted (fun a b => klt (key a) (key b)) l -> any_window (fun a b => negb (bool_decide (bytes_cmp (key a) (key b) = Lt))) l = false.
Proof.
  induction 1 as [|x l Hs IH Hf]; [done|]. destruct l as [|y l]; [done|].
  change (any_window ?t (x :: y :: l)) with (t x y || any_window t (y :: l)). cbv beta. rewrite IH, orb_false_r.
  apply Forall_cons in Hf as [Hf _]. by rewrite bool_decide_true.
Qed.

Lemma strict_nodup {A} (key : A -> bytes) l : StronglySorted (fun a b => klt (key a) (key b)) l -> NoDup l.
Proof.
  induction 1 as [|x l Hs IH Hf]; constructor; [|done]. intros Hin. rewrite Forall_forall in Hf. specialize (Hf x Hin).
  by apply (irreflexivity klt) in Hf.
Qed.

Lemma filter_same (x : RelationStatusTarget) l : NoDup l -> (x ∈ l <-> len (filter (fun item => item = x) l) = 1).
Proof.
  intros Hn. unfold len. split.
  - intros Hin. induction Hn as [|y l Hy Hn IH]; [by apply elem_of_nil in Hin|]. rewrite filter_cons. apply elem_of_cons in Hin as [->|Hin].
    + rewrite decide_True by done. cbn [length]. assert (filter (fun item => item = y) l = []) as ->; [|done].
      destruct (filter _ l) as [|z k] eqn:Ef; [done|]. assert (z ∈ filter (fun item => item = y) l) as Hz by (rewrite Ef; left).
      by apply list_elem_of_filter in Hz as [-> Hz].
    + rewrite decide_False by (by intros ->). by apply IH.
  - intros E. destruct (filter _ l) as [|y k] eqn:Ef; [done|]. assert (y ∈ filter (fun item => item = x) l) as Hy by (rewrite Ef; left).
    apply list_elem_of_filter in Hy as [-> Hy]. done.
Qed.

Section Staged.
Context `{UP : UrlParser} `{HH : Hashes} {HHL : HashLaws HH} `{HX : Hex} `{JT : JsonText}.
Context `{CP : !Canon RelationPlan} `{CE : !Canon RelationEvidence} `{CA : !Canon RelationAssessment}.
Context `{DP : !Document RelationPlan} `{DE : !Document RelationEvidence} `{DA : !Document RelationAssessment}.
Context (accepted_report : bytes -> res AcceptedReport ArtifactError.t).

(** A staged record, in its parts. *)
Lemma stage_Ok pending current heads previous audit bundle record :
  stage_relation_status accepted_report pending current heads previous audit bundle = Ok (Some record) ->
  exists targets digests, current = Some pending /\ relation_status_targets pending heads = Ok targets /\
    ab_transition bundle = pd_transition pending /\ validate_relation_audit accepted_report bundle = Ok digests /\
    record = mkRelationStatusRecord targets audit false /\ aa_audit audit = ArtifactAuditDigests.Relation digests /\
    valid_reference (aa_artifact audit) = true /\ ar_report_digest (aa_artifact audit) = ad_report_digest digests /\
    relation_artifact (aa_artifact audit) = true.
Proof.
  unfold stage_relation_status. case_bool_decide as Hc; cbn [negb]; [|done].
  destruct (relation_status_targets pending heads) as [targets|e|]; [|done..]. case_bool_decide as Ht; cbn [negb]; [|done].
  destruct (validate_relation_audit accepted_report bundle) as [digests|e|]; cbn [map_err]; [|done..].
  case_bool_decide as Ha; cbn [negb orb]; [|done]. destruct (valid_reference _) eqn:Hv; cbn [negb orb]; [|done].
  case_bool_decide as Hr; cbn [negb orb]; [|done]. destruct (relation_artifact _) eqn:Hart; cbn [negb]; [|done].
  intros H. exists targets, digests. split_and!; [done..| |done|done|done|done]. destruct previous as [previous|]; [|by injection H as <-].
  case_bool_decide as E1; cbn [negb orb] in H; [|done]. case_bool_decide as E2; cbn [negb] in H; [|done].
  destruct (sr_completed previous) eqn:Ed; [done|]. injection H as <-. destruct previous as [t a c]. cbn in *. by subst.
Qed.

(** The verdict of an accepted audit passes when both candidates agree. *)
Lemma audit_passes bundle digests :
  validate_relation_audit accepted_report bundle = Ok digests ->
  (passing_verdict (ad_verdict digests) = true <->
    exists plan evidence lb rb lc, parse (ab_plan bundle) = Ok plan /\ parsed_evidence (ab_evidence bundle) evidence /\
      complete plan evidence lb rb lc lc) /\
  (ad_verdict digests <> RelationVerdict.Unproven -> is_some (ad_evidence_digest digests) = true).
Proof.
  intros (expected & plan & evidence & assessment & _ & Hp & _ & He & _ & Hr & -> & _ & -> & _)%audit_parts.
  apply evaluate_Ok in Hr as [Hr _]. destruct (ad_verdict_assessed plan evidence _ _ _ Hr) as [Hu Hd]. split.
  - split.
    + intros Hpass. destruct (proj1 Hu) as (lb & rb & lc & rc & Hc); [by intros E; rewrite E in Hpass|].
      pose proof (Hd _ _ _ _ Hc) as E. rewrite E in Hpass. exists plan, evidence, lb, rb, lc. split; [done|]. split; [done|].
      unfold drift in Hpass. by repeat case_bool_decide; subst.
    + intros (plan' & evidence' & lb & rb & lc & Hp' & He' & Hc). rewrite Hp in Hp'. injection Hp' as <-.
      assert (evidence' = evidence) as ->.
      { unfold parsed_evidence in *. destruct (ab_evidence bundle); [|congruence]. destruct He as (e & E1 & ->), He' as (e' & E2 & ->). congruence. }
      rewrite (Hd _ _ _ _ Hc). unfold drift. rewrite (bool_decide_true (lc = lc)) by done. by case_bool_decide.
  - intros (lb & rb & lc & rc & (e & _ & _ & -> & _))%Hu. unfold parsed_evidence in He. by destruct (ab_evidence bundle).
Qed.
End Staged.

(** C19: a status that is staged can be published to exactly its own targets,
    which are those of the pending transition's current heads; it passes
    exactly when the bundle's evidence projects all four values for the
    bundle's plan and the two candidates' values are equal. *)
Theorem staged_publishes (UP : UrlParser) (HH : Hashes) (HHL : HashLaws HH) (HX : Hex) (JT : JsonText)
    (CP : Canon RelationPlan) (CE : Canon RelationEvidence) (CA : Canon RelationAssessment)
    (DP : Document RelationPlan) (DE : Document RelationEvidence) (DA : Document RelationAssessment)
    (accepted_report : bytes -> res AcceptedReport ArtifactError.t) pending current heads previous audit bundle record :
  stage_relation_status accepted_report pending current heads previous audit bundle = Ok (Some record) ->
  (exists checked, recheck (pd_transition pending) = Ok checked /\ current_heads checked heads /\ targets_of pending checked (sr_targets record)) /\
  (forall target, target ∈ ts_destinations (sr_targets record) <-> exists p, relation_status_publication record target = Ok p) /\
  forall target p, relation_status_publication record target = Ok p ->
    (pb_passing p = true <->
      exists plan evidence lb rb lc, parse (ab_plan bundle) = Ok plan /\ parsed_evidence (ab_evidence bundle) evidence /\
        complete plan evidence lb rb lc lc).
Proof.
  intros (targets & digests & -> & Ht & _ & Hv & -> & Ha & _ & Hr & Hart)%stage_Ok. destruct (audit_passes _ _ _ Hv) as [Hpass Hsome].
  destruct (recheck (pd_transition pending)) as [checked|e|] eqn:Hc;
    [|unfold relation_status_targets in Ht; rewrite Hc in Ht; done|unfold relation_status_targets in Ht; rewrite Hc in Ht; done].
  assert (current_heads checked heads) as Hheads.
  { apply (rows_current _ _ _ Hc). unfold relation_status_targets in Ht. rewrite Hc in Ht. cbn [map_err] in Ht.
    destruct (existsb (head_mismatch _) _); [done|]. by destruct (existsb head_superseded _). }
  destruct (status_targets_current _ _ _ Hc Hheads) as (targets' & E & Hto). rewrite E in Ht. injection Ht as ->.
  assert (forall target, relation_status_publication (mkRelationStatusRecord targets audit false) target
    = if len (filter (fun item => item = target) (ts_destinations targets)) =? 1
      then Ok (mkRelationStatusPublication (status_summary targets target digests) (passing_verdict (ad_verdict digests)))
      else Err RelationStatusError.InvalidPublication) as Hpub.
  { intros target. unfold relation_status_publication. cbn [sr_targets sr_audit sr_completed]. rewrite Ha, Hart, Hr, bool_decide_true by done.
    rewrite (strict_windows tg_role _ (to_order _ _ _ Hto)). pose proof (to_bound _ _ _ Hto) as Hb.
    rewrite (proj2 (Z.leb_le 1 _)), (proj2 (Z.leb_le _ 2)) by (unfold len; lia).
    assert (negb (bool_decide (ad_verdict digests = RelationVerdict.Unproven)) && is_none (ad_evidence_digest digests) = false) as ->.
    { case_bool_decide as Hu; [done|]. specialize (Hsome Hu). by destruct (ad_evidence_digest digests). }
    by destruct (_ =? 1). }
  cbn [sr_targets]. split; [by exists checked|]. split.
  - intros target. rewrite (filter_same target) by (eapply (strict_nodup tg_role), (to_order _ _ _ Hto)). rewrite Hpub.
    destruct (Z.eqb_spec (len (filter (fun item => item = target) (ts_destinations targets))) 1); split; [eauto|done|done|by intros [p [=]]].
  - intros target p. rewrite Hpub. destruct (_ =? 1); [|done]. intros [= <-]. exact Hpass.
Qed.

(** ** An example: the status of an unproven relation *)

Section Example.
#[local] Existing Instances toy_hash toy_hash_laws rfc_hex single_json.
#[local] Existing Instances ex_audit_plan_canon ex_audit_plan_document ex_audit_evidence_canon ex_audit_evidence_document
  ex_assessment_canon ex_assessment_document.
#[local] Instance ex_urls : UrlParser :=
  {| url_parse b := Some (mkUrl (b_ "https") (Some (b_ "h")) [] None None None (b_ "/a") b) |}.

Definition ex_pending : PendingRelation := mkPendingRelation ex_transition 1.
Definition ex_head (frozen : RelationSubjectTransition) : RelationSubjectHead :=
  mkRelationSubjectHead
    (default (rr_subjects (tr_plan (rt_relation ex_transition))).1
      (find_role rs_role (rt_role frozen) (both (rr_subjects (tr_plan (rt_relation ex_transition))))))
    (mkRelationSnapshot (op_candidate (rt_commits frozen)) (op_candidate (rt_trees frozen))).
Definition ex_heads : RelationSubjectHead * RelationSubjectHead :=
  (ex_head (rt_subjects ex_transition).2, ex_head (rt_subjects ex_transition).1).
Definition ex_bundle : RelationAuditBundle := mkRelationAuditBundle ex_transition [] ex_plan_bytes None ex_assessment_bytes.
Definition ex_id : bytes := repeat x61 64.
Definition ex_reference : ArtifactReference :=
  mkArtifactReference ex_id (b_ "https://h/a/" ++ ex_id ++ b_ "/report") 5 (sha256_digest [x01]) None None false None.
Definition ex_audit : option ArtifactAuditReference :=
  digests ← res_ok (validate_relation_audit ex_report ex_bundle);
  Some (mkArtifactAuditReference ex_reference (ArtifactAuditDigests.Relation digests)).

Lemma staged_publishes_witness : exists audit record target p,
  stage_relation_status ex_report ex_pending (Some ex_pending) ex_heads None audit ex_bundle = Ok (Some record) /\
  target ∈ ts_destinations (sr_targets record) /\ relation_status_publication record target = Ok p.
Proof.
  destruct ex_audit as [audit|] eqn:Ea; [|vm_compute in Ea; discriminate].
  assert (exists record, stage_relation_status ex_report ex_pending (Some ex_pending) ex_heads None audit ex_bundle = Ok (Some record) /\
    exists target, target ∈ ts_destinations (sr_targets record)) as (record & E & target & Ht).
  { vm_compute in Ea. injection Ea as <-. eexists. split; [vm_compute; reflexivity|]. eexists. left. }
  destruct (staged_publishes _ _ _ _ _ _ _ _ _ _ _ ex_report ex_pending (Some ex_pending) ex_heads None audit ex_bundle record E) as (_ & H & _).
  destruct (proj1 (H target) Ht) as [p Hp]. exists audit, record, target, p. exact (conj E (conj Ht Hp)).
Defined.
End Example.
