(* ===== verification/RelCredential.v ===== *)
(** Credential routes: [controller/src/relations/credential.rs]. *)
From Stdlib Require Import Strings.Byte Strings.String Lia.
From stdpp Require Import base numbers sets sorting list.
From S2P Require Import Prelude Codec WireModel WireIdentity OrdMap Observation EvalModel Controls CtlModel CtlLedgerApi RelPlan.

Record RelationCredentialRoute (A : Type) := mkRelationCredentialRoute { cr_identity : OpaqueIdT; cr_authority : A }.
Arguments mkRelationCredentialRoute {A}.
Arguments cr_identity {A}.
Arguments cr_authority {A}.

(** [RelationCredentialRouter], its routes. *)
Abbreviation Routes A := (bt bytes ((ProviderIdentity * OpaqueIdT) * A)).

Module RelationCredentialError.
Inductive t := Missing | Unused | Rebound.
End RelationCredentialError.

Section Router.
Context {A : Type}.

Definition bind_route (registry : RelationRegistry) (bound : Routes A) (route : RelationCredentialRoute A) :
    res (Routes A) RelationCredentialError.t :=
  match bt_get (cr_identity route) (rg_credentials registry) with
  | None => Err RelationCredentialError.Unused
  | Some scope =>
      if is_none (bt_get (cr_identity route) bound) then Ok (bt_insert (cr_identity route) (scope, cr_authority route) bound)
      else Err RelationCredentialError.Unused
  end.

Definition relation_credential_router (registry : RelationRegistry) (routes : list (RelationCredentialRoute A)) :
    res (Routes A) RelationCredentialError.t :=
  let? bound := res_fold (bind_route registry) routes [] in
  if len bound =? len (rg_credentials registry) then Ok bound else Err RelationCredentialError.Missing.

Definition relation_authority (router : Routes A) (credential : OpaqueIdT) (scope : PlanScope) : res A RelationCredentialError.t :=
  match bt_get credential router with
  | None => Err RelationCredentialError.Missing
  | Some (registered, held) =>
      if bool_decide (registered = (ps_provider scope, ps_integration scope)) then Ok held else Err RelationCredentialError.Rebound
  end.

(** ** What a router holds *)

Lemma bind_routes registry routes bound bound' :
  bt_wf bound -> res_fold (bind_route registry) routes bound = Ok bound' ->
  bt_wf bound' /\ NoDup (map cr_identity routes) /\
  (forall k, k ∈ bt_keys bound' <-> k ∈ bt_keys bound \/ k ∈ map cr_identity routes) /\
  (forall k, k ∈ map cr_identity routes -> bt_get k bound = None /\ exists scope, bt_get k (rg_credentials registry) = Some scope) /\
  (forall k v, bt_get k bound = Some v -> bt_get k bound' = Some v) /\
  forall route scope, route ∈ routes -> bt_get (cr_identity route) (rg_credentials registry) = Some scope ->
    bt_get (cr_identity route) bound' = Some (scope, cr_authority route).
Proof.
  revert bound. induction routes as [|route routes IH]; intros bound Hwf; cbn [res_fold].
  { intros [= <-]. split_and!; [done|constructor|set_solver|set_solver|done|set_solver]. }
  unfold bind_route at 1. destruct (bt_get (cr_identity route) (rg_credentials registry)) as [scope|] eqn:Es; [|done].
  destruct (bt_get (cr_identity route) bound) as [held|] eqn:Eb; [done|]. cbn [is_none]. intros H.
  apply IH in H as (Hwf' & Hn & Hk & Hfresh & Hkeep & Hall); [|by apply bt_insert_wf].
  assert (forall k, k ∈ map cr_identity routes -> k <> cr_identity route) as Hne.
  { intros k Hin ->. apply Hfresh in Hin as [Hin _]. rewrite bt_get_insert in Hin by done. by rewrite decide_True in Hin. }
  split; [done|]. split; [|split; [|split; [|split]]].
  - cbn. constructor; [|done]. intros Hin. by apply (Hne _ Hin).
  - intros k. rewrite Hk. unfold bt_insert. rewrite elem_bt_upd. cbn [map]. rewrite elem_of_cons. naive_solver.
  - cbn [map]. intros k [->|Hin]%elem_of_cons; [by eauto|]. destruct (Hfresh k Hin) as [Hx Hs]. split; [|done].
    rewrite bt_get_insert in Hx by done. by rewrite decide_False in Hx by (by apply Hne).
  - intros k v Hv. apply Hkeep. rewrite bt_get_insert by done. rewrite decide_False; [done|]. intros ->. congruence.
  - intros r s [->|Hin]%elem_of_cons Hs; [|by apply Hall]. apply Hkeep. rewrite bt_get_insert by done. rewrite decide_True by done. congruence.
Qed.

(** Every subject's credential is in an accepted registry, under its own authority. *)
Lemma registry_credentials plans registry plan subject :
  relation_registry plans = Ok registry -> plan ∈ plans -> subject ∈ both (rr_subjects plan) ->
  bt_get (rs_credential subject) (rg_credentials registry) = Some (authority subject).
Proof.
  intros [sorted Hr]%registry_registered Hp Hs. destruct (re_bound _ _ _ Hr) as [destinations Hb].
  apply bind_plans in Hb as (_ & Hcred & _ & _); [|apply bt_nil_wf|apply (re_valid _ _ _ Hr)].
  apply (Hcred (sorted_plan plan)); [|cbn [sorted_plan rr_subjects]; by rewrite (sort_both_perm rs_role)].
  rewrite (re_perm _ _ _ Hr). apply list_elem_of_fmap. by exists plan.
Qed.
End Router.

Lemma bind_plans_wf sorted credentials held credentials' held' :
  bt_wf credentials -> res_fold bind_plan sorted (credentials, held) = Ok (credentials', held') -> bt_wf credentials'.
Proof.
  revert credentials held. induction sorted as [|plan sorted IH]; intros credentials held Hwf; cbn [res_fold]; [by intros [= <- <-]|].
  unfold bind_plan at 1. cbn [fst snd]. destruct (res_fold bind_credential _ _) as [credentials1| |] eqn:Ec; [|done|done].
  destruct (res_fold (own_destination plan) _ _) as [held1| |]; [|done|done].
  apply bind_credentials in Ec as (Hwf1 & _); [|done]. by apply IH.
Qed.

Lemma registry_credentials_wf plans registry : relation_registry plans = Ok registry -> bt_wf (rg_credentials registry).
Proof.
  intros [sorted Hr]%registry_registered. destruct (re_bound _ _ _ Hr) as [destinations Hb].
  eapply bind_plans_wf; [apply bt_nil_wf|exact Hb].
Qed.

(** a router exists exactly when the routes give each credential of the
    registry one authority and no other; each subject of each registered
    relation then gets the authority of its own credential, and a credential
    never serves another provider or integration than the registered ones. *)
Theorem router_exact {A} plans registry (routes : list (RelationCredentialRoute A)) :
  relation_registry plans = Ok registry ->
  (is_ok (relation_credential_router registry routes) = true <->
    NoDup (map cr_identity routes) /\ forall k, k ∈ map cr_identity routes <-> k ∈ bt_keys (rg_credentials registry)) /\
  forall router, relation_credential_router registry routes = Ok router ->
    (forall plan subject, plan ∈ plans -> subject ∈ both (rr_subjects plan) ->
      exists route, route ∈ routes /\ cr_identity route = rs_credential subject /\
        relation_authority router (rs_credential subject) (rs_scope subject) = Ok (cr_authority route)) /\
    forall credential scope held, relation_authority router credential scope = Ok held ->
      bt_get credential (rg_credentials registry) = Some (ps_provider scope, ps_integration scope) /\
      exists route, route ∈ routes /\ cr_identity route = credential /\ cr_authority route = held.
Proof.
  intros Hreg. pose proof (registry_credentials_wf _ _ Hreg) as Hwf. unfold relation_credential_router.
  destruct (res_fold (bind_route registry) routes []) as [bound|e|] eqn:Eb.
  - destruct (bind_routes _ _ _ _ (bt_nil_wf) Eb) as (Hwf' & Hn & Hk & Hin & _ & Hall).
    assert (bt_keys bound ≡ₚ map cr_identity routes) as Hperm.
    { apply NoDup_Permutation; [by apply bt_keys_NoDup|done|]. intros k. rewrite Hk. cbn. set_solver. }
    assert (map cr_identity routes ⊆+ bt_keys (rg_credentials registry)) as Hsub.
    { apply NoDup_submseteq; [done|]. intros k Hkr. apply Hin in Hkr as [_ [scope Hs]]. apply elem_bt_keys; [done|by exists scope]. }
    assert ((len bound =? len (rg_credentials registry)) = true <-> map cr_identity routes ≡ₚ bt_keys (rg_credentials registry)) as Hlen.
    { rewrite Z.eqb_eq. unfold len. rewrite <- (length_map fst bound), <- (length_map fst (rg_credentials registry)).
      change (map fst ?m) with (bt_keys m). rewrite (Permutation_length Hperm). split.
      - intros E. apply submseteq_length_Permutation; [done|lia].
      - intros ->. done. }
    split.
    + destruct (len bound =? len (rg_credentials registry)); cbn [is_ok].
      * split; [|done]. intros _. split; [done|]. intros k. by rewrite (proj1 Hlen eq_refl).
      * split; [done|]. intros [_ Hall']. apply Hlen. apply NoDup_Permutation; [done|by apply bt_keys_NoDup|done].
    + intros router. destruct (len bound =? len (rg_credentials registry)) eqn:El; [|done]. intros [= <-].
      apply proj1 in Hlen. specialize (Hlen eq_refl). rename El into Ecount, Hlen into El. split.
      * intros plan subject Hp Hs. pose proof (registry_credentials _ _ _ _ Hreg Hp Hs) as Hget.
        assert (rs_credential subject ∈ map cr_identity routes) as Hmem by (rewrite El; apply elem_bt_keys; [done|by eexists]).
        apply list_elem_of_fmap in Hmem as (route & E & Hroute). exists route. split; [done|]. split; [done|].
        unfold relation_authority. rewrite E in Hget |- *. rewrite (Hall route _ Hroute Hget). unfold authority. by rewrite bool_decide_true.
      * intros credential scope held. unfold relation_authority. destruct (bt_get credential bound) as [[registered h]|] eqn:Eg; [|done].
        case_bool_decide as Ed; [|done]. intros [= <-].
        assert (credential ∈ map cr_identity routes) as Hmem by (rewrite <- Hperm; apply elem_bt_keys; [done|by eexists]).
        destruct (Hin _ Hmem) as [_ [s Hs]]. apply list_elem_of_fmap in Hmem as (route & E & Hroute). rewrite E in *.
        rewrite (Hall route s Hroute Hs) in Eg. injection Eg as E1 E2. subst. split; [done|]. by exists route.
  - split; [|done]. cbn [is_ok]. split; [done|]. intros [Hn Hk]. exfalso.
    assert (forall (l : list (RelationCredentialRoute A)) bound, res_fold (bind_route registry) l bound = Err e -> NoDup (map cr_identity l) ->
      (forall k, k ∈ map cr_identity l -> bt_get k bound = None /\ k ∈ bt_keys (rg_credentials registry)) -> bt_wf bound -> False) as Hno.
    { clear -Hwf. induction l as [|route l IH]; intros bound; cbn [res_fold]; [done|].
      unfold bind_route at 1. intros H Hn Hall Hb. apply NoDup_cons in Hn as [Hr Hn].
      destruct (Hall (cr_identity route)) as [Hnone Hkey]; [cbn; left|]. apply elem_bt_keys in Hkey as [scope Hs]; [|done].
      rewrite Hs, Hnone in H. cbn [is_none] in H. eapply (IH _ H Hn); [|by apply bt_insert_wf].
      intros k Hk'. destruct (Hall k) as [H1 H2]; [cbn; by right|]. split; [|done]. rewrite bt_get_insert by done.
      rewrite decide_False; [done|]. by intros ->. }
    apply (Hno _ _ Eb Hn); [|apply bt_nil_wf]. intros k Hkr. split; [done|]. by apply Hk.
  - split; [|done]. exfalso. revert Eb. generalize (@nil (bytes * ((ProviderIdentity * OpaqueIdT) * A))).
    induction routes as [|route routes IH]; intros b; cbn [res_fold]; [done|]. unfold bind_route at 1.
    destruct (bt_get (cr_identity route) _); [|done]. destruct (is_none _); [|done]. apply IH.
Qed.

(** *** The router of one relation's two subjects *)

Lemma router_exact_witness :
  exists registry router, relation_registry [example_relation] = Ok registry /\
    relation_credential_router registry [mkRelationCredentialRoute (b_ "key") 7] = Ok router /\
    forall subject, subject ∈ both (rr_subjects example_relation) ->
      relation_authority router (rs_credential subject) (rs_scope subject) = Ok 7.
Proof.
  destruct (relation_registry [example_relation]) as [registry| |] eqn:E; [|by vm_compute in E..].
  destruct (router_exact [example_relation] registry [mkRelationCredentialRoute (b_ "key") 7] E) as [_ H].
  destruct (relation_credential_router registry [mkRelationCredentialRoute (b_ "key") 7]) as [router|e|] eqn:Er;
    [|vm_compute in E; injection E as <-; vm_compute in Er; discriminate..].
  exists registry, router. split; [done|]. split; [done|]. intros subject Hs. destruct (H router eq_refl) as [Hall _].
  destruct (Hall example_relation subject ltac:(left) Hs) as (route & Hr & _ & Ha). apply list_elem_of_singleton in Hr as ->. exact Ha.
Defined.
