(* ===== verification/RelOutbox.v ===== *)
(** Delivering statuses: [controller/src/relations/store/status.rs] and
    [relations/store/outbox.rs].

    What is hashed is a value [serde_json] writes: its fields are the record's,
    its text a parameter. The artifact store's two calls are parameters; a
    claim's lock is dropped with the claim and is not modelled. *)
From Stdlib Require Import Strings.Byte Strings.String Lia.
From stdpp Require Import base numbers sets sorting list.
From S2P Require Import Prelude Codec WireModel WireIdentity OrdMap Observation EvalModel Controls CtlModel CtlLedgerApi CtlFrame CtlStore WireEnvelope RelPlan RelJournal RelHistory RelStore RelCommit RelWork RelWire RelAudit RelStatus.
Import StoreError.

(** ** Bindings *)

Definition STATUS_BINDING_DOMAIN : bytes := b_ "amiss/controller-relation-status-binding-v1".
Definition DESTINATION_BINDING_DOMAIN : bytes := b_ "amiss/controller-relation-destination-binding-v1".

Record BoundDestination := mkBoundDestination {
  bd_role : bytes; bd_provider_namespace : bytes; bd_provider_instance : bytes; bd_integration : bytes; bd_repository_host : bytes;
  bd_repository_owner : bytes; bd_repository_name : bytes; bd_credential : bytes; bd_object_format : bytes; bd_candidate_commit : bytes;
  bd_required_status_name : bytes
}.
Record BoundDeliveryDestination := mkBoundDeliveryDestination {
  dd_provider_namespace : bytes; dd_provider_instance : bytes; dd_repository_host : bytes; dd_repository_owner : bytes;
  dd_repository_name : bytes; dd_required_status_name : bytes
}.
Record BoundArtifact := mkBoundArtifact {
  ba_id : bytes; ba_locator : bytes; ba_expires_at_unix_millis : i64; ba_report_digest : bytes
}.
Record BoundAudit := mkBoundAudit {
  bu_report_digest : bytes; bu_plan_digest : bytes; bu_evidence_digest : option bytes; bu_assessment_digest : bytes; bu_verdict : bytes
}.
Record BoundStatus := mkBoundStatus {
  bs_relation : bytes; bs_coordination : bytes; bs_trigger_role : bytes; bs_fence : u64; bs_destinations : list BoundDestination;
  bs_artifact : BoundArtifact; bs_audit : BoundAudit
}.

(** [RetainedRelationAudit]. *)
Record RetainedRelationAudit := mkRetainedRelationAudit {
  ra_artifact : ArtifactReference; ra_report : bytes; ra_plan : bytes; ra_evidence : option bytes; ra_assessment : bytes
}.

Section Status.
Context `{UP : UrlParser} `{HH : Hashes} {HHL : HashLaws HH} `{HX : Hex} `{JT : JsonText}.
Context `{CP : !Canon RelationPlan} `{CE : !Canon RelationEvidence} `{CA : !Canon RelationAssessment}.
Context `{DP : !Document RelationPlan} `{DE : !Document RelationEvidence} `{DA : !Document RelationAssessment}.
Context `{CS : !Canon ProjectionSource.t} `{JP : !Json BoundPlan} `{JS : !Json BoundStatus} `{JD : !Json BoundDeliveryDestination}.
Context (accepted_report : bytes -> res AcceptedReport ArtifactError.t).

Definition bound_destination (target : RelationStatusTarget) : BoundDestination :=
  let scope := tg_scope target in
  mkBoundDestination (tg_role target) (pi_namespace (ps_provider scope)) (pi_instance (ps_provider scope)) (ps_integration scope)
    (RepositoryIdentity.host (ps_repository scope)) (RepositoryIdentity.owner (ps_repository scope)) (RepositoryIdentity.name (ps_repository scope))
    (tg_credential target) (object_format_str (Oid.object_format (tg_candidate_commit target))) (Oid.as_str (tg_candidate_commit target))
    (tg_required_status_name target).

Definition bound_delivery (target : RelationStatusTarget) : BoundDeliveryDestination :=
  let scope := tg_scope target in
  mkBoundDeliveryDestination (pi_namespace (ps_provider scope)) (pi_instance (ps_provider scope))
    (RepositoryIdentity.host (ps_repository scope)) (RepositoryIdentity.owner (ps_repository scope)) (RepositoryIdentity.name (ps_repository scope))
    (tg_required_status_name target).

Definition destination_binding (target : RelationStatusTarget) : res Digest.t StoreError.t :=
  let? data := ok_or (to_vec (bound_delivery target)) Corrupt in
  Ok (domain_digest DESTINATION_BINDING_DOMAIN data).

Definition bound_audit (audit : RelationAuditDigests) : BoundAudit :=
  mkBoundAudit (Digest.as_bytes (ad_report_digest audit)) (Digest.as_bytes (ad_plan_digest audit))
    (Digest.as_bytes <$> ad_evidence_digest audit) (Digest.as_bytes (ad_assessment_digest audit)) (verdict_str (ad_verdict audit)).

Definition record_binding (record : RelationStatusRecord) : res Digest.t StoreError.t :=
  match aa_audit (sr_audit record) with
  | ArtifactAuditDigests.Relation audit =>
      let targets := sr_targets record in
      let artifact := aa_artifact (sr_audit record) in
      let? data :=
        ok_or (to_vec (mkBoundStatus (ts_relation targets) (ts_coordination targets) (ts_trigger_role targets) (ts_fence targets)
          (map bound_destination (ts_destinations targets))
          (mkBoundArtifact (ar_id artifact) (ar_locator artifact) (ar_expires_at_unix_millis artifact)
             (Digest.as_bytes (ar_report_digest artifact)))
          (bound_audit audit))) Corrupt in
      Ok (domain_digest STATUS_BINDING_DOMAIN data)
  | _ => Err Corrupt
  end.

Definition store_status (record : RelationStatusRecord) : res StoredStatus StoreError.t :=
  if sr_completed record then Err Corrupt
  else
    let? destinations := res_map destination_binding (ts_destinations (sr_targets record)) in
    let destinations := stable_sort_by (fun d => d) destinations in
    let? binding := record_binding record in
    let targets := sr_targets record in
    let stored := mkStoredStatus (ts_relation targets) (ts_coordination targets) (ts_trigger_role targets) (ts_fence targets) binding
      destinations (ar_id (aa_artifact (sr_audit record))) in
    let? _ := validate_stored_status stored in
    Ok stored.

(** The subject a plan document froze. *)
Definition frozen_subject (subject : RelationSubject) : RelationSubjectTransition :=
  mkRelationSubjectTransition (su_role subject) (mkOidPair (sn_commit (su_base subject)) (sn_commit (su_candidate subject)))
    (mkOidPair (sn_tree (su_base subject)) (sn_tree (su_candidate subject))).

(** The head a frozen subject had. *)
Definition frozen_head (plan : RegisteredRelation) (frozen : RelationSubjectTransition) : res RelationSubjectHead StoreError.t :=
  let? subject := ok_or (find_role rs_role (rt_role frozen) (both (rr_subjects plan))) Corrupt in
  Ok (mkRelationSubjectHead subject (mkRelationSnapshot (op_candidate (rt_commits frozen)) (op_candidate (rt_trees frozen)))).

(** [FileArtifactStore]'s two calls. *)
Context (reopen_relation_audit : bytes -> res RetainedRelationAudit ArtifactError.t) (verify_artifact : ArtifactReference -> res unit ArtifactError.t).

Definition reopen_status (stored : StoredStatus) (committed_plan_binding : Digest.t) (registry : RelationRegistry) :
    res RelationStatusRecord StoreError.t :=
  let? _ := validate_stored_status stored in
  let? plan := ok_or (bt_get (ss_relation stored) (rg_plans registry)) Configuration in
  let? binding := plan_binding plan in
  if negb (bool_decide (binding = committed_plan_binding)) then Err (Schedule RelationScheduleError.BindingConflict)
  else
    let? retained := map_err Artifact (reopen_relation_audit (ss_artifact_id stored)) in
    let? parsed := map_err (fun _ => Corrupt) (parse (T := RelationPlan) (ra_plan retained)) in
    let payload := ev_payload parsed in
    if negb (bytes_eqb (ri_identity (rp_relation payload)) (ss_relation stored))
       || negb (bytes_eqb (rp_coordination payload) (ss_coordination stored))
       || negb (bytes_eqb (rp_trigger_role payload) (ss_trigger_role stored))
    then Err Corrupt
    else
      let? transition :=
        map_err (fun _ => Corrupt)
          (relation_transition (mkTriggeredRelation plan (rp_trigger_role payload)) (rp_coordination payload)
             (map_both frozen_subject (rp_subjects payload))) in
      let? fence := ok_or (lease_fence_new (ss_fence stored)) Corrupt in
      let pending := mkPendingRelation transition fence in
      let? heads := try_both (frozen_head (tr_plan (rt_relation transition))) (rt_subjects transition) in
      let bundle := mkRelationAuditBundle transition (ra_report retained) (ra_plan retained) (ra_evidence retained) (ra_assessment retained) in
      let? audit := map_err (fun _ => Corrupt) (validate_relation_audit accepted_report bundle) in
      let? staged :=
        map_err (fun _ => Corrupt)
          (stage_relation_status accepted_report pending (Some pending) heads None
             (mkArtifactAuditReference (ra_artifact retained) (ArtifactAuditDigests.Relation audit)) bundle) in
      let? record := ok_or staged Corrupt in
      let? again := store_status record in
      if negb (bool_decide (again = stored)) then Err Corrupt else Ok record.
End Status.

(** ** Pending deliveries *)

Record PendingDelivery := mkPendingDelivery { dv_status : StoredStatus; dv_destination : Digest.t; dv_shard : Z }.

Definition shard_of (destination : Digest.t) : Z := u8 (List.hd x00 (Digest.as_bytes destination)).

(** One destination that is not acknowledged, against the ones held so far. *)
Definition offer (status : StoredStatus) (destinations : bt Digest.t PendingDelivery) (destination : Digest.t) :
    res (bt Digest.t PendingDelivery) StoreError.t :=
  let pending := mkPendingDelivery status destination (shard_of destination) in
  match bt_get destination destinations with
  | Some existing =>
      if negb (bytes_eqb (ss_relation (dv_status existing)) (ss_relation status)) then Err Corrupt
      else if ss_fence (dv_status existing) =? ss_fence status then Err Corrupt
      else if ss_fence (dv_status existing) <? ss_fence status then Ok destinations
      else Ok (bt_insert destination pending destinations)
  | None => Ok (bt_insert destination pending destinations)
  end.

Definition offer_status (state : State) (destinations : bt Digest.t PendingDelivery) (row : Key * StoredStatusState.t) :
    res (bt Digest.t PendingDelivery) StoreError.t :=
  match row.2 with
  | StoredStatusState.Staged _ status acknowledged =>
      if negb (bt_mem (ss_relation status) (st_relations state)) then Err Corrupt
      else res_fold (offer status) (filter (fun d => d ∉ acknowledged) (ss_destinations status)) destinations
  | StoredStatusState.Completed _ => Ok destinations
  end.

Definition delivery_order (delivery : PendingDelivery) : Z * (bytes * (bytes * Digest.t)) :=
  (ss_fence (dv_status delivery), (ss_relation (dv_status delivery), (ss_coordination (dv_status delivery), dv_destination delivery))).

(** [retain(|delivery| shards.insert(delivery.shard))]. *)
Fixpoint retain_shards (shards : list Z) (pending : list PendingDelivery) : list PendingDelivery :=
  match pending with
  | [] => []
  | delivery :: pending =>
      if bool_decide (dv_shard delivery ∈ shards) then retain_shards shards pending
      else delivery :: retain_shards (dv_shard delivery :: shards) pending
  end.

Definition pending_deliveries (state : State) : res (list PendingDelivery) StoreError.t :=
  let? destinations := res_fold (offer_status state) (st_statuses state) [] in
  Ok (retain_shards [] (stable_sort_by delivery_order (map snd destinations))).

(** ** Operations *)

Record RelationStatusDeliveryClaim := mkRelationStatusDeliveryClaim {
  cl_status : RelationStatusRecord; cl_target : RelationStatusTarget; cl_status_binding : Digest.t; cl_destination_binding : Digest.t
}.

Section Outbox.
Context `{UP : UrlParser} `{JD : JournalDisk} `{HH : Hashes} {HHL : HashLaws HH} `{HX : Hex} `{JT : JsonText}.
Context `{CP : !Canon RelationPlan} `{CE : !Canon RelationEvidence} `{CA : !Canon RelationAssessment}.
Context `{DP : !Document RelationPlan} `{DE : !Document RelationEvidence} `{DA : !Document RelationAssessment}.
Context `{JR : !Json RootMetadata} `{JE : !Json JournalEntry} `{CS : !Canon ProjectionSource.t} `{JP : !Json BoundPlan} `{JW : !Json BoundWork}.
Context `{JS : !Json BoundStatus} `{JB : !Json BoundDeliveryDestination}.
Context (accepted_report : bytes -> res AcceptedReport ArtifactError.t).
Context (reopen_relation_audit : bytes -> res RetainedRelationAudit ArtifactError.t) (verify_artifact : ArtifactReference -> res unit ArtifactError.t).
Context (max : u64).
Abbreviation op A := (sres World A StoreError.t).

(** [load_staged_status] once the lock is held. *)
Definition staged_status (state : State) (key : Key) : res (option (StoredStatus * Digest.t)) StoreError.t :=
  match bt_get key (st_statuses state) with
  | Some (StoredStatusState.Staged _ status _) =>
      let? relation := ok_or (bt_get (ss_relation status) (st_relations state)) Corrupt in
      Ok (Some (status, sr_plan_binding relation))
  | Some (StoredStatusState.Completed _) | None => Ok None
  end.
Definition load_staged_status (key : Key) : op (option (StoredStatus * Digest.t)) :=
  let! _ := begin max in
  let! state := get_state in
  slift (staged_status state key).

Definition reopen_staged_status (registry : RelationRegistry) (key : Key) : op (option RelationStatusRecord) :=
  let! stored := load_staged_status key in
  slift (transpose_map (fun row => reopen_status accepted_report reopen_relation_audit row.1 row.2 registry) stored).

(** What [stage_status] finds for the record it is to stage: an answer, or
    that the status is new. *)
Definition staged_before (state : State) (record : RelationStatusRecord) (stored : StoredStatus) :
    res (option (option RelationStatusRecord)) StoreError.t :=
  let binding := ss_status_binding stored in
  match bt_get (ss_relation stored, ss_coordination stored) (st_statuses state) with
  | Some (StoredStatusState.Staged existing status _) =>
      if bool_decide (existing = binding) then
        if negb (bool_decide (status = stored)) then Err Corrupt
        else
          let? _ := map_err Artifact (verify_artifact (aa_artifact (sr_audit record))) in
          Ok (Some (Some record))
      else Err (Status RelationStatusError.BindingConflict)
  | Some (StoredStatusState.Completed existing) =>
      if bool_decide (existing = binding) then Ok (Some None) else Err (Status RelationStatusError.BindingConflict)
  | None => Ok None
  end.

Definition stage_locked (checked : CheckedWork) (pending : PendingRelation) (heads : RelationSubjectHead * RelationSubjectHead)
    (audit : ArtifactAuditReference) (bundle : RelationAuditBundle) : op (option RelationStatusRecord) :=
  let! (journal, metadata) := resume max in
  let! state := get_state in
  let! staged :=
    slift (map_err Status (stage_relation_status accepted_report pending
      (if is_current_work state checked pending then Some pending else None) heads None audit bundle)) in
  let! record := slift (ok_or staged Corrupt) in
  let! stored := slift (store_status record) in
  let! found := slift (staged_before state record stored) in
  match found with
  | Some answer => sret answer
  | None =>
      let! _ := slift (map_err Artifact (verify_artifact (aa_artifact (sr_audit record)))) in
      let! _ :=
        append max journal metadata (JournalAction.Stage (cw_plan_binding checked) (sb_work_binding (cw_binding checked)) stored) in
      sret (Some record)
  end.
Definition stage_status (pending : PendingRelation) (heads : RelationSubjectHead * RelationSubjectHead)
    (audit : ArtifactAuditReference) (bundle : RelationAuditBundle) : op (option RelationStatusRecord) :=
  let! checked := slift (checked_work (pd_transition pending)) in
  let! _ := lock in
  stage_locked checked pending heads audit bundle.

(** The batches whose last acknowledgement is recorded without a completion. *)
Definition completion (row : Key * StoredStatusState.t) : option JournalAction.t :=
  match row.2 with
  | StoredStatusState.Staged binding status acknowledged =>
      if all_destinations_acknowledged status acknowledged then Some (JournalAction.Complete row.1.1 row.1.2 binding) else None
  | StoredStatusState.Completed _ => None
  end.

Fixpoint append_all (journal : DFile) (metadata : RootMetadata) (actions : list JournalAction.t) : op RootMetadata :=
  match actions with
  | [] => sret metadata
  | action :: actions =>
      let! metadata := append max journal metadata action in
      append_all journal metadata actions
  end.

Definition settle_acknowledged (journal : DFile) (metadata : RootMetadata) : op RootMetadata :=
  let! state := get_state in
  append_all journal metadata (omap completion (st_statuses state)).

(** The candidates of a claim, once the lock is held. *)
Definition settled_locked : op (list PendingDelivery) :=
  let! (journal, metadata) := resume max in
  let! _ := settle_acknowledged journal metadata in
  let! state := get_state in
  slift (pending_deliveries state).
Definition settled_deliveries : op (list PendingDelivery) :=
  let! _ := lock in
  settled_locked.

(** The one target of a status that reproduces a destination. *)
Fixpoint claimed_target (targets : list RelationStatusTarget) (destination : Digest.t) (held : option RelationStatusTarget) :
    res (option RelationStatusTarget) StoreError.t :=
  match targets with
  | [] => Ok held
  | target :: targets =>
      let? binding := destination_binding target in
      if bool_decide (binding = destination) then
        if is_some held then Err Corrupt else claimed_target targets destination (Some target)
      else claimed_target targets destination held
  end.

Definition claim_selected (registry : RelationRegistry) (selected : PendingDelivery) : op RelationStatusDeliveryClaim :=
  let status := dv_status selected in
  let! staged := load_staged_status (ss_relation status, ss_coordination status) in
  let! (stored, plan_binding) := slift (ok_or staged Corrupt) in
  if negb (bool_decide (stored = status)) then sfail Corrupt
  else
    let! record := slift (reopen_status accepted_report reopen_relation_audit stored plan_binding registry) in
    let! found := slift (claimed_target (ts_destinations (sr_targets record)) (dv_destination selected) None) in
    let! target := slift (ok_or found Corrupt) in
    sret (mkRelationStatusDeliveryClaim record target (ss_status_binding status) (dv_destination selected)).

Fixpoint claim_loop (registry : RelationRegistry) (candidates : list PendingDelivery) : op (option RelationStatusDeliveryClaim) :=
  match candidates with
  | [] => sret None
  | candidate :: candidates =>
      let! delivery_lock := try_delivery_lock (dv_destination candidate) in
      match delivery_lock with
      | None => claim_loop registry candidates
      | Some _ =>
          let! pending := settled_deliveries in
          match List.find (fun delivery => dv_shard delivery =? dv_shard candidate) pending with
          | None => claim_loop registry candidates
          | Some selected =>
              let! claim := claim_selected registry selected in
              sret (Some claim)
          end
      end
  end.
Definition claim_status_delivery (registry : RelationRegistry) : op (option RelationStatusDeliveryClaim) :=
  let! candidates := settled_deliveries in
  claim_loop registry candidates.

(** What an acknowledgement checks of the state. *)
Definition may_acknowledge (state : State) (stored : StoredStatus) (binding destination : Digest.t) : res unit StoreError.t :=
  match bt_get (ss_relation stored, ss_coordination stored) (st_statuses state) with
  | Some (StoredStatusState.Staged existing status acknowledged) =>
      if bool_decide (existing = binding) then
        if negb (bool_decide (status = stored)) then Err Corrupt
        else if bool_decide (destination ∈ acknowledged) || negb (bool_decide (destination ∈ ss_destinations stored)) then Err Corrupt
        else Ok tt
      else Err (Status RelationStatusError.BindingConflict)
  | Some (StoredStatusState.Completed _) | None => Err (Status RelationStatusError.BindingConflict)
  end.

Definition fully_acknowledged (state : State) (key : Key) : bool :=
  match bt_get key (st_statuses state) with
  | Some (StoredStatusState.Staged _ status acknowledged) => all_destinations_acknowledged status acknowledged
  | _ => false
  end.

Definition acknowledge_locked (status : RelationStatusRecord) (stored : StoredStatus) (binding destination : Digest.t) : op RelationStatusRecord :=
  let key := (ss_relation stored, ss_coordination stored) in
  let! (journal, metadata) := resume max in
  let! state := get_state in
  let! _ := slift (may_acknowledge state stored binding destination) in
  let! metadata := append max journal metadata (JournalAction.Acknowledge key.1 key.2 binding destination) in
  let! state := get_state in
  if fully_acknowledged state key then
    let! _ := append max journal metadata (JournalAction.Complete key.1 key.2 binding) in
    slift (map_err Status (complete_relation_status status status))
  else sret status.
Definition acknowledge_status_destination (claim : RelationStatusDeliveryClaim) : op RelationStatusRecord :=
  let status := cl_status claim in
  let! stored := slift (store_status status) in
  let! target_destination := slift (destination_binding (cl_target claim)) in
  if negb (bool_decide (ss_status_binding stored = cl_status_binding claim))
     || negb (bool_decide (target_destination = cl_destination_binding claim))
     || negb (bool_decide (cl_target claim ∈ ts_destinations (sr_targets status)))
  then sfail (Status RelationStatusError.BindingConflict)
  else
    let! _ := lock in
    acknowledge_locked status stored (cl_status_binding claim) (cl_destination_binding claim).

(** What a completion finds: done before, or to be recorded. *)
Definition may_complete (state : State) (stored : StoredStatus) : res bool StoreError.t :=
  let binding := ss_status_binding stored in
  match bt_get (ss_relation stored, ss_coordination stored) (st_statuses state) with
  | Some (StoredStatusState.Staged existing status acknowledged) =>
      if bool_decide (existing = binding) then
        if negb (bool_decide (status = stored)) then Err Corrupt
        else if negb (all_destinations_acknowledged stored acknowledged) then Err DeliveryPending
        else Ok true
      else Err (Status RelationStatusError.BindingConflict)
  | Some (StoredStatusState.Completed existing) =>
      if bool_decide (existing = binding) then Ok false else Err (Status RelationStatusError.BindingConflict)
  | None => Err (Status RelationStatusError.BindingConflict)
  end.

Definition complete_locked (staged : RelationStatusRecord) (stored : StoredStatus) : op RelationStatusRecord :=
  let! (journal, metadata) := resume max in
  let! state := get_state in
  let! open := slift (may_complete state stored) in
  let! completed := slift (map_err Status (complete_relation_status staged staged)) in
  if open then
    let! _ := append max journal metadata
      (JournalAction.Complete (ss_relation stored) (ss_coordination stored) (ss_status_binding stored)) in
    sret completed
  else sret completed.
Definition complete_status (staged : RelationStatusRecord) : op RelationStatusRecord :=
  let! stored := slift (store_status staged) in
  let! _ := lock in
  complete_locked staged stored.
End Outbox.
