(* ===== verification/RelReopen.v ===== *)
(** A staged status survives a restart: what [store_status] records of it,
    [reopen_status] rebuilds. *)
From Stdlib Require Import Strings.Byte Strings.String Lia.
From stdpp Require Import base numbers sets sorting list.
From S2P Require Import Prelude Codec WireModel WireIdentity OrdMap Observation EvalModel Controls CtlModel CtlLedgerApi CtlFrame CtlStore WireEnvelope RelPlan RelJournal RelHistory RelStore RelCommit RelWork RelWire RelAudit RelStatus RelOutbox.
Import StoreError.

(** Targets do not depend on which current heads were given. *)
Lemma status_targets_fun pending heads heads' targets targets' :
  relation_status_targets pending heads = Ok targets -> relation_status_targets pending heads' = Ok targets' -> targets = targets'.
Proof.
  unfold relation_status_targets. destruct (map_err _ (recheck _)) as [checked|e|]; [|done..].
  destruct (existsb (head_mismatch _) (zip_both (sort_both head_role heads) _)); [done|].
  destruct (existsb head_superseded (zip_both (sort_both head_role heads) _)); [done|].
  destruct (existsb (head_mismatch _) (zip_both (sort_both head_role heads') _)); [done|].
  destruct (existsb head_superseded (zip_both (sort_both head_role heads') _)); [done|].
  intros E E'. rewrite E in E'. by injection E'.
Qed.

(** The frozen heads of a checked transition are current. *)
Lemma frozen_heads_current transition checked :
  recheck transition = Ok checked ->
  exists heads, try_both (frozen_head (tr_plan (rt_relation checked))) (rt_subjects checked) = Ok heads /\ current_heads checked heads.
Proof.
  intros Hr. destruct (recheck_facts _ _ Hr) as (_ & _ & Hf).
  destruct (Hf (rt_subjects checked).1 ltac:(left)) as (s1 & E1 & _). destruct (Hf (rt_subjects checked).2 ltac:(right; left)) as (s2 & E2 & _).
  unfold try_both, frozen_head. rewrite E1, E2. cbn [ok_or]. eexists (_, _). split; [reflexivity|].
  unfold current_heads, both at 1. cbn [fst snd]. eexists _, _. split; [reflexivity|]. unfold current_head. cbn [hd_subject hd_candidate]. by rewrite E1, E2.
Qed.

Section Reopen.
Context `{UP : UrlParser} `{HH : Hashes} {HHL : HashLaws HH} `{HX : Hex} `{JT : JsonText}.
Context `{CP : !Canon RelationPlan} `{CE : !Canon RelationEvidence} `{CA : !Canon RelationAssessment}.
Context `{DP : !Document RelationPlan} `{DE : !Document RelationEvidence} `{DA : !Document RelationAssessment}.
Context `{CS : !Canon ProjectionSource.t} `{JP : !Json BoundPlan} `{JS : !Json BoundStatus} `{JB : !Json BoundDeliveryDestination}.
Context (accepted_report : bytes -> res AcceptedReport ArtifactError.t).

(** The subjects of an audited plan are the transition's own. *)
Lemma planned_frozen registered frozen subject : planned registered frozen = Ok subject -> frozen_subject subject = frozen.
Proof.
  intros (rs & _ & ->)%planned_Ok. destruct frozen as [role [b c] [tb tc]]. done.
Qed.

Lemma audited_plan transition report plan_bytes evidence assessment digests :
  recheck transition = Ok transition ->
  validate_relation_audit accepted_report (mkRelationAuditBundle transition report plan_bytes evidence assessment) = Ok digests ->
  exists plan, parse (T := RelationPlan) plan_bytes = Ok plan /\
    ri_identity (rp_relation (ev_payload plan)) = rr_identity (tr_plan (rt_relation transition)) /\
    rp_coordination (ev_payload plan) = rt_coordination transition /\ rp_trigger_role (ev_payload plan) = tr_trigger_role (rt_relation transition) /\
    map_both frozen_subject (rp_subjects (ev_payload plan)) = rt_subjects transition.
Proof.
  intros Hr (expected & plan & _ & _ & Hc & Hp & Hx & _)%audit_parts. exists plan. split; [done|]. rewrite Hx.
  apply checked_plan_Ok in Hc as (checked & accepted & left_ & right_ & Hr' & _ & El & Er & _ & -> & _).
  cbn [ab_transition] in Hr'. rewrite Hr in Hr'. injection Hr' as <-. split_and!; [done..|]. cbn [rp_subjects]. unfold map_both. cbn [fst snd].
  rewrite (planned_frozen _ _ _ El), (planned_frozen _ _ _ Er). by destruct (rt_subjects transition).
Qed.

Lemma store_status_Ok record stored :
  store_status record = Ok stored ->
  sr_completed record = false /\ ss_relation stored = ts_relation (sr_targets record) /\
  ss_coordination stored = ts_coordination (sr_targets record) /\ ss_trigger_role stored = ts_trigger_role (sr_targets record) /\
  ss_fence stored = ts_fence (sr_targets record) /\ ss_artifact_id stored = ar_id (aa_artifact (sr_audit record)) /\
  validate_stored_status stored = Ok tt.
Proof.
  unfold store_status. destruct (sr_completed record); [done|]. destruct (res_map destination_binding _) as [ds|e|]; [|done..].
  destruct (record_binding record) as [binding|e|]; [|done..]. destruct (validate_stored_status _) as [[]|e|] eqn:Ev; [|done..].
  intros [= <-]. by split_and!.
Qed.
End Reopen.

(** C18: a staged status survives a restart. When a status was staged for a
    checked pending relation, its stored form validates, and the artifact
    store still reopens the bundle under the record's reference, then an
    unchanged registry rebuilds exactly the record from the stored form. *)
Theorem reopen_staged (UP : UrlParser) (HH : Hashes) (HHL : HashLaws HH) (HX : Hex) (JT : JsonText)
    (CP : Canon RelationPlan) (CE : Canon RelationEvidence) (CA : Canon RelationAssessment)
    (DP : Document RelationPlan) (DE : Document RelationEvidence) (DA : Document RelationAssessment)
    (CS : Canon ProjectionSource.t) (JP : Json BoundPlan) (JS : Json BoundStatus) (JB : Json BoundDeliveryDestination)
    (accepted_report : bytes -> res AcceptedReport ArtifactError.t)
    (reopen_relation_audit : bytes -> res RetainedRelationAudit ArtifactError.t)
    pending current heads previous audit bundle record stored registry binding :
  stage_relation_status accepted_report pending current heads previous audit bundle = Ok (Some record) ->
  recheck (pd_transition pending) = Ok (pd_transition pending) ->
  store_status record = Ok stored ->
  bt_get (rr_identity (tr_plan (rt_relation (pd_transition pending)))) (rg_plans registry) = Some (tr_plan (rt_relation (pd_transition pending))) ->
  plan_binding (tr_plan (rt_relation (pd_transition pending))) = Ok binding ->
  reopen_relation_audit (ar_id (aa_artifact audit))
    = Ok (mkRetainedRelationAudit (aa_artifact audit) (ab_report bundle) (ab_plan bundle) (ab_evidence bundle) (ab_assessment bundle)) ->
  reopen_status accepted_report reopen_relation_audit stored binding registry = Ok record.
Proof.
  intros (targets & digests & -> & Ht & Htr & Hv & -> & Ha & Href & Hrep & Hart)%stage_Ok Hr Hs Hplan Hbinding Hopen.
  destruct (store_status_Ok _ _ Hs) as (_ & E1 & E2 & E3 & E4 & E5 & Evalid). cbn [sr_targets sr_audit] in *.
  assert (current_heads (pd_transition pending) heads) as Hheads.
  { apply (rows_current _ _ _ Hr). unfold relation_status_targets in Ht. rewrite Hr in Ht. cbn [map_err] in Ht.
    destruct (existsb (head_mismatch _) _); [done|]. by destruct (existsb head_superseded _). }
  destruct (status_targets_current _ _ _ Hr Hheads) as (targets' & Et & [T1 T2 T3 T4 _ _ _]). rewrite Et in Ht. injection Ht as ->.
  destruct bundle as [transition report plan_bytes evidence assessment]. cbn [ab_transition ab_report ab_plan ab_evidence ab_assessment] in *. subst transition.
  destruct (audited_plan _ _ _ _ _ _ _ Hr Hv) as (plan & Hp & P1 & P2 & P3 & P4).
  destruct (frozen_heads_current _ _ Hr) as (frozen & Hfrozen & Hcurrent).
  destruct (status_targets_current _ _ _ Hr Hcurrent) as (targets' & Et' & _).
  rewrite (status_targets_fun _ _ _ _ _ Et' Et) in Et'.
  unfold reopen_status. rewrite Evalid. cbn beta iota. rewrite E1, T1, Hplan. cbn [ok_or]. rewrite Hbinding, bool_decide_true by done. cbn [negb].
  rewrite E5, Hopen. cbn [map_err ra_plan ra_report ra_evidence ra_assessment ra_artifact]. rewrite Hp. cbn [map_err].
  rewrite P1, P2, P3, P4, E2, T2, E3, T3, !bytes_eqb_same. cbn [negb orb].
  assert (relation_transition (mkTriggeredRelation (tr_plan (rt_relation (pd_transition pending))) (tr_trigger_role (rt_relation (pd_transition pending))))
    (rt_coordination (pd_transition pending)) (rt_subjects (pd_transition pending)) = Ok (pd_transition pending)) as ->.
  { unfold recheck in Hr. by destruct (rt_relation (pd_transition pending)). }
  cbn [map_err]. rewrite E4, T4.
  assert (lease_fence_new (pd_fence pending) = Some (pd_fence pending)) as ->.
  { unfold validate_stored_status in Evalid. rewrite E4, T4 in Evalid. unfold lease_fence_new in *. by destruct (pd_fence pending =? 0). }
  cbn [ok_or]. rewrite Hfrozen. cbn beta iota. rewrite Hv. cbn [map_err].
  assert (mkPendingRelation (pd_transition pending) (pd_fence pending) = pending) as -> by (by destruct pending).
  assert (mkArtifactAuditReference (aa_artifact audit) (ArtifactAuditDigests.Relation digests) = audit) as -> by (rewrite <- Ha; by destruct audit).
  unfold stage_relation_status. rewrite (bool_decide_true (Some pending = Some pending)) by done. cbn [negb]. rewrite Et'.
  cbn [ab_transition]. rewrite (bool_decide_true (pd_transition pending = pd_transition pending)) by done. cbn [negb]. rewrite Hv. cbn [map_err].
  rewrite Ha, Href, Hrep, Hart, !bool_decide_true by done. cbn [negb orb map_err ok_or]. rewrite Hs. by rewrite bool_decide_true.
Qed.

(** ** An example: the staged status of an unproven relation *)

Section Example.
#[local] Existing Instances toy_hash toy_hash_laws rfc_hex single_json.
#[local] Existing Instances ex_audit_plan_canon ex_audit_plan_document ex_audit_evidence_canon ex_audit_evidence_document
  ex_assessment_canon ex_assessment_document ex_urls ex_canon ex_plan_json.
#[local] Instance ex_status_json : Json BoundStatus := {| to_vec s := Some (bs_relation s); from_slice _ := None |}.
#[local] Instance ex_delivery_json : Json BoundDeliveryDestination := {| to_vec d := Some (dd_repository_name d); from_slice _ := None |}.

Definition ex_retained (_ : bytes) : res RetainedRelationAudit ArtifactError.t :=
  Ok (mkRetainedRelationAudit ex_reference (ab_report ex_bundle) (ab_plan ex_bundle) (ab_evidence ex_bundle) (ab_assessment ex_bundle)).
Definition ex_registry : RelationRegistry :=
  mkRelationRegistry [(rr_identity example_relation, tr_plan (rt_relation ex_transition))] [] [].

Definition ex_stages : bool :=
  match ex_audit with
  | Some audit =>
      match stage_relation_status ex_report ex_pending (Some ex_pending) ex_heads None audit ex_bundle with
      | Ok (Some record) => is_ok (store_status record)
      | _ => false
      end
  | None => false
  end.

Lemma reopen_staged_witness : exists record stored binding,
  store_status record = Ok stored /\ reopen_status ex_report ex_retained stored binding ex_registry = Ok record.
Proof.
  assert (ex_stages = true) as Hok by (vm_compute; reflexivity). unfold ex_stages in Hok.
  destruct ex_audit as [audit|] eqn:Ea; [|discriminate].
  destruct (stage_relation_status _ _ _ _ _ _ _) as [[record|]|e|] eqn:E; [|discriminate..].
  destruct (store_status record) as [stored|e|] eqn:Es; [|discriminate..].
  destruct (plan_binding (tr_plan (rt_relation ex_transition))) as [binding|e|] eqn:Eb; [|vm_compute in Eb; discriminate..].
  exists record, stored, binding. split; [exact Es|].
  assert (aa_artifact audit = ex_reference) as Haudit.
  { revert Ea. unfold ex_audit. generalize (res_ok (validate_relation_audit ex_report ex_bundle)). intros [d|] Ea; [|discriminate].
    cbn [mbind option_bind] in Ea. by injection Ea as <-. }
  apply (reopen_staged _ _ _ _ _ _ _ _ _ _ _ _ _ _ _ ex_report ex_retained ex_pending (Some ex_pending) ex_heads None audit ex_bundle record stored
    ex_registry binding E); [vm_compute; reflexivity|exact Es|vm_compute; reflexivity|exact Eb|].
  unfold ex_retained. by rewrite Haudit.
Defined.
End Example.
