(* ===== verification/RelExample.v ===== *)
(** Closed stores that hold a given history: codecs of journal rows and roots,
    and the memory with the files they write. *)
From Stdlib Require Import Strings.Byte Strings.String Lia.
From stdpp Require Import base numbers gmap sets sorting list.
From S2P Require Import Prelude Codec WireModel OrdMap Observation CtlModel CtlLedgerApi CtlFrame CtlStore RelPlan RelJournal RelHistory RelStore RelCommit RelMemory RelWork.

(** ** Codecs *)

(** A digest that may be missing, at the end of a text. *)
Definition tail_bytes (tail : option Digest.t) : bytes := match tail with Some d => Digest.as_bytes d | None => [] end.
Definition tail_of (b : bytes) : option (option Digest.t) :=
  match b with [] => Some None | _ => Some <$> Digest.of_bytes b end.

Lemma tail_of_bytes tail : tail_of (tail_bytes tail) = Some tail.
Proof.
  destruct tail as [d|]; [|done]. cbn [tail_bytes]. unfold tail_of. pose proof (Digest.as_bytes_len d) as Hl.
  destruct (Digest.as_bytes d) as [|b l] eqn:E; [done|]. by rewrite <- E, Digest.of_bytes_as_bytes.
Qed.

(** A row is its action's place in [h] and the tail it names. *)
Section EntryJson.
Context (h : history).
Definition entry_json : Json JournalEntry := {|
  to_vec entry :=
    position ← table_position h (je_action entry);
    if Z.of_nat position <? 65536 then Some (to_be 2 (Z.of_nat position) ++ tail_bytes (je_previous_tail entry)) else None;
  from_slice b :=
    action ← h !! Z.to_nat (from_be_bytes (take 2 b));
    tail ← tail_of (drop 2 b);
    Some (mkJournalEntry tail action)
|}.

Lemma entry_json_laws : JsonLaws JournalEntry (H := entry_json).
Proof.
  split. intros [tail action] b. cbn [to_vec from_slice entry_json je_action je_previous_tail].
  destruct (table_position h action) as [i|] eqn:Ei; cbn [mbind option_bind]; [|done]. destruct (Z.ltb_spec (Z.of_nat i) 65536) as [Hi|]; [|done].
  intros E. assert (to_be 2 (Z.of_nat i) ++ tail_bytes tail = b) as <- by congruence. clear E.
  assert (length (to_be 2 (Z.of_nat i)) = 2%nat) as Hl by (pose proof (to_be_len 2 (Z.of_nat i)); unfold len in *; lia).
  rewrite take_app_length', drop_app_length' by done.
  rewrite from_be_to_be by (change (256 ^ Z.of_nat 2) with 65536; lia). rewrite Nat2Z.id, (table_position_lookup _ _ _ Ei). cbn [mbind option_bind].
  by rewrite tail_of_bytes.
Qed.
End EntryJson.

(** A root is its four counts and its tail. *)
Definition counts (m : RootMetadata) : list Z := [rm_max_bindings m; rm_binding_count m; rm_entry_count m; rm_journal_bytes m].
Definition root_json : Json RootMetadata := {|
  to_vec m :=
    if forallb (fun n => (0 <=? n) && (n <? 256 ^ 8)) (counts m) then Some (concat (map (to_be 8) (counts m)) ++ tail_bytes (rm_tail_digest m)) else None;
  from_slice b :=
    tail ← tail_of (drop 32 b);
    Some (mkRootMetadata (from_be_bytes (take 8 b)) (from_be_bytes (take 8 (drop 8 b))) (from_be_bytes (take 8 (drop 16 b)))
      (from_be_bytes (take 8 (drop 24 b))) tail)
|}.

Lemma field_at (l r : bytes) v n : length l = n -> 0 <= v < 256 ^ 8 -> from_be_bytes (take 8 (drop n (l ++ to_be 8 v ++ r))) = v.
Proof.
  intros <- Hv. rewrite drop_app_length.
  assert (length (to_be 8 v) = 8%nat) as Hl by (pose proof (to_be_len 8 v); unfold len in *; lia).
  rewrite take_app_length' by done. by apply from_be_to_be.
Qed.

Lemma root_json_laws : JsonLaws RootMetadata (H := root_json).
Proof.
  split. intros [a b c d tail] data. cbn [to_vec from_slice root_json counts rm_max_bindings rm_binding_count rm_entry_count rm_journal_bytes rm_tail_digest].
  destruct (forallb _ _) eqn:Ef; [|done]. intros E.
  assert (to_be 8 a ++ to_be 8 b ++ to_be 8 c ++ to_be 8 d ++ tail_bytes tail = data) as <-.
  { change (Some (concat (map (to_be 8) [a; b; c; d]) ++ tail_bytes tail) = Some data) in E.
    assert (concat (map (to_be 8) [a; b; c; d]) ++ tail_bytes tail = data) as <- by congruence. cbn [map concat]. by rewrite app_nil_r, <- !app_assoc. }
  clear E.
  change (forallb (fun n => (0 <=? n) && (n <? 256 ^ 8)) [a; b; c; d] = true) in Ef. cbn [forallb] in Ef. rewrite andb_true_r, !andb_true_iff, !Z.leb_le, !Z.ltb_lt in Ef. destruct Ef as (Ha & Hb & Hc & Hd).
  assert (forall v, length (to_be 8 v) = 8%nat) as Hl by (intros v; pose proof (to_be_len 8 v); unfold len in *; lia).
  assert (drop 32 (to_be 8 a ++ to_be 8 b ++ to_be 8 c ++ to_be 8 d ++ tail_bytes tail) = tail_bytes tail) as ->.
  { rewrite !app_assoc. rewrite <- (drop_app_length (((to_be 8 a ++ to_be 8 b) ++ to_be 8 c) ++ to_be 8 d) (tail_bytes tail)).
    rewrite !length_app, !Hl. done. }
  rewrite tail_of_bytes. cbn [mbind option_bind]. f_equal. f_equal.
  - exact (field_at [] (to_be 8 b ++ to_be 8 c ++ to_be 8 d ++ tail_bytes tail) a 0 eq_refl Ha).
  - exact (field_at (to_be 8 a) (to_be 8 c ++ to_be 8 d ++ tail_bytes tail) b 8 (Hl a) Hb).
  - rewrite (app_assoc (to_be 8 a)). apply (field_at (to_be 8 a ++ to_be 8 b) (to_be 8 d ++ tail_bytes tail) c 16); [by rewrite length_app, !Hl|done].
  - rewrite (app_assoc (to_be 8 a)), (app_assoc (to_be 8 a ++ to_be 8 b)).
    apply (field_at ((to_be 8 a ++ to_be 8 b) ++ to_be 8 c) (tail_bytes tail) d 24); [by rewrite !length_app, !Hl|done].
Qed.

(** ** Stores *)

Section Written.
Context `{HH : Hashes} {HHL : HashLaws HH} `{JR : !Json RootMetadata} {JRL : JsonLaws RootMetadata} `{JE : !Json JournalEntry} {JEL : JsonLaws JournalEntry}.
#[local] Existing Instance memory_disk.
#[local] Existing Instance memory_journal.

(** The chunks a history is written as, and the state it replays to. *)
Definition write_action (max : u64) (store : list bytes * State) (a : JournalAction.t) : res (list bytes * State) StoreError.t :=
  let entry := mkJournalEntry (st_tail_digest store.2) a in
  let? chunk := encode_entry entry in
  let? state := apply_entry store.2 entry (chain_digest chunk) (len chunk) max in
  Ok (store.1 ++ [chunk], state).
Definition write_history (max : u64) (h : history) : res (list bytes * State) StoreError.t := res_fold (write_action max) h ([], state_default).

Lemma write_history_replays max h store : write_history max h = Ok store -> replays max store.1 h store.2.
Proof.
  unfold write_history. change h with ([] ++ h) at 2. assert (replays max (@nil bytes, state_default).1 [] (@nil bytes, state_default).2) as Hr by exact (replays_nil max).
  revert Hr. generalize (@nil bytes, state_default) as store0. generalize (@nil JournalAction.t) as h0.
  induction h as [|a h IH]; intros h0 store0 Hr; cbn [res_fold].
  - intros [= <-]. by rewrite app_nil_r.
  - unfold write_action at 1. destruct (encode_entry _) as [chunk|e|] eqn:Ec; [|done..]. destruct (apply_entry _ _ _ _ _) as [state|e|] eqn:Ea; [|done..].
    replace (h0 ++ a :: h) with ((h0 ++ [a]) ++ h) by (by rewrite <- app_assoc). intros H. refine (IH _ _ _ H). cbn [fst snd].
    exact (replays_snoc max _ _ _ _ (mkJournalEntry (st_tail_digest store0.2) a) _ Hr (encode_chunk _ _ Ec) Ea).
Qed.

Definition root_of (max : u64) (state : State) : RootMetadata :=
  mkRootMetadata max (st_binding_count state) (st_entry_count state) (st_journal_bytes state) (st_tail_digest state).
(** The files of a written history. *)
Definition memory_at (root : bytes) (chunks : list bytes) : Memory :=
  mkMemory (<[METADATA_FILE := Regular root]> (<[JOURNAL_FILE := Regular (concat chunks)]> (<[LOCK_FILE := Regular []]> ∅))) {[LOCK_FILE]} 0.

Lemma memory_at_consistent max h store root :
  write_history max h = Ok store -> encode_metadata (root_of max store.2) = Ok root ->
  consistent max store.1 h (memory_at root store.1, store.2).
Proof.
  intros Hw%write_history_replays He. destruct (encode_root max (root_of max store.2) root He eq_refl) as [Hl Hd].
  eexists _, _, store.2. split; [|split].
  - split; [set_solver|]. split; [apply lookup_insert_eq|]. split; [|done]. cbn. by rewrite lookup_insert_ne, lookup_insert_eq.
  - split; [done|]. split; [|by exists []; rewrite app_nil_r]. exists root, (root_of max store.2). split_and!; [done..|].
    unfold state_matches. cbn. rewrite !Z.eqb_refl. by rewrite bool_decide_true.
  - exists store.1, [], h. by rewrite app_nil_r.
Qed.
End Written.

(** The store of a history: its chunks and its world. *)
Section Closed.
#[local] Existing Instances toy_hash toy_hash_laws memory_disk memory_journal root_json.
Context (h : history).
#[local] Instance closed_entry_json : Json JournalEntry := entry_json h.
Definition closed_store (max : u64) (held : history) : list bytes * State := default ([], state_default) (res_ok (write_history max held)).
Definition closed_world (max : u64) (held : history) : World :=
  (memory_at (default [] (res_ok (encode_metadata (root_of max (closed_store max held).2)))) (closed_store max held).1, (closed_store max held).2).

(** [h] names every action the codec must write, [held] is what was written. *)
Lemma closed_consistent max held :
  is_ok (write_history max held) = true -> is_ok (encode_metadata (root_of max (closed_store max held).2)) = true ->
  consistent (JE := closed_entry_json) max (closed_store max held).1 held (closed_world max held).
Proof.
  unfold closed_world, closed_store. destruct (write_history max held) as [store|e|] eqn:E; [|done..]. intros _. cbn [res_ok default].
  destruct (encode_metadata _) as [root|e|] eqn:Er; [|done..]. intros _. cbn [res_ok default].
  by apply (memory_at_consistent (JRL := root_json_laws) (JEL := entry_json_laws h)).
Qed.
End Closed.
