(* ===== verification/RelDeliver.v ===== *)
(** What staging, acknowledging and completing a status commit:
    [relations/store/outbox.rs] over the journal of [RelCommit]. *)
From Stdlib Require Import Strings.Byte Strings.String Lia.
From stdpp Require Import base numbers sets sorting list.
From S2P Require Import Prelude Codec WireModel WireIdentity OrdMap Observation EvalModel Controls CtlModel CtlLedgerApi CtlFrame CtlStore WireEnvelope RelPlan RelJournal RelHistory RelStore RelCommit RelMemory RelWork RelExample RelWire RelAudit RelStatus RelOutbox RelReopen.
Import StoreError.

Section Deliver.
Context `{UP : UrlParser} `{JD : JournalDisk} {JL : JournalLaws} `{HH : Hashes} {HHL : HashLaws HH} `{HX : Hex} `{JT : JsonText}.
Context `{JR : !Json RootMetadata} {JRL : JsonLaws RootMetadata} `{JE : !Json JournalEntry} {JEL : JsonLaws JournalEntry}.
Context (max : u64) (max_limit : 1 <= max <= RELATION_SCHEDULE_BINDING_LIMIT).
Abbreviation op A := (sres World A StoreError.t).

(** ** Committed actions *)

(** The files hold [actions] after the journal, one chunk each. *)
Definition grown (all : list bytes) (h actions : history) (w : World) : Prop :=
  exists chunks, length chunks = length actions /\ consistent max (all ++ chunks) (h ++ actions) w.
(** The files hold the first of [actions], possibly none or all. *)
Definition some_of (all : list bytes) (h actions : history) (w : World) : Prop :=
  exists done rest, actions = done ++ rest /\ grown all h done w.

Lemma grown_none all h w : consistent max all h w -> grown all h [] w.
Proof. intros G. exists []. by rewrite !app_nil_r. Qed.
Lemma some_none all h actions w : consistent max all h w -> some_of all h actions w.
Proof. intros G. exists [], actions. split; [done|]. by apply grown_none. Qed.
Lemma some_all all h actions w : grown all h actions w -> some_of all h actions w.
Proof. intros G. exists actions, []. by rewrite app_nil_r. Qed.
Lemma grown_more all h chunk a actions w : grown (all ++ [chunk]) (h ++ [a]) actions w -> grown all h (a :: actions) w.
Proof. intros (chunks & Hl & Hc). exists (chunk :: chunks). split; [cbn; by rewrite Hl|]. by rewrite <- !app_assoc in Hc. Qed.
Lemma some_more all h chunk a actions w : some_of (all ++ [chunk]) (h ++ [a]) actions w -> some_of all h (a :: actions) w.
Proof. intros (l & rest & -> & Hg). exists (a :: l), rest. split; [done|]. by eapply grown_more. Qed.

Lemma current_state all h state metadata w : current max all h state metadata w -> w.2 = state /\ replayed max h state.
Proof. intros (data & Hw & _ & _ & _ & Hr). split; [apply Hw|]. by eapply replays_replayed. Qed.

Lemma resumed all h w :
  consistent max all h w ->
  match resume max w with
  | (Ok (f, metadata), w1) => dk_name f = JOURNAL_FILE /\ exists state, w1.2 = state /\ replayed max h state /\ current max all h state metadata w1
  | (Err e, w1) => e <> Full /\ consistent max all h w1
  | (OutOfFuel, _) => False
  end.
Proof.
  intros Hw. pose proof (hoare_resume max max_limit all h w Hw) as Hb. pose proof (never_full_resume max w) as Hn.
  destruct (resume max w) as [[[f metadata]|e|] w1]; [|split; [intros ->; by destruct (Hn w1)|done]|done].
  destruct Hb as (Hf & state & Hcur). split; [done|]. exists state. destruct (current_state _ _ _ _ _ Hcur). done.
Qed.

Lemma appended all h state metadata f a w :
  dk_name f = JOURNAL_FILE -> current max all h state metadata w -> validate_action state a max = Ok tt ->
  match append max f metadata a w with
  | (Ok m, w1) => exists chunk state', w1.2 = state' /\ replayed max (h ++ [a]) state' /\ current max (all ++ [chunk]) (h ++ [a]) state' m w1
  | (Err e, w1) => e <> Full /\ some_of all h [a] w1
  | (OutOfFuel, _) => False
  end.
Proof.
  intros Hf Hcur Hv. pose proof (hoare_append max max_limit all h state metadata f a Hf w Hcur) as Ha.
  destruct (append max f metadata a w) as [[m|e|] w1]; [| |done].
  - destruct Ha as (chunk & state' & _ & _ & Hc). exists chunk, state'. destruct (current_state _ _ _ _ _ Hc). done.
  - destruct Ha as [Hnf [Hc|(chunk & Hc)]]; (split; [by apply Hnf|]); [by apply some_none|]. apply some_all. by exists [chunk].
Qed.

(** ** Acknowledging *)

Abbreviation key_of_stored s := (ss_relation s, ss_coordination s).

Lemma may_acknowledge_spec state stored binding destination :
  may_acknowledge state stored binding destination = Ok tt <->
  exists acks, open_status state (key_of_stored stored) binding stored acks /\ destination ∈ ss_destinations stored /\ destination ∉ acks.
Proof.
  clear max_limit. unfold may_acknowledge, open_status. destruct (bt_get _ _) as [[b s acks|b]|]; [|naive_solver..].
  case_bool_decide as Hb; [|naive_solver]. case_bool_decide as Hs; cbn [negb]; [|naive_solver].
  case_bool_decide as H1; cbn [orb]; [naive_solver|]. case_bool_decide as H2; cbn [negb]; naive_solver.
Qed.

Lemma may_acknowledge_total state stored binding destination :
  match may_acknowledge state stored binding destination with Ok _ => True | Err e => e <> Full | OutOfFuel => False end.
Proof. unfold may_acknowledge. repeat (case_match; simplify_eq; try done). Qed.

(** The last destination: the acknowledgements are then complete. *)
Lemma remaining_last stored acks destination :
  validate_stored_status stored = Ok tt -> NoDup acks -> acks ⊆ ss_destinations stored -> destination ∈ remaining stored acks ->
  all_destinations_acknowledged stored (destination :: acks) = true <-> remaining stored acks = [destination].
Proof.
  intros Hv Hn Hsub Hd. pose proof (remaining_permutation _ _ Hv Hn Hsub) as Hp.
  assert (destination ∉ acks) as Hna by (unfold remaining in Hd; by apply list_elem_of_filter in Hd as [? _]).
  rewrite all_acknowledged by (try done; by constructor). rewrite <- Hp. split.
  - intros E. change (destination :: acks) with ([destination] ++ acks) in E. apply Permutation_app_inv_r in E. by apply Permutation_singleton_l in E.
  - intros ->. done.
Qed.

(** The open status of a stored one after one more acknowledgement. *)
Lemma acknowledged_open h state state' stored acks destination :
  replayed max h state -> open_status state (key_of_stored stored) (ss_status_binding stored) stored acks ->
  replayed max (h ++ [JournalAction.Acknowledge (ss_relation stored) (ss_coordination stored) (ss_status_binding stored) destination]) state' ->
  open_status state' (key_of_stored stored) (ss_status_binding stored) stored (destination :: acks).
Proof.
  intros Hr Ho Hr'. destruct (open_holds _ _ _ _ _ _ _ Hr Ho) as (Es & _ & _ & Ea & Ec & _).
  rewrite <- (reverse_involutive (destination :: acks)). eapply open_of_history; [exact Hr'|..];
    rewrite ?staged_app, ?completed_app, ?acknowledged_app, ?Es, ?Ec, ?Ea, ?reverse_cons, ?map_app; [done..|].
  cbn. by rewrite bool_decide_true.
Qed.

(** What is recorded for an open status, in the history. *)
Definition open_in (h : history) (stored : StoredStatus) (acks : list Digest.t) : Prop :=
  staged (key_of_stored stored) h = [stored] /\ completed (key_of_stored stored) h = [] /\
  acknowledged (key_of_stored stored) h ≡ₚ map (pair (ss_status_binding stored)) acks.

Lemma open_open_in h state stored acks binding :
  replayed max h state -> open_status state (key_of_stored stored) binding stored acks -> open_in h stored acks /\ binding = ss_status_binding stored.
Proof.
  intros Hr Ho. destruct (open_holds _ _ _ _ _ _ _ Hr Ho) as (Es & -> & _ & Ea & Ec & _). split; [|done]. split_and!; [done..|].
  rewrite Ea. apply Permutation_map. by rewrite reverse_Permutation.
Qed.
End Deliver.

Section Acknowledge.
Context `{UP : UrlParser} `{JD : JournalDisk} {JL : JournalLaws} `{HH : Hashes} {HHL : HashLaws HH} `{HX : Hex} `{JT : JsonText}.
Context `{JR : !Json RootMetadata} {JRL : JsonLaws RootMetadata} `{JE : !Json JournalEntry} {JEL : JsonLaws JournalEntry}.

(** C14: with the lock held and the files consistent, an acknowledgement is
    accepted only for a destination of the staged status that was not
    acknowledged before; it commits exactly that entry, and with it the
    completion exactly when no other destination remains, and only then
    returns the record as completed. When it fails the journal holds none, one
    or both of the entries and stays consistent; it never fails for space. *)
Theorem acknowledge_durable max all h status stored destination w :
  1 <= max <= RELATION_SCHEDULE_BINDING_LIMIT -> consistent max all h w ->
  let acknowledge := JournalAction.Acknowledge (ss_relation stored) (ss_coordination stored) (ss_status_binding stored) destination in
  let complete := JournalAction.Complete (ss_relation stored) (ss_coordination stored) (ss_status_binding stored) in
  match acknowledge_locked max status stored (ss_status_binding stored) destination w with
  | (Ok record, w') => exists acks, open_in h stored acks /\ destination ∈ remaining stored acks /\
      (remaining stored acks = [destination] /\ record = mkRelationStatusRecord (sr_targets status) (sr_audit status) true /\
         grown max all h [acknowledge; complete] w' \/
       remaining stored acks <> [destination] /\ record = status /\ grown max all h [acknowledge] w')
  | (Err e, w') => e <> Full /\ some_of max all h [acknowledge; complete] w'
  | (OutOfFuel, _) => False
  end.
Proof.
  intros Hmax Hw acknowledge complete. unfold acknowledge_locked, sbind at 1. pose proof (resumed max Hmax all h w Hw) as Hres.
  destruct (resume max w) as [[[f metadata]|e|] w1]; [|destruct Hres; split; [done|by apply some_none]|done].
  destruct Hres as (Hf & state & Es & Hr & Hcur). unfold sbind at 1, get_state at 1. rewrite Es, slift_bind.
  pose proof (may_acknowledge_total state stored (ss_status_binding stored) destination) as Htot.
  destruct (may_acknowledge _ _ _ _) as [[]|e|] eqn:Em; [|split; [done|]; apply some_none; by eapply current_consistent|done].
  apply may_acknowledge_spec in Em as (acks & Ho & Hd & Hna). cbn [fst snd]. fold acknowledge complete. unfold sbind at 1.
  destruct (open_holds _ _ _ _ _ _ _ Hr Ho) as (_ & _ & Hv & _ & _ & Hn & Hsub).
  assert (destination ∈ remaining stored acks) as Hrem by (unfold remaining; by apply list_elem_of_filter).
  assert (validate_action state acknowledge max = Ok tt) as Hva.
  { cbn [validate_action acknowledge]. apply (progress_spec max h); [done|]. by exists stored, acks. }
  pose proof (appended max Hmax all h state metadata f acknowledge w1 Hf Hcur Hva) as Ha.
  destruct (append max f metadata acknowledge w1) as [[m|e|] w2]; [| |done].
  2: { destruct Ha as [Hnf (l & rest & E & Hg)]. split; [done|]. exists l, (rest ++ [complete]). by rewrite app_assoc, <- E. }
  destruct Ha as (chunk & state' & Es' & Hr' & Hcur'). unfold sbind at 1, get_state at 1. rewrite Es'.
  pose proof (acknowledged_open max h state state' stored acks destination Hr Ho Hr') as Ho'.
  unfold fully_acknowledged. unfold open_status in Ho'. rewrite Ho'.
  fold (open_status state' (ss_relation stored, ss_coordination stored) (ss_status_binding stored) stored (destination :: acks)) in Ho'.
  pose proof (remaining_last stored acks destination Hv Hn Hsub Hrem) as Hlast.
  destruct (open_open_in max h state stored acks _ Hr Ho) as [Hopen _].
  destruct (all_destinations_acknowledged stored (destination :: acks)) eqn:Eall.
  - assert (validate_action state' complete max = Ok tt) as Hvc.
    { cbn [validate_action complete]. apply (progress_spec max (h ++ [acknowledge])); [done|]. exists stored, (destination :: acks).
      split; [done|]. apply (all_acknowledged stored); [done| |done]. by constructor. }
    unfold sbind at 1. pose proof (appended max Hmax (all ++ [chunk]) (h ++ [acknowledge]) state' m f complete w2 Hf Hcur' Hvc) as Hc.
    destruct (append max f m complete w2) as [[m'|e|] w3]; [| |done].
    + destruct Hc as (chunk' & state'' & _ & _ & Hcur''). unfold complete_relation_status. rewrite !bool_decide_true by done.
      cbn. exists acks. split; [done|]. split; [done|]. left. split; [by apply Hlast|]. split; [done|].
      apply (grown_more _ _ _ chunk). exists [chunk']. split; [done|]. by eapply current_consistent.
    + destruct Hc as [Hnf Hs]. split; [done|]. by eapply some_more.
  - cbn. exists acks. split; [done|]. split; [done|]. right. split; [intros E; apply Hlast in E; congruence|]. split; [done|].
    exists [chunk]. split; [done|]. by eapply current_consistent.
Qed.
End Acknowledge.

Section Stage.
Context `{UP : UrlParser} `{JD : JournalDisk} {JL : JournalLaws} `{HH : Hashes} {HHL : HashLaws HH} `{HX : Hex} `{JT : JsonText}.
Context `{CP : !Canon RelationPlan} `{CE : !Canon RelationEvidence} `{CA : !Canon RelationAssessment}.
Context `{DP : !Document RelationPlan} `{DE : !Document RelationEvidence} `{DA : !Document RelationAssessment}.
Context `{JR : !Json RootMetadata} {JRL : JsonLaws RootMetadata} `{JE : !Json JournalEntry} {JEL : JsonLaws JournalEntry}.
Context `{CS : !Canon ProjectionSource.t} `{JP : !Json BoundPlan} `{JW : !Json BoundWork} `{JS : !Json BoundStatus} `{JB : !Json BoundDeliveryDestination}.
Context (accepted_report : bytes -> res AcceptedReport ArtifactError.t) (verify_artifact : ArtifactReference -> res unit ArtifactError.t).

(** ** Staging *)

(** The work is the relation's last scheduled, at this fence. *)
Definition is_last (h : history) (checked : CheckedWork) (pending : PendingRelation) : Prop :=
  last (scheduled (cw_relation checked) h) = Some (cw_plan_binding checked, work_at checked (pd_fence pending)).

Lemma is_current_spec max h state checked pending :
  replayed max h state -> is_current_work state checked pending = true -> is_last h checked pending.
Proof.
  intros Hr. unfold is_current_work, is_last. pose proof (RelHistory.rp_relation _ _ _ Hr (cw_relation checked)) as Hh.
  destruct (bt_get (cw_relation checked) (st_relations state)) as [R|]; cbn [mbind option_bind]; [|done].
  destruct (current_last _ _ Hh) as (l & b & -> & Hc & _). case_bool_decide as Hp; [|done]. rewrite Hc.
  intros E. apply andb_true_iff in E as [E Ef]. apply andb_true_iff in E as [E Et]. apply andb_true_iff in E as [Ec Ew]. apply bytes_eqb_eq in Ec, Et. apply bool_decide_eq_true in Ew.
  apply Z.eqb_eq in Ef. rewrite map_app. cbn [map]. rewrite last_snoc. rewrite Hp. f_equal. f_equal.
  destruct b. unfold work_at. cbn in *. by subst.
Qed.

Lemma checked_trigger transition checked :
  checked_work transition = Ok checked -> sb_trigger_role (cw_binding checked) = tr_trigger_role (rt_relation transition).
Proof.
  unfold checked_work. destruct (recheck transition) as [t|e|] eqn:Er; [|done..]. cbn [map_err].
  destruct (plan_binding _); [|done..]. destruct (to_vec _); [|done]. intros [= <-]. cbn. destruct (recheck_Ok _ _ Er) as (E & _). by rewrite E.
Qed.

(** A staged record of checked work names that work. *)
Lemma staged_names pending current heads audit bundle record stored checked :
  checked_work (pd_transition pending) = Ok checked ->
  stage_relation_status accepted_report pending current heads None audit bundle = Ok (Some record) -> store_status record = Ok stored ->
  ss_relation stored = cw_relation checked /\ ss_coordination stored = sb_coordination (cw_binding checked) /\
  ss_trigger_role stored = sb_trigger_role (cw_binding checked) /\ ss_fence stored = pd_fence pending.
Proof.
  intros Hw (targets & digests & _ & Ht & _ & _ & -> & _)%stage_Ok Hs.
  destruct (checked_work_Ok _ _ Hw) as (_ & E1 & E2 & _). pose proof (checked_trigger _ _ Hw) as E3.
  unfold store_status in Hs. cbn [sr_completed sr_targets sr_audit] in Hs. destruct (res_map destination_binding _) as [ds|e|]; [|done..].
  destruct (record_binding _) as [binding|e|]; [|done..]. destruct (validate_stored_status _) as [[]|e|]; [|done..]. injection Hs as <-.
  cbn [ss_relation ss_coordination ss_trigger_role ss_fence].
  unfold relation_status_targets in Ht. destruct (recheck (pd_transition pending)) as [t|e|] eqn:Er; cbn [map_err] in Ht; [|done..].
  destruct (existsb (head_mismatch _) _); [done|]. destruct (existsb head_superseded _); [done|]. destruct (res_map (status_target t) _); [|done..].
  injection Ht as <-. destruct (recheck_Ok _ _ Er) as (F1 & F2 & _). cbn. by rewrite E1, E2, E3, F1, F2.
Qed.

Lemma store_status_total record : match store_status record with Ok stored => validate_stored_status stored = Ok tt | Err e => e = Corrupt | OutOfFuel => False end.
Proof.
  assert (forall l : list RelationStatusTarget, match res_map destination_binding l with Ok _ => True | Err e => e = Corrupt | OutOfFuel => False end) as Hd.
  { induction l as [|t l IH]; [done|]. cbn [res_map]. unfold destination_binding at 1. destruct (to_vec _); [|done]. cbn [ok_or].
    by destruct (res_map destination_binding l). }
  unfold store_status. destruct (sr_completed record); [done|]. specialize (Hd (ts_destinations (sr_targets record))).
  destruct (res_map destination_binding _) as [ds|e|]; [|done..].
  assert (match record_binding record with Ok _ => True | Err e => e = Corrupt | OutOfFuel => False end) as Hb.
  { unfold record_binding. destruct (aa_audit _); [done| |done]. by destruct (to_vec _). }
  destruct (record_binding record) as [binding|e|]; [|done..].
  assert (forall s, match validate_stored_status s with Ok _ => True | Err e => e = Corrupt | OutOfFuel => False end) as Hv.
  { intros s. unfold validate_stored_status. by destruct (_ || _). }
  set (s := mkStoredStatus _ _ _ _ _ _ _). specialize (Hv s). destruct (validate_stored_status s) as [[]|e|] eqn:E; done.
Qed.

(** C15: with the lock held and the files consistent, a status is staged only
    for the relation's last scheduled work at its own fence. One that was
    staged before under the same binding is answered without a change, one
    that was completed is answered with nothing, and a new one commits exactly
    its entry. When it fails the journal is as before or holds exactly that
    entry; it never fails for space. The calls on the report, the documents
    and the artifacts are taken to return. *)
Theorem stage_durable max all h pending checked heads audit bundle w :
  1 <= max <= RELATION_SCHEDULE_BINDING_LIMIT -> checked_work (pd_transition pending) = Ok checked -> consistent max all h w ->
  (forall current, stage_relation_status accepted_report pending current heads None audit bundle <> OutOfFuel) ->
  (forall reference, verify_artifact reference <> OutOfFuel) ->
  let names record stored :=
    stage_relation_status accepted_report pending (Some pending) heads None audit bundle = Ok (Some record) /\ store_status record = Ok stored /\
    is_last h checked pending in
  let stage stored := JournalAction.Stage (cw_plan_binding checked) (sb_work_binding (cw_binding checked)) stored in
  match stage_locked accepted_report verify_artifact max checked pending heads audit bundle w with
  | (Ok answer, w') => exists record stored, names record stored /\
      match answer with
      | Some record' => record' = record /\
          (staged (ss_relation stored, ss_coordination stored) h = [stored] /\ consistent max all h w' \/
           staged (ss_relation stored, ss_coordination stored) h = [] /\ grown max all h [stage stored] w')
      | None => completed (ss_relation stored, ss_coordination stored) h = [ss_status_binding stored] /\ consistent max all h w'
      end
  | (Err e, w') => e <> Full /\ (consistent max all h w' \/ exists record stored, names record stored /\ grown max all h [stage stored] w')
  | (OutOfFuel, _) => False
  end.
Proof.
  intros Hmax Hwork Hw Hreturns Hverify names stage. unfold stage_locked, sbind at 1. pose proof (resumed max Hmax all h w Hw) as Hres.
  destruct (resume max w) as [[[f metadata]|e|] w1]; [|destruct Hres; by split; [|left]|done].
  destruct Hres as (Hf & state & Es & Hr & Hcur). pose proof (current_consistent max _ _ _ _ _ Hcur) as Hcon.
  unfold sbind at 1, get_state at 1. rewrite Es, slift_bind.
  specialize (Hreturns (if is_current_work state checked pending then Some pending else None)).
  destruct (stage_relation_status _ _ _ _ _ _ _) as [found|e|] eqn:Est; cbn [map_err]; [|by split; [|left]|done].
  rewrite slift_bind. destruct found as [record|]; cbn [ok_or]; [|by split; [|left]].
  assert (is_current_work state checked pending = true) as Hcw.
  { destruct (is_current_work state checked pending); [done|]. by apply stage_Ok in Est as (? & ? & ? & _). }
  rewrite Hcw in Est. pose proof (is_current_spec _ _ _ _ _ Hr Hcw) as Hlast.
  rewrite slift_bind. pose proof (store_status_total record) as Htot.
  destruct (store_status record) as [stored|e|] eqn:Estore; [|subst; by split; [|left]|done].
  assert (names record stored) as Hnames by done. destruct (staged_names _ _ _ _ _ _ _ _ Hwork Est Estore) as (N1 & N2 & N3 & N4).
  pose proof (rp_status _ _ _ Hr (ss_relation stored, ss_coordination stored)) as Hst.
  rewrite slift_bind. unfold staged_before. destruct (bt_get (ss_relation stored, ss_coordination stored) (st_statuses state)) as [[b s acks|b]|] eqn:Eb.
  - case_bool_decide as H1; [|by split; [|left]]. case_bool_decide as H2; cbn [negb]; [|by split; [|left]]. subst s.
    destruct (verify_artifact _) as [[]|e|] eqn:Ev; cbn [map_err]; [|by split; [|left]|by destruct (Hverify _ Ev)].
    exists record, stored. split; [done|]. split; [done|]. left. split; [apply Hst|done].
  - case_bool_decide as H1; [|by split; [|left]]. exists record, stored. split; [done|]. split; [|done].
    destruct Hst as (s & acks & _ & _ & _ & _ & Hc & _). by rewrite Hc, H1.
  - rewrite slift_bind. destruct (verify_artifact _) as [[]|e|] eqn:Ev; cbn [map_err]; [|by split; [|left]|by destruct (Hverify _ Ev)].
    fold (stage stored). assert (validate_action state (stage stored) max = Ok tt) as Hva.
    { apply stage_spec. split; [done|]. split; [done|]. exists (work_at checked (pd_fence pending)). split.
      - apply (current_binding_spec max h); [done|]. rewrite N1. by split.
      - cbn. by rewrite N3, N4. }
    unfold sbind at 1. pose proof (appended max Hmax all h state metadata f (stage stored) w1 Hf Hcur Hva) as Ha.
    destruct (append max f metadata (stage stored) w1) as [[m|e|] w2]; [| |done].
    + destruct Ha as (chunk & state' & _ & _ & Hcur'). exists record, stored. split; [done|]. split; [done|]. right. split; [apply Hst|].
      exists [chunk]. split; [done|]. by eapply current_consistent.
    + destruct Ha as [Hnf (l & rest & E & Hg)]. split; [done|]. destruct l as [|a l].
      * left. destruct Hg as ([|] & Hl & Hg); [|done]. by rewrite !app_nil_r in Hg.
      * right. exists record, stored. split; [done|]. injection E as <- E. symmetry in E. apply app_eq_nil in E as [-> ->]. done.
Qed.
End Stage.

(** ** Examples: acknowledging the last destination, and staging scheduled work *)

Section Example.
#[local] Existing Instances toy_hash toy_hash_laws memory_disk memory_journal root_json rfc_hex single_json.
Definition ex_last_destination : Digest.t := Digest.mk (repeat x01 32) eq_refl.
(** What the example's journal may go on with. *)
Definition ex_known : history :=
  example_history ++ [JournalAction.Acknowledge (b_ "docs") (b_ "c-2") no_digest ex_last_destination; JournalAction.Complete (b_ "docs") (b_ "c-2") no_digest].
#[local] Instance ex_known_json : Json JournalEntry := entry_json ex_known.
Definition ex_record : RelationStatusRecord :=
  mkRelationStatusRecord (mkRelationStatusTargets (b_ "docs") (b_ "c-2") (b_ "source") 2 [])
    (mkArtifactAuditReference ex_reference (ArtifactAuditDigests.Publication (mkPublicationAuditDigests no_digest no_digest None no_digest AssessmentVerdict.Unproven)))
    false.

Lemma acknowledge_durable_witness : exists record w',
  acknowledge_locked 3 ex_record example_status no_digest ex_last_destination (closed_world ex_known 3 example_history) = (Ok record, w') /\
  sr_completed record = true /\
  grown 3 (closed_store ex_known 3 example_history).1 example_history
    [JournalAction.Acknowledge (b_ "docs") (b_ "c-2") no_digest ex_last_destination; JournalAction.Complete (b_ "docs") (b_ "c-2") no_digest] w'.
Proof.
  assert (consistent 3 (closed_store ex_known 3 example_history).1 example_history (closed_world ex_known 3 example_history)) as Hc
    by (apply (closed_consistent ex_known); vm_compute; reflexivity).
  pose proof (acknowledge_durable (JL := memory_laws) (JRL := root_json_laws) (JEL := entry_json_laws ex_known) 3 _ example_history ex_record example_status
    ex_last_destination _ ltac:(done) Hc) as H. cbv zeta in H.
  change (ss_status_binding example_status) with no_digest in H.
  destruct (acknowledge_locked 3 ex_record example_status no_digest ex_last_destination (closed_world ex_known 3 example_history)) as [r w'] eqn:E.
  assert (match r with Ok record => sr_completed record | _ => false end = true) as Hr.
  { apply (f_equal fst) in E. cbn [fst] in E. rewrite <- E. vm_compute. reflexivity. }
  destruct r as [record|e|]; [|discriminate..]. exists record, w'. split; [exact eq_refl|]. split; [exact Hr|].
  destruct H as (acks & _ & _ & [(_ & _ & Hg)|(_ & -> & _)]); [exact Hg|discriminate].
Defined.
End Example.

Section StageExample.
#[local] Existing Instances toy_hash toy_hash_laws memory_disk memory_journal root_json rfc_hex single_json.
#[local] Existing Instances ex_audit_plan_canon ex_audit_plan_document ex_audit_evidence_canon ex_audit_evidence_document
  ex_assessment_canon ex_assessment_document ex_urls ex_canon ex_plan_json ex_work_json ex_status_json ex_delivery_json.

Definition ex_staged_audit : ArtifactAuditReference := default (sr_audit ex_record) ex_audit.
Definition ex_work : CheckedWork := default (mkCheckedWork ex_transition [] no_digest (mkStoredBinding [] no_digest [] 0)) ex_checked.
Definition ex_scheduled : history := [JournalAction.Schedule (cw_relation ex_work) (cw_plan_binding ex_work) (work_at ex_work 1)].
Definition ex_to_stage : option StoredStatus :=
  staged ← res_ok (stage_relation_status ex_report ex_pending (Some ex_pending) ex_heads None ex_staged_audit ex_bundle);
  record ← staged; res_ok (store_status record).
Definition ex_stage_known : history :=
  ex_scheduled ++ [JournalAction.Stage (cw_plan_binding ex_work) (sb_work_binding (cw_binding ex_work)) (default example_status ex_to_stage)].
#[local] Instance ex_stage_json : Json JournalEntry := entry_json ex_stage_known.
Definition ex_scheduled_world : World := closed_world ex_stage_known 3 ex_scheduled.

Lemma stage_durable_witness : exists record stored w',
  stage_locked ex_report (fun _ => Ok tt) 3 ex_work ex_pending ex_heads ex_staged_audit ex_bundle ex_scheduled_world = (Ok (Some record), w') /\
  store_status record = Ok stored /\
  grown 3 (closed_store ex_stage_known 3 ex_scheduled).1 ex_scheduled
    [JournalAction.Stage (cw_plan_binding ex_work) (sb_work_binding (cw_binding ex_work)) stored] w'.
Proof.
  assert (consistent 3 (closed_store ex_stage_known 3 ex_scheduled).1 ex_scheduled ex_scheduled_world) as Hc
    by (apply (closed_consistent ex_stage_known); vm_compute; reflexivity).
  assert (checked_work (pd_transition ex_pending) = Ok ex_work) as Hw.
  { unfold ex_work, ex_checked. change (pd_transition ex_pending) with ex_transition.
    destruct (checked_work ex_transition) as [checked|e|] eqn:E; [done|vm_compute in E; discriminate..]. }
  assert (forall current, stage_relation_status ex_report ex_pending current ex_heads None ex_staged_audit ex_bundle <> OutOfFuel) as Hreturns.
  { intros current. unfold stage_relation_status. case_bool_decide; [|discriminate]. vm_compute. discriminate. }
  pose proof (stage_durable (JL := memory_laws) (JRL := root_json_laws) (JEL := entry_json_laws ex_stage_known) ex_report (fun _ => Ok tt)
    3 _ ex_scheduled ex_pending ex_work ex_heads ex_staged_audit ex_bundle ex_scheduled_world ltac:(done) Hw Hc Hreturns ltac:(done)) as H.
  cbv zeta in H.
  destruct (stage_locked ex_report (fun _ => Ok tt) 3 ex_work ex_pending ex_heads ex_staged_audit ex_bundle ex_scheduled_world) as [r w'] eqn:E.
  assert (match r with Ok (Some _) => true | _ => false end = true) as Hr.
  { apply (f_equal fst) in E. cbn [fst] in E. rewrite <- E. vm_compute. reflexivity. }
  destruct r as [[record|]|e|]; [|discriminate..]. destruct H as (record' & stored & (_ & Hs & _) & -> & [[Hno _]|[_ Hg]]); [discriminate Hno|].
  exists record', stored, w'. exact (conj eq_refl (conj Hs Hg)).
Defined.
End StageExample.
