(* ===== verification/RelPending.v ===== *)
(** What a claim may deliver: the pending deliveries of
    [relations/store/outbox.rs], and settling before them. *)
From Stdlib Require Import Strings.Byte Strings.String Lia.
From stdpp Require Import base numbers sets sorting list.
From S2P Require Import Prelude Codec WireModel WireIdentity OrdMap Observation EvalModel Controls CtlModel CtlLedgerApi CtlFrame CtlStore WireEnvelope RelPlan RelJournal RelHistory RelStore RelCommit RelWork RelWire RelAudit RelStatus RelOutbox RelDeliver.
Import StoreError.

(** ** Open destinations *)

Abbreviation key_of_stored s := (ss_relation s, ss_coordination s).

(** A staged status has a destination left to deliver to. *)
Definition pending_at (state : State) (s : StoredStatus) (d : Digest.t) : Prop :=
  exists binding acks, open_status state (key_of_stored s) binding s acks /\ d ∈ remaining s acks.

Lemma staged_key key h s : s ∈ staged key h -> key_of_stored s = key.
Proof.
  unfold staged. rewrite list_elem_of_omap. intros ([| plan work s'| |] & _ & E); try done. case_bool_decide as Hk; [|done]. by injection E as <-.
Qed.

Lemma row_key max h state key b s acks :
  replayed max h state -> bt_get key (st_statuses state) = Some (StoredStatusState.Staged b s acks) -> key = key_of_stored s.
Proof.
  intros Hr Ho. destruct (open_holds max h state key b s acks Hr Ho) as (Es & _). symmetry. apply (staged_key key h). rewrite Es. by left.
Qed.

(** The destinations of a row that are open, in order. *)
Definition row_pairs (row : Key * StoredStatusState.t) : list (StoredStatus * Digest.t) :=
  match row.2 with
  | StoredStatusState.Staged _ s acks => map (pair s) (filter (fun d => d ∉ acks) (ss_destinations s))
  | StoredStatusState.Completed _ => []
  end.
Definition open_pairs (state : State) : list (StoredStatus * Digest.t) := flat_map row_pairs (st_statuses state).

Lemma open_pairs_spec max h state s d : replayed max h state -> (s, d) ∈ open_pairs state <-> pending_at state s d.
Proof.
  intros Hr. unfold open_pairs, pending_at, open_status. rewrite list_elem_of_In, in_flat_map. setoid_rewrite <- list_elem_of_In. split.
  - intros ([key [b s' acks|b]] & Hin & Hp); cbn [row_pairs snd] in Hp; [|by apply elem_of_nil in Hp].
    apply list_elem_of_fmap in Hp as (d' & [= -> ->] & Hd). apply bt_get_Some in Hin; [|apply Hr].
    rewrite (row_key max h state key b s' acks Hr Hin) in Hin. by exists b, acks.
  - intros (b & acks & Ho & Hd). exists (key_of_stored s, StoredStatusState.Staged b s acks). split; [apply bt_get_Some; [apply Hr|done]|].
    cbn [row_pairs snd]. apply list_elem_of_fmap. by exists d.
Qed.

Lemma open_pairs_nodup max h state : replayed max h state -> NoDup (open_pairs state).
Proof.
  intros Hr. assert (forall row, row ∈ st_statuses state -> NoDup (row_pairs row) /\ forall p, p ∈ row_pairs row -> key_of_stored p.1 = row.1) as Hrow.
  { intros [key v] Hin. apply bt_get_Some in Hin; [|apply Hr]. destruct v as [b s acks|b]; cbn [row_pairs snd fst].
    - rewrite (row_key max h state key b s acks Hr Hin). destruct (open_holds max h state key b s acks Hr Hin) as (_ & _ & [_ Hs]%valid_status_destinations & _). split.
      + apply NoDup_fmap_2; [by intros ? ? [= ->]|]. by apply NoDup_filter, strict_NoDup.
      + by intros p (d & -> & _)%list_elem_of_fmap.
    - split; [constructor|]. by intros p ?%elem_of_nil. }
  pose proof (bt_keys_NoDup _ (rp_statuses _ _ _ Hr)) as Hk. unfold open_pairs, bt_keys in *. clear Hr.
  induction (st_statuses state) as [|row rows IH]; [constructor|]. cbn [flat_map]. apply NoDup_cons in Hk as [Hx Hk]. apply NoDup_app.
  destruct (Hrow row ltac:(left)) as [Hn Hkey]. split; [done|]. split; [|apply IH; [intros r Hin; apply Hrow; by right|done]].
  intros p Hp Hp'. apply list_elem_of_In, in_flat_map in Hp' as (row' & Hin & Hp'). apply list_elem_of_In in Hin, Hp'.
  destruct (Hrow row' ltac:(by right)) as [_ Hkey']. apply Hx. rewrite <- (Hkey p Hp), (Hkey' p Hp'). apply list_elem_of_fmap. by exists row'.
Qed.

(** ** The oldest status of each destination *)

Definition offer_pair (m : bt Digest.t PendingDelivery) (p : StoredStatus * Digest.t) : res (bt Digest.t PendingDelivery) StoreError.t := offer p.1 m p.2.

(** Two different statuses that claim one destination. *)
Definition conflict (pairs : list (StoredStatus * Digest.t)) : Prop :=
  exists s s' d, (s, d) ∈ pairs /\ (s', d) ∈ pairs /\ s <> s' /\ (ss_relation s <> ss_relation s' \/ ss_fence s = ss_fence s').

Record oldest (pairs : list (StoredStatus * Digest.t)) (m : bt Digest.t PendingDelivery) : Prop := {
  ol_wf : bt_wf m;
  ol_held d p : bt_get d m = Some p ->
    dv_destination p = d /\ dv_shard p = shard_of d /\ (dv_status p, d) ∈ pairs /\
    forall s, (s, d) ∈ pairs -> ss_relation s = ss_relation (dv_status p) /\ (s = dv_status p \/ ss_fence (dv_status p) < ss_fence s);
  ol_all s d : (s, d) ∈ pairs -> is_Some (bt_get d m)
}.

Lemma oldest_nil : oldest [] [].
Proof. constructor; [apply bt_nil_wf|done|]. by intros s d ?%elem_of_nil. Qed.

Lemma oldest_insert pairs m s d :
  oldest pairs m -> (s, d) ∉ pairs ->
  (forall s', (s', d) ∈ pairs -> ss_relation s' = ss_relation s /\ ss_fence s < ss_fence s') ->
  oldest (pairs ++ [(s, d)]) (bt_insert d (mkPendingDelivery s d (shard_of d)) m).
Proof.
  intros [Hwf Hheld Hall] Hnew Hmin. constructor; [by apply bt_insert_wf| |].
  - intros d' p Hp. rewrite bt_get_insert in Hp by done. case_decide as E.
    + subst d'. injection Hp as <-. cbn [dv_destination dv_shard dv_status]. split_and!; [done..|apply elem_of_app; right; left|].
      intros s'. rewrite elem_of_app, list_elem_of_singleton. intros [Hs'|[= ->]]; [|by split; [|left]].
      destruct (Hmin s' Hs'). split; [done|by right].
    + destruct (Hheld d' p Hp) as (H1 & H2 & H3 & H4). split_and!; [done..|apply elem_of_app; by left|].
      intros s'. rewrite elem_of_app, list_elem_of_singleton. intros [Hs'|[= -> ->]]; [by apply H4|done].
  - intros s' d'. rewrite elem_of_app, list_elem_of_singleton. rewrite bt_get_insert by done. case_decide; [by eexists|].
    intros [Hs'|[= -> ->]]; [by eapply Hall|done].
Qed.

Lemma oldest_skip pairs m s d p :
  oldest pairs m -> bt_get d m = Some p -> ss_relation s = ss_relation (dv_status p) -> ss_fence (dv_status p) < ss_fence s ->
  oldest (pairs ++ [(s, d)]) m.
Proof.
  intros [Hwf Hheld Hall] Hp Hrel Hlt. constructor; [done| |].
  - intros d' p' Hp'. destruct (Hheld d' p' Hp') as (H1 & H2 & H3 & H4). split_and!; [done..|apply elem_of_app; by left|].
    intros s'. rewrite elem_of_app, list_elem_of_singleton. intros [Hs'|[= -> ->]]; [by apply H4|].
    rewrite Hp in Hp'. injection Hp' as <-. by split; [|right].
  - intros s' d'. rewrite elem_of_app, list_elem_of_singleton. intros [Hs'|[= -> ->]]; [by eapply Hall|by exists p].
Qed.

Lemma offer_all todo pairs m :
  oldest pairs m -> NoDup (pairs ++ todo) ->
  match res_fold offer_pair todo m with
  | Ok m' => oldest (pairs ++ todo) m'
  | Err e => e = Corrupt /\ conflict (pairs ++ todo)
  | OutOfFuel => False
  end.
Proof.
  revert pairs m. induction todo as [|[s d] todo IH]; intros pairs m Ho Hn; cbn [res_fold]; [by rewrite app_nil_r|].
  assert ((s, d) ∉ pairs) as Hnew.
  { apply NoDup_app in Hn as (_ & Hx & _). intros Hin. apply (Hx _ Hin). left. }
  rewrite cons_middle, app_assoc in *. unfold offer_pair at 1, offer. cbn [fst snd].
  destruct (bt_get d m) as [p|] eqn:Ep.
  - destruct (ol_held _ _ Ho d p Ep) as (_ & _ & Hin & Hmin).
    assert (forall x, (dv_status p, d) ∈ (pairs ++ [(s, d)]) ++ x /\ (s, d) ∈ (pairs ++ [(s, d)]) ++ x) as Hboth.
    { intros x. rewrite !elem_of_app. split; [left; by left|]. left; right. left. }
    assert (dv_status p <> s) as Hne by (intros <-; done).
    destruct (bytes_eqb (ss_relation (dv_status p)) (ss_relation s)) eqn:Er; cbn [negb];
      [apply bytes_eqb_eq in Er|apply bytes_eqb_neq in Er; split; [done|]; exists (dv_status p), s, d; by destruct (Hboth todo); split_and!; [..|left]].
    destruct (Z.eqb_spec (ss_fence (dv_status p)) (ss_fence s)) as [Ef|Ef];
      [split; [done|]; exists (dv_status p), s, d; by destruct (Hboth todo); split_and!; [..|right]|].
    destruct (Z.ltb_spec (ss_fence (dv_status p)) (ss_fence s)) as [Hlt|Hge].
    + apply IH; [|done]. by apply (oldest_skip _ _ s d p).
    + apply IH; [|done]. apply oldest_insert; [done..|]. intros s' Hs'. destruct (Hmin s' Hs') as [H1 [->|H2]]; (split; [congruence|lia]).
  - apply IH; [|done]. apply oldest_insert; [done..|]. intros s' Hs'. destruct (ol_all _ _ Ho s' d Hs') as [p Hp]. congruence.
Qed.

Lemma offer_rows state rows m :
  (forall key b s acks, (key, StoredStatusState.Staged b s acks) ∈ rows -> bt_mem (ss_relation s) (st_relations state) = true) ->
  res_fold (offer_status state) rows m = res_fold offer_pair (flat_map row_pairs rows) m.
Proof.
  assert (forall l l' m, res_fold offer_pair (l ++ l') m = (let? m := res_fold offer_pair l m in res_fold offer_pair l' m)) as Happ.
  { induction l as [|x l IH]; intros l' m0; [done|]. cbn [app res_fold]. destruct (offer_pair m0 x); [apply IH|done..]. }
  revert m. induction rows as [|[key v] rows IH]; intros m Hrel; cbn [res_fold flat_map]; [done|]. rewrite Happ.
  assert (offer_status state m (key, v) = res_fold offer_pair (row_pairs (key, v)) m) as ->.
  { unfold offer_status, row_pairs. cbn [snd]. destruct v as [b s acks|b]; [|done]. rewrite (Hrel key b s acks) by left. cbn [negb].
    generalize (filter (fun d => d ∉ acks) (ss_destinations s)). intros l. revert m. induction l as [|d l IHl]; intros m; [done|].
    cbn [map res_fold]. unfold offer_pair at 1. cbn [fst snd]. by destruct (offer s m d). }
  destruct (res_fold offer_pair (row_pairs (key, v)) m); [|done..]. apply IH. intros k b s acks Hin. eapply Hrel. by right.
Qed.

Lemma staged_relation max h state key b s acks :
  replayed max h state -> bt_get key (st_statuses state) = Some (StoredStatusState.Staged b s acks) -> bt_mem (ss_relation s) (st_relations state) = true.
Proof.
  intros Hr Ho. pose proof (row_key _ _ _ _ _ _ _ Hr Ho) as ->.
  assert (key_of_stored s ∈ scheduled_keys h) as Hin.
  { apply (rp_owned _ _ _ Hr), elem_bt_keys; [apply Hr|]. by eexists. }
  apply elem_scheduled_keys in Hin as (p & x & Hin & _). unfold bt_mem. pose proof (RelHistory.rp_relation _ _ _ Hr (ss_relation s)) as Hh.
  destruct (bt_get (ss_relation s) (st_relations state)) as [R|] ; [done|]. cbn in Hh. rewrite Hh in Hin. by apply elem_of_nil in Hin.
Qed.

(** ** One delivery per lock *)

Lemma retain_spec (R : relation PendingDelivery) shards l :
  StronglySorted R l ->
  StronglySorted R (retain_shards shards l) /\ NoDup (map dv_shard (retain_shards shards l)) /\
  (forall p, p ∈ retain_shards shards l -> p ∈ l /\ dv_shard p ∉ shards) /\
  forall p, p ∈ l -> dv_shard p ∈ shards \/ exists q, q ∈ retain_shards shards l /\ dv_shard q = dv_shard p /\ (q = p \/ R q p).
Proof.
  intros Hs. revert shards. induction Hs as [|x l Hs IH Hf]; intros shards; cbn [retain_shards].
  { split; [constructor|]. split; [constructor|]. split; by intros p ?%elem_of_nil. }
  case_bool_decide as Hx.
  - destruct (IH shards) as (H1 & H2 & H3 & H4). split_and!; [done|done| |].
    + intros p Hp. destruct (H3 p Hp). split; [by right|done].
    + intros p [->|Hp]%elem_of_cons; [by left|by apply H4].
  - destruct (IH (dv_shard x :: shards)) as (H1 & H2 & H3 & H4). split_and!.
    + constructor; [done|]. rewrite Forall_forall in Hf |- *. intros y Hy. apply Hf. by apply H3.
    + cbn. constructor; [|done]. intros (y & E & Hy)%list_elem_of_fmap. destruct (H3 y Hy) as [_ Hn]. apply Hn. rewrite <- E. by left.
    + intros p [->|Hp]%elem_of_cons; [split; [by left|done]|]. destruct (H3 p Hp) as [? Hn]. split; [by right|]. intros Hin. apply Hn. by right.
    + intros p [->|Hp]%elem_of_cons; [right; exists x; split; [by left|]; split; [done|by left]|].
      destruct (H4 p Hp) as [Hin|(q & Hq & E & Hle)].
      * apply elem_of_cons in Hin as [E|Hin]; [|by left]. right. exists x. split; [by left|]. split; [done|]. right.
        rewrite Forall_forall in Hf. by apply Hf.
      * right. exists q. split; [by right|done].
Qed.

Lemma delivery_order_destination p q : delivery_order p = delivery_order q -> dv_destination p = dv_destination q.
Proof. unfold delivery_order. by intros [= _ _ _ E]. Qed.

Lemma sorted_deliveries pairs m :
  oldest pairs m -> StronglySorted (fun p q => klt (delivery_order p) (delivery_order q)) (stable_sort_by delivery_order (map snd m)).
Proof.
  intros Ho. pose proof (stable_sort_by_sorted delivery_order (map snd m)) as Hs.
  assert (NoDup (map dv_destination (stable_sort_by delivery_order (map snd m)))) as Hn.
  { rewrite (stable_sort_by_perm delivery_order (map snd m)). pose proof (bt_keys_NoDup _ (ol_wf _ _ Ho)) as Hk.
    assert (map dv_destination (map snd m) = bt_keys m) as ->; [|done]. unfold bt_keys. rewrite map_map. apply map_ext_in.
    intros [d p] Hin%list_elem_of_In. apply bt_get_Some in Hin; [|apply Ho]. by destruct (ol_held _ _ Ho d p Hin) as [E _]. }
  induction Hs as [|x l Hs IH Hf]; [constructor|]. apply NoDup_cons in Hn as [Hx Hn]. constructor; [by apply IH|].
  rewrite Forall_forall in Hf |- *. intros y Hy. specialize (Hf y Hy). apply kle_lt in Hf as [|E]; [done|].
  exfalso. apply Hx. rewrite (delivery_order_destination _ _ E). apply list_elem_of_fmap. by exists y.
Qed.

(** What a claim may take, in order. *)
Record deliveries (state : State) (l : list PendingDelivery) : Prop := {
  dl_order : StronglySorted (fun p q => klt (delivery_order p) (delivery_order q)) l;
  dl_shards : NoDup (map dv_shard l);
  dl_oldest p : p ∈ l ->
    pending_at state (dv_status p) (dv_destination p) /\ dv_shard p = shard_of (dv_destination p) /\
    forall s, pending_at state s (dv_destination p) ->
      ss_relation s = ss_relation (dv_status p) /\ (s = dv_status p \/ ss_fence (dv_status p) < ss_fence s);
  dl_all s d : pending_at state s d ->
    exists p, p ∈ l /\ dv_shard p = shard_of d /\ ss_fence (dv_status p) <= ss_fence s
}.

Lemma delivery_order_fence p q : klt (delivery_order p) (delivery_order q) -> ss_fence (dv_status p) <= ss_fence (dv_status q).
Proof.
  unfold klt, delivery_order, cmp, pair_ord. cbn [fst snd]. change (cmp (ss_fence (dv_status p)) (ss_fence (dv_status q)))
    with (Z.compare (ss_fence (dv_status p)) (ss_fence (dv_status q))). destruct (Z.compare_spec (ss_fence (dv_status p)) (ss_fence (dv_status q))); [lia|lia|done].
Qed.

Lemma pending_spec max h state :
  replayed max h state ->
  match pending_deliveries state with
  | Ok l => deliveries state l
  | Err e => e = Corrupt /\ exists s s' d, pending_at state s d /\ pending_at state s' d /\ s <> s' /\
      (ss_relation s <> ss_relation s' \/ ss_fence s = ss_fence s')
  | OutOfFuel => False
  end.
Proof.
  intros Hr. unfold pending_deliveries. rewrite offer_rows.
  2: { intros key b s acks Hin. apply bt_get_Some in Hin; [|apply Hr]. by eapply staged_relation. }
  fold (open_pairs state). pose proof (offer_all (open_pairs state) [] [] oldest_nil (open_pairs_nodup max h state Hr)) as Ho. cbn [app] in Ho.
  destruct (res_fold offer_pair (open_pairs state) []) as [m|e|]; [| |done].
  - pose proof (sorted_deliveries _ _ Ho) as Hs. destruct (retain_spec _ [] _ Hs) as (H1 & H2 & H3 & H4).
    assert (forall p, p ∈ map snd m <-> bt_get (dv_destination p) m = Some p) as Hm.
    { intros p. rewrite list_elem_of_fmap. split.
      - intros ([d q] & -> & Hin). apply bt_get_Some in Hin; [|apply Ho]. cbn [snd]. by destruct (ol_held _ _ Ho d q Hin) as [-> _].
      - intros Hp. exists (dv_destination p, p). split; [done|]. apply bt_get_Some; [apply Ho|done]. }
    constructor; [done|done| |].
    + intros p [Hp _]%H3. rewrite (stable_sort_by_perm delivery_order (map snd m)) in Hp. apply Hm in Hp.
      destruct (ol_held _ _ Ho _ _ Hp) as (_ & E & Hin & Hmin). split; [by apply (open_pairs_spec max h)|]. split; [done|].
      intros s Hsd. apply Hmin. by apply (open_pairs_spec max h).
    + intros s d Hsd. apply (open_pairs_spec max h state s d Hr) in Hsd as Hin. destruct (ol_all _ _ Ho s d Hin) as [p Hp].
      destruct (ol_held _ _ Ho d p Hp) as (Ed & Esh & _ & Hmin). destruct (Hmin s Hin) as [_ Hle].
      assert (p ∈ stable_sort_by delivery_order (map snd m)) as Hpl.
      { rewrite (stable_sort_by_perm delivery_order (map snd m)). apply Hm. by rewrite Ed. }
      destruct (H4 p Hpl) as [Hno|(q & Hq & Eq & Hqp)]; [by apply elem_of_nil in Hno|]. exists q. split; [done|]. split; [congruence|].
      assert (ss_fence (dv_status p) <= ss_fence s) by (destruct Hle as [->|]; lia).
      destruct Hqp as [->|Hqp%delivery_order_fence]; lia.
  - destruct Ho as [-> (s & s' & d & Hs & Hs' & Hne & Hor)]. split; [done|]. exists s, s', d.
    split; [by apply (open_pairs_spec max h)|]. split; [by apply (open_pairs_spec max h)|]. done.
Qed.

(** C17: from a committed journal the pending deliveries are, for each lock
    shard, one open destination with the lowest fence: none of its relation's
    statuses left to deliver to that destination is older. They come oldest
    first and no open destination is left without one on its shard that is at
    least as old. They are refused only when two statuses claim one
    destination in different relations or at one fence. *)
Theorem pending_oldest max h state :
  replayed max h state ->
  match pending_deliveries state with
  | Ok l => deliveries state l
  | Err e => e = Corrupt /\ exists s s' d, pending_at state s d /\ pending_at state s' d /\ s <> s' /\
      (ss_relation s <> ss_relation s' \/ ss_fence s = ss_fence s')
  | OutOfFuel => False
  end.
Proof. apply pending_spec. Qed.

Lemma pending_oldest_witness : exists p,
  pending_deliveries example_state = Ok [p] /\ dv_status p = example_status /\ pending_at example_state example_status (dv_destination p).
Proof.
  assert (replayed 3 example_history example_state) as Hr by (apply journal_replayed; [done|exact example_journal]).
  pose proof (pending_oldest 3 example_history example_state Hr) as H.
  destruct (pending_deliveries example_state) as [l|e|] eqn:E; [|vm_compute in E; discriminate..].
  assert (exists p, l = [p] /\ dv_status p = example_status) as (p & -> & Hp) by (vm_compute in E; injection E as <-; by eexists).
  exists p. split; [exact eq_refl|]. split; [exact Hp|]. destruct (dl_oldest _ _ H p ltac:(left)) as [Hat _]. by rewrite Hp in Hat.
Defined.
