(* ===== verification/RelSettle.v ===== *)
(** Settling before a claim: the completions that an interrupted
    acknowledgement left to record, [relations/store/outbox.rs]. *)
From Stdlib Require Import Strings.Byte Strings.String Lia.
From stdpp Require Import base numbers sets sorting list.
From S2P Require Import Prelude Codec WireModel WireIdentity OrdMap Observation EvalModel Controls CtlModel CtlLedgerApi CtlFrame CtlStore WireEnvelope RelPlan RelJournal RelHistory RelStore RelCommit RelMemory RelWork RelExample RelWire RelAudit RelStatus RelOutbox RelDeliver RelPending.
Import StoreError.

(** ** Batches to complete *)

Definition complete_of (s : StoredStatus) : JournalAction.t := JournalAction.Complete (ss_relation s) (ss_coordination s) (ss_status_binding s).

(** The staged statuses with every destination acknowledged, in key order. *)
Definition finished_row (row : Key * StoredStatusState.t) : option StoredStatus :=
  match row.2 with
  | StoredStatusState.Staged _ s acks => if all_destinations_acknowledged s acks then Some s else None
  | StoredStatusState.Completed _ => None
  end.
Definition finished (state : State) : list StoredStatus := omap finished_row (st_statuses state).

(** Every destination of the open status is acknowledged. *)
Definition all_in (h : history) (s : StoredStatus) : Prop := exists acks, open_in h s acks /\ acks ≡ₚ ss_destinations s.
Definition ready (state : State) (s : StoredStatus) : Prop :=
  exists acks, open_status state (key_of_stored s) (ss_status_binding s) s acks /\ acks ≡ₚ ss_destinations s.

Lemma omap_cons_eq {A B} (f : A -> option B) x l : omap f (x :: l) = match f x with Some y => y :: omap f l | None => omap f l end.
Proof. done. Qed.

Section Rows.
Context (max : u64) (h : history) (state : State).
Hypothesis history_state : replayed max h state.

Lemma finished_elem s :
  s ∈ finished state <-> exists acks, open_status state (key_of_stored s) (ss_status_binding s) s acks /\ all_destinations_acknowledged s acks = true.
Proof.
  unfold finished, open_status. rewrite list_elem_of_omap. split.
  - intros ([key v] & Hin & Hrow). apply bt_get_Some in Hin; [|apply history_state]. destruct v as [b s' acks|b]; cbn [finished_row snd] in Hrow; [|done].
    destruct (all_destinations_acknowledged s' acks) eqn:Ea; [|done]. injection Hrow as <-.
    destruct (open_holds max h state key b s' acks history_state Hin) as (_ & -> & _). rewrite (row_key max h state _ _ _ _ history_state Hin) in Hin. by exists acks.
  - intros (acks & Ho & Ha). exists (key_of_stored s, StoredStatusState.Staged (ss_status_binding s) s acks).
    split; [apply bt_get_Some; [apply history_state|done]|]. cbn [finished_row snd]. by rewrite Ha.
Qed.

Lemma finished_ready s : s ∈ finished state -> ready state s.
Proof.
  intros (acks & Ho & Ha)%finished_elem. exists acks. split; [done|].
  destruct (open_holds max h state _ _ _ _ history_state Ho) as (_ & _ & Hv & _ & _ & Hn & _). by apply all_acknowledged in Ha.
Qed.

Lemma ready_all_in s : ready state s -> all_in h s.
Proof. intros (acks & Ho & Hp). exists acks. split; [|done]. by destruct (open_open_in max h state s acks _ history_state Ho). Qed.

(** The completions of the state are those of the finished statuses. *)
Lemma completions_finished : omap completion (st_statuses state) = map complete_of (finished state) /\ NoDup (map (fun s => key_of_stored s) (finished state)).
Proof.
  assert (forall row, row ∈ st_statuses state -> completion row = complete_of <$> finished_row row /\ forall s, finished_row row = Some s -> key_of_stored s = row.1) as Hrow.
  { intros [key v] Hin. apply bt_get_Some in Hin; [|apply history_state]. destruct v as [b s acks|b]; [|by split]. unfold completion, finished_row. cbn [snd fst].
    pose proof (row_key max h state _ _ _ _ history_state Hin) as ->. destruct (open_holds max h state _ b s acks history_state Hin) as (_ & -> & _).
    destruct (all_destinations_acknowledged s acks); split; [done| |done|done]. by intros x [= <-]. }
  pose proof (bt_keys_NoDup _ (rp_statuses _ _ _ history_state)) as Hk. unfold finished, bt_keys in *. clear history_state.
  induction (st_statuses state) as [|row rows IH]; [split; [done|constructor]|]. apply NoDup_cons in Hk as [Hx Hk].
  destruct IH as [IH1 IH2]; [intros r Hr; apply Hrow; by right|done|]. destruct (Hrow row ltac:(left)) as [Hc Hkey].
  rewrite !omap_cons_eq, Hc. destruct (finished_row row) as [s|] eqn:E; cbn [fmap option_fmap option_map map]; [|done].
  split; [f_equal; exact IH1|]. constructor; [|done]. intros (s' & Es & Hs')%list_elem_of_fmap. apply list_elem_of_omap in Hs' as (row' & Hin & E').
  destruct (Hrow row' ltac:(by right)) as [_ Hkey']. apply Hx. rewrite <- (Hkey s eq_refl), Es, (Hkey' s' E'). apply list_elem_of_fmap. by exists row'.
Qed.
End Rows.

Lemma staged_complete key l : staged key (map complete_of l) = [].
Proof. unfold staged. by induction l. Qed.
Lemma acknowledged_complete key l : acknowledged key (map complete_of l) = [].
Proof. unfold acknowledged. by induction l. Qed.
Lemma completed_complete key l : completed key (map complete_of l) = [] -> forall s, s ∈ l -> key_of_stored s <> key.
Proof.
  unfold completed. induction l as [|x l IH]; [by intros _ s ?%elem_of_nil|]. cbn. case_bool_decide as E; [done|].
  intros Hc s [->|Hs]%elem_of_cons; [done|by apply IH].
Qed.
Lemma completed_other key s : key_of_stored s <> key -> completed key [complete_of s] = [].
Proof. intros Hk. cbn. by rewrite bool_decide_false. Qed.

(** Completing one status leaves the others open. *)
Lemma ready_other max h state state' s s' :
  replayed max h state -> replayed max (h ++ [complete_of s]) state' -> key_of_stored s <> key_of_stored s' -> ready state s' -> ready state' s'.
Proof.
  intros Hr Hr' Hk (acks & Ho & Hp). exists acks. split; [|done].
  destruct (open_holds max h state _ _ _ _ Hr Ho) as (Es & _ & _ & Ea & Ec & _).
  rewrite <- (reverse_involutive acks). eapply open_of_history; [exact Hr'|..].
  - by rewrite staged_app, Es.
  - by rewrite completed_app, Ec, completed_other.
  - by rewrite acknowledged_app, Ea, app_nil_r.
Qed.

Section Settle.
Context `{UP : UrlParser} `{JD : JournalDisk} {JL : JournalLaws} `{HH : Hashes} {HHL : HashLaws HH} `{HX : Hex} `{JT : JsonText}.
Context `{JR : !Json RootMetadata} {JRL : JsonLaws RootMetadata} `{JE : !Json JournalEntry} {JEL : JsonLaws JournalEntry}.

Lemma append_all_completes max f todo all h state metadata w :
  1 <= max <= RELATION_SCHEDULE_BINDING_LIMIT -> dk_name f = JOURNAL_FILE -> current max all h state metadata w -> replayed max h state ->
  NoDup (map (fun s => key_of_stored s) todo) -> (forall s, s ∈ todo -> ready state s) ->
  match append_all max f metadata (map complete_of todo) w with
  | (Ok m, w') => exists chunks state', length chunks = length todo /\ w'.2 = state' /\ replayed max (h ++ map complete_of todo) state' /\
      current max (all ++ chunks) (h ++ map complete_of todo) state' m w'
  | (Err e, w') => e <> Full /\ some_of max all h (map complete_of todo) w'
  | (OutOfFuel, _) => False
  end.
Proof.
  intros Hmax Hf. revert all h state metadata w. induction todo as [|s todo IH]; intros all h state metadata w Hcur Hr Hn Hready; cbn [map append_all].
  { cbn. exists [], state. rewrite !app_nil_r. destruct (current_state max Hmax _ _ _ _ _ Hcur). done. }
  apply NoDup_cons in Hn as [Hx Hn]. destruct (Hready s ltac:(left)) as (acks & Ho & Hp).
  assert (validate_action state (complete_of s) max = Ok tt) as Hva.
  { cbn [validate_action complete_of]. apply (progress_spec max h); [done|]. by exists s, acks. }
  unfold sbind at 1. pose proof (appended max Hmax all h state metadata f (complete_of s) w Hf Hcur Hva) as Ha.
  destruct (append max f metadata (complete_of s) w) as [[m|e|] w1]; [| |done].
  - destruct Ha as (chunk & state' & _ & Hr' & Hcur').
    assert (forall s', s' ∈ todo -> ready state' s') as Hready'.
    { intros s' Hs'. eapply (ready_other max h state); [exact Hr|exact Hr'| |apply Hready; by right].
      intros E. apply Hx. rewrite E. apply list_elem_of_fmap. by exists s'. }
    specialize (IH _ _ _ _ w1 Hcur' Hr' Hn Hready'). destruct (append_all max f m (map complete_of todo) w1) as [[m'|e|] w2]; [| |done].
    + destruct IH as (chunks & state'' & Hl & Es & Hr'' & Hc). exists (chunk :: chunks), state''. rewrite <- !app_assoc in Hr''. rewrite <- (app_assoc all), <- (app_assoc h) in Hc. split_and!; [cbn; by rewrite Hl|done|exact Hr''|exact Hc].
    + destruct IH as [Hnf Hs]. split; [done|]. by eapply some_more.
  - destruct Ha as [Hnf (l & rest & E & Hg)]. split; [done|]. exists l, (rest ++ map complete_of todo). by rewrite app_assoc, <- E.
Qed.

(** C16: with the lock held and the files consistent, settling records the
    completion of exactly the statuses whose destinations were all
    acknowledged, and the deliveries returned are those of the settled
    journal. When it fails the journal holds some of those completions and
    stays consistent; it never fails for space. *)
Theorem settle_durable max all h w :
  1 <= max <= RELATION_SCHEDULE_BINDING_LIMIT -> consistent max all h w ->
  match settled_locked max w with
  | (Ok l, w') => exists todo state,
      grown max all h (map complete_of todo) w' /\ w'.2 = state /\ replayed max (h ++ map complete_of todo) state /\
      deliveries state l /\ (forall s, s ∈ todo -> all_in h s) /\
      forall s b acks, open_status state (key_of_stored s) b s acks -> all_destinations_acknowledged s acks = false
  | (Err e, w') => e <> Full /\ exists todo, some_of max all h (map complete_of todo) w' /\ forall s, s ∈ todo -> all_in h s
  | (OutOfFuel, _) => False
  end.
Proof.
  intros Hmax Hw. unfold settled_locked, sbind at 1. pose proof (resumed max Hmax all h w Hw) as Hres.
  destruct (resume max w) as [[[f metadata]|e|] w1]; [|destruct Hres as [Hnf Hc]; split; [done|]; exists []; split; [by apply some_none|by intros s ?%elem_of_nil]|done].
  destruct Hres as (Hf & state & Es & Hr & Hcur). unfold sbind at 1, settle_acknowledged, sbind at 1, get_state at 1. rewrite Es.
  destruct (completions_finished max h state Hr) as [-> Hn].
  assert (forall s, s ∈ finished state -> all_in h s) as Hall.
  { intros s Hs. apply (ready_all_in max h state Hr). by apply (finished_ready max h state Hr). }
  pose proof (append_all_completes max f (finished state) all h state metadata w1 Hmax Hf Hcur Hr Hn (finished_ready max h state Hr)) as Ha.
  destruct (append_all max f metadata (map complete_of (finished state)) w1) as [[m|e|] w2]; [| |done].
  2: { destruct Ha as [Hnf Hs]. split; [done|]. by exists (finished state). }
  destruct Ha as (chunks & state' & Hl & Es' & Hr' & Hcur'). unfold sbind at 1, get_state at 1. rewrite Es'.
  assert (grown max all h (map complete_of (finished state)) w2) as Hg.
  { exists chunks. split; [by rewrite length_map|]. by eapply current_consistent. }
  pose proof (pending_spec max (h ++ map complete_of (finished state)) state' Hr') as Hp.
  unfold slift. destruct (pending_deliveries state') as [l|e|]; [| |done].
  - exists (finished state), state'. split; [done|]. split; [done|]. split; [done|]. split; [done|]. split; [done|].
    intros s b acks Ho. destruct (all_destinations_acknowledged s acks) eqn:Ea; [|done]. exfalso.
    destruct (open_holds max _ state' _ b s acks Hr' Ho) as (E1 & -> & _ & E2 & E3 & _).
    rewrite staged_app, staged_complete, app_nil_r in E1. rewrite acknowledged_app, acknowledged_complete, app_nil_r in E2.
    rewrite completed_app in E3. apply app_eq_nil in E3 as [E3 E4].
    pose proof (open_of_history max h state (key_of_stored s) s (reverse acks) Hr E1 E3 E2) as Ho'. rewrite reverse_involutive in Ho'.
    apply (completed_complete _ _ E4 s); [|done]. apply (finished_elem max h state Hr). by exists acks.
  - destruct Hp as [-> _]. split; [done|]. exists (finished state). split; [by apply some_all|done].
Qed.
End Settle.

(** ** An example: a batch whose last acknowledgement was recorded *)

Section Example.
#[local] Existing Instances toy_hash toy_hash_laws memory_disk memory_journal root_json ex_known_json.
Definition ex_acknowledged : history :=
  example_history ++ [JournalAction.Acknowledge (b_ "docs") (b_ "c-2") no_digest ex_last_destination].
Definition ex_unsettled : World := closed_world ex_known 3 ex_acknowledged.

Lemma settle_durable_witness : exists todo w',
  settled_locked 3 ex_unsettled = (Ok [], w') /\ grown 3 (closed_store ex_known 3 ex_acknowledged).1 ex_acknowledged (map complete_of todo) w' /\
  length todo = 1%nat.
Proof.
  assert (consistent 3 (closed_store ex_known 3 ex_acknowledged).1 ex_acknowledged ex_unsettled) as Hc
    by (apply (closed_consistent ex_known); vm_compute; reflexivity).
  pose proof (settle_durable (JL := memory_laws) (JRL := root_json_laws) (JEL := entry_json_laws ex_known) 3 _ ex_acknowledged ex_unsettled ltac:(done) Hc) as H.
  destruct (settled_locked 3 ex_unsettled) as [r w'] eqn:E.
  assert (match r with Ok [] => true | _ => false end = true) as Hr.
  { apply (f_equal fst) in E. cbn [fst] in E. rewrite <- E. vm_compute. reflexivity. }
  assert (st_entry_count w'.2 = 7) as Hn by (apply (f_equal snd) in E; cbn [snd] in E; rewrite <- E; vm_compute; reflexivity).
  destruct r as [[|]|e|]; [|discriminate..]. destruct H as (todo & state & Hg & <- & Hrep & _ & Hall & _). exists todo, w'.
  split; [exact eq_refl|]. split; [exact Hg|].
  pose proof (rp_entries _ _ _ Hrep) as Hlen. rewrite Hn in Hlen. unfold len in Hlen. rewrite length_app, length_map in Hlen. cbn [length ex_acknowledged app example_history] in Hlen.
  lia.
Defined.
End Example.
