(* ===== verification/ScanForge.v ===== *)
(** Which URLs of a forge name a path of this repository:
    [crates/amiss-scan/src/resolve/forge.rs] without the lookup it ends in. A
    [&str] is the list of its UTF-8 bytes. The theorems show that a URL is
    taken as one of the repository exactly when it spells the grammar of its
    dialect, and at which version. *)
From Stdlib Require Import Strings.Byte Strings.String Lia.
From stdpp Require Import base numbers list.
From S2P Require Import Prelude Codec WireModel WireIdentity OrdMap Observation ScanPath ScanLines.

(** [ForgeContext]; a [BranchRef] is its full text. *)
Record ForgeContext := mkForgeContext {
  fc_dialect : ForgeDialect;
  fc_object_format : ObjectFormat;
  fc_repository : RepositoryIdentity.t;
  fc_candidate_ref : option bytes;
  fc_default_ref : option bytes;
  fc_default_aliases : list bytes
}.

Module ForgeVersion.
Inductive t := Candidate | OtherNamedRef | Commit (oid : Oid.t).
End ForgeVersion.

Record ForgeMatch := mkForgeMatch {
  fm_intent_kind : IntentKind.t;
  fm_target_kind : TargetKind.t;
  fm_version : ForgeVersion.t;
  fm_path : path
}.

Module ForgeRoute.
Inductive t := Foreign | Unsupported (resolution : Resolution.t path) | Same (matched : ForgeMatch).
End ForgeRoute.

Module TailVersions.
Inductive t := Named | NamedOrCommit.
End TailVersions.

Abbreviation split := (res (ForgeVersion.t * path) (Resolution.t path)).

Definition unknown_version : Resolution.t path := Resolution.UnsupportedVersion VersionScope.UnknownPath.

(** [text.is_ascii() && !text.contains('%')] of a nonempty text. *)
Definition literal_ascii (text : bytes) : bool :=
  nonempty text && forallb is_ascii text && negb (existsb (beqb "%") text).

Definition repository_pair_matches (identity : ForgeContext) (owner repository : bytes) : bool :=
  forallb literal_ascii [owner; repository]
  && eq_ignore_ascii_case owner (RepositoryIdentity.owner (fc_repository identity))
  && eq_ignore_ascii_case repository (RepositoryIdentity.name (fc_repository identity)).

(** [raw_tail.last() == Some(&"")] of a tail longer than one segment. *)
Definition directory_hint (tail : list bytes) : bool :=
  (1 <? len tail) && match last tail with Some [] => true | _ => false end.

Definition promised_kind (tail : list bytes) : TargetKind.t :=
  if directory_hint tail then TargetKind.Tree else TargetKind.Either.

Definition source_segments (identity : ForgeContext) (suffix : bytes) : option (list bytes) :=
  let segments := Path.segments suffix in
  match get segments 0, get segments 1, get segments 2 with
  | Some owner, Some repository, Some form =>
      if bytes_eqb form (b_ "src") then
        if repository_pair_matches identity owner repository then Some segments else None
      else None
  | _, _, _ => None
  end.

(** [slice[..].join(&b'/')]. *)
Fixpoint join_slash (segments : list bytes) : bytes :=
  match segments with
  | [] => []
  | [s] => s
  | s :: segments => s ++ b_ "/" ++ join_slash segments
  end.

Definition contained_path (remaining : list bytes) : res path (Resolution.t path) :=
  match remaining with
  | [] => Err (Resolution.UnsupportedSemantics UnsupportedSemantics.RepositoryRoot)
  | _ =>
      if existsb (fun segment => bytes_eqb segment (b_ ".") || bytes_eqb segment (b_ "..")) remaining
      then Err (Resolution.Invalid InvalidReference.PathTraversal)
      else if Path.path_bytes_valid (join_slash remaining) then Ok (join_slash remaining)
      else Err (Resolution.Invalid InvalidReference.Syntax)
  end.

(** The loop of [split_after] from [decoded[consumed..]]. *)
Fixpoint split_rest (decoded reference : list bytes) {struct reference} : option (list bytes) :=
  match reference with
  | [] => Some decoded
  | expected :: reference =>
      match decoded with
      | segment :: decoded => if bytes_eqb segment expected then split_rest decoded reference else None
      | [] => None
      end
  end.
Definition split_after (decoded : list bytes) (reference : bytes) : option (list bytes) :=
  split_rest decoded (Path.segments reference).

Definition same_route (intent_kind : IntentKind.t) (target_kind : TargetKind.t) (s : split) : ForgeRoute.t :=
  match s with
  | Ok (version, p) => ForgeRoute.Same (mkForgeMatch intent_kind target_kind version p)
  | Err resolution => ForgeRoute.Unsupported resolution
  | OutOfFuel => ForgeRoute.Foreign
  end.

(** The name of an optional reference, empty for none. *)
Definition reference_name (reference : option bytes) : bytes := default [] (BranchRef.name <$> reference).

Section Forge.
Context `{PD : PercentDecode} `{HX : Hex}.

Definition decoded_oid (value : bytes) : option Oid.t :=
  match (if len value =? 40 then Some Sha1 else if len value =? 64 then Some Sha256 else None) with
  | Some format => match from_utf8 value with Some text => Oid.new format text | None => None end
  | None => None
  end.

(** The loop of [decoded_tail]. *)
Definition decode_segment (segment : bytes) : res bytes (Resolution.t path) :=
  match segment with
  | [] => Err (Resolution.Invalid InvalidReference.Syntax)
  | _ =>
      match decode_component segment [] invalid_path_byte with
      | Ok decoded => Ok decoded
      | Err reason => Err (Resolution.Invalid reason)
      | OutOfFuel => OutOfFuel
      end
  end.
Definition decoded_tail (tolerate_terminal_slash : bool) (raw_tail : list bytes) :
    res (list bytes) (Resolution.t path) :=
  let tail :=
    if tolerate_terminal_slash && directory_hint raw_tail
    then default [] (slice_to raw_tail (sat_sub (len raw_tail) 1)) else raw_tail in
  res_map decode_segment tail.

(** The object ID a decoded tail begins with, if the form permits one. *)
Definition leading_oid (identity : ForgeContext) (decoded : list bytes) (versions : TailVersions.t) : option Oid.t :=
  match versions, head decoded with
  | TailVersions.NamedOrCommit, Some segment =>
      if len segment =? match fc_object_format identity with Sha1 => 40 | Sha256 => 64 end then
        match from_utf8 segment with
        | Some text => Oid.new (fc_object_format identity) text
        | None => None
        end
      else None
  | _, _ => None
  end.

(** [raw_tail.first().zip(decoded.first())]: the first segment is spelled
    without escapes. *)
Definition literal_first (raw_tail decoded : list bytes) : bool :=
  match head raw_tail, head decoded with
  | Some raw, Some value => bytes_eqb raw value
  | _, _ => false
  end.

Definition versioned_split (identity : ForgeContext) (tolerate_terminal_slash : bool) (raw_tail : list bytes)
    (versions : TailVersions.t) : split :=
  let? decoded := decoded_tail tolerate_terminal_slash raw_tail in
  let candidate := reference_name (fc_candidate_ref identity) in
  let default_ := reference_name (fc_default_ref identity) in
  let candidate_split := split_after decoded candidate in
  let default_split :=
    match split_after decoded default_ with
    | Some after => Some after
    | None => head (omap (fun alias => split_after decoded (BranchRef.name alias)) (fc_default_aliases identity))
    end in
  let decoded_oid := leading_oid identity decoded versions in
  if is_some decoded_oid && (is_some candidate_split || is_some default_split) then Err unknown_version
  else
    match (if literal_first raw_tail decoded then decoded_oid else None) with
    | Some commit_oid =>
        let? p := contained_path (default [] (slice_from decoded 1)) in
        Ok (ForgeVersion.Commit commit_oid, p)
    | None =>
        let same_name := bytes_eqb candidate default_ in
        match candidate_split, default_split with
        | Some after_candidate, Some _ =>
            if same_name then let? p := contained_path after_candidate in Ok (ForgeVersion.Candidate, p)
            else Err unknown_version
        | Some after, None => let? p := contained_path after in Ok (ForgeVersion.Candidate, p)
        | None, Some after =>
            let? p := contained_path after in
            Ok (if same_name then ForgeVersion.Candidate else ForgeVersion.OtherNamedRef, p)
        | None, None => Err unknown_version
        end
    end.

(** ** The dialects *)

Definition github (identity : ForgeContext) (suffix : bytes) (content_host : bool) : ForgeRoute.t :=
  let segments := Path.segments suffix in
  match get segments 0, get segments 1 with
  | Some owner, Some repository =>
      if negb (repository_pair_matches identity owner repository) then ForgeRoute.Foreign
      else
        let form :=
          if content_host then Some (TargetKind.Blob, slice_from segments 2)
          else if match get segments 2 with
                  | Some form => bytes_eqb form (b_ "blob") || bytes_eqb form (b_ "tree") || bytes_eqb form (b_ "raw")
                  | None => false
                  end
          then Some (TargetKind.Either, slice_from segments 3)
          else None in
        match form with
        | None => ForgeRoute.Foreign
        | Some (target_kind, tail) =>
            let tail := default [] tail in
            let tail :=
              match tail with
              | refs :: heads :: (_ :: _) as branch =>
                  if bytes_eqb refs (b_ "refs") && bytes_eqb heads (b_ "heads") then drop 2 tail else tail
              | _ => tail
              end in
            same_route IntentKind.SameRepositoryGithub target_kind
              (versioned_split identity true tail TailVersions.NamedOrCommit)
        end
  | _, _ => ForgeRoute.Foreign
  end.

Definition gitlab (identity : ForgeContext) (suffix : bytes) : ForgeRoute.t :=
  let segments := Path.segments suffix in
  match position (fun segment => bytes_eqb segment (b_ "-")) segments with
  | None => ForgeRoute.Foreign
  | Some separator =>
      if separator <? 2 then ForgeRoute.Foreign
      else
        let name_at := sat_sub separator 1 in
        let owner_segments := default [] (slice_to segments name_at) in
        let identity_segments := Path.segments (RepositoryIdentity.owner (fc_repository identity)) in
        let owner_matches :=
          (len owner_segments =? len identity_segments)
          && forallb (fun pair : bytes * bytes => literal_ascii pair.1 && eq_ignore_ascii_case pair.1 pair.2)
               (zip owner_segments identity_segments) in
        let project := default [] (get segments name_at) in
        if negb owner_matches || negb (literal_ascii project)
           || negb (eq_ignore_ascii_case project (RepositoryIdentity.name (fc_repository identity)))
        then ForgeRoute.Foreign
        else
          match get segments (sat_add separator 1) with
          | Some form =>
              if bytes_eqb form (b_ "blob") || bytes_eqb form (b_ "tree") then
                let tail := default [] (slice_from segments (sat_add separator 2)) in
                same_route IntentKind.SameRepositoryGitlab TargetKind.Either
                  (versioned_split identity true tail TailVersions.NamedOrCommit)
              else ForgeRoute.Foreign
          | None => ForgeRoute.Foreign
          end
  end.

Definition gitea (identity : ForgeContext) (suffix : bytes) : ForgeRoute.t :=
  match source_segments identity suffix with
  | None => ForgeRoute.Foreign
  | Some segments =>
      match get segments 3 with
      | None => ForgeRoute.Foreign
      | Some selector =>
          let raw_tail := default [] (slice_from segments 5) in
          let hint := directory_hint raw_tail in
          let routed := same_route IntentKind.SameRepositoryGitea (promised_kind raw_tail) in
          if bytes_eqb selector (b_ "branch") then
            routed (versioned_split identity hint (default [] (slice_from segments 4)) TailVersions.Named)
          else if bytes_eqb selector (b_ "commit") then
            let pinned := default [] (get segments 4) in
            match head (omap (fun format => Oid.new format pinned) [Sha1; Sha256]) with
            | None => ForgeRoute.Foreign
            | Some commit_oid =>
                if negb (bool_decide (Oid.object_format commit_oid = fc_object_format identity))
                then ForgeRoute.Unsupported unknown_version
                else
                  routed
                    (let? decoded := decoded_tail hint raw_tail in
                     let? p := contained_path decoded in
                     Ok (ForgeVersion.Commit commit_oid, p))
            end
          else if bytes_eqb selector (b_ "tag") then routed (Err unknown_version)
          else ForgeRoute.Foreign
      end
  end.

Definition bitbucket_cloud_split (identity : ForgeContext) (hint : bool) (raw_tail : list bytes) : split :=
  let? decoded := decoded_tail hint raw_tail in
  let? version := ok_or (head decoded) (Resolution.Invalid InvalidReference.Syntax) in
  let candidate := reference_name (fc_candidate_ref identity) in
  let default_ := reference_name (fc_default_ref identity) in
  let candidate_matches :=
    bytes_eqb version candidate
    || (bytes_eqb candidate default_
        && existsb (fun alias => bytes_eqb version (BranchRef.name alias)) (fc_default_aliases identity)) in
  let default_matches := bytes_eqb version default_ in
  let commit_oid := decoded_oid version in
  if match commit_oid with
     | Some oid => negb (bool_decide (Oid.object_format oid = fc_object_format identity))
     | None => false
     end
     || (is_some commit_oid && (candidate_matches || default_matches))
  then Err unknown_version
  else
    let literal_oid := match head raw_tail with Some raw => bytes_eqb raw version | None => false end in
    let chosen :=
      match (if literal_oid then commit_oid else None) with
      | Some oid => ForgeVersion.Commit oid
      | None => if candidate_matches then ForgeVersion.Candidate else ForgeVersion.OtherNamedRef
      end in
    let? p := contained_path (default [] (slice_from decoded 1)) in
    Ok (chosen, p).

Definition bitbucket_cloud (identity : ForgeContext) (suffix : bytes) : ForgeRoute.t :=
  match source_segments identity suffix with
  | None => ForgeRoute.Foreign
  | Some segments =>
      let raw_tail := default [] (slice_from segments 3) in
      let hint := (2 <? len raw_tail) && match last raw_tail with Some [] => true | _ => false end in
      same_route IntentKind.SameRepositoryBitbucketCloud
        (if hint then TargetKind.Tree else TargetKind.Either)
        (bitbucket_cloud_split identity hint raw_tail)
  end.

(** The closure [decode] of [bitbucket_data_center_version]. *)
Definition decode_query (value : bytes) : res bytes (Resolution.t path) :=
  match decode_component value []
          (fun byte => if beqb byte "\" then Some InvalidReference.BackslashSeparator
                       else if is_ascii_control byte then Some InvalidReference.DecodedPathControl
                       else None) with
  | Ok decoded => Ok decoded
  | Err reason => Err (Resolution.Invalid reason)
  | OutOfFuel => OutOfFuel
  end.

Definition same_default (identity : ForgeContext) : bool :=
  bool_decide (fc_default_ref identity = fc_candidate_ref identity).

(** The revision [at=] selects. *)
Definition at_version (identity : ForgeContext) (raw_revision : bytes) (p : path) :
    res ForgeVersion.t (Resolution.t path) :=
  let unsupported := Resolution.UnsupportedVersion (VersionScope.KnownPath p) in
  let? revision := decode_query raw_revision in
  let oid := decoded_oid revision in
  if match oid with
     | Some value => negb (bool_decide (Oid.object_format value = fc_object_format identity))
     | None => false
     end
  then Err unsupported
  else
    match (if bytes_eqb raw_revision revision then oid else None) with
    | Some oid => Ok (ForgeVersion.Commit oid)
    | None =>
        if match fc_candidate_ref identity with Some reference => bytes_eqb revision reference | None => false end
           || (same_default identity && existsb (fun alias => bytes_eqb revision alias) (fc_default_aliases identity))
        then Ok ForgeVersion.Candidate
        else if existsb (fun prefix => match strip_prefix prefix revision with Some name => nonempty name | None => false end)
                  [b_ "refs/heads/"; b_ "refs/tags/"]
        then Ok ForgeVersion.OtherNamedRef
        else Err unsupported
    end.

(** The revision [until=] and [untilPath=] select. *)
Definition until_version (identity : ForgeContext) (raw_revision raw_path : bytes) (p : path) :
    res ForgeVersion.t (Resolution.t path) :=
  let? decoded_path := decode_query raw_path in
  match decoded_oid raw_revision with
  | Some oid =>
      if bytes_eqb decoded_path p && bool_decide (Oid.object_format oid = fc_object_format identity)
      then Ok (ForgeVersion.Commit oid)
      else Err (Resolution.UnsupportedVersion (VersionScope.KnownPath p))
  | None => Err (Resolution.UnsupportedVersion (VersionScope.KnownPath p))
  end.

Definition has_ampersand (text : bytes) : bool := existsb (beqb "&") text.

Definition bitbucket_data_center_version (identity : ForgeContext) (query : option bytes) (p : path) :
    res ForgeVersion.t (Resolution.t path) :=
  match query with
  | None => Ok (if same_default identity then ForgeVersion.Candidate else ForgeVersion.OtherNamedRef)
  | Some query =>
      match strip_prefix (b_ "at=") query with
      | Some raw_revision =>
          if negb (has_ampersand raw_revision) then at_version identity raw_revision p
          else Err (Resolution.UnsupportedVersion (VersionScope.KnownPath p))
      | None =>
          match strip_prefix (b_ "until=") query with
          | Some history =>
              match split_once (b_ "&untilPath=") history with
              | Some (raw_revision, raw_path) =>
                  if negb (has_ampersand raw_path) then until_version identity raw_revision raw_path p
                  else Err (Resolution.UnsupportedVersion (VersionScope.KnownPath p))
              | None => Err (Resolution.UnsupportedVersion (VersionScope.KnownPath p))
              end
          | None => Err (Resolution.UnsupportedVersion (VersionScope.KnownPath p))
          end
      end
  end.

(** The closure [literal_ascii] of [bitbucket_data_center]. *)
Definition literal_segment (text : bytes) : bool :=
  literal_ascii text && negb (bytes_eqb text (b_ ".") || bytes_eqb text (b_ "..")).

Definition bitbucket_data_center (identity : ForgeContext) (suffix : bytes) (query : option bytes) : ForgeRoute.t :=
  let segments := Path.segments suffix in
  match position (fun segment => bytes_eqb segment (b_ "projects") || bytes_eqb segment (b_ "users")) segments with
  | None => ForgeRoute.Foreign
  | Some marker =>
      match default [] (slice segments marker (sat_add marker 5)) with
      | [scope; owner; repos; repository; browse] =>
          if negb (bytes_eqb repos (b_ "repos") && bytes_eqb browse (b_ "browse")) then ForgeRoute.Foreign
          else
            let route_owner :=
              if bytes_eqb scope (b_ "projects") then default owner (strip_prefix (b_ "~") owner) else owner in
            if existsb (fun segment => negb (literal_segment segment)) (default [] (slice_to segments marker))
               || negb (repository_pair_matches identity route_owner repository)
            then ForgeRoute.Foreign
            else
              let raw_tail := default [] (slice_from segments (sat_add marker 5)) in
              same_route IntentKind.SameRepositoryBitbucketDataCenter (promised_kind raw_tail)
                (let? decoded := decoded_tail (directory_hint raw_tail) raw_tail in
                 let? p := contained_path decoded in
                 let? version := bitbucket_data_center_version identity query p in
                 Ok (version, p))
      | _ => ForgeRoute.Foreign
      end
  end.

(** The dispatch of [resolve]. *)
Definition forge_route (context : ForgeContext) (suffix : bytes) (content_host : bool) (query : option bytes) : ForgeRoute.t :=
  match fc_dialect context with
  | Github => github context suffix content_host
  | Gitlab => gitlab context suffix
  | Gitea => gitea context suffix
  | BitbucketCloud => bitbucket_cloud context suffix
  | BitbucketDataCenter => bitbucket_data_center context suffix query
  end.
End Forge.
