(* ===== verification/ScanForgeUrl.v ===== *)
(** The grammar of the forge URLs that name a path of this repository, and the
    theorem that [ScanForge.forge_route] takes exactly these for its own. *)
From Stdlib Require Import Strings.Byte Strings.String Lia.
From stdpp Require Import base numbers list.
From S2P Require Import Prelude Codec WireModel WireIdentity OrdMap Observation ScanPath ScanLines ScanForge.

(** ** Joined segments *)

Definition slashless (s : bytes) : Prop := "/"%byte ∉ s.

Lemma segments_plain s : slashless s -> Path.segments s = [s].
Proof.
  unfold slashless. induction s as [|b s IH]; intros Hs; [done|]. apply not_elem_of_cons in Hs as [Hb Hs]. cbn.
  rewrite (proj2 (beqb_false_iff b "/")) by congruence. by rewrite IH.
Qed.

Lemma route_segments_cons s rest : slashless s -> Path.segments (s ++ b_ "/" ++ rest) = s :: Path.segments rest.
Proof.
  unfold slashless. induction s as [|b s IH]; intros Hs; [done|]. apply not_elem_of_cons in Hs as [Hb Hs]. cbn [app Path.segments].
  rewrite (proj2 (beqb_false_iff b "/")) by congruence. by rewrite IH.
Qed.

Lemma segments_join l : l <> [] -> Forall slashless l -> Path.segments (join_slash l) = l.
Proof.
  induction l as [|s [|s' l] IH]; intros Hl Hf; [done|..]; inversion Hf as [|?? Hs Hf']; subst.
  - by apply segments_plain.
  - cbn [join_slash]. rewrite route_segments_cons by done. f_equal. by apply IH.
Qed.

Lemma segments_nonempty l : Path.segments l <> [].
Proof. destruct l as [|b l]; [done|]. cbn. destruct (beqb b _); [done|]. by destruct (Path.segments l). Qed.

Lemma join_segments l : join_slash (Path.segments l) = l.
Proof.
  induction l as [|b l IH]; [done|]. cbn [Path.segments]. pose proof (segments_nonempty l).
  destruct (beqb b "/") eqn:E.
  - apply beqb_eq in E as ->. destruct (Path.segments l) as [|s ss]; [done|]. cbn in *. by rewrite IH.
  - destruct (Path.segments l) as [|s [|s' ss]]; [done|..]; cbn in *; by rewrite IH.
Qed.

Lemma segments_slashless l : Forall slashless (Path.segments l).
Proof.
  induction l as [|b l IH]; cbn; [repeat constructor; apply not_elem_of_nil|].
  destruct (beqb b "/") eqn:E; [constructor; [apply not_elem_of_nil|done]|].
  destruct IH as [|s ss Hs IH]; repeat constructor; try done.
  - apply not_elem_of_cons. split; [|apply not_elem_of_nil]. intros <-. by rewrite beqb_refl in E.
  - apply not_elem_of_cons. split; [|done]. intros <-. by rewrite beqb_refl in E.
Qed.

(** ** Decoded tails *)

Section Url.
Context `{PD : PercentDecode} `{HX : Hex} {HL : HexLaws HX}.

(** One segment and what its escapes decode to. *)
Definition decodes (raw segment : bytes) : Prop :=
  raw <> [] /\ decode_component raw [] invalid_path_byte = Ok segment.

(** A tail and its decoded segments, without the empty segment that a slash at
    the end leaves where it is tolerated. *)
Definition tail_decodes (tolerate : bool) (raw decoded : list bytes) : Prop :=
  Forall2 decodes raw decoded \/
  tolerate = true /\ exists kept, kept <> [] /\ raw = kept ++ [[]] /\ Forall2 decodes kept decoded.

Lemma decode_segment_Ok raw segment : decode_segment raw = Ok segment <-> decodes raw segment.
Proof.
  unfold decode_segment, decodes. destruct raw as [|b raw]; [naive_solver|].
  destruct (decode_component _ _ _); naive_solver.
Qed.

Lemma res_map_decodes raw decoded : res_map decode_segment raw = Ok decoded <-> Forall2 decodes raw decoded.
Proof.
  revert decoded. induction raw as [|s raw IH]; intros decoded; cbn.
  - split; [by intros [= <-]|]. by inversion 1.
  - split.
    + destruct (decode_segment s) eqn:E; [|done..]. destruct (res_map _ raw) eqn:Er; [|done..]. intros [= <-].
      constructor; [by apply decode_segment_Ok|by apply IH].
    + inversion 1 as [|? d ? ds Hd Hds]; subst. apply decode_segment_Ok in Hd as ->. by apply IH in Hds as ->.
Qed.

Lemma fold_invalid (f : Byte.byte -> option InvalidReference.t) decoded acc :
  fold_left (fun invalid_byte byte => match invalid_byte with Some r => Some r | None => f byte end) decoded acc = None <->
  acc = None /\ forall b, b ∈ decoded -> f b = None.
Proof.
  revert acc. induction decoded as [|b decoded IH]; intros acc; cbn.
  - split; [intros ->; split; [done|by intros ? ?%elem_of_nil]|by intros [-> _]].
  - rewrite IH. destruct acc; [naive_solver|]. split.
    + intros [Hb Hall]. split; [done|]. intros c [->|Hc]%elem_of_cons; auto.
    + intros [_ Hall]. split; [apply Hall; left|]. intros c Hc. apply Hall. by right.
Qed.

Lemma decodes_slashless raw segment : decodes raw segment -> slashless segment.
Proof.
  intros [_ H]. unfold decode_component in H. destruct (first_malformed_escape raw) eqn:Em.
  { by destruct (ok_or _ _). }
  cbn in H. destruct (fold_left _ _ None) eqn:Ef; [done|]. injection H as <-. cbn.
  apply fold_invalid in Ef as [_ Ef]. intros Hin. by specialize (Ef _ Hin).
Qed.

Lemma hint_spec raw : directory_hint raw = true <-> exists kept, kept <> [] /\ raw = kept ++ [[]].
Proof.
  unfold directory_hint. split.
  - destruct raw as [|x raw _] using rev_ind; [done|]. rewrite last_snoc. intros [Hlen Hl]%andb_prop.
    destruct x; [|done]. exists raw. split; [|done]. intros ->. by vm_compute in Hlen.
  - intros (kept & Hk & ->). rewrite last_snoc. unfold len. rewrite length_app. cbn. destruct kept; [done|]. cbn.
    rewrite andb_true_r. apply Z.ltb_lt. lia.
Qed.

Lemma decoded_tail_Ok tolerate raw decoded :
  rust_slice raw -> decoded_tail tolerate raw = Ok decoded <-> tail_decodes tolerate raw decoded.
Proof.
  intros Hr. unfold decoded_tail, tail_decodes. rewrite res_map_decodes.
  assert (forall kept, ~ Forall2 decodes (kept ++ [[]]) decoded) as Hno.
  { intros kept H. apply Forall2_app_inv_l in H as (? & ? & _ & H & _). inversion H as [|???? Hd]; subst. by destruct Hd. }
  destruct (directory_hint raw) eqn:E.
  - apply hint_spec in E as (kept & Hk & ->).
    assert (slice_to (kept ++ [[]]) (sat_sub (len (kept ++ [[]])) 1) = Some kept) as Hs.
    { apply slice_to_spec. exists [[]]. split; [done|]. unfold sat_sub, len. rewrite length_app. cbn. lia. }
    rewrite andb_true_r. destruct tolerate.
    + rewrite Hs. cbn. split; [intros H; right; split; [done|]; by exists kept|].
      intros [H|(_ & kept' & _ & Heq & H)]; [by apply Hno in H|]. apply app_inj_tail in Heq as [-> _]. done.
    + split; [by left|]. intros [H|[? _]]; [done|done].
  - rewrite andb_false_r. split; [by left|]. intros [H|(-> & kept & Hk & -> & _)]; [done|].
    exfalso. assert (directory_hint (kept ++ [[]]) = true) by (apply hint_spec; eauto). congruence.
Qed.

Lemma tail_slashless tolerate raw decoded : tail_decodes tolerate raw decoded -> Forall slashless decoded.
Proof.
  assert (forall l, Forall2 decodes l decoded -> Forall slashless decoded) as H.
  { intros l. induction 1; constructor; [by eapply decodes_slashless|done]. }
  intros [?|(_ & ? & _ & _ & ?)]; eauto.
Qed.

(** ** Contained paths *)

(** The segments that are left spell a path of the repository. *)
Definition contains (remaining : list bytes) (p : path) : Prop :=
  remaining = Path.segments p /\ Path.path_bytes_valid p = true.

Lemma contained_path_Ok remaining p :
  Forall slashless remaining -> contained_path remaining = Ok p <-> contains remaining p.
Proof.
  intros Hf. unfold contained_path, contains. destruct remaining as [|s remaining].
  { split; [done|]. intros [H _]. symmetry in H. by apply segments_nonempty in H. }
  set (l := s :: remaining) in *. assert (l <> []) as Hl by done. clearbody l. clear s remaining.
  destruct (existsb _ l) eqn:E.
  - split; [done|]. intros [-> Hv]. apply Path.path_bytes_valid_spec in Hv as (_ & _ & Hok).
    apply existsb_exists in E as (x & Hx & E). rewrite Forall_forall in Hok.
    apply list_elem_of_In in Hx. destruct (Hok _ Hx) as (_ & H1 & H2 & _).
    by apply orb_prop in E as [?%bytes_eqb_eq|?%bytes_eqb_eq].
  - destruct (Path.path_bytes_valid (join_slash l)) eqn:Ev.
    + split; [intros [= <-]; split; [by rewrite segments_join|done]|]. intros [-> _]. by rewrite join_segments.
    + split; [done|]. intros [-> Hv]. rewrite join_segments in Ev. congruence.
Qed.

(** ** Trusted references *)

(** The decoded segments begin with the name of a reference. *)
Definition begins (decoded : list bytes) (reference : bytes) (rest : list bytes) : Prop :=
  decoded = Path.segments reference ++ rest.
Definition absent (decoded : list bytes) (reference : bytes) : Prop := forall rest, ~ begins decoded reference rest.

Lemma split_rest_spec decoded reference rest : split_rest decoded reference = Some rest <-> decoded = reference ++ rest.
Proof.
  revert decoded. induction reference as [|e reference IH]; intros decoded; cbn; [split; congruence|].
  destruct decoded as [|s decoded]; [done|]. destruct (bytes_eqb s e) eqn:E.
  - apply bytes_eqb_eq in E as ->. rewrite IH. split; congruence.
  - apply bytes_eqb_neq in E. split; congruence.
Qed.
Lemma split_after_Some decoded reference rest : split_after decoded reference = Some rest <-> begins decoded reference rest.
Proof. apply split_rest_spec. Qed.
Lemma split_after_None decoded reference : split_after decoded reference = None <-> absent decoded reference.
Proof.
  destruct (split_after decoded reference) eqn:E.
  - apply split_after_Some in E. split; [done|]. intros H. by apply H in E.
  - split; [|done]. intros _ rest H. apply split_after_Some in H. congruence.
Qed.

Definition candidate_name (identity : ForgeContext) : bytes := reference_name (fc_candidate_ref identity).
Definition default_name (identity : ForgeContext) : bytes := reference_name (fc_default_ref identity).
(** The names of the default branch: its own, then its declared old ones. *)
Definition default_names (identity : ForgeContext) : list bytes :=
  default_name identity :: map BranchRef.name (fc_default_aliases identity).

(** The first name of the default branch that the segments begin with. *)
Definition first_begins (decoded : list bytes) (names : list bytes) (rest : list bytes) : Prop :=
  exists before name after, names = before ++ name :: after /\ Forall (absent decoded) before /\ begins decoded name rest.

Lemma first_begins_cons decoded name names rest :
  first_begins decoded (name :: names) rest <->
  begins decoded name rest \/ absent decoded name /\ first_begins decoded names rest.
Proof.
  split.
  - intros (before & n & after & Heq & Hf & Hb). destruct before as [|b before]; simplify_list_eq; [by left|].
    inversion Hf; subst. right. split; [done|]. by exists before, n, after.
  - intros [H|(Ha & before & n & after & -> & Hf & Hb)]; [by exists [], name, names|].
    exists (name :: before), n, after. split_and!; [done|by constructor|done].
Qed.

Lemma head_omap_begins decoded names rest :
  head (omap (fun name => split_after decoded name) names) = Some rest <-> first_begins decoded names rest.
Proof.
  induction names as [|n names IH]; cbn.
  - split; [done|]. by intros ([] & ? & ? & ? & _).
  - rewrite first_begins_cons. destruct (split_after decoded n) as [r|] eqn:E; cbn.
    + pose proof E as E'. apply split_after_Some in E. rewrite <- (split_after_Some decoded n rest).
      split; [intros [= ->]; by left|]. intros [H|[H _]]; [congruence|by apply H in E].
    + rewrite IH. pose proof E as E'. apply split_after_None in E'. split; [by right|]. intros [H|[_ H]]; [by apply E' in H|done].
Qed.

Definition default_split (identity : ForgeContext) (decoded : list bytes) : option (list bytes) :=
  match split_after decoded (default_name identity) with
  | Some after => Some after
  | None => head (omap (fun alias => split_after decoded (BranchRef.name alias)) (fc_default_aliases identity))
  end.

Lemma default_split_Some identity decoded rest :
  default_split identity decoded = Some rest <-> first_begins decoded (default_names identity) rest.
Proof.
  rewrite <- head_omap_begins. unfold default_split, default_names. cbn. destruct (split_after decoded _); [done|].
  assert (omap (fun alias => split_after decoded (BranchRef.name alias)) (fc_default_aliases identity)
    = omap (fun name => split_after decoded name) (map BranchRef.name (fc_default_aliases identity))) as ->; [|done].
  induction (fc_default_aliases identity) as [|a l IH]; [done|]. cbn. destruct (split_after decoded _); by rewrite IH.
Qed.

Lemma default_split_None identity decoded :
  default_split identity decoded = None <-> forall rest, ~ first_begins decoded (default_names identity) rest.
Proof.
  destruct (default_split identity decoded) eqn:E.
  - apply default_split_Some in E. split; [done|]. intros H. by apply H in E.
  - split; [|done]. intros _ rest H. apply default_split_Some in H. congruence.
Qed.

(** ** Versions *)

(** The object ID that the segments begin with where the form permits one. *)
Definition object_at (identity : ForgeContext) (versions : TailVersions.t) (decoded : list bytes) (oid : Oid.t) : Prop :=
  versions = TailVersions.NamedOrCommit /\
  exists text rest, decoded = text :: rest /\ Oid.new (fc_object_format identity) text = Some oid.

Lemma oid_new_text format text oid : Oid.new format text = Some oid ->
  len text = (match format with Sha1 => 40 | Sha256 => 64 end) /\ from_utf8 text = Some text /\ Oid.raw oid = text /\ Oid.object_format oid = format.
Proof.
  intros (b & Hl & -> & ->)%Oid.new_Some. unfold from_utf8. rewrite hex_encode_utf8. split_and!; try done.
  rewrite hex_encode_len, Hl. by destruct format.
Qed.

Lemma leading_oid_Some identity decoded versions oid :
  leading_oid identity decoded versions = Some oid <-> object_at identity versions decoded oid.
Proof.
  unfold leading_oid, object_at. destruct versions; [split; [done|by intros [? _]]|].
  destruct decoded as [|text rest]; cbn; [split; [done|by intros (_ & ? & ? & ? & _)]|]. split.
  - destruct (_ =? _); [|done]. unfold from_utf8. destruct (utf8_valid text); [|done]. intros H. split; [done|]. by exists text, rest.
  - intros (_ & ? & ? & [= <- <-] & H). pose proof (oid_new_text _ _ _ H) as (-> & -> & _).
    by destruct (fc_object_format identity); cbn.
Qed.

(** The version that decoded segments select, and the segments it leaves. A
    full object ID and a trusted reference at once select nothing. *)
Inductive selects (identity : ForgeContext) (versions : TailVersions.t) (raw decoded : list bytes) :
    ForgeVersion.t -> list bytes -> Prop :=
  | selects_commit oid rest :
      object_at identity versions decoded oid -> decoded = Oid.raw oid :: rest -> head raw = Some (Oid.raw oid) ->
      absent decoded (candidate_name identity) -> (forall rest, ~ first_begins decoded (default_names identity) rest) ->
      selects identity versions raw decoded (ForgeVersion.Commit oid) rest
  | selects_candidate rest :
      (forall oid, ~ object_at identity versions decoded oid) -> begins decoded (candidate_name identity) rest ->
      candidate_name identity = default_name identity \/ (forall rest, ~ first_begins decoded (default_names identity) rest) ->
      selects identity versions raw decoded ForgeVersion.Candidate rest
  | selects_alias rest :
      (forall oid, ~ object_at identity versions decoded oid) -> absent decoded (candidate_name identity) ->
      candidate_name identity = default_name identity -> first_begins decoded (default_names identity) rest ->
      selects identity versions raw decoded ForgeVersion.Candidate rest
  | selects_default rest :
      (forall oid, ~ object_at identity versions decoded oid) -> absent decoded (candidate_name identity) ->
      candidate_name identity <> default_name identity -> first_begins decoded (default_names identity) rest ->
      selects identity versions raw decoded ForgeVersion.OtherNamedRef rest.

(** A tail that spells a trusted version and a path under it. *)
Definition versioned (identity : ForgeContext) (tolerate : bool) (raw : list bytes) (versions : TailVersions.t)
    (version : ForgeVersion.t) (p : path) : Prop :=
  exists decoded rest, tail_decodes tolerate raw decoded /\ selects identity versions raw decoded version rest /\ contains rest p.

Lemma contained_bind {A} remaining (v : A) w p :
  Forall slashless remaining -> (let? p := contained_path remaining in Ok (v, p)) = Ok (w, p) <-> v = w /\ contains remaining p.
Proof.
  intros Hf. rewrite <- contained_path_Ok by done. destruct (contained_path remaining); naive_solver.
Qed.

Lemma first_begins_slashless decoded names rest : Forall slashless decoded -> first_begins decoded names rest -> Forall slashless rest.
Proof. intros Hf (? & ? & ? & _ & _ & Hb). unfold begins in Hb. subst. by apply Forall_app in Hf as [_ ?]. Qed.

Definition no_default (identity : ForgeContext) (decoded : list bytes) : Prop :=
  forall rest, ~ first_begins decoded (default_names identity) rest.

Lemma selects_object identity versions raw decoded oid version rest :
  object_at identity versions decoded oid ->
  selects identity versions raw decoded version rest <->
  version = ForgeVersion.Commit oid /\ decoded = Oid.raw oid :: rest /\ head raw = Some (Oid.raw oid) /\
  absent decoded (candidate_name identity) /\ no_default identity decoded.
Proof.
  intros Ho. split.
  - destruct 1 as [oid' rest Ho'|? Hn|? Hn|? Hn]; try by destruct (Hn oid).
    assert (oid' = oid) as ->; [|done]. destruct Ho as (_ & ? & ? & -> & Hn1), Ho' as (_ & ? & ? & [= <- <-] & Hn2). congruence.
  - intros (-> & ? & ? & ? & ?). by constructor.
Qed.

Lemma selects_named identity versions raw decoded version rest :
  (forall oid, ~ object_at identity versions decoded oid) ->
  selects identity versions raw decoded version rest <->
  version = ForgeVersion.Candidate /\ begins decoded (candidate_name identity) rest /\
    (candidate_name identity = default_name identity \/ no_default identity decoded) \/
  absent decoded (candidate_name identity) /\ first_begins decoded (default_names identity) rest /\
    version = if bytes_eqb (candidate_name identity) (default_name identity) then ForgeVersion.Candidate else ForgeVersion.OtherNamedRef.
Proof.
  intros Hn. split.
  - destruct 1 as [? ? Ho|?|? ? ? He|? ? ? He]; [by apply Hn in Ho|by left|right..]; split_and!; try done.
    + by rewrite He, (proj2 (bytes_eqb_eq _ _)).
    + by rewrite (proj2 (bytes_eqb_neq _ _)).
  - intros [(-> & ? & ?)|(? & ? & ->)]; [by constructor|]. destruct (bytes_eqb _ _) eqn:E.
    + apply bytes_eqb_eq in E. by apply selects_alias.
    + apply bytes_eqb_neq in E. by apply selects_default.
Qed.

Lemma begins_fun decoded name rest rest' : begins decoded name rest -> begins decoded name rest' -> rest = rest'.
Proof. unfold begins. intros -> H. by apply app_inv_head in H. Qed.
Lemma begins_slashless decoded name rest : Forall slashless decoded -> begins decoded name rest -> Forall slashless rest.
Proof. unfold begins. intros Hf ->. by apply Forall_app in Hf as [_ ?]. Qed.

(** What [versioned_split] selects of decoded segments that begin with no
    object ID. *)
Definition named_split (identity : ForgeContext) (decoded : list bytes) : split :=
  let same_name := bytes_eqb (candidate_name identity) (default_name identity) in
  match split_after decoded (candidate_name identity), default_split identity decoded with
  | Some after_candidate, Some _ =>
      if same_name then let? p := contained_path after_candidate in Ok (ForgeVersion.Candidate, p)
      else Err unknown_version
  | Some after, None => let? p := contained_path after in Ok (ForgeVersion.Candidate, p)
  | None, Some after =>
      let? p := contained_path after in
      Ok (if same_name then ForgeVersion.Candidate else ForgeVersion.OtherNamedRef, p)
  | None, None => Err unknown_version
  end.

Lemma named_split_Ok identity versions raw decoded version p :
  Forall slashless decoded -> (forall oid, ~ object_at identity versions decoded oid) ->
  named_split identity decoded = Ok (version, p) <->
  exists rest, selects identity versions raw decoded version rest /\ contains rest p.
Proof.
  intros Hf Hno. setoid_rewrite selects_named; [|done]. unfold named_split.
  destruct (split_after decoded (candidate_name identity)) as [after|] eqn:Ec.
  - apply split_after_Some in Ec. pose proof (begins_slashless _ _ _ Hf Ec) as Hfa.
    assert (forall r, absent decoded (candidate_name identity) -> ~ first_begins decoded (default_names identity) r) as Habs by (intros r Ha; by apply Ha in Ec).
    destruct (default_split identity decoded) as [d|] eqn:Ed.
    + apply default_split_Some in Ed. destruct (bytes_eqb _ _) eqn:Es.
      * apply bytes_eqb_eq in Es. rewrite contained_bind by done. split; [intros [<- Hc]; exists after; split; [left; split_and!; [done|done|by left]|done]|].
        intros (r & [(-> & Hb & _)|(Ha & Hb & _)] & Hcon); [|by apply Habs in Hb]. by rewrite (begins_fun _ _ _ _ Ec Hb).
      * apply bytes_eqb_neq in Es. split; [done|].
        intros (r & [(-> & Hb & [?|Hn])|(Ha & Hb & _)] & _); [done|by apply Hn in Ed|by apply Habs in Hb].
    + pose proof (proj1 (default_split_None _ _) Ed) as Hd. rewrite contained_bind by done. split; [intros [<- Hc]; exists after; split; [left; split_and!; [done|done|by right]|done]|].
      intros (r & [(-> & Hb & _)|(Ha & Hb & _)] & Hcon); [|by apply Habs in Hb]. by rewrite (begins_fun _ _ _ _ Ec Hb).
  - apply split_after_None in Ec. destruct (default_split identity decoded) as [after|] eqn:Ed.
    + pose proof Ed as Hd. apply default_split_Some in Hd. pose proof (first_begins_slashless _ _ _ Hf Hd) as Hfa.
      rewrite contained_bind by done. split; [intros [<- Hc]; exists after; split; [by right|done]|].
      intros (r & [(_ & Hb & _)|(_ & Hb & ->)] & Hcon); [by apply Ec in Hb|].
      apply default_split_Some in Hb. assert (r = after) as -> by congruence. done.
    + pose proof (proj1 (default_split_None _ _) Ed) as Hd. split; [done|].
      intros (r & [(_ & Hb & _)|(_ & Hb & _)] & _); [by apply Ec in Hb|by apply Hd in Hb].
Qed.

(** What [versioned_split] selects of decoded segments that begin with one. *)
Definition object_split (identity : ForgeContext) (raw decoded : list bytes) (oid : Oid.t) : split :=
  if is_some (split_after decoded (candidate_name identity)) || is_some (default_split identity decoded) then Err unknown_version
  else if literal_first raw decoded then let? p := contained_path (default [] (slice_from decoded 1)) in Ok (ForgeVersion.Commit oid, p)
  else named_split identity decoded.

Lemma literal_first_spec raw text rest : literal_first raw (text :: rest) = true <-> head raw = Some text.
Proof.
  unfold literal_first. cbn. destruct (head raw); [|done]. rewrite bytes_eqb_eq. split; [by intros ->|by intros [= ->]].
Qed.

Lemma object_split_Ok identity versions raw decoded oid version p :
  Forall slashless decoded -> object_at identity versions decoded oid ->
  object_split identity raw decoded oid = Ok (version, p) <->
  exists rest, selects identity versions raw decoded version rest /\ contains rest p.
Proof.
  intros Hf Ho. setoid_rewrite (selects_object _ _ _ _ _ _ _ Ho). unfold object_split.
  destruct Ho as (_ & text & rest & -> & Hnew). apply oid_new_text in Hnew as (_ & _ & Hraw & _). subst text. inversion Hf as [|? ? _ Hfr]; subst.
  destruct (split_after _ (candidate_name identity)) eqn:Ec; cbn [is_some is_none negb orb].
  { apply split_after_Some in Ec. split; [done|]. intros (? & (_ & _ & _ & Ha & _) & _). by apply Ha in Ec. }
  destruct (default_split identity _) eqn:Ed; cbn [is_some is_none negb orb].
  { apply default_split_Some in Ed. split; [done|]. intros (? & (_ & _ & _ & _ & Ha) & _). by apply Ha in Ed. }
  pose proof (proj1 (split_after_None _ _) Ec) as Hc. pose proof (proj1 (default_split_None _ _) Ed) as Hd.
  destruct (literal_first raw _) eqn:El.
  - apply literal_first_spec in El. assert (slice_from (Oid.raw oid :: rest) 1 = Some rest) as -> by apply (drop_len [Oid.raw oid] rest).
    cbn [default]. rewrite contained_bind by done. split; [intros [<- ?]; by exists rest|]. by intros (? & (-> & [= <-] & _) & ?).
  - unfold named_split. rewrite Ec, Ed. split; [done|]. intros (? & (_ & _ & Hh & _) & _).
    apply literal_first_spec with (rest := rest) in Hh. congruence.
Qed.

Lemma versioned_split_cases identity tolerate raw versions :
  versioned_split identity tolerate raw versions =
  let? decoded := decoded_tail tolerate raw in
  match leading_oid identity decoded versions with
  | Some oid => object_split identity raw decoded oid
  | None => named_split identity decoded
  end.
Proof.
  unfold versioned_split, object_split. destruct (decoded_tail tolerate raw) as [decoded|e|]; [|done..].
  fold (candidate_name identity) (default_name identity) (default_split identity decoded). fold (named_split identity decoded).
  destruct (leading_oid identity decoded versions) as [oid|]; cbn [is_some is_none negb andb]; [|by destruct (literal_first raw decoded)].
  destruct (_ || _); [done|]. by destruct (literal_first raw decoded).
Qed.

Lemma versioned_split_Ok identity tolerate raw versions version p :
  rust_slice raw ->
  versioned_split identity tolerate raw versions = Ok (version, p) <-> versioned identity tolerate raw versions version p.
Proof.
  intros Hr. rewrite versioned_split_cases. unfold versioned. setoid_rewrite <- decoded_tail_Ok; [|done..].
  destruct (decoded_tail tolerate raw) as [decoded|e|] eqn:Ed; [|split; [done|naive_solver]..].
  apply decoded_tail_Ok in Ed; [|done]. pose proof (tail_slashless _ _ _ Ed) as Hf.
  transitivity (exists rest, selects identity versions raw decoded version rest /\ contains rest p).
  2:{ split; [intros (rest & ? & ?); by exists decoded, rest|]. intros (? & rest & [= <-] & ? & ?). by exists rest. }
  destruct (leading_oid identity decoded versions) as [oid|] eqn:Eo.
  - apply leading_oid_Some in Eo. by apply object_split_Ok.
  - apply named_split_Ok; [done|]. intros oid Ho. apply leading_oid_Some in Ho. congruence.
Qed.

(** ** The grammar *)

(** A literal spelling of a part of the repository's identity. *)
Definition spells (text own : bytes) : Prop := literal_ascii text = true /\ eq_ignore_ascii_case text own = true.
Definition own_owner (identity : ForgeContext) : bytes := RepositoryIdentity.owner (fc_repository identity).
Definition own_name (identity : ForgeContext) : bytes := RepositoryIdentity.name (fc_repository identity).

(** GitHub also takes the branch as a full ref. *)
Definition branch_tail (tail branch : list bytes) : Prop :=
  tail = b_ "refs" :: b_ "heads" :: branch /\ branch <> [] \/
  branch = tail /\ forall rest, tail = b_ "refs" :: b_ "heads" :: rest -> rest = [].

Inductive github_url (identity : ForgeContext) (content_host : bool) (segments : list bytes) :
    TargetKind.t -> ForgeVersion.t -> path -> Prop :=
  | github_form owner repository form tail branch version p :
      content_host = false -> segments = owner :: repository :: form :: tail ->
      spells owner (own_owner identity) -> spells repository (own_name identity) ->
      form ∈ [b_ "blob"; b_ "tree"; b_ "raw"] -> branch_tail tail branch ->
      versioned identity true branch TailVersions.NamedOrCommit version p ->
      github_url identity content_host segments TargetKind.Either version p
  | github_raw owner repository tail branch version p :
      content_host = true -> segments = owner :: repository :: tail ->
      spells owner (own_owner identity) -> spells repository (own_name identity) -> branch_tail tail branch ->
      versioned identity true branch TailVersions.NamedOrCommit version p ->
      github_url identity content_host segments TargetKind.Blob version p.

(** GitLab names groups and project before the separator. *)
Definition gitlab_url (identity : ForgeContext) (segments : list bytes) (kind : TargetKind.t)
    (version : ForgeVersion.t) (p : path) : Prop :=
  exists owners project form tail,
    segments = (owners ++ [project]) ++ b_ "-" :: form :: tail /\ b_ "-" ∉ owners ++ [project] /\
    Forall2 spells owners (Path.segments (own_owner identity)) /\ spells project (own_name identity) /\
    form ∈ [b_ "blob"; b_ "tree"] /\ kind = TargetKind.Either /\
    versioned identity true tail TailVersions.NamedOrCommit version p.

Inductive gitea_url (identity : ForgeContext) (segments : list bytes) : TargetKind.t -> ForgeVersion.t -> path -> Prop :=
  | gitea_branch owner repository tail version p :
      segments = owner :: repository :: b_ "src" :: b_ "branch" :: tail ->
      spells owner (own_owner identity) -> spells repository (own_name identity) ->
      versioned identity (directory_hint (drop 1 tail)) tail TailVersions.Named version p ->
      gitea_url identity segments (promised_kind (drop 1 tail)) version p
  | gitea_commit owner repository pinned tail oid decoded p :
      segments = owner :: repository :: b_ "src" :: b_ "commit" :: pinned :: tail ->
      spells owner (own_owner identity) -> spells repository (own_name identity) ->
      Oid.new (fc_object_format identity) pinned = Some oid ->
      tail_decodes (directory_hint tail) tail decoded -> contains decoded p ->
      gitea_url identity segments (promised_kind tail) (ForgeVersion.Commit oid) p.

Lemma pair_matches identity owner repository :
  repository_pair_matches identity owner repository = true <->
  spells owner (own_owner identity) /\ spells repository (own_name identity).
Proof.
  unfold repository_pair_matches, spells, own_owner, own_name. cbn [forallb]. rewrite !andb_true_iff. naive_solver.
Qed.

Lemma same_route_Same kind target s m :
  same_route kind target s = ForgeRoute.Same m <->
  exists version p, s = Ok (version, p) /\ m = mkForgeMatch kind target version p.
Proof. destruct s as [[v p]|e|]; cbn; split; try done; [intros [= <-]; eauto|intros (? & ? & [= <- <-] & ->); done|by intros (? & ? & ? & _)..]. Qed.

Lemma rust_slice_tail {A} (x : A) l : rust_slice (x :: l) -> rust_slice l.
Proof. unfold rust_slice. rewrite len_cons. lia. Qed.

Lemma strip_heads tail branch :
  (match tail with
   | refs :: heads :: (_ :: _) as rest =>
       if bytes_eqb refs (b_ "refs") && bytes_eqb heads (b_ "heads") then drop 2 tail else tail
   | _ => tail
   end) = branch <-> branch_tail tail branch.
Proof.
  unfold branch_tail. destruct tail as [|r [|h [|b rest]]].
  - split; [intros <-; right; naive_solver|]. intros [[? _]|[-> _]]; done.
  - split; [intros <-; right; naive_solver|]. intros [[? _]|[-> _]]; done.
  - split; [intros <-; right; naive_solver|]. intros [[[= -> -> <-] ?]|[-> _]]; done.
  - destruct (bytes_eqb r _) eqn:E1; [apply bytes_eqb_eq in E1 as ->; destruct (bytes_eqb h _) eqn:E2|]; cbn [andb drop].
    + apply bytes_eqb_eq in E2 as ->. split; [intros <-; by left|]. intros [[[= <-] _]|[_ Hr]]; [done|by specialize (Hr _ eq_refl)].
    + apply bytes_eqb_neq in E2. split; [intros <-; right; split; [done|congruence]|]. intros [[? _]|[-> _]]; congruence.
    + apply bytes_eqb_neq in E1. split; [intros <-; right; split; [done|congruence]|]. intros [[? _]|[-> _]]; congruence.
Qed.

Lemma branch_tail_slice tail branch : branch_tail tail branch -> rust_slice tail -> rust_slice branch.
Proof. intros [[-> _]|[-> _]]; [|done]. by intros ?%rust_slice_tail%rust_slice_tail. Qed.

Lemma branch_tail_fun tail branch branch' : branch_tail tail branch -> branch_tail tail branch' -> branch = branch'.
Proof. intros H H'. apply strip_heads in H, H'. congruence. Qed.

Lemma form_spec (form : bytes) (l : list bytes) : existsb (bytes_eqb form) l = true <-> form ∈ l.
Proof.
  rewrite existsb_exists. setoid_rewrite bytes_eqb_eq. setoid_rewrite <- list_elem_of_In. naive_solver.
Qed.

Lemma github_Same identity suffix content_host m :
  rust_slice (Path.segments suffix) ->
  github identity suffix content_host = ForgeRoute.Same m <->
  exists kind version p, github_url identity content_host (Path.segments suffix) kind version p /\
    m = mkForgeMatch IntentKind.SameRepositoryGithub kind version p.
Proof.
  unfold github. generalize (Path.segments suffix) as segments. intros segments Hr.
  destruct segments as [|owner [|repository tail]]; try (split; [done|]; intros (? & ? & ? & H & _); by inversion H).
  replace (get (owner :: repository :: tail) 0) with (Some owner) by done.
  replace (get (owner :: repository :: tail) 1) with (Some repository) by done.
  destruct (repository_pair_matches identity owner repository) eqn:Ep; cbn [negb].
  2:{ split; [done|]. intros (? & ? & ? & H & _). inversion H as [? ? ? ? ? ? ? _ Heq Ho Hn|? ? ? ? ? ? _ Heq Ho Hn]; injection Heq as -> -> _;
      assert (repository_pair_matches identity owner0 repository0 = true) by (by apply pair_matches); congruence. }
  apply pair_matches in Ep as [Ho Hn]. apply rust_slice_tail, rust_slice_tail in Hr. destruct content_host.
  - replace (slice_from (owner :: repository :: tail) 2) with (Some tail) by (symmetry; apply (drop_len [owner; repository])). cbn [default].
    match goal with |- context [versioned_split _ _ ?b _] => pose proof (proj1 (strip_heads tail b) eq_refl) as Hb; set (branch := b) in * end.
    rewrite same_route_Same. setoid_rewrite versioned_split_Ok; [|by eapply branch_tail_slice]. split.
    + intros (v & p & Hv & ->). exists TargetKind.Blob, v, p. split; [by econstructor|done].
    + intros (? & v & p & H & ->). exists v, p. inversion H as [|? ? ? ? ? ? _ Heq _ _ Hb' Hv]; subst; [done|]. injection Heq as <- <- <-.
      by rewrite (branch_tail_fun _ _ _ Hb Hb').
  - destruct tail as [|form tail].
    { split; [done|]. intros (? & ? & ? & H & _). by inversion H. }
    replace (get (owner :: repository :: form :: tail) 2) with (Some form) by done.
    replace (_ || _ || _) with (existsb (bytes_eqb form) [b_ "blob"; b_ "tree"; b_ "raw"]) by (cbn [existsb]; by rewrite orb_false_r, orb_assoc).
    destruct (existsb _ _) eqn:Ef.
    2:{ split; [done|]. intros (? & ? & ? & H & _). inversion H as [? ? ? ? ? ? ? _ Heq _ _ Hf|]; [|done]. injection Heq as _ _ -> _.
        apply form_spec in Hf. congruence. }
    apply form_spec in Ef. replace (slice_from (owner :: repository :: form :: tail) 3) with (Some tail) by (symmetry; apply (drop_len [owner; repository; form])). cbn [default].
    match goal with |- context [versioned_split _ _ ?b _] => pose proof (proj1 (strip_heads tail b) eq_refl) as Hb; set (branch := b) in * end.
    apply rust_slice_tail in Hr. rewrite same_route_Same. setoid_rewrite versioned_split_Ok; [|by eapply branch_tail_slice]. split.
    + intros (v & p & Hv & ->). exists TargetKind.Either, v, p. split; [by eapply github_form|done].
    + intros (? & v & p & H & ->). exists v, p. inversion H as [? ? ? ? ? ? ? _ Heq _ _ _ Hb' Hv|]; subst; [|done]. injection Heq as <- <- <- <-.
      by rewrite (branch_tail_fun _ _ _ Hb Hb').
Qed.

Lemma owner_matches owners own :
  (len owners =? len own) && forallb (fun pair : bytes * bytes => literal_ascii pair.1 && eq_ignore_ascii_case pair.1 pair.2) (zip owners own) = true
  <-> Forall2 spells owners own.
Proof.
  revert own. induction owners as [|o owners IH]; intros [|w own]; rewrite ?len_nil, ?len_cons; cbn [zip_with forallb fst snd].
  - split; [constructor|done].
  - pose proof (len_nonneg own). rewrite (proj2 (Z.eqb_neq _ _)) by lia. split; [done|by inversion 1].
  - pose proof (len_nonneg owners). rewrite (proj2 (Z.eqb_neq _ _)) by lia. split; [done|by inversion 1].
  - replace (len owners + 1 =? len own + 1) with (len owners =? len own) by (apply eq_true_iff_eq; rewrite !Z.eqb_eq; lia).
    rewrite Forall2_cons, <- IH, !andb_true_iff. unfold spells. tauto.
Qed.

Lemma rust_slice_app_r {A} (l k : list A) : rust_slice (l ++ k) -> rust_slice k.
Proof. unfold rust_slice. rewrite len_app. pose proof (len_nonneg l). lia. Qed.

Lemma after_slice {A} (l k : list A) i : rust_slice (l ++ k) -> len l = i -> slice_from (l ++ k) i = Some k.
Proof. intros _ <-. apply drop_len. Qed.

Definition dash (segment : bytes) : bool := bytes_eqb segment (b_ "-").
Lemma no_dash l : Forall (fun y => dash y = false) l <-> b_ "-" ∉ l.
Proof. unfold dash. rewrite Forall_forall. setoid_rewrite bytes_eqb_neq. naive_solver. Qed.

Lemma dash_unique l1 r1 l2 r2 : b_ "-" ∉ l1 -> b_ "-" ∉ l2 -> l1 ++ b_ "-" :: r1 = l2 ++ b_ "-" :: r2 -> l1 = l2 /\ r1 = r2.
Proof.
  intros H1 H2 Heq. assert (l1 = l2) as ->.
  { revert Heq. apply (app_first_unique dash); [by apply no_dash..|done|done]. }
  by apply app_inv_head in Heq as [= ->].
Qed.

(** [gitlab] on a route with a separator, at its project. *)
Lemma gitlab_at identity suffix owners project rest :
  Path.segments suffix = (owners ++ [project]) ++ b_ "-" :: rest -> b_ "-" ∉ owners ++ [project] -> owners <> [] ->
  rust_slice (Path.segments suffix) ->
  gitlab identity suffix =
    if negb (bool_decide (Forall2 (fun o w => literal_ascii o = true /\ eq_ignore_ascii_case o w = true) owners (Path.segments (own_owner identity))))
       || negb (literal_ascii project) || negb (eq_ignore_ascii_case project (own_name identity))
    then ForgeRoute.Foreign
    else
      match rest with
      | form :: tail =>
          if existsb (bytes_eqb form) [b_ "blob"; b_ "tree"] then
            same_route IntentKind.SameRepositoryGitlab TargetKind.Either (versioned_split identity true tail TailVersions.NamedOrCommit)
          else ForgeRoute.Foreign
      | [] => ForgeRoute.Foreign
      end.
Proof.
  unfold gitlab. intros -> Hd Ho Hr. fold dash.
  rewrite (proj2 (position_spec dash _ (len (owners ++ [project])))) by (exists (owners ++ [project]), (b_ "-"), rest; by rewrite no_dash).
  assert (1 <= len owners) by (destruct owners; [done|rewrite len_cons; pose proof (len_nonneg owners); lia]).
  rewrite len_snoc. destruct (Z.ltb_spec (len owners + 1) 2); [lia|].
  replace (sat_sub (len owners + 1) 1) with (len owners) by (unfold sat_sub; lia).
  assert (sat_add (len owners + 1) 1 = len (owners ++ [project; b_ "-"]) /\ sat_add (len owners + 1) 2 = len (owners ++ [project; b_ "-"]) + 1) as [-> ->].
  { unfold rust_slice, sat_add, isize_max, usize_max, u64_max in *. rewrite !len_app, !len_cons, ?len_nil in *. pose proof (len_nonneg rest). lia. }
  assert ((owners ++ [project]) ++ b_ "-" :: rest = (owners ++ [project; b_ "-"]) ++ rest) as -> by by rewrite <- !app_assoc.
  assert (slice_to ((owners ++ [project; b_ "-"]) ++ rest) (len owners) = Some owners) as ->.
  { apply slice_to_spec. exists ([project; b_ "-"] ++ rest). by rewrite app_assoc. }
  assert (get ((owners ++ [project; b_ "-"]) ++ rest) (len owners) = Some project) as -> by (rewrite <- app_assoc; apply get_app_r).
  cbn [default]. unfold id. fold (own_owner identity) (own_name identity).
  assert ((len owners =? len (Path.segments (own_owner identity)))
    && forallb (fun pair : bytes * bytes => literal_ascii pair.1 && eq_ignore_ascii_case pair.1 pair.2) (zip owners (Path.segments (own_owner identity)))
    = bool_decide (Forall2 (fun o w => literal_ascii o = true /\ eq_ignore_ascii_case o w = true) owners (Path.segments (own_owner identity)))) as ->.
  { apply eq_true_iff_eq. by rewrite bool_decide_eq_true, owner_matches. }
  destruct (_ || _ || _); [done|]. destruct rest as [|form tail].
  - by rewrite get_app_end.
  - rewrite get_app_r. cbn [existsb]. rewrite orb_false_r. destruct (_ || _); [|done].
    replace (slice_from ((owners ++ [project; b_ "-"]) ++ form :: tail) (len (owners ++ [project; b_ "-"]) + 1)) with (Some tail); [done|].
    symmetry. apply slice_from_spec. exists ((owners ++ [project; b_ "-"]) ++ [form]). split; [by rewrite <- !app_assoc|by rewrite len_snoc].
Qed.

Lemma gitlab_Same identity suffix m :
  rust_slice (Path.segments suffix) ->
  gitlab identity suffix = ForgeRoute.Same m <->
  exists kind version p, gitlab_url identity (Path.segments suffix) kind version p /\
    m = mkForgeMatch IntentKind.SameRepositoryGitlab kind version p.
Proof.
  intros Hr. assert (forall owners, Forall2 spells owners (Path.segments (own_owner identity)) -> owners <> []) as Hne.
  { intros ? Ho ->. apply Forall2_nil_inv_l in Ho. by apply segments_nonempty in Ho. }
  assert (gitlab identity suffix = ForgeRoute.Same m -> exists owners project rest,
    Path.segments suffix = (owners ++ [project]) ++ b_ "-" :: rest /\ b_ "-" ∉ owners ++ [project] /\ owners <> []) as Hsep.
  { unfold gitlab. fold dash. destruct (position dash _) as [separator|] eqn:Epos; [|done].
    apply position_spec in Epos as (l1 & x & rest & -> & <- & ->%bytes_eqb_eq & Hl1%no_dash).
    destruct (Z.ltb_spec (len l1) 2) as [|Hge]; [done|]. intros _.
    destruct l1 as [|project owners _] using rev_ind; [done|]. exists owners, project, rest. split_and!; [done|done|].
    intros ->. rewrite len_snoc, len_nil in Hge. lia. }
  split.
  - intros H. destruct (Hsep H) as (owners & project & rest & Heq & Hd & Ho). rewrite (gitlab_at _ _ _ _ _ Heq Hd Ho Hr) in H.
    case_bool_decide as Hown; [|done]. destruct (literal_ascii project) eqn:E1, (eq_ignore_ascii_case project _) eqn:E2; cbn [negb orb] in H; try done.
    destruct rest as [|form tail]; [done|]. destruct (existsb _ _) eqn:Ef; [|done]. apply form_spec in Ef.
    apply same_route_Same in H as (v & p & Hv & ->). apply versioned_split_Ok in Hv.
    + exists TargetKind.Either, v, p. split; [|done]. by exists owners, project, form, tail.
    + rewrite Heq in Hr. by apply rust_slice_app_r, rust_slice_tail, rust_slice_tail in Hr.
  - intros (? & v & p & (owners & project & form & tail & Heq & Hd & Ho & [Hp1 Hp2] & Hf%form_spec & -> & Hv) & ->).
    rewrite (gitlab_at _ _ _ _ _ Heq Hd (Hne _ Ho) Hr). rewrite bool_decide_true by done. rewrite Hp1, Hp2, Hf. cbn [negb orb].
    apply same_route_Same. exists v, p. split; [|done]. apply versioned_split_Ok; [|done].
    rewrite Heq in Hr. by apply rust_slice_app_r, rust_slice_tail, rust_slice_tail in Hr.
Qed.
End Url.
