(* ===== verification/ScanForgeExact.v ===== *)
(** [ScanForge.forge_route] takes exactly the URLs of the forge grammars: the
    forms of Gitea and the two Bitbuckets, and the theorem over all dialects. *)
From Stdlib Require Import Strings.Byte Strings.String Lia.
From stdpp Require Import base numbers list.
From S2P Require Import Prelude Codec WireModel WireIdentity OrdMap Observation ScanPath ScanLines ScanForge ScanForgeUrl.

Section Exact.
Context `{PD : PercentDecode} `{HX : Hex} {HL : HexLaws HX}.

(** ** Gitea *)

Lemma source_segments_Some identity suffix segments :
  source_segments identity suffix = Some segments <->
  segments = Path.segments suffix /\ exists owner repository rest, segments = owner :: repository :: b_ "src" :: rest /\
    spells owner (own_owner identity) /\ spells repository (own_name identity).
Proof.
  unfold source_segments. destruct (Path.segments suffix) as [|owner [|repository [|form rest]]].
  1-3: split; [done|]; by intros (-> & ? & ? & ? & ? & _).
  replace (get (owner :: repository :: form :: rest) 0) with (Some owner) by done.
  replace (get (owner :: repository :: form :: rest) 1) with (Some repository) by done.
  replace (get (owner :: repository :: form :: rest) 2) with (Some form) by done.
  destruct (bytes_eqb form _) eqn:Ef.
  - apply bytes_eqb_eq in Ef as ->. destruct (repository_pair_matches _ _ _) eqn:Ep.
    + apply pair_matches in Ep as [Ho Hn]. split; [intros [= <-]; split; [done|]; by exists owner, repository, rest|]. by intros [-> _].
    + split; [done|]. intros (-> & ? & ? & ? & [= <- <- <-] & Hp). apply pair_matches in Hp. congruence.
  - apply bytes_eqb_neq in Ef. split; [done|]. by intros (-> & ? & ? & ? & [= _ _ -> _] & _).
Qed.

Lemma gitea_commit_split hint (raw : list bytes) oid version p :
  rust_slice raw ->
  (let? decoded := decoded_tail hint raw in
   let? p := contained_path decoded in
   Ok (ForgeVersion.Commit oid, p)) = Ok (version, p) <->
  version = ForgeVersion.Commit oid /\ exists decoded, tail_decodes hint raw decoded /\ contains decoded p.
Proof.
  intros Hr. setoid_rewrite <- (decoded_tail_Ok hint raw _ Hr). destruct (decoded_tail hint raw) as [decoded|e|] eqn:Ed; [|naive_solver..].
  apply decoded_tail_Ok, tail_slashless in Ed; [|done]. rewrite contained_bind by done. naive_solver.
Qed.

Lemma pinned_oid identity pinned :
  match head (omap (fun format => Oid.new format pinned) [Sha1; Sha256]) with
  | Some oid => Oid.new (Oid.object_format oid) pinned = Some oid
  | None => Oid.new (fc_object_format identity) pinned = None
  end.
Proof.
  cbn. destruct (Oid.new Sha1 pinned) as [o|] eqn:E1; cbn.
  { pose proof (oid_new_text _ _ _ E1) as (_ & _ & _ & ->). done. }
  destruct (Oid.new Sha256 pinned) as [o|] eqn:E2; cbn.
  { pose proof (oid_new_text _ _ _ E2) as (_ & _ & _ & ->). done. }
  by destruct (fc_object_format identity).
Qed.

Lemma oid_format f f' text oid oid' : Oid.new f text = Some oid -> Oid.new f' text = Some oid' -> f = f'.
Proof. intros (H & _)%oid_new_text (H' & _)%oid_new_text. rewrite H in H'. by destruct f, f'. Qed.

(** [gitea] on its recognised segments. *)
Lemma gitea_at identity suffix owner repository rest :
  source_segments identity suffix = Some (owner :: repository :: b_ "src" :: rest) ->
  gitea identity suffix =
    match rest with
    | [] => ForgeRoute.Foreign
    | selector :: rest =>
        let raw_tail := drop 1 rest in
        let routed := same_route IntentKind.SameRepositoryGitea (promised_kind raw_tail) in
        if bytes_eqb selector (b_ "branch") then
          routed (versioned_split identity (directory_hint raw_tail) rest TailVersions.Named)
        else if bytes_eqb selector (b_ "commit") then
          match head (omap (fun format => Oid.new format (default [] (head rest))) [Sha1; Sha256]) with
          | None => ForgeRoute.Foreign
          | Some commit_oid =>
              if negb (bool_decide (Oid.object_format commit_oid = fc_object_format identity))
              then ForgeRoute.Unsupported unknown_version
              else routed (let? decoded := decoded_tail (directory_hint raw_tail) raw_tail in
                           let? p := contained_path decoded in
                           Ok (ForgeVersion.Commit commit_oid, p))
          end
        else if bytes_eqb selector (b_ "tag") then routed (Err unknown_version)
        else ForgeRoute.Foreign
    end.
Proof.
  unfold gitea. intros ->. destruct rest as [|selector rest]; [done|].
  replace (get (owner :: repository :: b_ "src" :: selector :: rest) 3) with (Some selector) by done.
  assert (slice_from (owner :: repository :: b_ "src" :: selector :: rest) 4 = Some rest) as -> by apply (drop_len [owner; repository; b_ "src"; selector]).
  destruct rest as [|first rest]; [done|].
  assert (slice_from (owner :: repository :: b_ "src" :: selector :: first :: rest) 5 = Some rest) as -> by apply (drop_len [owner; repository; b_ "src"; selector; first]).
  done.
Qed.

Lemma gitea_Same identity suffix m :
  rust_slice (Path.segments suffix) ->
  gitea identity suffix = ForgeRoute.Same m <->
  exists kind version p, gitea_url identity (Path.segments suffix) kind version p /\
    m = mkForgeMatch IntentKind.SameRepositoryGitea kind version p.
Proof.
  intros Hr. destruct (source_segments identity suffix) as [segments|] eqn:Es.
  2:{ unfold gitea. rewrite Es. split; [done|]. intros (? & ? & ? & H & _).
      assert (exists segments, source_segments identity suffix = Some segments) as [? ?]; [|congruence].
      exists (Path.segments suffix). apply source_segments_Some. split; [done|].
      destruct H as [o r t ? ? Heq ? ? _|o r t ? ? ? ? Heq ? ? _ _ _]; rewrite Heq; eauto 10. }
  pose proof Es as Es'. apply source_segments_Some in Es' as (-> & owner & repository & rest & Heq & Ho & Hn).
  rewrite Heq in Es. rewrite (gitea_at _ _ _ _ _ Es). rewrite Heq in *. apply rust_slice_tail, rust_slice_tail, rust_slice_tail in Hr.
  destruct rest as [|selector rest]; [split; [done|]; intros (? & ? & ? & H & _); by inversion H|]. cbv zeta. apply rust_slice_tail in Hr.
  destruct (bytes_eqb selector _) eqn:Eb.
  { apply bytes_eqb_eq in Eb as ->. rewrite same_route_Same. setoid_rewrite versioned_split_Ok; [|done]. split.
    - intros (v & p & Hv & ->). exists (promised_kind (drop 1 rest)), v, p. split; [|done]. by eapply gitea_branch.
    - intros (? & v & p & H & ->). exists v, p. inversion H as [? ? ? ? ? Hs _ _ Hv|? ? ? ? ? ? ? Hs]; subst; [|done]. by injection Hs as -> -> ->. }
  destruct (bytes_eqb selector (b_ "commit")) eqn:Ec.
  - apply bytes_eqb_eq in Ec as ->. destruct rest as [|pinned rest].
    { cbn. split; [done|]. intros (? & ? & ? & H & _). by inversion H. }
    cbn [head default drop]. unfold id. rewrite drop_0. pose proof (pinned_oid identity pinned) as Hp. destruct (head (omap _ _)) as [oid|].
    2:{ split; [done|]. intros (? & ? & ? & H & _). inversion H as [? ? ? ? ? Hs|? ? ? ? ? ? ? Hs ? ? Hnew]; [done|]. injection Hs as _ _ -> _. congruence. }
    case_bool_decide as Hf; cbn [negb].
    + rewrite Hf in Hp. rewrite same_route_Same. setoid_rewrite gitea_commit_split; [|by apply rust_slice_tail in Hr]. split.
      * intros (v & p & (-> & decoded & Hd & Hc) & ->). exists (promised_kind rest), (ForgeVersion.Commit oid), p. split; [|done]. by eapply gitea_commit.
      * intros (? & v & p & H & ->). exists v, p. inversion H as [? ? ? ? ? Hs|? ? ? ? oid' decoded ? Hs ? ? Hnew Hd Hc]; [done|]. subst.
        injection Hs as -> -> -> ->. assert (oid' = oid) as -> by congruence. eauto.
    + split; [done|]. intros (? & ? & ? & H & _). inversion H as [? ? ? ? ? Hs|? ? ? ? ? ? ? Hs ? ? Hnew]; [done|]. injection Hs as _ _ -> _.
      by destruct Hf; apply (oid_format _ _ _ _ _ Hp Hnew).
  - assert (forall kind v p, ~ gitea_url identity (owner :: repository :: b_ "src" :: selector :: rest) kind v p) as Hno.
    { apply bytes_eqb_neq in Eb, Ec. intros ? ? ? H. inversion H as [? ? ? ? ? Hs|? ? ? ? ? ? ? Hs]; congruence. }
    destruct (bytes_eqb selector (b_ "tag")); (split; [done|]; intros (? & ? & ? & H & _); by apply Hno in H).
Qed.

(** ** Bitbucket Cloud *)

(** The text names the candidate branch: itself, or, on the default branch,
    one of its declared old names. *)
Definition names_candidate (identity : ForgeContext) (text : bytes) : Prop :=
  text = candidate_name identity \/
  candidate_name identity = default_name identity /\ text ∈ map BranchRef.name (fc_default_aliases identity).

Definition no_object (text : bytes) : Prop := forall format, Oid.new format text = None.

Inductive cloud_version (identity : ForgeContext) (raw : list bytes) (text : bytes) : ForgeVersion.t -> Prop :=
  | cloud_commit oid :
      Oid.new (fc_object_format identity) text = Some oid -> head raw = Some text ->
      ~ names_candidate identity text -> text <> default_name identity ->
      cloud_version identity raw text (ForgeVersion.Commit oid)
  | cloud_candidate :
      no_object text -> names_candidate identity text -> cloud_version identity raw text ForgeVersion.Candidate
  | cloud_other :
      ~ names_candidate identity text ->
      no_object text \/ (exists oid, Oid.new (fc_object_format identity) text = Some oid /\ text <> default_name identity /\ head raw <> Some text) ->
      cloud_version identity raw text ForgeVersion.OtherNamedRef.

Definition cloud_hint (tail : list bytes) : bool := (2 <? len tail) && match last tail with Some [] => true | _ => false end.

Definition cloud_url (identity : ForgeContext) (segments : list bytes) (kind : TargetKind.t) (version : ForgeVersion.t) (p : path) : Prop :=
  exists owner repository tail text rest,
    segments = owner :: repository :: b_ "src" :: tail /\ spells owner (own_owner identity) /\ spells repository (own_name identity) /\
    kind = (if cloud_hint tail then TargetKind.Tree else TargetKind.Either) /\
    tail_decodes (cloud_hint tail) tail (text :: rest) /\ cloud_version identity tail text version /\ contains rest p.

Lemma decoded_oid_Some text oid : decoded_oid text = Some oid <-> Oid.new (Oid.object_format oid) text = Some oid.
Proof.
  unfold decoded_oid. split.
  - destruct (if len text =? 40 then Some Sha1 else _) as [f|] eqn:Ef; [|done]. unfold from_utf8. destruct (utf8_valid text); [|done].
    intros H. pose proof (oid_new_text _ _ _ H) as (_ & _ & _ & ->). done.
  - intros H. pose proof (oid_new_text _ _ _ H) as (Hl & Hu & _ & _).
    assert ((if len text =? 40 then Some Sha1 else if len text =? 64 then Some Sha256 else None) = Some (Oid.object_format oid)) as ->.
    { rewrite Hl. by destruct (Oid.object_format oid). }
    by rewrite Hu.
Qed.

Lemma decoded_oid_None text : decoded_oid text = None <-> no_object text.
Proof.
  unfold no_object. split.
  - intros H f. destruct (Oid.new f text) as [oid|] eqn:E; [|done]. pose proof (oid_new_text _ _ _ E) as (_ & _ & _ & Hf).
    rewrite <- Hf in E. apply decoded_oid_Some in E. congruence.
  - intros H. destruct (decoded_oid text) as [oid|] eqn:E; [|done]. apply decoded_oid_Some in E. by rewrite H in E.
Qed.

Lemma names_candidate_spec identity text :
  bytes_eqb text (candidate_name identity)
  || (bytes_eqb (candidate_name identity) (default_name identity)
      && existsb (fun alias => bytes_eqb text (BranchRef.name alias)) (fc_default_aliases identity)) = true
  <-> names_candidate identity text.
Proof.
  unfold names_candidate. rewrite orb_true_iff, andb_true_iff, !bytes_eqb_eq, existsb_exists.
  setoid_rewrite bytes_eqb_eq. setoid_rewrite <- list_elem_of_In. rewrite list_elem_of_In, in_map_iff.
  setoid_rewrite <- list_elem_of_In. naive_solver.
Qed.

Lemma chosen_version identity raw text version :
  (if match decoded_oid text with
      | Some oid => negb (bool_decide (Oid.object_format oid = fc_object_format identity))
      | None => false
      end
      || (is_some (decoded_oid text) && ((bytes_eqb text (candidate_name identity)
           || (bytes_eqb (candidate_name identity) (default_name identity)
               && existsb (fun alias => bytes_eqb text (BranchRef.name alias)) (fc_default_aliases identity)))
          || bytes_eqb text (default_name identity)))
   then None
   else Some
     match (if match head raw with Some r => bytes_eqb r text | None => false end then decoded_oid text else None) with
     | Some oid => ForgeVersion.Commit oid
     | None => if bytes_eqb text (candidate_name identity)
           || (bytes_eqb (candidate_name identity) (default_name identity)
               && existsb (fun alias => bytes_eqb text (BranchRef.name alias)) (fc_default_aliases identity))
               then ForgeVersion.Candidate else ForgeVersion.OtherNamedRef
     end) = Some version <->
  cloud_version identity raw text version.
Proof.
  pose proof (names_candidate_spec identity text) as Hc. destruct (bytes_eqb text (candidate_name identity) || _) eqn:Em; clear Em.
  all: destruct (decoded_oid text) as [oid|] eqn:Eo; cbn [is_some is_none negb andb orb].
  - apply decoded_oid_Some in Eo. rewrite orb_true_r. split; [done|]. assert (names_candidate identity text) by tauto.
    by inversion 1 as [| Hn|]; subst; [|rewrite Hn in Eo|].
  - apply decoded_oid_None in Eo. assert (names_candidate identity text) as Hn by tauto.
    assert ((if match head raw with Some r => bytes_eqb r text | None => false end then @None Oid.t else None) = None) as -> by by destruct (match head raw with Some _ => _ | None => _ end).
    split; [intros [= <-]; by constructor|]. by inversion 1.
  - apply decoded_oid_Some in Eo. assert (~ names_candidate identity text) as Hn by (intros ?; by apply Hc in H).
    assert (forall oid', Oid.new (fc_object_format identity) text = Some oid' -> Oid.object_format oid = fc_object_format identity /\ oid' = oid) as Hu.
    { intros oid' H. pose proof (oid_format _ _ _ _ _ Eo H) as Hf. split; [done|]. congruence. }
    case_bool_decide as Hf; cbn [negb orb].
    2:{ split; [done|]. inversion 1 as [? H1| |? [H1|(? & H1 & _)]]; subst; [by apply Hu in H1 as [? _]|done|by rewrite H1 in Eo|by apply Hu in H1 as [? _]]. }
    rewrite Hf in Eo. destruct (bytes_eqb text (default_name identity)) eqn:Ed; cbn [orb].
    { apply bytes_eqb_eq in Ed. split; [done|]. inversion 1 as [| |? [H1|(? & H1 & ? & _)]]; subst; try done. by rewrite H1 in Eo. }
    apply bytes_eqb_neq in Ed.
    assert (head raw = Some text <-> match head raw with Some r => bytes_eqb r text | None => false end = true) as Hl.
    { destruct (head raw); [|done]. rewrite bytes_eqb_eq. naive_solver. }
    destruct (match head raw with Some r => bytes_eqb r text | None => false end).
    + assert (head raw = Some text) as Hh by tauto. split; [intros [= <-]; by constructor|].
      inversion 1 as [? H1| |? [H1|(? & H1 & ? & ?)]]; subst; [by apply Hu in H1 as [_ ->]|done|by rewrite H1 in Eo|done].
    + assert (head raw <> Some text) as Hh by (intros H; by apply Hl in H). split; [intros [= <-]; constructor; eauto|].
      inversion 1 as [? H1 ?| |? _]; subst; done.
  - apply decoded_oid_None in Eo. assert (~ names_candidate identity text) as Hn by (intros ?; by apply Hc in H).
    assert ((if match head raw with Some r => bytes_eqb r text | None => false end then @None Oid.t else None) = None) as -> by by destruct (match head raw with Some _ => _ | None => _ end).
    split; [intros [= <-]; constructor; auto|]. inversion 1 as [? H1| |]; subst; [by rewrite Eo in H1|done..].
Qed.

Lemma cloud_split_Ok identity hint raw version p :
  rust_slice raw ->
  bitbucket_cloud_split identity hint raw = Ok (version, p) <->
  exists text rest, tail_decodes hint raw (text :: rest) /\ cloud_version identity raw text version /\ contains rest p.
Proof.
  intros Hr. setoid_rewrite <- (decoded_tail_Ok hint raw _ Hr). unfold bitbucket_cloud_split.
  destruct (decoded_tail hint raw) as [decoded|e|] eqn:Ed; [|split; [done|naive_solver]..].
  apply decoded_tail_Ok, tail_slashless in Ed; [|done].
  destruct decoded as [|text rest]; [split; [done|naive_solver]|]. cbn [head ok_or]. inversion Ed as [|? ? _ Hf]; subst.
  assert (slice_from (text :: rest) 1 = Some rest) as -> by apply (drop_len [text]). cbn [default]. unfold id.
  fold (candidate_name identity) (default_name identity). cbv zeta.
  transitivity (cloud_version identity raw text version /\ contains rest p).
  2:{ split; [intros [? ?]; by exists text, rest|]. by intros (? & ? & [= <- <-] & ? & ?). }
  rewrite <- chosen_version. destruct (_ || _ && _); [split; [done|by intros [? _]]|].
  rewrite contained_bind by done. naive_solver.
Qed.

Lemma bitbucket_cloud_Same identity suffix m :
  rust_slice (Path.segments suffix) ->
  bitbucket_cloud identity suffix = ForgeRoute.Same m <->
  exists kind version p, cloud_url identity (Path.segments suffix) kind version p /\
    m = mkForgeMatch IntentKind.SameRepositoryBitbucketCloud kind version p.
Proof.
  intros Hr. unfold bitbucket_cloud. destruct (source_segments identity suffix) as [segments|] eqn:Es.
  2:{ split; [done|]. intros (? & ? & ? & (? & ? & ? & ? & ? & Heq & ? & ? & _) & _).
      assert (source_segments identity suffix = Some (Path.segments suffix)); [|congruence].
      apply source_segments_Some. split; [done|]. rewrite Heq. eauto 10. }
  apply source_segments_Some in Es as (-> & owner & repository & tail & Heq & Ho & Hn). rewrite Heq in *.
  assert (slice_from (owner :: repository :: b_ "src" :: tail) 3 = Some tail) as -> by apply (drop_len [owner; repository; b_ "src"]).
  cbn [default]. unfold id. fold (cloud_hint tail). apply rust_slice_tail, rust_slice_tail, rust_slice_tail in Hr.
  rewrite same_route_Same. setoid_rewrite cloud_split_Ok; [|done]. split.
  - intros (v & p & (text & rest & Hd & Hv & Hc) & ->). eexists _, v, p. split; [|done]. exists owner, repository, tail, text, rest. by split_and!.
  - intros (? & v & p & (? & ? & ? & text & rest & [= <- <- <-] & _ & _ & -> & Hd & Hv & Hc) & ->). eauto 10.
Qed.

(** ** Bitbucket Data Center *)

(** The revision names the candidate branch in full. *)
Definition candidate_text (identity : ForgeContext) (revision : bytes) : Prop :=
  fc_candidate_ref identity = Some revision \/
  fc_default_ref identity = fc_candidate_ref identity /\ revision ∈ fc_default_aliases identity.

Definition other_reference (revision : bytes) : Prop :=
  exists prefix name, prefix ∈ [b_ "refs/heads/"; b_ "refs/tags/"] /\ name <> [] /\ revision = prefix ++ name.

(** The revision is no object ID, or one of the repository's format that the
    URL spells with escapes. *)
Definition named_revision (identity : ForgeContext) (raw revision : bytes) : Prop :=
  forall format oid, Oid.new format revision = Some oid -> format = fc_object_format identity /\ raw <> revision.

Definition no_ampersand (text : bytes) : Prop := "&"%byte ∉ text.

(** The version a query selects for a path; none is the default branch. *)
Inductive query_version (identity : ForgeContext) (p : path) : option bytes -> ForgeVersion.t -> Prop :=
  | query_default : fc_default_ref identity = fc_candidate_ref identity -> query_version identity p None ForgeVersion.Candidate
  | query_not_default : fc_default_ref identity <> fc_candidate_ref identity -> query_version identity p None ForgeVersion.OtherNamedRef
  | query_commit raw oid :
      no_ampersand raw -> decode_query raw = Ok raw -> Oid.new (fc_object_format identity) raw = Some oid ->
      query_version identity p (Some (b_ "at=" ++ raw)) (ForgeVersion.Commit oid)
  | query_candidate raw revision :
      no_ampersand raw -> decode_query raw = Ok revision -> named_revision identity raw revision -> candidate_text identity revision ->
      query_version identity p (Some (b_ "at=" ++ raw)) ForgeVersion.Candidate
  | query_other raw revision :
      no_ampersand raw -> decode_query raw = Ok revision -> named_revision identity raw revision -> ~ candidate_text identity revision ->
      other_reference revision -> query_version identity p (Some (b_ "at=" ++ raw)) ForgeVersion.OtherNamedRef
  | query_until raw raw_path oid :
      no_ampersand raw_path -> decode_query raw_path = Ok p -> Oid.new (fc_object_format identity) raw = Some oid ->
      query_version identity p (Some (b_ "until=" ++ raw ++ b_ "&untilPath=" ++ raw_path)) (ForgeVersion.Commit oid).

Lemma has_ampersand_spec text : has_ampersand text = false <-> no_ampersand text.
Proof.
  unfold has_ampersand, no_ampersand. rewrite <- not_true_iff_false, existsb_exists. setoid_rewrite beqb_eq.
  setoid_rewrite <- list_elem_of_In. naive_solver.
Qed.

Lemma same_default_spec identity : same_default identity = true <-> fc_default_ref identity = fc_candidate_ref identity.
Proof. apply bool_decide_eq_true. Qed.

Lemma candidate_text_spec identity revision :
  match fc_candidate_ref identity with Some reference => bytes_eqb revision reference | None => false end
  || (same_default identity && existsb (fun alias => bytes_eqb revision alias) (fc_default_aliases identity)) = true
  <-> candidate_text identity revision.
Proof.
  unfold candidate_text. rewrite orb_true_iff, andb_true_iff, same_default_spec, existsb_exists.
  setoid_rewrite bytes_eqb_eq. setoid_rewrite <- list_elem_of_In.
  assert (match fc_candidate_ref identity with Some reference => bytes_eqb revision reference | None => false end = true <-> fc_candidate_ref identity = Some revision) as ->.
  { destruct (fc_candidate_ref identity); [rewrite bytes_eqb_eq; split; congruence|done]. }
  naive_solver.
Qed.

Lemma other_reference_spec revision :
  existsb (fun prefix => match strip_prefix prefix revision with Some name => nonempty name | None => false end)
    [b_ "refs/heads/"; b_ "refs/tags/"] = true <-> other_reference revision.
Proof.
  unfold other_reference. rewrite existsb_exists. setoid_rewrite <- list_elem_of_In. split.
  - intros (prefix & Hp & H). destruct (strip_prefix prefix revision) as [name|] eqn:E; [|done]. apply strip_prefix_Some in E.
    exists prefix, name. split_and!; [done|by intros ->|done].
  - intros (prefix & name & Hp & Hn & Heq). exists prefix. split; [done|]. apply strip_prefix_Some in Heq as ->. by destruct name.
Qed.

(** What [at=] selects, read off its revision. *)
Lemma at_query identity p raw version :
  query_version identity p (Some (b_ "at=" ++ raw)) version <->
  no_ampersand raw /\ exists revision, decode_query raw = Ok revision /\
    ((exists oid, revision = raw /\ Oid.new (fc_object_format identity) raw = Some oid /\ version = ForgeVersion.Commit oid) \/
     named_revision identity raw revision /\
       (candidate_text identity revision /\ version = ForgeVersion.Candidate \/
        ~ candidate_text identity revision /\ other_reference revision /\ version = ForgeVersion.OtherNamedRef)).
Proof.
  split.
  - inversion 1 as [| |raw' oid Ha Hd Ho Heq|raw' revision Ha Hd Hn Hc Heq|raw' revision Ha Hd Hn Hc Hr Heq|]; subst; (split; [done|]).
    + exists raw. split; [done|]. left. eauto.
    + exists revision. split; [done|]. right. auto.
    + exists revision. split; [done|]. right. auto.
  - intros (Ha & revision & Hd & [(oid & -> & ? & ->)|(? & [(? & ->)|(? & ? & ->)])]); by econstructor.
Qed.

Lemma at_version_Ok identity raw p version :
  no_ampersand raw ->
  at_version identity raw p = Ok version <-> query_version identity p (Some (b_ "at=" ++ raw)) version.
Proof.
  intros Ha. rewrite at_query. unfold at_version. destruct (decode_query raw) as [revision|e|] eqn:Ed; [|naive_solver..].
  transitivity ((exists oid, revision = raw /\ Oid.new (fc_object_format identity) raw = Some oid /\ version = ForgeVersion.Commit oid) \/
     named_revision identity raw revision /\
       (candidate_text identity revision /\ version = ForgeVersion.Candidate \/
        ~ candidate_text identity revision /\ other_reference revision /\ version = ForgeVersion.OtherNamedRef)).
  2:{ split; [intros H; split; [done|]; by exists revision|]. by intros (_ & ? & [= <-] & ?). }
  assert (forall o, named_revision identity raw revision -> o = (if bytes_eqb raw revision then decoded_oid revision else None) ->
    o = None) as Hnone.
  { intros o Hn ->. destruct (bytes_eqb raw revision) eqn:E; [|done]. apply bytes_eqb_eq in E.
    destruct (decoded_oid revision) as [oid|] eqn:Eo; [|done]. apply decoded_oid_Some in Eo. by apply Hn in Eo as [_ ?]. }
  pose proof (candidate_text_spec identity revision) as Hc. pose proof (other_reference_spec revision) as Hor.
  set (cand := _ || _) in *. set (oth := existsb _ [_; _]) in *.
  assert (named_revision identity raw revision ->
    (if cand then Ok ForgeVersion.Candidate else if oth then Ok ForgeVersion.OtherNamedRef
     else Err (Resolution.UnsupportedVersion (VersionScope.KnownPath p))) = Ok version <->
    named_revision identity raw revision /\
       (candidate_text identity revision /\ version = ForgeVersion.Candidate \/
        ~ candidate_text identity revision /\ other_reference revision /\ version = ForgeVersion.OtherNamedRef)) as Hnamed.
  { intros Hn. destruct cand, oth; naive_solver. }
  clearbody cand oth.
  destruct (decoded_oid revision) as [oid|] eqn:Eo.
  - apply decoded_oid_Some in Eo. case_bool_decide as Hf; cbn [negb].
    + rewrite Hf in Eo. destruct (bytes_eqb raw revision) eqn:E.
      * apply bytes_eqb_eq in E as <-. split; [intros [= <-]; left; eauto|].
        intros [(oid' & _ & Ho' & ->)|[Hn _]]; [congruence|]. by apply Hn in Eo as [_ ?].
      * apply bytes_eqb_neq in E. rewrite Hnamed; [naive_solver|]. intros f o Ho. split; [|done]. by apply (oid_format _ _ _ _ _ Ho Eo).
    + split; [done|]. intros [(oid' & -> & Ho' & ->)|[Hn _]]; [by destruct Hf; apply (oid_format _ _ _ _ _ Eo Ho')|by apply Hn in Eo as [? _]].
  - apply decoded_oid_None in Eo.
    assert ((if bytes_eqb raw revision then @None Oid.t else None) = None) as -> by by destruct (bytes_eqb raw revision).
    rewrite Hnamed; [|intros f o Ho; by rewrite Eo in Ho]. split; [by right|]. intros [(oid' & -> & Ho' & _)|?]; [by rewrite Eo in Ho'|done].
Qed.

Lemma hex_no_ampersand format text oid : Oid.new format text = Some oid -> no_ampersand text.
Proof.
  intros (b & _ & -> & _)%Oid.new_Some Hin. pose proof (hex_encode_digits b) as Hh.
  rewrite forallb_forall in Hh. apply list_elem_of_In in Hin. by apply Hh in Hin.
Qed.

Lemma until_version_Ok identity raw raw_path p version :
  until_version identity raw raw_path p = Ok version <->
  decode_query raw_path = Ok p /\ exists oid, Oid.new (fc_object_format identity) raw = Some oid /\ version = ForgeVersion.Commit oid.
Proof.
  unfold until_version. destruct (decode_query raw_path) as [q|e|]; [|naive_solver..].
  destruct (decoded_oid raw) as [oid|] eqn:Eo.
  - apply decoded_oid_Some in Eo. destruct (bytes_eqb q p) eqn:Eq; cbn [andb].
    + apply bytes_eqb_eq in Eq as ->. case_bool_decide as Hf.
      * rewrite Hf in Eo. split; [intros [= <-]; eauto|]. intros (_ & oid' & ? & ->). congruence.
      * split; [done|]. intros (_ & oid' & Ho & _). by destruct Hf; apply (oid_format _ _ _ _ _ Eo Ho).
    + apply bytes_eqb_neq in Eq. split; [done|]. by intros ([= ->] & _).
  - apply decoded_oid_None in Eo. split; [done|]. intros (_ & oid & Ho & _). by rewrite Eo in Ho.
Qed.

Lemma until_query identity p history version :
  query_version identity p (Some (b_ "until=" ++ history)) version <->
  exists raw raw_path, history = raw ++ b_ "&untilPath=" ++ raw_path /\ no_ampersand raw_path /\ until_version identity raw raw_path p = Ok version.
Proof.
  setoid_rewrite until_version_Ok. split.
  - inversion 1; subst. eauto 10.
  - intros (raw & raw_path & -> & ? & ? & oid & ? & ->). by constructor.
Qed.

Lemma query_version_Ok identity query p version :
  bitbucket_data_center_version identity query p = Ok version <-> query_version identity p query version.
Proof.
  unfold bitbucket_data_center_version. destruct query as [query|].
  2:{ pose proof (same_default_spec identity) as Hs. destruct (same_default identity).
      - split; [intros [= <-]; constructor; tauto|]. inversion 1; [done|tauto].
      - split; [intros [= <-]; constructor; naive_solver|]. inversion 1; naive_solver. }
  destruct (strip_prefix (b_ "at=") query) as [raw|] eqn:Ea.
  { apply strip_prefix_Some in Ea as ->. destruct (has_ampersand raw) eqn:Eh; cbn [negb].
    - split; [done|]. intros [Ha _]%at_query. apply has_ampersand_spec in Ha. congruence.
    - apply has_ampersand_spec in Eh. by apply at_version_Ok. }
  assert (forall raw, query <> b_ "at=" ++ raw) as Hna.
  { intros raw ->. by rewrite (proj2 (strip_prefix_Some _ _ raw)) in Ea. }
  destruct (strip_prefix (b_ "until=") query) as [history|] eqn:Eu.
  2:{ split; [done|]. inversion 1; subst; by destruct (Hna raw). }
  apply strip_prefix_Some in Eu as ->. rewrite until_query.
  destruct (split_once _ history) as [[raw raw_path]|] eqn:Es.
  - pose proof Es as Heq. apply split_once_Some in Heq as ->. destruct (has_ampersand raw_path) eqn:Eh; cbn [negb].
    + split; [done|]. intros (raw' & raw_path' & Heq & Hp & Hv). pose proof Hv as (_ & oid & Ho & _)%until_version_Ok.
      rewrite Heq, (split_once_app "&" (b_ "untilPath=")) in Es by by eapply hex_no_ampersand.
      injection Es as <- <-. apply has_ampersand_spec in Hp. congruence.
    + apply has_ampersand_spec in Eh. split; [intros Hv; by exists raw, raw_path|].
      intros (raw' & raw_path' & Heq & Hp & Hv). pose proof Hv as (_ & oid & Ho & _)%until_version_Ok.
      rewrite Heq, (split_once_app "&" (b_ "untilPath=")) in Es by by eapply hex_no_ampersand. by injection Es as <- <-.
  - split; [done|]. intros (raw' & raw_path' & -> & Hp & Hv). pose proof Hv as (_ & oid & Ho & _)%until_version_Ok.
    by rewrite (split_once_app "&" (b_ "untilPath=")) in Es by by eapply hex_no_ampersand.
Qed.

(** The owner that a project key names, also that of a personal repository. *)
Definition route_owner (scope owner own : bytes) : Prop :=
  scope = b_ "projects" /\ owner = b_ "~" ++ own \/
  owner = own /\ (scope <> b_ "projects" \/ forall rest, owner <> b_ "~" ++ rest).

Definition data_center_url (identity : ForgeContext) (query : option bytes) (segments : list bytes) (kind : TargetKind.t)
    (version : ForgeVersion.t) (p : path) : Prop :=
  exists prefix scope owner own repository tail decoded,
    segments = prefix ++ scope :: owner :: b_ "repos" :: repository :: b_ "browse" :: tail /\
    Forall (fun segment => literal_segment segment = true /\ segment ∉ [b_ "projects"; b_ "users"]) prefix /\
    scope ∈ [b_ "projects"; b_ "users"] /\ route_owner scope owner own /\
    spells own (own_owner identity) /\ spells repository (own_name identity) /\ kind = promised_kind tail /\
    tail_decodes (directory_hint tail) tail decoded /\ contains decoded p /\ query_version identity p query version.

Definition marker (segment : bytes) : bool := bytes_eqb segment (b_ "projects") || bytes_eqb segment (b_ "users").
Lemma marker_spec segment : marker segment = true <-> segment ∈ [b_ "projects"; b_ "users"].
Proof. unfold marker. rewrite <- form_spec. cbn [existsb]. by rewrite orb_false_r. Qed.
Lemma marker_none l : Forall (fun y => marker y = false) l <-> Forall (fun y => y ∉ [b_ "projects"; b_ "users"]) l.
Proof. apply Forall_iff. intros y. rewrite <- marker_spec. by destruct (marker y). Qed.

Lemma route_owner_spec scope owner own :
  (if bytes_eqb scope (b_ "projects") then default owner (strip_prefix (b_ "~") owner) else owner) = own <-> route_owner scope owner own.
Proof.
  unfold route_owner. destruct (bytes_eqb scope _) eqn:E.
  - apply bytes_eqb_eq in E as ->. destruct (strip_prefix (b_ "~") owner) as [rest|] eqn:Es; cbn [default]; unfold id.
    + apply strip_prefix_Some in Es as ->. split; [intros ->; by left|].
      intros [[_ H]|[_ [?|H]]]; [by apply app_inv_head in H|done|by destruct (H rest)].
    + split; [intros ->; right; split; [done|right]; intros rest ->; by rewrite (proj2 (strip_prefix_Some _ _ rest)) in Es|].
      intros [[_ ->]|[-> _]]; [by rewrite (proj2 (strip_prefix_Some _ _ own)) in Es|done].
  - apply bytes_eqb_neq in E. split; [intros ->; right; split; [done|by left]|]. by intros [[-> _]|[-> _]].
Qed.

Lemma data_center_split identity query hint raw version p :
  rust_slice raw ->
  (let? decoded := decoded_tail hint raw in
   let? p := contained_path decoded in
   let? version := bitbucket_data_center_version identity query p in
   Ok (version, p)) = Ok (version, p) <->
  exists decoded, tail_decodes hint raw decoded /\ contains decoded p /\ query_version identity p query version.
Proof.
  intros Hr. setoid_rewrite <- (decoded_tail_Ok hint raw _ Hr). setoid_rewrite <- query_version_Ok.
  destruct (decoded_tail hint raw) as [decoded|e|] eqn:Ed; [|naive_solver..].
  apply decoded_tail_Ok, tail_slashless in Ed; [|done]. transitivity (contains decoded p /\ bitbucket_data_center_version identity query p = Ok version).
  2:{ split; [intros [? ?]; by exists decoded|]. by intros (? & [= <-] & ? & ?). }
  rewrite <- contained_path_Ok by done. destruct (contained_path decoded) as [q|e|]; [|naive_solver..].
  destruct (bitbucket_data_center_version identity query q) eqn:Ev;
    (split; [intros H; simplify_eq; by rewrite Ev|intros [H Hv]; simplify_eq; congruence]).
Qed.

(** The five segments from the marker on, and what follows them. *)
Lemma window_add {A} (prefix rest : list A) n : rust_slice (prefix ++ rest) -> 0 <= n <= len rest + 5 -> sat_add (len prefix) n = len prefix + n.
Proof.
  intros Hr Hn. apply sat_add_small. unfold rust_slice in Hr. rewrite len_app in Hr. assert (isize_max + 5 < usize_max) by done. lia.
Qed.

Lemma window_short {A} (prefix : list A) scope rest :
  rust_slice (prefix ++ scope :: rest) -> len rest <= 3 -> slice (prefix ++ scope :: rest) (len prefix) (sat_add (len prefix) 5) = None.
Proof.
  intros Hr Hl. rewrite (window_add _ _ _ Hr) by (pose proof (len_nonneg (scope :: rest)); lia).
  destruct (slice _ _ _) as [l|] eqn:E; [|done]. apply slice_len in E as (_ & _ & E). rewrite len_app, len_cons in E. lia.
Qed.

Lemma window_after {A} (prefix window tail : list A) :
  rust_slice (prefix ++ window ++ tail) -> sat_add (len prefix) (len window) = len (prefix ++ window).
Proof.
  intros Hr. rewrite (window_add _ _ _ Hr), len_app; [done|]. rewrite len_app. pose proof (len_nonneg window). pose proof (len_nonneg tail). lia.
Qed.

Lemma window_exact {A} (prefix window tail : list A) :
  rust_slice (prefix ++ window ++ tail) ->
  slice (prefix ++ window ++ tail) (len prefix) (sat_add (len prefix) (len window)) = Some window /\
  slice_to (prefix ++ window ++ tail) (len prefix) = Some prefix /\
  slice_from (prefix ++ window ++ tail) (sat_add (len prefix) (len window)) = Some tail.
Proof.
  intros Hr. rewrite (window_after _ _ _ Hr). split_and!.
  - rewrite len_app. apply slice_app_mid.
  - apply slice_to_spec. eauto.
  - rewrite app_assoc. apply drop_len.
Qed.

(** [bitbucket_data_center] at the first segment that is a marker. *)
Lemma data_center_at identity suffix query prefix scope rest :
  Path.segments suffix = prefix ++ scope :: rest -> marker scope = true -> Forall (fun y => marker y = false) prefix ->
  rust_slice (Path.segments suffix) ->
  bitbucket_data_center identity suffix query =
    match rest with
    | owner :: repos :: repository :: browse :: tail =>
        if negb (bytes_eqb repos (b_ "repos") && bytes_eqb browse (b_ "browse")) then ForgeRoute.Foreign
        else if existsb (fun segment => negb (literal_segment segment)) prefix
               || negb (repository_pair_matches identity
                    (if bytes_eqb scope (b_ "projects") then default owner (strip_prefix (b_ "~") owner) else owner) repository)
        then ForgeRoute.Foreign
        else same_route IntentKind.SameRepositoryBitbucketDataCenter (promised_kind tail)
               (let? decoded := decoded_tail (directory_hint tail) tail in
                let? p := contained_path decoded in
                let? version := bitbucket_data_center_version identity query p in
                Ok (version, p))
    | _ => ForgeRoute.Foreign
    end.
Proof.
  unfold bitbucket_data_center. intros -> Hm Hp Hr. fold marker.
  rewrite (proj2 (position_spec marker _ (len prefix))) by (by exists prefix, scope, rest).
  destruct rest as [|owner [|repos [|repository [|browse tail]]]];
    try (by rewrite window_short by (first [done|by vm_compute])).
  destruct (window_exact prefix [scope; owner; repos; repository; browse] tail Hr) as (H1 & H2 & H3).
  cbn [app] in H1, H2, H3. change (len [scope; owner; repos; repository; browse]) with 5 in H1, H3. rewrite H1, H2, H3. cbn [default]. unfold id.
  reflexivity.
Qed.

Lemma literal_prefix prefix :
  existsb (fun segment => negb (literal_segment segment)) prefix = false <-> Forall (fun segment => literal_segment segment = true) prefix.
Proof.
  induction prefix as [|s prefix IH]; cbn; [split; [constructor|done]|].
  rewrite orb_false_iff, negb_false_iff, IH, Forall_cons. done.
Qed.

Lemma data_center_Same identity suffix query m :
  rust_slice (Path.segments suffix) ->
  bitbucket_data_center identity suffix query = ForgeRoute.Same m <->
  exists kind version p, data_center_url identity query (Path.segments suffix) kind version p /\
    m = mkForgeMatch IntentKind.SameRepositoryBitbucketDataCenter kind version p.
Proof.
  intros Hr. split.
  - intros H. assert (exists prefix scope rest, Path.segments suffix = prefix ++ scope :: rest /\ marker scope = true /\ Forall (fun y => marker y = false) prefix)
      as (prefix & scope & rest & Heq & Hm & Hp).
    { unfold bitbucket_data_center in H. fold marker in H. destruct (position marker _) as [i|] eqn:E; [|done].
      apply position_spec in E as (l1 & x & l2 & -> & _ & ? & ?). eauto 10. }
    rewrite (data_center_at _ _ _ _ _ _ Heq Hm Hp Hr) in H. destruct rest as [|owner [|repos [|repository [|browse tail]]]]; try done.
    destruct (bytes_eqb repos _) eqn:E1; [|done]. destruct (bytes_eqb browse _) eqn:E2; [|done]. cbn [andb negb] in H.
    apply bytes_eqb_eq in E1 as ->. apply bytes_eqb_eq in E2 as ->.
    destruct (existsb _ prefix) eqn:El; [done|]. destruct (repository_pair_matches _ _ _) eqn:Ep; [|done]. cbn [negb orb] in H.
    apply literal_prefix in El. apply pair_matches in Ep as [Ho Hn]. rewrite Heq in Hr.
    apply same_route_Same in H as (v & p & Hv & ->). apply data_center_split in Hv as (decoded & Hd & Hc & Hq).
    2:{ by apply rust_slice_app_r, rust_slice_tail, rust_slice_tail, rust_slice_tail, rust_slice_tail, rust_slice_tail in Hr. }
    eexists _, v, p. split; [|done]. eexists prefix, scope, owner, _, repository, tail, decoded. split_and!; try done.
    + apply Forall_and. split; [done|]. by apply marker_none.
    + by apply marker_spec.
    + by apply route_owner_spec.
  - intros (? & v & p & (prefix & scope & owner & own & repository & tail & decoded & Heq & Hp & Hm & Hro & Ho & Hn & -> & Hd & Hc & Hq) & ->).
    apply Forall_and in Hp as [Hl Hp]. apply marker_none in Hp. apply marker_spec in Hm.
    rewrite (data_center_at _ _ _ _ _ _ Heq Hm Hp Hr). rewrite !(proj2 (bytes_eqb_eq _ _) eq_refl). cbn [andb negb].
    apply literal_prefix in Hl as ->. apply route_owner_spec in Hro as ->. rewrite (proj2 (pair_matches _ _ _)) by done. cbn [negb orb].
    apply same_route_Same. exists v, p. split; [|done]. apply data_center_split; [|eauto]. rewrite Heq in Hr.
    by apply rust_slice_app_r, rust_slice_tail, rust_slice_tail, rust_slice_tail, rust_slice_tail, rust_slice_tail in Hr.
Qed.

(** ** All dialects *)

(** The URLs below the forge's host that name a path of the repository. *)
Definition forge_url (context : ForgeContext) (content_host : bool) (query : option bytes) (segments : list bytes)
    (kind : TargetKind.t) (version : ForgeVersion.t) (p : path) : Prop :=
  match fc_dialect context with
  | Github => github_url context content_host segments kind version p
  | Gitlab => gitlab_url context segments kind version p
  | Gitea => gitea_url context segments kind version p
  | BitbucketCloud => cloud_url context segments kind version p
  | BitbucketDataCenter => data_center_url context query segments kind version p
  end.

Definition forge_intent (dialect : ForgeDialect) : IntentKind.t :=
  match dialect with
  | Github => IntentKind.SameRepositoryGithub
  | Gitlab => IntentKind.SameRepositoryGitlab
  | Gitea => IntentKind.SameRepositoryGitea
  | BitbucketCloud => IntentKind.SameRepositoryBitbucketCloud
  | BitbucketDataCenter => IntentKind.SameRepositoryBitbucketDataCenter
  end.
End Exact.

Lemma segments_len l : len (Path.segments l) <= len l + 1.
Proof.
  induction l as [|b l IH]; [done|]. cbn [Path.segments]. rewrite len_cons.
  destruct (beqb b _); [rewrite len_cons; lia|]. destruct (Path.segments l); rewrite ?len_cons, ?len_nil in *; [pose proof (len_nonneg l)|]; lia.
Qed.

(** C34: a URL below the forge's host is taken for one of this repository exactly
    when it spells the dialect's grammar: the repository's owner and name, in any
    case, a version, and a path whose segments decode once to those of a valid
    repository path. GitHub, GitLab and Gitea: the version is in the path, one full
    object ID, or the candidate's or the default branch or an old name of the
    latter, never an object ID and a name at once, nor the candidate and another
    default branch. Bitbucket Cloud: one segment, a full object ID, the candidate's
    branch (or its old name, on the default branch), or another text, which is
    another named reference (an object ID only with escapes, of the repository's
    format). Data Center: in the query, none for the default branch, [at=] with a
    full object ID, the candidate's branch or its old name, or any other branch or
    tag, or [until=] with a full object ID and [untilPath=] with exactly that path.
    The match carries exactly that version and path. *)
Theorem forge_route_exact (PD : PercentDecode) (HX : Hex) (HL : HexLaws HX) context suffix content_host query m :
  len suffix < isize_max ->
  forge_route context suffix content_host query = ForgeRoute.Same m <->
  exists kind version p, forge_url context content_host query (Path.segments suffix) kind version p /\
    m = mkForgeMatch (forge_intent (fc_dialect context)) kind version p.
Proof.
  intros Hl. assert (rust_slice (Path.segments suffix)) as Hr by (unfold rust_slice; pose proof (segments_len suffix); lia).
  unfold forge_route, forge_url, forge_intent. destruct (fc_dialect context).
  - by apply github_Same.
  - by apply gitlab_Same.
  - by apply gitea_Same.
  - by apply bitbucket_cloud_Same.
  - by apply data_center_Same.
Qed.

(** GitHub, a branch of two segments, and a path with an escaped space. *)
Definition example_context : ForgeContext :=
  mkForgeContext Github Sha1 (RepositoryIdentity.mk (b_ "github.com") (b_ "amiss") (b_ "hardmax71"))
    (Some (b_ "refs/heads/release/1")) (Some (b_ "refs/heads/main")) [].

Lemma forge_route_exact_witness :
  forge_url (PD := fun text => default text (decode_escapes text)) (HX := rfc_hex) example_context false None
    (Path.segments (b_ "HardMax71/amiss/blob/release/1/docs/a%20b.md"))
    TargetKind.Either ForgeVersion.Candidate (b_ "docs/a b.md").
Proof.
  destruct (proj1 (forge_route_exact (fun text => default text (decode_escapes text)) rfc_hex rfc_hex_laws example_context
    (b_ "HardMax71/amiss/blob/release/1/docs/a%20b.md") false None
    (mkForgeMatch IntentKind.SameRepositoryGithub TargetKind.Either ForgeVersion.Candidate (b_ "docs/a b.md"))
    ltac:(vm_compute; reflexivity)) ltac:(vm_compute; reflexivity)) as (kind & version & p & Hu & Heq).
  injection Heq as <- <- <-. exact Hu.
Defined.
